(* ===== verification/_CoqProject ===== *)
-Q . S2P
Prelude.v
GoStrings.v
GoTime.v
Json.v
Models.v
RuleModels.v
EventOps.v
Filter.v
Mute.v
Relabel.v
Workflow.v
Engine.v
Processors.v
RuleOps.v
EventTable.v
Process.v
Subscription.v
Dispatch.v
Consume.v
Naming.v
Caches.v
Joins.v
Scheduler.v
Vars.v
Eval.v
Liveness.v
Queues.v
Http.v
Senders.v
Webhooks.v
Callbacks.v
Writers.v
Push.v
Idents.v
Hosts.v
Sources.v
Record.v
External.v
Channels.v
ChannelCache.v
Notify.v
WebProcessors.v
Users.v
Permissions.v
Ldap.v
Sessions.v
AlertRuleApi.v
RuleRequests.v
Interleave.v
Denoise.v
Incidents.v
Suppress.v
CustomMute.v
Bootstrap.v
CustomApi.v
CustomAudit.v
Witnesses.v
EngineWitnesses.v
PushWitnesses.v
NotifyWitnesses.v
UserWitnesses.v
RuleWitnesses.v
CustomWitnesses.v
