(* ===== verification/Prelude.v ===== *)
(** * Nightingale alerting core: a verification library

    Nightingale evaluates alert rules on monitoring data and tells people about
    the result; beside it, a gateway receives monitoring data and passes it on.
    This library models the path from the rules in the database to the
    notifications and the path of pushed data, and proves what each part promises
    to the next.

    ** The parts and their files

    An engine registers itself and learns which rules are its own
    ([Naming]: alert/naming, models/alerting_engine.go).  It copies the tables it
    needs ([Caches]: memsto).  Every few seconds it compares its rules with the
    workers it runs ([Scheduler]: alert/eval/alert_rule.go, [NewAlertRuleWorker],
    [Prepare]).  A worker evaluates its rule by its schedule ([Eval]:
    alert/eval/eval.go, pkg/parser), filling variables into queries ([Vars]) and
    joining the series of several queries ([Joins]), and hands anomaly points to
    the processor of the rule ([Process]: alert/process/process.go,
    models/anomaly_point.go).  The processor builds events, relabels them
    ([Relabel]: pushgw/writer/relabel.go), runs them through event pipelines
    ([Workflow], [Engine], [Processors], [WebProcessors]: alert/pipeline,
    models/workflow.go, models/event_pipeline.go), mutes them ([Filter], [Mute]: alert/mute,
    models/alert_mute.go, alert/common/key.go) and updates its tables of pending
    and firing events ([EventTable]: alert/process), from which events go to a
    queue.  The consumer writes them to the database and dispatches them
    ([Consume]: alert/dispatch/consume.go, models/alert_his_event.go), to the
    receivers of the rule, of notification rules and of subscriptions
    ([Dispatch], [Subscription]: alert/dispatch, models/notify_rule.go,
    models/alert_subscribe.go).  What a send does is in [Senders] (the channels and
    the mail goroutine: alert/sender), [Webhooks] (alert/sender/webhook.go, with the
    goroutines of the batch queues) and [Callbacks] (callbacks by domain, scripts,
    self-healing tasks, [Send]: alert/sender, alert/dispatch/dispatch.go); they use
    the queues of [Queues] (alert/sender/webhook_event_queue.go,
    pushgw/writer/queue.go) and the requests of [Http] (pkg/poster/post.go).  The
    messages of notification rules take another way: [Channels]
    (models/notify_channel.go, models/message_tpl.go) has the channels with their
    templates, signatures and ways of sending, [ChannelCache]
    (memsto/notify_channel_cache.go) the clients, queues and goroutines that are
    started and stopped as channels change, and [Notify] what
    [SendNotifyRuleMessage] (alert/dispatch/dispatch.go), the consumers of a queue
    and the mail goroutine of a channel do with a message.
    [External] has the handlers for events from outside (alert/router), which start
    the processors that the scheduler keeps for external rules.  [Record] has the
    recording rules (alert/record, models/recording_rule.go), which write results of
    queries back through the clients of [Sources] (models/datasource.go, prom,
    pkg/prom/writer.go, pkg/secu/rsa.go), where the center also encrypts data
    sources for edges.

    The push gateway takes samples in four protocols and adds the labels of their
    hosts ([Push]: pushgw/router, pushgw/pconf), queues them and writes them to its
    backends ([Writers]: pushgw/writer), and keeps the time of the last report of
    each host in redis and in the table ([Idents]: pushgw/idents, center/metas).
    [Hosts] joins the two paths: a host that pushes is not reported missing.

    Who may do what is on the side of the center.  [Users] has users, teams, business
    groups, roles and tokens as tables (models/user.go, models/user_group.go,
    models/busi_group.go and their members), the permissions, the middleware that
    checks them and the handlers that change teams and groups (center/router);
    [Permissions] proves what they keep.  [Ldap] (pkg/ldapx) logs users of a directory
    in and copies them to the tables.  [Sessions] (center/router/router_login.go,
    router_mw.go, router_captcha.go, memsto/user_token_cache.go) has passwords,
    captchas, and the sessions and tokens behind every request.  [AlertRuleApi]
    (center/router/router_alert_rule.go, models/alert_rule.go, models/prom_alert_rule.go)
    has the table of alert rules with the handlers by which users and services add,
    import, change, copy and delete them, and [RuleRequests] what they keep.

    This distribution adds features of its own against floods of notifications
    (internal/custom).  [Denoise] has the aggregator, a processor of pipelines that
    merges events with the same values of some labels into incidents and drops all but
    the first (denoise, with its rules, its cache of incidents, its detector of storms and
    its tables), and [Incidents] what it promises when any number of handlers run at once,
    in the step semantics of [Interleave].  [Suppress] has the rules by which one alert
    suppresses others, the index of causes, and the buffered record of what was
    suppressed (suppress, suppressrec).  [CustomMute] has mutes by cron schedules, the
    emergency switch, and the hook in which the mutes and the suppression are chained
    before an event is notified (mute, bootstrap/hooks.go).  [Bootstrap] loads and
    refreshes the rules of all three (bootstrap, refresher).  [CustomApi] has the routes
    by which operators change them (router), and [CustomAudit] proves what is recorded of
    a change and that a change takes effect.

    The data are in [Models] and [RuleModels] (the structs of models/, field by
    field), with their operations in [EventOps] (models/alert_cur_event.go) and
    [RuleOps] (models/alert_rule.go).  [GoStrings], [GoTime] and [Json] are the
    parts of the Go library the code uses; this file has record update, the
    panic and error monads, the iteration order of Go maps and machine integers.
    [Liveness] has a theorem about runs of evaluations; [Witnesses],
    [EngineWitnesses], [PushWitnesses], [NotifyWitnesses], [UserWitnesses],
    [RuleWitnesses] and [CustomWitnesses] apply the theorems to concrete configurations.

    ** How the code is modelled

    A function of the source is a function with its name, and an inner loop or
    branch that needs a name of its own is a function beside it.  A method that
    changes its receiver returns the new state.  [go A] is a computation that can
    panic, [result A] a pair of a value and an [error].  A Go map is a [gmap];
    ranging over it goes through the class [GoRange], which gives some
    permutation of the entries, so that theorems hold for every iteration order.
    Events are shared by pointer between the tables and the queue, and live in a
    heap ([EventTable]).  Where goroutines share a structure and the interleaving
    matters, each critical section is a step of a relation on a state with the
    position of every goroutine: the limited lists ([Queues.lstep]), the queues of
    webhooks ([Webhooks.gstep]), of samples ([Writers.pstep]) and of the tasks of a
    channel ([ChannelCache.qs_step]).  The aggregator is written as programs whose atoms
    are its critical sections and statements ([Interleave.prog]): run alone they are
    functions ([Interleave.run]), and a pool of them takes steps in any order, between
    steps of everything else ([Interleave.steps]), about which a small logic with tokens
    reasons ([Interleave.wp]).  [int64] arithmetic that can overflow is
    wrapped with [i64]; the tables of users and groups are lists of rows in a state
    monad whose statements can each fail and whose transactions are undone as a whole
    ([Users.sql]), with a small program logic in [Permissions]; redis is a map whose keys
    expire ([Sessions.redis_Set]); floats are exact rationals with the special values, and the percentage
    of missing hosts, where rounding decides, is computed in binary64.  Time is
    an argument.  Logs and metrics are left out.

    What the code gets from elsewhere is a class whose fields are the operations
    and, where a proof needs them, their documented laws: JSON ([Json]), regular
    expressions ([Regexp], [RegexpSub]), templates, MD5 and murmur3, cron
    ([CronLib], [CronSchedule]), the limited queue ([EventQueueLib]), SQL tables
    ([EventDB], [EngineTable], [CurEventRows]), redis ([Redis]), the hash ring
    ([ConsistentLib]), the prometheus client and parser ([PromClients],
    [PromParser]), data source plugins ([Datasources]), the expression library
    ([ExprLib]), the calls to the center ([CenterApi], [Poster]), and the registry
    of processors with the outside world they act on ([Runtime]).  On the side of
    sending and pushing: the HTTP client and its randomness ([Network], [UrlLib]),
    the mail connection, HTML templates ([HtmlTpl]), the queue of records
    ([RecordQueueLib]), the task service ([IbexLib]), processes and files ([Os]),
    protocol buffers, snappy and Kafka ([Codec]), name patterns and number parsing
    ([PromNames], [FloatLib]), redis pipelines and the table of targets
    ([RedisPipe], [TargetTable]), RSA and PEM ([Crypto]), certificates ([TlsLib]) and
    the prometheus client constructor ([ApiLib]); for channels, the queues of tasks
    ([TaskQueueLib]), templates ([TemplateLib]), hashes ([HashLib]), query strings
    ([QueryLib]) and the clock ([ClockLib]); for users, text checks ([UserLib]), the
    directory ([LdapServer]) and signed tokens ([JwtLib]); for the API of rules, columns by
    name ([RuleColumns]), translation and YAML ([ApiText]) and durations ([DurationLib]);
    for mutes, the cron library
    ([RobfigCron], whose documented law is that the next time is the first after the given
    one, and is found if there is one within five years, [RobfigLaws]); for columns with JSON,
    decoding into raw values and arrays ([RawJson], [RawJsonLaws]), which fails a whole query
    when one row cannot be decoded.  Of the custom API, as of the API of rules, it is an
    argument whether the ORM writes an update back into the struct it was given; what the
    hook of a trial run reads is one too.

    ** What is proved

    - [EventTable], [Process]: the tables of a processor stay well formed under
      every sequence of operations; what firing, repeating, inhibiting, waiting
      for the duration and recovering do; a firing alert whose condition holds is
      never lost, even when muted; events carry the identity of their point; the
      tables are rebuilt from the database as they should be.
    - [Liveness]: a condition that keeps holding leads to a firing alert, also in a group
      with other alerts, unless a more severe one inhibits it.
    - [Naming], [Scheduler]: the rings of an engine are those of the live servers,
      an engine that sends heartbeats stays alive, workers are prepared, started
      and stopped in order, and every rule that is not external runs on exactly one engine
      when the engines agree on the live servers, the rules and the data sources.
    - [Caches]: polling keeps the copies fresh, as far as the number of rows and the latest
      update tell versions of a table apart; what the caches of subscriptions,
      data sources and hosts contain.
    - [Eval], [Joins], [Vars]: which groups trigger and which recover; joins on
      the same labels are the relational joins; series without data are reported until they expire;
      missing hosts; a failing evaluation changes nothing; and, for rounds,
      evaluations and consumption in any order, the tables of all workers stay
      well formed ([Eval.engine_invariant]).
    - [Mute], [Filter], [Relabel]: when an event is muted, what filters decide,
      and that relabelling does not depend on iteration order.
    - [Engine], [Processors]: workflows terminate, run each node once after its
      predecessors, run a list of nodes as the list, and mask secrets.
    - [Consume], [Dispatch], [Subscription]: one row per alert in the table of
      current alerts, who is notified and who is not.
    - [RuleOps], [EventOps]: validation is sound, stored forms can be read back.
    - [Queues]: the queue of events is one list ordered by severity; the limited
      lists are first in, first out, and by how much they exceed their limit.
    - [Http], [Senders], [Webhooks], [Callbacks]: the center is reached when one of
      its addresses answers; every message leaves a record, no mail is lost, tasks
      run only where the author of the template may, and what batch mode loses.
    - [Channels], [ChannelCache], [Notify], [WebProcessors]: a message waits in the
      queue of its channel or leaves a record for every event and target; each
      channel has exactly the queue and goroutines it is configured for; what an
      edited channel loses; parameters are encoded as the provider asks and
      signatures do not depend on iteration order; services cannot drop an event.
    - [Writers], [Push], [Idents], [Hosts]: samples are conserved in open queues,
      backends do not disturb each other, labels are merged independently of
      iteration order, when a failed write is reported, and hosts stay alive.
    - [Permissions]: teams and business groups stay consistent under every sequence
      of requests and failing statements, and a request changes only what its user
      may change.
    - [RuleRequests]: the table of rules holds valid rules with distinct names in a group,
      and a request changes only rules of groups its user may write, for the routes that
      validate what they write; the routes that change fields and that copy rules for hosts
      need only the group of their URL.
    - [Ldap], [Sessions]: synchronising leaves exactly the users that the search of the
      directory returned, and what a failing search does; a session lives as long as configured and not
      after it was ended; failed logins lock a user out.
    - [Incidents]: in every interleaving incidents count their events, what was dropped
      is linked to its incident, and a storm is reported once; a burst becomes one
      incident; keys identify the values of the dimensions; failures let events pass.
    - [Suppress], [CustomMute]: what is suppressed has a cause, and what has one is
      suppressed; the sink loses nothing but what it counts; a schedule mutes after it
      fired; the chain of hooks withholds exactly what one of them withholds.
    - [Bootstrap], [CustomAudit]: lists in columns can be read back, a failing reload
      keeps the last rules; changes need an administrator and are recorded, except
      trial runs; a rule is loaded as it was saved while every enabled row can be decoded;
      the emergency switch takes effect while its row can be read.
    - [Sources], [Record], [External]: clients follow the table, settings reach an
      edge encrypted and complete, recording rules convert results without panic
      and run once per owned data source, and external events reach the owner of
      their rule and keep its tables well formed.

    Some theorems state behaviour the code hardly means to have, such as
    [Joins.ProcessJoins_forgets], [Eval.GetPromAnomalyPoint_no_client],
    [Scheduler.NewAlertRuleWorker_panics], [EventTable.queued_event_recovers],
    [Webhooks.batch_swallows_event], [Hosts.edge_posts_overwritten],
    [ChannelCache.update_abandons], [Notify.cmail_turn_accounted],
    [Sources.encrypt_failure_leaks], [Ldap.ldap_search_failure],
    [Sessions.captcha_unlocks], [RuleRequests.fields_of_any_group],
    [RuleRequests.callback_add_replaces], [RuleRequests.clone_gives_up] or
    [Permissions.deleted_team_stays_member].

    ** Fuel

    Two loops are not structural.  [Engine.executeDAG] runs with one more turn
    than there are entries in the map of in-degrees, as a node enters the queue
    at most once; [Engine.executeDAG_terminates] shows that it never runs out.
    [Vars.ExtractVarMapping] runs with the length of the expression plus one, as
    each turn drops a brace; [Vars.ExtractVarMapping_fuel] shows that more makes no
    difference.  [Callbacks.runes_from] and the scans of strings run with the length of
    the string, of which each turn drops a byte.  Loops with a counter ([spq_PopN_loop], [PopBack_loop], retries)
    recurse on the counter.

    ** Limits

    A Go string is a sequence of bytes; white space and case are those of ASCII
    (other case mappings are a parameter).  Queries that the code runs
    concurrently run one after the other, in some order.  Sorting the hashes of a
    group is done on a copy: the code sorts in place, which only a later join on
    the metric name itself could see.  A transaction is one step, and a handler of the
    aggregator that runs alone reads one time; durations of schedules are at most five
    years, and windows and times to live below 2^62 seconds, where their theorems need it
    to exclude overflow.  The caches share the polling protocol; its
    locks are not modelled, and a cache is replaced as a whole.  In [Writers] the test of the
    length of a queue and the push after it are one step, where the code takes the lock
    twice.  In [EventTable] the consumer only takes events from the queue; what it changes
    in them is in [Consume].  The rows of suppressed events are written by the sink of
    [Suppress], apart from the table that the custom API lists.

    ** Not modelled

    The handlers of the center other than those of logins, teams, business groups and
    alert rules (of which the trial of a notification is left out) and of the custom API,
    whose paths and binding of bodies are left out too;
    single sign-on other than with a directory; boards; the built-in
    channels and templates, which are data; building of SQL conditions, queries and upgrades of tables;
    the decoding of request bodies; the data source plugins; unit formatting;
    start-up, configuration and metrics.  Most of it is input and output around the
    parts above, or not part of deciding what alerts. *)

From stdpp Require Export base tactics strings list gmap fin_maps sorting.
From Stdlib Require Export ZArith Lia.

Open Scope Z_scope.

(** ** Record update

    [r <| f := v |>] is the record [r] with the field [f] replaced.  The
    update function of a field is synthesised from the eta-expansion of the
    record type, which each record declares once as a [Settable] instance. *)

Class Settable (R : Type) := settable_eta : R → R.
Class Setter {R T : Type} (p : R → T) := set_with : (T → T) → R → R.
Definition set {R T : Type} (p : R → T) {S : Setter p} (h : T → T) (r : R) : R :=
  @set_with R T p S h r.

Ltac derive_setter p :=
  match type of p with
  | ?R → ?T =>
      let i := constr:(ltac:(typeclasses eauto) : Settable R) in
      let e := eval hnf in (@settable_eta R i) in
      let g := eval pattern p in e in
      match g with
      | ?q _ => exact (fun h : T → T => q (fun r => h (p r)))
      end
  end.

#[export] Hint Extern 1 (Setter ?p) => derive_setter p : typeclass_instances.
#[global] Arguments set {R T} p {S} h r : simpl never.

Declare Scope record_scope.
Delimit Scope record_scope with rec.
Notation "r <| p := v |>" := (set p (fun _ => v) r)
  (at level 1, left associativity, p at level 1,
   format "r  <|  p  :=  v  |>") : record_scope.
Open Scope record_scope.

(** [rsimp] reduces the projections of updated records, in the goal and in
    the hypotheses, without unfolding the update of a whole record. *)
Ltac get_set_law R T P Q S L :=
  first
    [ constr_eq P Q;
      assert (L : ∀ (f : T → T) (r : R), P (@set R T Q S f r) = f (P r))
        by (intros; reflexivity)
    | assert (L : ∀ (f : T → T) (r : R), P (@set R T Q S f r) = P r)
        by (intros; reflexivity) ].
Ltac rsimp_goal :=
  repeat match goal with
  | |- context [?P (@set ?R ?T ?Q ?S ?f ?r)] =>
      is_const P;
      let L := fresh "L" in get_set_law R T P Q S L; rewrite !(L f r); clear L; cbv beta
  end.
Ltac rsimp_hyps :=
  repeat match goal with
  | H : context [?P (@set ?R ?T ?Q ?S ?f ?r)] |- _ =>
      is_const P;
      let L := fresh "L" in get_set_law R T P Q S L; rewrite !(L f r) in H; clear L; cbv beta in H
  end.
Ltac rsimp := rsimp_hyps; rsimp_goal.

(** ** Run-time panics and error values

    A Go function that can panic (an index out of range, a failed type
    assertion, a nil dereference) is a [go] computation; a function that
    returns an [error] beside its value returns a [result]. *)

Inductive go (A : Type) : Type :=
| Ret (a : A)
| Panic.
Arguments Ret {A} a.
Arguments Panic {A}.

#[export] Instance go_ret : MRet go := λ A, Ret.
#[export] Instance go_bind : MBind go := λ A B k m,
  match m with Ret a => k a | Panic => Panic end.
#[export] Instance go_fmap : FMap go := λ A B f m,
  match m with Ret a => Ret (f a) | Panic => Panic end.

Lemma go_bind_Ret {A B} (m : go A) (k : A → go B) b :
  m ≫= k = Ret b ↔ ∃ a, m = Ret a ∧ k a = Ret b.
Proof. destruct m; naive_solver. Qed.

Lemma go_fmap_Ret {A B} (m : go A) (f : A → B) b :
  f <$> m = Ret b ↔ ∃ a, m = Ret a ∧ b = f a.
Proof. destruct m; naive_solver. Qed.

Definition error := string.

Inductive result (A : Type) : Type :=
| Ok (a : A)
| Err (e : error).
Arguments Ok {A} a.
Arguments Err {A} e.

#[export] Instance result_ret : MRet result := λ A, Ok.
#[export] Instance result_bind : MBind result := λ A B k m,
  match m with Ok a => k a | Err e => Err e end.

Lemma result_bind_Ok {A B} (m : result A) (k : A → result B) b :
  m ≫= k = Ok b ↔ ∃ a, m = Ok a ∧ k a = Ok b.
Proof. destruct m; naive_solver. Qed.

(** Indexing a slice panics out of range. *)
Definition go_index {A} (l : list A) (i : nat) : go A :=
  match l !! i with Some x => Ret x | None => Panic end.

Lemma go_index_lt {A} (l : list A) i :
  (i < length l)%nat → ∃ x, go_index l i = Ret x ∧ l !! i = Some x.
Proof.
  intros [x Hx]%lookup_lt_is_Some_2. exists x. unfold go_index. by rewrite Hx.
Qed.

(** ** Machine integers: [int64] and [int] arithmetic wraps modulo 2^64. *)

Definition i64 (z : Z) : Z := (z + 2 ^ 63) mod 2 ^ 64 - 2 ^ 63.

Definition in_i64 (z : Z) : Prop := - 2 ^ 63 ≤ z < 2 ^ 63.

#[export] Instance in_i64_dec z : Decision (in_i64 z).
Proof. unfold in_i64. apply _. Defined.

Lemma i64_id z : in_i64 z → i64 z = z.
Proof. unfold in_i64, i64. intros ?. rewrite Z.mod_small; lia. Qed.

Lemma i64_range z : in_i64 (i64 z).
Proof.
  unfold in_i64, i64. pose proof (Z.mod_pos_bound (z + 2 ^ 63) (2 ^ 64)). lia.
Qed.

(** ** Iterating over a Go map

    The iteration order of [range] over a map is unspecified: a model that
    iterates over a map does so through this interface, whose only promise is
    that every binding is visited exactly once.  Theorems proved against it
    hold for every iteration order. *)

Class GoRange := {
  go_range : ∀ {K A : Type} `{Countable K}, gmap K A → list (K * A);
  go_range_perm : ∀ {K A : Type} `{Countable K} (m : gmap K A),
    go_range m ≡ₚ map_to_list m
}.

#[export] Instance canonical_range : GoRange | 100 := {
  go_range := λ K A _ _ m, map_to_list m;
  go_range_perm := λ K A _ _ m, reflexivity (map_to_list m)
}.

Section go_range.
Context `{GR : GoRange} {K A : Type} `{Countable K}.
Implicit Types m : gmap K A.

Lemma elem_of_go_range m k x : (k, x) ∈ go_range m ↔ m !! k = Some x.
Proof. rewrite go_range_perm. apply elem_of_map_to_list. Qed.

Lemma NoDup_fst_go_range m : NoDup (go_range m).*1.
Proof. rewrite go_range_perm. apply NoDup_fst_map_to_list. Qed.

Lemma go_range_singleton (k : K) (x : A) : go_range ({[k := x]} : gmap K A) = [(k, x)].
Proof. apply Permutation_singleton_r. rewrite go_range_perm. by rewrite map_to_list_singleton. Qed.

Lemma go_range_to_map m : list_to_map (go_range m) = m.
Proof.
  rewrite <- (list_to_map_to_list m) at 2.
  apply list_to_map_proper; [apply NoDup_fst_go_range | apply go_range_perm].
Qed.

Lemma elem_of_fst_go_range m k : k ∈ (go_range m).*1 ↔ is_Some (m !! k).
Proof.
  rewrite list_elem_of_fmap. split.
  - intros ([k' x] & -> & Hin). exists x. by apply elem_of_go_range.
  - intros [x Hx]. exists (k, x). split; [done | by apply elem_of_go_range].
Qed.
End go_range.

(** ** Automation shared by the components *)

Create HintDb n9e.
#[export] Hint Resolve i64_range : n9e.

(** Case analysis on the conditionals and matches of a definition. *)
Ltac case_branches :=
  repeat (case_match || case_decide || case_bool_decide); simplify_eq/=.

(** Boolean tests of the code as propositions. *)
Ltac bool_prop :=
  repeat match goal with
  | H : (_ && _)%bool = true |- _ => apply andb_prop in H as [? ?]
  | H : (_ || _)%bool = false |- _ => apply orb_false_elim in H as [? ?]
  | H : negb _ = true |- _ => apply negb_true_iff in H
  | H : negb _ = false |- _ => apply negb_false_iff in H
  | H : (_ =? _)%Z = true |- _ => apply Z.eqb_eq in H
  | H : (_ =? _)%Z = false |- _ => apply Z.eqb_neq in H
  | H : (_ <? _)%Z = true |- _ => apply Z.ltb_lt in H
  | H : (_ <? _)%Z = false |- _ => apply Z.ltb_ge in H
  | H : (_ <=? _)%Z = true |- _ => apply Z.leb_le in H
  | H : (_ <=? _)%Z = false |- _ => apply Z.leb_gt in H
  | H : String.eqb _ _ = true |- _ => apply String.eqb_eq in H
  | H : String.eqb _ _ = false |- _ => apply String.eqb_neq in H
  end.

(** ** Generic lemmas on lists *)

Lemma existsb_elem_of {A} (f : A → bool) l :
  existsb f l = true ↔ ∃ x, x ∈ l ∧ f x = true.
Proof.
  rewrite existsb_exists. setoid_rewrite list_elem_of_In. done.
Qed.

Lemma forallb_elem_of {A} (f : A → bool) l :
  forallb f l = true ↔ ∀ x, x ∈ l → f x = true.
Proof.
  rewrite forallb_forall. setoid_rewrite list_elem_of_In. done.
Qed.

Lemma existsb_false_elem_of {A} (f : A → bool) l :
  existsb f l = false ↔ ∀ x, x ∈ l → f x = false.
Proof.
  split.
  - intros Hf x Hx. destruct (f x) eqn:E; [|done].
    assert (existsb f l = true) by (apply existsb_elem_of; eauto). congruence.
  - intros Hall. destruct (existsb f l) eqn:E; [|done].
    apply existsb_elem_of in E as (x & Hx & E). by rewrite Hall in E.
Qed.

(** A fold that only adds to an accumulator keeps what it has. *)
Lemma foldl_invariant {A B} (P : A → Prop) (f : A → B → A) l a :
  P a → (∀ a b, b ∈ l → P a → P (f a b)) → P (foldl f a l).
Proof.
  revert a. induction l as [|b l IH]; intros a Ha Hf; simpl; [done|].
  apply IH.
  - apply Hf; [apply list_elem_of_here | done].
  - intros a' b' Hb'. apply Hf. by apply list_elem_of_further.
Qed.

Lemma elem_of_concat {A} (x : A) ls : x ∈ concat ls ↔ ∃ l, l ∈ ls ∧ x ∈ l.
Proof. rewrite list_elem_of_In, in_concat. by setoid_rewrite list_elem_of_In. Qed.

#[export] Instance result_fmap : FMap result := λ A B f m,
  match m with Ok a => Ok (f a) | Err e => Err e end.

Lemma NoDup_fst_filter {A B} (P : A * B → Prop) `{∀ x, Decision (P x)} (l : list (A * B)) :
  NoDup l.*1 → NoDup (filter P l).*1.
Proof.
  induction l as [|x l IH]; intros Hnd; [done|]. csimpl in Hnd. apply NoDup_cons in Hnd as [Hx Hnd].
  rewrite filter_cons. case_decide; [csimpl; constructor; [|auto]|auto].
  intros (y & Heq & [_ Hy]%list_elem_of_filter)%list_elem_of_fmap. apply Hx.
  rewrite Heq. by apply list_elem_of_fmap_2.
Qed.

(** Injectivity, for values too large for [injection]. *)
Lemma Ret_inj {A} (a b : A) : Ret a = Ret b → b = a.
Proof. congruence. Qed.
Lemma Ok_inj {A} (a b : A) : Ok a = Ok b → b = a.
Proof. congruence. Qed.

Lemma List_filter_perm {A} (f : A → bool) (l l' : list A) : l ≡ₚ l' → List.filter f l ≡ₚ List.filter f l'.
Proof.
  induction 1; simpl; [done| | |by etrans]; repeat case_match; try done; by constructor.
Qed.

Lemma list_filter_all {A} (P : A → Prop) `{∀ x, Decision (P x)} (l : list A) :
  (∀ x, x ∈ l → P x) → filter P l = l.
Proof.
  induction l as [|x l IH]; intros Hall; [done|]. rewrite filter_cons, decide_True by (apply Hall; by left).
  f_equal. apply IH. intros y Hy. apply Hall. by right.
Qed.

Lemma list_filter_none {A} (P : A → Prop) `{∀ x, Decision (P x)} (l : list A) :
  (∀ x, x ∈ l → ¬ P x) → filter P l = [].
Proof.
  induction l as [|x l IH]; intros Hall; [done|]. rewrite filter_cons, decide_False by (apply Hall; by left).
  apply IH. intros y Hy. apply Hall. by right.
Qed.
