(* ===== verification/GoStrings.v ===== *)
(** * The part of Go's [strings] and [strconv] packages the alerting code uses

    A Go string is a sequence of bytes, here a [string].  White space is the
    ASCII white space (tab, newline, vertical tab, form feed, carriage return,
    space); the multi-byte white space of Unicode is not split on.  [<] on
    strings is Go's bytewise lexicographic order. *)

From S2P Require Import Prelude.
From Stdlib Require Import Ascii DecimalString DecimalZ.
Open Scope string_scope.
#[local] Arguments String.append : simpl nomatch.

(** ** Characters and searching *)

Definition is_space (c : ascii) : bool :=
  match nat_of_ascii c with
  | 9%nat | 10%nat | 11%nat | 12%nat | 13%nat | 32%nat => true
  | _ => false
  end.

Fixpoint str_forall (P : ascii → bool) (s : string) : bool :=
  match s with
  | "" => true
  | String c s' => P c && str_forall P s'
  end.

(** [strings.HasPrefix]. *)
Definition has_prefix (s pre : string) : bool := String.prefix pre s.

(** [strings.Contains(s, sub)]. *)
Fixpoint contains (s sub : string) : bool :=
  String.prefix sub s ||
  match s with
  | "" => false
  | String _ s' => contains s' sub
  end.

Fixpoint str_drop (n : nat) (s : string) : string :=
  match n, s with
  | S n', String _ s' => str_drop n' s'
  | O, _ => s
  | _, "" => ""
  end.

(** The first occurrence of [sep]: what precedes it and what follows it. *)
Fixpoint cut (sep s : string) : option (string * string) :=
  if String.prefix sep s then Some ("", str_drop (String.length sep) s)
  else match s with
       | "" => None
       | String c s' =>
           match cut sep s' with
           | Some (b, a) => Some (String c b, a)
           | None => None
           end
       end.

(** [strings.Index]: [None] stands for -1. *)
Definition index_of (s sep : string) : option nat :=
  match cut sep s with Some (b, _) => Some (String.length b) | None => None end.

(** ** Splitting and joining *)

(** [strings.Fields]: the maximal runs of non-space characters. *)
Fixpoint fields_from (cur s : string) : list string :=
  match s with
  | "" => if String.eqb cur "" then [] else [cur]
  | String c s' =>
      if is_space c
      then if String.eqb cur "" then fields_from "" s' else cur :: fields_from "" s'
      else fields_from (cur +:+ String c "") s'
  end.
Definition fields (s : string) : list string := fields_from "" s.

(** [strings.Split(s, sep)] for a non-empty [sep]; [skip] counts the bytes of
    a separator that are still to be passed over. *)
Fixpoint split_from (sep : string) (skip : nat) (cur s : string) : list string :=
  match s with
  | "" => [cur]
  | String c s' =>
      match skip with
      | S k => split_from sep k cur s'
      | O => if String.prefix sep s
             then cur :: split_from sep (pred (String.length sep)) "" s'
             else split_from sep 0 (cur +:+ String c "") s'
      end
  end.
Definition split (s sep : string) : list string := split_from sep 0 "" s.

(** [strings.SplitN(s, sep, 2)]. *)
Definition splitn2 (s sep : string) : list string :=
  match cut sep s with Some (b, a) => [b; a] | None => [s] end.

(** [strings.Join]. *)
Fixpoint join (ws : list string) (sep : string) : string :=
  match ws with
  | [] => ""
  | [w] => w
  | w :: ws' => w +:+ sep +:+ join ws' sep
  end.

(** ** Trimming and replacing *)

Fixpoint trim_left (s : string) : string :=
  match s with
  | "" => ""
  | String c s' => if is_space c then trim_left s' else s
  end.

Fixpoint trim_right (s : string) : string :=
  match s with
  | "" => ""
  | String c s' =>
      let t := trim_right s' in
      if is_space c && String.eqb t "" then "" else String c t
  end.

(** [strings.TrimSpace]. *)
Definition trim_space (s : string) : string := trim_right (trim_left s).

(** [strings.ReplaceAll(s, old, new)] for a non-empty [old]. *)
Definition replace_all (s old new : string) : string := join (split s old) new.

(** [strings.Replace(s, old, new, 1)]. *)
Definition replace1 (s old new : string) : string :=
  match cut old s with Some (b, a) => b +:+ new +:+ a | None => s end.

(** [strings.Count(s, sub)] for a non-empty [sub]. *)
Definition count_sub (s sub : string) : nat := pred (length (split s sub)).

(** ** Numbers *)

(** [strconv.Itoa], [strconv.FormatInt(_, 10)] and [fmt.Sprintf("%d", _)]. *)
Definition itoa (z : Z) : string := NilZero.string_of_int (Z.to_int z).

Definition parse_uint (s : string) : option Z :=
  match NilZero.uint_of_string s with
  | Some u => Some (Z.of_uint u)
  | None => None
  end.

(** [strconv.ParseInt(s, 10, 64)]: an optional sign, one or more decimal
    digits, and a value that fits in 64 bits; [None] is the error. *)
Definition parse_int (s : string) : option Z :=
  let v := match s with
           | String "-" s' => Z.opp <$> parse_uint s'
           | String "+" s' => parse_uint s'
           | _ => parse_uint s
           end in
  match v with
  | Some z => if decide (in_i64 z) then Some z else None
  | None => None
  end.

(** ** Order *)

Definition str_lt (a b : string) : bool := String.ltb a b.
Definition str_le (a b : string) : bool := String.leb a b.

(** ** Lemmas *)

Lemma sapp_nil_r (s : string) : s +:+ "" = s.
Proof. induction s as [|c s IH]; simpl; [done | by f_equal]. Qed.

Lemma sapp_assoc (a b c : string) : (a +:+ b) +:+ c = a +:+ (b +:+ c).
Proof. induction a as [|x a IH]; simpl; [done | by f_equal]. Qed.

Lemma sapp_cons_snoc cur c s : (cur +:+ String c "") +:+ s = cur +:+ String c s.
Proof. by rewrite sapp_assoc. Qed.

Lemma sapp_eq_nil a b : a +:+ b = "" → a = "" ∧ b = "".
Proof. destruct a; simpl; [done | discriminate]. Qed.

Lemma prefix_app sep s : String.prefix sep (sep +:+ s) = true.
Proof.
  induction sep as [|c sep IH]; simpl; [by destruct s|].
  destruct (ascii_dec c c); [done | congruence].
Qed.

Lemma str_drop_app sep s : str_drop (String.length sep) (sep +:+ s) = s.
Proof. induction sep; simpl; [by destruct s | done]. Qed.

Lemma str_drop_length n s : (String.length (str_drop n s) = String.length s - n)%nat.
Proof.
  revert s. induction n as [|n IH]; intros s; destruct s as [|c s]; cbn [str_drop String.length]; try lia.
  rewrite IH. lia.
Qed.

Lemma slength_app a b : String.length (a +:+ b) = (String.length a + String.length b)%nat.
Proof.
  induction a as [|c a IH]; [done|]. change (String c a +:+ b) with (String c (a +:+ b)). cbn [String.length]. lia.
Qed.

Lemma prefix_head_ne c sep d s : c ≠ d → String.prefix (String c sep) (String d s) = false.
Proof. simpl. destruct (ascii_dec c d); [congruence | done]. Qed.

Definition char_neb (c d : ascii) : bool := negb (Ascii.eqb d c).

Lemma char_neb_ne c d : char_neb c d = true → c ≠ d.
Proof. unfold char_neb. rewrite negb_true_iff, Ascii.eqb_neq. congruence. Qed.

(** *** [Fields] *)

Definition is_word (w : string) : bool :=
  negb (String.eqb w "") && str_forall (λ c, negb (is_space c)) w.

Lemma fields_from_word cur w s :
  str_forall (λ c, negb (is_space c)) w = true →
  fields_from cur (w +:+ s) = fields_from (cur +:+ w) s.
Proof.
  revert cur. induction w as [|c w IH]; intros cur Hw; simpl in *.
  - by rewrite sapp_nil_r.
  - bool_prop. rewrite H. rewrite IH by done. by rewrite sapp_cons_snoc.
Qed.

Lemma fields_join ws :
  forallb is_word ws = true → fields (join ws " ") = ws.
Proof.
  unfold fields. induction ws as [|w ws IH]; [done|].
  simpl. intros Hw. bool_prop. unfold is_word in H. bool_prop.
  destruct ws as [|w' ws'].
  - rewrite <- (sapp_nil_r w) at 1. rewrite fields_from_word by done. simpl.
    apply String.eqb_neq in H. by rewrite H.
  - rewrite fields_from_word by done. simpl.
    apply String.eqb_neq in H. rewrite H. f_equal. by apply IH.
Qed.

(** Every field is a word: non-empty and free of white space. *)
Lemma str_forall_app P a b : str_forall P (a +:+ b) = str_forall P a && str_forall P b.
Proof.
  induction a as [|c a IH]; simpl; [done|]. by rewrite IH, andb_assoc.
Qed.

Lemma fields_from_words cur s :
  str_forall (λ c, negb (is_space c)) cur = true →
  forallb is_word (fields_from cur s) = true.
Proof.
  revert cur. induction s as [|c s IH]; intros cur Hcur; simpl.
  - destruct (String.eqb cur "") eqn:E; simpl; [done|].
    unfold is_word. by rewrite E, Hcur.
  - destruct (is_space c) eqn:Ec.
    + destruct (String.eqb cur "") eqn:E; [by apply IH|].
      simpl. unfold is_word at 1. rewrite E, Hcur. simpl. by apply IH.
    + apply IH. rewrite str_forall_app, Hcur. simpl. by rewrite Ec.
Qed.

Lemma fields_words s : forallb is_word (fields s) = true.
Proof. by apply fields_from_words. Qed.

(** [Join] by a blank normalises the white space: a second [Fields] after a
    [Join] changes nothing. *)
Lemma fields_join_fields s : fields (join (fields s) " ") = fields s.
Proof. apply fields_join, fields_words. Qed.

(** *** [Split] *)

Lemma split_from_word c sep cur w s :
  str_forall (char_neb c) w = true →
  split_from (String c sep) 0 cur (w +:+ s)
  = split_from (String c sep) 0 (cur +:+ w) s.
Proof.
  revert cur. induction w as [|d w IH]; intros cur Hw; [by rewrite sapp_nil_r|].
  cbn [str_forall] in Hw. bool_prop. apply char_neb_ne in H.
  change (String d w +:+ s) with (String d (w +:+ s)).
  cbn [split_from]. rewrite prefix_head_ne by done.
  rewrite IH by done. by rewrite sapp_cons_snoc.
Qed.

Lemma split_from_skip sep r cur s :
  split_from sep (String.length r) cur (r +:+ s) = split_from sep 0 cur s.
Proof. induction r as [|c r IH]; [done|]. simpl. apply IH. Qed.

Lemma split_from_sep c sep cur s :
  split_from (String c sep) 0 cur (String c sep +:+ s)
  = cur :: split_from (String c sep) 0 "" s.
Proof.
  pose proof (prefix_app (String c sep) s) as Hp.
  change (String c sep +:+ s) with (String c (sep +:+ s)) in *.
  cbn [split_from]. rewrite Hp. f_equal. apply split_from_skip.
Qed.

Lemma split_join c sep ws :
  ws ≠ [] → forallb (str_forall (char_neb c)) ws = true →
  split (join ws (String c sep)) (String c sep) = ws.
Proof.
  unfold split. intros Hne. induction ws as [|w ws IH]; [done|].
  cbn [forallb]. intros Hw. bool_prop. destruct ws as [|w' ws'].
  - cbn [join]. rewrite <- (sapp_nil_r w) at 1. by rewrite split_from_word.
  - change (join (w :: w' :: ws') (String c sep))
      with (w +:+ String c sep +:+ join (w' :: ws') (String c sep)).
    rewrite split_from_word, split_from_sep by done. f_equal. by apply IH.
Qed.

Lemma split_nonempty s sep : split s sep ≠ [].
Proof.
  unfold split. generalize 0%nat as k, "" as cur.
  induction s as [|c s IH]; intros k cur; [done|].
  cbn [split_from]. destruct k; [|apply IH].
  destruct (String.prefix _ _); [done | apply IH].
Qed.


(** *** [ReplaceAll] *)

Lemma join_cons_app cur w ws sep : join ((cur +:+ w) :: ws) sep = cur +:+ join (w :: ws) sep.
Proof. destruct ws; [done|]. cbn [join]. by rewrite sapp_assoc. Qed.

Lemma split_from_cur sep k cur s new :
  join (split_from sep k cur s) new = cur +:+ join (split_from sep k "" s) new.
Proof.
  revert k cur. induction s as [|c s IH]; intros k cur.
  - destruct k; simpl; by rewrite ?sapp_nil_r.
  - cbn [split_from]. destruct k; [|apply IH]. destruct (String.prefix sep (String c s)).
    + rewrite <- (sapp_nil_r cur) at 1. apply join_cons_app.
    + rewrite IH, (IH 0%nat ("" +:+ _)). by rewrite sapp_assoc.
Qed.

Lemma replace_all_word c sep new w s :
  str_forall (char_neb c) w = true → replace_all (w +:+ s) (String c sep) new = w +:+ replace_all s (String c sep) new.
Proof.
  intros Hw. unfold replace_all, split. rewrite split_from_word by done. rewrite split_from_cur. done.
Qed.

Lemma replace_all_sep c sep new s :
  replace_all (String c sep +:+ s) (String c sep) new = new +:+ replace_all s (String c sep) new.
Proof.
  unfold replace_all, split. rewrite split_from_sep. pose proof (split_nonempty s (String c sep)) as Hne.
  unfold split in Hne. by destruct (split_from _ _ _ s).
Qed.

Lemma replace_all_skip d sep new s :
  String.prefix sep (String d s) = false → replace_all (String d s) sep new = String d (replace_all s sep new).
Proof.
  intros Hp. unfold replace_all, split. cbn [split_from]. rewrite Hp. by rewrite split_from_cur.
Qed.

(** *** [SplitN(_, "=", 2)] *)

Lemma cut_app c sep b a :
  str_forall (char_neb c) b = true →
  cut (String c sep) (b +:+ String c sep +:+ a) = Some (b, a).
Proof.
  induction b as [|d b IH]; intros Hb.
  - change ("" +:+ String c sep +:+ a) with (String c sep +:+ a).
    pose proof (prefix_app (String c sep) a) as Hp.
    pose proof (str_drop_app (String c sep) a) as Hd.
    change (String c sep +:+ a) with (String c (sep +:+ a)) in *.
    cbn [cut]. rewrite Hp. by rewrite Hd.
  - cbn [str_forall] in Hb. bool_prop. apply char_neb_ne in H.
    change (String d b +:+ String c sep +:+ a) with (String d (b +:+ String c sep +:+ a)).
    cbn [cut]. rewrite prefix_head_ne by done. by rewrite IH.
Qed.

Lemma splitn2_app c sep b a :
  str_forall (char_neb c) b = true →
  splitn2 (b +:+ String c sep +:+ a) (String c sep) = [b; a].
Proof. intros Hb. unfold splitn2. by rewrite cut_app. Qed.

Lemma cut_Some sep s b a : cut sep s = Some (b, a) → s = b +:+ sep +:+ a.
Proof.
  revert b a. induction s as [|c s IH]; intros b a; cbn [cut].
  - destruct (String.prefix sep "") eqn:E; [|done]. intros [= <- <-].
    by destruct sep.
  - destruct (String.prefix sep (String c s)) eqn:E.
    + intros [= <- <-]. clear IH. change ("" +:+ sep +:+ str_drop (String.length sep) (String c s))
        with (sep +:+ str_drop (String.length sep) (String c s)).
      revert E. generalize (String c s) as t. clear.
      induction sep as [|d sep IH]; intros t E; [by destruct t|].
      destruct t as [|e t]; [done|]. simpl in E |- *.
      destruct (ascii_dec d e) as [->|]; [|done]. f_equal. by apply IH.
    + destruct (cut sep s) as [[b' a']|] eqn:Ec; [|done].
      intros [= <- <-]. simpl. f_equal. by apply IH.
Qed.

(** *** Decimal numbers *)

Lemma parse_int_itoa z : in_i64 z → parse_int (itoa z) = Some z.
Proof.
  intros Hz. unfold parse_int, itoa.
  pose proof (DecimalZ.of_to z) as Hof.
  destruct (Z.to_int z) as [u|u] eqn:E.
  - assert (Hu : u ≠ Decimal.Nil) by (intros ->; by destruct z as [|p|p]; 
      [|simpl in E; injection E; apply DecimalPos.Unsigned.to_uint_nonnil|]).
    assert (Hs : parse_uint (NilZero.string_of_uint u) = Some z).
    { unfold parse_uint. rewrite NilZero.usu by done. f_equal. exact Hof. }
    change (NilZero.string_of_int (Decimal.Pos u)) with (NilZero.string_of_uint u).
    destruct (NilZero.string_of_uint u) as [|c s] eqn:Es; [by rewrite Hs, decide_True|].
    assert (c ≠ "-"%char ∧ c ≠ "+"%char) as [Hm Hp].
    { destruct u; simplify_eq/=; split; congruence. }
    destruct c as [[] [] [] [] [] [] [] []]; try congruence; by rewrite Hs, decide_True.
  - assert (Hu : u ≠ Decimal.Nil) by (intros ->; by destruct z as [|p|p]; 
      [| |simpl in E; injection E; apply DecimalPos.Unsigned.to_uint_nonnil]).
    change (NilZero.string_of_int (Decimal.Neg u)) with (String "-" (NilZero.string_of_uint u)).
    cbn. unfold parse_uint. rewrite NilZero.usu by done. simpl.
    change (- Z.of_uint u) with (Z.of_int (Decimal.Neg u)). rewrite Hof. by rewrite decide_True.
Qed.

Lemma parse_int_range s z : parse_int s = Some z → in_i64 z.
Proof. unfold parse_int. intros H. case_match; [|done]. by case_decide; simplify_eq. Qed.

Lemma itoa_inj a b : itoa a = itoa b → a = b.
Proof.
  unfold itoa. intros H. apply DecimalZ.to_int_inj.
  assert (∀ z, Z.to_int z ≠ Decimal.Pos Decimal.Nil ∧ Z.to_int z ≠ Decimal.Neg Decimal.Nil) as Hn.
  { intros [|p|p]; simpl; split; try done; intros [= E];
      by apply DecimalPos.Unsigned.to_uint_nonnil in E. }
  destruct (Hn a) as [Ha1 Ha2], (Hn b) as [Hb1 Hb2].
  pose proof (NilZero.isi (Z.to_int a) Ha1 Ha2) as Ha.
  pose proof (NilZero.isi (Z.to_int b) Hb1 Hb2) as Hb.
  rewrite H, Hb in Ha. by simplify_eq.
Qed.

(** ** The order of strings and [sort.Strings] *)

Definition string_le (a b : string) : Prop := str_le a b = true.

#[export] Instance string_le_dec a b : Decision (string_le a b).
Proof. unfold string_le. apply _. Defined.

Lemma ascii_compare_lt_trans a b c :
  Ascii.compare a b = Lt → Ascii.compare b c = Lt → Ascii.compare a c = Lt.
Proof. unfold Ascii.compare. rewrite !N.compare_lt_iff. lia. Qed.

Lemma string_compare_lt_trans a b c :
  String.compare a b = Lt → String.compare b c = Lt → String.compare a c = Lt.
Proof.
  revert b c. induction a as [|x a IH]; intros [|y b] [|z c]; simpl; try done.
  destruct (Ascii.compare x y) eqn:Exy; try done;
    destruct (Ascii.compare y z) eqn:Eyz; try done.
  - apply Ascii.compare_eq_iff in Exy as ->, Eyz as ->.
    assert (Ascii.compare z z = Eq) as -> by (unfold Ascii.compare; apply N.compare_refl).
    apply IH.
  - apply Ascii.compare_eq_iff in Exy as ->. by rewrite Eyz.
  - apply Ascii.compare_eq_iff in Eyz as ->. by rewrite Exy.
  - by rewrite (ascii_compare_lt_trans _ _ _ Exy Eyz).
Qed.

#[export] Instance string_le_trans : Transitive string_le.
Proof.
  unfold string_le, str_le, String.leb. intros a b c.
  destruct (String.compare a b) eqn:Eab; try done;
    destruct (String.compare b c) eqn:Ebc; try done; intros _ _.
  - apply String.compare_eq_iff in Eab as ->. by rewrite Ebc.
  - apply String.compare_eq_iff in Eab as ->. by rewrite Ebc.
  - apply String.compare_eq_iff in Ebc as ->. by rewrite Eab.
  - by rewrite (string_compare_lt_trans _ _ _ Eab Ebc).
Qed.

#[export] Instance string_le_total : Total string_le.
Proof. intros a b. apply String.leb_total. Qed.

#[export] Instance string_le_antisymm : AntiSymm (=) string_le.
Proof. intros a b. apply String.leb_antisym. Qed.

Definition sort_strings (l : list string) : list string := merge_sort string_le l.

Lemma sort_strings_perm l : sort_strings l ≡ₚ l.
Proof. apply merge_sort_Permutation. Qed.

Lemma sort_strings_sorted l : StronglySorted string_le (sort_strings l).
Proof. apply StronglySorted_merge_sort; apply _. Qed.

(** Sorting depends only on the elements, not on the order they come in. *)
Lemma sort_strings_canonical l l' : l ≡ₚ l' → sort_strings l = sort_strings l'.
Proof.
  intros Hp. apply (StronglySorted_unique string_le); try apply sort_strings_sorted.
  by rewrite !sort_strings_perm.
Qed.

#[export] Hint Resolve sort_strings_perm sort_strings_sorted : n9e.

(** ** Case mapping: [strings.ToLower] and [strings.ToUpper]

    On ASCII text these map the letters; the Unicode case tables, which only
    matter for other text, are a parameter. *)

Class UnicodeCase := { unicode_lower : string → string; unicode_upper : string → string }.

#[export] Instance no_unicode_case : UnicodeCase | 100 :=
  {| unicode_lower := λ s, s; unicode_upper := λ s, s |}.

Definition is_ascii (c : ascii) : bool := (nat_of_ascii c <? 128)%nat.

Definition lower_char (c : ascii) : ascii :=
  let n := nat_of_ascii c in
  if ((65 <=? n) && (n <=? 90))%nat then ascii_of_nat (n + 32) else c.
Definition upper_char (c : ascii) : ascii :=
  let n := nat_of_ascii c in
  if ((97 <=? n) && (n <=? 122))%nat then ascii_of_nat (n - 32) else c.

Fixpoint str_map (f : ascii → ascii) (s : string) : string :=
  match s with "" => "" | String c s' => String (f c) (str_map f s') end.

Definition to_lower `{UnicodeCase} (s : string) : string :=
  if str_forall is_ascii s then str_map lower_char s else unicode_lower s.
Definition to_upper `{UnicodeCase} (s : string) : string :=
  if str_forall is_ascii s then str_map upper_char s else unicode_upper s.
