(* ===== verification/GoTime.v ===== *)
(** * Wall-clock time: [time.Unix(ts, 0).Format("15:04")] and [.Weekday()]

    The rules compare the wall-clock time of an event with configured bounds
    as strings.  The local time zone is a parameter: the offset from UTC in
    force at an instant. *)

From S2P Require Import Prelude GoStrings.
From Stdlib Require Import Ascii.
Open Scope string_scope.
Open Scope Z_scope.
#[local] Arguments String.append : simpl nomatch.

(** The zone [time.Local]: the offset from UTC, in seconds, at a Unix time. *)
Class Location := { utc_offset : Z → Z }.

#[export] Instance UTC : Location | 100 := {| utc_offset := λ _, 0 |}.

Definition digit (d : Z) : ascii := ascii_of_N (Z.to_N (48 + d)).

(** Two decimal digits. *)
Definition pad2 (n : Z) : string := String (digit (n / 10)) (String (digit (n mod 10)) "").

(** The wall clock showing [m] minutes after midnight, as "15:04" formats it. *)
Definition hhmm (m : Z) : string := pad2 (m / 60) +:+ ":" +:+ pad2 (m mod 60).

Section time.
Context `{Location}.

Definition local_seconds (ts : Z) : Z := ts + utc_offset ts.

(** Minutes since local midnight. *)
Definition clock_minute (ts : Z) : Z := (local_seconds ts) mod 86400 / 60.

(** [time.Unix(ts, 0).Format("15:04")]. *)
Definition format_1504 (ts : Z) : string := hhmm (clock_minute ts).

(** [int(time.Unix(ts, 0).Weekday())]: 0 is Sunday; day 0 was a Thursday. *)
Definition weekday (ts : Z) : Z := (local_seconds ts / 86400 + 4) mod 7.

Lemma clock_minute_range ts : 0 ≤ clock_minute ts < 1440.
Proof.
  unfold clock_minute. pose proof (Z.mod_pos_bound (local_seconds ts) 86400 eq_refl).
  split; [apply Z.div_pos; lia | apply Z.div_lt_upper_bound; lia].
Qed.

Lemma weekday_range ts : 0 ≤ weekday ts < 7.
Proof. unfold weekday. apply Z.mod_pos_bound. lia. Qed.
End time.

(** ** The order of formatted times is the order of the clock *)

Lemma digit_compare a b :
  0 ≤ a < 10 → 0 ≤ b < 10 → Ascii.compare (digit a) (digit b) = (a ?= b).
Proof.
  intros Ha Hb. unfold Ascii.compare, digit.
  rewrite !N_ascii_embedding by lia.
  rewrite Z2N.inj_compare by lia. apply Zcompare_plus_compat.
Qed.

Definition lex (c d : comparison) : comparison := match c with Eq => d | _ => c end.

Lemma pad2_compare a b s t :
  0 ≤ a < 100 → 0 ≤ b < 100 →
  String.compare (pad2 a +:+ s) (pad2 b +:+ t) = lex (a ?= b) (String.compare s t).
Proof.
  intros Ha Hb.
  assert (∀ x, 0 ≤ x < 100 → 0 ≤ x / 10 < 10) as Hd
    by (intros; split; [apply Z.div_pos | apply Z.div_lt_upper_bound]; lia).
  pose proof (Hd a Ha). pose proof (Hd b Hb).
  pose proof (Z.mod_pos_bound a 10 eq_refl). pose proof (Z.mod_pos_bound b 10 eq_refl).
  pose proof (Z.div_mod a 10 ltac:(lia)). pose proof (Z.div_mod b 10 ltac:(lia)).
  unfold pad2. cbn [String.append String.compare].
  rewrite !digit_compare by lia. unfold lex.
  destruct (Z.compare_spec (a / 10) (b / 10)), (Z.compare_spec (a mod 10) (b mod 10)),
    (Z.compare_spec a b); try done; exfalso; lia.
Qed.

Lemma hhmm_compare a b :
  0 ≤ a < 6000 → 0 ≤ b < 6000 → String.compare (hhmm a) (hhmm b) = (a ?= b).
Proof.
  intros Ha Hb. unfold hhmm.
  assert (∀ x, 0 ≤ x < 6000 → 0 ≤ x / 60 < 100) as Hd
    by (intros; split; [apply Z.div_pos | apply Z.div_lt_upper_bound]; lia).
  pose proof (Hd a Ha). pose proof (Hd b Hb).
  pose proof (Z.mod_pos_bound a 60 eq_refl). pose proof (Z.mod_pos_bound b 60 eq_refl).
  pose proof (Z.div_mod a 60 ltac:(lia)). pose proof (Z.div_mod b 60 ltac:(lia)).
  rewrite pad2_compare by lia.
  assert (String.compare (":" +:+ pad2 (a mod 60)) (":" +:+ pad2 (b mod 60))
          = (a mod 60 ?= b mod 60)) as ->.
  { change (String.compare (":" +:+ ?s) (":" +:+ ?t)) with (String.compare s t).
    rewrite <- (sapp_nil_r (pad2 (a mod 60))), <- (sapp_nil_r (pad2 (b mod 60))).
    rewrite pad2_compare by lia. by destruct (a mod 60 ?= b mod 60). }
  unfold lex. destruct (Z.compare_spec (a / 60) (b / 60)),
    (Z.compare_spec (a mod 60) (b mod 60)), (Z.compare_spec a b); try done; exfalso; lia.
Qed.

Lemma hhmm_lt a b :
  0 ≤ a < 6000 → 0 ≤ b < 6000 → str_lt (hhmm a) (hhmm b) = (a <? b).
Proof.
  intros. unfold str_lt, String.ltb. rewrite hhmm_compare by done.
  unfold Z.ltb. by destruct (a ?= b).
Qed.

Lemma hhmm_le a b :
  0 ≤ a < 6000 → 0 ≤ b < 6000 → str_le (hhmm a) (hhmm b) = (a <=? b).
Proof.
  intros. unfold str_le, String.leb. rewrite hhmm_compare by done.
  unfold Z.leb. by destruct (a ?= b).
Qed.

Lemma hhmm_eqb a b :
  0 ≤ a < 6000 → 0 ≤ b < 6000 → String.eqb (hhmm a) (hhmm b) = (a =? b).
Proof.
  intros Ha Hb. destruct (Z.eqb_spec a b) as [->|Hne].
  - apply String.eqb_refl.
  - apply String.eqb_neq. intros E. pose proof (hhmm_compare a b Ha Hb) as Hc.
    rewrite E, hhmm_compare, Z.compare_refl in Hc by done.
    symmetry in Hc. by apply Z.compare_eq in Hc.
Qed.
