(* ===== verification/Json.v ===== *)
(** * Dynamic values and the [encoding/json] interface

    [iface] is the dynamic value of a Go [interface{}] as the alerting code
    meets it; [float64] is a Go float by its exact value.  [Json A] is what a
    component asks of [encoding/json] at the Go type modelled by [A]:
    [json.Marshal], and [json.Unmarshal] into a variable that already holds a
    value (a map keeps its other keys, a failed decode leaves what it left).
    [JsonRoundTrip] is the promise the persistence code relies on; the
    instance for integer slices is proved here. *)

From Stdlib Require Import Ascii QArith_base.
From S2P Require Import Prelude GoStrings.
Open Scope string_scope.
Open Scope Z_scope.
#[local] Arguments String.append : simpl nomatch.

Inductive float64 : Type :=
| F64 (q : Q)
| PInf
| NInf
| NaN.

(** Go's [==] on floats: NaN differs from everything. *)
Definition float64_eqb (a b : float64) : bool :=
  match a, b with
  | F64 p, F64 q => Qeq_bool p q
  | PInf, PInf | NInf, NInf => true
  | _, _ => false
  end.

(** The conversion [int(f)]: truncation toward zero, for values in range. *)
Definition float64_to_int (f : float64) : Z :=
  match f with
  | F64 q => i64 (Z.quot (Qnum q) (Zpos (Qden q)))
  | _ => - 2 ^ 63
  end.

Inductive iface : Type :=
| INil
| IString (s : string)
| IInt (z : Z)
| IFloat (f : float64)
| IBool (b : bool)
| IInts (l : list Z)
| IStrings (l : list string)
| IList (l : list iface)
| IMap (l : list (string * iface)).

(** [fmt.Sprintf("%v", _)], parameterised by the shortest-decimal rendering of
    floats.  Slices print as [[a b]], maps as [map[k:v ...]] in key order (a
    decoded object is kept here in that order). *)
Class GoFmt := { fmt_float : float64 → string }.

#[export] Instance integral_fmt : GoFmt | 100 :=
  {| fmt_float := λ f, itoa (float64_to_int f) |}.

Fixpoint fmt_v `{GoFmt} (v : iface) : string :=
  match v with
  | INil => "<nil>"
  | IString s => s
  | IInt z => itoa z
  | IFloat f => fmt_float f
  | IBool b => if b then "true" else "false"
  | IInts l => "[" +:+ join (map itoa l) " " +:+ "]"
  | IStrings l => "[" +:+ join l " " +:+ "]"
  | IList l => "[" +:+ join (map fmt_v l) " " +:+ "]"
  | IMap l => "map[" +:+ join (map (λ kv, fst kv +:+ ":" +:+ fmt_v (snd kv)) l) " " +:+ "]"
  end.

(** ** The codec interface *)

Class Json (A : Type) := {
  json_marshal : A → result string;
  json_unmarshal : string → A → A * option error
}.

(** A column that is not empty is decoded into the field; the value with the
    error of the decoder. *)
Definition decode_column {A} `{Json A} (column : string) (old : A) : A * option error :=
  if String.eqb column "" then (old, None) else json_unmarshal column old.

(** Decoding into a variable that holds [zero] gives back every encodable
    value that satisfies [json_wf]. *)
Class JsonRoundTrip (A : Type) `{Json A} (zero : A) := {
  json_wf : A → Prop;
  json_round : ∀ a, json_wf a →
    ∃ s, json_marshal a = Ok s ∧ s ≠ "" ∧ json_unmarshal s zero = (a, None)
}.

(** ** Integer slices *)

Definition ints_marshal (l : list Z) : string := "[" +:+ join (map itoa l) "," +:+ "]".

Definition ints_unmarshal (s : string) (old : list Z) : list Z * option error :=
  if String.eqb s "null" then ([], None) else
  match s with
  | String "[" s' =>
      match cut "]" s' with
      | Some (body, "") =>
          if String.eqb body "" then ([], None)
          else match mapM parse_int (split body ",") with
               | Some l => (l, None)
               | None => (old, Some "json: cannot unmarshal")
               end
      | _ => (old, Some "invalid character")
      end
  | _ => (old, Some "invalid character")
  end.

#[export] Instance ints_json : Json (list Z) := {|
  json_marshal := λ l, Ok (ints_marshal l);
  json_unmarshal := ints_unmarshal
|}.

Definition num_char (c : ascii) : bool :=
  match c with
  | "-"%char | "0"%char | "1"%char | "2"%char | "3"%char | "4"%char
  | "5"%char | "6"%char | "7"%char | "8"%char | "9"%char => true
  | _ => false
  end.

Lemma uint_num_chars u : str_forall num_char (DecimalString.NilEmpty.string_of_uint u) = true.
Proof. by induction u. Qed.

Lemma itoa_num_chars z : str_forall num_char (itoa z) = true.
Proof.
  unfold itoa. destruct (Z.to_int z) as [u|u]; destruct u; simpl; by rewrite ?uint_num_chars.
Qed.

Lemma str_forall_impl (P Q : ascii → bool) s :
  (∀ c, P c = true → Q c = true) → str_forall P s = true → str_forall Q s = true.
Proof.
  intros HPQ. induction s as [|c s IH]; simpl; [done|].
  intros Hs. bool_prop. rewrite HPQ by done. by apply IH.
Qed.

Lemma num_char_neb c d : num_char c = false → num_char d = true → char_neb c d = true.
Proof.
  unfold char_neb. intros Hc Hd. apply negb_true_iff, Ascii.eqb_neq. congruence.
Qed.

Lemma itoa_free c z : num_char c = false → str_forall (char_neb c) (itoa z) = true.
Proof.
  intros Hc. eapply str_forall_impl; [|apply itoa_num_chars].
  intros d. by apply num_char_neb.
Qed.

Lemma str_forall_join P ws sep :
  forallb (str_forall P) ws = true → str_forall P sep = true →
  str_forall P (join ws sep) = true.
Proof.
  intros Hws Hsep. induction ws as [|w ws IH]; [done|].
  cbn [forallb] in Hws. bool_prop. destruct ws as [|w' ws']; [done|].
  change (join (w :: w' :: ws') sep) with (w +:+ sep +:+ join (w' :: ws') sep).
  rewrite !str_forall_app, IH by done. by rewrite H, Hsep.
Qed.

Lemma itoas_free c l :
  num_char c = false → forallb (str_forall (char_neb c)) (map itoa l) = true.
Proof.
  intros Hc. induction l as [|z l IH]; simpl; [done|]. by rewrite itoa_free, IH.
Qed.

Lemma mapM_parse_itoa l : Forall in_i64 l → mapM parse_int (map itoa l) = Some l.
Proof.
  induction 1 as [|z l Hz _ IH]; [done|].
  cbn [map mapM]. rewrite parse_int_itoa by done. simpl. by rewrite IH.
Qed.

Lemma itoa_nonempty z : itoa z ≠ "".
Proof.
  unfold itoa. destruct (Z.to_int z) as [u|u]; simpl; [|done]. by destruct u.
Qed.

Lemma join_itoa_nonempty z l : join (map itoa (z :: l)) "," ≠ "".
Proof.
  destruct l as [|z' l]; simpl; [apply itoa_nonempty|].
  intros [Hz _]%sapp_eq_nil. by apply itoa_nonempty in Hz.
Qed.

Lemma ints_round l old :
  Forall in_i64 l → ints_unmarshal (ints_marshal l) old = (l, None).
Proof.
  intros Hl. unfold ints_unmarshal, ints_marshal.
  assert (cut "]" (join (map itoa l) "," +:+ "]") = Some (join (map itoa l) ",", "")) as Hc.
  { apply (cut_app "]" "" _ ""). apply str_forall_join; [|done]. by apply itoas_free. }
  simpl. rewrite Hc. destruct l as [|z l]; [done|].
  destruct (String.eqb_spec (join (map itoa (z :: l)) ",") "") as [E|_];
    [by apply join_itoa_nonempty in E|].
  rewrite (split_join "," "") by (done || by apply itoas_free).
  by rewrite mapM_parse_itoa.
Qed.

#[export] Instance ints_round_trip : JsonRoundTrip (list Z) [].
Proof.
  refine {| json_wf := Forall in_i64 |}. intros l Hl.
  exists (ints_marshal l). split_and!; [done | done | by apply ints_round].
Defined.
