(* ===== verification/Models.v ===== *)
(** * The data model of events

    The Go structs of [models/] that alert events are made of, field by field
    and under their Go names: a module per struct, so that equal field names of
    different structs do not clash, its [zero] value (Go's zero value) and its
    [Settable] instance.  A pointer field is an [option]; a nil slice or map is
    the empty one; [interface{}] is [iface].  Of [User] and [BusiGroup] the
    fields that only serve the front end are left out. *)

From Stdlib Require Import QArith_base.
From S2P Require Import Prelude GoStrings Json.
Open Scope string_scope.
Open Scope Z_scope.

(** [FormattedValue] (pkg/unit/unit_convert.go).  *)
Module FormattedVal.
Record FormattedValue := mkFormattedValue {
  Value : float64;
  Unit : string;
  Text : string;
  Stat : float64
}.
#[global] Instance FormattedValue_eta : Settable FormattedValue := λ r,
  mkFormattedValue (Value r) (Unit r) (Text r) (Stat r).
Definition zero : FormattedValue :=
  mkFormattedValue (F64 0) "" "" (F64 0).
End FormattedVal.
Notation FormattedValue := FormattedVal.FormattedValue.

(** [RecoverConfig] (models/alert_rule.go).  *)
Module RecoverConf.
Record RecoverConfig := mkRecoverConfig {
  JudgeType : Z;
  RecoverExp : string
}.
#[global] Instance RecoverConfig_eta : Settable RecoverConfig := λ r,
  mkRecoverConfig (JudgeType r) (RecoverExp r).
Definition zero : RecoverConfig :=
  mkRecoverConfig 0 "".
End RecoverConf.
Notation RecoverConfig := RecoverConf.RecoverConfig.

(** [User] (models/user.go).  *)
Module Usr.
Record User := mkUser {
  Id : Z;
  Username : string;
  Nickname : string;
  Password : string;
  Phone : string;
  Email : string;
  Portrait : string;
  Roles : string;
  RolesLst : list string;
  TeamsLst : list Z;
  Contacts : string;
  Maintainer : Z;
  CreateAt : Z;
  CreateBy : string;
  UpdateAt : Z;
  UpdateBy : string;
  Belong : string;
  Admin : bool;
  LastActiveTime : Z
}.
#[global] Instance User_eta : Settable User := λ r,
  mkUser (Id r) (Username r) (Nickname r) (Password r) (Phone r) (Email r) (Portrait r)
    (Roles r) (RolesLst r) (TeamsLst r) (Contacts r) (Maintainer r) (CreateAt r) (CreateBy r)
    (UpdateAt r) (UpdateBy r) (Belong r) (Admin r) (LastActiveTime r).
Definition zero : User :=
  mkUser 0 "" "" "" "" "" "" "" [] [] "" 0 0 "" 0 "" "" false 0.
End Usr.
Notation User := Usr.User.

(** [BusiGroup] (models/busi_group.go).  *)
Module BusiGrp.
Record BusiGroup := mkBusiGroup {
  Id : Z;
  Name : string;
  LabelEnable : Z;
  LabelValue : string;
  CreateAt : Z;
  CreateBy : string;
  UpdateAt : Z;
  UpdateBy : string
}.
#[global] Instance BusiGroup_eta : Settable BusiGroup := λ r,
  mkBusiGroup (Id r) (Name r) (LabelEnable r) (LabelValue r) (CreateAt r) (CreateBy r)
    (UpdateAt r) (UpdateBy r).
Definition zero : BusiGroup :=
  mkBusiGroup 0 "" 0 "" 0 "" 0 "".
End BusiGrp.
Notation BusiGroup := BusiGrp.BusiGroup.

(** [UserGroup] (models/user_group.go).  *)
Module UserGrp.
Record UserGroup := mkUserGroup {
  Id : Z;
  Name : string;
  Note : string;
  CreateAt : Z;
  CreateBy : string;
  UpdateAt : Z;
  UpdateBy : string;
  UserIds : list Z;
  Users : list User;
  BusiGroups : list BusiGroup
}.
#[global] Instance UserGroup_eta : Settable UserGroup := λ r,
  mkUserGroup (Id r) (Name r) (Note r) (CreateAt r) (CreateBy r) (UpdateAt r) (UpdateBy r)
    (UserIds r) (Users r) (BusiGroups r).
Definition zero : UserGroup :=
  mkUserGroup 0 "" "" 0 "" 0 "" [] [] [].
End UserGrp.
Notation UserGroup := UserGrp.UserGroup.

(** [Target] (models/target.go).  *)
Module Tgt.
Record Target := mkTarget {
  Id : Z;
  GroupId : Z;
  GroupObjs : list BusiGroup;
  Ident : string;
  Note : string;
  Tags : string;
  TagsJSON : list string;
  TagsMap : gmap string string;
  UpdateAt : Z;
  HostIp : string;
  AgentVersion : string;
  EngineName : string;
  OS : string;
  HostTags : list string;
  UnixTime : Z;
  Offset : Z;
  TargetUp : float64;
  MemUtil : float64;
  CpuNum : Z;
  CpuUtil : float64;
  Arch : string;
  RemoteAddr : string;
  GroupIds : list Z;
  GroupNames : list string
}.
#[global] Instance Target_eta : Settable Target := λ r,
  mkTarget (Id r) (GroupId r) (GroupObjs r) (Ident r) (Note r) (Tags r) (TagsJSON r) (TagsMap r)
    (UpdateAt r) (HostIp r) (AgentVersion r) (EngineName r) (OS r) (HostTags r) (UnixTime r)
    (Offset r) (TargetUp r) (MemUtil r) (CpuNum r) (CpuUtil r) (Arch r) (RemoteAddr r)
    (GroupIds r) (GroupNames r).
Definition zero : Target :=
  mkTarget 0 0 [] "" "" "" [] ∅ 0 "" "" "" "" [] 0 0 (F64 0) (F64 0) 0 (F64 0) "" "" [] [].
End Tgt.
Notation Target := Tgt.Target.

(** [EventNotifyRule] (models/alert_cur_event.go).  *)
Module EvNotifyRule.
Record EventNotifyRule := mkEventNotifyRule {
  Id : Z;
  Name : string
}.
#[global] Instance EventNotifyRule_eta : Settable EventNotifyRule := λ r,
  mkEventNotifyRule (Id r) (Name r).
Definition zero : EventNotifyRule :=
  mkEventNotifyRule 0 "".
End EvNotifyRule.
Notation EventNotifyRule := EvNotifyRule.EventNotifyRule.

(** [EventTriggerValues] (models/alert_cur_event.go).  *)
Module TriggerVals.
Record EventTriggerValues := mkEventTriggerValues {
  ValuesWithUnit : gmap string FormattedValue
}.
#[global] Instance EventTriggerValues_eta : Settable EventTriggerValues := λ r,
  mkEventTriggerValues (ValuesWithUnit r).
Definition zero : EventTriggerValues :=
  mkEventTriggerValues ∅.
End TriggerVals.
Notation EventTriggerValues := TriggerVals.EventTriggerValues.

(** [AlertCurEvent] (models/alert_cur_event.go).  *)
Module Event.
Record AlertCurEvent := mkEvent {
  Id : Z;
  Cate : string;
  Cluster : string;
  DatasourceId : Z;
  GroupId : Z;
  GroupName : string;
  Hash : string;
  RuleId : Z;
  RuleName : string;
  RuleNote : string;
  RuleProd : string;
  RuleAlgo : string;
  Severity : Z;
  PromForDuration : Z;
  PromQl : string;
  RuleConfig : string;
  RuleConfigJson : iface;
  PromEvalInterval : Z;
  Callbacks : string;
  CallbacksJSON : list string;
  RunbookUrl : string;
  NotifyRecovered : Z;
  NotifyChannels : string;
  NotifyChannelsJSON : list string;
  NotifyGroups : string;
  NotifyGroupsJSON : list string;
  NotifyGroupsObj : list UserGroup;
  TargetIdent : string;
  TargetNote : string;
  TriggerTime : Z;
  TriggerValue : string;
  TriggerValues : string;
  TriggerValuesJson : EventTriggerValues;
  Tags : string;
  TagsJSON : list string;
  TagsMap : gmap string string;
  OriginalTags : string;
  OriginalTagsJSON : list string;
  Annotations : string;
  AnnotationsJSON : gmap string string;
  IsRecovered : bool;
  NotifyUsersObj : list User;
  LastEvalTime : Z;
  LastSentTime : Z;
  FirstEvalTime : Z;
  NotifyCurNumber : Z;
  FirstTriggerTime : Z;
  ExtraConfig : iface;
  Status : Z;
  Claimant : string;
  SubRuleId : Z;
  ExtraInfo : list string;
  Target : option Target;
  RecoverConfig : RecoverConfig;
  RuleHash : string;
  ExtraInfoMap : list (gmap string string);
  NotifyRuleIds : list Z;
  NotifyRuleId : Z;
  NotifyRuleName : string;
  NotifyVersion : Z;
  NotifyRules : list EventNotifyRule;
  RecoverTime : Z
}.
#[global] Instance AlertCurEvent_eta : Settable AlertCurEvent := λ r,
  mkEvent (Id r) (Cate r) (Cluster r) (DatasourceId r) (GroupId r) (GroupName r) (Hash r)
    (RuleId r) (RuleName r) (RuleNote r) (RuleProd r) (RuleAlgo r) (Severity r)
    (PromForDuration r) (PromQl r) (RuleConfig r) (RuleConfigJson r) (PromEvalInterval r)
    (Callbacks r) (CallbacksJSON r) (RunbookUrl r) (NotifyRecovered r) (NotifyChannels r)
    (NotifyChannelsJSON r) (NotifyGroups r) (NotifyGroupsJSON r) (NotifyGroupsObj r)
    (TargetIdent r) (TargetNote r) (TriggerTime r) (TriggerValue r) (TriggerValues r)
    (TriggerValuesJson r) (Tags r) (TagsJSON r) (TagsMap r) (OriginalTags r)
    (OriginalTagsJSON r) (Annotations r) (AnnotationsJSON r) (IsRecovered r) (NotifyUsersObj r)
    (LastEvalTime r) (LastSentTime r) (FirstEvalTime r) (NotifyCurNumber r) (FirstTriggerTime r)
    (ExtraConfig r) (Status r) (Claimant r) (SubRuleId r) (ExtraInfo r) (Target r)
    (RecoverConfig r) (RuleHash r) (ExtraInfoMap r) (NotifyRuleIds r) (NotifyRuleId r)
    (NotifyRuleName r) (NotifyVersion r) (NotifyRules r) (RecoverTime r).
Definition zero : AlertCurEvent :=
  mkEvent 0 "" "" 0 0 "" "" 0 "" "" "" "" 0 0 "" "" INil 0 "" [] "" 0 "" [] "" [] [] "" "" 0 ""
    "" TriggerVals.zero "" [] ∅ "" [] "" ∅ false [] 0 0 0 0 0 INil 0 "" 0 [] None
    RecoverConf.zero "" [] [] 0 "" 0 [] 0.
End Event.
Notation AlertCurEvent := Event.AlertCurEvent.

(** [AlertHisEvent] (models/alert_his_event.go).  *)
Module HisEvent.
Record AlertHisEvent := mkHisEvent {
  Id : Z;
  Cate : string;
  IsRecovered : Z;
  DatasourceId : Z;
  Cluster : string;
  GroupId : Z;
  GroupName : string;
  Hash : string;
  RuleId : Z;
  RuleName : string;
  RuleNote : string;
  RuleProd : string;
  RuleAlgo : string;
  Severity : Z;
  PromForDuration : Z;
  PromQl : string;
  RuleConfig : string;
  RuleConfigJson : iface;
  PromEvalInterval : Z;
  Callbacks : string;
  CallbacksJSON : list string;
  RunbookUrl : string;
  NotifyRecovered : Z;
  NotifyChannels : string;
  NotifyChannelsJSON : list string;
  NotifyGroups : string;
  NotifyGroupsJSON : list string;
  NotifyGroupsObj : list UserGroup;
  TargetIdent : string;
  TargetNote : string;
  TriggerTime : Z;
  TriggerValue : string;
  RecoverTime : Z;
  LastEvalTime : Z;
  Tags : string;
  TagsJSON : list string;
  OriginalTags : string;
  OriginalTagsJSON : list string;
  Annotations : string;
  AnnotationsJSON : gmap string string;
  NotifyCurNumber : Z;
  FirstTriggerTime : Z;
  ExtraConfig : iface;
  NotifyRuleIds : list Z;
  NotifyVersion : Z;
  NotifyRules : list EventNotifyRule
}.
#[global] Instance AlertHisEvent_eta : Settable AlertHisEvent := λ r,
  mkHisEvent (Id r) (Cate r) (IsRecovered r) (DatasourceId r) (Cluster r) (GroupId r)
    (GroupName r) (Hash r) (RuleId r) (RuleName r) (RuleNote r) (RuleProd r) (RuleAlgo r)
    (Severity r) (PromForDuration r) (PromQl r) (RuleConfig r) (RuleConfigJson r)
    (PromEvalInterval r) (Callbacks r) (CallbacksJSON r) (RunbookUrl r) (NotifyRecovered r)
    (NotifyChannels r) (NotifyChannelsJSON r) (NotifyGroups r) (NotifyGroupsJSON r)
    (NotifyGroupsObj r) (TargetIdent r) (TargetNote r) (TriggerTime r) (TriggerValue r)
    (RecoverTime r) (LastEvalTime r) (Tags r) (TagsJSON r) (OriginalTags r) (OriginalTagsJSON r)
    (Annotations r) (AnnotationsJSON r) (NotifyCurNumber r) (FirstTriggerTime r) (ExtraConfig r)
    (NotifyRuleIds r) (NotifyVersion r) (NotifyRules r).
Definition zero : AlertHisEvent :=
  mkHisEvent 0 "" 0 0 "" 0 "" "" 0 "" "" "" "" 0 0 "" "" INil 0 "" [] "" 0 "" [] "" [] [] "" ""
    0 "" 0 0 "" [] "" [] "" ∅ 0 0 INil [] 0 [].
End HisEvent.
Notation AlertHisEvent := HisEvent.AlertHisEvent.

(** [AnomalyPoint] (models/anomaly_point.go).  *)
Module Point.
Record AnomalyPoint := mkAnomalyPoint {
  Key : string;
  Labels : gmap string string;
  Timestamp : Z;
  Value : float64;
  Severity : Z;
  Triggered : bool;
  Query : string;
  Values : string;
  ValuesUnit : gmap string FormattedValue;
  RecoverConfig : RecoverConfig;
  TriggerType : string
}.
#[global] Instance AnomalyPoint_eta : Settable AnomalyPoint := λ r,
  mkAnomalyPoint (Key r) (Labels r) (Timestamp r) (Value r) (Severity r) (Triggered r) (Query r)
    (Values r) (ValuesUnit r) (RecoverConfig r) (TriggerType r).
Definition zero : AnomalyPoint :=
  mkAnomalyPoint "" ∅ 0 (F64 0) 0 false "" "" ∅ RecoverConf.zero "".
End Point.
Notation AnomalyPoint := Point.AnomalyPoint.

