(* ===== verification/RuleModels.v ===== *)
(** * The data model of rules, mutes and subscriptions

    The Go structs the alerting configuration is made of, in the style of
    [Models].  A compiled [*regexp.Regexp] is identified by its source
    expression.  The annotations of a rule are an [option]: the code tells a nil
    map from an empty one. *)

From Stdlib Require Import QArith_base.
From S2P Require Import Prelude GoStrings Json Models.
Open Scope string_scope.
Open Scope Z_scope.

Definition regexp := string.

(** The constants of [models/alert_rule.go] and [models/alert_mute.go]. *)
Definition METRIC := "metric".
Definition LOG := "logging".
Definition HOST := "host".
Definition LOKI := "loki".
Definition PROMETHEUS := "prometheus".
Definition TDENGINE := "tdengine".
Definition ELASTICSEARCH := "elasticsearch".
Definition MYSQL := "mysql".
Definition POSTGRESQL := "pgsql".
Definition DORIS := "doris".
Definition OPENSEARCH := "opensearch".
Definition CLICKHOUSE := "ck".
Definition VICTORIALOGS := "victorialogs".
Definition SeverityLowest : Z := 4.
Definition Origin : Z := 0.
Definition TimeRange : Z := 0.
Definition Periodic : Z := 1.

(** [Tpl] (models/alert_rule.go).  *)
Module TaskTpl.
Record Tpl := mkTpl {
  TplId : Z;
  TplName : string;
  Host : list string
}.
#[global] Instance Tpl_eta : Settable Tpl := λ r,
  mkTpl (TplId r) (TplName r) (Host r).
Definition zero : Tpl :=
  mkTpl 0 "" [].
End TaskTpl.
Notation Tpl := TaskTpl.Tpl.

(** [Join] (models/alert_rule.go).  *)
Module JoinConf.
Record Join := mkJoin {
  JoinType : string;
  Ref : string;
  On : list string
}.
#[global] Instance Join_eta : Settable Join := λ r,
  mkJoin (JoinType r) (Ref r) (On r).
Definition zero : Join :=
  mkJoin "" "" [].
End JoinConf.
Notation Join := JoinConf.Join.

(** [Trigger] (models/alert_rule.go).  *)
Module Trig.
Record Trigger := mkTrigger {
  Expressions : iface;
  Mode : Z;
  Exp : string;
  Severity : Z;
  Type_ : string;
  Duration : Z;
  Percent : Z;
  Joins : list Join;
  JoinRef : string;
  RecoverConfig : RecoverConfig
}.
#[global] Instance Trigger_eta : Settable Trigger := λ r,
  mkTrigger (Expressions r) (Mode r) (Exp r) (Severity r) (Type_ r) (Duration r) (Percent r)
    (Joins r) (JoinRef r) (RecoverConfig r).
Definition zero : Trigger :=
  mkTrigger INil 0 "" 0 "" 0 0 [] "" RecoverConf.zero.
End Trig.
Notation Trigger := Trig.Trigger.

(** [NodataTrigger] (models/alert_rule.go).  *)
Module NodataTrig.
Record NodataTrigger := mkNodataTrigger {
  Enable : bool;
  Severity : Z;
  ResolveAfterEnable : bool;
  ResolveAfter : Z
}.
#[global] Instance NodataTrigger_eta : Settable NodataTrigger := λ r,
  mkNodataTrigger (Enable r) (Severity r) (ResolveAfterEnable r) (ResolveAfter r).
Definition zero : NodataTrigger :=
  mkNodataTrigger false 0 false 0.
End NodataTrig.
Notation NodataTrigger := NodataTrig.NodataTrigger.

(** [ParamQuery], [ParamQueryForFirst], [ChildVarConfig] and [VarConfig]
    (models/alert_rule.go); a child points to the next one. *)
Module VarConf.
Record ParamQuery := mkParamQuery { ParamType : string; Query : iface }.
Record ParamQueryForFirst := mkParamQueryForFirst { Name : string; FParamType : string; FQuery : iface }.
Inductive ChildVarConfig :=
| mkChildVarConfig (ParamVal : list (gmap string ParamQuery)) (ChildVarConfigs : option ChildVarConfig).
Record VarConfig := mkVarConfig {
  ParamVal : list ParamQueryForFirst;
  ChildVarConfigs : option ChildVarConfig
}.
Definition zero : VarConfig := mkVarConfig [] None.
End VarConf.
Notation ParamQuery := VarConf.ParamQuery.
Notation ChildVarConfig := VarConf.ChildVarConfig.
Notation VarConfig := VarConf.VarConfig.

(** [PromQuery] (models/alert_rule.go).  *)
Module PromQ.
Record PromQuery := mkPromQuery {
  PromQl : string;
  Severity : Z;
  VarEnabled : bool;
  VarConfig : VarConfig;
  RecoverConfig : RecoverConfig;
  Unit : string
}.
#[global] Instance PromQuery_eta : Settable PromQuery := λ r,
  mkPromQuery (PromQl r) (Severity r) (VarEnabled r) (VarConfig r) (RecoverConfig r) (Unit r).
Definition zero : PromQuery :=
  mkPromQuery "" 0 false VarConf.zero RecoverConf.zero "".
End PromQ.
Notation PromQuery := PromQ.PromQuery.

(** [PromRuleConfig] (models/alert_rule.go).  *)
Module PromRuleConf.
Record PromRuleConfig := mkPromRuleConfig {
  Queries : list PromQuery;
  Inhibit : bool;
  PromQl : string;
  Severity : Z;
  AlgoParams : iface
}.
#[global] Instance PromRuleConfig_eta : Settable PromRuleConfig := λ r,
  mkPromRuleConfig (Queries r) (Inhibit r) (PromQl r) (Severity r) (AlgoParams r).
Definition zero : PromRuleConfig :=
  mkPromRuleConfig [] false "" 0 INil.
End PromRuleConf.
Notation PromRuleConfig := PromRuleConf.PromRuleConfig.

(** [RuleQuery] (models/alert_rule.go).  *)
Module RuleQ.
Record RuleQuery := mkRuleQuery {
  Version : string;
  Inhibit : bool;
  Queries : list iface;
  ExpTriggerDisable : bool;
  Triggers : list Trigger;
  NodataTrigger : NodataTrigger;
  AnomalyTrigger : iface;
  TriggerType : string
}.
#[global] Instance RuleQuery_eta : Settable RuleQuery := λ r,
  mkRuleQuery (Version r) (Inhibit r) (Queries r) (ExpTriggerDisable r) (Triggers r)
    (NodataTrigger r) (AnomalyTrigger r) (TriggerType r).
Definition zero : RuleQuery :=
  mkRuleQuery "" false [] false [] NodataTrig.zero INil "".
End RuleQ.
Notation RuleQuery := RuleQ.RuleQuery.

(** [HostQuery] (models/alert_rule.go).  *)
Module HostQ.
Record HostQuery := mkHostQuery {
  Key : string;
  Op : string;
  Values : list iface
}.
#[global] Instance HostQuery_eta : Settable HostQuery := λ r,
  mkHostQuery (Key r) (Op r) (Values r).
Definition zero : HostQuery :=
  mkHostQuery "" "" [].
End HostQ.
Notation HostQuery := HostQ.HostQuery.

(** [HostTrigger] and [HostRuleConfig] (models/alert_rule.go).  *)
Module HostTrig.
Record HostTrigger := mkHostTrigger { Type_ : string; Duration : Z; Percent : Z; Severity : Z }.
End HostTrig.
Notation HostTrigger := HostTrig.HostTrigger.
Module HostRuleConf.
Record HostRuleConfig := mkHostRuleConfig {
  Queries : list HostQuery;
  Triggers : list HostTrigger;
  Inhibit : bool
}.
Definition zero : HostRuleConfig := mkHostRuleConfig [] [] false.
End HostRuleConf.
Notation HostRuleConfig := HostRuleConf.HostRuleConfig.

(** [DatasourceQuery] (models/alert_rule.go).  *)
Module DsQuery.
Record DatasourceQuery := mkDatasourceQuery {
  MatchType : Z;
  Op : string;
  Values : list iface
}.
#[global] Instance DatasourceQuery_eta : Settable DatasourceQuery := λ r,
  mkDatasourceQuery (MatchType r) (Op r) (Values r).
Definition zero : DatasourceQuery :=
  mkDatasourceQuery 0 "" [].
End DsQuery.
Notation DatasourceQuery := DsQuery.DatasourceQuery.

(** [PipelineConfig] (models/notify_rule.go).  *)
Module PipelineConf.
Record PipelineConfig := mkPipelineConfig {
  PipelineId : Z;
  Enable : bool
}.
#[global] Instance PipelineConfig_eta : Settable PipelineConfig := λ r,
  mkPipelineConfig (PipelineId r) (Enable r).
Definition zero : PipelineConfig :=
  mkPipelineConfig 0 false.
End PipelineConf.
Notation PipelineConfig := PipelineConf.PipelineConfig.

(** [RelabelConfig] (pushgw/pconf/conf.go).  *)
Module RelabelConf.
Record RelabelConfig := mkRelabelConfig {
  SourceLabels : list string;
  Separator : string;
  Regex : string;
  RegexCompiled : option regexp;
  If_ : string;
  IfRegex : option regexp;
  Modulus : Z;
  TargetLabel : string;
  Replacement : string;
  Action : string
}.
#[global] Instance RelabelConfig_eta : Settable RelabelConfig := λ r,
  mkRelabelConfig (SourceLabels r) (Separator r) (Regex r) (RegexCompiled r) (If_ r) (IfRegex r)
    (Modulus r) (TargetLabel r) (Replacement r) (Action r).
Definition zero : RelabelConfig :=
  mkRelabelConfig [] "" "" None "" None 0 "" "" "".
End RelabelConf.
Notation RelabelConfig := RelabelConf.RelabelConfig.

(** [RuleConfig] (models/alert_rule.go).  *)
Module RuleConf.
Record RuleConfig := mkRuleConfig {
  Version : string;
  EventRelabelConfig : list RelabelConfig;
  TaskTpls : list Tpl;
  Queries : iface;
  Triggers : list Trigger;
  Inhibit : bool;
  PromQl : string;
  Severity : Z;
  AlgoParams : iface;
  OverrideGlobalWebhook : bool
}.
#[global] Instance RuleConfig_eta : Settable RuleConfig := λ r,
  mkRuleConfig (Version r) (EventRelabelConfig r) (TaskTpls r) (Queries r) (Triggers r)
    (Inhibit r) (PromQl r) (Severity r) (AlgoParams r) (OverrideGlobalWebhook r).
Definition zero : RuleConfig :=
  mkRuleConfig "" [] [] INil [] false "" 0 INil false.
End RuleConf.
Notation RuleConfig := RuleConf.RuleConfig.

(** [AlertRule] (models/alert_rule.go).  *)
Module Rule.
Record AlertRule := mkAlertRule {
  Id : Z;
  GroupId : Z;
  Cate : string;
  DatasourceIds : string;
  DatasourceIdsJson : list Z;
  DatasourceQueries : list DatasourceQuery;
  Cluster : string;
  Name : string;
  Note : string;
  Prod : string;
  Algorithm : string;
  AlgoParams : string;
  AlgoParamsJson : iface;
  Delay : Z;
  Severity : Z;
  Severities : list Z;
  Disabled : Z;
  PromForDuration : Z;
  PromQl : string;
  RuleConfig : string;
  RuleConfigJson : iface;
  EventRelabelConfig : list RelabelConfig;
  PromEvalInterval : Z;
  EnableStime : string;
  EnableStimeJSON : string;
  EnableStimesJSON : list string;
  EnableEtime : string;
  EnableEtimeJSON : string;
  EnableEtimesJSON : list string;
  EnableDaysOfWeek : string;
  EnableDaysOfWeekJSON : list string;
  EnableDaysOfWeeksJSON : list (list string);
  EnableInBG : Z;
  NotifyRecovered : Z;
  NotifyChannels : string;
  NotifyChannelsJSON : list string;
  NotifyGroups : string;
  NotifyGroupsObj : list UserGroup;
  NotifyGroupsJSON : list string;
  NotifyRepeatStep : Z;
  NotifyMaxNumber : Z;
  RecoverDuration : Z;
  Callbacks : string;
  CallbacksJSON : list string;
  RunbookUrl : string;
  AppendTags : string;
  AppendTagsJSON : list string;
  Annotations : string;
  AnnotationsJSON : option (gmap string string);
  ExtraConfig : string;
  ExtraConfigJSON : iface;
  CreateAt : Z;
  CreateBy : string;
  UpdateAt : Z;
  UpdateBy : string;
  UUID : Z;
  CurEventCount : Z;
  UpdateByNickname : string;
  CronPattern : string;
  NotifyRuleIds : list Z;
  PipelineConfigs : list PipelineConfig;
  NotifyVersion : Z
}.
#[global] Instance AlertRule_eta : Settable AlertRule := λ r,
  mkAlertRule (Id r) (GroupId r) (Cate r) (DatasourceIds r) (DatasourceIdsJson r)
    (DatasourceQueries r) (Cluster r) (Name r) (Note r) (Prod r) (Algorithm r) (AlgoParams r)
    (AlgoParamsJson r) (Delay r) (Severity r) (Severities r) (Disabled r) (PromForDuration r)
    (PromQl r) (RuleConfig r) (RuleConfigJson r) (EventRelabelConfig r) (PromEvalInterval r)
    (EnableStime r) (EnableStimeJSON r) (EnableStimesJSON r) (EnableEtime r) (EnableEtimeJSON r)
    (EnableEtimesJSON r) (EnableDaysOfWeek r) (EnableDaysOfWeekJSON r) (EnableDaysOfWeeksJSON r)
    (EnableInBG r) (NotifyRecovered r) (NotifyChannels r) (NotifyChannelsJSON r)
    (NotifyGroups r) (NotifyGroupsObj r) (NotifyGroupsJSON r) (NotifyRepeatStep r)
    (NotifyMaxNumber r) (RecoverDuration r) (Callbacks r) (CallbacksJSON r) (RunbookUrl r)
    (AppendTags r) (AppendTagsJSON r) (Annotations r) (AnnotationsJSON r) (ExtraConfig r)
    (ExtraConfigJSON r) (CreateAt r) (CreateBy r) (UpdateAt r) (UpdateBy r) (UUID r)
    (CurEventCount r) (UpdateByNickname r) (CronPattern r) (NotifyRuleIds r) (PipelineConfigs r)
    (NotifyVersion r).
Definition zero : AlertRule :=
  mkAlertRule 0 0 "" "" [] [] "" "" "" "" "" "" INil 0 0 [] 0 0 "" "" INil [] 0 "" "" [] "" ""
    [] "" [] [] 0 0 "" [] "" [] [] 0 0 0 "" [] "" "" [] "" None "" INil 0 "" 0 "" 0 0 "" "" [] [] 0.
End Rule.
Notation AlertRule := Rule.AlertRule.

(** [TagFilter] (models/alert_mute.go).  *)
Module TagFlt.
Record TagFilter := mkTagFilter {
  Key : string;
  Func : string;
  Op : string;
  Value : iface;
  Regexp : option regexp;
  Vset : option (gset string)
}.
#[global] Instance TagFilter_eta : Settable TagFilter := λ r,
  mkTagFilter (Key r) (Func r) (Op r) (Value r) (Regexp r) (Vset r).
Definition zero : TagFilter :=
  mkTagFilter "" "" "" INil None None.
End TagFlt.
Notation TagFilter := TagFlt.TagFilter.

(** [PeriodicMute] (models/alert_mute.go).  *)
Module PeriodicMt.
Record PeriodicMute := mkPeriodicMute {
  EnableStime : string;
  EnableEtime : string;
  EnableDaysOfWeek : string
}.
#[global] Instance PeriodicMute_eta : Settable PeriodicMute := λ r,
  mkPeriodicMute (EnableStime r) (EnableEtime r) (EnableDaysOfWeek r).
Definition zero : PeriodicMute :=
  mkPeriodicMute "" "" "".
End PeriodicMt.
Notation PeriodicMute := PeriodicMt.PeriodicMute.

(** [AlertMute] (models/alert_mute.go).  *)
Module Mute.
Record AlertMute := mkAlertMute {
  Id : Z;
  GroupId : Z;
  Note : string;
  Cate : string;
  Prod : string;
  DatasourceIds : string;
  DatasourceIdsJson : list Z;
  Cluster : string;
  Tags : string;
  Cause : string;
  Btime : Z;
  Etime : Z;
  Disabled : Z;
  Activated : Z;
  CreateBy : string;
  UpdateBy : string;
  CreateAt : Z;
  UpdateAt : Z;
  ITags : list TagFilter;
  MuteTimeType : Z;
  PeriodicMutes : string;
  PeriodicMutesJson : list PeriodicMute;
  Severities : string;
  SeveritiesJson : list Z
}.
#[global] Instance AlertMute_eta : Settable AlertMute := λ r,
  mkAlertMute (Id r) (GroupId r) (Note r) (Cate r) (Prod r) (DatasourceIds r)
    (DatasourceIdsJson r) (Cluster r) (Tags r) (Cause r) (Btime r) (Etime r) (Disabled r)
    (Activated r) (CreateBy r) (UpdateBy r) (CreateAt r) (UpdateAt r) (ITags r) (MuteTimeType r)
    (PeriodicMutes r) (PeriodicMutesJson r) (Severities r) (SeveritiesJson r).
Definition zero : AlertMute :=
  mkAlertMute 0 0 "" "" "" "" [] "" "" "" 0 0 0 0 "" "" 0 0 [] 0 "" [] "" [].
End Mute.
Notation AlertMute := Mute.AlertMute.

(** [AlertSubscribe] (models/alert_subscribe.go).  *)
Module Subscribe.
Record AlertSubscribe := mkAlertSubscribe {
  Id : Z;
  Name : string;
  Disabled : Z;
  GroupId : Z;
  Prod : string;
  Cate : string;
  DatasourceIds : string;
  DatasourceIdsJson : list Z;
  Cluster : string;
  RuleId : Z;
  Severities : string;
  SeveritiesJson : list Z;
  ForDuration : Z;
  RuleName : string;
  Tags : string;
  RedefineSeverity : Z;
  NewSeverity : Z;
  RedefineChannels : Z;
  NewChannels : string;
  UserGroupIds : string;
  UserGroups : list UserGroup;
  RedefineWebhooks : Z;
  Webhooks : string;
  WebhooksJson : list string;
  ExtraConfig : string;
  ExtraConfigJson : iface;
  Note : string;
  CreateBy : string;
  CreateAt : Z;
  UpdateBy : string;
  UpdateAt : Z;
  ITags : list TagFilter;
  BusiGroups : string;
  IBusiGroups : list TagFilter;
  RuleIds : list Z;
  NotifyRuleIds : list Z;
  NotifyVersion : Z;
  RuleNames : list string
}.
#[global] Instance AlertSubscribe_eta : Settable AlertSubscribe := λ r,
  mkAlertSubscribe (Id r) (Name r) (Disabled r) (GroupId r) (Prod r) (Cate r) (DatasourceIds r)
    (DatasourceIdsJson r) (Cluster r) (RuleId r) (Severities r) (SeveritiesJson r)
    (ForDuration r) (RuleName r) (Tags r) (RedefineSeverity r) (NewSeverity r)
    (RedefineChannels r) (NewChannels r) (UserGroupIds r) (UserGroups r) (RedefineWebhooks r)
    (Webhooks r) (WebhooksJson r) (ExtraConfig r) (ExtraConfigJson r) (Note r) (CreateBy r)
    (CreateAt r) (UpdateBy r) (UpdateAt r) (ITags r) (BusiGroups r) (IBusiGroups r) (RuleIds r)
    (NotifyRuleIds r) (NotifyVersion r) (RuleNames r).
Definition zero : AlertSubscribe :=
  mkAlertSubscribe 0 "" 0 0 "" "" "" [] "" 0 "" [] 0 "" "" 0 0 0 "" "" [] 0 "" [] "" INil "" ""
    0 "" 0 [] "" [] [] [] 0 [].
End Subscribe.
Notation AlertSubscribe := Subscribe.AlertSubscribe.

