(* ===== verification/EventOps.v ===== *)
(** * Operations of an alert event: [models/alert_cur_event.go]

    Conversions between the database form of an event (strings) and its
    in-memory form (slices and maps), the rendering of its templated fields,
    the accessors the notification code uses, and the conversion to a history
    record.  Template execution and the JSON codec are parameters. *)

From Stdlib Require Import Ascii.
From S2P Require Import Prelude GoStrings Json Models RuleModels.
Open Scope string_scope.
Open Scope Z_scope.

(** [text/template]: a template is given by its name, which errors mention,
    its functions and its text; [Parse] can fail, and executing it on an event
    gives the rendered text or an error. *)
Inductive funcmap := NoFuncs | TemplateFuncMap | QueryFuncMap.

Class TextTemplate := {
  tpl_parse : string → funcmap → string → option error;
  tpl_execute : string → funcmap → string → AlertCurEvent → result string
}.

(** ** Tags *)

(** The body of the loop that fills [TagsMap] from one element of [TagsJSON]. *)
Definition add_tag (m : gmap string string) (tag : string) : gmap string string :=
  let pair := trim_space tag in
  if String.eqb pair "" then m
  else match splitn2 pair "=" with
       | [k; v] => <[k := v]> m
       | _ => m
       end.

Definition tags_map (tags : list string) : gmap string string := foldl add_tag ∅ tags.

Definition SetTagsMap (e : AlertCurEvent) : AlertCurEvent :=
  e <| Event.TagsMap := tags_map (Event.TagsJSON e) |>.

Definition FillTagsMap (e : AlertCurEvent) : AlertCurEvent :=
  e <| Event.TagsMap := tags_map (Event.TagsJSON e) |>.

Fixpoint find_tag (tagkey : string) (tags : list string) : string :=
  match tags with
  | [] => ""
  | tag :: tags' =>
      match index_of tag (tagkey +:+ "=") with
      | Some _ => str_drop (String.length (tagkey +:+ "=")) tag
      | None => find_tag tagkey tags'
      end
  end.

Definition GetTagValue (e : AlertCurEvent) (tagkey : string) : string :=
  find_tag tagkey (Event.TagsJSON e).

Definition GetField (e : AlertCurEvent) (field : string) : string :=
  match field with
  | "cluster" => Event.Cluster e
  | "group_id" => itoa (Event.GroupId e)
  | "group_name" => Event.GroupName e
  | "rule_id" => itoa (Event.RuleId e)
  | "rule_name" => Event.RuleName e
  | "rule_note" => Event.RuleNote e
  | "severity" => itoa (Event.Severity e)
  | "runbook_url" => Event.RunbookUrl e
  | "target_ident" => Event.TargetIdent e
  | "target_note" => Event.TargetNote e
  | "callbacks" => Event.Callbacks e
  | "annotations" => Event.Annotations e
  | _ => ""
  end.

(** ** Attributes

    The JSON text of the fields that are not plain strings, numbers or
    booleans (the [json.Marshal] calls of [JsonTagsAndValue]) is a parameter. *)

Inductive jfield :=
| JStrings (l : list string)
| JStringMap (m : gmap string string)
| JIface (v : iface)
| JGroups (l : list UserGroup)
| JTriggerValues (v : EventTriggerValues)
| JUsers (l : list User)
| JTarget (t : option Target)
| JRecoverConfig (r : RecoverConfig)
| JStringMaps (l : list (gmap string string))
| JInts (l : list Z)
| JNotifyRules (l : list EventNotifyRule).

Class EventFieldJson := { field_json : jfield → string }.

(** [JsonTagsAndValue]: the fields of the struct whose JSON tag is not "-", by
    that tag. *)
Definition JsonTagsAndValue `{EventFieldJson} (e : AlertCurEvent) : gmap string string :=
  list_to_map [
    ("id", itoa (Event.Id e));
    ("cate", Event.Cate e);
    ("cluster", Event.Cluster e);
    ("datasource_id", itoa (Event.DatasourceId e));
    ("group_id", itoa (Event.GroupId e));
    ("group_name", Event.GroupName e);
    ("hash", Event.Hash e);
    ("rule_id", itoa (Event.RuleId e));
    ("rule_name", Event.RuleName e);
    ("rule_note", Event.RuleNote e);
    ("rule_prod", Event.RuleProd e);
    ("rule_algo", Event.RuleAlgo e);
    ("severity", itoa (Event.Severity e));
    ("prom_for_duration", itoa (Event.PromForDuration e));
    ("prom_ql", Event.PromQl e);
    ("rule_config", field_json (JIface (Event.RuleConfigJson e)));
    ("prom_eval_interval", itoa (Event.PromEvalInterval e));
    ("callbacks", field_json (JStrings (Event.CallbacksJSON e)));
    ("runbook_url", Event.RunbookUrl e);
    ("notify_recovered", itoa (Event.NotifyRecovered e));
    ("notify_channels", field_json (JStrings (Event.NotifyChannelsJSON e)));
    ("notify_groups", field_json (JStrings (Event.NotifyGroupsJSON e)));
    ("notify_groups_obj", field_json (JGroups (Event.NotifyGroupsObj e)));
    ("target_ident", Event.TargetIdent e);
    ("target_note", Event.TargetNote e);
    ("trigger_time", itoa (Event.TriggerTime e));
    ("trigger_value", Event.TriggerValue e);
    ("trigger_values", Event.TriggerValues e);
    ("trigger_values_json", field_json (JTriggerValues (Event.TriggerValuesJson e)));
    ("tags", field_json (JStrings (Event.TagsJSON e)));
    ("tags_map", field_json (JStringMap (Event.TagsMap e)));
    ("original_tags", field_json (JStrings (Event.OriginalTagsJSON e)));
    ("annotations", field_json (JStringMap (Event.AnnotationsJSON e)));
    ("is_recovered", if Event.IsRecovered e then "true" else "false");
    ("notify_users_obj", field_json (JUsers (Event.NotifyUsersObj e)));
    ("last_eval_time", itoa (Event.LastEvalTime e));
    ("last_sent_time", itoa (Event.LastSentTime e));
    ("first_eval_time", itoa (Event.FirstEvalTime e));
    ("notify_cur_number", itoa (Event.NotifyCurNumber e));
    ("first_trigger_time", itoa (Event.FirstTriggerTime e));
    ("extra_config", field_json (JIface (Event.ExtraConfig e)));
    ("status", itoa (Event.Status e));
    ("claimant", Event.Claimant e);
    ("sub_rule_id", itoa (Event.SubRuleId e));
    ("extra_info", field_json (JStrings (Event.ExtraInfo e)));
    ("target", field_json (JTarget (Event.Target e)));
    ("recover_config", field_json (JRecoverConfig (Event.RecoverConfig e)));
    ("rule_hash", Event.RuleHash e);
    ("extra_info_map", field_json (JStringMaps (Event.ExtraInfoMap e)));
    ("notify_rule_ids", field_json (JInts (Event.NotifyRuleIds e)));
    ("notify_rule_id", itoa (Event.NotifyRuleId e));
    ("notify_rule_name", Event.NotifyRuleName e);
    ("notify_version", itoa (Event.NotifyVersion e));
    ("notify_rules", field_json (JNotifyRules (Event.NotifyRules e)));
    ("recover_time", itoa (Event.RecoverTime e))
  ].

(** ** Aggregation rules and card titles *)

Record AggrRule := mkAggrRule { aggr_type : string; aggr_value : string }.

Definition parse_aggr_rule (s : string) : go AggrRule :=
  match split s ":" with
  | [p0; p1] =>
      if negb (String.eqb p0 "field" || String.eqb p0 "tagkey") then Panic
      else Ret (mkAggrRule p0 p1)
  | _ => Panic
  end.

(** [ginx.Bomb] panics with an HTTP error. *)
Fixpoint parse_aggr_list (ss : list string) : go (list AggrRule) :=
  match ss with
  | [] => Ret []
  | s :: ss' => r ← parse_aggr_rule s; rs ← parse_aggr_list ss'; Ret (r :: rs)
  end.

Definition parseAggrRules (rule : string) : go (list AggrRule) :=
  parse_aggr_list (split rule "::").

Definition card_part (e : AlertCurEvent) (r : AggrRule) : string :=
  let a := "" in
  let a := if String.eqb (aggr_type r) "field" then GetField e (aggr_value r) else a in
  let a := if String.eqb (aggr_type r) "tagkey" then GetTagValue e (aggr_value r) else a in
  if String.eqb a "" then "Others" else a.

Definition GenCardTitle `{TextTemplate} (e : AlertCurEvent) (rule : string) : go string :=
  if contains rule "{{" then
    Ret match tpl_parse "card_title" NoFuncs rule with
        | Some err => "failed to parse card title: " +:+ err
        | None => match tpl_execute "card_title" NoFuncs rule e with
                  | Err err => "failed to execute card title: " +:+ err
                  | Ok s => s
                  end
        end
  else
    rules ← parseAggrRules rule;
    Ret (join (map (card_part e) rules) "::").

(** ** Templated fields *)

Section parse.
Context `{TextTemplate, GoRange, !Json (gmap string string)}.

Definition render_annotation (e : AlertCurEvent) (kv : string * string) : AlertCurEvent :=
  let '(k, v) := kv in
  let text := join ["{{$labels := .TagsMap}}"; "{{$value := .TriggerValue}}"; v] "" in
  let put s := e <| Event.AnnotationsJSON := <[k := s]> (Event.AnnotationsJSON e) |> in
  match tpl_parse (itoa (Event.RuleId e)) QueryFuncMap text with
  | Some err => put ("failed to parse annotations: " +:+ err)
  | None =>
      match tpl_execute (itoa (Event.RuleId e)) QueryFuncMap text e with
      | Err err => put ("failed to parse annotations: " +:+ err)
      | Ok body => put body
      end
  end.

Definition parse_annotations (e : AlertCurEvent) : AlertCurEvent :=
  let '(m, err) := json_unmarshal (Event.Annotations e) (Event.AnnotationsJSON e) in
  let e := match err with
           | None => e <| Event.AnnotationsJSON := m |>
           | Some _ => e <| Event.AnnotationsJSON := {["error" := Event.Annotations e]} |>
           end in
  let e := foldl render_annotation e (go_range (Event.AnnotationsJSON e)) in
  match json_marshal (Event.AnnotationsJSON e) with
  | Err err =>
      e <| Event.AnnotationsJSON := {["error" := "failed to parse annotations: " +:+ err]} |>
  | Ok b => e <| Event.Annotations := b |>
  end.

Definition ParseRule (e : AlertCurEvent) (field : string) : AlertCurEvent * option error :=
  let f := trim_space (GetField e field) in
  if String.eqb f "" then (e, None)
  else if String.eqb field "annotations" then (parse_annotations e, None)
  else
    let text := join ["{{$labels := .TagsMap}}"; "{{$value := .TriggerValue}}";
                      "{{$annotations := .AnnotationsJSON}}"; f] "" in
    match tpl_parse (itoa (Event.RuleId e)) TemplateFuncMap text with
    | Some err => (e, Some err)
    | None =>
        match tpl_execute (itoa (Event.RuleId e)) TemplateFuncMap text e with
        | Err err => (e, Some err)
        | Ok body =>
            let e := if String.eqb field "rule_name" then e <| Event.RuleName := body |> else e in
            let e := if String.eqb field "rule_note" then e <| Event.RuleNote := body |> else e in
            (e, None)
        end
    end.

Definition ParseURL (e : AlertCurEvent) (url : string) : string :=
  let f := trim_space url in
  if String.eqb f "" then url
  else
    let text := join ["{{$labels := .TagsMap}}"; "{{$value := .TriggerValue}}";
                      "{{$annotations := .AnnotationsJSON}}"; f] "" in
    let name := "callbackUrl" +:+ itoa (Event.RuleId e) in
    match tpl_parse name TemplateFuncMap text with
    | Some _ => url
    | None => match tpl_execute name TemplateFuncMap text e with Err _ => url | Ok body => body end
    end.
End parse.

(** ** Database form and in-memory form *)

(** [b, _ := json.Marshal(v)] followed by [string(b)]. *)
Definition marshal_text {A} `{Json A} (a : A) : string :=
  match json_marshal a with Ok s => s | Err _ => "" end.

Section db.
Context `{!Json (gmap string string), !Json iface}.

Definition DB2FE (e : AlertCurEvent) : AlertCurEvent * option error :=
  let tags := split (Event.Tags e) ",," in
  let e1 := e
    <| Event.NotifyChannelsJSON := fields (Event.NotifyChannels e) |>
    <| Event.NotifyGroupsJSON := fields (Event.NotifyGroups e) |>
    <| Event.CallbacksJSON := fields (Event.Callbacks e) |>
    <| Event.TagsJSON := tags |>
    <| Event.OriginalTagsJSON := split (Event.OriginalTags e) ",," |> in
  let '(m, err) := json_unmarshal (Event.Annotations e) (Event.AnnotationsJSON e) in
  let e2 := e1 <| Event.AnnotationsJSON := m |> in
  match err with
  | Some err => (e2, Some err)
  | None =>
      let '(rc, err) := json_unmarshal (Event.RuleConfig e) (Event.RuleConfigJson e) in
      let e3 := e2 <| Event.RuleConfigJson := rc |> in
      match err with
      | Some err => (e3, Some err)
      | None => (e3 <| Event.TagsMap := tags_map tags |>, None)
      end
  end.

Definition FE2DB (e : AlertCurEvent) : AlertCurEvent :=
  e <| Event.NotifyChannels := join (Event.NotifyChannelsJSON e) " " |>
    <| Event.NotifyGroups := join (Event.NotifyGroupsJSON e) " " |>
    <| Event.Callbacks := join (Event.CallbacksJSON e) " " |>
    <| Event.Tags := join (Event.TagsJSON e) ",," |>
    <| Event.OriginalTags := join (Event.OriginalTagsJSON e) ",," |>
    <| Event.Annotations := marshal_text (Event.AnnotationsJSON e) |>
    <| Event.RuleConfig := marshal_text (Event.RuleConfigJson e) |>.
End db.

Definition DB2Mem (e : AlertCurEvent) : AlertCurEvent :=
  let tags := split (Event.Tags e) ",," in
  let e := e
    <| Event.IsRecovered := false |>
    <| Event.NotifyGroupsJSON := fields (Event.NotifyGroups e) |>
    <| Event.CallbacksJSON := fields (Event.Callbacks e) |>
    <| Event.NotifyChannelsJSON := fields (Event.NotifyChannels e) |>
    <| Event.TagsJSON := tags |>
    <| Event.TagsMap := tags_map tags |> in
  if Event.FirstTriggerTime e =? 0
  then e <| Event.FirstTriggerTime := Event.TriggerTime e |> else e.

Definition OverrideGlobalWebhook `{!Json RuleConfig} (e : AlertCurEvent) : bool :=
  match json_unmarshal (Event.RuleConfig e) RuleConf.zero with
  | (_, Some _) => false
  | (rc, None) => RuleConf.OverrideGlobalWebhook rc
  end.

(** ** History records: [ToHis] and [models/alert_his_event.go] *)

Definition ToHis (e : AlertCurEvent) : AlertHisEvent :=
  let isRecovered := if Event.IsRecovered e then 1 else 0 in
  let recoverTime := if Event.IsRecovered e then Event.LastEvalTime e else 0 in
  HisEvent.zero
  <| HisEvent.IsRecovered := isRecovered |>
  <| HisEvent.Cate := Event.Cate e |>
  <| HisEvent.Cluster := Event.Cluster e |>
  <| HisEvent.DatasourceId := Event.DatasourceId e |>
  <| HisEvent.GroupId := Event.GroupId e |>
  <| HisEvent.GroupName := Event.GroupName e |>
  <| HisEvent.Hash := Event.Hash e |>
  <| HisEvent.RuleId := Event.RuleId e |>
  <| HisEvent.RuleName := Event.RuleName e |>
  <| HisEvent.RuleProd := Event.RuleProd e |>
  <| HisEvent.RuleAlgo := Event.RuleAlgo e |>
  <| HisEvent.RuleNote := Event.RuleNote e |>
  <| HisEvent.Severity := Event.Severity e |>
  <| HisEvent.PromForDuration := Event.PromForDuration e |>
  <| HisEvent.PromQl := Event.PromQl e |>
  <| HisEvent.PromEvalInterval := Event.PromEvalInterval e |>
  <| HisEvent.RuleConfig := Event.RuleConfig e |>
  <| HisEvent.RuleConfigJson := Event.RuleConfigJson e |>
  <| HisEvent.Callbacks := Event.Callbacks e |>
  <| HisEvent.RunbookUrl := Event.RunbookUrl e |>
  <| HisEvent.NotifyRecovered := Event.NotifyRecovered e |>
  <| HisEvent.NotifyChannels := Event.NotifyChannels e |>
  <| HisEvent.NotifyGroups := Event.NotifyGroups e |>
  <| HisEvent.Annotations := Event.Annotations e |>
  <| HisEvent.AnnotationsJSON := Event.AnnotationsJSON e |>
  <| HisEvent.TargetIdent := Event.TargetIdent e |>
  <| HisEvent.TargetNote := Event.TargetNote e |>
  <| HisEvent.TriggerTime := Event.TriggerTime e |>
  <| HisEvent.TriggerValue := Event.TriggerValue e |>
  <| HisEvent.Tags := Event.Tags e |>
  <| HisEvent.OriginalTags := Event.OriginalTags e |>
  <| HisEvent.RecoverTime := recoverTime |>
  <| HisEvent.LastEvalTime := Event.LastEvalTime e |>
  <| HisEvent.NotifyCurNumber := Event.NotifyCurNumber e |>
  <| HisEvent.FirstTriggerTime := Event.FirstTriggerTime e |>
  <| HisEvent.NotifyRuleIds := Event.NotifyRuleIds e |>.

Definition ToCur (e : AlertHisEvent) : AlertCurEvent :=
  let cur := Event.zero
  <| Event.Id := HisEvent.Id e |>
  <| Event.Cate := HisEvent.Cate e |>
  <| Event.Cluster := HisEvent.Cluster e |>
  <| Event.DatasourceId := HisEvent.DatasourceId e |>
  <| Event.GroupId := HisEvent.GroupId e |>
  <| Event.GroupName := HisEvent.GroupName e |>
  <| Event.Hash := HisEvent.Hash e |>
  <| Event.RuleId := HisEvent.RuleId e |>
  <| Event.RuleName := HisEvent.RuleName e |>
  <| Event.RuleProd := HisEvent.RuleProd e |>
  <| Event.RuleAlgo := HisEvent.RuleAlgo e |>
  <| Event.RuleNote := HisEvent.RuleNote e |>
  <| Event.Severity := HisEvent.Severity e |>
  <| Event.PromForDuration := HisEvent.PromForDuration e |>
  <| Event.PromQl := HisEvent.PromQl e |>
  <| Event.PromEvalInterval := HisEvent.PromEvalInterval e |>
  <| Event.RuleConfig := HisEvent.RuleConfig e |>
  <| Event.RuleConfigJson := HisEvent.RuleConfigJson e |>
  <| Event.Callbacks := HisEvent.Callbacks e |>
  <| Event.RunbookUrl := HisEvent.RunbookUrl e |>
  <| Event.NotifyRecovered := HisEvent.NotifyRecovered e |>
  <| Event.NotifyChannels := HisEvent.NotifyChannels e |>
  <| Event.NotifyGroups := HisEvent.NotifyGroups e |>
  <| Event.Annotations := HisEvent.Annotations e |>
  <| Event.AnnotationsJSON := HisEvent.AnnotationsJSON e |>
  <| Event.TargetIdent := HisEvent.TargetIdent e |>
  <| Event.TargetNote := HisEvent.TargetNote e |>
  <| Event.TriggerTime := HisEvent.TriggerTime e |>
  <| Event.TriggerValue := HisEvent.TriggerValue e |>
  <| Event.Tags := HisEvent.Tags e |>
  <| Event.TagsJSON := split (HisEvent.Tags e) ",," |>
  <| Event.OriginalTags := HisEvent.OriginalTags e |>
  <| Event.LastEvalTime := HisEvent.LastEvalTime e |>
  <| Event.NotifyCurNumber := HisEvent.NotifyCurNumber e |>
  <| Event.FirstTriggerTime := HisEvent.FirstTriggerTime e |>
  <| Event.IsRecovered := HisEvent.IsRecovered e =? 1 |>
  <| Event.TriggerValues := HisEvent.TriggerValue e |>
  <| Event.CallbacksJSON := HisEvent.CallbacksJSON e |>
  <| Event.NotifyChannelsJSON := HisEvent.NotifyChannelsJSON e |>
  <| Event.NotifyGroupsJSON := HisEvent.NotifyGroupsJSON e |>
  <| Event.OriginalTagsJSON := HisEvent.OriginalTagsJSON e |>
  <| Event.NotifyRuleIds := HisEvent.NotifyRuleIds e |>
  <| Event.NotifyRules := HisEvent.NotifyRules e |>
  <| Event.NotifyVersion := HisEvent.NotifyVersion e |>
  <| Event.RecoverTime := HisEvent.RecoverTime e |>
  in SetTagsMap cur.

Definition HisDB2FE `{!Json (gmap string string), !Json iface} (e : AlertHisEvent) : AlertHisEvent :=
  let e := e <| HisEvent.NotifyChannelsJSON := fields (HisEvent.NotifyChannels e) |> in
  let e := e <| HisEvent.NotifyGroupsJSON := fields (HisEvent.NotifyGroups e) |> in
  let e := e <| HisEvent.CallbacksJSON := fields (HisEvent.Callbacks e) |> in
  let e := e <| HisEvent.TagsJSON := split (HisEvent.Tags e) ",," |> in
  let e := e <| HisEvent.OriginalTagsJSON := split (HisEvent.OriginalTags e) ",," |> in
  let e := if String.eqb (HisEvent.Annotations e) "" then e
           else match json_unmarshal (HisEvent.Annotations e) (HisEvent.AnnotationsJSON e) with
                | (_, Some _) => e <| HisEvent.AnnotationsJSON := {["error" := HisEvent.Annotations e]} |>
                | (m, None) => e <| HisEvent.AnnotationsJSON := m |>
                end in
  e <| HisEvent.RuleConfigJson :=
         fst (json_unmarshal (HisEvent.RuleConfig e) (HisEvent.RuleConfigJson e)) |>.

(** ** User groups of an event

    [UserGroupGetById] reads the database: an error, no such group, or the
    group.  The cache is shared between the events of one request. *)

Section groups.
Variable UserGroupGetById : Z → result (option UserGroup).

Fixpoint fill_groups (gids : list string) (objs : list UserGroup) (cache : gmap Z UserGroup)
  : list UserGroup * gmap Z UserGroup * option error :=
  match gids with
  | [] => (objs, cache, None)
  | s :: gids' =>
      match parse_int s with
      | None => fill_groups gids' objs cache
      | Some id =>
          match cache !! id with
          | Some ug => fill_groups gids' (objs ++ [ug]) cache
          | None =>
              match UserGroupGetById id with
              | Err err => (objs, cache, Some err)
              | Ok None => fill_groups gids' objs cache
              | Ok (Some ug) => fill_groups gids' (objs ++ [ug]) (<[id := ug]> cache)
              end
          end
      end
  end.

Definition FillNotifyGroups (e : AlertCurEvent) (cache : gmap Z UserGroup)
  : AlertCurEvent * gmap Z UserGroup * option error :=
  if decide (Event.NotifyGroupsJSON e = [])
  then (e <| Event.NotifyGroupsObj := [] |>, cache, None)
  else let '(objs, cache, err) :=
         fill_groups (Event.NotifyGroupsJSON e) (Event.NotifyGroupsObj e) cache in
       (e <| Event.NotifyGroupsObj := objs |>, cache, err).

Definition HisFillNotifyGroups (e : AlertHisEvent) (cache : gmap Z UserGroup)
  : AlertHisEvent * gmap Z UserGroup * option error :=
  if decide (HisEvent.NotifyGroupsJSON e = [])
  then (e <| HisEvent.NotifyGroupsObj := [] |>, cache, None)
  else let '(objs, cache, err) :=
         fill_groups (HisEvent.NotifyGroupsJSON e) (HisEvent.NotifyGroupsObj e) cache in
       (e <| HisEvent.NotifyGroupsObj := objs |>, cache, err).
End groups.

(** ** Lemmas *)

Lemma str_drop_length_app k v : str_drop (String.length k) (k +:+ v) = v.
Proof. apply str_drop_app. Qed.

Lemma index_of_None_contains s sep : index_of s sep = None ↔ contains s sep = false.
Proof.
  unfold index_of. induction s as [|c s IH]; cbn [cut contains].
  - by destruct (String.prefix sep "").
  - destruct (String.prefix sep (String c s)); [done|]. simpl.
    rewrite <- IH. destruct (cut sep s) as [[b a]|]; naive_solver.
Qed.

Lemma index_of_prefix k v : index_of (k +:+ v) k = Some 0%nat.
Proof.
  unfold index_of. pose proof (prefix_app k v) as Hp.
  destruct (k +:+ v) as [|c s]; cbn [cut]; by rewrite Hp.
Qed.

Lemma find_tag_spec k v pre post :
  (∀ t, t ∈ pre → contains t (k +:+ "=") = false) →
  find_tag k (pre ++ (k +:+ "=" +:+ v) :: post)%list = v.
Proof.
  induction pre as [|t pre IH]; intros Hpre; cbn [find_tag app].
  - rewrite <- sapp_assoc, index_of_prefix. apply str_drop_app.
  - assert (index_of t (k +:+ "=") = None) as ->
      by (apply index_of_None_contains, Hpre; set_solver).
    apply IH. intros t' Ht'. apply Hpre. set_solver.
Qed.

(** Rendering one annotation overwrites that annotation only. *)
Lemma render_annotation_dom `{TextTemplate, GoRange, !Json (gmap string string)} e kv :
  dom (Event.AnnotationsJSON (render_annotation e kv))
  = {[kv.1]} ∪ dom (Event.AnnotationsJSON e).
Proof.
  destruct kv as [k v]. unfold render_annotation. simpl.
  repeat case_match; rsimp; by rewrite dom_insert_L.
Qed.

Lemma render_annotations_dom `{TextTemplate, GoRange, !Json (gmap string string)} l e :
  dom (Event.AnnotationsJSON (foldl render_annotation e l))
  = list_to_set l.*1 ∪ dom (Event.AnnotationsJSON e).
Proof.
  revert e. induction l as [|kv l IH]; intros e; csimpl; [set_solver|].
  rewrite IH, render_annotation_dom. set_solver.
Qed.

(** The words of a whitespace-separated database column. *)
Definition words (l : list string) : Prop := forallb is_word l = true.

(** A non-empty list of tags none of which contains a comma. *)
Definition comma_free (l : list string) : Prop :=
  l ≠ [] ∧ forallb (str_forall (char_neb ","%char)) l = true.

Lemma split_tags l : comma_free l → split (join l ",,") ",," = l.
Proof. intros [??]. by apply (split_join ","%char ","). Qed.

(** The columns of [e] as [FE2DB] writes them, read back as the row [r]. *)
Record stored_as `{!Json (gmap string string), !Json iface} (e r : AlertCurEvent) : Prop := {
  st_channels : Event.NotifyChannels r = Event.NotifyChannels (FE2DB e);
  st_groups : Event.NotifyGroups r = Event.NotifyGroups (FE2DB e);
  st_callbacks : Event.Callbacks r = Event.Callbacks (FE2DB e);
  st_tags : Event.Tags r = Event.Tags (FE2DB e);
  st_original : Event.OriginalTags r = Event.OriginalTags (FE2DB e);
  st_annotations : Event.Annotations r = Event.Annotations (FE2DB e);
  st_config : Event.RuleConfig r = Event.RuleConfig (FE2DB e);
  st_no_annotations : Event.AnnotationsJSON r = ∅;
  st_no_config : Event.RuleConfigJson r = INil
}.

(** ** Properties *)

(** Converting an event to a history record, back to an event and to a history
    record again gives the same record: every persisted column, the recovered
    flag and the recovery time survive. *)
Theorem ToHis_ToCur_ToHis e : ToHis (ToCur (ToHis e)) = ToHis e.
Proof. destruct e; destruct IsRecovered; reflexivity. Qed.

(** C40. An event written by [FE2DB] and read back by [DB2FE] has its notification
    channels, groups, callbacks, tags, annotations and rule configuration
    again, its tag map rebuilt from the tags, and no error, provided that the
    channels, groups and callbacks are words without space, that there are tags and
    original tags and none contains a comma, and that the annotations and the
    configuration are values that JSON can carry.  Without tags the list comes back
    with one empty tag ([empty_tags_read]). *)
Theorem event_db_roundtrip
    `{!Json (gmap string string), !Json iface,
      RA : !JsonRoundTrip (gmap string string) ∅, RC : !JsonRoundTrip iface INil} e r :
  stored_as e r →
  words (Event.NotifyChannelsJSON e) → words (Event.NotifyGroupsJSON e) →
  words (Event.CallbacksJSON e) →
  comma_free (Event.TagsJSON e) → comma_free (Event.OriginalTagsJSON e) →
  json_wf (Event.AnnotationsJSON e) → json_wf (Event.RuleConfigJson e) →
  ∃ r', DB2FE r = (r', None) ∧
    Event.NotifyChannelsJSON r' = Event.NotifyChannelsJSON e ∧
    Event.NotifyGroupsJSON r' = Event.NotifyGroupsJSON e ∧
    Event.CallbacksJSON r' = Event.CallbacksJSON e ∧
    Event.TagsJSON r' = Event.TagsJSON e ∧
    Event.OriginalTagsJSON r' = Event.OriginalTagsJSON e ∧
    Event.AnnotationsJSON r' = Event.AnnotationsJSON e ∧
    Event.RuleConfigJson r' = Event.RuleConfigJson e ∧
    Event.TagsMap r' = tags_map (Event.TagsJSON e).
Proof.
  intros [] Hch Hgr Hcb Htags Horig Hann Hcfg. unfold FE2DB in *. rsimp.
  destruct (json_round _ Hann) as (sa & Ha & _ & Hua).
  destruct (json_round _ Hcfg) as (sc & Hc & _ & Huc).
  unfold marshal_text in *. rewrite Ha in *. rewrite Hc in *.
  eexists. unfold DB2FE. rsimp.
  rewrite st_annotations0, st_no_annotations0, Hua, st_config0, st_no_config0, Huc.
  split; [reflexivity|]. rsimp.
  rewrite st_channels0, st_groups0, st_callbacks0, st_tags0, st_original0.
  rewrite !fields_join, !split_tags by done. done.
Qed.

(** An event without tags is read back with one tag, the empty one. *)
Theorem empty_tags_read `{!Json (gmap string string), !Json iface} e r :
  stored_as e r → Event.TagsJSON e = [] → Event.TagsJSON (fst (DB2FE r)) = [""].
Proof.
  intros [_ _ _ Ht _ _ _ _ _] He. unfold FE2DB in Ht. rsimp. rewrite He in Ht.
  unfold DB2FE. rewrite Ht. destruct (json_unmarshal (Event.Annotations r) _) as [m [err|]]; [by rsimp|].
  destruct (json_unmarshal (Event.RuleConfig r) _) as [rc [err|]]; by rsimp.
Qed.

(** [GetTagValue] finds the value of a tag, provided no earlier tag contains
    the text "key=" anywhere. *)
Theorem GetTagValue_spec e k v pre post :
  Event.TagsJSON e = (pre ++ (k +:+ "=" +:+ v) :: post)%list →
  (∀ t, t ∈ pre → contains t (k +:+ "=") = false) →
  GetTagValue e k = v.
Proof. unfold GetTagValue. intros ->. apply find_tag_spec. Qed.

(** An earlier tag whose key merely ends in the wanted key is taken for it,
    and the result is then no tag value at all: the tag "busigroup=ops" hides
    the tag "group=db" and "oup=ops" is returned. *)
Theorem GetTagValue_suffix_key :
  GetTagValue (Event.zero <| Event.TagsJSON := ["busigroup=ops"; "group=db"] |>) "group" = "oup=ops".
Proof. reflexivity. Qed.

(** Rendering the annotations of an event changes their values only: whatever
    the templates do and in whatever order the map is visited, the keys after
    rendering are those of the decoded annotations. *)
Theorem parse_annotations_keys `{TextTemplate, GoRange, !Json (gmap string string)} e m :
  json_unmarshal (Event.Annotations e) (Event.AnnotationsJSON e) = (m, None) →
  (∀ m', ∃ s, json_marshal (A := gmap string string) m' = Ok s) →
  dom (Event.AnnotationsJSON (parse_annotations e)) = dom m.
Proof.
  intros Hu Hm. unfold parse_annotations. rewrite Hu.
  edestruct Hm as [s Hs]. rewrite Hs. rsimp. rewrite render_annotations_dom. rsimp.
  apply set_eq. intros k. rewrite elem_of_union, elem_of_list_to_set, elem_of_fst_go_range.
  rewrite elem_of_dom. tauto.
Qed.

(** A card title built from aggregation rules has one non-empty part per rule. *)
Theorem GenCardTitle_parts `{TextTemplate} e rule rs :
  contains rule "{{" = false → parseAggrRules rule = Ret rs →
  GenCardTitle e rule = Ret (join (map (card_part e) rs) "::") ∧
  length rs = length (split rule "::") ∧ Forall (λ r, card_part e r ≠ "") rs.
Proof.
  intros Hc Hp. unfold GenCardTitle. rewrite Hc, Hp. split_and!; [done| |].
  - unfold parseAggrRules in Hp. revert rs Hp. generalize (split rule "::") as ss.
    induction ss as [|s ss IH]; intros rs; simpl; [by intros [= <-]|].
    intros (r & _ & (rs' & Hrs' & [= <-])%go_bind_Ret)%go_bind_Ret. simpl. by rewrite (IH rs').
  - apply Forall_forall. intros r _. unfold card_part.
    destruct (String.eqb _ "") eqn:E; [done|]. by apply String.eqb_neq.
Qed.
