(* ===== verification/Filter.v ===== *)
(** * Label filters: [models/alert_mute.go] and [alert/common/key.go]

    Parsing a list of [TagFilter]s (compiling regular expressions, building
    the value sets of [in] filters) and matching them against the labels of an
    event.  [regexp] is a parameter; matching a filter whose expression was
    never compiled is a nil dereference, hence a [Panic]. *)

From Stdlib Require Import Ascii.
From S2P Require Import Prelude GoStrings Json Models RuleModels.
Open Scope string_scope.
Open Scope Z_scope.

Class Regexp := {
  re_compile : string → option error;         (* regexp.Compile *)
  re_match : regexp → string → bool           (* Regexp.MatchString *)
}.

(** ** Keys *)

Definition RuleKey (datasourceId id : Z) : string :=
  "alert-" +:+ itoa datasourceId +:+ "-" +:+ itoa id.

(** ** Verification and parsing *)

Definition filter_funcs : list string := ["=="; "!="; "in"; "not in"; "=~"; "!~"].

Definition TagFilter_Verify (t : TagFilter) : TagFilter * option error :=
  if String.eqb (TagFlt.Key t) "" then (t, Some "tag key cannot be empty")
  else
    let t := if String.eqb (TagFlt.Func t) "" then t <| TagFlt.Func := TagFlt.Op t |> else t in
    if negb (existsb (String.eqb (TagFlt.Func t)) filter_funcs)
    then (t, Some "invalid operation") else (t, None).

(** The name [%T] prints. *)
Definition type_name (v : iface) : string :=
  match v with
  | INil => "<nil>" | IString _ => "string" | IInt _ => "int" | IFloat _ => "float64"
  | IBool _ => "bool" | IInts _ => "[]int" | IStrings _ => "[]string"
  | IList _ => "[]interface {}" | IMap _ => "map[string]interface {}"
  end.

Section parse.
Context `{Regexp, GoFmt}.

Definition is_regex_func (f : string) : bool := String.eqb f "=~" || String.eqb f "!~".
Definition is_set_func (f : string) : bool := String.eqb f "in" || String.eqb f "not in".

Definition compile_filter (t : TagFilter) : result TagFilter :=
  let compile pattern :=
    match re_compile pattern with
    | Some err => Err err
    | None => Ok (t <| TagFlt.Regexp := Some pattern |>)
    end in
  match TagFlt.Value t with
  | IString v => compile v
  | IInt v => compile (itoa v)
  | v => Err ("unsupported value type for regex: " +:+ type_name v)
  end.

(** An element of a [[]interface{}] value of an [in] filter. *)
Definition vset_item (item : iface) : list string :=
  match item with
  | IString s => [s]
  | IInt z => [itoa z]
  | IFloat f => [itoa (float64_to_int f)]
  | _ => []
  end.

(** The values of an [in] filter in [ParseTagFilter]. *)
Definition vset_values (v : iface) : list string :=
  match v with
  | IString s => fields s
  | IInts l => map itoa l
  | IStrings l => l
  | IList l => concat (map vset_item l)
  | v => fields (fmt_v v)
  end.

(** The values of an [in] filter in [GetTagFilters]: no [[]string] case. *)
Definition vset_values_decoded (v : iface) : list string :=
  match v with
  | IString s => fields s
  | IInts l => map itoa l
  | IList l => concat (map vset_item l)
  | v => fields (fmt_v v)
  end.

Definition parse_filter_with (values : iface → list string) (t : TagFilter) : result TagFilter :=
  if is_regex_func (TagFlt.Func t) then compile_filter t
  else if is_set_func (TagFlt.Func t)
  then Ok (t <| TagFlt.Vset := Some (list_to_set (values (TagFlt.Value t))) |>)
  else Ok t.

Fixpoint parse_filters_with (values : iface → list string) (bFilters : list TagFilter)
  : result (list TagFilter) :=
  match bFilters with
  | [] => Ok []
  | t :: ts =>
      t' ← parse_filter_with values t;
      ts' ← parse_filters_with values ts;
      Ok (t' :: ts')
  end.

Definition ParseTagFilter (bFilters : list TagFilter) : result (list TagFilter) :=
  parse_filters_with vset_values bFilters.

Definition GetTagFilters `{!Json (list TagFilter)} (jsonArr : string) : result (list TagFilter) :=
  if String.eqb jsonArr "" then Ok []
  else match json_unmarshal jsonArr ([] : list TagFilter) with
       | (_, Some err) => Err err
       | (bFilters, None) => parse_filters_with vset_values_decoded bFilters
       end.
End parse.

(** ** Matching *)

Section match_tags.
Context `{Regexp, GoFmt, !Json (gmap string iface)}.

Definition match_regex (re : option regexp) (value : string) : go bool :=
  match re with Some r => Ret (re_match r value) | None => Panic end.

(** A lookup in a nil map finds nothing. *)
Definition in_vset (vset : option (gset string)) (value : string) : bool :=
  match vset with Some s => bool_decide (value ∈ s) | None => false end.

Definition matchTag (value : string) (filter : TagFilter) : go bool :=
  let func := TagFlt.Func filter in
  let same := String.eqb (trim_space (fmt_v (TagFlt.Value filter))) (trim_space value) in
  if String.eqb func "==" then Ret same
  else if String.eqb func "!=" then Ret (negb same)
  else if String.eqb func "in" then Ret (in_vset (TagFlt.Vset filter) value)
  else if String.eqb func "not in" then Ret (negb (in_vset (TagFlt.Vset filter) value))
  else if String.eqb func "=~" then match_regex (TagFlt.Regexp filter) value
  else if String.eqb func "!~" then negb <$> match_regex (TagFlt.Regexp filter) value
  else Ret false.

(** [id.(float64)] for every element. *)
Fixpoint as_floats (l : list iface) : go (list float64) :=
  match l with
  | [] => Ret []
  | IFloat f :: l' => fs ← as_floats l'; Ret (f :: fs)
  | _ :: _ => Panic
  end.

(** The loop over [groupIds], which stops at the first hit. *)
Fixpoint any_group_in (ids : list float64) (groupIds : list iface) : go bool :=
  match groupIds with
  | [] => Ret false
  | IFloat g :: gs => if existsb (float64_eqb g) ids then Ret true else any_group_in ids gs
  | _ :: _ => Panic
  end.

(** The loop over [groupNames], which stops at the first match. *)
Fixpoint any_name_matches (re : option regexp) (names : list iface) : go bool :=
  match names with
  | [] => Ret false
  | n :: ns => b ← match_regex re (fmt_v n); if b : bool then Ret true else any_name_matches re ns
  end.

Definition targetGroupMatch (value : string) (filter : TagFilter) : go bool :=
  match json_unmarshal value (∅ : gmap string iface) with
  | (_, Some _) => Ret false
  | (valueMap, None) =>
      let func := TagFlt.Func filter in
      if is_set_func func then
        match TagFlt.Value filter with
        | IList filterValueIds =>
            ids ← as_floats filterValueIds;
            match valueMap !! "group_ids" with
            | Some (IList groupIds) =>
                found ← any_group_in ids groupIds;
                Ret (if String.eqb func "in" then found else negb found)
            | _ => Ret false
            end
        | _ => Ret false
        end
      else if is_regex_func func then
        match valueMap !! "group_names" with
        | Some (IList groupNames) =>
            matched ← any_name_matches (TagFlt.Regexp filter) groupNames;
            Ret (if String.eqb func "=~" then matched else negb matched)
        | _ => Ret false
        end
      else Ret false
  end.

(** One iteration of the loop of [MatchTags]: [false] ends it. *)
Definition match_one (eventTagsMap : gmap string string) (filter : TagFilter) : go bool :=
  if String.eqb (TagFlt.Key filter) "target_group" then
    match eventTagsMap !! "target" with
    | None => Ret false
    | Some v => targetGroupMatch v filter
    end
  else
    match eventTagsMap !! TagFlt.Key filter with
    | None => Ret false
    | Some value => matchTag value filter
    end.

Fixpoint MatchTags (eventTagsMap : gmap string string) (itags : list TagFilter) : go bool :=
  match itags with
  | [] => Ret true
  | filter :: itags' =>
      b ← match_one eventTagsMap filter;
      if b : bool then MatchTags eventTagsMap itags' else Ret false
  end.

Fixpoint MatchGroupsName (groupName : string) (groupFilter : list TagFilter) : go bool :=
  match groupFilter with
  | [] => Ret true
  | filter :: rest =>
      b ← matchTag groupName filter;
      if b : bool then MatchGroupsName groupName rest else Ret false
  end.
End match_tags.

(** ** What a filter means *)

Section spec.
Context `{Regexp, GoFmt, !Json (gmap string iface)}.

Definition filter_pattern (v : iface) : string :=
  match v with IString s => s | IInt z => itoa z | _ => "" end.

(** The condition an unparsed filter puts on a label value. *)
Definition filter_holds (f : TagFilter) (value : string) : bool :=
  let func := TagFlt.Func f in
  let same := String.eqb (trim_space (fmt_v (TagFlt.Value f))) (trim_space value) in
  let listed := bool_decide (value ∈ vset_values (TagFlt.Value f)) in
  let matches := re_match (filter_pattern (TagFlt.Value f)) value in
  if String.eqb func "==" then same
  else if String.eqb func "!=" then negb same
  else if String.eqb func "in" then listed
  else if String.eqb func "not in" then negb listed
  else if String.eqb func "=~" then matches
  else if String.eqb func "!~" then negb matches
  else false.

(** The condition it puts on the labels of an event: the label is there and
    its value satisfies the filter. *)
Definition label_holds (tags : gmap string string) (f : TagFilter) : bool :=
  match tags !! TagFlt.Key f with
  | Some value => filter_holds f value
  | None => false
  end.

Definition plain_key (f : TagFilter) : Prop := TagFlt.Key f ≠ "target_group".

(** A filter value as JSON decoding builds it: no [[]int] and no [[]string]. *)
Definition decoded_value (v : iface) : Prop :=
  match v with IInts _ | IStrings _ => False | _ => True end.

(** *** Lemmas *)

Lemma vset_listed (values : iface → list string) v value :
  in_vset (Some (list_to_set (values v) : gset string)) value = bool_decide (value ∈ values v).
Proof. unfold in_vset. apply bool_decide_ext. apply elem_of_list_to_set. Qed.

Lemma compile_filter_Ok t t' :
  compile_filter t = Ok t' →
  t' = t <| TagFlt.Regexp := Some (filter_pattern (TagFlt.Value t)) |>.
Proof.
  unfold compile_filter. destruct (TagFlt.Value t); try done; simpl;
    destruct (re_compile _); naive_solver.
Qed.

Lemma parsed_key values t t' :
  parse_filter_with values t = Ok t' → TagFlt.Key t' = TagFlt.Key t.
Proof.
  unfold parse_filter_with. repeat case_match; [intros ->%compile_filter_Ok|..]; naive_solver.
Qed.

(** A parsed filter matches a value exactly when the original one holds of it. *)
Lemma parsed_match t t' value :
  parse_filter_with vset_values t = Ok t' → matchTag value t' = Ret (filter_holds t value).
Proof.
  unfold parse_filter_with, is_regex_func, is_set_func, filter_holds, matchTag.
  destruct (String.eqb_spec (TagFlt.Func t) "=~") as [E|H1]; simpl;
    [intros ->%compile_filter_Ok; rsimp; by rewrite E|].
  destruct (String.eqb_spec (TagFlt.Func t) "!~") as [E|H2]; simpl;
    [intros ->%compile_filter_Ok; rsimp; by rewrite E|].
  destruct (String.eqb_spec (TagFlt.Func t) "in") as [E|H3]; simpl;
    [intros [= <-]; rsimp; rewrite E; cbn -[in_vset vset_values]; by rewrite vset_listed|].
  destruct (String.eqb_spec (TagFlt.Func t) "not in") as [E|H4]; simpl;
    [intros [= <-]; rsimp; rewrite E; cbn -[in_vset vset_values]; by rewrite vset_listed|].
  apply String.eqb_neq in H1, H2, H3, H4.
  intros [= <-]. rewrite H1, H2, H3, H4. by repeat case_match.
Qed.

Lemma match_tags_all tags fs fs' :
  parse_filters_with vset_values fs = Ok fs' → Forall plain_key fs →
  MatchTags tags fs' = Ret (forallb (label_holds tags) fs).
Proof.
  intros Hp Hk. revert fs' Hp. induction Hk as [|t fs Ht _ IH]; intros fs'; simpl.
  { by intros [= <-]. }
  intros (t' & Ht' & (ts' & Hts' & [= <-])%result_bind_Ok)%result_bind_Ok.
  simpl. unfold match_one, label_holds. pose proof (parsed_key _ _ _ Ht') as Hkey. rewrite Hkey.
  unfold plain_key in Ht. apply String.eqb_neq in Ht. rewrite Ht.
  destruct (tags !! TagFlt.Key t) as [value|]; [|done].
  rewrite (parsed_match _ _ value Ht'). simpl.
  destruct (filter_holds t value); [|done]. by apply IH.
Qed.

Lemma vset_values_agree v : decoded_value v → vset_values_decoded v = vset_values v.
Proof. by destruct v. Qed.

Lemma parse_decoded_agree fs :
  Forall (λ f, decoded_value (TagFlt.Value f)) fs →
  parse_filters_with vset_values_decoded fs = parse_filters_with vset_values fs.
Proof.
  induction 1 as [|f fs Hf _ IH]; [done|]. simpl. rewrite IH.
  unfold parse_filter_with. by rewrite vset_values_agree.
Qed.

(** *** Properties *)

(** Parsing a list of filters and matching the parsed filters against the
    labels of an event never panics and decides the conjunction of the
    conditions the filters state: every filtered label is present and its
    value satisfies the operator. *)
Theorem MatchTags_ParseTagFilter tags fs fs' :
  ParseTagFilter fs = Ok fs' → Forall plain_key fs →
  MatchTags tags fs' = Ret (forallb (label_holds tags) fs).
Proof. apply match_tags_all. Qed.

(** The two copies of the filter parser agree: on a JSON array, the filters
    [GetTagFilters] builds are those [ParseTagFilter] builds from the decoded
    array, with the same errors. *)
Theorem GetTagFilters_ParseTagFilter `{!Json (list TagFilter)} arr fs :
  arr ≠ "" → json_unmarshal arr ([] : list TagFilter) = (fs, None) →
  Forall (λ f, decoded_value (TagFlt.Value f)) fs →
  GetTagFilters arr = ParseTagFilter fs.
Proof.
  intros Ha Hu Hd. unfold GetTagFilters. apply String.eqb_neq in Ha. rewrite Ha, Hu.
  by apply parse_decoded_agree.
Qed.

(** A filter that [Verify] accepts has a key and one of the six operators. *)
Theorem TagFilter_Verify_sound t t' :
  TagFilter_Verify t = (t', None) →
  TagFlt.Key t' = TagFlt.Key t ∧ TagFlt.Key t' ≠ "" ∧ TagFlt.Func t' ∈ filter_funcs.
Proof.
  unfold TagFilter_Verify. case_match eqn:Ek; [done|]. apply String.eqb_neq in Ek.
  assert (∀ u, TagFlt.Key u ≠ "" → TagFlt.Key u = TagFlt.Key t →
    (if negb (existsb (String.eqb (TagFlt.Func u)) filter_funcs)
     then (u, Some "invalid operation") else (u, None)) = (t', None) →
    TagFlt.Key t' = TagFlt.Key t ∧ TagFlt.Key t' ≠ "" ∧ TagFlt.Func t' ∈ filter_funcs) as Hu.
  { intros u Hne Hkey. destruct (existsb _ filter_funcs) eqn:E; simpl; [|done].
    intros [= <-]. apply existsb_elem_of in E as (g & Hg & ->%String.eqb_eq). done. }
  destruct (String.eqb (TagFlt.Func t) ""); apply Hu; rsimp; done.
Qed.
End spec.
