(* ===== verification/Mute.v ===== *)
(** * Muting: [models/alert_mute.go] and [alert/mute/mute.go]

    When an event is suppressed: the effective time spans of a rule, the
    host-based strategies, and the mute rules (time range or periodic, by data
    source, severity and labels). *)

From Stdlib Require Import Ascii.
From S2P Require Import Prelude GoStrings GoTime Json Models RuleModels Filter.
Open Scope string_scope.
Open Scope Z_scope.

(** ** Mute rules *)

Definition IsAllDatasource (datasourceIds : list Z) : bool := existsb (λ id, id =? 0) datasourceIds.

Section mute_model.
Context `{Regexp, GoFmt, Location}.
Context `{!Json (list TagFilter), !Json (list PeriodicMute), !Json (list Z)}.

Definition AlertMute_Parse (m : AlertMute) : AlertMute * option error :=
  match GetTagFilters (Mute.Tags m) with
  | Ok tags => (m <| Mute.ITags := tags |>, None)
  | Err err => (m <| Mute.ITags := [] |>, Some err)
  end.

Definition AlertMute_Verify (m : AlertMute) : AlertMute * option error :=
  if Mute.GroupId m <? 0 then (m, Some "group_id invalid")
  else
    let m := if IsAllDatasource (Mute.DatasourceIdsJson m)
             then m <| Mute.DatasourceIdsJson := [0] |> else m in
    if Mute.Etime m <=? Mute.Btime m
    then (m, Some ("oops... etime(" +:+ itoa (Mute.Etime m) +:+ ") <= btime("
                   +:+ itoa (Mute.Btime m) +:+ ")"))
    else AlertMute_Parse m.

Definition AlertMute_FE2DB (m : AlertMute) : AlertMute * option error :=
  match json_marshal (Mute.DatasourceIdsJson m) with
  | Err err => (m, Some err)
  | Ok ids =>
      let m1 := m <| Mute.DatasourceIds := ids |> in
      match json_marshal (Mute.PeriodicMutesJson m) with
      | Err err => (m1, Some err)
      | Ok pm =>
          let m2 := m1 <| Mute.PeriodicMutes := pm |> in
          if (0 <? length (Mute.SeveritiesJson m))%nat then
            match json_marshal (Mute.SeveritiesJson m) with
            | Err err => (m2, Some err)
            | Ok sv => (m2 <| Mute.Severities := sv |>, None)
            end
          else (m2, None)
      end
  end.

Definition IsWithinTimeRange (m : AlertMute) (checkTime : Z) : bool :=
  if (checkTime <? Mute.Btime m) || (Mute.Etime m <? checkTime) then false else true.

(** One iteration of the loop of [IsWithinPeriodicMute]. *)
Definition periodic_hit (triggerWeek triggerTime : string) (p : PeriodicMute) : bool :=
  let stime := PeriodicMt.EnableStime p in
  let etime := PeriodicMt.EnableEtime p in
  if contains (PeriodicMt.EnableDaysOfWeek p) triggerWeek then
    if String.eqb stime etime || (String.eqb stime "00:00" && String.eqb etime "23:59") then true
    else if str_lt stime etime then str_le stime triggerTime && str_lt triggerTime etime
    else str_le stime triggerTime || str_lt triggerTime etime
  else false.

Definition IsWithinPeriodicMute (m : AlertMute) (checkTime : Z) : bool :=
  let triggerTime := format_1504 checkTime in
  let triggerWeek := itoa (weekday checkTime) in
  existsb (periodic_hit triggerWeek triggerTime) (Mute.PeriodicMutesJson m).

(** [now] is the clock reading of [time.Now().Unix()]. *)
Definition AlertMute_DB2FE (now : Z) (m : AlertMute) : AlertMute * option error :=
  let '(ids, err) := json_unmarshal (Mute.DatasourceIds m) (Mute.DatasourceIdsJson m) in
  let m1 := m <| Mute.DatasourceIdsJson := ids |> in
  match err with
  | Some err => (m1, Some err)
  | None =>
      let '(pm, err) := json_unmarshal (Mute.PeriodicMutes m) (Mute.PeriodicMutesJson m) in
      let m2 := m1 <| Mute.PeriodicMutesJson := pm |> in
      match err with
      | Some err => (m2, Some err)
      | None =>
          let '(sv, err) := if String.eqb (Mute.Severities m) "" then (Mute.SeveritiesJson m, None)
                            else json_unmarshal (Mute.Severities m) (Mute.SeveritiesJson m) in
          let m3 := m2 <| Mute.SeveritiesJson := sv |> in
          match err with
          | Some err => (m3, Some err)
          | None =>
              let isWithinTime :=
                if Mute.MuteTimeType m3 =? TimeRange then IsWithinTimeRange m3 now
                else if Mute.MuteTimeType m3 =? Periodic then IsWithinPeriodicMute m3 now
                else false in
              (m3 <| Mute.Activated := if isWithinTime then 1 else 0 |>, None)
          end
      end
  end.

(** [Add] up to the insertion of the row, and [Update] up to the update of
    the row: the row to be written, or the error. *)
Definition AlertMute_Add (now : Z) (m : AlertMute) : result AlertMute :=
  match AlertMute_Verify m with
  | (_, Some err) => Err err
  | (m, None) =>
      match AlertMute_FE2DB m with
      | (_, Some err) => Err err
      | (m, None) => Ok (m <| Mute.CreateAt := now |> <| Mute.UpdateAt := now |>)
      end
  end.

Definition AlertMute_Update (now : Z) (m arm : AlertMute) : result AlertMute :=
  let arm := arm <| Mute.Id := Mute.Id m |> <| Mute.GroupId := Mute.GroupId m |>
                 <| Mute.CreateAt := Mute.CreateAt m |> <| Mute.CreateBy := Mute.CreateBy m |>
                 <| Mute.UpdateAt := now |> in
  match AlertMute_Verify arm with
  | (_, Some err) => Err err
  | (arm, None) =>
      match AlertMute_FE2DB arm with
      | (_, Some err) => Err err
      | (arm, None) => Ok arm
      end
  end.
End mute_model.

(** ** Strategies *)

(** The guards of one effective time span: [true] when the code does not
    [continue] past it. *)
Definition span_active (stime etime triggerTime : string) : bool :=
  if str_lt stime etime then
    if String.eqb etime "23:59" then negb (str_lt triggerTime stime)
    else negb (str_lt triggerTime stime || str_le etime triggerTime)
  else if str_lt etime stime then negb (str_lt triggerTime stime && str_le etime triggerTime)
  else true.

(** The loop from index [i]; [days] are the remaining day groups. *)
Fixpoint time_spans (triggerWeek triggerTime : string) (stimes etimes : list string)
    (i : nat) (days : list string) : go bool :=
  match days with
  | [] => Ret true
  | d :: days' =>
      let d := replace1 d "7" "0" in
      if negb (contains d triggerWeek)
      then time_spans triggerWeek triggerTime stimes etimes (S i) days'
      else
        s ← go_index stimes i;
        e ← go_index etimes i;
        if span_active s e triggerTime then Ret false
        else time_spans triggerWeek triggerTime stimes etimes (S i) days'
  end.

Section strategies.
Context `{Regexp, GoFmt, Location, !Json (gmap string iface)}.

Definition TimeSpanMuteStrategy (rule : AlertRule) (event : AlertCurEvent) : go bool :=
  let triggerTime := format_1504 (Event.TriggerTime event) in
  let triggerWeek := itoa (weekday (Event.TriggerTime event)) in
  if String.eqb (Rule.EnableDaysOfWeek rule) "" then Ret false
  else time_spans triggerWeek triggerTime (fields (Rule.EnableStime rule))
         (fields (Rule.EnableEtime rule)) 0 (split (Rule.EnableDaysOfWeek rule) ";").

Definition IdentNotExistsMuteStrategy (rule : AlertRule) (event : AlertCurEvent)
    (targetCache : gmap string Target) : bool :=
  match Event.TagsMap event !! "ident" with
  | None => false
  | Some ident =>
      match targetCache !! ident with
      | None => contains (Rule.PromQl rule) "target_up"
      | Some _ => false
      end
  end.

Definition MatchGroupId (t : Target) (gid : list Z) : bool :=
  existsb (λ tgId, existsb (λ id, tgId =? id) gid) (Tgt.GroupIds t).

Definition BgNotMatchMuteStrategy (rule : AlertRule) (event : AlertCurEvent)
    (targetCache : gmap string Target) : bool :=
  if Rule.EnableInBG rule =? 0 then false
  else match Event.TagsMap event !! "ident" with
       | None => false
       | Some ident =>
           match targetCache !! ident with
           | Some target => negb (MatchGroupId target [Rule.GroupId rule])
           | None => false
           end
       end.

(** The data source test of [MatchMute]: [true] lets the match go on. *)
Definition mute_datasource_ok (event : AlertCurEvent) (mute : AlertMute) : bool :=
  match Mute.DatasourceIdsJson mute with
  | [] => true
  | d0 :: _ =>
      if negb (d0 =? 0) && negb (Event.DatasourceId event =? 0)
      then existsb (λ d, d =? Event.DatasourceId event) (Mute.DatasourceIdsJson mute)
      else true
  end.

Definition mute_severity_ok (event : AlertCurEvent) (mute : AlertMute) : bool :=
  match Mute.SeveritiesJson mute with
  | [] => true
  | ss => existsb (λ s, (Event.Severity event =? s) || (s =? 0)) ss
  end.

(** The time test: the error it returns, if any.  [clock] is the optional
    argument of [MatchMute]. *)
Definition mute_time_error (event : AlertCurEvent) (mute : AlertMute) (clock : option Z)
  : option error :=
  if Mute.MuteTimeType mute =? TimeRange then
    if IsWithinTimeRange mute (Event.TriggerTime event) then None
    else Some "event trigger time not within mute time range"
  else if Mute.MuteTimeType mute =? Periodic then
    let ts := default (Event.TriggerTime event) clock in
    if IsWithinPeriodicMute mute ts then None
    else Some "event trigger time not within periodic mute range"
  else Some "mute time type invalid".

Definition MatchMute (event : AlertCurEvent) (mute : AlertMute) (clock : option Z)
  : go (bool * option error) :=
  if Mute.Disabled mute =? 1 then Ret (false, Some "mute is disabled")
  else if negb (mute_datasource_ok event mute) then Ret (false, Some "datasource id not match")
  else match mute_time_error event mute clock with
  | Some err => Ret (false, Some err)
  | None =>
      if negb (mute_severity_ok event mute)
      then Ret (false, Some "event severity not match mute severity")
      else match Mute.ITags mute with
      | [] => Ret (true, None)
      | itags =>
          matched ← MatchTags (Event.TagsMap event) itags;
          if matched : bool then Ret (true, None)
          else Ret (false, Some "event tags not match mute tags")
      end
  end.

Fixpoint first_mute (event : AlertCurEvent) (mutes : list AlertMute) : go (bool * Z) :=
  match mutes with
  | [] => Ret (false, 0)
  | m :: mutes' =>
      '(matched, _) ← MatchMute event m None;
      if matched : bool then Ret (true, Mute.Id m) else first_mute event mutes'
  end.

Definition EventMuteStrategy (event : AlertCurEvent) (alertMuteCache : gmap Z (list AlertMute))
  : go (bool * Z) :=
  match alertMuteCache !! Event.GroupId event with
  | None | Some [] => Ret (false, 0)
  | Some mutes => first_mute event mutes
  end.

Definition IsMuted (rule : AlertRule) (event : AlertCurEvent)
    (targetCache : gmap string Target) (alertMuteCache : gmap Z (list AlertMute))
  : go (bool * string * Z) :=
  if Rule.Disabled rule =? 1 then Ret (true, "rule disabled", 0)
  else
    b ← TimeSpanMuteStrategy rule event;
    if b : bool then Ret (true, "rule is not effective for period of time", 0)
    else if IdentNotExistsMuteStrategy rule event targetCache
    then Ret (true, "ident not exists mute", 0)
    else if BgNotMatchMuteStrategy rule event targetCache
    then Ret (true, "bg not match mute", 0)
    else
      '(hit, muteId) ← EventMuteStrategy event alertMuteCache;
      if hit : bool then Ret (true, "match mute rule", muteId) else Ret (false, "", 0).
End strategies.

(** ** Specification of the time tests, on minutes instead of strings *)

(** [m] minutes after midnight is inside the span from [s] to [e]: half open,
    except that a span up to 23:59 includes its end; a span whose end is before
    its start passes midnight; equal bounds are the whole day. *)
Definition in_window (s e m : Z) : bool :=
  if s <? e then if e =? 1439 then s <=? m else (s <=? m) && (m <? e)
  else if e <? s then (s <=? m) || (m <? e)
  else true.

(** The same for a periodic mute: the end is excluded, except for the whole
    day 00:00-23:59. *)
Definition in_periodic (s e m : Z) : bool :=
  if (s =? e) || ((s =? 0) && (e =? 1439)) then true
  else if s <? e then (s <=? m) && (m <? e)
  else (s <=? m) || (m <? e).

(** An effective span of a rule: bounds in minutes, and the days it is on. *)
Record span := mkSpan { sp_from : Z; sp_to : Z; sp_days : string }.

Definition span_wf (w : span) : Prop :=
  0 ≤ sp_from w ≤ 1440 ∧ 0 ≤ sp_to w ≤ 1440 ∧
  str_forall (char_neb ";"%char) (sp_days w) = true.

Definition span_covers (wd m : Z) (w : span) : bool :=
  contains (replace1 (sp_days w) "7" "0") (itoa wd) && in_window (sp_from w) (sp_to w) m.

(** The rule's three columns hold the spans [ws]. *)
Definition has_spans (rule : AlertRule) (ws : list span) : Prop :=
  Rule.EnableStime rule = join (map (λ w, hhmm (sp_from w)) ws) " " ∧
  Rule.EnableEtime rule = join (map (λ w, hhmm (sp_to w)) ws) " " ∧
  Rule.EnableDaysOfWeek rule = join (map sp_days ws) ";" ∧
  Rule.EnableDaysOfWeek rule ≠ "".

(** ** Lemmas *)

Lemma span_active_spec s e m :
  0 ≤ s ≤ 1440 → 0 ≤ e ≤ 1440 → 0 ≤ m < 1440 →
  span_active (hhmm s) (hhmm e) (hhmm m) = in_window s e m.
Proof.
  intros Hs He Hm. unfold span_active, in_window.
  rewrite !hhmm_lt, hhmm_le by lia.
  change "23:59" with (hhmm 1439). rewrite hhmm_eqb by lia.
  destruct (Z.ltb_spec s e), (Z.ltb_spec e s), (Z.eqb_spec e 1439), (Z.ltb_spec m s),
    (Z.leb_spec e m), (Z.leb_spec s m), (Z.ltb_spec m e); simpl; lia.
Qed.

Lemma digit_not_space d : 0 ≤ d < 10 → negb (is_space (digit d)) = true.
Proof.
  intros Hd. unfold is_space, digit.
  assert (nat_of_ascii (ascii_of_N (Z.to_N (48 + d))) = Z.to_nat (48 + d)) as ->.
  { unfold nat_of_ascii. rewrite N_ascii_embedding by lia. by rewrite Z_N_nat. }
  assert (33 ≤ Z.to_nat (48 + d))%nat as Hn by lia.
  revert Hn. generalize (Z.to_nat (48 + d)) as n. intros n Hn.
  do 33 (destruct n as [|n]; [lia|]). done.
Qed.

Lemma hhmm_word m : 0 ≤ m ≤ 1440 → is_word (hhmm m) = true.
Proof.
  intros Hm. unfold is_word, hhmm, pad2.
  assert (0 ≤ m / 60 < 100) by (split; [apply Z.div_pos | apply Z.div_lt_upper_bound]; lia).
  pose proof (Z.mod_pos_bound m 60 eq_refl) as Hmm.
  cbn [String.eqb String.append negb andb].
  rewrite !str_forall_app. cbn [str_forall].
  rewrite !digit_not_space; [done|..];
    first [apply Z.mod_pos_bound; lia | split; [apply Z.div_pos | apply Z.div_lt_upper_bound]; lia].
Qed.

Lemma hhmm_words (f : span → Z) ws :
  Forall (λ w, 0 ≤ f w ≤ 1440) ws → forallb is_word (map (λ w, hhmm (f w)) ws) = true.
Proof.
  induction 1 as [|w ws Hw _ IH]; [done|]. cbn [map forallb]. by rewrite hhmm_word, IH.
Qed.

Lemma time_spans_spec wd m pre ws :
  0 ≤ m < 1440 → Forall span_wf ws →
  time_spans (itoa wd) (hhmm m)
    (map (λ w, hhmm (sp_from w)) (pre ++ ws)) (map (λ w, hhmm (sp_to w)) (pre ++ ws))
    (length pre) (map sp_days ws)
  = Ret (negb (existsb (span_covers wd m) ws)).
Proof.
  intros Hm Hws. revert pre. induction Hws as [|w ws (Hf & Ht & _) _ IH]; intros pre; [done|].
  cbn [map time_spans existsb].
  assert (∀ f : span → string, map f (pre ++ w :: ws) !! length pre = Some (f w)) as Hl.
  { intros f. rewrite list_lookup_fmap, lookup_app_r, Nat.sub_diag by done. done. }
  pose proof (IH (pre ++ [w])%list) as IH'.
  rewrite length_app, <- !app_assoc in IH'. cbn [length app] in IH'.
  rewrite Nat.add_1_r in IH'.
  unfold go_index. rewrite !Hl. unfold span_covers at 1.
  destruct (contains _ (itoa wd)); cbn [negb andb]; [|exact IH'].
  unfold mbind, go_bind. rewrite span_active_spec by done.
  by destruct (in_window _ _ _).
Qed.

Lemma periodic_hit_spec wd m s e days :
  0 ≤ s ≤ 1440 → 0 ≤ e ≤ 1440 → 0 ≤ m < 1440 →
  periodic_hit (itoa wd) (hhmm m) (PeriodicMt.mkPeriodicMute (hhmm s) (hhmm e) days)
  = contains days (itoa wd) && in_periodic s e m.
Proof.
  intros Hs He Hm. unfold periodic_hit, in_periodic.
  cbn [PeriodicMt.EnableStime PeriodicMt.EnableEtime PeriodicMt.EnableDaysOfWeek].
  destruct (contains days (itoa wd)); [|done]. cbn [andb].
  change "00:00" with (hhmm 0). change "23:59" with (hhmm 1439).
  rewrite !hhmm_eqb, !hhmm_lt, hhmm_le by lia. done.
Qed.

Section spec.
Context `{Regexp, GoFmt, Location, !Json (gmap string iface)}.

(** ** Properties *)

(** The effective-time test of a rule is what its configuration says: with as
    many start times, end times and day groups as spans, the event is muted
    exactly when no span that is on at the event's weekday covers the event's
    local wall-clock minute; and the test does not panic. *)
Theorem TimeSpanMuteStrategy_spec rule event ws :
  has_spans rule ws → Forall span_wf ws →
  TimeSpanMuteStrategy rule event
  = Ret (negb (existsb (span_covers (weekday (Event.TriggerTime event))
                          (clock_minute (Event.TriggerTime event))) ws)).
Proof.
  intros (Hs & He & Hd & Hne) Hws. unfold TimeSpanMuteStrategy.
  apply String.eqb_neq in Hne as Hne'. rewrite Hne', Hs, He.
  rewrite !fields_join by (apply hhmm_words; eapply Forall_impl; [done|]; by intros w (?&?&?)).
  assert (ws ≠ []) as Hws0 by (intros ->; by rewrite Hd in Hne).
  rewrite Hd, (split_join ";" "").
  - apply (time_spans_spec _ _ []); [apply clock_minute_range | done].
  - by destruct ws.
  - clear -Hws. induction Hws as [|w ws (_ & _ & Hw) _ IH]; [done|]. cbn [map forallb]. by rewrite Hw, IH.
Qed.

Lemma time_spans_index wk tm stimes etimes pre d post :
  Forall (λ x, contains (replace1 x "7" "0") wk = false) pre → contains (replace1 d "7" "0") wk = true →
  ∀ i, (length stimes ≤ i + length pre)%nat →
  time_spans wk tm stimes etimes i (pre ++ d :: post) = Panic.
Proof.
  intros Hpre Hd. induction Hpre as [|x pre Hx _ IH]; intros i Hi; cbn [app time_spans].
  - rewrite Hd. cbn [negb]. cbn [length] in Hi. unfold go_index. rewrite (lookup_ge_None_2 stimes i) by lia. done.
  - rewrite Hx. cbn [negb]. apply IH. cbn [length] in Hi. lia.
Qed.

(** When the first day group with the weekday of the event has no start
    time of its own, the effective-time test panics: nothing between the
    request and this loop checks that the lengths agree. *)
Theorem TimeSpanMuteStrategy_panics rule event pre d post :
  let wk := itoa (weekday (Event.TriggerTime event)) in
  split (Rule.EnableDaysOfWeek rule) ";" = (pre ++ d :: post)%list → Rule.EnableDaysOfWeek rule ≠ "" →
  Forall (λ x, contains (replace1 x "7" "0") wk = false) pre → contains (replace1 d "7" "0") wk = true →
  (length (fields (Rule.EnableStime rule)) ≤ length pre)%nat →
  TimeSpanMuteStrategy rule event = Panic.
Proof.
  intros wk Hs Hne Hpre Hd Hlen. unfold TimeSpanMuteStrategy. apply String.eqb_neq in Hne. rewrite Hne, Hs.
  by apply time_spans_index.
Qed.

(** A mute whose periods are given in minutes is in force at an instant
    exactly when one of them is on at that weekday and contains that minute. *)
Theorem IsWithinPeriodicMute_spec m checkTime ws :
  Mute.PeriodicMutesJson m
  = map (λ w, PeriodicMt.mkPeriodicMute (hhmm (sp_from w)) (hhmm (sp_to w)) (sp_days w)) ws →
  Forall span_wf ws →
  IsWithinPeriodicMute m checkTime
  = existsb (λ w, contains (sp_days w) (itoa (weekday checkTime))
                  && in_periodic (sp_from w) (sp_to w) (clock_minute checkTime)) ws.
Proof.
  intros Hm Hws. unfold IsWithinPeriodicMute, format_1504. rewrite Hm. clear Hm.
  induction Hws as [|w ws (?&?&?) _ IH]; [done|]. cbn [map existsb].
  rewrite periodic_hit_spec, IH by (done || apply clock_minute_range). done.
Qed.

(** When a mute rule applies to an event. *)
Definition mute_applies (event : AlertCurEvent) (mute : AlertMute) (clock : option Z)
    (fs : list TagFilter) : Prop :=
  Mute.Disabled mute ≠ 1 ∧
  (Mute.DatasourceIdsJson mute = [] ∨ head (Mute.DatasourceIdsJson mute) = Some 0 ∨
   Event.DatasourceId event = 0 ∨ Event.DatasourceId event ∈ Mute.DatasourceIdsJson mute) ∧
  (Mute.MuteTimeType mute = TimeRange ∧
     Mute.Btime mute ≤ Event.TriggerTime event ≤ Mute.Etime mute ∨
   Mute.MuteTimeType mute = Periodic ∧
     IsWithinPeriodicMute mute (default (Event.TriggerTime event) clock) = true) ∧
  (Mute.SeveritiesJson mute = [] ∨ Event.Severity event ∈ Mute.SeveritiesJson mute ∨
   0 ∈ Mute.SeveritiesJson mute) ∧
  ∀ f, f ∈ fs → label_holds (Event.TagsMap event) f = true.

Lemma mute_datasource_iff event mute :
  mute_datasource_ok event mute = true ↔
  (Mute.DatasourceIdsJson mute = [] ∨ head (Mute.DatasourceIdsJson mute) = Some 0 ∨
   Event.DatasourceId event = 0 ∨ Event.DatasourceId event ∈ Mute.DatasourceIdsJson mute).
Proof.
  unfold mute_datasource_ok. destruct (Mute.DatasourceIdsJson mute) as [|d ds]; [naive_solver|].
  destruct (Z.eqb_spec d 0) as [->|Hd]; [naive_solver|].
  destruct (Z.eqb_spec (Event.DatasourceId event) 0) as [->|He]; [naive_solver|].
  cbn [negb andb]. rewrite existsb_elem_of. setoid_rewrite Z.eqb_eq.
  split; [intros (x & Hx & ->); auto|]. intros [?|[?|[?|?]]]; naive_solver.
Qed.

Lemma mute_severity_iff event mute :
  mute_severity_ok event mute = true ↔
  (Mute.SeveritiesJson mute = [] ∨ Event.Severity event ∈ Mute.SeveritiesJson mute ∨
   0 ∈ Mute.SeveritiesJson mute).
Proof.
  unfold mute_severity_ok. destruct (Mute.SeveritiesJson mute) as [|s0 ss]; [naive_solver|].
  rewrite existsb_elem_of. setoid_rewrite orb_true_iff. setoid_rewrite Z.eqb_eq.
  split; [intros (x & Hx & [-> | ->]); auto|]. intros [?|[?|?]]; naive_solver.
Qed.

Lemma mute_time_iff event mute clock :
  mute_time_error event mute clock = None ↔
  (Mute.MuteTimeType mute = TimeRange ∧
     Mute.Btime mute ≤ Event.TriggerTime event ≤ Mute.Etime mute ∨
   Mute.MuteTimeType mute = Periodic ∧
     IsWithinPeriodicMute mute (default (Event.TriggerTime event) clock) = true).
Proof.
  unfold mute_time_error, TimeRange, Periodic, IsWithinTimeRange.
  destruct (Z.eqb_spec (Mute.MuteTimeType mute) 0) as [E|E].
  - destruct (Z.ltb_spec (Event.TriggerTime event) (Mute.Btime mute)),
      (Z.ltb_spec (Mute.Etime mute) (Event.TriggerTime event)); simpl; split;
      try done; try lia; intros [[??]|[??]]; lia.
  - destruct (Z.eqb_spec (Mute.MuteTimeType mute) 1) as [E'|E']; [|naive_solver].
    destruct (IsWithinPeriodicMute _ _); naive_solver.
Qed.

Lemma MatchMute_cond event mute clock fs :
  ParseTagFilter fs = Ok (Mute.ITags mute) → Forall plain_key fs →
  ∃ err, MatchMute event mute clock = Ret (bool_decide (err = None), err) ∧
    (err = None ↔ negb (Mute.Disabled mute =? 1) = true ∧ mute_datasource_ok event mute = true ∧
     mute_time_error event mute clock = None ∧ mute_severity_ok event mute = true ∧
     forallb (label_holds (Event.TagsMap event)) fs = true).
Proof.
  intros Hp Hk.
  assert (Hno : ∀ e : error, Ret (false, Some e) = Ret (bool_decide (Some e = None), Some e)) by done.
  unfold MatchMute.
  destruct (Mute.Disabled mute =? 1); [eexists; split; [apply Hno|]; naive_solver|].
  destruct (mute_datasource_ok event mute); [|eexists; split; [apply Hno|]; naive_solver].
  destruct (mute_time_error event mute clock); [eexists; split; [apply Hno|]; naive_solver|].
  destruct (mute_severity_ok event mute); [|eexists; split; [apply Hno|]; naive_solver].
  cbn [negb]. pose proof (match_tags_all (Event.TagsMap event) _ _ Hp Hk) as Hm.
  destruct (Mute.ITags mute) as [|t ts].
  - injection Hm as <-. exists None. naive_solver.
  - rewrite Hm. unfold mbind, go_bind.
    destruct (forallb _ fs); [exists None | eexists; split; [apply Hno|]]; naive_solver.
Qed.

(** A mute rule, its label filters parsed, is matched against an event without
    panicking; it matches exactly when it is enabled and its data sources, its
    time range or period, its severities and all its label filters cover the
    event, and an error is returned exactly when it does not match. *)
Theorem MatchMute_spec event mute clock fs :
  ParseTagFilter fs = Ok (Mute.ITags mute) → Forall plain_key fs →
  ∃ b err, MatchMute event mute clock = Ret (b, err) ∧
    (b = true ↔ mute_applies event mute clock fs) ∧ (b = true ↔ err = None).
Proof.
  intros Hp Hk. destruct (MatchMute_cond event mute clock fs Hp Hk) as (err & HM & Herr).
  exists (bool_decide (err = None)), err. rewrite HM, bool_decide_eq_true. split_and!; [done| |done].
  rewrite Herr. unfold mute_applies.
  rewrite negb_true_iff, Z.eqb_neq, mute_datasource_iff, mute_time_iff, mute_severity_iff.
  rewrite forallb_elem_of. done.
Qed.

(** For a mute by time range the optional clock has no effect: the trigger
    time of the event is used whether or not a clock is passed. *)
Theorem MatchMute_clock_ignored event mute clock :
  Mute.MuteTimeType mute = TimeRange →
  MatchMute event mute (Some clock) = MatchMute event mute None.
Proof. intros Ht. unfold MatchMute, mute_time_error. by rewrite Ht. Qed.

(** The mute rules of the event's business group are tried in order: the
    strategy reports the first one that matches, and none only if none does. *)
Theorem EventMuteStrategy_first event cache hit id :
  EventMuteStrategy event cache = Ret (hit, id) →
  let mutes := default [] (cache !! Event.GroupId event) in
  if hit : bool then
    ∃ pre m post err, mutes = (pre ++ m :: post)%list ∧ id = Mute.Id m ∧
      MatchMute event m None = Ret (true, err) ∧
      Forall (λ m', ∃ err', MatchMute event m' None = Ret (false, err')) pre
  else Forall (λ m', ∃ err', MatchMute event m' None = Ret (false, err')) mutes.
Proof.
  unfold EventMuteStrategy. destruct (cache !! Event.GroupId event) as [mutes|]; simpl;
    [|by intros [= <- <-]].
  intros Hf. assert (first_mute event mutes = Ret (hit, id)) as Hf' by (by destruct mutes).
  clear Hf. revert hit id Hf'. induction mutes as [|m mutes IH]; intros hit id; cbn [first_mute].
  { by intros [= <- <-]. }
  intros ([b err] & Hm & Hrest)%go_bind_Ret. destruct b.
  - injection Hrest as <- <-. exists [], m, mutes, err. split_and!; try done.
  - specialize (IH _ _ Hrest). destruct hit; [|constructor; eauto].
    destruct IH as (pre & m' & post & err' & -> & ? & ? & ?).
    exists (m :: pre), m', post, err'. split_and!; try done. constructor; eauto.
Qed.

(** An event is let through exactly when every strategy lets it through. *)
Theorem IsMuted_false_iff rule event targets mutes :
  IsMuted rule event targets mutes = Ret (false, "", 0) ↔
  Rule.Disabled rule ≠ 1 ∧ TimeSpanMuteStrategy rule event = Ret false ∧
  IdentNotExistsMuteStrategy rule event targets = false ∧
  BgNotMatchMuteStrategy rule event targets = false ∧
  ∃ id, EventMuteStrategy event mutes = Ret (false, id).
Proof.
  unfold IsMuted. destruct (Z.eqb_spec (Rule.Disabled rule) 1) as [|Hd]; [naive_solver|].
  destruct (TimeSpanMuteStrategy rule event) as [[]|]; simpl; [naive_solver| |naive_solver].
  destruct (IdentNotExistsMuteStrategy _ _ _); [naive_solver|].
  destruct (BgNotMatchMuteStrategy _ _ _); [naive_solver|].
  destruct (EventMuteStrategy event mutes) as [[[] id]|]; simpl; naive_solver.
Qed.
End spec.

Section rows.
Context `{Regexp, GoFmt, Location}.
Context `{!Json (list TagFilter), !Json (list PeriodicMute), !Json (list Z)}.

(** A mute rule that [Add] writes has a valid group, ends after it begins, and
    applies to all data sources only in the normal form [0]. *)
Theorem AlertMute_Add_row now m row :
  AlertMute_Add now m = Ok row →
  0 ≤ Mute.GroupId row ∧ Mute.Btime row < Mute.Etime row ∧
  (0 ∈ Mute.DatasourceIdsJson row → Mute.DatasourceIdsJson row = [0]) ∧
  Ok (Mute.ITags row) = GetTagFilters (Mute.Tags row) ∧ Mute.CreateAt row = now.
Proof.
  unfold AlertMute_Add. destruct (AlertMute_Verify m) as [m1 [|]] eqn:Hv; [done|].
  destruct (AlertMute_FE2DB m1) as [m2 [|]] eqn:Hf; [done|]. intros [= <-]. rsimp.
  assert (Hcore : 0 ≤ Mute.GroupId m1 ∧ Mute.Btime m1 < Mute.Etime m1 ∧
    (0 ∈ Mute.DatasourceIdsJson m1 → Mute.DatasourceIdsJson m1 = [0]) ∧
    Ok (Mute.ITags m1) = GetTagFilters (Mute.Tags m1)).
  { revert Hv. unfold AlertMute_Verify. destruct (Z.ltb_spec (Mute.GroupId m) 0); [done|].
    set (m0 := if IsAllDatasource _ then _ else _).
    assert (Mute.GroupId m0 = Mute.GroupId m ∧ (0 ∈ Mute.DatasourceIdsJson m0 →
      Mute.DatasourceIdsJson m0 = [0])) as [Hg Hz].
    { unfold m0. destruct (IsAllDatasource (Mute.DatasourceIdsJson m)) eqn:E; rsimp; [done|].
      split; [done|]. intros Hin0. unfold IsAllDatasource in E.
      rewrite existsb_false_elem_of in E. by apply E in Hin0. }
    clearbody m0. destruct (Z.leb_spec (Mute.Etime m0) (Mute.Btime m0)); [done|].
    unfold AlertMute_Parse. destruct (GetTagFilters (Mute.Tags m0)) eqn:Eg; [|done].
    intros [= <-]. rsimp. rewrite Hg. split_and!; done. }
  destruct Hcore as (? & ? & ? & ?).
  revert Hf. unfold AlertMute_FE2DB.
  repeat case_match; intros; simplify_eq; rsimp; done.
Qed.
End rows.
