(* ===== verification/Relabel.v ===== *)
(** * Relabelling: [pushgw/writer/relabel.go] and the relabel processor

    Rewriting the labels of a series or of an event by a list of relabel
    configurations.  A nil slice of labels, which the code uses to say "drop
    the series", is [None] and differs from an empty slice.  Submatches and
    expansion of regular expressions, MD5 and the validity of a label name are
    parameters. *)

From Stdlib Require Import Ascii.
From S2P Require Import Prelude GoStrings Json Models RuleModels EventOps Filter.
Open Scope string_scope.
Open Scope Z_scope.

Module Lbl.
Record Label := mkLabel { Name : string; Value : string }.
#[global] Instance Label_eta : Settable Label := λ r, mkLabel (Name r) (Value r).
Definition zero : Label := mkLabel "" "".
End Lbl.
Notation Label := Lbl.Label.

(** The rest of [regexp] that relabelling uses: [FindStringSubmatchIndex],
    which is nil exactly when the expression does not match, [ExpandString]
    and [ReplaceAllString]. *)
Class RegexpSub `{Regexp} := {
  re_find : regexp → string → option (list Z);
  re_expand : regexp → string → string → list Z → string;
  re_replace_all : regexp → string → string → string;
  re_find_match : ∀ r s, is_Some (re_find r s) ↔ re_match r s = true
}.

(** [crypto/md5]: sixteen bytes. *)
Class Md5 := {
  md5_sum : string → list Z;
  md5_length : ∀ s, length (md5_sum s) = 16%nat;
  md5_bytes : ∀ s, Forall (λ b, 0 ≤ b < 256) (md5_sum s)
}.

(** [model.LabelName.IsValid] *)
Class LabelNames := { label_valid : string → bool }.

Definition Replace := "replace".
Definition Keep := "keep".
Definition Drop := "drop".
Definition HashMod := "hashmod".
Definition LabelMap := "labelmap".
Definition LabelDrop := "labeldrop".
Definition LabelKeep := "labelkeep".
Definition Lowercase := "lowercase".
Definition Uppercase := "uppercase".
Definition DropIfEqual := "drop_if_equal".

(** ** The label builder *)

Definition getValue (ls : list Label) (name : string) : string :=
  match list_find (λ l, Lbl.Name l = name) ls with
  | Some (_, l) => Lbl.Value l
  | None => ""
  end.

Notation LabelBuilder := (gmap string string) (only parsing).

Definition newBuilder (ls : list Label) : LabelBuilder :=
  foldl (λ m l, <[Lbl.Name l := Lbl.Value l]> m) ∅ ls.

Definition lb_set (lb : LabelBuilder) (k v : string) : LabelBuilder := <[k := v]> lb.
Definition lb_del (lb : LabelBuilder) (ns : list string) : LabelBuilder :=
  foldl (λ m n, delete n m) lb ns.

(** The order [sort.Slice] sorts by: names, descending. *)
Definition label_ge (a b : Label) : Prop := string_le (Lbl.Name b) (Lbl.Name a).
#[export] Instance label_ge_dec a b : Decision (label_ge a b).
Proof. unfold label_ge. apply _. Defined.

Definition labels `{GoRange} (lb : LabelBuilder) : list Label :=
  merge_sort label_ge (map (λ kv, Lbl.mkLabel (fst kv) (snd kv)) (go_range lb)).

(** ** One relabel configuration *)

(** [sum64]: a shift by 64 or more gives 0 in Go. *)
Definition sum64 (hash : list Z) : Z :=
  foldl (λ s ib, Z.lor s (Z.shiftl (snd ib) ((16 - Z.of_nat (fst ib) - 1) * 8) mod 2 ^ 64))
    0 (imap pair hash).

Definition compileRegex `{Regexp} (expr : string) : option regexp :=
  match re_compile expr with Some _ => None | None => Some expr end.

Section relabel.
Context `{GoRange, RegexpSub, Md5, LabelNames, UnicodeCase}.

Definition handleReplace (lb : LabelBuilder) (regx : regexp) (cfg : RelabelConfig) (val : string)
  : list Label :=
  let target := RelabelConf.TargetLabel cfg in
  if String.eqb target "" then labels lb
  else if (length (RelabelConf.SourceLabels cfg) =? 0)%nat
  then labels (lb_set lb target (RelabelConf.Replacement cfg))
  else if String.eqb (RelabelConf.Replacement cfg) "" && (1 <? length (RelabelConf.SourceLabels cfg))%nat
  then labels (lb_set lb target val)
  else match re_find regx val with
       | None => labels lb
       | Some indexes =>
           if negb (label_valid target) then labels (lb_del lb [target])
           else
             let res := re_expand regx (RelabelConf.Replacement cfg) val indexes in
             if String.eqb res "" then labels (lb_del lb [target])
             else labels (lb_set lb target res)
       end.

Definition handleDropIfEqual (lb : LabelBuilder) (cfg : RelabelConfig) (lset : list Label)
  : option (list Label) :=
  match RelabelConf.SourceLabels cfg with
  | first :: ((_ :: _) as rest) =>
      let firstVal := getValue lset first in
      if forallb (λ label, String.eqb (getValue lset label) firstVal) rest then None
      else Some (labels lb)
  | _ => Some (labels lb)
  end.

Definition relabel (lset : option (list Label)) (cfg : RelabelConfig) : go (option (list Label)) :=
  let ls := default [] lset in
  let values := map (getValue ls) (RelabelConf.SourceLabels cfg) in
  let regx := match RelabelConf.RegexCompiled cfg with
              | Some r => Some r
              | None => compileRegex (RelabelConf.Regex cfg)
              end in
  match regx with
  | None => Ret lset
  | Some regx =>
      let val := join values (RelabelConf.Separator cfg) in
      let lb := newBuilder ls in
      let action := RelabelConf.Action cfg in
      let target := RelabelConf.TargetLabel cfg in
      if String.eqb action Drop then
        if re_match regx val then Ret None else Ret (Some (labels lb))
      else if String.eqb action Keep then
        if re_match regx val then Ret (Some (labels lb)) else Ret None
      else if String.eqb action Replace then Ret (Some (handleReplace lb regx cfg val))
      else if String.eqb action Lowercase then Ret (Some (labels (lb_set lb target (to_lower val))))
      else if String.eqb action Uppercase then Ret (Some (labels (lb_set lb target (to_upper val))))
      else if String.eqb action HashMod then
        if RelabelConf.Modulus cfg =? 0 then Panic
        else Ret (Some (labels (lb_set lb target
               (itoa (sum64 (md5_sum val) mod RelabelConf.Modulus cfg)))))
      else if String.eqb action LabelMap then
        Ret (Some (labels (foldl (λ lb l,
          if re_match regx (Lbl.Name l)
          then lb_set lb (re_replace_all regx (Lbl.Name l) (RelabelConf.Replacement cfg)) (Lbl.Value l)
          else lb) lb ls)))
      else if String.eqb action LabelDrop then
        Ret (Some (labels (foldl (λ lb l,
          if re_match regx (Lbl.Name l) then lb_del lb [Lbl.Name l] else lb) lb ls)))
      else if String.eqb action LabelKeep then
        Ret (Some (labels (foldl (λ lb l,
          if negb (re_match regx (Lbl.Name l)) then lb_del lb [Lbl.Name l] else lb) lb ls)))
      else if String.eqb action DropIfEqual then Ret (handleDropIfEqual lb cfg ls)
      else Ret (Some (labels lb))
  end.

(** [Process]: the configurations in order, stopping at a drop. *)
Fixpoint relabel_all (lset : option (list Label)) (cfgs : list RelabelConfig)
  : go (option (list Label)) :=
  match cfgs with
  | [] => Ret lset
  | cfg :: cfgs' =>
      r ← relabel lset cfg;
      match r with
      | None => Ret None
      | Some ls => relabel_all (Some ls) cfgs'
      end
  end.

(** ** Relabelling the tags of an event *)

Definition REPLACE_DOT := "___".

Definition event_label (tag : string) : Label :=
  match splitn2 tag "=" with
  | [k; v] => Lbl.mkLabel (replace_all k "." REPLACE_DOT) v
  | _ => Lbl.zero
  end.

Definition original_tag (tag : string) : string :=
  match splitn2 tag "=" with [_; _] => tag | _ => "" end.

(** The defaults the loop over the configurations writes into them. *)
Definition default_config (c : RelabelConfig) : RelabelConfig :=
  let c := if String.eqb (RelabelConf.Replacement c) ""
           then c <| RelabelConf.Replacement := "$1" |> else c in
  let c := if String.eqb (RelabelConf.Separator c) ""
           then c <| RelabelConf.Separator := ";" |> else c in
  if String.eqb (RelabelConf.Regex c) "" then c <| RelabelConf.Regex := "(.*)" |> else c.

Definition tag_of (l : Label) : string := Lbl.Name l +:+ "=" +:+ Lbl.Value l.

(** The event after relabelling, and the configurations, which are shared and
    keep the defaults written into them. *)
Definition EventRelabel (event : AlertCurEvent) (relabelConfigs : list RelabelConfig)
  : go (AlertCurEvent * list RelabelConfig) :=
  let lbls := map event_label (Event.TagsJSON event) in
  let event := event <| Event.OriginalTagsJSON := map original_tag (Event.TagsJSON event) |> in
  let cfgs := map default_config relabelConfigs in
  got ← relabel_all (Some lbls) cfgs;
  let got := map (λ l, l <| Lbl.Name := replace_all (Lbl.Name l) REPLACE_DOT "." |>) (default [] got) in
  let event := event <| Event.TagsJSON := map tag_of got |> <| Event.TagsMap := newBuilder got |> in
  Ret (event <| Event.Tags := join (Event.TagsJSON event) ",," |>, cfgs).

(** The relabel processor of a pipeline: [RelabelConfig.Process]. *)
Definition RelabelConfig_Process (r : RelabelConfig) (event : AlertCurEvent) : go AlertCurEvent :=
  let cfg := r <| RelabelConf.SourceLabels :=
                  map (λ s, replace_all s "." REPLACE_DOT) (RelabelConf.SourceLabels r) |> in
  fst <$> EventRelabel event [cfg].

(** [Relabel] of [alert/process/process.go], with the rule the defaults are
    written into. *)
Definition Relabel (rule : AlertRule) (event : AlertCurEvent) : go (AlertRule * AlertCurEvent) :=
  let event := event <| Event.OriginalTags := Event.Tags event |>
                     <| Event.OriginalTagsJSON := Event.TagsJSON event |> in
  if (length (Rule.EventRelabelConfig rule) =? 0)%nat then Ret (rule, event)
  else
    '(event, cfgs) ← EventRelabel event (Rule.EventRelabelConfig rule);
    Ret (rule <| Rule.EventRelabelConfig := cfgs |>, event).
End relabel.

(** [Relabel] of [pushgw/writer/relabel.go]: the series that keep a label. *)
Fixpoint relabel_series `{GoRange, RegexpSub, Md5, LabelNames, UnicodeCase} {A : Type}
    (items : list (option (list Label) * A)) (rc : list RelabelConfig)
  : go (list (option (list Label) * A)) :=
  match items with
  | [] => Ret []
  | (lbls, samples) :: items' =>
      lbls' ← relabel_all lbls rc;
      ritems ← relabel_series items' rc;
      match default [] lbls' with
      | [] => Ret ritems
      | _ => Ret ((lbls', samples) :: ritems)
      end
  end.

(** ** Lemmas on the label builder *)


Lemma newBuilder_snoc ls l :
  newBuilder (ls ++ [l])%list = <[Lbl.Name l := Lbl.Value l]> (newBuilder ls).
Proof. unfold newBuilder. by rewrite foldl_app. Qed.

#[export] Instance label_ge_trans : Transitive label_ge.
Proof. intros a b c Hab Hbc. unfold label_ge in *. by etrans. Qed.

#[export] Instance label_ge_total : Total label_ge.
Proof. intros a b. unfold label_ge. destruct (string_le_total (Lbl.Name b) (Lbl.Name a)); auto. Qed.

(** With distinct names, the builder finds a label by its name. *)
Lemma newBuilder_lookup ls k v :
  NoDup (map Lbl.Name ls) → newBuilder ls !! k = Some v ↔ Lbl.mkLabel k v ∈ ls.
Proof.
  induction ls as [|l ls IH] using rev_ind; intros Hnd; [set_solver|].
  rewrite map_app in Hnd. apply NoDup_app in Hnd as (Hnd & Hdisj & _).
  rewrite newBuilder_snoc, elem_of_app, list_elem_of_singleton.
  destruct (decide (Lbl.Name l = k)) as [<-|Hk].
  - rewrite lookup_insert_eq. split.
    + intros [= <-]. right. by destruct l.
    + intros [Hin|Heq]; [|by rewrite <- Heq].
      exfalso. apply (Hdisj (Lbl.Name l)); [|set_solver].
      apply list_elem_of_fmap. by exists (Lbl.mkLabel (Lbl.Name l) v).
  - rewrite lookup_insert_ne by done. rewrite IH by done.
    split; [auto|]. intros [?| <-]; naive_solver.
Qed.

(** Every binding of the builder comes from a label. *)
Lemma newBuilder_elem ls k v : newBuilder ls !! k = Some v → Lbl.mkLabel k v ∈ ls.
Proof.
  induction ls as [|l ls IH] using rev_ind; [done|].
  rewrite newBuilder_snoc, elem_of_app, list_elem_of_singleton.
  intros [[<- <-]|[? Hl]]%lookup_insert_Some; [right; by destruct l | auto].
Qed.

Section labels.
Context `{GR : GoRange}.

Lemma labels_perm lb :
  labels lb ≡ₚ map (λ kv, Lbl.mkLabel (fst kv) (snd kv)) (map_to_list lb).
Proof. unfold labels. rewrite merge_sort_Permutation. by rewrite go_range_perm. Qed.

Lemma labels_sorted lb : StronglySorted label_ge (labels lb).
Proof. apply StronglySorted_merge_sort; apply _. Qed.

Lemma elem_of_labels lb l : l ∈ labels lb ↔ lb !! Lbl.Name l = Some (Lbl.Value l).
Proof.
  rewrite labels_perm, list_elem_of_fmap. split.
  - intros ([k v] & -> & Hin). by apply elem_of_map_to_list in Hin.
  - intros Hl. exists (Lbl.Name l, Lbl.Value l). split; [by destruct l|].
    by apply elem_of_map_to_list.
Qed.

Lemma labels_NoDup lb : NoDup (map Lbl.Name (labels lb)).
Proof.
  rewrite labels_perm, map_map. cbn. apply NoDup_fst_map_to_list.
Qed.

(** The builder of the labels of a builder is the builder. *)
Lemma newBuilder_labels lb : newBuilder (labels lb) = lb.
Proof.
  apply map_eq. intros k. apply option_eq. intros v.
  rewrite newBuilder_lookup by apply labels_NoDup. apply elem_of_labels.
Qed.
End labels.

Lemma label_ge_antisym_in (lb : LabelBuilder) a b :
  lb !! Lbl.Name a = Some (Lbl.Value a) → lb !! Lbl.Name b = Some (Lbl.Value b) →
  label_ge a b → label_ge b a → a = b.
Proof.
  unfold label_ge. intros Ha Hb Hab Hba.
  assert (Lbl.Name a = Lbl.Name b) as E by (by apply (anti_symm string_le)).
  destruct a, b; simpl in *. subst. naive_solver.
Qed.

(** The labels do not depend on the order the map is visited in. *)
Lemma labels_canonical (G1 G2 : GoRange) lb : @labels G1 lb = @labels G2 lb.
Proof.
  apply (StronglySorted_unique_strong label_ge); try apply labels_sorted.
  - intros a b Ha%elem_of_labels Hb%elem_of_labels. by apply (label_ge_antisym_in lb).
  - by rewrite !labels_perm.
Qed.

#[export] Hint Resolve labels_sorted labels_NoDup : n9e.

(** Deleting the names a predicate selects leaves the other bindings. *)
Lemma foldl_del_lookup (P : string → bool) ls (lb : LabelBuilder) k :
  foldl (λ lb l, if P (Lbl.Name l) then lb_del lb [Lbl.Name l] else lb) lb ls !! k
  = if P k && existsb (λ l, String.eqb (Lbl.Name l) k) ls then None else lb !! k.
Proof.
  revert lb. induction ls as [|l ls IH]; intros lb; simpl; [by rewrite andb_false_r|].
  rewrite IH. destruct (P k) eqn:Pk; simpl.
  - destruct (existsb _ ls); [by rewrite orb_true_r|]. rewrite orb_false_r.
    destruct (String.eqb_spec (Lbl.Name l) k) as [->|Hne].
    + rewrite Pk. unfold lb_del. simpl. apply lookup_delete_eq.
    + destruct (P (Lbl.Name l)); [|done]. unfold lb_del. simpl. by rewrite lookup_delete_ne.
  - destruct (P (Lbl.Name l)) eqn:Pl; [|done]. unfold lb_del. simpl.
    rewrite lookup_delete_ne; [done|]. congruence.
Qed.

Lemma newBuilder_is_Some ls k :
  is_Some (newBuilder ls !! k) → existsb (λ l, String.eqb (Lbl.Name l) k) ls = true.
Proof.
  intros [v Hv%newBuilder_elem]. apply existsb_elem_of. exists (Lbl.mkLabel k v).
  split; [done|]. apply String.eqb_refl.
Qed.

Lemma foldl_del_newBuilder (P : string → bool) ls k :
  foldl (λ lb l, if P (Lbl.Name l) then lb_del lb [Lbl.Name l] else lb) (newBuilder ls) ls !! k
  = if P k then None else newBuilder ls !! k.
Proof.
  rewrite foldl_del_lookup. destruct (P k); [|done]. simpl.
  destruct (newBuilder ls !! k) eqn:E; [|by destruct (existsb _ _)].
  by rewrite newBuilder_is_Some by eauto.
Qed.

(** ** Properties *)

(** A byte of the MD5 sum of which only the last eight reach the result. *)
Lemma sum64_step s b i :
  (i < 16)%nat → 0 ≤ b < 256 → 0 ≤ s < 2 ^ 64 →
  0 ≤ Z.lor s (Z.shiftl b ((16 - Z.of_nat i - 1) * 8) mod 2 ^ 64) < 2 ^ 64.
Proof.
  intros Hi Hb Hs. pose proof (Z.mod_pos_bound (Z.shiftl b ((16 - Z.of_nat i - 1) * 8)) (2 ^ 64)).
  set (x := _ mod _) in *. split; [apply Z.lor_nonneg; lia|].
  destruct (Z.eq_dec (Z.lor s x) 0) as [->|Hne]; [lia|].
  apply Z.log2_lt_pow2; [assert (0 ≤ Z.lor s x) by (apply Z.lor_nonneg; lia); lia|].
  rewrite Z.log2_lor by lia. apply Z.max_lub_lt.
  - destruct (Z.eq_dec s 0) as [->|]; [done|]. apply Z.log2_lt_pow2; lia.
  - destruct (Z.eq_dec x 0) as [->|]; [done|]. apply Z.log2_lt_pow2; lia.
Qed.

Section properties.
Context `{GR : GoRange, RegexpSub, Md5, LabelNames, UnicodeCase}.
Implicit Types cfg : RelabelConfig.

(** The expression a configuration uses. *)
Definition config_regex cfg : option regexp :=
  match RelabelConf.RegexCompiled cfg with
  | Some r => Some r
  | None => compileRegex (RelabelConf.Regex cfg)
  end.

Definition source_value (ls : list Label) cfg : string :=
  join (map (getValue ls) (RelabelConf.SourceLabels cfg)) (RelabelConf.Separator cfg).

Lemma sum64_range s : 0 ≤ sum64 (md5_sum s) < 2 ^ 64.
Proof.
  unfold sum64. apply foldl_invariant; [lia|].
  intros a [i b] Hin Ha. apply elem_of_lookup_imap in Hin as (j & y & [= <- <-] & Hj).
  apply sum64_step; [|pose proof (md5_bytes s) as Hb; by eapply Forall_lookup_1 in Hb|done].
  apply lookup_lt_Some in Hj. by rewrite md5_length in Hj.
Qed.

Lemma handleReplace_labels lb regx cfg val :
  ∃ lb', handleReplace lb regx cfg val = labels lb' ∧
    ∀ k, k ≠ RelabelConf.TargetLabel cfg → lb' !! k = lb !! k.
Proof.
  unfold handleReplace, lb_del, lb_set. simpl.
  repeat case_match; eexists; split; try reflexivity; intros k Hk; simpl;
    rewrite ?lookup_insert_ne, ?lookup_delete_ne by done; done.
Qed.

(** What is left of a label set when it is not dropped is what a builder
    gives. *)
Lemma relabel_builder lset cfg regx r :
  config_regex cfg = Some regx → relabel lset cfg = Ret (Some r) → ∃ lb, r = labels lb.
Proof.
  unfold relabel, config_regex. intros ->.
  destruct (handleReplace_labels (newBuilder (default [] lset)) regx cfg
    (source_value (default [] lset) cfg)) as (lb & Hlb & _). unfold source_value in Hlb.
  rewrite Hlb. unfold handleDropIfEqual. repeat case_match; intros; simplify_eq; eauto.
Qed.

(** A relabelled label set has distinct names in descending order. *)
Theorem relabel_sorted lset cfg regx r :
  config_regex cfg = Some regx → relabel lset cfg = Ret (Some r) →
  StronglySorted label_ge r ∧ NoDup (map Lbl.Name r).
Proof.
  intros Hre Hr. destruct (relabel_builder _ _ _ _ Hre Hr) as [lb ->]. auto with n9e.
Qed.

(** Relabelling panics exactly for a [hashmod] action with modulus zero. *)
Theorem relabel_panics lset cfg :
  relabel lset cfg = Panic ↔
  is_Some (config_regex cfg) ∧ RelabelConf.Action cfg = HashMod ∧ RelabelConf.Modulus cfg = 0.
Proof.
  unfold relabel. fold (config_regex cfg).
  destruct (config_regex cfg) as [regx|]; [|split; [done|intros [[] _]; done]].
  destruct (String.eqb_spec (RelabelConf.Action cfg) Drop) as [->|_]; [case_match; naive_solver|].
  destruct (String.eqb_spec (RelabelConf.Action cfg) Keep) as [->|_]; [case_match; naive_solver|].
  destruct (String.eqb_spec (RelabelConf.Action cfg) Replace) as [->|_]; [naive_solver|].
  destruct (String.eqb_spec (RelabelConf.Action cfg) Lowercase) as [->|_]; [naive_solver|].
  destruct (String.eqb_spec (RelabelConf.Action cfg) Uppercase) as [->|_]; [naive_solver|].
  destruct (String.eqb_spec (RelabelConf.Action cfg) HashMod) as [->|Hh].
  - destruct (Z.eqb_spec (RelabelConf.Modulus cfg) 0); naive_solver.
  - repeat case_match; naive_solver.
Qed.

Lemma handleDropIfEqual_None lb cfg ls :
  handleDropIfEqual lb cfg ls = None ↔
  (2 ≤ length (RelabelConf.SourceLabels cfg))%nat ∧
  ∀ a b, a ∈ RelabelConf.SourceLabels cfg → b ∈ RelabelConf.SourceLabels cfg →
    getValue ls a = getValue ls b.
Proof.
  unfold handleDropIfEqual.
  destruct (RelabelConf.SourceLabels cfg) as [|a [|b l]]; [split; simpl; [done|lia]..|].
  set (rest := b :: l). destruct (forallb _ rest) eqn:E.
  - split; [|done]. intros _. split; [simpl; lia|]. rewrite forallb_elem_of in E.
    assert (∀ x, x ∈ a :: rest → getValue ls x = getValue ls a) as Hall.
    { intros x [->|Hx]%elem_of_cons; [done|]. by apply String.eqb_eq, E. }
    intros x y Hx Hy. by rewrite (Hall x), (Hall y).
  - split; [done|]. intros [_ Hall]. exfalso. apply not_true_iff_false in E. apply E.
    apply forallb_elem_of. intros x Hx. apply String.eqb_eq. apply Hall; set_solver.
Qed.

(** The three actions that can drop a whole label set do so exactly when
    their condition says so; no other action drops. *)
Theorem relabel_drops ls cfg regx :
  config_regex cfg = Some regx →
  relabel (Some ls) cfg = Ret None ↔
  RelabelConf.Action cfg = Drop ∧ re_match regx (source_value ls cfg) = true ∨
  RelabelConf.Action cfg = Keep ∧ re_match regx (source_value ls cfg) = false ∨
  RelabelConf.Action cfg = DropIfEqual ∧ (2 ≤ length (RelabelConf.SourceLabels cfg))%nat ∧
    ∀ a b, a ∈ RelabelConf.SourceLabels cfg → b ∈ RelabelConf.SourceLabels cfg →
      getValue ls a = getValue ls b.
Proof.
  intros Hre. unfold relabel. fold (config_regex cfg). rewrite Hre. change (default [] (Some ls)) with ls.
  fold (source_value ls cfg).
  pose proof (handleDropIfEqual_None (newBuilder ls) cfg ls) as Hd.
  set (P := (_ ≤ _)%nat ∧ _) in Hd |- *. clearbody P. revert Hd.
  generalize (re_match regx (source_value ls cfg)) as m. intros m Hd.
  destruct (String.eqb_spec (RelabelConf.Action cfg) Drop) as [->|HnD]; [destruct m; naive_solver|].
  destruct (String.eqb_spec (RelabelConf.Action cfg) Keep) as [->|HnK]; [destruct m; naive_solver|].
  destruct (String.eqb_spec (RelabelConf.Action cfg) DropIfEqual) as [->|Hne];
    [change (Ret (handleDropIfEqual (newBuilder ls) cfg ls) = Ret None ↔
       DropIfEqual = Drop ∧ m = true ∨ DropIfEqual = Keep ∧ m = false ∨ DropIfEqual = DropIfEqual ∧ P);
     split; [intros [= Hn]; right; right; split; [done|by apply Hd]
            |intros [[??]|[[??]|[_ HP]]]; [done|done|by apply Hd in HP as ->]]|].
  repeat case_match; naive_solver.
Qed.

(** [labeldrop] removes exactly the labels whose name matches, [labelkeep]
    exactly those whose name does not match, and both keep the values of the
    others. *)
Theorem relabel_labeldrop_labelkeep ls cfg regx r k :
  config_regex cfg = Some regx →
  relabel (Some ls) cfg = Ret (Some r) →
  (RelabelConf.Action cfg = LabelDrop →
     newBuilder r !! k = if re_match regx k then None else newBuilder ls !! k) ∧
  (RelabelConf.Action cfg = LabelKeep →
     newBuilder r !! k = if re_match regx k then newBuilder ls !! k else None).
Proof.
  intros Hre. unfold relabel. fold (config_regex cfg). rewrite Hre.
  change (default [] (Some ls)) with ls. intros Hr. split; intros Ha; rewrite Ha in Hr.
  - injection Hr as <-. rewrite newBuilder_labels. apply foldl_del_newBuilder.
  - injection Hr as <-. rewrite newBuilder_labels.
    rewrite (foldl_del_newBuilder (λ n, negb (re_match regx n))). by destruct (re_match regx k).
Qed.

(** The actions that compute one label leave every other label as it was. *)
Theorem relabel_frame ls cfg r k :
  RelabelConf.Action cfg ∈ [Drop; Keep; Replace; Lowercase; Uppercase; HashMod; DropIfEqual] →
  k ≠ RelabelConf.TargetLabel cfg →
  relabel (Some ls) cfg = Ret (Some r) →
  newBuilder r !! k = newBuilder ls !! k.
Proof.
  intros Ha Hk. unfold relabel. fold (config_regex cfg).
  destruct (config_regex cfg) as [regx|]; [|by intros [= <-]].
  change (default [] (Some ls)) with ls.
  destruct (handleReplace_labels (newBuilder ls) regx cfg (source_value ls cfg)) as (lb & Hlb & Hf).
  unfold source_value in Hlb. rewrite Hlb.
  assert (∀ lb', (lb' !! k = newBuilder ls !! k) →
    newBuilder (labels lb') !! k = newBuilder ls !! k) as Hl by (intros; by rewrite newBuilder_labels).
  unfold handleDropIfEqual, lb_set. intros Hr.
  repeat (apply elem_of_cons in Ha as [Ha|Ha]; [rewrite Ha in Hr; simpl in Hr;
    repeat case_match; simplify_eq; apply Hl; rewrite ?lookup_insert_ne by done; by rewrite ?Hf|]).
  set_solver.
Qed.

Lemma default_config_idemp c : default_config (default_config c) = default_config c.
Proof.
  assert (String.eqb "$1" "" = false ∧ String.eqb ";" "" = false ∧ String.eqb "(.*)" "" = false)
    as (E1 & E2 & E3) by done.
  unfold default_config.
  destruct (String.eqb (RelabelConf.Replacement c) "") eqn:Er;
    destruct (String.eqb (RelabelConf.Separator c) "") eqn:Es; rsimp; rewrite ?Es; rsimp;
    destruct (String.eqb (RelabelConf.Regex c) "") eqn:Ex; rsimp;
    rewrite ?Er, ?E1; rsimp; rewrite ?Es, ?E2; rsimp; rewrite ?Ex, ?E3; done.
Qed.

(** The three forms of the tags agree: the tag column is the joined slice,
    every entry of the map is an element of the slice, and every element of the
    slice has its name in the map. *)
Definition tags_agree (e : AlertCurEvent) : Prop :=
  Event.Tags e = join (Event.TagsJSON e) ",," ∧
  (∀ k v, Event.TagsMap e !! k = Some v → (k +:+ "=" +:+ v) ∈ Event.TagsJSON e) ∧
  (∀ t, t ∈ Event.TagsJSON e → ∃ k v, t = k +:+ "=" +:+ v ∧ is_Some (Event.TagsMap e !! k)).

Lemma EventRelabel_tags_agree e cfgs e' cfgs' : EventRelabel e cfgs = Ret (e', cfgs') → tags_agree e'.
Proof.
  unfold EventRelabel, tags_agree. intros (got & _ & [= <- _])%go_bind_Ret. rsimp.
  set (ls := map _ (default [] got)). split_and!; [done| |].
  - intros k v Hk%newBuilder_elem. apply list_elem_of_fmap.
    by exists (Lbl.mkLabel k v).
  - intros t (l & -> & Hl)%list_elem_of_fmap. exists (Lbl.Name l), (Lbl.Value l).
    split; [done|]. clearbody ls. clear -Hl.
    induction ls as [|l' ls IH] using rev_ind; [set_solver|].
    rewrite newBuilder_snoc.
    destruct (decide (Lbl.Name l' = Lbl.Name l)) as [->|Hne]; [by rewrite lookup_insert_eq|].
    rewrite lookup_insert_ne by done. set_solver.
Qed.

(** After relabelling, the three forms of the tags agree. *)
Theorem EventRelabel_consistent e cfgs e' cfgs' :
  EventRelabel e cfgs = Ret (e', cfgs') → tags_agree e'.
Proof. apply EventRelabel_tags_agree. Qed.

(** The configurations are shared between evaluations and [EventRelabel]
    writes defaults into them; running it again with the configurations it
    left behind gives the same event and the same configurations. *)
Theorem EventRelabel_stable e cfgs e' cfgs' :
  EventRelabel e cfgs = Ret (e', cfgs') → EventRelabel e cfgs' = Ret (e', cfgs').
Proof.
  unfold EventRelabel. intros (got & Hgot & [= <- <-])%go_bind_Ret.
  rewrite map_map. rewrite (map_ext _ _ default_config_idemp). by rewrite Hgot.
Qed.

(** A configuration that drops the label set does not drop the event: it
    leaves it without tags. *)
Theorem EventRelabel_dropped e cfgs :
  relabel_all (Some (map event_label (Event.TagsJSON e))) (map default_config cfgs) = Ret None →
  ∃ e' cfgs', EventRelabel e cfgs = Ret (e', cfgs') ∧
    Event.Tags e' = "" ∧ Event.TagsJSON e' = [] ∧ Event.TagsMap e' = ∅ ∧
    Event.Hash e' = Event.Hash e.
Proof. intros Hd. unfold EventRelabel. rewrite Hd. eexists _, _. split; [reflexivity|]. by rsimp. Qed.
End properties.

(** Relabelling does not depend on the order the label map is visited in. *)
Theorem relabel_order_independent (G1 G2 : GoRange) `{RegexpSub, Md5, LabelNames, UnicodeCase}
    lset cfg : relabel (H := G1) lset cfg = relabel (H := G2) lset cfg.
Proof.
  unfold relabel, handleReplace, handleDropIfEqual.
  rewrite !(labels_canonical G1 G2). repeat case_match; rewrite ?(labels_canonical G1 G2); done.
Qed.
