(* ===== verification/Workflow.v ===== *)
(** * The data model of event pipelines

    The Go structs of [models/workflow.go], [models/event_pipeline.go] and
    [models/event_pipeline_execution.go], in the style of [Models], and the
    operations of [EventPipeline].  A channel is identified by a number; the
    timing fields of a node result are left out. *)

From Stdlib Require Import QArith_base.
From S2P Require Import Prelude GoStrings Json Models RuleModels.
Open Scope string_scope.
Open Scope Z_scope.

Definition ExecutionStatusSuccess := "success".
Definition ExecutionStatusFailed := "failed".
Definition TriggerModeEvent := "event".
Definition UseCaseEventPipeline := "event_pipeline".

(** [WorkflowNode] (models/workflow.go).  *)
Module Node.
Record WorkflowNode := mkNode {
  ID : string;
  Name : string;
  Type_ : string;
  Position : list float64;
  Config : iface;
  Disabled : bool;
  ContinueOnFail : bool;
  RetryOnFail : bool;
  MaxRetries : Z;
  RetryInterval : Z
}.
#[global] Instance WorkflowNode_eta : Settable WorkflowNode := λ r,
  mkNode (ID r) (Name r) (Type_ r) (Position r) (Config r) (Disabled r) (ContinueOnFail r)
    (RetryOnFail r) (MaxRetries r) (RetryInterval r).
Definition zero : WorkflowNode :=
  mkNode "" "" "" [] INil false false false 0 0.
End Node.
Notation WorkflowNode := Node.WorkflowNode.

(** [ConnectionTarget] (models/workflow.go).  *)
Module ConnTarget.
Record ConnectionTarget := mkConnTarget {
  Node : string;
  Type_ : string;
  Index : Z
}.
#[global] Instance ConnectionTarget_eta : Settable ConnectionTarget := λ r,
  mkConnTarget (Node r) (Type_ r) (Index r).
Definition zero : ConnectionTarget :=
  mkConnTarget "" "" 0.
End ConnTarget.
Notation ConnectionTarget := ConnTarget.ConnectionTarget.

(** [NodeConnections] (models/workflow.go).  *)
Module NodeConn.
Record NodeConnections := mkNodeConn {
  Main : list (list ConnectionTarget)
}.
#[global] Instance NodeConnections_eta : Settable NodeConnections := λ r,
  mkNodeConn (Main r).
Definition zero : NodeConnections :=
  mkNodeConn [].
End NodeConn.
Notation NodeConnections := NodeConn.NodeConnections.

(** [EnvVariable] (models/workflow.go).  *)
Module EnvVar.
Record EnvVariable := mkEnvVar {
  Key : string;
  Value : string;
  Description : string;
  Secret : bool;
  Required : bool
}.
#[global] Instance EnvVariable_eta : Settable EnvVariable := λ r,
  mkEnvVar (Key r) (Value r) (Description r) (Secret r) (Required r).
Definition zero : EnvVariable :=
  mkEnvVar "" "" "" false false.
End EnvVar.
Notation EnvVariable := EnvVar.EnvVariable.

(** [WorkflowContext] (models/workflow.go).  *)
Module WfCtx.
Record WorkflowContext := mkWfCtx {
  Event : option AlertCurEvent;
  Env : gmap string string;
  Vars : gmap string iface;
  Metadata : gmap string string;
  Output : gmap string iface;
  Stream : bool;
  StreamChan : option nat
}.
#[global] Instance WorkflowContext_eta : Settable WorkflowContext := λ r,
  mkWfCtx (Event r) (Env r) (Vars r) (Metadata r) (Output r) (Stream r) (StreamChan r).
Definition zero : WorkflowContext :=
  mkWfCtx None ∅ ∅ ∅ ∅ false None.
End WfCtx.
Notation WorkflowContext := WfCtx.WorkflowContext.

(** [NodeExecutionResult] (models/workflow.go).  *)
Module NodeRes.
Record NodeExecutionResult := mkNodeRes {
  NodeID : string;
  NodeName : string;
  NodeType : string;
  Status : string;
  Message : string;
  Error : string;
  BranchIndex : option Z
}.
#[global] Instance NodeExecutionResult_eta : Settable NodeExecutionResult := λ r,
  mkNodeRes (NodeID r) (NodeName r) (NodeType r) (Status r) (Message r) (Error r)
    (BranchIndex r).
Definition zero : NodeExecutionResult :=
  mkNodeRes "" "" "" "" "" "" None.
End NodeRes.
Notation NodeExecutionResult := NodeRes.NodeExecutionResult.

(** [WorkflowResult] (models/workflow.go).  *)
Module WfResult.
Record WorkflowResult := mkWfResult {
  Event : option AlertCurEvent;
  Status : string;
  Message : string;
  NodeResults : list NodeExecutionResult;
  ErrorNode : string;
  Stream : bool;
  StreamChan : option nat
}.
#[global] Instance WorkflowResult_eta : Settable WorkflowResult := λ r,
  mkWfResult (Event r) (Status r) (Message r) (NodeResults r) (ErrorNode r) (Stream r)
    (StreamChan r).
Definition zero : WorkflowResult :=
  mkWfResult None "" "" [] "" false None.
End WfResult.
Notation WorkflowResult := WfResult.WorkflowResult.

(** [WorkflowTriggerContext] (models/workflow.go).  *)
Module TriggerCtx.
Record WorkflowTriggerContext := mkTriggerCtx {
  Mode : string;
  TriggerBy : string;
  RequestID : string;
  EnvOverrides : gmap string string;
  Stream : bool;
  CronJobID : string;
  CronExpr : string;
  ScheduledAt : Z
}.
#[global] Instance WorkflowTriggerContext_eta : Settable WorkflowTriggerContext := λ r,
  mkTriggerCtx (Mode r) (TriggerBy r) (RequestID r) (EnvOverrides r) (Stream r) (CronJobID r)
    (CronExpr r) (ScheduledAt r).
Definition zero : WorkflowTriggerContext :=
  mkTriggerCtx "" "" "" ∅ false "" "" 0.
End TriggerCtx.
Notation WorkflowTriggerContext := TriggerCtx.WorkflowTriggerContext.

(** [ProcessorConfig] (models/event_pipeline.go).  *)
Module ProcConf.
Record ProcessorConfig := mkProcConf {
  Typ : string;
  Config : iface
}.
#[global] Instance ProcessorConfig_eta : Settable ProcessorConfig := λ r,
  mkProcConf (Typ r) (Config r).
Definition zero : ProcessorConfig :=
  mkProcConf "" INil.
End ProcConf.
Notation ProcessorConfig := ProcConf.ProcessorConfig.

(** [EventPipeline] (models/event_pipeline.go).  *)
Module Pipe.
Record EventPipeline := mkPipe {
  ID : Z;
  Name : string;
  Typ : string;
  UseCase : string;
  TriggerMode : string;
  Disabled : bool;
  TeamIds : list Z;
  TeamNames : list string;
  Description : string;
  FilterEnable : bool;
  LabelFilters : list TagFilter;
  AttrFilters : list TagFilter;
  ProcessorConfigs : list ProcessorConfig;
  Nodes : list WorkflowNode;
  Connections : gmap string NodeConnections;
  EnvVariables : list EnvVariable;
  CreateAt : Z;
  CreateBy : string;
  UpdateAt : Z;
  UpdateBy : string
}.
#[global] Instance EventPipeline_eta : Settable EventPipeline := λ r,
  mkPipe (ID r) (Name r) (Typ r) (UseCase r) (TriggerMode r) (Disabled r) (TeamIds r)
    (TeamNames r) (Description r) (FilterEnable r) (LabelFilters r) (AttrFilters r)
    (ProcessorConfigs r) (Nodes r) (Connections r) (EnvVariables r) (CreateAt r) (CreateBy r)
    (UpdateAt r) (UpdateBy r).
Definition zero : EventPipeline :=
  mkPipe 0 "" "" "" "" false [] [] "" false [] [] [] [] ∅ [] 0 "" 0 "".
End Pipe.
Notation EventPipeline := Pipe.EventPipeline.

(** [EventPipelineExecution] (models/event_pipeline_execution.go).  *)
Module Execution.
Record EventPipelineExecution := mkExecution {
  ID : string;
  PipelineID : Z;
  PipelineName : string;
  EventID : Z;
  Mode : string;
  Status : string;
  NodeResults : string;
  ErrorMessage : string;
  ErrorNode : string;
  CreatedAt : Z;
  FinishedAt : Z;
  DurationMs : Z;
  TriggerBy : string;
  EnvSnapshot : string
}.
#[global] Instance EventPipelineExecution_eta : Settable EventPipelineExecution := λ r,
  mkExecution (ID r) (PipelineID r) (PipelineName r) (EventID r) (Mode r) (Status r)
    (NodeResults r) (ErrorMessage r) (ErrorNode r) (CreatedAt r) (FinishedAt r) (DurationMs r)
    (TriggerBy r) (EnvSnapshot r).
Definition zero : EventPipelineExecution :=
  mkExecution "" 0 "" 0 "" "" "" "" "" 0 0 0 "" "".
End Execution.
Notation EventPipelineExecution := Execution.EventPipelineExecution.

(** ** Operations of a pipeline *)

Definition EventPipeline_Verify (e : EventPipeline) : option error :=
  if String.eqb (Pipe.Name e) "" then Some "name cannot be empty"
  else if (length (Pipe.TeamIds e) =? 0)%nat then Some "team_ids cannot be empty"
  else None.

(** [Update] up to the update of the row. *)
Definition EventPipeline_Update (now : Z) (e ref : EventPipeline) : result EventPipeline :=
  let ref := ref <| Pipe.ID := Pipe.ID e |> <| Pipe.CreateAt := Pipe.CreateAt e |>
                 <| Pipe.CreateBy := Pipe.CreateBy e |> <| Pipe.UpdateAt := now |> in
  match EventPipeline_Verify ref with
  | Some err => Err err
  | None => Ok ref
  end.

(** [UserGroupIdAndNameMap] reads the database. *)
Definition FillTeamNames (UserGroupIdAndNameMap : list Z → result (gmap Z string))
    (e : EventPipeline) : EventPipeline * option error :=
  let e := e <| Pipe.TeamNames := [] |> in
  if (length (Pipe.TeamIds e) =? 0)%nat then (e, None)
  else match UserGroupIdAndNameMap (Pipe.TeamIds e) with
       | Err err => (e, Some err)
       | Ok teamMap =>
           (e <| Pipe.TeamNames := omap (λ tid, teamMap !! tid) (Pipe.TeamIds e) |>, None)
       end.

(** [nodes[i]] of a pipeline in the old format. *)
Definition legacy_node (i : nat) (pc : ProcessorConfig) : WorkflowNode :=
  Node.zero <| Node.ID := "node_" +:+ itoa (Z.of_nat i) |> <| Node.Name := ProcConf.Typ pc |>
            <| Node.Type_ := ProcConf.Typ pc |> <| Node.Config := ProcConf.Config pc |>.

Definition GetWorkflowNodes (e : EventPipeline) : list WorkflowNode :=
  if (0 <? length (Pipe.Nodes e))%nat then Pipe.Nodes e
  else imap legacy_node (Pipe.ProcessorConfigs e).

(** The connections of [nodes] in a line. *)
Fixpoint linear_connections (conns : gmap string NodeConnections) (nodes : list WorkflowNode)
  : gmap string NodeConnections :=
  match nodes with
  | n :: ((n' :: _) as rest) =>
      linear_connections
        (<[Node.ID n := NodeConn.mkNodeConn [[ConnTarget.mkConnTarget (Node.ID n') "main" 0]]]> conns)
        rest
  | _ => conns
  end.

Definition GetWorkflowConnections (e : EventPipeline) : gmap string NodeConnections :=
  if decide (Pipe.Connections e = ∅) then linear_connections ∅ (GetWorkflowNodes e)
  else Pipe.Connections e.

Definition FillWorkflowFields (e : EventPipeline) : EventPipeline :=
  if (length (Pipe.Nodes e) =? 0)%nat && (0 <? length (Pipe.ProcessorConfigs e))%nat then
    let e := e <| Pipe.Nodes := GetWorkflowNodes e |> in
    e <| Pipe.Connections := GetWorkflowConnections e |>
  else e.

Definition GetEnvMap (e : EventPipeline) : gmap string string :=
  foldl (λ m v, <[EnvVar.Key v := EnvVar.Value v]> m) ∅ (Pipe.EnvVariables e).

Definition GetSecretKeys (e : EventPipeline) : gset string :=
  foldl (λ s v, if EnvVar.Secret v then {[EnvVar.Key v]} ∪ s else s) ∅ (Pipe.EnvVariables e).

(** [for k, v := range overrides { env[k] = v }]: later writes to distinct
    keys commute, so the order of the iteration does not matter. *)
Definition override_env (env overrides : gmap string string) : gmap string string :=
  overrides ∪ env.

Definition ValidateEnvVariables (e : EventPipeline) (overrides : gmap string string) : option error :=
  let merged := override_env (GetEnvMap e) overrides in
  match list_find (λ v, (EnvVar.Required v && String.eqb (default "" (merged !! EnvVar.Key v)) "") = true)
          (Pipe.EnvVariables e) with
  | Some (_, v) => Some ("required env variable " +:+ EnvVar.Key v +:+ " is missing")
  | None => None
  end.

Definition SanitizedEnv (ctx : WorkflowContext) (secretKeys : gset string) : gmap string string :=
  map_imap (λ k v, Some (if decide (k ∈ secretKeys) then "******" else v)) (WfCtx.Env ctx).

(** ** Lemmas *)

Lemma elem_of_GetSecretKeys e k :
  k ∈ GetSecretKeys e ↔ ∃ v, v ∈ Pipe.EnvVariables e ∧ EnvVar.Secret v = true ∧ EnvVar.Key v = k.
Proof.
  unfold GetSecretKeys. induction (Pipe.EnvVariables e) as [|v l IH] using rev_ind; [set_solver|].
  rewrite foldl_app. simpl. setoid_rewrite elem_of_app. setoid_rewrite list_elem_of_singleton.
  destruct (EnvVar.Secret v) eqn:Ev; rewrite ?elem_of_union, ?elem_of_singleton, IH;
    naive_solver congruence.
Qed.

Lemma SanitizedEnv_lookup ctx secrets k :
  SanitizedEnv ctx secrets !! k
  = (λ v, if decide (k ∈ secrets) then "******" else v) <$> WfCtx.Env ctx !! k.
Proof. unfold SanitizedEnv. rewrite map_lookup_imap. by destruct (WfCtx.Env ctx !! k). Qed.
