(* ===== verification/Engine.v ===== *)
(** * The workflow engine: [alert/pipeline/engine/engine.go]

    A pipeline is executed as a directed graph by Kahn's algorithm, one node
    at a time, each node with its retries.  Everything a processor may read or
    change outside the workflow context (clocks, services, its own state) is a
    [World] that the execution threads through.  A processor receives the
    context by pointer: it returns the context as it left it, and beside it
    what its [Process] method returned. *)

From S2P Require Import Prelude GoStrings Json Models RuleModels Workflow.
Open Scope string_scope.
Open Scope Z_scope.

(** The context pointer [Process] returns: nil, the pointer it was given, or
    a pointer to another context. *)
Inductive returned_ctx :=
| NilCtx
| SameCtx
| NewCtx (c : WorkflowContext).

Module NodeOut.
Record NodeOutput := mkNodeOutput {
  WfCtx : returned_ctx;
  Message : string;
  Terminate : bool;
  BranchIndex : option Z;
  Stream : bool;
  StreamChan : option nat
}.
#[global] Instance NodeOutput_eta : Settable NodeOutput := λ r,
  mkNodeOutput (WfCtx r) (Message r) (Terminate r) (BranchIndex r) (Stream r) (StreamChan r).
Definition zero : NodeOutput := mkNodeOutput NilCtx "" false None false None.
End NodeOut.
Notation NodeOutput := NodeOut.NodeOutput.

(** The interfaces [Processor] and [BranchProcessor]. *)
Inductive Processor (World : Type) :=
| PlainProcessor (Process : World → WorkflowContext →
    go (World * WorkflowContext * result (returned_ctx * string)))
| BranchProcessor (ProcessWithBranch : World → WorkflowContext →
    go (World * WorkflowContext * result (option NodeOutput))).
Arguments PlainProcessor {World} Process.
Arguments BranchProcessor {World} ProcessWithBranch.

(** The context a returned pointer points to, when the caller's context is
    now [ctx]. *)
Definition deref_ctx (ctx : WorkflowContext) (r : returned_ctx) : option WorkflowContext :=
  match r with NilCtx => None | SameCtx => Some ctx | NewCtx c => Some c end.

(** ** The registry *)

(** An [Init] function can panic. *)
Definition processor_register (World : Type) :=
  gmap string (iface → go (result (Processor World))).

Definition RegisterProcessor {World} (reg : processor_register World) (typ : string)
    (init : iface → go (result (Processor World))) : processor_register World :=
  match reg !! typ with Some _ => reg | None => <[typ := init]> reg end.

Definition GetProcessorByType {World} (reg : processor_register World) (typ : string)
    (settings : iface) : go (result (Processor World)) :=
  let typ := trim_space typ in
  match reg !! typ with
  | None => Ret (Err ("processor type " +:+ typ +:+ " not found"))
  | Some fn => fn settings
  end.

(** The world of an execution: the registered processors, the clock, what a
    sleep does, the milliseconds between two states of it, and fresh
    identifiers. *)
Class Runtime (World : Type) := {
  processorRegister : processor_register World;
  world_now : World → Z;
  world_sleep : Z → World → World;
  world_millis : World → World → Z;
  world_uuid : World → string
}.

Section engine.
Context {World : Type} `{RT : Runtime World, GR : GoRange}.
Implicit Types (w : World) (ctx : WorkflowContext).

(** ** One node *)

Definition sets_output (ctx : WorkflowContext) (r : returned_ctx) (msg : string) : option NodeOutput :=
  match deref_ctx ctx r with
  | Some c =>
      if WfCtx.Stream c && bool_decide (is_Some (WfCtx.StreamChan c))
      then Some (NodeOut.zero <| NodeOut.WfCtx := r |> <| NodeOut.Message := msg |>
                   <| NodeOut.Stream := true |> <| NodeOut.StreamChan := WfCtx.StreamChan c |>)
      else None
  | None => None
  end.

(** The retry loop, entered with [left] retries left. *)
Fixpoint attempts (left : nat) (node : WorkflowNode) (p : Processor World) (w : World)
    (ctx : WorkflowContext) (res : NodeExecutionResult)
  : go (World * WorkflowContext * NodeExecutionResult * option NodeOutput) :=
  match p with
  | BranchProcessor ProcessWithBranch =>
      '(w, ctx, r) ← ProcessWithBranch w ctx;
      match r with
      | Err err =>
          match left with
          | S left' => attempts left' node p (world_sleep (Node.RetryInterval node) w) ctx res
          | O => Ret (w, ctx, res <| NodeRes.Status := "failed" |> <| NodeRes.Error := err |>, None)
          end
      | Ok None => Ret (w, ctx, res <| NodeRes.Status := "success" |>, None)
      | Ok (Some output) =>
          let res := res <| NodeRes.Status := "success" |>
                         <| NodeRes.Message := NodeOut.Message output |>
                         <| NodeRes.BranchIndex := NodeOut.BranchIndex output |> in
          let res := if NodeOut.Terminate output
                     then res <| NodeRes.Status := "terminated" |> else res in
          Ret (w, ctx, res, Some output)
      end
  | PlainProcessor Process =>
      '(w, ctx, r) ← Process w ctx;
      match r with
      | Err err =>
          match left with
          | S left' => attempts left' node p (world_sleep (Node.RetryInterval node) w) ctx res
          | O => Ret (w, ctx, res <| NodeRes.Status := "failed" |> <| NodeRes.Error := err |>, None)
          end
      | Ok (newWfCtx, msg) =>
          let res := res <| NodeRes.Status := "success" |> <| NodeRes.Message := msg |> in
          let res := if bool_decide (is_Some (deref_ctx ctx newWfCtx ≫= WfCtx.Event))
                     then res else res <| NodeRes.Status := "terminated" |> in
          Ret (w, ctx, res, sets_output ctx newWfCtx msg)
      end
  end.

Definition executeNode (node : WorkflowNode) (w : World) (ctx : WorkflowContext)
  : go (World * WorkflowContext * NodeExecutionResult * option NodeOutput) :=
  let res := NodeRes.zero <| NodeRes.NodeID := Node.ID node |>
               <| NodeRes.NodeName := Node.Name node |> <| NodeRes.NodeType := Node.Type_ node |> in
  if Node.Disabled node
  then Ret (w, ctx, res <| NodeRes.Status := "skipped" |>
                        <| NodeRes.Message := "node is disabled" |>, None)
  else
  got ← GetProcessorByType processorRegister (Node.Type_ node) (Node.Config node);
  match got with
  | Err err =>
      Ret (w, ctx, res <| NodeRes.Status := "failed" |>
                       <| NodeRes.Error := "failed to get processor: " +:+ err |>, None)
  | Ok processor =>
      let maxRetries := if Node.RetryOnFail node then Node.MaxRetries node else 0 in
      if 0 <=? maxRetries then attempts (Z.to_nat maxRetries) node processor w ctx res
      else Ret (w, ctx, res, None)
  end.

(** ** The graph *)

Definition shouldFollowBranch (nodeID : string) (outputIndex : Z)
    (branchResults : gmap string (option Z)) : bool :=
  match branchResults !! nodeID with
  | None => outputIndex =? 0
  | Some None => true
  | Some (Some branchIndex) => outputIndex =? branchIndex
  end.

Definition edge_targets (c : NodeConnections) : list string :=
  map ConnTarget.Node (concat (NodeConn.Main c)).

Definition bump (k : Z) (deg : gmap string Z) (t : string) : gmap string Z :=
  <[t := default 0 (deg !! t) + k]> deg.

Definition in_degrees (nodeMap : gmap string WorkflowNode) (connections : gmap string NodeConnections)
  : gmap string Z :=
  foldl (bump 1) ((λ _, 0) <$> nodeMap)
    (concat (map (λ kc, edge_targets (snd kc)) (go_range connections))).

(** The variables of the loop. *)
Record dag := mkDag {
  d_queue : list string;
  d_degree : gmap string Z;
  d_executed : gset string;
  d_branch : gmap string (option Z);
  d_world : World;
  d_ctx : WorkflowContext;
  d_result : WorkflowResult
}.
#[global] Instance dag_eta : Settable dag := λ r,
  mkDag (d_queue r) (d_degree r) (d_executed r) (d_branch r) (d_world r) (d_ctx r) (d_result r).

(** The successors: decrement, and enqueue at zero. *)
Definition release (qd : list string * gmap string Z) (t : string) : list string * gmap string Z :=
  let deg := bump (-1) (snd qd) t in
  (if default 0 (deg !! t) =? 0 then (fst qd ++ [t])%list else fst qd, deg).

Definition followed_targets (nodeID : string) (branchResults : gmap string (option Z))
    (connections : gmap string NodeConnections) : list string :=
  match connections !! nodeID with
  | None => []
  | Some c =>
      concat (imap (λ outputIndex targets,
        if shouldFollowBranch nodeID (Z.of_nat outputIndex) branchResults
        then map ConnTarget.Node targets else []) (NodeConn.Main c))
  end.

(** The changes to the result of the workflow after a node. *)
Definition is_streaming (nodeOutput : option NodeOutput) : bool :=
  match nodeOutput with
  | Some o => NodeOut.Stream o && bool_decide (is_Some (NodeOut.StreamChan o))
  | None => false
  end.

Definition append_result (result : WorkflowResult) (nodeResult : NodeExecutionResult) : WorkflowResult :=
  result <| WfResult.NodeResults := (WfResult.NodeResults result ++ [nodeResult])%list |>.

Definition streaming_result (result : WorkflowResult) (node : WorkflowNode) (ctx : WorkflowContext)
    (nodeResult : NodeExecutionResult) (nodeOutput : option NodeOutput) : WorkflowResult :=
  let nodeResult := nodeResult <| NodeRes.Status := "streaming" |>
                               <| NodeRes.Message := "streaming in progress" |> in
  (append_result result nodeResult)
    <| WfResult.Stream := true |>
    <| WfResult.StreamChan := nodeOutput ≫= NodeOut.StreamChan |>
    <| WfResult.Event := WfCtx.Event ctx |>
    <| WfResult.Status := "streaming" |>
    <| WfResult.Message := "streaming output from node: " +:+ Node.Name node |>.

Definition failed_result (result : WorkflowResult) (nodeID : string) (node : WorkflowNode)
    (nodeResult : NodeExecutionResult) : WorkflowResult :=
  result <| WfResult.Status := ExecutionStatusFailed |> <| WfResult.ErrorNode := nodeID |>
         <| WfResult.Message := "node " +:+ Node.Name node +:+ " failed: " +:+ NodeRes.Error nodeResult |>.

Definition terminated_result (result : WorkflowResult) (node : WorkflowNode) : WorkflowResult :=
  result <| WfResult.Message := "workflow terminated at node " +:+ Node.Name node |>.

Definition save_branch (nodeID : string) (nodeResult : NodeExecutionResult)
    (branchResults : gmap string (option Z)) : gmap string (option Z) :=
  match NodeRes.BranchIndex nodeResult with
  | Some b => <[nodeID := Some b]> branchResults
  | None => branchResults
  end.

(** One iteration on the node [nodeID], already taken from the queue: the
    variables after it, and whether the function returned. *)
Definition dag_visit (nodeMap : gmap string WorkflowNode)
    (connections : gmap string NodeConnections) (nodeID : string) (d : dag) : go (dag * bool) :=
  if decide (nodeID ∈ d_executed d) then Ret (d, false)
  else match nodeMap !! nodeID with
  | None => Ret (d, false)
  | Some node =>
      '(w, ctx, nodeResult, nodeOutput) ← executeNode node (d_world d) (d_ctx d);
      let d := d <| d_world := w |> <| d_ctx := ctx |> in
      if is_streaming nodeOutput then
        Ret (d <| d_result := streaming_result (d_result d) node ctx nodeResult nodeOutput |>, true)
      else
        let d := d <| d_result := append_result (d_result d) nodeResult |>
                   <| d_executed := {[nodeID]} ∪ d_executed d |>
                   <| d_branch := save_branch nodeID nodeResult (d_branch d) |> in
        if String.eqb (NodeRes.Status nodeResult) "failed" && negb (Node.ContinueOnFail node) then
          Ret (d <| d_result := failed_result (d_result d) nodeID node nodeResult |>, true)
        else if String.eqb (NodeRes.Status nodeResult) "terminated" then
          Ret (d <| d_result := terminated_result (d_result d) node |>, true)
        else
          let '(q, deg) := foldl release (d_queue d, d_degree d)
                             (followed_targets nodeID (d_branch d) connections) in
          Ret (d <| d_queue := q |> <| d_degree := deg |>, false)
  end.

(** The loop; [None] when the fuel runs out. *)
Fixpoint dag_loop (fuel : nat) (nodeMap : gmap string WorkflowNode)
    (connections : gmap string NodeConnections) (d : dag) : go (option dag) :=
  match fuel with
  | O => Ret None
  | S fuel' =>
      match d_queue d with
      | [] => Ret (Some d)
      | nodeID :: queue =>
          '(d, stop) ← dag_visit nodeMap connections nodeID (d <| d_queue := queue |>);
          if stop : bool then Ret (Some d) else dag_loop fuel' nodeMap connections d
      end
  end.

(** The variables before the loop. *)
Definition dag_init (nodeMap : gmap string WorkflowNode)
    (connections : gmap string NodeConnections) (w : World) (ctx : WorkflowContext) : dag :=
  let result := WfResult.zero <| WfResult.Status := ExecutionStatusSuccess |>
                  <| WfResult.Stream := WfCtx.Stream ctx |> in
  let inDegree := in_degrees nodeMap connections in
  let queue := map fst (filter (λ nd, snd nd = 0) (go_range inDegree)) in
  mkDag queue inDegree ∅ ∅ w ctx result.

Definition executeDAG (nodeMap : gmap string WorkflowNode)
    (connections : gmap string NodeConnections) (w : World) (ctx : WorkflowContext)
  : go (option dag) :=
  let d := dag_init nodeMap connections w ctx in
  if (length (d_queue d) =? 0)%nat && (0 <? size nodeMap)%nat then
    Ret (Some (d <| d_result := (d_result d) <| WfResult.Status := ExecutionStatusFailed |>
                 <| WfResult.Message := "workflow has circular dependency" |> |>))
  else dag_loop (S (size (d_degree d))) nodeMap connections d.

(** ** A whole execution *)

(** [Execute] gives a node one retry, one second apart, unless configured. *)
Definition default_retries (n : WorkflowNode) : WorkflowNode :=
  let n := if Node.RetryInterval n =? 0 then n <| Node.RetryInterval := 1 |> else n in
  if Node.MaxRetries n =? 0 then n <| Node.MaxRetries := 1 |> else n.

Definition node_map (nodes : list WorkflowNode) : gmap string WorkflowNode :=
  foldl (λ m n, <[Node.ID n := default_retries n]> m) ∅ nodes.

Definition initWorkflowContext (pipeline : EventPipeline) (event : option AlertCurEvent)
    (triggerCtx : option WorkflowTriggerContext) (now : Z) : WorkflowContext :=
  let env := match triggerCtx with
             | Some t => override_env (GetEnvMap pipeline) (TriggerCtx.EnvOverrides t)
             | None => GetEnvMap pipeline
             end in
  let metadata : gmap string string :=
    <["pipeline_id" := itoa (Pipe.ID pipeline)]> {["start_time" := itoa now]} in
  let metadata := match triggerCtx with
                  | Some t => <["trigger_by" := TriggerCtx.TriggerBy t]>
                                (<["trigger_mode" := TriggerCtx.Mode t]>
                                   (<["request_id" := TriggerCtx.RequestID t]> metadata))
                  | None => metadata
                  end in
  WfCtx.zero <| WfCtx.Event := event |> <| WfCtx.Env := env |> <| WfCtx.Metadata := metadata |>
             <| WfCtx.Stream := match triggerCtx with Some t => TriggerCtx.Stream t | None => false end |>.

(** The row [saveExecutionRecord] inserts.  A marshalling error is logged and
    leaves its column empty. *)
Definition saveExecutionRecord `{!Json (list NodeExecutionResult), !Json (gmap string string)}
    (pipeline : EventPipeline) (wfCtx : WorkflowContext) (result : WorkflowResult)
    (triggerCtx : WorkflowTriggerContext) (startTime now duration : Z) (uuid : string)
  : EventPipelineExecution :=
  let executionID := if String.eqb (TriggerCtx.RequestID triggerCtx) "" then uuid
                     else TriggerCtx.RequestID triggerCtx in
  let execution := Execution.zero
    <| Execution.ID := executionID |>
    <| Execution.PipelineID := Pipe.ID pipeline |>
    <| Execution.PipelineName := Pipe.Name pipeline |>
    <| Execution.Mode := TriggerCtx.Mode triggerCtx |>
    <| Execution.Status := WfResult.Status result |>
    <| Execution.ErrorMessage := WfResult.Message result |>
    <| Execution.ErrorNode := WfResult.ErrorNode result |>
    <| Execution.CreatedAt := startTime |>
    <| Execution.FinishedAt := now |>
    <| Execution.DurationMs := duration |>
    <| Execution.TriggerBy := TriggerCtx.TriggerBy triggerCtx |> in
  let execution := match WfCtx.Event wfCtx with
                   | Some e => execution <| Execution.EventID := Event.Id e |>
                   | None => execution
                   end in
  let execution := match json_marshal (WfResult.NodeResults result) with
                   | Ok s => execution <| Execution.NodeResults := s |>
                   | Err _ => execution
                   end in
  match json_marshal (SanitizedEnv wfCtx (GetSecretKeys pipeline)) with
  | Ok s => execution <| Execution.EnvSnapshot := s |>
  | Err _ => execution
  end.

(** What [Execute] returns and writes: the world, the event, the result, and
    the execution record it saves.  The case without a result is not reached,
    by [executeDAG_terminates]. *)
Definition Execute `{!Json (list NodeExecutionResult), !Json (gmap string string)}
    (pipeline : EventPipeline) (event : option AlertCurEvent)
    (triggerCtx : option WorkflowTriggerContext) (w : World)
  : go (World * option AlertCurEvent * WorkflowResult * option EventPipelineExecution) :=
  let startTime := world_now w in
  let wfCtx := initWorkflowContext pipeline event triggerCtx startTime in
  let nodes := GetWorkflowNodes pipeline in
  let connections := GetWorkflowConnections pipeline in
  if (length nodes =? 0)%nat then
    Ret (w, event,
      WfResult.zero <| WfResult.Event := event |> <| WfResult.Status := ExecutionStatusSuccess |>
                    <| WfResult.Message := "no nodes to execute" |>, None)
  else
    r ← executeDAG (node_map nodes) connections w wfCtx;
    match r with
    | None => Panic
    | Some d =>
        let result := (d_result d) <| WfResult.Event := WfCtx.Event (d_ctx d) |> in
        let record := match triggerCtx with
                      | Some t =>
                          if String.eqb (TriggerCtx.Mode t) "" then None
                          else Some (saveExecutionRecord pipeline (d_ctx d) result t startTime
                                       (world_now (d_world d)) (world_millis w (d_world d)) (world_uuid (d_world d)))
                      | None => None
                      end in
        Ret (d_world d, WfCtx.Event (d_ctx d), result, record)
    end.

(** ** Lemmas on the loop *)

Definition positive (deg : gmap string Z) : gmap string Z := filter (λ kd, 0 < kd.2) deg.

(** The measure of the loop: the queue and the nodes still to be released. *)
Definition dag_measure (d : dag) : nat := length (d_queue d) + size (positive (d_degree d)).

Lemma positive_bump deg t :
  (size (positive (bump (-1) deg t)) + (if (default 0 (bump (-1) deg t !! t) =? 0)%Z then 1 else 0)
   ≤ size (positive deg))%nat.
Proof.
  unfold bump, positive. rewrite lookup_insert_eq. simpl. set (v := default 0 (deg !! t) + -1).
  destruct (Z.ltb_spec 0 v) as [Hv|Hv].
  - rewrite map_filter_insert_True by (simpl; lia).
    destruct (Z.eqb_spec v 0) as [?|_]; [lia|].
    assert (is_Some (filter (λ kd : string * Z, 0 < kd.2) deg !! t)) as Hs.
    { destruct (deg !! t) as [x|] eqn:E; subst v; simpl in Hv; [|lia].
      exists x. apply map_lookup_filter_Some. simpl. split; [done|lia]. }
    rewrite map_size_insert_Some by done. lia.
  - rewrite map_filter_insert_False by (simpl; lia). rewrite map_filter_delete.
    destruct (Z.eqb_spec v 0) as [Hz|_].
    + assert (is_Some (filter (λ kd : string * Z, 0 < kd.2) deg !! t)) as Hs.
      { destruct (deg !! t) as [x|] eqn:E; subst v; simpl in *; [|lia].
        exists x. apply map_lookup_filter_Some. simpl. split; [done|lia]. }
      rewrite map_size_delete_Some by done. destruct Hs as [x Hx].
      assert (size (filter (λ kd : string * Z, 0 < kd.2) deg) ≠ 0%nat).
      { intros Hn%map_size_empty_inv. by rewrite Hn, lookup_empty in Hx. }
      lia.
    + rewrite map_size_delete. case_match; unfold id; lia.
Qed.

Lemma release_measure ts q deg q' deg' :
  foldl release (q, deg) ts = (q', deg') →
  (length q' + size (positive deg') ≤ length q + size (positive deg))%nat.
Proof.
  revert q deg. induction ts as [|t ts IH]; intros q deg; simpl.
  { by intros [= <- <-]. }
  unfold release at 2. simpl. intros H. apply IH in H.
  pose proof (positive_bump deg t). case_match; rewrite ?length_app in H; simpl in H; lia.
Qed.

Lemma dag_visit_measure nm conns n d d' stop :
  dag_visit nm conns n d = Ret (d', stop) → (dag_measure d' ≤ dag_measure d)%nat.
Proof.
  unfold dag_visit. case_decide; [by intros [= <- <-]|].
  destruct (nm !! n) as [node|]; [|by intros [= <- <-]].
  intros ([[[w ctx] nr] no] & _ & Hv)%go_bind_Ret. revert Hv. unfold dag_measure.
  case_match; [intros [= <- <-]; by rsimp|].
  case_match; [intros [= <- <-]; by rsimp|].
  case_match; [intros [= <- <-]; by rsimp|].
  destruct (foldl release _ _) as [q deg] eqn:Er. intros [= <- <-]. rsimp.
  by eapply release_measure.
Qed.

Lemma dag_loop_fuel nm conns fuel d :
  (dag_measure d < fuel)%nat → dag_loop fuel nm conns d ≠ Ret None.
Proof.
  revert d. induction fuel as [|fuel IH]; intros d Hm; [lia|]. simpl.
  destruct (d_queue d) as [|n q] eqn:Eq; [done|].
  destruct (dag_visit nm conns n (d <| d_queue := q |>)) as [[d' stop]|] eqn:Ev; simpl; [|done].
  destruct stop; [done|]. apply IH. apply dag_visit_measure in Ev.
  unfold dag_measure in *. rsimp. rewrite Eq in Hm. simpl in Hm. lia.
Qed.
(** *** What a visit does *)

Lemma attempts_NodeID left node p w ctx res w' ctx' nr no :
  attempts left node p w ctx res = Ret (w', ctx', nr, no) → NodeRes.NodeID nr = NodeRes.NodeID res.
Proof.
  revert w ctx. induction left as [|left IH]; intros w ctx; destruct p as [f|f]; simpl;
    intros ([[w1 ctx1] r] & _ & Hr)%go_bind_Ret; revert Hr;
    repeat case_match; intros; simplify_eq; rsimp; eauto.
Qed.

Lemma executeNode_NodeID node w ctx w' ctx' nr no :
  executeNode node w ctx = Ret (w', ctx', nr, no) → NodeRes.NodeID nr = Node.ID node.
Proof.
  unfold executeNode. case_match; [intros [= <- <- <- <-]; by rsimp|].
  intros ([p|err] & _ & Hx)%go_bind_Ret; [|by simplify_eq; rsimp].
  revert Hx. case_match; [intros Hx%attempts_NodeID | intros Hx]; simplify_eq; by rsimp.
Qed.

Definition node_ids (d : dag) : list string := map NodeRes.NodeID (WfResult.NodeResults (d_result d)).

(** A visit either skips the node, or runs it and appends its result; unless
    it ends the execution, it then releases targets of some of the node's
    outputs. *)
Lemma dag_visit_cases nm conns n d d' stop :
  dag_visit nm conns n d = Ret (d', stop) →
  d' = d ∧ stop = false ∨
  ∃ node, n ∉ d_executed d ∧ nm !! n = Some node ∧ node_ids d' = (node_ids d ++ [Node.ID node])%list ∧
    (d_branch d' = d_branch d ∨ ∃ b, d_branch d' = <[n := Some b]> (d_branch d)) ∧
    (stop = true ∨
     stop = false ∧ d_executed d' = {[n]} ∪ d_executed d ∧
     (d_queue d', d_degree d')
     = foldl release (d_queue d, d_degree d) (followed_targets n (d_branch d') conns)).
Proof.
  unfold dag_visit. case_decide as Hex; [intros [= <- <-]; by left|].
  destruct (nm !! n) as [node|] eqn:En; [|intros [= <- <-]; by left].
  intros ([[[w ctx] nr] no] & Hx%executeNode_NodeID & Hv)%go_bind_Ret. right. exists node.
  split_and!; [done..| | |]; revert Hv.
  - unfold node_ids, streaming_result, failed_result, terminated_result, append_result.
    repeat case_match; intros; simplify_eq; rsimp; rewrite map_app; simpl; rsimp; by rewrite Hx.
  - unfold save_branch. repeat case_match; intros; simplify_eq; rsimp; eauto.
  - case_match; [intros [= <- <-]; by left|]. case_match; [intros [= <- <-]; by left|].
    case_match; [intros [= <- <-]; by left|].
    destruct (foldl release _ _) as [q deg] eqn:Er. intros [= <- <-]. right. rsimp. done.
Qed.

(** *** Counting edges *)

Definition occ (t : string) (l : list string) : Z := Z.of_nat (length (filter (λ x, x = t) l)).

Lemma occ_app t l l' : occ t (l ++ l')%list = occ t l + occ t l'.
Proof. unfold occ. rewrite filter_app, length_app. lia. Qed.

Lemma occ_cons t x l : occ t (x :: l) = (if decide (x = t) then 1 else 0) + occ t l.
Proof. unfold occ. rewrite filter_cons. case_decide; simpl; lia. Qed.

Lemma occ_nonneg t l : 0 ≤ occ t l.
Proof. unfold occ. lia. Qed.

Lemma occ_pos t l : t ∈ l → 0 < occ t l.
Proof.
  intros Hin. unfold occ. assert (t ∈ filter (λ x, x = t) l) as Hf by (by apply list_elem_of_filter).
  destruct (filter _ l); [by apply not_elem_of_nil in Hf | simpl; lia].
Qed.

Lemma occ_notin t l : t ∉ l → occ t l = 0.
Proof.
  induction l as [|x l IH]; intros Hl; [done|]. rewrite occ_cons, IH by set_solver.
  rewrite decide_False; [done|]. intros ->. apply Hl. by left.
Qed.

Lemma bump_default k deg x t :
  default 0 (bump k deg x !! t) = default 0 (deg !! t) + if decide (x = t) then k else 0.
Proof.
  unfold bump. case_decide as Hx; [subst; by rewrite lookup_insert_eq|].
  rewrite lookup_insert_ne by done. lia.
Qed.

Lemma foldl_bump deg ts t :
  default 0 (foldl (bump 1) deg ts !! t) = default 0 (deg !! t) + occ t ts.
Proof.
  revert deg. induction ts as [|x ts IH]; intros deg; simpl; [unfold occ; simpl; lia|].
  rewrite IH, bump_default, occ_cons. case_decide; lia.
Qed.

Lemma release_spec ts q deg q' deg' :
  foldl release (q, deg) ts = (q', deg') →
  (∀ t, default 0 (deg' !! t) = default 0 (deg !! t) - occ t ts) ∧
  (∀ t, t ∈ q' → t ∈ q ∨ default 0 (deg' !! t) ≤ 0).
Proof.
  revert q deg. induction ts as [|x ts IH]; intros q deg; simpl.
  { intros [= <- <-]. split; [intros t; unfold occ; simpl; lia | auto]. }
  unfold release at 2. simpl. intros Hf. apply IH in Hf as [Hd Hq]. split.
  - intros t. rewrite Hd, bump_default, occ_cons. case_decide; lia.
  - intros t [Ht|Ht]%Hq; [|by right].
    destruct (Z.eqb_spec (default 0 (bump (-1) deg x !! x)) 0) as [Hz|]; [|by left].
    apply elem_of_app in Ht as [Ht| ->%list_elem_of_singleton]; [by left|].
    right. rewrite Hd. pose proof (occ_nonneg x ts). lia.
Qed.

(** The targets of the outputs of a node that its branch does not follow. *)
Definition unfollowed (n : string) (br : gmap string (option Z)) (c : NodeConnections) : list string :=
  concat (imap (λ i targets, if shouldFollowBranch n (Z.of_nat i) br then []
                             else map ConnTarget.Node targets) (NodeConn.Main c)).

Lemma occ_imap_split t (g : nat → bool) (outs : list (list ConnectionTarget)) :
  occ t (map ConnTarget.Node (concat outs)) =
  occ t (concat (imap (λ i ts, if g i then map ConnTarget.Node ts else []) outs)) +
  occ t (concat (imap (λ i ts, if g i then [] else map ConnTarget.Node ts) outs)).
Proof.
  revert g. induction outs as [|ts outs IH]; intros g; cbn [concat imap map]; [done|].
  rewrite map_app, !occ_app, (IH (g ∘ S)). unfold compose. destruct (g 0%nat); unfold occ; simpl; lia.
Qed.

Lemma occ_followed t n br conns c :
  conns !! n = Some c →
  occ t (edge_targets c) = occ t (followed_targets n br conns) + occ t (unfollowed n br c).
Proof. intros Hc. unfold followed_targets. rewrite Hc. apply occ_imap_split. Qed.

Lemma unfollowed_agree n br br' c : br' !! n = br !! n → unfollowed n br' c = unfollowed n br c.
Proof. intros Hb. unfold unfollowed, shouldFollowBranch. by rewrite Hb. Qed.

Lemma elem_of_unfollowed t n br c i targets :
  NodeConn.Main c !! i = Some targets → t ∈ map ConnTarget.Node targets →
  shouldFollowBranch n (Z.of_nat i) br = false → t ∈ unfollowed n br c.
Proof.
  intros Hi Ht Hf. apply elem_of_concat. exists (map ConnTarget.Node targets). split; [|done].
  apply (list_elem_of_lookup_2 _ i). rewrite list_lookup_imap, Hi. cbn. by rewrite Hf.
Qed.

(** The targets that are still held back: all those of the nodes not yet
    executed, and of the executed ones those not followed. *)
Definition held_by (ex : gset string) (br : gmap string (option Z)) (kc : string * NodeConnections) : list string :=
  if decide (kc.1 ∈ ex) then unfollowed kc.1 br kc.2 else edge_targets kc.2.
Definition held (conns : gmap string NodeConnections) (ex : gset string)
    (br : gmap string (option Z)) : list string :=
  concat (map (held_by ex br) (go_range conns)).

Lemma held_by_other ex br br' n kc :
  kc.1 ≠ n → (∀ k, k ≠ n → br' !! k = br !! k) → held_by ({[n]} ∪ ex) br' kc = held_by ex br kc.
Proof.
  intros Hne Hbr. unfold held_by. assert (kc.1 ∈ {[n]} ∪ ex ↔ kc.1 ∈ ex) as Hd by set_solver.
  destruct (decide (kc.1 ∈ ex)), (decide (kc.1 ∈ {[n]} ∪ ex)); try tauto. by apply unfollowed_agree, Hbr.
Qed.

Lemma held_list_other t ex br br' n l :
  n ∉ l.*1 → (∀ k, k ≠ n → br' !! k = br !! k) →
  occ t (concat (map (held_by ({[n]} ∪ ex) br') l)) = occ t (concat (map (held_by ex br) l)).
Proof.
  intros Hn Hbr. induction l as [|kc l IH]; [done|]. csimpl in *. apply not_elem_of_cons in Hn as [Hk Hn].
  rewrite !occ_app, IH, (held_by_other ex br br' n kc) by done. done.
Qed.

Lemma held_execute t n ex br br' conns :
  n ∉ ex → (∀ k, k ≠ n → br' !! k = br !! k) →
  occ t (held conns ({[n]} ∪ ex) br') = occ t (held conns ex br) - occ t (followed_targets n br' conns).
Proof.
  intros Hn Hbr. unfold held. destruct (conns !! n) as [c|] eqn:Ec.
  - pose proof (proj2 (elem_of_go_range _ _ _) Ec) as Hin. pose proof (NoDup_fst_go_range conns) as Hnd.
    apply list_elem_of_split in Hin as (l1 & l2 & Hl). rewrite Hl in *. csimpl in *.
    rewrite fmap_app in Hnd. apply NoDup_app in Hnd as (_ & Hd & Hnd). csimpl in *.
    apply NoDup_cons in Hnd as [Hn2 _].
    assert (n ∉ l1.*1) as Hn1 by (intros Hin; apply (Hd n Hin); left).
    rewrite !map_app, !concat_app, !occ_app. csimpl. rewrite !occ_app, !(held_list_other t ex br br' n) by done.
    unfold held_by at 2 5. cbn [fst snd]. rewrite decide_True by set_solver. rewrite (decide_False (P := n ∈ ex)) by done.
    rewrite (occ_followed t n br' conns c Ec). lia.
  - rewrite (held_list_other t ex br br' n); [|intros ([k c] & -> & Hin)%list_elem_of_fmap|done].
    + unfold followed_targets. rewrite Ec. unfold occ at 3. simpl. lia.
    + apply elem_of_go_range in Hin. cbn [fst] in *. congruence.
Qed.

Lemma elem_of_held t s c ex br conns :
  conns !! s = Some c → t ∈ held_by ex br (s, c) → t ∈ held conns ex br.
Proof.
  intros Hs Ht. apply elem_of_concat. exists (held_by ex br (s, c)). split; [|done].
  apply list_elem_of_fmap. exists (s, c). split; [done|]. by apply elem_of_go_range.
Qed.

(** *** The invariant of the loop *)

(** In [ids], every node comes after all the nodes that have a connection to
    it. *)
Definition topological (conns : gmap string NodeConnections) (ids : list string) : Prop :=
  ∀ pre x post, ids = (pre ++ x :: post)%list →
    ∀ s c, conns !! s = Some c → x ∈ edge_targets c → s ∈ pre.

Lemma topological_snoc conns ids x :
  topological conns ids → (∀ s c, conns !! s = Some c → x ∈ edge_targets c → s ∈ ids) →
  topological conns (ids ++ [x])%list.
Proof.
  intros Ht Hx pre y post Heq s c Hs Hy. destruct post as [|z post _] using rev_ind.
  - apply app_inj_tail in Heq as [-> ->]. eauto.
  - rewrite app_comm_cons, app_assoc in Heq. apply app_inj_tail in Heq as [-> _]. eauto.
Qed.

Definition keyed (nm : gmap string WorkflowNode) : Prop :=
  ∀ k n, nm !! k = Some n → Node.ID n = k.

(** Every connection to one of the nodes [ids] leaves from an output that was
    followed. *)
Definition all_followed (conns : gmap string NodeConnections) (br : gmap string (option Z))
    (ids : list string) : Prop :=
  ∀ t s c i targets, t ∈ ids → conns !! s = Some c → NodeConn.Main c !! i = Some targets →
    t ∈ map ConnTarget.Node targets → shouldFollowBranch s (Z.of_nat i) br = true.

Record dag_run (nm : gmap string WorkflowNode) (conns : gmap string NodeConnections) (d : dag)
  : Prop := {
  run_nodup : NoDup (node_ids d);
  run_topo : topological conns (node_ids d);
  run_known : ∀ t, t ∈ node_ids d → is_Some (nm !! t);
  run_followed : all_followed conns (d_branch d) (node_ids d);
  run_branch : ∀ k, d_branch d !! k ≠ Some None
}.

Record dag_inv (nm : gmap string WorkflowNode) (conns : gmap string NodeConnections) (d : dag)
  : Prop := {
  inv_degree : ∀ t, occ t (held conns (d_executed d) (d_branch d)) ≤ default 0 (d_degree d !! t);
  inv_queue : ∀ t, t ∈ d_queue d → default 0 (d_degree d !! t) ≤ 0;
  inv_executed : ∀ t, t ∈ d_executed d ↔ t ∈ node_ids d;
  inv_run : dag_run nm conns d
}.

Lemma dag_run_init nm conns w ctx r :
  WfResult.NodeResults r = [] → dag_run nm conns ((dag_init nm conns w ctx) <| d_result := r |>).
Proof.
  intros Hr. unfold dag_init. split; unfold node_ids; rsimp; rewrite ?Hr; cbn [map]; try done.
  - apply NoDup_nil_2.
  - intros pre x post Heq. by destruct pre.
  - set_solver.
  - intros t s c i targets Ht. by apply not_elem_of_nil in Ht.
Qed.

Lemma dag_inv_init nm conns w ctx : dag_inv nm conns (dag_init nm conns w ctx).
Proof.
  split; [| | |exact (dag_run_init nm conns w ctx (d_result (dag_init nm conns w ctx)) eq_refl)]; unfold dag_init; simpl.
  - intros t. unfold in_degrees. rewrite foldl_bump, lookup_fmap.
    change (held conns ∅ ∅) with (concat (map (λ kc, edge_targets (snd kc)) (go_range conns))).
    destruct (nm !! t); simpl; lia.
  - intros t ([k v] & -> & [Hz Hin]%list_elem_of_filter)%list_elem_of_fmap.
    apply elem_of_go_range in Hin. simpl in *. by rewrite Hin, Hz.
  - set_solver.
Qed.

(** A node taken from the queue is not held back. *)
Lemma dag_inv_ready nm conns d n :
  dag_inv nm conns d → n ∈ d_queue d → n ∉ held conns (d_executed d) (d_branch d).
Proof.
  intros Hinv Hn Hin. pose proof (inv_degree _ _ _ Hinv n). pose proof (inv_queue _ _ _ Hinv n Hn).
  pose proof (occ_pos _ _ Hin). lia.
Qed.

Lemma dag_inv_pop nm conns d n q :
  dag_inv nm conns d → d_queue d = n :: q → dag_inv nm conns (d <| d_queue := q |>).
Proof.
  intros [] Hq. split; unfold node_ids in *; rsimp; try done.
  - intros t Ht. apply inv_queue0. rewrite Hq. by apply list_elem_of_further.
  - destruct inv_run0. by split.
Qed.

(** What is not held back comes after its predecessors, through outputs that
    were followed. *)
Lemma not_held conns ex br n :
  n ∉ held conns ex br →
  (∀ s c, conns !! s = Some c → n ∈ edge_targets c → s ∈ ex) ∧
  (∀ s c i targets, conns !! s = Some c → NodeConn.Main c !! i = Some targets →
     n ∈ map ConnTarget.Node targets → shouldFollowBranch s (Z.of_nat i) br = true).
Proof.
  intros Hn.
  assert (∀ s c, conns !! s = Some c → n ∈ edge_targets c → s ∈ ex) as Hready.
  { intros s c Hs Hc. destruct (decide (s ∈ ex)) as [|Hex]; [done|]. destruct Hn.
    apply (elem_of_held n s c); [done|]. unfold held_by. cbn [fst snd]. by rewrite decide_False. }
  split; [done|]. intros s c i targets Hs Hi Ht.
  destruct (shouldFollowBranch s (Z.of_nat i) br) eqn:Hf; [done|]. destruct Hn.
  apply (elem_of_held n s c); [done|]. unfold held_by. cbn [fst snd]. rewrite decide_True.
  - by eapply elem_of_unfollowed.
  - apply (Hready s c Hs). unfold edge_targets. apply list_elem_of_fmap in Ht as (x & -> & Hx).
    apply list_elem_of_fmap. exists x. split; [done|]. apply elem_of_concat. exists targets.
    split; [by eapply list_elem_of_lookup_2|done].
Qed.

(** What a visit that runs the node [n] keeps, whether or not it stops. *)
Lemma dag_run_visit nm conns d d' n node :
  keyed nm → dag_inv nm conns d → n ∉ held conns (d_executed d) (d_branch d) →
  n ∉ d_executed d → nm !! n = Some node → node_ids d' = (node_ids d ++ [Node.ID node])%list →
  (d_branch d' = d_branch d ∨ ∃ b, d_branch d' = <[n := Some b]> (d_branch d)) →
  dag_run nm conns d' ∧ ∀ k, k ≠ n → d_branch d' !! k = d_branch d !! k.
Proof.
  intros Hk Hinv Hheld Hex Hn Hids Hbr. destruct (not_held _ _ _ _ Hheld) as [Hready Hfol].
  destruct (inv_run _ _ _ Hinv) as [Hnd Htopo Hknown Hall Hnone].
  assert (∀ k, k ≠ n → d_branch d' !! k = d_branch d !! k) as Hagree.
  { intros k Hne. destruct Hbr as [-> | [b ->]]; [done|]. by rewrite lookup_insert_ne. }
  split; [|done]. rewrite (Hk _ _ Hn) in Hids. pose proof (inv_executed _ _ _ Hinv) as Hexec.
  split; rewrite ?Hids.
  - apply NoDup_app. split_and!; [done| |apply NoDup_singleton].
    intros x Hx%Hexec ->%list_elem_of_singleton. done.
  - apply topological_snoc; [done|]. intros s c Hs Hc. apply Hexec. eauto.
  - intros t [Ht| ->%list_elem_of_singleton]%elem_of_app; [by apply Hknown | eauto].
  - intros t s c i targets Ht Hs Hi Htt.
    assert (t ∈ edge_targets c) as Hedge.
    { apply list_elem_of_fmap in Htt as (x & -> & Hx). apply list_elem_of_fmap. exists x. split; [done|].
      apply elem_of_concat. exists targets. split; [by eapply list_elem_of_lookup_2|done]. }
    assert (shouldFollowBranch s (Z.of_nat i) (d_branch d) = true ∧ s ∈ d_executed d) as [Hf Hs'].
    { apply elem_of_app in Ht as [Ht| ->%list_elem_of_singleton]; [|split; by eauto].
      split; [by eapply Hall|]. apply list_elem_of_split in Ht as (l1 & l2 & Hl).
      apply Hexec. rewrite Hl. apply elem_of_app. left. by eapply Htopo. }
    revert Hf. unfold shouldFollowBranch. rewrite Hagree; [done|]. congruence.
  - intros k. destruct Hbr as [-> | [b ->]]; [done|].
    destruct (decide (k = n)) as [->|]; [by rewrite lookup_insert_eq|by rewrite lookup_insert_ne].
Qed.

Lemma dag_inv_visit nm conns d n q d' :
  keyed nm → dag_inv nm conns d → d_queue d = n :: q →
  dag_visit nm conns n (d <| d_queue := q |>) = Ret (d', false) → dag_inv nm conns d'.
Proof.
  intros Hk Hinv Hq Hv. pose proof (dag_inv_pop _ _ _ _ _ Hinv Hq) as Hpop.
  destruct (dag_visit_cases _ _ _ _ _ _ Hv) as [[-> _]|(node & Hex & Hn & Hids & Hbr & Hrest)]; [done|].
  destruct Hrest as [?|(_ & He & Hrel)]; [done|].
  assert (n ∉ held conns (d_executed d) (d_branch d)) as Hready
    by (apply (dag_inv_ready _ _ _ n Hinv); rewrite Hq; apply list_elem_of_here).
  destruct (dag_run_visit _ _ _ _ _ _ Hk Hpop Hready Hex Hn Hids Hbr) as [Hrun Hagree].
  symmetry in Hrel. destruct (release_spec _ _ _ _ _ Hrel) as [Hdeg Hqueue].
  split; [| | |done].
  - intros t. rewrite He, (held_execute t n _ (d_branch d)), Hdeg by done.
    pose proof (inv_degree _ _ _ Hinv t). rsimp. lia.
  - intros t [Hin|Hle]%Hqueue; [|done]. pose proof (inv_queue _ _ _ Hpop t Hin).
    rewrite Hdeg. pose proof (occ_nonneg t (followed_targets n (d_branch d') conns)). lia.
  - intros t. rewrite He, Hids, (Hk _ _ Hn), elem_of_union, elem_of_app,
      list_elem_of_singleton, elem_of_singleton.
    pose proof (inv_executed _ _ _ Hpop t). tauto.
Qed.

Lemma dag_loop_inv nm conns fuel d d' :
  keyed nm → dag_inv nm conns d → dag_loop fuel nm conns d = Ret (Some d') → dag_run nm conns d'.
Proof.
  intros Hk. revert d. induction fuel as [|fuel IH]; intros d Hinv; simpl; [done|].
  destruct (d_queue d) as [|n q] eqn:Hq; [intros [= <-]; apply Hinv|].
  intros ([d1 stop] & Hv & Hl)%go_bind_Ret. destruct stop; [|eauto using dag_inv_visit].
  injection Hl as <-. pose proof (dag_inv_pop _ _ _ _ _ Hinv Hq) as Hpop.
  destruct (dag_visit_cases _ _ _ _ _ _ Hv) as [[_ ?]|(node & Hex & Hn & Hids & Hbr & _)]; [done|].
  eapply (dag_run_visit _ _ _ _ _ _ Hk Hpop); eauto. apply (dag_inv_ready _ _ _ n Hinv).
  rewrite Hq. apply list_elem_of_here.
Qed.

Lemma node_map_keyed nodes : keyed (node_map nodes).
Proof.
  unfold keyed, node_map. intros k n. induction nodes as [|x nodes IH] using rev_ind; [done|].
  rewrite foldl_app. simpl. intros [[<- <-]|[_ Hl]]%lookup_insert_Some; [|auto].
  unfold default_retries. by repeat case_match; rsimp.
Qed.

(** The start nodes and the nodes with an incoming connection are disjoint. *)
Lemma start_measure (deg : gmap string Z) :
  (length (filter (λ nd : string * Z, nd.2 = 0%Z) (map_to_list deg)) + size (positive deg) ≤ size deg)%nat.
Proof.
  unfold positive. induction deg as [|k v deg Hk IH] using map_ind; [done|].
  rewrite map_to_list_insert, filter_cons, map_size_insert_None by done. simpl.
  destruct (decide (0 < v)) as [Hp|Hn].
  - rewrite (map_filter_insert_True (λ kd : string * Z, 0 < kd.2)) by done.
    rewrite map_size_insert_None by (apply map_lookup_filter_None; by left).
    case_decide; simpl in *; lia.
  - rewrite (map_filter_insert_False (λ kd : string * Z, 0 < kd.2)) by done.
    rewrite delete_id by done. case_decide; simpl; lia.
Qed.

(** ** Pipelines without connections

    A pipeline that has no connections of its own is linked in the order of
    its nodes; [run_linear] is what one expects of it: run the nodes in order,
    and stop at a stream, a failure that is not to be ignored, a termination,
    or a node that chose another output than the first. *)

Definition first_output (nodeResult : NodeExecutionResult) : bool :=
  match NodeRes.BranchIndex nodeResult with None => true | Some b => 0 =? b end.

Fixpoint run_linear (nodes : list WorkflowNode) (w : World) (ctx : WorkflowContext)
    (result : WorkflowResult) : go (World * WorkflowContext * WorkflowResult) :=
  match nodes with
  | [] => Ret (w, ctx, result)
  | node :: nodes' =>
      '(w, ctx, nodeResult, nodeOutput) ← executeNode node w ctx;
      if is_streaming nodeOutput
      then Ret (w, ctx, streaming_result result node ctx nodeResult nodeOutput)
      else
        let result := append_result result nodeResult in
        if String.eqb (NodeRes.Status nodeResult) "failed" && negb (Node.ContinueOnFail node)
        then Ret (w, ctx, failed_result result (Node.ID node) node nodeResult)
        else if String.eqb (NodeRes.Status nodeResult) "terminated"
        then Ret (w, ctx, terminated_result result node)
        else if first_output nodeResult then run_linear nodes' w ctx result
        else Ret (w, ctx, result)
  end.

Definition dag_outcome (d : dag) : World * WorkflowContext * WorkflowResult :=
  (d_world d, d_ctx d, d_result d).

Definition link (n n' : WorkflowNode) : string * NodeConnections :=
  (Node.ID n, NodeConn.mkNodeConn [[ConnTarget.mkConnTarget (Node.ID n') "main" 0]]).

Fixpoint links (nodes : list WorkflowNode) : list (string * NodeConnections) :=
  match nodes with
  | n :: ((n' :: _) as rest) => link n n' :: links rest
  | _ => []
  end.

Lemma links_fst_in nodes k : k ∈ (links nodes).*1 → k ∈ map Node.ID nodes.
Proof.
  induction nodes as [|n [|n' rest] IH]; csimpl; [set_solver..|].
  intros [->|Hk]%elem_of_cons; [by left|]. right. by apply IH.
Qed.

Lemma links_NoDup nodes : NoDup (map Node.ID nodes) → NoDup (links nodes).*1.
Proof.
  induction nodes as [|n [|n' rest] IH]; intros Hnd; [constructor..|].
  apply NoDup_cons in Hnd as [Hn Hnd].
  change (NoDup (Node.ID n :: (links (n' :: rest)).*1)). constructor; [|auto].
  intros Hin%links_fst_in. done.
Qed.

Lemma linear_connections_links m nodes :
  NoDup (map Node.ID nodes) → linear_connections m nodes = list_to_map (links nodes) ∪ m.
Proof.
  revert m. induction nodes as [|n [|n' rest] IH]; intros m Hnd; [symmetry; apply (left_id_L ∅ (∪))..|].
  pose proof (links_NoDup _ Hnd) as Hl.
  apply NoDup_cons in Hnd as [Hn Hnd].
  change (linear_connections (<[Node.ID n := (link n n').2]> m) (n' :: rest)
    = list_to_map (link n n' :: links (n' :: rest)) ∪ m).
  rewrite IH by done. change (link n n') with (Node.ID n, (link n n').2) at 2.
  rewrite list_to_map_cons. rewrite <- insert_union_r; [by rewrite insert_union_l|].
  apply not_elem_of_list_to_map. by intros ?%links_fst_in.
Qed.

Lemma links_lookup nodes pre x y post :
  NoDup (map Node.ID nodes) → nodes = (pre ++ x :: y :: post)%list →
  (list_to_map (links nodes) : gmap string NodeConnections) !! Node.ID x = Some (link x y).2.
Proof.
  intros Hnd ->. apply elem_of_list_to_map; [by apply links_NoDup|].
  clear Hnd. induction pre as [|z pre IH]; [by left|].
  destruct pre; right; exact IH.
Qed.

Lemma links_lookup_last nodes pre x :
  NoDup (map Node.ID nodes) → nodes = (pre ++ [x])%list →
  (list_to_map (links nodes) : gmap string NodeConnections) !! Node.ID x = None.
Proof.
  intros Hnd ->. apply not_elem_of_list_to_map. induction pre as [|z pre IH]; csimpl; [set_solver|].
  apply NoDup_cons in Hnd as [Hz Hnd].
  destruct pre as [|z' pre]; csimpl in *; intros [Heq|Hin]%elem_of_cons; try set_solver.
Qed.

Lemma links_targets nodes :
  concat (map (λ kc, edge_targets kc.2) (links nodes)) = tail (map Node.ID nodes).
Proof. induction nodes as [|n [|n' rest] IH]; [done..|]. cbn in *. by rewrite IH. Qed.

(** The in-degrees of a line: none for the first node, one for the others. *)
Lemma linear_degree nodes nm t :
  NoDup (map Node.ID nodes) →
  default 0 (in_degrees nm (list_to_map (links nodes)) !! t)
  = if decide (t ∈ tail (map Node.ID nodes)) then 1 else 0.
Proof.
  intros Hnd. unfold in_degrees. rewrite foldl_bump, lookup_fmap.
  assert (default 0 ((λ _ : WorkflowNode, 0) <$> nm !! t) = 0) as -> by (by destruct (nm !! t)).
  assert (occ t (concat (map (λ kc, edge_targets kc.2) (go_range (list_to_map (links nodes)
            : gmap string NodeConnections))))
          = occ t (tail (map Node.ID nodes))) as ->.
  { unfold occ. rewrite go_range_perm, map_to_list_to_map by (by apply links_NoDup).
    by rewrite links_targets. }
  case_decide as Hin.
  - assert (NoDup (tail (map Node.ID nodes))) as Hnd'
      by (destruct nodes; [constructor | by apply NoDup_cons in Hnd as [_ ?]]).
    apply list_elem_of_split in Hin as (l1 & l2 & Heq). rewrite Heq in Hnd' |- *.
    apply NoDup_app in Hnd' as (_ & Hd & [Hn _]%NoDup_cons).
    rewrite occ_app, occ_cons, decide_True by done.
    rewrite !occ_notin; [lia | done | intros Ht; apply (Hd t Ht); by left].
  - by rewrite occ_notin.
Qed.

Lemma node_map_lookup nodes n :
  NoDup (map Node.ID nodes) → n ∈ nodes → node_map nodes !! Node.ID n = Some (default_retries n).
Proof.
  unfold node_map. induction nodes as [|x nodes IH] using rev_ind; intros Hnd Hin; [set_solver|].
  rewrite map_app in Hnd. apply NoDup_app in Hnd as (Hnd & Hd & _). rewrite foldl_app. simpl.
  apply elem_of_app in Hin as [Hin| ->%list_elem_of_singleton]; [|by rewrite lookup_insert_eq].
  rewrite lookup_insert_ne; [by apply IH|]. intros Heq.
  apply (Hd (Node.ID n)); [by apply list_elem_of_fmap; exists n|]. rewrite <- Heq. by left.
Qed.

Lemma default_retries_ID n : Node.ID (default_retries n) = Node.ID n.
Proof. unfold default_retries. by repeat case_match; rsimp. Qed.

Lemma followed_link nodes pre x y post nr br :
  NoDup (map Node.ID nodes) → nodes = (pre ++ x :: y :: post)%list → br !! Node.ID x = None →
  followed_targets (Node.ID x) (save_branch (Node.ID x) nr br) (list_to_map (links nodes))
  = if first_output nr then [Node.ID y] else [].
Proof.
  intros Hnd Heq Hbr. unfold followed_targets. rewrite (links_lookup _ _ _ _ _ Hnd Heq).
  unfold save_branch, first_output, shouldFollowBranch. cbn [link NodeConn.Main imap snd].
  destruct (NodeRes.BranchIndex nr) as [b|]; [rewrite lookup_insert_eq | rewrite Hbr; done].
  change (Z.of_nat 0) with 0. by destruct (0 =? b).
Qed.

Lemma followed_last nodes pre x br :
  NoDup (map Node.ID nodes) → nodes = (pre ++ [x])%list →
  followed_targets (Node.ID x) br (list_to_map (links nodes)) = [].
Proof. intros Hnd Heq. unfold followed_targets. by rewrite (links_lookup_last _ _ _ Hnd Heq). Qed.

Lemma linear_loop nodes :
  NoDup (map Node.ID nodes) →
  ∀ rest pre x fuel d,
    nodes = (pre ++ x :: rest)%list → (S (length rest) < fuel)%nat →
    d_queue d = [Node.ID x] →
    (∀ y, y ∈ rest → default 0 (d_degree d !! Node.ID y) = 1) →
    (∀ y, y ∈ x :: rest → Node.ID y ∉ d_executed d ∧ d_branch d !! Node.ID y = None) →
    fmap dag_outcome <$> dag_loop fuel (node_map nodes) (list_to_map (links nodes)) d
    = Some <$> run_linear (map default_retries (x :: rest)) (d_world d) (d_ctx d) (d_result d).
Proof.
  intros Hnd rest. induction rest as [|y rest IH]; intros pre x [|fuel] d Heq Hf Hq Hdeg Hfresh;
    simpl in Hf; try lia; cbn [dag_loop map run_linear]; rewrite Hq; unfold dag_visit; rsimp.
  all: destruct (Hfresh x (list_elem_of_here _ _)) as [Hex Hbr].
  all: rewrite decide_False by done; rewrite node_map_lookup by (done || (subst nodes; set_solver)).
  all: destruct (executeNode (default_retries x) (d_world d) (d_ctx d)) as [[[[w ctx] nr] no]|];
    [|done]; cbn [mbind go_bind].
  all: destruct (is_streaming no); [done|]; rewrite ?default_retries_ID; rsimp.
  all: case_match; [done|]; case_match; [done|].
  - rewrite (followed_last _ _ _ _ Hnd Heq). simpl. destruct fuel as [|fuel]; [lia|].
    simpl. rsimp. by destruct (first_output nr).
  - rewrite (followed_link _ _ _ _ _ _ _ Hnd Heq Hbr). destruct (first_output nr).
    + cbn [foldl release fst snd]. rewrite bump_default, decide_True by done.
      rewrite Hdeg by (by left). change (1 + -1 =? 0) with true. cbn [mbind go_bind app].
      etrans; [apply (IH (pre ++ [x])%list y); rsimp; try done; [by rewrite <- app_assoc|lia| |]|
               rsimp; cbn [map run_linear]; by rewrite default_retries_ID].
      * intros z Hz. rewrite bump_default, decide_False; [rewrite Hdeg by (by right); lia|].
        subst nodes. rewrite map_app in Hnd. apply NoDup_app in Hnd as (_ & _ & Hnd).
        csimpl in Hnd. intros E. apply NoDup_cons in Hnd as [_ [Hy _]%NoDup_cons]. apply Hy.
        rewrite E. apply list_elem_of_fmap. by exists z.
      * intros z Hz. destruct (Hfresh z) as [Hz1 Hz2]; [by right|].
        assert (Node.ID z ≠ Node.ID x) as Hne.
        { subst nodes. rewrite map_app in Hnd. apply NoDup_app in Hnd as (_ & _ & Hnd).
          csimpl in Hnd. apply NoDup_cons in Hnd as [Hx _]. intros E. apply Hx. rewrite <- E.
          apply (list_elem_of_fmap_2 Node.ID (y :: rest) z Hz). }
        split; [set_solver|]. unfold save_branch. case_match; [by rewrite lookup_insert_ne|done].
    + simpl. destruct fuel as [|fuel]; [lia|]. simpl. by rsimp.
Qed.
Lemma foldl_bump_dom deg ts : dom (foldl (bump 1) deg ts) = dom deg ∪ list_to_set ts.
Proof.
  revert deg. induction ts as [|t ts IH]; intros deg; simpl; [set_solver|].
  rewrite IH. unfold bump. rewrite dom_insert_L. set_solver.
Qed.

Lemma node_map_dom nodes : dom (node_map nodes) = list_to_set (map Node.ID nodes).
Proof.
  unfold node_map. induction nodes as [|x nodes IH] using rev_ind; [done|].
  rewrite foldl_app, map_app. simpl. rewrite dom_insert_L, IH. set_solver.
Qed.

(** The only start node of a line is its first node. *)
Lemma linear_start x rest :
  NoDup (map Node.ID (x :: rest)) →
  map fst (filter (λ nd : string * Z, nd.2 = 0)
    (go_range (in_degrees (node_map (x :: rest)) (list_to_map (links (x :: rest))))))
  = [Node.ID x].
Proof.
  intros Hnd. set (deg := in_degrees _ _).
  assert (Hdeg : ∀ t, default 0 (deg !! t) = if decide (t ∈ map Node.ID rest) then 1 else 0)
    by (intros t; by apply (linear_degree (x :: rest))).
  assert (Hdom : dom deg = list_to_set (map Node.ID (x :: rest))).
  { unfold deg, in_degrees. rewrite foldl_bump_dom, dom_fmap_L, node_map_dom.
    assert (∀ t, t ∈ concat (map (λ kc, edge_targets kc.2) (go_range (list_to_map (links (x :: rest))
      : gmap string NodeConnections))) → t ∈ map Node.ID rest) as Ht.
    { intros t. rewrite go_range_perm, map_to_list_to_map by (by apply links_NoDup).
      by rewrite links_targets. }
    apply set_eq. intros t. rewrite elem_of_union, !elem_of_list_to_set. csimpl.
    specialize (Ht t). set_solver. }
  apply Permutation_singleton_r, NoDup_Permutation; [| apply NoDup_singleton |].
  - apply NoDup_fst_filter, NoDup_fst_go_range.
  - intros t. rewrite list_elem_of_singleton. apply NoDup_cons in Hnd as [Hx _]. split.
    + intros ([k v] & -> & [Hz Hin]%list_elem_of_filter)%list_elem_of_fmap.
      apply elem_of_go_range in Hin. simpl in Hz, Hin |- *. specialize (Hdeg k). rewrite Hin, Hz in Hdeg.
      assert (k ∈ dom deg) as Hk by (by apply elem_of_dom; eexists).
      rewrite Hdom, elem_of_list_to_set in Hk. apply elem_of_cons in Hk as [->|Hk]; [done|].
      by rewrite decide_True in Hdeg by done.
    + intros ->. assert (Node.ID x ∈ dom deg) as [v Hv]%elem_of_dom
        by (rewrite Hdom, elem_of_list_to_set; by left).
      specialize (Hdeg (Node.ID x)). rewrite Hv, decide_False in Hdeg by done. simpl in Hdeg. subst v.
      apply list_elem_of_fmap. exists (Node.ID x, 0). split; [done|].
      apply list_elem_of_filter. split; [done|]. by apply elem_of_go_range.
Qed.

Lemma linear_execution nodes w ctx :
  nodes ≠ [] → NoDup (map Node.ID nodes) →
  fmap dag_outcome <$> executeDAG (node_map nodes) (list_to_map (links nodes)) w ctx
  = Some <$> run_linear (map default_retries nodes) w ctx
      (WfResult.zero <| WfResult.Status := ExecutionStatusSuccess |>
                     <| WfResult.Stream := WfCtx.Stream ctx |>).
Proof.
  destruct nodes as [|x rest]; [done|]. intros _ Hnd.
  unfold executeDAG, dag_init. cbn [d_queue d_degree]. rewrite linear_start by done. simpl length.
  cbn [Nat.eqb andb].
  assert (length (x :: rest) ≤ size (in_degrees (node_map (x :: rest)) (list_to_map (links (x :: rest)))))%nat
    as Hsize.
  { rewrite <- size_dom. unfold in_degrees. rewrite foldl_bump_dom, dom_fmap_L, node_map_dom.
    etrans; [|apply subseteq_size, union_subseteq_l].
    rewrite size_list_to_set by done. by rewrite length_map. }
  etrans; [apply (linear_loop (x :: rest) Hnd rest [] x); try done|].
  - cbn [length] in Hsize. lia.
  - intros y Hy. cbn [d_degree]. rewrite linear_degree by done. rewrite decide_True; [done|].
    simpl. apply list_elem_of_fmap. by exists y.
  - done.
Qed.

Lemma legacy_nodes_NoDup pcs : NoDup (map Node.ID (imap legacy_node pcs)).
Proof.
  apply NoDup_alt. intros i j t Hi Hj.
  apply list_lookup_fmap_Some in Hi as (x & -> & (p & _ & ->)%list_lookup_imap_Some).
  apply list_lookup_fmap_Some in Hj as (y & Heq & (q & _ & ->)%list_lookup_imap_Some).
  unfold legacy_node in Heq. rsimp. injection Heq as Heq. apply itoa_inj in Heq. lia.
Qed.

(** ** Properties *)

Lemma executeDAG_run nodes conns w ctx d :
  executeDAG (node_map nodes) conns w ctx = Ret (Some d) → dag_run (node_map nodes) conns d.
Proof.
  unfold executeDAG. case_match.
  - intros [= <-]. by apply dag_run_init.
  - apply dag_loop_inv; [apply node_map_keyed | apply dag_inv_init].
Qed.

(** The output [i] of a node with the connections [c] leads to [t]. *)
Definition leads_to (c : NodeConnections) (i : nat) (t : string) : Prop :=
  ∃ targets, NodeConn.Main c !! i = Some targets ∧ t ∈ map ConnTarget.Node targets.

(** C12. A workflow of any shape, cyclic or not, whose processors return, is
    executed to the end: the fuel, one more than the number of node names, is
    never used up. *)
Theorem executeDAG_terminates nm conns w ctx : executeDAG nm conns w ctx ≠ Ret None.
Proof.
  unfold executeDAG. case_match; [done|]. apply dag_loop_fuel. unfold dag_measure, dag_init. simpl.
  rewrite length_map, go_range_perm. pose proof (start_measure (in_degrees nm conns)). lia.
Qed.

(** C13. The nodes that an execution ran are nodes of the workflow, each ran once,
    and each ran after all the nodes connected to it. *)
Theorem executeDAG_order nodes conns w ctx d :
  executeDAG (node_map nodes) conns w ctx = Ret (Some d) →
  NoDup (node_ids d) ∧ topological conns (node_ids d) ∧
  ∀ t, t ∈ node_ids d → is_Some (node_map nodes !! t).
Proof. intros Hd%executeDAG_run. split_and!; apply Hd. Qed.

(** A node where two outputs of another node meet again is never run: it has
    a connection from a successor of each, and a successor of an output that
    was not chosen does not run. *)
Theorem merge_node_never_runs nodes conns w ctx d s c i j a b m ca cb :
  executeDAG (node_map nodes) conns w ctx = Ret (Some d) →
  conns !! s = Some c → i ≠ j → leads_to c i a → leads_to c j b →
  conns !! a = Some ca → m ∈ edge_targets ca → conns !! b = Some cb → m ∈ edge_targets cb →
  m ∉ node_ids d.
Proof.
  intros Hd%executeDAG_run Hs Hij (tsa & Hia & Ha) (tsb & Hjb & Hb) Hca Hma Hcb Hmb Hm.
  destruct Hd as [_ Htopo _ Hall Hnone]. apply list_elem_of_split in Hm as (pre & post & Hids).
  assert (a ∈ node_ids d ∧ b ∈ node_ids d) as [Hain Hbin].
  { rewrite Hids. split; apply elem_of_app; left; by eapply Htopo. }
  pose proof (Hall a s c i tsa Hain Hs Hia Ha) as Hfa. pose proof (Hall b s c j tsb Hbin Hs Hjb Hb) as Hfb.
  unfold shouldFollowBranch in Hfa, Hfb. specialize (Hnone s).
  destruct (d_branch d !! s) as [[x|]|]; [|done|]; apply Z.eqb_eq in Hfa, Hfb; lia.
Qed.

(** A node that is enabled, whose type is registered and whose retry count is
    not negative ends as a success, a failure or a termination. *)
Theorem executeNode_status node w ctx w' ctx' nr no p :
  executeNode node w ctx = Ret (w', ctx', nr, no) →
  Node.Disabled node = false → 0 ≤ Node.MaxRetries node →
  GetProcessorByType processorRegister (Node.Type_ node) (Node.Config node) = Ret (Ok p) →
  NodeRes.Status nr ∈ ["success"; "failed"; "terminated"].
Proof.
  unfold executeNode. intros Hx Hd Hm Hp. rewrite Hd, Hp in Hx.
  cbn [mbind go_bind] in Hx.
  rewrite (proj2 (Z.leb_le _ _)) in Hx by (destruct (Node.RetryOnFail node); lia).
  revert Hx. generalize (Z.to_nat (if Node.RetryOnFail node then Node.MaxRetries node else 0)) as left.
  set (res := NodeRes.zero <| _ := _ |> <| _ := _ |> <| _ := _ |>). clearbody res. intros left.
  clear Hp. revert w ctx. induction left as [|left IH]; intros w ctx; destruct p as [f|f]; simpl;
    intros ([[w1 ctx1] r] & _ & Hr)%go_bind_Ret; revert Hr;
    repeat case_match; intros; simplify_eq; rsimp; eauto; set_solver.
Qed.

(** With a negative retry count the node is not run at all: no status, no
    error, and the execution goes on to its successors. *)
Theorem executeNode_negative_retries node w ctx p :
  Node.Disabled node = false → Node.RetryOnFail node = true → Node.MaxRetries node < 0 →
  GetProcessorByType processorRegister (Node.Type_ node) (Node.Config node) = Ret (Ok p) →
  ∃ nr, executeNode node w ctx = Ret (w, ctx, nr, None) ∧ NodeRes.Status nr = "".
Proof.
  intros Hd Hr Hm Hp. unfold executeNode. rewrite Hd, Hp, Hr.
  cbn [mbind go_bind].
  rewrite (proj2 (Z.leb_gt _ _)) by lia. eexists. split; [reflexivity|]. by rsimp.
Qed.

(** The execution record never holds the value of a secret variable, whether
    it comes from the pipeline or from the trigger, and holds the others as
    they were at the end of the execution. *)
Theorem saveExecutionRecord_masks `{!Json (list NodeExecutionResult), !Json (gmap string string)}
    pipeline ctx result t start now duration uuid env :
  json_marshal (SanitizedEnv ctx (GetSecretKeys pipeline)) = Ok env →
  Execution.EnvSnapshot (saveExecutionRecord pipeline ctx result t start now duration uuid) = env ∧
  (∀ v x, v ∈ Pipe.EnvVariables pipeline → EnvVar.Secret v = true →
     SanitizedEnv ctx (GetSecretKeys pipeline) !! EnvVar.Key v = Some x → x = "******") ∧
  (∀ k, k ∉ GetSecretKeys pipeline →
     SanitizedEnv ctx (GetSecretKeys pipeline) !! k = WfCtx.Env ctx !! k).
Proof.
  intros Hm. split_and!.
  - unfold saveExecutionRecord. rewrite Hm. by rsimp.
  - intros v x Hv Hs. rewrite SanitizedEnv_lookup. intros (y & _ & ->)%fmap_Some.
    rewrite decide_True; [done|]. apply elem_of_GetSecretKeys. eauto.
  - intros k Hk. rewrite SanitizedEnv_lookup. destruct (WfCtx.Env ctx !! k); simpl; [|done].
    by rewrite decide_False.
Qed.

(** A pipeline without connections of its own, whose node names are distinct,
    is executed as the sequence of its nodes: the graph algorithm has the same
    effects and the same result as running the nodes in order. *)
Theorem executeDAG_linear pipeline w ctx :
  Pipe.Connections pipeline = ∅ → GetWorkflowNodes pipeline ≠ [] →
  NoDup (map Node.ID (GetWorkflowNodes pipeline)) →
  fmap dag_outcome <$>
    executeDAG (node_map (GetWorkflowNodes pipeline)) (GetWorkflowConnections pipeline) w ctx
  = Some <$> run_linear (map default_retries (GetWorkflowNodes pipeline)) w ctx
      (WfResult.zero <| WfResult.Status := ExecutionStatusSuccess |>
                     <| WfResult.Stream := WfCtx.Stream ctx |>).
Proof.
  intros Hc Hne Hnd. unfold GetWorkflowConnections. rewrite decide_True by done.
  rewrite linear_connections_links by done. rewrite (right_id_L ∅ (∪)). by apply linear_execution.
Qed.

(** In particular a pipeline in the old format, a list of processors, is
    always executed in the order of the list. *)
Theorem legacy_pipeline_sequential pipeline w ctx :
  Pipe.Nodes pipeline = [] → Pipe.Connections pipeline = ∅ → Pipe.ProcessorConfigs pipeline ≠ [] →
  fmap dag_outcome <$>
    executeDAG (node_map (GetWorkflowNodes pipeline)) (GetWorkflowConnections pipeline) w ctx
  = Some <$> run_linear (map default_retries (imap legacy_node (Pipe.ProcessorConfigs pipeline))) w ctx
      (WfResult.zero <| WfResult.Status := ExecutionStatusSuccess |>
                     <| WfResult.Stream := WfCtx.Stream ctx |>).
Proof.
  intros Hn Hc Hp. assert (GetWorkflowNodes pipeline = imap legacy_node (Pipe.ProcessorConfigs pipeline))
    as Hw by (unfold GetWorkflowNodes; by rewrite Hn).
  unfold GetWorkflowConnections. rewrite decide_True, Hw by done.
  pose proof (legacy_nodes_NoDup (Pipe.ProcessorConfigs pipeline)) as Hnd.
  rewrite linear_connections_links by done. rewrite (right_id_L ∅ (∪)). apply linear_execution; [|done].
  by destruct (Pipe.ProcessorConfigs pipeline).
Qed.
End engine.
