(* ===== verification/Processors.v ===== *)
(** * Pipeline processors and the event pipeline

    The processors that decide on an event without calling a service:
    relabel ([alert/pipeline/processor/relabel]), event_drop
    ([.../eventdrop]), logic.if and logic.switch ([.../logic]); those that call
    a service are in [WebProcessors], and all are entries of the registry the
    engine is given.  Then [HandleEventPipeline] and [PipelineApplicable] of
    [alert/dispatch/dispatch.go]. *)

From S2P Require Import Prelude GoStrings Json Models RuleModels EventOps Filter Relabel Workflow.
From S2P Require Import Engine.
Open Scope string_scope.
Open Scope Z_scope.

(** [text/template] executed on a workflow context; the first argument is the
    name of the template, which errors mention. *)
Class CtxTemplate := {
  ctx_tpl_parse : string → string → option error;
  ctx_tpl_execute : string → string → WorkflowContext → result string
}.

Definition tpl_defs : list string :=
  ["{{ $event := .Event }}"; "{{ $labels := .Event.TagsMap }}";
   "{{ $value := .Event.TriggerValue }}"; "{{ $env := .Env }}"].

(** Parse and execute a template with the definitions above. *)
Definition render_ctx `{CtxTemplate} (name content : string) (ctx : WorkflowContext) : result string :=
  let text := join (tpl_defs ++ [content])%list "" in
  match ctx_tpl_parse name text with
  | Some err => Err err
  | None => ctx_tpl_execute name text ctx
  end.

(** [InitProcessor]: the settings through JSON into a pointer, which stays nil
    when the settings are null. *)
Definition InitProcessor {T : Type} `{!Json iface, !Json (option T)} (settings : iface)
  : result (option T) :=
  match json_marshal settings with
  | Err err => Err err
  | Ok b => match json_unmarshal b (None : option T) with
            | (_, Some err) => Err err
            | (r, None) => Ok r
            end
  end.

(** ** event_drop *)

Record EventDropConfig := mkEventDropConfig { ed_Content : string }.

Definition EventDropConfig_Process `{CtxTemplate} {World} (c : option EventDropConfig)
    (w : World) (ctx : WorkflowContext)
  : go (World * WorkflowContext * result (returned_ctx * string)) :=
  match c with
  | None => Panic
  | Some c =>
      let text := join (tpl_defs ++ [ed_Content c])%list "" in
      match ctx_tpl_parse "eventdrop" text with
      | Some err => Ret (w, ctx, Err ("processor failed to parse template: " +:+ err))
      | None =>
          match ctx_tpl_execute "eventdrop" text ctx with
          | Err err => Ret (w, ctx, Err ("processor failed to execute template: " +:+ err))
          | Ok body =>
              if String.eqb (trim_space body) "true"
              then Ret (w, ctx <| WfCtx.Event := None |>, Ok (SameCtx, "drop event success"))
              else Ret (w, ctx, Ok (SameCtx, "drop event failed"))
          end
      end
  end.

Definition EventDropConfig_Init `{CtxTemplate, !Json iface, !Json (option EventDropConfig)} {World}
    (settings : iface) : go (result (Processor World)) :=
  Ret match InitProcessor settings with
      | Err err => Err err
      | Ok c => Ok (PlainProcessor (EventDropConfig_Process c))
      end.

(** ** relabel *)

Definition RelabelConfig_Init `{GoRange, RegexpSub, Md5, LabelNames, UnicodeCase,
    !Json iface, !Json (option RelabelConfig)} {World} (settings : iface)
  : go (result (Processor World)) :=
  Ret match InitProcessor settings with
      | Err err => Err err
      | Ok None => Ok (PlainProcessor (λ w ctx, Panic))
      | Ok (Some r) =>
          Ok (PlainProcessor (λ w ctx,
            match WfCtx.Event ctx with
            | None => Panic
            | Some event =>
                event' ← RelabelConfig_Process r event;
                Ret (w, ctx <| WfCtx.Event := Some event' |>, Ok (SameCtx, ""))
            end))
      end.

(** ** Conditions *)

Definition ConditionModeExpression := "expression".
Definition ConditionModeTags := "tags".

(** [f.Func = f.Op] where the operator is only given as [op]. *)
Definition default_func (f : TagFilter) : TagFilter :=
  if String.eqb (TagFlt.Func f) "" then f <| TagFlt.Func := TagFlt.Op f |> else f.

Section conditions.
Context `{CtxTemplate, Regexp, GoFmt, UnicodeCase, EventFieldJson, !Json (gmap string iface)}.

(** The filters of a condition, parsed in [Init] when there are any. *)
Definition parse_condition (filters : list TagFilter) : result (list TagFilter) :=
  if (0 <? length filters)%nat then ParseTagFilter (map default_func filters) else Ok [].

(** An expression that is not empty. *)
Definition eval_expression (name condition : string) (ctx : WorkflowContext) : result bool :=
  match render_ctx name condition ctx with
  | Err err => Err err
  | Ok buf => let r := trim_space (to_lower buf) in Ok (String.eqb r "true" || String.eqb r "1")
  end.

(** Labels and attributes, of which at least one is not empty. *)
Definition eval_tags (labelKeys attributes : list TagFilter) (event : option AlertCurEvent)
  : go (result bool) :=
  match event with
  | None => Panic
  | Some event =>
      labelMatch ← (if (0 <? length labelKeys)%nat
                    then MatchTags (Event.TagsMap event) labelKeys else Ret true);
      if negb labelMatch then Ret (Ok false)
      else
        attrMatch ← (if (0 <? length attributes)%nat
                     then MatchTags (JsonTagsAndValue event) attributes else Ret true);
        Ret (Ok attrMatch)
  end.

(** *** logic.if *)

Record IfConfig := mkIfConfig {
  if_Mode : string;
  if_Condition : string;
  if_LabelKeys : list TagFilter;
  if_Attributes : list TagFilter;
  if_parsedLabelKeys : list TagFilter;
  if_parsedAttributes : list TagFilter
}.

Definition If_evaluateCondition (c : IfConfig) (ctx : WorkflowContext) : go (result bool) :=
  if String.eqb (if_Mode c) ConditionModeTags then
    if (length (if_parsedLabelKeys c) =? 0)%nat && (length (if_parsedAttributes c) =? 0)%nat
    then Ret (Ok true)
    else eval_tags (if_parsedLabelKeys c) (if_parsedAttributes c) (WfCtx.Event ctx)
  else if String.eqb (if_Condition c) "" then Ret (Ok true)
  else Ret (eval_expression "if_condition" (if_Condition c) ctx).

Definition If_ProcessWithBranch {World} (c : IfConfig) (w : World) (ctx : WorkflowContext)
  : go (World * WorkflowContext * result (option NodeOutput)) :=
  r ← If_evaluateCondition c ctx;
  Ret match r with
      | Err err => (w, ctx, Err ("if processor: failed to evaluate condition: " +:+ err))
      | Ok matched =>
          let output := NodeOut.zero <| NodeOut.WfCtx := SameCtx |> in
          (w, ctx, Ok (Some
            (if matched : bool
             then output <| NodeOut.BranchIndex := Some 0 |>
                         <| NodeOut.Message := "condition matched (true branch)" |>
             else output <| NodeOut.BranchIndex := Some 1 |>
                         <| NodeOut.Message := "condition not matched (false branch)" |>)))
      end.

Definition If_Init `{!Json iface, !Json (option IfConfig)} {World} (settings : iface)
  : go (result (Processor World)) :=
  match InitProcessor settings with
  | Err err => Ret (Err err)
  | Ok None => Panic
  | Ok (Some c) =>
      Ret match parse_condition (if_LabelKeys c) with
      | Err err => Err ("failed to parse label_keys: " +:+ err)
      | Ok labelKeys =>
          match parse_condition (if_Attributes c) with
          | Err err => Err ("failed to parse attributes: " +:+ err)
          | Ok attributes =>
              Ok (BranchProcessor (If_ProcessWithBranch
                (mkIfConfig (if_Mode c) (if_Condition c) (if_LabelKeys c) (if_Attributes c)
                   labelKeys attributes)))
          end
      end
  end.

(** *** logic.switch *)

Record SwitchCase := mkSwitchCase {
  sc_Mode : string;
  sc_Condition : string;
  sc_LabelKeys : list TagFilter;
  sc_Attributes : list TagFilter;
  sc_Name : string;
  sc_parsedLabelKeys : list TagFilter;
  sc_parsedAttributes : list TagFilter
}.

Record SwitchConfig := mkSwitchConfig { sw_Cases : list SwitchCase; sw_AllowMultiple : bool }.

Definition evaluateCaseCondition (c : SwitchCase) (ctx : WorkflowContext) : go (result bool) :=
  if String.eqb (sc_Mode c) ConditionModeTags then
    if (length (sc_parsedLabelKeys c) =? 0)%nat && (length (sc_parsedAttributes c) =? 0)%nat
    then Ret (Ok false)
    else eval_tags (sc_parsedLabelKeys c) (sc_parsedAttributes c) (WfCtx.Event ctx)
  else if String.eqb (sc_Condition c) "" then Ret (Ok false)
  else Ret (eval_expression "switch_condition" (sc_Condition c) ctx).

(** [evaluateCases] from the case with index [i]; [None] is the index -1. *)
Fixpoint evaluateCases (i : Z) (cases : list SwitchCase) (ctx : WorkflowContext)
  : go (result (option (Z * string))) :=
  match cases with
  | [] => Ret (Ok None)
  | c :: cases' =>
      r ← evaluateCaseCondition c ctx;
      match r with
      | Err err => Ret (Err ("case[" +:+ itoa i +:+ "] evaluation error: " +:+ err))
      | Ok true => Ret (Ok (Some (i, sc_Name c)))
      | Ok false => evaluateCases (i + 1) cases' ctx
      end
  end.

Definition Switch_ProcessWithBranch {World} (c : SwitchConfig) (w : World) (ctx : WorkflowContext)
  : go (World * WorkflowContext * result (option NodeOutput)) :=
  r ← evaluateCases 0 (sw_Cases c) ctx;
  Ret match r with
      | Err err => (w, ctx, Err ("switch processor: failed to evaluate cases: " +:+ err))
      | Ok found =>
          let output := NodeOut.zero <| NodeOut.WfCtx := SameCtx |> in
          (w, ctx, Ok (Some
            match found with
            | Some (index, caseName) =>
                let output := output <| NodeOut.BranchIndex := Some index |> in
                if String.eqb caseName ""
                then output <| NodeOut.Message := "matched case[" +:+ itoa index +:+ "]" |>
                else output <| NodeOut.Message := "matched case[" +:+ itoa index +:+ "]: " +:+ caseName |>
            | None =>
                output <| NodeOut.BranchIndex := Some (Z.of_nat (length (sw_Cases c))) |>
                       <| NodeOut.Message := "no case matched, using default branch" |>
            end))
      end.

Fixpoint parse_cases (i : Z) (cases : list SwitchCase) : result (list SwitchCase) :=
  match cases with
  | [] => Ok []
  | c :: cases' =>
      match parse_condition (sc_LabelKeys c) with
      | Err err => Err ("failed to parse label_keys for case[" +:+ itoa i +:+ "]: " +:+ err)
      | Ok labelKeys =>
          match parse_condition (sc_Attributes c) with
          | Err err => Err ("failed to parse attributes for case[" +:+ itoa i +:+ "]: " +:+ err)
          | Ok attributes =>
              rest ← parse_cases (i + 1) cases';
              Ok (mkSwitchCase (sc_Mode c) (sc_Condition c) (sc_LabelKeys c) (sc_Attributes c)
                    (sc_Name c) labelKeys attributes :: rest)
          end
      end
  end.

Definition Switch_Init `{!Json iface, !Json (option SwitchConfig)} {World} (settings : iface)
  : go (result (Processor World)) :=
  match InitProcessor settings with
  | Err err => Ret (Err err)
  | Ok None => Panic
  | Ok (Some c) =>
      Ret (cases ← parse_cases 0 (sw_Cases c);
           Ok (BranchProcessor (Switch_ProcessWithBranch (mkSwitchConfig cases (sw_AllowMultiple c)))))
  end.

(** ** Which pipelines apply to an event *)

Definition PipelineApplicable (pipeline : EventPipeline) (event : AlertCurEvent) : go bool :=
  if negb (Pipe.FilterEnable pipeline) then Ret true
  else
    match (if (0 <? length (Pipe.LabelFilters pipeline))%nat
           then Some <$> ParseTagFilter (map default_func (Pipe.LabelFilters pipeline))
           else Ok None) with
    | Err _ => Ret false
    | Ok labelFilters =>
        tagMatch ← match labelFilters with
                   | Some fs => MatchTags (Event.TagsMap event) fs
                   | None => Ret true
                   end;
        match (if (0 <? length (Pipe.AttrFilters pipeline))%nat
               then Some <$> ParseTagFilter (Pipe.AttrFilters pipeline)
               else Ok None) with
        | Err _ => Ret false
        | Ok attrFilters =>
            attributesMatch ← match attrFilters with
                              | Some fs => MatchTags (JsonTagsAndValue event) fs
                              | None => Ret true
                              end;
            Ret (tagMatch && attributesMatch)
        end
    end.
End conditions.

(** ** The pipelines of an event *)

(** What a run of the pipelines writes besides the event: execution records,
    and a notification record when a notification rule's pipeline drops the
    event. *)
Inductive pipeline_output :=
| SavedExecution (x : EventPipelineExecution)
| NotifyRecord (event : AlertCurEvent) (notifyRuleId : Z) (channel target res : string) (err : error).

Section pipelines.
Context {World : Type} `{RT : Runtime World, GR : GoRange}.
Context `{Regexp, GoFmt, EventFieldJson, !Json (gmap string iface)}.
Context `{!Json (list NodeExecutionResult), !Json (gmap string string), !Json iface}.

Fixpoint run_pipelines (pipelineConfigs : list PipelineConfig) (eventOrigin event : AlertCurEvent)
    (eventProcessorCache : gmap Z EventPipeline) (id : Z) (from : string) (w : World)
    (out : list pipeline_output) : go (World * option AlertCurEvent * list pipeline_output) :=
  match pipelineConfigs with
  | [] => Ret (w, Some event, out)
  | pipelineConfig :: rest =>
      let continue := run_pipelines rest eventOrigin event eventProcessorCache id from w out in
      if negb (PipelineConf.Enable pipelineConfig) then continue
      else match eventProcessorCache !! PipelineConf.PipelineId pipelineConfig with
      | None => continue
      | Some eventPipeline =>
          applicable ← PipelineApplicable eventPipeline event;
          if negb applicable then continue
          else
            let triggerCtx := TriggerCtx.zero <| TriggerCtx.Mode := TriggerModeEvent |>
                                              <| TriggerCtx.TriggerBy := from |> in
            '(w, resultEvent, result, record) ← Execute eventPipeline (Some event) (Some triggerCtx) w;
            let out := match record with
                       | Some x => (out ++ [SavedExecution x])%list
                       | None => out
                       end in
            match resultEvent with
            | None =>
                let out :=
                  if String.eqb from "notify_rule" then
                    (out ++ [NotifyRecord eventOrigin id "" "" (WfResult.Message result)
                       ("processor_by_" +:+ from +:+ "_id:" +:+ itoa id +:+ " pipeline_id:"
                        +:+ itoa (PipelineConf.PipelineId pipelineConfig) +:+ ", drop by pipeline")])%list
                  else out in
                Ret (w, None, out)
            | Some event => run_pipelines rest eventOrigin event eventProcessorCache id from w out
            end
      end
  end.

Definition HandleEventPipeline (pipelineConfigs : list PipelineConfig)
    (eventOrigin event : AlertCurEvent) (eventProcessorCache : gmap Z EventPipeline)
    (id : Z) (from : string) (w : World) : go (World * option AlertCurEvent * list pipeline_output) :=
  '(w, event, out) ← run_pipelines pipelineConfigs eventOrigin event eventProcessorCache id from w [];
  Ret (w, option_map (λ e, FillTagsMap (FE2DB e)) event, out).

(** ** Properties *)

(** A pipeline configuration that does not run: it is switched off, or there
    is no such pipeline. *)
Definition not_run (cache : gmap Z EventPipeline) (c : PipelineConfig) : Prop :=
  PipelineConf.Enable c = false ∨ cache !! PipelineConf.PipelineId c = None.

Lemma run_pipelines_app cfgs cfgs' origin e cache id from w out :
  run_pipelines (cfgs ++ cfgs')%list origin e cache id from w out
  = ('(w, e, out) ← run_pipelines cfgs origin e cache id from w out;
     match e with
     | Some e => run_pipelines cfgs' origin e cache id from w out
     | None => Ret (w, None, out)
     end).
Proof.
  revert e w out. induction cfgs as [|c cfgs IH]; intros e w out; cbn [run_pipelines app]; [done|].
  destruct (negb (PipelineConf.Enable c)); [apply IH|].
  destruct (cache !! PipelineConf.PipelineId c) as [p|]; [|apply IH].
  destruct (PipelineApplicable p e) as [[]|]; cbn [mbind go_bind negb]; [|apply IH|done].
  destruct (Execute _ _ _ _) as [[[[w' [e'|]] res] rec]|]; cbn [mbind go_bind]; [apply IH|done|done].
Qed.

(** The event that leaves the pipelines has its database columns and its tag
    map rebuilt from its tags, whatever the processors did. *)
Theorem HandleEventPipeline_consistent cfgs origin e cache id from w w' e' out :
  HandleEventPipeline cfgs origin e cache id from w = Ret (w', Some e', out) →
  Event.Tags e' = join (Event.TagsJSON e') ",," ∧ Event.TagsMap e' = tags_map (Event.TagsJSON e') ∧
  Event.Callbacks e' = join (Event.CallbacksJSON e') " " ∧
  Event.Annotations e' = marshal_text (Event.AnnotationsJSON e').
Proof.
  unfold HandleEventPipeline. intros ([[w1 [e1|]] out1] & _ & Hr)%go_bind_Ret; simplify_eq/=.
  unfold FillTagsMap, FE2DB. by rsimp.
Qed.

Lemma HandleEventPipeline_skip cfgs origin e cache id from w :
  Forall (not_run cache) cfgs →
  HandleEventPipeline cfgs origin e cache id from w = Ret (w, Some (FillTagsMap (FE2DB e)), []).
Proof.
  intros Hall. unfold HandleEventPipeline.
  assert (run_pipelines cfgs origin e cache id from w [] = Ret (w, Some e, [])) as ->; [|done].
  induction Hall as [|c cfgs Hc _ IH]; [done|]. cbn [run_pipelines].
  destruct Hc as [-> | ->]; [done|]. by destruct (PipelineConf.Enable c).
Qed.

(** Configurations that do not run change nothing: neither the event, apart
    from that rebuilding, nor anything else. *)
Theorem HandleEventPipeline_not_run cfgs origin e cache id from w :
  Forall (not_run cache) cfgs →
  HandleEventPipeline cfgs origin e cache id from w = Ret (w, Some (FillTagsMap (FE2DB e)), []).
Proof. apply HandleEventPipeline_skip. Qed.

(** When a pipeline drops the event, the pipelines after it do not run, and
    the event is dropped. *)
Theorem HandleEventPipeline_dropped cfgs cfgs' origin e cache id from w w' out :
  run_pipelines cfgs origin e cache id from w [] = Ret (w', None, out) →
  HandleEventPipeline (cfgs ++ cfgs')%list origin e cache id from w = Ret (w', None, out).
Proof. intros Hr. unfold HandleEventPipeline. by rewrite run_pipelines_app, Hr. Qed.
End pipelines.

Section decisions.
Context `{CtxTemplate, Regexp, GoFmt, UnicodeCase, EventFieldJson, !Json (gmap string iface)}.

(** Without panicking or failing, a switch takes the first case that holds,
    and its default output, numbered after the cases, when none does. *)
Theorem Switch_first_match {World : Type} c (w w' : World) ctx ctx' o :
  Switch_ProcessWithBranch c w ctx = Ret (w', ctx', Ok (Some o)) →
  w' = w ∧ ctx' = ctx ∧ ∃ i, NodeOut.BranchIndex o = Some (Z.of_nat i) ∧
    (∀ k case, (k < i)%nat → sw_Cases c !! k = Some case →
       evaluateCaseCondition case ctx = Ret (Ok false)) ∧
    (∀ case, sw_Cases c !! i = Some case → evaluateCaseCondition case ctx = Ret (Ok true)) ∧
    (i ≤ length (sw_Cases c))%nat.
Proof.
  unfold Switch_ProcessWithBranch. intros ([found|err] & He & Hr)%go_bind_Ret; [|done].
  assert (∀ cases n, evaluateCases n cases ctx = Ret (Ok found) →
    match found with
    | Some (j, name) => ∃ i, j = n + Z.of_nat i ∧ (i < length cases)%nat ∧
        (∀ k case, (k < i)%nat → cases !! k = Some case → evaluateCaseCondition case ctx = Ret (Ok false)) ∧
        (∀ case, cases !! i = Some case → evaluateCaseCondition case ctx = Ret (Ok true))
    | None => ∀ case, case ∈ cases → evaluateCaseCondition case ctx = Ret (Ok false)
    end) as Hspec.
  { clear He Hr. induction cases as [|case cases IH]; intros n; cbn [evaluateCases].
    - intros [= <-]. set_solver.
    - intros ([[]|] & Hc & Hf)%go_bind_Ret; [|apply IH in Hf|done].
      + injection Hf as <-. exists 0%nat. split_and!; [lia|simpl; lia| |].
        * intros; lia. * intros case' [= <-]. done.
      + destruct found as [[j name]|].
        * destruct Hf as (i & -> & Hi & Hlt & Hat). exists (S i). split_and!; [lia|simpl; lia| |done].
          intros [|k] case' Hk; [by intros [= <-]|]. apply Hlt. lia.
        * intros case' [->|Hin]%elem_of_cons; auto. }
  apply Hspec in He. destruct found as [[j name]|].
  - destruct He as (i & -> & Hi & Hlt & Hat). injection Hr as <- <- <-. split_and!; [done..|].
    exists i. split_and!; [|done|done|lia]. by case_match; rsimp.
  - injection Hr as <- <- <-. split_and!; [done..|]. exists (length (sw_Cases c)). rsimp.
    split_and!; [done| | |done].
    + intros k case _ Hk%list_elem_of_lookup_2. auto.
    + intros case Hk%lookup_lt_Some. lia.
Qed.

(** An event_drop processor drops the event exactly when its template renders
    to "true", up to surrounding space. *)
Theorem EventDrop_drops {World : Type} c (w w' : World) ctx ctx' r :
  EventDropConfig_Process (Some c) w ctx = Ret (w', ctx', Ok r) →
  ∃ text body, ctx_tpl_execute "eventdrop" text ctx = Ok body ∧
    ctx' = (if String.eqb (trim_space body) "true" then ctx <| WfCtx.Event := None |> else ctx) ∧
    fst r = SameCtx.
Proof.
  unfold EventDropConfig_Process. case_match; [done|].
  destruct (ctx_tpl_execute _ _ ctx) as [body|] eqn:E; [|done]. intros Hr.
  eexists _, body. split; [exact E|]. by destruct (String.eqb (trim_space body) "true"); simplify_eq.
Qed.

(** A node of one of these types without configuration (JSON null) is a nil
    pointer that is dereferenced: at the latest when it is run, it panics. *)
Theorem nil_config_panics `{!Json iface, !Json (option EventDropConfig), !Json (option IfConfig)}
    {World : Type} b (w : World) ctx :
  json_marshal INil = Ok b →
  json_unmarshal b (None : option IfConfig) = (None, None) →
  json_unmarshal b (None : option EventDropConfig) = (None, None) →
  If_Init (World := World) INil = Panic ∧
  ∃ p, EventDropConfig_Init (World := World) INil = Ret (Ok (PlainProcessor p)) ∧ p w ctx = Panic.
Proof.
  intros Hm Hi Hd. unfold If_Init, EventDropConfig_Init, InitProcessor. rewrite Hm, Hi, Hd.
  split; [done|]. by eexists.
Qed.
End decisions.
