(* ===== verification/RuleOps.v ===== *)
(** * Alert rules: [models/alert_rule.go]

    Validation of a rule, its database form and its front-end form, the
    expansion of its data source queries, and the copies a rule makes into its
    events.  Database reads, JSON, cron expressions and the string helpers of
    the toolkits package are parameters. *)

From Stdlib Require Import Ascii.
From S2P Require Import Prelude GoStrings Json Models RuleModels EventOps.
Open Scope string_scope.
Open Scope Z_scope.

(** [toolkits/pkg/str]: [MD5] and [Dangerous]. *)
Class StrLib := { str_md5 : string → string; str_dangerous : string → bool }.

(** [robfig/cron]: the error of adding a function with this expression. *)
Class CronLib := { cron_error : string → option error }.

(** [tidwall/match]: [Match text pattern]. *)
Class GlobLib := { glob_match : string → string → bool }.

(** The [interface{}] value that holds a [PromRuleConfig]. *)
Class PromIface := { prom_iface : PromRuleConfig → iface }.

(** The anonymous struct that [DB2FE] decodes the relabel configuration into. *)
Record relabel_part := mkRelabelPart { rp_EventRelabelConfig : list RelabelConfig }.

Definition DatasourceIdAll : Z := 0.

Definition is_nil (v : iface) : bool := match v with INil => true | _ => false end.

(** ** Data sources *)

Section datasources.
Context `{GR : GoRange, GlobLib}.

(** The integer an element of the values denotes, if any. *)
Definition id_value (v : iface) : option Z :=
  match v with
  | IInt z => Some z
  | IFloat f => Some (float64_to_int f)
  | _ => None
  end.

(** One value of a name query matches the data source name. *)
Definition name_value_matches (dsName : string) (v : iface) : bool :=
  match v with IString p => glob_match dsName p | _ => false end.

(** The identifiers whose name matches one of the values, by the iteration
    over the name map. *)
Definition matching_ids (nameMap : gmap string Z) (values : list iface) : gset Z :=
  foldl (λ s ni, if existsb (name_value_matches (fst ni)) values then {[snd ni]} ∪ s else s)
    ∅ (go_range nameMap).

(** One query, on the identifiers that passed the earlier ones. *)
Definition datasource_query_step (nameMap : gmap string Z) (curIDs : gset Z) (q : DatasourceQuery)
  : gset Z :=
  let op := DsQuery.Op q in
  if DsQuery.MatchType q =? 0 then
    let idValues := omap id_value (DsQuery.Values q) in
    if String.eqb op "in" then
      if decide (idValues = [DatasourceIdAll]) then curIDs
      else list_to_set (filter (λ id, id ∈ curIDs) idValues)
    else if String.eqb op "not in" then curIDs ∖ list_to_set idValues
    else ∅
  else if DsQuery.MatchType q =? 1 then
    if String.eqb op "in" then curIDs ∩ matching_ids nameMap (DsQuery.Values q)
    else if String.eqb op "not in" then curIDs ∖ matching_ids nameMap (DsQuery.Values q)
    else ∅
  else if DsQuery.MatchType q =? 2 then curIDs
  else ∅.

(** The loop, which stops as soon as nothing is left. *)
Fixpoint datasource_queries_loop (nameMap : gmap string Z) (curIDs : gset Z)
    (qs : list DatasourceQuery) : gset Z :=
  match qs with
  | [] => curIDs
  | q :: qs' =>
      let dsIDs := datasource_query_step nameMap curIDs q in
      if decide (dsIDs = ∅) then dsIDs else datasource_queries_loop nameMap dsIDs qs'
  end.

Definition GetDatasourceIDsByDatasourceQueries {T : Type} (datasourceQueries : list DatasourceQuery)
    (idMap : gmap Z T) (nameMap : gmap string Z) : list Z :=
  if (length datasourceQueries =? 0)%nat then []
  else map fst (go_range (gset_to_gmap tt
         (datasource_queries_loop nameMap (dom idMap) datasourceQueries))).
End datasources.

(** The old column of data source identifiers as a query: 0 means all. *)
Fixpoint ids_query (q : DatasourceQuery) (values : list Z) : DatasourceQuery :=
  match values with
  | [] => q
  | v :: values' =>
      if v =? 0 then q <| DsQuery.MatchType := 2 |>
      else ids_query (q <| DsQuery.Values := (DsQuery.Values q ++ [IInt v])%list |>) values'
  end.

Section rule.
Context `{GR : GoRange, StrLib, CronLib, PromIface}.
Context `{!Json iface, !Json (option (gmap string string)), !Json (list Z)}.
Context `{!Json RuleQuery, !Json PromRuleConfig, !Json relabel_part}.
Implicit Types ar : AlertRule.

Definition FillDatasourceQueries ar : AlertRule :=
  if (length (Rule.DatasourceQueries ar) =? 0)%nat && negb (String.eqb (Rule.DatasourceIds ar) "") then
    let values := fst (json_unmarshal (Rule.DatasourceIds ar) ([] : list Z)) in
    ar <| Rule.DatasourceQueries :=
            [ids_query (DsQuery.zero <| DsQuery.Op := "in" |>) values] |>
  else ar.

(** The distinct severities, in the order the map is visited. *)
Definition distinct_severities (l : list Z) : list Z :=
  map fst (go_range (gset_to_gmap tt (list_to_set l : gset Z))).

Definition FillSeverities ar : AlertRule * option error :=
  if String.eqb (Rule.RuleConfig ar) "" then (ar, None)
  else match json_unmarshal (Rule.RuleConfig ar) RuleQ.zero with
  | (_, Some err) => (ar, Some err)
  | (rule, None) =>
      let add l := ar <| Rule.Severities := (Rule.Severities ar ++ l)%list |> in
      if (String.eqb (Rule.Cate ar) PROMETHEUS || String.eqb (Rule.Cate ar) LOKI)
         && negb (String.eqb (RuleQ.Version rule) "v2") then
        match json_unmarshal (Rule.RuleConfig ar) PromRuleConf.zero with
        | (_, Some err) => (ar, Some err)
        | (prule, None) =>
            if (length (PromRuleConf.Queries prule) =? 0)%nat
            then (add [PromRuleConf.Severity prule], None)
            else (add (distinct_severities (map PromQ.Severity (PromRuleConf.Queries prule))), None)
        end
      else (add (distinct_severities (map Trig.Severity (RuleQ.Triggers rule))), None)
  end.

(** ** Validation *)

Definition validateCronPattern ar : option error :=
  if String.eqb (Rule.CronPattern ar) "" then None
  else match cron_error (Rule.CronPattern ar) with
       | Some err => Some ("invalid cron pattern: " +:+ Rule.CronPattern ar +:+ ", error: " +:+ err)
       | None => None
       end.

(** The clearing of the fields of the notification version not in use. *)
Definition clear_notify ar : AlertRule :=
  let ar := if Rule.NotifyVersion ar =? 0 then ar <| Rule.NotifyRuleIds := [] |> else ar in
  if 0 <? Rule.NotifyVersion ar then
    ar <| Rule.NotifyChannelsJSON := [] |> <| Rule.NotifyGroupsJSON := [] |>
       <| Rule.NotifyChannels := "" |> <| Rule.NotifyGroups := "" |>
       <| Rule.Callbacks := "" |> <| Rule.CallbacksJSON := [] |>
  else ar.

(** The defaults [Verify] fills in before it looks at the rest. *)
Definition verify_defaults ar : AlertRule :=
  let ar := if String.eqb (Rule.Prod ar) "" then ar <| Rule.Prod := METRIC |> else ar in
  if String.eqb (Rule.Cate ar) "" then ar <| Rule.Cate := PROMETHEUS |> else ar.

Definition AlertRule_Verify ar : AlertRule * option error :=
  if Rule.GroupId ar <? 0 then (ar, Some ("GroupId(" +:+ itoa (Rule.GroupId ar) +:+ ") invalid"))
  else
  let ar := ar <| Rule.Name := trim_space (Rule.Name ar) |> in
  if String.eqb (Rule.Name ar) "" then (ar, Some "name is blank")
  else if str_dangerous (Rule.Name ar) then (ar, Some "Name has invalid characters")
  else
  let ar := verify_defaults ar in
  if String.eqb (Rule.RuleConfig ar) "" then (ar, Some "rule_config is blank")
  else
  let ar := if Rule.PromEvalInterval ar <=? 0 then ar <| Rule.PromEvalInterval := 15 |> else ar in
  let ar := ar <| Rule.AppendTags := trim_space (Rule.AppendTags ar) |> in
  match list_find (λ t, contains t "=" = false) (fields (Rule.AppendTags ar)) with
  | Some (_, t) => (ar, Some ("AppendTags(" +:+ t +:+ ") invalid"))
  | None =>
      match list_find (λ g, parse_int g = None) (fields (Rule.NotifyGroups ar)) with
      | Some _ => (ar, Some ("NotifyGroups(" +:+ Rule.NotifyGroups ar +:+ ") invalid"))
      | None =>
          match validateCronPattern ar with
          | Some err => (ar, Some err)
          | None => (clear_notify ar, None)
          end
      end
  end.

(** ** Database form and front-end form *)

(** The loop over the day groups, appending to the column when there are
    several. *)
Definition days_column (old : string) (groups : list (list string)) : string :=
  match groups with
  | [] => old
  | [g] => join g " "
  | _ => old +:+ join (map (λ g, join g " ") groups) ";"
  end.

(** The columns that are not JSON. *)
Definition FE2DB_columns ar : AlertRule :=
  let ar := if (0 <? length (Rule.EnableStimesJSON ar))%nat
            then ar <| Rule.EnableStime := join (Rule.EnableStimesJSON ar) " " |>
                    <| Rule.EnableEtime := join (Rule.EnableEtimesJSON ar) " " |>
            else ar <| Rule.EnableStime := Rule.EnableStimeJSON ar |>
                    <| Rule.EnableEtime := Rule.EnableEtimeJSON ar |> in
  let ar := if (0 <? length (Rule.EnableDaysOfWeeksJSON ar))%nat
            then ar <| Rule.EnableDaysOfWeek :=
                         days_column (Rule.EnableDaysOfWeek ar) (Rule.EnableDaysOfWeeksJSON ar) |>
            else ar <| Rule.EnableDaysOfWeek := join (Rule.EnableDaysOfWeekJSON ar) " " |> in
  let ar := ar <| Rule.NotifyChannels := join (Rule.NotifyChannelsJSON ar) " " |>
               <| Rule.NotifyGroups := join (Rule.NotifyGroupsJSON ar) " " |>
               <| Rule.Callbacks := join (Rule.CallbacksJSON ar) " " |>
               <| Rule.AppendTagsJSON := map (λ t, replace_all t " " "") (Rule.AppendTagsJSON ar) |> in
  if (0 <? length (Rule.AppendTagsJSON ar))%nat
  then ar <| Rule.AppendTags := join (Rule.AppendTagsJSON ar) " " |> else ar.

(** A rule in the old form, a query and a severity, as a configuration. *)
Definition upgrade_config ar : AlertRule :=
  if is_nil (Rule.RuleConfigJson ar) || negb (String.eqb (Rule.PromQl ar) "")
  then ar <| Rule.RuleConfigJson := prom_iface (PromRuleConf.zero
         <| PromRuleConf.Queries := [PromQ.zero <| PromQ.PromQl := Rule.PromQl ar |>
                                                <| PromQ.Severity := Rule.Severity ar |>] |>) |>
  else ar.

(** The JSON columns: each is written unless its value is nil, and the first
    error ends the conversion. *)
Definition FE2DB_algo ar : AlertRule * option error :=
  match json_marshal (Rule.AlgoParamsJson ar) with
  | Err err => (ar, Some ("marshal algo_params err:" +:+ err))
  | Ok b => (ar <| Rule.AlgoParams := b |>, None)
  end.
Definition FE2DB_config ar : AlertRule * option error :=
  if is_nil (Rule.RuleConfigJson ar) then (ar, None)
  else match json_marshal (Rule.RuleConfigJson ar) with
       | Err err => (ar, Some ("marshal rule_config err:" +:+ err))
       | Ok b => (ar <| Rule.RuleConfig := b |> <| Rule.PromQl := "" |>, None)
       end.
Definition FE2DB_annotations ar : AlertRule * option error :=
  match Rule.AnnotationsJSON ar with
  | None => (ar, None)
  | Some _ => match json_marshal (Rule.AnnotationsJSON ar) with
              | Err err => (ar, Some ("marshal annotations err:" +:+ err))
              | Ok b => (ar <| Rule.Annotations := b |>, None)
              end
  end.
Definition FE2DB_extra ar : AlertRule * option error :=
  if is_nil (Rule.ExtraConfigJSON ar) then (ar, None)
  else match json_marshal (Rule.ExtraConfigJSON ar) with
       | Err err => (ar, Some ("marshal extra_config err:" +:+ err))
       | Ok b => (ar <| Rule.ExtraConfig := b |>, None)
       end.

(** Go on unless there was an error. *)
Definition then_ (x : AlertRule * option error) (k : AlertRule → AlertRule * option error) :=
  match x with (ar, None) => k ar | (ar, Some err) => (ar, Some err) end.

Definition AlertRule_FE2DB ar : AlertRule * option error :=
  then_ (FE2DB_algo (FE2DB_columns ar)) (λ ar,
  then_ (FE2DB_config (upgrade_config ar)) (λ ar,
  then_ (FE2DB_annotations ar) FE2DB_extra)).

(** [ar.EnableStimesJSON[0]] is read when there is an end time: without a
    start time that is an index out of range. *)
Definition DB2FE_times ar : go AlertRule :=
  let ar := ar <| Rule.EnableStimesJSON := fields (Rule.EnableStime ar) |>
               <| Rule.EnableEtimesJSON := fields (Rule.EnableEtime ar) |> in
  if (0 <? length (Rule.EnableEtimesJSON ar))%nat then
    s ← go_index (Rule.EnableStimesJSON ar) 0;
    e ← go_index (Rule.EnableEtimesJSON ar) 0;
    Ret (ar <| Rule.EnableStimeJSON := s |> <| Rule.EnableEtimeJSON := e |>)
  else Ret ar.

(** The day groups are appended to those already there. *)
Definition DB2FE_days ar : AlertRule :=
  let ar := ar <| Rule.EnableDaysOfWeeksJSON :=
                    (Rule.EnableDaysOfWeeksJSON ar
                     ++ map fields (split (Rule.EnableDaysOfWeek ar) ";"))%list |> in
  match Rule.EnableDaysOfWeeksJSON ar with
  | d :: _ => ar <| Rule.EnableDaysOfWeekJSON := d |>
  | [] => ar
  end.

Definition DB2FE_columns ar : AlertRule :=
  ar <| Rule.NotifyChannelsJSON := fields (Rule.NotifyChannels ar) |>
     <| Rule.NotifyGroupsJSON := fields (Rule.NotifyGroups ar) |>
     <| Rule.CallbacksJSON := fields (Rule.Callbacks ar) |>
     <| Rule.AppendTagsJSON := fields (Rule.AppendTags ar) |>
     <| Rule.AlgoParamsJson := fst (json_unmarshal (Rule.AlgoParams ar) (Rule.AlgoParamsJson ar)) |>
     <| Rule.RuleConfigJson := fst (json_unmarshal (Rule.RuleConfig ar) (Rule.RuleConfigJson ar)) |>
     <| Rule.AnnotationsJSON := fst (json_unmarshal (Rule.Annotations ar) (Rule.AnnotationsJSON ar)) |>
     <| Rule.ExtraConfigJSON := fst (json_unmarshal (Rule.ExtraConfig ar) (Rule.ExtraConfigJSON ar)) |>
     <| Rule.EventRelabelConfig :=
          rp_EventRelabelConfig (fst (json_unmarshal (Rule.RuleConfig ar) (mkRelabelPart []))) |>.

Definition default_cron ar : AlertRule :=
  if String.eqb (Rule.CronPattern ar) "" && negb (Rule.PromEvalInterval ar =? 0)
  then ar <| Rule.CronPattern := "@every " +:+ itoa (Rule.PromEvalInterval ar) +:+ "s" |>
  else ar.

Definition AlertRule_DB2FE ar : go AlertRule :=
  ar ← DB2FE_times ar;
  Ret (fst (FillSeverities (FillDatasourceQueries (default_cron (DB2FE_columns (DB2FE_days ar)))))).

(** [AlertRuleExists id groupId name] reads the database. *)
Definition AlertRule_Add (AlertRuleExists : Z → Z → string → result bool) (now : Z) ar
  : result AlertRule :=
  match AlertRule_Verify ar with
  | (_, Some err) => Err err
  | (ar, None) =>
      exists_ ← AlertRuleExists 0 (Rule.GroupId ar) (Rule.Name ar);
      if exists_ : bool then Err "AlertRule already exists"
      else Ok (ar <| Rule.CreateAt := now |> <| Rule.UpdateAt := now |>)
  end.

Definition AlertRule_Update (AlertRuleExists : Z → Z → string → result bool) (now : Z) ar arf
  : result AlertRule :=
  taken ← (if String.eqb (Rule.Name ar) (Rule.Name arf) then Ok false
           else AlertRuleExists (Rule.Id ar) (Rule.GroupId ar) (Rule.Name arf));
  if taken : bool then Err "AlertRule already exists"
  else match AlertRule_FE2DB arf with
  | (_, Some err) => Err err
  | (arf, None) =>
      let arf := arf <| Rule.Id := Rule.Id ar |> <| Rule.GroupId := Rule.GroupId ar |>
                     <| Rule.CreateAt := Rule.CreateAt ar |> <| Rule.CreateBy := Rule.CreateBy ar |>
                     <| Rule.UpdateAt := now |> in
      match AlertRule_Verify arf with
      | (_, Some err) => Err err
      | (arf, None) => Ok arf
      end
  end.

(** ** Kinds of rules *)

Definition IsPrometheusRule ar : bool :=
  String.eqb (Rule.Prod ar) METRIC && String.eqb (Rule.Cate ar) PROMETHEUS.
Definition IsLokiRule ar : bool := String.eqb (Rule.Prod ar) LOKI || String.eqb (Rule.Cate ar) LOKI.
Definition IsHostRule ar : bool := String.eqb (Rule.Prod ar) HOST.
Definition IsInnerRule ar : bool :=
  String.eqb (Rule.Prod ar) LOKI ||
  existsb (String.eqb (Rule.Cate ar))
    [TDENGINE; CLICKHOUSE; ELASTICSEARCH; LOKI; MYSQL; POSTGRESQL; DORIS; OPENSEARCH; VICTORIALOGS].
Definition GetRuleType ar : string :=
  if String.eqb (Rule.Prod ar) METRIC || String.eqb (Rule.Prod ar) LOG
  then Rule.Cate ar else Rule.Prod ar.

(** ** Rules and their events *)

Definition UpdateEvent ar (event : AlertCurEvent) : AlertCurEvent :=
  event <| Event.GroupId := Rule.GroupId ar |>
        <| Event.Cate := Rule.Cate ar |>
        <| Event.RuleId := Rule.Id ar |>
        <| Event.RuleName := Rule.Name ar |>
        <| Event.RuleNote := Rule.Note ar |>
        <| Event.RuleProd := Rule.Prod ar |>
        <| Event.RuleAlgo := Rule.Algorithm ar |>
        <| Event.PromForDuration := Rule.PromForDuration ar |>
        <| Event.Callbacks := Rule.Callbacks ar |>
        <| Event.CallbacksJSON := Rule.CallbacksJSON ar |>
        <| Event.RunbookUrl := Rule.RunbookUrl ar |>
        <| Event.NotifyRecovered := Rule.NotifyRecovered ar |>
        <| Event.NotifyChannels := Rule.NotifyChannels ar |>
        <| Event.NotifyChannelsJSON := Rule.NotifyChannelsJSON ar |>
        <| Event.NotifyGroups := Rule.NotifyGroups ar |>
        <| Event.NotifyGroupsJSON := Rule.NotifyGroupsJSON ar |>.

Definition GenerateNewEvent ar : AlertCurEvent := UpdateEvent ar Event.zero.

Definition AlertRule_Hash ar : string :=
  str_md5 (itoa (Rule.Id ar) +:+ "_" +:+ Rule.DatasourceIds ar +:+ "_" +:+ Rule.RuleConfig ar).

(** [Clone] does not copy: the result and the rule it is called on are the
    same object, given here as the pair of the two after the call. *)
Definition AlertRule_Clone (operatorName : string) (newBgid now : Z) ar : AlertRule * AlertRule :=
  let newAr := ar <| Rule.Id := 0 |> <| Rule.GroupId := newBgid |>
                  <| Rule.UpdateBy := operatorName |> <| Rule.UpdateAt := now |>
                  <| Rule.CreateBy := operatorName |> <| Rule.CreateAt := now |> in
  (newAr, newAr).
End rule.

(** ** Properties *)

Section datasource_spec.
Context `{GR : GoRange, GlobLib}.

(** What one query asks of a data source. *)
Definition query_selects (nameMap : gmap string Z) (q : DatasourceQuery) (d : Z) : Prop :=
  let ids := omap id_value (DsQuery.Values q) in
  let named := ∃ n v, nameMap !! n = Some d ∧ v ∈ DsQuery.Values q ∧ name_value_matches n v = true in
  DsQuery.MatchType q = 0 ∧ DsQuery.Op q = "in" ∧ (ids = [DatasourceIdAll] ∨ d ∈ ids) ∨
  DsQuery.MatchType q = 0 ∧ DsQuery.Op q = "not in" ∧ d ∉ ids ∨
  DsQuery.MatchType q = 1 ∧ DsQuery.Op q = "in" ∧ named ∨
  DsQuery.MatchType q = 1 ∧ DsQuery.Op q = "not in" ∧ ¬ named ∨
  DsQuery.MatchType q = 2.

Lemma elem_of_matching_ids nameMap values d :
  d ∈ matching_ids nameMap values ↔
  ∃ n v, nameMap !! n = Some d ∧ v ∈ values ∧ name_value_matches n v = true.
Proof.
  assert (Hl : ∀ l, d ∈ foldl (λ (s : gset Z) (ni : string * Z),
      if existsb (name_value_matches (fst ni)) values then {[snd ni]} ∪ s else s) ∅ l ↔
    ∃ n v, (n, d) ∈ l ∧ v ∈ values ∧ name_value_matches n v = true).
  { induction l as [|[n i] l IH] using rev_ind.
    { simpl. split; [intros []%elem_of_empty | intros (? & ? & []%not_elem_of_nil & _)]. }
    rewrite foldl_app. cbn [foldl fst snd]. setoid_rewrite elem_of_app.
    setoid_rewrite list_elem_of_singleton.
    destruct (existsb (name_value_matches n) values) eqn:E.
    - apply existsb_elem_of in E as (v & Hv & Hm). rewrite elem_of_union, elem_of_singleton, IH.
      naive_solver.
    - rewrite existsb_false_elem_of in E. rewrite IH. split; [naive_solver|].
      intros (n' & v & [Hin|[= -> ->]] & Hv & Hm); [naive_solver|]. by rewrite E in Hm. }
  unfold matching_ids. rewrite Hl.
  split; intros (n & v & Hn & Hv); exists n, v; [apply elem_of_go_range in Hn | rewrite elem_of_go_range]; done.
Qed.

Lemma datasource_query_step_spec nameMap cur q d :
  d ∈ datasource_query_step nameMap cur q ↔ d ∈ cur ∧ query_selects nameMap q d.
Proof.
  unfold datasource_query_step, query_selects.
  rewrite <- (elem_of_matching_ids nameMap (DsQuery.Values q) d).
  set (ids := omap id_value _). set (m := matching_ids _ _). clearbody ids m.
  generalize (DsQuery.MatchType q) as mt, (DsQuery.Op q) as op. intros mt op.
  destruct (Z.eqb_spec mt 0) as [->|H0].
  - destruct (String.eqb_spec op "in") as [->|Hi];
      [|destruct (String.eqb_spec op "not in") as [->|Hn]].
    + case_decide as Hids; [subst ids; intuition congruence|].
      rewrite elem_of_list_to_set, list_elem_of_filter. intuition (congruence || lia).
    + rewrite elem_of_difference, elem_of_list_to_set. intuition (congruence || lia).
    + rewrite elem_of_empty. intuition (congruence || lia).
  - destruct (Z.eqb_spec mt 1) as [->|H1]; [|destruct (Z.eqb_spec mt 2) as [->|H2]].
    + destruct (String.eqb_spec op "in") as [->|Hi];
        [|destruct (String.eqb_spec op "not in") as [->|Hn]].
      * rewrite elem_of_intersection. intuition (congruence || lia).
      * rewrite elem_of_difference. intuition (congruence || lia).
      * rewrite elem_of_empty. intuition (congruence || lia).
    + intuition (congruence || lia).
    + rewrite elem_of_empty. intuition (congruence || lia).
Qed.

Lemma datasource_loop_spec nameMap qs cur d :
  d ∈ datasource_queries_loop nameMap cur qs ↔ d ∈ cur ∧ Forall (λ q, query_selects nameMap q d) qs.
Proof.
  revert cur. induction qs as [|q qs IH]; intros cur; cbn [datasource_queries_loop].
  - rewrite Forall_nil. tauto.
  - rewrite Forall_cons. pose proof (datasource_query_step_spec nameMap cur q d) as Hs.
    case_decide as He; [rewrite He in Hs |- *; set_solver|]. rewrite IH, Hs. tauto.
Qed.

(** The data sources a rule runs on are those of its kind that all its
    queries select: exact identifiers, name patterns, their negations, or all;
    without queries there are none, and none is listed twice. *)
Theorem GetDatasourceIDs_spec {T : Type} qs (idMap : gmap Z T) nameMap d :
  (d ∈ GetDatasourceIDsByDatasourceQueries qs idMap nameMap ↔
   qs ≠ [] ∧ is_Some (idMap !! d) ∧ ∀ q, q ∈ qs → query_selects nameMap q d) ∧
  NoDup (GetDatasourceIDsByDatasourceQueries qs idMap nameMap).
Proof.
  unfold GetDatasourceIDsByDatasourceQueries. destruct qs as [|q qs]; cbn [length Nat.eqb].
  { split; [set_solver | apply NoDup_nil_2]. }
  set (qs' := q :: qs). split; [|apply NoDup_fst_go_range].
  rewrite (elem_of_fst_go_range (gset_to_gmap tt (datasource_queries_loop nameMap (dom idMap) qs')) d).
  rewrite <- elem_of_dom, dom_gset_to_gmap, datasource_loop_spec, elem_of_dom, Forall_forall.
  naive_solver.
Qed.

Lemma ids_query_all q values :
  0 ∈ values → DsQuery.MatchType (ids_query q values) = 2.
Proof.
  revert q. induction values as [|v values IH]; intros q Hin; [set_solver|]. cbn [ids_query].
  destruct (Z.eqb_spec v 0) as [->|Hv]; [by rsimp|]. apply IH. set_solver.
Qed.

Lemma ids_query_exact q values :
  0 ∉ values → ids_query q values = q <| DsQuery.Values := (DsQuery.Values q ++ map IInt values)%list |>.
Proof.
  revert q. induction values as [|v values IH]; intros q Hin; cbn [ids_query map].
  { rewrite app_nil_r. by destruct q. }
  destruct (Z.eqb_spec v 0) as [->|Hv]; [set_solver|].
  rewrite IH by set_solver. rsimp. rewrite <- app_assoc. by destruct q.
Qed.

Lemma omap_id_value l : omap id_value (map IInt l) = l.
Proof. induction l as [|z l IH]; [done|]. cbn. f_equal. exact IH. Qed.

(** A rule that still has the old column of data source identifiers runs on
    the listed data sources of its kind, or on all of them when 0 is listed. *)
Theorem FillDatasourceQueries_selects `{!Json (list Z)} {T : Type} ar ids err
    (idMap : gmap Z T) nameMap d :
  Rule.DatasourceQueries ar = [] → Rule.DatasourceIds ar ≠ "" →
  json_unmarshal (Rule.DatasourceIds ar) ([] : list Z) = (ids, err) →
  d ∈ GetDatasourceIDsByDatasourceQueries (Rule.DatasourceQueries (FillDatasourceQueries ar)) idMap nameMap
  ↔ is_Some (idMap !! d) ∧ (0 ∈ ids ∨ d ∈ ids).
Proof.
  intros Hq Hd Hj. unfold FillDatasourceQueries. apply String.eqb_neq in Hd.
  rewrite Hq, Hd, Hj. cbn [length Nat.eqb negb andb fst]. rsimp.
  set (q := ids_query _ ids). unfold GetDatasourceIDsByDatasourceQueries. cbn [length Nat.eqb].
  rewrite (elem_of_fst_go_range (gset_to_gmap tt (datasource_queries_loop nameMap (dom idMap) [q])) d).
  rewrite <- elem_of_dom, dom_gset_to_gmap, datasource_loop_spec, elem_of_dom, Forall_singleton.
  assert (query_selects nameMap q d ↔ 0 ∈ ids ∨ d ∈ ids) as ->; [|done].
  unfold query_selects, q. destruct (decide (0 ∈ ids)) as [Hz|Hz].
  - rewrite ids_query_all by done. intuition lia.
  - rewrite ids_query_exact by done. unfold DsQuery.zero. cbn [DsQuery.Values DsQuery.MatchType DsQuery.Op].
    rsimp. cbn [app DsQuery.Values DsQuery.MatchType]. rewrite omap_id_value.
    split; [|intros [?|?]; [done|]; left; auto].
    intros [(_ & _ & [->|?])|[(_ & ? & _)|[(? & _)|[(? & _)|?]]]]; try done; auto. set_solver.
Qed.
End datasource_spec.

Section rule_spec.
Context `{GR : GoRange, StrLib, CronLib, PromIface}.
Context `{!Json iface, !Json (option (gmap string string)), !Json (list Z)}.
Context `{!Json RuleQuery, !Json PromRuleConfig, !Json relabel_part}.

(** What a stored rule satisfies. *)
Record rule_ok (r : AlertRule) : Prop := {
  ok_group : 0 ≤ Rule.GroupId r;
  ok_name : Rule.Name r ≠ "" ∧ str_dangerous (Rule.Name r) = false;
  ok_kind : Rule.Prod r ≠ "" ∧ Rule.Cate r ≠ "";
  ok_config : Rule.RuleConfig r ≠ "";
  ok_interval : 0 < Rule.PromEvalInterval r;
  ok_tags : ∀ t, t ∈ fields (Rule.AppendTags r) → contains t "=" = true;
  ok_groups : ∀ g, g ∈ fields (Rule.NotifyGroups r) → is_Some (parse_int g);
  ok_cron : Rule.CronPattern r ≠ "" → cron_error (Rule.CronPattern r) = None;
  ok_old : Rule.NotifyVersion r = 0 → Rule.NotifyRuleIds r = [];
  ok_new : 0 < Rule.NotifyVersion r →
    Rule.NotifyChannels r = "" ∧ Rule.NotifyGroups r = "" ∧ Rule.Callbacks r = ""
}.

Lemma verify_defaults_kind r :
  Rule.Prod (verify_defaults r) ≠ "" ∧ Rule.Cate (verify_defaults r) ≠ "".
Proof.
  unfold verify_defaults.
  destruct (String.eqb_spec (Rule.Prod r) "") as [Hp|Hp]; rsimp;
    destruct (String.eqb_spec (Rule.Cate r) "") as [Hc|Hc]; rsimp; done.
Qed.

Lemma verify_defaults_frame r :
  Rule.GroupId (verify_defaults r) = Rule.GroupId r ∧ Rule.Name (verify_defaults r) = Rule.Name r.
Proof. unfold verify_defaults. by repeat case_match; rsimp. Qed.

Lemma list_find_None_elem {A} (P : A → Prop) `{∀ x, Decision (P x)} l x :
  list_find P l = None → x ∈ l → ¬ P x.
Proof. intros Hf%list_find_None Hx. rewrite Forall_forall in Hf. auto. Qed.

Lemma AlertRule_Verify_ok ar ar' : AlertRule_Verify ar = (ar', None) → rule_ok ar'.
Proof.
  unfold AlertRule_Verify. destruct (Z.ltb_spec (Rule.GroupId ar) 0); [done|].
  set (ar1 := ar <| Rule.Name := _ |>).
  destruct (String.eqb_spec (Rule.Name ar1) "") as [|Hname]; [done|].
  destruct (str_dangerous (Rule.Name ar1)) eqn:Hdan; [done|].
  pose proof (verify_defaults_kind ar1) as Hkind. pose proof (verify_defaults_frame ar1) as [Hg Hn].
  set (ar2 := verify_defaults ar1) in *. clearbody ar2.
  assert (Rule.GroupId ar2 = Rule.GroupId ar) as Hg' by (rewrite Hg; by unfold ar1; rsimp).
  destruct (String.eqb_spec (Rule.RuleConfig ar2) "") as [|Hcfg]; [done|].
  set (ar3 := if Rule.PromEvalInterval ar2 <=? 0 then ar2 <| Rule.PromEvalInterval := 15 |> else ar2).
  assert (Rule.GroupId ar3 = Rule.GroupId ar ∧ Rule.Name ar3 = Rule.Name ar1 ∧
    Rule.Prod ar3 = Rule.Prod ar2 ∧ Rule.Cate ar3 = Rule.Cate ar2 ∧
    Rule.RuleConfig ar3 = Rule.RuleConfig ar2 ∧ 0 < Rule.PromEvalInterval ar3) as (E1 & E2 & E3 & E4 & E5 & E6).
  { unfold ar3. destruct (Z.leb_spec (Rule.PromEvalInterval ar2) 0); rsimp; split_and!; done || lia. }
  clearbody ar3. destruct Hkind as [Hk1 Hk2]. rewrite <- E3, <- E4 in *. rewrite <- E2 in *. rewrite <- E5 in *.
  rsimp. destruct (list_find _ (fields (trim_space _))) as [[]|] eqn:Ht; [done|].
  destruct (list_find _ (fields (Rule.NotifyGroups ar3))) as [[]|] eqn:Hgr; [done|].
  destruct (validateCronPattern _) eqn:Hcr; [done|]. intros [= <-].
  assert (∀ t, t ∈ fields (trim_space (Rule.AppendTags ar3)) → contains t "=" = true) as Htags.
  { intros t Hin. apply not_false_iff_true. by apply (list_find_None_elem _ _ _ Ht). }
  assert (∀ g, g ∈ fields (Rule.NotifyGroups ar3) → is_Some (parse_int g)) as Hgroups.
  { intros g Hin. apply not_eq_None_Some. by apply (list_find_None_elem _ _ _ Hgr). }
  assert (Rule.CronPattern ar3 ≠ "" → cron_error (Rule.CronPattern ar3) = None) as Hcron.
  { unfold validateCronPattern in Hcr. rsimp. intros Hc%String.eqb_neq. rewrite Hc in Hcr.
    by destruct (cron_error _). }
  unfold clear_notify. rsimp.
  destruct (Z.eqb_spec (Rule.NotifyVersion ar3) 0) as [Hv|Hv]; rsimp;
    [rewrite Hv; cbn [Z.ltb Z.compare]
    |destruct (Z.ltb_spec 0 (Rule.NotifyVersion ar3)) as [Hv'|Hv']];
    split; rsimp; try done; try lia; try (rewrite E1; lia).
  intros g Hin. by apply not_elem_of_nil in Hin.
Qed.

(** Every rule that passes [Verify] is well formed; in particular the fields
    of the notification scheme that is not in use are empty. *)
Theorem AlertRule_Verify_sound ar ar' : AlertRule_Verify ar = (ar', None) → rule_ok ar'.
Proof. apply AlertRule_Verify_ok. Qed.

Lemma AlertRule_DB2FE_tags r r' :
  AlertRule_DB2FE r = Ret r' → Rule.AppendTagsJSON r' = fields (Rule.AppendTags r).
Proof.
  unfold AlertRule_DB2FE. intros (r1 & Hr1 & Hr2)%go_bind_Ret. apply Ret_inj in Hr2. subst r'.
  assert (Rule.AppendTags r1 = Rule.AppendTags r) as E1.
  { unfold DB2FE_times in Hr1. cbv zeta in Hr1. destruct (0 <? _)%nat.
    - apply go_bind_Ret in Hr1 as (s & _ & Hr1). apply go_bind_Ret in Hr1 as (e & _ & Hr1).
      apply Ret_inj in Hr1. subst r1. by rsimp.
    - apply Ret_inj in Hr1. subst r1. by rsimp. }
  rewrite <- E1. clear Hr1 E1 r.
  set (r2 := DB2FE_days r1).
  assert (Rule.AppendTags r2 = Rule.AppendTags r1) as <- by (unfold r2, DB2FE_days; case_match; by rsimp).
  clearbody r2. set (r3 := DB2FE_columns r2).
  assert (Rule.AppendTagsJSON r3 = fields (Rule.AppendTags r2)) as <- by (unfold r3, DB2FE_columns; by rsimp).
  clearbody r3. set (r4 := default_cron r3).
  assert (Rule.AppendTagsJSON r4 = Rule.AppendTagsJSON r3) as <- by (unfold r4, default_cron; case_match; by rsimp).
  clearbody r4. set (r5 := FillDatasourceQueries r4).
  assert (Rule.AppendTagsJSON r5 = Rule.AppendTagsJSON r4) as <-
    by (unfold r5, FillDatasourceQueries; cbv zeta; repeat case_match; by rsimp).
  clearbody r5. unfold FillSeverities. cbv zeta. repeat case_match; cbn [fst]; by rsimp.
Qed.

(** A day group: words without the separator. *)
Definition day_group (g : list string) : Prop :=
  words g ∧ str_forall (char_neb ";"%char) (join g " ") = true.

Lemma days_column_groups groups :
  groups ≠ [] → Forall day_group groups →
  map fields (split (days_column "" groups) ";") = groups.
Proof.
  intros Hne Hall.
  assert (days_column "" groups = join (map (λ g, join g " ") groups) ";") as ->
    by (by destruct groups as [|g [|g' gs]]).
  rewrite (split_join ";"%char "").
  - rewrite map_map. induction Hall as [|g gs [Hg _] _ IH]; [done|]. simpl.
    rewrite fields_join by done. f_equal. destruct gs; [done | by apply IH].
  - by destruct groups.
  - rewrite forallb_elem_of. intros x (g & -> & Hg)%list_elem_of_fmap.
    rewrite Forall_forall in Hall. by apply Hall.
Qed.

(** The time columns, which the JSON part of [FE2DB] leaves alone. *)
Definition times (r : AlertRule) : string * string * string :=
  (Rule.EnableStime r, Rule.EnableEtime r, Rule.EnableDaysOfWeek r).

Lemma then_None x k r : then_ x k = (r, None) → ∃ r1, x = (r1, None) ∧ k r1 = (r, None).
Proof. destruct x as [r1 [err|]]; simpl; naive_solver. Qed.

Lemma FE2DB_json_times f r r' :
  f ∈ [FE2DB_algo; FE2DB_config; FE2DB_annotations; FE2DB_extra] →
  f r = (r', None) → times r' = times r.
Proof.
  intros Hf Hr. unfold times.
  repeat (apply elem_of_cons in Hf as [->|Hf]; [revert Hr;
    unfold FE2DB_algo, FE2DB_config, FE2DB_annotations, FE2DB_extra;
    repeat case_match; intros Hr; try done; injection Hr as <-; by rsimp|]).
  by apply not_elem_of_nil in Hf.
Qed.

Lemma FE2DB_times ar ar' :
  AlertRule_FE2DB ar = (ar', None) → Rule.EnableStimesJSON ar ≠ [] →
  Rule.EnableDaysOfWeeksJSON ar ≠ [] →
  times ar' = (join (Rule.EnableStimesJSON ar) " ", join (Rule.EnableEtimesJSON ar) " ",
    days_column (Rule.EnableDaysOfWeek ar) (Rule.EnableDaysOfWeeksJSON ar)).
Proof.
  unfold AlertRule_FE2DB.
  intros (r1 & Hx1 & (r2 & Hx2 & (r3 & Hx3 & Hx4)%then_None)%then_None)%then_None Hs Hd.
  apply (FE2DB_json_times FE2DB_extra) in Hx4; [|set_solver].
  apply (FE2DB_json_times FE2DB_annotations) in Hx3; [|set_solver].
  apply (FE2DB_json_times FE2DB_config) in Hx2; [|set_solver].
  apply (FE2DB_json_times FE2DB_algo) in Hx1; [|set_solver].
  assert (times (upgrade_config r1) = times r1) as Hu
    by (unfold upgrade_config, times; case_match; by rsimp).
  rewrite Hx4, Hx3, Hx2, Hu, Hx1. clear -Hs Hd. unfold FE2DB_columns, times.
  destruct (Rule.EnableStimesJSON ar) as [|s0 ss] eqn:Es; [done|]. cbn [length Nat.ltb Nat.leb]. rsimp.
  destruct (Rule.EnableDaysOfWeeksJSON ar) as [|d0 ds] eqn:Ed; [done|]. cbn [length Nat.ltb Nat.leb].
  rsimp. case_match; rsimp; by rewrite ?Es.
Qed.

(** The front-end forms of the times. *)
Definition fe_times (r : AlertRule) : list string * list string * list (list string) :=
  (Rule.EnableStimesJSON r, Rule.EnableEtimesJSON r, Rule.EnableDaysOfWeeksJSON r).

Lemma DB2FE_fe_times r r' :
  AlertRule_DB2FE r = Ret r' →
  fe_times r' = (fields (Rule.EnableStime r), fields (Rule.EnableEtime r),
    (Rule.EnableDaysOfWeeksJSON r ++ map fields (split (Rule.EnableDaysOfWeek r) ";"))%list).
Proof.
  unfold AlertRule_DB2FE. intros (r1 & Hx1 & ->%Ret_inj)%go_bind_Ret.
  assert (fe_times r1 = (fields (Rule.EnableStime r), fields (Rule.EnableEtime r),
    Rule.EnableDaysOfWeeksJSON r) ∧ Rule.EnableDaysOfWeek r1 = Rule.EnableDaysOfWeek r) as [Ht Hd].
  { revert Hx1. unfold DB2FE_times, fe_times. cbv zeta. rsimp. destruct (0 <? _)%nat.
    - intros (? & _ & (? & _ & ->%Ret_inj)%go_bind_Ret)%go_bind_Ret. by rsimp.
    - intros ->%Ret_inj. by rsimp. }
  clear Hx1. injection Ht as E1 E2 E3.
  assert (∀ x, fe_times (FillSeverities x).1 = fe_times x) as ->.
  { intros x. unfold FillSeverities, fe_times. repeat case_match; by rsimp. }
  assert (∀ x, fe_times (FillDatasourceQueries x) = fe_times x) as ->.
  { intros x. unfold FillDatasourceQueries, fe_times. case_match; by rsimp. }
  assert (∀ x, fe_times (default_cron x) = fe_times x) as ->.
  { intros x. unfold default_cron, fe_times. case_match; by rsimp. }
  unfold DB2FE_columns, DB2FE_days, fe_times. rsimp. rewrite <- E1, <- E2, <- E3, <- Hd.
  case_match; by rsimp.
Qed.

(** The effective times of a rule survive storing and loading: with a start
    time and a day group, and an empty day column before, reading back what
    [FE2DB] wrote gives the same start times, end times and day groups. *)
Theorem rule_times_roundtrip ar ar' r r' :
  AlertRule_FE2DB ar = (ar', None) → AlertRule_DB2FE r = Ret r' →
  Rule.EnableStimesJSON ar ≠ [] → Rule.EnableDaysOfWeeksJSON ar ≠ [] → Rule.EnableDaysOfWeek ar = "" →
  words (Rule.EnableStimesJSON ar) → words (Rule.EnableEtimesJSON ar) →
  Forall day_group (Rule.EnableDaysOfWeeksJSON ar) →
  Rule.EnableStime r = Rule.EnableStime ar' → Rule.EnableEtime r = Rule.EnableEtime ar' →
  Rule.EnableDaysOfWeek r = Rule.EnableDaysOfWeek ar' → Rule.EnableDaysOfWeeksJSON r = [] →
  Rule.EnableStimesJSON r' = Rule.EnableStimesJSON ar ∧
  Rule.EnableEtimesJSON r' = Rule.EnableEtimesJSON ar ∧
  Rule.EnableDaysOfWeeksJSON r' = Rule.EnableDaysOfWeeksJSON ar.
Proof.
  intros Hf Hd Hs Hg Hold Ws We Hall C1 C2 C3 C4.
  injection (FE2DB_times _ _ Hf Hs Hg) as F1 F2 F3.
  injection (DB2FE_fe_times _ _ Hd) as D1 D2 D3.
  rewrite D1, D2, D3, C1, C2, C3, C4, F1, F2, F3, Hold.
  rewrite !fields_join by done. split_and!; [done..|]. simpl. by apply days_column_groups.
Qed.

(** The part of a rule that validation leaves alone. *)
Definition identity (r : AlertRule) : Z * Z * Z * string * Z :=
  (Rule.Id r, Rule.GroupId r, Rule.CreateAt r, Rule.CreateBy r, Rule.UpdateAt r).

Lemma Verify_identity r : identity (AlertRule_Verify r).1 = identity r.
Proof.
  assert (∀ x, identity (verify_defaults x) = identity x) as Hd.
  { intros x. unfold verify_defaults, identity. by repeat case_match; rsimp. }
  assert (∀ x, identity (clear_notify x) = identity x) as Hc.
  { intros x. unfold clear_notify, identity. cbv zeta.
    destruct (Rule.NotifyVersion x =? 0); rsimp; destruct (0 <? Rule.NotifyVersion x); by rsimp. }
  unfold AlertRule_Verify. destruct (Rule.GroupId r <? 0); [done|].
  set (r1 := r <| Rule.Name := _ |>). assert (identity r1 = identity r) as <- by (by unfold r1, identity; rsimp).
  clearbody r1. destruct (String.eqb (Rule.Name r1) ""); [done|]. destruct (str_dangerous _); [done|].
  rewrite <- (Hd r1). generalize (verify_defaults r1) as r2. intros r2.
  destruct (String.eqb (Rule.RuleConfig r2) ""); [done|].
  set (r3 := if Rule.PromEvalInterval r2 <=? 0 then r2 <| Rule.PromEvalInterval := 15 |> else r2).
  assert (identity r3 = identity r2) as <- by (unfold r3, identity; case_match; by rsimp). clearbody r3.
  set (r4 := r3 <| Rule.AppendTags := _ |>).
  assert (identity r4 = identity r3) as <- by (by unfold r4, identity; rsimp). clearbody r4.
  destruct (list_find _ _) as [[]|]; [done|]. destruct (list_find _ _) as [[]|]; [done|].
  destruct (validateCronPattern r4); [done|]. apply Hc.
Qed.

(** Updating a rule keeps its identity, its group and its creation data, and
    the stored rule passes the validation. *)
Theorem AlertRule_Update_keeps ex now ar arf r :
  AlertRule_Update ex now ar arf = Ok r →
  Rule.Id r = Rule.Id ar ∧ Rule.GroupId r = Rule.GroupId ar ∧
  Rule.CreateAt r = Rule.CreateAt ar ∧ Rule.CreateBy r = Rule.CreateBy ar ∧ Rule.UpdateAt r = now.
Proof.
  unfold AlertRule_Update. intros ([] & _ & Hu)%result_bind_Ok; [done|].
  destruct (AlertRule_FE2DB arf) as [arf1 [|]]; [done|].
  set (arf2 := arf1 <| Rule.Id := _ |> <| _ := _ |> <| _ := _ |> <| _ := _ |> <| _ := _ |>) in Hu.
  pose proof (Verify_identity arf2) as Hi.
  destruct (AlertRule_Verify arf2) as [arf3 [|]]; [done|]. apply Ok_inj in Hu as ->.
  cbn [fst] in Hi. unfold identity in Hi. injection Hi as E1 E2 E3 E4 E5.
  rewrite E1, E2, E3, E4, E5. unfold arf2. by rsimp.
Qed.

(** [Clone] overwrites the rule it is called on: the original loses its
    identifier and moves to the new group with the copy. *)
Theorem AlertRule_Clone_aliases op bg now ar :
  let '(copy, original) := AlertRule_Clone op bg now ar in
  original = copy ∧ Rule.Id original = 0 ∧ Rule.GroupId original = bg.
Proof. by unfold AlertRule_Clone; rsimp. Qed.
End rule_spec.
