(* ===== verification/EventTable.v ===== *)
(** * The event tables of a rule: [alert/process]

    The state machine of the alerts of one rule on one data source: the three
    [AlertCurEventMap]s (fires, pendings, pendingsUseByRecover), firing,
    repeating, the for-duration, inhibition and recovery.  The maps and the
    event queue hold pointers, and the same event object is reachable from
    several of them, so events live in a heap.  The queue
    (toolkits/pkg/container/list) and the database are parameters. *)

From S2P Require Import Prelude GoStrings Json Models RuleModels EventOps RuleOps.
Open Scope string_scope.
Open Scope Z_scope.

Notation loc := nat (only parsing).

(** [SafeListLimited]: [PushFront] adds the element in front, or refuses and
    changes nothing when the list is full. *)
Class EventQueueLib := {
  equeue : Type;
  queue_items : equeue → list loc;
  PushFront : equeue → loc → equeue * bool;
  PushFront_spec : ∀ q l, queue_items (fst (PushFront q l)) =
    if snd (PushFront q l) then l :: queue_items q else queue_items q
}.

(** ** [AlertCurEventMap] *)

Notation AlertCurEventMap := (gmap string nat) (only parsing).
Notation heap := (gmap nat AlertCurEvent) (only parsing).

Definition emap_Set (m : AlertCurEventMap) (key : string) (l : loc) : AlertCurEventMap := <[key := l]> m.
Definition emap_Get (m : AlertCurEventMap) (key : string) : option loc := m !! key.
Definition emap_Delete (m : AlertCurEventMap) (key : string) : AlertCurEventMap := delete key m.
Definition emap_Keys `{GoRange} (m : AlertCurEventMap) : list string := map fst (go_range m).

(** The event is changed through the pointer. *)
Definition UpdateLastEvalTime (m : AlertCurEventMap) (key : string) (lastEvalTime : Z) (h : heap) : heap :=
  match m !! key with
  | None => h
  | Some l => alter (λ e, e <| Event.LastEvalTime := lastEvalTime |>) l h
  end.

(** ** The processor of a rule *)

Section table.
Context `{GR : GoRange, QL : EventQueueLib}.

(** The fields of [Processor] that change while it runs, the heap its events
    live in, the queue it pushes to, and the hashes whose rows it deleted
    ([AlertCurEventDelByHash]). *)
Record pstate := mkPstate {
  p_rule : AlertRule;
  p_inhibit : bool;
  p_PromEvalInterval : Z;
  p_fires : AlertCurEventMap;
  p_pendings : AlertCurEventMap;
  p_pendingsUseByRecover : AlertCurEventMap;
  p_heap : heap;
  p_queue : equeue;
  p_deleted : list string
}.
#[global] Instance pstate_eta : Settable pstate := λ r,
  mkPstate (p_rule r) (p_inhibit r) (p_PromEvalInterval r) (p_fires r) (p_pendings r)
    (p_pendingsUseByRecover r) (p_heap r) (p_queue r) (p_deleted r).
Implicit Types p : pstate.

Definition ev p (l : loc) : AlertCurEvent := default Event.zero (p_heap p !! l).
Definition modify p (l : loc) (f : AlertCurEvent → AlertCurEvent) : pstate :=
  p <| p_heap := alter f l (p_heap p) |>.

Definition DeleteProcessEvent p (hash : string) : pstate :=
  p <| p_fires := emap_Delete (p_fires p) hash |>
    <| p_pendings := emap_Delete (p_pendings p) hash |>
    <| p_pendingsUseByRecover := emap_Delete (p_pendingsUseByRecover p) hash |>.

(** A full queue loses the notification; that is only logged. *)
Definition pushEventToQueue p (l : loc) : pstate :=
  let p := if Event.IsRecovered (ev p l) then p
           else let p := modify p l (λ e, e <| Event.LastSentTime := Event.LastEvalTime e |>) in
                p <| p_fires := emap_Set (p_fires p) (Event.Hash (ev p l)) l |> in
  p <| p_queue := fst (PushFront (p_queue p) l) |>.

Definition fireEvent p (l : loc) : pstate :=
  let cachedRule := p_rule p in
  match emap_Get (p_fires p) (Event.Hash (ev p l)) with
  | Some f =>
      let p := p <| p_heap := UpdateLastEvalTime (p_fires p) (Event.Hash (ev p l))
                                (Event.LastEvalTime (ev p l)) (p_heap p) |> in
      let p := modify p l (λ e, e <| Event.FirstTriggerTime := Event.FirstTriggerTime (ev p f) |>) in
      if Rule.NotifyRepeatStep cachedRule =? 0 then p
      else if i64 (Event.LastSentTime (ev p f) + i64 (Rule.NotifyRepeatStep cachedRule * 60))
              <=? Event.LastEvalTime (ev p l) then
        let push := pushEventToQueue (modify p l (λ e, e <| Event.NotifyCurNumber :=
                      i64 (Event.NotifyCurNumber (ev p f) + 1) |>)) l in
        if Rule.NotifyMaxNumber cachedRule =? 0 then push
        else if Rule.NotifyMaxNumber cachedRule <=? Event.NotifyCurNumber (ev p f) then p
        else push
      else p
  | None =>
      let p := modify p l (λ e, e <| Event.NotifyCurNumber := 1 |>
                                  <| Event.FirstTriggerTime := Event.TriggerTime e |>) in
      pushEventToQueue p l
  end.

Fixpoint inhibitEvent p (events : list loc) (highSeverity : Z) : pstate :=
  match events with
  | [] => p
  | l :: events' =>
      if p_inhibit p && (highSeverity <? Event.Severity (ev p l))
      then inhibitEvent p events' highSeverity
      else inhibitEvent (fireEvent p l) events' highSeverity
  end.

(** The body of the loop of [handleEvent]: the state, and whether the event
    is ready to fire. *)
Definition observeEvent p (l : loc) : pstate * bool :=
  let hash := Event.Hash (ev p l) in
  let p := match emap_Get (p_pendingsUseByRecover p) hash with
           | Some _ => p <| p_heap := UpdateLastEvalTime (p_pendingsUseByRecover p) hash
                                        (Event.LastEvalTime (ev p l)) (p_heap p) |>
           | None => p <| p_pendingsUseByRecover := emap_Set (p_pendingsUseByRecover p) hash l |>
           end in
  let p := modify p l (λ e, e <| Event.PromEvalInterval := p_PromEvalInterval p |>) in
  if Rule.PromForDuration (p_rule p) =? 0 then (p, true)
  else
    let '(p, preEvalTime) :=
      match emap_Get (p_pendings p) hash with
      | Some pre =>
          let p := p <| p_heap := UpdateLastEvalTime (p_pendings p) hash
                                    (Event.LastEvalTime (ev p l)) (p_heap p) |> in
          (p, Event.FirstEvalTime (ev p pre))
      | None =>
          let p := modify p l (λ e, e <| Event.FirstEvalTime := Event.LastEvalTime e |>) in
          (p <| p_pendings := emap_Set (p_pendings p) hash l |>, Event.FirstEvalTime (ev p l))
      end in
    (p, Rule.PromForDuration (p_rule p) <=?
        i64 (i64 (Event.LastEvalTime (ev p l) - preEvalTime) + Event.PromEvalInterval (ev p l))).

Fixpoint observeEvents p (events : list loc) (fireEvents : list loc) (severity : Z)
  : pstate * list loc * Z :=
  match events with
  | [] => (p, fireEvents, severity)
  | l :: events' =>
      let '(p, ready) := observeEvent p l in
      if ready : bool then
        observeEvents p events' (fireEvents ++ [l])
          (if Event.Severity (ev p l) <? severity then Event.Severity (ev p l) else severity)
      else observeEvents p events' fireEvents severity
  end.

Definition handleEvent p (events : list loc) : pstate :=
  let '(p, fireEvents, severity) := observeEvents p events [] SeverityLowest in
  inhibitEvent p fireEvents severity.

(** ** Recovery *)

Definition RecoverSingle p (byRecover : bool) (hash : string) (now : Z)
    (value values : option string) : pstate :=
  let cachedRule := p_rule p in
  match emap_Get (p_fires p) hash with
  | None => p
  | Some l =>
      let held :=
        if 0 <? Rule.RecoverDuration cachedRule then
          match emap_Get (p_pendingsUseByRecover p) hash with
          | None => true
          | Some lp => i64 (now - Event.LastEvalTime (ev p lp)) <? Rule.RecoverDuration cachedRule
          end
        else false in
      if held then p
      else if negb (RecoverConf.JudgeType (Event.RecoverConfig (ev p l)) =? Origin) && negb byRecover
      then p
      else
        let p := match value with
                 | None => p
                 | Some v => modify p l (λ e,
                     let e := e <| Event.TriggerValue := v |> in
                     match values with Some vs => e <| Event.TriggerValues := vs |> | None => e end)
                 end in
        let p := DeleteProcessEvent p hash in
        let p := modify p l (λ e, (UpdateEvent cachedRule e) <| Event.IsRecovered := true |>
                                                             <| Event.LastEvalTime := now |>) in
        pushEventToQueue p l
  end.

(** The first loop of [HandleRecoverEvent] under inhibition: of the events
    with equal tags it keeps one, copied by value. *)
Fixpoint inhibitRecover p (hashArr : list string) (eventMap : gmap string AlertCurEvent)
  : pstate * gmap string AlertCurEvent :=
  match hashArr with
  | [] => (p, eventMap)
  | hash :: hashArr' =>
      match emap_Get (p_fires p) hash with
      | None => inhibitRecover p hashArr' eventMap
      | Some l =>
          let event := ev p l in
          match eventMap !! Event.Tags event with
          | None => inhibitRecover p hashArr' (<[Event.Tags event := event]> eventMap)
          | Some e =>
              if Event.Severity event <? Event.Severity e then
                let p := p <| p_fires := emap_Delete (p_fires p) (Event.Hash e) |>
                           <| p_pendings := emap_Delete (p_pendings p) (Event.Hash e) |>
                           <| p_deleted := (p_deleted p ++ [Event.Hash e])%list |> in
                inhibitRecover p hashArr' (<[Event.Tags event := event]> eventMap)
              else inhibitRecover p hashArr' eventMap
          end
      end
  end.

Definition recoverAll p (hashes : list string) (now : Z) : pstate :=
  foldl (λ p hash, RecoverSingle p false hash now None None) p hashes.

Definition HandleRecoverEvent p (hashArr : list string) (now : Z) (inhibit : bool) : pstate :=
  if negb inhibit then recoverAll p hashArr now
  else
    let '(p, eventMap) := inhibitRecover p hashArr ∅ in
    recoverAll p (map (λ te, Event.Hash (snd te)) (go_range eventMap)) now.

Definition HandleRecover p (alertingKeys : gset string) (now : Z) (inhibit : bool) : pstate :=
  let p := p <| p_pendings := foldl (λ m hash, if decide (hash ∈ alertingKeys) then m
                                                else emap_Delete m hash)
                                (p_pendings p) (emap_Keys (p_pendings p)) |> in
  let hashArr := filter (λ hash, hash ∉ alertingKeys) (emap_Keys (p_fires p)) in
  HandleRecoverEvent p hashArr now inhibit.

(** ** The invariant

    Every pointer of the tables and of the queue is allocated, every table
    maps a hash to an event with that hash, and no firing event is marked
    recovered. *)

Definition entries_ok (h : heap) (m : AlertCurEventMap) (P : AlertCurEvent → Prop) : Prop :=
  ∀ k l, m !! k = Some l → ∃ e, h !! l = Some e ∧ Event.Hash e = k ∧ P e.

Record wf p : Prop := {
  wf_fires : entries_ok (p_heap p) (p_fires p) (λ e, Event.IsRecovered e = false);
  wf_pendings : entries_ok (p_heap p) (p_pendings p) (λ _, True);
  wf_recover : entries_ok (p_heap p) (p_pendingsUseByRecover p) (λ _, True);
  wf_queue : ∀ l, l ∈ queue_items (p_queue p) → is_Some (p_heap p !! l)
}.

(** The invariant is decidable. *)
#[global] Instance entries_ok_dec h m P `{∀ e, Decision (P e)} : Decision (entries_ok h m P).
Proof.
  destruct (decide (forallb (λ kl, match h !! snd kl with
                                   | Some e => bool_decide (Event.Hash e = fst kl ∧ P e)
                                   | None => false
                                   end) (map_to_list m) = true)) as [Hm|Hm]; [left|right].
  - intros k l Hk. rewrite forallb_elem_of in Hm. specialize (Hm (k, l) (proj2 (elem_of_map_to_list _ _ _) Hk)).
    cbn in Hm. destruct (h !! l) as [e|]; [|done]. apply bool_decide_eq_true in Hm. by exists e.
  - intros Hok. apply Hm, forallb_elem_of. intros [k l] Hk%elem_of_map_to_list. cbn.
    destruct (Hok k l Hk) as (e & -> & ? & ?). by apply bool_decide_eq_true.
Defined.

#[global] Instance wf_dec p : Decision (wf p).
Proof.
  destruct (decide (
    entries_ok (p_heap p) (p_fires p) (λ e, Event.IsRecovered e = false) ∧
    entries_ok (p_heap p) (p_pendings p) (λ _, True) ∧
    entries_ok (p_heap p) (p_pendingsUseByRecover p) (λ _, True) ∧
    Forall (λ l, is_Some (p_heap p !! l)) (queue_items (p_queue p)))) as [Hp|Hp]; [left|right].
  - destruct Hp as (? & ? & ? & Hq). rewrite Forall_forall in Hq. by split.
  - intros [? ? ? Hq]. apply Hp. split_and!; try done. by apply Forall_forall.
Defined.

(** *** Lemmas on tables *)

Lemma ev_Some p l e : p_heap p !! l = Some e → ev p l = e.
Proof. unfold ev. by intros ->. Qed.

Lemma ev_modify p l f : is_Some (p_heap p !! l) → ev (modify p l f) l = f (ev p l).
Proof. intros [e He]. unfold ev, modify. rsimp. by rewrite lookup_alter_eq, He. Qed.

Lemma ev_modify_ne p l l' f : l ≠ l' → ev (modify p l f) l' = ev p l'.
Proof. intros Hne. unfold ev, modify. rsimp. by rewrite lookup_alter_ne. Qed.

Lemma modify_dom p l f : dom (p_heap (modify p l f)) = dom (p_heap p).
Proof. unfold modify. rsimp. apply dom_alter_L. Qed.

Lemma entries_ok_alter h m P f l :
  (∀ e, Event.Hash (f e) = Event.Hash e) → (∀ e, P e → P (f e)) →
  entries_ok h m P → entries_ok (alter f l h) m P.
Proof.
  intros Hh HP Hok k l' Hk. destruct (Hok _ _ Hk) as (e & He & Hhash & Pe).
  destruct (decide (l = l')) as [->|Hne].
  - exists (f e). rewrite lookup_alter_eq, He. naive_solver.
  - exists e. by rewrite lookup_alter_ne.
Qed.

(** A change of an event that no entry with [P] points to. *)
Lemma entries_ok_alter_free h m P f l e :
  (∀ e, Event.Hash (f e) = Event.Hash e) → h !! l = Some e → m !! Event.Hash e = None →
  entries_ok h m P → entries_ok (alter f l h) m P.
Proof.
  intros Hh He Hfree Hok k l' Hk. destruct (Hok _ _ Hk) as (e' & He' & Hhash & Pe).
  exists e'. rewrite lookup_alter_ne; [done|]. intros <-. naive_solver.
Qed.

Lemma entries_ok_insert h m P l e :
  h !! l = Some e → P e → entries_ok h m P → entries_ok h (<[Event.Hash e := l]> m) P.
Proof. intros He Pe Hok k l' [[<- <-]|[_ Hk]]%lookup_insert_Some; eauto. Qed.

Lemma entries_ok_delete h m P k : entries_ok h m P → entries_ok h (delete k m) P.
Proof. intros Hok k' l [_ Hk]%lookup_delete_Some. eauto. Qed.

Lemma entries_ok_weaken h m (P Q : AlertCurEvent → Prop) :
  (∀ e, P e → Q e) → entries_ok h m P → entries_ok h m Q.
Proof. intros HPQ Hok k l Hk. destruct (Hok _ _ Hk) as (e & ? & ? & ?). eauto. Qed.

(** A change that keeps the hash and the recovered flag. *)
Definition keeps (f : AlertCurEvent → AlertCurEvent) : Prop :=
  ∀ e, Event.Hash (f e) = Event.Hash e ∧ Event.IsRecovered (f e) = Event.IsRecovered e.

Lemma wf_alter p l f : keeps f → wf p → wf (p <| p_heap := alter f l (p_heap p) |>).
Proof.
  intros Hf [Hfi Hpe Hre Hq]. split; rsimp.
  1-3: eapply entries_ok_alter; [apply Hf| |done]; intros e He; try done; by rewrite (proj2 (Hf e)).
  intros l' Hl'. rewrite <- elem_of_dom, dom_alter_L, elem_of_dom. auto.
Qed.

Lemma wf_modify p l f : keeps f → wf p → wf (modify p l f).
Proof. apply wf_alter. Qed.

Lemma wf_UpdateLastEvalTime p m k t :
  wf p → wf (p <| p_heap := UpdateLastEvalTime m k t (p_heap p) |>) ∧
  dom (UpdateLastEvalTime m k t (p_heap p)) = dom (p_heap p).
Proof.
  intros Hwf. unfold UpdateLastEvalTime. destruct (m !! k) as [l|].
  - split; [apply wf_alter; [|done]; intros e; by rsimp | apply dom_alter_L].
  - split; [by destruct p | done].
Qed.

Lemma wf_push p l e :
  wf p → p_heap p !! l = Some e → wf (p <| p_queue := fst (PushFront (p_queue p) l) |>).
Proof.
  intros [Hfi Hpe Hre Hq] He. split; rsimp; try done. intros l' Hl'.
  rewrite PushFront_spec in Hl'. destruct (snd _); [|auto].
  apply elem_of_cons in Hl' as [->|Hl']; eauto.
Qed.

Lemma wf_DeleteProcessEvent p k : wf p → wf (DeleteProcessEvent p k).
Proof. intros []. split; unfold DeleteProcessEvent, emap_Delete; rsimp; eauto using entries_ok_delete. Qed.

Lemma pushEventToQueue_wf p l :
  wf p → is_Some (p_heap p !! l) →
  wf (pushEventToQueue p l) ∧ dom (p_heap (pushEventToQueue p l)) = dom (p_heap p).
Proof.
  intros Hwf [e He]. unfold pushEventToQueue. rewrite (ev_Some _ _ _ He).
  destruct (Event.IsRecovered e) eqn:Hr; [split; [by eapply wf_push | done]|].
  set (p1 := modify p l _). assert (wf p1) as Hwf1 by (apply wf_modify; [intros e'; by rsimp|done]).
  assert (p_heap p1 !! l = Some (e <| Event.LastSentTime := Event.LastEvalTime e |>)) as He1
    by (unfold p1, modify; rsimp; by rewrite lookup_alter_eq, He).
  rewrite (ev_Some _ _ _ He1). split.
  - eapply wf_push; [|rsimp; exact He1]. destruct Hwf1. split; rsimp; try done. unfold emap_Set.
    apply (entries_ok_insert _ _ _ _ _ He1); [by rsimp | done].
  - rsimp. apply modify_dom.
Qed.

Lemma fireEvent_wf p l :
  wf p → is_Some (p_heap p !! l) →
  wf (fireEvent p l) ∧ dom (p_heap (fireEvent p l)) = dom (p_heap p).
Proof.
  intros Hwf Hl. unfold fireEvent. destruct (emap_Get _ _) as [f|].
  - set (p1 := p <| p_heap := _ |>).
    destruct (wf_UpdateLastEvalTime p (p_fires p) (Event.Hash (ev p l)) (Event.LastEvalTime (ev p l)) Hwf)
      as [Hwf1 Hdom1].
    assert (wf p1 ∧ dom (p_heap p1) = dom (p_heap p)) as [Hp1 Hd1] by (unfold p1; by rsimp).
    clearbody p1. set (p2 := modify p1 l _).
    assert (wf p2 ∧ dom (p_heap p2) = dom (p_heap p)) as [Hp2 Hd2].
    { split; [apply wf_modify; [intros e; by rsimp|done] | unfold p2; by rewrite modify_dom]. }
    clearbody p2. destruct (_ =? 0); [done|]. destruct (_ <=? Event.LastEvalTime _); [|done].
    assert (∀ g, keeps g → wf (pushEventToQueue (modify p2 l g) l) ∧
      dom (p_heap (pushEventToQueue (modify p2 l g) l)) = dom (p_heap p)) as Hpush.
    { intros g Hg. destruct (pushEventToQueue_wf (modify p2 l g) l) as [? Hd3]; [by apply wf_modify| |].
      - rewrite <- elem_of_dom, modify_dom, Hd2, elem_of_dom. done.
      - split; [done|]. by rewrite Hd3, modify_dom. }
    destruct (_ =? 0); [apply Hpush; intros e; by rsimp|]. destruct (_ <=? _); [done|].
    apply Hpush; intros e; by rsimp.
  - set (p1 := modify p l _). destruct (pushEventToQueue_wf p1 l) as [Hw Hd].
    + apply wf_modify; [intros e; by rsimp | done].
    + by rewrite <- elem_of_dom; unfold p1; rewrite modify_dom, elem_of_dom.
    + split; [done|]. rewrite Hd. apply modify_dom.
Qed.

Lemma inhibitEvent_wf p events s :
  wf p → (∀ l, l ∈ events → l ∈ dom (p_heap p)) →
  wf (inhibitEvent p events s) ∧ dom (p_heap (inhibitEvent p events s)) = dom (p_heap p).
Proof.
  revert p. induction events as [|l events IH]; intros p Hwf Hev; cbn [inhibitEvent]; [done|].
  destruct (_ && _); [apply IH; set_solver|].
  destruct (fireEvent_wf p l Hwf) as [Hw Hd]; [apply elem_of_dom, Hev; by left|].
  rewrite <- Hd. apply IH; [done|]. rewrite Hd. set_solver.
Qed.

Lemma observeEvent_wf p l :
  wf p → is_Some (p_heap p !! l) →
  wf (observeEvent p l).1 ∧ dom (p_heap (observeEvent p l).1) = dom (p_heap p).
Proof.
  intros Hwf [e He]. unfold observeEvent. rewrite (ev_Some _ _ _ He).
  set (p1 := match emap_Get (p_pendingsUseByRecover p) _ with Some _ => _ | None => _ end).
  assert (wf p1 ∧ dom (p_heap p1) = dom (p_heap p) ∧ is_Some (p_heap p1 !! l) ∧
    Event.Hash (ev p1 l) = Event.Hash e) as (Hw1 & Hd1 & Hl1 & Hh1).
  { unfold p1. destruct (emap_Get _ _) as [l0|] eqn:Eg.
    - destruct (wf_UpdateLastEvalTime p (p_pendingsUseByRecover p) (Event.Hash e) (Event.LastEvalTime e) Hwf)
        as [Hw Hd]. rsimp. split_and!; [done..| |].
      + rewrite <- elem_of_dom, Hd, elem_of_dom. by eexists.
      + unfold ev, UpdateLastEvalTime. rsimp. unfold emap_Get in Eg. rewrite Eg.
        destruct (decide (l0 = l)) as [->|]; [by rewrite lookup_alter_eq, He|].
        by rewrite lookup_alter_ne, He.
    - rsimp. split_and!; [|done|by eexists|unfold ev; rsimp; by rewrite He].
      destruct Hwf. split; rsimp; try done. by apply entries_ok_insert. }
  clearbody p1. set (p2 := modify p1 l _).
  assert (wf p2 ∧ dom (p_heap p2) = dom (p_heap p) ∧ is_Some (p_heap p2 !! l) ∧
    Event.Hash (ev p2 l) = Event.Hash e) as (Hw2 & Hd2 & Hl2 & Hh2).
  { unfold p2. split_and!; [apply wf_modify; [intros ?; by rsimp|done]|by rewrite modify_dom| |].
    - by rewrite <- elem_of_dom, modify_dom, elem_of_dom.
    - rewrite ev_modify by done. by rsimp. }
  clearbody p2. destruct (_ =? 0); [done|].
  destruct (emap_Get (p_pendings p2) _) as [pre|] eqn:Eg; cbn [fst].
  - destruct (wf_UpdateLastEvalTime p2 (p_pendings p2) (Event.Hash e) (Event.LastEvalTime (ev p2 l)) Hw2)
      as [Hw Hd]. rsimp. split; [done|]. by rewrite Hd.
  - set (p3 := modify p2 l _).
    assert (wf p3) as Hw3 by (apply wf_modify; [intros ?; by rsimp|done]).
    assert (∃ e3, p_heap p3 !! l = Some e3 ∧ Event.Hash e3 = Event.Hash e) as (e3 & He3 & Hh3).
    { destruct Hl2 as [e2 He2]. unfold p3, modify. rsimp. rewrite lookup_alter_eq, He2.
      eexists. split; [done|]. rsimp. by rewrite (ev_Some _ _ _ He2) in Hh2. }
    split; [|rsimp; unfold p3; by rewrite modify_dom].
    destruct Hw3. split; rsimp; try done. unfold emap_Set. rewrite <- Hh3. by apply entries_ok_insert.
Qed.

Lemma observeEvents_wf p events fires s p' fires' s' :
  observeEvents p events fires s = (p', fires', s') →
  wf p → (∀ l, l ∈ events → l ∈ dom (p_heap p)) → (∀ l, l ∈ fires → l ∈ dom (p_heap p)) →
  wf p' ∧ dom (p_heap p') = dom (p_heap p) ∧ (∀ l, l ∈ fires' → l ∈ dom (p_heap p)).
Proof.
  revert p fires s. induction events as [|l events IH]; intros p fires s; cbn [observeEvents].
  { intros [= <- <- <-]. auto. }
  intros Ho Hwf Hev Hfi. assert (l ∈ dom (p_heap p)) as Hl by (apply Hev; by left).
  destruct (observeEvent_wf p l Hwf) as [Hw Hd]; [by apply elem_of_dom|].
  destruct (observeEvent p l) as [p1 ready]. cbn [fst] in *. rewrite <- Hd in *.
  destruct ready; eapply IH in Ho; try done; set_solver.
Qed.

Lemma handleEvent_wf p events :
  wf p → (∀ l, l ∈ events → l ∈ dom (p_heap p)) →
  wf (handleEvent p events) ∧ dom (p_heap (handleEvent p events)) = dom (p_heap p).
Proof.
  intros Hwf Hev. unfold handleEvent.
  destruct (observeEvents p events [] SeverityLowest) as [[p1 fires] s] eqn:Ho.
  destruct (observeEvents_wf _ _ _ _ _ _ _ Ho Hwf Hev) as (Hw & Hd & Hf); [set_solver|].
  rewrite <- Hd. apply inhibitEvent_wf; [done|]. by rewrite Hd.
Qed.

(** The rest of [RecoverSingle] once the guards are passed. *)
Lemma recover_wf p l e f :
  wf p → p_heap p !! l = Some e →
  (∀ e, Event.Hash (f e) = Event.Hash e ∧ Event.IsRecovered (f e) = true) →
  let p' := pushEventToQueue (modify (DeleteProcessEvent p (Event.Hash e)) l f) l in
  wf p' ∧ dom (p_heap p') = dom (p_heap p).
Proof.
  intros Hwf He Hf p'.
  set (p1 := modify (DeleteProcessEvent p (Event.Hash e)) l f).
  assert (wf p1) as Hw1.
  { destruct (wf_DeleteProcessEvent p (Event.Hash e) Hwf) as [H1 H2 H3 H4].
    unfold p1, modify, DeleteProcessEvent, emap_Delete in *. rsimp. split; rsimp.
    1-3: apply (entries_ok_alter_free _ _ _ _ _ e); [apply Hf|done|apply lookup_delete_eq|done].
    intros l' Hl'. rewrite <- elem_of_dom, dom_alter_L, elem_of_dom. auto. }
  assert (dom (p_heap p1) = dom (p_heap p)) as Hd1.
  { unfold p1. rewrite modify_dom. unfold DeleteProcessEvent. by rsimp. }
  unfold p'. fold p1. rewrite <- Hd1. apply pushEventToQueue_wf; [done|].
  rewrite <- elem_of_dom, Hd1, elem_of_dom. by eexists.
Qed.

Lemma recovered_keeps r now e :
  let f e := (UpdateEvent r e) <| Event.IsRecovered := true |> <| Event.LastEvalTime := now |> in
  Event.Hash (f e) = Event.Hash e ∧ Event.IsRecovered (f e) = true.
Proof. unfold UpdateEvent. by rsimp. Qed.

Lemma RecoverSingle_wf p by_ hash now v vs :
  wf p → wf (RecoverSingle p by_ hash now v vs) ∧
         dom (p_heap (RecoverSingle p by_ hash now v vs)) = dom (p_heap p).
Proof.
  intros Hwf. unfold RecoverSingle, emap_Get.
  destruct (p_fires p !! hash) as [l|] eqn:Ef; [|done].
  destruct (wf_fires _ Hwf _ _ Ef) as (e & He & Hh & _).
  destruct (if 0 <? _ then _ else _); [done|]. destruct (_ && _); [done|].
  set (p1 := match v with Some _ => _ | None => _ end).
  assert (wf p1 ∧ dom (p_heap p1) = dom (p_heap p) ∧ ∃ e1, p_heap p1 !! l = Some e1 ∧ Event.Hash e1 = hash)
    as (Hw1 & Hd1 & e1 & He1 & Hh1).
  { unfold p1. destruct v as [v|]; [|eauto 6]. split_and!.
    - apply wf_modify; [intros e'; destruct vs; by rsimp | done].
    - apply modify_dom.
    - unfold modify. rsimp. rewrite lookup_alter_eq, He. eexists. split; [done|].
      destruct vs; by rsimp. }
  clearbody p1. subst hash. rewrite <- Hh1, <- Hd1.
  apply (recover_wf p1 l e1); [done..|]. apply recovered_keeps.
Qed.

Lemma recoverAll_wf p hashes now :
  wf p → wf (recoverAll p hashes now) ∧ dom (p_heap (recoverAll p hashes now)) = dom (p_heap p).
Proof.
  unfold recoverAll. revert p. induction hashes as [|h hashes IH]; intros p Hwf; cbn [foldl]; [done|].
  destruct (RecoverSingle_wf p false h now None None Hwf) as [Hw <-]. by apply IH.
Qed.

Lemma inhibitRecover_wf p hashes m p' m' :
  inhibitRecover p hashes m = (p', m') → wf p → wf p' ∧ p_heap p' = p_heap p.
Proof.
  revert p m. induction hashes as [|h hashes IH]; intros p m; cbn [inhibitRecover].
  { by intros [= <- _]. }
  destruct (emap_Get _ _) as [l|]; [|apply IH]. destruct (m !! _) as [e|]; [|apply IH].
  destruct (_ <? _); [|apply IH]. intros Hi Hwf.
  eapply IH in Hi as [Hw Hh]; [by rsimp|]. destruct Hwf.
  split; unfold emap_Delete; rsimp; eauto using entries_ok_delete.
Qed.

Lemma HandleRecoverEvent_wf p hashes now inh :
  wf p → wf (HandleRecoverEvent p hashes now inh) ∧
         dom (p_heap (HandleRecoverEvent p hashes now inh)) = dom (p_heap p).
Proof.
  intros Hwf. unfold HandleRecoverEvent. destruct (negb inh); [by apply recoverAll_wf|].
  destruct (inhibitRecover p hashes ∅) as [p1 m] eqn:Hi.
  destruct (inhibitRecover_wf _ _ _ _ _ Hi Hwf) as [Hw <-]. by apply recoverAll_wf.
Qed.

Lemma entries_ok_subseteq h (m m' : AlertCurEventMap) P : m' ⊆ m → entries_ok h m P → entries_ok h m' P.
Proof. intros Hsub Hok k l Hk. eapply Hok, lookup_weaken; eauto. Qed.

Lemma prune_lookup (keys : gset string) l (m : AlertCurEventMap) k :
  foldl (λ m hash, if decide (hash ∈ keys) then m else emap_Delete m hash) m l !! k
  = if decide (k ∈ l ∧ k ∉ keys) then None else m !! k.
Proof.
  revert m. induction l as [|h l IH]; intros m; cbn [foldl].
  { rewrite decide_False; [done|]. set_solver. }
  rewrite IH. unfold emap_Delete.
  destruct (decide (k ∈ l ∧ k ∉ keys)) as [Hk|Hk]; [by rewrite decide_True by set_solver|].
  destruct (decide (h ∈ keys)) as [Hh|Hh].
  - rewrite decide_False; [done|]. set_solver.
  - destruct (decide (h = k)) as [->|Hne].
    + rewrite lookup_delete_eq. by rewrite decide_True by set_solver.
    + rewrite lookup_delete_ne by done. rewrite decide_False; [done|]. set_solver.
Qed.

Lemma prune_keys (keys : gset string) (m : AlertCurEventMap) k :
  foldl (λ m hash, if decide (hash ∈ keys) then m else emap_Delete m hash) m (emap_Keys m) !! k
  = if decide (k ∈ keys) then m !! k else None.
Proof.
  rewrite prune_lookup. unfold emap_Keys.
  destruct (m !! k) as [l|] eqn:E; [|by repeat case_decide].
  assert (k ∈ map fst (go_range m)) as Hk by (apply elem_of_fst_go_range; eauto).
  repeat case_decide; tauto.
Qed.

Lemma HandleRecover_wf p keys now inh :
  wf p → wf (HandleRecover p keys now inh) ∧
         dom (p_heap (HandleRecover p keys now inh)) = dom (p_heap p).
Proof.
  intros Hwf. unfold HandleRecover. set (p1 := p <| p_pendings := _ |>).
  assert (wf p1) as Hw1.
  { destruct Hwf. split; unfold p1; rsimp; try done.
    apply (entries_ok_subseteq _ (p_pendings p)); [|done]. apply map_subseteq_spec. intros k l.
    rewrite prune_keys. by case_decide. }
  assert (p_heap p1 = p_heap p) as Hh by (unfold p1; by rsimp).
  destruct (HandleRecoverEvent_wf p1 (filter (λ hash, hash ∉ keys) (emap_Keys (p_fires p1))) now inh Hw1)
    as [Hw Hd]. by rewrite <- Hh.
Qed.

(** ** What firing does *)

(** A repeated notification is due: repetition is on, the interval since the
    last one has passed, and the number of notifications is not used up. *)
Definition repeat_due (r : AlertRule) (fired e : AlertCurEvent) : bool :=
  negb (Rule.NotifyRepeatStep r =? 0) &&
  (i64 (Event.LastSentTime fired + i64 (Rule.NotifyRepeatStep r * 60)) <=? Event.LastEvalTime e) &&
  ((Rule.NotifyMaxNumber r =? 0) || (Event.NotifyCurNumber fired <? Rule.NotifyMaxNumber r)).

(** The state after an event has been notified as [e]. *)
Definition notified p (l : loc) (e : AlertCurEvent) : pstate :=
  p <| p_heap := <[l := e]> (p_heap p) |>
    <| p_fires := <[Event.Hash e := l]> (p_fires p) |>
    <| p_queue := fst (PushFront (p_queue p) l) |>.

Lemma alter_Some (h : heap) l f e : h !! l = Some e → alter f l h = <[l := f e]> h.
Proof. intros He. apply map_eq. intros l'. destruct (decide (l = l')) as [->|Hne].
  - by rewrite lookup_alter_eq, lookup_insert_eq, He.
  - by rewrite lookup_alter_ne, lookup_insert_ne.
Qed.

Lemma modify_eq p l f e :
  p_heap p !! l = Some e → modify p l f = p <| p_heap := <[l := f e]> (p_heap p) |>.
Proof. intros He. unfold modify. by rewrite (alter_Some _ _ _ _ He). Qed.

Lemma pushEventToQueue_eq p l e :
  p_heap p !! l = Some e → Event.IsRecovered e = false →
  pushEventToQueue p l = notified p l (e <| Event.LastSentTime := Event.LastEvalTime e |>).
Proof.
  intros He Hr. unfold pushEventToQueue. rewrite (ev_Some _ _ _ He), Hr.
  rewrite (modify_eq _ _ _ _ He). unfold notified, emap_Set, ev. rsimp. rewrite lookup_insert_eq. rsimp.
  by destruct p.
Qed.

(** Firing an event whose hash is not firing yet. *)
Lemma fireEvent_new p l e :
  p_heap p !! l = Some e → Event.IsRecovered e = false → p_fires p !! Event.Hash e = None →
  fireEvent p l = notified p l
    (e <| Event.NotifyCurNumber := 1 |> <| Event.FirstTriggerTime := Event.TriggerTime e |>
       <| Event.LastSentTime := Event.LastEvalTime e |>).
Proof.
  intros He Hr Hf. unfold fireEvent, emap_Get. rewrite (ev_Some _ _ _ He), Hf.
  rewrite (modify_eq _ _ _ _ He). erewrite pushEventToQueue_eq; [|rsimp; apply lookup_insert_eq|by rsimp].
  unfold notified. rsimp. rewrite insert_insert_eq. by destruct p.
Qed.

(** Firing an event whose hash is firing already, as the object [f]. *)
Lemma fireEvent_again p l e f ef :
  p_heap p !! l = Some e → Event.IsRecovered e = false →
  p_fires p !! Event.Hash e = Some f → f ≠ l → p_heap p !! f = Some ef →
  let p1 := p <| p_heap := <[l := e <| Event.FirstTriggerTime := Event.FirstTriggerTime ef |>]>
                  (<[f := ef <| Event.LastEvalTime := Event.LastEvalTime e |>]> (p_heap p)) |> in
  fireEvent p l =
    if repeat_due (p_rule p) ef e then
      notified p1 l (e <| Event.FirstTriggerTime := Event.FirstTriggerTime ef |>
                       <| Event.NotifyCurNumber := i64 (Event.NotifyCurNumber ef + 1) |>
                       <| Event.LastSentTime := Event.LastEvalTime e |>)
    else p1.
Proof.
  intros He Hr Hf Hne Hef p1. unfold fireEvent, emap_Get, UpdateLastEvalTime.
  rewrite (ev_Some _ _ _ He), Hf. rewrite (alter_Some _ _ _ _ Hef).
  set (q1 := p <| p_heap := _ |>).
  assert (p_heap q1 !! l = Some e) as Hq1 by (unfold q1; rsimp; by rewrite lookup_insert_ne).
  assert (ev q1 f = ef <| Event.LastEvalTime := Event.LastEvalTime e |>) as Hq1f
    by (apply ev_Some; unfold q1; rsimp; by rewrite lookup_insert_eq).
  rewrite Hq1f, (modify_eq _ _ _ _ Hq1). rsimp.
  set (q2 := q1 <| p_heap := _ |>). assert (q2 = p1) as Hq2 by (unfold q2, q1, p1; rsimp; by destruct p).
  clearbody q2. subst q2. clear q1 Hq1 Hq1f.
  assert (p_heap p1 !! l = Some (e <| Event.FirstTriggerTime := Event.FirstTriggerTime ef |>)) as Hl
    by (unfold p1; rsimp; by rewrite lookup_insert_eq).
  assert (ev p1 f = ef <| Event.LastEvalTime := Event.LastEvalTime e |>) as Hf1
    by (apply ev_Some; unfold p1; rsimp; rewrite lookup_insert_ne by done; by rewrite lookup_insert_eq).
  rewrite (ev_Some _ _ _ Hl), Hf1. rsimp. rewrite (modify_eq _ _ _ _ Hl).
  erewrite pushEventToQueue_eq; [|rsimp; apply lookup_insert_eq|by rsimp]. rsimp.
  assert (∀ e', notified (p1 <| p_heap := <[l := e <| Event.FirstTriggerTime := Event.FirstTriggerTime ef |>
      <| Event.NotifyCurNumber := i64 (Event.NotifyCurNumber ef + 1) |>]> (p_heap p1) |>) l e'
    = notified p1 l e') as Hn.
  { intros e'. unfold notified. rsimp. rewrite insert_insert_eq. by destruct p1. }
  rewrite Hn. unfold repeat_due.
  rewrite (Z.leb_antisym (Event.NotifyCurNumber ef) (Rule.NotifyMaxNumber (p_rule p))).
  destruct (Rule.NotifyRepeatStep (p_rule p) =? 0); [done|].
  destruct (i64 (Event.LastSentTime ef + i64 (Rule.NotifyRepeatStep (p_rule p) * 60))
              <=? Event.LastEvalTime e); [|done]. cbn [negb andb].
  destruct (Rule.NotifyMaxNumber (p_rule p) =? 0); [done|]. cbn [orb].
  by destruct (Event.NotifyCurNumber ef <? Rule.NotifyMaxNumber (p_rule p)).
Qed.

(** ** What recovering does *)

(** The guards of [RecoverSingle] on the firing event [e]: the observation
    time is over, and an event with a recovery condition recovers only through
    a recovery point. *)
Definition recover_allowed p (byRecover : bool) (hash : string) (now : Z) (e : AlertCurEvent) : bool :=
  (if 0 <? Rule.RecoverDuration (p_rule p) then
     match p_pendingsUseByRecover p !! hash with
     | None => false
     | Some lp => Rule.RecoverDuration (p_rule p) <=? i64 (now - Event.LastEvalTime (ev p lp))
     end
   else true) &&
  ((RecoverConf.JudgeType (Event.RecoverConfig e) =? Origin) || byRecover).

Definition recovered (r : AlertRule) (now : Z) (e : AlertCurEvent) : AlertCurEvent :=
  (UpdateEvent r e) <| Event.IsRecovered := true |> <| Event.LastEvalTime := now |>.

Definition with_value (value values : option string) (e : AlertCurEvent) : AlertCurEvent :=
  match value with
  | None => e
  | Some v => match values with
              | Some vs => e <| Event.TriggerValue := v |> <| Event.TriggerValues := vs |>
              | None => e <| Event.TriggerValue := v |>
              end
  end.

Lemma pushEventToQueue_recovered p l :
  Event.IsRecovered (ev p l) = true →
  pushEventToQueue p l = p <| p_queue := fst (PushFront (p_queue p) l) |>.
Proof. intros Hr. unfold pushEventToQueue. by rewrite Hr. Qed.

Lemma RecoverSingle_eq p byRecover hash now v vs :
  wf p →
  RecoverSingle p byRecover hash now v vs =
  match p_fires p !! hash with
  | None => p
  | Some l =>
      if recover_allowed p byRecover hash now (ev p l) then
        (DeleteProcessEvent p hash)
          <| p_heap := <[l := recovered (p_rule p) now (with_value v vs (ev p l))]> (p_heap p) |>
          <| p_queue := fst (PushFront (p_queue p) l) |>
      else p
  end.
Proof.
  intros Hwf. unfold RecoverSingle, emap_Get, recover_allowed.
  destruct (p_fires p !! hash) as [l|] eqn:Ef; [|done].
  destruct (wf_fires _ Hwf _ _ Ef) as (e & He & _). rewrite (ev_Some _ _ _ He).
  assert ((if 0 <? Rule.RecoverDuration (p_rule p) then
     match p_pendingsUseByRecover p !! hash with
     | None => true
     | Some lp => i64 (now - Event.LastEvalTime (ev p lp)) <? Rule.RecoverDuration (p_rule p)
     end else false) = negb (if 0 <? Rule.RecoverDuration (p_rule p) then
     match p_pendingsUseByRecover p !! hash with
     | None => false
     | Some lp => Rule.RecoverDuration (p_rule p) <=? i64 (now - Event.LastEvalTime (ev p lp))
     end else true)) as ->.
  { destruct (0 <? _); [|done]. destruct (p_pendingsUseByRecover p !! hash); [|done].
    by rewrite Z.ltb_antisym. }
  destruct (if 0 <? Rule.RecoverDuration (p_rule p) then _ else true); [|done]. cbn [negb andb].
  destruct (RecoverConf.JudgeType (Event.RecoverConfig e) =? Origin), byRecover; cbn [negb andb orb]; try done.
  all: set (p1 := match v with Some _ => _ | None => _ end).
  all: assert (p1 = p <| p_heap := <[l := with_value v vs e]> (p_heap p) |>) as ->
    by (unfold p1, with_value; destruct v as [v|];
        [rewrite (modify_eq _ _ _ _ He); by destruct vs | rewrite insert_id by done; by destruct p]).
  all: set (p1 := DeleteProcessEvent _ hash).
  all: assert (p_heap p1 !! l = Some (with_value v vs e)) as Hp1
    by (unfold p1, DeleteProcessEvent; rsimp; apply lookup_insert_eq).
  all: rewrite (modify_eq _ _ _ _ Hp1).
  all: rewrite pushEventToQueue_recovered by (unfold ev; rsimp; rewrite lookup_insert_eq; by rsimp).
  all: unfold p1, DeleteProcessEvent; rsimp; rewrite insert_insert_eq; by destruct p.
Qed.

(** ** Properties *)

(** The processor's own steps and those of its environment: a fresh event is
    built, the rule is refreshed, a batch is handled, recoveries are handled,
    a single event is recovered or deleted, the consumer takes from the
    queue. *)
Inductive pstep : pstate → pstate → Prop :=
| step_build p l e : p_heap p !! l = None → pstep p (p <| p_heap := <[l := e]> (p_heap p) |>)
| step_refresh p r inh : pstep p (p <| p_rule := r |> <| p_inhibit := inh |>)
| step_handle p events : (∀ l, l ∈ events → l ∈ dom (p_heap p)) → pstep p (handleEvent p events)
| step_recover p keys now inh : pstep p (HandleRecover p keys now inh)
| step_recover_one p by_ hash now v vs : pstep p (RecoverSingle p by_ hash now v vs)
| step_delete p hash : pstep p (DeleteProcessEvent p hash)
| step_consume p q : queue_items q ⊆ queue_items (p_queue p) → pstep p (p <| p_queue := q |>).

Lemma pstep_wf p p' : pstep p p' → wf p → wf p'.
Proof.
  intros Hs Hwf. destruct Hs.
  - destruct Hwf as [H1 H2 H3 H4].
    assert (∀ m P, entries_ok (p_heap p) m P → entries_ok (<[l := e]> (p_heap p)) m P) as Hins.
    { intros m P Hok k l' Hk. destruct (Hok _ _ Hk) as (e' & He' & ?). exists e'.
      rewrite lookup_insert_ne by congruence. done. }
    split; rsimp; eauto. intros l' Hl'. destruct (H4 _ Hl') as [e' He'].
    exists e'. by rewrite lookup_insert_ne by congruence.
  - destruct Hwf. split; rsimp; done.
  - by apply handleEvent_wf.
  - by apply HandleRecover_wf.
  - by apply RecoverSingle_wf.
  - by apply wf_DeleteProcessEvent.
  - destruct Hwf. split; rsimp; auto.
Qed.

(** C1. In every state the processor reaches, in whatever order events are built,
    handled, recovered, deleted and consumed, the tables hold allocated events
    under their own hash, and no firing event is marked recovered. *)
Theorem tables_invariant p p' : rtc pstep p p' → wf p → wf p'.
Proof. induction 1; eauto using pstep_wf. Qed.

(** Firing, completely.  An event whose hash is not firing is notified as the
    first of its alert; one whose hash is firing refreshes the firing event,
    inherits its first trigger time, and is notified, with the next number,
    exactly when a repetition is due. *)
Theorem fireEvent_spec p l e :
  wf p → p_heap p !! l = Some e → Event.IsRecovered e = false →
  p_fires p !! Event.Hash e ≠ Some l →
  fireEvent p l =
  match p_fires p !! Event.Hash e with
  | None => notified p l
      (e <| Event.NotifyCurNumber := 1 |> <| Event.FirstTriggerTime := Event.TriggerTime e |>
         <| Event.LastSentTime := Event.LastEvalTime e |>)
  | Some f =>
      let ef := ev p f in
      let p1 := p <| p_heap := <[l := e <| Event.FirstTriggerTime := Event.FirstTriggerTime ef |>]>
                      (<[f := ef <| Event.LastEvalTime := Event.LastEvalTime e |>]> (p_heap p)) |> in
      if repeat_due (p_rule p) ef e then
        notified p1 l (e <| Event.FirstTriggerTime := Event.FirstTriggerTime ef |>
                         <| Event.NotifyCurNumber := i64 (Event.NotifyCurNumber ef + 1) |>
                         <| Event.LastSentTime := Event.LastEvalTime e |>)
      else p1
  end.
Proof.
  intros Hwf He Hr Hne. destruct (p_fires p !! Event.Hash e) as [f|] eqn:Ef.
  - destruct (wf_fires _ Hwf _ _ Ef) as (ef & Hef & _). rewrite (ev_Some _ _ _ Hef).
    apply fireEvent_again; [done..|congruence|done].
  - by apply fireEvent_new.
Qed.

(** Recovering one hash, completely: nothing happens unless it is firing and
    the guards allow it; then it leaves all three tables and the recovered
    event, updated from the current rule, is queued. *)
Theorem RecoverSingle_spec p byRecover hash now v vs :
  wf p →
  RecoverSingle p byRecover hash now v vs =
  match p_fires p !! hash with
  | None => p
  | Some l =>
      if recover_allowed p byRecover hash now (ev p l) then
        (DeleteProcessEvent p hash)
          <| p_heap := <[l := recovered (p_rule p) now (with_value v vs (ev p l))]> (p_heap p) |>
          <| p_queue := fst (PushFront (p_queue p) l) |>
      else p
  end.
Proof. apply RecoverSingle_eq. Qed.

(** *** The number of notifications *)

Definition fresh_event p (h : string) (l : loc) : Prop :=
  ∃ e, p_heap p !! l = Some e ∧ Event.Hash e = h ∧ Event.IsRecovered e = false.

(** After some events with hash [h]: the alert is not firing and nothing was
    queued, or it fires and its number bounds what was queued. *)
Record counted (h : string) (start : nat) (ls : list loc) p : Prop := {
  c_wf : wf p;
  c_fresh : ∀ l, l ∈ ls → fresh_event p h l;
  c_count : match p_fires p !! h with
            | None => (length (queue_items (p_queue p)) ≤ start)%nat
            | Some f => f ∉ ls ∧ 1 ≤ Event.NotifyCurNumber (ev p f) ≤ Rule.NotifyMaxNumber (p_rule p) ∧
                Z.of_nat (length (queue_items (p_queue p)))
                  ≤ Z.of_nat start + Event.NotifyCurNumber (ev p f)
            end
}.

Lemma PushFront_length q l :
  (length (queue_items (fst (PushFront q l))) ≤ S (length (queue_items q)))%nat.
Proof. rewrite PushFront_spec. destruct (snd _); simpl; lia. Qed.

Lemma counted_step h start l ls p :
  1 ≤ Rule.NotifyMaxNumber (p_rule p) < 2 ^ 63 → l ∉ ls →
  counted h start (l :: ls) p →
  counted h start ls (fireEvent p l) ∧ p_rule (fireEvent p l) = p_rule p.
Proof.
  intros Hmax Hl [Hwf Hfresh Hcount].
  destruct (Hfresh l (list_elem_of_here _ _)) as (e & He & Hh & Hr). subst h.
  assert (wf (fireEvent p l)) as Hwf' by (apply fireEvent_wf; [done | by eexists]).
  pose proof (PushFront_length (p_queue p) l) as Hlen.
  destruct (p_fires p !! Event.Hash e) as [f|] eqn:Ef.
  - destruct Hcount as (Hf & Hn & Hq). destruct (wf_fires _ Hwf _ _ Ef) as (ef & Hef & _).
    assert (f ≠ l) as Hfl by set_solver. rewrite (ev_Some _ _ _ Hef) in *.
    rewrite (fireEvent_again p l e f ef) in * by done. cbv zeta in *.
    destruct (repeat_due (p_rule p) ef e) eqn:Hdue.
    + split; [|unfold notified; by rsimp]. split; [done| |].
      * intros l' Hl'. destruct (Hfresh l') as (e' & He' & ? & ?); [by right|]. exists e'.
        unfold notified. rsimp. rewrite !lookup_insert_ne by set_solver. done.
      * unfold notified. rsimp. rewrite lookup_insert_eq. unfold ev. rsimp. rewrite lookup_insert_eq. simpl.
        rsimp. assert (Event.NotifyCurNumber ef < Rule.NotifyMaxNumber (p_rule p)) as Hlt.
        { unfold repeat_due in Hdue. bool_prop. apply orb_true_iff in H0 as [?%Z.eqb_eq|?%Z.ltb_lt]; lia. }
        rewrite i64_id by (unfold in_i64; lia). split_and!; [done|lia|lia|lia].
    + split; [|by rsimp]. split; [done| |].
      * intros l' Hl'. destruct (Hfresh l') as (e' & He' & ? & ?); [by right|]. exists e'.
        rsimp. rewrite !lookup_insert_ne by set_solver. done.
      * rsimp. rewrite Ef. unfold ev. rsimp. rewrite lookup_insert_ne by done. rewrite lookup_insert_eq. simpl.
        rsimp. split_and!; [set_solver|lia|lia|lia].
  - rewrite (fireEvent_new p l e) in * by done. split; [|unfold notified; by rsimp]. split; [done| |].
    + intros l' Hl'. destruct (Hfresh l') as (e' & He' & ? & ?); [by right|]. exists e'.
      unfold notified. rsimp. rewrite lookup_insert_ne by set_solver. done.
    + unfold notified. rsimp. rewrite lookup_insert_eq. unfold ev. rsimp. rewrite lookup_insert_eq. simpl.
      rsimp. split_and!; [done|lia|lia|lia].
Qed.

(** C4. An alert with a maximal number of notifications is queued at most that
    often, however many evaluations find it firing. *)
Theorem notify_limit p ls h :
  wf p → p_fires p !! h = None → NoDup ls → (∀ l, l ∈ ls → fresh_event p h l) →
  1 ≤ Rule.NotifyMaxNumber (p_rule p) < 2 ^ 63 →
  Z.of_nat (length (queue_items (p_queue (foldl fireEvent p ls))))
    ≤ Z.of_nat (length (queue_items (p_queue p))) + Rule.NotifyMaxNumber (p_rule p).
Proof.
  intros Hwf Hf Hnd Hfresh Hmax. set (start := length (queue_items (p_queue p))).
  assert (counted h start ls p) as Hc by (split; [done..|]; rewrite Hf; done).
  remember (Rule.NotifyMaxNumber (p_rule p)) as n eqn:Hn.
  clear Hwf Hf Hfresh. clearbody start. revert p Hn Hc.
  induction Hnd as [|l ls Hl _ IH]; intros p -> Hc; cbn [foldl].
  - destruct Hc as [_ _ Hc]. destruct (p_fires p !! h); lia.
  - destruct (counted_step h start l ls p Hmax Hl Hc) as [Hc' Hr].
    apply IH; [by rewrite Hr|done].
Qed.

(** *** Fields that the operations leave alone *)

Lemma ev_alter_field {A} (g : AlertCurEvent → A) f p l x :
  (∀ e, g (f e) = g e) → g (ev (p <| p_heap := alter f l (p_heap p) |>) x) = g (ev p x).
Proof.
  intros Hg. unfold ev. rsimp. destruct (decide (l = x)) as [->|Hne].
  - rewrite lookup_alter_eq. destruct (p_heap p !! x); simpl; auto.
  - by rewrite lookup_alter_ne.
Qed.

Lemma ev_modify_field {A} (g : AlertCurEvent → A) f p l x :
  (∀ e, g (f e) = g e) → g (ev (modify p l f) x) = g (ev p x).
Proof. apply ev_alter_field. Qed.

Lemma ev_update_field {A} (g : AlertCurEvent → A) p m k t x :
  (∀ e, g (e <| Event.LastEvalTime := t |>) = g e) →
  g (ev (p <| p_heap := UpdateLastEvalTime m k t (p_heap p) |>) x) = g (ev p x).
Proof.
  intros Hg. unfold UpdateLastEvalTime. destruct (m !! k); [by apply ev_alter_field|].
  by destruct p.
Qed.

(** The parts of the state observing and firing do not touch. *)
Definition frame p : AlertRule * bool * Z := (p_rule p, p_inhibit p, p_PromEvalInterval p).

Lemma pushEventToQueue_severity p l x :
  Event.Severity (ev (pushEventToQueue p l) x) = Event.Severity (ev p x) ∧
  frame (pushEventToQueue p l) = frame p.
Proof.
  unfold pushEventToQueue. destruct (Event.IsRecovered (ev p l)); [split; [|unfold frame]; by rsimp|].
  set (p1 := modify p l _). assert (Event.Severity (ev p1 x) = Event.Severity (ev p x)) as <-
    by (apply ev_modify_field; intros e; by rsimp).
  assert (frame p1 = frame p) as <- by (unfold frame, p1, modify; by rsimp).
  unfold frame, ev. by rsimp.
Qed.

Lemma fireEvent_severity p l x :
  Event.Severity (ev (fireEvent p l) x) = Event.Severity (ev p x) ∧ frame (fireEvent p l) = frame p.
Proof.
  unfold fireEvent. destruct (emap_Get _ _) as [f|].
  - set (p1 := p <| p_heap := _ |>). set (p2 := modify p1 l _).
    assert (Event.Severity (ev p2 x) = Event.Severity (ev p x)) as Hs2.
    { unfold p2. rewrite ev_modify_field by (intros e; by rsimp). unfold p1.
      apply ev_update_field. intros e. by rsimp. }
    assert (frame p2 = frame p) as Hf2 by (unfold frame, p2, p1, modify; by rsimp).
    clearbody p2. clear p1.
    destruct (_ =? 0); [done|]. destruct (_ <=? Event.LastEvalTime (ev p2 l)); [|done].
    set (p3 := modify p2 l _). destruct (pushEventToQueue_severity p3 l x) as [Hs3 Hf3].
    assert (Event.Severity (ev p3 x) = Event.Severity (ev p2 x)) as E1
      by (apply ev_modify_field; intros e; by rsimp).
    assert (frame p3 = frame p2) as E2 by (unfold frame, p3, modify; by rsimp).
    destruct (_ =? 0); [split; congruence|]. destruct (_ <=? _); [done|split; congruence].
  - set (p3 := modify p l _). destruct (pushEventToQueue_severity p3 l x) as [Hs3 Hf3].
    assert (Event.Severity (ev p3 x) = Event.Severity (ev p x)) as E1
      by (apply ev_modify_field; intros e; by rsimp).
    assert (frame p3 = frame p) as E2 by (unfold frame, p3, modify; by rsimp). split; congruence.
Qed.

Lemma observeEvent_frame p l :
  let p' := (observeEvent p l).1 in
  (∀ x, Event.Severity (ev p' x) = Event.Severity (ev p x)) ∧
  frame p' = frame p ∧ p_fires p' = p_fires p ∧ p_queue p' = p_queue p.
Proof.
  unfold observeEvent.
  set (p1 := match emap_Get (p_pendingsUseByRecover p) _ with Some _ => _ | None => _ end).
  assert ((∀ x, Event.Severity (ev p1 x) = Event.Severity (ev p x)) ∧
    frame p1 = frame p ∧ p_fires p1 = p_fires p ∧ p_queue p1 = p_queue p) as (H1 & H2 & H3 & H4).
  { unfold p1, frame. destruct (emap_Get _ _); rsimp; split_and!; try done; intros x.
    apply ev_update_field. intros e. by rsimp. }
  clearbody p1. set (p2 := modify p1 l _).
  assert ((∀ x, Event.Severity (ev p2 x) = Event.Severity (ev p x)) ∧
    frame p2 = frame p ∧ p_fires p2 = p_fires p ∧ p_queue p2 = p_queue p) as (E1 & E2 & E3 & E4).
  { rewrite <- H2, <- H3, <- H4. unfold p2, modify, frame. rsimp. split_and!; try done.
    intros x. rewrite <- (H1 x). apply ev_alter_field. intros e. by rsimp. }
  clearbody p2. destruct (_ =? 0); [done|].
  destruct (emap_Get (p_pendings p2) _) as [pre|]; cbn [fst]; rewrite <- E2, <- E3, <- E4; unfold frame.
  - rsimp. split_and!; try done. intros x. rewrite <- (E1 x). apply ev_update_field. intros e; by rsimp.
  - unfold modify. rsimp. split_and!; try done. intros x. rewrite <- (E1 x).
    rewrite <- (ev_alter_field Event.Severity (λ e, e <| Event.FirstEvalTime := Event.LastEvalTime e |>) p2 l x)
      by (intros e; by rsimp). unfold ev. by rsimp.
Qed.

(** *** Inhibition *)

Lemma inhibitEvent_filter p events s :
  p_inhibit p = true →
  inhibitEvent p events s = foldl fireEvent p (filter (λ l, Event.Severity (ev p l) ≤ s) events).
Proof.
  revert p. induction events as [|l events IH]; intros p Hi; cbn [inhibitEvent]; [done|].
  rewrite Hi, filter_cons. destruct (Z.ltb_spec s (Event.Severity (ev p l))) as [Hlt|Hge]; cbn [andb].
  - rewrite decide_False by lia. by apply IH.
  - rewrite decide_True by lia. cbn [foldl].
    assert (p_inhibit (fireEvent p l) = true) as Hi'
      by (destruct (fireEvent_severity p l 0%nat) as [_ [= _ -> _]]; done).
    rewrite IH by done. f_equal. apply list_filter_iff. intros x.
    destruct (fireEvent_severity p l x) as [-> _]. done.
Qed.

(** The severity computed beside the events that are ready is the highest
    priority, the least number, among them. *)
Lemma observeEvents_severity p events fires s p' fires' s' :
  observeEvents p events fires s = (p', fires', s') →
  (∀ l, l ∈ fires → s ≤ Event.Severity (ev p l)) →
  (∀ x, Event.Severity (ev p' x) = Event.Severity (ev p x)) ∧ p_inhibit p' = p_inhibit p ∧
  p_fires p' = p_fires p ∧ p_queue p' = p_queue p ∧
  (∀ l, l ∈ fires' → s' ≤ Event.Severity (ev p l)) ∧
  (s' = s ∨ ∃ l, l ∈ fires' ∧ Event.Severity (ev p l) = s') ∧ (∀ l, l ∈ fires → l ∈ fires').
Proof.
  revert p fires s. induction events as [|l events IH]; intros p fires s; cbn [observeEvents].
  { intros [= <- <- <-] Hf. split_and!; auto. }
  destruct (observeEvent_frame p l) as (Hsev & [= _ Hinh _] & Hfi & Hq).
  destruct (observeEvent p l) as [p1 ready]. cbn [fst] in *. intros Ho Hf.
  destruct ready.
  - rewrite Hsev in Ho. set (s1 := if _ <? s then _ else s) in Ho.
    assert (s1 ≤ s ∧ s1 ≤ Event.Severity (ev p l) ∧ (s1 = s ∨ s1 = Event.Severity (ev p l)))
      as (Hs1 & Hs2 & Hs3) by (unfold s1; destruct (Z.ltb_spec (Event.Severity (ev p l)) s); lia).
    clearbody s1. eapply IH in Ho as (G1 & G2 & G3 & G4 & G5 & G6 & G7).
    + setoid_rewrite Hsev in G1. setoid_rewrite Hsev in G5. setoid_rewrite Hsev in G6.
      split_and!; [done|congruence..|done| |intros x Hx; apply G7; set_solver].
      destruct G6 as [->|?]; [|by right]. destruct Hs3 as [->| ->]; [by left|].
      right. exists l. split; [apply G7; set_solver | done].
    + intros x. rewrite Hsev. intros [Hx%Hf| ->%list_elem_of_singleton]%elem_of_app; lia.
  - eapply IH in Ho as (G1 & G2 & G3 & G4 & G5 & G6 & G7).
    + setoid_rewrite Hsev in G1. setoid_rewrite Hsev in G5. setoid_rewrite Hsev in G6.
      split_and!; done || congruence.
    + intros x. rewrite Hsev. auto.
Qed.

(** Under inhibition, of a batch of events that are ready only those of the
    highest priority fire, in their order: handling the batch is observing it
    and then firing exactly these. *)
Theorem handleEvent_inhibits p events p1 ready s :
  p_inhibit p = true → observeEvents p events [] SeverityLowest = (p1, ready, s) →
  handleEvent p events = foldl fireEvent p1 (filter (λ l, Event.Severity (ev p l) ≤ s) ready) ∧
  (∀ l, l ∈ ready → s ≤ Event.Severity (ev p l)) ∧
  (s = SeverityLowest ∨ ∃ l, l ∈ ready ∧ Event.Severity (ev p l) = s) ∧
  p_fires p1 = p_fires p ∧ p_queue p1 = p_queue p.
Proof.
  intros Hi Ho. destruct (observeEvents_severity _ _ _ _ _ _ _ Ho) as (G1 & G2 & G3 & G4 & G5 & G6 & _);
    [set_solver|]. split_and!; try done. unfold handleEvent. rewrite Ho.
  rewrite inhibitEvent_filter by congruence. f_equal. apply list_filter_iff. intros x. by rewrite G1.
Qed.

(** Without inhibition every event that is ready fires. *)
Theorem handleEvent_fires_all p events p1 ready s :
  p_inhibit p = false → observeEvents p events [] SeverityLowest = (p1, ready, s) →
  handleEvent p events = foldl fireEvent p1 ready.
Proof.
  intros Hi Ho. unfold handleEvent. rewrite Ho.
  destruct (observeEvents_severity _ _ _ _ _ _ _ Ho) as (_ & G2 & _); [set_solver|].
  rewrite Hi in G2. clear Ho. revert p1 G2. induction ready as [|l ready IH]; intros p1 G2; [done|].
  cbn [inhibitEvent foldl]. rewrite G2. cbn [andb]. apply IH.
  destruct (fireEvent_severity p1 l 0%nat) as [_ [= _ -> _]]. done.
Qed.

(** *** The for-duration *)

(** The time since when the condition of an event holds: the first evaluation
    of its pending predecessor, or this evaluation. *)
Definition since p (e : AlertCurEvent) : Z :=
  match p_pendings p !! Event.Hash e with
  | Some pre => Event.FirstEvalTime (ev p pre)
  | None => Event.LastEvalTime e
  end.

Lemma ev_update_own p m k l t :
  Event.LastEvalTime (ev p l) = t →
  Event.LastEvalTime (ev (p <| p_heap := UpdateLastEvalTime m k t (p_heap p) |>) l) = t.
Proof.
  intros Ht. unfold UpdateLastEvalTime. destruct (m !! k) as [l0|]; [|by unfold ev in *; rsimp].
  unfold ev in *. rsimp. destruct (decide (l0 = l)) as [->|Hne].
  - rewrite lookup_alter_eq. destruct (p_heap p !! l); simpl in *; [by rsimp|done].
  - by rewrite lookup_alter_ne.
Qed.

(** Noting the event for recovery keeps the tables and the times the
    for-duration depends on. *)
Lemma observe_recover p l e :
  p_heap p !! l = Some e →
  let p1 := match emap_Get (p_pendingsUseByRecover p) (Event.Hash e) with
            | Some _ => p <| p_heap := UpdateLastEvalTime (p_pendingsUseByRecover p) (Event.Hash e)
                                         (Event.LastEvalTime e) (p_heap p) |>
            | None => p <| p_pendingsUseByRecover := emap_Set (p_pendingsUseByRecover p) (Event.Hash e) l |>
            end in
  frame p1 = frame p ∧ p_pendings p1 = p_pendings p ∧ is_Some (p_heap p1 !! l) ∧
  (∀ x, Event.FirstEvalTime (ev p1 x) = Event.FirstEvalTime (ev p x)) ∧
  Event.LastEvalTime (ev p1 l) = Event.LastEvalTime e.
Proof.
  intros He p1. unfold p1, frame. destruct (emap_Get _ _); rsimp; split_and!; try done.
  - rewrite <- elem_of_dom. unfold UpdateLastEvalTime.
    case_match; rewrite ?dom_alter_L; apply elem_of_dom; by eexists.
  - intros x. apply ev_update_field. intros e'. by rsimp.
  - apply ev_update_own. by rewrite (ev_Some _ _ _ He).
  - unfold ev. rsimp. by rewrite He.
Qed.

Lemma observeEvent_ready p l e :
  p_heap p !! l = Some e →
  (observeEvent p l).2 =
    ((Rule.PromForDuration (p_rule p) =? 0) ||
     (Rule.PromForDuration (p_rule p) <=?
        i64 (i64 (Event.LastEvalTime e - since p e) + p_PromEvalInterval p))).
Proof.
  intros He. unfold observeEvent, since. rewrite (ev_Some _ _ _ He).
  set (p1 := match emap_Get (p_pendingsUseByRecover p) _ with Some _ => _ | None => _ end).
  destruct (observe_recover p l e He) as (E1 & E2 & E3 & E4 & E5). fold p1 in E1, E2, E3, E4, E5.
  clearbody p1. injection E1 as Er Ei Ep. set (p2 := modify p1 l _).
  assert (p_rule p2 = p_rule p ∧ p_pendings p2 = p_pendings p ∧ is_Some (p_heap p2 !! l) ∧
    (∀ x, Event.FirstEvalTime (ev p2 x) = Event.FirstEvalTime (ev p x)) ∧
    Event.LastEvalTime (ev p2 l) = Event.LastEvalTime e ∧
    Event.PromEvalInterval (ev p2 l) = p_PromEvalInterval p) as (F1 & F2 & F3 & F4 & F5 & F6).
  { unfold p2. split_and!; [unfold modify; by rsimp..| | | |].
    - by rewrite <- elem_of_dom, modify_dom, elem_of_dom.
    - intros x. rewrite ev_modify_field by (intros e'; by rsimp). auto.
    - rewrite ev_modify_field by (intros e'; by rsimp). done.
    - rewrite ev_modify by done. by rsimp. }
  clearbody p2. rewrite F1. destruct (Rule.PromForDuration (p_rule p) =? 0); [done|]. cbn [orb].
  unfold emap_Get. rewrite F2. destruct (p_pendings p !! Event.Hash e) as [pre|]; cbn [snd]; rsimp.
  - rewrite F1. rewrite (ev_update_field Event.FirstEvalTime) by (intros e'; by rsimp).
    rewrite (ev_update_field Event.PromEvalInterval) by (intros e'; by rsimp).
    rewrite ev_update_own by done. by rewrite F4, F5, F6.
  - unfold ev at 1 3. rsimp. fold (ev (modify p2 l (λ e0, e0 <| Event.FirstEvalTime := Event.LastEvalTime e0 |>)) l).
    rewrite !ev_modify by done. rsimp. rewrite F5, F6. unfold modify. rsimp. by rewrite F1.
Qed.

(** A rule with a for-duration fires an event only when its condition has
    held for that long, one evaluation interval counted in; until then
    handling it changes neither the firing table nor the queue. *)
Theorem handleEvent_for_duration p l e :
  p_heap p !! l = Some e → Rule.PromForDuration (p_rule p) ≠ 0 →
  i64 (i64 (Event.LastEvalTime e - since p e) + p_PromEvalInterval p) < Rule.PromForDuration (p_rule p) →
  p_fires (handleEvent p [l]) = p_fires p ∧ p_queue (handleEvent p [l]) = p_queue p.
Proof.
  intros He Hd Hlt. pose proof (observeEvent_ready p l e He) as Hready.
  destruct (observeEvent_frame p l) as (_ & _ & Hf & Hq).
  unfold handleEvent. cbn [observeEvents]. destruct (observeEvent p l) as [p1 ready]. cbn [fst snd] in *.
  rewrite (proj2 (Z.eqb_neq _ _)) in Hready by done. rewrite (proj2 (Z.leb_gt _ _)) in Hready by done.
  by rewrite Hready.
Qed.
(** *** Recovery of a batch *)

(** What an operation leaves alone when only the entries [K] of the tables may
    go: the rule, the other entries, and the events with another hash. *)
Record outside (K : string → Prop) p p' : Prop := {
  o_rule : p_rule p' = p_rule p;
  o_fires : ∀ k, ¬ K k → p_fires p' !! k = p_fires p !! k;
  o_pendings : ∀ k, ¬ K k → p_pendings p' !! k = p_pendings p !! k;
  o_recover : ∀ k, ¬ K k → p_pendingsUseByRecover p' !! k = p_pendingsUseByRecover p !! k;
  o_heap : ∀ l e, p_heap p !! l = Some e → ¬ K (Event.Hash e) → p_heap p' !! l = Some e
}.

Lemma outside_refl K p : outside K p p.
Proof. by split. Qed.

Lemma outside_trans K p p1 p2 : outside K p p1 → outside K p1 p2 → outside K p p2.
Proof.
  intros [A1 A2 A3 A4 A5] [B1 B2 B3 B4 B5]. split; [congruence| | | |eauto].
  all: intros k Hk; rewrite ?B2, ?B3, ?B4 by done; auto.
Qed.

Lemma outside_mono (K K' : string → Prop) p p' : (∀ k, K k → K' k) → outside K p p' → outside K' p p'.
Proof. intros HK [A1 A2 A3 A4 A5]. split; eauto. Qed.

Lemma RecoverSingle_outside p b hash now v vs :
  wf p → outside (λ k, k = hash) p (RecoverSingle p b hash now v vs).
Proof.
  intros Hwf. rewrite RecoverSingle_eq by done.
  destruct (p_fires p !! hash) as [l|] eqn:Ef; [|apply outside_refl].
  destruct (wf_fires _ Hwf _ _ Ef) as (e & He & Hh & _).
  destruct (recover_allowed _ _ _ _ _); [|apply outside_refl].
  unfold DeleteProcessEvent, emap_Delete. split; rsimp; try done.
  1-3: intros k Hk; by rewrite lookup_delete_ne by congruence.
  intros l' e' He' Hne. rewrite lookup_insert_ne; [done|]. intros <-. congruence.
Qed.

Lemma recoverAll_outside p hashes now :
  wf p → outside (λ k, k ∈ hashes) p (recoverAll p hashes now).
Proof.
  unfold recoverAll. revert p. induction hashes as [|h hashes IH]; intros p Hwf; [apply outside_refl|].
  cbn [foldl]. eapply outside_trans.
  - eapply (outside_mono (λ k, k = h)); [|by apply RecoverSingle_outside]. intros k ->. set_solver.
  - eapply outside_mono; [|apply IH; by apply RecoverSingle_wf]. set_solver.
Qed.

(** Under inhibition the events that are deleted, and those kept for recovery,
    are among the given hashes. *)
Lemma inhibitRecover_outside p hashes m p' m' :
  inhibitRecover p hashes m = (p', m') → wf p →
  outside (λ k, k ∈ hashes ∨ ∃ t e, m !! t = Some e ∧ Event.Hash e = k) p p' ∧
  ∀ t e, m' !! t = Some e → Event.Hash e ∈ hashes ∨ ∃ t e', m !! t = Some e' ∧ Event.Hash e' = Event.Hash e.
Proof.
  revert p m. induction hashes as [|h hashes IH]; intros p m; cbn [inhibitRecover].
  { intros [= <- <-] _. split; [apply outside_refl|]. eauto. }
  unfold emap_Get. destruct (p_fires p !! h) as [l|] eqn:Ef.
  2: { intros Hi Hwf. destruct (IH _ _ Hi Hwf) as [G1 G2]. split; [eapply outside_mono; [|done]; set_solver|].
       intros t e He. destruct (G2 _ _ He); set_solver. }
  intros Hi Hwf. destruct (wf_fires _ Hwf _ _ Ef) as (e & He & Hh & _). rewrite (ev_Some _ _ _ He) in Hi.
  assert (∀ t e', <[Event.Tags e := e]> m !! t = Some e' →
    Event.Hash e' = h ∨ ∃ t e'', m !! t = Some e'' ∧ Event.Hash e'' = Event.Hash e') as Hins.
  { intros t e' [[<- <-]|[_ ?]]%lookup_insert_Some; eauto. }
  destruct (m !! Event.Tags e) as [e0|] eqn:Em.
  2: { destruct (IH _ _ Hi Hwf) as [G1 G2]. split.
       - eapply outside_mono; [|exact G1]. intros k [?|(t & e' & [<-|?]%Hins & <-)]; set_solver.
       - intros t e' He'. destruct (G2 _ _ He') as [?|(t' & e'' & [<-|(?&?&?&<-)]%Hins & <-)]; set_solver. }
  destruct (_ <? _).
  2: { destruct (IH _ _ Hi Hwf) as [G1 G2]. split; [eapply outside_mono; [|done]; set_solver|].
       intros t e' He'. destruct (G2 _ _ He'); set_solver. }
  set (p1 := p <| p_fires := _ |> <| p_pendings := _ |> <| p_deleted := _ |>) in Hi.
  assert (wf p1) as Hw1.
  { destruct Hwf as [W1 W2 W3 W4]. split; unfold p1, emap_Delete; rsimp; [by apply entries_ok_delete..|done|done]. }
  assert (outside (λ k, k = Event.Hash e0) p p1) as Ho.
  { split; unfold p1, emap_Delete; rsimp; try done; intros k Hk; by rewrite lookup_delete_ne by congruence. }
  destruct (IH _ _ Hi Hw1) as [G1 G2]. split.
  - eapply outside_trans; [eapply outside_mono; [|exact Ho] | eapply outside_mono; [|exact G1]].
    + intros k ->. right. eauto.
    + intros k [?|(t & e' & [<-|?]%Hins & <-)]; set_solver.
  - intros t e' He'. destruct (G2 _ _ He') as [?|(t' & e'' & [<-|(?&?&?&<-)]%Hins & <-)]; set_solver.
Qed.

Lemma HandleRecoverEvent_outside p hashes now inh :
  wf p → outside (λ k, k ∈ hashes) p (HandleRecoverEvent p hashes now inh).
Proof.
  intros Hwf. unfold HandleRecoverEvent. destruct inh; cbn [negb]; [|by apply recoverAll_outside].
  destruct (inhibitRecover p hashes ∅) as [p1 m] eqn:Hi.
  destruct (inhibitRecover_wf _ _ _ _ _ Hi Hwf) as [Hw _].
  destruct (inhibitRecover_outside _ _ _ _ _ Hi Hwf) as [G1 G2].
  eapply outside_trans; [eapply outside_mono; [|exact G1] | eapply outside_mono; [|by apply recoverAll_outside]].
  - intros k [?|(t & e & []%lookup_empty_Some & _)]; done.
  - intros k ([t e] & -> & Hin)%list_elem_of_fmap. apply elem_of_go_range in Hin.
    destruct (G2 _ _ Hin) as [?|(? & ? & []%lookup_empty_Some & _)]; done.
Qed.

(** Recovery only removes pending events. *)
Lemma RecoverSingle_pendings p b hash now v vs k l :
  p_pendings (RecoverSingle p b hash now v vs) !! k = Some l → p_pendings p !! k = Some l.
Proof.
  unfold RecoverSingle. destruct (emap_Get _ _) as [l0|]; [|done]. destruct (if _ <? _ then _ else false); [done|].
  destruct (_ && _); [done|]. unfold pushEventToQueue, modify, DeleteProcessEvent, emap_Delete.
  set (p1 := match v with Some _ => _ | None => _ end).
  assert (p_pendings p1 = p_pendings p) as <- by (unfold p1, modify; destruct v; by rsimp). clearbody p1.
  case_match; rsimp; by intros [_ ?]%lookup_delete_Some.
Qed.

Lemma recoverAll_pendings p hashes now k l :
  p_pendings (recoverAll p hashes now) !! k = Some l → p_pendings p !! k = Some l.
Proof.
  unfold recoverAll. revert p. induction hashes as [|h hashes IH]; intros p; cbn [foldl]; [done|].
  intros Hp%IH. by apply RecoverSingle_pendings in Hp.
Qed.

Lemma inhibitRecover_pendings p hashes m p' m' k l :
  inhibitRecover p hashes m = (p', m') → p_pendings p' !! k = Some l → p_pendings p !! k = Some l.
Proof.
  revert p m. induction hashes as [|h hashes IH]; intros p m; cbn [inhibitRecover]; [by intros [= -> _]|].
  destruct (emap_Get _ _); [|apply IH]. destruct (m !! _); [|apply IH]. destruct (_ <? _); [|apply IH].
  intros Hi Hp. eapply IH in Hi; [|done]. unfold emap_Delete in Hi. rsimp. by apply lookup_delete_Some in Hi as [_ ?].
Qed.

Lemma HandleRecoverEvent_pendings p hashes now inh k l :
  p_pendings (HandleRecoverEvent p hashes now inh) !! k = Some l → p_pendings p !! k = Some l.
Proof.
  unfold HandleRecoverEvent. destruct (negb inh); [apply recoverAll_pendings|].
  destruct (inhibitRecover p hashes ∅) as [p1 m] eqn:Hi. intros Hp%recoverAll_pendings.
  by eapply inhibitRecover_pendings.
Qed.

(** The alert [k], firing with event [e] at [l], after a recovery that was
    allowed or not. *)
Definition settled p (k : string) (l : loc) (e : AlertCurEvent) (now : Z) p' : Prop :=
  if recover_allowed p false k now e then
    p_fires p' !! k = None ∧ p_heap p' !! l = Some (recovered (p_rule p) now e)
  else p_fires p' !! k = Some l ∧ p_heap p' !! l = Some e.

Lemma recover_allowed_outside K p p' k now e :
  wf p → outside K p p' → ¬ K k → recover_allowed p' false k now e = recover_allowed p false k now e.
Proof.
  intros Hwf [Hr _ _ Hp Hh] Hk. unfold recover_allowed. rewrite Hr, Hp by done. f_equal.
  destruct (0 <? _); [|done]. destruct (p_pendingsUseByRecover p !! k) as [lp|] eqn:Ep; [|done].
  destruct (wf_recover _ Hwf _ _ Ep) as (ep & Hep & Hhash & _).
  assert (p_heap p' !! lp = Some ep) as Hep' by (apply Hh; [done | by rewrite Hhash]).
  by rewrite (ev_Some _ _ _ Hep), (ev_Some _ _ _ Hep').
Qed.

(** An alert that is not firing is not touched. *)
Lemma recoverAll_gone p hashes now k l e :
  wf p → p_fires p !! k = None → p_heap p !! l = Some e → Event.Hash e = k →
  p_fires (recoverAll p hashes now) !! k = None ∧ p_heap (recoverAll p hashes now) !! l = Some e.
Proof.
  unfold recoverAll. revert p. induction hashes as [|h hashes IH]; intros p Hwf Hf Hl He; [done|].
  cbn [foldl]. destruct (decide (h = k)) as [->|Hne].
  - rewrite RecoverSingle_eq by done. rewrite Hf. by apply IH.
  - destruct (RecoverSingle_outside p false h now None None Hwf) as [_ Of _ _ Oh].
    apply IH; [by apply RecoverSingle_wf| | |done].
    + by rewrite Of by congruence.
    + apply Oh; [done|congruence].
Qed.

Lemma recoverAll_one p hashes now k l e :
  wf p → k ∈ hashes → p_fires p !! k = Some l → p_heap p !! l = Some e →
  settled p k l e now (recoverAll p hashes now).
Proof.
  unfold recoverAll. intros Hwf Hin Hf Hl.
  destruct (wf_fires _ Hwf _ _ Hf) as (e' & He' & Hh & _). rewrite Hl in He'. injection He' as <-.
  revert p Hwf Hin Hf Hl. induction hashes as [|h hashes IH]; intros p Hwf Hin Hf Hl; [set_solver|].
  cbn [foldl]. unfold settled. destruct (decide (h = k)) as [->|Hne].
  - pose proof (RecoverSingle_wf p false k now None None Hwf) as [Hw _].
    rewrite RecoverSingle_eq in * by done. rewrite Hf, (ev_Some _ _ _ Hl) in *.
    destruct (recover_allowed p false k now e) eqn:Ha.
    + apply recoverAll_gone; [done|..]; unfold DeleteProcessEvent, emap_Delete; rsimp.
      * apply lookup_delete_eq.
      * by rewrite lookup_insert_eq.
      * unfold recovered, UpdateEvent. by rsimp.
    + destruct (decide (k ∈ hashes)) as [Hk|Hk].
      * specialize (IH p Hwf Hk Hf Hl). unfold settled in IH. by rewrite Ha in IH.
      * destruct (recoverAll_outside p hashes now Hwf) as [_ Of _ _ Oh].
        unfold recoverAll in *. rewrite Of by done. split; [done|]. apply Oh; [done|congruence].
  - pose proof (RecoverSingle_outside p false h now None None Hwf) as Ho.
    destruct (RecoverSingle_wf p false h now None None Hwf) as [Hw _].
    rewrite <- (recover_allowed_outside _ _ _ k now e Hwf Ho) by congruence.
    destruct Ho as [<- Of _ _ Oh]. apply IH; [done|set_solver| |].
    + by rewrite Of by congruence.
    + apply Oh; [done|congruence].
Qed.

Lemma HandleRecover_pruned p keys now inh :
  let p1 := p <| p_pendings := foldl (λ m hash, if decide (hash ∈ keys) then m else emap_Delete m hash)
                                (p_pendings p) (emap_Keys (p_pendings p)) |> in
  let hashes := filter (λ hash, hash ∉ keys) (emap_Keys (p_fires p)) in
  wf p →
  HandleRecover p keys now inh = HandleRecoverEvent p1 hashes now inh ∧ wf p1 ∧
  NoDup hashes ∧ (∀ k, k ∈ hashes ↔ k ∉ keys ∧ is_Some (p_fires p !! k)).
Proof.
  intros p1 hashes Hwf. unfold HandleRecover. fold p1. split_and!.
  - by unfold hashes, p1; rsimp.
  - destruct Hwf. split; unfold p1; rsimp; try done.
    apply (entries_ok_subseteq _ (p_pendings p)); [|done]. apply map_subseteq_spec. intros k l.
    rewrite prune_keys. by case_decide.
  - apply NoDup_filter, NoDup_fst_go_range.
  - intros k. unfold hashes. rewrite list_elem_of_filter. unfold emap_Keys. by rewrite elem_of_fst_go_range.
Qed.

Lemma HandleRecover_kept p keys now inh :
  wf p →
  (∀ k, k ∈ keys →
     p_fires (HandleRecover p keys now inh) !! k = p_fires p !! k ∧
     p_pendings (HandleRecover p keys now inh) !! k = p_pendings p !! k ∧
     p_pendingsUseByRecover (HandleRecover p keys now inh) !! k = p_pendingsUseByRecover p !! k) ∧
  (∀ l e, p_heap p !! l = Some e → Event.Hash e ∈ keys →
     p_heap (HandleRecover p keys now inh) !! l = Some e) ∧
  (∀ k, k ∉ keys → p_pendings (HandleRecover p keys now inh) !! k = None).
Proof.
  intros Hwf. destruct (HandleRecover_pruned p keys now inh Hwf) as (-> & Hw & _ & Hin).
  set (p1 := p <| p_pendings := _ |>) in *. set (hashes := filter _ _) in *.
  destruct (HandleRecoverEvent_outside p1 hashes now inh Hw) as [_ O1 O2 O3 O4].
  assert (∀ k, p_pendings p1 !! k = if decide (k ∈ keys) then p_pendings p !! k else None) as Hp1
    by (intros k; unfold p1; rsimp; apply prune_keys).
  split_and!.
  - intros k Hk. assert (k ∉ hashes) by (rewrite Hin; tauto).
    rewrite O1, O2, O3, Hp1, decide_True by done. unfold p1. by rsimp.
  - intros l e Hl He. apply O4; [unfold p1; by rsimp|]. rewrite Hin. tauto.
  - intros k Hk. destruct (p_pendings (HandleRecoverEvent p1 hashes now inh) !! k) as [l|] eqn:E; [|done].
    pose proof (HandleRecoverEvent_pendings p1 hashes now inh k l E) as E'.
    by rewrite Hp1, decide_False in E'.
Qed.

(** Handling recoveries never touches an alert that is still alerting: its
    entries in the three tables and its events stay as they are; a pending
    alert that no longer alerts is forgotten, so its for-duration starts
    again. *)
Theorem HandleRecover_alerting p keys now inh :
  wf p →
  (∀ k, k ∈ keys →
     p_fires (HandleRecover p keys now inh) !! k = p_fires p !! k ∧
     p_pendings (HandleRecover p keys now inh) !! k = p_pendings p !! k ∧
     p_pendingsUseByRecover (HandleRecover p keys now inh) !! k = p_pendingsUseByRecover p !! k) ∧
  (∀ l e, p_heap p !! l = Some e → Event.Hash e ∈ keys →
     p_heap (HandleRecover p keys now inh) !! l = Some e) ∧
  (∀ k, k ∉ keys → p_pendings (HandleRecover p keys now inh) !! k = None).
Proof. apply HandleRecover_kept. Qed.

(** C3. Without inhibition every firing alert that no longer alerts is recovered
    when its guards allow it, with the state it has when recovery starts, and
    otherwise keeps firing unchanged. *)
Theorem HandleRecover_recovers p keys now k l e :
  wf p → k ∉ keys → p_fires p !! k = Some l → p_heap p !! l = Some e →
  settled p k l e now (HandleRecover p keys now false).
Proof.
  intros Hwf Hk Hf Hl. destruct (HandleRecover_pruned p keys now false Hwf) as (-> & Hw & _ & Hin).
  set (p1 := p <| p_pendings := _ |>) in *. set (hashes := filter _ _) in *.
  unfold HandleRecoverEvent. cbn [negb].
  assert (settled p1 k l e now (recoverAll p1 hashes now)) as Hs.
  { apply recoverAll_one; [done| |unfold p1; by rsimp..]. apply Hin. eauto. }
  unfold settled, recover_allowed, ev, p1 in *. by rsimp.
Qed.

Lemma inhibitRecover_fires p hashes m p' m' k l :
  inhibitRecover p hashes m = (p', m') → p_fires p' !! k = Some l → p_fires p !! k = Some l.
Proof.
  revert p m. induction hashes as [|h hashes IH]; intros p m; cbn [inhibitRecover]; [by intros [= -> _]|].
  destruct (emap_Get _ _); [|apply IH]. destruct (m !! _); [|apply IH]. destruct (_ <? _); [|apply IH].
  intros Hi Hp. eapply IH in Hi; [|done]. unfold emap_Delete in Hi. rsimp. by apply lookup_delete_Some in Hi as [_ ?].
Qed.

Lemma inhibitRecover_frame p hashes m p' m' :
  inhibitRecover p hashes m = (p', m') →
  p_rule p' = p_rule p ∧ p_pendingsUseByRecover p' = p_pendingsUseByRecover p.
Proof.
  revert p m. induction hashes as [|h hashes IH]; intros p m; cbn [inhibitRecover]; [by intros [= -> _]|].
  destruct (emap_Get _ _); [|apply IH]. destruct (m !! _); [|apply IH]. destruct (_ <? _); [|apply IH].
  intros Hi. apply IH in Hi. by rsimp.
Qed.

(** The map of the first loop: every firing event of the given hashes is
    represented by one with its tags and a severity at least as high, and its
    entries are events that still fire. *)
Lemma inhibitRecover_min p hashes m p' m' :
  inhibitRecover p hashes m = (p', m') → wf p → NoDup hashes →
  (∀ t e, m !! t = Some e → Event.Tags e = t ∧ Event.Hash e ∉ hashes ∧
     ∃ l, p_fires p !! Event.Hash e = Some l ∧ p_heap p !! l = Some e) →
  (∀ t e, m' !! t = Some e → Event.Tags e = t ∧
     ∃ l, p_fires p' !! Event.Hash e = Some l ∧ p_heap p !! l = Some e) ∧
  (∀ t e, m !! t = Some e → ∃ e', m' !! t = Some e' ∧ Event.Severity e' ≤ Event.Severity e) ∧
  (∀ h l e, h ∈ hashes → p_fires p !! h = Some l → p_heap p !! l = Some e →
     ∃ e', m' !! Event.Tags e = Some e' ∧ Event.Severity e' ≤ Event.Severity e).
Proof.
  revert p m. induction hashes as [|h hashes IH]; intros p m; cbn [inhibitRecover].
  { intros [= <- <-] _ _ Hm. split_and!; [naive_solver|eauto with lia|set_solver]. }
  unfold emap_Get. intros Hi Hwf Hnd Hm. apply NoDup_cons in Hnd as [Hh Hnd].
  destruct (p_fires p !! h) as [l|] eqn:Ef.
  2: { destruct (IH _ _ Hi Hwf Hnd) as (G1 & G2 & G3); [set_solver|]. split_and!; [done..|].
       intros h' l' e [->|Hin]%elem_of_cons ? ?; [congruence|eauto]. }
  destruct (wf_fires _ Hwf _ _ Ef) as (e & He & Hhe & _). rewrite (ev_Some _ _ _ He) in Hi.
  destruct (m !! Event.Tags e) as [e0|] eqn:Em.
  2: { destruct (IH _ _ Hi Hwf Hnd) as (G1 & G2 & G3).
       { intros t e' [[<- <-]|[_ Ht]]%lookup_insert_Some; [rewrite Hhe; eauto|set_solver]. }
       split_and!; [done| |].
       - intros t e' Ht. apply G2. rewrite lookup_insert_ne; [done|congruence].
       - intros h' l' e' [->|Hin]%elem_of_cons Hf' Hl'; [|eauto].
         assert (e' = e) as -> by congruence. apply G2, lookup_insert_eq. }
  destruct (Hm _ _ Em) as (Ht0 & Hn0 & l0 & Hf0 & Hl0).
  destruct (Z.ltb_spec (Event.Severity e) (Event.Severity e0)) as [Hlt|Hge].
  2: { destruct (IH _ _ Hi Hwf Hnd) as (G1 & G2 & G3); [set_solver|]. split_and!; [done..|].
       intros h' l' e' [->|Hin]%elem_of_cons Hf' Hl'; [|eauto]. assert (e' = e) as -> by congruence.
       destruct (G2 _ _ Em) as (e1 & ? & ?). exists e1. split; [done|lia]. }
  set (p1 := p <| p_fires := _ |> <| p_pendings := _ |> <| p_deleted := _ |>) in Hi.
  assert (wf p1) as Hw1.
  { destruct Hwf as [W1 W2 W3 W4]. split; unfold p1, emap_Delete; rsimp; [by apply entries_ok_delete..|done|done]. }
  assert (p_heap p1 = p_heap p) as Hp1 by (unfold p1; by rsimp).
  assert (∀ k, k ≠ Event.Hash e0 → p_fires p1 !! k = p_fires p !! k) as Hf1
    by (intros k Hk; unfold p1, emap_Delete; rsimp; by rewrite lookup_delete_ne).
  destruct (IH _ _ Hi Hw1 Hnd) as (G1 & G2 & G3).
  { rewrite Hp1. intros t e' [[<- <-]|[Hne Ht]]%lookup_insert_Some.
    - rewrite Hhe. split_and!; [done..|]. exists l. rewrite Hf1; [done|]. set_solver.
    - destruct (Hm _ _ Ht) as (? & ? & l' & ? & ?). split_and!; [done|set_solver|]. exists l'.
      rewrite Hf1; [done|]. intros Heq. assert (l' = l0) by congruence. congruence. }
  rewrite Hp1 in *. split_and!; [done| |].
  - intros t e' Ht. destruct (decide (t = Event.Tags e)) as [->|Hne].
    + destruct (G2 _ _ (lookup_insert_eq _ _ _)) as (e1 & ? & ?). exists e1. split; [done|]. naive_solver lia.
    + apply G2. by rewrite lookup_insert_ne.
  - intros h' l' e' [->|Hin]%elem_of_cons Hf' Hl'.
    + assert (e' = e) as -> by congruence. apply G2, lookup_insert_eq.
    + apply (G3 h' l'); [done| |done]. rewrite Hf1; [done|]. set_solver.
Qed.

(** Under inhibition, when alerts with the same tags stop alerting together,
    one of the highest priority among them is recovered, if its guards allow. *)
Theorem HandleRecover_inhibits p keys now k l e :
  wf p → k ∉ keys → p_fires p !! k = Some l → p_heap p !! l = Some e →
  ∃ k' l' e', k' ∉ keys ∧ p_fires p !! k' = Some l' ∧ p_heap p !! l' = Some e' ∧
    Event.Tags e' = Event.Tags e ∧ Event.Severity e' ≤ Event.Severity e ∧
    settled p k' l' e' now (HandleRecover p keys now true).
Proof.
  intros Hwf Hk Hf Hl. destruct (HandleRecover_pruned p keys now true Hwf) as (-> & Hw & Hnd & Hin).
  set (p1 := p <| p_pendings := _ |>) in *. set (hashes := filter _ _) in *.
  assert (p_fires p1 = p_fires p ∧ p_heap p1 = p_heap p) as [Ef1 Eh1] by (unfold p1; by rsimp).
  unfold HandleRecoverEvent. cbn [negb]. destruct (inhibitRecover p1 hashes ∅) as [p2 m] eqn:Hi.
  destruct (inhibitRecover_wf _ _ _ _ _ Hi Hw) as [Hw2 Eh2].
  destruct (inhibitRecover_outside _ _ _ _ _ Hi Hw) as [O1 O2].
  destruct (inhibitRecover_min _ _ _ _ _ Hi Hw Hnd) as (G1 & _ & G3); [by intros ? ? []%lookup_empty_Some|].
  rewrite Ef1, Eh1 in *. destruct (G3 k l e) as (e' & He' & Hs); [apply Hin; eauto|done..|].
  destruct (G1 _ _ He') as (Ht & l' & Hf' & Hl').
  destruct (O2 _ _ He') as [Hin'|(? & ? & []%lookup_empty_Some & _)].
  apply Hin in Hin' as [Hk' [l0 Hf0]].
  destruct (wf_fires _ Hwf _ _ Hf0) as (e0 & He0 & Hh0 & _).
  assert (l0 = l') as ->.
  { pose proof (inhibitRecover_fires _ _ _ _ _ _ _ Hi Hf') as Hx. rewrite Ef1 in Hx. congruence. }
  exists (Event.Hash e'), l', e'. split_and!; try done.
  assert (settled p2 (Event.Hash e') l' e' now
    (recoverAll p2 (map (λ te, Event.Hash te.2) (go_range m)) now)) as Hset.
  { apply recoverAll_one; [done| |done|by rewrite Eh2]. apply list_elem_of_fmap.
    exists (Event.Tags e, e'). split; [done|]. by apply elem_of_go_range. }
  destruct (inhibitRecover_frame _ _ _ _ _ Hi) as [Er Epr]. unfold settled, recover_allowed, ev in *.
  rewrite Er, Epr, Eh2 in Hset. unfold p1 in Hset. by rsimp.
Qed.

(** The order in which Go iterates over the firing table decides what happens
    to the lower priority one of two alerts with the same tags that stop
    together: seen after the higher one it keeps firing, and is recovered at a
    later evaluation; seen before it is deleted without a recovery. *)
Theorem HandleRecoverEvent_order p now k1 k2 l1 l2 e1 e2 :
  wf p → k1 ≠ k2 → p_fires p !! k1 = Some l1 → p_fires p !! k2 = Some l2 →
  p_heap p !! l1 = Some e1 → p_heap p !! l2 = Some e2 →
  Event.Tags e1 = Event.Tags e2 → Event.Severity e1 < Event.Severity e2 →
  p_fires (HandleRecoverEvent p [k1; k2] now true) !! k2 = Some l2 ∧
  p_fires (HandleRecoverEvent p [k2; k1] now true) !! k2 = None.
Proof.
  intros Hwf Hne F1 F2 L1 L2 Ht Hs.
  destruct (wf_fires _ Hwf _ _ F1) as (e & E1 & Hh1 & _). rewrite L1 in E1. injection E1 as <-.
  destruct (wf_fires _ Hwf _ _ F2) as (e & E2 & Hh2 & _). rewrite L2 in E2. injection E2 as <-.
  unfold HandleRecoverEvent. cbn [negb inhibitRecover]. unfold emap_Get.
  rewrite F1, F2, (ev_Some _ _ _ L1), (ev_Some _ _ _ L2). rewrite !lookup_empty, <- Ht, !lookup_insert_eq.
  split.
  - rewrite (proj2 (Z.ltb_ge _ _)) by lia. rewrite insert_empty, go_range_singleton. cbn [map snd].
    destruct (recoverAll_outside p [Event.Hash e1] now Hwf) as [_ Hf _ _ _].
    rewrite Hf; [done|]. set_solver.
  - rewrite (proj2 (Z.ltb_lt _ _)) by lia.
    rewrite insert_insert_eq, insert_empty, go_range_singleton. cbn [map snd].
    set (p1 := p <| p_fires := _ |> <| p_pendings := _ |> <| p_deleted := _ |>).
    assert (wf p1) as Hw1.
    { destruct Hwf. split; unfold p1, emap_Delete; rsimp; [by apply entries_ok_delete..|done|done]. }
    destruct (recoverAll_outside p1 [Event.Hash e1] now Hw1) as [_ Hf _ _ _].
    rewrite Hf by set_solver. unfold p1, emap_Delete. rsimp. rewrite <- Hh2. apply lookup_delete_eq.
Qed.

(** The queue holds the firing event itself, not a copy: an alert that
    recovers before the consumer took its firing event from the queue is
    notified twice as recovered and never as firing. *)
Theorem queued_event_recovers p l e now :
  wf p → p_heap p !! l = Some e → Event.IsRecovered e = false → p_fires p !! Event.Hash e = None →
  Rule.RecoverDuration (p_rule p) = 0 → RecoverConf.JudgeType (Event.RecoverConfig e) = Origin →
  (∀ q l, snd (PushFront q l) = true) →
  let p' := RecoverSingle (fireEvent p l) false (Event.Hash e) now None None in
  queue_items (p_queue p') = l :: l :: queue_items (p_queue p) ∧ Event.IsRecovered (ev p' l) = true.
Proof.
  intros Hwf Hl Hr Hf Hd Hj Hacc p'.
  assert (wf (fireEvent p l)) as Hw by (apply fireEvent_wf; [done | by eexists]).
  unfold p'. rewrite RecoverSingle_eq by done. clear p'. rewrite (fireEvent_new p l e) in * by done.
  unfold notified in *. rsimp. rewrite lookup_insert_eq. unfold recover_allowed, ev. rsimp.
  rewrite Hd, !lookup_insert_eq. cbn [Z.ltb Z.compare]. simpl default. rsimp. rewrite Hj. rewrite Z.eqb_refl. cbn [orb andb].
  unfold DeleteProcessEvent. rsimp. rewrite !PushFront_spec, !Hacc. rewrite lookup_insert_eq.
  split; [done|]. simpl default. unfold recovered. by rsimp.
Qed.
End table.
