(* ===== verification/Process.v ===== *)
(** * Processing anomaly points: [alert/process/process.go], [models/anomaly_point.go]

    From the samples a query returns to the event tables: conversion of query
    results to anomaly points, the tags and the identity of an event, building
    the event, [Handle] (pipelines, muting, grouping, firing, recovery) and
    loading the tables from the database. *)

From Stdlib Require Import Ascii.
From S2P Require Import Prelude GoStrings GoTime Json Models RuleModels EventOps Filter Mute.
From S2P Require Import Relabel Workflow Engine Processors RuleOps EventTable.
Open Scope string_scope.
Open Scope Z_scope.

(** ** Anomaly points *)

(** [model.Metric.String] and [fmt.Sprintf("%.5f", _)]. *)
Class SampleFmt := {
  metric_string : gmap string string → string;
  fmt_fixed5 : float64 → string
}.

(** A query result ([model.Value] of prometheus/common): the series of a
    vector or a matrix with their samples (unix second and value), a scalar,
    or a value of another type. *)
Inductive query_value :=
| VVector (items : list (gmap string string * (Z * float64)))
| VMatrix (items : list (gmap string string * list (Z * float64)))
| VScalar (sample : Z * float64)
| VOther.

Definition is_nan (f : float64) : bool := match f with NaN => true | _ => false end.

Fixpoint trim_right_of (c : ascii) (s : string) : string :=
  match s with
  | "" => ""
  | String a s' =>
      let t := trim_right_of c s' in
      if String.eqb t "" && Ascii.eqb a c then "" else String a t
  end.

Section points.
Context `{GR : GoRange, SF : SampleFmt}.

Definition point_of (key : string) (labels : gmap string string) (sample : Z * float64) : AnomalyPoint :=
  Point.zero <| Point.Key := key |> <| Point.Labels := labels |>
             <| Point.Timestamp := fst sample |> <| Point.Value := snd sample |>.

Fixpoint convert_vector (items : list (gmap string string * (Z * float64))) : list AnomalyPoint :=
  match items with
  | [] => []
  | (metric, s) :: items' =>
      if is_nan (snd s) then convert_vector items'
      else point_of (metric_string metric) metric s :: convert_vector items'
  end.

(** A series without samples ends the conversion. *)
Fixpoint convert_matrix (items : list (gmap string string * list (Z * float64))) : list AnomalyPoint :=
  match items with
  | [] => []
  | (metric, samples) :: items' =>
      match last samples with
      | None => []
      | Some s =>
          if is_nan (snd s) then convert_matrix items'
          else point_of (metric_string metric) metric s :: convert_matrix items'
      end
  end.

Definition ConvertAnomalyPoints (value : option query_value) : list AnomalyPoint :=
  match value with
  | None => []
  | Some (VVector items) => convert_vector items
  | Some (VMatrix items) => convert_matrix items
  | Some (VScalar s) => if is_nan (snd s) then [] else [point_of "{}" ∅ s]
  | Some VOther => []
  end.

Definition NewAnomalyPoint (key : string) (labels : gmap string string) (ts : Z) (value : float64)
    (severity : Z) : AnomalyPoint :=
  (point_of key (<["__name__" := key]> labels) (ts, value)) <| Point.Severity := severity |>.

Definition ReadableValue (v : AnomalyPoint) : string :=
  match go_range (Point.ValuesUnit v) with
  | (_, u) :: _ => FormattedVal.Text u
  | [] => trim_right_of "."%char (trim_right_of "0"%char (fmt_fixed5 (Point.Value v)))
  end.
End points.

Definition TriggerTypeNodata := "nodata".

(** ** Tags and identity *)

(** [html/template], by name and text, executed on an event. *)
Class HtmlTemplate := {
  html_parse : string → string → option error;
  html_execute : string → string → AlertCurEvent → result string
}.

Section tags.
Context `{GR : GoRange, HT : HtmlTemplate, SF : SampleFmt, SL : StrLib}.

Definition labelMapToArr (m : gmap string string) : list string :=
  let labelStrings := map (λ kv, fst kv +:+ "=" +:+ snd kv) (go_range m) in
  if (1 <? size m)%nat then sort_strings labelStrings else labelStrings.

(** The value of one appended tag; the template sees the tags added before. *)
Definition tag_value (ruleId : Z) (tagsMap : gmap string string) (tagValue : string) : string :=
  let text := join ["{{$labels := .TagsMap}}"; "{{$value := .TriggerValue}}"; tagValue] "" in
  let e := Event.zero <| Event.TagsMap := tagsMap |> in
  let failed (err : error) := "parse tag value failed, err:" +:+ err in
  match html_parse (itoa ruleId) text with
  | Some err => failed err
  | None => match html_execute (itoa ruleId) text e with Err err => failed err | Ok body => body end
  end.

(** [arr[1]] panics for a tag without an equals sign. *)
Fixpoint append_tags (ruleId : Z) (tags : list string) (tagsMap : gmap string string)
  : go (gmap string string) :=
  match tags with
  | [] => Ret tagsMap
  | tag :: tags' =>
      let arr := splitn2 tag "=" in
      v ← go_index arr 1;
      k ← go_index arr 0;
      append_tags ruleId tags' (<[k := tag_value ruleId tagsMap v]> tagsMap)
  end.

Definition fillTags (rule : AlertRule) (anomalyPoint : AnomalyPoint)
  : go (gmap string string * list string) :=
  let tags := (Rule.AppendTagsJSON rule ++ ["rulename=" +:+ Rule.Name rule])%list in
  tagsMap ← append_tags (Rule.Id rule) tags (Point.Labels anomalyPoint);
  Ret (tagsMap, labelMapToArr tagsMap).

Definition Hash (ruleId datasourceId : Z) (vector : AnomalyPoint) : string :=
  str_md5 (itoa ruleId +:+ "_" +:+ metric_string (Point.Labels vector) +:+ "_" +:+ itoa datasourceId
    +:+ "_" +:+ itoa (Point.Severity vector) +:+ "_" +:+ Point.Query vector).

Definition TagHash (vector : AnomalyPoint) : string := str_md5 (metric_string (Point.Labels vector)).

Definition Processor_Key (datasourceId : Z) (rule : AlertRule) : string :=
  RuleKey datasourceId (Rule.Id rule).

Definition Processor_Hash (datasourceId : Z) (rule : AlertRule) : string :=
  str_md5 (itoa (Rule.Id rule) +:+ "_" +:+ Rule.CronPattern rule +:+ "_" +:+ Rule.RuleConfig rule
    +:+ "_" +:+ itoa datasourceId).
End tags.

(** ** The caches a processor reads *)

Record caches := mkCaches {
  c_alertRule : gmap Z AlertRule;
  c_target : gmap string Target;
  c_busiGroup : gmap Z BusiGroup;
  c_alertMute : gmap Z (list AlertMute);
  c_datasourceName : gmap Z string;
  c_eventProcessor : gmap Z EventPipeline
}.

(** The fields of [Processor] that do not change, and the hook of the
    dispatch package that can mute an event. *)
Record pconf := mkPconf {
  pc_datasourceId : Z;
  pc_EngineName : string;
  pc_IsCenter : bool;
  pc_EventMuteHook : AlertCurEvent → bool
}.

Definition GetNamesByBusiGroupIds (bgs : gmap Z BusiGroup) (ids : list Z) : list string :=
  omap (λ id, option_map BusiGrp.Name (bgs !! id)) ids.

Definition mayHandleIdent (targets : gmap string Target) (event : AlertCurEvent) : AlertCurEvent :=
  match Event.TagsMap event !! "ident" with
  | None => event <| Event.TargetIdent := "" |> <| Event.TargetNote := "" |>
  | Some ident =>
      match targets !! ident with
      | Some target => event <| Event.TargetIdent := Tgt.Ident target |>
                             <| Event.TargetNote := Tgt.Note target |>
      | None => event <| Event.TargetIdent := ident |> <| Event.TargetNote := "" |>
      end
  end.

(** The target of the event, with the names of its groups. *)
Definition fill_target (c : caches) (event : AlertCurEvent) : AlertCurEvent :=
  match c_target c !! Event.TargetIdent event with
  | Some pt => event <| Event.Target := Some (pt <| Tgt.GroupNames :=
                          GetNamesByBusiGroupIds (c_busiGroup c) (Tgt.GroupIds pt) |>) |>
  | None => event
  end.

(** ** Building an event *)

Section build.
Context `{GR : GoRange, HT : HtmlTemplate, SF : SampleFmt, SL : StrLib}.
Context `{RG : Regexp, !RegexpSub, M5 : Md5, LN : LabelNames, UC : UnicodeCase}.
Context `{!Json (gmap string string), !Json RuleQuery}.

(** The event before relabelling. *)
Definition base_event (conf : pconf) (c : caches) (rule : AlertRule) (point : AnomalyPoint)
    (ruleHash : string) (tagsMap : gmap string string) (tagsArr : list string) : AlertCurEvent :=
  let event := GenerateNewEvent rule in
  let event := match c_busiGroup c !! Rule.GroupId rule with
               | Some bg => event <| Event.GroupName := BusiGrp.Name bg |>
               | None => event
               end in
  event <| Event.TriggerTime := Point.Timestamp point |>
        <| Event.TagsMap := tagsMap |>
        <| Event.DatasourceId := pc_datasourceId conf |>
        <| Event.Cluster := default "" (c_datasourceName c !! pc_datasourceId conf) |>
        <| Event.Hash := Hash (Rule.Id rule) (pc_datasourceId conf) point |>
        <| Event.TriggerValue := ReadableValue point |>
        <| Event.TriggerValues := Point.Values point |>
        <| Event.TriggerValuesJson := TriggerVals.mkEventTriggerValues (Point.ValuesUnit point) |>
        <| Event.TagsJSON := tagsArr |>
        <| Event.Tags := join tagsArr ",," |>
        <| Event.IsRecovered := false |>
        <| Event.Callbacks := Rule.Callbacks rule |>
        <| Event.CallbacksJSON := Rule.CallbacksJSON rule |>
        <| Event.Annotations := Rule.Annotations rule |>
        <| Event.RuleConfig := Rule.RuleConfig rule |>
        <| Event.RuleConfigJson := Rule.RuleConfigJson rule |>
        <| Event.Severity := Point.Severity point |>
        <| Event.ExtraConfig := Rule.ExtraConfigJSON rule |>
        <| Event.PromQl := Point.Query point |>
        <| Event.RecoverConfig := Point.RecoverConfig point |>
        <| Event.RuleHash := ruleHash |>.

(** A point for missing data: the value reads nodata and the event's copy of
    the rule configuration says which trigger it was. *)
Definition nodata_event (rule : AlertRule) (point : AnomalyPoint) (event : AlertCurEvent) : AlertCurEvent :=
  if String.eqb (Point.TriggerType point) TriggerTypeNodata then
    let ruleConfig := fst (json_unmarshal (Rule.RuleConfig rule) RuleQ.zero) in
    let ruleConfig := ruleConfig <| RuleQ.TriggerType := Point.TriggerType point |> in
    event <| Event.TriggerValue := "nodata" |> <| Event.RuleConfig := marshal_text ruleConfig |>
  else event.

Definition annotate_event (rule : AlertRule) (event : AlertCurEvent) : AlertCurEvent :=
  match json_unmarshal (Rule.Annotations rule) (Event.AnnotationsJSON event) with
  | (m, None) => event <| Event.AnnotationsJSON := m |>
  | (_, Some _) => event <| Event.AnnotationsJSON := ∅ |>
  end.

(** Several variables in the trigger values: all of them are shown. *)
Definition values_event (event : AlertCurEvent) : AlertCurEvent :=
  if negb (String.eqb (Event.TriggerValues event) "") && (1 <? count_sub (Event.TriggerValues event) "$")%nat
  then event <| Event.TriggerValue := Event.TriggerValues event |> else event.

Definition eval_time_event (from : string) (now : Z) (event : AlertCurEvent) : AlertCurEvent :=
  event <| Event.LastEvalTime := if String.eqb from "inner" then now else Event.TriggerTime event |>.

(** [BuildEvent], with the rule the relabelling defaults are written into. *)
Definition BuildEvent (conf : pconf) (c : caches) (rule : AlertRule) (point : AnomalyPoint)
    (from : string) (now : Z) (ruleHash : string) : go (AlertRule * AlertCurEvent) :=
  '(tagsMap, tagsArr) ← fillTags rule point;
  let event := base_event conf c rule point ruleHash tagsMap tagsArr in
  let event := eval_time_event from now (values_event (annotate_event rule (nodata_event rule point event))) in
  '(rule, event) ← Relabel rule event;
  let event := mayHandleIdent (c_target c) event in
  Ret (rule, if String.eqb (Event.TargetIdent event) "" then event else fill_target c event).
End build.

(** ** Handling a batch of points *)

Section handle.
Context {World : Type} `{RT : Runtime World, GR : GoRange, QL : EventQueueLib}.
Context `{HT : HtmlTemplate, SF : SampleFmt, SL : StrLib}.
Context `{RG : Regexp, !RegexpSub, M5 : Md5, LN : LabelNames, UC : UnicodeCase}.
Context `{GF : GoFmt, EF : EventFieldJson, TZ : Location}.
Context `{!Json (gmap string string), !Json RuleQuery, !Json (gmap string iface)}.
Context `{!Json (list NodeExecutionResult), !Json iface}.
Implicit Types p : pstate.

(** One point: the rule, the hash that counts as alerting, and the event that
    is neither dropped by a pipeline nor muted. *)
Definition handle_point (conf : pconf) (c : caches) (rule : AlertRule) (point : AnomalyPoint)
    (from : string) (now : Z) (ruleHash : string) (w : World)
  : go (World * AlertRule * string * option AlertCurEvent * list pipeline_output) :=
  '(rule, event) ← BuildEvent conf c rule point from now ruleHash;
  let event := event <| Event.NotifyRuleIds := Rule.NotifyRuleIds rule |> in
  let hash := Event.Hash event in
  '(w, event, out) ← HandleEventPipeline (Rule.PipelineConfigs rule) event event (c_eventProcessor c)
                       (Rule.Id rule) "alert_rule" w;
  match event with
  | None => Ret (w, rule, hash, None, out)
  | Some event =>
      '(isMuted, _, _) ← IsMuted rule event (c_target c) (c_alertMute c);
      if (isMuted : bool) || pc_EventMuteHook conf event then Ret (w, rule, hash, None, out)
      else Ret (w, rule, hash, Some event, out)
  end.

(** The surviving events are grouped by the hash of their labels. *)
Definition add_to_group (eventsMap : gmap string (list loc)) (tagHash : string) (l : loc)
  : gmap string (list loc) :=
  <[tagHash := (default [] (eventsMap !! tagHash) ++ [l])%list]> eventsMap.

Fixpoint handle_points (conf : pconf) (c : caches) (points : list AnomalyPoint) (from : string)
    (now : Z) (ruleHash : string) p (w : World) (keys : gset string)
    (eventsMap : gmap string (list loc)) (out : list pipeline_output)
  : go (pstate * World * gset string * gmap string (list loc) * list pipeline_output) :=
  match points with
  | [] => Ret (p, w, keys, eventsMap, out)
  | point :: points' =>
      '(w, rule, hash, event, o) ← handle_point conf c (p_rule p) point from now ruleHash w;
      let p := p <| p_rule := rule |> in
      let keys := {[hash]} ∪ keys in
      let out := (out ++ o)%list in
      match event with
      | None => handle_points conf c points' from now ruleHash p w keys eventsMap out
      | Some event =>
          let l := fresh (dom (p_heap p)) in
          let p := p <| p_heap := <[l := event]> (p_heap p) |> in
          handle_points conf c points' from now ruleHash p w keys
            (add_to_group eventsMap (TagHash point) l) out
      end
  end.

Definition Handle (conf : pconf) (c : caches) (points : list AnomalyPoint) (from : string)
    (inhibit : bool) (now : Z) p (w : World) : go (pstate * World * list pipeline_output) :=
  let p := p <| p_inhibit := inhibit |> in
  match c_alertRule c !! Rule.Id (p_rule p) with
  | None => Ret (p, w, [])
  | Some cachedRule =>
      let ruleHash := AlertRule_Hash (p_rule p) in
      let p := p <| p_rule := cachedRule |> in
      '(p, w, keys, eventsMap, out) ← handle_points conf c points from now ruleHash p w ∅ ∅ [];
      let p := foldl handleEvent p (map snd (go_range eventsMap)) in
      let p := if String.eqb from "inner" then HandleRecover p keys now inhibit else p in
      Ret (p, w, out)
  end.

(** ** Loading the tables from the database *)

(** Which rows of the current-event table become firing events again, in their
    in-memory form. *)
Definition restored_event (conf : pconf) (c : caches) (event : AlertCurEvent) : option AlertCurEvent :=
  match c_alertRule c !! Event.RuleId event with
  | None => None
  | Some alertRule =>
      let event := event <| Event.NotifyRuleIds := Rule.NotifyRuleIds alertRule |> in
      let foreign :=
        String.eqb (Event.Cate event) HOST &&
        match c_target c !! Event.TargetIdent event with
        | Some target =>
            negb (String.eqb (Tgt.EngineName target) (pc_EngineName conf)) &&
            negb (pc_IsCenter conf && String.eqb (Tgt.EngineName target) "")
        | None => false
        end in
      if foreign then None else Some (fill_target c (DB2Mem event))
  end.

Fixpoint restore_events (conf : pconf) (c : caches) (curEvents : list AlertCurEvent) (h : heap)
    (fireMap pendingMap : AlertCurEventMap) : heap * AlertCurEventMap * AlertCurEventMap :=
  match curEvents with
  | [] => (h, fireMap, pendingMap)
  | event :: curEvents' =>
      match restored_event conf c event with
      | None => restore_events conf c curEvents' h fireMap pendingMap
      | Some event =>
          let l := fresh (dom h) in
          let h := <[l := event]> h in
          let l' := fresh (dom h) in
          restore_events conf c curEvents' (<[l' := event]> h)
            (<[Event.Hash event := l]> fireMap) (<[Event.Hash event := l']> pendingMap)
      end
  end.

Definition RecoverAlertCurEventFromDb (conf : pconf) (c : caches) (curEvents : result (list AlertCurEvent))
    p : pstate :=
  let p := p <| p_pendings := ∅ |> <| p_pendingsUseByRecover := ∅ |> in
  match curEvents with
  | Err _ => p <| p_fires := ∅ |>
  | Ok rows =>
      let '(h, fireMap, pendingMap) := restore_events conf c rows (p_heap p) ∅ ∅ in
      p <| p_heap := h |> <| p_fires := fireMap |> <| p_pendingsUseByRecover := pendingMap |>
  end.
End handle.

(** ** Properties *)

(** *** Conversion *)

(** In a matrix, a series without samples hides all series after it: the
    conversion of the whole is that of the series before it. *)
Theorem ConvertAnomalyPoints_matrix_stops `{SampleFmt} items metric items' :
  ConvertAnomalyPoints (Some (VMatrix (items ++ (metric, []) :: items'))) =
  ConvertAnomalyPoints (Some (VMatrix items)).
Proof.
  cbn [ConvertAnomalyPoints]. induction items as [|[m s] items IH]; [done|].
  cbn [app convert_matrix]. destruct (last s) as [x|]; [|done]. by rewrite IH.
Qed.

(** The points of a vector are its samples that are numbers, in order, and the
    points of a matrix in which every series has a sample are the last samples
    that are numbers. *)
Theorem ConvertAnomalyPoints_samples `{SampleFmt} items :
  (∀ m s, (m, s) ∈ items → s ≠ []) →
  ConvertAnomalyPoints (Some (VMatrix items)) =
  ConvertAnomalyPoints (Some (VVector (omap (λ ms, option_map (pair ms.1) (last ms.2)) items))) ∧
  ∀ p, p ∈ ConvertAnomalyPoints (Some (VMatrix items)) →
    Point.Value p ≠ NaN ∧
    ∃ s, (Point.Labels p, s) ∈ items ∧ last s = Some (Point.Timestamp p, Point.Value p).
Proof.
  cbn [ConvertAnomalyPoints]. induction items as [|[m s] items IH]; intros Hall; [set_solver|].
  destruct IH as [IH1 IH2]; [intros; eapply Hall; by right|].
  cbn [convert_matrix]. csimpl.
  destruct (last s) as [x|] eqn:Hs; cbn [option_map].
  2: { apply last_None in Hs. destruct (Hall m s); [by left|done]. }
  cbn [convert_vector]. rewrite IH1 in *.
  destruct (is_nan x.2) eqn:Hnan; split; try done.
  - intros p Hp. destruct (IH2 p Hp) as (? & s' & ? & ?). split; [done|]. exists s'. split; [by right|done].
  - intros p [->|Hp]%elem_of_cons.
    + unfold point_of. rsimp. split; [by destruct x.2|]. exists s. split; [by left|by destruct x].
    + destruct (IH2 p Hp) as (? & s' & ? & ?). split; [done|]. exists s'. split; [by right|done].
Qed.

(** *** Tags *)

Lemma splitn2_contains tag : contains tag "=" = true → ∃ k v, splitn2 tag "=" = [k; v].
Proof.
  intros Hc. unfold splitn2.
  assert (is_Some (cut "=" tag)) as [[k v] Hkv].
  { revert Hc. induction tag as [|c tag IH]; cbn [contains cut]; [done|].
    destruct (String.prefix "=" (String c tag)); [by eexists|]. cbn [orb]. intros [[k v] ->]%IH. by eexists. }
  rewrite Hkv. eauto.
Qed.

Section tags_spec.
Context `{HT : HtmlTemplate, SF : SampleFmt, SL : StrLib}.

Lemma append_tags_Ret ruleId tags m :
  (∀ t, t ∈ tags → contains t "=" = true) → ∃ m', append_tags ruleId tags m = Ret m'.
Proof.
  revert m. induction tags as [|t tags IH]; intros m Hall; cbn [append_tags]; [by eexists|].
  destruct (splitn2_contains t) as (k & v & ->); [apply Hall; by left|].
  apply IH. intros t' Ht'. apply Hall. by right.
Qed.

Lemma labelMapToArr_perm (GR : GoRange) m :
  labelMapToArr m ≡ₚ map (λ kv, kv.1 +:+ "=" +:+ kv.2) (map_to_list m).
Proof.
  unfold labelMapToArr. destruct (1 <? size m)%nat; rewrite ?sort_strings_perm; by rewrite go_range_perm.
Qed.

Lemma labelMapToArr_sorted (GR : GoRange) m : StronglySorted string_le (labelMapToArr m).
Proof.
  unfold labelMapToArr. destruct (1 <? size m)%nat eqn:E; [apply sort_strings_sorted|].
  apply Nat.ltb_ge in E. rewrite <- length_map_to_list in E.
  rewrite <- (Permutation_length (go_range_perm m)) in E.
  destruct (go_range m) as [|x [|y l]]; [constructor|repeat constructor|simpl in E; lia].
Qed.

Lemma labelMapToArr_canonical (G1 G2 : GoRange) m : @labelMapToArr G1 m = @labelMapToArr G2 m.
Proof.
  apply (StronglySorted_unique string_le); [apply labelMapToArr_sorted..|].
  by rewrite !labelMapToArr_perm.
Qed.

(** The tags of an event do not depend on the order Go visits the labels in,
    and are sorted. *)
Theorem fillTags_deterministic (G1 G2 : GoRange) rule point :
  fillTags (GR := G1) rule point = fillTags (GR := G2) rule point ∧
  ∀ m arr, fillTags (GR := G1) rule point = Ret (m, arr) →
    StronglySorted string_le arr ∧ arr ≡ₚ map (λ kv, kv.1 +:+ "=" +:+ kv.2) (map_to_list m).
Proof.
  unfold fillTags. split.
  - destruct (append_tags _ _ _); [|done]. cbn. by rewrite (labelMapToArr_canonical G1 G2).
  - intros m arr (m' & _ & [= <- <-])%go_bind_Ret. split; [apply labelMapToArr_sorted | apply labelMapToArr_perm].
Qed.
End tags_spec.

(** *** The tables *)

Section tables_spec.
Context `{GR : GoRange, QL : EventQueueLib}.
Implicit Types p : pstate.

(** Handling events only adds to the firing table. *)
Lemma fireEvent_fires p l k : is_Some (p_fires p !! k) → is_Some (p_fires (fireEvent p l) !! k).
Proof.
  assert (∀ p l, is_Some (p_fires p !! k) → is_Some (p_fires (pushEventToQueue p l) !! k)) as Hpush.
  { intros p0 l0 Hk. unfold pushEventToQueue, modify, emap_Set. case_match; rsimp; [done|].
    by apply lookup_insert_is_Some'; right. }
  assert (∀ p l f, p_fires (modify p l f) = p_fires p) as Hmod by (intros; unfold modify; by rsimp).
  intros Hk. unfold fireEvent. destruct (emap_Get _ _).
  - set (p1 := p <| p_heap := _ |>). set (p2 := modify p1 l _).
    assert (p_fires p2 = p_fires p) as E by (unfold p2; rewrite Hmod; unfold p1; by rsimp).
    rewrite <- E in Hk. clearbody p2. repeat case_match; try done; apply Hpush; by rewrite Hmod.
  - apply Hpush. by rewrite Hmod.
Qed.

Lemma handleEvent_fires p events k :
  is_Some (p_fires p !! k) → is_Some (p_fires (handleEvent p events) !! k).
Proof.
  intros Hk. unfold handleEvent. destruct (observeEvents p events [] SeverityLowest) as [[p1 ready] s] eqn:Ho.
  destruct (observeEvents_severity _ _ _ _ _ _ _ Ho) as (_ & _ & Hf & _); [set_solver|].
  rewrite <- Hf in Hk. clear Ho Hf. revert p1 Hk. induction ready as [|l ready IH]; intros p1 Hk; [done|].
  cbn [inhibitEvent]. case_match; apply IH; auto using fireEvent_fires.
Qed.

Lemma handle_groups p groups :
  wf p → (∀ g l, g ∈ groups → l ∈ g → l ∈ dom (p_heap p)) →
  wf (foldl handleEvent p groups) ∧
  ∀ k, is_Some (p_fires p !! k) → is_Some (p_fires (foldl handleEvent p groups) !! k).
Proof.
  revert p. induction groups as [|g groups IH]; intros p Hwf Hall; [done|]. cbn [foldl].
  destruct (handleEvent_wf p g Hwf) as [Hw Hd]; [intros l Hl; eapply Hall; [by left|done]|].
  destruct (IH (handleEvent p g) Hw) as [Hw' Hk].
  - intros g' l Hg Hl. rewrite Hd. eapply Hall; [by right|done].
  - split; [done|]. intros k Hsome. apply Hk, handleEvent_fires, Hsome.
Qed.
End tables_spec.

(** *** Building and handling *)

Section handle_spec.
Context {World : Type} `{RT : Runtime World, GR : GoRange, QL : EventQueueLib}.
Context `{HT : HtmlTemplate, SF : SampleFmt, SL : StrLib}.
Context `{RG : Regexp, !RegexpSub, M5 : Md5, LN : LabelNames, UC : UnicodeCase}.
Context `{GF : GoFmt, EF : EventFieldJson, TZ : Location}.
Context `{!Json (gmap string string), !Json RuleQuery, !Json (gmap string iface)}.
Context `{!Json (list NodeExecutionResult), !Json iface}.
Implicit Types p : pstate.

(** What relabelling never changes. *)
Definition identity_of (e : AlertCurEvent) : string * Z * Z * bool * Z * string :=
  (Event.Hash e, Event.RuleId e, Event.Severity e, Event.IsRecovered e, Event.LastEvalTime e,
   Event.RuleHash e).

Lemma Relabel_identity rule e rule' e' :
  Relabel rule e = Ret (rule', e') →
  identity_of e' = identity_of e ∧ Rule.Id rule' = Rule.Id rule ∧
  Rule.NotifyRuleIds rule' = Rule.NotifyRuleIds rule ∧
  Rule.PipelineConfigs rule' = Rule.PipelineConfigs rule.
Proof.
  unfold Relabel, identity_of. destruct (_ =? 0)%nat.
  - intros Hr%Ret_inj. injection Hr as -> ->. split_and!; by rsimp.
  - intros ([e1 cfgs] & Hr & Hret)%go_bind_Ret. apply Ret_inj in Hret. injection Hret as -> ->.
    unfold EventRelabel in Hr. apply go_bind_Ret in Hr as (got & _ & Hr). apply Ret_inj in Hr.
    apply (f_equal fst) in Hr. cbn [fst] in Hr. subst e1. split_and!; by rsimp.
Qed.

Lemma base_event_identity conf c rule point rh m arr :
  identity_of (base_event conf c rule point rh m arr) =
  (Hash (Rule.Id rule) (pc_datasourceId conf) point, Rule.Id rule, Point.Severity point, false,
   Event.LastEvalTime Event.zero, rh).
Proof.
  unfold identity_of, base_event, GenerateNewEvent, UpdateEvent. by case_match.
Qed.

Lemma staged_identity from now rule point e :
  let e' := eval_time_event from now (values_event (annotate_event rule (nodata_event rule point e))) in
  identity_of e' = (Event.Hash e, Event.RuleId e, Event.Severity e, Event.IsRecovered e,
    (if String.eqb from "inner" then now else Event.TriggerTime e), Event.RuleHash e) ∧
  Event.Tags e' = Event.Tags e ∧ Event.TagsJSON e' = Event.TagsJSON e ∧ Event.TagsMap e' = Event.TagsMap e.
Proof.
  unfold identity_of, eval_time_event, values_event, annotate_event, nodata_event.
  set (e1 := if String.eqb _ TriggerTypeNodata then _ else _).
  set (f x := (Event.Hash x, Event.RuleId x, Event.Severity x, Event.IsRecovered x, Event.TriggerTime x,
    Event.RuleHash x, Event.Tags x, Event.TagsJSON x, Event.TagsMap x)).
  assert (f e1 = f e) as E1 by (unfold f, e1; case_match; by rsimp). clearbody e1.
  set (e2 := match json_unmarshal _ _ with (_, None) => _ | (_, Some _) => _ end).
  assert (f e2 = f e1) as E2 by (unfold f, e2; destruct (json_unmarshal _ _) as [? [|]]; by rsimp).
  clearbody e2.
  set (e3 := if negb _ && _ then _ else _).
  assert (f e3 = f e2) as E3 by (unfold f, e3; case_match; by rsimp). clearbody e3.
  cbv zeta. rsimp. rewrite E2, E1 in E3. unfold f in E3. injection E3 as -> -> -> -> -> -> -> -> ->. done.
Qed.

Lemma mayHandleIdent_identity ts e :
  identity_of (mayHandleIdent ts e) = identity_of e ∧ Event.TagsMap (mayHandleIdent ts e) = Event.TagsMap e ∧
  Event.Tags (mayHandleIdent ts e) = Event.Tags e ∧ Event.TagsJSON (mayHandleIdent ts e) = Event.TagsJSON e.
Proof. unfold identity_of, mayHandleIdent. repeat case_match; split_and!; by rsimp. Qed.

Lemma fill_target_identity c e :
  identity_of (fill_target c e) = identity_of e ∧ Event.TagsMap (fill_target c e) = Event.TagsMap e ∧
  Event.Tags (fill_target c e) = Event.Tags e ∧ Event.TagsJSON (fill_target c e) = Event.TagsJSON e ∧
  Event.TargetIdent (fill_target c e) = Event.TargetIdent e.
Proof. unfold identity_of, fill_target. repeat case_match; split_and!; by rsimp. Qed.

Lemma BuildEvent_identity conf c rule point from now rh rule' e :
  BuildEvent conf c rule point from now rh = Ret (rule', e) →
  identity_of e = (Hash (Rule.Id rule) (pc_datasourceId conf) point, Rule.Id rule, Point.Severity point,
    false, (if String.eqb from "inner" then now else Point.Timestamp point), rh) ∧
  Rule.Id rule' = Rule.Id rule.
Proof.
  unfold BuildEvent. intros ([m arr] & _ & Hr)%go_bind_Ret. cbv zeta in Hr.
  apply go_bind_Ret in Hr as ([rule1 e1] & Hrel & Hr). apply Ret_inj in Hr. injection Hr as -> ->.
  apply Relabel_identity in Hrel as (Hid & Hrid & _). split; [|done].
  pose proof (staged_identity from now rule point (base_event conf c rule point rh m arr)) as [Hst _].
  cbv zeta in Hst. pose proof (base_event_identity conf c rule point rh m arr) as Hb.
  assert (Event.TriggerTime (base_event conf c rule point rh m arr) = Point.Timestamp point) as Ht
    by (unfold base_event; by rsimp).
  set (b := base_event conf c rule point rh m arr) in *. clearbody b.
  unfold identity_of at 1 in Hb. injection Hb as E1 E2 E3 E4 _ E6. rewrite E1, E2, E3, E4, E6, Ht in Hst.
  rewrite <- Hst, <- Hid. destruct (mayHandleIdent_identity (c_target c) e1) as [<- _].
  destruct (String.eqb _ ""); [done|]. by destruct (fill_target_identity c (mayHandleIdent (c_target c) e1)) as [<- _].
Qed.
Lemma labelMapToArr_agree e m :
  Event.TagsMap e = m → Event.TagsJSON e = labelMapToArr m → Event.Tags e = join (labelMapToArr m) ",," →
  tags_agree e.
Proof.
  intros Hm Ha Ht. unfold tags_agree. rewrite Hm, Ha, Ht. split_and!; [done|..].
  - intros k v Hk. rewrite labelMapToArr_perm. apply list_elem_of_fmap. exists (k, v).
    split; [done|by apply elem_of_map_to_list].
  - intros t. rewrite labelMapToArr_perm. intros ([k v] & -> & Hin)%list_elem_of_fmap.
    apply elem_of_map_to_list in Hin. cbn [fst snd]. eauto.
Qed.

Lemma Relabel_tags_agree rule e rule' e' : Relabel rule e = Ret (rule', e') → tags_agree e → tags_agree e'.
Proof.
  unfold Relabel. destruct (_ =? 0)%nat.
  - intros Hr%Ret_inj. injection Hr as -> ->. unfold tags_agree. by rsimp.
  - intros ([e1 cfgs] & Hr & Hret)%go_bind_Ret _. apply Ret_inj in Hret. injection Hret as -> ->.
    by eapply EventRelabel_tags_agree.
Qed.

(** An event carries the identity of its point: its hash, the rule, the
    severity, the evaluation time; it is not recovered; its tags agree in
    their three forms whether or not the rule relabels; and its target is the
    one its ident tag names. *)
Theorem BuildEvent_spec conf c rule point from now rh rule' e :
  BuildEvent conf c rule point from now rh = Ret (rule', e) →
  (∀ i t, c_target c !! i = Some t → Tgt.Ident t = i) →
  Event.Hash e = Hash (Rule.Id rule) (pc_datasourceId conf) point ∧ Event.RuleId e = Rule.Id rule ∧
  Event.Severity e = Point.Severity point ∧ Event.IsRecovered e = false ∧
  Event.LastEvalTime e = (if String.eqb from "inner" then now else Point.Timestamp point) ∧
  tags_agree e ∧ Event.TargetIdent e = default "" (Event.TagsMap e !! "ident").
Proof.
  intros Hb Hcache. destruct (BuildEvent_identity _ _ _ _ _ _ _ _ _ Hb) as [Hid _].
  unfold identity_of in Hid.
  assert (tags_agree e ∧ Event.TargetIdent e = default "" (Event.TagsMap e !! "ident")) as [Hta Hident].
  2: { injection Hid as H1 H2 H3 H4 H5 _. by split_and!. }
  clear Hid. unfold BuildEvent in Hb. apply go_bind_Ret in Hb as ([m arr] & Hf & Hr). cbv zeta in Hr.
  apply go_bind_Ret in Hr as ([rule1 e1] & Hrel & Hr). apply Ret_inj in Hr. injection Hr as -> ->.
  unfold fillTags in Hf. apply go_bind_Ret in Hf as (m' & _ & Hm). apply Ret_inj in Hm. injection Hm as -> ->.
  apply Relabel_tags_agree in Hrel.
  2: { pose proof (staged_identity from now rule point (base_event conf c rule point rh m' (labelMapToArr m')))
         as (_ & E1 & E2 & E3). cbv zeta in *.
       apply (labelMapToArr_agree _ m'); [rewrite E3|rewrite E2|rewrite E1]; reflexivity. }
  destruct (mayHandleIdent_identity (c_target c) e1) as (_ & Em & Et & Ej).
  assert (Event.TargetIdent (mayHandleIdent (c_target c) e1) = default "" (Event.TagsMap e1 !! "ident")) as Hti.
  { unfold mayHandleIdent. destruct (Event.TagsMap e1 !! "ident") as [i|] eqn:Ei; [|by rsimp].
    destruct (c_target c !! i) as [t|] eqn:Ec; rsimp; [by apply Hcache in Ec|done]. }
  rewrite <- Em in Hti. set (e2 := mayHandleIdent _ e1) in *. clearbody e2.
  unfold tags_agree in *. rewrite <- Em, <- Et, <- Ej in Hrel.
  destruct (String.eqb _ ""); [done|]. destruct (fill_target_identity c e2) as (_ & -> & -> & -> & ->). done.
Qed.

Lemma handle_point_key conf c rule point from now rh w w' rule' hash e out :
  handle_point conf c rule point from now rh w = Ret (w', rule', hash, e, out) →
  hash = Hash (Rule.Id rule) (pc_datasourceId conf) point ∧ Rule.Id rule' = Rule.Id rule.
Proof.
  unfold handle_point. intros ([r1 e1] & Hb & Hr)%go_bind_Ret.
  apply BuildEvent_identity in Hb as [Hid Hrid]. unfold identity_of in Hid. injection Hid as Hh _ _ _ _ _.
  cbv zeta in Hr. apply go_bind_Ret in Hr as ([[w1 e2] o1] & _ & Hr).
  assert (∀ (x : AlertCurEvent), Event.Hash (x <| Event.NotifyRuleIds := Rule.NotifyRuleIds r1 |>) = Event.Hash x)
    as Hn by (intros; by rsimp). rewrite Hn, Hh in Hr.
  destruct e2 as [e2|]; [|apply Ret_inj in Hr; by injection Hr as -> -> -> -> ->].
  apply go_bind_Ret in Hr as ([[b d] i] & _ & Hr).
  destruct (b || _); apply Ret_inj in Hr; by injection Hr as -> -> -> -> ->.
Qed.

(** The points of a batch: the firing table is not touched, the hash of every
    point counts as alerting, and the grouped events are allocated. *)
Lemma handle_points_spec conf c points from now rh p w keys em out p' w' keys' em' out' :
  handle_points conf c points from now rh p w keys em out = Ret (p', w', keys', em', out') →
  wf p → (∀ h g l, em !! h = Some g → l ∈ g → l ∈ dom (p_heap p)) →
  wf p' ∧ p_fires p' = p_fires p ∧ Rule.Id (p_rule p') = Rule.Id (p_rule p) ∧ keys ⊆ keys' ∧
  (∀ pt, pt ∈ points → Hash (Rule.Id (p_rule p)) (pc_datasourceId conf) pt ∈ keys') ∧
  (∀ h g l, em' !! h = Some g → l ∈ g → l ∈ dom (p_heap p')).
Proof.
  revert p w keys em out. induction points as [|pt points IH]; intros p w keys em out; cbn [handle_points].
  { intros Hr Hwf Hem. apply Ret_inj in Hr. injection Hr as -> -> -> -> ->. split_and!; set_solver. }
  intros ([[[[w1 r1] h1] e1] o1] & Hp & Hr)%go_bind_Ret Hwf Hem.
  apply handle_point_key in Hp as [-> Hrid]. cbv zeta in Hr.
  set (p1 := p <| p_rule := r1 |>) in Hr.
  assert (wf p1 ∧ p_fires p1 = p_fires p ∧ p_heap p1 = p_heap p ∧ p_rule p1 = r1) as (Hw1 & Ef1 & Eh1 & Er1)
    by (destruct Hwf; split_and!; [split; unfold p1; by rsimp|unfold p1; by rsimp..]).
  clearbody p1. destruct e1 as [e1|].
  - set (l := fresh _) in Hr. set (p2 := p1 <| p_heap := _ |>) in Hr.
    assert (p_heap p1 !! l = None) as Hl by (apply not_elem_of_dom, is_fresh).
    assert (wf p2) as Hw2 by (apply (pstep_wf p1); [by constructor|done]).
    assert (p_fires p2 = p_fires p ∧ p_rule p2 = r1) as [Ef2 Er2] by (unfold p2; by rsimp).
    assert (dom (p_heap p2) = {[l]} ∪ dom (p_heap p)) as Ed2 
      by (rewrite <- Eh1; apply dom_insert_L).
    clearbody p2. destruct (IH _ _ _ _ _ Hr Hw2) as (A1 & A2 & A3 & A4 & A5 & A6).
    { clear -Ed2 Hem. unfold add_to_group. intros h g l' [[<- <-]|[_ Hg]]%lookup_insert_Some Hl'; rewrite Ed2; [|set_solver].
      apply elem_of_app in Hl' as [Hl'|Hl']; [|set_solver].
      destruct (em !! TagHash pt) as [g|] eqn:Eg; simpl in Hl'; [|set_solver]. set_solver. }
    rewrite Er2, Hrid in *. rewrite Ef2 in A2. clear IH Hr Hem Hwf. split_and!; [done..|set_solver| |done].
    intros q [->|Hq]%elem_of_cons; set_solver.
  - destruct (IH _ _ _ _ _ Hr Hw1) as (A1 & A2 & A3 & A4 & A5 & A6); [by rewrite Eh1|].
    rewrite Er1, Hrid in *. rewrite Ef1 in A2. clear IH Hr Hem Hwf. split_and!; [done..|set_solver| |done].
    intros q [->|Hq]%elem_of_cons; set_solver.
Qed.

(** What a batch leaves: a well-formed state in which the hashes of its points
    still fire. *)
Lemma Handle_effect conf c points from inhibit now p w p' w' out :
  Handle conf c points from inhibit now p w = Ret (p', w', out) → wf p →
  wf p' ∧ ∀ rule pt, c_alertRule c !! Rule.Id (p_rule p) = Some rule → pt ∈ points →
    is_Some (p_fires p !! Hash (Rule.Id rule) (pc_datasourceId conf) pt) →
    is_Some (p_fires p' !! Hash (Rule.Id rule) (pc_datasourceId conf) pt).
Proof.
  unfold Handle. intros Hh Hwf. cbv zeta in Hh.
  change (p_rule (p <| p_inhibit := inhibit |>)) with (p_rule p) in Hh.
  destruct (c_alertRule c !! Rule.Id (p_rule p)) as [rule|] eqn:Hrule.
  2: { apply Ret_inj in Hh. injection Hh as -> -> ->. split; [|done]. destruct Hwf. by split. }
  apply go_bind_Ret in Hh as ([[[[p1 w1] keys] em] o1] & Hps & Hr). cbv zeta in Hr.
  apply Ret_inj in Hr. injection Hr as -> -> ->.
  apply handle_points_spec in Hps as (Hw1 & Hf1 & _ & _ & Hkeys & Hem);
    [|destruct Hwf; by split|by intros ? ? ? []%lookup_empty_Some].
  change (p_fires p1 = p_fires p) in Hf1. rewrite <- Hf1.
  destruct (handle_groups p1 (map snd (go_range em)) Hw1) as [Hw2 Hk2].
  { intros g l ([h g'] & -> & Hin)%list_elem_of_fmap Hl. apply elem_of_go_range in Hin. eauto. }
  destruct (String.eqb from "inner"); [|split; [done|]; intros rule' pt [= <-] Hpt Hk; by apply Hk2].
  split; [by apply HandleRecover_wf|]. intros rule' pt [= <-] Hpt Hk. specialize (Hkeys _ Hpt).
  change (Hash (Rule.Id rule) (pc_datasourceId conf) pt ∈ keys) in Hkeys. apply Hk2 in Hk.
  destruct (HandleRecover_kept (foldl handleEvent p1 (map snd (go_range em))) keys now inhibit Hw2) as [Hkept _].
  by destruct (Hkept _ Hkeys) as (-> & _).
Qed.

(** C2. A firing alert whose condition still holds does not recover, even when
    its event is muted or dropped by a pipeline: the hash of every point of the
    batch keeps its entry in the firing table. *)
Theorem Handle_keeps_firing conf c points from inhibit now p w p' w' out rule pt :
  Handle conf c points from inhibit now p w = Ret (p', w', out) →
  wf p → c_alertRule c !! Rule.Id (p_rule p) = Some rule → pt ∈ points →
  is_Some (p_fires p !! Hash (Rule.Id rule) (pc_datasourceId conf) pt) →
  is_Some (p_fires p' !! Hash (Rule.Id rule) (pc_datasourceId conf) pt) ∧ wf p'.
Proof.
  intros Hh Hwf Hrule Hpt Hk. destruct (Handle_effect _ _ _ _ _ _ _ _ _ _ _ Hh Hwf) as [Hw Hf]. split; [by eapply Hf|done].
Qed.
End handle_spec.

(** *** Loading from the database *)

Section restore_spec.
Context `{QL : EventQueueLib, SF : SampleFmt}.
Implicit Types p : pstate.

Lemma restored_event_fresh conf c row e :
  restored_event conf c row = Some e → Event.IsRecovered e = false ∧ Event.Hash e = Event.Hash row.
Proof.
  unfold restored_event. destruct (c_alertRule c !! _) as [r|]; [|done]. cbv zeta.
  destruct (String.eqb _ HOST && _); [done|]. intros [= <-].
  set (x := row <| Event.NotifyRuleIds := _ |>). assert (Event.Hash x = Event.Hash row) as <- by (unfold x; by rsimp).
  clearbody x. assert (Event.IsRecovered (DB2Mem x) = false ∧ Event.Hash (DB2Mem x) = Event.Hash x) as [<- <-]
    by (unfold DB2Mem; cbv zeta; case_match; split; reflexivity).
  unfold fill_target. case_match; by rsimp.
Qed.

(** What the loop maintains, for the rows [rows] seen so far: firing events
    come from rows, every row that qualifies has an entry, and the two tables
    share no object. *)
Record restoring (conf : pconf) (c : caches) (rows : list AlertCurEvent) (h0 h : heap)
    (f m : AlertCurEventMap) : Prop := {
  r_old : h0 ⊆ h;
  r_fires : entries_ok h f (λ e, Event.IsRecovered e = false ∧
    ∃ row, row ∈ rows ∧ restored_event conf c row = Some e);
  r_recover : entries_ok h m (λ _, True);
  r_all : ∀ row e, row ∈ rows → restored_event conf c row = Some e →
    is_Some (f !! Event.Hash e) ∧ is_Some (m !! Event.Hash e);
  r_apart : ∀ k k' l, f !! k = Some l → m !! k' ≠ Some l;
  r_new : ∀ k l, f !! k = Some l ∨ m !! k = Some l → h0 !! l = None
}.

Lemma restoring_add conf c rows row e h0 h f m :
  restoring conf c rows h0 h f m → restored_event conf c row = Some e →
  let l := fresh (dom h) in
  let h1 := <[l := e]> h in
  let l' := fresh (dom h1) in
  restoring conf c (rows ++ [row]) h0 (<[l' := e]> h1) (<[Event.Hash e := l]> f) (<[Event.Hash e := l']> m).
Proof.
  intros [R1 R2 R3 R4 R5 R6] He l h1 l'.
  destruct (restored_event_fresh _ _ _ _ He) as [Hrec Hh].
  assert (h !! l = None) as Hl by (apply not_elem_of_dom, is_fresh).
  assert (h1 !! l' = None) as Hl' by (apply not_elem_of_dom, is_fresh).
  assert (l ≠ l') as Hne by (intros <-; unfold h1 in Hl'; by rewrite lookup_insert_eq in Hl').
  assert (h !! l' = None) as Hl'' by (unfold h1 in Hl'; by rewrite lookup_insert_ne in Hl').
  assert (∀ x y, h !! x = Some y → <[l' := e]> h1 !! x = Some y) as Hold.
  { intros x y Hx. unfold h1. rewrite !lookup_insert_ne by congruence. done. }
  assert (<[l' := e]> h1 !! l = Some e) as Hnew
    by (rewrite lookup_insert_ne by done; unfold h1; apply lookup_insert_eq).
  clearbody l l'. split.
  - etrans; [done|]. apply map_subseteq_spec. auto.
  - intros k x [[<- <-]|[_ Hk]]%lookup_insert_Some.
    + exists e. split_and!; [done..|]. exists row. split; [set_solver|done].
    + destruct (R2 _ _ Hk) as (e' & ? & ? & ? & r & ? & ?). exists e'. split_and!; auto. exists r. set_solver.
  - intros k x [[<- <-]|[_ Hk]]%lookup_insert_Some.
    + exists e. by rewrite lookup_insert_eq.
    + destruct (R3 _ _ Hk) as (e' & ? & ? & ?). eauto.
  - intros r e' [Hr| ->%list_elem_of_singleton]%elem_of_app Hre.
    + destruct (R4 _ _ Hr Hre). rewrite !lookup_insert_is_Some'. auto.
    + rewrite He in Hre. injection Hre as <-. rewrite !lookup_insert_eq. by eauto.
  - intros k k' x [[<- <-]|[_ Hk]]%lookup_insert_Some [[<- ?]|[_ Hk']]%lookup_insert_Some; subst.
    + done.
    + destruct (R3 _ _ Hk') as (? & ? & _). congruence.
    + destruct (R2 _ _ Hk) as (? & ? & _). congruence.
    + by eapply R5.
  - assert (∀ x, h !! x = None → h0 !! x = None) as Hn.
    { intros x Hx. destruct (h0 !! x) eqn:E; [|done]. eapply lookup_weaken in E; [|done]. congruence. }
    intros k x [[[<- <-]|[_ Hk]]%lookup_insert_Some|[[<- <-]|[_ Hk]]%lookup_insert_Some]; eauto.
Qed.

Lemma restore_events_spec conf c todo seen h0 h f m h' f' m' :
  restore_events conf c todo h f m = (h', f', m') →
  restoring conf c seen h0 h f m → restoring conf c (seen ++ todo) h0 h' f' m'.
Proof.
  revert seen h f m. induction todo as [|row todo IH]; intros seen h f m; cbn [restore_events].
  { intros [= <- <- <-]. by rewrite app_nil_r. }
  replace (seen ++ row :: todo)%list with ((seen ++ [row]) ++ todo)%list by (by rewrite <- app_assoc).
  destruct (restored_event conf c row) as [e|] eqn:He; intros Hr Hinv.
  - eapply IH; [exact Hr|]. by apply restoring_add.
  - eapply IH; [exact Hr|]. destruct Hinv as [R1 R2 R3 R4 R5 R6]. split; try done.
    + intros k l Hk. destruct (R2 _ _ Hk) as (e & ? & ? & ? & r & ? & ?). exists e. split_and!; try done.
      exists r. set_solver.
    + intros r e [Hin| ->%list_elem_of_singleton]%elem_of_app; [eauto|congruence].
Qed.

Lemma restored_state conf c rows p :
  restoring conf c rows (p_heap p) (p_heap (RecoverAlertCurEventFromDb conf c (Ok rows) p))
    (p_fires (RecoverAlertCurEventFromDb conf c (Ok rows) p))
    (p_pendingsUseByRecover (RecoverAlertCurEventFromDb conf c (Ok rows) p)).
Proof.
  unfold RecoverAlertCurEventFromDb. destruct (restore_events conf c rows _ ∅ ∅) as [[h f] m] eqn:Hr.
  apply (restore_events_spec _ _ _ [] (p_heap p)) in Hr; [exact Hr|].
  split; [done|..]; try (by intros ? ? []%lookup_empty_Some);
    try (by intros ? ? ? []%lookup_empty_Some); try set_solver.
Qed.

(** Loading keeps the state well formed, whatever the database answers. *)
Lemma RecoverAlertCurEventFromDb_wf conf c rows p :
  wf p → wf (RecoverAlertCurEventFromDb conf c rows p).
Proof.
  intros [_ _ _ Hq]. destruct rows as [rows|err].
  - destruct (restored_state conf c rows p) as [R1 R2 R3 _ _ _].
    assert (p_queue (RecoverAlertCurEventFromDb conf c (Ok rows) p) = p_queue p ∧
            p_pendings (RecoverAlertCurEventFromDb conf c (Ok rows) p) = ∅) as [Eq Ep]
      by (unfold RecoverAlertCurEventFromDb; by destruct (restore_events conf c rows _ ∅ ∅) as [[h f] m]).
    split; rewrite ?Eq, ?Ep.
    + intros k l Hk. destruct (R2 _ _ Hk) as (e & ? & ? & ? & _). eauto.
    + intros k l Hk. by destruct (lookup_empty_Some k l Hk).
    + done.
    + intros l Hl. destruct (Hq l Hl) as [e He]. exists e. by eapply lookup_weaken.
  - unfold RecoverAlertCurEventFromDb. split; [..|exact Hq]; intros k l Hk; by destruct (lookup_empty_Some k l Hk).
Qed.

(** Loading the tables after a restart or a change of the rule: the result is
    well formed whatever the rows are, the firing table has exactly the rows
    that qualify, as not recovered, and the objects of the two tables are
    apart, so that refreshing one does not change the other. *)
Theorem RecoverAlertCurEventFromDb_spec conf c rows p :
  wf p →
  let p' := RecoverAlertCurEventFromDb conf c (Ok rows) p in
  wf p' ∧ p_pendings p' = ∅ ∧ p_queue p' = p_queue p ∧ p_heap p ⊆ p_heap p' ∧
  (∀ k l, p_fires p' !! k = Some l → ∃ row e, row ∈ rows ∧ restored_event conf c row = Some e ∧
     Event.Hash e = k ∧ p_heap p' !! l = Some e) ∧
  (∀ row e, row ∈ rows → restored_event conf c row = Some e →
     is_Some (p_fires p' !! Event.Hash e) ∧ is_Some (p_pendingsUseByRecover p' !! Event.Hash e)) ∧
  (∀ k k' l, p_fires p' !! k = Some l → p_pendingsUseByRecover p' !! k' ≠ Some l).
Proof.
  intros Hwf p'. pose proof (restored_state conf c rows p) as [R1 R2 R3 R4 R5 R6].
  split; [by apply RecoverAlertCurEventFromDb_wf|]. unfold p', RecoverAlertCurEventFromDb in *. clear p'.
  destruct (restore_events conf c rows _ ∅ ∅) as [[h f] m]. split_and!; try done.
  intros k l Hk. destruct (R2 _ _ Hk) as (e & ? & ? & _ & row & ? & ?). eauto 6.
Qed.
End restore_spec.

(** *** Rules that passed verification *)

(** Building the tags cannot panic for a rule as it is loaded from the
    database, when the stored rule passed [Verify]. *)
Theorem fillTags_total `{GoRange, HtmlTemplate, SampleFmt, StrLib, CronLib, PromIface,
    !Json iface, !Json (option (gmap string string)), !Json (list Z),
    !Json RuleQuery, !Json PromRuleConfig, !Json relabel_part} ar stored loaded point :
  AlertRule_Verify ar = (stored, None) → AlertRule_DB2FE stored = Ret loaded →
  ∃ m arr, fillTags loaded point = Ret (m, arr).
Proof.
  intros Hv Hd. assert (Rule.AppendTagsJSON loaded = fields (Rule.AppendTags stored)) as Ht
    by (by apply AlertRule_DB2FE_tags).
  unfold fillTags. rewrite Ht.
  destruct (append_tags_Ret (Rule.Id loaded) (fields (Rule.AppendTags stored) ++ ["rulename=" +:+ Rule.Name loaded])
    (Point.Labels point)) as [m ->]; [|by eauto].
  intros t [Hin| ->%list_elem_of_singleton]%elem_of_app; [|by destruct (Rule.Name loaded)].
  by apply (ok_tags _ (AlertRule_Verify_ok _ _ Hv)).
Qed.
