(* ===== verification/Subscription.v ===== *)
(** * Alert subscriptions: [models/alert_subscribe.go]

    Verification, the database form, matching an event, and the changes a
    subscription makes to the event it forwards. *)

From S2P Require Import Prelude GoStrings Json Models RuleModels EventOps Filter Mute.
Open Scope string_scope.
Open Scope Z_scope.

Section model.
Context `{RG : Regexp, GF : GoFmt}.
Context `{!Json (list TagFilter), !Json (list Z), !Json (list string), !Json iface}.
Implicit Types s : AlertSubscribe.

Definition IsDisabled s : bool := Subscribe.Disabled s =? 1.

(** A failed parse leaves the nil slice in the field. *)
Definition AlertSubscribe_Parse s : AlertSubscribe * option error :=
  match GetTagFilters (Subscribe.Tags s) with
  | Err err => (s <| Subscribe.ITags := [] |>, Some err)
  | Ok tags =>
      let s := s <| Subscribe.ITags := tags |> in
      match GetTagFilters (Subscribe.BusiGroups s) with
      | Err err => (s <| Subscribe.IBusiGroups := [] |>, Some err)
      | Ok groups => (s <| Subscribe.IBusiGroups := groups |>, None)
      end
  end.

(** The new notification scheme: the fields of the old one are emptied. *)
Definition clear_old_notify s : AlertSubscribe :=
  s <| Subscribe.UserGroupIds := "" |>
    <| Subscribe.RedefineChannels := 0 |>
    <| Subscribe.NewChannels := "" |>
    <| Subscribe.RedefineWebhooks := 0 |>
    <| Subscribe.Webhooks := "" |>
    <| Subscribe.RedefineSeverity := 0 |>
    <| Subscribe.NewSeverity := 0 |>.

Definition AlertSubscribe_Verify s : AlertSubscribe * option error :=
  let s := if IsAllDatasource (Subscribe.DatasourceIdsJson s)
           then s <| Subscribe.DatasourceIdsJson := [0] |> else s in
  match AlertSubscribe_Parse s with
  | (s, Some err) => (s, Some err)
  | (s, None) =>
      if (length (Subscribe.SeveritiesJson s) =? 0)%nat then (s, Some "severities is required")
      else if Subscribe.NotifyVersion s =? 1 then
        if (length (Subscribe.NotifyRuleIds s) =? 0)%nat then (s, Some "no notify rules selected")
        else (clear_old_notify s, None)
      else if negb (String.eqb (Subscribe.UserGroupIds s) "") && String.eqb (Subscribe.NewChannels s) ""
      then (s, Some "new_channels is required")
      else if existsb (λ g, bool_decide (parse_int g = None)) (fields (Subscribe.UserGroupIds s))
      then (s, Some "user_group_ids invalid")
      else if Subscribe.NotifyVersion s =? 0 then (s <| Subscribe.NotifyRuleIds := [] |>, None)
      else (s, None)
  end.

Definition AlertSubscribe_FE2DB s : AlertSubscribe :=
  let s := if (0 <? length (Subscribe.DatasourceIdsJson s))%nat
           then s <| Subscribe.DatasourceIds := marshal_text (Subscribe.DatasourceIdsJson s) |> else s in
  let s := if (0 <? length (Subscribe.WebhooksJson s))%nat
           then s <| Subscribe.Webhooks := marshal_text (Subscribe.WebhooksJson s) |> else s in
  let s := s <| Subscribe.ExtraConfig := marshal_text (Subscribe.ExtraConfigJson s) |> in
  if (0 <? length (Subscribe.SeveritiesJson s))%nat
  then s <| Subscribe.Severities := marshal_text (Subscribe.SeveritiesJson s) |> else s.

Definition AlertSubscribe_DB2FE s : AlertSubscribe * option error :=
  let '(ids, err) := decode_column (Subscribe.DatasourceIds s) (Subscribe.DatasourceIdsJson s) in
  let s := s <| Subscribe.DatasourceIdsJson := ids |> in
  match err with Some e => (s, Some e) | None =>
  let '(hooks, err) := decode_column (Subscribe.Webhooks s) (Subscribe.WebhooksJson s) in
  let s := s <| Subscribe.WebhooksJson := hooks |> in
  match err with Some e => (s, Some e) | None =>
  let '(extra, err) := decode_column (Subscribe.ExtraConfig s) (Subscribe.ExtraConfigJson s) in
  let s := s <| Subscribe.ExtraConfigJson := extra |> in
  match err with Some e => (s, Some e) | None =>
  let '(sev, err) := decode_column (Subscribe.Severities s) (Subscribe.SeveritiesJson s) in
  (s <| Subscribe.SeveritiesJson := sev |>, err)
  end end end.

(** [Add] up to the insertion and [Update] up to the update: the row to be
    written, or the error. *)
Definition AlertSubscribe_Add (now : Z) s : result AlertSubscribe :=
  match AlertSubscribe_Verify s with
  | (_, Some err) => Err err
  | (s, None) => Ok ((AlertSubscribe_FE2DB s) <| Subscribe.CreateAt := now |> <| Subscribe.UpdateAt := now |>)
  end.

Definition AlertSubscribe_Update s : result AlertSubscribe :=
  match AlertSubscribe_Verify s with
  | (_, Some err) => Err err
  | (s, None) => Ok (AlertSubscribe_FE2DB s)
  end.

Definition CompatibleWithOldRuleId s : AlertSubscribe :=
  if (length (Subscribe.RuleIds s) =? 0)%nat && negb (Subscribe.RuleId s =? 0)
  then s <| Subscribe.RuleIds := (Subscribe.RuleIds s ++ [Subscribe.RuleId s])%list |> else s.

(** [lookup ids] is [AlertRuleGetsByIds]. *)
Definition FillRuleNames (lookup : list Z → result (list AlertRule)) s (cache : gmap Z string)
  : AlertSubscribe * gmap Z string * option error :=
  let s := CompatibleWithOldRuleId s in
  if (length (Subscribe.RuleIds s) =? 0)%nat then (s, cache, None)
  else
    let has := foldl (λ m rid, match cache !! rid with Some n => <[rid := n]> m | None => m end)
                 (∅ : gmap Z string) (Subscribe.RuleIds s) in
    let missing := filter (λ rid, cache !! rid = None) (Subscribe.RuleIds s) in
    let name (m : gmap Z string) (rid : Z) :=
      match m !! rid with
      | Some n => n
      | None => if rid =? 0 then "" else "Error: AlertRule not found"
      end in
    if (0 <? length missing)%nat then
      match lookup missing with
      | Err err => (s, cache, Some err)
      | Ok lst =>
          let add (m : gmap Z string) r := <[Rule.Id r := Rule.Name r]> m in
          let has := foldl add has lst in
          (s <| Subscribe.RuleNames := map (name has) (Subscribe.RuleIds s) |>, foldl add cache lst, None)
      end
    else (s <| Subscribe.RuleNames := map (name has) (Subscribe.RuleIds s) |>, cache, None).

(** ** Matching *)

Definition MatchProd s (prod : string) : bool :=
  if String.eqb (Subscribe.Prod s) "" then true else String.eqb (Subscribe.Prod s) prod.

Definition MatchCate s (cate : string) : bool :=
  if String.eqb (Subscribe.Cate s) "" then true
  else if String.eqb (Subscribe.Cate s) "host" then String.eqb cate "host"
  else true.

Definition MatchCluster s (dsId : Z) : bool :=
  if (length (Subscribe.DatasourceIdsJson s) =? 0)%nat || (dsId =? 0) then true
  else existsb (λ id, (id =? dsId) || (id =? 0)) (Subscribe.DatasourceIdsJson s).

Definition ModifyEvent s (event : AlertCurEvent) : AlertCurEvent :=
  let event := if Subscribe.RedefineSeverity s =? 1
               then event <| Event.Severity := Subscribe.NewSeverity s |> else event in
  let event := if Subscribe.RedefineChannels s =? 1
               then event <| Event.NotifyChannels := Subscribe.NewChannels s |>
                          <| Event.NotifyChannelsJSON := fields (Subscribe.NewChannels s) |>
               else event in
  let event := if Subscribe.RedefineWebhooks s =? 1
               then event <| Event.Callbacks := Subscribe.Webhooks s |>
                          <| Event.CallbacksJSON := Subscribe.WebhooksJson s |>
               else event <| Event.Callbacks := "" |> <| Event.CallbacksJSON := [] |> in
  event <| Event.NotifyRuleIds := Subscribe.NotifyRuleIds s |>
        <| Event.NotifyGroups := Subscribe.UserGroupIds s |>
        <| Event.NotifyGroupsJSON := fields (Subscribe.UserGroupIds s) |>.
End model.

(** ** Properties *)

Section properties.
Context `{RG : Regexp, GF : GoFmt}.
Context `{!Json (list TagFilter), !Json (list Z), !Json (list string), !Json iface}.
Implicit Types s : AlertSubscribe.

(** What a stored subscription satisfies. *)
Record subscribe_ok s : Prop := {
  so_severities : Subscribe.SeveritiesJson s ≠ [];
  so_tags : GetTagFilters (Subscribe.Tags s) = Ok (Subscribe.ITags s);
  so_groups : GetTagFilters (Subscribe.BusiGroups s) = Ok (Subscribe.IBusiGroups s);
  so_users : ∀ g, g ∈ fields (Subscribe.UserGroupIds s) → is_Some (parse_int g);
  so_new : Subscribe.NotifyVersion s = 1 →
    Subscribe.NotifyRuleIds s ≠ [] ∧ Subscribe.UserGroupIds s = "" ∧ Subscribe.RedefineWebhooks s = 0;
  so_old : Subscribe.NotifyVersion s = 0 → Subscribe.NotifyRuleIds s = [];
  so_channels : Subscribe.UserGroupIds s ≠ "" → Subscribe.NewChannels s ≠ ""
}.

Lemma AlertSubscribe_Parse_ok s s' :
  AlertSubscribe_Parse s = (s', None) →
  GetTagFilters (Subscribe.Tags s') = Ok (Subscribe.ITags s') ∧
  GetTagFilters (Subscribe.BusiGroups s') = Ok (Subscribe.IBusiGroups s').
Proof.
  unfold AlertSubscribe_Parse. destruct (GetTagFilters (Subscribe.Tags s)) as [tags|] eqn:Et; [|done]. rsimp.
  destruct (GetTagFilters (Subscribe.BusiGroups s)) as [groups|] eqn:Eg; [|done].
  intros Hs%(f_equal fst). cbn [fst] in Hs. subst s'. by rsimp.
Qed.

(** A subscription that passes [Verify] has parsed filters, severities, valid
    user groups, and only the fields of its notification scheme. *)
Theorem AlertSubscribe_Verify_sound s s' : AlertSubscribe_Verify s = (s', None) → subscribe_ok s'.
Proof.
  unfold AlertSubscribe_Verify. set (s0 := if IsAllDatasource _ then _ else _). clearbody s0.
  destruct (AlertSubscribe_Parse s0) as [s1 [|]] eqn:Hp; [done|].
  apply AlertSubscribe_Parse_ok in Hp as [Ht Hg]. clear s s0.
  destruct (Nat.eqb_spec (length (Subscribe.SeveritiesJson s1)) 0) as [|Hsev]; [done|].
  assert (Subscribe.SeveritiesJson s1 ≠ []) as Hsev' by (intros E; by rewrite E in Hsev). clear Hsev.
  destruct (Z.eqb_spec (Subscribe.NotifyVersion s1) 1) as [Hv|Hv].
  { destruct (Nat.eqb_spec (length (Subscribe.NotifyRuleIds s1)) 0) as [|Hn]; [done|].
    intros Hs%(f_equal fst). cbn [fst] in Hs. subst s'. unfold clear_old_notify.
    split; rsimp; try done; try congruence.
    - intros g. unfold fields. cbn. by intros ?%not_elem_of_nil.
    - intros _. split_and!; [intros E; by rewrite E in Hn|done..]. }
  destruct (negb _ && _) eqn:Hch; [done|].
  destruct (existsb _ (fields (Subscribe.UserGroupIds s1))) eqn:Hug; [done|].
  rewrite existsb_false_elem_of in Hug.
  assert (∀ g, g ∈ fields (Subscribe.UserGroupIds s1) → is_Some (parse_int g)) as Hug'.
  { intros g Hin%Hug. apply bool_decide_eq_false in Hin. by apply not_eq_None_Some. }
  assert (Subscribe.UserGroupIds s1 ≠ "" → Subscribe.NewChannels s1 ≠ "") as Hch'.
  { intros Hu%String.eqb_neq Hn. rewrite Hu, Hn in Hch. done. }
  destruct (Z.eqb_spec (Subscribe.NotifyVersion s1) 0) as [Hv0|Hv0];
    intros Hs%(f_equal fst); cbn [fst] in Hs; subst s'; split; rsimp; try done; try lia.
Qed.

(** The forwarded event goes only where the subscription says: its notify
    groups, notify rules and callbacks are the subscription's (no callback
    unless it redefines them), its channels and severity are the event's own
    unless redefined, and it keeps the identity of the alert. *)
Theorem ModifyEvent_redirects s e :
  Event.CallbacksJSON (ModifyEvent s e) =
    (if Subscribe.RedefineWebhooks s =? 1 then Subscribe.WebhooksJson s else []) ∧
  Event.NotifyRuleIds (ModifyEvent s e) = Subscribe.NotifyRuleIds s ∧
  Event.NotifyGroupsJSON (ModifyEvent s e) = fields (Subscribe.UserGroupIds s) ∧
  Event.NotifyChannelsJSON (ModifyEvent s e) =
    (if Subscribe.RedefineChannels s =? 1 then fields (Subscribe.NewChannels s) else Event.NotifyChannelsJSON e) ∧
  Event.Severity (ModifyEvent s e) =
    (if Subscribe.RedefineSeverity s =? 1 then Subscribe.NewSeverity s else Event.Severity e) ∧
  Event.Hash (ModifyEvent s e) = Event.Hash e ∧ Event.RuleId (ModifyEvent s e) = Event.RuleId e ∧
  Event.IsRecovered (ModifyEvent s e) = Event.IsRecovered e ∧
  Event.TagsMap (ModifyEvent s e) = Event.TagsMap e.
Proof.
  unfold ModifyEvent. destruct (Subscribe.RedefineSeverity s =? 1), (Subscribe.RedefineChannels s =? 1),
    (Subscribe.RedefineWebhooks s =? 1); split_and!; reflexivity.
Qed.
End properties.
