(* ===== verification/Dispatch.v ===== *)
(** * Dispatching an event: [alert/dispatch], [models/notify_rule.go]

    Who is told about an event: the notification targets of the old scheme
    (channels per user, callbacks, webhooks) and their merge, the
    notification rules of the new scheme with their match check and
    parameters, subscriptions, and the recursion of [HandleEventNotify]
    through them.  Sending is an output. *)

From S2P Require Import Prelude GoStrings GoTime Json Models RuleModels EventOps Filter Mute.
From S2P Require Import Workflow Engine Processors Subscription.
Open Scope string_scope.
Open Scope Z_scope.

(** [TimeRanges] (models/notify_rule.go).  *)
Module TimeRng.
Record TimeRanges := mkTimeRanges {
  Start : string;
  End_ : string;
  Week : list Z
}.
#[global] Instance TimeRanges_eta : Settable TimeRanges := λ r,
  mkTimeRanges (Start r) (End_ r) (Week r).
Definition zero : TimeRanges :=
  mkTimeRanges "" "" [].
End TimeRng.
Notation TimeRanges := TimeRng.TimeRanges.

(** [NotifyConfig] (models/notify_rule.go).  *)
Module NotifyConf.
Record NotifyConfig := mkNotifyConfig {
  ChannelID : Z;
  TemplateID : Z;
  Params : gmap string iface;
  Type_ : string;
  Severities : list Z;
  TimeRanges : list TimeRanges;
  LabelKeys : list TagFilter;
  Attributes : list TagFilter
}.
#[global] Instance NotifyConfig_eta : Settable NotifyConfig := λ r,
  mkNotifyConfig (ChannelID r) (TemplateID r) (Params r) (Type_ r) (Severities r) (TimeRanges r)
    (LabelKeys r) (Attributes r).
Definition zero : NotifyConfig :=
  mkNotifyConfig 0 0 ∅ "" [] [] [] [].
End NotifyConf.
Notation NotifyConfig := NotifyConf.NotifyConfig.

(** [NotifyRule] (models/notify_rule.go).  *)
Module NtfRule.
Record NotifyRule := mkNotifyRule {
  ID : Z;
  Name : string;
  Description : string;
  Enable : bool;
  UserGroupIds : list Z;
  PipelineConfigs : list PipelineConfig;
  NotifyConfigs : list NotifyConfig;
  ExtraConfig : iface;
  CreateAt : Z;
  CreateBy : string;
  UpdateAt : Z;
  UpdateBy : string
}.
#[global] Instance NotifyRule_eta : Settable NotifyRule := λ r,
  mkNotifyRule (ID r) (Name r) (Description r) (Enable r) (UserGroupIds r) (PipelineConfigs r)
    (NotifyConfigs r) (ExtraConfig r) (CreateAt r) (CreateBy r) (UpdateAt r) (UpdateBy r).
Definition zero : NotifyRule :=
  mkNotifyRule 0 "" "" false [] [] [] INil 0 "" 0 "".
End NtfRule.
Notation NotifyRule := NtfRule.NotifyRule.

(** [Webhook] (models/notify_config.go).  *)
Module Hook.
Record Webhook := mkWebhook {
  Type_ : Z;
  Enable : bool;
  Url : string;
  BasicAuthUser : string;
  BasicAuthPass : string;
  Timeout : Z;
  HeaderMap : gmap string string;
  Headers : list string;
  SkipVerify : bool;
  Note : string;
  RetryCount : Z;
  RetryInterval : Z;
  Batch : Z
}.
#[global] Instance Webhook_eta : Settable Webhook := λ r,
  mkWebhook (Type_ r) (Enable r) (Url r) (BasicAuthUser r) (BasicAuthPass r) (Timeout r)
    (HeaderMap r) (Headers r) (SkipVerify r) (Note r) (RetryCount r) (RetryInterval r) (Batch r).
Definition zero : Webhook :=
  mkWebhook 0 false "" "" "" 0 ∅ [] false "" 0 0 0.
End Hook.
Notation Webhook := Hook.Webhook.

(** ** [NotifyChannels] and [NotifyTarget] *)

Notation NotifyChannels := (gmap string bool) (only parsing).

Definition NewNotifyChannels (channels : list string) : NotifyChannels :=
  foldl (λ nc ch, <[ch := true]> nc) ∅ channels.

(** The loops of the two merges, over the bindings of the other map. *)
Definition nc_merge `{GoRange} (f : bool → bool → bool) (nc other : NotifyChannels) : NotifyChannels :=
  foldl (λ nc kv, match nc !! fst kv with
                  | Some cur => <[fst kv := f cur (snd kv)]> nc
                  | None => <[fst kv := snd kv]> nc
                  end) nc (go_range other).

Definition nc_OrMerge `{GoRange} := nc_merge orb.
Definition nc_AndMerge `{GoRange} := nc_merge andb.

Record NotifyTarget := mkNotifyTarget {
  userMap : gmap Z NotifyChannels;
  webhooks : gmap string Webhook;
  callbacks : gset string
}.
#[global] Instance NotifyTarget_eta : Settable NotifyTarget := λ r,
  mkNotifyTarget (userMap r) (webhooks r) (callbacks r).
Definition NewNotifyTarget : NotifyTarget := mkNotifyTarget ∅ ∅ ∅.

Section target.
Context `{GR : GoRange}.

Definition nt_merge (s : NotifyTarget) (other : option NotifyTarget)
    (f : NotifyChannels → NotifyChannels → NotifyChannels) : NotifyTarget :=
  match other with
  | None => s
  | Some other =>
      s <| userMap := foldl (λ m kv, match m !! fst kv with
                                     | Some cur => <[fst kv := f cur (snd kv)]> m
                                     | None => <[fst kv := snd kv]> m
                                     end) (userMap s) (go_range (userMap other)) |>
        <| webhooks := foldl (λ m kv, <[fst kv := snd kv]> m) (webhooks s) (go_range (webhooks other)) |>
        <| callbacks := callbacks s ∪ callbacks other |>
  end.

Definition nt_OrMerge s other := nt_merge s other nc_OrMerge.
Definition nt_AndMerge s other := nt_merge s other nc_AndMerge.

Definition ToChannelUserMap (s : NotifyTarget) : gmap string (list Z) :=
  foldl (λ m un, foldl (λ m cs, if (snd cs : bool)
                                then <[fst cs := (default [] (m !! fst cs) ++ [fst un])%list]> m else m)
                   m (go_range (snd un)))
    ∅ (go_range (userMap s)).

Definition ToUidList (s : NotifyTarget) : list Z := map fst (go_range (userMap s)).
End target.

(** ** Users and groups of the caches *)

(** The elements of a cache for a list of ids, each once. *)
Fixpoint cache_gets {A} (cache : gmap Z A) (ids : list Z) (seen : gset Z) : list A :=
  match ids with
  | [] => []
  | id :: ids' =>
      match cache !! id with
      | None => cache_gets cache ids' seen
      | Some x => if decide (id ∈ seen) then cache_gets cache ids' seen
                  else x :: cache_gets cache ids' ({[id]} ∪ seen)
      end
  end.

Definition GetByUserIds (users : gmap Z User) (ids : list Z) : list User := cache_gets users ids ∅.
Definition GetByUserGroupIds (ugs : gmap Z UserGroup) (ids : list Z) : list UserGroup :=
  cache_gets ugs ids ∅.

(** ** The caches of the dispatcher *)

(** The fields of a notification channel that the dispatcher reads. *)
Record channel := mkChannel { ch_Name : string; ch_RequestType : string }.

Record dcaches := mkDcaches {
  d_alertRule : gmap Z AlertRule;
  d_user : gmap Z User;
  d_userGroup : gmap Z UserGroup;
  d_subscribe : gmap Z (list AlertSubscribe);
  d_notifyRule : gmap Z NotifyRule;
  d_channel : gmap Z channel;
  d_template : gset Z;
  d_webhooks : list Webhook;
  d_eventProcessor : gmap Z EventPipeline
}.

(** ** The handlers of the old scheme *)

Definition group_ids (l : list string) : list Z := omap parse_int l.

Definition NotifyGroupDispatch (c : dcaches) (event : AlertCurEvent) : NotifyTarget :=
  let groups := GetByUserGroupIds (d_userGroup c) (group_ids (Event.NotifyGroupsJSON event)) in
  NewNotifyTarget <| userMap :=
    foldl (λ m uid, <[uid := NewNotifyChannels (Event.NotifyChannelsJSON event)]> m) ∅
      (concat (map UserGrp.UserIds groups)) |>.

Definition GlobalWebhookDispatch (c : dcaches) : NotifyTarget :=
  NewNotifyTarget <| webhooks :=
    foldl (λ m h, if Hook.Enable h then <[Hook.Url h := h]> m else m) ∅ (d_webhooks c) |>.

(** Writes into the target it is given. *)
Definition EventCallbacksDispatch (event : AlertCurEvent) (prev : NotifyTarget) : NotifyTarget :=
  prev <| callbacks := foldl (λ m c, if String.eqb c "" then m else {[c]} ∪ m) (callbacks prev)
                         (Event.CallbacksJSON event) |>.

Definition fillUsers `{GoRange} (c : dcaches) (ce : AlertCurEvent) : AlertCurEvent :=
  let groups := GetByUserGroupIds (d_userGroup c) (group_ids (Event.NotifyGroupsJSON ce)) in
  let uids : gmap Z unit := foldl (λ m uid, <[uid := tt]> m) ∅ (concat (map UserGrp.UserIds groups)) in
  ce <| Event.NotifyGroupsObj := groups |>
     <| Event.NotifyUsersObj := GetByUserIds (d_user c) (map fst (go_range uids)) |>.

(** The targets of an event under the old scheme. *)
Definition notify_targets `{GoRange} (c : dcaches) (event : AlertCurEvent) (isSubscribe : bool) : NotifyTarget :=
  let t := nt_OrMerge NewNotifyTarget (Some (NotifyGroupDispatch c event)) in
  let t := if isSubscribe then t else nt_OrMerge t (Some (GlobalWebhookDispatch c)) in
  EventCallbacksDispatch event t.

(** ** Notification rules *)

Definition TimeRanges_Verify (t : TimeRanges) : option error :=
  if String.eqb (TimeRng.Start t) "" then Some "start time cannot be empty"
  else if String.eqb (TimeRng.End_ t) "" then Some "end time cannot be empty"
  else None.

(** The first error of a list of checks. *)
Definition first_error {A} (f : A → option error) (l : list A) : option error := head (omap f l).

Definition NotifyConfig_Verify (c : NotifyConfig) : option error :=
  if NotifyConf.ChannelID c <=? 0 then Some "invalid channel id"
  else if existsb (λ s, (s <? 1) || (3 <? s)) (NotifyConf.Severities c) then Some "invalid severity level"
  else match first_error TimeRanges_Verify (NotifyConf.TimeRanges c) with
       | Some err => Some err
       | None => first_error (λ f, snd (TagFilter_Verify f)) (NotifyConf.LabelKeys c)
       end.

Definition NotifyRule_Verify (r : NotifyRule) : option error :=
  if String.eqb (NtfRule.Name r) "" then Some "name cannot be empty"
  else first_error NotifyConfig_Verify (NtfRule.NotifyConfigs r).

(** [Update]: the row, with the stored extra configuration when the new one is
    nil, or the error. *)
Definition NotifyRule_Update (now : Z) (r ref : NotifyRule) : result NotifyRule :=
  let ref := ref <| NtfRule.ID := NtfRule.ID r |> <| NtfRule.CreateAt := NtfRule.CreateAt r |>
                 <| NtfRule.CreateBy := NtfRule.CreateBy r |> <| NtfRule.UpdateAt := now |> in
  match NotifyRule_Verify ref with
  | Some err => Err err
  | None => Ok (match NtfRule.ExtraConfig ref with
                | INil => ref <| NtfRule.ExtraConfig := NtfRule.ExtraConfig r |>
                | _ => ref
                end)
  end.

Section check.
Context `{RG : Regexp, GF : GoFmt, TZ : Location, EF : EventFieldJson, !Json (gmap string iface)}.

(** One time range: some day of its week is today and the time is inside. *)
Definition range_matches (week : Z) (time : string) (r : TimeRanges) : bool :=
  existsb (λ d, (d =? week) && span_active (TimeRng.Start r) (TimeRng.End_ r) time) (TimeRng.Week r).

Definition time_matches (c : NotifyConfig) (event : AlertCurEvent) : bool :=
  (length (NotifyConf.TimeRanges c) =? 0)%nat ||
  existsb (range_matches (weekday (Event.TriggerTime event)) (format_1504 (Event.TriggerTime event)))
    (NotifyConf.TimeRanges c).

(** Filters that are parsed when there are any, and then matched. *)
Definition filters_match (filters : list TagFilter) (tags : gmap string string) : go (result bool) :=
  if (0 <? length filters)%nat then
    match ParseTagFilter filters with
    | Err err => Ret (Err err)
    | Ok fs => b ← MatchTags tags fs; Ret (Ok b)
    end
  else Ret (Ok true).

Definition NotifyRuleMatchCheck (c : NotifyConfig) (event : AlertCurEvent) : go (option error) :=
  if negb (time_matches c event) then Ret (Some "event time not match time filter")
  else if negb (existsb (λ s, s =? Event.Severity event) (NotifyConf.Severities c))
  then Ret (Some "event severity not match severity filter")
  else
    tagMatch ← filters_match (map default_func (NotifyConf.LabelKeys c)) (Event.TagsMap event);
    match tagMatch with
    | Err err => Ret (Some ("failed to parse tag filter: " +:+ err))
    | Ok false => Ret (Some "event tag not match tag filter")
    | Ok true =>
        attributesMatch ← filters_match (NotifyConf.Attributes c) (JsonTagsAndValue event);
        match attributesMatch with
        | Err err => Ret (Some ("failed to parse tag filter: " +:+ err))
        | Ok false => Ret (Some "event attributes not match attributes filter")
        | Ok true => Ret None
        end
    end.
End check.

(** ** Parameters of a notification *)

(** gjson on the contacts of a user: the text of a key, empty when absent. *)
Class ContactsLib := { contact_get : string → string → string }.

Definition contact_key (key : string) : string :=
  match key with
  | "dingtalk" => "dingtalk_robot_token"
  | "wecom" => "wecom_robot_token"
  | "feishu" | "feishucard" => "feishu_robot_token"
  | "mm" => "mm_webhook_url"
  | "telegram" => "telegram_robot_token"
  | "lark" | "larkcard" => "lark_robot_token"
  | _ => key
  end.

(** The token of [ExtractToken]; whether the key exists is not used here. *)
Definition ExtractToken `{ContactsLib} (u : User) (key : string) : string :=
  match key with
  | "email" => Usr.Email u
  | "phone" => Usr.Phone u
  | _ => contact_get (Usr.Contacts u) (contact_key key)
  end.

Record notify_params := mkNotifyParams {
  np_UserIDs : list Z;
  np_UserGroupIDs : list Z;
  np_flashDuty : list Z;
  np_pagerDuty : list string;
  np_custom : gmap string string
}.
#[global] Instance notify_params_eta : Settable notify_params := λ r,
  mkNotifyParams (np_UserIDs r) (np_UserGroupIDs r) (np_flashDuty r) (np_pagerDuty r) (np_custom r).

Section params.
Context `{GR : GoRange, CL : ContactsLib, !Json iface, !Json (list Z), !Json (list string)}.

(** Through JSON into a slice, when both steps succeed. *)
Definition recode {A} `{!Json (list A)} (value : iface) : option (list A) :=
  match json_marshal value with
  | Err _ => None
  | Ok data => match json_unmarshal data ([] : list A) with
               | (l, None) => Some l
               | (_, Some _) => None
               end
  end.

(** One binding of [Params]; the assertion to a string panics on another
    type. *)
Definition read_param (p : notify_params) (kv : string * iface) : go notify_params :=
  let '(key, value) := kv in
  if String.eqb key "user_ids"
  then Ret (match recode value with Some l => p <| np_UserIDs := l |> | None => p end)
  else if String.eqb key "user_group_ids"
  then Ret (match recode value with Some l => p <| np_UserGroupIDs := l |> | None => p end)
  else if String.eqb key "ids"
  then Ret (match recode value with Some l => p <| np_flashDuty := l |> | None => p end)
  else if String.eqb key "pagerduty_integration_ids" then Ret p
  else if String.eqb key "pagerduty_integration_keys"
  then Ret (match recode value with Some l => p <| np_pagerDuty := l |> | None => p end)
  else match value with
       | IString s => Ret (p <| np_custom := <[key := s]> (np_custom p) |>)
       | _ => Panic
       end.

Fixpoint read_params (p : notify_params) (kvs : list (string * iface)) : go notify_params :=
  match kvs with
  | [] => Ret p
  | kv :: kvs' => p ← read_param p kv; read_params p kvs'
  end.

Definition send_to (contactKey : string) (u : User) : string :=
  if String.eqb contactKey "phone" then Usr.Phone u
  else if String.eqb contactKey "email" then Usr.Email u
  else ExtractToken u contactKey.

Fixpoint send_tos (contactKey : string) (users : list User) (visited : gset Z) : list string :=
  match users with
  | [] => []
  | u :: users' =>
      if decide (Usr.Id u ∈ visited) then send_tos contactKey users' visited
      else if String.eqb (send_to contactKey u) "" then send_tos contactKey users' visited
      else send_to contactKey u :: send_tos contactKey users' ({[Usr.Id u]} ∪ visited)
  end.

Definition GetNotifyConfigParams (c : NotifyConfig) (contactKey : string) (users : gmap Z User)
    (groups : gmap Z UserGroup) : go (list string * list Z * list string * gmap string string) :=
  p ← read_params (mkNotifyParams [] [] [] [] ∅) (go_range (NotifyConf.Params c));
  if (length (np_UserIDs p) =? 0)%nat && (length (np_UserGroupIDs p) =? 0)%nat
  then Ret ([], np_flashDuty p, np_pagerDuty p, np_custom p)
  else
    let userIds := (np_UserIDs p ++
      concat (map UserGrp.UserIds (GetByUserGroupIds groups (np_UserGroupIDs p))))%list in
    Ret (send_tos contactKey (GetByUserIds users userIds) ∅, np_flashDuty p, np_pagerDuty p, np_custom p).
End params.

(** ** The dispatcher *)

(** What dispatching produces: a message of a notification rule, a
    notification record, and a send of the old scheme. *)
Inductive dispatch_output :=
| SendByNotifyRule (event : AlertCurEvent) (notifyRuleId : Z) (config : NotifyConfig) (ch : channel)
| DispatchRecord (event : AlertCurEvent) (notifyRuleId : Z) (channel target res : string) (err : error)
| Pipeline (o : pipeline_output)
| Send (rule : AlertRule) (event : AlertCurEvent) (target : NotifyTarget) (isSubscribe : bool).

Definition shouldSkipNotify (event : option AlertCurEvent) : bool :=
  match event with
  | None => true
  | Some e => Event.IsRecovered e && (Event.NotifyRecovered e =? 0)
  end.

Section dispatch.
Context {World : Type} `{RT : Runtime World, GR : GoRange}.
Context `{RG : Regexp, GF : GoFmt, TZ : Location, EF : EventFieldJson, !Json (gmap string iface)}.
Context `{!Json (list NodeExecutionResult), !Json (gmap string string), !Json iface}.

(** One configuration of a notification rule. *)
Definition notify_config (c : dcaches) (notifyRuleId : Z) (event : AlertCurEvent) (cfg : NotifyConfig)
  : go (list dispatch_output) :=
  err ← NotifyRuleMatchCheck cfg event;
  match err with
  | Some _ => Ret []
  | None =>
      match d_channel c !! NotifyConf.ChannelID cfg with
      | None => Ret [DispatchRecord event notifyRuleId
                       ("notify_channel_id:" +:+ itoa (NotifyConf.ChannelID cfg)) "" ""
                       "notify_channel not found"]
      | Some ch =>
          if negb (String.eqb (ch_RequestType ch) "flashduty") &&
             negb (String.eqb (ch_RequestType ch) "pagerduty") &&
             negb (bool_decide (NotifyConf.TemplateID cfg ∈ d_template c))
          then Ret [DispatchRecord event notifyRuleId (ch_Name ch) "" "" "message_template not found"]
          else Ret [SendByNotifyRule event notifyRuleId cfg ch]
      end
  end.

Fixpoint notify_configs (c : dcaches) (notifyRuleId : Z) (event : AlertCurEvent) (cfgs : list NotifyConfig)
  : go (list dispatch_output) :=
  match cfgs with
  | [] => Ret []
  | cfg :: cfgs' =>
      o ← notify_config c notifyRuleId event cfg;
      os ← notify_configs c notifyRuleId event cfgs';
      Ret (o ++ os)%list
  end.

(** One notification rule of an event. *)
Definition notify_by_rule (c : dcaches) (eventOrigin : AlertCurEvent) (notifyRuleId : Z) (w : World)
  : go (World * list dispatch_output) :=
  match d_notifyRule c !! notifyRuleId with
  | None => Ret (w, [])
  | Some notifyRule =>
      if negb (NtfRule.Enable notifyRule) then Ret (w, [])
      else
        let eventCopy := eventOrigin <| Event.NotifyRuleId := notifyRuleId |>
                                     <| Event.NotifyRuleName := NtfRule.Name notifyRule |> in
        '(w, eventCopy, out) ← HandleEventPipeline (NtfRule.PipelineConfigs notifyRule) eventOrigin eventCopy
                                 (d_eventProcessor c) notifyRuleId "notify_rule" w;
        match eventCopy with
        | Some e =>
            if shouldSkipNotify (Some e) then Ret (w, map Pipeline out)
            else os ← notify_configs c notifyRuleId e (NtfRule.NotifyConfigs notifyRule);
                 Ret (w, map Pipeline out ++ os)%list
        | None => Ret (w, map Pipeline out)
        end
  end.

Fixpoint notify_by_rules (c : dcaches) (eventOrigin : AlertCurEvent) (ids : list Z) (w : World)
  : go (World * list dispatch_output) :=
  match ids with
  | [] => Ret (w, [])
  | id :: ids' =>
      '(w, o) ← notify_by_rule c eventOrigin id w;
      '(w, os) ← notify_by_rules c eventOrigin ids' w;
      Ret (w, o ++ os)%list
  end.

Definition HandleEventWithNotifyRule (c : dcaches) (eventOrigin : AlertCurEvent) (w : World)
  : go (World * list dispatch_output) :=
  notify_by_rules c eventOrigin (Event.NotifyRuleIds eventOrigin) w.

(** [HandleEventNotify] up to the subscriptions, and whether it goes on to
    them.  The notification rules run in a goroutine of their own; here they
    see the event as it is when it is started. *)
Definition notify_event (c : dcaches) (event : AlertCurEvent) (isSubscribe : bool) (w : World)
  : go (World * option AlertCurEvent * list dispatch_output) :=
  '(w, out) ← HandleEventWithNotifyRule c event w;
  if Event.IsRecovered event && (Event.NotifyRecovered event =? 0) then Ret (w, None, out)
  else match d_alertRule c !! Event.RuleId event with
       | None => Ret (w, None, out)
       | Some rule =>
           let event := fillUsers c event in
           let t := notify_targets c event isSubscribe in
           Ret (w, Some event, out ++ [Send rule event t isSubscribe])%list
       end.

(** The guards of [handleSub]. *)
Definition sub_matches (sub : AlertSubscribe) (event : AlertCurEvent) : go bool :=
  if IsDisabled sub || negb (MatchCluster sub (Event.DatasourceId event))
     || negb (MatchProd sub (Event.RuleProd event)) || negb (MatchCate sub (Event.Cate event))
  then Ret false
  else
    tags ← MatchTags (Event.TagsMap event) (Subscribe.ITags sub);
    if negb tags then Ret false
    else
      groups ← MatchGroupsName (Event.GroupName event) (Subscribe.IBusiGroups sub);
      if negb groups then Ret false
      else if i64 (Event.TriggerTime event - Event.FirstTriggerTime event) <? Subscribe.ForDuration sub
      then Ret false
      else Ret ((length (Subscribe.SeveritiesJson sub) =? 0)%nat ||
                existsb (λ s, (s =? Event.Severity event) || (s =? 0)) (Subscribe.SeveritiesJson sub)).

(** The event a subscription forwards. *)
Definition sub_event (sub : AlertSubscribe) (event : AlertCurEvent) : AlertCurEvent :=
  (ModifyEvent sub event) <| Event.SubRuleId := Subscribe.Id sub |>.

Definition handleSub (c : dcaches) (sub : AlertSubscribe) (event : AlertCurEvent) (w : World)
  : go (World * list dispatch_output) :=
  m ← sub_matches sub event;
  if m : bool then '(w, _, out) ← notify_event c (sub_event sub event) true w; Ret (w, out)
  else Ret (w, []).

Fixpoint handle_subs (c : dcaches) (subs : list AlertSubscribe) (event : AlertCurEvent) (w : World)
  : go (World * list dispatch_output) :=
  match subs with
  | [] => Ret (w, [])
  | sub :: subs' =>
      '(w, o) ← handleSub c sub event w;
      '(w, os) ← handle_subs c subs' event w;
      Ret (w, o ++ os)%list
  end.

Definition handleSubs (c : dcaches) (event : AlertCurEvent) (w : World) : go (World * list dispatch_output) :=
  handle_subs c (default [] (d_subscribe c !! Event.RuleId event) ++ default [] (d_subscribe c !! 0)) event w.

Definition HandleEventNotify (c : dcaches) (event : AlertCurEvent) (isSubscribe : bool) (w : World)
  : go (World * list dispatch_output) :=
  '(w, next, out) ← notify_event c event isSubscribe w;
  match next with
  | None => Ret (w, out)
  | Some event =>
      if isSubscribe then Ret (w, out)
      else '(w, os) ← handleSubs c event w; Ret (w, out ++ os)%list
  end.
End dispatch.

(** ** Properties: targets *)

(** The merge loop, for any order of the other map. *)
Lemma foldl_merge_lookup {K A} `{Countable K} (f : A → A → A) (l : list (K * A)) (m : gmap K A) k :
  NoDup l.*1 →
  foldl (λ m kv, match m !! fst kv with
                 | Some cur => <[fst kv := f cur (snd kv)]> m
                 | None => <[fst kv := snd kv]> m
                 end) m l !! k
  = union_with (λ a b, Some (f a b)) (m !! k) (list_to_map (M := gmap K A) l !! k).
Proof.
  revert m. induction l as [|[k0 x] l IH]; intros m Hnd; cbn [foldl].
  { rewrite list_to_map_nil, lookup_empty. by destruct (m !! k). }
  csimpl in Hnd. apply NoDup_cons in Hnd as [Hk0 Hnd]. rewrite IH by done. rewrite list_to_map_cons. cbn [fst snd].
  assert (list_to_map (M := gmap K A) l !! k0 = None) as Hn by (by apply not_elem_of_list_to_map).
  destruct (decide (k0 = k)) as [->|Hne].
  - rewrite lookup_insert_eq, Hn. destruct (m !! k); rewrite lookup_insert_eq; done.
  - rewrite lookup_insert_ne by done. destruct (m !! k0); by rewrite lookup_insert_ne.
Qed.

Section target_spec.
Context `{GR : GoRange}.

Lemma nc_merge_lookup f (nc other : gmap string bool) k :
  nc_merge f nc other !! k = union_with (λ a b, Some (f a b)) (nc !! k) (other !! k).
Proof.
  unfold nc_merge. rewrite (foldl_merge_lookup f) by apply NoDup_fst_go_range. by rewrite go_range_to_map.
Qed.

Lemma nt_merge_users s other f k :
  userMap (nt_merge s (Some other) f) !! k
  = union_with (λ a b, Some (f a b)) (userMap s !! k) (userMap other !! k).
Proof.
  unfold nt_merge. rsimp. rewrite (foldl_merge_lookup f) by apply NoDup_fst_go_range. by rewrite go_range_to_map.
Qed.

(** Merging targets is a pointwise or of the channels of each user, whatever
    the iteration order: a channel reaches a user after the merge exactly when
    one of the two targets sends to it. *)
Theorem nt_OrMerge_sends s other uid ch :
  let sends (t : NotifyTarget) := ∃ nc, userMap t !! uid = Some nc ∧ nc !! ch = Some true in
  sends (nt_OrMerge s (Some other)) ↔ sends s ∨ sends other.
Proof.
  intros sends. unfold sends, nt_OrMerge. rewrite nt_merge_users.
  destruct (userMap s !! uid) as [a|], (userMap other !! uid) as [b|]; cbn [union_with option_union_with];
    try (split; naive_solver).
  assert (nc_OrMerge a b !! ch = Some true ↔ a !! ch = Some true ∨ b !! ch = Some true) as Hor.
  { unfold nc_OrMerge. rewrite nc_merge_lookup. destruct (a !! ch) as [[]|], (b !! ch) as [[]|]; naive_solver. }
  split.
  - intros (nc & [= <-] & Hnc). apply Hor in Hnc. naive_solver.
  - intros Hs. exists (nc_OrMerge a b). split; [done|]. apply Hor. naive_solver.
Qed.

Lemma channel_users_inner uid (l : list (string * bool)) (m : gmap string (list Z)) ch u :
  NoDup l.*1 →
  u ∈ default [] (foldl (λ m cs, if (snd cs : bool)
        then <[fst cs := (default [] (m !! fst cs) ++ [uid])%list]> m else m) m l !! ch) ↔
  u ∈ default [] (m !! ch) ∨ u = uid ∧ (ch, true) ∈ l.
Proof.
  revert m. induction l as [|[k b] l IH]; intros m Hnd; cbn [foldl fst snd]; [set_solver|].
  csimpl in Hnd. apply NoDup_cons in Hnd as [_ Hnd]. rewrite IH by done. clear IH.
  destruct b; [|set_solver]. destruct (decide (k = ch)) as [->|Hne].
  - rewrite lookup_insert_eq. cbn [default]. set_solver.
  - rewrite lookup_insert_ne by done. set_solver.
Qed.

Lemma ToChannelUserMap_spec t ch u :
  u ∈ default [] (ToChannelUserMap t !! ch) ↔ ∃ nc, userMap t !! u = Some nc ∧ nc !! ch = Some true.
Proof.
  unfold ToChannelUserMap.
  assert (∀ l (m : gmap string (list Z)),
    u ∈ default [] (foldl (λ m un, foldl (λ m cs, if (snd cs : bool)
        then <[fst cs := (default [] (m !! fst cs) ++ [fst un])%list]> m else m) m (go_range (snd un))) m l !! ch) ↔
    u ∈ default [] (m !! ch) ∨ ∃ nc : gmap string bool, (u, nc) ∈ l ∧ nc !! ch = Some true) as Hl.
  { induction l as [|[uid nc] l IH]; intros m; cbn [foldl fst snd]; [set_solver|].
    rewrite IH, channel_users_inner by apply NoDup_fst_go_range. rewrite elem_of_go_range. clear IH. set_solver. }
  rewrite Hl, lookup_empty. setoid_rewrite elem_of_go_range. set_solver.
Qed.

Lemma foldl_insert_const {A} (x : A) (l : list Z) (m : gmap Z A) k :
  foldl (λ m uid, <[uid := x]> m) m l !! k = if decide (k ∈ l) then Some x else m !! k.
Proof.
  revert m. induction l as [|k0 l IH]; intros m; cbn [foldl]; [by rewrite decide_False by set_solver|].
  rewrite IH. destruct (decide (k ∈ l)); [by rewrite decide_True by set_solver|].
  destruct (decide (k0 = k)) as [->|Hne].
  - by rewrite lookup_insert_eq, decide_True by set_solver.
  - by rewrite lookup_insert_ne, decide_False by set_solver.
Qed.

Lemma NewNotifyChannels_lookup l ch : NewNotifyChannels l !! ch = Some true ↔ ch ∈ l.
Proof.
  unfold NewNotifyChannels. assert (∀ m : gmap string bool,
    foldl (λ nc c, <[c := true]> nc) m l !! ch = Some true ↔ ch ∈ l ∨ m !! ch = Some true) as Hl.
  { induction l as [|c l IH]; intros m; cbn [foldl]; [set_solver|]. rewrite IH.
    destruct (decide (c = ch)) as [->|Hne]; [rewrite lookup_insert_eq|rewrite lookup_insert_ne by done]; set_solver. }
  rewrite Hl, lookup_empty. naive_solver.
Qed.

Lemma elem_of_cache_gets {A} (cache : gmap Z A) ids seen x :
  x ∈ cache_gets cache ids seen ↔ ∃ id, id ∈ ids ∧ id ∉ seen ∧ cache !! id = Some x.
Proof.
  revert seen. induction ids as [|i ids IH]; intros seen; cbn [cache_gets]; [set_solver|].
  destruct (cache !! i) as [y|] eqn:E; [case_decide|].
  - rewrite IH. set_solver.
  - rewrite elem_of_cons, IH. split.
    + intros [->|(id & ? & ? & ?)]; [exists i|exists id]; set_solver.
    + intros (id & Hid & Hs & Hx). destruct (decide (id = i)) as [->|Hne]; [left; congruence|].
      right. exists id. set_solver.
  - rewrite IH. split; [set_solver|]. intros (id & Hid & Hs & Hx). exists id.
    split_and!; try done. apply elem_of_cons in Hid as [->|]; [congruence|done].
Qed.

(** Under the old scheme an event is sent over a channel exactly to the
    members of the event's notify groups that exist, and only if the event
    lists the channel. *)
Theorem notify_targets_spec c event isSubscribe ch u :
  u ∈ default [] (ToChannelUserMap (notify_targets c event isSubscribe) !! ch) ↔
  ch ∈ Event.NotifyChannelsJSON event ∧
  ∃ s gid g, s ∈ Event.NotifyGroupsJSON event ∧ parse_int s = Some gid ∧
    d_userGroup c !! gid = Some g ∧ u ∈ UserGrp.UserIds g.
Proof.
  rewrite ToChannelUserMap_spec.
  assert (userMap (notify_targets c event isSubscribe) !! u =
    if decide (u ∈ concat (map UserGrp.UserIds
        (GetByUserGroupIds (d_userGroup c) (group_ids (Event.NotifyGroupsJSON event)))))
    then Some (NewNotifyChannels (Event.NotifyChannelsJSON event)) else None) as ->.
  { unfold notify_targets, EventCallbacksDispatch. rsimp.
    assert (∀ t, userMap (nt_OrMerge t (Some (GlobalWebhookDispatch c))) !! u = userMap t !! u) as Hg.
    { intros t. unfold nt_OrMerge. rewrite nt_merge_users. unfold GlobalWebhookDispatch. rsimp.
      unfold NewNotifyTarget. cbn [userMap]. rewrite lookup_empty. by destruct (userMap t !! u). }
    assert (userMap (nt_OrMerge NewNotifyTarget (Some (NotifyGroupDispatch c event))) !! u =
            userMap (NotifyGroupDispatch c event) !! u) as Hn.
    { unfold nt_OrMerge. rewrite nt_merge_users. unfold NewNotifyTarget. cbn [userMap].
      rewrite lookup_empty. by destruct (userMap (NotifyGroupDispatch c event) !! u). }
    destruct isSubscribe; rewrite ?Hg, Hn; unfold NotifyGroupDispatch; rsimp;
      rewrite foldl_insert_const, lookup_empty; done. }
  case_decide as Hin; rewrite elem_of_concat in Hin.
  - destruct Hin as (uids & (g & -> & Hg)%list_elem_of_fmap & Hu).
    unfold GetByUserGroupIds in Hg. apply elem_of_cache_gets in Hg as (gid & Hgid & _ & Hc).
    unfold group_ids in Hgid. apply list_elem_of_omap in Hgid as (s & Hs & Hp). split.
    + intros (nc & [= <-] & Hnc%NewNotifyChannels_lookup). split; [done|]. eauto 8.
    + intros [Hch%NewNotifyChannels_lookup _]. eauto.
  - split; [naive_solver|]. intros [_ (s & gid & g & Hs & Hp & Hc & Hu)]. destruct Hin.
    exists (UserGrp.UserIds g). split; [|done]. apply list_elem_of_fmap. exists g. split; [done|].
    unfold GetByUserGroupIds. apply elem_of_cache_gets. exists gid. split_and!; [|set_solver|done].
    unfold group_ids. apply list_elem_of_omap. eauto.
Qed.
End target_spec.

(** ** Properties: the match check *)

Section check_spec.
Context `{RG : Regexp, GF : GoFmt, TZ : Location, EF : EventFieldJson, !Json (gmap string iface)}.

(** A time range on minutes instead of strings. *)
Definition range_wf (r : TimeRanges) (s e : Z) : Prop :=
  TimeRng.Start r = hhmm s ∧ TimeRng.End_ r = hhmm e ∧ 0 ≤ s ≤ 1440 ∧ 0 ≤ e ≤ 1440.

Definition range_covers (week m : Z) (r : TimeRanges) : Prop :=
  ∃ s e, range_wf r s e ∧ week ∈ TimeRng.Week r ∧ in_window s e m = true.

Lemma range_matches_spec ts r s e :
  range_wf r s e →
  range_matches (weekday ts) (format_1504 ts) r = true ↔
  weekday ts ∈ TimeRng.Week r ∧ in_window s e (clock_minute ts) = true.
Proof.
  intros (Hs & He & Hsr & Her). unfold range_matches, format_1504. rewrite Hs, He.
  rewrite span_active_spec by auto using clock_minute_range. rewrite existsb_elem_of. split.
  - intros (d & Hd & Hb). bool_prop. by subst d.
  - intros [Hw Hi]. exists (weekday ts). split; [done|]. by rewrite Z.eqb_refl, Hi.
Qed.

Lemma filters_match_spec fs fs' tags :
  ParseTagFilter fs = Ok fs' → Forall plain_key fs →
  filters_match fs tags = Ret (Ok (forallb (label_holds tags) fs)).
Proof.
  intros Hp Hk. unfold filters_match. destruct fs as [|f fs]; [done|].
  cbn [length Nat.ltb Nat.leb]. rewrite Hp, (match_tags_all _ _ _ Hp Hk). done.
Qed.

(** A notification configuration whose ranges are well formed and whose
    filters parse accepts an event exactly when the trigger time is in one of
    its ranges, the severity is listed, and all label and attribute filters
    hold. *)
Theorem NotifyRuleMatchCheck_spec c event labels attrs :
  Forall (λ r, ∃ s e, range_wf r s e) (NotifyConf.TimeRanges c) →
  ParseTagFilter (map default_func (NotifyConf.LabelKeys c)) = Ok labels →
  ParseTagFilter (NotifyConf.Attributes c) = Ok attrs →
  Forall plain_key (NotifyConf.LabelKeys c) → Forall plain_key (NotifyConf.Attributes c) →
  ∃ err, NotifyRuleMatchCheck c event = Ret err ∧
    (err = None ↔
     (NotifyConf.TimeRanges c = [] ∨
      ∃ r, r ∈ NotifyConf.TimeRanges c ∧
        range_covers (weekday (Event.TriggerTime event)) (clock_minute (Event.TriggerTime event)) r) ∧
     Event.Severity event ∈ NotifyConf.Severities c ∧
     (∀ f, f ∈ NotifyConf.LabelKeys c → label_holds (Event.TagsMap event) (default_func f) = true) ∧
     (∀ f, f ∈ NotifyConf.Attributes c → label_holds (JsonTagsAndValue event) f = true)).
Proof.
  intros Hr Hl Ha Hkl Hka. unfold NotifyRuleMatchCheck.
  assert (time_matches c event = true ↔ NotifyConf.TimeRanges c = [] ∨ ∃ r, r ∈ NotifyConf.TimeRanges c ∧
    range_covers (weekday (Event.TriggerTime event)) (clock_minute (Event.TriggerTime event)) r) as Htime.
  { unfold time_matches. rewrite orb_true_iff, existsb_elem_of, Nat.eqb_eq, length_zero_iff_nil.
    rewrite Forall_forall in Hr. split; (intros [?|(r & Hin & Hm)]; [by left|right; exists r; split; [done|]]).
    - destruct (Hr _ Hin) as (s & e & Hwf). pose proof (proj1 (range_matches_spec _ _ _ _ Hwf) Hm) as [Hw Hi]. exists s, e. done.
    - destruct Hm as (s & e & Hwf & ? & ?). by apply (range_matches_spec _ _ _ _ Hwf). }
  assert (existsb (λ s, s =? Event.Severity event) (NotifyConf.Severities c) = true ↔
          Event.Severity event ∈ NotifyConf.Severities c) as Hsev.
  { rewrite existsb_elem_of. split; [intros (s & Hin & Heq%Z.eqb_eq); by subst s|].
    intros Hin. exists (Event.Severity event). by rewrite Z.eqb_refl. }
  setoid_rewrite <- Htime. setoid_rewrite <- Hsev. clear Htime Hsev.
  destruct (time_matches c event); cbn [negb]; [|eexists; split; [done|naive_solver]].
  destruct (existsb _ (NotifyConf.Severities c)); cbn [negb]; [|eexists; split; [done|naive_solver]].
  rewrite (filters_match_spec _ _ _ Hl).
  2: { rewrite Forall_fmap. eapply Forall_impl; [done|]. intros f Hf. unfold plain_key, default_func in *.
       cbn. case_match; by rsimp. }
  cbn. destruct (forallb _ (map default_func (NotifyConf.LabelKeys c))) eqn:El.
  - rewrite forallb_elem_of in El.
    assert (∀ f, f ∈ NotifyConf.LabelKeys c → label_holds (Event.TagsMap event) (default_func f) = true) as El'.
    { intros f Hf. apply El. by apply list_elem_of_fmap_2. }
    rewrite (filters_match_spec _ _ _ Ha Hka). cbn.
    destruct (forallb _ (NotifyConf.Attributes c)) eqn:Ea; eexists; (split; [done|]).
    + rewrite forallb_elem_of in Ea. by split_and!.
    + split; [done|]. intros (_ & _ & _ & Hall). rewrite <- forallb_elem_of in Hall. congruence.
  - eexists. split; [done|]. split; [done|]. intros (_ & _ & Hall & _).
    assert (forallb (label_holds (Event.TagsMap event)) (map default_func (NotifyConf.LabelKeys c)) = true); [|congruence].
    apply forallb_elem_of. intros f (f' & -> & Hf')%list_elem_of_fmap. auto.
Qed.

(** An attribute filter that gives its operator in [op] and not in [func], as
    label filters may, rejects every event. *)
Theorem attributes_op_ignored c event f :
  NotifyConf.Attributes c = [f] → TagFlt.Func f = "" → plain_key f →
  NotifyRuleMatchCheck c event ≠ Ret None.
Proof.
  intros Ha Hf Hk. unfold NotifyRuleMatchCheck. generalize (JsonTagsAndValue event) as tags. intros tags.
  destruct (negb (time_matches c event)); [done|].
  destruct (negb _); [done|]. destruct (filters_match (map _ _) _) as [[[]|]|]; try done. cbn.
  rewrite Ha. unfold filters_match. cbn [length Nat.ltb Nat.leb].
  assert (ParseTagFilter [f] = Ok [f]) as Hp.
  { unfold ParseTagFilter, parse_filters_with, parse_filter_with, is_regex_func, is_set_func. by rewrite Hf. }
  assert (label_holds tags f = false) as Hh.
  { unfold label_holds, filter_holds. destruct (tags !! TagFlt.Key f); [|done]. by rewrite Hf. }
  rewrite Hp. rewrite (match_tags_all _ _ _ Hp) by (by repeat constructor). cbn [forallb]. by rewrite Hh.
Qed.
End check_spec.

(** ** Properties: parameters *)

Section params_spec.
Context `{GR : GoRange, CL : ContactsLib, !Json iface, !Json (list Z), !Json (list string)}.

Definition special_params : list string :=
  ["user_ids"; "user_group_ids"; "ids"; "pagerduty_integration_ids"; "pagerduty_integration_keys"].

Lemma read_param_custom p k v :
  k ∉ special_params → (∀ s, v ≠ IString s) → read_param p (k, v) = Panic.
Proof.
  intros Hk Hv. unfold special_params in Hk. rewrite !not_elem_of_cons in Hk.
  destruct Hk as (H1 & H2 & H3 & H4 & H5 & _). unfold read_param.
  apply String.eqb_neq in H1, H2, H3, H4, H5. rewrite H1, H2, H3, H4, H5.
  destruct v; try done. by destruct (Hv s).
Qed.

Lemma read_params_panic p kvs k v :
  (k, v) ∈ kvs → k ∉ special_params → (∀ s, v ≠ IString s) → read_params p kvs = Panic.
Proof.
  intros Hin Hk Hv. revert p. induction kvs as [|kv kvs IH]; intros p; [set_solver|]. cbn [read_params].
  apply elem_of_cons in Hin as [<-|Hin]; [by rewrite read_param_custom|].
  destruct (read_param p kv); [by apply IH|done].
Qed.

(** A custom parameter that is not a string panics, for every contact key and
    iteration order, although the code's comment says that several types are
    supported. *)
Theorem GetNotifyConfigParams_panics c contactKey users groups k v :
  NotifyConf.Params c !! k = Some v → k ∉ special_params → (∀ s, v ≠ IString s) →
  GetNotifyConfigParams c contactKey users groups = Panic.
Proof.
  intros Hp Hk Hv. unfold GetNotifyConfigParams.
  rewrite (read_params_panic _ _ k v); [done| |done..]. by apply elem_of_go_range.
Qed.

(** Every user of the caches is sent to at most once, over an address that is
    not empty. *)
Lemma send_tos_spec contactKey users visited :
  ∃ us, us `sublist_of` users ∧ send_tos contactKey users visited = map (send_to contactKey) us ∧
    NoDup (map Usr.Id us) ∧ Forall (λ u, send_to contactKey u ≠ "" ∧ Usr.Id u ∉ visited) us.
Proof.
  revert visited. induction users as [|u users IH]; intros visited; cbn [send_tos].
  { exists []. split_and!; [done|done|constructor|constructor]. }
  case_decide as Hv.
  { destruct (IH visited) as (us & ? & ? & ? & ?). exists us. split_and!; try done. by constructor. }
  destruct (String.eqb_spec (send_to contactKey u) "") as [He|He].
  { destruct (IH visited) as (us & ? & ? & ? & ?). exists us. split_and!; try done. by constructor. }
  destruct (IH ({[Usr.Id u]} ∪ visited)) as (us & Hs & -> & Hnd & Hf). exists (u :: us).
  rewrite Forall_forall in Hf. split_and!.
  - by constructor.
  - done.
  - csimpl. constructor; [|done]. intros (u' & Heq & Hu')%list_elem_of_fmap. destruct (Hf _ Hu'). set_solver.
  - constructor; [done|]. apply Forall_forall. intros u' Hu'. destruct (Hf _ Hu'). set_solver.
Qed.

Theorem GetNotifyConfigParams_once c contactKey users groups sendtos flash pager custom :
  GetNotifyConfigParams c contactKey users groups = Ret (sendtos, flash, pager, custom) →
  ∃ us, sendtos = map (send_to contactKey) us ∧ NoDup (map Usr.Id us) ∧
    (∀ u, u ∈ us → send_to contactKey u ≠ "" ∧ ∃ id, users !! id = Some u).
Proof.
  unfold GetNotifyConfigParams. intros (p & _ & Hr)%go_bind_Ret.
  destruct (_ && _); apply Ret_inj in Hr; injection Hr as -> -> -> ->.
  { exists []. split_and!; [done|constructor|set_solver]. }
  destruct (send_tos_spec contactKey (GetByUserIds users (np_UserIDs p ++
    concat (map UserGrp.UserIds (GetByUserGroupIds groups (np_UserGroupIDs p))))) ∅) as (us & Hsub & -> & Hnd & Hf).
  exists us. split_and!; [done..|]. rewrite Forall_forall in Hf. intros u Hu. split; [by apply Hf|].
  eapply elem_of_submseteq in Hu; [|by apply sublist_submseteq]. unfold GetByUserIds in Hu.
  apply elem_of_cache_gets in Hu as (id & _ & _ & ?). eauto.
Qed.
End params_spec.

(** ** Properties: the dispatcher *)

Section dispatch_spec.
Context {World : Type} `{RT : Runtime World, GR : GoRange}.
Context `{RG : Regexp, GF : GoFmt, TZ : Location, EF : EventFieldJson, !Json (gmap string iface)}.
Context `{!Json (list NodeExecutionResult), !Json (gmap string string), !Json iface}.
Implicit Types w : World.

(** A recovery the rule does not want to be told about. *)
Definition silent (e : AlertCurEvent) : bool := Event.IsRecovered e && (Event.NotifyRecovered e =? 0).

Lemma notify_by_rule_silent c e id w :
  silent e = true →
  (∀ r, d_notifyRule c !! id = Some r → Forall (not_run (d_eventProcessor c)) (NtfRule.PipelineConfigs r)) →
  notify_by_rule c e id w = Ret (w, []).
Proof.
  intros Hs Hr. unfold notify_by_rule. destruct (d_notifyRule c !! id) as [r|]; [|done].
  destruct (NtfRule.Enable r); [|done]. cbn [negb]. rewrite HandleEventPipeline_skip by auto. cbn [mbind go_bind].
  assert (shouldSkipNotify (Some (FillTagsMap (FE2DB
    (e <| Event.NotifyRuleId := id |> <| Event.NotifyRuleName := NtfRule.Name r |>)))) = true) as ->; [|done].
  exact Hs.
Qed.

(** A recovery with recovery notifications switched off is told to nobody:
    neither by the notification rules, nor by the old scheme, nor by
    subscriptions; unless a pipeline of a notification rule changes the
    event. *)
Theorem HandleEventNotify_silent c e isSubscribe w :
  Event.IsRecovered e = true → Event.NotifyRecovered e = 0 →
  (∀ id r, d_notifyRule c !! id = Some r → Forall (not_run (d_eventProcessor c)) (NtfRule.PipelineConfigs r)) →
  HandleEventNotify c e isSubscribe w = Ret (w, []).
Proof.
  intros Hr Hn Hp. assert (silent e = true) as Hs by (unfold silent; by rewrite Hr, Hn).
  unfold HandleEventNotify, notify_event.
  assert (HandleEventWithNotifyRule c e w = Ret (w, [])) as ->.
  { unfold HandleEventWithNotifyRule. induction (Event.NotifyRuleIds e) as [|id ids IH]; [done|].
    cbn [notify_by_rules]. rewrite notify_by_rule_silent by eauto. cbn. by rewrite IH. }
  cbn. unfold silent in Hs. by rewrite Hs.
Qed.

(** The sends of the old scheme in an output. *)
Definition sends (out : list dispatch_output) : list (AlertCurEvent * bool) :=
  omap (λ o, match o with Send _ e _ b => Some (e, b) | _ => None end) out.

Lemma sends_app a b : sends (a ++ b) = (sends a ++ sends b)%list.
Proof. apply omap_app. Qed.

Lemma notify_configs_sends c id e cfgs out : notify_configs c id e cfgs = Ret out → sends out = [].
Proof.
  revert out. induction cfgs as [|cfg cfgs IH]; intros out; cbn [notify_configs]; [by intros ->%Ret_inj|].
  intros (o & Ho & (os & Hos & ->%Ret_inj)%go_bind_Ret)%go_bind_Ret. rewrite sends_app, (IH _ Hos), app_nil_r.
  unfold notify_config in Ho. apply go_bind_Ret in Ho as (err & _ & Ho).
  repeat case_match; apply Ret_inj in Ho; by subst o.
Qed.

Lemma HandleEventWithNotifyRule_sends c e w w' out :
  HandleEventWithNotifyRule c e w = Ret (w', out) → sends out = [].
Proof.
  unfold HandleEventWithNotifyRule. revert w out. induction (Event.NotifyRuleIds e) as [|id ids IH]; intros w out.
  { cbn [notify_by_rules]. intros Hr%Ret_inj. by injection Hr as -> ->. }
  cbn [notify_by_rules]. intros ([w1 o] & Ho & ([w2 os] & Hos & Hr%Ret_inj)%go_bind_Ret)%go_bind_Ret.
  injection Hr as -> ->. rewrite sends_app, (IH _ _ Hos), app_nil_r. clear IH Hos.
  assert (∀ out : list pipeline_output, sends (map Pipeline out) = []) as Hpipe by (induction out; done).
  unfold notify_by_rule in Ho. destruct (d_notifyRule c !! id) as [r|].
  2: { apply Ret_inj in Ho. by injection Ho as -> ->. }
  destruct (negb _); [apply Ret_inj in Ho; by injection Ho as -> ->|].
  apply go_bind_Ret in Ho as ([[w3 e3] o3] & _ & Ho). destruct e3 as [e3|].
  2: { apply Ret_inj in Ho. injection Ho as -> ->. apply Hpipe. }
  destruct (shouldSkipNotify _); [apply Ret_inj in Ho; injection Ho as -> ->; apply Hpipe|].
  apply go_bind_Ret in Ho as (os' & Hc & Ho). apply Ret_inj in Ho. injection Ho as -> ->.
  by rewrite sends_app, Hpipe, (notify_configs_sends _ _ _ _ _ Hc).
Qed.

Lemma notify_event_sends c e b w w' next out :
  notify_event c e b w = Ret (w', next, out) →
  sends out = (if silent e || bool_decide (d_alertRule c !! Event.RuleId e = None) then [] else [(fillUsers c e, b)]) ∧
  next = if silent e || bool_decide (d_alertRule c !! Event.RuleId e = None) then None else Some (fillUsers c e).
Proof.
  unfold notify_event. intros ([w1 o] & Ho & Hr)%go_bind_Ret.
  apply HandleEventWithNotifyRule_sends in Ho. fold (silent e) in Hr. destruct (silent e).
  { apply Ret_inj in Hr. injection Hr as -> -> ->. done. }
  destruct (d_alertRule c !! Event.RuleId e) as [r|]; apply Ret_inj in Hr; injection Hr as -> -> ->.
  - rewrite sends_app, Ho. done.
  - done.
Qed.

(** The subscription forwards the event. *)
Definition forwards (e : AlertCurEvent) (s : AlertSubscribe) : bool :=
  match sub_matches s e with Ret b => b | Panic => false end.

Lemma sub_event_kept s e :
  silent (sub_event s e) = silent e ∧ Event.RuleId (sub_event s e) = Event.RuleId e.
Proof.
  unfold silent, sub_event, ModifyEvent.
  destruct (Subscribe.RedefineSeverity s =? 1), (Subscribe.RedefineChannels s =? 1),
    (Subscribe.RedefineWebhooks s =? 1); split; reflexivity.
Qed.

Lemma forwarded_sends c e w w' next out rule :
  notify_event c e true w = Ret (w', next, out) → silent e = false →
  d_alertRule c !! Event.RuleId e = Some rule → sends out = [(fillUsers c e, true)].
Proof. intros Hn Hs Hr. apply notify_event_sends in Hn as [Hn _]. by rewrite Hs, Hr in Hn. Qed.

Lemma handleSub_sends c s e w w' out rule :
  handleSub c s e w = Ret (w', out) → silent e = false → d_alertRule c !! Event.RuleId e = Some rule →
  sends out = if forwards e s then [(fillUsers c (sub_event s e), true)] else [].
Proof.
  intros Ho Hs Hr. unfold handleSub in Ho. apply go_bind_Ret in Ho as (m & Hm & Ho).
  unfold forwards. rewrite Hm. destruct m.
  - apply go_bind_Ret in Ho as ([[w3 next] o'] & Hn & Ho). apply Ret_inj in Ho. injection Ho as -> ->.
    destruct (sub_event_kept s e) as [Es Er].
    apply (forwarded_sends _ _ _ _ _ _ rule Hn); [by rewrite Es | by rewrite Er].
  - apply Ret_inj in Ho. by injection Ho as -> ->.
Qed.

Lemma handle_subs_sends c subs e w w' out rule :
  handle_subs c subs e w = Ret (w', out) → silent e = false → d_alertRule c !! Event.RuleId e = Some rule →
  sends out = map (λ s, (fillUsers c (sub_event s e), true)) (filter (λ s, forwards e s = true) subs).
Proof.
  intros Hh Hs Hr. revert w out Hh. induction subs as [|s subs IH]; intros w out; cbn [handle_subs].
  { intros Hret%Ret_inj. by injection Hret as -> ->. }
  intros ([w1 o] & Ho & ([w2 os] & Hos & Hret%Ret_inj)%go_bind_Ret)%go_bind_Ret. injection Hret as -> ->.
  rewrite sends_app, (IH _ _ Hos), filter_cons, (handleSub_sends _ _ _ _ _ _ _ Ho Hs Hr).
  by destruct (forwards e s).
Qed.

(** What a subscription wants: it is enabled, and the event is of its data sources, product,
    category, labels, business groups and severities, and has lasted long enough. *)
Record wants_event (s : AlertSubscribe) (e : AlertCurEvent) : Prop := {
  wa_enabled : Subscribe.Disabled s ≠ 1;
  wa_source : Subscribe.DatasourceIdsJson s = [] ∨ Event.DatasourceId e = 0 ∨
    Event.DatasourceId e ∈ Subscribe.DatasourceIdsJson s ∨ 0 ∈ Subscribe.DatasourceIdsJson s;
  wa_prod : Subscribe.Prod s = "" ∨ Subscribe.Prod s = Event.RuleProd e;
  wa_cate : Subscribe.Cate s = "host" → Event.Cate e = "host";
  wa_tags : MatchTags (Event.TagsMap e) (Subscribe.ITags s) = Ret true;
  wa_groups : MatchGroupsName (Event.GroupName e) (Subscribe.IBusiGroups s) = Ret true;
  wa_duration : Subscribe.ForDuration s ≤ i64 (Event.TriggerTime e - Event.FirstTriggerTime e);
  wa_severity : Subscribe.SeveritiesJson s = [] ∨ Event.Severity e ∈ Subscribe.SeveritiesJson s ∨ 0 ∈ Subscribe.SeveritiesJson s
}.

(** A list of numbers where none, or 0, stands for all. *)
Lemma listed_or_all (l : list Z) x :
  (length l =? 0)%nat || existsb (λ y, (y =? x) || (y =? 0)) l = true ↔ l = [] ∨ x ∈ l ∨ 0 ∈ l.
Proof.
  rewrite orb_true_iff, existsb_elem_of, Nat.eqb_eq, length_zero_iff_nil. split.
  - intros [->|(y & Hy & E)]; [by left|]. apply orb_true_iff in E as [->%Z.eqb_eq| ->%Z.eqb_eq]; auto.
  - intros [->|[Hx|H0]]; [by left|right; exists x; by rewrite Z.eqb_refl|right; exists 0; by rewrite Z.eqb_refl, orb_true_r].
Qed.

Lemma forwards_wants e s : forwards e s = true ↔ wants_event s e.
Proof.
  assert (MatchCluster s (Event.DatasourceId e) = true ↔ Subscribe.DatasourceIdsJson s = [] ∨ Event.DatasourceId e = 0 ∨
    Event.DatasourceId e ∈ Subscribe.DatasourceIdsJson s ∨ 0 ∈ Subscribe.DatasourceIdsJson s) as Hds.
  { pose proof (listed_or_all (Subscribe.DatasourceIdsJson s) (Event.DatasourceId e)) as Hl. unfold MatchCluster.
    destruct (_ =? 0)%nat, (Z.eqb_spec (Event.DatasourceId e) 0); cbn [orb] in *; naive_solver. }
  assert (MatchProd s (Event.RuleProd e) = true ↔ Subscribe.Prod s = "" ∨ Subscribe.Prod s = Event.RuleProd e) as Hp.
  { unfold MatchProd. destruct (String.eqb_spec (Subscribe.Prod s) ""); [naive_solver|]. rewrite String.eqb_eq. naive_solver. }
  assert (MatchCate s (Event.Cate e) = true ↔ (Subscribe.Cate s = "host" → Event.Cate e = "host")) as Hc.
  { unfold MatchCate. destruct (String.eqb_spec (Subscribe.Cate s) "") as [->|]; [naive_solver|].
    destruct (String.eqb_spec (Subscribe.Cate s) "host"); [rewrite String.eqb_eq|]; naive_solver. }
  unfold forwards, sub_matches, IsDisabled. split.
  - destruct (Z.eqb_spec (Subscribe.Disabled s) 1) as [|Hd]; [done|].
    destruct (MatchCluster _ _); [|done]. destruct (MatchProd _ _); [|done]. destruct (MatchCate _ _); [|done]. cbn [negb orb].
    destruct (MatchTags _ _) as [[]|] eqn:Ht; [|done|done]. cbn [mbind go_bind negb].
    destruct (MatchGroupsName _ _) as [[]|] eqn:Hg; [|done|done]. cbn [mbind go_bind negb].
    destruct (Z.ltb_spec (i64 (Event.TriggerTime e - Event.FirstTriggerTime e)) (Subscribe.ForDuration s)); [done|].
    intros Hs%listed_or_all. split; try done; first [by apply Hds|by apply Hp|by apply Hc].
  - intros [Hd H1%Hds H2%Hp H3%Hc Ht Hg Hdur Hs]. apply Z.eqb_neq in Hd. rewrite Hd, H1, H2, H3, Ht. cbn [negb orb mbind go_bind].
    rewrite Hg. cbn [negb mbind go_bind]. rewrite (proj2 (Z.ltb_ge _ _) Hdur). by apply listed_or_all.
Qed.
#[export] Instance wants_event_dec s e : Decision (wants_event s e).
Proof. destruct (decide (forwards e s = true)) as [H|H]; rewrite forwards_wants in H; [by left|by right]. Defined.

(** C14. What [HandleEventNotify] sends by the scheme of the rule when nothing panics.  A recovery
    of which the rule does not want to be told, and an event of an unknown rule, are not sent.
    Any other event is sent once as itself, and once more for every subscription of its rule
    or of all rules that wants it, as the event the subscription makes of it, in the order of
    the subscriptions; a forwarded event is not offered to subscriptions again. *)
Theorem HandleEventNotify_sends c e w w' out :
  HandleEventNotify c e false w = Ret (w', out) →
  let e' := fillUsers c e in
  let subs := (default [] (d_subscribe c !! Event.RuleId e) ++ default [] (d_subscribe c !! 0))%list in
  sends out =
    match d_alertRule c !! Event.RuleId e with
    | Some _ =>
        if Event.IsRecovered e && (Event.NotifyRecovered e =? 0) then []
        else (e', false) :: map (λ s, (fillUsers c (sub_event s e'), true)) (filter (λ s, wants_event s e') subs)
    | None => []
    end.
Proof.
  intros Hrun e' subs. unfold HandleEventNotify in Hrun. apply go_bind_Ret in Hrun as ([[w1 next] o] & Hn & Hret).
  apply notify_event_sends in Hn as [Ho Hnext]. change (Event.IsRecovered e && (Event.NotifyRecovered e =? 0)) with (silent e).
  destruct (silent e) eqn:Hs; [|destruct (d_alertRule c !! Event.RuleId e) as [rule|] eqn:Hr]; cbn in Ho, Hnext; subst next.
  - apply Ret_inj in Hret. injection Hret as -> ->. rewrite Ho. by destruct (d_alertRule c !! Event.RuleId e).
  - apply go_bind_Ret in Hret as ([w2 os] & Hos & Hret). apply Ret_inj in Hret. injection Hret as -> ->.
    rewrite sends_app, Ho. unfold handleSubs in Hos.
    apply (handle_subs_sends _ _ _ _ _ _ rule) in Hos as ->; [|exact Hs|exact Hr].
    cbn [app]. do 2 f_equal. apply list_filter_iff. intros s. apply forwards_wants.
  - apply Ret_inj in Hret. injection Hret as -> ->. by rewrite Ho.
Qed.
End dispatch_spec.
