(* ===== verification/Consume.v ===== *)
(** * Consuming events: [alert/dispatch/consume.go], [EventPersist] of [models/alert_his_event.go]

    What happens to an event taken from the queue: its templated fields are
    rendered, a recovery is completed with the value of the recovery query, the
    event is written to the history and to the table of current alerts, and it
    is dispatched.  The database is an interface whose promises are those of
    the SQL statements the code issues. *)

From S2P Require Import Prelude GoStrings GoTime Json Models RuleModels EventOps Filter Workflow.
From S2P Require Import Engine Processors RuleOps EventTable Process Subscription Dispatch.
Open Scope string_scope.
Open Scope Z_scope.

(** ** The database *)

(** The two event tables.  A statement fails and changes nothing, or does what
    it says; the history table gives new rows positive ids. *)
Class EventDB (DB : Type) := {
  cur_rows : DB → list AlertCurEvent;
  his_rows : DB → list AlertHisEvent;
  AlertCurEventExists : DB → string → result bool;
  his_Add : DB → AlertHisEvent → result (DB * Z);
  AlertCurEventDelByHash : DB → string → result DB;
  cur_Add : DB → AlertCurEvent → result DB;
  exists_spec : ∀ d h b, AlertCurEventExists d h = Ok b →
    b = existsb (λ r, String.eqb (Event.Hash r) h) (cur_rows d);
  his_Add_spec : ∀ d r d' id, his_Add d r = Ok (d', id) →
    0 < id ∧ cur_rows d' = cur_rows d ∧ his_rows d' = (his_rows d ++ [r <| HisEvent.Id := id |>])%list;
  del_spec : ∀ d h d', AlertCurEventDelByHash d h = Ok d' →
    cur_rows d' = filter (λ r, Event.Hash r ≠ h) (cur_rows d) ∧ his_rows d' = his_rows d;
  cur_Add_spec : ∀ d r d', cur_Add d r = Ok d' →
    cur_rows d' = (cur_rows d ++ [r])%list ∧ his_rows d' = his_rows d
}.

Section persist.
Context {DB : Type} `{DL : EventDB DB}.
Implicit Types (d : DB) (event : AlertCurEvent).

(** Adding the event to the current alerts, when it has an id. *)
Definition add_current (what : string) d event : DB * option error :=
  if 0 <? Event.Id event then
    match cur_Add d event with
    | Err err => (d, Some (what +:+ err))
    | Ok d => (d, None)
    end
  else (d, None).

(** The database and the event after the call, with the error. *)
Definition EventPersist d event : DB * AlertCurEvent * option error :=
  match AlertCurEventExists d (Event.Hash event) with
  | Err err => (d, event, Some ("event_persist_check_exists_fail: " +:+ err +:+ " rule_id="
      +:+ itoa (Event.RuleId event) +:+ " hash=" +:+ Event.Hash event))
  | Ok has =>
      match his_Add d (ToHis event) with
      | Err err => (d, event, Some ("add his event error:" +:+ err))
      | Ok (d, id) =>
          let event' := event <| Event.Id := id |> in
          if has : bool then
            match AlertCurEventDelByHash d (Event.Hash event) with
            | Err err => (d, event, Some ("event_del_cur_fail: " +:+ err +:+ " hash=" +:+ Event.Hash event))
            | Ok d =>
                if Event.IsRecovered event then (d, event', None)
                else let '(d, err) := add_current "add cur event err:" d event' in (d, event', err)
            end
          else if Event.IsRecovered event then (d, event', None)
          else let '(d, err) := add_current "add cur event error:" d event' in (d, event', err)
      end
  end.
End persist.

(** ** The consumer *)

(** Prometheus clients by data source: whether there is one, and its query. *)
Class PromClients := {
  prom_IsNil : Z → bool;
  prom_Query : Z → string → result (option query_value)
}.

(** Posting an event to the center: the id it got. *)
Class Poster := { post_event : AlertCurEvent → result Z }.

Section consume.
Context {World DB : Type} `{RT : Runtime World, GR : GoRange, DL : EventDB DB, PC : PromClients, PO : Poster}.
Context `{TT : TextTemplate, SF : SampleFmt}.
Context `{RG : Regexp, GF : GoFmt, TZ : Location, EF : EventFieldJson, !Json (gmap string iface)}.
Context `{!Json (list NodeExecutionResult), !Json (gmap string string), !Json iface}.

(** The annotations after a change, and the column. *)
Definition store_annotations (event : AlertCurEvent) (m : gmap string string) : AlertCurEvent :=
  match json_marshal m with
  | Err err => event <| Event.AnnotationsJSON := {["error" := "failed to parse annotations: " +:+ err]} |>
  | Ok b => event <| Event.AnnotationsJSON := m |> <| Event.Annotations := b |>
  end.

Definition queryRecoveryVal (event : AlertCurEvent) : AlertCurEvent :=
  if negb (Event.IsRecovered event) then event
  else match Event.AnnotationsJSON event !! "recovery_promql" with
  | None => event
  | Some promql =>
      let promql := trim_space promql in
      if String.eqb promql "" then event
      else if prom_IsNil (Event.DatasourceId event) then event
      else
        let m := Event.AnnotationsJSON event in
        match prom_Query (Event.DatasourceId event) promql with
        | Err err => store_annotations event
            (<["recovery_promql_error" := "promql:" +:+ promql +:+ " error:" +:+ err]> m)
        | Ok value =>
            store_annotations event
              match ConvertAnomalyPoints value with
              | [] => <["recovery_promql_error" := "promql:" +:+ promql +:+ " error:result is empty"]> m
              | pt :: _ => <["recovery_value" := fmt_float (Point.Value pt)]> m
              end
        end
  end.

(** Writing the event: by the center itself, or through it. *)
Definition persist (isCenter : bool) (d : DB) (event : AlertCurEvent) : DB * AlertCurEvent :=
  if negb (Event.Status event =? 0) then (d, event)
  else if isCenter then let '(d, event, _) := EventPersist d event in (d, event)
  else
    let event := fst (DB2FE event) in
    match post_event event with
    | Ok id => (d, event <| Event.Id := id |>)
    | Err _ => (d, event <| Event.Id := 0 |>)
    end.

(** The rendering of the templated fields, with the recovery value. *)
Definition render (event : AlertCurEvent) : AlertCurEvent :=
  let event := match ParseRule event "rule_name" with
               | (e, None) => e
               | (e, Some err) => e <| Event.RuleName := "failed to parse rule name: " +:+ err |>
               end in
  let event := match ParseRule event "annotations" with
               | (e, None) => e
               | (e, Some err) =>
                   let text := "failed to parse annotations: " +:+ err in
                   e <| Event.Annotations := text |>
                     <| Event.AnnotationsJSON := <["error" := text]> (Event.AnnotationsJSON e) |>
               end in
  let event := queryRecoveryVal event in
  match ParseRule event "rule_note" with
  | (e, None) => e
  | (e, Some err) => e <| Event.RuleNote := "failed to parse rule note: " +:+ err |>
  end.

Definition consumeOne (isCenter : bool) (c : dcaches) (d : DB) (event : AlertCurEvent) (w : World)
  : go (World * DB * AlertCurEvent * list dispatch_output) :=
  let event := render event in
  let '(d, event) := persist isCenter d event in
  '(w, out) ← HandleEventNotify c event false w;
  Ret (w, d, event, out).
End consume.

(** ** Properties *)

Section persist_spec.
Context {DB : Type} `{DL : EventDB DB}.
Implicit Types (d : DB) (event : AlertCurEvent).

(** At most one current row per hash. *)
Definition one_per_hash d : Prop := NoDup (map Event.Hash (cur_rows d)).

Lemma add_current_spec what d event d' err :
  add_current what d event = (d', err) → 0 < Event.Id event →
  his_rows d' = his_rows d ∧
  (err = None ∧ cur_rows d' = (cur_rows d ++ [event])%list ∨ err ≠ None ∧ d' = d).
Proof.
  unfold add_current. intros Ha Hid. rewrite (proj2 (Z.ltb_lt _ _)) in Ha by done.
  destruct (cur_Add d event) as [d1|] eqn:Ec; injection Ha as <- <-; [|naive_solver].
  destruct (cur_Add_spec _ _ _ Ec) as [-> ->]. naive_solver.
Qed.

(** The rows of other alerts. *)
Definition others (h : string) d : list AlertCurEvent := filter (λ r, Event.Hash r ≠ h) (cur_rows d).

(** What the rows are once the history row is written: the others, and the
    event when it fires and was added. *)
Lemma EventPersist_cases d event d' event' err :
  EventPersist d event = (d', event', err) →
  (cur_rows d' = cur_rows d ∧ err ≠ None) ∨
  (∃ id, event' = event <| Event.Id := id |> ∧ 0 < id ∧
     his_rows d' = (his_rows d ++ [(ToHis event) <| HisEvent.Id := id |>])%list ∧
     (cur_rows d' = others (Event.Hash event) d ∧ (err = None → Event.IsRecovered event = true) ∨
      cur_rows d' = (others (Event.Hash event) d ++ [event'])%list ∧ Event.IsRecovered event = false)).
Proof.
  unfold EventPersist. destruct (AlertCurEventExists d _) as [has|] eqn:Eh.
  2: { intros [= <- <- <-]. by left. }
  destruct (his_Add d (ToHis event)) as [[d1 id]|] eqn:Ea.
  2: { intros [= <- <- <-]. by left. }
  destruct (his_Add_spec _ _ _ _ Ea) as (Hid & Hc1 & Hh1). apply exists_spec in Eh. cbv zeta.
  remember (event <| Event.Id := id |>) as ev' eqn:Hev.
  assert (0 < Event.Id ev') as Hid' by (by rewrite Hev).
  assert (∀ what d2, cur_rows d2 = others (Event.Hash event) d → his_rows d2 = his_rows d1 →
    (if Event.IsRecovered event then (d2, ev', None)
     else let '(d, err) := add_current what d2 ev' in (d, ev', err)) = (d', event', err) →
    ∃ id, event' = event <| Event.Id := id |> ∧ 0 < id ∧
     his_rows d' = (his_rows d ++ [(ToHis event) <| HisEvent.Id := id |>])%list ∧
     (cur_rows d' = others (Event.Hash event) d ∧ (err = None → Event.IsRecovered event = true) ∨
      cur_rows d' = (others (Event.Hash event) d ++ [event'])%list ∧ Event.IsRecovered event = false)) as Hend.
  { intros what d2 Hd2 Hh2 Hx. exists id. destruct (Event.IsRecovered event) eqn:Hrec.
    - injection Hx as <- <- <-. split_and!; [done..|congruence|]. by left.
    - destruct (add_current what d2 ev') as [d3 e3] eqn:Hac. apply add_current_spec in Hac as [Hh Hac]; [|done].
      injection Hx as <- <- <-. split_and!; [done..|congruence|].
      destruct Hac as [[-> Hr]|[He ->]]; [right; by rewrite Hr, Hd2|left; by split]. }
  destruct has.
  - destruct (AlertCurEventDelByHash d1 _) as [d2|] eqn:Ed.
    2: { intros [= <- <- <-]. left. by rewrite Hc1. }
    destruct (del_spec _ _ _ Ed) as [Hc2 Hh2]. rewrite Hc1 in Hc2. intros Hx. right. by eapply Hend.
  - intros Hx. right. eapply Hend; [|done|exact Hx]. rewrite Hc1. unfold others.
    symmetry in Eh. rewrite existsb_false_elem_of in Eh. symmetry. apply list_filter_all.
    intros r Hr. by apply String.eqb_neq, Eh.
Qed.

Lemma elem_of_others h d r : r ∈ others h d → Event.Hash r ≠ h.
Proof. unfold others. by intros [? _]%list_elem_of_filter. Qed.

Lemma others_NoDup h d : one_per_hash d → NoDup (map Event.Hash (others h d)).
Proof.
  unfold one_per_hash, others. induction (cur_rows d) as [|r rows IH]; [done|]. intros Hnd. csimpl in Hnd.
  apply NoDup_cons in Hnd as [Hr Hnd]. rewrite filter_cons. case_decide; [|auto]. csimpl. constructor; [|auto].
  intros (r' & Heq & [_ Hr']%list_elem_of_filter)%list_elem_of_fmap. apply Hr. rewrite Heq. by apply list_elem_of_fmap_2.
Qed.

(** Whatever the statements return, errors included, the table of current
    alerts keeps at most one row per hash. *)
Theorem EventPersist_unique d event d' event' err :
  EventPersist d event = (d', event', err) → one_per_hash d → one_per_hash d'.
Proof.
  intros Hp Hone. destruct (EventPersist_cases _ _ _ _ _ Hp) as [[Hc _]|(id & -> & _ & _ & [[Hc _]|[Hc _]])].
  - unfold one_per_hash. by rewrite Hc.
  - unfold one_per_hash. rewrite Hc. by apply others_NoDup.
  - unfold one_per_hash. rewrite Hc, map_app. apply NoDup_app. split_and!; [by apply others_NoDup| |apply NoDup_singleton].
    intros h (r & -> & Hr%elem_of_others)%list_elem_of_fmap Hin. apply list_elem_of_singleton in Hin. done.
Qed.

Lemma EventPersist_ok d event d' event' :
  EventPersist d event = (d', event', None) →
  cur_rows d' = (others (Event.Hash event) d ++ (if Event.IsRecovered event then [] else [event']))%list ∧
  ∃ id, 0 < id ∧ event' = event <| Event.Id := id |> ∧
    his_rows d' = (his_rows d ++ [(ToHis event) <| HisEvent.Id := id |>])%list.
Proof.
  intros Hp. destruct (EventPersist_cases _ _ _ _ _ Hp) as [[_ Hc]|(id & He & Hid & Hh & Hc)]; [done|].
  split; [|by exists id]. destruct Hc as [[-> Hr]|[-> ->]]; [|done]. rewrite Hr by done. by rewrite app_nil_r.
Qed.

(** Without an error, the current table has exactly the event, with the id of
    its history row, when the event fires, and no row of its hash when it is a
    recovery; other alerts keep their rows, and the history gets one row. *)
Theorem EventPersist_spec d event d' event' :
  EventPersist d event = (d', event', None) →
  cur_rows d' = (others (Event.Hash event) d ++ (if Event.IsRecovered event then [] else [event']))%list ∧
  ∃ id, 0 < id ∧ event' = event <| Event.Id := id |> ∧
    his_rows d' = (his_rows d ++ [(ToHis event) <| HisEvent.Id := id |>])%list.
Proof. apply EventPersist_ok. Qed.
End persist_spec.

Section consume_spec.
Context {World DB : Type} `{RT : Runtime World, GR : GoRange, DL : EventDB DB, PC : PromClients, PO : Poster}.
Context `{TT : TextTemplate, SF : SampleFmt}.
Context `{RG : Regexp, GF : GoFmt, TZ : Location, EF : EventFieldJson, !Json (gmap string iface)}.
Context `{!Json (list NodeExecutionResult), !Json (gmap string string), !Json iface}.

(** What rendering never changes. *)
Definition alert_of (e : AlertCurEvent) : string * bool * Z * Z * Z :=
  (Event.Hash e, Event.IsRecovered e, Event.Status e, Event.RuleId e, Event.Severity e).

Lemma render_annotations_alert l e : alert_of (foldl render_annotation e l) = alert_of e.
Proof.
  revert e. induction l as [|[k v] l IH]; intros e; [done|]. cbn [foldl]. rewrite IH.
  unfold render_annotation. destruct (tpl_parse _ _ _); [done|]. by destruct (tpl_execute _ _ _ _).
Qed.

Lemma parse_annotations_alert e : alert_of (parse_annotations e) = alert_of e.
Proof.
  unfold parse_annotations. destruct (json_unmarshal _ _) as [m err].
  set (e1 := match err with None => _ | Some _ => _ end).
  assert (alert_of e1 = alert_of e) as <- by (unfold e1; by destruct err). clearbody e1.
  rewrite <- (render_annotations_alert (go_range (Event.AnnotationsJSON e1)) e1).
  set (e2 := foldl _ _ _).
  clearbody e2. by destruct (json_marshal _).
Qed.

Lemma ParseRule_alert e field : alert_of (fst (ParseRule e field)) = alert_of e.
Proof.
  unfold ParseRule. destruct (String.eqb _ ""); [done|].
  destruct (String.eqb field "annotations"); [apply parse_annotations_alert|].
  destruct (tpl_parse _ _ _); [done|]. destruct (tpl_execute _ _ _ _); [|done]. cbn [fst].
  by destruct (String.eqb field "rule_name"), (String.eqb field "rule_note").
Qed.

Lemma queryRecoveryVal_alert e : alert_of (queryRecoveryVal e) = alert_of e.
Proof.
  unfold queryRecoveryVal. destruct (negb _); [done|]. destruct (_ !! "recovery_promql"); [|done].
  destruct (String.eqb _ ""); [done|]. destruct (prom_IsNil _); [done|].
  assert (∀ m, alert_of (store_annotations e m) = alert_of e) as Hs
    by (intros m; unfold store_annotations; by destruct (json_marshal m)).
  destruct (prom_Query _ _); apply Hs.
Qed.

Lemma render_alert e : alert_of (render e) = alert_of e.
Proof.
  unfold render.
  pose proof (ParseRule_alert e "rule_name") as <-. destruct (ParseRule e "rule_name") as [e1 err1]. cbn [fst].
  set (e1' := match err1 with None => e1 | Some _ => _ end).
  assert (alert_of e1' = alert_of e1) as <- by (unfold e1'; by destruct err1). clearbody e1'.
  pose proof (ParseRule_alert e1' "annotations") as <-. destruct (ParseRule e1' "annotations") as [e2 err2]. cbn [fst].
  set (e2' := match err2 with None => e2 | Some _ => _ end).
  assert (alert_of e2' = alert_of e2) as <- by (unfold e2'; by destruct err2). clearbody e2'.
  rewrite <- (queryRecoveryVal_alert e2'). set (e3 := queryRecoveryVal e2'). clearbody e3.
  pose proof (ParseRule_alert e3 "rule_note") as <-. destruct (ParseRule e3 "rule_note") as [e4 err4]. cbn [fst].
  by destruct err4.
Qed.

(** Consuming an event on the center, when the statements succeed and however
    the templates and the recovery query turn out: the current table has
    exactly one row of a firing alert, the event that is then dispatched, and
    none of a recovered one. *)
Theorem consumeOne_persisted c (d d' : DB) e e' w w' out :
  consumeOne (World := World) true c d e w = Ret (w', d', e', out) → Event.Status e = 0 →
  snd (EventPersist d (render e)) = None →
  filter (λ r, Event.Hash r = Event.Hash e) (cur_rows d') = (if Event.IsRecovered e then [] else [e']) ∧
  Event.Hash e' = Event.Hash e ∧ HandleEventNotify c e' false w = Ret (w', out).
Proof.
  intros Hc Hst Hok. unfold consumeOne, persist in Hc.
  pose proof (render_alert e) as Ha. set (r := render e) in *. clearbody r. unfold alert_of in Ha.
  injection Ha as Hh Hr Hs _ _. rewrite Hs, Hst in Hc. cbn [Z.eqb negb] in Hc.
  destruct (EventPersist d r) as [[d1 e1] err] eqn:Hp. cbn [snd] in Hok. subst err.
  apply go_bind_Ret in Hc as ([w1 o] & Hn & Hret). apply Ret_inj in Hret. injection Hret as -> -> -> ->.
  destruct (EventPersist_ok _ _ _ _ Hp) as (Hrows & id & _ & He1 & _). rewrite Hrows, Hh, Hr.
  assert (Event.Hash e1 = Event.Hash e) as He by (rewrite He1; exact Hh). split; [|done].
  rewrite filter_app. replace (filter (λ r, Event.Hash r = Event.Hash e) (others (Event.Hash e) d))
    with (@nil AlertCurEvent).
  - cbn [app]. destruct (Event.IsRecovered e); [done|]. by rewrite filter_cons, decide_True.
  - symmetry. apply list_filter_none. by intros x Hx%elem_of_others.
Qed.
End consume_spec.
