(* ===== verification/Naming.v ===== *)
(** * Sharding rules over the alerting engines

    The engines of a cluster register in a table with a clock
    (models/alerting_engine.go), read the live ones back, and keep a consistent
    hash ring per data source and one for host rules
    (alert/naming/heartbeat.go, hashring.go); a rule belongs to the engine its
    ring gives for it.  The smallest live engine is the leader (leader.go). *)

From S2P Require Import Prelude GoStrings.
Open Scope string_scope.
Open Scope Z_scope.

(** ** Consistent hashing

    [github.com/toolkits/pkg/consistent]: a ring with its members.  [Get]
    fails on an empty ring with a known error, and otherwise gives a member. *)
Definition ErrEmptyCircle : error := "empty circle".

Class ConsistentLib := {
  ring : Type;
  ring_New : Z → ring;
  ring_Add : ring → string → ring;
  ring_Members : ring → list string;
  ring_Get : ring → string → result string;
  ring_New_Members : ∀ n, ring_Members (ring_New n) = [];
  ring_Add_Members : ∀ r x y, y ∈ ring_Members (ring_Add r x) ↔ y = x ∨ y ∈ ring_Members r;
  ring_Get_empty : ∀ r pk, ring_Members r = [] → ring_Get r pk = Err ErrEmptyCircle;
  ring_Get_member : ∀ r pk, ring_Members r ≠ [] → ∃ x, ring_Get r pk = Ok x ∧ x ∈ ring_Members r
}.

(** ** The table of engines *)

(** [AlertingEngines] (models/alerting_engine.go). *)
Module Engines.
Record AlertingEngines := mkAlertingEngines {
  Id : Z;
  Instance_ : string;
  EngineCluster : string;
  DatasourceId : Z;
  Clock : Z
}.
#[global] Instance AlertingEngines_eta : Settable AlertingEngines := λ r,
  mkAlertingEngines (Id r) (Instance_ r) (EngineCluster r) (DatasourceId r) (Clock r).
End Engines.
Notation AlertingEngines := Engines.AlertingEngines.

(** The key that a heartbeat looks for. *)
Definition same_engine (instance cluster : string) (datasourceId : Z) (e : AlertingEngines) : bool :=
  String.eqb (Engines.Instance_ e) instance && String.eqb (Engines.EngineCluster e) cluster
  && (Engines.DatasourceId e =? datasourceId).

(** The statements on the table; each can fail, and then changes nothing.
    [et_datasources] is the query on the table of data sources. *)
Class EngineTable (T : Type) := {
  et_rows : T → list AlertingEngines;
  et_Count : T → (AlertingEngines → bool) → result nat;
  et_Create : T → AlertingEngines → result T;
  et_Updates : T → (AlertingEngines → bool) → Z → result T;
  et_Delete : T → (AlertingEngines → bool) → result T;
  et_Pluck : T → (AlertingEngines → bool) → result (list string);
  et_datasources : T → string → result (list Z);
  et_Count_spec : ∀ t p n, et_Count t p = Ok n → n = length (List.filter p (et_rows t));
  et_Create_spec : ∀ t e t', et_Create t e = Ok t' → ∃ id, et_rows t' = (et_rows t ++ [e <| Engines.Id := id |>])%list;
  et_Updates_spec : ∀ t p c t', et_Updates t p c = Ok t' →
    et_rows t' = map (λ e, if p e then e <| Engines.Clock := c |> else e) (et_rows t);
  et_Delete_spec : ∀ t p t', et_Delete t p = Ok t' → et_rows t' = List.filter (negb ∘ p) (et_rows t);
  et_Pluck_spec : ∀ t p l, et_Pluck t p = Ok l →
    l ≡ₚ map Engines.Instance_ (List.filter p (et_rows t))
}.

(** What an engine that is not the center asks the center for. *)
Class CenterApi (T : Type) := {
  post_heartbeat : T → string → string → Z → T * option error;
  get_datasource_ids : T → string → result (list Z);
  get_servers_by_datasource : T → Z → result (list string);
  get_servers_by_engine : T → string → result (list string)
}.

Definition HostDatasource : Z := 99999999.
Definition NodeReplicas : Z := 500.

Section naming.
Context {T : Type} `{ET : EngineTable T, CA : CenterApi T, GR : GoRange, CH : ConsistentLib}.
Implicit Types (t : T) (now ds : Z).

Definition AlertingEngineHeartbeatWithCluster (isCenter : bool) t (instance cluster : string) ds now
  : T * option error :=
  if negb isCenter then post_heartbeat t instance cluster ds
  else match et_Count t (same_engine instance cluster ds) with
  | Err err => (t, Some err)
  | Ok total =>
      match (if (total =? 0)%nat
             then et_Create t (Engines.mkAlertingEngines 0 instance cluster ds now)
             else et_Updates t (same_engine instance cluster ds) now) with
      | Err err => (t, Some err)
      | Ok t' => (t', None)
      end
  end.

Definition GetDatasourceIdsByEngineName (isCenter : bool) t (engineName : string) : result (list Z) :=
  if negb isCenter then get_datasource_ids t engineName else et_datasources t engineName.

(** Alive means a heartbeat within 30 seconds. *)
Definition ActiveServers (isCenter : bool) t ds now : result (list string) :=
  if ds =? -1 then Err "cluster is empty"
  else if negb isCenter then get_servers_by_datasource t ds
  else et_Pluck t (λ e, (Engines.DatasourceId e =? ds) && (now - 30 <? Engines.Clock e)).

Definition ActiveServersByEngineName (isCenter : bool) t (engineName : string) now : result (list string) :=
  if negb isCenter then get_servers_by_engine t engineName
  else et_Pluck t (λ e, String.eqb (Engines.EngineCluster e) engineName && (now - 30 <? Engines.Clock e)).

Definition DeleteInactiveInstances t now : T :=
  match et_Delete t (λ e, Engines.Clock e <? now - 600) with Ok t' => t' | Err _ => t end.

(** ** The rings of an engine *)

Definition NewConsistentHashRing (replicas : Z) (nodes : list string) : ring :=
  foldl ring_Add (ring_New replicas) nodes.

Notation rings := (gmap string ring).

Definition RebuildConsistentHashRing (rs : rings) (datasourceId : string) (nodes : list string) : rings :=
  <[datasourceId := NewConsistentHashRing NodeReplicas nodes]> rs.

(** A missing ring is created, empty. *)
Definition GetNode (rs : rings) (datasourceId pk : string) : rings * result string :=
  match rs !! datasourceId with
  | Some r => (rs, ring_Get r pk)
  | None => let r := NewConsistentHashRing NodeReplicas [] in (<[datasourceId := r]> rs, ring_Get r pk)
  end.

Definition IsHit (rs : rings) (datasourceId pk currentNode : string) : rings * bool :=
  match GetNode rs datasourceId pk with
  | (rs, Err _) => (rs, false)
  | (rs, Ok node) => (rs, String.eqb node currentNode)
  end.

Definition Rings_Clear (rs : rings) (engineName : string) : rings :=
  foldl (λ m kr, if String.eqb (fst kr) engineName then m else delete (fst kr) m) rs (go_range rs).

(** ** The heartbeat *)

(** The configuration of an engine, and the variables of the package. *)
Record nconf := mkNconf { n_IsCenter : bool; n_Endpoint : string; n_EngineName : string }.

Record nstate := mkNstate {
  n_localss : gmap Z string;
  n_localHostServers : gmap string string;
  n_rings : rings
}.
#[global] Instance nstate_eta : Settable nstate := λ r,
  mkNstate (n_localss r) (n_localHostServers r) (n_rings r).
Implicit Types (s : nstate) (cf : nconf).

(** Registering, for every data source, or for none; errors are counted. *)
Definition beat cf now t ds : T :=
  fst (AlertingEngineHeartbeatWithCluster (n_IsCenter cf) t (n_Endpoint cf) (n_EngineName cf) ds now).

Definition beats cf now t (ids : list Z) : T :=
  match ids with [] => beat cf now t 0 | _ => foldl (beat cf now) t ids end.

(** The ring of one data source, rebuilt when its servers changed. *)
Definition refresh_ds cf now t s ds : nstate :=
  match ActiveServers (n_IsCenter cf) t ds now with
  | Err _ => s
  | Ok servers =>
      let servers := sort_strings servers in
      let newss := join servers " " in
      if bool_decide (n_localss s !! ds = Some newss) then s
      else s <| n_rings := RebuildConsistentHashRing (n_rings s) (itoa ds) servers |>
             <| n_localss := <[ds := newss]> (n_localss s) |>
  end.

(** Data sources that are no longer ours. *)
Definition drop_ds (ids : list Z) s : nstate :=
  foldl (λ s dn, if bool_decide (fst dn ∈ ids) then s
                 else s <| n_localss := delete (fst dn) (n_localss s) |>
                        <| n_rings := delete (itoa (fst dn)) (n_rings s) |>) s (go_range (n_localss s)).

(** The ring of the host rules. *)
Definition refresh_host cf now t s : nstate :=
  match ActiveServersByEngineName (n_IsCenter cf) t (n_EngineName cf) now with
  | Err _ => s
  | Ok servers =>
      let servers := sort_strings servers in
      let newss := join servers " " in
      if bool_decide (n_localHostServers s !! n_EngineName cf = Some newss) then s
      else s <| n_rings := RebuildConsistentHashRing (n_rings s) (n_EngineName cf) servers |>
             <| n_localHostServers := <[n_EngineName cf := newss]> (n_localHostServers s) |>
  end.

Definition heartbeat cf now t s : T * nstate * option error :=
  match GetDatasourceIdsByEngineName (n_IsCenter cf) t (n_EngineName cf) with
  | Err err => (t, s, Some err)
  | Ok ids =>
      let t := beats cf now t ids in
      let s := if (length ids =? 0)%nat
               then s <| n_rings := Rings_Clear (n_rings s) (n_EngineName cf) |> <| n_localss := ∅ |>
               else s in
      let s := foldl (refresh_ds cf now t) s ids in
      let s := drop_ds ids s in
      let t := beat cf now t HostDatasource in
      (t, refresh_host cf now t s, None)
  end.

(** The start of an engine: the loops are started only after a first heartbeat
    that works. *)
Definition Heartbeats cf now t : T * nstate * bool :=
  match heartbeat cf now t (mkNstate ∅ ∅ ∅) with
  | (t, s, Some _) => (t, s, false)
  | (t, s, None) => (t, s, true)
  end.

(** [IamLeader]; reading [servers[0]] after the length test. *)
Definition IamLeader cf now t : bool :=
  if negb (n_IsCenter cf) then false
  else match ActiveServersByEngineName (n_IsCenter cf) t (n_EngineName cf) now with
  | Err _ => false
  | Ok servers =>
      match sort_strings servers with
      | [] => false
      | s0 :: _ => String.eqb (n_Endpoint cf) s0
      end
  end.
End naming.

(** ** Properties *)

Section ring_spec.
Context `{CH : ConsistentLib, GR : GoRange}.

Lemma NewConsistentHashRing_Members n nodes x :
  x ∈ ring_Members (NewConsistentHashRing n nodes) ↔ x ∈ nodes.
Proof.
  unfold NewConsistentHashRing.
  assert (∀ r, x ∈ ring_Members (foldl ring_Add r nodes) ↔ x ∈ nodes ∨ x ∈ ring_Members r) as Hg.
  { induction nodes as [|y nodes IH]; intros r; cbn [foldl]; [set_solver|].
    rewrite IH, ring_Add_Members. set_solver. }
  rewrite Hg, ring_New_Members. set_solver.
Qed.

(** A ring gives every key to one of its nodes. *)
Lemma ring_owner n nodes pk :
  nodes ≠ [] → ∃ e, e ∈ nodes ∧ ring_Get (NewConsistentHashRing n nodes) pk = Ok e.
Proof.
  intros Hne. destruct (ring_Get_member (NewConsistentHashRing n nodes) pk) as (e & He & Hin).
  - intros Hm. destruct nodes as [|x nodes]; [done|].
    pose proof (proj2 (NewConsistentHashRing_Members n (x :: nodes) x) (list_elem_of_here _ _)) as Hx.
    rewrite Hm in Hx. by apply not_elem_of_nil in Hx.
  - exists e. split; [|done]. by apply NewConsistentHashRing_Members in Hin.
Qed.

Lemma GetNode_rings (rs : gmap string ring) key pk :
  fst (GetNode rs key pk) = rs ∨
  rs !! key = None ∧ fst (GetNode rs key pk) = <[key := NewConsistentHashRing NodeReplicas []]> rs.
Proof. unfold GetNode. destruct (rs !! key); auto. Qed.

Lemma IsHit_Some (rs : gmap string ring) key pk r e node :
  rs !! key = Some r → ring_Get r pk = Ok node → snd (IsHit rs key pk e) = String.eqb node e.
Proof. intros Hr Hn. unfold IsHit, GetNode. by rewrite Hr, Hn. Qed.

Lemma IsHit_inv (rs : gmap string ring) key pk e :
  snd (IsHit rs key pk e) = true → ∃ r, rs !! key = Some r ∧ e ∈ ring_Members r.
Proof.
  unfold IsHit, GetNode. destruct (rs !! key) as [r|] eqn:Hr.
  - destruct (ring_Get r pk) as [node|] eqn:Hg; [|done]. cbn [snd]. intros ->%String.eqb_eq. exists r.
    split; [done|]. destruct (decide (ring_Members r = [])) as [Hm|Hm].
    + by rewrite ring_Get_empty in Hg.
    + destruct (ring_Get_member r pk Hm) as (x & Hx & Hin). congruence.
  - rewrite ring_Get_empty; [done|]. apply ring_New_Members.
Qed.

Lemma Rings_Clear_lookup (rs : gmap string ring) engine key :
  Rings_Clear rs engine !! key = if String.eqb key engine then rs !! key else None.
Proof.
  unfold Rings_Clear.
  assert (∀ (l : list (string * ring)) m, foldl (λ (m : gmap string ring) kr, if String.eqb (fst kr) engine then m else delete (fst kr) m) m l !! key
    = if String.eqb key engine then m !! key else if decide (key ∈ l.*1) then None else m !! key) as Hg.
  { induction l as [|[k r] l IH]; intros m; cbn [foldl fst].
    { by destruct (String.eqb key engine). }
    rewrite IH. csimpl. destruct (String.eqb_spec key engine) as [->|Hk].
    - destruct (String.eqb_spec k engine) as [|Hne]; [done|]. by rewrite lookup_delete_ne.
    - destruct (decide (key = k)) as [->|Hne].
      + apply String.eqb_neq in Hk. rewrite Hk, lookup_delete_eq.
        rewrite (decide_True (P := k ∈ k :: l.*1)) by apply list_elem_of_here. by case_match.
      + assert ((if String.eqb k engine then m else delete k m) !! key = m !! key) as ->
          by (destruct (String.eqb k engine); [done|by rewrite lookup_delete_ne]).
        repeat case_decide; set_solver. }
  rewrite Hg. case_match; [done|]. case_decide as Hd; [done|].
  destruct (rs !! key) eqn:E; [|done]. destruct Hd. apply elem_of_fst_go_range. eauto.
Qed.
End ring_spec.

(** Projections of an updated state. *)
Ltac nsimp :=
  repeat progress (cbv [set set_with nstate_eta] in *;
    cbn [n_localss n_localHostServers n_rings] in *).

Section naming_spec.
Context {T : Type} `{ET : EngineTable T, CA : CenterApi T, GR : GoRange, CH : ConsistentLib}.
Variable cf : nconf.
Implicit Types (t : T) (s : nstate) (now ds : Z).

(** Instance names are words, so that the joined names determine the list. *)
Definition plain t : Prop := ∀ e, e ∈ et_rows t → is_word (Engines.Instance_ e) = true.

Definition ring_for (names : string) (r : ring) : Prop :=
  ∃ servers, forallb is_word servers = true ∧ names = join servers " " ∧
             r = NewConsistentHashRing NodeReplicas servers.

(** The remembered server names and the rings agree, and a ring with members
    is that of a data source of the engine or that of the host rules. *)
Record rings_ok s : Prop := {
  ok_ds : ∀ ds names, n_localss s !! ds = Some names → ∃ r, n_rings s !! itoa ds = Some r ∧ ring_for names r;
  ok_host : ∀ names, n_localHostServers s !! n_EngineName cf = Some names →
    ∃ r, n_rings s !! n_EngineName cf = Some r ∧ ring_for names r;
  ok_known : ∀ key r, n_rings s !! key = Some r → ring_Members r ≠ [] →
    key = n_EngineName cf ∨ ∃ ds, key = itoa ds ∧ is_Some (n_localss s !! ds)
}.

Lemma rings_ok_init : rings_ok (mkNstate ∅ ∅ ∅).
Proof. split; cbn; intros ? ?; rewrite ?lookup_empty; done. Qed.

Lemma ring_for_eq names r servers :
  ring_for names r → names = join servers " " → forallb is_word servers = true →
  r = NewConsistentHashRing NodeReplicas servers.
Proof.
  intros (l & Hl & -> & ->) Heq Hs. f_equal. rewrite <- (fields_join l Hl), <- (fields_join servers Hs). by rewrite Heq.
Qed.

Lemma words_perm l l' : l ≡ₚ l' → forallb is_word l = true → forallb is_word l' = true.
Proof. intros Hp. rewrite !forallb_elem_of. intros Hall x Hx. apply Hall. by rewrite Hp. Qed.

Lemma pluck_words t p l : plain t → et_Pluck t p = Ok l → forallb is_word (sort_strings l) = true.
Proof.
  intros Ht Hp%et_Pluck_spec. apply (words_perm l); [by rewrite sort_strings_perm|].
  eapply words_perm; [symmetry; exact Hp|]. apply forallb_elem_of.
  intros x (e & -> & He)%list_elem_of_fmap. apply list_elem_of_In, filter_In in He as [He _].
  by apply Ht, list_elem_of_In.
Qed.

Section center.
Hypothesis center : n_IsCenter cf = true.
Hypothesis endpoint_word : is_word (n_Endpoint cf) = true.
Hypothesis engine_name : ∀ ds, itoa ds ≠ n_EngineName cf.

Lemma beat_plain now t ds : plain t → plain (beat cf now t ds).
Proof.
  intros Ht. unfold beat, AlertingEngineHeartbeatWithCluster. rewrite center. cbn [negb].
  destruct (et_Count _ _) as [n|]; [|done]. destruct (n =? 0)%nat.
  - destruct (et_Create _ _) as [t'|] eqn:Hc; [|done]. cbn [fst]. apply et_Create_spec in Hc as [id Hr].
    intros e. rewrite Hr. intros [He| ->%list_elem_of_singleton]%elem_of_app; [by apply Ht|exact endpoint_word].
  - destruct (et_Updates _ _ _) as [t'|] eqn:Hc; [|done]. cbn [fst]. apply et_Updates_spec in Hc as Hr.
    intros e. rewrite Hr. intros (x & -> & Hx)%list_elem_of_fmap. apply Ht in Hx. by destruct (same_engine _ _ _ _).
Qed.

Lemma beats_plain now t ids : plain t → plain (beats cf now t ids).
Proof.
  intros Ht. unfold beats. destruct ids as [|i ids]; [by apply beat_plain|].
  apply foldl_invariant; [done|]. intros t' ds _. apply beat_plain.
Qed.

Lemma ActiveServers_words t ds now l :
  plain t → ActiveServers (n_IsCenter cf) t ds now = Ok l → forallb is_word (sort_strings l) = true.
Proof. intros Ht. unfold ActiveServers. rewrite center. case_match; [done|]. by apply pluck_words. Qed.

(** The ring of [ds] is that of the servers [l]. *)
Definition current ds (l : list string) s : Prop :=
  n_localss s !! ds = Some (join (sort_strings l) " ") ∧
  n_rings s !! itoa ds = Some (NewConsistentHashRing NodeReplicas (sort_strings l)).

Lemma rebuild_ok s ds servers :
  rings_ok s → forallb is_word servers = true →
  rings_ok (s <| n_rings := RebuildConsistentHashRing (n_rings s) (itoa ds) servers |>
              <| n_localss := <[ds := join servers " "]> (n_localss s) |>).
Proof.
  intros [H1 H2 H3] Hw. unfold RebuildConsistentHashRing. split; nsimp.
  - intros ds' names. destruct (decide (ds = ds')) as [<-|Hne].
    + rewrite !lookup_insert_eq. intros [= <-]. eexists. split; [done|]. by exists servers.
    + rewrite !lookup_insert_ne by (done || by intros ?%itoa_inj). apply H1.
  - intros names Hn. rewrite lookup_insert_ne by apply engine_name. by apply H2.
  - intros key r. destruct (decide (itoa ds = key)) as [<-|Hne].
    + intros _ _. right. exists ds. split; [done|]. rewrite lookup_insert_eq. eauto.
    + rewrite lookup_insert_ne by done. intros Hr Hm. destruct (H3 key r Hr Hm) as [|(ds' & -> & Hs)]; [by left|].
      right. exists ds'. split; [done|]. rewrite lookup_insert_ne by congruence. done.
Qed.

Lemma refresh_ds_spec now t s ds :
  plain t → rings_ok s →
  rings_ok (refresh_ds cf now t s ds) ∧
  n_localHostServers (refresh_ds cf now t s ds) = n_localHostServers s ∧
  (∀ l, ActiveServers (n_IsCenter cf) t ds now = Ok l → current ds l (refresh_ds cf now t s ds)) ∧
  (∀ ds' l, current ds' l s → (ds' = ds → ActiveServers (n_IsCenter cf) t ds now = Ok l) →
     current ds' l (refresh_ds cf now t s ds)).
Proof.
  intros Ht Hok. unfold refresh_ds. destruct (ActiveServers _ t ds now) as [l|] eqn:Ha; [|naive_solver].
  pose proof (ActiveServers_words _ _ _ _ Ht Ha) as Hw. case_bool_decide as Hl.
  - split_and!; [done..| |done]. intros l' [= <-]. split; [done|].
    destruct (ok_ds _ Hok _ _ Hl) as (r & Hr & Hrf). rewrite Hr. f_equal. by eapply ring_for_eq.
  - split_and!; [by apply rebuild_ok|by nsimp| |]; unfold current, RebuildConsistentHashRing; nsimp.
    + intros l' [= <-]. by rewrite !lookup_insert_eq.
    + intros ds' l' [H1 H2] Hsame. destruct (decide (ds = ds')) as [->|Hne].
      * injection (Hsame eq_refl) as ->. by rewrite !lookup_insert_eq.
      * by rewrite !lookup_insert_ne by (done || by intros ?%itoa_inj).
Qed.

Lemma refresh_all_spec now t s ids :
  plain t → rings_ok s →
  rings_ok (foldl (refresh_ds cf now t) s ids) ∧
  ∀ ds l, ds ∈ ids → ActiveServers (n_IsCenter cf) t ds now = Ok l →
    current ds l (foldl (refresh_ds cf now t) s ids).
Proof.
  intros Ht. revert s. induction ids as [|i ids IH] using rev_ind; intros s Hok; [set_solver|].
  rewrite foldl_app. cbn [foldl]. destruct (IH s Hok) as [Hok' Hcur].
  destruct (refresh_ds_spec now t _ i Ht Hok') as (H1 & _ & H2 & H3). split; [done|].
  intros ds l [Hin| ->%list_elem_of_singleton]%elem_of_app Ha; [|by apply H2].
  apply H3; [by apply Hcur|]. by intros ->.
Qed.

Lemma delete_ds_ok s ds :
  rings_ok s →
  rings_ok (s <| n_localss := delete ds (n_localss s) |> <| n_rings := delete (itoa ds) (n_rings s) |>).
Proof.
  intros [H1 H2 H3]. split; nsimp.
  - intros ds' names [Hne Hl]%lookup_delete_Some. rewrite lookup_delete_ne by (by intros ?%itoa_inj). by apply H1.
  - intros names Hn. rewrite lookup_delete_ne by apply engine_name. by apply H2.
  - intros key r [Hne Hr]%lookup_delete_Some Hm. destruct (H3 key r Hr Hm) as [|(ds' & -> & Hs)]; [by left|].
    right. exists ds'. split; [done|]. rewrite lookup_delete_ne by congruence. done.
Qed.

Lemma drop_ds_spec ids s :
  rings_ok s →
  rings_ok (drop_ds ids s) ∧ (∀ ds, is_Some (n_localss (drop_ds ids s) !! ds) → ds ∈ ids) ∧
  ∀ ds l, ds ∈ ids → current ds l s → current ds l (drop_ds ids s).
Proof.
  intros Hok. unfold drop_ds. set (step := λ s (dn : Z * string), if bool_decide _ then s else _).
  assert (∀ (L : list (Z * string)) s, rings_ok s →
    rings_ok (foldl step s L) ∧
    (∀ ds, is_Some (n_localss (foldl step s L) !! ds) → is_Some (n_localss s !! ds) ∧ (ds ∈ L.*1 → ds ∈ ids)) ∧
    ∀ ds l, ds ∈ ids → current ds l s → current ds l (foldl step s L)) as Hg.
  { induction L as [|[d n] L IH]; intros s0 Hok0; cbn [foldl]; [set_solver|].
    assert (rings_ok (step s0 (d, n))) as Hstep
      by (unfold step; case_bool_decide; [done|by apply delete_ds_ok]).
    destruct (IH _ Hstep) as (G1 & G2 & G3). split_and!; [done| |].
    - intros ds [Hs Hin]%G2. revert Hs. unfold step. cbn [fst]. case_bool_decide as Hd; nsimp.
      + intros Hs. split; [done|]. csimpl. intros [->|?]%elem_of_cons; auto.
      + intros [x [Hne Hx]%lookup_delete_Some]. split; [by eexists|]. csimpl.
        intros [->|?]%elem_of_cons; [done|auto].
    - intros ds l Hin Hc. apply G3; [done|]. clear -Hin Hc. unfold step, current in Hc |- *. cbn [fst].
      case_bool_decide as Hd; nsimp; [exact Hc|].
      assert (d ≠ ds) by (by intros ->). by rewrite !lookup_delete_ne by (done || by intros ?%itoa_inj). }
  destruct (Hg (go_range (n_localss s)) s Hok) as (G1 & G2 & G3). split_and!; [done| |done].
  intros ds [Hs Hin]%G2. apply Hin, elem_of_fst_go_range. done.
Qed.

Lemma refresh_host_spec now t s :
  plain t → rings_ok s →
  rings_ok (refresh_host cf now t s) ∧ n_localss (refresh_host cf now t s) = n_localss s ∧
  (∀ ds, n_rings (refresh_host cf now t s) !! itoa ds = n_rings s !! itoa ds) ∧
  (∀ l, ActiveServersByEngineName (n_IsCenter cf) t (n_EngineName cf) now = Ok l →
     n_rings (refresh_host cf now t s) !! n_EngineName cf
     = Some (NewConsistentHashRing NodeReplicas (sort_strings l))).
Proof.
  intros Ht Hok. unfold refresh_host. destruct (ActiveServersByEngineName _ _ _ _) as [l|] eqn:Ha; [|naive_solver].
  assert (forallb is_word (sort_strings l) = true) as Hw.
  { unfold ActiveServersByEngineName in Ha. rewrite center in Ha. cbn [negb] in Ha. by eapply pluck_words. }
  case_bool_decide as Hl.
  - split_and!; [done..|]. intros l' [= <-]. destruct (ok_host _ Hok _ Hl) as (r & Hr & Hrf).
    rewrite Hr. f_equal. by eapply ring_for_eq.
  - unfold RebuildConsistentHashRing. nsimp. split_and!; [|done| |].
    + destruct Hok as [H1 H2 H3]. split; nsimp.
      * intros ds names Hn. rewrite lookup_insert_ne by (intros E; by apply (engine_name ds)). by apply H1.
      * intros names. rewrite !lookup_insert_eq. intros [= <-]. eexists. split; [done|]. by exists (sort_strings l).
      * intros key r. destruct (decide (n_EngineName cf = key)) as [<-|Hne]; [by left|].
        rewrite lookup_insert_ne by done. apply H3.
    + intros ds. rewrite lookup_insert_ne; [done|]. intros E. by apply (engine_name ds).
    + intros l' [= <-]. by rewrite lookup_insert_eq.
Qed.

Lemma clear_ok s : rings_ok s →
  rings_ok (s <| n_rings := Rings_Clear (n_rings s) (n_EngineName cf) |> <| n_localss := ∅ |>).
Proof.
  intros [H1 H2 H3]. split; nsimp.
  - intros ds names. by rewrite lookup_empty.
  - intros names Hn. rewrite Rings_Clear_lookup, String.eqb_refl. by apply H2.
  - intros key r. rewrite Rings_Clear_lookup. destruct (String.eqb_spec key (n_EngineName cf)); [by left|done].
Qed.

Lemma heartbeat_spec now t s ids :
  plain t → rings_ok s → GetDatasourceIdsByEngineName (n_IsCenter cf) t (n_EngineName cf) = Ok ids →
  ∃ t' s', heartbeat cf now t s = (t', s', None) ∧ plain t' ∧ rings_ok s' ∧
    (∀ ds, is_Some (n_localss s' !! ds) → ds ∈ ids) ∧
    ∀ ds l, ds ∈ ids → ActiveServers (n_IsCenter cf) (beats cf now t ids) ds now = Ok l → current ds l s'.
Proof.
  intros Ht Hok Hids. unfold heartbeat. rewrite Hids. set (t1 := beats cf now t ids).
  assert (plain t1) as Ht1 by by apply beats_plain.
  match goal with |- context [if ?b then ?a else s] => set (s1 := if b then a else s) end. assert (rings_ok s1) as Hok1 by (unfold s1; case_match; [by apply clear_ok|done]).
  destruct (refresh_all_spec now t1 s1 ids Ht1 Hok1) as [Hok2 Hcur].
  set (s2 := foldl (refresh_ds cf now t1) s1 ids) in *.
  destruct (drop_ds_spec ids s2 Hok2) as (Hok3 & Hsub & Hkeep). set (s3 := drop_ds ids s2) in *.
  set (t2 := beat cf now t1 HostDatasource). assert (plain t2) as Ht2 by by apply beat_plain.
  destruct (refresh_host_spec now t2 s3 Ht2 Hok3) as (Hok4 & Hl & Hr & _).
  eexists t2, _. split; [reflexivity|]. split_and!; [done..| |].
  - intros ds. rewrite Hl. apply Hsub.
  - intros ds l Hin Ha. destruct (Hkeep ds l Hin (Hcur ds l Hin Ha)) as [Hk1 Hk2].
    split; [by rewrite Hl|by rewrite Hr].
Qed.
End center.

(** ** Reachable states

    The steps of the package on one engine, among changes of the table by the
    others. *)
Inductive nstep : T * nstate → T * nstate → Prop :=
| nstep_heartbeat now t s : nstep (t, s) (fst (heartbeat cf now t s))
| nstep_GetNode t s key pk : nstep (t, s) (t, s <| n_rings := fst (GetNode (n_rings s) key pk) |>)
| nstep_delete now t s : nstep (t, s) (DeleteInactiveInstances t now, s)
| nstep_others t t' s : plain t' → nstep (t, s) (t', s).

Lemma GetNode_ok s key pk :
  rings_ok s → rings_ok (s <| n_rings := fst (GetNode (n_rings s) key pk) |>).
Proof.
  intros [H1 H2 H3]. destruct (GetNode_rings (n_rings s) key pk) as [->|[Hnone ->]]; [by split|].
  split; nsimp.
  - intros ds names (r & Hr & Hrf)%H1. exists r. split; [|done]. by rewrite lookup_insert_ne by congruence.
  - intros names (r & Hr & Hrf)%H2. exists r. split; [|done]. by rewrite lookup_insert_ne by congruence.
  - intros k r. destruct (decide (key = k)) as [->|Hne].
    + rewrite lookup_insert_eq. intros [= <-] Hm. destruct Hm. apply ring_New_Members.
    + rewrite lookup_insert_ne by done. apply H3.
Qed.

Lemma delete_plain t now : plain t → plain (DeleteInactiveInstances t now).
Proof.
  intros Ht. unfold DeleteInactiveInstances. destruct (et_Delete _ _) as [t'|] eqn:Hd; [|done].
  apply et_Delete_spec in Hd. intros e. rewrite Hd. intros [He _]%list_elem_of_In%filter_In.
  by apply Ht, list_elem_of_In.
Qed.

(** Whatever the order of heartbeats, lookups, expirations and registrations of
    other engines, the rings of an engine are those of the server names it
    remembers, and no ring with members is left for a data source it does not
    serve. *)
Theorem naming_invariant t0 t s :
  n_IsCenter cf = true → is_word (n_Endpoint cf) = true → (∀ ds, itoa ds ≠ n_EngineName cf) →
  plain t0 → rtc nstep (t0, mkNstate ∅ ∅ ∅) (t, s) → plain t ∧ rings_ok s.
Proof.
  intros Hc Hw Hn Ht0 Hsteps.
  assert (∀ c c', rtc nstep c c' → plain (fst c) ∧ rings_ok (snd c) → plain (fst c') ∧ rings_ok (snd c')) as Hg.
  { induction 1 as [|c1 c2 c3 Hstep _ IH]; [done|]. intros [Ht Hok]. apply IH. clear IH.
    destruct Hstep as [now t1 s1|t1 s1 key pk|now t1 s1|t1 t2 s1 Ht2]; cbn [fst snd] in *.
    - destruct (GetDatasourceIdsByEngineName (n_IsCenter cf) t1 (n_EngineName cf)) as [ids|] eqn:Hids.
      + destruct (heartbeat_spec Hc Hw Hn now t1 s1 ids Ht Hok Hids) as (t' & s' & -> & ? & ? & _). done.
      + unfold heartbeat. by rewrite Hids.
    - split; [done|by apply GetNode_ok].
    - split; [by apply delete_plain|done].
    - done. }
  apply (Hg _ _ Hsteps). split; [done|apply rings_ok_init].
Qed.

(** After a heartbeat an engine evaluates a rule on a data source only if it
    serves that data source, and the ring it uses is that of the live servers,
    sorted, that it read from the table in this heartbeat. *)
Theorem heartbeat_rings now t s ids :
  n_IsCenter cf = true → is_word (n_Endpoint cf) = true → (∀ ds, itoa ds ≠ n_EngineName cf) →
  plain t → rings_ok s → GetDatasourceIdsByEngineName (n_IsCenter cf) t (n_EngineName cf) = Ok ids →
  ∃ t' s', heartbeat cf now t s = (t', s', None) ∧
    (∀ ds pk, snd (IsHit (n_rings s') (itoa ds) pk (n_Endpoint cf)) = true → ds ∈ ids) ∧
    ∀ ds l, ds ∈ ids → ActiveServers (n_IsCenter cf) (beats cf now t ids) ds now = Ok l →
      n_rings s' !! itoa ds = Some (NewConsistentHashRing NodeReplicas (sort_strings l)).
Proof.
  intros Hc Hw Hn Ht Hok Hids.
  destruct (heartbeat_spec Hc Hw Hn now t s ids Ht Hok Hids) as (t' & s' & -> & _ & Hok' & Hsub & Hcur).
  exists t', s'. split_and!; [done| |].
  - intros ds pk (r & Hr & Hin)%IsHit_inv. destruct (ok_known _ Hok' _ _ Hr) as [E|(ds' & E & Hs)].
    + intros Hm. rewrite Hm in Hin. by apply not_elem_of_nil in Hin.
    + by apply Hn in E.
    + apply itoa_inj in E as ->. by apply Hsub.
  - intros ds l Hin Ha. apply (Hcur ds l Hin Ha).
Qed.
End naming_spec.

(** ** The engines of a cluster *)

Section cluster.
Context {T : Type} `{ET : EngineTable T, CA : CenterApi T, GR : GoRange, CH : ConsistentLib}.
Implicit Types (t : T) (s : nstate) (cf : nconf) (now ds : Z).

(** The engine holds, for [ds], the ring of the live servers it read last. *)
Definition informed ds (l : list string) (e : nconf * nstate) : Prop :=
  ∃ l', l' ≡ₚ l ∧ n_rings (snd e) !! itoa ds = Some (NewConsistentHashRing NodeReplicas (sort_strings l')).

(** Every rule of a data source is evaluated by exactly one engine: when the
    engines of the data source have read the same set of live servers, in
    whatever order, and these are the engines themselves. *)
Theorem rule_owned_once ds (l : list string) (es : list (nconf * nstate)) pk :
  l ≠ [] → NoDup (n_Endpoint <$> es.*1) → (∀ x, x ∈ l → x ∈ n_Endpoint <$> es.*1) →
  (∀ e, e ∈ es → informed ds l e) →
  ∃ i e, es !! i = Some e ∧ snd (IsHit (n_rings (snd e)) (itoa ds) pk (n_Endpoint (fst e))) = true ∧
    ∀ j e', es !! j = Some e' → snd (IsHit (n_rings (snd e')) (itoa ds) pk (n_Endpoint (fst e'))) = true → j = i.
Proof.
  intros Hne Hnd Hlive Hinf.
  destruct (ring_owner NodeReplicas (sort_strings l) pk) as (x & Hx & Hget).
  { intros E. apply Hne, Permutation_nil. by rewrite <- E, sort_strings_perm. }
  assert (∀ e, e ∈ es → snd (IsHit (n_rings (snd e)) (itoa ds) pk (n_Endpoint (fst e)))
                        = String.eqb x (n_Endpoint (fst e))) as Hhit.
  { intros e (l' & Hp & Hr)%Hinf. rewrite (sort_strings_canonical l' l Hp) in Hr. by eapply IsHit_Some. }
  rewrite sort_strings_perm in Hx. apply Hlive in Hx.
  apply list_elem_of_lookup in Hx as [i Hi]. rewrite !list_lookup_fmap in Hi.
  destruct (es !! i) as [e|] eqn:He; [|done]. injection Hi as Hx. exists i, e. split_and!; [done| |].
  - rewrite Hhit by by eapply list_elem_of_lookup_2. apply String.eqb_eq. by symmetry.
  - intros j e' He' Hh. rewrite Hhit in Hh by by eapply list_elem_of_lookup_2. apply String.eqb_eq in Hh.
    apply (NoDup_lookup _ j i x Hnd); rewrite !list_lookup_fmap, ?He', ?He; cbn; congruence.
Qed.

(** [e] is registered with a clock not older than [now]. *)
Definition registered (instance cluster : string) ds now t : Prop :=
  ∃ e, e ∈ et_rows t ∧ same_engine instance cluster ds e = true ∧ now ≤ Engines.Clock e.

(** What happens to the table until [limit]: registrations at times not before
    [since], and expirations. *)
Inductive tstep (since limit : Z) : T → T → Prop :=
| tstep_beat cf now ds t : n_IsCenter cf = true → since ≤ now ≤ limit → tstep since limit t (beat cf now t ds)
| tstep_delete now t : now ≤ limit → tstep since limit t (DeleteInactiveInstances t now).

Lemma beat_registered cf now t ds i c ds0 since :
  n_IsCenter cf = true → since ≤ now → registered i c ds0 since t → registered i c ds0 since (beat cf now t ds).
Proof.
  intros Hc Hle (e & He & Hsame & Hclk). unfold beat, AlertingEngineHeartbeatWithCluster. rewrite Hc. cbn [negb].
  destruct (et_Count _ _) as [n|]; [|by exists e]. destruct (n =? 0)%nat.
  - destruct (et_Create _ _) as [t'|] eqn:Ht; [|by exists e]. apply et_Create_spec in Ht as [id Hr].
    exists e. cbn [fst]. rewrite Hr. set_solver.
  - destruct (et_Updates _ _ _) as [t'|] eqn:Ht; [|by exists e]. apply et_Updates_spec in Ht as Hr. cbn [fst].
    exists (if same_engine (n_Endpoint cf) (n_EngineName cf) ds e then e <| Engines.Clock := now |> else e).
    rewrite Hr. split_and!; [apply list_elem_of_fmap; by exists e|by case_match|].
    case_match; [exact Hle|done].
Qed.

Lemma beat_registers cf now t ds n t' :
  n_IsCenter cf = true → et_Count t (same_engine (n_Endpoint cf) (n_EngineName cf) ds) = Ok n →
  (n = 0%nat → et_Create t (Engines.mkAlertingEngines 0 (n_Endpoint cf) (n_EngineName cf) ds now) = Ok t') →
  (n ≠ 0%nat → et_Updates t (same_engine (n_Endpoint cf) (n_EngineName cf) ds) now = Ok t') →
  registered (n_Endpoint cf) (n_EngineName cf) ds now (beat cf now t ds).
Proof.
  intros Hc Hn H0 H1. unfold beat, AlertingEngineHeartbeatWithCluster. rewrite Hc, Hn. cbn [negb].
  destruct (n =? 0)%nat eqn:E.
  - apply Nat.eqb_eq in E. specialize (H0 E). rewrite H0. apply et_Create_spec in H0 as [id Hr]. cbn [fst].
    unfold registered. rewrite Hr. eexists. split; [apply elem_of_app; right; by apply list_elem_of_singleton|].
    unfold same_engine. rsimp. cbn. rewrite !String.eqb_refl, Z.eqb_refl. split; [done|lia].
  - apply Nat.eqb_neq in E. specialize (H1 E). rewrite H1. apply et_Updates_spec in H1 as Hr. cbn [fst].
    apply et_Count_spec in Hn. destruct (List.filter _ _) as [|e es] eqn:Hf; [cbn in Hn; lia|].
    assert (In e (List.filter (same_engine (n_Endpoint cf) (n_EngineName cf) ds) (et_rows t))) as [Hin Hs]%filter_In
      by (rewrite Hf; by left).
    exists (e <| Engines.Clock := now |>). rewrite Hr. split; [|split; [exact Hs|reflexivity]].
    apply list_elem_of_fmap. exists e. split; [by rewrite Hs|by apply list_elem_of_In].
Qed.

Lemma tstep_registered since limit t t' i c ds :
  limit ≤ since + 600 → tstep since limit t t' → registered i c ds since t → registered i c ds since t'.
Proof.
  intros Hlim [cf now ds' t0 Hc Hb|now t0 Hb]; [apply beat_registered; [done|lia]|].
  intros (e & He & Hsame & Hclk). unfold DeleteInactiveInstances.
  destruct (et_Delete _ _) as [t1|] eqn:Hd; [|by exists e]. apply et_Delete_spec in Hd as Hr.
  exists e. split_and!; [|done..]. rewrite Hr. apply list_elem_of_In, filter_In. split; [by apply list_elem_of_In|].
  cbn. apply negb_true_iff, Z.ltb_ge. lia.
Qed.

(** The statements of the heartbeat on the table succeed. *)
Definition beat_works cf now t ds : Prop :=
  ∃ n t', et_Count t (same_engine (n_Endpoint cf) (n_EngineName cf) ds) = Ok n ∧
    (n = 0%nat → et_Create t (Engines.mkAlertingEngines 0 (n_Endpoint cf) (n_EngineName cf) ds now) = Ok t') ∧
    (n ≠ 0%nat → et_Updates t (same_engine (n_Endpoint cf) (n_EngineName cf) ds) now = Ok t').

Lemma beats_registered cf now t ids ds :
  n_IsCenter cf = true → ds ∈ ids → (∀ t, beat_works cf now t ds) →
  registered (n_Endpoint cf) (n_EngineName cf) ds now (beats cf now t ids).
Proof.
  intros Hc Hin Hw. apply list_elem_of_split in Hin as (l1 & l2 & ->).
  assert (beats cf now t (l1 ++ ds :: l2) = foldl (beat cf now) t (l1 ++ ds :: l2)) as -> by by destruct l1.
  rewrite foldl_app. cbn [foldl]. apply foldl_invariant.
  - destruct (Hw (foldl (beat cf now) t l1)) as (n & t' & ? & ? & ?). by eapply beat_registers.
  - intros t' ds' _. apply beat_registered; [done|lia].
Qed.

(** C10. An engine of the center stays alive between two heartbeats: after a heartbeat whose
    statements work, and for thirty seconds whatever the other engines register
    and the center expires, every query for the live servers of one of its data
    sources, and of the host rules, names it. *)
Theorem heartbeat_alive cf now t s ids ds limit t1 l :
  n_IsCenter cf = true → GetDatasourceIdsByEngineName (n_IsCenter cf) t (n_EngineName cf) = Ok ids →
  ds ∈ HostDatasource :: ids → (∀ t, beat_works cf now t ds) →
  limit < now + 30 →
  rtc (tstep now limit) (fst (fst (heartbeat cf now t s))) t1 →
  ActiveServers true t1 ds limit = Ok l → n_Endpoint cf ∈ l.
Proof.
  intros Hc Hids Hin Hw Hlim Hrtc Hact.
  assert (registered (n_Endpoint cf) (n_EngineName cf) ds now t1) as (e & He & Hsame & Hclk).
  { assert (∀ t t', rtc (tstep now limit) t t' → registered (n_Endpoint cf) (n_EngineName cf) ds now t →
      registered (n_Endpoint cf) (n_EngineName cf) ds now t') as Hg.
    { induction 1 as [|a b c Hs _ IH]; [done|]. intros Hr. apply IH. eapply tstep_registered; [|done..]. lia. }
    apply (Hg _ _ Hrtc). unfold heartbeat. rewrite Hids. cbn [fst].
    apply elem_of_cons in Hin as [->|Hin].
    - destruct (Hw (beats cf now t ids)) as (n & t' & ? & ? & ?). by eapply beat_registers.
    - apply beat_registered; [done|lia|]. by apply beats_registered. }
  unfold ActiveServers in Hact. cbn [negb] in Hact. destruct (ds =? -1); [done|].
  apply et_Pluck_spec in Hact as Hp. rewrite Hp. apply list_elem_of_fmap. exists e.
  unfold same_engine in Hsame. bool_prop. split; [done|].
  apply list_elem_of_In, filter_In. split; [by apply list_elem_of_In|].
  apply andb_true_intro. split; [by apply Z.eqb_eq|]. apply Z.ltb_lt. lia.
Qed.

(** Of the engines of one name that read the same live servers, in whatever
    order, at most one leads; and one does when some live server is an engine of
    the list that reads them. *)
Theorem leader_unique (engine : string) now l (es : list (nconf * T)) :
  l ≠ [] → NoDup (n_Endpoint <$> es.*1) → (∀ x, x ∈ l → x ∈ n_Endpoint <$> es.*1) →
  (∀ e, e ∈ es → n_IsCenter (fst e) = true ∧ n_EngineName (fst e) = engine ∧
     ∃ l', l' ≡ₚ l ∧ ActiveServersByEngineName true (snd e) engine now = Ok l') →
  ∃ i e, es !! i = Some e ∧ IamLeader (fst e) now (snd e) = true ∧
    ∀ j e', es !! j = Some e' → IamLeader (fst e') now (snd e') = true → j = i.
Proof.
  intros Hne Hnd Hlive Hes.
  destruct (sort_strings l) as [|x xs] eqn:Hs.
  { destruct Hne. apply Permutation_nil. by rewrite <- Hs, sort_strings_perm. }
  assert (∀ e, e ∈ es → IamLeader (fst e) now (snd e) = String.eqb (n_Endpoint (fst e)) x) as Hlead.
  { intros e (Hc & Hn & l' & Hp & Ha)%Hes. unfold IamLeader. rewrite Hc, Hn, Ha. cbn [negb].
    by rewrite (sort_strings_canonical l' l Hp), Hs. }
  assert (x ∈ l) as Hx by (rewrite <- sort_strings_perm, Hs; by left).
  apply Hlive, list_elem_of_lookup in Hx as [i Hi]. rewrite !list_lookup_fmap in Hi.
  destruct (es !! i) as [e|] eqn:He; [|done]. injection Hi as Hx. exists i, e. split_and!; [done| |].
  - rewrite Hlead by by eapply list_elem_of_lookup_2. by apply String.eqb_eq.
  - intros j e' He' Hh. rewrite Hlead in Hh by by eapply list_elem_of_lookup_2. apply String.eqb_eq in Hh.
    apply (NoDup_lookup _ j i x Hnd); rewrite !list_lookup_fmap, ?He', ?He; cbn; congruence.
Qed.
End cluster.
