(* ===== verification/Caches.v ===== *)
(** * The in-memory copies of the tables: [memsto]

    Every cache polls its table: it reads the number of rows and the time of the
    last update, and reads the rows again only when one of the two changed.  The
    common protocol is modelled once, with the two queries as separate steps
    between which the table can change, and then instantiated by the caches the
    alerting engine reads. *)

From Stdlib Require Import QArith_base.
From S2P Require Import Prelude GoStrings Json Models RuleModels Filter Mute Subscription RuleOps.
Open Scope string_scope.
Open Scope Z_scope.

(** ** The protocol *)

(** [models.Statistics]. *)
Record Statistics := mkStatistics { Total : Z; LastUpdated : Z }.
#[export] Instance Statistics_eq_dec : EqDecision Statistics.
Proof. solve_decision. Defined.

Record cacheT (V : Type) := mkCache { statTotal : Z; statLastUpdated : Z; c_data : V }.
Arguments mkCache {V} _ _ _.
Arguments statTotal {V} _.
Arguments statLastUpdated {V} _.
Arguments c_data {V} _.

Section protocol.
Context {V : Type}.
Implicit Types c : cacheT V.

(** A new cache, and [Reset]: counters that no table has. *)
Definition Cache_Reset (empty : V) : cacheT V := mkCache (-1) (-1) empty.

Definition StatChanged c (total lastUpdated : Z) : bool :=
  if (statTotal c =? total) && (statLastUpdated c =? lastUpdated) then false else true.

Definition Cache_Set (m : V) (total lastUpdated : Z) : cacheT V := mkCache total lastUpdated m.

(** One round: the statistics, then, when they changed, the rows.  An error of
    either leaves the cache as it is. *)
Definition sync {R : Type} (build : R → V) c (stat : result Statistics) (rows : result R)
  : cacheT V * option error :=
  match stat with
  | Err err => (c, Some err)
  | Ok st =>
      if negb (StatChanged c (Total st) (LastUpdated st)) then (c, None)
      else match rows with
      | Err err => (c, Some err)
      | Ok lst => (Cache_Set (build lst) (Total st) (LastUpdated st), None)
      end
  end.
End protocol.

(** ** Rules, mutes and subscriptions *)

Definition rules_by_id (lst : list AlertRule) : gmap Z AlertRule :=
  foldl (λ m r, <[Rule.Id r := r]> m) ∅ lst.

Definition syncAlertRules := sync rules_by_id.

(** [append(m[k], x)]. *)
Definition append_at {A} (m : gmap Z (list A)) (k : Z) (x : A) : gmap Z (list A) :=
  <[k := (default [] (m !! k) ++ [x])%list]> m.

Section tables.
Context `{RG : Regexp, GF : GoFmt}.
Context `{!Json (list TagFilter), !Json (list Z), !Json (list string), !Json iface}.

(** A mute whose filters do not parse is left out. *)
Definition mutes_by_group (lst : list AlertMute) : gmap Z (list AlertMute) :=
  foldl (λ oks m, match AlertMute_Parse m with
                  | (_, Some _) => oks
                  | (m, None) => append_at oks (Mute.GroupId m) m
                  end) ∅ lst.

Definition syncAlertMutes := sync mutes_by_group.

Definition FillDatasourceIds (s : AlertSubscribe) : AlertSubscribe :=
  if negb (String.eqb (Subscribe.DatasourceIds s) "")
  then s <| Subscribe.DatasourceIdsJson :=
              fst (json_unmarshal (Subscribe.DatasourceIds s) (Subscribe.DatasourceIdsJson s)) |>
  else s.

(** The subscription as it is cached, when it is; without rules it is filed
    under 0. *)
Definition cached_subscribe (s : AlertSubscribe) : option AlertSubscribe :=
  if Subscribe.Disabled s =? 1 then None
  else match AlertSubscribe_Parse s with
  | (_, Some _) => None
  | (s, None) =>
      match AlertSubscribe_DB2FE s with
      | (_, Some _) => None
      | (s, None) =>
          let s := CompatibleWithOldRuleId (FillDatasourceIds s) in
          Some (if (length (Subscribe.RuleIds s) =? 0)%nat && (Subscribe.RuleId s =? 0)
                then s <| Subscribe.RuleIds := (Subscribe.RuleIds s ++ [0])%list |> else s)
      end
  end.

Definition subs_by_rule (lst : list AlertSubscribe) : gmap Z (list AlertSubscribe) :=
  foldl (λ subs s, match cached_subscribe s with
                   | None => subs
                   | Some s => foldl (λ subs rid, append_at subs rid s) subs (Subscribe.RuleIds s)
                   end) ∅ lst.

Definition syncAlertSubscribes := sync subs_by_rule.
End tables.

(** ** Data sources *)

(** [TLS], [HTTP], [Auth] and [Datasource] (models/datasource.go), without the
    transport, a cache of a client.  The decoded settings are nil or a map. *)
Module TlsSet.
Record TLS := mkTLS {
  SkipTlsVerify : bool;
  CACert : string;
  ClientCert : string;
  ClientKey : string;
  ClientKeyPassword : string;
  ServerName : string;
  MinVersion : string;
  MaxVersion : string
}.
Definition zero : TLS := mkTLS false "" "" "" "" "" "" "".
End TlsSet.

Module HttpSet.
Record HTTP := mkHTTP {
  Timeout : Z;
  DialTimeout : Z;
  TLS : TlsSet.TLS;
  MaxIdleConnsPerHost : Z;
  Url : string;
  Urls : list string;
  Headers : gmap string string
}.
Definition zero : HTTP := mkHTTP 0 0 TlsSet.zero 0 "" [] ∅.
#[global] Instance HTTP_eta : Settable HTTP := λ r,
  mkHTTP (Timeout r) (DialTimeout r) (TLS r) (MaxIdleConnsPerHost r) (Url r) (Urls r) (Headers r).
End HttpSet.

Module AuthSet.
Record Auth := mkAuth { BasicAuth : bool; BasicAuthUser : string; BasicAuthPassword : string }.
Definition zero : Auth := mkAuth false "" "".
#[global] Instance Auth_eta : Settable Auth := λ r, mkAuth (BasicAuth r) (BasicAuthUser r) (BasicAuthPassword r).
End AuthSet.

Module Source.
Record Datasource := mkDatasource {
  Id : Z;
  Name : string;
  Identifier : string;
  Description : string;
  PluginId : Z;
  PluginType : string;
  PluginTypeName : string;
  Category : string;
  ClusterName : string;
  Settings : string;
  SettingsJson : option (gmap string iface);
  SettingsEncoded : string;
  Status : string;
  HTTP : string;
  HTTPJson : HttpSet.HTTP;
  Auth : string;
  AuthJson : AuthSet.Auth;
  AuthEncoded : string;
  CreatedAt : Z;
  UpdatedAt : Z;
  CreatedBy : string;
  UpdatedBy : string;
  IsDefault : bool;
  ForceSave : bool
}.
Definition zero : Datasource :=
  mkDatasource 0 "" "" "" 0 "" "" "" "" "" None "" "" "" HttpSet.zero "" AuthSet.zero "" 0 0 "" "" false false.
#[global] Instance Datasource_eta : Settable Datasource := λ r,
  mkDatasource (Id r) (Name r) (Identifier r) (Description r) (PluginId r) (PluginType r)
    (PluginTypeName r) (Category r) (ClusterName r) (Settings r) (SettingsJson r) (SettingsEncoded r)
    (Status r) (HTTP r) (HTTPJson r) (Auth r) (AuthJson r) (AuthEncoded r)
    (CreatedAt r) (UpdatedAt r) (CreatedBy r) (UpdatedBy r) (IsDefault r) (ForceSave r).
End Source.
Notation Datasource := Source.Datasource.

Record dsdata := mkDsdata {
  d_ds : gmap Z Datasource;
  d_CateToIDs : gmap string (gmap Z Datasource);
  d_CateToNames : gmap string (gmap string Z)
}.

(** [ds[k1][k2] = v], creating the inner map. *)
Definition insert2 {K A} `{Countable K} (m : gmap string (gmap K A)) (k1 : string) (k2 : K) (v : A)
  : gmap string (gmap K A) := <[k1 := <[k2 := v]> (default ∅ (m !! k1))]> m.

Section datasources.
Context `{GR : GoRange, GL : GlobLib}.

Definition datasource_maps (ds : gmap Z Datasource) : dsdata :=
  foldl (λ d kv, let x := snd kv in
           mkDsdata (d_ds d) (insert2 (d_CateToIDs d) (Source.PluginType x) (Source.Id x) x)
             (insert2 (d_CateToNames d) (Source.PluginType x) (Source.Name x) (Source.Id x)))
    (mkDsdata ds ∅ ∅) (go_range ds).

Definition syncDatasources := sync datasource_maps.

Definition GetById (d : dsdata) (id : Z) : option Datasource := d_ds d !! id.

Definition GetIDsByDsCateAndQueries (d : dsdata) (cate : string) (qs : list DatasourceQuery) : list Z :=
  GetDatasourceIDsByDatasourceQueries qs (default ∅ (d_CateToIDs d !! cate)) (default ∅ (d_CateToNames d !! cate)).
End datasources.

(** ** Hosts *)

(** [HostMeta] and [HostUpdateTime] (models/host_meta.go). *)
Module HostMt.
Record HostMeta := mkHostMeta {
  AgentVersion : string;
  OS : string;
  Arch : string;
  Hostname : string;
  CpuNum : Z;
  CpuUtil : float64;
  MemUtil : float64;
  Offset : Z;
  UnixTime : Z;
  RemoteAddr : string;
  HostIp : string;
  EngineName : string;
  GlobalLabels : gmap string string;
  ExtendInfo : gmap string iface;
  Config : iface
}.
Definition zero : HostMeta :=
  mkHostMeta "" "" "" "" 0 (F64 0) (F64 0) 0 0 "" "" "" ∅ ∅ INil.
End HostMt.
Notation HostMeta := HostMt.HostMeta.

Record HostUpdateTime := mkHostUpdateTime { hu_Ident : string; hu_UpdateTime : Z }.

Definition WrapIdent (ident : string) : string := "n9e_meta_" +:+ ident.
Definition WrapIdentUpdateTime (ident : string) : string := "n9e_meta_update_time_" +:+ ident.

(** A GET on redis: no value for a missing key or an error. *)
Class Redis := { redis_Get : string → option string }.

(** [storage.MGet]: the values that were found. *)
Definition MGet `{Redis} (keys : list string) : list string := omap redis_Get keys.

Definition FillMeta (t : Target) (meta : HostMeta) : Target :=
  t <| Tgt.MemUtil := HostMt.MemUtil meta |> <| Tgt.CpuUtil := HostMt.CpuUtil meta |>
    <| Tgt.CpuNum := HostMt.CpuNum meta |> <| Tgt.UnixTime := HostMt.UnixTime meta |>
    <| Tgt.Offset := HostMt.Offset meta |> <| Tgt.Arch := HostMt.Arch meta |>
    <| Tgt.RemoteAddr := HostMt.RemoteAddr meta |>.

Section hosts.
Context `{!Json HostMeta, !Json HostUpdateTime}.

(** One value of a reply: values that do not decode are skipped. *)
Definition put_meta (m : gmap string HostMeta) (value : string) : gmap string HostMeta :=
  match json_unmarshal value HostMt.zero with
  | (_, Some _) => m
  | (meta, None) => <[HostMt.Hostname meta := meta]> m
  end.
Definition put_update_time (m : gmap string Z) (value : string) : gmap string Z :=
  match json_unmarshal value (mkHostUpdateTime "" 0) with
  | (_, Some _) => m
  | (h, None) => <[hu_Ident h := hu_UpdateTime h]> m
  end.

(** The loop that asks redis for every hundred keys and for the rest. *)
Fixpoint batched `{Redis} {A : Type} (put : gmap string A → string → gmap string A) (wrap : string → string)
    (idents : list string) (keys : list string) (num : nat) (m : gmap string A) : gmap string A :=
  match idents with
  | [] => foldl put m (MGet keys)
  | ident :: idents' =>
      let keys := (keys ++ [wrap ident])%list in
      if (S num =? 100)%nat then batched put wrap idents' [] 0 (foldl put m (MGet keys))
      else batched put wrap idents' keys (S num) m
  end.

(** Without redis there is nothing to ask. *)
Definition GetHostMetas (redis : option Redis) (targets : list Target) : gmap string HostMeta :=
  match redis with
  | None => ∅
  | Some _ => batched put_meta WrapIdent (map Tgt.Ident targets) [] 0 ∅
  end.

Definition GetHostUpdateTime (redis : option Redis) (cache : gmap string Target) (targets : list string)
  : gmap string Z :=
  match redis with
  | None => ∅
  | Some _ =>
      foldl (λ m ident, match m !! ident with
                        | Some _ => m
                        | None => match cache !! ident with
                                  | Some t => <[ident := Tgt.UpdateAt t]> m
                                  | None => m
                                  end
                        end)
        (batched put_update_time WrapIdentUpdateTime targets [] 0 ∅) targets
  end.

Definition targets_by_ident (redis : option Redis) (lst : list Target) : gmap string Target :=
  let metaMap := GetHostMetas redis lst in
  let lst := if (0 <? size metaMap)%nat
             then map (λ t, match metaMap !! Tgt.Ident t with Some meta => FillMeta t meta | None => t end) lst
             else lst in
  foldl (λ m t, <[Tgt.Ident t := t]> m) ∅ lst.

Definition syncTargets (redis : option Redis) := sync (targets_by_ident redis).
End hosts.

Definition Targets_Gets (cache : gmap string Target) (idents : list string) : list Target :=
  omap (λ i, cache !! i) idents.

(** The offsets above the limit, of the active hosts of the collector.  The
    conversion through a float is exact for the offsets of clocks (below 2^53
    milliseconds). *)
Definition GetOffsetHost (cache : gmap string Target) (targets : list Target) (now offset : Z) : gmap string Z :=
  foldl (λ m t, match cache !! Tgt.Ident t with
                | None => m
                | Some t =>
                    if Tgt.CpuNum t <=? 0 then m
                    else if 120 <? now - Tgt.UpdateAt t then m
                    else if offset <? Z.abs (Tgt.Offset t) then <[Tgt.Ident t := Tgt.Offset t]> m
                    else m
                end) ∅ targets.

(** The hosts of the host rules, by engine and rule. *)
Definition TargetsOfAlertRule_Get (targets : gmap string (gmap Z (list string))) (engineName : string) (rid : Z)
  : option (list string) := targets !! engineName ≫= λ m, m !! rid.

(** The part of [GetTargetsOfHostAlertRule] after the queries: the targets of
    every rule. *)
Definition targets_of_rules (rules : list (Z * list Target)) : gmap string (gmap Z (list string)) :=
  foldl (λ m rt, foldl (λ m t,
           let inner := default ∅ (m !! Tgt.EngineName t) in
           <[Tgt.EngineName t := append_at inner (fst rt) (Tgt.Ident t)]> m) m (snd rt)) ∅ rules.

(** ** Properties *)

(** *** The protocol *)

Section polling.
Context {R V : Type} (build : R → V) (empty : V).

(** The history of a table: the statistics and the rows of every version. *)
Variable version : nat → Statistics * R.
Let stat (i : nat) := fst (version i).
Let rows (i : nat) := snd (version i).

(** What the polling relies on: counters that no empty cache has, and counters
    that come back only when the rows did not change in between. *)
Definition distinguishing : Prop :=
  (∀ i, 0 ≤ Total (fst (version i))) ∧
  ∀ i j k, (i ≤ k ≤ j)%nat → fst (version i) = fst (version j) → snd (version k) = snd (version i).

(** A write, or a round of the cache during which the table can move from one
    version to a later one; either query can fail. *)
Inductive poll : nat * cacheT V → nat * cacheT V → Prop :=
| poll_write n c : poll (n, c) (S n, c)
| poll_sync i j c qs qr : (i ≤ j)%nat →
    qs = Ok (stat i) ∨ (∃ e, qs = Err e) → qr = Ok (rows j) ∨ (∃ e, qr = Err e) →
    poll (i, c) (j, fst (sync build c qs qr)).

Definition read_of (n : nat) (c : cacheT V) : Prop :=
  c = Cache_Reset empty ∨
  ∃ i j, (i ≤ j ≤ n)%nat ∧ c = Cache_Set (build (rows j)) (Total (stat i)) (LastUpdated (stat i)).

Lemma read_of_mono n m c : (n ≤ m)%nat → read_of n c → read_of m c.
Proof. intros Hle [?|(i & j & ? & ?)]; [by left|right]. exists i, j. split; [lia|done]. Qed.

Lemma poll_read_of s s' : poll s s' → read_of (fst s) (snd s) → read_of (fst s') (snd s').
Proof.
  destruct 1 as [n c|i j c qs qr Hij Hqs Hqr]; cbn [fst snd]; [apply read_of_mono; lia|].
  intros Hc. unfold sync. destruct Hqs as [->|[e ->]]; [|by apply (read_of_mono i)].
  destruct (negb _); [by apply (read_of_mono i)|].
  destruct Hqr as [->|[e ->]]; [|by apply (read_of_mono i)]. right. exists i, j. split; [lia|done].
Qed.

Lemma StatChanged_false (c : cacheT V) st :
  StatChanged c (Total st) (LastUpdated st) = false ↔ st = mkStatistics (statTotal c) (statLastUpdated c).
Proof.
  unfold StatChanged. destruct st as [t l]; cbn. split.
  - destruct (_ && _) eqn:E; [|done]. intros _. bool_prop. congruence.
  - intros [= -> ->]. by rewrite !Z.eqb_refl.
Qed.

(** C11. Whatever failures and races between the two queries came before, a round that works while
    nobody writes leaves the cache equal to the table, provided that the writes are
    [distinguishing]: the number of rows and the time of the last update come back to earlier
    values only if the rows did not change in between.  Other writes stay unseen
    ([poll_stale]). *)
Theorem poll_fresh n c c' err :
  distinguishing → rtc poll (0%nat, Cache_Reset empty) (n, c) →
  sync build c (Ok (fst (version n))) (Ok (snd (version n))) = (c', err) →
  err = None ∧ c_data c' = build (snd (version n)).
Proof.
  intros [Hpos Hdist] Hsteps.
  assert (∀ s s', rtc poll s s' → read_of (fst s) (snd s) → read_of (fst s') (snd s')) as Hg.
  { induction 1 as [|x y z Hxy _ IH]; [done|]. intros Hx. by eapply IH, poll_read_of. }
  apply Hg in Hsteps; [cbn [fst snd] in Hsteps|by left]. clear Hg.
  unfold sync. destruct (StatChanged _ _ _) eqn:Hch; cbn [negb].
  { intros [= <- <-]. done. }
  intros [= <- <-]. split; [done|]. apply StatChanged_false in Hch.
  destruct Hsteps as [->|(i & j & Hij & ->)].
  - exfalso. specialize (Hpos n). rewrite Hch in Hpos. cbn in Hpos. lia.
  - cbn in *. assert (stat i = fst (version n)) as Hst by (rewrite Hch; by destruct (stat i)).
    pose proof (Hdist i n j ltac:(lia) Hst) as H1. pose proof (Hdist i n n ltac:(lia) Hst) as H2.
    unfold rows. congruence.
Qed.

(** A change that leaves the number of rows and the time of the last update as
    they were stays unseen, however often the cache polls. *)
Theorem poll_stale c st (later : list R) :
  statTotal c = Total st → statLastUpdated c = LastUpdated st →
  foldl (λ c r, fst (sync build c (Ok st) (Ok r))) c later = c.
Proof.
  intros Ht Hl. induction later as [|r later IH]; [done|]. cbn [foldl].
  assert (fst (sync build c (Ok st) (Ok r)) = c) as ->; [|exact IH].
  unfold sync. replace (StatChanged c _ _) with false; [done|]. symmetry. apply StatChanged_false.
  rewrite Ht, Hl. by destruct st.
Qed.
End polling.

(** *** Grouping *)

Lemma append_at_lookup {A} (m : gmap Z (list A)) k x k' :
  default [] (append_at m k x !! k') = (default [] (m !! k') ++ (if decide (k = k') then [x] else []))%list.
Proof.
  unfold append_at. case_decide as Hk; [subst; by rewrite lookup_insert_eq|].
  rewrite lookup_insert_ne by done. by rewrite app_nil_r.
Qed.

Section subs.
Context `{RG : Regexp, GF : GoFmt}.
Context `{!Json (list TagFilter), !Json (list Z), !Json (list string), !Json iface}.

(** The subscriptions cached for a rule are those of the table that are enabled
    and decode, in the order of the table, once for every time they name the
    rule; those that name no rule are found under 0. *)
Theorem subs_by_rule_spec lst rid :
  default [] (subs_by_rule lst !! rid) =
  flat_map (λ s, map (λ _, s) (filter (λ r, r = rid) (Subscribe.RuleIds s))) (omap cached_subscribe lst).
Proof.
  unfold subs_by_rule. induction lst as [|s lst IH] using rev_ind; [done|].
  rewrite foldl_app, omap_app, flat_map_app. cbn [foldl omap list_omap].
  destruct (cached_subscribe s) as [s'|]; [|by rewrite IH, app_nil_r].
  rewrite <- IH. generalize (foldl (λ (subs : gmap Z (list AlertSubscribe)) s, match cached_subscribe s with
     | Some s => foldl (λ subs rid, append_at subs rid s) subs (Subscribe.RuleIds s) | None => subs end) ∅ lst) as m.
  cbn [flat_map]. rewrite app_nil_r. generalize (Subscribe.RuleIds s') as rids. clear.
  induction rids as [|r rids IH]; intros m; cbn [foldl]; [by rewrite app_nil_r|].
  rewrite IH, append_at_lookup, filter_cons, <- app_assoc. by case_decide.
Qed.
End subs.

Section datasource_maps_spec.
Context `{GR : GoRange, GL : GlobLib}.

Lemma insert2_lookup {K A} `{Countable K} (m : gmap string (gmap K A)) k1 k2 v c :
  default ∅ (insert2 m k1 k2 v !! c) =
  if decide (k1 = c) then <[k2 := v]> (default ∅ (m !! c)) else default ∅ (m !! c).
Proof.
  unfold insert2. case_decide as Hc; [subst; by rewrite lookup_insert_eq|by rewrite lookup_insert_ne].
Qed.

(** The rows are keyed by their identifier. *)
Definition keyed (ds : gmap Z Datasource) : Prop := ∀ id d, ds !! id = Some d → Source.Id d = id.

Lemma datasource_maps_lookup ds cate :
  keyed ds →
  (∀ id d, default ∅ (d_CateToIDs (datasource_maps ds) !! cate) !! id = Some d ↔
     ds !! id = Some d ∧ Source.PluginType d = cate) ∧
  d_ds (datasource_maps ds) = ds.
Proof.
  intros Hk. unfold datasource_maps.
  set (step := λ (d : dsdata) (kv : Z * Datasource), _).
  assert (∀ l d0, d_ds (foldl step d0 l) = d_ds d0) as Hds
    by (induction l as [|x l IH]; intros d0; cbn [foldl]; [done|by rewrite IH]).
  split; [|apply Hds].
  assert (∀ l d0 id d, (∀ i x, (i, x) ∈ l → Source.Id x = i) → NoDup l.*1 →
    (default ∅ (d_CateToIDs (foldl step d0 l) !! cate) !! id = Some d ↔
     (id, d) ∈ l ∧ Source.PluginType d = cate ∨
     (∀ x, (id, x) ∈ l → Source.PluginType x ≠ cate) ∧ default ∅ (d_CateToIDs d0 !! cate) !! id = Some d)) as Hg.
  { induction l as [|[i x] l IH]; intros d0 id d Hid Hnd; cbn [foldl]; [set_solver|].
    csimpl in Hnd. apply NoDup_cons in Hnd as [Hni Hnd].
    rewrite IH by (try done; intros; apply Hid; by apply list_elem_of_further). unfold step at 1. cbn [d_CateToIDs snd].
    rewrite insert2_lookup, (Hid i x) by apply list_elem_of_here.
    assert (∀ y, (i, y) ∈ l → False) as Hno by (intros y Hy; apply Hni; by eapply (list_elem_of_fmap_2' fst)).
    setoid_rewrite elem_of_cons. destruct (decide (Source.PluginType x = cate)) as [Hp|Hp].
    - destruct (decide (i = id)) as [->|Hne].
      + rewrite lookup_insert_eq. naive_solver.
      + rewrite lookup_insert_ne by done. naive_solver.
    - destruct (decide (i = id)) as [->|Hne]; naive_solver. }
  intros id d. rewrite Hg; [|by intros i x ?%elem_of_go_range; apply Hk|apply NoDup_fst_go_range].
  cbn [d_CateToIDs]. rewrite lookup_empty. cbn [default]. rewrite elem_of_go_range. cbn. rewrite lookup_empty. naive_solver.
Qed.

(** The data sources a rule runs on exist, are of the kind of the rule and are
    selected by all its queries, and these are all of them. *)
Theorem GetIDsByDsCateAndQueries_spec ds cate qs d :
  keyed ds →
  d ∈ GetIDsByDsCateAndQueries (datasource_maps ds) cate qs ↔
  qs ≠ [] ∧ (∃ x, GetById (datasource_maps ds) d = Some x ∧ Source.PluginType x = cate) ∧
  ∀ q, q ∈ qs → query_selects (default ∅ (d_CateToNames (datasource_maps ds) !! cate)) q d.
Proof.
  intros Hk. destruct (datasource_maps_lookup ds cate Hk) as [Hl Hd].
  unfold GetIDsByDsCateAndQueries, GetById. rewrite (proj1 (GetDatasourceIDs_spec _ _ _ _)), Hd.
  unfold is_Some. setoid_rewrite Hl. done.
Qed.
End datasource_maps_spec.

(** *** Hosts *)

Section hosts_spec.
Context `{!Json HostMeta, !Json HostUpdateTime}.

Lemma MGet_app `{Redis} l1 l2 : MGet (l1 ++ l2) = (MGet l1 ++ MGet l2)%list.
Proof. apply omap_app. Qed.

(** Asking redis in batches of a hundred is asking once for all keys. *)
Lemma batched_spec `{Redis} {A} (put : gmap string A → string → gmap string A) wrap idents keys num m :
  batched put wrap idents keys num m = foldl put m (MGet (keys ++ map wrap idents)).
Proof.
  revert keys num m. induction idents as [|i idents IH]; intros keys num m; cbn [batched map].
  - by rewrite app_nil_r.
  - destruct (S num =? 100)%nat; rewrite IH; [|by rewrite <- app_assoc].
    rewrite <- foldl_app, <- MGet_app. f_equal. cbn [app]. by rewrite <- app_assoc.
Qed.

(** What redis has for the host is a report of that host. *)
Definition reports_own (R : Redis) : Prop := ∀ ident value h,
  redis_Get (WrapIdentUpdateTime ident) = Some value →
  json_unmarshal value (mkHostUpdateTime "" 0) = (h, None) → hu_Ident h = ident.

(** The update time of a host by its own key: that of redis, or else the one of
    the cached target. *)
Definition update_time (R : Redis) (cache : gmap string Target) (ident : string) : option Z :=
  match redis_Get (WrapIdentUpdateTime ident) with
  | Some value =>
      match json_unmarshal value (mkHostUpdateTime "" 0) with
      | (h, None) => Some (hu_UpdateTime h)
      | (_, Some _) => Tgt.UpdateAt <$> cache !! ident
      end
  | None => Tgt.UpdateAt <$> cache !! ident
  end.

(** What redis reports for a host. *)
Definition reported (R : Redis) (ident : string) : option Z :=
  match redis_Get (WrapIdentUpdateTime ident) with
  | Some value => match json_unmarshal value (mkHostUpdateTime "" 0) with
                  | (h, None) => Some (hu_UpdateTime h)
                  | (_, Some _) => None
                  end
  | None => None
  end.

Lemma put_update_times (R : Redis) idents m ident :
  reports_own R →
  foldl put_update_time m (MGet (map WrapIdentUpdateTime idents)) !! ident =
  if decide (ident ∈ idents) then match reported R ident with Some z => Some z | None => m !! ident end
  else m !! ident.
Proof.
  intros Hown. revert m. induction idents as [|i idents IH]; intros m; [done|].
  unfold MGet in *. cbn [map omap list_omap].
  assert (foldl put_update_time m (match redis_Get (WrapIdentUpdateTime i) with
            Some v => [v] | None => [] end) !! ident
          = if decide (ident = i) then match reported R ident with Some z => Some z | None => m !! ident end
            else m !! ident) as Hone.
  { unfold reported. destruct (redis_Get (WrapIdentUpdateTime i)) as [v|] eqn:Hv; cbn [foldl].
    - unfold put_update_time. destruct (json_unmarshal v _) as [h [e|]] eqn:Hj.
      + destruct (decide (ident = i)) as [Hd|Hd]; [subst; by rewrite Hv, Hj|done].
      + pose proof (Hown i v h Hv Hj) as Hi. destruct (decide (ident = i)) as [Hd|Hd].
        * subst ident. by rewrite Hv, Hj, Hi, lookup_insert_eq.
        * rewrite lookup_insert_ne; [done|]. congruence.
    - destruct (decide (ident = i)) as [Hd|Hd]; [subst; by rewrite Hv|done]. }
  destruct (redis_Get (WrapIdentUpdateTime i)) as [v|] eqn:Hv; cbn [foldl] in *; rewrite IH, Hone;
    destruct (decide (ident = i)) as [Hd|Hd], (decide (ident ∈ idents)) as [Hi|Hi];
    rewrite ?(decide_True (P := ident ∈ i :: idents)) by set_solver;
    rewrite ?(decide_False (P := ident ∈ i :: idents)) by set_solver; by destruct (reported R ident).
Qed.

(** Every host of the list gets the update time that redis reports for it, or
    the one of its cached target, and no other host gets one. *)
Lemma GetHostUpdateTime_lookup (R : Redis) cache targets ident :
  reports_own R →
  GetHostUpdateTime (Some R) cache targets !! ident =
  if decide (ident ∈ targets) then update_time R cache ident else None.
Proof.
  intros Hown. unfold GetHostUpdateTime. rewrite batched_spec. cbn [app].
  set (m0 := foldl put_update_time ∅ _).
  assert (∀ l (m : gmap string Z), foldl (λ (m : gmap string Z) ident, match m !! ident with
            | Some _ => m
            | None => match cache !! ident with Some t => <[ident := Tgt.UpdateAt t]> m | None => m end
            end) m l !! ident
          = match m !! ident with
            | Some z => Some z
            | None => if decide (ident ∈ l) then Tgt.UpdateAt <$> cache !! ident else None
            end) as Hg.
  { induction l as [|i l IH]; intros m; cbn [foldl]; [by destruct (m !! ident)|].
    rewrite IH. destruct (decide (ident = i)) as [->|Hne].
    - rewrite (decide_True (P := i ∈ i :: l)) by apply list_elem_of_here.
      destruct (m !! i) eqn:Hm; [by rewrite Hm|]. destruct (cache !! i); [by rewrite lookup_insert_eq|].
      rewrite Hm. by case_decide.
    - assert (match m !! i with Some _ => m | None => match cache !! i with
                Some t => <[i := Tgt.UpdateAt t]> m | None => m end end !! ident = m !! ident) as ->
        by (destruct (m !! i); [done|]; destruct (cache !! i); [by rewrite lookup_insert_ne|done]).
      destruct (m !! ident); [done|]. repeat case_decide; set_solver. }
  rewrite Hg. unfold m0. rewrite put_update_times by done. rewrite lookup_empty.
  case_decide as Hin; [|done]. unfold reported, update_time.
  destruct (redis_Get _) as [v|]; [|done]. by destruct (json_unmarshal v _) as [h [e|]].
Qed.

Lemma targets_of_rules_step (m : gmap string (gmap Z (list string))) rid ts eng rid' :
  default [] (TargetsOfAlertRule_Get (foldl (λ m t,
      let inner := default ∅ (m !! Tgt.EngineName t) in
      <[Tgt.EngineName t := append_at inner rid (Tgt.Ident t)]> m) m ts) eng rid') =
  (default [] (TargetsOfAlertRule_Get m eng rid') ++
   (if decide (rid = rid') then map Tgt.Ident (filter (λ t, Tgt.EngineName t = eng) ts) else []))%list.
Proof.
  assert (∀ m, default [] (TargetsOfAlertRule_Get m eng rid')
               = default [] (default ∅ (m !! eng) !! rid')) as Hget
    by (intros m'; unfold TargetsOfAlertRule_Get; by destruct (m' !! eng)).
  revert m. induction ts as [|t ts IH]; intros m; cbn [foldl].
  { rewrite filter_nil. case_decide; by rewrite app_nil_r. }
  rewrite IH, !Hget, filter_cons. destruct (decide (Tgt.EngineName t = eng)) as [<-|Hne].
  - rewrite lookup_insert_eq. change (default ∅ (Some ?x)) with x.
    rewrite append_at_lookup, <- app_assoc. by destruct (decide (rid = rid')).
  - by rewrite lookup_insert_ne.
Qed.

(** The hosts of a rule on an engine are the targets its query found that
    report to that engine, in the order of the query. *)
Theorem targets_of_rules_spec rules rid ts eng :
  NoDup rules.*1 → (rid, ts) ∈ rules →
  default [] (TargetsOfAlertRule_Get (targets_of_rules rules) eng rid) =
  map Tgt.Ident (filter (λ t, Tgt.EngineName t = eng) ts).
Proof.
  intros Hnd Hin. unfold targets_of_rules.
  assert (∀ l m, default [] (TargetsOfAlertRule_Get (foldl (λ m rt, foldl (λ m t,
           let inner := default ∅ (m !! Tgt.EngineName t) in
           <[Tgt.EngineName t := append_at inner (fst rt) (Tgt.Ident t)]> m) m (snd rt)) m l) eng rid) =
    (default [] (TargetsOfAlertRule_Get m eng rid) ++
     flat_map (λ rt, if decide (fst rt = rid) then map Tgt.Ident (filter (λ t, Tgt.EngineName t = eng) (snd rt)) else []) l)%list) as Hg.
  { induction l as [|rt l IH]; intros m; cbn [foldl flat_map]; [by rewrite app_nil_r|].
    by rewrite IH, targets_of_rules_step, app_assoc. }
  rewrite Hg. unfold TargetsOfAlertRule_Get. rewrite lookup_empty. cbn.
  apply list_elem_of_split in Hin as (l1 & l2 & ->). rewrite flat_map_app. cbn [flat_map fst snd].
  rewrite fmap_app in Hnd. csimpl in Hnd. apply NoDup_app in Hnd as (_ & Hd1 & [Hd2 _]%NoDup_cons).
  assert (∀ l, rid ∉ l.*1 → flat_map (λ rt, if decide (fst rt = rid) then map Tgt.Ident
     (filter (λ t, Tgt.EngineName t = eng) (snd rt)) else []) l = []) as Hnil.
  { induction l as [|[r x] l IH]; [done|]. csimpl. intros Hni. rewrite decide_False by set_solver. apply IH. set_solver. }
  rewrite !Hnil by set_solver. rewrite decide_True by done. by rewrite app_nil_r.
Qed.
End hosts_spec.
