(* ===== verification/Joins.v ===== *)
(** * Joining the series of a rule: [alert/eval/eval.go], [pkg/hash]

    The queries of a rule return series; those with the same labels form a
    group, and the joins of a trigger combine the groups of two queries.  A group
    is a list of series hashes; an index maps a hash to a group. *)

From S2P Require Import Prelude GoStrings Json Models RuleModels.
Open Scope string_scope.
Open Scope Z_scope.

(** [DataResp] (models/ts.go). *)
Module Series.
Record DataResp := mkDataResp {
  Ref : string;
  Metric : gmap string string;
  Labels : string;
  Values : list (list float64);
  Query : string
}.
#[global] Instance DataResp_eta : Settable DataResp := λ r,
  mkDataResp (Ref r) (Metric r) (Labels r) (Values r) (Query r).
End Series.
Notation DataResp := Series.DataResp.

(** The last sample, when it is a pair. *)
Definition Last (d : DataResp) : option (float64 * float64) :=
  match last (Series.Values d) with
  | Some [t; v] => Some (t, v)
  | _ => None
  end.

Definition MetricName (d : DataResp) : string := default "" (Series.Metric d !! "__name__").

(** ** Hashes *)

(** [github.com/spaolacci/murmur3]. *)
Class Murmur3 := { murmur3_Sum64 : string → Z }.

Section hash.
Context `{GR : GoRange, MM : Murmur3}.
Implicit Types m : gmap string string.

Definition label_text m (k : string) : string := "/" +:+ k +:+ "/" +:+ default "" (m !! k).

Fixpoint sconcat (l : list string) : string :=
  match l with [] => "" | s :: l' => s +:+ sconcat l' end.

Definition GetHash m (ref : string) : Z :=
  murmur3_Sum64 (sconcat (map (label_text m) (sort_strings (map fst (go_range m)))) +:+ "/" +:+ ref).

Definition GetTagHash m : Z :=
  murmur3_Sum64 (sconcat (map (label_text m)
    (sort_strings (List.filter (λ k, negb (String.eqb k "__name__")) (map fst (go_range m)))))).

Definition GetTargetTagHash m (target : list string) : Z :=
  murmur3_Sum64 (sconcat (map (label_text m) target)).
End hash.

(** ** Joins *)

Notation group := (list Z).
Notation index := (gmap Z group).
Notation rehashed := (gmap Z (list group)).
Notation store := (gmap Z DataResp).

Inductive JoinType := Left | Right | Inner.
#[export] Instance JoinType_eq_dec : EqDecision JoinType.
Proof. solve_decision. Defined.

Definition mergeNewArray (arg : list group) : group := concat arg.

(** Values numbered from 0 in the order in which they are produced. *)
Definition numbered (l : list group) : index :=
  fst (foldl (λ mi g, (<[snd mi := g]> (fst mi), snd mi + 1)) (∅ : index, 0) l).

Section joins.
Context `{GR : GoRange, MM : Murmur3}.

Definition flatten (r : rehashed) : index := numbered (concat (map snd (go_range r))).

Definition onJoin (r1 r2 : rehashed) (joinType : JoinType) : rehashed :=
  foldl (λ m kg, let '(rehash, gs1) := kg in
           match r2 !! rehash with
           | Some gs2 =>
               let merged := flat_map (λ g1, map (λ g2, mergeNewArray [g1; g2]) gs2) gs1 in
               match merged with
               | [] => m
               | _ => <[rehash := (default [] (m !! rehash) ++ merged)%list]> m
               end
           | None => if decide (joinType = Inner) then m else <[rehash := gs1]> m
           end) ∅ (go_range r1).

Definition rehashSet (ix : index) (st : store) (on : list string) : rehashed :=
  foldl (λ m kg, let seriesHashes := snd kg in
           match seriesHashes with
           | [] => m
           | h :: _ =>
               match st !! h with
               | None => m
               | Some series =>
                   let rehash := GetTargetTagHash (Series.Metric series) on in
                   <[rehash := (default [] (m !! rehash) ++ [seriesHashes])%list]> m
               end
           end) ∅ (go_range ix).

Definition cartesianJoin (ix1 ix2 : index) : index :=
  numbered (flat_map (λ g1, map (λ g2, mergeNewArray [g1; g2]) (map snd (go_range ix2)))
              (map snd (go_range ix1))).

Definition noneJoin (ix1 ix2 : index) : index :=
  numbered (map snd (go_range ix1) ++ map snd (go_range ix2)).

Definition append_groups (m : index) (l : list (Z * group)) : index :=
  foldl (λ m kg, match m !! fst kg with
                 | None => <[fst kg := mergeNewArray [snd kg]]> m
                 | Some g => <[fst kg := (g ++ snd kg)%list]> m
                 end) m l.

Definition originalJoin (ix1 ix2 : index) : index :=
  append_groups (append_groups ∅ (go_range ix1)) (go_range ix2).

Definition exclude (r1 r2 : rehashed) : rehashed :=
  foldl (λ m kg, match r2 !! fst kg with
                 | None => <[fst kg := snd kg]> m
                 | Some _ => m
                 end) ∅ (go_range r1).

(** The maps are written in place. *)
Definition MakeSeriesMap (series : list DataResp) (ix : index) (st : store) : index * store :=
  foldl (λ acc s, let seriesHash := GetHash (Series.Metric s) (Series.Ref s) in
           let tagHash := GetTagHash (Series.Metric s) in
           (<[tagHash := (default [] (fst acc !! tagHash) ++ [seriesHash])%list]> (fst acc),
            <[seriesHash := s]> (snd acc))) (ix, st) series.

(** One join: the index and its rehashed form, which the joins without labels
    do not touch. *)
Definition join_step (indexes : gmap string index) (st : store) (acc : index * rehashed) (j : Join)
  : index * rehashed :=
  let '(last_, lastRehashed) := acc in
  let cur := default ∅ (indexes !! JoinConf.Ref j) in
  let curRehashed := rehashSet cur st (JoinConf.On j) in
  let ty := JoinConf.JoinType j in
  if String.eqb ty "original" then (originalJoin last_ cur, lastRehashed)
  else if String.eqb ty "none" then (noneJoin last_ cur, lastRehashed)
  else if String.eqb ty "cartesian" then (cartesianJoin last_ cur, lastRehashed)
  else if String.eqb ty "inner_join" then let r := onJoin lastRehashed curRehashed Inner in (flatten r, r)
  else if String.eqb ty "left_join" then let r := onJoin lastRehashed curRehashed Left in (flatten r, r)
  else if String.eqb ty "right_join" then let r := onJoin curRehashed lastRehashed Right in (flatten r, r)
  else if String.eqb ty "left_exclude" then let r := exclude lastRehashed curRehashed in (flatten r, r)
  else if String.eqb ty "right_exclude" then let r := exclude curRehashed lastRehashed in (flatten r, r)
  else (last_, lastRehashed).

Definition ProcessJoins (trigger : Trigger) (indexes : gmap string index) (st : store) : index :=
  if (size indexes =? 0)%nat then ∅
  else match Trig.Joins trigger with
  | [] =>
      match map snd (go_range indexes) with
      | [] => ∅
      | ix :: ixs => foldl originalJoin ix ixs
      end
  | j0 :: _ =>
      if (size indexes <? length (Trig.Joins trigger) + 1)%nat then ∅
      else
        let last_ := default ∅ (indexes !! Trig.JoinRef trigger) in
        fst (foldl (join_step indexes st) (last_, rehashSet last_ st (JoinConf.On j0)) (Trig.Joins trigger))
  end.
End joins.

(** ** Properties *)

(** *** Multisets of groups *)

(** The groups of an index, and the groups of a rehashed index with their keys;
    the order has no meaning. *)
Definition groups (ix : index) : list group := (map_to_list ix).*2.
Definition pairs (r : rehashed) : list (Z * group) :=
  flat_map (λ kg, map (pair (fst kg)) (snd kg)) (map_to_list r).

(** The groups under one key. *)
Definition at_key (r : rehashed) (k : Z) : list group := default [] (r !! k).
Definition with_key (k : Z) (l : list (Z * group)) : list group := (filter (λ p, p.1 = k) l).*2.

#[export] Instance with_key_Permutation k : Proper ((≡ₚ) ==> (≡ₚ)) (with_key k).
Proof. intros l l' Hl. unfold with_key. by rewrite Hl. Qed.

Lemma with_key_app k l1 l2 : with_key k (l1 ++ l2) = (with_key k l1 ++ with_key k l2)%list.
Proof. unfold with_key. by rewrite filter_app, fmap_app. Qed.

Lemma with_key_cons k k' g l :
  with_key k ((k', g) :: l) = if decide (k' = k) then g :: with_key k l else with_key k l.
Proof. unfold with_key. rewrite filter_cons. cbn [fst]. by case_decide. Qed.

Lemma with_key_map k k' gs : with_key k (map (pair k') gs) = if decide (k' = k) then gs else [].
Proof.
  unfold with_key. induction gs as [|g gs IH]; [by case_decide|]. cbn [map]. rewrite filter_cons. cbn [fst].
  destruct (decide (k' = k)); [|done]. csimpl. by rewrite IH.
Qed.

Definition pair_dec (x y : Z * group) : {x = y} + {x ≠ y} := decide (x = y).
Definition group_dec (x y : group) : {x = y} + {x ≠ y} := decide (x = y).

(** Two lists of pairs with the same groups under every key are the same
    multiset. *)
Lemma pairs_by_key (l1 l2 : list (Z * group)) : (∀ k, with_key k l1 ≡ₚ with_key k l2) → l1 ≡ₚ l2.
Proof.
  intros Hk. assert (∀ (l : list (Z * group)) k g,
    count_occ pair_dec l (k, g) = count_occ group_dec (with_key k l) g) as Hc.
  { intros l k g. unfold with_key. induction l as [|[k' g'] l IH]; [done|]. rewrite filter_cons. cbn [count_occ fst].
    destruct (decide (k' = k)) as [->|Hne].
    - rewrite fmap_cons. cbn [snd count_occ]. rewrite IH. destruct (pair_dec (k, g') (k, g)) as [E|N], (group_dec g' g) as [E'|N']; congruence.
    - rewrite IH. destruct (pair_dec (k', g') (k, g)) as [E|N]; congruence. }
  apply (Permutation_count_occ pair_dec). intros [k g]. rewrite !Hc.
  apply (Permutation_count_occ group_dec), Hk.
Qed.

Lemma with_key_pairs r k : with_key k (pairs r) = at_key r k.
Proof.
  unfold pairs, at_key.
  assert (∀ (l : list (Z * list group)), NoDup l.*1 →
    with_key k (flat_map (λ kg, map (pair (fst kg)) (snd kg)) l) = default [] ((list_to_map l : rehashed) !! k)) as Hg.
  { induction l as [|[k' gs] l IH]; intros Hnd; [done|]. csimpl in Hnd. apply NoDup_cons in Hnd as [Hni Hnd].
    cbn [flat_map fst snd]. rewrite list_to_map_cons, with_key_app, with_key_map, IH by done.
    destruct (decide (k' = k)) as [->|Hne].
    - rewrite lookup_insert_eq. apply not_elem_of_list_to_map_1 in Hni. rewrite Hni. cbn. by rewrite app_nil_r.
    - by rewrite lookup_insert_ne. }
  rewrite Hg by apply NoDup_fst_map_to_list. by rewrite list_to_map_to_list.
Qed.

Lemma numbered_groups l : groups (numbered l) ≡ₚ l.
Proof.
  unfold numbered. set (step := λ (mi : index * Z) (g : group), _).
  assert (∀ l m i, (∀ k, is_Some (m !! k) → k < i) → groups (fst (foldl step (m, i) l)) ≡ₚ groups m ++ l) as Hg.
  { clear l. induction l as [|g l' IH]; intros m i Hlt; cbn [foldl]; [by rewrite app_nil_r|]. unfold step at 2. cbn [fst snd].
    assert (m !! i = None) as Hi by (destruct (m !! i) eqn:E; [|done]; assert (i < i) by (apply Hlt; by rewrite E); lia).
    rewrite IH.
    - unfold groups. rewrite map_to_list_insert by done. csimpl. by rewrite Permutation_middle.
    - intros k. destruct (decide (i = k)) as [->|Hne]; [lia|]. rewrite lookup_insert_ne by done. intros ?%Hlt. lia. }
  rewrite Hg; [done|]. intros k. rewrite lookup_empty. by intros [? ?].
Qed.

(** *** The operations on rehashed indexes *)

(** No key without groups. *)
Definition tight (r : rehashed) : Prop := ∀ k, r !! k ≠ Some [].

Section join_spec.
Context `{GR : GoRange, MM : Murmur3}.

(** A loop over a map that decides for every key on its own. *)
Lemma foldl_by_key {A B} (f : Z → A → option B) (step : gmap Z B → Z * A → gmap Z B) (r : gmap Z A) k :
  (∀ m k a, m !! k = None → step m (k, a) = match f k a with Some b => <[k := b]> m | None => m end) →
  foldl step ∅ (go_range r) !! k = r !! k ≫= f k.
Proof.
  intros Hstep.
  assert (∀ l m, NoDup l.*1 → (∀ k, k ∈ l.*1 → m !! k = None) →
    foldl step m l !! k = match (list_to_map l : gmap Z A) !! k with Some a => f k a | None => m !! k end) as Hg.
  { induction l as [|[k' a] l IH]; intros m Hnd Hfresh; cbn [foldl]; [done|].
    csimpl in Hnd. apply NoDup_cons in Hnd as [Hni Hnd].
    assert (m !! k' = None) as Hm by (apply Hfresh; set_solver). rewrite Hstep by done. rewrite IH; [|done|].
    - rewrite list_to_map_cons. apply not_elem_of_list_to_map_1 in Hni as Hnone.
      destruct (decide (k' = k)) as [->|Hne].
      + rewrite Hnone, lookup_insert_eq. destruct (f k a); [by rewrite lookup_insert_eq|done].
      + rewrite lookup_insert_ne by done. destruct (f k' a); [by rewrite lookup_insert_ne|done].
    - intros k0 Hin. assert (k' ≠ k0) by (by intros ->). destruct (f k' a); [rewrite lookup_insert_ne by done|];
        apply Hfresh; set_solver. }
  rewrite Hg by (apply NoDup_fst_go_range || (intros; apply lookup_empty)). rewrite go_range_to_map.
  by destruct (r !! k).
Qed.

(** Combining the groups of one key. *)
Definition merged (gs1 gs2 : list group) : list group := flat_map (λ g1, map (λ g2, mergeNewArray [g1; g2]) gs2) gs1.

Lemma onJoin_lookup r1 r2 ty k :
  onJoin r1 r2 ty !! k = r1 !! k ≫= λ gs1,
    match r2 !! k with
    | Some gs2 => match merged gs1 gs2 with [] => None | _ => Some (merged gs1 gs2) end
    | None => if decide (ty = Inner) then None else Some gs1
    end.
Proof.
  unfold onJoin. rewrite (foldl_by_key (λ k gs1, match r2 !! k with
    | Some gs2 => match merged gs1 gs2 with [] => None | _ => Some (merged gs1 gs2) end
    | None => if decide (ty = Inner) then None else Some gs1 end)); [done|].
  intros m k0 gs1 Hm. fold (merged gs1). destruct (r2 !! k0) as [gs2|]; [|by destruct (decide (ty = Inner))].
  fold (merged gs1 gs2). destruct (merged gs1 gs2); [done|]. by rewrite Hm.
Qed.

Lemma exclude_lookup r1 r2 k :
  exclude r1 r2 !! k = r1 !! k ≫= λ gs1, match r2 !! k with Some _ => None | None => Some gs1 end.
Proof.
  unfold exclude. rewrite (foldl_by_key (λ k gs1, match r2 !! k with Some _ => None | None => Some gs1 end)); [done|].
  intros m k0 gs1 Hm. cbn [fst snd]. by destruct (r2 !! k0).
Qed.

(** The key of a group is that of its first series. *)
Definition key_of (st : store) (on : list string) (g : group) : option Z :=
  match g with
  | [] => None
  | h :: _ => match st !! h with Some s => Some (GetTargetTagHash (Series.Metric s) on) | None => None end
  end.

Definition keyed_groups (st : store) (on : list string) (gs : list group) : list (Z * group) :=
  omap (λ g, option_map (λ k, (k, g)) (key_of st on g)) gs.

Lemma rehashSet_at_key ix st on k :
  at_key (rehashSet ix st on) k = with_key k (keyed_groups st on (map snd (go_range ix))) ∧ tight (rehashSet ix st on).
Proof.
  unfold rehashSet. set (step := λ (m : rehashed) (kg : Z * group), _).
  assert (∀ (l : list (Z * group)) m, (at_key (foldl step m l) k = at_key m k ++ with_key k (keyed_groups st on (map snd l)))%list) as H1.
  { induction l as [|[k0 g] l IH]; intros m; cbn [foldl map]; [by rewrite app_nil_r|].
    rewrite IH. unfold step at 1, keyed_groups. cbn [omap list_omap snd]. destruct g as [|h g]; [done|]. cbn [key_of].
    destruct (st !! h) as [s|]; [|done]. cbn [option_map]. unfold at_key at 1, with_key at 2.
    rewrite filter_cons. cbn [fst]. destruct (decide (_ = k)) as [->|Hne].
    - rewrite lookup_insert_eq. cbn. by rewrite <- app_assoc.
    - by rewrite lookup_insert_ne. }
  assert (∀ (l : list (Z * group)) m, tight m → tight (foldl step m l)) as H2.
  { intros l m Hm. apply foldl_invariant; [done|]. intros m' [k0 g] _ Hm'. unfold step. cbn [snd].
    destruct g as [|h g]; [done|]. destruct (st !! h) as [s|]; [|done]. intros k1.
    destruct (decide (GetTargetTagHash (Series.Metric s) on = k1)) as [<-|Hne].
    - rewrite lookup_insert_eq. intros [= E]. by destruct (default [] _).
    - rewrite lookup_insert_ne by done. apply Hm'. }
  rewrite H1. split; [done|]. apply H2. intros k1. by rewrite lookup_empty.
Qed.

Lemma pairs_rehashSet ix st on : pairs (rehashSet ix st on) ≡ₚ keyed_groups st on (groups ix).
Proof.
  apply pairs_by_key. intros k. rewrite with_key_pairs, (proj1 (rehashSet_at_key ix st on k)).
  apply with_key_Permutation. unfold keyed_groups, groups. apply omap_Permutation. rewrite go_range_perm. done.
Qed.

(** *** The relational reference *)

(** Joins of two multisets of groups with keys of any kind. *)
Definition rel_inner {K} `{EqDecision K} (p1 p2 : list (K * group)) : list (K * group) :=
  flat_map (λ x, map (λ y, (x.1, x.2 ++ y.2)%list) (filter (λ y, y.1 = x.1) p2)) p1.
Definition unmatched {K} `{EqDecision K} (p1 p2 : list (K * group)) : list (K * group) := filter (λ x, x.1 ∉ p2.*1) p1.
Definition rel_left {K} `{EqDecision K} (p1 p2 : list (K * group)) : list (K * group) := (rel_inner p1 p2 ++ unmatched p1 p2)%list.

Definition rel_join {K} `{EqDecision K} (ty : string) (last_ cur : list (K * group)) : list (K * group) :=
  if String.eqb ty "inner_join" then rel_inner last_ cur
  else if String.eqb ty "left_join" then rel_left last_ cur
  else if String.eqb ty "right_join" then rel_left cur last_
  else if String.eqb ty "left_exclude" then unmatched last_ cur
  else if String.eqb ty "right_exclude" then unmatched cur last_
  else last_.

Definition on_labels (j : Join) : bool :=
  existsb (String.eqb (JoinConf.JoinType j))
    ["inner_join"; "left_join"; "right_join"; "left_exclude"; "right_exclude"].

Lemma merged_app gs1 gs1' gs2 : merged (gs1 ++ gs1') gs2 = (merged gs1 gs2 ++ merged gs1' gs2)%list.
Proof. apply flat_map_app. Qed.

Lemma merged_nil_r gs1 : merged gs1 [] = [].
Proof. by induction gs1. Qed.

#[local] Instance merged_Permutation : Proper ((≡ₚ) ==> (≡ₚ) ==> (≡ₚ)) merged.
Proof.
  intros g1 g1' H1 g2 g2' H2. unfold merged. etrans; [by apply Permutation_flat_map|].
  induction g1' as [|g g1' IH] in g1, H1 |- *; [done|]. cbn [flat_map]. apply Permutation_app.
  - by apply Permutation_map.
  - by apply (IH g1').
Qed.

Lemma with_key_inner k p1 p2 : with_key k (rel_inner p1 p2) = merged (with_key k p1) (with_key k p2).
Proof.
  unfold rel_inner. induction p1 as [|[k1 g1] p1 IH]; [done|]. cbn [flat_map fst snd].
  rewrite with_key_app, IH, with_key_cons.
  assert (with_key k (map (λ y, (k1, (g1 ++ y.2)%list)) (filter (λ y, y.1 = k1) p2)) =
          if decide (k1 = k) then map (app g1) (with_key k p2) else []) as ->.
  { rewrite <- (map_map (λ y, (g1 ++ y.2)%list) (pair k1)), with_key_map. case_decide as Hk; [|done]. subst.
    unfold with_key. change (@fmap list _ _ _ snd) with (@map (Z * group) group snd). by rewrite map_map. }
  destruct (decide (k1 = k)); [|done]. change (_ :: ?l) with ([g1] ++ l)%list.
  rewrite merged_app. f_equal. unfold merged. cbn [flat_map]. rewrite app_nil_r. apply map_ext.
  intros g2. unfold mergeNewArray. cbn [concat]. by rewrite app_nil_r.
Qed.

Lemma elem_of_keys k (p : list (Z * group)) : k ∈ p.*1 ↔ with_key k p ≠ [].
Proof.
  unfold with_key. induction p as [|[k' g] p IH]; [set_solver|]. rewrite filter_cons, fmap_cons. cbn [fst].
  rewrite elem_of_cons. destruct (decide (k' = k)) as [->|Hne].
  - rewrite fmap_cons. split; [done|by left].
  - rewrite IH. naive_solver.
Qed.

Lemma with_key_unmatched k p1 p2 :
  with_key k (unmatched p1 p2) = if decide (with_key k p2 = []) then with_key k p1 else [].
Proof.
  unfold unmatched, with_key at 1. rewrite list_filter_filter.
  destruct (decide (with_key k p2 = [])) as [He|He].
  - unfold with_key. f_equal. apply list_filter_iff. intros [k1 g1]. cbn. split; [naive_solver|].
    intros ->. split; [done|]. intros Hin%elem_of_keys. done.
  - rewrite list_filter_none; [done|]. intros [k1 g1] _. cbn. intros [-> Hn]. apply Hn. by apply elem_of_keys.
Qed.

(** *** The code implements the reference *)

Lemma at_key_None r k : tight r → r !! k = None ↔ at_key r k = [].
Proof. intros Ht. unfold at_key. specialize (Ht k). destruct (r !! k) as [gs|]; cbn; naive_solver. Qed.

Lemma onJoin_pairs r1 r2 ty :
  tight r1 → tight r2 →
  tight (onJoin r1 r2 ty) ∧
  pairs (onJoin r1 r2 ty) ≡ₚ (if decide (ty = Inner) then rel_inner else rel_left) (pairs r1) (pairs r2).
Proof.
  intros H1 H2. split.
  - intros k. rewrite onJoin_lookup. destruct (r1 !! k) as [gs1|] eqn:E1; [|done]. cbn.
    destruct (r2 !! k) as [gs2|]; [by destruct (merged gs1 gs2)|]. case_decide; [done|].
    intros [= ->]. by apply (H1 k).
  - apply pairs_by_key. intros k. rewrite with_key_pairs.
    assert (at_key (onJoin r1 r2 ty) k = if decide (ty = Inner) then merged (at_key r1 k) (at_key r2 k)
      else merged (at_key r1 k) (at_key r2 k) ++ (if decide (at_key r2 k = []) then at_key r1 k else []))%list as ->.
    { pose proof (at_key_None r2 k H2) as Hn. unfold at_key at 1. rewrite onJoin_lookup.
      destruct (r2 !! k) as [gs2|] eqn:E2.
      - rewrite (decide_False (P := at_key r2 k = [])) by naive_solver. rewrite app_nil_r.
        assert (at_key r2 k = gs2) as -> by (unfold at_key; by rewrite E2).
        unfold at_key. destruct (r1 !! k) as [gs1|]; cbn -[merged]; [|by case_decide].
        destruct (merged gs1 gs2); by case_decide.
      - assert (at_key r2 k = []) as -> by naive_solver. rewrite merged_nil_r, (decide_True (P := @nil group = [])) by done. cbn [app].
        unfold at_key. destruct (r1 !! k) as [gs1|]; cbn; by case_decide. }
    unfold rel_left. case_decide; rewrite ?with_key_app, with_key_inner, ?with_key_unmatched, !with_key_pairs; done.
Qed.

Lemma exclude_pairs r1 r2 :
  tight r1 → tight r2 → tight (exclude r1 r2) ∧ pairs (exclude r1 r2) ≡ₚ unmatched (pairs r1) (pairs r2).
Proof.
  intros H1 H2. split.
  - intros k. rewrite exclude_lookup. destruct (r1 !! k) as [gs1|] eqn:E1; [|done]. cbn.
    destruct (r2 !! k); [done|]. intros [= ->]. by apply (H1 k).
  - apply pairs_by_key. intros k. rewrite with_key_pairs, with_key_unmatched, !with_key_pairs.
    pose proof (at_key_None r2 k H2) as Hn. unfold at_key at 1. rewrite exclude_lookup.
    destruct (r2 !! k); [rewrite decide_False by naive_solver|rewrite decide_True by naive_solver];
      unfold at_key; by destruct (r1 !! k).
Qed.

Lemma rel_join_Permutation ty (p p' q q' : list (Z * group)) : p ≡ₚ p' → q ≡ₚ q' → rel_join ty p q ≡ₚ rel_join ty p' q'.
Proof.
  intros Hp Hq.
  assert (∀ a a' b b' : list (Z * group), a ≡ₚ a' → b ≡ₚ b' → rel_inner a b ≡ₚ rel_inner a' b' ∧ unmatched a b ≡ₚ unmatched a' b') as Hg.
  { intros a a' b b' Ha Hb. split; apply pairs_by_key; intros k.
    - by rewrite !with_key_inner, Ha, Hb.
    - rewrite !with_key_unmatched. assert (with_key k b = [] ↔ with_key k b' = []) as Hiff.
      { split; intros E; apply Permutation_nil; [rewrite <- E|rewrite <- E]; by rewrite Hb. }
      repeat case_decide; try tauto; [by rewrite Ha|done]. }
  unfold rel_join, rel_left.
  destruct (Hg p p' q q' Hp Hq) as [E1 E2], (Hg q q' p p' Hq Hp) as [E3 E4].
  repeat (destruct (String.eqb _ _)); rewrite ?E1, ?E2, ?E3, ?E4; done.
Qed.

Lemma flatten_groups r : groups (flatten r) ≡ₚ (pairs r).*2.
Proof.
  unfold flatten. rewrite numbered_groups, go_range_perm. unfold pairs.
  induction (map_to_list r) as [|[k gs] l IH]; [done|]. cbn [map concat flat_map fst snd]. rewrite fmap_app, IH.
  apply Permutation_app; [|done]. change (@fmap list _ _ _ snd) with (@map (Z * group) group snd).
  by rewrite map_map, map_id.
Qed.

(** The groups of a query, with the keys of a join. *)
Definition query_pairs (indexes : gmap string index) (st : store) (ref : string) (on : list string) : list (Z * group) :=
  keyed_groups st on (groups (default ∅ (indexes !! ref))).

Lemma join_step_spec indexes st ix r p j :
  on_labels j = true → tight r → pairs r ≡ₚ p →
  let acc := join_step indexes st (ix, r) j in
  tight (snd acc) ∧
  pairs (snd acc) ≡ₚ rel_join (JoinConf.JoinType j) p (query_pairs indexes st (JoinConf.Ref j) (JoinConf.On j)) ∧
  groups (fst acc) ≡ₚ (pairs (snd acc)).*2.
Proof.
  intros Hj Hr Hp. set (q := query_pairs _ _ _ _). set (cur := rehashSet (default ∅ (indexes !! JoinConf.Ref j)) st (JoinConf.On j)).
  assert (tight cur) as Hc by apply (rehashSet_at_key _ _ _ 0).
  assert (pairs cur ≡ₚ q) as Hq by apply pairs_rehashSet.
  destruct (onJoin_pairs r cur Inner Hr Hc) as [T1 P1], (onJoin_pairs r cur Left Hr Hc) as [T2 P2],
    (onJoin_pairs cur r Right Hc Hr) as [T3 P3], (exclude_pairs r cur Hr Hc) as [T4 P4], (exclude_pairs cur r Hc Hr) as [T5 P5].
  rewrite decide_True in P1 by done. rewrite decide_False in P2 by done. rewrite decide_False in P3 by done.
  cbv zeta. rewrite <- (rel_join_Permutation _ _ _ _ _ Hp Hq).
  unfold on_labels in Hj. apply existsb_elem_of in Hj as (ty & Hin & E%String.eqb_eq).
  unfold join_step. fold cur. rewrite E.
  set_unfold in Hin. destruct Hin as [->|[->|[->|[->|[->|[]]]]]]; cbn [String.eqb Ascii.eqb Bool.eqb rel_join fst snd];
    split_and!; try done; apply flatten_groups.
Qed.

Lemma join_steps_spec indexes st js ix r p :
  forallb on_labels js = true → tight r → pairs r ≡ₚ p →
  let acc := foldl (join_step indexes st) (ix, r) js in
  pairs (snd acc) ≡ₚ foldl (λ p j, rel_join (JoinConf.JoinType j) p (query_pairs indexes st (JoinConf.Ref j) (JoinConf.On j))) p js ∧
  (js ≠ [] → groups (fst acc) ≡ₚ (pairs (snd acc)).*2).
Proof.
  cbv zeta. revert ix r p. induction js as [|j js IH]; intros ix r p Hjs Hr Hp; cbn [foldl]; [done|].
  cbn [forallb] in Hjs. apply andb_prop in Hjs as [Hj Hjs].
  destruct (join_step_spec indexes st ix r p j Hj Hr Hp) as (H1 & H2 & H3).
  destruct (join_step indexes st (ix, r) j) as [ix' r']. cbn [fst snd] in *.
  destruct (IH ix' r' _ Hjs H1 H2) as [H4 H5]. split; [done|]. intros _.
  destruct js as [|j' js']; [exact H3|by apply H5].
Qed.

(** What joining on labels computes in terms of hashes. *)
Lemma ProcessJoins_hashed trigger indexes st j0 js :
  Trig.Joins trigger = j0 :: js → forallb on_labels (j0 :: js) = true →
  (length (j0 :: js) + 1 ≤ size indexes)%nat →
  groups (ProcessJoins trigger indexes st) ≡ₚ
  (foldl (λ p j, rel_join (JoinConf.JoinType j) p (query_pairs indexes st (JoinConf.Ref j) (JoinConf.On j)))
     (query_pairs indexes st (Trig.JoinRef trigger) (JoinConf.On j0)) (j0 :: js)).*2.
Proof.
  intros Hjs Hall Hsize. unfold ProcessJoins. rewrite Hjs.
  rewrite (proj2 (Nat.eqb_neq (size indexes) 0)) by (cbn in Hsize; lia).
  rewrite (proj2 (Nat.ltb_ge _ _) Hsize).
  set (ix := default ∅ (indexes !! Trig.JoinRef trigger)).
  destruct (join_steps_spec indexes st (j0 :: js) ix (rehashSet ix st (JoinConf.On j0))
    (query_pairs indexes st (Trig.JoinRef trigger) (JoinConf.On j0)) Hall) as [H1 H2].
  - apply (rehashSet_at_key _ _ _ 0).
  - apply pairs_rehashSet.
  - rewrite H2 by done. by rewrite H1.
Qed.

(** *** Keys as values of labels *)

Lemma rel_inner_keys {K} `{EqDecision K} (p1 p2 : list (K * group)) k : k ∈ (rel_inner p1 p2).*1 → k ∈ p1.*1.
Proof.
  intros ([k' g] & -> & Hin)%list_elem_of_fmap. unfold rel_inner in Hin.
  apply list_elem_of_In, in_flat_map in Hin as ([k1 g1] & H1 & H2). apply in_map_iff in H2 as (y & [= <- <-] & _).
  apply list_elem_of_In in H1. by apply (list_elem_of_fmap_2' fst _ _ _ H1).
Qed.

Lemma rel_join_keys {K} `{EqDecision K} ty (p q : list (K * group)) k :
  k ∈ (rel_join ty p q).*1 → k ∈ p.*1 ∨ k ∈ q.*1.
Proof.
  assert (∀ p q : list (K * group), k ∈ (unmatched p q).*1 → k ∈ p.*1) as Hu.
  { intros p' q' ([k' g] & -> & [_ Hin]%list_elem_of_filter)%list_elem_of_fmap. by apply (list_elem_of_fmap_2' fst _ _ _ Hin). }
  unfold rel_join, rel_left. repeat case_match; rewrite ?fmap_app, ?elem_of_app; intros Hk;
    repeat match goal with Hk : _ ∨ _ |- _ => destruct Hk as [Hk|Hk] end;
    first [apply rel_inner_keys in Hk|apply Hu in Hk|idtac]; auto.
Qed.

(** Renaming the keys without identifying any commutes with the joins. *)
Section rename.
Context {K : Type} `{EqDecision K} (φ : K → Z) (ks : list K).
Context (Hinj : ∀ k k', k ∈ ks → k' ∈ ks → φ k = φ k' → k = k').
Definition renamed (p : list (K * group)) : list (Z * group) := map (λ x, (φ x.1, x.2)) p.

Lemma renamed_app a b : renamed (a ++ b)%list = (renamed a ++ renamed b)%list.
Proof. apply map_app. Qed.

Lemma renamed_unmatched p q : p.*1 ⊆ ks → q.*1 ⊆ ks → unmatched (renamed p) (renamed q) = renamed (unmatched p q).
Proof.
  intros Hp Hq. unfold unmatched, renamed. induction p as [|[k g] p IH]; [done|]. cbn [map]. rewrite !filter_cons. cbn [fst].
  assert (φ k ∉ (map (λ x : K * group, (φ x.1, x.2)) q).*1 ↔ k ∉ q.*1) as Hiff.
  { split; intros Hn Hin; apply Hn.
    - apply list_elem_of_fmap in Hin as ([k' g'] & -> & Hin). apply list_elem_of_fmap. exists (φ k', g'). split; [done|].
      apply list_elem_of_fmap. by exists (k', g').
    - apply list_elem_of_fmap in Hin as ([k' g'] & E & Hin). cbn in E. subst k'. apply list_elem_of_fmap in Hin as ([k2 g2] & [= E _] & Hin).
      assert (k2 ∈ q.*1) as H2 by by apply (list_elem_of_fmap_2' fst _ _ _ Hin).
      apply Hinj in E as ->; [done|apply Hp; csimpl; set_solver|by apply Hq]. }
  rewrite IH by (intros x Hx; apply Hp; csimpl; set_solver).
  destruct (decide (k ∉ q.*1)) as [H1|H1]; [rewrite decide_True by by apply Hiff|rewrite decide_False by (by rewrite Hiff)]; done.
Qed.

Lemma renamed_inner p q : p.*1 ⊆ ks → q.*1 ⊆ ks → rel_inner (renamed p) (renamed q) = renamed (rel_inner p q).
Proof.
  intros Hp Hq. induction p as [|[k g] p IH]; [done|].
  assert (∀ k g p q, @rel_inner K _ ((k, g) :: p) q = (map (λ y, (k, (g ++ y.2)%list)) (filter (λ y, y.1 = k) q) ++ rel_inner p q)%list) as -> by done.
  change (renamed ((k, g) :: p)) with ((φ k, g) :: renamed p).
  assert (∀ k g p q, @rel_inner Z _ ((k, g) :: p) q = (map (λ y, (k, (g ++ y.2)%list)) (filter (λ y, y.1 = k) q) ++ rel_inner p q)%list) as -> by done.
  rewrite IH by (intros x Hx; apply Hp; csimpl; set_solver). rewrite renamed_app. f_equal.
  clear IH. induction q as [|[k' g'] q IH]; [done|]. cbn [renamed map]. rewrite !filter_cons. cbn [fst].
  assert (φ k' = φ k ↔ k' = k) as Hiff.
  { split; [|by intros ->]. apply Hinj; [apply Hq|apply Hp]; csimpl; set_solver. }
  specialize (IH (λ x Hx, Hq x ltac:(csimpl; set_solver))).
  destruct (decide (k' = k)) as [E|E]; [rewrite decide_True by by apply Hiff|rewrite decide_False by by rewrite Hiff]; [|done].
  cbn [renamed map fst snd]. f_equal. exact IH.
Qed.

Lemma renamed_join ty p q : p.*1 ⊆ ks → q.*1 ⊆ ks → rel_join ty (renamed p) (renamed q) = renamed (rel_join ty p q).
Proof.
  intros Hp Hq. unfold rel_join, rel_left.
  repeat case_match; rewrite ?renamed_app, ?renamed_inner, ?renamed_unmatched by done; done.
Qed.
End rename.

(** The groups of a query with the values that the labels have in their first series. *)
Definition on_values (on : list string) (m : gmap string string) : list string := map (λ k, default "" (m !! k)) on.
Definition labelled (st : store) (on : list string) (gs : list group) : list (list string * group) :=
  omap (λ g, match g with [] => None | h :: _ => option_map (λ s, (on_values on (Series.Metric s), g)) (st !! h) end) gs.
Definition query_rows (indexes : gmap string index) (st : store) (ref : string) (on : list string) : list (list string * group) :=
  labelled st on (groups (default ∅ (indexes !! ref))).

(** The hash of the values, which tells those that occur apart. *)
Definition values_hash (on vs : list string) : Z :=
  murmur3_Sum64 (sconcat (zip_with (λ k v, "/" +:+ k +:+ "/" +:+ v) on vs)).
Definition hash_separates (st : store) (on : list string) : Prop :=
  ∀ h1 h2 s1 s2, st !! h1 = Some s1 → st !! h2 = Some s2 →
    GetTargetTagHash (Series.Metric s1) on = GetTargetTagHash (Series.Metric s2) on →
    on_values on (Series.Metric s1) = on_values on (Series.Metric s2).

Lemma values_hash_target on m : values_hash on (on_values on m) = GetTargetTagHash m on.
Proof.
  unfold values_hash, GetTargetTagHash, on_values. do 2 f_equal. unfold label_text.
  induction on as [|k on IH]; [done|]. cbn [map zip_with]. by rewrite IH.
Qed.

Lemma query_rows_hashed indexes st ref on :
  query_pairs indexes st ref on = renamed (values_hash on) (query_rows indexes st ref on).
Proof.
  unfold query_pairs, query_rows, keyed_groups, labelled, renamed. induction (groups _) as [|g gs IH]; [done|].
  cbn [omap list_omap]. unfold key_of. destruct g as [|h g]; [done|]. destruct (st !! h) as [s|]; [|done].
  cbn [option_map map fst snd]. rewrite values_hash_target. f_equal. exact IH.
Qed.

Definition stored_values (st : store) (on : list string) : list (list string) := map (λ s, on_values on (Series.Metric s)) (map_to_list st).*2.
Lemma query_rows_stored indexes st ref on : (query_rows indexes st ref on).*1 ⊆ stored_values st on.
Proof.
  intros k ([k' g] & -> & Hin)%list_elem_of_fmap. apply list_elem_of_omap in Hin as (g' & _ & Hk).
  destruct g' as [|h g']; [done|]. destruct (st !! h) as [s|] eqn:Hs; [|done]. injection Hk as <- <-.
  apply list_elem_of_fmap. exists s. split; [done|]. apply list_elem_of_fmap. exists (h, s). split; [done|]. by apply elem_of_map_to_list.
Qed.

Lemma stored_separates st on k k' : hash_separates st on →
  k ∈ stored_values st on → k' ∈ stored_values st on → values_hash on k = values_hash on k' → k = k'.
Proof.
  intros Hs (s & -> & ([h ?] & -> & H1)%list_elem_of_fmap)%list_elem_of_fmap (s' & -> & ([h' ?] & -> & H2)%list_elem_of_fmap)%list_elem_of_fmap.
  apply elem_of_map_to_list in H1, H2. rewrite !values_hash_target. cbn. eauto.
Qed.

Lemma joins_renamed indexes st on js p : hash_separates st on → p.*1 ⊆ stored_values st on →
  Forall (λ j, JoinConf.On j = on) js →
  foldl (λ p j, rel_join (JoinConf.JoinType j) p (query_pairs indexes st (JoinConf.Ref j) (JoinConf.On j))) (renamed (values_hash on) p) js =
  renamed (values_hash on) (foldl (λ p j, rel_join (JoinConf.JoinType j) p (query_rows indexes st (JoinConf.Ref j) on)) p js).
Proof.
  intros Hs Hp Hon. revert p Hp. induction Hon as [|j js Hj Hon IH]; intros p Hp; [done|]. cbn [foldl].
  rewrite Hj, query_rows_hashed, (renamed_join _ (stored_values st on)); [| |done|apply query_rows_stored].
  - apply IH. intros k [Hk|Hk]%rel_join_keys; [by apply Hp|by apply query_rows_stored in Hk].
  - intros k k'. by apply stored_separates.
Qed.

(** C9. A trigger all of whose joins are on the same labels computes the relational joins of the
    queries, one after the other: rows match when they have the same values of these labels,
    a missing label counting as empty.  This needs one more query than joins, as the code
    gives nothing otherwise, and that the hash tells the values that occur apart.  It holds
    for every order in which Go visits its maps, the groups being compared as a multiset. *)
Theorem ProcessJoins_relational trigger indexes st on j0 js :
  Trig.Joins trigger = j0 :: js → forallb on_labels (j0 :: js) = true → Forall (λ j, JoinConf.On j = on) (j0 :: js) →
  (length (j0 :: js) + 1 ≤ size indexes)%nat → hash_separates st on →
  groups (ProcessJoins trigger indexes st) ≡ₚ
  (foldl (λ rows j, rel_join (JoinConf.JoinType j) rows (query_rows indexes st (JoinConf.Ref j) on))
     (query_rows indexes st (Trig.JoinRef trigger) on) (j0 :: js)).*2.
Proof.
  intros Hjs Hall Hon Hsize Hs. rewrite (ProcessJoins_hashed trigger indexes st j0 js) by done.
  pose proof (Forall_inv Hon) as Hj0. cbn beta in Hj0. rewrite Hj0, query_rows_hashed, joins_renamed; [|done|apply query_rows_stored|done].
  set (rows := foldl _ _ _). clearbody rows. unfold renamed. by induction rows as [|x rows IH]; [|csimpl; rewrite IH].
Qed.

(** *** A join without labels is forgotten by the next join with labels *)

Lemma join_step_plain indexes st ix r j : on_labels j = false → snd (join_step indexes st (ix, r) j) = r.
Proof.
  unfold on_labels. intros Hj. pose proof (proj1 (existsb_false_elem_of _ _) Hj) as Hn.
  unfold join_step. do 3 (destruct (String.eqb (JoinConf.JoinType j) _); [done|]).
  by rewrite !(Hn _) by set_solver.
Qed.

Lemma join_step_labels indexes st ix ix' r j :
  on_labels j = true → join_step indexes st (ix, r) j = join_step indexes st (ix', r) j.
Proof.
  unfold on_labels. intros (ty & Hin & E%String.eqb_eq)%existsb_elem_of. unfold join_step. rewrite E.
  set_unfold in Hin. by destruct Hin as [->|[->|[->|[->|[->|[]]]]]].
Qed.

Lemma join_steps_index indexes st js ix ix' r :
  existsb on_labels js = true →
  foldl (join_step indexes st) (ix, r) js = foldl (join_step indexes st) (ix', r) js.
Proof.
  revert ix ix' r. induction js as [|j js IH]; intros ix ix' r Hjs; cbn [foldl existsb] in *; [done|].
  destruct (on_labels j) eqn:Hj.
  - by rewrite (join_step_labels _ _ ix ix') by done.
  - pose proof (join_step_plain indexes st ix r j Hj) as E1. pose proof (join_step_plain indexes st ix' r j Hj) as E2.
    destruct (join_step indexes st (ix, r) j) as [a b], (join_step indexes st (ix', r) j) as [a' b']. cbn in *. subst.
    by apply IH.
Qed.

(** An original, none or cartesian join that comes before a join on labels has no
    effect: the trigger without it gives the same groups. *)
Theorem ProcessJoins_forgets trigger indexes st j0 js1 j js2 :
  Trig.Joins trigger = (j0 :: js1 ++ j :: js2)%list → on_labels j = false → existsb on_labels js2 = true →
  (length (Trig.Joins trigger) + 1 ≤ size indexes)%nat →
  ProcessJoins trigger indexes st = ProcessJoins (trigger <| Trig.Joins := (j0 :: js1 ++ js2)%list |>) indexes st.
Proof.
  intros Hjs Hj Hl Hsize. unfold ProcessJoins. rsimp. rewrite Hjs. rewrite Hjs in Hsize.
  assert (length (j0 :: js1 ++ js2) + 1 ≤ size indexes)%nat as Hsize'
    by (cbn [length] in *; rewrite !length_app in *; cbn [length] in *; lia).
  rewrite (proj2 (Nat.eqb_neq (size indexes) 0)) by (cbn in Hsize; lia).
  rewrite (proj2 (Nat.ltb_ge _ _) Hsize), (proj2 (Nat.ltb_ge _ _) Hsize').
  f_equal. cbn [foldl]. rewrite !foldl_app. cbn [foldl].
  destruct (foldl _ (join_step _ _ _ j0) js1) as [ix r].
  pose proof (join_step_plain indexes st ix r j Hj) as E. destruct (join_step indexes st (ix, r) j) as [ix' r']. cbn in E. subst r'.
  by apply join_steps_index.
Qed.

(** *** The keys are those of the first join *)

Lemma keyed_groups_keys st on gs k : k ∈ (keyed_groups st on gs).*1 → ∃ m, k = GetTargetTagHash m on.
Proof.
  intros ([k' g] & -> & Hin)%list_elem_of_fmap. unfold keyed_groups in Hin.
  apply list_elem_of_omap in Hin as (g' & _ & Hk). unfold key_of in Hk. destruct g' as [|h g']; [done|].
  destruct (st !! h) as [s|]; [|done]. injection Hk as <- <-. by exists (Series.Metric s).
Qed.

Lemma rel_inner_disjoint (p1 p2 : list (Z * group)) : (∀ k, k ∈ p1.*1 → k ∉ p2.*1) → rel_inner p1 p2 = [].
Proof.
  intros Hd. unfold rel_inner. induction p1 as [|[k g] p1 IH]; [done|]. cbn [flat_map fst snd].
  rewrite IH by (intros; apply Hd; csimpl; set_solver). rewrite list_filter_none; [done|].
  intros [k2 g2] Hin. cbn. intros ->. apply (Hd k); [csimpl; set_solver|]. by apply (list_elem_of_fmap_2' fst _ _ _ Hin).
Qed.

(** A second inner join on another label compares hashes of different labels: it
    finds nothing, although series agree on that label. *)
Theorem ProcessJoins_other_label trigger indexes st a b ref1 ref2 :
  Trig.Joins trigger = [JoinConf.mkJoin "inner_join" ref1 [a]; JoinConf.mkJoin "inner_join" ref2 [b]] →
  (∀ m m', GetTargetTagHash m [a] ≠ GetTargetTagHash m' [b]) → (3 ≤ size indexes)%nat →
  groups (ProcessJoins trigger indexes st) = [].
Proof.
  intros Hjs Hab Hsize. unfold ProcessJoins. rewrite Hjs.
  rewrite (proj2 (Nat.eqb_neq (size indexes) 0)) by lia. rewrite (proj2 (Nat.ltb_ge _ _)) by (cbn; lia).
  cbn [JoinConf.On]. set (ix := default ∅ (indexes !! Trig.JoinRef trigger)).
  match goal with |- groups (fst (foldl _ _ ?l)) = _ => destruct (join_steps_spec indexes st l ix (rehashSet ix st [a])
    (query_pairs indexes st (Trig.JoinRef trigger) [a])) as [H1 H2] end.
  - done.
  - apply (rehashSet_at_key _ _ _ 0).
  - apply pairs_rehashSet.
  - apply Permutation_nil. symmetry. rewrite H2, H1 by done. cbn [foldl JoinConf.JoinType JoinConf.Ref JoinConf.On].
    unfold rel_join at 1. cbn [String.eqb Ascii.eqb Bool.eqb]. rewrite rel_inner_disjoint; [done|].
    intros k Hk [m' Hm']%keyed_groups_keys. unfold rel_join in Hk. cbn [String.eqb Ascii.eqb Bool.eqb] in Hk.
    apply rel_inner_keys, keyed_groups_keys in Hk as [m Hm]. by apply (Hab m m'); congruence.
Qed.
End join_spec.
