(* ===== verification/Scheduler.v ===== *)
(** * The scheduler of rule evaluations: [alert/eval/alert_rule.go]

    Every nine seconds the engine compares the rules of the cache that its hash
    rings give to it with the workers it runs: it creates a worker for every
    rule and data source, keeps the running ones whose hash is unchanged, starts
    the new ones after loading their firing events from the database, and stops
    the others.  Rules that other programs evaluate get a processor instead. *)

From Stdlib Require Import Ascii.
From S2P Require Import Prelude GoStrings Json Models RuleModels EventOps Filter RuleOps EventTable Process Naming Caches Joins.
Open Scope string_scope.
Open Scope Z_scope.

(** The schedule of a pattern that parses: the seconds between the next two
    times after [now]. *)
Class CronSchedule := { cron_interval : string → Z → Z }.

(** The rows of the current-event table for a rule and a data source. *)
Class CurEventRows := { cur_event_rows : Z → Z → result (list AlertCurEvent) }.

Section scheduler.
Context `{GR : GoRange, CH : ConsistentLib, SL : StrLib, CR : CronLib, CS : CronSchedule}.
Context `{GL : GlobLib, QL : EventQueueLib, DBR : CurEventRows}.

Record sconf := mkSconf {
  s_EngineName : string;
  s_Endpoint : string;
  s_IsCenter : bool;
  s_EventMuteHook : AlertCurEvent → bool;
  s_queue : equeue
}.
Implicit Types (cf : sconf) (rule : AlertRule) (c : caches).

Definition proc_conf cf (datasourceId : Z) : pconf :=
  mkPconf datasourceId (s_EngineName cf) (s_IsCenter cf) (s_EventMuteHook cf).

(** ** Workers *)

Definition NewProcessor cf rule : pstate := mkPstate rule false 0 ∅ ∅ ∅ ∅ (s_queue cf) [].

(** A worker; [w_serial] tells the objects apart. *)
Record worker := mkWorker {
  w_serial : nat;
  w_DatasourceId : Z;
  w_Rule : AlertRule;
  w_Inhibit : bool;
  w_LastSeriesStore : store;
  w_Processor : pstate
}.
#[global] Instance worker_eta : Settable worker := λ r,
  mkWorker (w_serial r) (w_DatasourceId r) (w_Rule r) (w_Inhibit r) (w_LastSeriesStore r) (w_Processor r).

(** An empty pattern becomes one from the interval, in the rule object itself,
    which the worker, its processor and the cache share. *)
Definition with_cron rule : AlertRule :=
  let interval := if Rule.PromEvalInterval rule <=? 0 then 10 else Rule.PromEvalInterval rule in
  if String.eqb (Rule.CronPattern rule) ""
  then rule <| Rule.CronPattern := "@every " +:+ itoa interval +:+ "s" |> else rule.

(** The schedule of an entry that could not be added is nil, and asking it for
    the next time panics. *)
Definition NewAlertRuleWorker (serial : nat) rule (datasourceId : Z) (p : pstate) (now : Z) : go worker :=
  let rule := with_cron rule in
  match cron_error (Rule.CronPattern rule) with
  | Some _ => Panic
  | None => Ret (mkWorker serial datasourceId rule false ∅
                   (p <| p_rule := rule |> <| p_PromEvalInterval := cron_interval (Rule.CronPattern rule) now |>))
  end.

Definition hash_text rule (datasourceId : Z) : string :=
  itoa (Rule.Id rule) +:+ "_" +:+ Rule.CronPattern rule +:+ "_" +:+ Rule.RuleConfig rule
    +:+ "_" +:+ itoa datasourceId.

Definition AlertRuleWorker_Hash (w : worker) : string := str_md5 (hash_text (w_Rule w) (w_DatasourceId w)).

Definition AlertRuleWorker_Key (w : worker) : string := RuleKey (w_DatasourceId w) (Rule.Id (w_Rule w)).

Definition Prepare cf c (w : worker) : worker :=
  w <| w_Processor := RecoverAlertCurEventFromDb (proc_conf cf (w_DatasourceId w)) c
         (cur_event_rows (Rule.Id (w_Rule w)) (w_DatasourceId w)) (w_Processor w) |>.

(** ** The round *)

(** The external processor of a rule and a data source. *)
Record eproc := mkEproc { e_DatasourceId : Z; e_Processor : pstate }.

Definition eproc_Key (e : eproc) : string := Processor_Key (e_DatasourceId e) (p_rule (e_Processor e)).
Definition eproc_Hash (e : eproc) : string := Processor_Hash (e_DatasourceId e) (p_rule (e_Processor e)).

(** The variables of the first loop: the cache of rules, which [with_cron]
    changes, the rings, which a lookup can extend, and the two maps it fills. *)
Record wanted := mkWanted {
  k_rules : gmap Z AlertRule;
  k_rings : gmap string ring;
  k_serial : nat;
  k_workers : gmap string worker;
  k_external : gmap string eproc
}.
#[global] Instance wanted_eta : Settable wanted := λ r,
  mkWanted (k_rules r) (k_rings r) (k_serial r) (k_workers r) (k_external r).
Implicit Types k : wanted.

(** A worker for the rule and the data source. *)
Definition add_worker cf now k rule (dsId : Z) : go wanted :=
  w ← NewAlertRuleWorker (k_serial k) rule dsId (NewProcessor cf rule) now;
  Ret (k <| k_rules := <[Rule.Id rule := w_Rule w]> (k_rules k) |>
         <| k_serial := S (k_serial k) |>
         <| k_workers := <[AlertRuleWorker_Hash w := w]> (k_workers k) |>).

(** The rule as the cache has it now. *)
Definition cached k rule : AlertRule := default rule (k_rules k !! Rule.Id rule).

Fixpoint inner_loop cf now (d : dsdata) rule (dsIds : list Z) k : go wanted :=
  match dsIds with
  | [] => Ret k
  | dsId :: dsIds' =>
      let '(rings, hit) := IsHit (k_rings k) (itoa dsId) (itoa (Rule.Id rule)) (s_Endpoint cf) in
      let k := k <| k_rings := rings |> in
      if negb hit then inner_loop cf now d rule dsIds' k
      else match GetById d dsId with
      | None => inner_loop cf now d rule dsIds' k
      | Some ds =>
          if negb (String.eqb (Source.PluginType ds) (GetRuleType rule)) then inner_loop cf now d rule dsIds' k
          else if negb (String.eqb (Source.Status ds) "enabled") then inner_loop cf now d rule dsIds' k
          else k ← add_worker cf now k (cached k rule) dsId; inner_loop cf now d rule dsIds' k
      end
  end.

Definition external_loop cf (d : dsdata) rule (dsIds : list Z) k : wanted :=
  foldl (λ k dsId, match GetById d dsId with
                   | None => k
                   | Some ds =>
                       if negb (String.eqb (Source.Status ds) "enabled") then k
                       else let e := mkEproc dsId (NewProcessor cf rule) in
                            k <| k_external := <[eproc_Key e := e]> (k_external k) |>
                   end) k dsIds.

Definition want_rule cf now (d : dsdata) rule k : go wanted :=
  if IsPrometheusRule rule || IsInnerRule rule
  then inner_loop cf now d rule (GetIDsByDsCateAndQueries d (Rule.Cate rule) (Rule.DatasourceQueries rule)) k
  else if IsHostRule rule then
    let '(rings, hit) := IsHit (k_rings k) (s_EngineName cf) (itoa (Rule.Id rule)) (s_Endpoint cf) in
    let k := k <| k_rings := rings |> in
    if negb hit then Ret k else add_worker cf now k (cached k rule) 0
  else Ret (external_loop cf d rule
              (GetIDsByDsCateAndQueries d (Rule.Cate rule) (Rule.DatasourceQueries rule)) k).

Fixpoint want_rules cf now (d : dsdata) (ids : list Z) k : go wanted :=
  match ids with
  | [] => Ret k
  | id :: ids' =>
      match k_rules k !! id with
      | None => want_rules cf now d ids' k
      | Some rule => k ← want_rule cf now d rule k; want_rules cf now d ids' k
      end
  end.

(** What the round does to the workers, in order. *)
Inductive sched_op := OPrepare (serial : nat) | OStart (serial : nat) | OStop (serial : nat).

Record sstate := mkSstate {
  s_serial : nat;
  s_alertRules : gmap string worker;
  s_external : gmap string eproc;
  s_log : list sched_op
}.
#[global] Instance sstate_eta : Settable sstate := λ r,
  mkSstate (s_serial r) (s_alertRules r) (s_external r) (s_log r).
Implicit Types s : sstate.

Definition start_new cf c (workers : gmap string worker) s : sstate :=
  foldl (λ s hw, let '(hash, w) := hw in
           match s_alertRules s !! hash with
           | Some _ => s
           | None => s <| s_log := (s_log s ++ [OPrepare (w_serial w); OStart (w_serial w)])%list |>
                       <| s_alertRules := <[hash := Prepare cf c w]> (s_alertRules s) |>
           end) s (go_range workers).

Definition stop_old (workers : gmap string worker) s : sstate :=
  foldl (λ s hw, let '(hash, w) := hw in
           match workers !! hash with
           | Some _ => s
           | None => s <| s_log := (s_log s ++ [OStop (w_serial w)])%list |>
                       <| s_alertRules := delete hash (s_alertRules s) |>
           end) s (go_range (s_alertRules s)).

Definition sync_external cf c (ext : gmap string eproc) s : sstate :=
  let load e := mkEproc (e_DatasourceId e)
    (RecoverAlertCurEventFromDb (proc_conf cf (e_DatasourceId e)) c
       (cur_event_rows (Rule.Id (p_rule (e_Processor e))) (e_DatasourceId e)) (e_Processor e)) in
  let s := foldl (λ s ke, let '(key, e) := ke in
             match s_external s !! key with
             | Some cur => if String.eqb (eproc_Hash e) (eproc_Hash cur) then s
                           else s <| s_external := <[key := load e]> (s_external s) |>
             | None => s <| s_external := <[key := load e]> (s_external s) |>
             end) s (go_range ext) in
  foldl (λ s ke, match ext !! fst ke with
                 | Some _ => s
                 | None => s <| s_external := delete (fst ke) (s_external s) |>
                 end) s (go_range (s_external s)).

(** [syncAlertRules], with the cache of rules and the rings it leaves. *)
Definition sync_workers cf now (d : dsdata) c (rings : gmap string ring) s
  : go (gmap Z AlertRule * gmap string ring * sstate) :=
  k ← want_rules cf now d (map fst (go_range (c_alertRule c)))
        (mkWanted (c_alertRule c) rings (s_serial s) ∅ ∅);
  let c := mkCaches (k_rules k) (c_target c) (c_busiGroup c) (c_alertMute c) (c_datasourceName c)
             (c_eventProcessor c) in
  let s := s <| s_serial := k_serial k |> in
  let s := stop_old (k_workers k) (start_new cf c (k_workers k) s) in
  Ret (k_rules k, k_rings k, sync_external cf c (k_external k) s).
End scheduler.

(** ** Properties *)

(** *** The text that is hashed names the rule and the data source *)

Lemma chars_app a b : String.list_ascii_of_string (a +:+ b) = (String.list_ascii_of_string a ++ String.list_ascii_of_string b)%list.
Proof.
  induction a as [|c a IH]; [done|]. change (String c a +:+ b) with (String c (a +:+ b)).
  cbn [String.list_ascii_of_string]. by rewrite IH.
Qed.

Lemma chars_free c s : str_forall (char_neb c) s = true → c ∉ String.list_ascii_of_string s.
Proof.
  induction s as [|d s IH]; cbn; [set_solver|]. intros H. bool_prop.
  apply char_neb_ne in H. apply not_elem_of_cons. auto.
Qed.

Lemma chars_inj a b : String.list_ascii_of_string a = String.list_ascii_of_string b → a = b.
Proof. intros H. by rewrite <- (String.string_of_list_ascii_of_string a), H, String.string_of_list_ascii_of_string. Qed.

Lemma hash_text_inj rule ds rule' ds' :
  hash_text rule ds = hash_text rule' ds' → Rule.Id rule = Rule.Id rule' ∧ ds = ds'.
Proof.
  assert (∀ z, "_"%char ∉ String.list_ascii_of_string (itoa z)) as Hfree by (intros z; by apply chars_free, itoa_free).
  unfold hash_text. intros H%(f_equal String.list_ascii_of_string). rewrite !chars_app in H. cbn [String.list_ascii_of_string app] in H.
  apply not_elem_of_app_cons_inv_l in H as (H1 & _ & H2); [|done..].
  split; [by apply itoa_inj, chars_inj|].

  assert (∀ (a b : list ascii) z, (a ++ "_"%char :: b ++ "_"%char :: z = (a ++ "_"%char :: b) ++ "_"%char :: z)%list)
    as Hre by (intros; by rewrite <- app_assoc).
  rewrite !Hre in H2. apply not_elem_of_app_cons_inv_r in H2 as (_ & _ & H3); [|done..].
  by apply itoa_inj, chars_inj.
Qed.

(** *** The rings during a round *)

Lemma IsHit_stable `{ConsistentLib} (rs : gmap string ring) k p e key pk e' :
  snd (IsHit (fst (IsHit rs k p e)) key pk e') = snd (IsHit rs key pk e').
Proof.
  assert (fst (IsHit rs k p e) = fst (GetNode rs k p)) as ->.
  { unfold IsHit. destruct (GetNode rs k p) as [rs' [n|err]]; done. }
  destruct (GetNode_rings rs k p) as [->|[Hnone ->]]; [done|].
  unfold IsHit, GetNode. destruct (decide (key = k)) as [->|Hne].
  - rewrite lookup_insert_eq, Hnone. by destruct (ring_Get _ _).
  - rewrite lookup_insert_ne by done. destruct (rs !! key); by destruct (ring_Get _ _).
Qed.

(** Projections of updated records. *)
Ltac ksimp :=
  repeat progress (cbv [set set_with wanted_eta sstate_eta worker_eta] in *;
    cbn [k_rules k_rings k_serial k_workers k_external s_serial s_alertRules s_external s_log
         w_serial w_DatasourceId w_Rule w_Inhibit w_LastSeriesStore w_Processor] in *).

Section scheduler_spec.
Context `{GR : GoRange, CH : ConsistentLib, SL : StrLib, CR : CronLib, CS : CronSchedule}.
Context `{GL : GlobLib, QL : EventQueueLib, DBR : CurEventRows}.
Variables (cf : sconf) (now : Z) (d : dsdata).
Implicit Types (rule : AlertRule) (c : caches) (k : wanted) (s : sstate) (w : worker).

(** The data sources of a rule this engine evaluates it on. *)
Definition usable rule (rings : gmap string ring) (dsId : Z) : bool :=
  snd (IsHit rings (itoa dsId) (itoa (Rule.Id rule)) (s_Endpoint cf)) &&
  match GetById d dsId with
  | Some ds => String.eqb (Source.PluginType ds) (GetRuleType rule) && String.eqb (Source.Status ds) "enabled"
  | None => false
  end.

Definition owned (rings : gmap string ring) rule : list Z :=
  if IsPrometheusRule rule || IsInnerRule rule
  then List.filter (usable rule rings)
         (GetIDsByDsCateAndQueries d (Rule.Cate rule) (Rule.DatasourceQueries rule))
  else if IsHostRule rule
       then if snd (IsHit rings (s_EngineName cf) (itoa (Rule.Id rule)) (s_Endpoint cf)) then [0] else []
       else [].

Definition worker_hash rule (ds : Z) : string := str_md5 (hash_text (with_cron rule) ds).

Lemma with_cron_idem rule : with_cron (with_cron rule) = with_cron rule.
Proof.
  unfold with_cron. destruct (String.eqb_spec (Rule.CronPattern rule) "") as [E|E]; rsimp.
  - done.
  - apply String.eqb_neq in E. by rewrite E.
Qed.

Lemma with_cron_Id rule : Rule.Id (with_cron rule) = Rule.Id rule.
Proof. unfold with_cron. by destruct (String.eqb _ _). Qed.

(** What the first loop has done: the pairs of rules and data sources it added
    a worker for are [D]. *)
Record k_inv (rules0 : gmap Z AlertRule) (rings0 : gmap string ring) (serial0 : nat) (D : list (Z * Z)) k : Prop := {
  ki_rules : ∀ id, k_rules k !! id = rules0 !! id ∨
    (id ∈ D.*1 ∧ k_rules k !! id = with_cron <$> rules0 !! id);
  ki_rings : ∀ key pk e, snd (IsHit (k_rings k) key pk e) = snd (IsHit rings0 key pk e);
  ki_serial : (serial0 ≤ k_serial k)%nat;
  ki_workers : ∀ h w, k_workers k !! h = Some w → ∃ rule,
    rules0 !! Rule.Id rule = Some rule ∧ w_Rule w = with_cron rule ∧ (Rule.Id rule, w_DatasourceId w) ∈ D ∧
    h = worker_hash rule (w_DatasourceId w) ∧ (serial0 ≤ w_serial w < k_serial k)%nat ∧
    w_Processor w = (NewProcessor cf (with_cron rule))
      <| p_PromEvalInterval := cron_interval (Rule.CronPattern (with_cron rule)) now |>;
  ki_distinct : ∀ h1 h2 w1 w2, k_workers k !! h1 = Some w1 → k_workers k !! h2 = Some w2 →
    w_serial w1 = w_serial w2 → h1 = h2;
  ki_all : ∀ id ds, (id, ds) ∈ D → ∃ rule, rules0 !! id = Some rule ∧ is_Some (k_workers k !! worker_hash rule ds)
}.

Lemma k_inv_init rules0 rings0 n : k_inv rules0 rings0 n [] (mkWanted rules0 rings0 n ∅ ∅).
Proof. split; cbn; auto; try (intros *; rewrite lookup_empty; done). set_solver. Qed.

(** The second map plays no part, and a lookup in the rings changes nothing that
    matters. *)
Lemma k_inv_rings rules0 rings0 n D k key pk e :
  k_inv rules0 rings0 n D k → k_inv rules0 rings0 n D (k <| k_rings := fst (IsHit (k_rings k) key pk e) |>).
Proof. intros []. split; ksimp; try done. intros. rewrite IsHit_stable. auto. Qed.

Lemma k_inv_external rules0 rings0 n D k ext :
  k_inv rules0 rings0 n D k → k_inv rules0 rings0 n D (k <| k_external := ext |>).
Proof. intros []. by split. Qed.

Lemma cached_with_cron rules0 rings0 n D k rule :
  k_inv rules0 rings0 n D k → rules0 !! Rule.Id rule = Some rule →
  with_cron (cached k rule) = with_cron rule ∧ Rule.Id (cached k rule) = Rule.Id rule.
Proof.
  intros Hk Hr. unfold cached. destruct (ki_rules _ _ _ _ _ Hk (Rule.Id rule)) as [->|[_ ->]]; rewrite Hr; cbn.
  - done.
  - by rewrite with_cron_idem, with_cron_Id.
Qed.

Lemma add_worker_inv rules0 rings0 n D k rule ds k' :
  k_inv rules0 rings0 n D k → rules0 !! Rule.Id rule = Some rule →
  add_worker cf now k (cached k rule) ds = Ret k' → k_inv rules0 rings0 n (D ++ [(Rule.Id rule, ds)]) k'.
Proof.
  intros Hk Hr. destruct (cached_with_cron _ _ _ _ _ _ Hk Hr) as [Hc Hid].
  unfold add_worker, NewAlertRuleWorker. rewrite Hc. destruct (cron_error _); [done|].
  cbn [mbind go_bind]. intros ->%Ret_inj. rewrite Hid.
  assert (∀ w, w_Rule w = with_cron rule → w_DatasourceId w = ds → AlertRuleWorker_Hash w = worker_hash rule ds) as Hh.
  { intros w E1 E2. unfold AlertRuleWorker_Hash, worker_hash. by rewrite E1, E2. }
  rewrite Hh by done. clear Hh. destruct Hk as [H1 H2 H3 H4 H5 H6]. split; ksimp.
  - intros id. destruct (decide (Rule.Id rule = id)) as [<-|Hne].
    + rewrite lookup_insert_eq, Hr. right. split; [|done]. rewrite fmap_app. set_solver.
    + rewrite lookup_insert_ne, fmap_app by done. destruct (H1 id) as [?|[? ?]]; [by left|right]. set_solver.
  - done.
  - lia.
  - intros h w. destruct (decide (worker_hash rule ds = h)) as [<-|Hne].
    + rewrite lookup_insert_eq. intros [= <-]. exists rule. cbn. split_and!; try done; [set_solver|lia..].
    + rewrite lookup_insert_ne by done. intros (r & ? & ? & ? & ? & ? & ?)%H4. exists r. split_and!; try done; [set_solver|lia..].
  - intros h1 h2 w1 w2. destruct (decide (worker_hash rule ds = h1)) as [<-|N1], (decide (worker_hash rule ds = h2)) as [<-|N2];
      rewrite ?lookup_insert_eq, ?lookup_insert_ne by done; [done|..].
    + intros [= <-] (r & ? & ? & ? & ? & Hlt & ?)%H4 E. cbn in E. lia.
    + intros (r & ? & ? & ? & ? & Hlt & ?)%H4 [= <-] E. cbn in E. lia.
    + apply H5.
  - intros id ds0 [Hin|[= -> ->]%list_elem_of_singleton]%elem_of_app.
    + destruct (H6 _ _ Hin) as (r & Hr' & Hs). exists r. split; [done|].
      destruct (decide (worker_hash rule ds = worker_hash r ds0)) as [->|Hne].
      * rewrite lookup_insert_eq. eauto.
      * by rewrite lookup_insert_ne.
    + exists rule. split; [done|]. rewrite lookup_insert_eq. eauto.
Qed.

Lemma inner_loop_inv rules0 rings0 n rule dsIds D k k' :
  k_inv rules0 rings0 n D k → rules0 !! Rule.Id rule = Some rule →
  inner_loop cf now d rule dsIds k = Ret k' →
  k_inv rules0 rings0 n (D ++ map (pair (Rule.Id rule)) (List.filter (usable rule rings0) dsIds)) k'.
Proof.
  revert D k. induction dsIds as [|ds dsIds IH]; intros D k Hk Hr; cbn [inner_loop List.filter map].
  { rewrite app_nil_r. by intros ->%Ret_inj. }
  destruct (IsHit (k_rings k) (itoa ds) (itoa (Rule.Id rule)) (s_Endpoint cf)) as [rings hit] eqn:Hh.
  assert (hit = snd (IsHit rings0 (itoa ds) (itoa (Rule.Id rule)) (s_Endpoint cf))) as Hhit
    by (rewrite <- (ki_rings _ _ _ _ _ Hk); by rewrite Hh).
  pose proof (k_inv_rings _ _ _ _ _ (itoa ds) (itoa (Rule.Id rule)) (s_Endpoint cf) Hk) as Hk1. rewrite Hh in Hk1. cbn [fst] in Hk1.
  set (k1 := k <| k_rings := rings |>) in *. unfold usable at 1. rewrite <- Hhit.
  destruct hit; cbn [negb andb]; [|by apply IH].
  destruct (GetById d ds) as [x|]; [|by apply IH].
  destruct (String.eqb (Source.PluginType x) (GetRuleType rule)); cbn [negb andb]; [|by apply IH].
  destruct (String.eqb (Source.Status x) "enabled"); cbn [negb andb]; [|by apply IH].
  rewrite go_bind_Ret. intros (k2 & Hadd & Hloop). cbn [map].
  pose proof (add_worker_inv _ _ _ _ _ _ _ _ Hk1 Hr Hadd) as Hk2.
  pose proof (IH _ _ Hk2 Hr Hloop) as Hk3. by rewrite <- app_assoc in Hk3.
Qed.

Lemma want_rule_inv rules0 rings0 n rule D k k' :
  k_inv rules0 rings0 n D k → rules0 !! Rule.Id rule = Some rule →
  want_rule cf now d rule k = Ret k' →
  k_inv rules0 rings0 n (D ++ map (pair (Rule.Id rule)) (owned rings0 rule)) k'.
Proof.
  intros Hk Hr. unfold want_rule, owned. destruct (IsPrometheusRule rule || IsInnerRule rule).
  { by apply inner_loop_inv. }
  destruct (IsHostRule rule).
  - destruct (IsHit (k_rings k) (s_EngineName cf) (itoa (Rule.Id rule)) (s_Endpoint cf)) as [rings hit] eqn:Hh.
    rewrite <- (ki_rings _ _ _ _ _ Hk). rewrite Hh. cbn [snd].
    pose proof (k_inv_rings _ _ _ _ _ (s_EngineName cf) (itoa (Rule.Id rule)) (s_Endpoint cf) Hk) as Hk1.
    rewrite Hh in Hk1. cbn [fst] in Hk1. destruct hit; cbn [negb map].
    + by apply add_worker_inv.
    + rewrite app_nil_r. by intros ->%Ret_inj.
  - intros ->%Ret_inj. cbn [map]. rewrite app_nil_r. unfold external_loop.
    apply foldl_invariant; [done|]. intros k1 ds _ Hk1. destruct (GetById d ds) as [x|]; [|done].
    destruct (negb _); [done|]. by apply k_inv_external.
Qed.

(** The pairs of rules and data sources of the engine. *)
Definition owned_pairs (rules : gmap Z AlertRule) (rings : gmap string ring) (ids : list Z) : list (Z * Z) :=
  flat_map (λ id, match rules !! id with
                  | Some rule => map (pair id) (owned rings rule)
                  | None => []
                  end) ids.

Definition keyed_rules (rules : gmap Z AlertRule) : Prop := ∀ id rule, rules !! id = Some rule → Rule.Id rule = id.

Lemma want_rules_inv rules0 rings0 n ids D k k' :
  keyed_rules rules0 → NoDup ids → (∀ id, id ∈ ids → id ∉ D.*1) → k_inv rules0 rings0 n D k →
  want_rules cf now d ids k = Ret k' → k_inv rules0 rings0 n (D ++ owned_pairs rules0 rings0 ids) k'.
Proof.
  intros Hkey. revert D k. induction ids as [|id ids IH]; intros D k Hnd Hfresh Hk; cbn [want_rules owned_pairs flat_map].
  { rewrite app_nil_r. by intros ->%Ret_inj. }
  apply NoDup_cons in Hnd as [Hni Hnd].
  assert (k_rules k !! id = rules0 !! id) as Hsame.
  { destruct (ki_rules _ _ _ _ _ Hk id) as [|[Hin _]]; [done|]. destruct (Hfresh id); [set_solver|done]. }
  rewrite Hsame. destruct (rules0 !! id) as [rule|] eqn:Hr; cbn [app].
  - rewrite go_bind_Ret. intros (k1 & H1 & H2). pose proof (Hkey _ _ Hr) as Hid. rewrite <- Hid in Hr.
    pose proof (want_rule_inv _ _ _ _ _ _ _ Hk Hr H1) as Hk1. rewrite Hid in Hk1. rewrite app_assoc.
    refine (IH _ _ Hnd _ Hk1 H2). intros id' Hin. rewrite fmap_app. intros [Hd|Hd]%elem_of_app.
    + apply (Hfresh id'); set_solver.
    + apply list_elem_of_fmap in Hd as ([i x] & -> & Hp). apply list_elem_of_In, in_map_iff in Hp as (y & [= <- <-] & _). done.
  - refine (IH _ _ Hnd _ Hk). set_solver.
Qed.

(** *** Starting and stopping *)

(** The workers after the second and the third loop. *)
Lemma start_new_lookup c workers s :
  (∀ h, s_alertRules (start_new cf c workers s) !! h =
     match s_alertRules s !! h with Some w0 => Some w0 | None => Prepare cf c <$> workers !! h end) ∧
  s_serial (start_new cf c workers s) = s_serial s.
Proof.
  unfold start_new. set (step := λ (s : sstate) (hw : string * worker), _).
  assert (∀ l s, NoDup l.*1 → s_serial (foldl step s l) = s_serial s ∧ ∀ h,
    s_alertRules (foldl step s l) !! h = match s_alertRules s !! h with
      | Some w0 => Some w0 | None => Prepare cf c <$> (list_to_map l : gmap string worker) !! h end) as Hg.
  { induction l as [|[h0 w0] l IH]; intros s0 Hnd; cbn [foldl].
    { split; [done|]. intros h. by destruct (s_alertRules s0 !! h). }
    csimpl in Hnd. apply NoDup_cons in Hnd as [Hni Hnd]. destruct (IH (step s0 (h0, w0)) Hnd) as [H1 H2].
    cbn [list_to_map foldr]. split.
    - rewrite H1. unfold step. by destruct (s_alertRules s0 !! h0).
    - intros h. rewrite H2. unfold step. destruct (decide (h0 = h)) as [<-|Hne].
      + destruct (s_alertRules s0 !! h0) as [w|] eqn:E; [by rewrite E|]. ksimp. by rewrite !lookup_insert_eq.
      + destruct (s_alertRules s0 !! h0) as [w|] eqn:E; ksimp; by rewrite !lookup_insert_ne by done. }
  destruct (Hg (go_range workers) s (NoDup_fst_go_range _)) as [H1 H2]. split; [|done].
  intros h. by rewrite H2, go_range_to_map.
Qed.

Lemma stop_old_lookup workers s :
  (∀ h, s_alertRules (stop_old workers s) !! h =
     match workers !! h with Some _ => s_alertRules s !! h | None => None end) ∧
  s_serial (stop_old workers s) = s_serial s.
Proof.
  unfold stop_old. set (step := λ (s : sstate) (hw : string * worker), _).
  assert (∀ l s, s_serial (foldl step s l) = s_serial s ∧ ∀ h,
    s_alertRules (foldl step s l) !! h =
      if decide (h ∈ l.*1 ∧ workers !! h = None) then None else s_alertRules s !! h) as Hg.
  { induction l as [|[h0 w0] l IH]; intros s0; cbn [foldl].
    { split; [done|]. intros h. rewrite decide_False; [done|]. set_solver. }
    destruct (IH (step s0 (h0, w0))) as [H1 H2]. rewrite fmap_cons. cbn [fst]. split.
    - rewrite H1. unfold step. by destruct (workers !! h0).
    - intros h. rewrite H2. unfold step. destruct (decide (h0 = h)) as [<-|Hne].
      + destruct (workers !! h0) eqn:E.
        * rewrite !decide_False by naive_solver. done.
        * ksimp. rewrite lookup_delete_eq, (decide_True (P := h0 ∈ h0 :: _ ∧ _)) by set_solver.
          by destruct (decide _).
      + assert (s_alertRules (match workers !! h0 with Some _ => s0 | None =>
          s0 <| s_log := (s_log s0 ++ [OStop (w_serial w0)])%list |>
             <| s_alertRules := delete h0 (s_alertRules s0) |> end) !! h = s_alertRules s0 !! h) as ->
          by (destruct (workers !! h0); ksimp; [done|by rewrite lookup_delete_ne]).
        destruct (decide (h ∈ l.*1 ∧ workers !! h = None)) as [Hd|Hd].
        * rewrite decide_True by set_solver. done.
        * rewrite decide_False by set_solver. done. }
  destruct (Hg (go_range (s_alertRules s)) s) as [H1 H2]. split; [|done].
  intros h. rewrite H2. destruct (workers !! h) eqn:E.
  - by rewrite decide_False by naive_solver.
  - case_decide as Hd; [done|]. destruct (s_alertRules s !! h) eqn:Es; [|done].
    destruct Hd. split; [|done]. apply elem_of_fst_go_range. eauto.
Qed.

(** *** The life of a worker

    A worker is prepared once, then started, then stopped at most once. *)
Inductive phase := Prepared | Running | Stopped.

Definition replay1 (m : gmap nat phase) (o : sched_op) : option (gmap nat phase) :=
  match o with
  | OPrepare n => match m !! n with None => Some (<[n := Prepared]> m) | Some _ => None end
  | OStart n => match m !! n with Some Prepared => Some (<[n := Running]> m) | _ => None end
  | OStop n => match m !! n with Some Running => Some (<[n := Stopped]> m) | _ => None end
  end.

Definition replay (log : list sched_op) : option (gmap nat phase) :=
  foldl (λ o x, o ≫= λ m, replay1 m x) (Some ∅) log.

(** The workers the scheduler holds are those that the log shows running. *)
Record alive (m : gmap nat phase) s : Prop := {
  al_log : replay (s_log s) = Some m;
  al_running : ∀ n, m !! n = Some Running ↔ ∃ h w, s_alertRules s !! h = Some w ∧ w_serial w = n;
  al_no_prepared : ∀ n, m !! n ≠ Some Prepared;
  al_serial : ∀ n, is_Some (m !! n) → (n < s_serial s)%nat;
  al_distinct : ∀ h1 h2 w1 w2, s_alertRules s !! h1 = Some w1 → s_alertRules s !! h2 = Some w2 →
    w_serial w1 = w_serial w2 → h1 = h2
}.

Lemma replay_app l1 l2 m : replay l1 = Some m → replay (l1 ++ l2) = foldl (λ o x, o ≫= λ m, replay1 m x) (Some m) l2.
Proof. unfold replay. rewrite foldl_app. by intros ->. Qed.

Lemma start_one c m s h w :
  alive m s → s_alertRules s !! h = None → m !! w_serial w = None → (w_serial w < s_serial s)%nat →
  alive (<[w_serial w := Running]> m)
    (s <| s_log := (s_log s ++ [OPrepare (w_serial w); OStart (w_serial w)])%list |>
       <| s_alertRules := <[h := Prepare cf c w]> (s_alertRules s) |>).
Proof.
  intros [H1 H2 H3 H4 H5] Hh Hm Hlt.
  assert (∀ h1 w1, s_alertRules s !! h1 = Some w1 → w_serial w1 ≠ w_serial w) as Hne.
  { intros h1 w1 Hw1 E. assert (m !! w_serial w = Some Running); [|congruence]. apply H2. eauto. }
  split; ksimp.
  - rewrite (replay_app _ _ _ H1). cbn. rewrite Hm. cbn. by rewrite lookup_insert_eq, insert_insert_eq.
  - intros n. destruct (decide (w_serial w = n)) as [<-|N].
    + rewrite lookup_insert_eq. split; [intros _|done]. exists h, (Prepare cf c w). by rewrite lookup_insert_eq.
    + rewrite lookup_insert_ne, H2 by done. split; intros (h1 & w1 & Hw & <-).
      * exists h1, w1. rewrite lookup_insert_ne; [done|congruence].
      * destruct (decide (h = h1)) as [->|Hn]; [|rewrite lookup_insert_ne in Hw by done; eauto].
        rewrite lookup_insert_eq in Hw. by injection Hw as <-.
  - intros n. destruct (decide (w_serial w = n)) as [<-|N].
    + by rewrite lookup_insert_eq.
    + rewrite lookup_insert_ne by done. apply H3.
  - intros n. destruct (decide (w_serial w = n)) as [<-|N]; [done|]. rewrite lookup_insert_ne by done. apply H4.
  - intros h1 h2 w1 w2. destruct (decide (h = h1)) as [<-|N1], (decide (h = h2)) as [<-|N2];
      rewrite ?lookup_insert_eq, ?lookup_insert_ne by done; [done| | |apply H5].
    + intros [= <-] Hw2 E. by destruct (Hne h2 w2 Hw2).
    + intros Hw1 [= <-] E. by destruct (Hne h1 w1 Hw1).
Qed.

Lemma stop_one m s h w :
  alive m s → s_alertRules s !! h = Some w →
  alive (<[w_serial w := Stopped]> m)
    (s <| s_log := (s_log s ++ [OStop (w_serial w)])%list |> <| s_alertRules := delete h (s_alertRules s) |>).
Proof.
  intros [H1 H2 H3 H4 H5] Hh. assert (m !! w_serial w = Some Running) as Hm by (apply H2; eauto).
  split; ksimp.
  - rewrite (replay_app _ _ _ H1). cbn. by rewrite Hm.
  - intros n. destruct (decide (w_serial w = n)) as [<-|N].
    + rewrite lookup_insert_eq. split; [done|]. intros (h1 & w1 & [Hn Hw]%lookup_delete_Some & E).
      destruct Hn. by apply (H5 h h1 w w1).
    + rewrite lookup_insert_ne, H2 by done. setoid_rewrite lookup_delete_Some. split; [|naive_solver].
      intros (h1 & w1 & Hw & <-). exists h1, w1. split_and!; [congruence|done..].
  - intros n. destruct (decide (w_serial w = n)) as [<-|N].
    + by rewrite lookup_insert_eq.
    + rewrite lookup_insert_ne by done. apply H3.
  - intros n. destruct (decide (w_serial w = n)) as [<-|N]; [intros _; apply H4; by rewrite Hm|].
    rewrite lookup_insert_ne by done. apply H4.
  - intros h1 h2 w1 w2 [_ E1]%lookup_delete_Some [_ E2]%lookup_delete_Some. by apply H5.
Qed.

Lemma start_new_alive c workers m s :
  alive m s →
  (∀ h w, workers !! h = Some w → m !! w_serial w = None ∧ (w_serial w < s_serial s)%nat) →
  (∀ h1 h2 w1 w2, workers !! h1 = Some w1 → workers !! h2 = Some w2 → w_serial w1 = w_serial w2 → h1 = h2) →
  ∃ m', alive m' (start_new cf c workers s).
Proof.
  intros Hal Hfresh Hdist. unfold start_new. set (step := λ (s : sstate) (hw : string * worker), _).
  assert (∀ l m s, alive m s → NoDup l.*1 → (∀ h w, (h, w) ∈ l → workers !! h = Some w) →
    (∀ h w, (h, w) ∈ l → m !! w_serial w = None ∧ (w_serial w < s_serial s)%nat) →
    ∃ m', alive m' (foldl step s l)) as Hg.
  { clear -Hdist. induction l as [|[h w] l IH]; intros m s Hal Hnd Hin Hfr; cbn [foldl]; [eauto|].
    csimpl in Hnd. apply NoDup_cons in Hnd as [Hni Hnd].
    destruct (Hfr h w ltac:(set_solver)) as [Hm Hlt]. unfold step at 2.
    destruct (s_alertRules s !! h) eqn:E.
    - apply (IH m); [done..|set_solver|set_solver].
    - eapply IH; [by apply start_one|done|set_solver|].
      intros h' w' Hin'. ksimp. rewrite lookup_insert_ne; [apply (Hfr h' w'); set_solver|].
      intros Heq. assert (h = h') as <- by (eapply (Hdist h h' w w'); [apply Hin; set_solver..|done]).
      apply Hni. by apply (list_elem_of_fmap_2' fst _ _ _ Hin'). }
  eapply Hg; [done|apply NoDup_fst_go_range|..]; intros h w ?%elem_of_go_range; eauto.
Qed.

Lemma stop_old_alive workers m s : alive m s → ∃ m', alive m' (stop_old workers s).
Proof.
  intros Hal. unfold stop_old. set (step := λ (s : sstate) (hw : string * worker), _).
  assert (∀ l m s, alive m s → NoDup l.*1 → (∀ h w, (h, w) ∈ l → s_alertRules s !! h = Some w) →
    ∃ m', alive m' (foldl step s l)) as Hg.
  { clear. induction l as [|[h w] l IH]; intros m s Hal Hnd Hin; cbn [foldl]; [eauto|].
    csimpl in Hnd. apply NoDup_cons in Hnd as [Hni Hnd]. unfold step at 2.
    destruct (workers !! h).
    - apply (IH m); [done..|set_solver].
    - eapply IH; [apply stop_one; [done|apply Hin; set_solver]|done|].
      intros h' w' Hin'. ksimp. rewrite lookup_delete_ne; [apply Hin; set_solver|].
      intros ->. apply Hni. by apply (list_elem_of_fmap_2' fst _ _ _ Hin'). }
  eapply Hg; [done|apply NoDup_fst_go_range|]. intros h w. by rewrite elem_of_go_range.
Qed.

Lemma sync_external_frame c ext s :
  s_alertRules (sync_external cf c ext s) = s_alertRules s ∧ s_log (sync_external cf c ext s) = s_log s ∧
  s_serial (sync_external cf c ext s) = s_serial s.
Proof.
  unfold sync_external.
  set (P := λ s', s_alertRules s' = s_alertRules s ∧ s_log s' = s_log s ∧ s_serial s' = s_serial s).
  match goal with |- s_alertRules ?x = _ ∧ _ => change (P x) end.
  apply foldl_invariant; [apply foldl_invariant; [done|]|].
  - intros s' [key e] _ Hs. destruct (s_external s' !! key); [destruct (String.eqb _ _)|]; done.
  - intros s' [key e] _ Hs. cbn [fst]. destruct (ext !! key); done.
Qed.

Lemma sync_workers_Ret c rings s rules' rings' s' :
  keyed_rules (c_alertRule c) →
  sync_workers cf now d c rings s = Ret (rules', rings', s') →
  ∃ k c', k_inv (c_alertRule c) rings (s_serial s)
           (owned_pairs (c_alertRule c) rings (map fst (go_range (c_alertRule c)))) k ∧
    s_alertRules s' = s_alertRules (stop_old (k_workers k) (start_new cf c' (k_workers k) (s <| s_serial := k_serial k |>))) ∧
    s_log s' = s_log (stop_old (k_workers k) (start_new cf c' (k_workers k) (s <| s_serial := k_serial k |>))) ∧
    s_serial s' = k_serial k ∧ rules' = k_rules k ∧ c' = mkCaches (k_rules k) (c_target c) (c_busiGroup c)
      (c_alertMute c) (c_datasourceName c) (c_eventProcessor c).
Proof.
  intros Hkey. unfold sync_workers. rewrite go_bind_Ret. intros (k & Hw & Hret).
  apply (want_rules_inv (c_alertRule c) rings (s_serial s) _ []) in Hw; [|done|apply NoDup_fst_go_range|set_solver|apply k_inv_init].
  cbn [app] in Hw. set (c' := mkCaches _ _ _ _ _ _) in Hret.
  exists k, c'. set (s1 := stop_old _ _) in Hret.
  destruct (sync_external_frame c' (k_external k) s1) as (F1 & F2 & F3).
  injection Hret as <- <- <-. rewrite F1, F2, F3. split_and!; try done.
  unfold s1. rewrite (proj2 (stop_old_lookup _ _)), (proj2 (start_new_lookup _ _ _)). done.
Qed.

Lemma elem_of_owned_pairs (rules : gmap Z AlertRule) rings id ds :
  (id, ds) ∈ owned_pairs rules rings (map fst (go_range rules)) ↔
  ∃ rule, rules !! id = Some rule ∧ ds ∈ owned rings rule.
Proof.
  unfold owned_pairs. rewrite list_elem_of_In, in_flat_map. split.
  - intros (i & Hi & Hin). destruct (rules !! i) as [rule|] eqn:Hr; [|done].
    apply in_map_iff in Hin as (x & [= <- <-] & Hx). exists rule. split; [done|by apply list_elem_of_In].
  - intros (rule & Hr & Hin). exists id. split.
    + apply list_elem_of_In. change (id ∈ (go_range rules).*1). apply elem_of_fst_go_range. eauto.
    + rewrite Hr. apply in_map_iff. exists ds. split; [done|by apply list_elem_of_In].
Qed.

(** The workers after a round, by hash. *)
Lemma sync_workers_lookup c rings s rules' rings' s' :
  keyed_rules (c_alertRule c) →
  sync_workers cf now d c rings s = Ret (rules', rings', s') →
  ∃ k, k_inv (c_alertRule c) rings (s_serial s)
         (owned_pairs (c_alertRule c) rings (map fst (go_range (c_alertRule c)))) k ∧
    ∀ h, s_alertRules s' !! h = match k_workers k !! h with
      | Some w => match s_alertRules s !! h with
                  | Some w0 => Some w0
                  | None => Some (Prepare cf (mkCaches rules' (c_target c) (c_busiGroup c) (c_alertMute c)
                                                (c_datasourceName c) (c_eventProcessor c)) w)
                  end
      | None => None
      end.
Proof.
  intros Hkey Hs. destruct (sync_workers_Ret _ _ _ _ _ _ Hkey Hs) as (k & c' & Hk & Hrun & _ & _ & -> & Hc').
  exists k. split; [done|]. intros h.
  rewrite Hrun, (proj1 (stop_old_lookup _ _)), (proj1 (start_new_lookup _ _ _)), <- Hc'. ksimp.
  by destruct (k_workers k !! h), (s_alertRules s !! h).
Qed.

Lemma sync_workers_running c rings s rules' rings' s' h :
  keyed_rules (c_alertRule c) →
  sync_workers cf now d c rings s = Ret (rules', rings', s') →
  is_Some (s_alertRules s' !! h) ↔
  ∃ id rule ds, c_alertRule c !! id = Some rule ∧ ds ∈ owned rings rule ∧ h = worker_hash rule ds.
Proof.
  intros Hkey Hs. destruct (sync_workers_lookup _ _ _ _ _ _ Hkey Hs) as (k & Hk & Hl). rewrite Hl. split.
  - destruct (k_workers k !! h) as [w|] eqn:Hw; [intros _|by intros [? ?]].
    destruct (ki_workers _ _ _ _ _ Hk h w Hw) as (rule & Hr & _ & Hin & -> & _).
    apply elem_of_owned_pairs in Hin as (rule' & Hr' & Hd). assert (rule' = rule) as -> by congruence.
    by exists (Rule.Id rule), rule, (w_DatasourceId w).
  - intros (id & rule & ds & Hr & Hd & ->).
    destruct (ki_all _ _ _ _ _ Hk id ds) as (rule' & Hr' & [w Hw]); [apply elem_of_owned_pairs; eauto|].
    assert (rule' = rule) as -> by congruence. rewrite Hw. by destruct (s_alertRules s !! _).
Qed.

(** C7. After a round the engine runs exactly the workers of the rules and data
    sources it owns; the workers that were running under the same hash are kept,
    with their tables, and the new ones start from the firing events of the
    database. *)
Theorem sync_workers_spec c rings s rules' rings' s' :
  keyed_rules (c_alertRule c) →
  sync_workers cf now d c rings s = Ret (rules', rings', s') →
  (∀ h, is_Some (s_alertRules s' !! h) ↔
     ∃ id rule ds, c_alertRule c !! id = Some rule ∧ ds ∈ owned rings rule ∧ h = worker_hash rule ds) ∧
  (∀ h w, s_alertRules s !! h = Some w → is_Some (s_alertRules s' !! h) → s_alertRules s' !! h = Some w) ∧
  (∀ h w, s_alertRules s !! h = None → s_alertRules s' !! h = Some w →
     ∃ rule, c_alertRule c !! Rule.Id rule = Some rule ∧ w_Rule w = with_cron rule ∧
       h = worker_hash rule (w_DatasourceId w) ∧ (s_serial s ≤ w_serial w)%nat ∧
       w_Processor w = RecoverAlertCurEventFromDb (proc_conf cf (w_DatasourceId w))
         (mkCaches rules' (c_target c) (c_busiGroup c) (c_alertMute c) (c_datasourceName c) (c_eventProcessor c))
         (cur_event_rows (Rule.Id rule) (w_DatasourceId w))
         ((NewProcessor cf (with_cron rule))
            <| p_PromEvalInterval := cron_interval (Rule.CronPattern (with_cron rule)) now |>)).
Proof.
  intros Hkey Hs. split; [intros h; by eapply sync_workers_running|].
  destruct (sync_workers_lookup _ _ _ _ _ _ Hkey Hs) as (k & Hk & Hl). split.
  - intros h w Hw. rewrite Hl, Hw. destruct (k_workers k !! h); [done|by intros [? ?]].
  - intros h w Hnone. rewrite Hl, Hnone. destruct (k_workers k !! h) as [w0|] eqn:Hw0; [|done]. intros [= <-].
    destruct (ki_workers _ _ _ _ _ Hk h w0 Hw0) as (rule & Hr & HR & _ & Hh & Hser & Hproc).
    exists rule. unfold Prepare. ksimp. rewrite HR, Hproc, with_cron_Id. split_and!; try done. lia.
Qed.

End scheduler_spec.

Section rounds.
Context `{GR : GoRange, CH : ConsistentLib, SL : StrLib, CR : CronLib, CS : CronSchedule}.
Context `{GL : GlobLib, QL : EventQueueLib, DBR : CurEventRows}.
Variable cf : sconf.
Implicit Types (rule : AlertRule) (c : caches) (s : sstate) (w : worker).

(** Rounds, with the time, the caches and the rings of each, and evaluations,
    which change the state of a running worker. *)
Inductive sched_step : sstate → sstate → Prop :=
| sched_round now d c rings rules' rings' s s' : keyed_rules (c_alertRule c) →
    sync_workers cf now d c rings s = Ret (rules', rings', s') → sched_step s s'
| sched_eval s h w w' : s_alertRules s !! h = Some w → w_serial w' = w_serial w →
    sched_step s (s <| s_alertRules := <[h := w']> (s_alertRules s) |>).

Lemma eval_alive m s h w w' :
  alive m s → s_alertRules s !! h = Some w → w_serial w' = w_serial w →
  alive m (s <| s_alertRules := <[h := w']> (s_alertRules s) |>).
Proof.
  intros [H1 H2 H3 H4 H5] Hh Hser.
  assert (∀ h1 w1, <[h := w']> (s_alertRules s) !! h1 = Some w1 →
    ∃ w0, s_alertRules s !! h1 = Some w0 ∧ w_serial w0 = w_serial w1) as Hget.
  { intros h1 w1. destruct (decide (h = h1)) as [<-|Hne].
    - rewrite lookup_insert_eq. intros [= <-]. by exists w.
    - rewrite lookup_insert_ne by done. eauto. }
  split; ksimp; try done.
  - intros n. rewrite H2. split.
    + intros (h1 & w1 & Hw & <-). destruct (decide (h = h1)) as [<-|Hne].
      * exists h. eexists. rewrite lookup_insert_eq. split; [done|]. cbn. congruence.
      * exists h1, w1. by rewrite lookup_insert_ne.
    + intros (h1 & w1 & (w0 & Hw0 & <-)%Hget & <-). eauto.
  - intros h1 h2 w1 w2 (v1 & E1 & <-)%Hget (v2 & E2 & <-)%Hget. by apply H5.
Qed.

(** Over any number of rounds, and whatever the evaluations do to the workers
    in between, every worker is prepared once before it is started once and
    stopped at most once, and the workers the scheduler holds are the running
    ones. *)
Theorem sched_invariant s :
  rtc sched_step (mkSstate 0 ∅ ∅ []) s → ∃ m, alive m s.
Proof.
  intros Hsteps.
  assert (∀ s s', rtc sched_step s s' → (∃ m, alive m s) → ∃ m, alive m s') as Hg.
  { induction 1 as [|s1 s2 s3 Hstep _ IH]; [done|]. intros [m Hm]. apply IH. clear IH.
    destruct Hstep as [now d c rings rules' rings' s1 s2 Hkey Hsync|s1 h w w' Hw Hser]; [|exists m; by eapply eval_alive].
    destruct (sync_workers_Ret cf now d _ _ _ _ _ _ Hkey Hsync) as (k & c' & Hk & Hrun & Hlog & Hser & _).
    assert (alive m (s1 <| s_serial := k_serial k |>)) as Hm1.
    { destruct Hm as [H1 H2 H3 H4 H5]. split; ksimp; try done. intros n Hn%H4.
      pose proof (ki_serial _ _ _ _ _ _ _ Hk). lia. }
    destruct (start_new_alive cf c' (k_workers k) m _ Hm1) as [m1 Ha1].
    { intros h w Hw. destruct (ki_workers _ _ _ _ _ _ _ Hk h w Hw) as (rule & _ & _ & _ & _ & Hr & _). ksimp. split; [|lia].
      destruct (m !! w_serial w) eqn:E; [|done]. assert (w_serial w < s_serial s1)%nat by (apply (al_serial _ _ Hm); eauto). lia. }
    { apply (ki_distinct _ _ _ _ _ _ _ Hk). }
    destruct (stop_old_alive (k_workers k) m1 _ Ha1) as [m2 [H1 H2 H3 H4 H5]]. exists m2.
    rewrite (proj2 (stop_old_lookup _ _)), (proj2 (start_new_lookup _ _ _ _)) in H4. ksimp.
    split; rewrite ?Hlog, ?Hrun, ?Hser; done. }
  apply (Hg _ _ Hsteps). exists ∅. split; cbn; try done; intros *; rewrite ?lookup_empty; try done.
  split; [done|]. intros (h & w & H & _). by rewrite lookup_empty in H.
Qed.
End rounds.

(** *** Panics *)

Section totality.
Context `{GR : GoRange, CH : ConsistentLib, SL : StrLib, CR : CronLib, CS : CronSchedule}.
Context `{GL : GlobLib, QL : EventQueueLib, DBR : CurEventRows}.
Variables (cf : sconf) (now : Z) (d : dsdata).
Implicit Types (rule : AlertRule) (c : caches) (k : wanted) (s : sstate).

Definition schedulable (rules : gmap Z AlertRule) : Prop :=
  ∀ id rule, rules !! id = Some rule → cron_error (Rule.CronPattern (with_cron rule)) = None.

Lemma add_worker_total k rule ds :
  schedulable (k_rules k) → cron_error (Rule.CronPattern (with_cron rule)) = None →
  ∃ k', add_worker cf now k (cached k rule) ds = Ret k' ∧ schedulable (k_rules k').
Proof.
  intros Hs Hr. unfold add_worker, NewAlertRuleWorker.
  assert (cron_error (Rule.CronPattern (with_cron (cached k rule))) = None) as Hc.
  { unfold cached. destruct (k_rules k !! Rule.Id rule) as [r|] eqn:E; cbn; [by apply (Hs _ _ E)|done]. }
  rewrite Hc. cbn. eexists. split; [reflexivity|]. ksimp. intros id r.
  destruct (decide (Rule.Id (cached k rule) = id)) as [<-|Hne].
  - rewrite lookup_insert_eq. intros [= <-]. by rewrite with_cron_idem.
  - rewrite lookup_insert_ne by done. apply Hs.
Qed.

Lemma inner_loop_total rule dsIds k :
  schedulable (k_rules k) → cron_error (Rule.CronPattern (with_cron rule)) = None →
  ∃ k', inner_loop cf now d rule dsIds k = Ret k' ∧ schedulable (k_rules k').
Proof.
  intros Hs Hr. revert k Hs. induction dsIds as [|ds dsIds IH]; intros k Hs; cbn [inner_loop]; [eauto|].
  destruct (IsHit _ _ _ _) as [rings hit]. destruct (negb hit); [by apply IH|].
  destruct (GetById d ds) as [x|]; [|by apply IH]. destruct (negb _); [by apply IH|]. destruct (negb _); [by apply IH|].
  match goal with |- context [add_worker cf now ?k' (cached _ rule) ds] =>
    destruct (add_worker_total k' rule ds Hs Hr) as (k1 & E & Hs1); unfold cached in E |- *; rewrite E end.
  by apply IH.
Qed.

Lemma want_rules_total ids k : schedulable (k_rules k) → ∃ k', want_rules cf now d ids k = Ret k'.
Proof.
  revert k. induction ids as [|id ids IH]; intros k Hs; cbn [want_rules]; [eauto|].
  destruct (k_rules k !! id) as [rule|] eqn:Hr; [|by apply IH]. pose proof (Hs _ _ Hr) as Hc.
  assert (∃ k', want_rule cf now d rule k = Ret k' ∧ schedulable (k_rules k')) as (k' & -> & Hs'); [|by apply IH].
  unfold want_rule. destruct (_ || _); [by apply inner_loop_total|]. destruct (IsHostRule rule).
  - destruct (IsHit _ _ _ _) as [rings hit]. destruct (negb hit); [by eexists|].
    by apply (add_worker_total (k <| k_rings := rings |>)).
  - eexists. split; [reflexivity|]. unfold external_loop.
    apply (foldl_invariant (λ k, schedulable (k_rules k))); [done|]. intros k1 ds _ Hk1.
    destruct (GetById d ds); [|done]. by destruct (negb _).
Qed.

(** A round goes through when every cached rule has a pattern, of its own or from
    its interval, that the scheduler accepts. *)
Theorem sync_workers_total c rings s :
  schedulable (c_alertRule c) → ∃ r, sync_workers cf now d c rings s = Ret r.
Proof.
  intros Hs. unfold sync_workers. destruct (want_rules_total (map fst (go_range (c_alertRule c)))
    (mkWanted (c_alertRule c) rings (s_serial s) ∅ ∅) Hs) as [k ->]. eauto.
Qed.

(** A pattern that the scheduler refuses is logged, and then ends the engine:
    the entry that was not added has no schedule to ask for the next time. *)
Theorem NewAlertRuleWorker_panics n rule ds p e :
  Rule.CronPattern rule ≠ "" → cron_error (Rule.CronPattern rule) = Some e →
  NewAlertRuleWorker n rule ds p now = Panic.
Proof.
  intros Hne He. unfold NewAlertRuleWorker, with_cron. apply String.eqb_neq in Hne. by rewrite Hne, He.
Qed.
End totality.

(** *** The cluster *)

Section cluster.
Context `{GR : GoRange, CH : ConsistentLib, SL : StrLib, CR : CronLib, CS : CronSchedule}.
Context `{GL : GlobLib, QL : EventQueueLib, DBR : CurEventRows}.

(** An engine: what the naming package knows, the configuration of the scheduler
    and its state before and after a round. *)
Record engine := mkEngine {
  g_naming : nconf * nstate;
  g_conf : sconf;
  g_before : sstate;
  g_after : sstate
}.

Definition has_worker (h : string) (g : engine) : Prop := is_Some (s_alertRules (g_after g) !! h).

(** C5. Every rule that engines evaluate themselves (a Prometheus rule, or another rule of the
    built-in kinds; not an external one) runs exactly once in the cluster on every enabled
    data source of its kind that it selects.  The engines have read the same live servers,
    which are themselves; each has done a round, which did not panic, with the same cached
    rules and data sources; and the hash tells the workers of the cached rules apart. *)
Theorem cluster_runs_once (d : dsdata) (c : caches) (l : list string) (es : list engine) id rule ds x :
  keyed_rules (c_alertRule c) → c_alertRule c !! id = Some rule →
  IsPrometheusRule rule || IsInnerRule rule = true →
  ds ∈ GetIDsByDsCateAndQueries d (Rule.Cate rule) (Rule.DatasourceQueries rule) →
  GetById d ds = Some x → Source.PluginType x = GetRuleType rule → Source.Status x = "enabled" →
  (∀ id' rule' ds', c_alertRule c !! id' = Some rule' → worker_hash rule ds = worker_hash rule' ds' →
     hash_text (with_cron rule) ds = hash_text (with_cron rule') ds') →
  l ≠ [] → NoDup (n_Endpoint <$> (g_naming <$> es).*1) →
  (∀ e, e ∈ l → e ∈ n_Endpoint <$> (g_naming <$> es).*1) →
  (∀ g, g ∈ es → s_Endpoint (g_conf g) = n_Endpoint (fst (g_naming g)) ∧ informed ds l (g_naming g) ∧
     ∃ now rules' rings', sync_workers (g_conf g) now d c (n_rings (snd (g_naming g))) (g_before g)
                          = Ret (rules', rings', g_after g)) →
  ∃ i g, es !! i = Some g ∧ has_worker (worker_hash rule ds) g ∧
    ∀ j g', es !! j = Some g' → has_worker (worker_hash rule ds) g' → j = i.
Proof.
  intros Hkey Hr Hin Hds Hx Hty Hen Hmd5 Hne Hnd Hlive Hes.
  assert (∀ g, g ∈ es → has_worker (worker_hash rule ds) g ↔
    snd (IsHit (n_rings (snd (g_naming g))) (itoa ds) (itoa (Rule.Id rule)) (n_Endpoint (fst (g_naming g)))) = true) as Hw.
  { intros g (Hep & _ & now & rules' & rings' & Hs)%Hes. unfold has_worker.
    rewrite (sync_workers_running _ _ _ _ _ _ _ _ _ _ Hkey Hs), <- Hep.
    assert (ds ∈ owned (g_conf g) d (n_rings (snd (g_naming g))) rule ↔ snd (IsHit (n_rings (snd (g_naming g)))
      (itoa ds) (itoa (Rule.Id rule)) (s_Endpoint (g_conf g))) = true) as <-.
    { unfold owned. rewrite Hin, list_elem_of_In, filter_In. unfold usable. rewrite Hx, Hty, Hen, !String.eqb_refl, andb_true_r.
      rewrite <- list_elem_of_In. tauto. }
    split; [|eauto 6]. intros (id' & rule' & ds' & Hr' & Hd' & Hh). apply (Hmd5 id') in Hh; [|done].
    apply hash_text_inj in Hh as [Hid ->]. rewrite !with_cron_Id in Hid.
    rewrite (Hkey _ _ Hr), (Hkey _ _ Hr') in Hid. subst id'. by assert (rule' = rule) as -> by congruence. }
  destruct (rule_owned_once ds l (g_naming <$> es) (itoa (Rule.Id rule)) Hne Hnd Hlive) as (i & e & Hi & Hhit & Huniq).
  { intros e (g & -> & Hg)%list_elem_of_fmap. by apply Hes. }
  rewrite list_lookup_fmap in Hi. destruct (es !! i) as [g|] eqn:Hg; [|done]. injection Hi as <-.
  exists i, g. split_and!; [done|apply Hw; [by eapply list_elem_of_lookup_2|done]|].
  intros j g' Hg' Hw'. apply (Huniq j (g_naming g')); [by rewrite list_lookup_fmap, Hg'|].
  apply Hw; [by eapply list_elem_of_lookup_2|done].
Qed.
End cluster.
