(* ===== verification/Vars.v ===== *)
(** * Variables of a prometheus query: [alert/eval/eval.go], [pkg/promql]

    A query can contain parameter variables (hosts, devices, enumerations) and
    threshold variables, configured in layers that refine one another.  The
    engine either queries without the parameters and filters the result, or
    fills in every combination of parameters and queries each. *)

From Stdlib Require Import Ascii QArith_base.
From S2P Require Import Prelude GoStrings Json Models RuleModels Process.
Open Scope string_scope.
Open Scope Z_scope.

Definition JoinMark : string := "@@".
Definition dollar (key : string) : string := "$" +:+ key.
Definition quote : string := String (ascii_of_nat 34) "".

(** [unit.ValueFormatter(unit, 2, value)]. *)
Class ValueFormat := { ValueFormatter : string → float64 → FormattedValue }.

(** [strconv.FormatFloat(f, 'f', -1, 64)]. *)
Class FormatFloat := { format_float_f : float64 → string }.

(** The prometheus parser: the label matchers of the selectors of an expression. *)
Record matcher := mkMatcher { lm_Name : string; lm_Value : string; lm_Op : string }.
Class PromParser := { parse_selectors : string → result (list (list matcher)) }.

(** The answers to the variable queries that name hosts or devices; the answers
    for hosts are cached during an evaluation. *)
Class IdentQueries := {
  host_idents : iface → result (list string);
  device_idents : ParamQuery → result (list string)
}.

(** ** Text *)

(** [strings.Trim(s, c)] for one character. *)
Fixpoint trim_left_of (c : ascii) (s : string) : string :=
  match s with
  | "" => ""
  | String a s' => if Ascii.eqb a c then trim_left_of c s' else s
  end.
Definition trim_of (c : ascii) (s : string) : string := trim_right_of c (trim_left_of c s).

Definition str_tail (s : string) : string := str_drop 1 s.

(** The pairs of one selector. *)
Definition split_pair (pair : string) : list string :=
  if contains pair "!=" then split pair "!="
  else if contains pair "=~" then split pair "=~"
  else if contains pair "!~" then split pair "!~"
  else split pair "=".

Definition var_of_pair (m : gmap string string) (pair : string) : gmap string string :=
  match split_pair pair with
  | [k; v] =>
      let value := trim_of "'"%char (trim_of (ascii_of_nat 34) (trim_space v)) in
      if has_prefix value "$" then <[str_tail value := trim_space k]> m else m
  | _ => m
  end.

(** Every round drops the text up to the first closing brace; a closing brace
    before the first opening one makes the slice expression panic. *)
Fixpoint var_mapping (fuel : nat) (promql : string) (m : gmap string string) : go (gmap string string) :=
  match fuel with
  | O => Ret m
  | S fuel =>
      match index_of promql "{", index_of promql "}" with
      | Some start, Some end_ =>
          if (end_ <? start + 1)%nat then Panic
          else
            let labels := String.substring (start + 1) (end_ - (start + 1)) promql in
            var_mapping fuel (str_drop (end_ + 1) promql) (foldl var_of_pair m (split labels ","))
      | _, _ => Ret m
      end
  end.

Definition ExtractVarMapping (promql : string) : go (gmap string string) :=
  var_mapping (S (String.length promql)) promql ∅.

Definition fillVar (curRealQuery paramKey val : string) : string :=
  replace_all
    (replace_all curRealQuery ("'" +:+ dollar paramKey +:+ "'") ("'" +:+ val +:+ "'"))
    (quote +:+ dollar paramKey +:+ quote) (quote +:+ val +:+ quote).

(** [WriteRune(rune(b))]: the UTF-8 encoding of the code point [b]. *)
Definition rune_of_byte (c : ascii) : string :=
  if (nat_of_ascii c <? 128)%nat then String c ""
  else String (ascii_of_nat (192 + nat_of_ascii c / 64)) (String (ascii_of_nat (128 + nat_of_ascii c mod 64)) "").

Definition last_char (s : string) : option ascii := last (String.list_ascii_of_string s).

(** The scan of [removeVal]: inside braces, the pairs without a variable are
    copied when their end is reached; [pending] is the text since [lastIdx]. *)
Fixpoint remove_val (s : string) (start isVar : bool) (pending sb : string) : string :=
  match s with
  | "" => sb
  | String c s' =>
      if negb start then
        if Ascii.eqb c "{"%char then remove_val s' true isVar (String c "") (sb +:+ rune_of_byte c)
        else remove_val s' false isVar pending (sb +:+ rune_of_byte c)
      else
        let isVar := isVar || Ascii.eqb c "$"%char in
        if Ascii.eqb c ","%char || Ascii.eqb c "}"%char then
          let sb := if isVar then sb
                    else sb +:+ (if bool_decide (last_char sb = Some "{"%char) then str_tail pending else pending) in
          if Ascii.eqb c "}"%char then remove_val s' false false (String c "") (sb +:+ rune_of_byte c)
          else remove_val s' true false (String c "") sb
        else remove_val s' true isVar (pending +:+ String c "") sb
  end.

Definition removeVal (promql : string) : string := remove_val promql false false "" "".

(** Remove the bracketed parts, from an opening bracket to the next closing
    one; [buf] is the text since an opening bracket. *)
Fixpoint drop_brackets (s : string) (buf : option string) : string :=
  match s with
  | "" => default "" buf
  | String c s' =>
      match buf with
      | None => if Ascii.eqb c "["%char then drop_brackets s' (Some "[") else String c (drop_brackets s' None)
      | Some b => if Ascii.eqb c "]"%char then drop_brackets s' None else drop_brackets s' (Some (b +:+ String c ""))
      end
  end.

Definition contains_any (s : string) (subs : list string) : bool := existsb (contains s) subs.

Definition removeBrackets (promql : string) : string :=
  if contains_any promql ["_over_time"; "rate"; "increase"; "predict_linear"; "resets"; "changes";
                          "holt_winters"; "delta"; "deriv"] then promql
  else drop_brackets promql None.

Section aggregators.
Context `{UC : UnicodeCase}.

Definition hasLabelLossAggregator (query : PromQuery) : bool :=
  contains_any (to_lower (PromQ.PromQl query))
    ["sum("; "min("; "max("; "avg("; "stddev("; "stdvar("; "count("; "quantile("; "group("].

Definition notExactMatch (query : PromQuery) : bool :=
  contains_any (to_lower (PromQ.PromQl query)) ["!="; "=~"; "!~"].
End aggregators.

(** ** Combinations of parameters *)

Fixpoint combine (paramKeys : list string) (paraMap : gmap string (list string)) (current : list string)
  : list (list string) :=
  match paramKeys with
  | [] => [current]
  | key :: paramKeys' =>
      flat_map (λ value, combine paramKeys' paraMap (current ++ [value])) (default [] (paraMap !! key))
  end.

Definition mapPermutation (paramKeys : list string) (paraMap : gmap string (list string)) : list (list string) :=
  combine paramKeys paraMap [].

(** ** Queries *)

Section vars.
Context `{GR : GoRange, SF : SampleFmt, VF : ValueFormat, FF : FormatFloat, PP : PromParser, IQ : IdentQueries}.
Context `{!Json iface, !Json (list string)}.
(** The query of the client, a nil value included. *)
Variable Query : string → result (option query_value).

Definition getString (query : iface) : string :=
  match query with
  | IString s => s
  | IFloat f => format_float_f f
  | _ => ""
  end.

(** A matrix series without samples, or a nil value, panics. *)
Definition getSamples (value : option query_value) : go (list (gmap string string * (Z * float64))) :=
  match value with
  | None => Panic
  | Some (VVector items) => Ret items
  | Some (VMatrix items) =>
      foldr (λ ms acc, l ← acc; match last (snd ms) with
                                | Some s => Ret ((fst ms, s) :: l)
                                | None => Panic
                                end) (Ret []) items
  | Some _ => Ret []
  end.

(** [GetLabelsAndMetricNameWithReplace]: the matchers by name, and the last
    metric name that is no variable. *)
Definition GetLabelsAndMetricNameWithReplace (ql rep : string) : result (gmap string matcher * string) :=
  match parse_selectors (removeBrackets (replace_all ql rep "____")) with
  | Err e => Err e
  | Ok selectors =>
      Ok (foldl (λ acc lm,
            let lm := mkMatcher (lm_Name lm) (replace_all (lm_Value lm) "____" rep) (lm_Op lm) in
            if negb (String.eqb (lm_Name lm) "__name__") then (<[lm_Name lm := lm]> (fst acc), snd acc)
            else if contains (lm_Value lm) "$" then acc
            else (fst acc, lm_Value lm)) (∅, "") (concat selectors))
  end.

(** All values of a label: the selector of the query without its variables is
    asked for. *)
Definition all_label_selector (labels : gmap string matcher) (metricName : string) : string :=
  metricName +:+ "{" +:+
    join (map (λ nl, lm_Name (snd nl) +:+ lm_Op (snd nl) +:+ lm_Value (snd nl))
            (List.filter (λ nl, negb (has_prefix (lm_Value (snd nl)) "$")) (go_range labels))) "," +:+ "}".

Definition label_values (paramKey : string) (metrics : list (gmap string string)) : list string :=
  map fst (go_range (foldl (λ (s : gmap string unit) m, match m !! paramKey with
                                                        | Some v => <[v := tt]> s
                                                        | None => s
                                                        end) ∅ metrics)).

Definition getParamKeyAllLabel (paramKey promql : string) : go (result (list string)) :=
  match GetLabelsAndMetricNameWithReplace promql "$" with
  | Err err => Ret (Err ("promql:" +:+ promql +:+ ", get labels error:" +:+ err))
  | Ok (labels, metricName) =>
      let pr := all_label_selector labels metricName in
      match Query pr with
      | Err err => Ret (Err ("promql: " +:+ pr +:+ " query error: " +:+ err))
      | Ok None => Panic
      | Ok (Some (VVector items)) => Ret (Ok (label_values paramKey (map fst items)))
      | Ok (Some (VMatrix items)) => Ret (Ok (label_values paramKey (map fst items)))
      | Ok (Some _) => Ret (Ok [])
      end
  end.

(** The values of one parameter; a failure of its query leaves none. *)
Definition param_values (paramQuery : ParamQuery) (label originPromql : string) : go (result (list string)) :=
  let ty := VarConf.ParamType paramQuery in
  let found r := match r with Ok l => l | Err _ => [] end in
  if String.eqb ty "host" then Ret (Ok (found (host_idents (VarConf.Query paramQuery))))
  else if String.eqb ty "device" then Ret (Ok (found (device_idents paramQuery)))
  else if String.eqb ty "enum" then
    let q := match json_marshal (VarConf.Query paramQuery) with Ok q => q | Err _ => "" end in
    let query := fst (json_unmarshal q ([] : list string)) in
    if (length query =? 0)%nat
    then r ← getParamKeyAllLabel label originPromql; Ret (Ok (found r))
    else Ret (Ok query)
  else Ret (Err ("unknown param type: " +:+ ty)).

Fixpoint param_map (paramVal : gmap string ParamQuery) (paramKeys : list string)
    (varToLabel : gmap string string) (originPromql : string) (paramMap : gmap string (list string))
  : go (result (gmap string (list string))) :=
  match paramKeys with
  | [] => Ret (Ok paramMap)
  | paramKey :: paramKeys' =>
      match paramVal !! paramKey with
      | None => Ret (Err ("param key not found: " +:+ paramKey))
      | Some paramQuery =>
          r ← param_values paramQuery (default "" (varToLabel !! paramKey)) originPromql;
          match r with
          | Err err => Ret (Err err)
          | Ok [] => Ret (Err ("param key: " +:+ paramKey +:+ ", params is empty"))
          | Ok params => param_map paramVal paramKeys' varToLabel originPromql (<[paramKey := params]> paramMap)
          end
      end
  end.

Definition getParamPermutation (paramVal : gmap string ParamQuery) (paramKeys : list string)
    (varToLabel : gmap string string) (originPromql : string) : go (result (gset string)) :=
  r ← param_map paramVal paramKeys varToLabel originPromql ∅;
  Ret match r with
      | Err err => Err err
      | Ok m => Ok (list_to_set (map (λ c, join c JoinMark) (mapPermutation paramKeys m)))
      end.

(** ** Layers *)

Definition first_layer (vc : VarConfig) : gmap string ParamQuery :=
  foldl (λ m p, <[VarConf.Name p := VarConf.mkParamQuery (VarConf.FParamType p) (VarConf.FQuery p)]> m) ∅
    (VarConf.ParamVal vc).

Definition param_keys (layer : gmap string ParamQuery) : list string :=
  sort_strings (map fst (List.filter (λ kp, negb (String.eqb (VarConf.ParamType (snd kp)) "threshold"))
                           (go_range layer))).

(** The threshold variables of a layer, and a text with their values. *)
Definition val_map (param : gmap string ParamQuery) : gmap string string :=
  foldl (λ m kp, if String.eqb (VarConf.ParamType (snd kp)) "threshold"
                 then <[fst kp := getString (VarConf.Query (snd kp))]> m else m) ∅ (go_range param).
Definition fill_thresholds (valMap : gmap string string) (s : string) : string :=
  foldl (λ s kv, replace_all s (dollar (fst kv)) (snd kv)) s (go_range valMap).

(** The values of the parameters in the labels of a series. *)
Definition param_labels (paramKeys : list string) (varToLabel : gmap string string) (metric : gmap string string)
  : list string := map (λ k, default "" (metric !! default "" (varToLabel !! k))) paramKeys.

Definition fill_params (paramKeys : list string) (vals : list string) (s : string) : string :=
  foldl (λ s kv, fillVar s (fst kv) (snd kv)) s (zip paramKeys vals).

Notation points := (gmap string AnomalyPoint).

(** *** Query, then filter *)

(** The samples of a layer: a combination that is found becomes a point and is
    ticked off; the others lose the point of an outer layer. *)
Definition after_samples (query : PromQuery) (realQuery : string) (paramKeys : list string)
    (varToLabel : gmap string string) (seqVals : list (gmap string string * (Z * float64)))
    (perm : gset string) (pts : points) : points :=
  let '(pts, rest) :=
    foldl (λ (acc : points * gset string) sv, let '(metric, s) := sv in
             let cur := param_labels paramKeys varToLabel metric in
             let key := join cur JoinMark in
             if decide (key ∈ snd acc) then
               (<[key := (point_of (metric_string metric) metric s)
                           <| Point.Severity := PromQ.Severity query |>
                           <| Point.Query := fill_params paramKeys cur realQuery |>]> (fst acc),
                snd acc ∖ {[key]})
             else acc) (pts, perm) seqVals in
  filter (λ kp, kp.1 ∉ rest) pts.

Definition after_layer (query : PromQuery) (fullQuery : string) (paramKeys : list string)
    (varToLabel : gmap string string) (pts : points) (param : gmap string ParamQuery) : go points :=
  let valMap := val_map param in
  match Query (fill_thresholds valMap fullQuery) with
  | Err _ => Ret pts
  | Ok value =>
      seqVals ← getSamples value;
      r ← getParamPermutation param paramKeys varToLabel (PromQ.PromQl query);
      Ret match r with
          | Err _ => pts
          | Ok perm => after_samples query (fill_thresholds valMap (PromQ.PromQl query)) paramKeys varToLabel
                         seqVals perm pts
          end
  end.

(** *** Fill, then query *)

Definition fill_point (query : PromQuery) (promql : string) (p : AnomalyPoint) : AnomalyPoint :=
  p <| Point.Severity := PromQ.Severity query |> <| Point.Query := promql |>
    <| Point.ValuesUnit := {["v" := ValueFormatter (PromQ.Unit query) (Point.Value p)]} |>.

(** One combination; the concurrent queries of a layer are taken one after the
    other, in any order. *)
Definition before_query (query : PromQuery) (paramKeys : list string) (varToLabel : gmap string string)
    (pts : points) (key promql : string) : points :=
  match Query promql with
  | Err _ => pts
  | Ok value =>
      match ConvertAnomalyPoints value with
      | [] => delete key pts
      | ps => foldl (λ pts p, <[join (param_labels paramKeys varToLabel (Point.Labels p)) JoinMark
                                := fill_point query promql p]> pts) pts ps
      end
  end.

(** The text of a combination; the pieces of its key are indexed. *)
Fixpoint fill_split (paramKeys : list string) (pieces : list string) (s : string) : go string :=
  match paramKeys with
  | [] => Ret s
  | k :: paramKeys' =>
      v ← go_index pieces 0;
      fill_split paramKeys' (tail pieces) (fillVar s k v)
  end.

Definition before_layer (query : PromQuery) (paramKeys : list string) (varToLabel : gmap string string)
    (pts : points) (param : gmap string ParamQuery) : go points :=
  let curPromql := fill_thresholds (val_map param) (PromQ.PromQl query) in
  r ← getParamPermutation param paramKeys varToLabel (PromQ.PromQl query);
  match r with
  | Err _ => Ret pts
  | Ok perm =>
      foldl (λ acc kt, pts ← acc;
               promql ← fill_split paramKeys (split (fst kt) JoinMark) curPromql;
               Ret (before_query query paramKeys varToLabel pts (fst kt) promql))
        (Ret pts) (go_range (gset_to_gmap tt perm))
  end.

(** The layers, outermost first. *)
Fixpoint fold_child (layer : points → gmap string ParamQuery → go points) (c : ChildVarConfig) (pts : points)
  : go points :=
  match c with
  | VarConf.mkChildVarConfig pv next =>
      pts ← foldl (λ acc param, pts ← acc; layer pts param) (Ret pts) pv;
      match next with
      | Some c' => fold_child layer c' pts
      | None => Ret pts
      end
  end.

Definition fold_layers (layer : points → gmap string ParamQuery → go points) (vc : VarConfig) : go points :=
  fold_child layer (VarConf.mkChildVarConfig [first_layer vc] (VarConf.ChildVarConfigs vc)) ∅.

Definition VarFillingAfterQuery (query : PromQuery) : go (list AnomalyPoint) :=
  varToLabel ← ExtractVarMapping (PromQ.PromQl query);
  let vc := PromQ.VarConfig query in
  pts ← fold_layers (after_layer query (removeVal (PromQ.PromQl query)) (param_keys (first_layer vc)) varToLabel) vc;
  Ret (map snd (go_range pts)).

Definition VarFillingBeforeQuery (query : PromQuery) : go (list AnomalyPoint) :=
  varToLabel ← ExtractVarMapping (PromQ.PromQl query);
  let vc := PromQ.VarConfig query in
  pts ← fold_layers (before_layer query (param_keys (first_layer vc)) varToLabel) vc;
  Ret (map snd (go_range pts)).
End vars.

(** ** Properties *)

(** The combinations are the cartesian product of the values of the keys. *)
Lemma combine_spec paramKeys paraMap current c :
  c ∈ combine paramKeys paraMap current ↔
  ∃ vs, c = (current ++ vs)%list ∧ Forall2 (λ v k, v ∈ default [] (paraMap !! k)) vs paramKeys.
Proof.
  revert current. induction paramKeys as [|k keys IH]; intros current; cbn [combine].
  - rewrite list_elem_of_singleton. split.
    + intros ->. exists []. by rewrite app_nil_r.
    + intros (vs & -> & Hvs). inversion Hvs; subst. by rewrite app_nil_r.
  - rewrite list_elem_of_In, in_flat_map. split.
    + intros (v & Hv & Hc). apply list_elem_of_In, IH in Hc as (vs & -> & Hvs). exists (v :: vs).
      split; [by rewrite <- app_assoc|]. constructor; [by apply list_elem_of_In|done].
    + intros (vs & -> & Hvs). inversion Hvs as [|v k' vs' keys' Hv Hvs']; subst. exists v.
      split; [by apply list_elem_of_In|]. apply list_elem_of_In, IH. exists vs'. by rewrite <- app_assoc.
Qed.

Lemma combine_length paramKeys paraMap current :
  length (combine paramKeys paraMap current) =
  foldr Nat.mul 1%nat (map (λ k, length (default [] (paraMap !! k))) paramKeys).
Proof.
  revert current. induction paramKeys as [|k keys IH]; intros current; [done|]. cbn [combine map foldr].
  induction (default [] (paraMap !! k)) as [|v vs IHv]; [done|]. cbn [flat_map length].
  rewrite length_app, IH, IHv. lia.
Qed.

(** Every combination of parameter values is produced, once for every way to
    choose them. *)
Theorem mapPermutation_spec paramKeys paraMap :
  (∀ c, c ∈ mapPermutation paramKeys paraMap ↔ Forall2 (λ v k, v ∈ default [] (paraMap !! k)) c paramKeys) ∧
  length (mapPermutation paramKeys paraMap) =
  foldr Nat.mul 1%nat (map (λ k, length (default [] (paraMap !! k))) paramKeys).
Proof.
  split; [|apply combine_length]. intros c. unfold mapPermutation. rewrite combine_spec. cbn [app]. naive_solver.
Qed.

(** *** Extracting variables *)

Lemma index_of_lt s sep i : index_of s sep = Some i → sep ≠ "" → (i < String.length s)%nat.
Proof.
  unfold index_of. destruct (cut sep s) as [[b a]|] eqn:E; [|done]. intros [= <-] Hne.
  apply cut_Some in E as ->. rewrite !slength_app. destruct sep; [done|]. cbn [String.length]. lia.
Qed.

Lemma var_mapping_fuel n k s m :
  (String.length s ≤ n)%nat → (String.length s ≤ k)%nat → var_mapping (S n) s m = var_mapping (S k) s m.
Proof.
  revert k s m. induction n as [|n IH]; intros k s m Hn Hk; cbn [var_mapping].
  all: destruct (index_of s "{") as [i|] eqn:Ei; [|done]; destruct (index_of s "}") as [j|] eqn:Ej; [|done];
    pose proof (index_of_lt _ _ _ Ej ltac:(done)) as Hj.
  { lia. }
  destruct (j <? i + 1)%nat; [done|]. destruct k as [|k]; [lia|].
  apply IH; rewrite str_drop_length; lia.
Qed.

(** The loop ends: it looks at most once more than the text is long, whatever
    the bound. *)
Theorem ExtractVarMapping_fuel promql fuel :
  (String.length promql < fuel)%nat → var_mapping fuel promql ∅ = ExtractVarMapping promql.
Proof. intros Hf. destruct fuel as [|n]; [lia|]. apply var_mapping_fuel; lia. Qed.

(** A closing brace before the first opening one ends the engine. *)
Theorem ExtractVarMapping_panics promql i j :
  index_of promql "{" = Some i → index_of promql "}" = Some j → (j ≤ i)%nat → ExtractVarMapping promql = Panic.
Proof.
  intros Hi Hj Hle. unfold ExtractVarMapping. cbn [var_mapping]. rewrite Hi, Hj.
  by rewrite (proj2 (Nat.ltb_lt j (i + 1))) by lia.
Qed.

(** *** Layers *)

Section vars_spec.
Context `{GR : GoRange, SF : SampleFmt, VF : ValueFormat, FF : FormatFloat, PP : PromParser, IQ : IdentQueries}.
Context `{!Json iface, !Json (list string)}.

(** The point of a sample, and the combination of its parameters. *)
Definition sample_key (paramKeys : list string) (varToLabel : gmap string string)
    (sv : gmap string string * (Z * float64)) : string :=
  join (param_labels paramKeys varToLabel (fst sv)) JoinMark.
Definition sample_point (query : PromQuery) (realQuery : string) (paramKeys : list string)
    (varToLabel : gmap string string) (sv : gmap string string * (Z * float64)) : AnomalyPoint :=
  (point_of (metric_string (fst sv)) (fst sv) (snd sv))
    <| Point.Severity := PromQ.Severity query |>
    <| Point.Query := fill_params paramKeys (param_labels paramKeys varToLabel (fst sv)) realQuery |>.

Lemma after_samples_loop query realQuery keys v2l seqVals (perm : gset string) (pts : gmap string AnomalyPoint) k :
  let r := foldl (λ (acc : gmap string AnomalyPoint * gset string) sv, let '(metric, s) := sv in
             let cur := param_labels keys v2l metric in
             let key := join cur JoinMark in
             if decide (key ∈ snd acc) then
               (<[key := (point_of (metric_string metric) metric s)
                           <| Point.Severity := PromQ.Severity query |>
                           <| Point.Query := fill_params keys cur realQuery |>]> (fst acc),
                snd acc ∖ {[key]})
             else acc) (pts, perm) seqVals in
  let found := List.find (λ sv, String.eqb (sample_key keys v2l sv) k) seqVals in
  if decide (k ∈ perm) then
    match found with
    | Some sv => fst r !! k = Some (sample_point query realQuery keys v2l sv) ∧ k ∉ snd r
    | None => fst r !! k = pts !! k ∧ k ∈ snd r
    end
  else fst r !! k = pts !! k ∧ k ∉ snd r.
Proof.
  cbv zeta. revert perm pts. induction seqVals as [|[metric s] svs IH]; intros perm pts; cbn [foldl List.find].
  { case_decide; done. }
  unfold sample_key at 1. cbn [fst snd]. set (key := join (param_labels keys v2l metric) JoinMark).
  match goal with |- context [if decide (key ∈ perm) then ?x else ?y] => set (acc := if decide (key ∈ perm) then x else y) end.
  specialize (IH (snd acc) (fst acc)). rewrite <- surjective_pairing in IH. unfold acc in *. clear acc.
  destruct (String.eqb_spec key k) as [<-|Hne].
  - destruct (decide (key ∈ perm)) as [Hp|Hp]; cbn [fst snd] in IH.
    + rewrite decide_False in IH by set_solver. destruct IH as [IH1 IH2]. split; [|done].
      rewrite IH1, lookup_insert_eq. done.
    + by rewrite decide_False in IH by done.
  - destruct (decide (key ∈ perm)) as [Hp|Hp]; cbn [fst snd] in IH; [|exact IH].
    rewrite lookup_insert_ne in IH by done.
    destruct (decide (k ∈ perm)) as [Hk|Hk].
    + by rewrite decide_True in IH by set_solver.
    + by rewrite decide_False in IH by set_solver.
Qed.

(** A layer decides for the combinations it selects and leaves the others: a
    selected combination has the point of its first sample, or none, and any
    other keeps the point of the outer layers. *)
Theorem after_samples_spec query realQuery keys v2l seqVals (perm : gset string) pts k :
  after_samples query realQuery keys v2l seqVals perm pts !! k =
  if decide (k ∈ perm)
  then sample_point query realQuery keys v2l <$> List.find (λ sv, String.eqb (sample_key keys v2l sv) k) seqVals
  else pts !! k.
Proof.
  unfold after_samples. pose proof (after_samples_loop query realQuery keys v2l seqVals perm pts k) as Hl. cbv zeta in Hl.
  destruct (foldl _ (pts, perm) seqVals) as [pts' rest]. cbn [fst snd] in Hl. rewrite map_lookup_filter.
  destruct (decide (k ∈ perm)); [destruct (List.find _ seqVals) as [sv|]|].
  - destruct Hl as [-> Hk]. cbn. by rewrite option_guard_True.
  - destruct Hl as [_ Hk]. destruct (pts' !! k); cbn; [|done]. rewrite option_guard_False; [done|]. naive_solver.
  - destruct Hl as [-> Hk]. destruct (pts !! k); cbn; [|done]. by rewrite option_guard_True.
Qed.

(** A failing query is no error of the evaluation: when the data source refuses
    every query, the result is the empty list of points. *)
Theorem VarFilling_failing (Query : string → result (option query_value)) query v2l :
  (∀ q, ∃ e, Query q = Err e) → ExtractVarMapping (PromQ.PromQl query) = Ret v2l →
  VarFillingAfterQuery Query query = Ret [].
Proof.
  intros Hq Hv. unfold VarFillingAfterQuery. rewrite Hv. cbn [mbind go_bind].
  assert (∀ keys pts param, after_layer Query query (removeVal (PromQ.PromQl query)) keys v2l pts param = Ret pts) as Hl.
  { intros keys pts param. unfold after_layer. destruct (Hq (fill_thresholds (val_map param) (removeVal (PromQ.PromQl query)))) as [e ->]. done. }
  assert (∀ layer c pts, (∀ pts param, layer pts param = Ret pts) → fold_child layer c pts = Ret pts) as Hc.
  { intros layer c pts Hlayer. revert c. fix rec 1. intros [pv next]. cbn [fold_child].
    assert (foldl (λ acc param, pts ← acc; layer pts param) (Ret pts) pv = Ret pts) as ->.
    { induction pv as [|param pv IH]; [done|]. cbn [foldl mbind go_bind]. by rewrite Hlayer. }
    cbn [mbind go_bind]. destruct next as [c'|]; [apply rec|done]. }
  unfold fold_layers. rewrite Hc by (intros; apply Hl). cbn [mbind go_bind].
  assert (go_range (∅ : gmap string AnomalyPoint) = []) as ->; [|done].
  apply Permutation_nil. by rewrite go_range_perm, map_to_list_empty.
Qed.
End vars_spec.
