(* ===== verification/Eval.v ===== *)
(** * Evaluating a rule: [alert/eval/eval.go], [pkg/parser/calc.go]

    What a worker does when its schedule fires: it gets the anomaly points of
    its rule from prometheus, from the host tables or from another data source,
    recovers the events whose condition is no longer met, and hands the points
    to the processor.  An error ends the evaluation. *)

From Stdlib Require Import Ascii QArith_base SpecFloat.
From S2P Require Import Prelude GoStrings GoTime Json Models RuleModels EventOps Filter Mute Relabel Workflow.
From S2P Require Import Engine Processors RuleOps EventTable Process Consume Naming Caches Joins Scheduler Vars.
Open Scope string_scope.
Open Scope Z_scope.

(** ** Expressions: [pkg/parser/calc.go] *)

(** [github.com/expr-lang/expr] with the environment and the function [between]. *)
Class ExprLib := { expr_eval : string → gmap string iface → result iface }.

Definition is_upper (c : ascii) : bool := (65 <=? nat_of_ascii c)%nat && (nat_of_ascii c <=? 90)%nat.

(** A variable [$A.] becomes [A_]. *)
Fixpoint replaceDollarSigns (s : string) : string :=
  match s with
  | "" => ""
  | String d t =>
      match t with
      | String c (String p u) =>
          if Ascii.eqb d "$"%char && is_upper c && Ascii.eqb p "."%char
          then String c (String "_"%char (replaceDollarSigns u))
          else String d (replaceDollarSigns t)
      | _ => String d (replaceDollarSigns t)
      end
  end.

Definition cleanStr (s : string) : string := replace_all (replaceDollarSigns s) "$." "".

Definition float64_pos (f : float64) : bool :=
  match f with F64 q => (0 <? Qnum q) | PInf => true | _ => false end.

Definition float64_le (a b : float64) : bool :=
  match a, b with
  | NaN, _ | _, NaN => false
  | NInf, _ | _, PInf => true
  | F64 p, F64 q => Qle_bool p q
  | _, _ => false
  end.

(** A number given as a float or an integer. *)
Definition number_of (v : iface) : option float64 :=
  match v with IFloat f => Some f | IInt z => Some (F64 (inject_Z z)) | _ => None end.

(** The function that expressions can call. *)
Definition between (target : float64) (arr : list iface) : bool :=
  match arr with
  | [a; b] =>
      match number_of a, number_of b with
      | Some min, Some max => float64_le min target && float64_le target max
      | _, _ => false
      end
  | _ => false
  end.

Section calc.
Context `{GR : GoRange, EX : ExprLib}.

(** The function [between] hides a value of that name. *)
Definition calc_env (data : gmap string iface) : gmap string iface :=
  delete "between" (foldl (λ m kv, <[cleanStr (fst kv) := snd kv]> m) ∅ (go_range data)).

Definition MathCalc (s : string) (data : gmap string iface) : result float64 :=
  match expr_eval (cleanStr s) (calc_env data) with
  | Err err => Err err
  | Ok (IFloat f) => Ok f
  | Ok (IBool b) => Ok (F64 (if b then 1 else 0)%Q)
  | Ok (IInt z) => Ok (F64 (inject_Z z))
  | Ok _ => Ok (F64 0%Q)
  end.

Definition CalcWithRid (s : string) (data : gmap string iface) : bool :=
  match MathCalc s data with Err _ => false | Ok v => float64_pos v end.
End calc.

(** ** IEEE arithmetic of the percentage *)

Definition sf_of_Z (z : Z) : spec_float := binary_normalize 53 1024 z 0 false.

(** [float64(a) / float64(b) * 100]. *)
Definition sf_percent (a b : Z) : spec_float :=
  SFmul 53 1024 (SFdiv 53 1024 (sf_of_Z a) (sf_of_Z b)) (sf_of_Z 100).

Definition float64_of_sf (f : spec_float) : float64 :=
  match f with
  | S754_zero _ => F64 0%Q
  | S754_infinity s => if s then NInf else PInf
  | S754_nan => NaN
  | S754_finite s m e =>
      let n := if s then Zneg m else Zpos m in
      F64 (if 0 <=? e then inject_Z (n * 2 ^ e) else Qmake n (Z.to_pos (2 ^ (- e))))
  end.

Definition float_of_int (z : Z) : float64 := float64_of_sf (sf_of_Z z).

(** ** The data sources *)

(** The query of a data source plugin ([dscache.DsCache.Get], [QueryData]) by
    category, data source and delay. *)
Class Datasources := {
  ds_exists : string → Z → bool;
  ds_QueryData : string → Z → Z → iface → result (list DataResp)
}.

(** [text/template] with the functions of [tplx], on an empty structure. *)
Class SqlTemplate := { sql_template : string → result string }.

(** Renderings: [%.3f], the date of a second, and [%+v] of the queries with a
    trigger. *)
Class EvalFmt := {
  fmt_fixed3 : float64 → string;
  fmt_datetime : Z → string;
  fmt_query : list iface → Trigger → string
}.

(** [Query] of [GetQueryRefAndUnit]. *)
Record ref_unit := mkRefUnit { ru_Ref : string; ru_Unit : string }.

Definition GetQueryRef (query : iface) : result string :=
  match query with
  | IMap l =>
      match list_to_map (M := gmap string iface) l !! "ref" with
      | Some (IString ref) => Ok ref
      | Some _ => Err "ref is not a string"
      | None => Err "no ref in query"
      end
  | _ => Err "query not a struct or map"
  end.

Section template.
Context `{ST : SqlTemplate}.

Definition ExecuteSqlTemplate (query : string) : result string :=
  if negb (contains query "{{") || negb (contains query "}}") then Ok query else sql_template query.

(** The query is changed in place. *)
Definition ExecuteQueryTemplate (query : iface) : iface * option error :=
  match query with
  | IMap l =>
      match list_to_map (M := gmap string iface) l !! "sql" with
      | Some (IString sql) =>
          match ExecuteSqlTemplate sql with
          | Err err => (query, Some ("execute sql template error: " +:+ err))
          | Ok sql => (IMap (map (λ kv, if String.eqb (fst kv) "sql" then (fst kv, IString sql) else kv) l), None)
          end
      | _ => (query, None)
      end
  | _ => (query, None)
  end.
End template.

(** ** Getting the points *)

(** The hosts of the rules and the redis of the target cache. *)
Record hosts := mkHosts {
  h_targetsOfAlertRule : gmap string (gmap Z (list string));
  h_redis : option Redis
}.

Section points.
Context `{GR : GoRange, QL : EventQueueLib, SF : SampleFmt, UC : UnicodeCase}.
Context `{PC : PromClients, VF : ValueFormat, FF : FormatFloat, PP : PromParser, IQ : IdentQueries}.
Context `{EX : ExprLib, DS : Datasources, ST : SqlTemplate, FM : EvalFmt, MM : Murmur3}.
Context `{!Json iface, !Json (list string), !Json (option PromRuleConfig), !Json (option HostRuleConfig)}.
Context `{!Json RuleQuery, !Json ref_unit, !Json HostMeta, !Json HostUpdateTime}.
Implicit Types w : worker.

(** *** Prometheus and Loki *)

(** One query of a rule: the points, or the error that ends the evaluation. *)
Definition prom_query (dsId : Z) (query : PromQuery) : go (result (list AnomalyPoint)) :=
  if prom_IsNil dsId then Ret (Ok [])
  else if PromQ.VarEnabled query && contains (PromQ.PromQl query) "$" then
    points ← (if hasLabelLossAggregator query || notExactMatch query
              then VarFillingBeforeQuery (prom_Query dsId) query
              else VarFillingAfterQuery (prom_Query dsId) query);
    Ret (Ok points)
  else
    let promql := trim_space (PromQ.PromQl query) in
    if String.eqb promql "" then Ret (Ok [])
    else match prom_Query dsId promql with
    | Err err => Ret (Err err)
    | Ok value => Ret (Ok (map (fill_point query promql) (ConvertAnomalyPoints value)))
    end.

Fixpoint prom_queries (dsId : Z) (queries : list PromQuery) (lst : list AnomalyPoint)
  : go (result (list AnomalyPoint)) :=
  match queries with
  | [] => Ret (Ok lst)
  | query :: queries' =>
      r ← prom_query dsId query;
      match r with
      | Err err => Ret (Err err)
      | Ok points => prom_queries dsId queries' (lst ++ points)
      end
  end.

Definition GetPromAnomalyPoint w (ruleConfig : string) : go (worker * result (list AnomalyPoint)) :=
  match json_unmarshal ruleConfig (None : option PromRuleConfig) with
  | (_, Some err) => Ret (w, Err err)
  | (None, None) => Ret (w, Err "rule is nil")
  | (Some rule, None) =>
      r ← prom_queries (w_DatasourceId w) (PromRuleConf.Queries rule) [];
      Ret (w <| w_Inhibit := PromRuleConf.Inhibit rule |>, r)
  end.

(** *** Hosts *)

(** The hosts among [idents] that have not reported since [t]. *)
Definition miss_targets (h : hosts) (targets : gmap string Target) (idents : list string) (t : Z) : list string :=
  map fst (List.filter (λ iu, snd iu <? t) (go_range (GetHostUpdateTime (h_redis h) targets idents))).

Definition target_miss cf (h : hosts) (targets : gmap string Target) (ruleId now : Z) (trigger : HostTrigger)
  : list AnomalyPoint :=
  let t := now - HostTrig.Duration trigger in
  let missEngineIdents :=
    if s_IsCenter cf then default [] (TargetsOfAlertRule_Get (h_targetsOfAlertRule h) "" ruleId) else [] in
  let engineIdents := default [] (TargetsOfAlertRule_Get (h_targetsOfAlertRule h) (s_EngineName cf) ruleId) in
  let idents := (missEngineIdents ++ engineIdents)%list in
  if (length idents =? 0)%nat then []
  else map (λ target, NewAnomalyPoint (HostTrig.Type_ trigger)
                        (<["ident" := Tgt.Ident target]> (Tgt.TagsMap target)) now
                        (float_of_int (now - Tgt.UpdateAt target)) (HostTrig.Severity trigger))
         (Targets_Gets targets (miss_targets h targets idents t)).

(** The clock offsets that redis reports; the comparison through floats is exact
    for them. *)
Definition offset_idents (h : hosts) (cache : gmap string Target) (idents : list string) (now duration : Z)
  : gmap string Z :=
  let targets := Targets_Gets cache idents in
  let targetMap := foldl (λ (m : gmap string Target) t, <[Tgt.Ident t := t]> m) ∅ targets in
  foldl (λ (m : gmap string Z) im, let '(ident, meta) := im in
           if HostMt.CpuNum meta <=? 0 then m
           else if match targetMap !! ident with Some t => 120 <? now - Tgt.UpdateAt t | None => false end then m
           else if duration <? Z.abs (HostMt.Offset meta) then <[ident := HostMt.Offset meta]> m
           else m) ∅ (go_range (GetHostMetas (h_redis h) targets)).

Definition host_offset cf (h : hosts) (cache : gmap string Target) (ruleId now : Z) (trigger : HostTrigger)
  : list AnomalyPoint :=
  match TargetsOfAlertRule_Get (h_targetsOfAlertRule h) (s_EngineName cf) ruleId with
  | None => []
  | Some idents =>
      map (λ io, NewAnomalyPoint (HostTrig.Type_ trigger)
                   (<["ident" := fst io]> match cache !! fst io with Some t => Tgt.TagsMap t | None => ∅ end)
                   now (float_of_int (snd io)) (HostTrig.Severity trigger))
        (go_range (offset_idents h cache idents now (HostTrig.Duration trigger)))
  end.

(** The percentage of missing hosts, in floating point. *)
Definition pct_target_miss cf (h : hosts) (targets : gmap string Target) (ruleId now : Z) (trigger : HostTrigger)
  : list AnomalyPoint :=
  match TargetsOfAlertRule_Get (h_targetsOfAlertRule h) (s_EngineName cf) ruleId with
  | None => []
  | Some idents =>
      let miss := miss_targets h targets idents (now - HostTrig.Duration trigger) in
      let pct := sf_percent (Z.of_nat (length miss)) (Z.of_nat (length idents)) in
      if SFleb (sf_of_Z (HostTrig.Percent trigger)) pct
      then [NewAnomalyPoint (HostTrig.Type_ trigger) ∅ now (float64_of_sf pct) (HostTrig.Severity trigger)]
      else []
  end.

Definition host_trigger cf (h : hosts) (targets : gmap string Target) (ruleId now : Z) (trigger : HostTrigger)
  : list AnomalyPoint :=
  if String.eqb (HostTrig.Type_ trigger) "target_miss" then target_miss cf h targets ruleId now trigger
  else if String.eqb (HostTrig.Type_ trigger) "offset" then host_offset cf h targets ruleId now trigger
  else if String.eqb (HostTrig.Type_ trigger) "pct_target_miss" then pct_target_miss cf h targets ruleId now trigger
  else [].

Definition GetHostAnomalyPoint cf (h : hosts) (targets : gmap string Target) (now : Z) w (ruleConfig : string)
  : worker * result (list AnomalyPoint) :=
  match json_unmarshal ruleConfig (None : option HostRuleConfig) with
  | (_, Some err) => (w, Err err)
  | (None, None) => (w, Err "rule is nil")
  | (Some rule, None) =>
      (w <| w_Inhibit := HostRuleConf.Inhibit rule |>,
       Ok (flat_map (host_trigger cf h targets (Rule.Id (w_Rule w)) now) (HostRuleConf.Triggers rule)))
  end.

(** *** Other data sources *)

(** The queries in order: the series by hash, the groups of every query, and the
    queries after their templates.  A failing template is logged only; a query
    without a reference keeps its series but has no groups. *)
Fixpoint run_queries (cate : string) (dsId delay : Z) (queries : list iface)
    (st : store) (indexes : gmap string index) (done_ : list iface)
  : result (store * gmap string index * list iface) :=
  match queries with
  | [] => Ok (st, indexes, done_)
  | query :: queries' =>
      if negb (ds_exists cate dsId) then Err ("datasource:" +:+ itoa dsId +:+ " not exists")
      else
        let query := fst (ExecuteQueryTemplate query) in
        match ds_QueryData cate dsId delay query with
        | Err err => Err ("query data error: " +:+ err)
        | Ok series =>
            let '(ix, st) := MakeSeriesMap series ∅ st in
            match GetQueryRef query with
            | Err _ => run_queries cate dsId delay queries' st indexes (done_ ++ [query])
            | Ok ref => run_queries cate dsId delay queries' st (<[ref := ix]> indexes) (done_ ++ [query])
            end
        end
  end.

Definition unit_map (queries : list iface) : gmap string string :=
  foldl (λ m q, match json_marshal q with
                | Err _ => m
                | Ok b => let ru := fst (json_unmarshal b (mkRefUnit "" "")) in <[ru_Ref ru := ru_Unit ru]> m
                end) ∅ queries.

(** The variables of an expression, the values with units and the last sample
    that counts, over the series of a group. *)
Record gathered := mkGathered {
  ga_m : gmap string iface;
  ga_units : gmap string FormattedValue;
  ga_ts : Z;
  ga_sample : DataResp;
  ga_value : float64
}.

Definition gather_one (exp : string) (units : gmap string string) (st : store) (g : gathered) (h : Z) : gathered :=
  match st !! h with
  | None => g
  | Some series =>
      match Last series with
      | None => g
      | Some (t, v) =>
          let ref := "$" +:+ Series.Ref series in
          if negb (contains exp ref) then g
          else
            let m := <[ref +:+ "." +:+ MetricName series := IFloat v]> (<[ref := IFloat v]> (ga_m g)) in
            let m := foldl (λ m kv, let '(k, lv) := kv in
                       if String.eqb k "__name__" then m
                       else if negb (contains exp (ref +:+ "." +:+ k)) then m
                       else <[ref +:+ "." +:+ k := IString lv]> m) m (go_range (Series.Metric series)) in
            let us := match units !! Series.Ref series with
                      | Some u => <[ref +:+ "." +:+ MetricName series := ValueFormatter u v]> (ga_units g)
                      | None => ga_units g
                      end in
            mkGathered m us (float64_to_int t) series v
      end
  end.

Definition sort_hashes (l : list Z) : list Z := merge_sort Z.le l.

Definition gather (exp : string) (units : gmap string string) (st : store) (g : group) : gathered :=
  foldl (gather_one exp units st)
    (mkGathered ∅ ∅ 0 (Series.mkDataResp "" ∅ "" [] "") (F64 0%Q)) (sort_hashes g).

Definition values_text (g : gathered) : string :=
  sconcat (map (λ kv, let '(k, v) := kv in
             if negb (contains k ".") then ""
             else match ga_units g !! k with
             | Some u => k +:+ ":" +:+ FormattedVal.Text u +:+ " "
             | None => match v with
                       | IFloat f => k +:+ ":" +:+ fmt_fixed3 f +:+ " "
                       | IString s => k +:+ ":" +:+ s +:+ " "
                       | _ => ""
                       end
             end) (go_range (ga_m g))).

Definition group_point (queries : list iface) (trigger : Trigger) (triggered : bool) (g : gathered) : AnomalyPoint :=
  let queries := if negb (String.eqb (Series.Query (ga_sample g)) "")
                 then [IString (Series.Query (ga_sample g))] else queries in
  Point.mkAnomalyPoint (MetricName (ga_sample g)) (Series.Metric (ga_sample g)) (ga_ts g) (ga_value g)
    (Trig.Severity trigger) triggered (fmt_query queries trigger) (values_text g) (ga_units g)
    (Trig.RecoverConfig trigger) "".

Definition RecoverOnCondition : Z := 2.

(** A group of a trigger: an anomaly point, a recovery point, or neither. *)
Definition judge_group (queries : list iface) (trigger : Trigger) (units : gmap string string) (st : store)
    (acc : list AnomalyPoint * list AnomalyPoint) (grp : group) : list AnomalyPoint * list AnomalyPoint :=
  let g := gather (Trig.Exp trigger) units st grp in
  let triggered := CalcWithRid (Trig.Exp trigger) (ga_m g) in
  let point := group_point queries trigger triggered g in
  if triggered then ((fst acc ++ [point])%list, snd acc)
  else if (RecoverConf.JudgeType (Trig.RecoverConfig trigger) =? RecoverOnCondition)
          && negb (CalcWithRid (RecoverConf.RecoverExp (Trig.RecoverConfig trigger)) (ga_m g))
       then acc
       else (fst acc, (snd acc ++ [point])%list).

Definition judge_trigger (queries : list iface) (units : gmap string string) (st : store)
    (indexes : gmap string index) (acc : list AnomalyPoint * list AnomalyPoint) (trigger : Trigger)
  : list AnomalyPoint * list AnomalyPoint :=
  foldl (judge_group queries trigger units st) acc (map snd (go_range (ProcessJoins trigger indexes st))).

(** A series of an earlier evaluation: forgotten, kept silently, or reported as
    without data. *)
Definition expired (trig : NodataTrigger) (now : Z) (series : DataResp) : bool :=
  NodataTrig.ResolveAfterEnable trig &&
  match Last series with Some (t, _) => NodataTrig.ResolveAfter trig <? now - float64_to_int t | None => false end.

Definition nodata_point (trig : NodataTrigger) (now : Z) (series : DataResp) : AnomalyPoint :=
  Point.zero <| Point.Key := MetricName series |> <| Point.Labels := Series.Metric series |>
    <| Point.Timestamp := now |> <| Point.Values := "nodata since " +:+ fmt_datetime now |>
    <| Point.Severity := NodataTrig.Severity trig |> <| Point.Triggered := true |>
    <| Point.Query := "nodata check for " +:+ metric_string (Series.Metric series) |>
    <| Point.TriggerType := TriggerTypeNodata |>.

Definition nodata_step (trig : NodataTrigger) (now : Z) (st : store) (acc : list AnomalyPoint * store)
    (hs : Z * DataResp) : list AnomalyPoint * store :=
  let '(h, series) := hs in
  if NodataTrig.ResolveAfterEnable trig && match Last series with None => true | Some _ => false end then acc
  else if expired trig now series then (fst acc, delete h (snd acc))
  else match st !! h with
  | Some _ => acc
  | None => ((fst acc ++ [nodata_point trig now series])%list, snd acc)
  end.

Definition check_nodata (trig : NodataTrigger) (now : Z) (st : store) (points : list AnomalyPoint)
    (last_ : store) : list AnomalyPoint * store :=
  let '(points, last_) := foldl (nodata_step trig now st) (points, last_) (go_range last_) in
  (points, st ∪ last_).

Definition GetAnomalyPoint w (rule : AlertRule) (dsId now : Z)
  : worker * result (list AnomalyPoint * list AnomalyPoint) :=
  let ruleConfig := trim_space (Rule.RuleConfig rule) in
  let prefix := "rule_eval:" +:+ itoa (Rule.Id rule) +:+ " " in
  if String.eqb ruleConfig "" then (w, Err (prefix +:+ "ruleConfig is blank"))
  else match json_unmarshal ruleConfig RuleQ.zero with
  | (_, Some err) => (w, Err (prefix +:+ "promql parse error:" +:+ err))
  | (ruleQuery, None) =>
      let w := w <| w_Inhibit := RuleQ.Inhibit ruleQuery |> in
      if (length (RuleQ.Queries ruleQuery) =? 0)%nat then (w, Ok ([], []))
      else match run_queries (Rule.Cate rule) dsId (Rule.Delay rule) (RuleQ.Queries ruleQuery) ∅ ∅ [] with
      | Err err => (w, Err (prefix +:+ err))
      | Ok (st, indexes, queries) =>
          let '(points, recoverPoints) :=
            if negb (RuleQ.ExpTriggerDisable ruleQuery)
            then foldl (judge_trigger queries (unit_map queries) st indexes) ([], []) (RuleQ.Triggers ruleQuery)
            else ([], []) in
          if NodataTrig.Enable (RuleQ.NodataTrigger ruleQuery) then
            let '(points, last_) := check_nodata (RuleQ.NodataTrigger ruleQuery) now st points (w_LastSeriesStore w) in
            (w <| w_LastSeriesStore := last_ |>, Ok (points, recoverPoints))
          else (w, Ok (points, recoverPoints))
      end
  end.
End points.

(** ** The evaluation *)

Section eval.
Context {World : Type} `{RT : Runtime World, GR : GoRange, QL : EventQueueLib, CS : CronSchedule}.
Context `{HT : HtmlTemplate, SF : SampleFmt, SL : StrLib}.
Context `{RG : Regexp, !RegexpSub, M5 : Md5, LN : LabelNames, UC : UnicodeCase}.
Context `{GF : GoFmt, EF : EventFieldJson, TZ : Location}.
Context `{!Json (gmap string string), !Json RuleQuery, !Json (gmap string iface)}.
Context `{!Json (list NodeExecutionResult), !Json iface}.
Context `{PC : PromClients, VF : ValueFormat, FF : FormatFloat, PP : PromParser, IQ : IdentQueries}.
Context `{EX : ExprLib, DS : Datasources, ST : SqlTemplate, FM : EvalFmt, MM : Murmur3}.
Context `{!Json (list string), !Json (option PromRuleConfig), !Json (option HostRuleConfig)}.
Context `{!Json ref_unit, !Json HostMeta, !Json HostUpdateTime}.
Implicit Types (w : worker) (p : pstate).

(** The points by the type of the rule. *)
Definition get_points cf (h : hosts) (c : caches) (now : Z) w
  : go (worker * result (list AnomalyPoint * list AnomalyPoint)) :=
  let rule := w_Rule w in
  let typ := GetRuleType rule in
  let only r := match r with Ok l => Ok (l, []) | Err e => Err e end in
  if String.eqb typ PROMETHEUS then '(w, r) ← GetPromAnomalyPoint w (Rule.RuleConfig rule); Ret (w, only r)
  else if String.eqb typ HOST then
    let '(w, r) := GetHostAnomalyPoint cf h (c_target c) now w (Rule.RuleConfig rule) in Ret (w, only r)
  else if String.eqb typ LOKI then '(w, r) ← GetPromAnomalyPoint w (Rule.RuleConfig rule); Ret (w, only r)
  else Ret (GetAnomalyPoint w rule (w_DatasourceId w) now).

(** Under inhibition one recovery per label set is kept, that of the highest
    severity; the events of the others are dropped. *)
Definition merge_recover (ruleId dsId : Z) (acc : pstate * gmap string AnomalyPoint) (point : AnomalyPoint)
  : pstate * gmap string AnomalyPoint :=
  let '(p, pointsMap) := acc in
  let tagHash := TagHash point in
  match pointsMap !! tagHash with
  | None => (p, <[tagHash := point]> pointsMap)
  | Some q =>
      if Point.Severity point <? Point.Severity q then
        let hash := Process.Hash ruleId dsId q in
        let p := DeleteProcessEvent p hash in
        (p <| p_deleted := (p_deleted p ++ [hash])%list |>, <[tagHash := point]> pointsMap)
      else (p, pointsMap)
  end.

Definition recover_point (ruleId dsId now : Z) p (point : AnomalyPoint) : pstate :=
  RecoverSingle p true (Process.Hash ruleId dsId point) now (Some (fmt_float (Point.Value point))) None.

Definition recover_points (ruleId dsId now : Z) (inhibit : bool) p (points : list AnomalyPoint) : pstate :=
  if inhibit then
    let '(p, pointsMap) := foldl (merge_recover ruleId dsId) (p, ∅) points in
    foldl (recover_point ruleId dsId now) p (map snd (go_range pointsMap))
  else foldl (recover_point ruleId dsId now) p points.

(** The worker after the evaluation, and the message of one that failed. *)
Definition Eval cf (h : hosts) (c : caches) (now : Z) w (wd : World)
  : go (worker * World * list pipeline_output * option error) :=
  let p := w_Processor w in
  let w := if p_PromEvalInterval p =? 0
           then w <| w_Processor := p <| p_PromEvalInterval := cron_interval (Rule.CronPattern (w_Rule w)) now |> |>
           else w in
  '(w, r) ← get_points cf h c now w;
  match r with
  | Err err => Ret (w, wd, [], Some ("failed to get anomaly points: " +:+ err))
  | Ok (anomalyPoints, recoverPoints) =>
      let dsId := w_DatasourceId w in
      let p := recover_points (Rule.Id (w_Rule w)) dsId now (w_Inhibit w) (w_Processor w) recoverPoints in
      '(p, wd, out) ← Handle (proc_conf cf dsId) c anomalyPoints "inner" (w_Inhibit w) now p wd;
      Ret (w <| w_Processor := p |>, wd, out, None)
  end.
End eval.

(** ** Properties *)

(** *** The percentage is rounded *)

(** With exactly 29 of 100 hosts missing, the computed percentage is below 29:
    the threshold is not met.  Exact arithmetic would meet it. *)
Theorem sf_percent_rounds :
  SFleb (sf_of_Z 29) (sf_percent 29 100) = false ∧
  List.filter (λ p, negb (SFleb (sf_of_Z p) (sf_percent p 100))) (map Z.of_nat (seq 1 100)) = [29; 57; 58].
Proof. split; by vm_compute. Qed.

Section points_spec.
Context `{GR : GoRange, QL : EventQueueLib, SF : SampleFmt, UC : UnicodeCase}.
Context `{PC : PromClients, VF : ValueFormat, FF : FormatFloat, PP : PromParser, IQ : IdentQueries}.
Context `{EX : ExprLib, DS : Datasources, ST : SqlTemplate, FM : EvalFmt, MM : Murmur3}.
Context `{!Json iface, !Json (list string), !Json (option PromRuleConfig), !Json (option HostRuleConfig)}.
Context `{!Json RuleQuery, !Json ref_unit, !Json HostMeta, !Json HostUpdateTime}.
Implicit Types w : worker.

(** *** Errors leave the worker as it was *)

(** What a worker remembers from one evaluation to the next. *)
Definition memory w : pstate * store := (w_Processor w, w_LastSeriesStore w).

Lemma GetProm_memory w cfg w' r : GetPromAnomalyPoint w cfg = Ret (w', r) →
  memory w' = memory w ∧ w_serial w' = w_serial w ∧ w_Rule w' = w_Rule w ∧ w_DatasourceId w' = w_DatasourceId w.
Proof.
  unfold GetPromAnomalyPoint. destruct (json_unmarshal cfg None) as [[rule|] [err|]]; try by intros [= <- <-].
  rewrite go_bind_Ret. intros (x & _ & [= <- <-]). done.
Qed.

Lemma GetHost_memory cf h ts now w cfg : let w' := fst (GetHostAnomalyPoint cf h ts now w cfg) in
  memory w' = memory w ∧ w_serial w' = w_serial w ∧ w_Rule w' = w_Rule w ∧ w_DatasourceId w' = w_DatasourceId w.
Proof. unfold GetHostAnomalyPoint. by destruct (json_unmarshal cfg None) as [[rule|] [err|]]. Qed.

Lemma GetAnomaly_memory w rule ds now : let '(w', r) := GetAnomalyPoint w rule ds now in
  w_Processor w' = w_Processor w ∧ (∀ e, r = Err e → w_LastSeriesStore w' = w_LastSeriesStore w) ∧
  w_serial w' = w_serial w ∧ w_Rule w' = w_Rule w ∧ w_DatasourceId w' = w_DatasourceId w.
Proof.
  unfold GetAnomalyPoint. destruct (String.eqb _ _); [done|].
  destruct (json_unmarshal _ RuleQ.zero) as [rq [err|]]; [done|]. destruct (_ =? 0)%nat; [done|].
  destruct (run_queries _ _ _ _ _ _ _) as [[[st ixs] qs]|e]; [|done].
  destruct (if negb _ then _ else _) as [pts rps]. destruct (NodataTrig.Enable _); [|done].
  by destruct (check_nodata _ _ _ _ _).
Qed.

(** *** A missing prometheus client is taken for an empty result *)

Lemma prom_queries_no_client ds qs lst : prom_IsNil ds = true → prom_queries ds qs lst = Ret (Ok lst).
Proof.
  intros Hn. revert lst. induction qs as [|q qs IH]; intros lst; [done|].
  cbn [prom_queries]. unfold prom_query. rewrite Hn. cbn [mbind go_bind]. rewrite app_nil_r. apply IH.
Qed.

(** Without a client the evaluation finds no anomaly, instead of failing: what
    was firing is then recovered. *)
Theorem GetPromAnomalyPoint_no_client w cfg rule :
  json_unmarshal cfg (None : option PromRuleConfig) = (Some rule, None) → prom_IsNil (w_DatasourceId w) = true →
  GetPromAnomalyPoint w cfg = Ret (w <| w_Inhibit := PromRuleConf.Inhibit rule |>, Ok []).
Proof. intros Hj Hn. unfold GetPromAnomalyPoint. rewrite Hj, prom_queries_no_client by done. done. Qed.

(** *** Triggers *)

(** The reference: what every group of every trigger gives. *)
Definition verdict (trigger : Trigger) (units : gmap string string) (st : store) (grp : group) : bool :=
  CalcWithRid (Trig.Exp trigger) (ga_m (gather (Trig.Exp trigger) units st grp)).
Definition recover_verdict (trigger : Trigger) (units : gmap string string) (st : store) (grp : group) : bool :=
  negb (verdict trigger units st grp) &&
  (negb (RecoverConf.JudgeType (Trig.RecoverConfig trigger) =? RecoverOnCondition) ||
   CalcWithRid (RecoverConf.RecoverExp (Trig.RecoverConfig trigger)) (ga_m (gather (Trig.Exp trigger) units st grp))).
Definition verdict_point (queries : list iface) (trigger : Trigger) (units : gmap string string) (st : store)
    (grp : group) : AnomalyPoint :=
  group_point queries trigger (verdict trigger units st grp) (gather (Trig.Exp trigger) units st grp).

(** The groups of a trigger, in the order of iteration. *)
Definition trigger_groups (indexes : gmap string index) (st : store) (trigger : Trigger) : list group :=
  map snd (go_range (ProcessJoins trigger indexes st)).

Lemma judge_groups_spec queries trigger units st grps acc :
  foldl (judge_group queries trigger units st) acc grps =
  ((fst acc ++ map (verdict_point queries trigger units st) (List.filter (verdict trigger units st) grps))%list,
   (snd acc ++ map (verdict_point queries trigger units st) (List.filter (recover_verdict trigger units st) grps))%list).
Proof.
  revert acc. induction grps as [|g grps IH]; intros [a b]; cbn [foldl List.filter map fst snd].
  { by rewrite !app_nil_r. }
  rewrite IH. unfold judge_group, recover_verdict, verdict_point, verdict. cbn [fst snd].
  destruct (CalcWithRid (Trig.Exp trigger) _) eqn:Hv; cbn [negb andb map].
  - cbn [fst snd map]. by rewrite Hv, <- app_assoc.
  - destruct (_ =? RecoverOnCondition); cbn [negb andb orb]; [|cbn [fst snd map]; by rewrite Hv, <- app_assoc].
    destruct (CalcWithRid (RecoverConf.RecoverExp _) _); cbn [negb fst snd map]; [by rewrite Hv, <- app_assoc|done].
Qed.

(** The points of the triggers are those of the groups whose expression holds,
    and the recovery points those of the groups whose expression does not hold
    and, where the trigger asks for it, whose recovery condition holds; no group
    is both. *)
Theorem judge_triggers_spec queries units st indexes triggers :
  foldl (judge_trigger queries units st indexes) ([], []) triggers =
  (flat_map (λ t, map (verdict_point queries t units st)
                    (List.filter (verdict t units st) (trigger_groups indexes st t))) triggers,
   flat_map (λ t, map (verdict_point queries t units st)
                    (List.filter (recover_verdict t units st) (trigger_groups indexes st t))) triggers) ∧
  ∀ t grp, verdict t units st grp = true → recover_verdict t units st grp = false.
Proof.
  split; [|by intros t grp Hv; unfold recover_verdict; rewrite Hv].
  assert (∀ acc, foldl (judge_trigger queries units st indexes) acc triggers =
    ((fst acc ++ flat_map (λ t, map (verdict_point queries t units st)
                    (List.filter (verdict t units st) (trigger_groups indexes st t))) triggers)%list,
     (snd acc ++ flat_map (λ t, map (verdict_point queries t units st)
                    (List.filter (recover_verdict t units st) (trigger_groups indexes st t))) triggers)%list)) as Hg;
    [|by rewrite Hg].
  induction triggers as [|t ts IH]; intros [a b]; cbn [foldl flat_map fst snd]; [by rewrite !app_nil_r|].
  rewrite IH. unfold judge_trigger. rewrite judge_groups_spec. cbn [fst snd]. by rewrite <- !app_assoc.
Qed.

(** *** Series without data *)

(** A remembered series is reported when it is missing, has not expired and,
    where expiry is on, has a sample to tell. *)
Definition reported_nodata (trig : NodataTrigger) (now : Z) (st : store) (hs : Z * DataResp) : bool :=
  negb (NodataTrig.ResolveAfterEnable trig && match Last (snd hs) with None => true | Some _ => false end) &&
  negb (expired trig now (snd hs)) && match st !! fst hs with None => true | Some _ => false end.

Definition drops (trig : NodataTrigger) (now : Z) (l : list (Z * DataResp)) (h : Z) : bool :=
  existsb (λ hs, (fst hs =? h) && expired trig now (snd hs)) l.

Lemma nodata_steps_spec trig now st l points last_ :
  let r := foldl (nodata_step trig now st) (points, last_) l in
  fst r = (points ++ map (λ hs, nodata_point trig now (snd hs)) (List.filter (reported_nodata trig now st) l))%list ∧
  ∀ h, snd r !! h = if drops trig now l h then None else last_ !! h.
Proof.
  cbv zeta. revert points last_. induction l as [|[h s] l IH]; intros points last_; cbn [foldl List.filter].
  { split; [by rewrite app_nil_r|done]. }
  assert (NodataTrig.ResolveAfterEnable trig && match Last s with None => true | Some _ => false end = true →
    expired trig now s = false) as Hno.
  { unfold expired. intros [H1 H2]%andb_prop. rewrite H1. by destruct (Last s). }
  unfold nodata_step at 2 4, reported_nodata at 1, drops. cbn [fst snd existsb].
  destruct (NodataTrig.ResolveAfterEnable trig && _) eqn:Ha; cbn [negb andb].
  - destruct (IH points last_) as [I1 I2]. split; [done|]. intros h'. rewrite I2, Hno, andb_false_r by done. done.
  - destruct (expired trig now s) eqn:He; cbn [negb andb].
    + destruct (IH points (delete h last_)) as [I1 I2]. split; [done|]. intros h'. rewrite I2, andb_true_r. unfold drops.
      destruct (Z.eqb_spec h h') as [->|Hne]; cbn [orb].
      * rewrite lookup_delete_eq. by destruct (existsb _ l).
      * by rewrite lookup_delete_ne.
    + destruct (st !! h) eqn:Hst.
      * destruct (IH points last_) as [I1 I2]. split; [done|]. intros h'. by rewrite I2, andb_false_r.
      * destruct (IH (points ++ [nodata_point trig now s])%list last_) as [I1 I2]. split.
        -- rewrite I1. cbn [map snd]. by rewrite <- app_assoc.
        -- intros h'. by rewrite I2, andb_false_r.
Qed.

Lemma check_nodata_spec trig now st points last_ :
  let r := check_nodata trig now st points last_ in
  fst r = (points ++ map (λ hs, nodata_point trig now (snd hs))
                       (List.filter (reported_nodata trig now st) (go_range last_)))%list ∧
  ∀ h, snd r !! h = match st !! h with
                    | Some s => Some s
                    | None => last_ !! h ≫= λ s, if expired trig now s then None else Some s
                    end.
Proof.
  cbv zeta. unfold check_nodata.
  destruct (nodata_steps_spec trig now st (go_range last_) points last_) as [H1 H2].
  destruct (foldl _ _ _) as [pts last']. cbn [fst snd] in *. split; [done|].
  intros h. rewrite lookup_union, H2. destruct (st !! h) as [s|]; [by destruct (if drops _ _ _ _ then _ else _)|].
  rewrite left_id by apply _. destruct (last_ !! h) as [s|] eqn:Hs; cbn; [|by destruct (drops _ _ _ _)].
  assert (drops trig now (go_range last_) h = expired trig now s) as ->; [|done].
  unfold drops. destruct (existsb _ _) eqn:E.
  - apply existsb_elem_of in E as ([h' s'] & Hin%elem_of_go_range & [Hh He]%andb_prop). cbn in *.
    apply Z.eqb_eq in Hh as ->. congruence.
  - rewrite existsb_false_elem_of in E. specialize (E (h, s) (proj2 (elem_of_go_range _ _ _) Hs)). cbn in E.
    by rewrite Z.eqb_refl in E.
Qed.

(** Evaluations at given times, with the series each query found; the points
    they report. *)
Fixpoint nodata_run (trig : NodataTrigger) (rounds : list (Z * store)) (last_ : store)
  : list (list AnomalyPoint) * store :=
  match rounds with
  | [] => ([], last_)
  | (now, st) :: rounds' =>
      let '(points, last_) := check_nodata trig now st [] last_ in
      let '(rest, last_) := nodata_run trig rounds' last_ in
      (points :: rest, last_)
  end.

(** Once seen, a series that stops reporting is reported as without data at
    every evaluation from then on, until it has expired. *)
Theorem nodata_until_expired trig h series rounds last_ :
  last_ !! h = Some series → is_Some (Last series) →
  (∀ now st, (now, st) ∈ rounds → st !! h = None ∧ expired trig now series = false) →
  Forall2 (λ r points, nodata_point trig (fst r) series ∈ points) rounds (fst (nodata_run trig rounds last_)) ∧
  snd (nodata_run trig rounds last_) !! h = Some series.
Proof.
  intros Hl [x Hx] Hr. revert last_ Hl. induction rounds as [|[now st] rounds IH]; intros last_ Hl; cbn [nodata_run]; [done|].
  destruct (Hr now st ltac:(set_solver)) as [Hst Hex].
  destruct (check_nodata_spec trig now st [] last_) as [H1 H2].
  destruct (check_nodata trig now st [] last_) as [points last']. cbn [fst snd app] in *.
  assert (last' !! h = Some series) as Hl' by (rewrite H2, Hst, Hl; cbn; by rewrite Hex).
  destruct (IH ltac:(intros; apply Hr; set_solver) last' Hl') as [I1 I2].
  destruct (nodata_run trig rounds last') as [rest last'']. cbn [fst snd] in *. split; [|done].
  constructor; [|done]. cbn [fst]. rewrite H1. apply list_elem_of_fmap. exists (h, series). split; [done|].
  apply list_elem_of_In, filter_In. split; [apply list_elem_of_In; by apply elem_of_go_range|].
  unfold reported_nodata. cbn [fst snd]. by rewrite Hx, Hex, Hst, andb_false_r.
Qed.

(** *** Hosts that stopped reporting *)

Lemma elem_of_Targets_Gets (cache : gmap string Target) idents t :
  t ∈ Targets_Gets cache idents ↔ ∃ i, i ∈ idents ∧ cache !! i = Some t.
Proof. unfold Targets_Gets. rewrite list_elem_of_omap. naive_solver. Qed.

(** The hosts of a rule, on this engine and, at the center, without an engine. *)
Definition rule_hosts cf (h : hosts) (ruleId : Z) : list string :=
  ((if s_IsCenter cf then default [] (TargetsOfAlertRule_Get (h_targetsOfAlertRule h) "" ruleId) else []) ++
   default [] (TargetsOfAlertRule_Get (h_targetsOfAlertRule h) (s_EngineName cf) ruleId))%list.

Lemma target_miss_elem cf (R : Redis) tar (cache : gmap string Target) ruleId now trigger ident :
  reports_own R → (∀ i t, cache !! i = Some t → Tgt.Ident t = i) →
  let h := mkHosts tar (Some R) in
  (∃ p, p ∈ target_miss cf h cache ruleId now trigger ∧ Point.Labels p !! "ident" = Some ident) ↔
  ident ∈ rule_hosts cf h ruleId ∧ is_Some (cache !! ident) ∧
  ∃ z, update_time R cache ident = Some z ∧ z < now - HostTrig.Duration trigger.
Proof.
  intros Hown Hkey h.
  assert (∀ idents t i, i ∈ miss_targets h cache idents t ↔ i ∈ idents ∧ ∃ z, update_time R cache i = Some z ∧ z < t) as Hmiss.
  { intros idents t i. unfold miss_targets. rewrite list_elem_of_In, in_map_iff. cbn [h_redis h]. split.
    - intros ([i' z] & <- & [Hin Hz]%filter_In). apply list_elem_of_In, elem_of_go_range in Hin.
      rewrite (GetHostUpdateTime_lookup R) in Hin by done. cbn in *. case_decide; [|done]. split; [done|]. exists z. split; [done|lia].
    - intros (Hi & z & Hu & Hz). exists (i, z). split; [done|]. apply filter_In. split; [|by apply Z.ltb_lt].
      apply list_elem_of_In, elem_of_go_range. rewrite (GetHostUpdateTime_lookup R) by done. by rewrite decide_True. }
  unfold target_miss, rule_hosts. cbn [h_targetsOfAlertRule h]. set (idents := (_ ++ _)%list).
  destruct (length idents =? 0)%nat eqn:Hlen.
  { apply Nat.eqb_eq, length_zero_iff_nil in Hlen. rewrite Hlen. split; [intros (p & Hp & _)|intros [Hp _]]; by apply not_elem_of_nil in Hp. }
  split.
  - intros (p & (t & -> & (i & (Hi & z & Hu & Hz)%Hmiss & Ht)%elem_of_Targets_Gets)%list_elem_of_fmap & Hlab).
    unfold NewAnomalyPoint, point_of in Hlab. rsimp. rewrite lookup_insert_ne, lookup_insert_eq in Hlab by done.
    injection Hlab as Hid. rewrite (Hkey i t Ht) in Hid. subst i. eauto 6.
  - intros (Hi & [t Ht] & z & Hu & Hz).
    eexists. split.
    + apply list_elem_of_fmap. exists t. split; [reflexivity|]. apply elem_of_Targets_Gets. exists ident.
      split; [|done]. apply Hmiss. eauto.
    + unfold NewAnomalyPoint, point_of. rsimp. rewrite lookup_insert_ne, lookup_insert_eq by done. by rewrite (Hkey ident t Ht).
Qed.

(** A host-missing trigger fires for exactly the cached hosts of the rule whose
    last report, by redis or else by the table, is older than the duration. *)
Theorem target_miss_spec cf (R : Redis) tar (cache : gmap string Target) ruleId now trigger ident :
  reports_own R → (∀ i t, cache !! i = Some t → Tgt.Ident t = i) →
  let h := mkHosts tar (Some R) in
  (∃ p, p ∈ target_miss cf h cache ruleId now trigger ∧ Point.Labels p !! "ident" = Some ident) ↔
  ident ∈ rule_hosts cf h ruleId ∧ is_Some (cache !! ident) ∧
  ∃ z, update_time R cache ident = Some z ∧ z < now - HostTrig.Duration trigger.
Proof. apply target_miss_elem. Qed.

(** Without redis no host is ever missing: the update times of the table are not
    looked at. *)
Theorem target_miss_no_redis cf tar cache ruleId now trigger :
  target_miss cf (mkHosts tar None) cache ruleId now trigger = [].
Proof.
  unfold target_miss, miss_targets. cbn [h_redis]. unfold GetHostUpdateTime.
  assert (go_range (∅ : gmap string Z) = []) as ->
    by (apply Permutation_nil; by rewrite go_range_perm, map_to_list_empty).
  by destruct (_ =? 0)%nat.
Qed.
End points_spec.

(** *** Evaluations and the tables *)

Section eval_spec.
Context {World : Type} `{RT : Runtime World, GR : GoRange, QL : EventQueueLib, CS : CronSchedule}.
Context `{HT : HtmlTemplate, SF : SampleFmt, SL : StrLib}.
Context `{RG : Regexp, !RegexpSub, M5 : Md5, LN : LabelNames, UC : UnicodeCase}.
Context `{GF : GoFmt, EF : EventFieldJson, TZ : Location}.
Context `{!Json (gmap string string), !Json RuleQuery, !Json (gmap string iface)}.
Context `{!Json (list NodeExecutionResult), !Json iface}.
Context `{PC : PromClients, VF : ValueFormat, FF : FormatFloat, PP : PromParser, IQ : IdentQueries}.
Context `{EX : ExprLib, DS : Datasources, ST : SqlTemplate, FM : EvalFmt, MM : Murmur3}.
Context `{!Json (list string), !Json (option PromRuleConfig), !Json (option HostRuleConfig)}.
Context `{!Json ref_unit, !Json HostMeta, !Json HostUpdateTime}.
Implicit Types (w : worker) (p : pstate).

(** Getting the points does not touch the tables, and a failure does not touch
    the remembered series either. *)
Lemma get_points_keeps cf h c now w w' r :
  get_points cf h c now w = Ret (w', r) →
  w_Processor w' = w_Processor w ∧ (∀ e, r = Err e → w_LastSeriesStore w' = w_LastSeriesStore w) ∧
  w_serial w' = w_serial w ∧ w_Rule w' = w_Rule w ∧ w_DatasourceId w' = w_DatasourceId w.
Proof.
  unfold get_points. cbv zeta.
  assert (∀ cfg (only : result (list AnomalyPoint) → result (list AnomalyPoint * list AnomalyPoint)),
    ('(w0, r0) ← GetPromAnomalyPoint w cfg; Ret (w0, only r0)) = Ret (w', r) →
    w_Processor w' = w_Processor w ∧ (∀ e, r = Err e → w_LastSeriesStore w' = w_LastSeriesStore w) ∧
    w_serial w' = w_serial w ∧ w_Rule w' = w_Rule w ∧ w_DatasourceId w' = w_DatasourceId w) as Hprom.
  { intros cfg only. rewrite go_bind_Ret. intros ([w0 r0] & Hp & [= <- <-]).
    destruct (GetProm_memory _ _ _ _ Hp) as ([= -> ->] & -> & -> & ->). done. }
  destruct (String.eqb _ PROMETHEUS); [apply Hprom|]. destruct (String.eqb _ HOST).
  - pose proof (GetHost_memory cf h (c_target c) now w (Rule.RuleConfig (w_Rule w))) as Hh. cbv zeta in Hh.
    destruct (GetHostAnomalyPoint _ _ _ _ _ _) as [w0 r0]. cbn [fst] in Hh. intros [= <- <-].
    destruct Hh as ([= -> ->] & -> & -> & ->). done.
  - destruct (String.eqb _ LOKI); [apply Hprom|].
    pose proof (GetAnomaly_memory w (w_Rule w) (w_DatasourceId w) now) as Hg.
    destruct (GetAnomalyPoint _ _ _ _) as [w0 r0]. intros [= <- <-]. done.
Qed.

(** An evaluation that fails, because the configuration does not decode, the
    data source is gone or a query fails, leaves the tables, the queue, the
    remembered series and the world as they were; of the processor only the
    interval can change, from unknown to that of the schedule. *)
Theorem Eval_error_keeps cf h c now w wd w' wd' out e :
  Eval cf h c now w wd = Ret (w', wd', out, Some e) →
  wd' = wd ∧ out = [] ∧ w_LastSeriesStore w' = w_LastSeriesStore w ∧
  ∃ n, w_Processor w' = (w_Processor w) <| p_PromEvalInterval := n |>.
Proof.
  unfold Eval. cbv zeta. rewrite go_bind_Ret. intros ([w1 r] & Hg & Hr).
  apply get_points_keeps in Hg as (Hp & Hl & _). destruct r as [[pts rps]|err].
  - apply go_bind_Ret in Hr as ([[p2 wd2] out2] & _ & Hr). apply Ret_inj in Hr. congruence.
  - apply Ret_inj in Hr. injection Hr as -> -> -> _. split_and!; [done..| |].
    + rewrite (Hl err eq_refl). by destruct (_ =? 0).
    + rewrite Hp. destruct (p_PromEvalInterval (w_Processor w) =? 0); [by eexists|].
      exists (p_PromEvalInterval (w_Processor w)). by destruct (w_Processor w).
Qed.

Lemma recover_points_wf ruleId ds now inhibit p points : wf p → wf (recover_points ruleId ds now inhibit p points).
Proof.
  intros Hwf. assert (∀ l p, wf p → wf (foldl (recover_point ruleId ds now) p l)) as Hfold.
  { intros l p0 Hp0. apply foldl_invariant; [done|]. intros p1 pt _ Hp1. by apply RecoverSingle_wf. }
  unfold recover_points. destruct inhibit; [|by apply Hfold].
  destruct (foldl (merge_recover ruleId ds) (p, ∅) points) as [p1 m] eqn:Hm. apply Hfold.
  change p1 with (fst (p1, m)). rewrite <- Hm. apply (foldl_invariant (λ a, wf (fst a))); [done|].
  intros [p2 m2] pt _ Hp2. unfold merge_recover. destruct (m2 !! TagHash pt) as [q|]; [|done].
  destruct (_ <? _); [|done]. cbn [fst] in *. pose proof (wf_DeleteProcessEvent _ (Process.Hash ruleId ds q) Hp2) as [].
  by split.
Qed.

Lemma Eval_worker cf h c now w wd w' wd' out m :
  Eval cf h c now w wd = Ret (w', wd', out, m) → wf (w_Processor w) →
  wf (w_Processor w') ∧ w_serial w' = w_serial w ∧ w_Rule w' = w_Rule w ∧ w_DatasourceId w' = w_DatasourceId w.
Proof.
  unfold Eval. cbv zeta. rewrite go_bind_Ret. intros ([w1 r] & Hg & Hr) Hwf.
  apply get_points_keeps in Hg as (Hp & _ & Hs & Hru & Hd).
  assert (wf (w_Processor w1)) as Hw1 by (rewrite Hp; destruct Hwf; destruct (_ =? 0); by split).
  assert (w_serial w1 = w_serial w ∧ w_Rule w1 = w_Rule w ∧ w_DatasourceId w1 = w_DatasourceId w) as (E1 & E2 & E3)
    by (rewrite Hs, Hru, Hd; by destruct (p_PromEvalInterval (w_Processor w) =? 0)).
  destruct r as [[pts rps]|err].
  - apply go_bind_Ret in Hr as ([[p2 wd2] out2] & Hh & Hr). apply Ret_inj in Hr. injection Hr as -> -> -> ->.
    split; [|done]. eapply Handle_effect in Hh as [Hw2 _]; [exact Hw2|]. by apply recover_points_wf.
  - apply Ret_inj in Hr. injection Hr as -> -> -> ->. done.
Qed.

(** ** The engine

    Rounds of the scheduler, evaluations of the running workers, and the
    consumer taking events from a queue, in any order. *)

Section engine.
Context `{CH : ConsistentLib, CR : CronLib, GL : GlobLib, DBR : CurEventRows}.
Variable cf : sconf.
Implicit Types s : sstate.

Inductive engine_step : sstate → sstate → Prop :=
| en_round now d c rings rules' rings' s s' : keyed_rules (c_alertRule c) →
    sync_workers cf now d c rings s = Ret (rules', rings', s') → engine_step s s'
| en_eval s hash w h c now wd w' wd' out m : s_alertRules s !! hash = Some w →
    Eval cf h c now w wd = Ret (w', wd', out, m) →
    engine_step s (s <| s_alertRules := <[hash := w']> (s_alertRules s) |>)
| en_consume s hash w q : s_alertRules s !! hash = Some w →
    queue_items q ⊆ queue_items (p_queue (w_Processor w)) →
    engine_step s (s <| s_alertRules := <[hash := w <| w_Processor := (w_Processor w) <| p_queue := q |> |>]>
                          (s_alertRules s) |>).

(** Every worker runs the rule and data source of its key, on well-formed tables. *)
Definition engine_ok s : Prop := ∀ hash w, s_alertRules s !! hash = Some w →
  wf (w_Processor w) ∧ hash = AlertRuleWorker_Hash w.

Lemma engine_ok_insert s hash w w' :
  engine_ok s → s_alertRules s !! hash = Some w → wf (w_Processor w') →
  w_Rule w' = w_Rule w → w_DatasourceId w' = w_DatasourceId w →
  engine_ok (s <| s_alertRules := <[hash := w']> (s_alertRules s) |>).
Proof.
  intros Hok Hw Hwf Hr Hd h0 w0. ksimp. destruct (decide (hash = h0)) as [<-|Hne].
  - rewrite lookup_insert_eq. intros [= <-]. split; [done|]. unfold AlertRuleWorker_Hash. rewrite Hr, Hd. by apply Hok.
  - rewrite lookup_insert_ne by done. apply Hok.
Qed.

(** C6. Whatever the order of rounds, evaluations and consumption, the tables of
    every running worker are well formed: they hold allocated events under their
    own hash and no recovered event fires; and a worker runs under the hash of
    its own rule and data source. *)
Theorem engine_invariant s0 s :
  queue_items (s_queue cf) = [] → engine_ok s0 → rtc engine_step s0 s → engine_ok s.
Proof.
  intros Hq H0 Hsteps. revert H0. induction Hsteps as [|s1 s2 s3 Hstep _ IH]; [done|]. intros Hok. apply IH. clear IH.
  destruct Hstep as [now d c rings rules' rings' s1 s2 Hkey Hs|s1 hash w h c now wd w' wd' out m Hw He|s1 hash w q Hw Hin].
  - destruct (sync_workers_lookup _ _ _ _ _ _ _ _ _ Hkey Hs) as (k & Hk & Hl).
    intros hash w. rewrite Hl. destruct (k_workers k !! hash) as [w0|] eqn:Hw0; [|done].
    destruct (s_alertRules s1 !! hash) as [w1|] eqn:Hw1; intros [= <-]; [by apply Hok|].
    destruct (ki_workers _ _ _ _ _ _ _ Hk hash w0 Hw0) as (rule & _ & HR & _ & -> & _ & Hp). split.
    + cbn. apply RecoverAlertCurEventFromDb_wf. rewrite Hp. unfold NewProcessor.
      split; cbn; try (intros k0 l Hk0; by destruct (lookup_empty_Some k0 l Hk0)).
      intros l Hl'. change (l ∈ queue_items (s_queue cf)) in Hl'. rewrite Hq in Hl'. by apply not_elem_of_nil in Hl'.
    + unfold AlertRuleWorker_Hash, worker_hash, Prepare. ksimp. by rewrite HR.
  - destruct (Hok _ _ Hw) as [Hwf _]. destruct (Eval_worker _ _ _ _ _ _ _ _ _ _ He Hwf) as (H1 & _ & H2 & H3).
    by eapply engine_ok_insert.
  - destruct (Hok _ _ Hw) as [[H1 H2 H3 H4] _]. eapply engine_ok_insert; [done|done| |done|done].
    split; cbn; auto.
Qed.
End engine.
End eval_spec.
