(* ===== verification/Liveness.v ===== *)
(** * Alerts that hold eventually fire

    A rule with a for-duration keeps a pending event from the first evaluation
    at which its condition holds.  When the condition holds at every evaluation,
    the alert fires at the latest with the first one that comes after the
    duration: the pending event survives, with its first evaluation time, all
    evaluations in between. *)

From S2P Require Import Prelude GoStrings Json Models RuleModels EventTable Process.
Open Scope string_scope.
Open Scope Z_scope.
Open Scope list_scope.

(** [rsimp] for the projections of a record that has parameters. *)
Ltac psimp_goal :=
  repeat match goal with
  | |- context [?P (@set ?R ?T ?Q ?S ?f ?r)] =>
      match P with ?c _ => is_const c end;
      let L := fresh "L" in get_set_law R T P Q S L; rewrite !(L f r); clear L; cbv beta
  end.
Ltac psimp := rsimp; psimp_goal; rsimp.

Section liveness.
Context `{GR : GoRange, QL : EventQueueLib}.
Implicit Types p : pstate.

(** *** What firing leaves alone *)

(** A field that firing does not write, and the pending table. *)
Lemma pushEventToQueue_field {A} (g : AlertCurEvent → A) p l :
  (∀ e t, g (e <| Event.LastSentTime := t |>) = g e) →
  (∀ x, g (ev (pushEventToQueue p l) x) = g (ev p x)) ∧ p_pendings (pushEventToQueue p l) = p_pendings p.
Proof.
  intros Hg. unfold pushEventToQueue. destruct (Event.IsRecovered (ev p l)); [by split; [intros x; unfold ev|]; psimp|].
  set (p1 := modify p l _).
  assert (∀ x, g (ev p1 x) = g (ev p x)) as H1 by (intros x; apply ev_modify_field; auto).
  assert (p_pendings p1 = p_pendings p) as H2 by (unfold p1, modify; by psimp).
  clearbody p1. rewrite <- H2. split; [|by psimp]. intros x. rewrite <- H1. unfold ev. by psimp.
Qed.

Lemma fireEvent_field {A} (g : AlertCurEvent → A) p l :
  (∀ e t, g (e <| Event.LastSentTime := t |>) = g e) → (∀ e t, g (e <| Event.LastEvalTime := t |>) = g e) →
  (∀ e t, g (e <| Event.FirstTriggerTime := t |>) = g e) → (∀ e t, g (e <| Event.NotifyCurNumber := t |>) = g e) →
  (∀ x, g (ev (fireEvent p l) x) = g (ev p x)) ∧ p_pendings (fireEvent p l) = p_pendings p.
Proof.
  intros Hs Hl Ht Hn.
  assert (∀ p f, (∀ e, g (f e) = g e) →
    (∀ x, g (ev (pushEventToQueue (modify p l f) l) x) = g (ev p x)) ∧
    p_pendings (pushEventToQueue (modify p l f) l) = p_pendings p) as Hpush.
  { intros p0 f Hf. destruct (pushEventToQueue_field g (modify p0 l f) l Hs) as [H1 H2]. split.
    - intros x. rewrite H1. by apply ev_modify_field.
    - rewrite H2. unfold modify. by psimp. }
  unfold fireEvent. destruct (emap_Get _ _) as [f|]; [|apply Hpush; intros e; by rewrite Ht, Hn].
  set (p1 := p <| p_heap := _ |>). set (p2 := modify p1 l _).
  assert ((∀ x, g (ev p2 x) = g (ev p x)) ∧ p_pendings p2 = p_pendings p) as [H1 H2].
  { split; [|unfold p2, p1, modify; by psimp]. intros x. unfold p2. rewrite ev_modify_field by (intros e; apply Ht).
    unfold p1. apply ev_update_field. intros e. apply Hl. }
  clearbody p2. rewrite <- H2. setoid_rewrite <- H1.
  destruct (_ =? 0); [done|]. destruct (_ <=? Event.LastEvalTime (ev p2 l)); [|done].
  destruct (_ =? 0); [|destruct (_ <=? _); [done|]]; apply Hpush; intros e; apply Hn.
Qed.

(** *** What observing does to the pending event *)

Lemma observeEvent_pending p l e :
  p_heap p !! l = Some e → Rule.PromForDuration (p_rule p) ≠ 0 →
  ∃ pre, p_pendings (observeEvent p l).1 !! Event.Hash e = Some pre ∧
    Event.FirstEvalTime (ev (observeEvent p l).1 pre) = since p e.
Proof.
  intros He Hd. unfold observeEvent, since. rewrite (ev_Some _ _ _ He).
  set (p1 := match emap_Get (p_pendingsUseByRecover p) _ with Some _ => _ | None => _ end).
  destruct (observe_recover p l e He) as (E1 & E2 & E3 & E4 & E5). fold p1 in E1, E2, E3, E4, E5.
  clearbody p1. injection E1 as Er _ _. set (p2 := modify p1 l _).
  assert (p_rule p2 = p_rule p ∧ p_pendings p2 = p_pendings p ∧ is_Some (p_heap p2 !! l) ∧
    (∀ x, Event.FirstEvalTime (ev p2 x) = Event.FirstEvalTime (ev p x)) ∧
    Event.LastEvalTime (ev p2 l) = Event.LastEvalTime e) as (F1 & F2 & F3 & F4 & F5).
  { unfold p2. split_and!; [unfold modify; by psimp..| | |].
    - by rewrite <- elem_of_dom, modify_dom, elem_of_dom.
    - intros x. rewrite ev_modify_field by (intros e'; by psimp). auto.
    - rewrite ev_modify_field by (intros e'; by psimp). done. }
  clearbody p2. rewrite F1, (proj2 (Z.eqb_neq _ _) Hd). unfold emap_Get. rewrite F2.
  destruct (p_pendings p !! Event.Hash e) as [pre|] eqn:Hpre; cbn [fst]; psimp.
  - exists pre. split; [psimp; by rewrite F2|]. rewrite (ev_update_field Event.FirstEvalTime) by (intros e'; by psimp). auto.
  - exists l. unfold emap_Set. psimp. rewrite lookup_insert_eq. split; [done|].
    unfold ev at 1. psimp. fold (ev (modify p2 l (λ e0, e0 <| Event.FirstEvalTime := Event.LastEvalTime e0 |>)) l).
    rewrite ev_modify by done. by psimp.
Qed.

(** Observing changes the evaluation times and the interval of events, nothing
    else. *)
Lemma observeEvent_field {A} (g : AlertCurEvent → A) p l x :
  (∀ e t, g (e <| Event.LastEvalTime := t |>) = g e) → (∀ e t, g (e <| Event.FirstEvalTime := t |>) = g e) →
  (∀ e t, g (e <| Event.PromEvalInterval := t |>) = g e) →
  g (ev (observeEvent p l).1 x) = g (ev p x).
Proof.
  intros Hl Hf Hi. unfold observeEvent.
  set (p1 := match emap_Get (p_pendingsUseByRecover p) _ with Some _ => _ | None => _ end).
  assert (g (ev p1 x) = g (ev p x)) as <-
    by (unfold p1; destruct (emap_Get _ _); [by apply ev_update_field|unfold ev; by psimp]).
  clearbody p1. set (p2 := modify p1 l _).
  assert (g (ev p2 x) = g (ev p1 x)) as <- by (by apply ev_modify_field).
  clearbody p2. destruct (_ =? 0); [done|]. destruct (emap_Get _ _); cbn [fst]; [by apply ev_update_field|].
  set (p3 := modify p2 l _). transitivity (g (ev p3 x)); [unfold ev; by psimp|]. by apply ev_modify_field.
Qed.

(** *** What recovering leaves alone *)

Lemma RecoverSingle_interval p b hash now v vs :
  p_PromEvalInterval (RecoverSingle p b hash now v vs) = p_PromEvalInterval p.
Proof.
  unfold RecoverSingle. destruct (emap_Get (p_fires p) hash) as [l|]; [|done].
  destruct (if 0 <? _ then _ else _); [done|]. destruct (negb _ && _); [done|].
  unfold pushEventToQueue. destruct v; case_match; reflexivity.
Qed.

Lemma recoverAll_interval p hashes now : p_PromEvalInterval (recoverAll p hashes now) = p_PromEvalInterval p.
Proof.
  unfold recoverAll. revert p. induction hashes as [|h hashes IH]; intros p; [done|].
  cbn [foldl]. by rewrite IH, RecoverSingle_interval.
Qed.

Lemma inhibitRecover_interval p hashes m :
  p_PromEvalInterval (inhibitRecover p hashes m).1 = p_PromEvalInterval p.
Proof.
  revert p m. induction hashes as [|h hashes IH]; intros p m; [done|]. cbn [inhibitRecover].
  repeat case_match; rewrite IH; reflexivity.
Qed.

Lemma HandleRecover_interval p keys now inh :
  p_PromEvalInterval (HandleRecover p keys now inh) = p_PromEvalInterval p.
Proof.
  unfold HandleRecover, HandleRecoverEvent. destruct inh; cbn [negb]; [|by rewrite recoverAll_interval].
  set (p1 := p <| p_pendings := _ |>). set (hs := filter _ _).
  pose proof (inhibitRecover_interval p1 hs ∅) as E. destruct (inhibitRecover p1 hs ∅) as [p2 m].
  rewrite recoverAll_interval. exact E.
Qed.

Lemma HandleRecover_rule p keys now inh : wf p → p_rule (HandleRecover p keys now inh) = p_rule p.
Proof.
  intros Hwf. destruct (HandleRecover_pruned p keys now inh Hwf) as (-> & Hw & _).
  by rewrite (o_rule _ _ _ (HandleRecoverEvent_outside _ _ _ _ Hw)).
Qed.

(** ** A run of evaluations *)

(** One evaluation builds new events and hands those of a group over together. *)
Definition built p (new : list (loc * AlertCurEvent)) : pstate := p <| p_heap := list_to_map new ∪ p_heap p |>.
Definition evaluate p (new : list (loc * AlertCurEvent)) : pstate := handleEvent (built p new) new.*1.

Definition fresh p (new : list (loc * AlertCurEvent)) : Prop := NoDup new.*1 ∧ ∀ l, l ∈ new.*1 → p_heap p !! l = None.

(** The event with hash [k] that a group has, not recovered, and under inhibition not less
    severe than another event of the group. *)
Record holds_in p (new : list (loc * AlertCurEvent)) (k : string) (l : loc) (e : AlertCurEvent) : Prop := {
  hi_in : (l, e) ∈ new;
  hi_hash : Event.Hash e = k;
  hi_once : ∀ l' e', (l', e') ∈ new → Event.Hash e' = k → l' = l;
  hi_alert : Event.IsRecovered e = false;
  hi_severity : p_inhibit p = true →
    Event.Severity e ≤ SeverityLowest ∧ ∀ l' e', (l', e') ∈ new → Event.Severity e ≤ Event.Severity e'
}.

(** The evaluations of the alert [k] at the given times.  In between, groups without the
    alert are handled, and recoveries, with [k] among the alerts that still hold. *)
Inductive evaluations (k : string) : pstate → list Z → pstate → Prop :=
| evaluations_nil p : evaluations k p [] p
| evaluations_recover p keys now inhibit ts p' :
    k ∈ keys → evaluations k (HandleRecover p keys now inhibit) ts p' → evaluations k p ts p'
| evaluations_other p new ts p' :
    fresh p new → (∀ l e, (l, e) ∈ new → Event.Hash e ≠ k) →
    evaluations k (evaluate p new) ts p' → evaluations k p ts p'
| evaluations_cons p new l e ts p' :
    fresh p new → holds_in p new k l e →
    evaluations k (evaluate p new) ts p' → evaluations k p (Event.LastEvalTime e :: ts) p'.

(** The alert is pending since [t0]. *)
Definition pending_since p (k : string) (t0 : Z) : Prop :=
  ∃ pre, p_pendings p !! k = Some pre ∧ Event.FirstEvalTime (ev p pre) = t0.

Lemma fireEvent_firing p l e :
  p_heap p !! l = Some e → Event.IsRecovered e = false → is_Some (p_fires (fireEvent p l) !! Event.Hash e).
Proof.
  intros He Hr. destruct (p_fires p !! Event.Hash e) as [f|] eqn:Hf; [by apply fireEvent_fires; eexists|].
  rewrite (fireEvent_new p l e) by done. unfold notified. psimp. rewrite lookup_insert_eq. by eexists.
Qed.

(** *** Building *)

Lemma built_lookup p new l e : NoDup new.*1 → (l, e) ∈ new → p_heap (built p new) !! l = Some e.
Proof.
  intros Hnd Hin. unfold built. psimp. apply lookup_union_Some_l. by apply elem_of_list_to_map.
Qed.

Lemma built_old p new l e : fresh p new → p_heap p !! l = Some e → p_heap (built p new) !! l = Some e.
Proof.
  intros [_ Hf] He. unfold built. psimp. rewrite lookup_union_r; [done|]. apply not_elem_of_list_to_map.
  intros Hl%Hf. congruence.
Qed.

Lemma built_wf p new : fresh p new → wf p → wf (built p new).
Proof.
  intros [Hnd Hf] Hwf. revert Hnd Hf. induction new as [|[l e] new IH]; intros Hnd Hf.
  { assert (built p [] = p) as ->; [|done]. unfold built. rewrite list_to_map_nil, (left_id_L ∅ (∪)). by destruct p. }
  rewrite fmap_cons in Hnd, Hf. apply NoDup_cons in Hnd as [Hl Hnd]. specialize (IH Hnd (λ x Hx, Hf x (list_elem_of_further _ _ _ Hx))).
  assert (built p ((l, e) :: new) = (built p new) <| p_heap := <[l := e]> (p_heap (built p new)) |>) as ->.
  { unfold built. rewrite list_to_map_cons, <- insert_union_l. by psimp. }
  apply (pstep_wf (built p new)); [|done]. constructor. unfold built. psimp. apply lookup_union_None. split.
  - by apply not_elem_of_list_to_map.
  - apply Hf. left.
Qed.

(** *** Observing the other events of a group *)

(** The events with hash [k] are the same in the second heap. *)
Definition same_events (k : string) (h h' : heap) : Prop :=
  ∀ x e, h !! x = Some e → Event.Hash e = k → h' !! x = Some e.
Definition hash_at (h : heap) (l : loc) (k : string) : Prop := ∃ e, h !! l = Some e ∧ Event.Hash e = k.

Lemma same_alter k h l k' f : hash_at h l k' → k' ≠ k → same_events k h (alter f l h).
Proof. intros (e' & He' & Hh) Hne x e Hx He. rewrite lookup_alter_ne; [done|]. intros ->. congruence. Qed.
Lemma hash_at_alter h l k f x : (∀ e, Event.Hash (f e) = Event.Hash e) → hash_at h x k → hash_at (alter f l h) x k.
Proof.
  intros Hf (e & He & Hh). unfold hash_at. destruct (decide (l = x)) as [->|Hne].
  - rewrite lookup_alter_eq, He. exists (f e). by rewrite Hf.
  - rewrite lookup_alter_ne by done. eauto.
Qed.
Lemma same_update k h m k' t (P : AlertCurEvent → Prop) :
  entries_ok h m P → k' ≠ k → same_events k h (UpdateLastEvalTime m k' t h).
Proof.
  intros Hok Hne. unfold UpdateLastEvalTime. destruct (m !! k') as [l|] eqn:Hm; [|by intros x e].
  destruct (Hok _ _ Hm) as (e' & He' & Hh & _). eapply same_alter; [by exists e'|done].
Qed.
Lemma hash_at_update h m k' t l k : hash_at h l k → hash_at (UpdateLastEvalTime m k' t h) l k.
Proof. unfold UpdateLastEvalTime. case_match; [apply hash_at_alter; intros; by psimp|done]. Qed.
Lemma entries_ok_update h m m' k t : entries_ok h m (λ _, True) → entries_ok (UpdateLastEvalTime m' k t h) m (λ _, True).
Proof. unfold UpdateLastEvalTime. case_match; [|done]. apply entries_ok_alter; [intros; by psimp|done]. Qed.

(** The events and the pending entry with another hash are left alone. *)
Record untouched (k : string) p p' : Prop := {
  ut_wf : wf p';
  ut_frame : frame p' = frame p;
  ut_fires : p_fires p' = p_fires p;
  ut_pending : p_pendings p' !! k = p_pendings p !! k;
  ut_heap : same_events k (p_heap p) (p_heap p');
  ut_hash : ∀ x, Event.Hash (ev p' x) = Event.Hash (ev p x);
  ut_dom : dom (p_heap p') = dom (p_heap p)
}.

Lemma untouched_refl k p : wf p → untouched k p p.
Proof. split; try done. by intros x e. Qed.
Lemma untouched_trans k p p1 p2 : untouched k p p1 → untouched k p1 p2 → untouched k p p2.
Proof. intros [? ? ? ? H1] [? ? ? ? H2]. split; try congruence. intros x e Hx He. by apply H2, He; apply H1. Qed.

Lemma observe_other k p l :
  wf p → l ∈ dom (p_heap p) → Event.Hash (ev p l) ≠ k → untouched k p (observeEvent p l).1.
Proof.
  intros Hwf Hl Hk. destruct (observeEvent_wf p l Hwf) as [Hw Hd]; [by apply elem_of_dom|].
  destruct (observeEvent_frame p l) as (_ & Hfr & Hfi & _).
  apply elem_of_dom in Hl as [e0 He0]. pose proof (ev_Some _ _ _ He0) as Hev. rewrite Hev in Hk.
  assert (p_pendings (observeEvent p l).1 !! k = p_pendings p !! k ∧
          same_events k (p_heap p) (p_heap (observeEvent p l).1)) as [Hp Hs];
    [|split; try done; intros x; apply observeEvent_field; intros; by psimp].
  unfold observeEvent. rewrite Hev.
  set (p1 := match emap_Get (p_pendingsUseByRecover p) _ with Some _ => _ | None => _ end).
  assert (p_pendings p1 = p_pendings p ∧ same_events k (p_heap p) (p_heap p1) ∧ hash_at (p_heap p1) l (Event.Hash e0) ∧
    entries_ok (p_heap p1) (p_pendings p) (λ _, True)) as (E1 & S1 & A1 & O1).
  { assert (hash_at (p_heap p) l (Event.Hash e0)) by (by exists e0). destruct Hwf.
    unfold p1. case_match; psimp; split_and!; try done; [by eapply same_update|by apply hash_at_update|by apply entries_ok_update|by intros x e]. }
  clearbody p1. set (p2 := modify p1 l _).
  assert (p_pendings p2 = p_pendings p ∧ same_events k (p_heap p) (p_heap p2) ∧ hash_at (p_heap p2) l (Event.Hash e0) ∧
    entries_ok (p_heap p2) (p_pendings p) (λ _, True)) as (E2 & S2 & A2 & O2).
  { unfold p2, modify. psimp. split_and!; [done| | |].
    - intros x e Hx He. eapply same_alter; [exact A1|done|by apply S1|done].
    - apply hash_at_alter; [intros; by psimp|done].
    - apply entries_ok_alter; [intros; by psimp|done|done]. }
  clearbody p2. clear p1 E1 S1 A1 O1. destruct (_ =? 0); cbn [fst]; [by rewrite E2|].
  unfold emap_Get. rewrite E2. destruct (p_pendings p !! Event.Hash e0); cbn [fst]; unfold emap_Set, modify; psimp; rewrite ?E2;
    (split; [by rewrite ?lookup_insert_ne|]); intros x e Hx He.
  - eapply same_update; [exact O2|done|by apply S2|done].
  - eapply same_alter; [exact A2|done|by apply S2|done].
Qed.

Lemma observe_others k p ls fires s :
  wf p → (∀ l, l ∈ ls → l ∈ dom (p_heap p) ∧ Event.Hash (ev p l) ≠ k) →
  untouched k p (observeEvents p ls fires s).1.1.
Proof.
  revert p fires s. induction ls as [|l ls IH]; intros p fires s Hwf Hls; [by apply untouched_refl|].
  cbn [observeEvents]. destruct (Hls l) as [Hl Hk]; [left|].
  pose proof (observe_other k p l Hwf Hl Hk) as Hu. destruct (observeEvent p l) as [p1 ready]. cbn [fst] in Hu.
  assert (∀ x, x ∈ ls → x ∈ dom (p_heap p1) ∧ Event.Hash (ev p1 x) ≠ k) as Hls1.
  { intros x Hx. rewrite (ut_dom _ _ _ Hu), (ut_hash _ _ _ Hu). apply Hls. by right. }
  destruct ready; (eapply untouched_trans; [exact Hu|]); apply IH; auto; apply Hu.
Qed.

Lemma observeEvents_app p a b fires s :
  observeEvents p (a ++ b) fires s =
    let '(p1, fires1, s1) := observeEvents p a fires s in observeEvents p1 b fires1 s1.
Proof.
  revert p fires s. induction a as [|l a IH]; intros p fires s; [done|]. cbn [app observeEvents].
  destruct (observeEvent p l) as [p1 []]; apply IH.
Qed.

Lemma observeEvents_subset p ls fires s p' fires' s' :
  observeEvents p ls fires s = (p', fires', s') → ∀ l, l ∈ fires' → l ∈ fires ∨ l ∈ ls.
Proof.
  revert p fires s. induction ls as [|l ls IH]; intros p fires s; cbn [observeEvents].
  { intros [= <- <- <-] x Hx. by left. }
  destruct (observeEvent p l) as [p1 []]; intros Ho x Hx; destruct (IH _ _ _ Ho x Hx); set_solver.
Qed.

Lemma observeEvents_grows p ls fires s l : l ∈ fires → l ∈ (observeEvents p ls fires s).1.2.
Proof.
  revert p fires s. induction ls as [|x ls IH]; intros p fires s Hl; cbn [observeEvents]; [done|].
  destruct (observeEvent p x) as [p1 []]; apply IH; set_solver.
Qed.

Lemma pending_untouched k p p' t : wf p → untouched k p p' → pending_since p k t → pending_since p' k t.
Proof.
  intros Hwf Hu (pre & Hp & Ht). exists pre. rewrite (ut_pending _ _ _ Hu). split; [done|].
  destruct (wf_pendings _ Hwf _ _ Hp) as (e & He & Hh & _).
  by rewrite (ev_Some _ _ _ (ut_heap _ _ _ Hu _ _ He Hh)), <- (ev_Some _ _ _ He).
Qed.

Lemma since_untouched k p p' e : wf p → untouched k p p' → Event.Hash e = k → since p' e = since p e.
Proof.
  intros Hwf Hu <-. unfold since. rewrite (ut_pending _ _ _ Hu).
  destruct (p_pendings p !! Event.Hash e) as [pre|] eqn:Hp; [|done].
  destruct (wf_pendings _ Hwf _ _ Hp) as (e' & He & Hh & _).
  by rewrite (ev_Some _ _ _ (ut_heap _ _ _ Hu _ _ He Hh)), (ev_Some _ _ _ He).
Qed.

Lemma since_pending p e t0 : pending_since p (Event.Hash e) t0 → since p e = t0.
Proof. intros (pre & Hp & Ht). unfold since. by rewrite Hp. Qed.

(** What observing a group does to the alert in it. *)
Lemma observe_group p a l b e :
  wf p → (∀ x, x ∈ a ++ l :: b → x ∈ dom (p_heap p)) → p_heap p !! l = Some e → Rule.PromForDuration (p_rule p) ≠ 0 →
  (∀ x, x ∈ a ++ b → Event.Hash (ev p x) ≠ Event.Hash e) →
  let '(p1, ready, _) := observeEvents p (a ++ l :: b) [] SeverityLowest in
  wf p1 ∧ frame p1 = frame p ∧ pending_since p1 (Event.Hash e) (since p e) ∧
  hash_at (p_heap p1) l (Event.Hash e) ∧ Event.IsRecovered (ev p1 l) = Event.IsRecovered e ∧
  (Rule.PromForDuration (p_rule p) ≤ i64 (i64 (Event.LastEvalTime e - since p e) + p_PromEvalInterval p) → l ∈ ready).
Proof.
  intros Hwf Hdom Hl Hd Hne. rewrite observeEvents_app.
  pose proof (observe_others (Event.Hash e) p a [] SeverityLowest Hwf) as Ha.
  destruct (observeEvents p a [] SeverityLowest) as [[pa fa] sa]. cbn [fst] in Ha.
  specialize (Ha ltac:(intros x Hx; split; [apply Hdom|apply Hne]; set_solver)).
  pose proof (ut_wf _ _ _ Ha) as Hwa. pose proof (ut_heap _ _ _ Ha _ _ Hl eq_refl) as Hla.
  pose proof (since_untouched _ _ _ e Hwf Ha eq_refl) as Hsince. pose proof (ut_frame _ _ _ Ha) as Hfr.
  cbn [observeEvents]. pose proof (observeEvent_ready pa l e Hla) as Hready.
  injection Hfr as Er Ei Ep. rewrite Er, Ep, Hsince in Hready. rewrite (proj2 (Z.eqb_neq _ _) Hd) in Hready. cbn [orb] in Hready.
  destruct (observeEvent_pending pa l e Hla) as (pre & Hpre & Hfirst); [by rewrite Er|].
  destruct (observeEvent_frame pa l) as (_ & Hfl & _).
  destruct (observeEvent_wf pa l Hwa) as [Hwl Hdl]; [by eexists|].
  assert (∀ (B : Type) (g : AlertCurEvent → B), (∀ e t, g (e <| Event.LastEvalTime := t |>) = g e) →
    (∀ e t, g (e <| Event.FirstEvalTime := t |>) = g e) → (∀ e t, g (e <| Event.PromEvalInterval := t |>) = g e) →
    g (ev (observeEvent pa l).1 l) = g e) as Hg.
  { intros B g H1 H2 H3. rewrite (observeEvent_field g) by done. by rewrite (ev_Some _ _ _ Hla). }
  assert (∀ x, Event.Hash (ev (observeEvent pa l).1 x) = Event.Hash (ev p x)) as Hhash.
  { intros x. rewrite (observeEvent_field Event.Hash) by (intros; by psimp). apply Ha. }
  assert (is_Some (p_heap (observeEvent pa l).1 !! l)) as [el Hel]
    by (rewrite <- elem_of_dom, Hdl, elem_of_dom; by eexists).
  pose proof (Hg _ Event.Hash ltac:(intros; by psimp) ltac:(intros; by psimp) ltac:(intros; by psimp)) as Hhl.
  pose proof (Hg _ Event.IsRecovered ltac:(intros; by psimp) ltac:(intros; by psimp) ltac:(intros; by psimp)) as Hrl.
  rewrite (ev_Some _ _ _ Hel) in Hhl, Hrl. clear Hg.
  assert (dom (p_heap (observeEvent pa l).1) = dom (p_heap p)) as Hdp by (rewrite Hdl; apply Ha).
  destruct (observeEvent pa l) as [pl ready]. cbn [fst snd] in *.
  assert (∀ fires s, untouched (Event.Hash e) pl (observeEvents pl b fires s).1.1) as Hb.
  { intros fires s. apply observe_others; [done|]. intros x Hx. rewrite Hhash, Hdp. split; [apply Hdom|apply Hne]; set_solver. }
  assert (∀ fires s, let '(p1, ready1, _) := observeEvents pl b fires s in
    wf p1 ∧ frame p1 = frame p ∧ pending_since p1 (Event.Hash e) (since p e) ∧ hash_at (p_heap p1) l (Event.Hash e) ∧
    Event.IsRecovered (ev p1 l) = Event.IsRecovered e ∧ (l ∈ fires → l ∈ ready1)) as Hfin.
  { intros fires s. specialize (Hb fires s). pose proof (observeEvents_grows pl b fires s l) as Hgr.
    destruct (observeEvents pl b fires s) as [[p1 ready1] s1]. cbn [fst snd] in *.
    pose proof (ut_heap _ _ _ Hb _ _ Hel Hhl) as Hl1. split_and!; [apply Hb| | |by exists el|by rewrite (ev_Some _ _ _ Hl1)|done].
    - rewrite (ut_frame _ _ _ Hb), Hfl. unfold frame. congruence.
    - eapply pending_untouched; [done..|]. exists pre. rewrite <- Hsince. done. }
  destruct ready.
  - specialize (Hfin (fa ++ [l])%list (if Event.Severity (ev pl l) <? sa then Event.Severity (ev pl l) else sa)).
    destruct (observeEvents pl b _ _) as [[p1 ready1] s1]. destruct Hfin as (? & ? & ? & ? & ? & Hin). split_and!; try done.
    intros _. apply Hin. set_solver.
  - specialize (Hfin fa sa). destruct (observeEvents pl b _ _) as [[p1 ready1] s1]. destruct Hfin as (? & ? & ? & ? & ? & _).
    split_and!; try done. intros Hle. symmetry in Hready. apply Z.leb_gt in Hready. lia.
Qed.

(** *** Firing *)

Lemma fire_list p ls k t :
  frame (foldl fireEvent p ls) = frame p ∧ (pending_since p k t → pending_since (foldl fireEvent p ls) k t) ∧
  (∀ l, l ∈ ls → wf p → (∀ x, x ∈ ls → x ∈ dom (p_heap p)) → hash_at (p_heap p) l k → Event.IsRecovered (ev p l) = false →
     is_Some (p_fires (foldl fireEvent p ls) !! k)).
Proof.
  revert p. induction ls as [|x ls IH]; intros p; cbn [foldl]; [by split_and!; [done|done|set_solver]|].
  destruct (IH (fireEvent p x)) as (H1 & H2 & H3). destruct (fireEvent_severity p x x) as [_ Hf].
  destruct (fireEvent_field Event.FirstEvalTime p x) as [Hft Hp]; [intros; by psimp..|].
  split_and!; [congruence| |].
  - intros (pre & Hpre & Ht). apply H2. exists pre. by rewrite Hp, Hft.
  - intros l Hl Hwf Hdom (e & He & Hh) Hr.
    assert (∀ p, is_Some (p_fires p !! k) → is_Some (p_fires (foldl fireEvent p ls) !! k)) as Hkeep.
    { clear. intros p. revert p. induction ls as [|y ls IH]; intros p Hk; cbn [foldl]; [done|]. apply IH. by apply fireEvent_fires. }
    apply elem_of_cons in Hl as [->|Hl].
    { apply Hkeep. rewrite <- Hh. apply fireEvent_firing; [done|]. by rewrite (ev_Some _ _ _ He) in Hr. }
    destruct (fireEvent_wf p x Hwf) as [Hw Hd]; [apply elem_of_dom, Hdom; left|].
    apply (H3 l); [done|done|intros y Hy; rewrite Hd; apply Hdom; by right| |].
    + assert (is_Some (p_heap (fireEvent p x) !! l)) as [e1 He1] by (rewrite <- elem_of_dom, Hd; apply elem_of_dom; by eexists).
      exists e1. split; [done|]. rewrite <- Hh, <- (ev_Some _ _ _ He), <- (ev_Some _ _ _ He1).
      apply (fireEvent_field Event.Hash p x); intros; by psimp.
    + rewrite <- Hr. apply (fireEvent_field Event.IsRecovered p x); intros; by psimp.
Qed.

(** Handling is observing, and firing some of the events that are ready: all of them, or
    those of the highest severity. *)
Lemma handleEvent_chosen p events p1 ready s :
  observeEvents p events [] SeverityLowest = (p1, ready, s) →
  ∃ chosen, handleEvent p events = foldl fireEvent p1 chosen ∧ (∀ l, l ∈ chosen → l ∈ ready) ∧
    ∀ l, l ∈ ready → (p_inhibit p = true → Event.Severity (ev p l) ≤ SeverityLowest ∧
      ∀ l', l' ∈ events → Event.Severity (ev p l) ≤ Event.Severity (ev p l')) → l ∈ chosen.
Proof.
  intros Ho. destruct (p_inhibit p) eqn:Hi.
  - destruct (handleEvent_inhibits p events p1 ready s Hi Ho) as (Hh & _ & Hs & _).
    exists (filter (λ l, Event.Severity (ev p l) ≤ s) ready). split; [done|]. split; [intros l [_ Hl]%list_elem_of_filter; done|].
    intros l Hl Hsev. destruct (Hsev eq_refl) as [H1 H2]. apply list_elem_of_filter. split; [|done].
    destruct Hs as [->|(l' & Hl' & <-)]; [done|]. apply H2.
    destruct (observeEvents_subset _ _ _ _ _ _ _ Ho l' Hl') as [Hn|]; [set_solver|done].
  - exists ready. split; [by eapply handleEvent_fires_all|]. by split.
Qed.

(** ** The alert in a run *)

(** One evaluation: the state stays well-formed, the alert is pending since it
    was, firing alerts keep firing, and the alert fires when its duration has
    passed. *)
Lemma evaluate_spec p new k l e :
  wf p → fresh p new → holds_in p new k l e → Rule.PromForDuration (p_rule p) ≠ 0 →
  wf (evaluate p new) ∧ frame (evaluate p new) = frame p ∧ pending_since (evaluate p new) k (since p e) ∧
  (∀ k, is_Some (p_fires p !! k) → is_Some (p_fires (evaluate p new) !! k)) ∧
  (Rule.PromForDuration (p_rule p) ≤ i64 (i64 (Event.LastEvalTime e - since p e) + p_PromEvalInterval p) →
   is_Some (p_fires (evaluate p new) !! k)).
Proof.
  intros Hwf Hfresh [Hin <- Honce Halert Hsev] Hd. pose proof Hfresh as [Hnd Hnew]. unfold evaluate. set (q := built p new).
  assert (wf q) as Hwq by by apply built_wf.
  assert (∀ x ex, (x, ex) ∈ new → p_heap q !! x = Some ex) as Hq by (intros; by apply built_lookup).
  assert (frame q = frame p ∧ p_fires q = p_fires p ∧ p_rule q = p_rule p ∧ p_PromEvalInterval q = p_PromEvalInterval p ∧ p_inhibit q = p_inhibit p)
    as (Ef & Efi & Er & Ep & Ei) by (unfold q, built, frame; by psimp).
  assert (since q e = since p e) as Hsince.
  { unfold since. assert (p_pendings q = p_pendings p) as -> by (unfold q, built; by psimp).
    destruct (p_pendings p !! Event.Hash e) as [pre|] eqn:Hpre; [|done].
    destruct (wf_pendings _ Hwf _ _ Hpre) as (e0 & He0 & _).
    pose proof (built_old _ _ _ _ Hfresh He0) as Hb. fold q in Hb. by rewrite (ev_Some _ _ _ He0), (ev_Some _ _ _ Hb). }
  assert (∀ x, x ∈ new.*1 → ∃ ex, (x, ex) ∈ new ∧ p_heap q !! x = Some ex) as Hloc.
  { intros x ([? ex] & -> & Hx)%list_elem_of_fmap. exists ex. split; [done|by apply Hq]. }
  assert (∀ x, x ∈ new.*1 → x ∈ dom (p_heap q)) as Hdom by (intros x (ex & _ & Hx)%Hloc; by apply elem_of_dom).
  destruct (handleEvent_wf q new.*1 Hwq Hdom) as [Hw _].
  apply list_elem_of_split in Hin as (a & b & ->).
  rewrite fmap_app, fmap_cons in *. cbn [fst] in *.
  assert (∀ x, x ∈ a.*1 ++ b.*1 → Event.Hash (ev q x) ≠ Event.Hash e) as Hother.
  { intros x Hx Heq. destruct (Hloc x) as (ex & Hex & Hqx); [set_solver|]. rewrite (ev_Some _ _ _ Hqx) in Heq.
    apply (Honce _ _ Hex) in Heq as ->. apply NoDup_app in Hnd as (_ & Hab & Hb). apply NoDup_cons in Hb as [Hb _].
    apply elem_of_app in Hx as [Hx|Hx]; [|done]. apply (Hab l Hx). left. }
  pose proof (Hq l e ltac:(set_solver)) as Hql.
  pose proof (observe_group q a.*1 l b.*1 e Hwq Hdom Hql ltac:(by rewrite Er) Hother) as Hobs.
  destruct (observeEvents q (a.*1 ++ l :: b.*1) [] SeverityLowest) as [[p1 ready] s] eqn:Ho.
  destruct Hobs as (Hw1 & Hf1 & Hp1 & Hh1 & Hr1 & Hready). rewrite Hsince, Er, Ep in *.
  destruct (handleEvent_chosen _ _ _ _ _ Ho) as (chosen & Hh & Hsub & Hchosen).
  destruct (fire_list p1 chosen (Event.Hash e) (since p e)) as (F1 & F2 & F3). rewrite <- Hh in F1, F2, F3.
  split_and!; [done|congruence|auto| |].
  - intros k Hk. apply handleEvent_fires. by rewrite Efi.
  - intros Hle%Hready. apply (F3 l); [|done| |done|by rewrite Hr1].
    + apply Hchosen; [done|]. rewrite Ei, (ev_Some _ _ _ Hql). intros [H1 H2]%Hsev. split; [done|].
      intros l' (e' & Hin' & He')%Hloc. rewrite (ev_Some _ _ _ He'). eauto.
    + intros x Hx. destruct (observeEvents_wf _ _ _ _ _ _ _ Ho Hwq Hdom) as (_ & -> & Hin'); [set_solver|]. apply Hin', Hsub, Hx.
Qed.

(** A group without the alert leaves it pending. *)
Lemma evaluate_other p new k t0 :
  wf p → fresh p new → (∀ l e, (l, e) ∈ new → Event.Hash e ≠ k) →
  wf (evaluate p new) ∧ frame (evaluate p new) = frame p ∧
  (pending_since p k t0 → pending_since (evaluate p new) k t0) ∧
  (p_pendings p !! k = None → p_pendings (evaluate p new) !! k = None) ∧
  (is_Some (p_fires p !! k) → is_Some (p_fires (evaluate p new) !! k)).
Proof.
  intros Hwf Hfresh Hne. pose proof Hfresh as [Hnd Hnew]. unfold evaluate. set (q := built p new).
  assert (wf q) as Hwq by by apply built_wf.
  assert (∀ x, x ∈ new.*1 → x ∈ dom (p_heap q) ∧ Event.Hash (ev q x) ≠ k) as Hloc.
  { intros x ([? ex] & -> & Hx)%list_elem_of_fmap. cbn [fst]. pose proof (built_lookup p new _ _ Hnd Hx) as Hq. fold q in Hq.
    split; [by apply elem_of_dom|]. rewrite (ev_Some _ _ _ Hq). eauto. }
  destruct (handleEvent_wf q new.*1 Hwq) as [Hw _]; [intros; by apply Hloc|].
  pose proof (observe_others k q new.*1 [] SeverityLowest Hwq Hloc) as Hu.
  destruct (observeEvents q new.*1 [] SeverityLowest) as [[p1 ready] s] eqn:Ho. cbn [fst] in Hu.
  destruct (handleEvent_chosen _ _ _ _ _ Ho) as (chosen & Hh & _ & _).
  destruct (fire_list p1 chosen k t0) as (F1 & F2 & _).
  assert (p_pendings (foldl fireEvent p1 chosen) = p_pendings p1) as F4.
  { clear. revert p1. induction chosen as [|x ls IH]; intros p1; cbn [foldl]; [done|]. rewrite IH.
    apply (fireEvent_field Event.FirstEvalTime p1 x); intros; by psimp. }
  assert (frame q = frame p ∧ p_fires q = p_fires p ∧ p_pendings q = p_pendings p) as (Ef & Efi & Epe) by (unfold q, built, frame; by psimp).
  split_and!; [done|rewrite Hh, F1, (ut_frame _ _ _ Hu); done| | |intros Hk; apply handleEvent_fires; by rewrite Efi].
  - rewrite Hh. intros (pre & Hpre & Ht). apply F2. apply (pending_untouched k q); [done..|]. exists pre. rewrite Epe. split; [done|].
    destruct (wf_pendings _ Hwf _ _ Hpre) as (e0 & He0 & _).
    pose proof (built_old _ _ _ _ Hfresh He0) as Hb. fold q in Hb. by rewrite (ev_Some _ _ _ Hb), <- (ev_Some _ _ _ He0).
  - rewrite Hh, F4, (ut_pending _ _ _ Hu), Epe. done.
Qed.

(** Handling recoveries keeps an alert that still holds pending and firing. *)
Lemma recover_pending p keys now inh k t0 :
  wf p → k ∈ keys → pending_since p k t0 → pending_since (HandleRecover p keys now inh) k t0.
Proof.
  intros Hwf Hk (pre & Hp & Ht). destruct (HandleRecover_kept p keys now inh Hwf) as (Hkeep & Hheap & _).
  destruct (Hkeep k Hk) as (_ & Hpe & _). exists pre. rewrite Hpe. split; [done|].
  destruct (wf_pendings _ Hwf _ _ Hp) as (e & He & Hh & _). rewrite <- Hh in Hk.
  by rewrite (ev_Some _ _ _ (Hheap _ _ He Hk)), <- (ev_Some _ _ _ He).
Qed.

(** Once pending since [t0], the run keeps it so and fires when due. *)
Lemma evaluations_pending k p ts p' t0 :
  evaluations k p ts p' → wf p → Rule.PromForDuration (p_rule p) ≠ 0 → pending_since p k t0 →
  (is_Some (p_fires p !! k) → is_Some (p_fires p' !! k)) ∧
  (∀ t, t ∈ ts → Rule.PromForDuration (p_rule p) ≤ i64 (i64 (t - t0) + p_PromEvalInterval p) →
   is_Some (p_fires p' !! k)).
Proof.
  induction 1 as [p|p keys now inh ts p' Hk Hrun IH|p new ts p' Hf Hne Hrun IH|p new l e ts p' Hf Hin Hrun IH]; intros Hwf Hd Hpend.
  - split; [done|set_solver].
  - destruct (HandleRecover_kept p keys now inh Hwf) as (Hkeep & _).
    rewrite HandleRecover_rule, HandleRecover_interval in IH by done.
    rewrite <- (proj1 (Hkeep k Hk)). apply IH; [by apply HandleRecover_wf|done|by apply recover_pending].
  - destruct (evaluate_other p new k t0 Hwf Hf Hne) as (Hw & [= Er _ Ei] & Hp & _ & Hfi). rewrite Er, Ei in IH.
    destruct IH as [I1 I2]; auto.
  - destruct (evaluate_spec p new k l e Hwf Hf Hin Hd) as (Hw & [= Er _ Ei] & Hp & Hkeep & Hfire).
    rewrite <- (hi_hash _ _ _ _ _ Hin) in Hpend at 1. rewrite (since_pending _ _ _ Hpend) in Hp, Hfire.
    rewrite Er, Ei in IH. destruct IH as [I1 I2]; [done..|].
    split; [auto|]. intros t [->|Ht]%elem_of_cons Hle; eauto.
Qed.

(** C8. An alert of a rule with a for-duration that is built at every evaluation of its group,
    at the times [t0 :: ts], fires at the latest with the first evaluation at which the
    duration, one interval counted in, has passed since [t0].  A group may hold other alerts;
    under inhibition none of them may be more severe, as the alert is then held back.  Neither
    these evaluations, nor other groups, nor the recoveries handled in between restart the
    duration. *)
Theorem for_duration_fires k p t0 ts p' t :
  wf p → p_pendings p !! k = None → Rule.PromForDuration (p_rule p) ≠ 0 →
  evaluations k p (t0 :: ts) p' → t ∈ t0 :: ts →
  Rule.PromForDuration (p_rule p) ≤ i64 (i64 (t - t0) + p_PromEvalInterval p) →
  is_Some (p_fires p' !! k).
Proof.
  intros Hwf Hnew Hd Hrun. remember (t0 :: ts) as all eqn:Hall. revert Hwf Hnew Hd Hall.
  induction Hrun as [p|p keys now inh all p' Hk Hrun IH|p new all p' Hf Hne Hrun IH|p new l e all p' Hf Hin Hrun _];
    intros Hwf Hnew Hd Hall Ht Hle; [done| | |].
  - destruct (HandleRecover_kept p keys now inh Hwf) as (Hkeep & _). destruct (Hkeep k Hk) as (_ & Hpe & _).
    rewrite HandleRecover_rule, HandleRecover_interval, Hpe in IH by done.
    apply IH; [by apply HandleRecover_wf|done..].
  - destruct (evaluate_other p new k t0 Hwf Hf Hne) as (Hw & [= Er _ Ei] & _ & Hp & _). rewrite Er, Ei in IH. auto.
  - injection Hall as <- ->. destruct (evaluate_spec p new k l e Hwf Hf Hin Hd) as (Hw & [= Er _ Ei] & Hp & Hkeep & Hfire).
    assert (since p e = Event.LastEvalTime e) as Hsince by (unfold since; by rewrite (hi_hash _ _ _ _ _ Hin), Hnew).
    rewrite Hsince in *. destruct (evaluations_pending _ _ _ _ _ Hrun Hw ltac:(by rewrite Er) Hp) as [I1 I2].
    rewrite Er, Ei in I2. apply elem_of_cons in Ht as [->|Ht]; eauto.
Qed.
End liveness.
