(* ===== verification/Queues.v ===== *)
(** * The queues: [pushgw/writer/queue.go] and [alert/sender]

    [SafeList] and [SafeListLimited] (samples waiting to be written, and their
    copy for events), and [SafeEventQueue], the queue of events by severity in
    front of webhooks.  Each operation holds the lock of the list for its whole
    duration, so it is one step; the limited list reads the length and pushes
    under two separate locks, which the step relation [lstep] keeps apart. *)

From S2P Require Import Prelude GoStrings Json Models RuleModels EventOps RuleOps EventTable.
Open Scope string_scope.
Open Scope Z_scope.
Open Scope list_scope.

(** A map whose keys are below [n] has at most [n] entries. *)
Lemma size_below {A} (m : gmap nat A) n :
  (∀ g, is_Some (m !! g) → Z.of_nat g < n) → Z.of_nat (size m) ≤ Z.max 0 n.
Proof.
  intros Hm. rewrite <- size_dom.
  assert (dom m ⊆ (list_to_set (seq 0 (Z.to_nat n)) : gset nat)) as Hsub.
  { intros g Hg. apply elem_of_list_to_set, elem_of_seq. apply elem_of_dom, Hm in Hg. lia. }
  apply subseteq_size in Hsub. rewrite size_list_to_set in Hsub by apply NoDup_seq.
  rewrite length_seq in Hsub. lia.
Qed.

(** ** [SafeList]

    The values of a [container/list], front first.  They are interface values;
    [assert_type] is the type assertion made when they are taken out. *)
Section safe_list.
Context {I T : Type} (assert_type : I → option T).
Implicit Types (l : list I) (v : I) (vs : list I).

Definition SL_PushFront l v : list I := v :: l.
Definition SL_PushFrontBatch l vs : list I := foldl SL_PushFront l vs.
Definition SL_RemoveAll l : list I := [].
Definition SL_Len l : Z := Z.of_nat (length l).

(** [Remove(Back())] panics on an empty list. *)
Fixpoint PopBack_loop (n : nat) l (items : list T) : go (list I * list T) :=
  match n with
  | O => Ret (l, items)
  | S n =>
      match last l with
      | None => Panic
      | Some item =>
          PopBack_loop n (removelast l)
            (match assert_type item with Some sample => items ++ [sample] | None => items end)
      end
  end.

(** A negative [max] is a negative capacity of [make]. *)
Definition SL_PopBack l (max : Z) : go (list I * list T) :=
  let count := SL_Len l in
  if count =? 0 then Ret (l, [])
  else let count := if max <? count then max else count in
       if count <? 0 then Panic else PopBack_loop (Z.to_nat count) l [].

(** ** [SafeListLimited] *)

Record SafeListLimited := mkSafeListLimited {
  sll_maxSize : Z;
  sll_SL : list I
}.
Implicit Types q : SafeListLimited.

Definition NewSafeListLimited (maxSize : Z) : SafeListLimited := mkSafeListLimited maxSize [].

Definition SLL_PopBack q (max : Z) : go (SafeListLimited * list T) :=
  (λ r, (mkSafeListLimited (sll_maxSize q) (fst r), snd r)) <$> SL_PopBack (sll_SL q) max.

Definition SLL_PushFront q v : SafeListLimited * bool :=
  if sll_maxSize q <=? SL_Len (sll_SL q) then (q, false)
  else (mkSafeListLimited (sll_maxSize q) (SL_PushFront (sll_SL q) v), true).

Definition SLL_PushFrontBatch q vs : SafeListLimited * bool :=
  if sll_maxSize q <=? SL_Len (sll_SL q) then (q, false)
  else (mkSafeListLimited (sll_maxSize q) (SL_PushFrontBatch (sll_SL q) vs), true).

Definition SLL_RemoveAll q : SafeListLimited :=
  mkSafeListLimited (sll_maxSize q) (SL_RemoveAll (sll_SL q)).
Definition SLL_Len q : Z := SL_Len (sll_SL q).

(** ** Several goroutines on one limited list

    [ls_waiting] are the goroutines that found room and have not pushed yet,
    with what they are about to push.  The label of a step has what it puts into
    the list or takes from it. *)
Record lstate := mkLstate {
  ls_items : list I;
  ls_waiting : gmap nat (list I)
}.

Inductive llabel :=
| LCheck (g : nat) (vs : list I)
| LRefused (g : nat) (vs : list I)
| LPush (g : nat) (vs : list I)
| LPop (taken : list I)
| LRemoveAll.

Inductive lstep (maxSize : Z) : lstate → llabel → lstate → Prop :=
| lstep_check l w g vs :
    w !! g = None → (maxSize <=? SL_Len l) = false →
    lstep maxSize (mkLstate l w) (LCheck g vs) (mkLstate l (<[g := vs]> w))
| lstep_refused l w g vs :
    w !! g = None → (maxSize <=? SL_Len l) = true →
    lstep maxSize (mkLstate l w) (LRefused g vs) (mkLstate l w)
| lstep_push l w g vs :
    w !! g = Some vs →
    lstep maxSize (mkLstate l w) (LPush g vs) (mkLstate (SL_PushFrontBatch l vs) (delete g w))
| lstep_pop l l' w max items taken :
    SL_PopBack l max = Ret (l', items) → l = l' ++ reverse taken →
    lstep maxSize (mkLstate l w) (LPop taken) (mkLstate l' w)
| lstep_clear l w :
    lstep maxSize (mkLstate l w) LRemoveAll (mkLstate (SL_RemoveAll l) w).

Inductive lruns (maxSize : Z) : lstate → list llabel → lstate → Prop :=
| lruns_nil s : lruns maxSize s [] s
| lruns_cons s a s' tr s'' :
    lstep maxSize s a s' → lruns maxSize s' tr s'' → lruns maxSize s (a :: tr) s''.

Definition label_pushed (a : llabel) : list I := match a with LPush _ vs => vs | _ => [] end.
Definition label_popped (a : llabel) : list I := match a with LPop vs => vs | _ => [] end.

(** *** What the operations do *)

Lemma SL_PushFrontBatch_app l vs : SL_PushFrontBatch l vs = reverse vs ++ l.
Proof.
  revert l. induction vs as [|v vs IH]; intros l; simpl; [done|].
  rewrite IH, reverse_cons, <- (assoc_L (++)). done.
Qed.

Lemma PopBack_loop_spec l rest items :
  PopBack_loop (length rest) (l ++ reverse rest) items = Ret (l, items ++ omap assert_type rest).
Proof.
  revert items. induction rest as [|x rest IH]; intros items; simpl.
  { by rewrite reverse_nil, !app_nil_r. }
  rewrite reverse_cons, (assoc_L (++)), last_snoc, removelast_last, IH.
  destruct (assert_type x); simpl; [by rewrite <- (assoc_L (++))|done].
Qed.

Lemma list_split_back l n : (n ≤ length l)%nat →
  ∃ l' rest, l = l' ++ reverse rest ∧ length rest = n.
Proof.
  intros Hn. exists (take (length l - n) l), (reverse (drop (length l - n) l)).
  rewrite reverse_involutive, take_drop, length_reverse, length_drop. split; [done|lia].
Qed.

(** [PopBack] takes the oldest elements, as many as there are up to [max], and
    returns those of the right type in the order they were pushed. *)
Lemma SL_PopBack_spec l max : 0 ≤ max →
  ∃ l' rest, SL_PopBack l max = Ret (l', omap assert_type rest) ∧
    l = l' ++ reverse rest ∧ Z.of_nat (length rest) = Z.min max (SL_Len l).
Proof.
  intros Hmax. unfold SL_PopBack, SL_Len.
  destruct (Z.eqb_spec (Z.of_nat (length l)) 0) as [E|E].
  { exists [], []. destruct l; [|done]. split_and!; [done..|]. simpl. lia. }
  set (count := if max <? Z.of_nat (length l) then max else Z.of_nat (length l)).
  assert (0 ≤ count ∧ count = Z.min max (Z.of_nat (length l))) as [Hc Hm].
  { subst count. destruct (Z.ltb_spec max (Z.of_nat (length l))); lia. }
  destruct (Z.ltb_spec count 0); [lia|].
  destruct (list_split_back l (Z.to_nat count)) as (l' & rest & Hl & Hlen); [lia|].
  exists l', rest. split_and!; [|done|lia]. rewrite Hl, <- Hlen. by rewrite PopBack_loop_spec.
Qed.

Lemma SL_PopBack_negative l max : l ≠ [] → max < 0 → SL_PopBack l max = Panic.
Proof.
  intros Hl Hmax. unfold SL_PopBack, SL_Len. destruct l as [|x l]; [done|].
  destruct (Z.eqb_spec (Z.of_nat (length (x :: l))) 0); [done|].
  destruct (Z.ltb_spec max (Z.of_nat (length (x :: l)))); [|lia].
  destruct (Z.ltb_spec max 0); [done|lia].
Qed.

(** *** Order: first in, first out, whatever the interleaving *)

Lemma lstep_fifo maxSize s a s' :
  lstep maxSize s a s' → a ≠ LRemoveAll →
  reverse (ls_items s) ++ label_pushed a = label_popped a ++ reverse (ls_items s').
Proof.
  intros Hs Ha. destruct Hs; simpl; rewrite ?app_nil_r; try done.
  - by rewrite SL_PushFrontBatch_app, reverse_app, reverse_involutive.
  - subst l. by rewrite reverse_app, reverse_involutive.
Qed.

Lemma lruns_fifo maxSize s tr s' :
  lruns maxSize s tr s' → LRemoveAll ∉ tr →
  reverse (ls_items s) ++ concat (map label_pushed tr) =
  concat (map label_popped tr) ++ reverse (ls_items s').
Proof.
  induction 1 as [s|s a s' tr s'' Ha Hr IH]; intros Hno; simpl; [by rewrite app_nil_r|].
  apply not_elem_of_cons in Hno as [Hne Hno].
  rewrite (assoc_L (++)), (lstep_fifo _ _ _ _ Ha) by done.
  rewrite <- !(assoc_L (++)). f_equal. by apply IH.
Qed.

(** *** Size: how far the list can grow past its limit *)

(** With at most [n] goroutines pushing at most [b] elements each. *)
Definition lbounded (maxSize n b : Z) (s : lstate) : Prop :=
  Z.of_nat (size (ls_waiting s)) ≤ n ∧
  (∀ g vs, ls_waiting s !! g = Some vs → Z.of_nat (length vs) ≤ b ∧ 1 ≤ maxSize) ∧
  SL_Len (ls_items s) ≤ Z.max 0 (maxSize - 1 + b * (n - Z.of_nat (size (ls_waiting s)))).

Lemma lstep_bounded maxSize n b s a s' :
  0 ≤ b → lbounded maxSize n b s → lstep maxSize s a s' →
  Z.of_nat (size (ls_waiting s')) ≤ n →
  (∀ g vs, a = LCheck g vs → Z.of_nat (length vs) ≤ b) →
  lbounded maxSize n b s'.
Proof.
  intros Hb (Hn & Hw & Hl) Hs Hn' Hbat. destruct Hs as [l w g vs Hg Hfree|l w g vs Hg Hfull|l w g vs Hg| |];
    unfold lbounded in *; simpl in *; try done.
  - split_and!; [done| |].
    + intros g' vs' [[-> <-]|[_ ?]]%lookup_insert_Some; [|by eapply Hw].
      apply Z.leb_gt in Hfree. unfold SL_Len in Hfree. split; [by eapply Hbat|lia].
    + apply Z.leb_gt in Hfree. nia.
  - assert (size (delete g w) = pred (size w)) as Hsz by (apply map_size_delete_Some; by eexists).
    assert (size w ≠ 0%nat) as Hne by (intros ->%map_size_empty_iff; done).
    destruct (Hw g vs Hg) as [Hvs Hmx]. split_and!.
    + lia.
    + intros g' vs' [_ ?]%lookup_delete_Some. by eapply Hw.
    + rewrite SL_PushFrontBatch_app. unfold SL_Len in *. rewrite length_app, length_reverse. nia.
  - split_and!; [done..|]. subst l. unfold SL_Len in *. rewrite length_app in Hl. lia.
  - split_and!; [done..|]. unfold SL_Len, SL_RemoveAll. simpl. lia.
Qed.
End safe_list.

(** The bound that holds for every interleaving. *)
Lemma lruns_bounded {I T} (assert_type : I → option T) maxSize n b s tr s' :
  0 ≤ b → lruns assert_type maxSize s tr s' → lbounded maxSize n b s →
  (∀ g vs, LCheck g vs ∈ tr → Z.of_nat g < n ∧ Z.of_nat (length vs) ≤ b) →
  (∀ g, is_Some (ls_waiting s !! g) → Z.of_nat g < n) → lbounded maxSize n b s'.
Proof.
  intros Hb Hr. induction Hr as [s|s a s' tr s'' Ha Hr IH]; intros Hs Htr Hg; [done|].
  assert (∀ g, is_Some (ls_waiting s' !! g) → Z.of_nat g < n) as Hg'.
  { intros g [vs Hvs]. destruct Ha; simpl in *; try (apply Hg; by eexists).
    - apply lookup_insert_Some in Hvs as [[-> <-]|[_ ?]]; [|apply Hg; by eexists].
      eapply Htr. by left.
    - apply lookup_delete_Some in Hvs as [_ ?]. apply Hg. by eexists. }
  apply IH; [|intros; eapply Htr; by right|done].
  eapply lstep_bounded; [done|done|done| |intros g vs ->; eapply Htr; by left].
  pose proof (size_below _ _ Hg'). destruct Hs as [Hn _]. lia.
Qed.

Arguments SafeListLimited I : clear implicits.
Arguments lstate I : clear implicits.
Arguments llabel I : clear implicits.
Arguments NewSafeListLimited {I} maxSize.

(** The copy of the list in [alert/sender/webhook_queue.go] takes out events. *)
Definition sender_PopBack {I} (assert_event : I → option AlertCurEvent) := SL_PopBack assert_event.
Definition sender_SLL_PopBack {I} (assert_event : I → option AlertCurEvent) := SLL_PopBack assert_event.

(** The limited list keeps the promise the tables of a processor rely on. *)
#[export] Program Instance SafeListLimited_queue : EventQueueLib | 50 := {|
  equeue := SafeListLimited nat;
  queue_items := sll_SL;
  PushFront := SLL_PushFront
|}.
Next Obligation. intros q l. unfold SLL_PushFront. by case_match. Qed.

(** ** [SafeEventQueue]

    A list of events for each severity, oldest first.  The queue holds pointers;
    as it reads the severity only when the event is pushed, an event here is the
    event as it was then. *)

Definition High : Z := 1.
Definition Middle : Z := 2.
Definition Low : Z := 3.
Definition QueueMaxSize : Z := 100000.

Record SafeEventQueue := mkSafeEventQueue {
  maxSize : Z;
  queueHigh : list AlertCurEvent;
  queueMiddle : list AlertCurEvent;
  queueLow : list AlertCurEvent
}.
#[global] Instance SafeEventQueue_eta : Settable SafeEventQueue := λ r,
  mkSafeEventQueue (maxSize r) (queueHigh r) (queueMiddle r) (queueLow r).

Definition NewSafeEventQueue (maxSize : Z) : SafeEventQueue := mkSafeEventQueue maxSize [] [] [].

Section event_queue.
Implicit Types (spq : SafeEventQueue) (e event : AlertCurEvent).

(** [Len], and [len], the same without the lock. *)
Definition spq_len spq : Z :=
  SL_Len (queueHigh spq) + SL_Len (queueMiddle spq) + SL_Len (queueLow spq).

Definition spq_Push spq event : SafeEventQueue * bool :=
  if maxSize spq <? spq_len spq then (spq, false)
  else if Event.Severity event =? High
       then (spq <| queueHigh := queueHigh spq ++ [event] |>, true)
  else if Event.Severity event =? Middle
       then (spq <| queueMiddle := queueMiddle spq ++ [event] |>, true)
  else if Event.Severity event =? Low
       then (spq <| queueLow := queueLow spq ++ [event] |>, true)
  else (spq, false).

(** [Remove(Front())] of a list that may be empty. *)
Definition remove_front (l : list AlertCurEvent) : go (AlertCurEvent * list AlertCurEvent) :=
  match l with [] => Panic | e :: l => Ret (e, l) end.

Definition spq_pop spq : go (SafeEventQueue * option AlertCurEvent) :=
  if spq_len spq =? 0 then Ret (spq, None)
  else if 0 <? SL_Len (queueHigh spq)
       then '(e, l) ← remove_front (queueHigh spq); Ret (spq <| queueHigh := l |>, Some e)
  else if 0 <? SL_Len (queueMiddle spq)
       then '(e, l) ← remove_front (queueMiddle spq); Ret (spq <| queueMiddle := l |>, Some e)
  else '(e, l) ← remove_front (queueLow spq); Ret (spq <| queueLow := l |>, Some e).

Definition spq_Pop := spq_pop.

(** The loop runs at most [n] times. *)
Fixpoint spq_PopN_loop (n : nat) spq (events : list AlertCurEvent) :
    go (SafeEventQueue * list AlertCurEvent) :=
  match n with
  | O => Ret (spq, events)
  | S n =>
      if 0 <? spq_len spq then
        '(spq, event) ← spq_pop spq;
        spq_PopN_loop n spq (match event with Some e => events ++ [e] | None => events end)
      else Ret (spq, events)
  end.

(** A negative [n] is a negative capacity of [make]. *)
Definition spq_PopN spq (n : Z) : go (SafeEventQueue * list AlertCurEvent) :=
  if n <? 0 then Panic else spq_PopN_loop (Z.to_nat n) spq [].

(** *** The specification: one list, by severity, then by age *)

Definition spq_items spq : list AlertCurEvent := queueHigh spq ++ queueMiddle spq ++ queueLow spq.

Definition severity_le e1 e2 : Prop := Event.Severity e1 ≤ Event.Severity e2.

(** Insertion after the events that are at least as severe. *)
Fixpoint insert_by_severity event (l : list AlertCurEvent) : list AlertCurEvent :=
  match l with
  | [] => [event]
  | e :: l => if Event.Severity e <=? Event.Severity event then e :: insert_by_severity event l
              else event :: e :: l
  end.

(** Every event is in the list of its severity. *)
Definition spq_wf spq : Prop :=
  Forall (λ e, Event.Severity e = High) (queueHigh spq) ∧
  Forall (λ e, Event.Severity e = Middle) (queueMiddle spq) ∧
  Forall (λ e, Event.Severity e = Low) (queueLow spq).

Definition known_severity event : bool :=
  bool_decide (Event.Severity event ∈ [High; Middle; Low]).

Lemma spq_len_items spq : spq_len spq = SL_Len (spq_items spq).
Proof. unfold spq_len, spq_items, SL_Len. rewrite !length_app. lia. Qed.

Lemma insert_by_severity_app e l1 l2 :
  Forall (λ x, Event.Severity x ≤ Event.Severity e) l1 →
  Forall (λ x, Event.Severity e < Event.Severity x) l2 →
  insert_by_severity e (l1 ++ l2) = l1 ++ e :: l2.
Proof.
  intros H1 H2. induction H1 as [|x l1 Hx H1 IH]; simpl.
  - destruct H2 as [|y l2 Hy H2]; simpl; [done|].
    by rewrite (proj2 (Z.leb_gt _ _)).
  - by rewrite (proj2 (Z.leb_le _ _)), IH.
Qed.

Lemma Forall_severity (P : Z → Prop) s l :
  P s → Forall (λ e, Event.Severity e = s) l → Forall (λ e, P (Event.Severity e)) l.
Proof. intros HP Hl. eapply Forall_impl; [exact Hl|]. by intros e ->. Qed.

(** Where an accepted event goes: a level behind [l1] and before [l2]. *)
Lemma insert_at_level e l1 l2 s :
  Event.Severity e = s → Forall (λ x, Event.Severity x ≤ s) l1 → Forall (λ x, s < Event.Severity x) l2 →
  l1 ++ e :: l2 = insert_by_severity e (l1 ++ l2).
Proof. intros <- ??. by rewrite insert_by_severity_app. Qed.

Lemma spq_Push_spec spq e :
  spq_wf spq →
  snd (spq_Push spq e) = bool_decide (spq_len spq ≤ maxSize spq) && known_severity e ∧
  spq_wf (fst (spq_Push spq e)) ∧
  spq_items (fst (spq_Push spq e)) =
    (if snd (spq_Push spq e) then insert_by_severity e (spq_items spq) else spq_items spq) ∧
  maxSize (fst (spq_Push spq e)) = maxSize spq.
Proof.
  intros (HH & HM & HL). unfold spq_Push, known_severity, spq_wf, spq_items.
  pose proof (Forall_severity (λ s, s ≤ High) High _ ltac:(unfold High; lia) HH).
  pose proof (Forall_severity (λ s, s ≤ Middle) High _ ltac:(unfold High, Middle; lia) HH).
  pose proof (Forall_severity (λ s, s ≤ Low) High _ ltac:(unfold High, Low; lia) HH).
  pose proof (Forall_severity (λ s, High < s) Middle _ ltac:(unfold High, Middle; lia) HM).
  pose proof (Forall_severity (λ s, s ≤ Middle) Middle _ ltac:(unfold Middle; lia) HM).
  pose proof (Forall_severity (λ s, s ≤ Low) Middle _ ltac:(unfold Low, Middle; lia) HM).
  pose proof (Forall_severity (λ s, High < s) Low _ ltac:(unfold High, Low; lia) HL).
  pose proof (Forall_severity (λ s, Middle < s) Low _ ltac:(unfold Middle, Low; lia) HL).
  pose proof (Forall_severity (λ s, s ≤ Low) Low _ ltac:(unfold Low; lia) HL).
  rewrite (bool_decide_ext (spq_len spq ≤ maxSize spq) (¬ maxSize spq < spq_len spq)) by lia.
  destruct (Z.ltb_spec (maxSize spq) (spq_len spq)).
  { rewrite bool_decide_false by auto. done. }
  rewrite bool_decide_true by lia.
  destruct (Z.eqb_spec (Event.Severity e) High) as [E|N1];
    [|destruct (Z.eqb_spec (Event.Severity e) Middle) as [E|N2];
      [|destruct (Z.eqb_spec (Event.Severity e) Low) as [E|N3]]]; simpl; rsimp.
  - rewrite bool_decide_true by (rewrite E; set_solver). split_and!; try done.
    + apply Forall_app; auto.
    + rewrite <- (assoc_L (++)). eapply insert_at_level; [done..|apply Forall_app; auto].
  - rewrite bool_decide_true by (rewrite E; set_solver). split_and!; try done.
    + apply Forall_app; auto.
    + rewrite <- (assoc_L (++)), (assoc_L (++) (queueHigh spq)). simpl.
      rewrite (assoc_L (++) (queueHigh spq) (queueMiddle spq)).
      eapply insert_at_level; [done|apply Forall_app; auto|done].
  - rewrite bool_decide_true by (rewrite E; set_solver). split_and!; try done.
    + apply Forall_app; auto.
    + rewrite !(assoc_L (++)). rewrite <- (app_nil_r (_ ++ queueLow spq)) at 2.
      eapply insert_at_level; [done| |done]. rewrite !Forall_app. auto.
  - rewrite bool_decide_false by set_solver. done.
Qed.

Lemma spq_pop_spec spq e l :
  spq_items spq = e :: l →
  ∃ spq', spq_pop spq = Ret (spq', Some e) ∧ spq_items spq' = l ∧
    maxSize spq' = maxSize spq ∧ (spq_wf spq → spq_wf spq').
Proof.
  intros Hi. unfold spq_pop. rewrite spq_len_items, Hi. unfold SL_Len, spq_items, spq_wf in *.
  destruct (Z.eqb_spec (Z.of_nat (length (e :: l))) 0); [done|].
  destruct (queueHigh spq) as [|h hs] eqn:EH; simpl in *.
  - destruct (queueMiddle spq) as [|m ms] eqn:EM; simpl in *.
    + rewrite Hi. simpl. eexists. split; [done|]. rsimp. rewrite EH, EM. split_and!; [done..|].
      intros (? & ? & ?%Forall_cons). naive_solver.
    + simplify_eq. eexists. split; [done|]. rsimp. rewrite EH. split_and!; [done..|].
      intros (? & ?%Forall_cons & ?). naive_solver.
  - simplify_eq. eexists. split; [done|]. rsimp. split_and!; [done..|].
    intros (?%Forall_cons & ? & ?). naive_solver.
Qed.

Lemma spq_PopN_loop_spec n spq events :
  ∃ spq', spq_PopN_loop n spq events = Ret (spq', events ++ take n (spq_items spq)) ∧
    spq_items spq' = drop n (spq_items spq) ∧ maxSize spq' = maxSize spq ∧ (spq_wf spq → spq_wf spq').
Proof.
  revert spq events. induction n as [|n IH]; intros spq events; simpl.
  { exists spq. by rewrite take_0, drop_0, app_nil_r. }
  rewrite spq_len_items. destruct (spq_items spq) as [|e l] eqn:Hi; simpl.
  { exists spq. by rewrite app_nil_r. }
  destruct (spq_pop_spec spq e l Hi) as (spq1 & -> & Hl & Hm & Hwf). simpl.
  destruct (IH spq1 (events ++ [e])) as (spq' & -> & Hi' & Hm' & Hwf').
  exists spq'. rewrite Hl, <- (assoc_L (++)) in *. split_and!; [done..|congruence|auto].
Qed.

Lemma insert_by_severity_sorted e l :
  StronglySorted severity_le l → StronglySorted severity_le (insert_by_severity e l).
Proof.
  unfold severity_le. induction 1 as [|x l Hs IH Hx]; simpl; [by repeat constructor|].
  destruct (Z.leb_spec (Event.Severity x) (Event.Severity e)).
  - constructor; [done|]. clear IH Hs. induction Hx; simpl; [by repeat constructor|].
    case_match; by repeat constructor.
  - constructor; [by constructor|]. constructor; [lia|]. eapply Forall_impl; [done|]. simpl. lia.
Qed.
End event_queue.

(** ** What the queues promise *)

(** The calls a client makes, and what they answer. *)
Inductive qop :=
| QPush (event : AlertCurEvent)
| QPopN (n : Z).

Inductive qanswer :=
| APushed (ok : bool)
| APopped (events : list AlertCurEvent).

Definition spq_do (spq : SafeEventQueue) (o : qop) : go (SafeEventQueue * qanswer) :=
  match o with
  | QPush e => Ret (fst (spq_Push spq e), APushed (snd (spq_Push spq e)))
  | QPopN n => '(spq, es) ← spq_PopN spq n; Ret (spq, APopped es)
  end.

Fixpoint spq_run (spq : SafeEventQueue) (os : list qop) : go (SafeEventQueue * list qanswer) :=
  match os with
  | [] => Ret (spq, [])
  | o :: os => '(spq, a) ← spq_do spq o; '(spq, rest) ← spq_run spq os; Ret (spq, a :: rest)
  end.

(** The same calls on one list ordered by severity and age. *)
Definition spec_do (max : Z) (l : list AlertCurEvent) (o : qop) : list AlertCurEvent * qanswer :=
  match o with
  | QPush e => let ok := (SL_Len l <=? max) && known_severity e in
               (if ok then insert_by_severity e l else l, APushed ok)
  | QPopN n => (drop (Z.to_nat n) l, APopped (take (Z.to_nat n) l))
  end.

Fixpoint spec_run (max : Z) (l : list AlertCurEvent) (os : list qop) : list AlertCurEvent * list qanswer :=
  match os with
  | [] => (l, [])
  | o :: os => let '(l, a) := spec_do max l o in
               let '(l, rest) := spec_run max l os in (l, a :: rest)
  end.

Definition qop_ok (o : qop) : Prop := match o with QPush _ => True | QPopN n => 0 ≤ n end.

Lemma spq_do_refines spq o :
  spq_wf spq → qop_ok o →
  ∃ spq', spq_do spq o = Ret (spq', snd (spec_do (maxSize spq) (spq_items spq) o)) ∧
    spq_items spq' = fst (spec_do (maxSize spq) (spq_items spq) o) ∧
    maxSize spq' = maxSize spq ∧ spq_wf spq'.
Proof.
  intros Hwf Ho. destruct o as [e|n]; simpl in *.
  - destruct (spq_Push_spec spq e Hwf) as (Hok & Hwf' & Hi & Hm).
    rewrite spq_len_items in Hok.
    assert (snd (spq_Push spq e) = (SL_Len (spq_items spq) <=? maxSize spq) && known_severity e) as Hok'.
    { rewrite Hok. f_equal. destruct (Z.leb_spec (SL_Len (spq_items spq)) (maxSize spq)).
      - by apply bool_decide_eq_true. - apply bool_decide_eq_false. lia. }
    eexists. rewrite Hi, Hok'. split_and!; done.
  - unfold spq_PopN. rewrite (proj2 (Z.ltb_ge _ _)) by done.
    destruct (spq_PopN_loop_spec (Z.to_nat n) spq []) as (spq' & -> & Hi & Hm & Hw).
    exists spq'. simpl. auto.
Qed.

Lemma spec_do_sorted max l o : StronglySorted severity_le l → StronglySorted severity_le (fst (spec_do max l o)).
Proof.
  intros Hl. destruct o as [e|n]; simpl.
  - case_match; [by apply insert_by_severity_sorted|done].
  - rewrite <- (take_drop (Z.to_nat n) l) in Hl. by eapply StronglySorted_app_1_r.
Qed.

Lemma length_insert_by_severity e l : length (insert_by_severity e l) = S (length l).
Proof. induction l as [|x l IH]; simpl; [done|]. case_match; simpl; auto. Qed.

Lemma spec_do_bounded max l o : SL_Len l ≤ max + 1 → SL_Len (fst (spec_do max l o)) ≤ max + 1.
Proof.
  unfold spec_do, SL_Len. intros Hl. destruct o as [e|n]; simpl; [|rewrite length_drop; lia].
  destruct (Z.leb_spec (Z.of_nat (length l)) max); simpl; [|lia].
  destruct (known_severity e); [rewrite length_insert_by_severity; lia|lia].
Qed.

(** C15. The queue of events behaves as one list ordered by severity, and by age for
    the same severity: for every sequence of [Push] and [PopN], the answers are those of
    the list, [PopN] takes its first elements, and at most [maxSize + 1] events are held. *)
Theorem event_queue_refines max os :
  0 ≤ max → Forall qop_ok os →
  ∃ spq, spq_run (NewSafeEventQueue max) os = Ret (spq, snd (spec_run max [] os)) ∧
    spq_items spq = fst (spec_run max [] os) ∧
    StronglySorted severity_le (spq_items spq) ∧ spq_len spq ≤ max + 1.
Proof.
  intros Hmax Hos.
  assert (∀ spq, spq_wf spq → maxSize spq = max → StronglySorted severity_le (spq_items spq) →
            spq_len spq ≤ max + 1 →
            ∃ spq', spq_run spq os = Ret (spq', snd (spec_run max (spq_items spq) os)) ∧
              spq_items spq' = fst (spec_run max (spq_items spq) os) ∧
              StronglySorted severity_le (spq_items spq') ∧ spq_len spq' ≤ max + 1) as Hgen.
  { induction Hos as [|o os Ho Hos IH]; intros spq Hwf Hm Hs Hl; [by exists spq|].
    destruct (spq_do_refines spq o Hwf Ho) as (spq1 & Hdo & Hi1 & Hm1 & Hwf1). rewrite Hm in *.
    destruct (IH spq1 Hwf1 Hm1) as (spq' & Hrun & Hi' & Hs' & Hl').
    { rewrite Hi1. by apply spec_do_sorted. }
    { rewrite spq_len_items, Hi1. apply spec_do_bounded. by rewrite <- spq_len_items. }
    exists spq'. simpl. rewrite Hdo. simpl. rewrite Hrun, Hi1. simpl.
    rewrite Hi1 in Hi'. destruct (spec_do max (spq_items spq) o) as [l1 a]. simpl in *.
    destruct (spec_run max l1 os). auto. }
  apply (Hgen (NewSafeEventQueue max)); [by repeat constructor|done|constructor|]. unfold spq_len, SL_Len. simpl. lia.
Qed.

(** However its goroutines interleave, a limited list that starts empty gives its
    elements out in the order they were pushed, and with [n] goroutines that push
    at most [b] elements at once it holds fewer than [maxSize + b * n]. *)
Theorem limited_list_spec {I T} (assert_type : I → option T) (max n b : Z) tr s :
  1 ≤ max → 0 ≤ b → 0 ≤ n →
  lruns assert_type max (mkLstate [] ∅) tr s →
  (∀ g vs, LCheck g vs ∈ tr → Z.of_nat g < n ∧ Z.of_nat (length vs) ≤ b) →
  SL_Len (ls_items s) ≤ max - 1 + b * n ∧
  (LRemoveAll ∉ tr →
   concat (map label_pushed tr) = concat (map label_popped tr) ++ reverse (ls_items s)).
Proof.
  intros Hmax Hb Hn Hr Htr. split.
  - assert (lbounded max n b s) as (Hsz & _ & Hl).
    { eapply lruns_bounded; [done|done| |done|by intros g [? ?]].
      split_and!; simpl; [rewrite map_size_empty; lia|intros g vs Hg; done|].
      rewrite map_size_empty. unfold SL_Len. simpl. lia. }
    nia.
  - intros Hno. by rewrite <- (lruns_fifo _ _ _ _ _ Hr Hno).
Qed.
