(* ===== verification/Http.v ===== *)
(** * HTTP requests: [pkg/poster/post.go]

    Calls from an edge to the center, tried on the addresses of the center one
    after the other from a random one, and JSON posted to a URL with retries.
    The network is a parameter: [http_do] sends a request in a world and gives
    the new world, the request with what is left of its body (which a sent
    request has read), and the response or an error. *)

From S2P Require Import Prelude GoStrings Json.
Open Scope string_scope.
Open Scope Z_scope.
Open Scope list_scope.

Record Request := mkRequest {
  rq_method : string;
  rq_url : string;
  rq_host : string;
  rq_header : list (string * string);
  rq_auth : option (string * string);
  rq_body : string
}.
#[global] Instance Request_eta : Settable Request := λ r,
  mkRequest (rq_method r) (rq_url r) (rq_host r) (rq_header r) (rq_auth r) (rq_body r).

(** The bytes that can be read from the body, and the error reading ends with. *)
Record Response := mkResponse {
  StatusCode : Z;
  rs_body : string;
  rs_error : option error
}.

(** [http.Client]: its time limit in milliseconds, and its transport: the proxies of
    the environment, and a proxy of its own, or none. *)
Record HttpClient := mkHttpClient {
  hc_Timeout : Z;
  hc_proxy : bool;
  hc_SkipVerify : bool;
  hc_ProxyURL : string
}.

(** [NewRequest] fails on a URL that cannot be parsed.  [rand.Intn] gives a
    number below its argument.  [N9E_PROXY_URL] is an environment variable. *)
Class Network (World : Type) := {
  http_url_error : string → option error;
  http_do : HttpClient → World → Request → World * Request * result Response;
  rand_Intn : World → nat → World * nat;
  rand_Intn_lt : ∀ w n, (0 < n)%nat → (snd (rand_Intn w n) < n)%nat;
  N9E_PROXY_URL : string
}.

(** [net/url]: a parsed URL, with the parameters of its query that could be
    parsed, and its text without the query. *)
Record URL := mkURL {
  u_Scheme : string;
  u_Host : string;
  u_Path : string;
  u_Query : gmap string (list string)
}.
Class UrlLib := {
  url_Parse : string → result URL;
  url_String_no_query : URL → string
}.

(** [Values.Get]: the first value, or the empty string. *)
Definition query_Get (u : URL) (k : string) : string :=
  match u_Query u !! k with Some (v :: _) => v | _ => "" end.

(** [%v] of a slice of strings. *)
Definition fmt_strings (l : list string) : string := "[" +:+ join l " " +:+ "]".

Record CenterConf := mkCenterConf {
  cc_Addrs : list string;
  cc_BasicAuthUser : string;
  cc_BasicAuthPass : string;
  cc_Timeout : Z
}.

(** [DataResponse[T]]. *)
Record DataResponse (T : Type) := mkDataResponse { Dat : T; Err_ : string }.
Arguments mkDataResponse {T} Dat Err_.
Arguments Dat {T} d.
Arguments Err_ {T} d.

Section http.
Context {World : Type} `{NW : Network World}.
Implicit Types w : World.

Definition NewRequest (method url body : string) : result Request :=
  match http_url_error url with
  | Some err => Err err
  | None => Ok (mkRequest method url "" [] None body)
  end.

Definition set_header (k v : string) (r : Request) : Request := r <| rq_header := rq_header r ++ [(k, v)] |>.

Definition UseProxy (url : string) : bool :=
  let patterns := N9E_PROXY_URL in
  if negb (String.eqb patterns "") then
    existsb (λ u, let u := trim_space u in negb (String.eqb u "") && contains url u) (split patterns ",")
  else false.

Definition with_auth (cfg : CenterConf) (r : Request) : Request :=
  if (0 <? String.length (cc_BasicAuthUser cfg))%nat
  then r <| rq_auth := Some (cc_BasicAuthUser cfg, cc_BasicAuthPass cfg) |> else r.

Definition center_client (cfg : CenterConf) (url : string) : HttpClient :=
  mkHttpClient (if cc_Timeout cfg <? 1 then 5000 else cc_Timeout cfg) (UseProxy url) false "".

Section typed.
Context {T : Type} (zero : T) `{!Json (DataResponse T)}.

(** What both calls do with the answer of the center. *)
Definition read_response (prefix : string → string) (resp : Response) : T * option error :=
  if negb (StatusCode resp =? 200) then (zero, Some ("unexpected status code: " +:+ itoa (StatusCode resp)))
  else match rs_error resp with
       | Some err => (zero, Some ("failed to read response body: " +:+ err))
       | None =>
           let body := rs_body resp in
           match json_unmarshal body (mkDataResponse zero "") with
           | (_, Some err) => (zero, Some (prefix body +:+ err))
           | (dataResp, None) =>
               if negb (String.eqb (Err_ dataResp) "")
               then (zero, Some ("error from server: " +:+ Err_ dataResp))
               else (Dat dataResp, None)
           end
       end.

Definition GetByUrl (url : string) (cfg : CenterConf) w : World * (T * option error) :=
  match NewRequest "GET" url "" with
  | Err err => (w, (zero, Some ("failed to create request: " +:+ err)))
  | Ok req =>
      match http_do (center_client cfg url) w (with_auth cfg req) with
      | (w, _, Err err) => (w, (zero, Some ("failed to fetch from url: " +:+ err)))
      | (w, _, Ok resp) =>
          (w, read_response (λ body, "failed to decode:" +:+ body +:+ " response: ") resp)
      end
  end.

(** [v] is encoded first. *)
Definition PostByUrl {V} `{!Json V} (url : string) (cfg : CenterConf) (v : V) w : World * (T * option error) :=
  match json_marshal v with
  | Err err => (w, (zero, Some err))
  | Ok bs =>
      match NewRequest "POST" url bs with
      | Err err => (w, (zero, Some ("failed to create request " +:+ url +:+ ": " +:+ err)))
      | Ok req =>
          match http_do (center_client cfg url) w (with_auth cfg (set_header "Content-Type" "application/json" req)) with
          | (w, _, Err err) => (w, (zero, Some ("failed to fetch from url: " +:+ err)))
          | (w, _, Ok resp) => (w, read_response (λ _, "failed to decode response: ") resp)
          end
      end
  end.

(** The loop over the addresses from [idx] on, [n] of them, until one call has
    no error; it keeps the value and the error of the last call. *)
Fixpoint try_addrs (call : string → World → World * (T * option error)) (path : string)
    (addrs : list string) (idx n : nat) w (last : T * option error) : World * (T * option error) :=
  match n with
  | O => (w, last)
  | S n =>
      let url := default "" (addrs !! (idx mod length addrs)%nat) +:+ path in
      match call url w with
      | (w, (dat, None)) => (w, (dat, None))
      | (w, r) => try_addrs call path addrs (S idx) n w r
      end
  end.

(** [GetByUrls]. *)
Definition GetByUrls (cfg : CenterConf) (path : string) w : World * (T * option error) :=
  let addrs := cc_Addrs cfg in
  if (length addrs =? 0)%nat then (w, (zero, Some "no center api addresses configured"))
  else
    let '(w, startIdx) := rand_Intn w (length addrs) in
    match try_addrs (λ url, GetByUrl url cfg) path addrs startIdx (length addrs) w (zero, None) with
    | (w, (dat, None)) => (w, (dat, None))
    | (w, (dat, Some err)) =>
        (w, (dat, Some ("failed to get data from center, path= " +:+ path +:+ ", addrs= "
                        +:+ fmt_strings addrs +:+ " err: " +:+ err)))
    end.

Definition no_center_error {V} (show : V → string) (path : string) (v : V) (addrs : list string) : error :=
  "submission of the POST request from the center has failed, path= " +:+ path +:+ ", v= "
  +:+ show v +:+ ", ctx.CenterApi.Addrs= " +:+ fmt_strings addrs.

Definition PostByUrlsWithResp {V} `{!Json V} (show : V → string) (cfg : CenterConf) (path : string) (v : V) w :
    World * (T * option error) :=
  let addrs := cc_Addrs cfg in
  if (length addrs <? 1)%nat then (w, (zero, Some (no_center_error show path v addrs)))
  else
    let '(w, startIdx) := rand_Intn w (length addrs) in
    match try_addrs (λ url, PostByUrl url cfg v) path addrs startIdx (length addrs) w (zero, None) with
    | (w, (dat, None)) => (w, (dat, None))
    | (w, (dat, Some err)) =>
        (w, (dat, Some ("failed to post data to center, path= " +:+ path +:+ ", addrs= "
                        +:+ fmt_strings addrs +:+ " err: " +:+ err)))
    end.
End typed.

(** The result type is an interface, whose value is dropped. *)
Definition PostByUrls {V} `{!Json V, !Json (DataResponse iface)} (show : V → string) (cfg : CenterConf)
    (path : string) (v : V) w : World * option error :=
  let addrs := cc_Addrs cfg in
  if (length addrs =? 0)%nat then (w, Some (no_center_error show path v addrs))
  else
    let '(w, startIdx) := rand_Intn w (length addrs) in
    match try_addrs (λ url, PostByUrl INil url cfg v) path addrs startIdx (length addrs) w (INil, None) with
    | (w, (_, None)) => (w, None)
    | (w, (_, Some _)) =>
        (w, Some ("failed to post data to center, path= " +:+ path +:+ ", addrs= " +:+ fmt_strings addrs))
    end.

(** The retries of [PostJSON], with the same request each time. *)
Fixpoint do_retries (client : HttpClient) (n : nat) w (req : Request) (last : option (result Response)) :
    World * option (result Response) :=
  match n with
  | O => (w, last)
  | S n =>
      match http_do client w req with
      | (w, _, Ok resp) => (w, Some (Ok resp))
      | (w, req, Err err) => do_retries client n w req (Some (Err err))
      end
  end.

(** With [retries] a positive number, or none given.  No attempt at all would
    leave no response and no error, and reading the status would panic. *)
Definition PostJSON {V} `{!Json V} (url : string) (timeout : Z) (v : V) (retries : option Z) w :
    go (World * (string * Z * option error)) :=
  match json_marshal v with
  | Err err => Ret (w, ("", 0, Some err))
  | Ok bs =>
      match NewRequest "POST" url bs with
      | Err err => Ret (w, ("", 0, Some err))
      | Ok req =>
          let client := mkHttpClient timeout (UseProxy url) false "" in
          let req := set_header "Content-Type" "application/json" req in
          let n := match retries with Some n => Z.to_nat n | None => 1%nat end in
          match do_retries client n w req None with
          | (_, None) => Panic
          | (w, Some (Err err)) => Ret (w, ("", 0, Some err))
          | (w, Some (Ok resp)) =>
              Ret (w, (rs_body resp, StatusCode resp, rs_error resp))
          end
      end
  end.

(** ** What the calls do *)

(** The addresses in the order they are tried. *)
Definition rotated (addrs : list string) (start : nat) : list string := drop start addrs ++ take start addrs.

Lemma rotated_perm addrs start : rotated addrs start ≡ₚ addrs.
Proof. unfold rotated. by rewrite (comm (++)), take_drop. Qed.

Lemma rotated_lookup addrs start i :
  (start < length addrs)%nat → (i < length addrs)%nat →
  rotated addrs start !! i = addrs !! ((start + i) mod length addrs)%nat.
Proof.
  intros Hs Hi. unfold rotated. destruct (decide (start + i < length addrs)%nat) as [Hlt|Hge].
  - rewrite lookup_app_l by (rewrite length_drop; lia). by rewrite lookup_drop, Nat.mod_small.
  - rewrite lookup_app_r by (rewrite length_drop; lia). rewrite length_drop.
    rewrite lookup_take_lt by lia.
    replace (start + i)%nat with (start + i - length addrs + 1 * length addrs)%nat by lia.
    rewrite Nat.Div0.mod_add, Nat.mod_small by lia. f_equal. lia.
Qed.

(** Calls on a list of URLs, one after the other, until one succeeds. *)
Fixpoint first_success {T} (call : string → World → World * (T * option error))
    (urls : list string) w (last : T * option error) : World * (T * option error) :=
  match urls with
  | [] => (w, last)
  | url :: urls => match call url w with
                   | (w, (dat, None)) => (w, (dat, None))
                   | (w, r) => first_success call urls w r
                   end
  end.

Lemma try_addrs_drop {T} (call : string → World → World * (T * option error)) path addrs start n i w last :
  (start < length addrs)%nat → (i + n = length addrs)%nat →
  try_addrs call path addrs (start + i) n w last =
  first_success call (map (λ a, a +:+ path) (drop i (rotated addrs start))) w last.
Proof.
  intros Hs. revert i w last. induction n as [|n IH]; intros i w last Hi.
  - assert (length (rotated addrs start) = length addrs) as Hl by (by rewrite rotated_perm).
    by rewrite drop_ge by lia.
  - assert (is_Some (rotated addrs start !! i)) as [a Ha].
    { apply lookup_lt_is_Some. rewrite rotated_perm. lia. }
    rewrite (drop_S _ a) by done. simpl. rewrite <- rotated_lookup, Ha by lia. simpl.
    destruct (call (a +:+ path) w) as [w' [dat [err|]]]; [|done].
    rewrite <- Nat.add_succ_r. by apply IH; lia.
Qed.
Lemma first_success_ok {T} (call : string → World → World * (T * option error)) url urls w last :
  url ∈ urls → (∀ w, snd (snd (call url w)) = None) → snd (snd (first_success call urls w last)) = None.
Proof.
  intros Hin Hok. revert w last. induction urls as [|u urls IH]; intros w last; [by apply not_elem_of_nil in Hin|].
  simpl. destruct (call u w) as [w' [dat [err|]]] eqn:E; [|done].
  apply elem_of_cons in Hin as [<-|Hin]; [|by apply IH].
  specialize (Hok w). by rewrite E in Hok.
Qed.

(** The loop reaches every address, from wherever it starts. *)
Lemma try_addrs_ok {T} (call : string → World → World * (T * option error)) path addrs addr w last :
  addr ∈ addrs → (∀ w, snd (snd (call (addr +:+ path) w)) = None) →
  let '(w, start) := rand_Intn w (length addrs) in
  snd (snd (try_addrs call path addrs start (length addrs) w last)) = None.
Proof.
  intros Hin Hok. pose proof (rand_Intn_lt w (length addrs)) as Hlt.
  destruct (rand_Intn w (length addrs)) as [w' start].
  assert (start < length addrs)%nat as Hs by (apply Hlt; destruct addrs; [by apply not_elem_of_nil in Hin|simpl; lia]).
  rewrite <- (Nat.add_0_r start), try_addrs_drop by lia. rewrite drop_0.
  apply first_success_ok with (addr +:+ path); [|done].
  apply (list_elem_of_fmap_2 (λ a, a +:+ path)). by rewrite rotated_perm.
Qed.

(** Posting JSON, with at least one attempt, returns. *)

Lemma do_retries_some client n w req last :
  (0 < n)%nat ∨ is_Some last → is_Some (snd (do_retries client n w req last)).
Proof.
  revert w req last. induction n as [|n IH]; intros w req last Hn; simpl; [by destruct Hn as [?%Nat.nlt_0_r|?]|].
  destruct (http_do client w req) as [[w' req'] [resp|err]]; [by eexists|]. apply IH. right. by eexists.
Qed.

Lemma PostJSON_returns {V} `{!Json V} url timeout (v : V) n w :
  0 < n → ∃ r, PostJSON url timeout v (Some n) w = Ret r.
Proof.
  intros Hn. unfold PostJSON. destruct (json_marshal v); [|by eexists].
  destruct (NewRequest _ _ _); [|by eexists].
  edestruct (do_retries_some (mkHttpClient timeout (UseProxy url) false "") (Z.to_nat n) w
    (set_header "Content-Type" "application/json" a0) None) as [r Hr]; [left; lia|].
  destruct (do_retries _ _ _ _ _) as [w' [r'|]]; [|done]. destruct r'; by eexists.
Qed.

(** A URL at which the center answers every request with status 200 and a body
    that decodes to a response without an error. *)
Definition center_answers {T} `{!Json (DataResponse T)} (zero : T) (url : string) : Prop :=
  http_url_error url = None ∧
  ∀ client w req, rq_url req = url →
    ∃ w' req' body d, http_do client w req = (w', req', Ok (mkResponse 200 body None)) ∧
      json_unmarshal body (mkDataResponse zero "") = (mkDataResponse d "", None).

Lemma with_auth_url cfg r : rq_url (with_auth cfg r) = rq_url r.
Proof. unfold with_auth. by case_match. Qed.

Lemma GetByUrl_answered {T} `{!Json (DataResponse T)} (zero : T) url cfg w :
  center_answers zero url → snd (snd (GetByUrl zero url cfg w)) = None.
Proof.
  intros [Hurl Hdo]. unfold GetByUrl, NewRequest. rewrite Hurl.
  edestruct (Hdo (center_client cfg url) w) as (w' & r & body & d & -> & Hj); [apply with_auth_url|].
  unfold read_response. simpl. by rewrite Hj.
Qed.

Lemma PostByUrl_answered {T V} `{!Json (DataResponse T), !Json V} (zero : T) url cfg (v : V) bs w :
  json_marshal v = Ok bs → center_answers zero url → snd (snd (PostByUrl zero url cfg v w)) = None.
Proof.
  intros Hv [Hurl Hdo]. unfold PostByUrl, NewRequest. rewrite Hv, Hurl.
  edestruct (Hdo (center_client cfg url) w) as (w' & r & body & d & -> & Hj); [apply with_auth_url|].
  unfold read_response. simpl. by rewrite Hj.
Qed.

(** An edge reaches the center as long as one of the configured addresses answers:
    whichever address is tried first and whatever the others do, a read and a
    post succeed. *)
Theorem center_failover {T V} `{!Json (DataResponse T), !Json (DataResponse iface), !Json V}
    (zero : T) (show : V → string) cfg path (v : V) bs addr w :
  addr ∈ cc_Addrs cfg → json_marshal v = Ok bs →
  center_answers zero (addr +:+ path) → center_answers INil (addr +:+ path) →
  snd (snd (GetByUrls zero cfg path w)) = None ∧ snd (PostByUrls show cfg path v w) = None.
Proof.
  intros Hin Hv Ht Hi.
  assert ((length (cc_Addrs cfg) =? 0)%nat = false) as Hne.
  { apply Nat.eqb_neq. intros H0%nil_length_inv. rewrite H0 in Hin. by apply not_elem_of_nil in Hin. }
  unfold GetByUrls, PostByUrls. rewrite !Hne. split.
  - pose proof (try_addrs_ok (λ url, GetByUrl zero url cfg) path _ addr w (zero, None) Hin
      (λ w, GetByUrl_answered zero _ cfg w Ht)) as Hok.
    destruct (rand_Intn w _) as [w' start]. by destruct (try_addrs _ _ _ _ _ _ _) as [w2 [dat [err|]]].
  - pose proof (try_addrs_ok (λ url, PostByUrl INil url cfg v) path _ addr w (INil, None) Hin
      (λ w, PostByUrl_answered INil _ cfg v bs w Hv Hi)) as Hok.
    destruct (rand_Intn w _) as [w' start]. by destruct (try_addrs _ _ _ _ _ _ _) as [w2 [dat [err|]]].
Qed.
End http.
