(* ===== verification/Senders.v ===== *)
(** * The senders: [alert/sender]

    The robots a notification is posted to (DingTalk, WeCom, Feishu, Lark,
    Telegram, Mattermost), the records of what was sent and their queue, and the
    e-mail sender.  Everything a sender does is a change of [sstate]: the world
    outside, and the queue of notification records. *)

From S2P Require Import Prelude GoStrings Json Models RuleModels EventOps Http Queues Dispatch.
Open Scope string_scope.
Open Scope Z_scope.
Open Scope list_scope.

(** ** [NotificationRecord] (models/notification_record.go) *)

Definition NotiStatusSuccess : Z := 1.
Definition NotiStatusFailure : Z := 2.

Module NotiRec.
Record NotificationRecord := mkNotificationRecord {
  Id : Z;
  NotifyRuleID : Z;
  EventId : Z;
  SubId : Z;
  Channel : string;
  Status : Z;
  Target : string;
  Details : string;
  CreatedAt : Z
}.
#[global] Instance NotificationRecord_eta : Settable NotificationRecord := λ r,
  mkNotificationRecord (Id r) (NotifyRuleID r) (EventId r) (SubId r) (Channel r) (Status r) (Target r)
    (Details r) (CreatedAt r).
End NotiRec.
Notation NotificationRecord := NotiRec.NotificationRecord.

Definition NewNotificationRecord (event : AlertCurEvent) (notifyRuleID : Z) (channel target : string) :
    NotificationRecord :=
  NotiRec.mkNotificationRecord 0 notifyRuleID (Event.Id event) (Event.SubRuleId event) channel
    NotiStatusSuccess target "" 0.

Definition SetStatus (n : NotificationRecord) (status : Z) : NotificationRecord := n <| NotiRec.Status := status |>.
Definition SetDetails (n : NotificationRecord) (details : string) : NotificationRecord :=
  n <| NotiRec.Details := details |>.

(** The limited list of toolkits that holds the records: it accepts an element
    in front while it holds fewer than its capacity, and gives out the oldest
    elements, oldest first. *)
Class RecordQueueLib := {
  rqueue : Type;
  rq_items : rqueue → list NotificationRecord;
  rq_capacity : rqueue → nat;
  rq_PushFront : rqueue → NotificationRecord → rqueue * bool;
  rq_PopBackBy : rqueue → nat → rqueue * list NotificationRecord;
  rq_PushFront_spec : ∀ q r,
    rq_capacity (fst (rq_PushFront q r)) = rq_capacity q ∧
    snd (rq_PushFront q r) = bool_decide (length (rq_items q) < rq_capacity q)%nat ∧
    rq_items (fst (rq_PushFront q r)) =
      if snd (rq_PushFront q r) then r :: rq_items q else rq_items q;
  rq_PopBackBy_spec : ∀ q n,
    rq_capacity (fst (rq_PopBackBy q n)) = rq_capacity q ∧
    rq_items q = rq_items (fst (rq_PopBackBy q n)) ++ reverse (snd (rq_PopBackBy q n)) ∧
    length (snd (rq_PopBackBy q n)) = Nat.min n (length (rq_items q))
}.

(** [html/template]: a parsed template and its text for an event. *)
Class HtmlTpl := { htpl : Type; htpl_execute : htpl → AlertCurEvent → result string }.

(** gjson on the contacts of a user: whether the key is there. *)
Class ContactsExist := { contact_exists : string → string → bool }.

(** ** The bodies that are posted *)

Record dingtalk := mkDingtalk { dt_Title : string; dt_Text : string; dt_AtMobiles : list string }.

Record card := mkCard { cd_Title : string; cd_Template : string; cd_Message : string; cd_Note : string }.

(** [feishu] is also the body for Lark; a [card] is [createFeishuCardBody] with
    the four fields the senders fill in. *)
Inductive robot_body :=
| BDingtalk (b : dingtalk)
| BWecom (Content : string)
| BFeishu (Text : string) (AtMobiles : list string)
| BCard (c : card)
| BTelegram (ParseMode Text : string)
| BMm (Channel Username Text : string)
| BEvent (event : AlertCurEvent).

Record center_ctx := mkCenterCtx { cx_IsCenter : bool; cx_conf : CenterConf }.

Section senders.
Context {World : Type} `{NW : Network World, RQ : RecordQueueLib, HT : HtmlTpl}.
Context `{CL : ContactsLib, CE : ContactsExist, UC : UnicodeCase, UL : UrlLib}.
Context `{!Json robot_body, !Json (list NotificationRecord), !Json (DataResponse iface)}.
Context (show_records : list NotificationRecord → string) (cx : center_ctx).

(** The text that starts the details of a record: how long the call took. *)
Context (took : World → string).

Record sstate := mkSstate { ss_world : World; ss_records : rqueue }.
#[global] Instance sstate_eta : Settable sstate := λ r, mkSstate (ss_world r) (ss_records r).
Implicit Types s : sstate.

(** ** Records *)

Fixpoint PushNotifyRecords (q : rqueue) (records : list NotificationRecord) : rqueue * option error :=
  match records with
  | [] => (q, None)
  | record :: records =>
      let '(q, ok) := rq_PushFront q record in
      if negb ok then (q, Some "notify record queue is full") else PushNotifyRecords q records
  end.

(** One turn of [LoopConsume]: what is taken out and handed to [CreateInBatches],
    in one call when there is something. *)
Definition LoopConsume_turn (q : rqueue) : rqueue * option (list NotificationRecord) :=
  let '(q, notis) := rq_PopBackBy q 100 in
  (q, if (length notis =? 0)%nat then None else Some notis).

Definition make_record (notifyRuleID : Z) (channel target res : string) (err : option error)
    (evt : AlertCurEvent) : NotificationRecord :=
  let noti := NewNotificationRecord evt notifyRuleID channel target in
  match err with
  | Some e => SetDetails (SetStatus noti NotiStatusFailure) e
  | None => if negb (String.eqb res "") then SetDetails noti res else noti
  end.

(** An edge posts its records to the center; a failure is only logged. *)
Definition NotifyRecord (evts : list AlertCurEvent) (notifyRuleID : Z) (channel target res : string)
    (err : option error) s : sstate :=
  let notis := map (make_record notifyRuleID channel target res err) evts in
  if negb (cx_IsCenter cx) then
    s <| ss_world := fst (PostByUrls show_records (cx_conf cx) "/v1/n9e/notify-record" notis (ss_world s)) |>
  else s <| ss_records := fst (PushNotifyRecords (ss_records s) notis) |>.

(** ** Posting *)

Definition doSend (url : string) (body : robot_body) s : go (sstate * (string * option error)) :=
  '(w, (res, code, err)) ← PostJSON url 5000 body (Some 3) (ss_world s);
  let res := "duration: " +:+ took w +:+ " ms status_code:" +:+ itoa code +:+ ", response:" +:+ res in
  Ret (s <| ss_world := w |>, (res, err)).

Definition doSendAndRecord (url token : string) (body : robot_body) (channel : string)
    (events : list AlertCurEvent) s : go sstate :=
  '(s, (res, err)) ← doSend url body s;
  Ret (NotifyRecord events 0 channel token res err s).

(** ** Messages *)

Fixpoint render_events (t : htpl) (events : list AlertCurEvent) (content : string) : string :=
  match events with
  | [] => content
  | event :: events =>
      match htpl_execute t event with
      | Err e => e
      | Ok body => render_events t events (content +:+ body +:+ "

")
      end
  end.

Definition buildTplMessage (t : option htpl) (events : list AlertCurEvent) : string :=
  match t with
  | None => "tpl for current sender not found, please check configuration"
  | Some t => render_events t events ""
  end.

(** The token of a user for a channel, and whether there is one. *)
Definition ExtractToken_has (u : User) (key : string) : string * bool :=
  (ExtractToken u key,
   match key with
   | "email" => negb (String.eqb (Usr.Email u) "")
   | "phone" => negb (String.eqb (Usr.Phone u) "")
   | _ => contact_exists (Usr.Contacts u) (contact_key key)
   end).

Definition is_http (s : string) : bool := has_prefix s "https://" || has_prefix s "http://".

Definition token_url (base token : string) : string := if negb (is_http token) then base +:+ token else token.

(** The tokens of the users that have one, with the URL of each. *)
Fixpoint token_urls (key : string) (url : string → string) (users : list User) : list string * list string :=
  match users with
  | [] => ([], [])
  | user :: users =>
      let '(urls, tokens) := token_urls key url users in
      match ExtractToken_has user key with
      | (token, true) => (url token :: urls, token :: tokens)
      | (_, false) => (urls, tokens)
      end
  end.

(** [for i, url := range urls] with [tokens[i]]. *)
Fixpoint each_url (i : nat) (urls tokens : list string) (f : string → string → sstate → go sstate) s : go sstate :=
  match urls with
  | [] => Ret s
  | url :: urls =>
      token ← go_index tokens i;
      s ← f url token s;
      each_url (S i) urls tokens f s
  end.

(** [MessageContext], [CallBackContext]: what the senders read of them. *)
Record MessageContext := mkMessageContext { mc_Users : list User; mc_Events : list AlertCurEvent }.
Record CallBackContext := mkCallBackContext {
  cb_URL : string;
  cb_Users : list User;
  cb_Events : list AlertCurEvent;
  cb_BatchSend : bool
}.

Definition no_message (ctx : MessageContext) : bool :=
  (length (mc_Users ctx) =? 0)%nat || (length (mc_Events ctx) =? 0)%nat.
Definition no_callback (ctx : CallBackContext) : bool :=
  (length (cb_Events ctx) =? 0)%nat || (String.length (cb_URL ctx) =? 0)%nat.

(** A callback posts its body to the URL of the callback. *)
Definition post_callback (ctx : CallBackContext) (body : robot_body) s : go sstate :=
  doSendAndRecord (cb_URL ctx) (cb_URL ctx) body "callback" (cb_Events ctx) s.

(** ** DingTalk *)

Definition phones (f : string → string) (users : list User) : list string :=
  omap (λ u, if negb (String.eqb (Usr.Phone u) "") then Some (f (Usr.Phone u)) else None) users.

Definition dingtalk_extract (users : list User) : list string * list string * list string :=
  let '(urls, tokens) :=
    token_urls "dingtalk" (token_url "https://oapi.dingtalk.com/robot/send?access_token=") users in
  (urls, phones (λ p, "@" +:+ p) users, tokens).

Definition dingtalk_Send (tpl : option htpl) (ctx : MessageContext) s : go sstate :=
  if no_message ctx then Ret s
  else
    let '(urls, ats, tokens) := dingtalk_extract (mc_Users ctx) in
    if (length urls =? 0)%nat then Ret s
    else
      let message := buildTplMessage tpl (mc_Events ctx) in
      ev ← go_index (mc_Events ctx) 0;
      each_url 0 urls tokens (λ url token,
        let body :=
          if contains url "noat=1" then BDingtalk (mkDingtalk (Event.RuleName ev) message [])
          else BDingtalk (mkDingtalk (Event.RuleName ev) (message +:+ "
" +:+ join ats " ") ats) in
        doSendAndRecord url token body "dingtalk" (mc_Events ctx)) s.

Definition ExtractAtsParams (rawURL : string) : list string :=
  match url_Parse rawURL with
  | Err _ => []
  | Ok u => let atParam := query_Get u "ats" in
            if String.eqb atParam "" then [] else split atParam ","
  end.

Definition dingtalk_CallBack (tpl : option htpl) (ctx : CallBackContext) s : go sstate :=
  if no_callback ctx then Ret s
  else
    ev ← go_index (cb_Events ctx) 0;
    let ats := ExtractAtsParams (cb_URL ctx) in
    let message := buildTplMessage tpl (cb_Events ctx) in
    let body := if (0 <? length ats)%nat
                then mkDingtalk (Event.RuleName ev) (message +:+ "
@" +:+ join ats "@") ats
                else mkDingtalk (Event.RuleName ev) message [] in
    post_callback ctx (BDingtalk body) s.

(** ** WeCom *)

Definition wecom_extract (users : list User) : list string * list string :=
  token_urls "wecom" (token_url "https://qyapi.weixin.qq.com/cgi-bin/webhook/send?key=") users.

Definition wecom_CallBack (tpl : option htpl) (ctx : CallBackContext) s : go sstate :=
  if no_callback ctx then Ret s
  else post_callback ctx (BWecom (buildTplMessage tpl (cb_Events ctx))) s.

Definition wecom_Send (tpl : option htpl) (ctx : MessageContext) s : go sstate :=
  if no_message ctx then Ret s
  else
    let '(urls, tokens) := wecom_extract (mc_Users ctx) in
    let message := buildTplMessage tpl (mc_Events ctx) in
    each_url 0 urls tokens (λ url token,
      doSendAndRecord url token (BWecom message) "wecom" (mc_Events ctx)) s.

(** ** Feishu *)

Definition quote : string := String (Ascii.ascii_of_nat 34) "".

Definition feishu_extract (users : list User) : list string * list string * list string :=
  let '(urls, tokens) :=
    token_urls "feishu" (token_url "https://open.feishu.cn/open-apis/bot/v2/hook/") users in
  (urls, phones (λ p, p) users, tokens).

Definition feishu_CallBack (tpl : option htpl) (ctx : CallBackContext) s : go sstate :=
  if no_callback ctx then Ret s
  else
    let ats := ExtractAtsParams (cb_URL ctx) in
    let message := buildTplMessage tpl (cb_Events ctx) in
    let message :=
      if (0 <? length ats)%nat
      then String.concat "" (map (λ at_, "<at user_id=" +:+ quote +:+ at_ +:+ quote +:+ "></at> ") ats) +:+ message
      else message in
    post_callback ctx (BFeishu message []) s.

Definition feishu_Send (tpl : option htpl) (ctx : MessageContext) s : go sstate :=
  if no_message ctx then Ret s
  else
    let '(urls, ats, tokens) := feishu_extract (mc_Users ctx) in
    let message := buildTplMessage tpl (mc_Events ctx) in
    each_url 0 urls tokens (λ url token,
      doSendAndRecord url token (BFeishu message (if negb (contains url "noat=1") then ats else []))
        "feishu" (mc_Events ctx)) s.

(** ** Cards for Feishu and Lark *)

Definition card_color (message : string) : string :=
  let lowerUnicode := to_lower message in
  if (0 <? count_sub lowerUnicode "recovered")%nat && (0 <? count_sub lowerUnicode "triggered")%nat then "orange"
  else if (0 <? count_sub lowerUnicode "recovered")%nat then "green"
  else "red".

Definition card_body (ev : AlertCurEvent) (message : string) : robot_body :=
  let SendTitle := "🔔 " +:+ Event.RuleName ev in
  BCard (mkCard SendTitle (card_color message) message SendTitle).

Definition card_ats (ats : list string) : string :=
  String.concat "" (map (λ at_, "<at " +:+ (if contains at_ "@" then "email" else "id") +:+ "=" +:+ quote +:+ at_
                                +:+ quote +:+ " ></at>") ats).

(** The message of a callback with a card. *)
Definition card_message (tpl : option htpl) (ctx : CallBackContext) : string :=
  let ats := ExtractAtsParams (cb_URL ctx) in
  let message := buildTplMessage tpl (cb_Events ctx) in
  if (0 <? length ats)%nat then card_ats ats +:+ message else message.

Definition feishucard_CallBack (tpl : option htpl) (ctx : CallBackContext) s : go sstate :=
  if no_callback ctx then Ret s
  else
    ev ← go_index (cb_Events ctx) 0;
    let body := card_body ev (card_message tpl ctx) in
    match url_Parse (cb_URL ctx) with
    | Err _ => Ret s
    | Ok u => let url := url_String_no_query u in
              doSendAndRecord url url body "callback" (cb_Events ctx) s
    end.

(** The URL without its query is computed here too, and not used. *)
Definition larkcard_CallBack (tpl : option htpl) (ctx : CallBackContext) s : go sstate :=
  if no_callback ctx then Ret s
  else
    ev ← go_index (cb_Events ctx) 0;
    let body := card_body ev (card_message tpl ctx) in
    match url_Parse (cb_URL ctx) with
    | Err _ => Ret s
    | Ok _ => post_callback ctx body s
    end.

Definition card_Send (extract : list User → list string * list string) (channel : string)
    (tpl : option htpl) (ctx : MessageContext) s : go sstate :=
  if no_message ctx then Ret s
  else
    let '(urls, tokens) := extract (mc_Users ctx) in
    let message := buildTplMessage tpl (mc_Events ctx) in
    ev ← go_index (mc_Events ctx) 0;
    each_url 0 urls tokens (λ url token,
      doSendAndRecord url token (card_body ev message) channel (mc_Events ctx)) s.

Definition card_url (base token : string) : string :=
  if negb (is_http token) then base +:+ trim_space token else token.

Definition feishucard_extract (users : list User) : list string * list string :=
  token_urls "feishucard" (card_url "https://open.feishu.cn/open-apis/bot/v2/hook/") users.
Definition feishucard_Send := card_Send feishucard_extract "feishucard".

Definition larkcard_extract (users : list User) : list string * list string :=
  token_urls "lark" (card_url "https://open.larksuite.com/open-apis/bot/v2/hook/") users.
Definition larkcard_Send := card_Send larkcard_extract "larkcard".

(** ** Lark *)

Definition lark_extract (users : list User) : list string * list string :=
  token_urls "lark" (token_url "https://open.larksuite.com/open-apis/bot/v2/hook/") users.

Definition lark_CallBack (tpl : option htpl) (ctx : CallBackContext) s : go sstate :=
  if no_callback ctx then Ret s
  else post_callback ctx (BFeishu (buildTplMessage tpl (cb_Events ctx)) []) s.

Definition lark_Send (tpl : option htpl) (ctx : MessageContext) s : go sstate :=
  if no_message ctx then Ret s
  else
    let '(urls, tokens) := lark_extract (mc_Users ctx) in
    let message := buildTplMessage tpl (mc_Events ctx) in
    each_url 0 urls tokens (λ url token,
      doSendAndRecord url token (BFeishu message []) "lark" (mc_Events ctx)) s.

(** ** Telegram *)

Definition telegram_extract (users : list User) : list string := snd (token_urls "telegram" (λ t, t) users).

(** Where a token is posted; an invalid token is recorded only when it has no
    slash. *)
Definition telegram_token (text : string) (events : list AlertCurEvent) (channel token : string) s : go sstate :=
  if negb (contains token "/") && negb (has_prefix token "https://") then
    Ret (NotifyRecord events 0 channel token "" (Some "invalid token") s)
  else
    let post url := doSendAndRecord url token (BTelegram "markdown" text) channel events s in
    if is_http token then post token
    else match split token "/" with
         | [botToken; chatId] =>
             post ("https://api.telegram.org/bot" +:+ botToken +:+ "/sendMessage?chat_id=" +:+ chatId)
         | _ => Ret s
         end.

Fixpoint SendTelegram (text : string) (tokens : list string) (events : list AlertCurEvent) (channel : string) s :
    go sstate :=
  match tokens with
  | [] => Ret s
  | token :: tokens =>
      s ← telegram_token text events channel token s;
      SendTelegram text tokens events channel s
  end.

Definition telegram_CallBack (tpl : option htpl) (ctx : CallBackContext) s : go sstate :=
  if no_callback ctx then Ret s
  else SendTelegram (buildTplMessage tpl (cb_Events ctx)) [cb_URL ctx] (cb_Events ctx) "callback" s.

Definition telegram_Send (tpl : option htpl) (ctx : MessageContext) s : go sstate :=
  if no_message ctx then Ret s
  else SendTelegram (buildTplMessage tpl (mc_Events ctx)) (telegram_extract (mc_Users ctx)) (mc_Events ctx)
         "telegram" s.

(** ** Mattermost *)

Definition mm_extract (users : list User) : list string := snd (token_urls "mm" (λ t, t) users).

(** Recorded under the channel of Mattermost, which shadows the argument. *)
Fixpoint mm_channels (ur token username text : string) (channels : list string) (events : list AlertCurEvent) s :
    go sstate :=
  match channels with
  | [] => Ret s
  | channel :: channels =>
      s ← doSendAndRecord ur token (BMm channel username text) channel events s;
      mm_channels ur token username text channels events s
  end.

Fixpoint SendMM (text : string) (tokens : list string) (events : list AlertCurEvent) (channel : string) s :
    go sstate :=
  match tokens with
  | [] => Ret s
  | token :: tokens =>
      s ← match url_Parse token with
          | Err err => Ret (NotifyRecord events 0 channel token "" (Some err) s)
          | Ok u =>
              let atuser := default [] (u_Query u !! "atuser") in
              let txt := if (length atuser =? 0)%nat then ""
                         else join (map (λ a, "@" +:+ a) atuser) "," +:+ "
" in
              let ur := u_Scheme u +:+ "://" +:+ u_Host u +:+ u_Path u in
              mm_channels ur token (query_Get u "username") (txt +:+ text) (default [] (u_Query u !! "channel"))
                events s
          end;
      SendMM text tokens events channel s
  end.

Definition mm_Send (tpl : option htpl) (ctx : MessageContext) s : go sstate :=
  if no_message ctx then Ret s
  else
    let urls := mm_extract (mc_Users ctx) in
    if (length urls =? 0)%nat then Ret s
    else SendMM (buildTplMessage tpl (mc_Events ctx)) urls (mc_Events ctx) "mm" s.

Definition mm_CallBack (tpl : option htpl) (ctx : CallBackContext) s : go sstate :=
  if no_callback ctx then Ret s
  else SendMM (buildTplMessage tpl (cb_Events ctx)) [cb_URL ctx] (cb_Events ctx) "callback" s.

(** ** E-mail *)

Record email_message := mkEmailMessage {
  em_From : string;
  em_To : list string;
  em_Subject : string;
  em_Body : string
}.

Definition email_extract (users : list User) : list string :=
  omap (λ u, if negb (String.eqb (Usr.Email u) "") then Some (Usr.Email u) else None) users.

(** What is put into the channel of mails. *)
Definition email_Send (subjectTpl contentTpl : option htpl) (from : string) (ctx : MessageContext) :
    go (option (list AlertCurEvent * email_message)) :=
  if no_message ctx then Ret None
  else
    ev ← go_index (mc_Events ctx) 0;
    let tos := email_extract (mc_Users ctx) in
    let subject := match subjectTpl with
                   | Some t => buildTplMessage (Some t) [ev]
                   | None => Event.RuleName ev
                   end in
    Ret (Some (mc_Events ctx, mkEmailMessage from tos subject (buildTplMessage contentTpl (mc_Events ctx)))).

(** *** The goroutine that sends the mails

    [smtp_dial] is the loop of [dialSmtp]: [false] when the signal to quit comes
    before a connection is made.  [smtp_send] is one call of [gomail.Send]. *)
Context (smtp_dial : World → World * bool) (smtp_send : World → email_message → World * option error)
  (smtp_close : World → World).

Record mail_state := mkMailState {
  ml_ch : list (list AlertCurEvent * email_message);
  ml_open : bool;
  ml_size : Z;
  ml_running : bool;
  ml_s : sstate
}.
#[global] Instance mail_state_eta : Settable mail_state := λ r,
  mkMailState (ml_ch r) (ml_open r) (ml_size r) (ml_running r) (ml_s r).
Implicit Types m : mail_state.

Inductive mail_input := MQuit | MMail | MTimeout.

Definition ml_act m (f : World → World) : mail_state :=
  m <| ml_s := (ml_s m) <| ss_world := f (ss_world (ml_s m)) |> |>.

(** One record for each recipient. *)
Definition record_mail (events : list AlertCurEvent) (mail : email_message) (err : option error) s : sstate :=
  foldl (λ s to, NotifyRecord events 0 "email" to (match err with None => "ok" | Some _ => "" end) err s) s
    (em_To mail).

(** The mail goes back into the channel when no connection can be made. *)
Definition put_back m (item : list AlertCurEvent * email_message) : mail_state :=
  m <| ml_ch := ml_ch m ++ [item] |> <| ml_running := false |>.

Definition mail_sent (batch : Z) (item : list AlertCurEvent * email_message) (err : option error) m : mail_state :=
  let m := m <| ml_s := record_mail (fst item) (snd item) err (ml_s m) |> <| ml_size := ml_size m + 1 |> in
  if batch <=? ml_size m
  then (ml_act m smtp_close) <| ml_open := false |> <| ml_size := 0 |>
  else m.

(** A mail taken from the channel: dialing when there is no connection, and one
    retry on a new connection. *)
Definition mail_send (batch : Z) (item : list AlertCurEvent * email_message) m : mail_state :=
  let '(m, ok) := if negb (ml_open m) then
                    let '(w, ok) := smtp_dial (ss_world (ml_s m)) in
                    let m := ml_act m (λ _, w) in
                    (if ok then m <| ml_open := true |> else m, ok)
                  else (m, true) in
  if negb ok then put_back m item
  else
    match smtp_send (ss_world (ml_s m)) (snd item) with
    | (w, None) => mail_sent batch item None (ml_act m (λ _, w))
    | (w, Some _) =>
        let '(w, ok) := smtp_dial (smtp_close w) in
        let m := ml_act m (λ _, w) in
        if negb ok then put_back m item
        else
          let m := m <| ml_open := true |> in
          let '(w, err) := smtp_send (ss_world (ml_s m)) (snd item) in
          mail_sent batch item err (ml_act m (λ _, w))
    end.

(** One turn of the loop of [startEmailSender]. *)
Definition startEmailSender_turn (batch : Z) (i : mail_input) m : mail_state :=
  match i, ml_ch m with
  | MQuit, _ => m <| ml_running := false |>
  | MMail, item :: rest => mail_send batch item (m <| ml_ch := rest |>)
  | MMail, [] => m
  | MTimeout, _ => if ml_open m then (ml_act m smtp_close) <| ml_open := false |> else m
  end.

(** ** [NewSender] *)

Inductive Sender :=
| DingtalkSender (tpl : option htpl)
| WecomSender (tpl : option htpl)
| FeishuSender (tpl : option htpl)
| FeishuCardSender (tpl : option htpl)
| EmailSender (subjectTpl contentTpl : option htpl) (from : string)
| MmSender (tpl : option htpl)
| TelegramSender (tpl : option htpl)
| LarkSender (tpl : option htpl)
| LarkCardSender (tpl : option htpl).

(** [smtp[0]] panics when no configuration is given. *)
Definition NewSender (key : string) (tpls : gmap string htpl) (smtp : list string) : go (option Sender) :=
  match key with
  | "dingtalk" => Ret (Some (DingtalkSender (tpls !! "dingtalk")))
  | "wecom" => Ret (Some (WecomSender (tpls !! "wecom")))
  | "feishu" => Ret (Some (FeishuSender (tpls !! "feishu")))
  | "feishucard" => Ret (Some (FeishuCardSender (tpls !! "feishucard")))
  | "email" => from ← go_index smtp 0; Ret (Some (EmailSender (tpls !! "mailsubject") (tpls !! "email") from))
  | "mm" => Ret (Some (MmSender (tpls !! "mm")))
  | "telegram" => Ret (Some (TelegramSender (tpls !! "telegram")))
  | "lark" => Ret (Some (LarkSender (tpls !! "lark")))
  | "larkcard" => Ret (Some (LarkCardSender (tpls !! "larkcard")))
  | _ => Ret None
  end.

(** [Sender.Send]; a mail goes to the channel of mails, here the list of mails
    that wait. *)
Definition Sender_Send (snd_ : Sender) (ctx : MessageContext) s
    (mailch : list (list AlertCurEvent * email_message)) :
    go (sstate * list (list AlertCurEvent * email_message)) :=
  let robot (act : go sstate) := s ← act; Ret (s, mailch) in
  match snd_ with
  | DingtalkSender tpl => robot (dingtalk_Send tpl ctx s)
  | WecomSender tpl => robot (wecom_Send tpl ctx s)
  | FeishuSender tpl => robot (feishu_Send tpl ctx s)
  | FeishuCardSender tpl => robot (feishucard_Send tpl ctx s)
  | EmailSender subj content from =>
      m ← email_Send subj content from ctx;
      Ret (s, match m with Some m => mailch ++ [m] | None => mailch end)
  | MmSender tpl => robot (mm_Send tpl ctx s)
  | TelegramSender tpl => robot (telegram_Send tpl ctx s)
  | LarkSender tpl => robot (lark_Send tpl ctx s)
  | LarkCardSender tpl => robot (larkcard_Send tpl ctx s)
  end.

(** ** What the senders leave behind *)

(** The part of a record that says what it is about. *)
Definition record_key (r : NotificationRecord) : string * string * Z :=
  (NotiRec.Channel r, NotiRec.Target r, NotiRec.EventId r).

Lemma PushNotifyRecords_spec q rs :
  let n := (rq_capacity q - length (rq_items q))%nat in
  rq_items (fst (PushNotifyRecords q rs)) = reverse (take n rs) ++ rq_items q ∧
  rq_capacity (fst (PushNotifyRecords q rs)) = rq_capacity q ∧
  (snd (PushNotifyRecords q rs) = None ↔ (length rs ≤ n)%nat).
Proof.
  revert q. induction rs as [|r rs IH]; intros q; simpl.
  { rewrite take_nil. split_and!; [done..|]. split; [lia|done]. }
  destruct (rq_PushFront_spec q r) as (Hc & Hok & Hi).
  destruct (rq_PushFront q r) as [q1 ok]. simpl in *. subst ok.
  case_bool_decide as Hlt; simpl.
  - destruct (IH q1) as (Hi1 & Hc1 & He). rewrite Hi1, Hc1, Hc in *. rewrite Hi in *. simpl in *.
    replace (rq_capacity q - length (rq_items q))%nat
      with (S (rq_capacity q - S (length (rq_items q)))) by lia. simpl.
    rewrite reverse_cons, <- (assoc_L (++)). split_and!; [done..|]. rewrite He. lia.
  - rewrite Hi, Hc. replace (rq_capacity q - length (rq_items q))%nat with 0%nat by lia.
    split_and!; [done..|]. split; [done|lia].
Qed.

Lemma make_record_key id channel target res err e :
  record_key (make_record id channel target res err e) = (channel, target, Event.Id e).
Proof. unfold make_record, record_key. destruct err as [err|]; [done|]. by case_match. Qed.

(** [s'] is [s] after pushing records with these keys. *)
Definition recorded s s' (keys : list (string * string * Z)) : Prop :=
  ∃ rs, map record_key rs = keys ∧ rq_items (ss_records s') = reverse rs ++ rq_items (ss_records s) ∧
        rq_capacity (ss_records s') = rq_capacity (ss_records s).

Definition room s (n : nat) : Prop :=
  (length (rq_items (ss_records s)) + n ≤ rq_capacity (ss_records s))%nat.

Lemma recorded_refl s : recorded s s [].
Proof. exists []. by rewrite reverse_nil. Qed.

Lemma recorded_trans s1 s2 s3 k1 k2 :
  recorded s1 s2 k1 → recorded s2 s3 k2 → recorded s1 s3 (k1 ++ k2).
Proof.
  intros (r1 & <- & H1 & C1) (r2 & <- & H2 & C2). exists (r1 ++ r2).
  by rewrite map_app, H2, H1, reverse_app, <- (assoc_L (++)), C2, C1.
Qed.

Lemma recorded_room s s' keys n : recorded s s' keys → room s (length keys + n) → room s' n.
Proof.
  intros (rs & <- & Hi & Hc). unfold room. rewrite Hi, Hc, length_app, length_reverse, length_map. lia.
Qed.

Definition event_keys (channel target : string) (events : list AlertCurEvent) : list (string * string * Z) :=
  map (λ e, (channel, target, Event.Id e)) events.

Lemma NotifyRecord_recorded events id channel target res err s :
  cx_IsCenter cx = true → room s (length events) →
  recorded s (NotifyRecord events id channel target res err s) (event_keys channel target events).
Proof.
  intros Hc Hroom. unfold NotifyRecord. rewrite Hc. simpl.
  set (rs := map _ events).
  destruct (PushNotifyRecords_spec (ss_records s) rs) as (Hi & Hcap & _).
  exists rs. split_and!.
  - unfold rs, event_keys. rewrite map_map. apply map_ext. intros. apply make_record_key.
  - rewrite take_ge in Hi; [exact Hi|]. unfold rs, room in *. rewrite length_map. lia.
  - exact Hcap.
Qed.

Lemma doSendAndRecord_recorded url token body channel events s :
  cx_IsCenter cx = true → room s (length events) →
  ∃ s', doSendAndRecord url token body channel events s = Ret s' ∧
        recorded s s' (event_keys channel token events).
Proof.
  intros Hc Hroom. unfold doSendAndRecord, doSend.
  destruct (PostJSON_returns url 5000 body 3 (ss_world s)) as [[w [[res code] err]] Hp]; [lia|].
  rewrite Hp. simpl. eexists. split; [done|].
  assert (recorded s (s <| ss_world := w |>) []) as Hw by (exists []; by rewrite reverse_nil).
  refine (recorded_trans _ _ _ [] _ Hw _). by apply NotifyRecord_recorded.
Qed.

Lemma each_url_recorded i urls tokens channel events f s :
  (∀ url token s, room s (length events) →
     ∃ s', f url token s = Ret s' ∧ recorded s s' (event_keys channel token events)) →
  length urls = length (drop i tokens) → room s (length (drop i tokens) * length events) →
  ∃ s', each_url i urls tokens f s = Ret s' ∧
        recorded s s' (concat (map (λ t, event_keys channel t events) (drop i tokens))).
Proof.
  intros Hf. revert i s. induction urls as [|url urls IH]; intros i s Hlen Hroom; simpl.
  - destruct (drop i tokens); [|done]. exists s. split; [done|]. apply recorded_refl.
  - destruct (drop i tokens) as [|t ts] eqn:Hd; [done|]. simpl in Hlen.
    assert (tokens !! i = Some t) as Ht.
    { by rewrite <- (Nat.add_0_r i), <- lookup_drop, Hd. }
    assert (drop (S i) tokens = ts) as Hd'.
    { rewrite (drop_S _ _ _ Ht) in Hd. by simplify_eq. }
    unfold go_index. rewrite Ht. simpl in *.
    destruct (Hf url t s) as (s1 & -> & H1). { unfold room in *. lia. }
    simpl. destruct (IH (S i) s1) as (s' & Hs' & H2).
    { rewrite Hd'. lia. }
    { eapply recorded_room; [exact H1|]. unfold event_keys. rewrite length_map, Hd'.
      unfold room in *. lia. }
    exists s'. split; [done|]. rewrite Hd' in H2. by eapply recorded_trans.
Qed.

(** The tokens of the users that have one for the key. *)
Definition user_tokens (key : string) (users : list User) : list string :=
  omap (λ u, match ExtractToken_has u key with (t, true) => Some t | _ => None end) users.

Lemma token_urls_spec key url users :
  token_urls key url users = (map url (user_tokens key users), user_tokens key users).
Proof.
  induction users as [|u users IH]; [done|]. cbn [token_urls]. rewrite IH.
  unfold user_tokens. cbn [omap list_omap]. by destruct (ExtractToken_has u key) as [t []].
Qed.

(** The channel a robot records, and the key of its tokens. *)
Definition robot_channel (snd_ : Sender) : option (string * string) :=
  match snd_ with
  | DingtalkSender _ => Some ("dingtalk", "dingtalk")
  | WecomSender _ => Some ("wecom", "wecom")
  | FeishuSender _ => Some ("feishu", "feishu")
  | FeishuCardSender _ => Some ("feishucard", "feishucard")
  | LarkSender _ => Some ("lark", "lark")
  | LarkCardSender _ => Some ("larkcard", "lark")
  | _ => None
  end.

Lemma each_token_recorded channel (urls tokens : list string) events (body : string → string → robot_body) s :
  cx_IsCenter cx = true → length urls = length tokens → room s (length tokens * length events) →
  ∃ s', each_url 0 urls tokens (λ url token, doSendAndRecord url token (body url token) channel events) s = Ret s' ∧
        recorded s s' (concat (map (λ t, event_keys channel t events) tokens)).
Proof.
  intros Hc Hlen Hroom.
  destruct (each_url_recorded 0 urls tokens channel events
    (λ url token, doSendAndRecord url token (body url token) channel events) s) as (s' & ? & ?);
    [by intros; apply doSendAndRecord_recorded|done..|]. by exists s'.
Qed.

(** *** Mails *)

Lemma record_mail_recorded events mail err s :
  cx_IsCenter cx = true → room s (length (em_To mail) * length events) →
  recorded s (record_mail events mail err s) (concat (map (λ to, event_keys "email" to events) (em_To mail))).
Proof.
  intros Hc. unfold record_mail. revert s. induction (em_To mail) as [|to tos IH]; intros s Hroom; simpl.
  { apply recorded_refl. }
  assert (recorded s (NotifyRecord events 0 "email" to (match err with None => "ok" | Some _ => "" end) err s)
            (event_keys "email" to events)) as H1.
  { apply NotifyRecord_recorded; [done|]. unfold room in *. simpl in Hroom. lia. }
  eapply recorded_trans; [exact H1|]. apply IH. eapply recorded_room; [exact H1|].
  unfold event_keys. rewrite length_map. unfold room in *. simpl in Hroom. lia.
Qed.

(** What one turn does to the mail it takes: it is back in the channel, or every
    recipient has a record. *)
Definition mail_done m m' (item : list AlertCurEvent * email_message) : Prop :=
  (ml_running m' = false ∧ ml_ch m' = ml_ch m ++ [item] ∧ recorded (ml_s m) (ml_s m') []) ∨
  (ml_running m' = ml_running m ∧ ml_ch m' = ml_ch m ∧
   recorded (ml_s m) (ml_s m')
     (concat (map (λ to, event_keys "email" to (fst item)) (em_To (snd item))))).

Lemma recorded_world s (f : World → World) : recorded s (s <| ss_world := f (ss_world s) |>) [].
Proof. exists []. by rewrite reverse_nil. Qed.

Lemma mail_sent_done batch item err m :
  cx_IsCenter cx = true → room (ml_s m) (length (em_To (snd item)) * length (fst item)) →
  mail_done m (mail_sent batch item err m) item.
Proof.
  intros Hc Hroom. right.
  pose proof (record_mail_recorded (fst item) (snd item) err (ml_s m) Hc Hroom) as Hr.
  unfold mail_sent. case_match; [|done]. split_and!; [done..|].
  rewrite <- (app_nil_r (concat _)). exact (recorded_trans _ _ _ _ _ Hr (recorded_world _ _)).
Qed.

Lemma mail_done_act m f m' item :
  mail_done (ml_act m f) m' item → mail_done m m' item.
Proof.
  pose proof (recorded_world (ml_s m) f) as Hw.
  intros [(? & ? & Hr)|(? & ? & Hr)]; [left|right]; (split_and!; [done..|]);
    exact (recorded_trans _ _ _ _ _ Hw Hr).
Qed.

Lemma mail_done_open m b m' item : mail_done (m <| ml_open := b |>) m' item → mail_done m m' item.
Proof. done. Qed.

Lemma put_back_done m item : mail_done m (put_back m item) item.
Proof. left. split_and!; [done..|]. apply recorded_refl. Qed.

(** However the connection behaves, the mail that a turn takes from the channel is
    either back in it, when the signal to quit stopped dialing, or it was tried
    and each recipient has one record for each event. *)
Theorem email_not_lost batch item rest m :
  cx_IsCenter cx = true → ml_ch m = item :: rest →
  room (ml_s m) (length (em_To (snd item)) * length (fst item)) →
  mail_done (m <| ml_ch := rest |>) (startEmailSender_turn batch MMail m) item.
Proof.
  intros Hc Hch Hroom. unfold startEmailSender_turn. rewrite Hch.
  set (m0 := m <| ml_ch := rest |>).
  assert (room (ml_s m0) (length (em_To (snd item)) * length (fst item))) as Hroom0 by exact Hroom.
  clearbody m0. clear Hch Hroom. unfold mail_send.
  assert (∀ m1, room (ml_s m1) (length (em_To (snd item)) * length (fst item)) →
    mail_done m1 (match smtp_send (ss_world (ml_s m1)) (snd item) with
      | (w, None) => mail_sent batch item None (ml_act m1 (λ _, w))
      | (w, Some _) =>
          let '(w, ok) := smtp_dial (smtp_close w) in
          let m := ml_act m1 (λ _, w) in
          if negb ok then put_back m item
          else
            let m := m <| ml_open := true |> in
            let '(w, err) := smtp_send (ss_world (ml_s m)) (snd item) in
            mail_sent batch item err (ml_act m (λ _, w))
      end) item) as Hsend.
  { intros m1 Hm1. destruct (smtp_send _ _) as [w [e|]].
    - destruct (smtp_dial _) as [w1 ok]. apply (mail_done_act m1 (λ _, w1)). simpl.
      destruct ok; simpl; [|apply put_back_done].
      destruct (smtp_send _ _) as [w2 err]. apply (mail_done_open _ true), (mail_done_act _ (λ _, w2)).
      by apply mail_sent_done.
    - apply (mail_done_act m1 (λ _, w)). by apply mail_sent_done. }
  destruct (ml_open m0); simpl; [by apply Hsend|].
  destruct (smtp_dial _) as [w ok]. apply (mail_done_act m0 (λ _, w)).
  destruct ok; simpl; [|apply put_back_done]. apply (mail_done_open _ true). by apply Hsend.
Qed.

(** A robot posts once for every user that has a token, in the order of the users,
    and leaves one record for each such token and each event, whether the post
    succeeds or not; users without a token get nothing; it never panics. *)
Theorem robot_records snd_ ctx s mailch channel key :
  cx_IsCenter cx = true → robot_channel snd_ = Some (channel, key) →
  mc_Events ctx ≠ [] →
  room s (length (user_tokens key (mc_Users ctx)) * length (mc_Events ctx)) →
  ∃ s', Sender_Send snd_ ctx s mailch = Ret (s', mailch) ∧
    recorded s s' (concat (map (λ t, event_keys channel t (mc_Events ctx)) (user_tokens key (mc_Users ctx)))).
Proof.
  intros Hc Hch Hev Hroom.
  assert (∀ url body, ∃ s', each_url 0 (map url (user_tokens key (mc_Users ctx))) (user_tokens key (mc_Users ctx))
     (λ url token, doSendAndRecord url token (body url token) channel (mc_Events ctx)) s = Ret s' ∧
     recorded s s' (concat (map (λ t, event_keys channel t (mc_Events ctx)) (user_tokens key (mc_Users ctx))))) as Hpost.
  { intros url body. apply each_token_recorded; [done|by rewrite length_map|done]. }
  destruct (mc_Users ctx) as [|u us] eqn:EU.
  { exists s. split; [|apply recorded_refl]. destruct snd_; simpl in *; try done; simplify_eq;
      unfold dingtalk_Send, wecom_Send, feishu_Send, feishucard_Send, lark_Send, larkcard_Send, card_Send, no_message;
      by rewrite EU. }
  rewrite <- EU in *. destruct (mc_Events ctx) as [|e es] eqn:EE; [done|]. rewrite <- EE in *.
  assert (no_message ctx = false) as Hno by (unfold no_message; by rewrite EU, EE).
  assert (go_index (mc_Events ctx) 0 = Ret e) as He0 by (by rewrite EE).
  destruct snd_; simpl in *; try done; simplify_eq;
    unfold dingtalk_Send, wecom_Send, feishu_Send, feishucard_Send, lark_Send, larkcard_Send, card_Send;
    rewrite Hno;
    unfold dingtalk_extract, wecom_extract, feishu_extract, feishucard_extract, lark_extract, larkcard_extract;
    rewrite token_urls_spec; simpl; rewrite ?He0; simpl.
  1: rewrite length_map;
     destruct (Nat.eqb_spec (length (user_tokens "dingtalk" (mc_Users ctx))) 0) as [Hl|_];
     [exists s; split; [done|]; apply nil_length_inv in Hl; rewrite Hl; apply recorded_refl|simpl].
  all: match goal with
       | |- context [each_url 0 (map ?url _) _ (λ u t, doSendAndRecord u t (@?body u t) _ _)] =>
           destruct (Hpost url body) as (s' & Hs' & Hr)
       end; exists s'; (split; [|exact Hr]); by rewrite Hs'.
Qed.
End senders.
