(* ===== verification/Webhooks.v ===== *)
(** * Webhooks: [alert/sender/webhook.go]

    Posting events to webhooks, one by one with retries, or in batches through a
    queue for each URL.  In batch mode the goroutine that creates the queue of a
    URL becomes its consumer, so several goroutines work on the same queues; the
    relation [gstep] has their steps. *)

From S2P Require Import Prelude GoStrings Json Models RuleModels EventOps Http Queues Dispatch Senders.
Open Scope string_scope.
Open Scope Z_scope.
Open Scope list_scope.

(** Which of the two maps of queues: [EventQueue] or [CallbackEventQueue]. *)
Inductive qkind := WebhookQ | CallbackQ.
#[export] Instance qkind_eq_dec : EqDecision qkind.
Proof. solve_decision. Defined.
#[export] Instance qkind_countable : Countable qkind.
Proof.
  refine (inj_countable' (λ k, match k with WebhookQ => true | CallbackQ => false end)
            (λ b : bool, if b then WebhookQ else CallbackQ) _). by intros [].
Defined.
Notation qkey := (qkind * string)%type (only parsing).

Section webhooks.
Context {World : Type} `{NW : Network World, RQ : RecordQueueLib, GR : GoRange}.
Context `{!Json AlertCurEvent, !Json (list AlertCurEvent)}.
Context `{!Json (list NotificationRecord), !Json (DataResponse iface)}.
Context (show_records : list NotificationRecord → string) (cx : center_ctx).

(** The hash of a webhook ([Webhook.Hash]), the key of its client, and the text
    with the time and the duration of a call. *)
Context (webhook_Hash : Webhook → string) (send_stamp : World → string).

Notation sstate := (@sstate World RQ).

(** The state of the senders, [webhookClientCache], and the mails that wait. *)
Record wstate := mkWstate {
  ws_s : sstate;
  ws_clients : gmap string HttpClient;
  ws_mailch : list (list AlertCurEvent * email_message)
}.
#[global] Instance wstate_eta : Settable wstate := λ r, mkWstate (ws_s r) (ws_clients r) (ws_mailch r).
Implicit Types s : wstate.

Definition ws_act s (w : World) : wstate := s <| ws_s := (ws_s s) <| ss_world := w |> |>.

(** ** One call *)

Definition new_client (webhook : Webhook) : HttpClient :=
  let timeout := Hook.Timeout webhook in
  let timeout := if timeout <=? 0 then 10 else timeout in
  mkHttpClient (timeout * 1000) (UseProxy (Hook.Url webhook)) (Hook.SkipVerify webhook) "".

Definition getWebhookClient (webhook : Webhook) s : wstate * HttpClient :=
  let clientKey := webhook_Hash webhook in
  match ws_clients s !! clientKey with
  | Some client => (s, client)
  | None => let client := new_client webhook in
            (s <| ws_clients := <[clientKey := client]> (ws_clients s) |>, client)
  end.

(** The headers come in pairs; one of a [Host] sets the host. *)
Fixpoint set_headers (hs : list string) (r : Request) : Request :=
  match hs with
  | k :: v :: hs =>
      set_headers hs (if String.eqb k "host" || String.eqb k "Host" then r <| rq_host := v |>
                      else set_header k v r)
  | _ => r
  end.

Definition webhook_request (conf : Webhook) (req : Request) : Request :=
  let req := set_header "Content-Type" "application/json" req in
  let req := if negb (String.eqb (Hook.BasicAuthUser conf) "") && negb (String.eqb (Hook.BasicAuthPass conf) "")
             then req <| rq_auth := Some (Hook.BasicAuthUser conf, Hook.BasicAuthPass conf) |> else req in
  let n := length (Hook.Headers conf) in
  if (0 <? n)%nat && (n mod 2 =? 0)%nat then set_headers (Hook.Headers conf) req else req.

(** Whether to try again, the text of the answer, and the error. *)
Definition sendWebhook {A} `{!Json A} (conf : Webhook) (event : A) s : wstate * (bool * string * option error) :=
  if String.eqb (Hook.Url conf) "" || negb (Hook.Enable conf) then (s, (false, "", None))
  else match json_marshal event with
       | Err err => (s, (false, "", Some err))
       | Ok bs =>
           match NewRequest "POST" (Hook.Url conf) bs with
           | Err err => (s, (true, "", Some err))
           | Ok req =>
               let '(s, client) := getWebhookClient conf s in
               match http_do client (ss_world (ws_s s)) (webhook_request conf req) with
               | (w, _, Err err) => (ws_act s w, (true, "", Some err))
               | (w, _, Ok resp) =>
                   let text := "status_code:" +:+ itoa (StatusCode resp) +:+ ", response:" +:+ rs_body resp in
                   if StatusCode resp =? 429 then (ws_act s w, (true, text, Some "status code is 429"))
                   else (ws_act s w, (false, text, None))
               end
           end
       end.

(** The attempts of one webhook, at most [n], each with its record. *)
Fixpoint attempts {A} `{!Json A} (n : nat) (conf : Webhook) (event : A) (evts : list AlertCurEvent) s : wstate :=
  match n with
  | O => s
  | S n =>
      let '(s, (needRetry, res, err)) := sendWebhook conf event s in
      let res := send_stamp (ss_world (ws_s s)) +:+ res in
      let s := s <| ws_s := NotifyRecord show_records cx evts 0 "webhook" (Hook.Url conf) res err (ws_s s) |> in
      if negb needRetry then s else attempts n conf event evts s
  end.

Definition SingleSendWebhooks (webhooks : gmap string Webhook) (event : AlertCurEvent) s : wstate :=
  foldl (λ s kv, attempts 3 (snd kv) event [event] s) s (go_range webhooks).

(** ** Goroutines and their queues

    What the goroutine of an event has to do: actions on the state of the
    senders, and events to push to the queue of a webhook. *)
Inductive action :=
| AAct (f : wstate → go wstate)
| ABatch (k : qkind) (wh : Webhook).

Definition action_key (a : action) : option qkey :=
  match a with AAct _ => None | ABatch k wh => Some (k, Hook.Url wh) end.

Definition BatchSendWebhooks (webhooks : gmap string Webhook) : list action :=
  map (λ kv, ABatch WebhookQ (snd kv)) (go_range webhooks).

(** Where a goroutine is: between two actions; in [PushEvent] after it found no
    queue, or a queue; in [StartConsumer], which [PushEvent] calls after it
    created the queue. *)
Inductive tpc :=
| TReady
| TMissed (k : qkind) (wh : Webhook)
| TFound (k : qkind) (wh : Webhook) (q : nat)
| TConsuming (k : qkind) (wh : Webhook) (q : nat).

Record thread := mkThread { th_event : AlertCurEvent; th_pc : tpc; th_todo : list action }.

(** The maps of queues, the queues, each with the key it was created for, the
    goroutines, and the batches that were taken out of a queue and sent. *)
Record gstate := mkGstate {
  g_queues : gmap qkey nat;
  g_store : gmap nat (qkey * SafeEventQueue);
  g_threads : gmap nat thread;
  g_state : wstate;
  g_handed : list (qkey * list AlertCurEvent)
}.
#[global] Instance gstate_eta : Settable gstate := λ r,
  mkGstate (g_queues r) (g_store r) (g_threads r) (g_state r) (g_handed r).
Implicit Types g : gstate.

Definition set_pc g (t : nat) (th : thread) (pc : tpc) (todo : list action) : gstate :=
  g <| g_threads := <[t := mkThread (th_event th) pc todo]> (g_threads g) |>.

(** One turn of the loop of [StartConsumer]. *)
Definition consume_turn (wh : Webhook) (spq : SafeEventQueue) s : go (SafeEventQueue * list AlertCurEvent * wstate) :=
  '(spq, events) ← spq_PopN spq (Hook.Batch wh);
  if (length events =? 0)%nat then Ret (spq, events, s)
  else Ret (spq, events, attempts (Z.to_nat (Hook.RetryCount wh)) wh events events s).

(** The channel that would stop a consumer is never closed, so that no step
    leaves [TConsuming]. *)
Inductive gstep : gstate → gstate → Prop :=
| gstep_act g t th f todo s :
    g_threads g !! t = Some th → th_pc th = TReady → th_todo th = AAct f :: todo →
    f (g_state g) = Ret s →
    gstep g ((set_pc g t th TReady todo) <| g_state := s |>)
| gstep_found g t th k wh todo q :
    g_threads g !! t = Some th → th_pc th = TReady → th_todo th = ABatch k wh :: todo →
    g_queues g !! (k, Hook.Url wh) = Some q →
    gstep g (set_pc g t th (TFound k wh q) todo)
| gstep_missed g t th k wh todo :
    g_threads g !! t = Some th → th_pc th = TReady → th_todo th = ABatch k wh :: todo →
    g_queues g !! (k, Hook.Url wh) = None →
    gstep g (set_pc g t th (TMissed k wh) todo)
| gstep_install g t th k wh q :
    g_threads g !! t = Some th → th_pc th = TMissed k wh → g_store g !! q = None →
    gstep g ((set_pc g t th (TConsuming k wh q) (th_todo th))
               <| g_store := <[q := ((k, Hook.Url wh), NewSafeEventQueue QueueMaxSize)]> (g_store g) |>
               <| g_queues := <[(k, Hook.Url wh) := q]> (g_queues g) |>)
| gstep_push g t th k wh q key spq :
    g_threads g !! t = Some th → th_pc th = TFound k wh q → g_store g !! q = Some (key, spq) →
    gstep g ((set_pc g t th TReady (th_todo th))
               <| g_store := <[q := (key, fst (spq_Push spq (th_event th)))]> (g_store g) |>)
| gstep_consume g t th k wh q key spq spq' events s :
    g_threads g !! t = Some th → th_pc th = TConsuming k wh q → g_store g !! q = Some (key, spq) →
    consume_turn wh spq (g_state g) = Ret (spq', events, s) →
    gstep g (g <| g_store := <[q := (key, spq')]> (g_store g) |> <| g_state := s |>
               <| g_handed := g_handed g ++ (if (length events =? 0)%nat then [] else [(key, events)]) |>).

Inductive greach (g0 : gstate) : gstate → Prop :=
| greach_refl : greach g0 g0
| greach_step g g' : greach g0 g → gstep g g' → greach g0 g'.

(** At the start no queue exists, and every goroutine is about to begin: one
    for each event, with at most one push for each key. *)
Definition ginit (g : gstate) : Prop :=
  g_queues g = ∅ ∧ g_store g = ∅ ∧ g_handed g = [] ∧
  (∀ t th, g_threads g !! t = Some th → th_pc th = TReady ∧ NoDup (omap action_key (th_todo th))) ∧
  (∀ t1 t2 th1 th2, g_threads g !! t1 = Some th1 → g_threads g !! t2 = Some th2 →
     th_event th1 = th_event th2 → t1 = t2).

(** The keys a goroutine has not pushed to yet. *)
Definition pending_keys (th : thread) : list qkey :=
  match th_pc th with
  | TReady => []
  | TMissed k wh | TFound k wh _ | TConsuming k wh _ => [(k, Hook.Url wh)]
  end ++ omap action_key (th_todo th).

(** An event is in a queue of the key, or was taken out of one. *)
Definition queued_for g (key : qkey) (e : AlertCurEvent) : Prop :=
  (∃ q spq, g_store g !! q = Some (key, spq) ∧ e ∈ spq_items spq) ∨
  (∃ es, (key, es) ∈ g_handed g ∧ e ∈ es).

(** ** The invariant of the goroutines *)

Record ginv (g : gstate) : Prop := {
  gi_nodup : ∀ t th, g_threads g !! t = Some th → NoDup (pending_keys th);
  gi_distinct : ∀ t1 t2 th1 th2, g_threads g !! t1 = Some th1 → g_threads g !! t2 = Some th2 →
    th_event th1 = th_event th2 → t1 = t2;
  gi_found : ∀ t th k wh q, g_threads g !! t = Some th → th_pc th = TFound k wh q →
    ∃ spq, g_store g !! q = Some ((k, Hook.Url wh), spq);
  gi_queues : ∀ key q, g_queues g !! key = Some q →
    (∃ spq, g_store g !! q = Some (key, spq)) ∧
    ∃ t th k wh, g_threads g !! t = Some th ∧ th_pc th = TConsuming k wh q ∧ key = (k, Hook.Url wh);
  gi_pending : ∀ t th key, g_threads g !! t = Some th → key ∈ pending_keys th →
    ¬ queued_for g key (th_event th)
}.

Lemma elem_of_spq_Push spq e x : x ∈ spq_items (fst (spq_Push spq e)) → x ∈ spq_items spq ∨ x = e.
Proof.
  unfold spq_Push, spq_items. repeat case_match; simpl; rsimp; rewrite ?elem_of_app; set_solver.
Qed.

Lemma consume_turn_items wh spq s spq' events s' :
  consume_turn wh spq s = Ret (spq', events, s') → spq_items spq = events ++ spq_items spq'.
Proof.
  unfold consume_turn, spq_PopN. case_match; simpl; [done|].
  destruct (spq_PopN_loop_spec (Z.to_nat (Hook.Batch wh)) spq []) as (spq1 & -> & Hi & _). simpl.
  intros Hr. assert (spq' = spq1 ∧ events = take (Z.to_nat (Hook.Batch wh)) (spq_items spq)) as [-> ->].
  { case_match; by simplify_eq. }
  by rewrite Hi, take_drop.
Qed.

(** A goroutine that is not a consumer moves on; what is in the queues afterwards
    was there before, or is its own event for a key it is done with. *)
Lemma ginv_move g g' t th th' :
  ginv g → g_threads g !! t = Some th →
  g_threads g' = <[t := th']> (g_threads g) → th_event th' = th_event th →
  pending_keys th' `sublist_of` pending_keys th →
  (∀ key x, queued_for g' key x → queued_for g key x ∨ (x = th_event th ∧ key ∉ pending_keys th')) →
  (∀ q key spq, g_store g !! q = Some (key, spq) → ∃ spq', g_store g' !! q = Some (key, spq')) →
  (∀ k wh q, th_pc th' = TFound k wh q → ∃ spq, g_store g' !! q = Some ((k, Hook.Url wh), spq)) →
  (∀ k wh q, th_pc th ≠ TConsuming k wh q) →
  (∀ key q, g_queues g' !! key = Some q →
     g_queues g !! key = Some q ∨
     ∃ k wh spq, th_pc th' = TConsuming k wh q ∧ key = (k, Hook.Url wh) ∧ g_store g' !! q = Some (key, spq)) →
  ginv g'.
Proof.
  intros Hinv Ht Hth Hev Hsub Hqf Hstore Hfound Hnc Hqs.
  assert (∀ t' th'', g_threads g' !! t' = Some th'' →
            (t' = t ∧ th'' = th') ∨ (t' ≠ t ∧ g_threads g !! t' = Some th'')) as Hcase.
  { intros t' th''. rewrite Hth. intros [[-> <-]|[? ?]]%lookup_insert_Some; auto. }
  assert (∀ t' th'', g_threads g' !! t' = Some th'' →
            ∃ th0, g_threads g !! t' = Some th0 ∧ th_event th'' = th_event th0 ∧
                   pending_keys th'' `sublist_of` pending_keys th0) as Hold.
  { intros t' th'' [[-> ->]|[_ ?]]%Hcase; eauto. }
  split.
  - intros t' th'' (th0 & H0 & _ & Hs)%Hold. eapply sublist_NoDup; [|exact Hs]. by eapply gi_nodup.
  - intros t1 t2 th1 th2 (a & Ha & Ea & _)%Hold (b & Hb & Eb & _)%Hold He.
    eapply (gi_distinct g Hinv); [exact Ha|exact Hb|congruence].
  - intros t' th'' k wh q [[-> ->]|[_ H0]]%Hcase Hpc; [by apply Hfound|].
    destruct (gi_found g Hinv t' th'' k wh q H0 Hpc) as [spq Hs]. by eapply Hstore.
  - intros key q [Hq|(k & wh & spq & Hpc & -> & Hs)]%Hqs.
    + destruct (gi_queues g Hinv key q Hq) as ([spq Hs] & t0 & th0 & k & wh & H0 & Hpc & Hk).
      split; [by eapply Hstore|]. exists t0, th0, k, wh. split_and!; [|done..].
      rewrite Hth, lookup_insert_ne; [done|]. intros <-. rewrite Ht in H0. simplify_eq. by eapply Hnc.
    + split; [by eexists|]. exists t, th', k, wh. by rewrite Hth, lookup_insert_eq.
  - intros t' th'' key H'' Hkey Hq. apply Hqf in Hq as [Hq|[Hx Hnot]].
    + destruct (Hold t' th'' H'') as (th0 & H0 & He & Hs). rewrite He in Hq.
      eapply (gi_pending g Hinv t' th0 key); [done| |exact Hq].
      eapply elem_of_sublist; [done|exact Hs].
    + destruct (Hcase t' th'' H'') as [[-> ->]|[Hne H0]]; [done|].
      apply Hne. by eapply (gi_distinct g Hinv).
Qed.

Lemma queued_for_store g g' key x :
  g_handed g' = g_handed g →
  (∀ q spq, g_store g' !! q = Some (key, spq) → x ∈ spq_items spq → queued_for g key x) →
  queued_for g' key x → queued_for g key x.
Proof.
  intros Hh Hs [(q & spq & Hq & Hx)|(es & He & Hx)]; [by eapply Hs|].
  right. rewrite Hh in He. eauto.
Qed.

Lemma gstep_inv g g' : ginv g → gstep g g' → ginv g'.
Proof.
  intros Hinv Hs. destruct Hs as
    [g t th f todo s Ht Hpc Htodo Hf|g t th k wh todo q Ht Hpc Htodo Hq|g t th k wh todo Ht Hpc Htodo Hq
    |g t th k wh q Ht Hpc Hq|g t th k wh q key spq Ht Hpc Hq|g t th k wh q key spq spq' events s Ht Hpc Hq Hc].
  - eapply (ginv_move g _ t th); [done|done|reflexivity|done|..].
    + unfold pending_keys. by rewrite Hpc, Htodo.
    + intros; by left.
    + eauto.
    + done.
    + congruence.
    + intros; by left.
  - eapply (ginv_move g _ t th); [done|done|reflexivity|done|..].
    + unfold pending_keys. by rewrite Hpc, Htodo.
    + intros; by left.
    + eauto.
    + simpl. intros k' wh' q' ?. simplify_eq. by apply (gi_queues g Hinv).
    + congruence.
    + intros; by left.
  - eapply (ginv_move g _ t th); [done|done|reflexivity|done|..].
    + unfold pending_keys. by rewrite Hpc, Htodo.
    + intros; by left.
    + eauto.
    + done.
    + congruence.
    + intros; by left.
  - eapply (ginv_move g _ t th); [done|done|reflexivity|done|..]; simpl; rsimp.
    + unfold pending_keys. by rewrite Hpc.
    + intros key x Hx. left. eapply queued_for_store; [|..|exact Hx]; [done|]. rsimp.
      intros q' spq [[-> Heq]|[_ ?]]%lookup_insert_Some Hin; [|left; eauto].
      simplify_eq. unfold spq_items in Hin. simpl in Hin. set_solver.
    + intros q' key spq Hs. exists spq. rewrite lookup_insert_ne; [done|]. congruence.
    + done.
    + congruence.
    + intros key q' [[<- <-]|[_ ?]]%lookup_insert_Some; [|by left].
      right. exists k, wh, (NewSafeEventQueue QueueMaxSize). by rewrite lookup_insert_eq.
  - destruct (gi_found g Hinv t th k wh q Ht Hpc) as [spq0 Hq0]. rewrite Hq in Hq0. simplify_eq.
    pose proof (gi_nodup g Hinv t th Ht) as Hnd. unfold pending_keys in Hnd. rewrite Hpc in Hnd.
    apply NoDup_cons in Hnd as [Hnot Hnd].
    eapply (ginv_move g _ t th); [done|done|reflexivity|done|..]; simpl; rsimp.
    + unfold pending_keys. rewrite Hpc. simpl. by apply sublist_cons.
    + intros key x [(q' & spq' & Hs & Hx)|(es & He & Hx)]; [|left; right; eauto]. rsimp.
      apply lookup_insert_Some in Hs as [[<- Heq]|[_ Hs]]; [|left; left; eauto].
      simplify_eq. apply elem_of_spq_Push in Hx as [Hx|Hx]; [left; left; eauto|].
      right. split; [done|]. unfold pending_keys. done.
    + intros q' key spq' Hs. destruct (decide (q' = q)) as [->|Hne].
      * rewrite lookup_insert_eq. simplify_eq. eauto.
      * rewrite lookup_insert_ne by done. eauto.
    + done.
    + congruence.
    + eauto.
  - apply consume_turn_items in Hc as Hitems.
    assert (∀ q' key' spq1, g_store g !! q' = Some (key', spq1) →
      ∃ spq2, <[q:=(key, spq')]> (g_store g) !! q' = Some (key', spq2)) as Hstore.
    { intros q' key' spq1 Hs. destruct (decide (q' = q)) as [->|Hne].
      - rewrite lookup_insert_eq. simplify_eq. eauto.
      - rewrite lookup_insert_ne by done. eauto. }
    destruct Hinv as [Hnd Hdi Hfo Hqu Hpe]. split; simpl; rsimp; try done.
    + intros t' th' k' wh' q' H' Hpc'. destruct (Hfo t' th' k' wh' q' H' Hpc') as [spq1 Hs]. by eapply Hstore.
    + intros key' q' Hq'. destruct (Hqu key' q' Hq') as [[spq1 Hs] Hx]. split; [by eapply Hstore|done].
    + intros t' th' key' H' Hkey Hqf. eapply Hpe; [done|done|].
      destruct Hqf as [(q' & spq1 & Hs & Hx)|(es & He & Hx)]; rsimp.
      * apply lookup_insert_Some in Hs as [[<- Heq]|[_ Hs]]; [|left; eauto].
        simplify_eq. left. exists q, spq. split; [done|]. rewrite Hitems. set_solver.
      * apply elem_of_app in He as [He|He]; [right; eauto|].
        destruct (length events =? 0)%nat; [set_solver|]. apply list_elem_of_singleton in He. simplify_eq.
        left. exists q, spq. split; [done|]. rewrite Hitems. set_solver.
Qed.

Lemma ginit_inv g : ginit g → ginv g.
Proof.
  intros (Hq & Hs & Hh & Ht & Hd). split.
  - intros t th H. destruct (Ht t th H) as [Hpc Hnd]. unfold pending_keys. by rewrite Hpc.
  - done.
  - intros t th k wh q H Hpc. destruct (Ht t th H) as [Hr _]. congruence.
  - intros key q. by rewrite Hq.
  - intros t th key H Hk [(q & spq & Hx & _)|(es & Hx & _)]; [by rewrite Hs in Hx|].
    rewrite Hh in Hx. set_solver.
Qed.

Lemma greach_inv g0 g : ginv g0 → greach g0 g → ginv g.
Proof. intros H0. induction 1; [done|]. by eapply gstep_inv. Qed.

(** A consumer stays one, with the same work left to do. *)
Lemma gstep_consuming g g' t th k wh q :
  gstep g g' → g_threads g !! t = Some th → th_pc th = TConsuming k wh q → g_threads g' !! t = Some th.
Proof.
  intros Hs Ht Hpc. destruct Hs; simpl; rsimp; try done; rewrite lookup_insert_ne; try done; congruence.
Qed.

(** In batch mode, whenever a queue exists for a URL, the goroutine of some event
    is its consumer, and that event is lost: neither the goroutine nor any other
    ever puts it into a queue for that URL or sends it there, nor for the
    webhooks the goroutine still had to serve, and its remaining actions (later
    webhooks, self-healing tasks) never run. *)
Theorem batch_swallows_event g0 g g' key q :
  ginit g0 → greach g0 g → g_queues g !! key = Some q → greach g g' →
  ∃ t th k wh, g_threads g' !! t = Some th ∧ g_threads g !! t = Some th ∧
    th_pc th = TConsuming k wh q ∧ key = (k, Hook.Url wh) ∧
    ∀ key', key' = key ∨ key' ∈ omap action_key (th_todo th) → ¬ queued_for g' key' (th_event th).
Proof.
  intros Hi Hr Hq Hr'. pose proof (greach_inv g0 g (ginit_inv g0 Hi) Hr) as Hinv.
  destruct (gi_queues g Hinv key q Hq) as (_ & t & th & k & wh & Ht & Hpc & ->).
  assert (g_threads g' !! t = Some th ∧ ginv g') as [Ht' Hinv'].
  { clear Hq. induction Hr' as [|g1 g2 Hr1 [IH1 IH2] Hs]; [done|].
    split; [by eapply gstep_consuming|by eapply gstep_inv]. }
  exists t, th, k, wh. split_and!; [done..|].
  intros key' Hkey'. eapply (gi_pending g' Hinv'); [done|].
  unfold pending_keys. rewrite Hpc. simpl. set_solver.
Qed.
End webhooks.
