(* ===== verification/Callbacks.v ===== *)
(** * Callbacks and self-healing: [alert/sender/callback.go], [alert/sender/ibex.go]

    The callback URLs of an event and who serves them, tasks that run a script on
    the host of an event, and [Dispatch.Send], which puts together everything the
    goroutine of an event has to do under the old scheme.  The task library
    (flashcatcloud/ibex) is a parameter. *)

From S2P Require Import Prelude GoStrings Json Models RuleModels EventOps Filter Mute Http Queues Dispatch Senders Webhooks.
Open Scope string_scope.
Open Scope Z_scope.
Open Scope list_scope.

(** ** Tasks (models/task_tpl.go, models/task_record.go) *)

Module TskTpl.
Record TaskTpl := mkTaskTpl {
  Id : Z;
  GroupId : Z;
  Title : string;
  Batch : Z;
  Tolerance : Z;
  Timeout : Z;
  Pause : string;
  Script : string;
  Args : string;
  Tags : string;
  TagsJSON : list string;
  Account : string;
  CreateAt : Z;
  CreateBy : string;
  UpdateAt : Z;
  UpdateBy : string
}.
End TskTpl.
Notation TaskTpl := TskTpl.TaskTpl.

Module TskForm.
Record TaskForm := mkTaskForm {
  Title : string;
  Account : string;
  Batch : Z;
  Tolerance : Z;
  Timeout : Z;
  Pause : string;
  Script : string;
  Args : string;
  Stdin : string;
  Action : string;
  Creator : string;
  Hosts : list string;
  AlertTriggered : bool
}.
End TskForm.
Notation TaskForm := TskForm.TaskForm.

Module TskRec.
Record TaskRecord := mkTaskRecord {
  Id : Z;
  EventId : Z;
  GroupId : Z;
  Title : string;
  Account : string;
  Batch : Z;
  Tolerance : Z;
  Timeout : Z;
  Pause : string;
  Script : string;
  Args : string;
  CreateAt : Z;
  CreateBy : string
}.
End TskRec.
Notation TaskRecord := TskRec.TaskRecord.

Definition AdminRole : string := "Admin".

Definition IsAdmin (u : User) : bool := existsb (λ r, String.eqb r AdminRole) (Usr.RolesLst u).

(** [TaskMeta] of ibex, as [TaskAdd] fills it, and what it does with it:
    [CleanFields] checks and completes the fields, [HandleFH] writes the host
    into the title, the others write to the tables or to redis. *)
Record TaskMeta := mkTaskMeta { tm_form : TaskForm; tm_Id : Z }.
Class IbexLib (World : Type) := {
  ibex_db : World → bool;
  ibex_redis : World → bool;
  ibex_CleanFields : TaskMeta → result TaskMeta;
  ibex_HandleFH : TaskMeta → string → TaskMeta;
  ibex_Create : World → TaskMeta → World * result Z;
  ibex_IdGet : World → World * result Z;
  ibex_HostCreate : World → Z → string → World * option error;
  ibex_Cache : World → TaskMeta → string → World * option error;
  ibex_Save : World → TaskMeta → list string → string → World * result Z;
  ibex_Insert : World → TaskRecord → World * option error
}.

(** The caches a task needs. *)
Record task_caches := mkTaskCaches {
  tc_tpls : gmap Z TaskTpl;
  tc_targets : gmap string Target;
  tc_users : gmap string User
}.

Section ibex.
Context {World : Type} `{NW : Network World, IB : IbexLib World}.
Context `{!Json (gmap string string), !Json TaskRecord, !Json (DataResponse iface)}.
Context (show_task : TaskRecord → string) (cx : center_ctx).
Implicit Types w : World.

Definition CanDoIbex (username : string) (tpl : TaskTpl) (host : string) (c : task_caches) : bool :=
  match tc_users c !! username with
  | Some user => if IsAdmin user then true
                 else match tc_targets c !! host with
                      | None => false
                      | Some target => MatchGroupId target [TskTpl.GroupId tpl]
                      end
  | None => match tc_targets c !! host with
            | None => false
            | Some target => MatchGroupId target [TskTpl.GroupId tpl]
            end
  end.

Definition cleanHosts (formHosts : list string) : list string :=
  omap (λ h, let item := trim_space h in
             if String.eqb item "" || has_prefix item "#" then None else Some item) formHosts.

(** On an edge, a task of an alert is put into redis for its agent, with an id
    from the center or, when the center cannot be reached, from redis. *)
Definition TaskAdd (f : TaskForm) (isCenter : bool) w : World * result Z :=
  if negb (ibex_redis w) then (w, Err "redis cache is nil")
  else
    match cleanHosts (TskForm.Hosts f) with
    | [] => (w, Err "arg(hosts) empty")
    | host :: _ as hosts =>
        match ibex_CleanFields (mkTaskMeta f 0) with
        | Err err => (w, Err err)
        | Ok meta =>
            let meta := ibex_HandleFH meta host in
            if negb isCenter && TskForm.AlertTriggered f then
              let '(w, id) :=
                match ibex_Create w meta with
                | (w, Ok id) => (w, Ok id)
                | (w, Err _) => ibex_IdGet w
                end in
              match id with
              | Err err => (w, Err err)
              | Ok id =>
                  let '(w, _) := ibex_HostCreate w id host in
                  match ibex_Cache w (mkTaskMeta (tm_form meta) id) host with
                  | (w, Some err) => (w, Err err)
                  | (w, None) => (w, Ok id)
                  end
              end
            else ibex_Save w meta hosts (TskForm.Action f)
        end
    end.

(** The tags of the event and three more values, for the standard input. *)
Definition ibex_tags (event : AlertCurEvent) : gmap string string :=
  let tagsMap := foldl add_tag ∅ (Event.TagsJSON event) in
  <["is_recovered" := if Event.IsRecovered event then "true" else "false"]>
    (<["alert_trigger_value" := Event.TriggerValue event]>
      (<["alert_severity" := itoa (Event.Severity event)]> tagsMap)).

Definition task_form (tpl : TaskTpl) (host args tags : string) : TaskForm :=
  TskForm.mkTaskForm (TskTpl.Title tpl +:+ " FH: " +:+ host) (TskTpl.Account tpl) (TskTpl.Batch tpl)
    (TskTpl.Tolerance tpl) (TskTpl.Timeout tpl) (TskTpl.Pause tpl) (TskTpl.Script tpl)
    (if negb (String.eqb args "") then args else TskTpl.Args tpl) tags "start" (TskTpl.UpdateBy tpl) [host] true.

Definition task_record (id : Z) (event : AlertCurEvent) (tpl : TaskTpl) (f : TaskForm) (now : Z) : TaskRecord :=
  TskRec.mkTaskRecord id (Event.Id event) (TskTpl.GroupId tpl) (TskForm.Title f) (TskForm.Account f)
    (TskForm.Batch f) (TskForm.Tolerance f) (TskForm.Timeout f) (TskForm.Pause f) (TskForm.Script f)
    (TskForm.Args f) now (TskForm.Creator f).

Definition TaskRecord_Add (r : TaskRecord) w : World * option error :=
  if negb (cx_IsCenter cx) then PostByUrls show_task (cx_conf cx) "/v1/n9e/task-record-add" r w
  else ibex_Insert w r.

(** The id of the task, and the error, without the event in its text. *)
Definition CallIbex (id : Z) (host : string) (c : task_caches) (event : AlertCurEvent) (args : string)
    (now : Z) w : World * (Z * option error) :=
  match tc_tpls c !! id with
  | None => (w, (0, Some ("event_callback_ibex: no such tpl(" +:+ itoa id +:+ ")")))
  | Some tpl =>
      if negb (CanDoIbex (TskTpl.UpdateBy tpl) tpl host c)
      then (w, (0, Some ("event_callback_ibex: user(" +:+ TskTpl.UpdateBy tpl +:+ ") no permission")))
      else
        match json_marshal (ibex_tags event) with
        | Err _ => (w, (0, Some "event_callback_ibex: failed to marshal tags to json"))
        | Ok tags =>
            let f := task_form tpl host args tags in
            match TaskAdd f (cx_IsCenter cx) w with
            | (w, Err err) => (w, (0, Some ("event_callback_ibex: call ibex fail: " +:+ err)))
            | (w, Ok id) =>
                match TaskRecord_Add (task_record id event tpl f now) w with
                | (w, Some err) => (w, (id, Some ("event_callback_ibex: persist task_record fail: " +:+ err)))
                | (w, None) => (w, (id, None))
                end
            end
        end
  end.

(** [handleIbex]: the id and the host in the URL, [${ibex}/id/host], or the host
    of the event. *)
Definition handleIbex (url : string) (c : task_caches) (event : AlertCurEvent) (now : Z) w : World :=
  if negb (ibex_db w) && cx_IsCenter cx then w
  else
    let arr := split url "/" in
    let idstr := default "" (arr !! 1%nat) in
    let host := default "" (arr !! 2%nat) in
    match parse_int idstr with
    | None => w
    | Some id =>
        let host := if String.eqb host "" then Event.TargetIdent event else host in
        let host := if String.eqb host "" then default "" (Event.TagsMap event !! "ident") else host in
        if String.eqb host "" then w
        else fst (CallIbex id host c event "" now w)
    end.

(** The task templates of a rule; a recovery starts none. *)
Definition HandleIbex (tpls : list Tpl) (c : task_caches) (event : AlertCurEvent) (now : Z) w : World :=
  if Event.IsRecovered event then w
  else
    foldl (λ w t,
      if TaskTpl.TplId t =? 0 then w
      else
        let call w host := fst (CallIbex (TaskTpl.TplId t) host c event "" now w) in
        if (length (TaskTpl.Host t) =? 0)%nat then call w (Event.TargetIdent event)
        else foldl call w (TaskTpl.Host t)) w tpls.
End ibex.

(** ** The notification script: [alert/sender/plugin.go] *)

(** The width of the first rune of a string, 1 for an invalid one
    ([utf8.DecodeRuneInString]). *)
Definition byte_in (lo hi : nat) (s : string) (i : nat) : bool :=
  match String.get i s with
  | Some c => ((lo <=? Ascii.nat_of_ascii c) && (Ascii.nat_of_ascii c <=? hi))%nat
  | None => false
  end.

Definition rune_width (s : string) : nat :=
  match s with
  | EmptyString => 0
  | String c _ =>
      let b := Ascii.nat_of_ascii c in
      let cont i := byte_in 128 191 s i in
      if (b <? 128)%nat then 1
      else if ((194 <=? b) && (b <=? 223))%nat then if cont 1%nat then 2 else 1
      else if (b =? 224)%nat then if byte_in 160 191 s 1 && cont 2%nat then 3 else 1
      else if (b =? 237)%nat then if byte_in 128 159 s 1 && cont 2%nat then 3 else 1
      else if ((225 <=? b) && (b <=? 239))%nat then if cont 1%nat && cont 2%nat then 3 else 1
      else if (b =? 240)%nat then if byte_in 144 191 s 1 && cont 2%nat && cont 3%nat then 4 else 1
      else if ((241 <=? b) && (b <=? 243))%nat then if cont 1%nat && cont 2%nat && cont 3%nat then 4 else 1
      else if (b =? 244)%nat then if byte_in 128 143 s 1 && cont 2%nat && cont 3%nat then 4 else 1
      else 1
  end.

(** The loop that finds where to cut: [rest] is the text from position [i] on. *)
Fixpoint valid_length (fuel limit i : nat) (rest : string) : nat :=
  match fuel with
  | O => i
  | S fuel =>
      if (i <? limit)%nat && negb (String.eqb rest "") then
        let size := rune_width rest in
        if (limit <? i + size)%nat then i
        else valid_length fuel limit (i + size) (str_drop size rest)
      else i
  end.

Definition truncate_output (res : string) : string :=
  if (512 <? String.length res)%nat
  then String.substring 0 (valid_length 512 512 0 res) res +:+ "..."
  else res.

Definition buildErr (err : option error) (isTimeout : bool) : option error :=
  match err, isTimeout with
  | None, false => None
  | _, _ => Some ("is_timeout: " +:+ (if isTimeout then "true" else "false") +:+ ", err: "
                  +:+ default "<nil>" err)
  end.

Record NotifyScript := mkNotifyScript {
  sc_Enable : bool;
  sc_Type : Z;
  sc_Content : string;
  sc_Timeout : Z
}.

(** Files and processes: whether the file is there, reading, writing and making
    it executable, starting a command, and its output and end after at most so many
    milliseconds. *)
Class Os (World : Type) := {
  file_IsExist : World → string → bool;
  file_ToString : World → string → result string;
  file_WriteString : World → string → string → World * option error;
  os_Chmod : World → string → World * option error;
  os_Start : World → string → string → World * option error;
  os_Wait : World → Z → World * (string * option error * bool)
}.

Section plugin.
Context {World : Type} `{NW : Network World, OSI : Os World, RQ : RecordQueueLib}.
Context `{!Json (list NotificationRecord), !Json (DataResponse iface)}.
Context (show_records : list NotificationRecord → string) (cx : center_ctx) (send_stamp : World → string).
Notation sstate := (@sstate World RQ).
Implicit Types (w : World) (s : sstate).

(** The path of the script, which is written to a file when it is not there
    already or has changed; [None] when that fails. *)
Definition script_path (config : NotifyScript) w : World * option string :=
  if sc_Type config =? 1 then (w, Some (sc_Content config))
  else
    let fpath := ".notify_script" in
    let rewrite := if file_IsExist w fpath then
                     match file_ToString w fpath with
                     | Err err => Err err
                     | Ok old => Ok (negb (String.eqb old (sc_Content config)))
                     end
                   else Ok true in
    match rewrite with
    | Err _ => (w, None)
    | Ok false => (w, Some ("./" +:+ fpath))
    | Ok true =>
        match file_WriteString w fpath (sc_Content config) with
        | (w, Some _) => (w, None)
        | (w, None) =>
            match os_Chmod w fpath with
            | (w, Some _) => (w, None)
            | (w, None) => (w, Some ("./" +:+ fpath))
            end
        end
    end.

Definition alertingCallScript (stdinBytes : string) (config : NotifyScript) (event : AlertCurEvent) s : sstate :=
  if negb (sc_Enable config) || String.eqb (sc_Content config) "" then s
  else
    match script_path config (ss_world s) with
    | (w, None) => s <| ss_world := w |>
    | (w, Some fpath) =>
        match os_Start w fpath stdinBytes with
        | (w, Some _) => s <| ss_world := w |>
        | (w, None) =>
            let '(w, (out, err, isTimeout)) := os_Wait w (sc_Timeout config * 1000) in
            let res := truncate_output (send_stamp w +:+ out) in
            NotifyRecord show_records cx [event] 0 "script" fpath res (buildErr err isTimeout)
              (s <| ss_world := w |>)
        end
    end.

Definition MayPluginNotify (noticeBytes : string) (config : NotifyScript) (event : AlertCurEvent) s : sstate :=
  if (String.length noticeBytes =? 0)%nat then s else alertingCallScript noticeBytes config event s.
End plugin.

(** ** Callbacks *)

Definition IbexDomain : string := "ibex".
Definition DefaultDomain : string := "default".
Definition DingtalkDomain : string := "oapi.dingtalk.com".
Definition WecomDomain : string := "qyapi.weixin.qq.com".
Definition FeishuDomain : string := "open.feishu.cn".
Definition LarkDomain : string := "open.larksuite.com".
Definition FeishuCardDomain : string := "open.feishu.cn?card=1".
Definition LarkCardDomain : string := "open.larksuite.com?card=1".
Definition TelegramDomain : string := "api.telegram.org".

(** What serves a callback: a task, a post of the event, or a robot. *)
Inductive CallBacker `{HtmlTpl} :=
| IbexCallBacker
| DefaultCallBacker
| RobotCallBacker (r : Sender).

Definition NewCallBacker `{HtmlTpl} (key : string) (tpls : gmap string htpl) : option CallBacker :=
  if String.eqb key IbexDomain then Some IbexCallBacker
  else if String.eqb key DefaultDomain then Some DefaultCallBacker
  else if String.eqb key DingtalkDomain then Some (RobotCallBacker (DingtalkSender (tpls !! "dingtalk")))
  else if String.eqb key WecomDomain then Some (RobotCallBacker (WecomSender (tpls !! "wecom")))
  else if String.eqb key FeishuDomain then Some (RobotCallBacker (FeishuSender (tpls !! "feishu")))
  else if String.eqb key FeishuCardDomain then Some (RobotCallBacker (FeishuCardSender (tpls !! "feishucard")))
  else if String.eqb key TelegramDomain then Some (RobotCallBacker (TelegramSender (tpls !! "telegram")))
  else if String.eqb key LarkDomain then Some (RobotCallBacker (LarkSender (tpls !! "lark")))
  else if String.eqb key LarkCardDomain then Some (RobotCallBacker (LarkCardSender (tpls !! "larkcard")))
  else None.

(** The webhook of a callback in batch mode. *)
Definition callback_webhook (url : string) : Webhook :=
  Hook.mkWebhook 1 true url "" "" 5 ∅ [] false "" 3 10 1000.

(** The tables [reloadTpls] builds: a sender for each channel, and what serves
    the callbacks of each domain.  [extra] are the senders added from outside. *)
Definition reload_senders `{HtmlTpl} (tpls : gmap string htpl) (smtp : string)
    (extra : gmap string Sender) : go (gmap string Sender) :=
  foldl (λ m key, m ← m; s ← NewSender key tpls [smtp];
                  Ret (match s with Some s => <[key := s]> m | None => m end))
    (Ret ∅) ["email"; "dingtalk"; "wecom"; "feishu"; "mm"; "telegram"; "feishucard"; "lark"; "larkcard"]
  ≫= λ m, Ret (extra ∪ m).

Definition reload_callbacks `{HtmlTpl} (tpls : gmap string htpl) : gmap string CallBacker :=
  foldl (λ m key, match NewCallBacker key tpls with Some c => <[key := c]> m | None => m end) ∅
    [DingtalkDomain; WecomDomain; FeishuDomain; TelegramDomain; FeishuCardDomain; IbexDomain; LarkDomain;
     DefaultDomain; LarkCardDomain].

Section callbacks.
Context {World : Type} `{NW : Network World, IB : IbexLib World, RQ : RecordQueueLib, HT : HtmlTpl, GR : GoRange}.
Context `{CL : ContactsLib, CE : ContactsExist, UC : UnicodeCase, UL : UrlLib, TT : TextTemplate, OSI : Os World}.
Context `{!Json robot_body, !Json (list NotificationRecord), !Json (DataResponse iface), !Json RuleConfig}.
Context `{!Json (gmap string string), !Json TaskRecord, !Json AlertCurEvent, !Json (list AlertCurEvent)}.
Context (show_records : list NotificationRecord → string) (show_task : TaskRecord → string) (cx : center_ctx).
Context (took send_stamp : World → string) (webhook_Hash : Webhook → string).
Notation wstate := (@wstate World RQ).
Notation sstate := (@sstate World RQ).
Notation action := (@action World RQ).

Definition lift (f : sstate → go sstate) (s : wstate) : go wstate :=
  x ← f (ws_s s); Ret (s <| ws_s := x |>).

Definition robot_CallBack (r : Sender) (ctx : CallBackContext) : sstate → go sstate :=
  match r with
  | DingtalkSender tpl => dingtalk_CallBack show_records cx took tpl ctx
  | WecomSender tpl => wecom_CallBack show_records cx took tpl ctx
  | FeishuSender tpl => feishu_CallBack show_records cx took tpl ctx
  | FeishuCardSender tpl => feishucard_CallBack show_records cx took tpl ctx
  | MmSender tpl => mm_CallBack show_records cx took tpl ctx
  | TelegramSender tpl => telegram_CallBack show_records cx took tpl ctx
  | LarkSender tpl => lark_CallBack show_records cx took tpl ctx
  | LarkCardSender tpl => larkcard_CallBack show_records cx took tpl ctx
  | EmailSender _ _ _ => Ret
  end.

Definition CallBack (c : CallBacker) (tc : task_caches) (now : Z) (ctx : CallBackContext) : list action :=
  match c with
  | RobotCallBacker r => [AAct (lift (robot_CallBack r ctx))]
  | IbexCallBacker =>
      match cb_Events ctx with
      | event :: _ =>
          if (String.length (cb_URL ctx) =? 0)%nat || Event.IsRecovered event then []
          else [AAct (lift (λ s, Ret (s <| ss_world := handleIbex show_task cx (cb_URL ctx) tc event now (ss_world s) |>)))]
      | [] => []
      end
  | DefaultCallBacker =>
      match cb_Events ctx with
      | event :: _ =>
          if (String.length (cb_URL ctx) =? 0)%nat then []
          else if cb_BatchSend ctx then [ABatch CallbackQ (callback_webhook (cb_URL ctx))]
          else [AAct (lift (doSendAndRecord show_records cx took (cb_URL ctx) (cb_URL ctx) (BEvent event) "callback"
                              (cb_Events ctx)))]
      | [] => []
      end
  end.

(** The dispatcher: the senders of the channels, what serves the callbacks of a
    domain, and the settings and caches it reads. *)
Record dispatcher := mkDispatcher {
  e_Senders : gmap string Sender;
  e_CallBacks : gmap string CallBacker;
  e_users : gmap Z User;
  e_tasks : task_caches;
  e_WebhookBatchSend : bool;
  e_script : NotifyScript
}.

Definition BuildCallBackContext (d : dispatcher) (url : string) (event : AlertCurEvent) (uids : list Z) :
    CallBackContext :=
  mkCallBackContext (ParseURL event url) (GetByUserIds (e_users d) uids) [event] (e_WebhookBatchSend d).

(** Calling the callbacker of a domain panics when there is none. *)
Definition call_domain (d : dispatcher) (domain : string) (now : Z) (ctx : CallBackContext) : go (list action) :=
  match e_CallBacks d !! domain with
  | Some c => Ret (CallBack c (e_tasks d) now ctx)
  | None => Panic
  end.

(** One callback URL of an event. *)
Definition send_callback (d : dispatcher) (target : NotifyTarget) (event : AlertCurEvent) (now : Z)
    (urlStr : string) : go (list action) :=
  if (String.length urlStr =? 0)%nat then Ret []
  else
    let cbCtx := BuildCallBackContext d urlStr event (ToUidList target) in
    if negb (OverrideGlobalWebhook event)
       && match webhooks target !! cb_URL cbCtx with Some wh => Hook.Enable wh | None => false end
    then Ret []
    else if has_prefix urlStr "${ibex}" then call_domain d IbexDomain now cbCtx
    else
      let cbCtx := if negb (has_prefix urlStr "http://" || has_prefix urlStr "https://")
                   then mkCallBackContext ("http://" +:+ urlStr) (cb_Users cbCtx) (cb_Events cbCtx) (cb_BatchSend cbCtx)
                   else cbCtx in
      match url_Parse urlStr with
      | Err _ => Ret []
      | Ok u =>
          if String.eqb (u_Host u) FeishuDomain && String.eqb (query_Get u "card") "1"
          then call_domain d FeishuCardDomain now cbCtx
          else if String.eqb (u_Host u) LarkDomain && String.eqb (query_Get u "card") "1"
          then call_domain d LarkCardDomain now cbCtx
          else match e_CallBacks d !! u_Host u with
               | Some c => Ret (CallBack c (e_tasks d) now cbCtx)
               | None => call_domain d DefaultDomain now cbCtx
               end
      end.

Fixpoint concat_go {A B} (f : A → go (list B)) (l : list A) : go (list B) :=
  match l with
  | [] => Ret []
  | x :: l => a ← f x; b ← concat_go f l; Ret (a ++ b)
  end.

Definition ToCallbackList (t : NotifyTarget) : list string := map fst (go_range (gset_to_gmap tt (callbacks t))).

Definition SendCallbacks (d : dispatcher) (target : NotifyTarget) (event : AlertCurEvent) (now : Z) :
    go (list action) :=
  concat_go (send_callback d target event now) (ToCallbackList target).

(** The channels of the users, each served by its sender. *)
Definition send_channels (d : dispatcher) (target : NotifyTarget) (event : AlertCurEvent) : list action :=
  omap (λ kv, match e_Senders d !! fst kv with
              | None => None
              | Some s => Some (AAct (λ st : wstate,
                  '(x, m) ← Sender_Send show_records cx took s
                     (mkMessageContext (GetByUserIds (e_users d) (snd kv)) [event]) (ws_s st) (ws_mailch st);
                  Ret (st <| ws_s := x |> <| ws_mailch := m |>)))
              end) (go_range (ToChannelUserMap target)).

(** [Dispatch.Send]: what the goroutine of an event does, in order.  [needSend]
    is the hook [BeforeSenderHook]; [tpls] are the task templates of the rule, and
    [notice] the input of the script, which runs in a goroutine of its own. *)
Definition Dispatch_Send (d : dispatcher) (needSend : bool) (tpls : list Tpl) (notice : string)
    (event : AlertCurEvent) (target : NotifyTarget) (isSubscribe : bool) (now : Z) : go (list action) :=
  cbs ← SendCallbacks d target event now;
  Ret ((if needSend then send_channels d target event else [])
       ++ cbs
       ++ (if negb (OverrideGlobalWebhook event) then
             if e_WebhookBatchSend d then BatchSendWebhooks (webhooks target)
             else [AAct (λ s, Ret (SingleSendWebhooks show_records cx webhook_Hash send_stamp (webhooks target) event s))]
           else [])
       ++ [AAct (lift (λ s, Ret (MayPluginNotify show_records cx send_stamp notice (e_script d) event s)))]
       ++ (if negb isSubscribe
           then [AAct (lift (λ s, Ret (s <| ss_world := HandleIbex show_task cx tpls (e_tasks d) event now (ss_world s) |>)))]
           else [])).
End callbacks.

(** ** Properties: who may run a task *)

(** The user who wrote the template is an administrator, or the host belongs to
    the group of the template. *)
Definition permitted (c : task_caches) (id : Z) (host : string) : Prop :=
  ∃ tpl, tc_tpls c !! id = Some tpl ∧
    ((∃ u, tc_users c !! TskTpl.UpdateBy tpl = Some u ∧ AdminRole ∈ Usr.RolesLst u) ∨
     (∃ t, tc_targets c !! host = Some t ∧ TskTpl.GroupId tpl ∈ Tgt.GroupIds t)).

Lemma MatchGroupId_elem t gid : MatchGroupId t [gid] = true ↔ gid ∈ Tgt.GroupIds t.
Proof.
  unfold MatchGroupId. rewrite existsb_elem_of. simpl. setoid_rewrite orb_false_r.
  setoid_rewrite Z.eqb_eq. naive_solver.
Qed.

Lemma IsAdmin_elem u : IsAdmin u = true ↔ AdminRole ∈ Usr.RolesLst u.
Proof.
  unfold IsAdmin. rewrite existsb_elem_of. setoid_rewrite String.eqb_eq. naive_solver.
Qed.

Lemma CanDoIbex_permitted c id tpl host :
  tc_tpls c !! id = Some tpl → CanDoIbex (TskTpl.UpdateBy tpl) tpl host c = true ↔ permitted c id host.
Proof.
  intros Htpl. unfold CanDoIbex, permitted. split.
  - intros H. exists tpl. split; [done|].
    destruct (tc_users c !! TskTpl.UpdateBy tpl) as [u|] eqn:Hu; [destruct (IsAdmin u) eqn:Ha|].
    + left. exists u. split; [done|]. by apply IsAdmin_elem.
    + right. destruct (tc_targets c !! host) as [t|]; [|done]. exists t. split; [done|]. by apply MatchGroupId_elem.
    + right. destruct (tc_targets c !! host) as [t|]; [|done]. exists t. split; [done|]. by apply MatchGroupId_elem.
  - intros (tpl' & Htpl' & H). simplify_eq. destruct H as [(u & -> & Hu)|(t & -> & Ht)].
    + apply IsAdmin_elem in Hu. by rewrite Hu.
    + apply MatchGroupId_elem in Ht. repeat case_match; done.
Qed.

Section ibex_spec.
Context {World : Type} `{NW : Network World, IB : IbexLib World}.
Context `{!Json (gmap string string), !Json TaskRecord, !Json (DataResponse iface)}.
Context (show_task : TaskRecord → string) (cx : center_ctx).
Implicit Types w : World.

Lemma CallIbex_not_permitted id host c event args now w :
  ¬ permitted c id host → fst (CallIbex show_task cx id host c event args now w) = w.
Proof.
  intros Hno. unfold CallIbex. destruct (tc_tpls c !! id) as [tpl|] eqn:Htpl; [|done].
  destruct (CanDoIbex _ _ _ _) eqn:Hcan; [|done].
  by apply (CanDoIbex_permitted _ _ _ _ Htpl) in Hcan.
Qed.

(** The hosts a template of the rule is run on for an event. *)
Definition task_hosts (t : Tpl) (event : AlertCurEvent) : list string :=
  if (length (TaskTpl.Host t) =? 0)%nat then [Event.TargetIdent event] else TaskTpl.Host t.

Lemma foldl_id {A B} (f : A → B → A) l a : (∀ a b, b ∈ l → f a b = a) → foldl f a l = a.
Proof.
  intros Hf. apply (foldl_invariant (λ a', a' = a)); [done|]. intros a' b Hb ->. by apply Hf.
Qed.

(** C29. Self-healing does nothing to the outside world unless the event is an alert,
    and the rule names a template and a host for which the author of the template
    is an administrator or the host is in the group of the template. *)
Theorem HandleIbex_authorised tpls c event now w :
  (Event.IsRecovered event = true ∨
   ∀ t host, t ∈ tpls → TaskTpl.TplId t ≠ 0 → host ∈ task_hosts t event →
             ¬ permitted c (TaskTpl.TplId t) host) →
  HandleIbex show_task cx tpls c event now w = w.
Proof.
  intros H. unfold HandleIbex. destruct (Event.IsRecovered event); [done|].
  destruct H as [|H]; [done|]. apply foldl_id. intros w' t Ht.
  destruct (Z.eqb_spec (TaskTpl.TplId t) 0) as [|Hne]; [done|].
  pose proof (λ host, H t host Ht Hne) as Hno. unfold task_hosts in Hno.
  destruct (length (TaskTpl.Host t) =? 0)%nat.
  - apply CallIbex_not_permitted, Hno. by left.
  - apply foldl_id. intros w'' host Hh. by apply CallIbex_not_permitted, Hno.
Qed.
End ibex_spec.

(** ** Properties: the text of a record is cut between runes *)

(** Positions reached by walking over whole runes. *)
Inductive rune_boundary (s : string) : nat → Prop :=
| boundary_start : rune_boundary s 0
| boundary_next i : rune_boundary s i → (i < String.length s)%nat →
    rune_boundary s (i + rune_width (str_drop i s)).

Lemma rune_width_bounds s : s ≠ "" → (1 ≤ rune_width s ≤ 4)%nat.
Proof. destruct s; [done|]. intros _. unfold rune_width. repeat case_match; lia. Qed.

Lemma str_drop_drop n m s : str_drop n (str_drop m s) = str_drop (m + n) s.
Proof.
  revert s. induction m as [|m IH]; intros s; simpl; [done|]. destruct s; simpl; [by destruct n|apply IH].
Qed.

Lemma str_drop_nonempty i s : str_drop i s ≠ "" ↔ (i < String.length s)%nat.
Proof.
  split; intros H.
  - assert (String.length (str_drop i s) ≠ 0%nat) as Hl by (by destruct (str_drop i s)).
    rewrite str_drop_length in Hl. lia.
  - intros He. pose proof (str_drop_length i s) as Hl. rewrite He in Hl. simpl in Hl. lia.
Qed.

(** The walk ends at a boundary within the limit; with enough fuel, the text ends
    there or the next rune does not fit. *)
Lemma valid_length_spec fuel limit i s :
  rune_boundary s i → (i ≤ limit)%nat → (limit - i ≤ fuel)%nat →
  let n := valid_length fuel limit i (str_drop i s) in
  rune_boundary s n ∧ (n ≤ limit)%nat ∧
  (String.length s ≤ n ∨ limit < n + rune_width (str_drop n s))%nat.
Proof.
  revert i. induction fuel as [|fuel IH]; intros i Hb Hi Hf; simpl.
  - assert (i = limit) as -> by lia. split_and!; [done..|].
    destruct (decide (limit < String.length s)%nat) as [Hlt|]; [right|left; lia].
    pose proof (rune_width_bounds (str_drop limit s)) as Hw. rewrite str_drop_nonempty in Hw. lia.
  - destruct (String.eqb_spec (str_drop i s) "") as [He|Hne].
    { rewrite andb_false_r. split_and!; [done..|]. left.
      destruct (decide (i < String.length s)%nat) as [Hlt|]; [|lia]. by apply str_drop_nonempty in Hlt. }
    pose proof (rune_width_bounds _ Hne) as Hw. apply str_drop_nonempty in Hne.
    destruct (Nat.ltb_spec i limit) as [Hlt|Hge]; simpl.
    + destruct (Nat.ltb_spec limit (i + rune_width (str_drop i s))); [by auto|].
      rewrite str_drop_drop. apply IH; [by constructor|lia|lia].
    + assert (i = limit) as -> by lia. split_and!; [done..|]. right. lia.
Qed.

Lemma substring_prefix_length n s : (n ≤ String.length s)%nat → String.length (String.substring 0 n s) = n.
Proof. revert s. induction n as [|n IH]; intros [|c s]; simpl; try done; [lia|]. intros. rewrite IH; lia. Qed.

Lemma valid_length_start s : valid_length 512 512 0 s = valid_length 512 512 0 (str_drop 0 s).
Proof. done. Qed.

Lemma byte_in_lt lo hi s i : byte_in lo hi s i = true → (i < String.length s)%nat.
Proof.
  unfold byte_in. destruct (String.get i s) eqn:Hg; [|done]. intros _. revert i Hg.
  induction s as [|c s IH]; intros i Hg; simpl in *; [done|]. destruct i; [lia|]. apply IH in Hg. lia.
Qed.

Lemma rune_width_le s : (rune_width s ≤ String.length s)%nat.
Proof.
  destruct s as [|c s]; [done|]. set (x := String c s).
  assert (1 ≤ String.length x)%nat by (simpl; lia).
  assert (∀ lo hi i n, byte_in lo hi x i = true → (n ≤ S i)%nat → (n ≤ String.length x)%nat) as Hb.
  { intros lo hi i n Hlt%byte_in_lt. lia. }
  unfold rune_width. subst x. repeat case_match; bool_prop; eauto; try lia.
  all: eapply Hb; [eassumption|lia].
Qed.

Lemma rune_boundary_le s i : rune_boundary s i → (i ≤ String.length s)%nat.
Proof.
  induction 1 as [|i Hb IH Hi]; [lia|]. pose proof (rune_width_le (str_drop i s)) as Hw.
  rewrite str_drop_length in Hw. lia.
Qed.

(** The output kept in a record of the script has at most 515 bytes.  A longer
    output is cut at the last place within 512 bytes that is between two runes. *)
Theorem truncate_output_spec res :
  (String.length (truncate_output res) ≤ 515)%nat ∧
  ((String.length res ≤ 512)%nat → truncate_output res = res) ∧
  ((512 < String.length res)%nat →
   ∃ n, truncate_output res = String.substring 0 n res +:+ "..." ∧ rune_boundary res n ∧
        (n ≤ 512 < n + rune_width (str_drop n res))%nat).
Proof.
  unfold truncate_output. destruct (Nat.ltb_spec 512 (String.length res)) as [Hlt|Hle].
  - rewrite valid_length_start.
    destruct (valid_length_spec 512 512 0 res) as (Hb & Hn & Hmax); [constructor|lia..|].
    set (n := valid_length _ _ _ _) in *. apply rune_boundary_le in Hb as Hbl. split_and!.
    + rewrite slength_app, substring_prefix_length by lia. simpl. lia.
    + lia.
    + intros _. exists n. split_and!; [done..|]. lia.
  - split_and!; [lia|done|lia].
Qed.

(** ** Runes *)

Definition replacement_rune : string :=
  String (Ascii.ascii_of_nat 239) (String (Ascii.ascii_of_nat 191) (String (Ascii.ascii_of_nat 189) "")).

(** [[]rune(s)], each rune as the bytes [string] writes for it; an invalid byte is
    the replacement character. *)
Fixpoint runes_from (fuel : nat) (s : string) : list string :=
  match fuel, s with
  | S fuel, String c _ =>
      let n := rune_width s in
      (if (n =? 1)%nat && negb (is_ascii c) then replacement_rune else String.substring 0 n s)
        :: runes_from fuel (str_drop n s)
  | _, _ => []
  end.
Definition runes (s : string) : list string := runes_from (String.length s) s.

(** More fuel than bytes makes no difference. *)
Lemma runes_from_fuel n s : (String.length s ≤ n)%nat → runes_from n s = runes s.
Proof.
  unfold runes. enough (∀ k m t, (String.length t ≤ k → String.length t ≤ m → runes_from k t = runes_from m t)%nat) as He
    by (intros; by apply He).
  clear n s. induction k as [|k IH]; intros m t Hk Hm; destruct t as [|c t], m as [|m]; simpl in Hk, Hm; try done; try lia.
  set (s := String c t). assert (s ≠ "") as Hne by done. pose proof (rune_width_bounds s Hne) as Hw.
  change (runes_from (S k) s) with ((if (rune_width s =? 1)%nat && negb (is_ascii c) then replacement_rune
    else String.substring 0 (rune_width s) s) :: runes_from k (str_drop (rune_width s) s)).
  change (runes_from (S m) s) with ((if (rune_width s =? 1)%nat && negb (is_ascii c) then replacement_rune
    else String.substring 0 (rune_width s) s) :: runes_from m (str_drop (rune_width s) s)).
  f_equal. apply IH; rewrite str_drop_length; change (String.length s) with (S (String.length t)); lia.
Qed.
