(* ===== verification/Writers.v ===== *)
(** * Writing samples: [pushgw/writer]

    The samples that arrive wait in queues; a consumer of each queue hands them
    to the backends, remote-write servers and Kafka.  Handlers and consumers are
    goroutines that share the queues ([pstep]).  A backend that is written to in
    the consumer's own goroutine changes the samples in place, so that the next
    backend sees the change; the others get a copy. *)

From S2P Require Import Prelude GoStrings Json Models RuleModels EventOps Filter Relabel Http Queues.
Open Scope string_scope.
Open Scope Z_scope.
Open Scope list_scope.

(** [prompb.Sample], [prompb.TimeSeries]. *)
Record Sample := mkSample { sm_Value : float64; sm_Timestamp : Z }.
Record TimeSeries := mkTimeSeries { ts_Labels : list Label; ts_Samples : list Sample }.

(** Encoding a request ([proto], [snappy], and JSON for Kafka), the prometheus
    client, and a Kafka producer. *)
Class Codec (World : Type) := {
  proto_marshal : list TimeSeries → result string;
  snappy_Encode : string → string;
  json_series : list TimeSeries → result string;
  api_Do : World → Request → World * result Response;
  kafka_Send : World → string → string → string → World * option error
}.

Record WriterOptions := mkWriterOptions {
  wo_Url : string;
  wo_BasicAuthUser : string;
  wo_BasicAuthPass : string;
  wo_AsyncWrite : bool;
  wo_Headers : list string;
  wo_WriteRelabels : list RelabelConfig
}.

Record WriterType := mkWriterType {
  wt_Opts : WriterOptions;
  wt_ForceUseServerTS : bool;
  wt_RetryCount : Z;
  wt_RetryInterval : Z
}.

Record KafkaWriterType := mkKafkaWriterType {
  kw_Brokers : list string;
  kw_Topic : string;
  kw_WriteRelabels : list RelabelConfig;
  kw_ForceUseServerTS : bool;
  kw_RetryCount : Z;
  kw_RetryInterval : Z
}.

(** The implementations of the interface [Writer]. *)
Inductive Writer :=
| HttpWriter (w : WriterType)
| KafkaWriter (w : KafkaWriterType)
| OtherWriter (name : string).

(** ** Before writing *)

(** The first sample of every series gets the time of the server. *)
Definition stamp_series (ts : Z) (item : TimeSeries) : TimeSeries :=
  match ts_Samples item with
  | [] => item
  | s :: ss => mkTimeSeries (ts_Labels item) (mkSample (sm_Value s) ts :: ss)
  end.

Definition force_server_ts (forceUseServerTS : bool) (now : Z) (items : list TimeSeries) : list TimeSeries :=
  if forceUseServerTS then map (stamp_series (now * 1000)) items else items.

Definition isNaN (f : float64) : bool := match f with NaN => true | _ => false end.

Definition has_NaN (items : list TimeSeries) : bool :=
  existsb (λ item, existsb (λ s, isNaN (sm_Value s)) (ts_Samples item)) items.

(** The loop that moves the samples that are not NaN to the front, in place:
    [valid] is [validCount] and [j] the position it reads. *)
Fixpoint compact (samples : list Sample) (j valid n : nat) : list Sample * nat :=
  match n with
  | O => (samples, valid)
  | S n =>
      match samples !! j with
      | None => (samples, valid)
      | Some s =>
          if isNaN (sm_Value s) then compact samples (S j) valid n
          else compact (if (valid =? j)%nat then samples else <[valid := s]> samples) (S j) (S valid) n
      end
  end.

Definition filter_series (item : TimeSeries) : TimeSeries :=
  let samples := ts_Samples item in
  let '(samples, validCount) := compact samples 0 0 (length samples) in
  mkTimeSeries (ts_Labels item) (take validCount samples).

Definition filterNaNSamples (items : list TimeSeries) : list TimeSeries :=
  if negb (has_NaN items) then items else map filter_series items.

Section write.
Context {World : Type} `{CO : Codec World, NW : Network World, GR : GoRange}.
Context `{RS : RegexpSub, M5 : Md5, LN : LabelNames, UC : UnicodeCase}.
Implicit Types w : World.

Inductive encoding := Proto | JsonText.

(** The items, changed in place, and their encoding. *)
Definition beforeWrite (items : list TimeSeries) (forceUseServerTS : bool) (now : Z) (enc : encoding) :
    list TimeSeries * result string :=
  let items := force_server_ts forceUseServerTS now items in
  match enc with
  | Proto => (items, proto_marshal items)
  | JsonText => let items := filterNaNSamples items in (items, json_series items)
  end.

(** [Relabel]: the series that keep a label, with its new labels. *)
Definition Relabel_items (items : list TimeSeries) (rc : list RelabelConfig) : go (list TimeSeries) :=
  ritems ← relabel_series (map (λ t, (Some (ts_Labels t), ts_Samples t)) items) rc;
  Ret (map (λ it, mkTimeSeries (default [] (fst it)) (snd it)) ritems).

(** ** [Post] *)

Fixpoint add_headers (hs : list string) (r : Request) : Request :=
  match hs with
  | k :: v :: hs =>
      let r := set_header k v r in
      add_headers hs (if String.eqb k "Host" then r <| rq_host := v |> else r)
  | _ => r
  end.

Definition post_request (o : WriterOptions) (headers : option (gmap string string)) (r : Request) : Request :=
  let r := set_header "Content-Encoding" "snappy" r in
  let r := set_header "Content-Type" "application/x-protobuf" r in
  let r := set_header "User-Agent" "n9e" r in
  let r := set_header "X-Prometheus-Remote-Write-Version" "0.1.0" r in
  let r := match headers with
           | Some hs => foldl (λ r kv, set_header (fst kv) (snd kv) r) r (go_range hs)
           | None => r
           end in
  let r := if negb (String.eqb (wo_BasicAuthUser o) "")
           then r <| rq_auth := Some (wo_BasicAuthUser o, wo_BasicAuthPass o) |> else r in
  let n := length (wo_Headers o) in
  if (0 <? n)%nat && (n mod 2 =? 0)%nat then add_headers (wo_Headers o) r else r.

(** How a URL answered: it took the data; it refused them (a status of 4xx), or
    no request could be made, which counts as no error; or it failed. *)
Inductive post_outcome := PostDone | PostSkipped | PostFailed (err : error).
#[local] Instance post_outcome_eq_dec : EqDecision post_outcome.
Proof. solve_decision. Defined.

Definition post_url (o : WriterOptions) (headers : option (gmap string string)) (req url : string) w :
    World * post_outcome :=
  match NewRequest "POST" url req with
  | Err _ => (w, PostSkipped)
  | Ok r =>
      match api_Do w (post_request o headers r) with
      | (w, Err e) => (w, PostFailed e)
      | (w, Ok resp) =>
          if (400 <=? StatusCode resp) && (StatusCode resp <? 500) then (w, PostSkipped)
          else if 500 <=? StatusCode resp then
            (w, PostFailed ("push data with remote write:" +:+ url +:+ " request got status code: "
                            +:+ itoa (StatusCode resp) +:+ ", response body: " +:+ rs_body resp))
          else (w, PostDone)
      end
  end.

Fixpoint post_urls (o : WriterOptions) (headers : option (gmap string string)) (req : string)
    (urls : list string) w (err : option error) : World * option error :=
  match urls with
  | [] => (w, err)
  | url :: urls =>
      match post_url o headers req url w with
      | (w, PostDone) => (w, None)
      | (w, PostSkipped) => post_urls o headers req urls w err
      | (w, PostFailed e) => post_urls o headers req urls w (Some e)
      end
  end.

Definition Post (o : WriterOptions) (headers : option (gmap string string)) (req : string) w :
    World * option error :=
  post_urls o headers req (split (wo_Url o) ",") w None.

Fixpoint retry (n : nat) (send : World → World * option error) w : World :=
  match n with
  | O => w
  | S n => match send w with
           | (w, None) => w
           | (w, Some _) => retry n send w
           end
  end.

(** ** [Write] *)

(** The series of the caller after a write: those that were kept have the
    samples the writer changed in place. *)
Fixpoint written_back (items : list TimeSeries) (kept : list bool) (stamp : TimeSeries → TimeSeries) : list TimeSeries :=
  match items, kept with
  | item :: items, k :: kept =>
      (if k then mkTimeSeries (ts_Labels item) (ts_Samples (stamp item)) else item)
      :: written_back items kept stamp
  | _, _ => items
  end.

(** Which items relabelling keeps. *)
Fixpoint kept_by (items : list TimeSeries) (rc : list RelabelConfig) : go (list bool) :=
  match items with
  | [] => Ret []
  | item :: items =>
      lbls ← relabel_all (Some (ts_Labels item)) rc;
      rest ← kept_by items rc;
      Ret (negb (length (default [] lbls) =? 0)%nat :: rest)
  end.

(** [WriterType.Write]: the world, and the items the caller still holds. *)
Definition http_Write (wr : WriterType) (items : list TimeSeries) (headers : option (gmap string string)) (now : Z) w :
    go (World * list TimeSeries) :=
  if (length items =? 0)%nat then Ret (w, items)
  else
    ritems ← Relabel_items items (wo_WriteRelabels (wt_Opts wr));
    if (length ritems =? 0)%nat then Ret (w, items)
    else
      kept ← kept_by items (wo_WriteRelabels (wt_Opts wr));
      let items := if wt_ForceUseServerTS wr then written_back items kept (stamp_series (now * 1000)) else items in
      match beforeWrite ritems (wt_ForceUseServerTS wr) now Proto with
      | (_, Err _) => Ret (w, items)
      | (_, Ok data) =>
          Ret (retry (Z.to_nat (wt_RetryCount wr)) (Post (wt_Opts wr) headers (snappy_Encode data)) w, items)
      end.

(** [KafkaWriterType.Write], on a copy. *)
Definition kafka_Write (kw : KafkaWriterType) (key : string) (items : list TimeSeries) (now : Z) w : go World :=
  if (length items =? 0)%nat then Ret w
  else
    ritems ← Relabel_items items (kw_WriteRelabels kw);
    if (length ritems =? 0)%nat then Ret w
    else
      match beforeWrite ritems (kw_ForceUseServerTS kw) now JsonText with
      | (_, Err _) => Ret w
      | (_, Ok data) =>
          Ret (retry (Z.to_nat (kw_RetryCount kw)) (λ w, kafka_Send w (kw_Topic kw) key data) w)
      end.

(** ** The backends *)

Definition isCriticalBackend (backends : gmap string Writer) (key : string) : bool :=
  match backends !! key with
  | None => false
  | Some (HttpWriter w) => negb (wo_AsyncWrite (wt_Opts w))
  | Some (KafkaWriter _) => false
  | Some (OtherWriter _) => true
  end.

(** The slices of samples are copied; labels are never changed in place. *)
Definition deepCopySeries (series : list TimeSeries) : list TimeSeries :=
  map (λ t, mkTimeSeries (ts_Labels t) (ts_Samples t)) series.

(** The writes that wait in goroutines of their own, with their data, and the
    counter of those. *)
Record cstate := mkCstate {
  c_world : World;
  c_running : list (string * list TimeSeries);
  c_PushConcurrency : Z
}.
#[global] Instance cstate_eta : Settable cstate := λ r, mkCstate (c_world r) (c_running r) (c_PushConcurrency r).
Implicit Types c : cstate.

Definition writeToNonCriticalBackend (limit : Z) (key : string) (series : list TimeSeries) c : cstate :=
  let currentConcurrency := c_PushConcurrency c + 1 in
  if limit <? currentConcurrency then c
  else c <| c_PushConcurrency := currentConcurrency |>
         <| c_running := c_running c ++ [(key, deepCopySeries series)] |>.

(** The loop over the backends, each seeing the series as the one before left
    them. *)
Fixpoint write_backends (backends : gmap string Writer) (limit now : Z) (keys : list string)
    (series : list TimeSeries) c : go (cstate * list TimeSeries) :=
  match keys with
  | [] => Ret (c, series)
  | key :: keys =>
      '(c, series) ←
        (if isCriticalBackend backends key then
           match backends !! key with
           | Some (HttpWriter wr) =>
               '(w, series) ← http_Write wr series None now (c_world c);
               Ret (c <| c_world := w |>, series)
           | _ => Ret (c, series)
           end
         else Ret (writeToNonCriticalBackend limit key series c, series));
      write_backends backends limit now keys series c
  end.

(** A goroutine of a backend runs and ends. *)
Definition run_backend (backends : gmap string Writer) (now : Z) (i : nat) c : go cstate :=
  match c_running c !! i with
  | None => Ret c
  | Some (key, data) =>
      w ← match backends !! key with
          | Some (HttpWriter wr) => '(w, _) ← http_Write wr data None now (c_world c); Ret w
          | Some (KafkaWriter kw) => kafka_Write kw key data now (c_world c)
          | _ => Ret (c_world c)
          end;
      Ret (mkCstate w (delete i (c_running c)) (c_PushConcurrency c - 1))
  end.

(** [initWriters] and [initKafkaWriters]: a backend for each configured writer,
    by its URL, or by brokers and topic. *)
Definition initWriters (opts : list WriterOptions) (force : bool) (retries interval : Z)
    (backends : gmap string Writer) : gmap string Writer :=
  foldl (λ m o, <[wo_Url o := HttpWriter (mkWriterType o force retries interval)]> m) backends opts.

Definition kafka_key (brokers : list string) (topic : string) : string := fmt_strings brokers +:+ "_" +:+ topic.

Definition initKafkaWriters (opts : list (list string * string * list RelabelConfig)) (force : bool)
    (retries interval : Z) (backends : gmap string Writer) : gmap string Writer :=
  foldl (λ m o, let '(brokers, topic, rc) := o in
                <[kafka_key brokers topic := KafkaWriter (mkKafkaWriterType brokers topic rc force retries interval)]> m)
    backends opts.

(** ** What writing does *)

Lemma filterNaNSamples_compact samples j valid n :
  (valid ≤ j)%nat → (j + n = length samples)%nat →
  let '(samples', valid') := compact samples j valid n in
  take valid' samples' = take valid samples ++ filter (λ s, isNaN (sm_Value s) = false) (drop j samples).
Proof.
  revert samples j valid. induction n as [|n IH]; intros samples j valid Hv Hn; simpl.
  { rewrite drop_ge by lia. by rewrite app_nil_r. }
  assert (is_Some (samples !! j)) as [s Hs] by (apply lookup_lt_is_Some; lia).
  rewrite Hs, (drop_S _ _ _ Hs), filter_cons.
  destruct (isNaN (sm_Value s)) eqn:E.
  - rewrite decide_False by done. apply IH; lia.
  - rewrite decide_True by done. destruct (Nat.eqb_spec valid j) as [->|Hne].
    + specialize (IH samples (S j) (S j)). destruct (compact samples (S j) (S j) n).
      rewrite IH by lia. by rewrite (take_S_r _ _ _ Hs), <- (assoc_L (++)).
    + specialize (IH (<[valid := s]> samples) (S j) (S valid)).
      destruct (compact (<[valid := s]> samples) (S j) (S valid) n).
      rewrite IH by (rewrite ?length_insert; lia).
      rewrite drop_insert_lt by lia. rewrite (take_S_r _ _ s) by (apply list_lookup_insert_eq; lia).
      rewrite take_insert_ge by lia. by rewrite <- (assoc_L (++)).
Qed.

(** Dropping the NaN samples in place keeps the others, in order. *)
Lemma filter_series_spec item :
  filter_series item =
  mkTimeSeries (ts_Labels item) (filter (λ s, isNaN (sm_Value s) = false) (ts_Samples item)).
Proof.
  unfold filter_series. pose proof (filterNaNSamples_compact (ts_Samples item) 0 0 (length (ts_Samples item))) as Hc.
  destruct (compact _ 0 0 _) as [ss n]. rewrite Hc by lia. by rewrite take_0, drop_0.
Qed.

Lemma filterNaNSamples_spec items :
  filterNaNSamples items =
  map (λ item, mkTimeSeries (ts_Labels item) (filter (λ s, isNaN (sm_Value s) = false) (ts_Samples item))) items.
Proof.
  unfold filterNaNSamples. destruct (has_NaN items) eqn:E; simpl.
  - apply map_ext. apply filter_series_spec.
  - rewrite <- (map_id items) at 1. apply map_ext_in. intros item Hin. destruct item as [lbls ss].
    f_equal. symmetry. apply list_filter_all. intros x Hx. simpl in *.
    unfold has_NaN in E. apply (existsb_false_elem_of _ items) with (x := mkTimeSeries lbls ss) in E;
      [|by apply list_elem_of_In].
    by apply (existsb_false_elem_of _ ss) with (x := x) in E.
Qed.

(** ** Posting *)

(** How the URLs answer, one after the other, up to the first that takes the
    data, and the world afterwards. *)
Fixpoint post_outcomes (o : WriterOptions) (headers : option (gmap string string)) (req : string)
    (urls : list string) w : World * list post_outcome :=
  match urls with
  | [] => (w, [])
  | url :: urls =>
      match post_url o headers req url w with
      | (w, PostDone) => (w, [PostDone])
      | (w, x) => let '(w, xs) := post_outcomes o headers req urls w in (w, x :: xs)
      end
  end.

Definition outcome_error (x : post_outcome) : option error := match x with PostFailed e => Some e | _ => None end.

Lemma post_urls_outcomes o headers req urls w err :
  post_urls o headers req urls w err =
  let '(w', xs) := post_outcomes o headers req urls w in
  (w', if decide (PostDone ∈ xs) then None
       else match last (omap outcome_error xs) with Some e => Some e | None => err end).
Proof.
  revert w err. induction urls as [|url urls IH]; intros w err; cbn [post_urls post_outcomes].
  { by rewrite decide_False by set_solver. }
  destruct (post_url o headers req url w) as [w1 [| |e]].
  - by rewrite decide_True by set_solver.
  - rewrite IH. destruct (post_outcomes o headers req urls w1) as [w2 xs]. f_equal.
    destruct (decide (PostDone ∈ xs)); [by rewrite decide_True by set_solver|].
    by rewrite decide_False by set_solver.
  - rewrite IH. destruct (post_outcomes o headers req urls w1) as [w2 xs]. f_equal.
    destruct (decide (PostDone ∈ xs)); [by rewrite decide_True by set_solver|].
    rewrite decide_False by set_solver. cbn [omap list_omap outcome_error]. rewrite last_cons.
    by destruct (last (omap outcome_error xs)).
Qed.

(** [Post] reports no error exactly when some URL took the data, or none failed:
    data that every URL refused with a status of 4xx, or for which no request
    could be made, count as written and are not tried again. *)
Theorem Post_error_iff o headers req w :
  let '(w', xs) := post_outcomes o headers req (split (wo_Url o) ",") w in
  fst (Post o headers req w) = w' ∧
  (snd (Post o headers req w) = None ↔ PostDone ∈ xs ∨ ∀ e, PostFailed e ∉ xs).
Proof.
  unfold Post. rewrite post_urls_outcomes.
  destruct (post_outcomes o headers req (split (wo_Url o) ",") w) as [w' xs]. simpl. split; [done|].
  case_decide as Hd; [naive_solver|].
  assert ((∀ e, PostFailed e ∉ xs) ↔ omap outcome_error xs = []) as ->.
  { split.
    - intros Hno. destruct (omap outcome_error xs) as [|e es] eqn:E; [done|].
      assert (e ∈ omap outcome_error xs) as He by (rewrite E; by left).
      apply list_elem_of_omap in He as (x & Hx & He). destruct x; simplify_eq/=. by destruct (Hno e).
    - intros Hnil e He. assert (e ∈ omap outcome_error xs) as Hin.
      { apply list_elem_of_omap. by exists (PostFailed e). }
      rewrite Hnil in Hin. set_solver. }
  generalize (omap outcome_error xs). intros es. destruct es as [|e es _] using rev_ind; [naive_solver|].
  rewrite last_snoc. split; [done|]. intros [?|Hn]; [done|]. by destruct es.
Qed.

(** ** Backends do not disturb each other *)

(** The same series up to the time of the first sample. *)
Definition same_series (a b : TimeSeries) : Prop :=
  ts_Labels a = ts_Labels b ∧ map sm_Value (ts_Samples a) = map sm_Value (ts_Samples b) ∧
  tail (ts_Samples a) = tail (ts_Samples b).
Definition same_data : list TimeSeries → list TimeSeries → Prop := Forall2 same_series.

#[local] Instance same_series_equiv : Equivalence same_series.
Proof.
  unfold same_series. split; [done|intros a b; naive_solver|].
  intros a b d (H1 & H2 & H3) (K1 & K2 & K3). split_and!; congruence.
Qed.
#[local] Instance same_data_equiv : Equivalence same_data.
Proof. unfold same_data. apply _. Qed.

Lemma stamp_series_same ts item :
  map sm_Value (ts_Samples (stamp_series ts item)) = map sm_Value (ts_Samples item) ∧
  tail (ts_Samples (stamp_series ts item)) = tail (ts_Samples item).
Proof. unfold stamp_series. by destruct (ts_Samples item) as [|s ss] eqn:E; rewrite ?E. Qed.

Lemma written_back_same items kept ts : same_data (written_back items kept (stamp_series ts)) items.
Proof.
  revert kept. induction items as [|item items IH]; intros [|k kept]; simpl; [done..|].
  constructor; [|apply IH]. destruct k; [|done]. unfold same_series. simpl.
  destruct (stamp_series_same ts item). auto.
Qed.

Lemma http_Write_same wr items headers now w w' items' :
  http_Write wr items headers now w = Ret (w', items') → same_data items' items.
Proof.
  unfold http_Write. destruct (length items =? 0)%nat; [by intros [= <- <-]|].
  intros (ritems & _ & Hr)%go_bind_Ret. destruct (length ritems =? 0)%nat; [by simplify_eq|].
  apply go_bind_Ret in Hr as (kept & _ & Hr).
  assert (items' = if wt_ForceUseServerTS wr then written_back items kept (stamp_series (now * 1000)) else items) as ->.
  { destruct (beforeWrite _ _ _ _) as [? []]; by simplify_eq. }
  destruct (wt_ForceUseServerTS wr); [apply written_back_same|done].
Qed.

(** The counter is the number of goroutines, and within the limit. *)
Definition concurrency_ok (limit : Z) c : Prop :=
  c_PushConcurrency c = Z.of_nat (length (c_running c)) ∧ c_PushConcurrency c ≤ limit.

Lemma deepCopySeries_id series : deepCopySeries series = series.
Proof. unfold deepCopySeries. rewrite <- (map_id series) at 2. apply map_ext. by intros []. Qed.

Lemma writeToNonCriticalBackend_ok limit key series c :
  concurrency_ok limit c →
  concurrency_ok limit (writeToNonCriticalBackend limit key series c) ∧
  (c_running (writeToNonCriticalBackend limit key series c) =
     if bool_decide (c_PushConcurrency c < limit) then c_running c ++ [(key, series)] else c_running c) ∧
  c_world (writeToNonCriticalBackend limit key series c) = c_world c.
Proof.
  intros [Hn Hl]. unfold writeToNonCriticalBackend, concurrency_ok. rewrite deepCopySeries_id.
  destruct (Z.ltb_spec limit (c_PushConcurrency c + 1)); simpl; rsimp.
  - rewrite bool_decide_false by lia. done.
  - rewrite bool_decide_true by lia. rewrite length_app. simpl. split_and!; [lia|lia|done|done].
Qed.

(** Whatever the other backends do to the samples in place, every backend gets
    all the series, with their labels and values; only the time of a first sample
    may be the time of the server.  The goroutines never exceed the limit: when it
    is reached, the series are dropped for that backend. *)
Theorem write_backends_isolated backends limit now keys series c c' series' :
  concurrency_ok limit c → write_backends backends limit now keys series c = Ret (c', series') →
  concurrency_ok limit c' ∧ same_data series' series ∧
  ∃ new, c_running c' = c_running c ++ new ∧
    Forall (λ kd, fst kd ∈ keys ∧ isCriticalBackend backends (fst kd) = false ∧ same_data (snd kd) series) new ∧
    (Z.of_nat (length (c_running c)) + Z.of_nat (length keys) ≤ limit →
     map fst new = filter (λ k, isCriticalBackend backends k = false) keys).
Proof.
  revert series c. induction keys as [|key keys IH]; intros series c Hok Hw; simpl in Hw.
  { simplify_eq. split_and!; [done..|]. exists []. by rewrite app_nil_r. }
  apply go_bind_Ret in Hw as ([c1 s1] & Hstep & Hw).
  rewrite filter_cons. destruct (isCriticalBackend backends key) eqn:Hc.
  - assert (c_running c1 = c_running c ∧ c_PushConcurrency c1 = c_PushConcurrency c ∧ same_data s1 series) as (Hr & Hp & Hs).
    { destruct (backends !! key) as [[wr|kw|name]|]; simplify_eq; try done.
      apply go_bind_Ret in Hstep as ([w' s'] & Hh & Hret). simplify_eq. split_and!; [done..|].
      by eapply http_Write_same. }
    destruct (IH s1 c1) as (Hok' & Hs' & new & Hnew & Hall & Hcount); [|done|].
    { unfold concurrency_ok in *. by rewrite Hr, Hp. }
    rewrite decide_False by done. split_and!; [done|by etrans|]. exists new. rewrite Hr in *. split_and!; [done| |].
    + eapply Forall_impl; [exact Hall|]. intros [k d] (? & ? & ?). split_and!; [set_solver|done|by etrans].
    + intros Hlim. apply Hcount. simpl in Hlim. lia.
  - simplify_eq. destruct (writeToNonCriticalBackend_ok limit key s1 c Hok) as (Hok1 & Hr & _).
    destruct (IH s1 _ Hok1 Hw) as (Hok' & Hs' & new & Hnew & Hall & Hcount).
    rewrite decide_True by done. rewrite Hr in *. split_and!; [done..|].
    destruct Hok as [Hn Hl]. case_bool_decide as Hlt.
    + exists ((key, s1) :: new). rewrite Hnew, <- (assoc_L (++)). split_and!; [done| |].
      * constructor; [split_and!; [set_solver|done|done]|]. eapply Forall_impl; [exact Hall|].
        intros [k d] (? & ? & ?). split_and!; [set_solver|done..].
      * intros Hlim. simpl. f_equal. apply Hcount. rewrite length_app. simpl in *. lia.
    + exists new. split_and!; [done| |].
      * eapply Forall_impl; [exact Hall|]. intros [k d] (? & ? & ?). split_and!; [set_solver|done..].
      * simpl. lia.
Qed.
End write.

(** ** The queues of samples

    [IdentQueue] with, for the proofs, all the samples it accepted and all it gave
    to its consumer. *)
Record IdentQueue := mkIdentQueue {
  iq_list : SafeListLimited TimeSeries;
  iq_closed : bool;
  iq_ts : Z;
  iq_accepted : list TimeSeries;
  iq_handed : list TimeSeries
}.
#[global] Instance IdentQueue_eta : Settable IdentQueue := λ r,
  mkIdentQueue (iq_list r) (iq_closed r) (iq_ts r) (iq_accepted r) (iq_handed r).

Definition NewIdentQueue (QueueMaxSize now : Z) : IdentQueue :=
  mkIdentQueue (NewSafeListLimited QueueMaxSize) false now [] [].

(** The push at the end of [PushSample]: the time of the queue is set even when
    the queue is full. *)
Definition iq_push (now : Z) (v : TimeSeries) (iq : IdentQueue) : IdentQueue :=
  let '(l, succ) := SLL_PushFront (iq_list iq) v in
  mkIdentQueue l (iq_closed iq) now (if succ then iq_accepted iq ++ [v] else iq_accepted iq) (iq_handed iq).

(** A turn of [StartConsumer] up to the backends. *)
Definition iq_pop (popSize : Z) (iq : IdentQueue) : go (IdentQueue * list TimeSeries) :=
  '(l, series) ← SLL_PopBack Some (iq_list iq) popSize;
  Ret (mkIdentQueue l (iq_closed iq) (iq_ts iq) (iq_accepted iq) (iq_handed iq ++ series), series).

(** Where a goroutine is in [PushSample]. *)
Inductive ppc :=
| PReady
| PMissed (queueid : string) (v : TimeSeries)
| PGot (q : nat) (v : TimeSeries).

Record pushstate := mkPushstate {
  pw_queues : gmap string nat;
  pw_store : gmap nat IdentQueue;
  pw_threads : gmap nat ppc
}.
#[global] Instance pushstate_eta : Settable pushstate := λ r, mkPushstate (pw_queues r) (pw_store r) (pw_threads r).

Section samples.
Context (QueueMaxSize QueuePopSize : Z).
Implicit Types p : pushstate.

Definition expired (now : Z) (iq : IdentQueue) : bool := 3600 <? now - iq_ts iq.

(** [CleanExpQueue], which holds the lock of the map. *)
Definition is_expired p (now : Z) (q : nat) : bool :=
  match pw_store p !! q with Some iq => expired now iq | None => false end.

Definition CleanExpQueue p (now : Z) : pushstate :=
  let gone := filter (λ kq, is_expired p now (snd kq) = true) (map_to_list (pw_queues p)) in
  p <| pw_queues := filter (λ kq, is_expired p now (snd kq) = false) (pw_queues p) |>
    <| pw_store := foldl (λ st kq, alter (λ iq, iq <| iq_closed := true |>) (snd kq) st) (pw_store p) gone |>.

(** [SetAllQueueLen]. *)
Definition AllQueueLen p : Z :=
  foldr (λ kq n, n + match pw_store p !! snd kq with Some iq => SLL_Len (iq_list iq) | None => 0 end) 0
    (map_to_list (pw_queues p)).

Inductive pstep : pushstate → pushstate → Prop :=
| pstep_read_hit p t queueid v q :
    pw_threads p !! t = Some PReady → pw_queues p !! queueid = Some q →
    pstep p (p <| pw_threads := <[t := PGot q v]> (pw_threads p) |>)
| pstep_read_miss p t queueid v :
    pw_threads p !! t = Some PReady → pw_queues p !! queueid = None →
    pstep p (p <| pw_threads := <[t := PMissed queueid v]> (pw_threads p) |>)
| pstep_install p t queueid v q now :
    pw_threads p !! t = Some (PMissed queueid v) → pw_store p !! q = None →
    pstep p (p <| pw_threads := <[t := PGot q v]> (pw_threads p) |>
               <| pw_store := <[q := NewIdentQueue QueueMaxSize now]> (pw_store p) |>
               <| pw_queues := <[queueid := q]> (pw_queues p) |>)
| pstep_push p t q v now :
    pw_threads p !! t = Some (PGot q v) →
    pstep p (p <| pw_threads := <[t := PReady]> (pw_threads p) |>
               <| pw_store := alter (iq_push now v) q (pw_store p) |>)
| pstep_clean p now : pstep p (CleanExpQueue p now)
| pstep_consume p q iq iq' series :
    pw_store p !! q = Some iq → iq_closed iq = false → iq_pop QueuePopSize iq = Ret (iq', series) →
    pstep p (p <| pw_store := <[q := iq']> (pw_store p) |>).

Inductive psteps : pushstate → pushstate → Prop :=
| psteps_refl p : psteps p p
| psteps_step p p' p'' : psteps p p' → pstep p' p'' → psteps p p''.

(** What a queue accepted is what it gave out and what it still holds, in order. *)
Definition iq_ok (iq : IdentQueue) : Prop :=
  iq_accepted iq = iq_handed iq ++ reverse (sll_SL (iq_list iq)).

Record pinv p : Prop := {
  pi_ok : ∀ q iq, pw_store p !! q = Some iq → iq_ok iq;
  pi_open : ∀ id q, pw_queues p !! id = Some q →
    ∃ iq, pw_store p !! q = Some iq ∧ iq_closed iq = false;
  pi_inj : ∀ id1 id2 q, pw_queues p !! id1 = Some q → pw_queues p !! id2 = Some q → id1 = id2
}.

Lemma iq_push_ok now v iq : iq_ok iq → iq_ok (iq_push now v iq).
Proof.
  unfold iq_ok, iq_push, SLL_PushFront. intros Hok. destruct (_ <=? _); simpl; [done|].
  unfold SL_PushFront. rewrite Hok, reverse_cons, <- (assoc_L (++)). done.
Qed.

Lemma iq_pop_spec iq :
  0 ≤ QueuePopSize →
  ∃ l' rest, iq_pop QueuePopSize iq =
      Ret (mkIdentQueue (mkSafeListLimited (sll_maxSize (iq_list iq)) l') (iq_closed iq) (iq_ts iq) (iq_accepted iq)
             (iq_handed iq ++ rest), rest) ∧
    sll_SL (iq_list iq) = l' ++ reverse rest ∧
    Z.of_nat (length rest) = Z.min QueuePopSize (SL_Len (sll_SL (iq_list iq))).
Proof.
  intros Hp. destruct (SL_PopBack_spec Some (sll_SL (iq_list iq)) QueuePopSize Hp) as (l' & rest & Hpop & Hl & Hn).
  exists l', rest. unfold iq_pop, SLL_PopBack. rewrite Hpop. simpl.
  assert (omap Some rest = rest) as ->. { clear. induction rest as [|x r IH]; [done|]. cbn. by f_equal. }
  done.
Qed.

Lemma iq_pop_ok iq iq' series :
  0 ≤ QueuePopSize → iq_ok iq → iq_pop QueuePopSize iq = Ret (iq', series) → iq_ok iq' ∧ iq_closed iq' = iq_closed iq.
Proof.
  intros Hp Hok Hpop. destruct (iq_pop_spec iq Hp) as (l' & rest & Heq & Hl & _).
  rewrite Heq in Hpop. simplify_eq. split; [|done]. unfold iq_ok in *. simpl.
  rewrite Hok, Hl, reverse_app, reverse_involutive, (assoc_L (++)). done.
Qed.

(** Closing the expired queues changes no queue but its flag, and none that stays
    in the map. *)
Lemma close_lookup gone (st : gmap nat IdentQueue) q :
  foldl (λ st (kq : string * nat), alter (λ iq, iq <| iq_closed := true |>) (snd kq) st) st gone !! q =
  (λ iq, if decide (q ∈ map snd gone) then iq <| iq_closed := true |> else iq) <$> st !! q.
Proof.
  revert st. induction gone as [|kq gone IH]; intros st; cbn [foldl map].
  { destruct (st !! q) as [iq|]; [|done]. cbn [fmap option_fmap option_map].
    by rewrite decide_False by set_solver. }
  rewrite IH. destruct (decide (q = snd kq)) as [->|Hne].
  - rewrite lookup_alter_eq. destruct (st !! snd kq) as [iq|]; simpl; [|done]. f_equal.
    rewrite (decide_True (P := snd kq ∈ snd kq :: map snd gone)) by set_solver. by case_decide.
  - rewrite lookup_alter_ne by done. destruct (st !! q); simpl; [|done]. f_equal.
    destruct (decide (q ∈ map snd gone)).
    + by rewrite decide_True by set_solver.
    + by rewrite decide_False by set_solver.
Qed.

Lemma CleanExpQueue_inv p now : pinv p → pinv (CleanExpQueue p now).
Proof.
  intros [Hok Hopen Hinj]. unfold CleanExpQueue. split; simpl; rsimp.
  - intros q iq. rewrite close_lookup. intros (iq0 & Hq & ->)%fmap_Some. apply Hok in Hq. by case_decide.
  - intros id q [Hq He]%map_lookup_filter_Some. destruct (Hopen id q Hq) as (iq & Hst & Hcl).
    exists iq. split; [|done]. rewrite close_lookup, Hst. simpl. rewrite decide_False; [done|].
    intros ([id' q'] & Heq & [He' _]%list_elem_of_filter)%list_elem_of_fmap. simpl in *. subst q'. congruence.
  - intros id1 id2 q [H1 _]%map_lookup_filter_Some [H2 _]%map_lookup_filter_Some. by eapply Hinj.
Qed.

Lemma pstep_inv p p' : 0 ≤ QueuePopSize → pinv p → pstep p p' → pinv p'.
Proof.
  intros Hpop Hinv Hs. destruct Hs as [p t id v q Ht Hq|p t id v Ht Hq|p t id v q now Ht Hq|p t q v now Ht|p now
    |p q iq iq' series Hq Hcl Hp].
  - by destruct Hinv; split.
  - by destruct Hinv; split.
  - destruct Hinv as [Hok Hopen Hinj]. split; simpl; rsimp.
    + intros q' iq [[<- <-]|[_ ?]]%lookup_insert_Some; [done|by eapply Hok].
    + intros id' q' [[<- <-]|[_ Hq']]%lookup_insert_Some.
      * rewrite lookup_insert_eq. by eexists.
      * destruct (Hopen id' q' Hq') as (iq & Hst & ?). exists iq. rewrite lookup_insert_ne by congruence. done.
    + intros id1 id2 q' [[<- <-]|[N1 H1]]%lookup_insert_Some [[<- E]|[N2 H2]]%lookup_insert_Some.
      * done.
      * destruct (Hopen _ _ H2) as (? & ? & _). congruence.
      * subst q'. destruct (Hopen _ _ H1) as (? & ? & _). congruence.
      * by eapply Hinj.
  - destruct Hinv as [Hok Hopen Hinj]. split; simpl; rsimp; [|intros id q' Hq'|done].
    + intros q' iq [(<- & iq0 & H0 & ->)|[_ ?]]%lookup_alter_Some; [|by eapply Hok].
      by eapply iq_push_ok, Hok.
    + destruct (Hopen id q' Hq') as (iq & Hst & Hcl). destruct (decide (q' = q)) as [->|].
      * rewrite lookup_alter_eq, Hst. simpl. eexists. split; [done|]. unfold iq_push.
        destruct (SLL_PushFront (iq_list iq) v). done.
      * rewrite lookup_alter_ne by done. eauto.
  - by apply CleanExpQueue_inv.
  - destruct Hinv as [Hok Hopen Hinj].
    destruct (iq_pop_ok iq iq' series Hpop (Hok q iq Hq) Hp) as [Hok' Hcl'].
    split; simpl; rsimp; [|intros id q' Hq'|done].
    + intros q' iq0 [[<- <-]|[_ ?]]%lookup_insert_Some; [done|by eapply Hok].
    + destruct (Hopen id q' Hq') as (iq0 & Hst & Hcl0). destruct (decide (q' = q)) as [->|].
      * rewrite lookup_insert_eq. eexists. split; [done|]. congruence.
      * rewrite lookup_insert_ne by done. eauto.
Qed.

Lemma psteps_inv p p' : 0 ≤ QueuePopSize → pinv p → psteps p p' → pinv p'.
Proof. intros Hpop Hp Hs. induction Hs as [|p0 p1 p2 Hs IH Hstep]; [done|]. eapply pstep_inv; [done|by apply IH|done]. Qed.

(** The consumer of an open queue empties it. *)
Lemma drain p q iq :
  0 < QueuePopSize → pinv p → pw_store p !! q = Some iq → iq_closed iq = false →
  ∃ p' iq', psteps p p' ∧ pw_store p' !! q = Some iq' ∧ sll_SL (iq_list iq') = [] ∧
            iq_accepted iq' = iq_accepted iq ∧ iq_handed iq' = iq_accepted iq.
Proof.
  intros Hpop. remember (length (sll_SL (iq_list iq))) as n eqn:Hn.
  revert p iq Hn. induction n as [n IH] using lt_wf_ind. intros p iq Hn Hinv Hq Hcl.
  pose proof (pi_ok p Hinv q iq Hq) as Hok. destruct (sll_SL (iq_list iq)) as [|x l] eqn:El.
  { exists p, iq. split_and!; [constructor|done..|]. unfold iq_ok in Hok. rewrite El in Hok. by rewrite Hok, app_nil_r. }
  destruct (iq_pop_spec iq) as (l' & rest & Hp & Hl & Hlen); [lia|]. rewrite El in Hl, Hlen.
  set (iq1 := mkIdentQueue _ _ _ _ _) in Hp.
  set (p1 := p <| pw_store := <[q := iq1]> (pw_store p) |>).
  assert (pstep p p1) as Hs by exact (pstep_consume p q iq iq1 rest Hq Hcl Hp).
  assert (length l' < n)%nat as Hlt.
  { subst n. rewrite Hl, length_app, length_reverse. unfold SL_Len in Hlen. simpl in Hlen. lia. }
  destruct (IH (length l') Hlt p1 iq1) as (p' & iq' & Hst & Hq' & Hnil & Ha & Hh); [done| | |done|].
  { eapply pstep_inv; [lia|done|done]. }
  { subst p1. rsimp. apply lookup_insert_eq. }
  exists p', iq'. split_and!; [|done..].
  clear -Hs Hst. induction Hst as [p0|p0 p2 p3 Hst IH Hs']; [eapply psteps_step; [constructor|done]|].
  eapply psteps_step; [by apply IH|done].
Qed.

(** C38. Whatever the handlers, the consumers and the cleaner do, in any order of their steps (of
    which the test of a queue's length and the push after it are one), no sample is lost or repeated or reordered in an open queue: what the queue
    accepted is what its consumer got, followed by what waits; and from every
    state the consumer can get all of it.  Queues in the map are open. *)
Theorem samples_conserved threads p q iq :
  0 < QueuePopSize → psteps (mkPushstate ∅ ∅ threads) p → pw_store p !! q = Some iq →
  iq_accepted iq = iq_handed iq ++ reverse (sll_SL (iq_list iq)) ∧
  (∀ id, pw_queues p !! id = Some q → iq_closed iq = false) ∧
  (iq_closed iq = false →
   ∃ p' iq', psteps p p' ∧ pw_store p' !! q = Some iq' ∧ iq_handed iq' = iq_accepted iq).
Proof.
  intros Hpop Hst Hq. assert (pinv p) as Hinv.
  { eapply psteps_inv; [lia| |exact Hst]. split; simpl; intros; done. }
  split_and!.
  - by apply (pi_ok p Hinv q).
  - intros id Hid. destruct (pi_open p Hinv id q Hid) as (iq' & Hq' & ?). congruence.
  - intros Hcl. destruct (drain p q iq Hpop Hinv Hq Hcl) as (p' & iq' & ? & ? & _ & _ & ?). eauto.
Qed.
End samples.
