(* ===== verification/Push.v ===== *)
(** * The push gateway: [pushgw/router], [pushgw/pconf]

    Samples pushed by agents in four formats (remote write, OpenTSDB, Open-Falcon,
    Datadog) become series; each gets the labels of its host and goes to the
    queue of its request.  What a handler does is a change of [rstate]: the
    samples it pushes with [PushSample], and the hosts it registers. *)

From Stdlib Require Import Ascii QArith_base.
From S2P Require Import Prelude GoStrings Json Models RuleModels EventOps Filter Relabel Http Queues Writers.
Open Scope string_scope.
Open Scope Z_scope.
Open Scope list_scope.

(** ** Configuration *)

Module PushConf.
Record Pushgw := mkPushgw {
  UpdateTargetRetryCount : Z;
  UpdateTargetRetryIntervalMills : Z;
  UpdateTargetTimeoutMills : Z;
  UpdateTargetBatchSize : Z;
  UpdateDBTargetConcurrency : Z;
  UpdateDBTargetTimestampDisable : bool;
  PushConcurrency : Z;
  UpdateTargetByUrlConcurrency : Z;
  BusiGroupLabelKey : string;
  IdentMetrics : list string;
  IdentStatsThreshold : Z;
  IdentDropThreshold : Z;
  WriteConcurrency : Z;
  LabelRewrite : bool;
  ForceUseServerTS : bool;
  DropSample : list (gmap string string);
  QueueMaxSize : Z;
  QueuePopSize : Z;
  QueueNumber : Z;
  QueueWaterMark : float64;
  AllQueueMaxSize : Z;
  AllQueueMaxSizeInterval : Z;
  RetryCount : Z;
  RetryInterval : Z;
  OverLimitStatusCode : Z;
  WriteRelabels : list (list RelabelConfig)
}.
#[global] Instance Pushgw_eta : Settable Pushgw := λ r,
  mkPushgw (UpdateTargetRetryCount r) (UpdateTargetRetryIntervalMills r) (UpdateTargetTimeoutMills r)
    (UpdateTargetBatchSize r) (UpdateDBTargetConcurrency r) (UpdateDBTargetTimestampDisable r)
    (PushConcurrency r) (UpdateTargetByUrlConcurrency r) (BusiGroupLabelKey r) (IdentMetrics r)
    (IdentStatsThreshold r) (IdentDropThreshold r) (WriteConcurrency r) (LabelRewrite r)
    (ForceUseServerTS r) (DropSample r) (QueueMaxSize r) (QueuePopSize r) (QueueNumber r)
    (QueueWaterMark r) (AllQueueMaxSize r) (AllQueueMaxSizeInterval r) (RetryCount r) (RetryInterval r)
    (OverLimitStatusCode r) (WriteRelabels r).
End PushConf.
Notation Pushgw := PushConf.Pushgw.

Definition positive_or (d v : Z) : Z := if v <=? 0 then d else v.

Definition float64_positive (f : float64) : bool :=
  match f with
  | F64 q => 0 <? Qnum q
  | PInf => true
  | NInf | NaN => false
  end.

(** [!(f <= 0)]: a NaN is not replaced. *)
Definition water_mark (f : float64) : float64 :=
  match f with
  | NaN => NaN
  | _ => if float64_positive f then f else F64 (1 # 10)
  end.

(** The defaults of a relabel configuration, and its compiled expression;
    [None] ends the program. *)
Definition precheck_relabel `{Regexp} (c : RelabelConfig) : option RelabelConfig :=
  let c := if String.eqb (RelabelConf.Regex c) "" then c <| RelabelConf.Regex := "(.*)" |> else c in
  match compileRegex ("^(?:" +:+ RelabelConf.Regex c +:+ ")$") with
  | None => None
  | Some regex =>
      let c := c <| RelabelConf.RegexCompiled := Some regex |> in
      let c := if String.eqb (RelabelConf.Separator c) "" then c <| RelabelConf.Separator := ";" |> else c in
      let c := if String.eqb (RelabelConf.Action c) "" then c <| RelabelConf.Action := "replace" |> else c in
      Some (if String.eqb (RelabelConf.Replacement c) "" then c <| RelabelConf.Replacement := "$1" |> else c)
  end.

(** [int64(float64(n) * f)], in floating point. *)
Class FloatScale := { float_scale : Z → float64 → Z }.

(** [PreCheck] without the transports of the writers; [numCPU] is
    [runtime.NumCPU()]. *)
Definition PreCheck `{Regexp, FloatScale} (numCPU : Z) (p : Pushgw) : option Pushgw :=
  let p := p <| PushConf.UpdateTargetRetryCount := positive_or 3 (PushConf.UpdateTargetRetryCount p) |>
             <| PushConf.UpdateTargetRetryIntervalMills := positive_or 500 (PushConf.UpdateTargetRetryIntervalMills p) |>
             <| PushConf.UpdateTargetTimeoutMills := positive_or 3000 (PushConf.UpdateTargetTimeoutMills p) |>
             <| PushConf.UpdateTargetBatchSize := positive_or 20 (PushConf.UpdateTargetBatchSize p) |>
             <| PushConf.UpdateDBTargetConcurrency := positive_or 16 (PushConf.UpdateDBTargetConcurrency p) |>
             <| PushConf.PushConcurrency := positive_or 16 (PushConf.PushConcurrency p) |>
             <| PushConf.UpdateTargetByUrlConcurrency := positive_or 10 (PushConf.UpdateTargetByUrlConcurrency p) |> in
  let p := if String.eqb (PushConf.BusiGroupLabelKey p) "" then p <| PushConf.BusiGroupLabelKey := "busigroup" |> else p in
  let p := p <| PushConf.QueueMaxSize := positive_or 1000000 (PushConf.QueueMaxSize p) |>
             <| PushConf.QueuePopSize := positive_or 1000 (PushConf.QueuePopSize p) |>
             <| PushConf.QueueNumber := positive_or (if 1 <? numCPU then numCPU else 128) (PushConf.QueueNumber p) |>
             <| PushConf.QueueWaterMark := water_mark (PushConf.QueueWaterMark p) |> in
  let p := p <| PushConf.AllQueueMaxSize :=
                 float_scale (i64 (PushConf.QueueNumber p * PushConf.QueueMaxSize p)) (PushConf.QueueWaterMark p) |>
             <| PushConf.AllQueueMaxSizeInterval := positive_or 200 (PushConf.AllQueueMaxSizeInterval p) |>
             <| PushConf.RetryCount := positive_or 1000 (PushConf.RetryCount p) |>
             <| PushConf.RetryInterval := positive_or 1 (PushConf.RetryInterval p) |>
             <| PushConf.OverLimitStatusCode := positive_or 499 (PushConf.OverLimitStatusCode p) |>
             <| PushConf.WriteConcurrency := positive_or 5000 (PushConf.WriteConcurrency p) |>
             <| PushConf.IdentStatsThreshold := positive_or 1500 (PushConf.IdentStatsThreshold p) |>
             <| PushConf.IdentDropThreshold := positive_or 5000000 (PushConf.IdentDropThreshold p) |> in
  match mapM (mapM precheck_relabel) (PushConf.WriteRelabels p) with
  | None => None
  | Some rc => Some (p <| PushConf.WriteRelabels := rc |>)
  end.

(** ** Labels *)

(** The index of each name; for a repeated name the last one. *)
Fixpoint label_keys_from (j : nat) (ls : list Label) (m : gmap string nat) : gmap string nat :=
  match ls with
  | [] => m
  | l :: ls => label_keys_from (S j) ls (<[Lbl.Name l := j]> m)
  end.
Definition label_keys (ls : list Label) : gmap string nat := label_keys_from 0 ls ∅.

Definition set_value (ls : list Label) (i : nat) (v : string) : list Label :=
  alter (λ l, Lbl.mkLabel (Lbl.Name l) v) i ls.
Definition set_name (ls : list Label) (i : nat) (n : string) : list Label :=
  alter (λ l, Lbl.mkLabel n (Lbl.Value l)) i ls.

(** What the router reads. *)
Record router := mkRouter {
  rt_Pushgw : Pushgw;
  rt_targets : gmap string Target;
  rt_groups : gmap Z BusiGroup
}.
Implicit Types rt : router.

Section labels.
Context `{GR : GoRange}.

(** One tag of the target. *)
Definition append_tag rt (labelKeys : gmap string nat) (ls : list Label) (kv : string * string) : list Label :=
  let key := PushConf.BusiGroupLabelKey (rt_Pushgw rt) in
  match labelKeys !! fst kv with
  | Some index =>
      match labelKeys !! key with
      | Some _ => ls
      | None => if PushConf.LabelRewrite (rt_Pushgw rt) then set_value ls index (snd kv) else ls
      end
  | None => ls ++ [Lbl.mkLabel (fst kv) (snd kv)]
  end.

Definition AppendLabels rt (ls : list Label) (target : Target) : list Label :=
  let key := PushConf.BusiGroupLabelKey (rt_Pushgw rt) in
  let labelKeys := label_keys ls in
  let ls := foldl (append_tag rt labelKeys) ls (go_range (Tgt.TagsMap target)) in
  match labelKeys !! key with
  | Some _ => ls
  | None =>
      if (0 <? Tgt.GroupId target) && (0 <? String.length key)%nat then
        match rt_groups rt !! Tgt.GroupId target with
        | None => ls
        | Some bg => if BusiGrp.LabelEnable bg =? 0 then ls
                     else ls ++ [Lbl.mkLabel key (BusiGrp.LabelValue bg)]
        end
      else ls
  end.

Definition label_map (ls : list Label) : gmap string string :=
  foldl (λ m l, <[Lbl.Name l := Lbl.Value l]> m) ∅ ls.

Definition matchSample (filterMap sampleMap : gmap string string) : bool :=
  forallb (λ kv, match sampleMap !! fst kv with
                 | None => false
                 | Some v => String.eqb v (snd kv)
                 end) (go_range filterMap).

Definition DropSample rt (v : TimeSeries) : bool :=
  let filters := PushConf.DropSample (rt_Pushgw rt) in
  if (length filters =? 0)%nat then false
  else existsb (λ f, negb (size f =? 0)%nat && matchSample f (label_map (ts_Labels v))) filters.

Definition duplicateLabelKey (ls : list Label) : bool :=
  (fix go (seen : gset string) (ls : list Label) : bool :=
     match ls with
     | [] => false
     | l :: ls => if decide (Lbl.Name l ∈ seen) then true else go ({[Lbl.Name l]} ∪ seen) ls
     end) ∅ ls.

Definition extractMetricFromTimeSeries (ls : list Label) : string :=
  match list_find (λ l, Lbl.Name l = "__name__") ls with Some (_, l) => Lbl.Value l | None => "" end.

(** The value at an index of the map of names. *)
Definition value_at (ls : list Label) (i : nat) : string :=
  match ls !! i with Some l => Lbl.Value l | None => "" end.

(** A label used in place of an absent or empty [ident], renamed. *)
Definition rename_ident (labelMap : gmap string nat) (name : string) (ls : list Label) (ident : string) :
    list Label * string :=
  if String.eqb ident "" then
    match labelMap !! name with
    | Some idx => (set_name ls idx "ident", value_at ls idx)
    | None => (ls, ident)
    end
  else (ls, ident).

(** The labels, the host, and whether it is to be registered. *)
Definition extractIdentFromTimeSeries (ls : list Label) (ignoreIdent ignoreHost : bool) (identMetrics : list string) :
    list Label * string * bool :=
  let labelMap := label_keys ls in
  let ident := match labelMap !! "ident" with Some idx => value_at ls idx | None => "" end in
  let '(ls, ident) := rename_ident labelMap "agent_hostname" ls ident in
  let '(ls, ident) := if negb ignoreHost then rename_ident labelMap "host" ls ident else (ls, ident) in
  if String.eqb ident "" then (ls, "", false)
  else if (0 <? length identMetrics)%nat
          && negb (existsb (λ im, match labelMap !! "__name__" with
                                  | Some idx => String.eqb (value_at ls idx) im
                                  | None => false
                                  end) identMetrics)
       then (ls, ident, false)
       else (ls, ident, negb ignoreIdent).
End labels.

(** ** Handlers *)

(** The counter of requests, the samples pushed, each with its queue, and the
    hosts seen ([IdentSet.items]). *)
Record rstate := mkRstate {
  r_counter : Z;
  r_pushed : list (string * TimeSeries);
  r_idents : gset string
}.
#[global] Instance rstate_eta : Settable rstate := λ r, mkRstate (r_counter r) (r_pushed r) (r_idents r).

Inductive response :=
| RText (code : Z) (body : string)
| RCounts (succ fail : Z) (msg : string).

Section handlers.
Context `{GR : GoRange}.
(** The hook [HandleTS], the identity by default. *)
Context (HandleTS : TimeSeries → option TimeSeries).
Implicit Types s : rstate.

Definition PushSample (queueid : string) (v : TimeSeries) s : rstate := s <| r_pushed := r_pushed s ++ [(queueid, v)] |>.
Definition MSet_idents (ids : gset string) s : rstate := s <| r_idents := ids ∪ r_idents s |>.

(** [BeforePush] only logs before it calls the hook.  Pushing never fails. *)
Definition ForwardToQueue rt (queueid : string) (v : TimeSeries) s : rstate :=
  match HandleTS v with
  | None => s
  | Some v => if DropSample rt v then s else PushSample queueid v s
  end.

(** The number of the queue of a request, from a 64-bit counter. *)
Definition next_queue rt s : go (rstate * string) :=
  let n := (r_counter s + 1) mod 2 ^ 64 in
  let qn := PushConf.QueueNumber (rt_Pushgw rt) mod 2 ^ 64 in
  if qn =? 0 then Panic else Ret (s <| r_counter := n |>, itoa (n mod qn)).

(** One series of a remote write. *)
Definition write_series rt (queueid : string) (ignoreIdent ignoreHost : bool) (acc : rstate * gset string)
    (v : TimeSeries) : rstate * gset string :=
  let '(s, ids) := acc in
  if duplicateLabelKey (ts_Labels v) then (s, ids)
  else
    let '(ls, ident, insertTarget) :=
      extractIdentFromTimeSeries (ts_Labels v) ignoreIdent ignoreHost (PushConf.IdentMetrics (rt_Pushgw rt)) in
    let ls := if (0 <? String.length ident)%nat then
                match rt_targets rt !! ident with Some target => AppendLabels rt ls target | None => ls end
              else ls in
    let ids := if insertTarget then {[ident]} ∪ ids else ids in
    (ForwardToQueue rt queueid (mkTimeSeries ls (ts_Samples v)) s, ids).

(** [remoteWrite]: [curLen] is the length of all queues, [body] what the request
    decodes to, and the flags are its query. *)
Definition remoteWrite rt (curLen : Z) (body : result (list TimeSeries)) (ignoreIdent ignoreHost : bool) s :
    go (rstate * response) :=
  if PushConf.AllQueueMaxSize (rt_Pushgw rt) <? curLen
  then Ret (s, RText (PushConf.OverLimitStatusCode (rt_Pushgw rt))
                 ("write queue full, metric count over limit: " +:+ itoa curLen))
  else
    match body with
    | Err err => Ret (s, RText 400 err)
    | Ok [] => Ret (s, RText 200 "")
    | Ok series =>
        '(s, queueid) ← next_queue rt s;
        let '(s, ids) := foldl (write_series rt queueid ignoreIdent ignoreHost) (s, ∅) series in
        Ret (MSet_idents ids s, RText 200 "")
    end.

(** *** The other formats *)

(** [prometheus/common/model]: the names that are valid; parsing a float, and the
    conversion of an integer to a float. *)
Class PromNames := { metric_name_ok : string → bool; label_name_ok : string → bool }.
Class FloatLib := { parse_float : string → option float64; float_of_int : Z → float64 }.
Context `{PN : PromNames, FL : FloatLib, GF : GoFmt}.

(** A number that came as text or as a number. *)
Definition clean_value (v : iface) : result float64 :=
  match v with
  | IString s => match parse_float s with Some f => Ok f | None => Err ("unparsable value " +:+ s) end
  | IFloat f => Ok f
  | IInt z => Ok (float_of_int z)
  | _ => Err ("unparsable value " +:+ fmt_v v)
  end.

(** A time in seconds, from seconds or milliseconds, at most five minutes ahead. *)
Definition clean_timestamp (ts t : Z) : Z :=
  let t := if 4294967295 <? t then Z.quot t 1000 else t in
  let diff := i64 (t - ts) in
  if 300 <? diff then ts else t.

Definition underscores (s : string) : string := replace_all (replace_all s "." "_") "-" "_".

Definition metric_label (metric : string) : result Label :=
  let metric := underscores metric in
  if negb (metric_name_ok metric) then Err ("invalid metric name: " +:+ metric)
  else Ok (Lbl.mkLabel "__name__" metric).

(** The tags of a metric as labels, or the first name that is not valid. *)
Fixpoint tag_labels (tags : list (string * string)) : result (list Label) :=
  match tags with
  | [] => Ok []
  | (k, v) :: tags =>
      let key := underscores k in
      if negb (label_name_ok key) then Err ("invalid tag name: " +:+ key)
      else ls ← tag_labels tags; Ok (Lbl.mkLabel key v :: ls)
  end.

Record HTTPMetric := mkHTTPMetric {
  hm_Metric : string;
  hm_Timestamp : Z;
  hm_ValueUnTyped : iface;
  hm_Tags : gmap string string
}.

(** [host] takes the place of an absent [ident]. *)
Definition opentsdb_tags (tags : gmap string string) : gmap string string :=
  match tags !! "ident" with
  | Some _ => tags
  | None => match tags !! "host" with
            | Some host => <["ident" := host]> (delete "host" tags)
            | None => tags
            end
  end.

(** [Clean] and [ToProm]: the series, and the tags afterwards. *)
Definition opentsdb_series (ts : Z) (m : HTTPMetric) : result (TimeSeries * gmap string string) :=
  if String.eqb (hm_Metric m) "" then Err " , Error clean: metric is blank"
  else match clean_value (hm_ValueUnTyped m) with
       | Err err => Err (" , Error clean: " +:+ err)
       | Ok value =>
           let t := clean_timestamp ts (hm_Timestamp m) in
           let tags := opentsdb_tags (hm_Tags m) in
           match metric_label (hm_Metric m) with
           | Err err => Err (" , Error toprom: " +:+ err)
           | Ok name =>
               match tag_labels (go_range tags) with
               | Err err => Err (" , Error toprom: " +:+ err)
               | Ok ls => Ok (mkTimeSeries (name :: ls) [mkSample value (i64 (t * 1000))], tags)
               end
           end
       end.

Record FalconMetric := mkFalconMetric {
  fm_Metric : string;
  fm_Endpoint : string;
  fm_Timestamp : Z;
  fm_ValueUnTyped : iface;
  fm_Tags : string
}.

Definition falcon_tags (m : FalconMetric) : gmap string string * string :=
  let tagmap := foldl (λ tm t, match splitn2 t "=" with [k; v] => <[k := v]> tm | _ => tm end) ∅
                  (split (fm_Tags m) ",") in
  if (0 <? String.length (fm_Endpoint m))%nat then
    match tagmap !! "ident" with
    | Some id => (<["endpoint" := fm_Endpoint m]> tagmap, id)
    | None => (<["ident" := fm_Endpoint m]> tagmap, fm_Endpoint m)
    end
  else (tagmap, "").

Definition falcon_series (ts : Z) (m : FalconMetric) : result (TimeSeries * string) :=
  if String.eqb (fm_Metric m) "" then Err "metric is blank"
  else
    value ← clean_value (fm_ValueUnTyped m);
    let t := clean_timestamp ts (fm_Timestamp m) in
    name ← metric_label (fm_Metric m);
    let '(tags, ident) := falcon_tags m in
    ls ← tag_labels (go_range tags);
    Ok (mkTimeSeries (name :: ls) [mkSample value (i64 (t * 1000))], ident).

Record DatadogMetric := mkDatadogMetric {
  dm_Metric : string;
  dm_Points : list (float64 * float64);
  dm_Host : string;
  dm_Tags : list string
}.

(** The loop over the tags: the labels, [identInTag] and [hostInTag]. *)
Fixpoint datadog_tags (tags : list string) (ls : list Label) (ident host : string) :
    result (list Label * string * string) :=
  match tags with
  | [] => Ok (ls, ident, host)
  | t :: tags =>
      match splitn2 t ":" with
      | [k; v] =>
          if String.eqb k "ident" then datadog_tags tags (ls ++ [Lbl.mkLabel k v]) v host
          else if String.eqb k "host" then datadog_tags tags ls ident v
          else
            let key := underscores k in
            if negb (label_name_ok key) then Err ("invalid tag name: " +:+ key)
            else datadog_tags tags (ls ++ [Lbl.mkLabel key v]) ident host
      | _ => datadog_tags tags ls ident host
      end
  end.

Definition datadog_series (m : DatadogMetric) : result (TimeSeries * string) :=
  if String.eqb (dm_Metric m) "" then Err "metric is blank"
  else
    let samples := map (λ p, mkSample (snd p) (i64 (float64_to_int (fst p) * 1000))) (dm_Points m) in
    name ← metric_label (dm_Metric m);
    '(ls, identInTag, hostInTag) ← datadog_tags (dm_Tags m) [name] "" "";
    let hostInTag := if negb (String.eqb (dm_Host m) "") then dm_Host m else hostInTag in
    let ls := if negb (String.eqb hostInTag "") then
                ls ++ [Lbl.mkLabel (if negb (String.eqb identInTag "") then "host" else "ident") hostInTag]
              else ls in
    let ident := if negb (String.eqb identInTag "") then identInTag else hostInTag in
    Ok (mkTimeSeries ls samples, ident).

(** The loop the three handlers share: [convert] gives the series and, when the
    metric has a host, the host; [note] adds the first error to the message. *)
Record tally := mkTally { ta_succ : Z; ta_fail : Z; ta_msg : string; ta_ids : gset string }.

Definition push_item {A} rt (queueid : string) (convert : A → result (TimeSeries * option string)) (note : bool)
    (acc : rstate * tally) (item : A) : rstate * tally :=
  let '(s, c) := acc in
  match convert item with
  | Err err =>
      (s, mkTally (ta_succ c) (ta_fail c + 1)
            (if note && (ta_fail c =? 0) then ta_msg c +:+ err else ta_msg c) (ta_ids c))
  | Ok (pt, host) =>
      let ls := match host ≫= λ h, rt_targets rt !! h with
                | Some target => AppendLabels rt (ts_Labels pt) target
                | None => ts_Labels pt
                end in
      (ForwardToQueue rt queueid (mkTimeSeries ls (ts_Samples pt)) s,
       mkTally (ta_succ c + 1) (ta_fail c) (ta_msg c)
         (match host with Some h => {[h]} ∪ ta_ids c | None => ta_ids c end))
  end.

Definition push_items {A} rt (convert : A → result (TimeSeries * option string)) (note : bool) (items : list A) s :
    go (rstate * response) :=
  '(s, queueid) ← next_queue rt s;
  let '(s, c) := foldl (push_item rt queueid convert note) (s, mkTally 0 0 "received" ∅) items in
  let s := if 0 <? ta_succ c then MSet_idents (ta_ids c) s else s in
  Ret (s, RCounts (ta_succ c) (ta_fail c) (ta_msg c)).

Definition opentsdb_convert (ts : Z) (m : HTTPMetric) : result (TimeSeries * option string) :=
  match opentsdb_series ts m with
  | Err err => Err err
  | Ok (pt, tags) => Ok (pt, tags !! "ident")
  end.

Definition with_host (r : result (TimeSeries * string)) : result (TimeSeries * option string) :=
  match r with
  | Err err => Err err
  | Ok (pt, ident) => Ok (pt, if String.eqb ident "" then None else Some ident)
  end.

(** The body of a request, decoded as an array when it starts with a bracket;
    an empty body panics on its first byte. *)
Definition decode_body {A} (arr : string → result (list A)) (one : string → result A) (body : result string) :
    go (result (list A)) :=
  match body with
  | Err err => Ret (Err err)
  | Ok "" => Panic
  | Ok (String c _ as bs) =>
      Ret (if Ascii.eqb c "["%char then arr bs else match one bs with Ok m => Ok [m] | Err err => Err err end)
  end.

Definition openTSDBPut rt (now : Z) (arr : string → result (list HTTPMetric)) (one : string → result HTTPMetric)
    (body : result string) s : go (rstate * response) :=
  ms ← decode_body arr one body;
  match ms with
  | Err err => Ret (s, RText 400 err)
  | Ok ms => push_items rt (opentsdb_convert now) true ms s
  end.

Definition falconPush rt (now : Z) (arr : string → result (list FalconMetric)) (one : string → result FalconMetric)
    (body : result string) s : go (rstate * response) :=
  ms ← decode_body arr one body;
  match ms with
  | Err err => Ret (s, RText 400 err)
  | Ok ms => push_items rt (λ m, with_host (falcon_series now m)) false ms s
  end.

(** The accounts of agents are the values that an API key may have. *)
Definition datadogSeries rt (accounts : gmap string string) (apiKey : option string)
    (body : result (list (option DatadogMetric))) s : go (rstate * response) :=
  if (0 <? size accounts)%nat && negb (existsb (λ kv, String.eqb (default "" apiKey) (snd kv)) (go_range accounts))
  then Ret (s, RText 401 "unauthorized")
  else
    match body with
    | Err err => Ret (s, RText 400 err)
    | Ok [] => Ret (s, RText 400 "series empty")
    | Ok series => push_items rt (λ m, with_host (datadog_series m)) false (omap id series) s
    end.

(** [targetUpdate]: hosts reported by an edge. *)
Definition targetUpdate (lst : list string) s : rstate := MSet_idents (list_to_set lst) s.
End handlers.

(** ** Properties: the labels of a host *)

Section labels_spec.
Context `{GR : GoRange}.
Implicit Types (ls : list Label) (target : Target).

Notation names ls := (map Lbl.Name ls).

Lemma label_keys_from_spec j ls m k :
  NoDup (names ls) → (∀ l, l ∈ ls → m !! Lbl.Name l = None) →
  (∀ i, label_keys_from j ls m !! k = Some i ↔
     m !! k = Some i ∨ (j ≤ i)%nat ∧ ∃ l, ls !! (i - j)%nat = Some l ∧ Lbl.Name l = k).
Proof.
  revert j m. induction ls as [|l ls IH]; intros j m Hnd Hm i; simpl.
  { split; [by left|]. intros [?|(_ & l & Hl & _)]; [done|]. by rewrite lookup_nil in Hl. }
  apply NoDup_cons in Hnd as [Hl Hnd]. rewrite IH; [|done|].
  - rewrite lookup_insert_Some. split.
    + intros [[[<- <-]|[Hne Hk]]|(Hle & l' & Hl' & Hn)]; [right|by left|right].
      * split; [done|]. exists l. by rewrite Nat.sub_diag.
      * split; [lia|]. exists l'. replace (i - j)%nat with (S (i - S j)) by lia. done.
    + intros [Hk|(Hle & l' & Hl' & Hn)].
      * destruct (decide (Lbl.Name l = k)) as [<-|Hne]; [|left; right; done].
        specialize (Hm l). rewrite Hm in Hk by (by left). done.
      * destruct (decide (i = j)) as [->|Hij].
        -- rewrite Nat.sub_diag in Hl'. simplify_eq/=. left. by left.
        -- right. split; [lia|]. exists l'. replace (i - j)%nat with (S (i - S j)) in Hl' by lia. done.
  - intros l' Hl'. rewrite lookup_insert_ne; [apply Hm; by right|].
    intros Heq. apply Hl. rewrite Heq. by apply list_elem_of_fmap_2.
Qed.

Lemma label_keys_spec ls k i :
  NoDup (names ls) → label_keys ls !! k = Some i ↔ ∃ l, ls !! i = Some l ∧ Lbl.Name l = k.
Proof.
  intros Hnd. unfold label_keys. rewrite label_keys_from_spec by done. rewrite lookup_empty, Nat.sub_0_r.
  naive_solver lia.
Qed.

Lemma label_keys_None ls k : NoDup (names ls) → label_keys ls !! k = None ↔ k ∉ names ls.
Proof.
  intros Hnd. rewrite eq_None_not_Some. apply not_iff_compat. split.
  - intros [i (l & Hl & <-)%label_keys_spec]; [|done]. apply list_elem_of_fmap_2. by eapply list_elem_of_lookup_2.
  - intros (l & -> & [i Hi]%list_elem_of_lookup_1)%list_elem_of_fmap. exists i. apply label_keys_spec; eauto.
Qed.

(** The labels as a map; for lists without repeated names this is all there is. *)
Definition lmap ls : gmap string string := list_to_map (map (λ l, (Lbl.Name l, Lbl.Value l)) ls).

Lemma lmap_fst ls : (map (λ l, (Lbl.Name l, Lbl.Value l)) ls).*1 = names ls.
Proof. induction ls; csimpl; [done|]. by f_equal. Qed.

Lemma lmap_lookup ls k v :
  NoDup (names ls) → lmap ls !! k = Some v ↔ Lbl.mkLabel k v ∈ ls.
Proof.
  intros Hnd. unfold lmap. rewrite <- elem_of_list_to_map by (by rewrite lmap_fst).
  rewrite list_elem_of_fmap. split.
  - by intros ([] & [= -> ->] & ?).
  - intros ?. by exists (Lbl.mkLabel k v).
Qed.

Lemma lmap_None ls k : NoDup (names ls) → lmap ls !! k = None ↔ k ∉ names ls.
Proof. intros Hnd. unfold lmap. by rewrite <- not_elem_of_list_to_map, lmap_fst. Qed.

Lemma names_set_value ls i v : names (set_value ls i v) = names ls.
Proof.
  unfold set_value. revert i. induction ls as [|l ls IH]; intros [|i]; csimpl; [done..|]. by f_equal.
Qed.

Lemma lmap_app ls1 ls2 : lmap (ls1 ++ ls2) = lmap ls1 ∪ lmap ls2.
Proof. unfold lmap. by rewrite map_app, list_to_map_app. Qed.

Lemma lmap_set_value ls i l v :
  NoDup (names ls) → ls !! i = Some l → lmap (set_value ls i v) = <[Lbl.Name l := v]> (lmap ls).
Proof.
  unfold lmap, set_value. revert i. induction ls as [|x ls IH]; intros [|i] Hnd Hl; simplify_eq/=.
  - by rewrite insert_insert_eq.
  - apply NoDup_cons in Hnd as [Hx Hnd]. rewrite IH by done. rewrite insert_insert_ne; [done|].
    intros Heq. apply Hx. rewrite Heq. apply list_elem_of_fmap_2. by eapply list_elem_of_lookup_2.
Qed.

(** What the loop over the tags makes of the labels. *)
Definition tags_merged rt ls (tags : gmap string string) : gmap string string :=
  if PushConf.LabelRewrite (rt_Pushgw rt) && bool_decide (PushConf.BusiGroupLabelKey (rt_Pushgw rt) ∉ names ls)
  then tags ∪ lmap ls else lmap ls ∪ tags.

Definition merge_ok rt ls0 (done_ : list (string * string)) ls : Prop :=
  names ls = names ls0 ++ filter (λ k, k ∉ names ls0) done_.*1 ∧
  lmap ls = tags_merged rt ls0 (list_to_map done_).

Lemma merge_ok_NoDup rt ls0 done_ ls :
  NoDup (names ls0) → NoDup done_.*1 → merge_ok rt ls0 done_ ls → NoDup (names ls).
Proof.
  intros H0 Hd [-> _]. apply NoDup_app. split_and!; [done| |by apply NoDup_filter].
  intros k Hk [Hno _]%list_elem_of_filter. done.
Qed.

Lemma tags_merged_insert rt ls0 tags k v :
  NoDup (names ls0) → k ∉ names ls0 →
  tags_merged rt ls0 (<[k := v]> tags) = <[k := v]> (tags_merged rt ls0 tags).
Proof.
  intros Hnd Hk. unfold tags_merged. case_match.
  - by rewrite insert_union_l.
  - by rewrite insert_union_r by (by apply lmap_None).
Qed.

Lemma tags_merged_kept rt ls0 tags k v :
  NoDup (names ls0) → k ∈ names ls0 →
  PushConf.LabelRewrite (rt_Pushgw rt) && bool_decide (PushConf.BusiGroupLabelKey (rt_Pushgw rt) ∉ names ls0) = false →
  tags_merged rt ls0 (<[k := v]> tags) = tags_merged rt ls0 tags.
Proof.
  intros Hnd Hk E. unfold tags_merged. rewrite E. apply map_eq. intros i.
  destruct (decide (i = k)) as [->|Hne].
  - destruct (lmap ls0 !! k) as [x|] eqn:Hx; [by rewrite !(lookup_union_Some_l _ _ _ x)|].
    by apply lmap_None in Hx.
  - rewrite !lookup_union. by rewrite lookup_insert_ne.
Qed.

Lemma append_tag_ok rt ls0 done_ ls k v :
  NoDup (names ls0) → NoDup done_.*1 → k ∉ done_.*1 → merge_ok rt ls0 done_ ls →
  merge_ok rt ls0 (done_ ++ [(k, v)]) (append_tag rt (label_keys ls0) ls (k, v)).
Proof.
  intros H0 Hd Hk Hok. pose proof (merge_ok_NoDup _ _ _ _ H0 Hd Hok) as Hnd. destruct Hok as [Hn Hm].
  unfold merge_ok. rewrite fmap_app, filter_app. csimpl.
  assert (list_to_map (done_ ++ [(k, v)]) = <[k := v]> (list_to_map done_ : gmap string string)) as Hltm.
  { rewrite list_to_map_snoc; [done|]. done. }
  rewrite Hltm. unfold append_tag. simpl.
  destruct (label_keys ls0 !! k) as [i|] eqn:Hi.
  - apply label_keys_spec in Hi as (l0 & Hl0 & Hname); [|done].
    assert (k ∈ names ls0) as Hin. { rewrite <- Hname. apply list_elem_of_fmap_2. by eapply list_elem_of_lookup_2. }
    assert (filter (λ k, k ∉ names ls0) [k] = []) as Hf.
    { rewrite filter_cons, decide_False by auto. done. }
    rewrite Hf, app_nil_r.
    destruct (label_keys ls0 !! PushConf.BusiGroupLabelKey (rt_Pushgw rt)) as [j|] eqn:Hj.
    + rewrite tags_merged_kept; [done|done|done|]. rewrite bool_decide_false; [apply andb_false_r|].
      intros Hno%label_keys_None; congruence.
    + apply label_keys_None in Hj; [|done].
      destruct (PushConf.LabelRewrite (rt_Pushgw rt)) eqn:Hr.
      * rewrite names_set_value. split; [done|].
        assert (∃ l, ls !! i = Some l ∧ Lbl.Name l = k) as (l & Hl & Hlk).
        { assert (names ls !! i = Some k) as Hx.
          { rewrite Hn. apply lookup_app_l_Some. rewrite list_lookup_fmap, Hl0. by rewrite <- Hname. }
          rewrite list_lookup_fmap in Hx. apply fmap_Some in Hx as (l & ? & ->). eauto. }
        rewrite (lmap_set_value _ _ _ _ Hnd Hl), Hlk, Hm. unfold tags_merged.
        rewrite Hr, bool_decide_true by done. simpl. by rewrite insert_union_l.
      * rewrite tags_merged_kept; [done..|]. by rewrite Hr.
  - apply label_keys_None in Hi; [|done].
    assert (filter (λ k, k ∉ names ls0) [k] = [k]) as Hf. { by rewrite filter_cons, decide_True. }
    rewrite Hf, map_app, Hn, <- (assoc_L (++)). split; [done|].
    rewrite lmap_app, tags_merged_insert by done. rewrite <- Hm. unfold lmap at 2. simpl.
    rewrite insert_empty, map_union_comm, <- insert_union_singleton_l; [done|].
    apply map_disjoint_singleton_r. apply lmap_None; [done|]. rewrite Hn, elem_of_app.
    intros [?|[_ ?]%list_elem_of_filter]; done.
Qed.

Lemma append_tags_ok rt ls0 l :
  NoDup (names ls0) → NoDup l.*1 → merge_ok rt ls0 l (foldl (append_tag rt (label_keys ls0)) ls0 l).
Proof.
  intros H0. induction l as [|[k v] l IH] using rev_ind; intros Hd; simpl.
  { split; [by rewrite app_nil_r|]. unfold tags_merged.
    destruct (_ && _); simpl; [by rewrite (left_id_L ∅ (∪))|by rewrite (right_id_L ∅ (∪))]. }
  rewrite fmap_app in Hd. apply NoDup_app in Hd as (Hd & Hdis & _). rewrite foldl_app. simpl.
  apply append_tag_ok; [done..| |by apply IH]. intros Hk. apply (Hdis k Hk). csimpl. by left.
Qed.

(** The label of the business group of the host, when it gets one. *)
Definition group_label rt ls target : option string :=
  if bool_decide (PushConf.BusiGroupLabelKey (rt_Pushgw rt) ∈ names ls) then None
  else if (0 <? Tgt.GroupId target) && (0 <? String.length (PushConf.BusiGroupLabelKey (rt_Pushgw rt)))%nat then
    match rt_groups rt !! Tgt.GroupId target with
    | Some bg => if BusiGrp.LabelEnable bg =? 0 then None else Some (BusiGrp.LabelValue bg)
    | None => None
    end
  else None.

Lemma AppendLabels_shape rt ls target :
  NoDup (names ls) →
  AppendLabels rt ls target =
  foldl (append_tag rt (label_keys ls)) ls (go_range (Tgt.TagsMap target)) ++
  match group_label rt ls target with
  | Some v => [Lbl.mkLabel (PushConf.BusiGroupLabelKey (rt_Pushgw rt)) v]
  | None => []
  end.
Proof.
  intros Hnd. unfold AppendLabels, group_label.
  destruct (label_keys ls !! PushConf.BusiGroupLabelKey (rt_Pushgw rt)) as [j|] eqn:Hj.
  - rewrite bool_decide_true; [by rewrite app_nil_r|].
    destruct (decide (PushConf.BusiGroupLabelKey (rt_Pushgw rt) ∈ names ls)) as [|Hn]; [done|].
    apply label_keys_None in Hn; congruence.
  - apply label_keys_None in Hj; [|done]. rewrite bool_decide_false by done.
    case_match; [|by rewrite app_nil_r]. destruct (rt_groups rt !! Tgt.GroupId target); [|by rewrite app_nil_r].
    case_match; [by rewrite app_nil_r|done].
Qed.

(** Adding the labels of a host to a series without repeated labels is a merge of
    maps, whatever the order of the tags: labels of the series win over tags of
    the host, or tags win when labels are rewritten and the series has no label of
    a business group; then the label of the group of the host is added.  No label
    is repeated as long as the host has no tag named like the label of the group. *)
Theorem AppendLabels_merges rt ls target :
  NoDup (names ls) →
  (PushConf.BusiGroupLabelKey (rt_Pushgw rt) ∉ dom (Tgt.TagsMap target) ∨ group_label rt ls target = None) →
  NoDup (names (AppendLabels rt ls target)) ∧
  lmap (AppendLabels rt ls target) =
    match group_label rt ls target with
    | Some v => <[PushConf.BusiGroupLabelKey (rt_Pushgw rt) := v]> (tags_merged rt ls (Tgt.TagsMap target))
    | None => tags_merged rt ls (Tgt.TagsMap target)
    end.
Proof.
  intros Hnd Hkey. rewrite AppendLabels_shape by done.
  pose proof (append_tags_ok rt ls (go_range (Tgt.TagsMap target)) Hnd (NoDup_fst_go_range _)) as Hok.
  pose proof (merge_ok_NoDup _ _ _ _ Hnd (NoDup_fst_go_range _) Hok) as Hnd'. destruct Hok as [Hn Hm].
  rewrite go_range_to_map in Hm. destruct (group_label rt ls target) as [v|] eqn:Hg; [|by rewrite app_nil_r].
  destruct Hkey as [Hkey|]; [|done].
  set (key := PushConf.BusiGroupLabelKey (rt_Pushgw rt)) in *.
  assert (key ∉ names ls) as Hk.
  { unfold group_label in Hg. fold key in Hg. by case_bool_decide. }
  set (ls' := foldl _ _ _) in *.
  assert (key ∉ names ls') as Hk'.
  { rewrite Hn, elem_of_app. intros [?|[_ Hx]%list_elem_of_filter]; [done|].
    apply elem_of_fst_go_range in Hx. apply Hkey, elem_of_dom, Hx. }
  rewrite map_app, lmap_app. split.
  - apply NoDup_app. split_and!; [done| |apply NoDup_singleton]. simpl. set_solver.
  - rewrite <- Hm. unfold lmap at 2. simpl. rewrite insert_empty, map_union_comm, <- insert_union_singleton_l; [done|].
    apply map_disjoint_singleton_r. by apply lmap_None.
Qed.

(** *** The host of a series *)

Lemma duplicateLabelKey_spec ls : duplicateLabelKey ls = false ↔ NoDup (names ls).
Proof.
  unfold duplicateLabelKey.
  assert (∀ seen : gset string,
    (fix go (seen : gset string) (ls : list Label) : bool :=
       match ls with
       | [] => false
       | l :: ls => if decide (Lbl.Name l ∈ seen) then true else go ({[Lbl.Name l]} ∪ seen) ls
       end) seen ls = false ↔ NoDup (names ls) ∧ ∀ n, n ∈ names ls → n ∉ seen) as Hgen.
  { induction ls as [|l ls IH]; intros seen; csimpl.
    { split; [|done]. intros _. split; [constructor|set_solver]. }
    case_decide as Hl.
    - split; [done|]. intros [_ Hno]. by destruct (Hno (Lbl.Name l)); [left|].
    - rewrite IH, NoDup_cons. setoid_rewrite elem_of_union. setoid_rewrite elem_of_singleton.
      setoid_rewrite elem_of_cons. naive_solver. }
  rewrite Hgen. set_solver.
Qed.

Lemma value_at_lookup ls i l : ls !! i = Some l → value_at ls i = Lbl.Value l.
Proof. unfold value_at. by intros ->. Qed.

Lemma label_keys_elem ls k v :
  NoDup (names ls) → Lbl.mkLabel k v ∈ ls → ∃ i, label_keys ls !! k = Some i ∧ value_at ls i = v.
Proof.
  intros Hnd [i Hi]%list_elem_of_lookup_1. exists i. split; [apply label_keys_spec; eauto|].
  by rewrite (value_at_lookup _ _ _ Hi).
Qed.

Lemma rename_ident_spec ls0 name ls ident ls' ident' :
  NoDup (names ls0) → length ls = length ls0 → rename_ident (label_keys ls0) name ls ident = (ls', ident') →
  (ident ≠ "" → Lbl.mkLabel "ident" ident ∈ ls) →
  length ls' = length ls0 ∧ (ident' ≠ "" → Lbl.mkLabel "ident" ident' ∈ ls').
Proof.
  intros Hnd Hlen. unfold rename_ident. destruct (String.eqb_spec ident "") as [->|Hne]; [|by intros [= <- <-]].
  destruct (label_keys ls0 !! name) as [idx|] eqn:Hi; [|by intros [= <- <-]].
  intros [= <- <-] _. unfold set_name. rewrite length_alter. split; [done|]. intros _.
  apply label_keys_spec in Hi as (l0 & Hl0 & _); [|done].
  assert (is_Some (ls !! idx)) as [l Hl].
  { apply lookup_lt_is_Some. rewrite Hlen. by apply lookup_lt_Some in Hl0. }
  rewrite (value_at_lookup _ _ _ Hl).
  eapply list_elem_of_lookup_2 with (i := idx). by rewrite list_lookup_alter_eq, Hl.
Qed.

(** The host that is found labels the series. *)
Lemma extractIdent_labelled ls ignoreIdent ignoreHost metrics ls' ident insert :
  NoDup (names ls) →
  extractIdentFromTimeSeries ls ignoreIdent ignoreHost metrics = (ls', ident, insert) →
  (ident ≠ "" → Lbl.mkLabel "ident" ident ∈ ls') ∧ (insert = true → ident ≠ "").
Proof.
  intros Hnd. unfold extractIdentFromTimeSeries.
  set (id0 := match label_keys ls !! "ident" with Some idx => value_at ls idx | None => "" end).
  assert (id0 ≠ "" → Lbl.mkLabel "ident" id0 ∈ ls) as H0.
  { subst id0. destruct (label_keys ls !! "ident") as [i|] eqn:Hi; [|done]. intros _.
    apply label_keys_spec in Hi as ([n v] & Hl & Hn); [|done]. simpl in Hn. subst n.
    rewrite (value_at_lookup _ _ _ Hl). by eapply list_elem_of_lookup_2. }
  destruct (rename_ident (label_keys ls) "agent_hostname" ls id0) as [ls1 id1] eqn:E1.
  destruct (rename_ident_spec _ _ _ _ _ _ Hnd eq_refl E1 H0) as [Hl1 H1].
  destruct (if negb ignoreHost then _ else _) as [ls2 id2] eqn:E2.
  assert (id2 ≠ "" → Lbl.mkLabel "ident" id2 ∈ ls2) as H2.
  { destruct (negb ignoreHost); [|by simplify_eq]. by eapply (rename_ident_spec ls _ ls1). }
  destruct (String.eqb_spec id2 "") as [->|Hne]; [by intros [= <- <- <-]|].
  destruct (_ && _); intros Heq; by simplify_eq.
Qed.

(** A series with a host of its own keeps its labels and registers that host. *)
Lemma extractIdent_own ls ignoreIdent ignoreHost h :
  NoDup (names ls) → Lbl.mkLabel "ident" h ∈ ls → h ≠ "" →
  extractIdentFromTimeSeries ls ignoreIdent ignoreHost [] = (ls, h, negb ignoreIdent).
Proof.
  intros Hnd Hin Hne. unfold extractIdentFromTimeSeries.
  destruct (label_keys_elem _ _ _ Hnd Hin) as (i & -> & ->). unfold rename_ident.
  rewrite (proj2 (String.eqb_neq h "") Hne). destruct ignoreHost; simpl; by rewrite ?(proj2 (String.eqb_neq h "") Hne).
Qed.
End labels_spec.

(** ** Properties: remote write *)

Section remote_write.
Context `{GR : GoRange}.
Notation names ls := (map Lbl.Name ls).
(** The default hook. *)
Notation Forward := (ForwardToQueue (GR := GR) Some).

(** The series of a request that are forwarded, as they are pushed. *)
Definition accepted rt (ignoreIdent ignoreHost : bool) (v : TimeSeries) : option TimeSeries :=
  if duplicateLabelKey (ts_Labels v) then None
  else
    let '(ls, ident, _) :=
      extractIdentFromTimeSeries (ts_Labels v) ignoreIdent ignoreHost (PushConf.IdentMetrics (rt_Pushgw rt)) in
    let v' := mkTimeSeries (if (0 <? String.length ident)%nat then
                match rt_targets rt !! ident with Some target => AppendLabels rt ls target | None => ls end
              else ls) (ts_Samples v) in
    if DropSample rt v' then None else Some v'.

Definition registered rt (ignoreIdent ignoreHost : bool) (v : TimeSeries) : option string :=
  if duplicateLabelKey (ts_Labels v) then None
  else match extractIdentFromTimeSeries (ts_Labels v) ignoreIdent ignoreHost
               (PushConf.IdentMetrics (rt_Pushgw rt)) with
       | (_, ident, true) => Some ident
       | _ => None
       end.

Lemma write_series_all rt queueid ii ih series s ids :
  foldl (write_series Some rt queueid ii ih) (s, ids) series =
  (s <| r_pushed := r_pushed s ++ map (pair queueid) (omap (accepted rt ii ih) series) |>,
   list_to_set (omap (registered rt ii ih) series) ∪ ids).
Proof.
  revert s ids. induction series as [|v series IH]; intros s ids; cbn [foldl].
  { cbn. rewrite app_nil_r, (left_id_L ∅ (∪)). by destruct s. }
  assert (write_series Some rt queueid ii ih (s, ids) v =
    (s <| r_pushed := r_pushed s ++ match accepted rt ii ih v with Some v' => [(queueid, v')] | None => [] end |>,
     match registered rt ii ih v with Some h => {[h]} ∪ ids | None => ids end)) as ->.
  { unfold write_series, accepted, registered, ForwardToQueue, PushSample.
    destruct (duplicateLabelKey (ts_Labels v)); [rewrite app_nil_r; by destruct s|].
    destruct (extractIdentFromTimeSeries _ _ _ _) as [[ls ident] ins].
    destruct ins; (case_match; [rewrite app_nil_r; by destruct s|done]). }
  rewrite IH. cbn [omap list_omap]. f_equal.
  - rsimp. destruct s as [cnt pushed ids']. unfold set, set_with. cbn [r_counter r_pushed r_idents].
    f_equal. destruct (accepted rt ii ih v); cbn [map]; by rewrite <- ?(assoc_L (++)), ?app_nil_r.
  - destruct (registered rt ii ih v); cbn; set_solver.
Qed.

Lemma accepted_samples rt ii ih v v' : accepted rt ii ih v = Some v' → ts_Samples v' = ts_Samples v.
Proof.
  unfold accepted. repeat case_match; intros; by simplify_eq.
Qed.

Lemma accepted_sublist rt ii ih series :
  map ts_Samples (omap (accepted rt ii ih) series) `sublist_of` map ts_Samples series.
Proof.
  induction series as [|v series IH]; [constructor|]. cbn [omap list_omap map].
  destruct (accepted rt ii ih v) as [v'|] eqn:E; [|by constructor].
  cbn [map]. rewrite (accepted_samples _ _ _ _ _ E). by constructor.
Qed.

Lemma remoteWrite_accepts rt curLen series ignoreIdent ignoreHost s :
  curLen ≤ PushConf.AllQueueMaxSize (rt_Pushgw rt) → 0 < PushConf.QueueNumber (rt_Pushgw rt) < 2 ^ 64 →
  ∃ s' queueid, remoteWrite Some rt curLen (Ok series) ignoreIdent ignoreHost s = Ret (s', RText 200 "") ∧
    (∃ new, r_pushed s' = r_pushed s ++ map (pair queueid) new ∧
       map ts_Samples new `sublist_of` map ts_Samples series ∧
       (PushConf.DropSample (rt_Pushgw rt) = [] → (∀ v, v ∈ series → NoDup (names (ts_Labels v))) →
        map ts_Samples new = map ts_Samples series)) ∧
    (∀ v h, v ∈ series → NoDup (names (ts_Labels v)) → Lbl.mkLabel "ident" h ∈ ts_Labels v → h ≠ "" →
       ignoreIdent = false → PushConf.IdentMetrics (rt_Pushgw rt) = [] → h ∈ r_idents s').
Proof.
  intros Hlim Hqn. unfold remoteWrite. rewrite (proj2 (Z.ltb_ge _ _)) by done.
  destruct series as [|v0 rest] eqn:Es.
  { exists s, "". split_and!; [done| |set_solver]. exists []. by rewrite app_nil_r. }
  rewrite <- Es. clear v0 rest Es. unfold next_queue.
  assert (PushConf.QueueNumber (rt_Pushgw rt) mod 2 ^ 64 = PushConf.QueueNumber (rt_Pushgw rt)) as Hmod
    by (apply Z.mod_small; lia).
  rewrite Hmod. destruct (Z.eqb_spec (PushConf.QueueNumber (rt_Pushgw rt)) 0); [lia|].
  cbn [mbind go_bind]. rewrite write_series_all.
  set (q := itoa _). eexists _, q. split; [by destruct series|]. split.
  - exists (omap (accepted rt ignoreIdent ignoreHost) series). split_and!; [done|apply accepted_sublist|].
    intros Hno Hnd. clear -Hno Hnd. induction series as [|v series IH]; [done|]. cbn [omap list_omap map].
    assert (is_Some (accepted rt ignoreIdent ignoreHost v)) as [v' Hv'].
    { unfold accepted. rewrite (proj2 (duplicateLabelKey_spec _)) by (apply Hnd; by left).
      destruct (extractIdentFromTimeSeries _ _ _ _) as [[ls ident] ins].
      unfold DropSample. rewrite Hno. by eexists. }
    rewrite Hv'. cbn [map]. f_equal; [by eapply accepted_samples|]. apply IH. intros w Hw. apply Hnd. by right.
  - intros v h Hv Hnd Hin Hne -> Him. unfold MSet_idents. rsimp. apply elem_of_union_l, elem_of_union_l.
    apply elem_of_list_to_set, list_elem_of_omap. exists v. split; [done|].
    unfold registered. rewrite (proj2 (duplicateLabelKey_spec _)) by done. rewrite Him.
    by rewrite (extractIdent_own _ false ignoreHost h).
Qed.

(** A remote write under the limit answers 200.  What it pushes are the series it
    received, in order and with their samples unchanged, less those with a
    repeated label and those that a filter drops; all go to one queue.  The host
    a series names with a label [ident] is registered. *)
Theorem remoteWrite_spec rt curLen series ignoreIdent ignoreHost s :
  curLen ≤ PushConf.AllQueueMaxSize (rt_Pushgw rt) → 0 < PushConf.QueueNumber (rt_Pushgw rt) < 2 ^ 64 →
  ∃ s' queueid, remoteWrite Some rt curLen (Ok series) ignoreIdent ignoreHost s = Ret (s', RText 200 "") ∧
    (∃ new, r_pushed s' = r_pushed s ++ map (pair queueid) new ∧
       map ts_Samples new `sublist_of` map ts_Samples series ∧
       (PushConf.DropSample (rt_Pushgw rt) = [] → (∀ v, v ∈ series → NoDup (names (ts_Labels v))) →
        map ts_Samples new = map ts_Samples series)) ∧
    (∀ v h, v ∈ series → NoDup (names (ts_Labels v)) → Lbl.mkLabel "ident" h ∈ ts_Labels v → h ≠ "" →
       ignoreIdent = false → PushConf.IdentMetrics (rt_Pushgw rt) = [] → h ∈ r_idents s').
Proof. apply remoteWrite_accepts. Qed.
End remote_write.

(** ** Properties: times *)

(** The time of a metric is at most five minutes ahead of the clock, and a time
    given in milliseconds is read as such. *)
Lemma clean_timestamp_bound ts t :
  0 ≤ ts < 2 ^ 33 → in_i64 t →
  clean_timestamp ts t ≤ ts + 300 ∧
  (0 ≤ t ≤ 4294967295 → t ≤ ts + 300 → clean_timestamp ts t = t) ∧
  (4294967295 < t → Z.quot t 1000 ≤ ts + 300 → clean_timestamp ts t = Z.quot t 1000).
Proof.
  intros Hts [Hlo Hhi]. unfold clean_timestamp.
  set (t' := if 4294967295 <? t then Z.quot t 1000 else t).
  assert (in_i64 t') as [Hlo' Hhi'].
  { subst t'. unfold in_i64. destruct (Z.ltb_spec 4294967295 t); [|lia].
    pose proof (Z.quot_pos t 1000). pose proof (Z.quot_lt t 1000). lia. }
  assert (t' ≤ ts + 300 → (300 <? i64 (t' - ts)) = false ∨ t' < - 2 ^ 62) as Hsmall.
  { intros Hle. destruct (decide (- 2 ^ 62 ≤ t')); [|right; lia]. left.
    rewrite i64_id by (unfold in_i64; lia). apply Z.ltb_ge. lia. }
  split_and!.
  - destruct (Z.ltb_spec 300 (i64 (t' - ts))) as [|Hle]; [lia|].
    destruct (decide (t' ≤ ts + 300)); [done|]. rewrite i64_id in Hle by (unfold in_i64; lia). lia.
  - intros Ht Hle. assert (t' = t) as E by (subst t'; destruct (Z.ltb_spec 4294967295 t); lia). rewrite E in *.
    destruct (Hsmall Hle) as [->|]; [done|lia].
  - intros Ht Hle. assert (t' = Z.quot t 1000) as E by (subst t'; destruct (Z.ltb_spec 4294967295 t); lia).
    rewrite E in *.
    destruct (Hsmall Hle) as [->|]; [done|]. pose proof (Z.quot_pos t 1000). lia.
Qed.
