(* ===== verification/Idents.v ===== *)
(** * Reports of hosts: [pushgw/idents], [center/metas], [storage.MSet]

    The hosts that sent samples are collected in a set, and once a second their
    time is written to redis, to the table of targets at the center, or posted to
    the center by an edge; heartbeats write the meta data of hosts.  This is what
    the triggers for missing hosts read ([Caches.GetHostUpdateTime],
    [Eval.target_miss]). *)

From S2P Require Import Prelude GoStrings Json Models RuleModels EventOps RuleOps Caches.
Open Scope string_scope.
Open Scope Z_scope.
Open Scope list_scope.

(** A redis server and a pipeline of SETs on it: without an error all values are
    written; with one, some of them are. *)
Class RedisPipe (W : Type) := {
  rp_data : W → gmap string string;
  rp_exec : W → list (string * string) → W * option error;
  rp_exec_ok : ∀ w kvs w', rp_exec w kvs = (w', None) →
    rp_data w' = foldl (λ m kv, <[fst kv := snd kv]> m) (rp_data w) kvs;
  rp_exec_some : ∀ w kvs k,
    rp_data (fst (rp_exec w kvs)) !! k = rp_data w !! k ∨
    ∃ v, (k, v) ∈ kvs ∧ rp_data (fst (rp_exec w kvs)) !! k = Some v
}.

(** Reading from such a server. *)
Definition data_redis (d : gmap string string) : Redis := {| redis_Get := λ k, d !! k |}.

(** The table of targets: the time of each host. *)
Class TargetTable (T : Type) := {
  tt_pluck : T → list string → result (list string);
  tt_insert : T → string → Z → T * option error;
  tt_update : T → string → Z → T * option error
}.

(** The settings the set reads. *)
Record ident_conf := mkIdentConf {
  ic_IsCenter : bool;
  ic_BatchSize : Z;
  ic_RetryCount : Z;
  ic_DBTimestampDisable : bool;
  ic_ByUrlConcurrency : nat
}.

Section idents.
Context {W T : Type} `{RP : RedisPipe W, TT : TargetTable T, GR : GoRange, !Json HostUpdateTime}.
Implicit Types (w : W) (c : ident_conf).

(** [storage.MSet] of values that encode themselves. *)
Fixpoint encode_all {A} `{!Json A} (kvs : list (string * A)) : result (list (string * string)) :=
  match kvs with
  | [] => Ok []
  | (k, v) :: kvs => s ← json_marshal v; rest ← encode_all kvs; Ok ((k, s) :: rest)
  end.

Definition storage_MSet {A} `{!Json A} w (m : gmap string A) : W * option error :=
  match encode_all (go_range m) with
  | Err err => (w, Some err)
  | Ok kvs => rp_exec w kvs
  end.

(** *** Redis *)

Fixpoint write_retries (n : nat) (content : gmap string HostUpdateTime) w : W * bool :=
  match n with
  | O => (w, false)
  | S n => match storage_MSet w content with
           | (w, None) => (w, true)
           | (w, Some _) => write_retries n content w
           end
  end.

Definition writeTargetTsInRedis c (content : gmap string HostUpdateTime) w : W * option error :=
  match write_retries (Z.to_nat (ic_RetryCount c)) content w with
  | (w, true) => (w, None)
  | (w, false) => (w, Some ("failed to write target ts in redis after " +:+ itoa (ic_RetryCount c) +:+ " retries"))
  end.

(** The loop over the entries; a batch that fails is left behind. *)
Fixpoint redis_batches c (i : Z) (entries : list (string * HostUpdateTime)) (batchMap : gmap string HostUpdateTime)
    w (err : option error) : W * option error :=
  match entries with
  | [] =>
      if (0 <? size batchMap)%nat then
        match writeTargetTsInRedis c batchMap w with
        | (w, Some e) => (w, Some e)
        | (w, None) => (w, err)
        end
      else (w, err)
  | (k, v) :: entries =>
      let batchMap := <[k := v]> batchMap in
      if Z.rem (i + 1) (ic_BatchSize c) =? 0 then
        let '(w, e) := writeTargetTsInRedis c batchMap w in
        redis_batches c (i + 1) entries ∅ w (match e with Some e => Some e | None => err end)
      else redis_batches c (i + 1) entries batchMap w err
  end.

(** A batch size of zero divides by zero. *)
Definition updateTargetTsInRedis c (newMap : gmap string HostUpdateTime) w : go (W * option error) :=
  if (size newMap =? 0)%nat then Ret (w, None)
  else if Z.of_nat (size newMap) <=? ic_BatchSize c then Ret (writeTargetTsInRedis c newMap w)
  else if ic_BatchSize c =? 0 then Panic
  else Ret (redis_batches c 0 (go_range newMap) ∅ w None).

Definition update_times (lst : list string) (now : Z) : gmap string HostUpdateTime :=
  foldl (λ m ident, <[WrapIdentUpdateTime ident := mkHostUpdateTime ident now]> m) ∅ lst.

(** The state of a run: redis ([None] when there is none), the table, the array
    behind the slice of hosts, the posts to the center that wait in goroutines
    (each has a slice of the array, so its length), and what the center got. *)
Record istate := mkIstate {
  i_redis : option W;
  i_table : T;
  i_arr : list string;
  i_pending : list nat;
  i_posted : list (list string)
}.
#[global] Instance istate_eta : Settable istate := λ r,
  mkIstate (i_redis r) (i_table r) (i_arr r) (i_pending r) (i_posted r).
Implicit Types s : istate.

Definition updateTargetsUpdateTs c (lst : list string) (now : Z) s : go istate :=
  match i_redis s with
  | None => Ret s
  | Some w => '(w, _) ← updateTargetTsInRedis c (update_times lst now) w; Ret (s <| i_redis := Some w |>)
  end.

(** The center's part: new hosts are inserted, the others updated; errors of
    single rows are logged. *)
Definition update_table (lst : list string) (now : Z) (t : T) : T :=
  match tt_pluck t lst with
  | Err _ => t
  | Ok exists_ =>
      let news := filter (λ i, i ∉ exists_) lst in
      let t := foldl (λ t i, fst (tt_insert t i now)) t news in
      foldl (λ t i, fst (tt_update t i now)) t exists_
  end.

(** [UpdateTargets] of the first [n] elements of the array. *)
Definition UpdateTargets c (n : nat) (now : Z) s : go istate :=
  let lst := take n (i_arr s) in
  if (length lst =? 0)%nat then Ret s
  else
    s ← updateTargetsUpdateTs c lst now s;
    if negb (ic_IsCenter c) then
      if (ic_ByUrlConcurrency c <=? length (i_pending s))%nat then Ret s
      else Ret (s <| i_pending := i_pending s ++ [n] |>)
    else if ic_DBTimestampDisable c then Ret s
    else Ret (s <| i_table := update_table lst now (i_table s) |>).

(** The first [k] waiting goroutines post what their slices have now. *)
Definition run_posts (k : nat) s : istate :=
  s <| i_posted := i_posted s ++ map (λ n, take n (i_arr s)) (take k (i_pending s)) |>
    <| i_pending := drop k (i_pending s) |>.

(** [append] within the capacity of the array overwrites what is there. *)
Definition put_at (arr : list string) (n : nat) (x : string) : list string :=
  if (n <? length arr)%nat then <[n := x]> arr else arr ++ [x].

(** The loop of [updateTimestamp]; [sched i] goroutines run after the [i]-th host. *)
Fixpoint update_loop c (sched : nat → nat) (i : nat) (idents : list string) (num : nat) (now : Z) s : go istate :=
  match idents with
  | [] => UpdateTargets c num now s
  | ident :: idents =>
      let s := s <| i_arr := put_at (i_arr s) num ident |> in
      let num := S num in
      if (num =? 100)%nat then
        s ← UpdateTargets c num now s;
        update_loop c sched (S i) idents 0 now (run_posts (sched i) s)
      else update_loop c sched (S i) idents num now (run_posts (sched i) s)
  end.

Definition updateTimestamp c (sched : nat → nat) (items : gset string) (now : Z) (s : istate) : go istate :=
  let idents := map fst (go_range (gset_to_gmap tt items)) in
  update_loop c sched 0 idents 0 now (s <| i_arr := [] |>).

(** [MSet] and [persist] of the set of hosts. *)
Definition Set_MSet (items new : gset string) : gset string := new ∪ items.

Definition persist c (sched : nat → nat) (items : gset string) (now : Z) s : go (gset string * istate) :=
  if decide (items = ∅) then Ret (items, s)
  else s ← updateTimestamp c sched items now s; Ret (∅, s).
End idents.

(** ** Meta data of hosts: [center/metas] *)

Section metas.
Context {W : Type} `{RP : RedisPipe W, GR : GoRange, !Json HostMeta, !Json (gmap string iface)}.

Definition WrapExtendIdent (ident : string) : string := "n9e_extend_meta_" +:+ ident.

Definition clear_extend (m : HostMeta) : HostMeta :=
  HostMt.mkHostMeta (HostMt.AgentVersion m) (HostMt.OS m) (HostMt.Arch m) (HostMt.Hostname m) (HostMt.CpuNum m)
    (HostMt.CpuUtil m) (HostMt.MemUtil m) (HostMt.Offset m) (HostMt.UnixTime m) (HostMt.RemoteAddr m)
    (HostMt.HostIp m) (HostMt.EngineName m) (HostMt.GlobalLabels m) ∅ (HostMt.Config m).

Definition Metas_Set (items : gmap string HostMeta) (ident : string) (meta : HostMeta) : gmap string HostMeta :=
  <[ident := meta]> items.

(** The extended information is written apart, under a key of its own; a nil
    map, which is not written, is not told from an empty one here. *)
Definition metas_updateTargets (redis : option W) (m : gmap string HostMeta) : option W * option error :=
  match redis with
  | None => (None, None)
  | Some w =>
      if (size m =? 0)%nat then (Some w, None)
      else
        let newMap := foldl (λ acc im, <[WrapIdent (fst im) := clear_extend (snd im)]> acc) ∅ (go_range m) in
        let extendMap := foldl (λ acc im, if (size (HostMt.ExtendInfo (snd im)) =? 0)%nat then acc
                                          else <[WrapExtendIdent (fst im) := HostMt.ExtendInfo (snd im)]> acc)
                           ∅ (go_range m) in
        match encode_all (go_range extendMap) with
        | Err err => (Some w, Some err)
        | Ok ext =>
            match storage_MSet w newMap with
            | (w, Some err) => (Some w, Some err)
            | (w, None) =>
                if (0 <? size extendMap)%nat then
                  let '(w, err) := rp_exec w ext in (Some w, err)
                else (Some w, None)
            end
        end
  end.

(** Batches of a hundred, keyed by the name a host gives itself. *)
Fixpoint meta_batches (metas : list HostMeta) (m : gmap string HostMeta) (num : nat) (redis : option W) : option W :=
  match metas with
  | [] => fst (metas_updateTargets redis m)
  | meta :: metas =>
      let m := <[HostMt.Hostname meta := meta]> m in
      if (S num =? 100)%nat then meta_batches metas ∅ 0 (fst (metas_updateTargets redis m))
      else meta_batches metas m (S num) redis
  end.

Definition updateMeta (redis : option W) (items : gmap string HostMeta) : option W :=
  meta_batches (map snd (go_range items)) ∅ 0 redis.

(** [HandleHeartbeat] of a decoded request: the meta data that are kept; a request
    without a host name is refused. *)
Definition HandleHeartbeat (items : gmap string HostMeta) (engineName clientIP : string) (nowMilli : Z)
    (req : HostMeta) : result (gmap string HostMeta * HostMeta) :=
  if String.eqb (HostMt.Hostname req) "" then Err "hostname is required"
  else
    let req := HostMt.mkHostMeta (HostMt.AgentVersion req) (HostMt.OS req) (HostMt.Arch req) (HostMt.Hostname req)
                 (HostMt.CpuNum req) (HostMt.CpuUtil req) (HostMt.MemUtil req)
                 (i64 (nowMilli - HostMt.UnixTime req)) (HostMt.UnixTime req) clientIP (HostMt.HostIp req) engineName
                 (HostMt.GlobalLabels req) (HostMt.ExtendInfo req) (HostMt.Config req) in
    Ok (Metas_Set items (HostMt.Hostname req) req, req).
End metas.

(** ** Properties: what is written to redis *)

Lemma foldl_insert_lookup {A} (l : list (string * A)) (m : gmap string A) k :
  NoDup l.*1 →
  foldl (λ m kv, <[fst kv := snd kv]> m) m l !! k =
  match (list_to_map l : gmap string A) !! k with Some v => Some v | None => m !! k end.
Proof.
  revert m. induction l as [|[k' v] l IH]; intros m Hnd; csimpl in *; [done|].
  apply NoDup_cons in Hnd as [Hk Hnd]. rewrite IH by done.
  destruct (decide (k = k')) as [->|Hne].
  - rewrite (not_elem_of_list_to_map_1 l k' Hk), !lookup_insert_eq. done.
  - by rewrite !lookup_insert_ne.
Qed.

Section redis_spec.
Context {W : Type} `{RP : RedisPipe W, GR : GoRange}.

Lemma encode_all_spec {A} `{!Json A} (kvs : list (string * A)) l :
  encode_all kvs = Ok l →
  l.*1 = kvs.*1 ∧ (∀ k s, (k, s) ∈ l ↔ ∃ v, (k, v) ∈ kvs ∧ json_marshal v = Ok s ∧ (k, s) ∈ l) ∧
  (∀ k v, (k, v) ∈ kvs → ∃ s, json_marshal v = Ok s ∧ (k, s) ∈ l).
Proof.
  revert l. induction kvs as [|[k v] kvs IH]; intros l; simpl.
  { intros [= <-]. split_and!; [done| |set_solver]. intros k s. set_solver. }
  intros (s & Hs & (rest & Hrest & [= <-])%result_bind_Ok)%result_bind_Ok.
  destruct (IH rest Hrest) as (Hk & Hback & Hfwd). csimpl. split_and!.
  - by f_equal.
  - intros k0 s0. split; [|naive_solver]. intros Hin. apply elem_of_cons in Hin as [[= -> ->]|Hin].
    + exists v. split_and!; [by left|done|by left].
    + apply Hback in Hin as (v0 & ? & ? & ?). exists v0. split_and!; [by right|done|by right].
  - intros k0 v0 Hin. apply elem_of_cons in Hin as [[= -> ->]|Hin]; [eexists; split; [done|by left]|].
    destruct (Hfwd k0 v0 Hin) as (s0 & ? & ?). exists s0. split; [done|by right].
Qed.

Lemma storage_MSet_ok {A} `{!Json A} w (m : gmap string A) w' :
  storage_MSet w m = (w', None) →
  (∀ k v, m !! k = Some v → ∃ s, json_marshal v = Ok s ∧ rp_data w' !! k = Some s).
Proof.
  unfold storage_MSet. destruct (encode_all (go_range m)) as [kvs|e] eqn:E; [|done].
  intros Hex k v Hk. apply encode_all_spec in E as (Hfst & _ & Hfwd).
  apply elem_of_go_range in Hk. destruct (Hfwd k v Hk) as (s & Hs & Hin). exists s. split; [done|].
  assert (NoDup kvs.*1) as Hnd by (rewrite Hfst; apply NoDup_fst_go_range).
  rewrite (rp_exec_ok _ _ _ Hex), foldl_insert_lookup by done.
  by rewrite (elem_of_list_to_map_1 kvs k s Hnd Hin).
Qed.

Lemma storage_MSet_some {A} `{!Json A} w (m : gmap string A) k :
  rp_data (fst (storage_MSet w m)) !! k = rp_data w !! k ∨
  ∃ v s, m !! k = Some v ∧ json_marshal v = Ok s ∧ rp_data (fst (storage_MSet w m)) !! k = Some s.
Proof.
  unfold storage_MSet. destruct (encode_all (go_range m)) as [kvs|e] eqn:E; [|by left].
  destruct (rp_exec_some w kvs k) as [?|(s & Hin & Hs)]; [by left|right].
  apply encode_all_spec in E as (_ & Hback & _). apply Hback in Hin as (v & Hv & Hm & _).
  exists v, s. split_and!; [by apply elem_of_go_range|done|done].
Qed.
End redis_spec.

(** *** The times of hosts *)

Section times.
Context {W T : Type} `{RP : RedisPipe W, TT : TargetTable T, GR : GoRange, !Json HostUpdateTime}.
Implicit Types (c : ident_conf) (w : W).

(** Redis has, for the host, the encoded time. *)
Definition marked (now : Z) w (h : string) : Prop :=
  ∃ s, json_marshal (mkHostUpdateTime h now) = Ok s ∧ rp_data w !! WrapIdentUpdateTime h = Some s.

(** Maps with the times of hosts at [now]. *)
Definition times_of (now : Z) (m : gmap string HostUpdateTime) : Prop :=
  ∀ k v, m !! k = Some v → ∃ h, k = WrapIdentUpdateTime h ∧ v = mkHostUpdateTime h now.

#[local] Instance wrap_inj : Inj (=) (=) WrapIdentUpdateTime.
Proof. intros a b H. unfold WrapIdentUpdateTime in H. by simplify_eq. Qed.

Lemma times_of_empty now : times_of now ∅.
Proof. intros k v. by rewrite lookup_empty. Qed.
Lemma times_of_insert now m h :
  times_of now m → times_of now (<[WrapIdentUpdateTime h := mkHostUpdateTime h now]> m).
Proof. intros Hm k v [[<- <-]|[_ ?]]%lookup_insert_Some; eauto. Qed.

Lemma update_times_spec now lst :
  times_of now (update_times lst now) ∧
  (∀ h, h ∈ lst → update_times lst now !! WrapIdentUpdateTime h = Some (mkHostUpdateTime h now)).
Proof.
  unfold update_times. induction lst as [|x lst IH] using rev_ind; simpl.
  { split; [apply times_of_empty|set_solver]. }
  rewrite foldl_app. simpl. destruct IH as [Ht Hl]. split; [by apply times_of_insert|].
  intros h [Hh|Hh%list_elem_of_singleton]%elem_of_app.
  - destruct (decide (h = x)) as [->|]; [by rewrite lookup_insert_eq|].
    rewrite lookup_insert_ne by (intros ?%(inj WrapIdentUpdateTime); congruence). by apply Hl.
  - subst. by rewrite lookup_insert_eq.
Qed.

(** What writing the times of hosts at [now] does to redis: a mark stays, and a
    time that changes becomes a mark. *)
Definition evolves (now : Z) w w' : Prop :=
  ∀ h, (marked now w h → marked now w' h) ∧
       (rp_data w' !! WrapIdentUpdateTime h = rp_data w !! WrapIdentUpdateTime h ∨ marked now w' h).

Lemma evolves_refl now w : evolves now w w.
Proof. intros h. auto. Qed.
Lemma evolves_trans now w1 w2 w3 : evolves now w1 w2 → evolves now w2 w3 → evolves now w1 w3.
Proof.
  intros H12 H23 h. destruct (H12 h) as [K1 S1], (H23 h) as [K2 S2]. split; [auto|].
  destruct S2 as [S2|]; [|auto]. destruct S1 as [S1|]; [|auto]. left. congruence.
Qed.

Lemma MSet_evolves now w m : times_of now m → evolves now w (fst (storage_MSet w m)).
Proof.
  intros Ht h. pose proof (storage_MSet_some w m (WrapIdentUpdateTime h)) as Hs.
  assert (rp_data (fst (storage_MSet w m)) !! WrapIdentUpdateTime h = rp_data w !! WrapIdentUpdateTime h ∨
          marked now (fst (storage_MSet w m)) h) as Hor.
  { destruct Hs as [?|(v & s & Hv & Hm & Hd)]; [by left|right].
    apply Ht in Hv as (h' & Heq & ->). apply (inj WrapIdentUpdateTime) in Heq as <-. by exists s. }
  split; [|done]. intros (s & Hs1 & Hd). destruct Hor as [Heq|]; [|done]. exists s. by rewrite Heq.
Qed.

Lemma write_retries_evolves now n m w : times_of now m → evolves now w (fst (write_retries n m w)).
Proof.
  intros Ht. revert w. induction n as [|n IH]; intros w; simpl; [apply evolves_refl|].
  pose proof (MSet_evolves now w m Ht) as Hk. destruct (storage_MSet w m) as [w1 [e|]]; simpl in *; [|done].
  eapply evolves_trans; [exact Hk|apply IH].
Qed.

Lemma write_retries_marks now n m w h :
  m !! WrapIdentUpdateTime h = Some (mkHostUpdateTime h now) →
  snd (write_retries n m w) = true → marked now (fst (write_retries n m w)) h.
Proof.
  intros Hh. revert w. induction n as [|n IH]; intros w; simpl; [done|].
  destruct (storage_MSet w m) as [w1 [e|]] eqn:E; [apply IH|]. intros _. simpl.
  destruct (storage_MSet_ok w m w1 E _ _ Hh) as (s & ? & ?). by exists s.
Qed.

(** Redis takes every write within the retries. *)
Definition redis_up c : Prop := ∀ m w, snd (writeTargetTsInRedis c m w) = None.

Lemma write_spec c now m w :
  redis_up c → times_of now m →
  let w' := fst (writeTargetTsInRedis c m w) in
  evolves now w w' ∧
  (∀ h, m !! WrapIdentUpdateTime h = Some (mkHostUpdateTime h now) → marked now w' h).
Proof.
  intros Hup Ht. specialize (Hup m w). unfold writeTargetTsInRedis in *.
  pose proof (write_retries_evolves now (Z.to_nat (ic_RetryCount c)) m w Ht) as Hk.
  pose proof (write_retries_marks now (Z.to_nat (ic_RetryCount c)) m w) as Hm.
  destruct (write_retries _ m w) as [w1 []]; simpl in *; [|done]. split; auto.
Qed.

Lemma entry_inj now h h0 :
  (WrapIdentUpdateTime h, mkHostUpdateTime h now) = (WrapIdentUpdateTime h0, mkHostUpdateTime h0 now) → h = h0.
Proof. intros Heq. exact (f_equal (λ p, hu_Ident (snd p)) Heq). Qed.

Lemma redis_batches_marks c now i entries batch w err :
  redis_up c → times_of now batch →
  Forall (λ kv, ∃ h, kv = (WrapIdentUpdateTime h, mkHostUpdateTime h now)) entries →
  let w' := fst (redis_batches c i entries batch w err) in
  evolves now w w' ∧
  (∀ h, batch !! WrapIdentUpdateTime h = Some (mkHostUpdateTime h now) ∨
        (WrapIdentUpdateTime h, mkHostUpdateTime h now) ∈ entries → marked now w' h).
Proof.
  intros Hup. revert i batch w err. induction entries as [|[k v] entries IH]; intros i batch w err Hb He; simpl.
  - destruct (Nat.ltb_spec 0 (size batch)) as [Hlt|Hle].
    + pose proof (write_spec c now batch w Hup Hb) as [Hk Hm].
      destruct (writeTargetTsInRedis c batch w) as [w1 [e|]]; simpl in *; split; try done; intros h [?|?]; auto; set_solver.
    + assert (batch = ∅) as -> by (apply map_size_empty_inv; lia).
      split; [apply evolves_refl|]. intros h [Hx|Hx]; [by rewrite lookup_empty in Hx|set_solver].
  - apply Forall_cons in He as [(h0 & [= -> ->]) He].
    pose proof (times_of_insert now batch h0 Hb) as Hb'.
    set (batch' := <[_ := _]> batch) in *.
    assert (batch' !! WrapIdentUpdateTime h0 = Some (mkHostUpdateTime h0 now)) as H0 by apply lookup_insert_eq.
    assert (∀ h, batch !! WrapIdentUpdateTime h = Some (mkHostUpdateTime h now) →
                 batch' !! WrapIdentUpdateTime h = Some (mkHostUpdateTime h now)) as Hmono.
    { intros h Hh. destruct (decide (h = h0)) as [->|Hne]; [done|]. unfold batch'.
      rewrite lookup_insert_ne; [done|]. intros ?%(inj WrapIdentUpdateTime). congruence. }
    destruct (_ =? 0).
    + pose proof (write_spec c now batch' w Hup Hb') as [Hk Hm].
      destruct (writeTargetTsInRedis c batch' w) as [w1 e]. simpl in *.
      destruct (IH (i + 1) ∅ w1 (match e with Some e => Some e | None => err end) (times_of_empty now) He) as [Hk2 Hm2].
      split; [by eapply evolves_trans|].
      assert (∀ h, marked now w1 h → marked now (fst (redis_batches c (i + 1) entries ∅ w1
                 (match e with Some e => Some e | None => err end))) h) as Hkeep by (intros h; apply Hk2).
      intros h [Hx|Hx]; [auto|]. apply elem_of_cons in Hx as [Heq|Hx]; [|auto].
      apply entry_inj in Heq as ->. auto.
    + destruct (IH (i + 1) batch' w err Hb' He) as [Hk2 Hm2]. split; [done|].
      intros h [Hx|Hx]; [auto|]. apply elem_of_cons in Hx as [Heq|Hx]; [|auto].
      apply entry_inj in Heq as ->. auto.
Qed.

Lemma updateTargetTsInRedis_marks c now m w :
  redis_up c → 0 < ic_BatchSize c → times_of now m →
  ∃ r, updateTargetTsInRedis c m w = Ret r ∧
    evolves now w (fst r) ∧
    (∀ h, m !! WrapIdentUpdateTime h = Some (mkHostUpdateTime h now) → marked now (fst r) h).
Proof.
  intros Hup Hbs Ht. unfold updateTargetTsInRedis.
  destruct (Nat.eqb_spec (size m) 0) as [Hz|Hz].
  { eexists. split; [done|]. split; [apply evolves_refl|]. intros h Hh. apply map_size_empty_inv in Hz. subst m.
    by rewrite lookup_empty in Hh. }
  destruct (Z.of_nat (size m) <=? ic_BatchSize c).
  { eexists. split; [done|]. by apply write_spec. }
  destruct (Z.eqb_spec (ic_BatchSize c) 0); [lia|]. eexists. split; [done|].
  destruct (redis_batches_marks c now 0 (go_range m) ∅ w None Hup (times_of_empty now)) as [Hk Hm].
  { apply Forall_forall. intros [k v] Hin%elem_of_go_range. apply Ht in Hin as (h & -> & ->). eauto. }
  split; [done|]. intros h Hh. apply Hm. right. by apply elem_of_go_range.
Qed.

(** The same for the state of a run. *)
Notation istate := (@istate W T).
Definition imarked (now : Z) (s : istate) (h : string) : Prop :=
  ∃ w, i_redis s = Some w ∧ marked now w h.
Definition ievolves (now : Z) (s s' : istate) : Prop :=
  ∃ w w', i_redis s = Some w ∧ i_redis s' = Some w' ∧ evolves now w w'.

Lemma ievolves_keeps now s s' h : ievolves now s s' → imarked now s h → imarked now s' h.
Proof. intros (w & w' & Hw & Hw' & He) (w0 & Hw0 & Hm). exists w'. split; [done|]. apply He. congruence. Qed.
Lemma ievolves_trans now s1 s2 s3 : ievolves now s1 s2 → ievolves now s2 s3 → ievolves now s1 s3.
Proof.
  intros (w1 & w2 & H1 & H2 & He) (w2' & w3 & H2' & H3 & He'). exists w1, w3. split_and!; [done..|].
  simplify_eq. by eapply evolves_trans.
Qed.
Lemma ievolves_redis now s s' : ievolves now s s' → is_Some (i_redis s').
Proof. intros (w & w' & _ & ? & _). by eexists. Qed.

Lemma UpdateTargets_marks c n now (s : istate) w :
  redis_up c → 0 < ic_BatchSize c → i_redis s = Some w →
  ∃ s', UpdateTargets c n now s = Ret s' ∧ i_arr s' = i_arr s ∧ ievolves now s s' ∧
    (∀ h, h ∈ take n (i_arr s) → imarked now s' h).
Proof.
  intros Hup Hbs Hw. unfold UpdateTargets. set (lst := take n (i_arr s)).
  destruct (Nat.eqb_spec (length lst) 0) as [Hz|Hz].
  { exists s. split_and!; [done|done| |apply nil_length_inv in Hz; rewrite Hz; set_solver].
    exists w, w. split_and!; [done..|apply evolves_refl]. }
  destruct (update_times_spec now lst) as [Ht Hl].
  destruct (updateTargetTsInRedis_marks c now (update_times lst now) w Hup Hbs Ht) as ([w' e] & Heq & Hk & Hm).
  unfold updateTargetsUpdateTs. rewrite Hw, Heq. simpl in *.
  assert (∀ s', i_redis s' = Some w' → ievolves now s s' ∧ (∀ h, h ∈ lst → imarked now s' h)) as Hmarks.
  { intros s' Hs'. split; [by exists w, w'|]. intros h Hh. exists w'. split; [done|]. by apply Hm, Hl. }
  destruct (ic_IsCenter c); simpl.
  - destruct (ic_DBTimestampDisable c); (eexists; split; [done|]; split; [done|]; by apply Hmarks).
  - destruct (_ <=? _)%nat; (eexists; split; [done|]; split; [done|]; by apply Hmarks).
Qed.

Lemma put_at_take arr n x :
  (n ≤ length arr)%nat → take (S n) (put_at arr n x) = take n arr ++ [x] ∧ (S n ≤ length (put_at arr n x))%nat.
Proof.
  intros Hn. unfold put_at. destruct (Nat.ltb_spec n (length arr)) as [Hlt|Hge].
  - rewrite length_insert. split; [|lia]. rewrite (take_S_r _ _ x) by (by apply list_lookup_insert_eq).
    by rewrite take_insert_ge.
  - assert (n = length arr) as -> by lia. rewrite length_app. simpl. split; [|lia].
    rewrite take_ge by (rewrite length_app; simpl; lia). by rewrite take_ge.
Qed.

Lemma update_loop_marks c sched i idents num now (s : istate) :
  redis_up c → 0 < ic_BatchSize c → is_Some (i_redis s) → (num ≤ length (i_arr s))%nat →
  ∃ s', update_loop c sched i idents num now s = Ret s' ∧ ievolves now s s' ∧
    (∀ h, h ∈ take num (i_arr s) ++ idents → imarked now s' h).
Proof.
  intros Hup Hbs. revert i num s. induction idents as [|x idents IH]; intros i num s [w Hw] Hnum; cbn [update_loop].
  - destruct (UpdateTargets_marks c num now s w Hup Hbs Hw) as (s' & Heq & _ & Hk & Hm).
    exists s'. rewrite app_nil_r. auto.
  - destruct (put_at_take (i_arr s) num x Hnum) as [Htake Hlen].
    set (s1 := s <| i_arr := put_at (i_arr s) num x |>).
    assert (i_redis s1 = Some w) as Hw1 by done.
    destruct (S num =? 100)%nat.
    + destruct (UpdateTargets_marks c (S num) now s1 w Hup Hbs Hw1) as (s2 & Heq & Harr & Hk & Hm).
      rewrite Heq. cbn [mbind go_bind].
      destruct (IH (S i) 0%nat (run_posts (sched i) s2)) as (s' & Heq' & Hk' & Hm');
        [exact (ievolves_redis _ _ _ Hk)|lia|].
      exists s'. split_and!; [done|exact (ievolves_trans _ _ _ _ Hk Hk')|].
      intros h Hh. rewrite cons_middle, (assoc_L (++)), <- Htake in Hh.
      apply elem_of_app in Hh as [Hh|Hh]; [exact (ievolves_keeps _ _ _ _ Hk' (Hm h Hh))|]. apply Hm'. set_solver.
    + destruct (IH (S i) (S num) (run_posts (sched i) s1)) as (s' & Heq' & Hk' & Hm'); [by eexists|done|].
      exists s'. split_and!; [done|exact Hk'|].
      intros h Hh. apply Hm'. rewrite cons_middle, (assoc_L (++)), <- Htake in Hh. exact Hh.
Qed.

(** A persist with redis available marks every host of the set, whatever the
    order of the hosts, the sizes of the batches, the failures that a retry makes
    good, and the schedule of the posts to the center; and the set is empty
    afterwards. *)
Lemma persist_marks c sched items now (s : istate) :
  redis_up c → 0 < ic_BatchSize c → is_Some (i_redis s) →
  ∃ s', persist c sched items now s = Ret (∅, s') ∧ ievolves now s s' ∧ (∀ h, h ∈ items → imarked now s' h).
Proof.
  intros Hup Hbs Hr. unfold persist. case_decide as Hit.
  { subst. exists s. split_and!; [done| |set_solver]. destruct Hr as [w Hw].
    exists w, w. split_and!; [done..|apply evolves_refl]. }
  unfold updateTimestamp.
  destruct (update_loop_marks c sched 0 (map fst (go_range (gset_to_gmap () items))) 0 now (s <| i_arr := [] |>))
    as (s' & -> & Hk & Hm); [done|done|done|simpl; lia|].
  exists s'. split_and!; [done|exact Hk|]. intros h Hh. apply Hm. simpl.
  apply elem_of_fst_go_range. exists (). by apply lookup_gset_to_gmap_Some.
Qed.

(** *** What is read back *)

Context `{!JsonRoundTrip HostUpdateTime (mkHostUpdateTime "" 0)}.

(** Times that the JSON library can encode. *)
Definition encodable (now : Z) (h : string) : Prop := json_wf (mkHostUpdateTime h now).

Lemma marked_update_time now w h cache :
  encodable now h → marked now w h → update_time (data_redis (rp_data w)) cache h = Some now.
Proof.
  intros Hwf (s & Hs & Hd). unfold update_time. simpl. rewrite Hd.
  destruct (json_round _ Hwf) as (s' & Hs' & _ & Hu). rewrite Hs in Hs'. injection Hs' as <-. by rewrite Hu.
Qed.

Lemma evolves_reports_own now w w' :
  (∀ h, encodable now h) → evolves now w w' →
  reports_own (data_redis (rp_data w)) → reports_own (data_redis (rp_data w')).
Proof.
  intros Hwf He Hown ident value h Hget Hj. simpl in *. destruct (He ident) as [_ [Hsame|(s & Hs & Hd)]].
  - eapply Hown; [simpl; by rewrite <- Hsame|done].
  - destruct (json_round _ (Hwf ident)) as (s' & Hs' & _ & Hu). rewrite Hs in Hs'.
    injection Hs' as <-. rewrite Hd in Hget. injection Hget as <-. rewrite Hu in Hj. by injection Hj as <-.
Qed.
End times.
