(* ===== verification/Hosts.v ===== *)
(** * From a pushed sample to a host that is alive

    The composition of the push gateway, the reports of hosts and the triggers
    for missing hosts: a host whose samples arrive is not reported missing.  And
    two ways in which reports get mixed up: the slice of hosts that an edge posts
    to the center is overwritten, and one key of redis can belong to two hosts. *)

From S2P Require Import Prelude GoStrings GoTime Json Models RuleModels EventOps Filter Mute Relabel Workflow Engine.
From S2P Require Import Processors RuleOps EventTable Process Subscription Dispatch Naming Caches Joins Scheduler Vars Eval.
From S2P Require Import Http Queues Writers Push Idents.
Open Scope string_scope.
Open Scope Z_scope.
Open Scope list_scope.

Section alive.
Context {W T : Type} `{RP : RedisPipe W, TT : TargetTable T, GR : GoRange, SF : SampleFmt, EQ : EventQueueLib}.
Context `{!Json HostMeta, !Json HostUpdateTime, !JsonRoundTrip HostUpdateTime (mkHostUpdateTime "" 0)}.
Notation istate := (@istate W T).
Notation names ls := (map Lbl.Name ls).

(** C37. A host that names itself in a sample pushed by remote write is registered, the next persist
    writes its time to redis, and until the duration of a trigger has passed since then no
    rule reports it missing.  The sample has one label of each name and a host that is not
    empty; the push does not ask to ignore the host; no metrics are configured as the only
    ones that name hosts ([IdentMetrics] is empty); the queues are not over their limit; redis
    works; times can be encoded; cached hosts stand under their own names; and what redis holds under the key of a host is the time of
    that host, so that the keys of two hosts do not collide. *)
Theorem pushed_host_alive rt curLen series v h s c sched now (si : istate) w
    cf tar (cache : gmap string Target) ruleId t trigger :
  curLen ≤ PushConf.AllQueueMaxSize (rt_Pushgw rt) → 0 < PushConf.QueueNumber (rt_Pushgw rt) < 2 ^ 64 →
  PushConf.IdentMetrics (rt_Pushgw rt) = [] →
  v ∈ series → NoDup (names (ts_Labels v)) → Lbl.mkLabel "ident" h ∈ ts_Labels v → h ≠ "" →
  redis_up c → 0 < ic_BatchSize c → i_redis si = Some w →
  (∀ i, encodable now i) → reports_own (data_redis (rp_data w)) →
  (∀ i t, cache !! i = Some t → Tgt.Ident t = i) → t - HostTrig.Duration trigger ≤ now →
  ∃ s' si' w', remoteWrite Some rt curLen (Ok series) false true s = Ret (s', RText 200 "") ∧
    persist c sched (r_idents s') now si = Ret (∅, si') ∧ i_redis si' = Some w' ∧
    ¬ ∃ p, p ∈ target_miss cf (mkHosts tar (Some (data_redis (rp_data w')))) cache ruleId t trigger ∧
           Point.Labels p !! "ident" = Some h.
Proof.
  intros Hlim Hqn Him Hv Hnd Hl Hne Hup Hbs Hw Henc Hown Hkey Ht.
  destruct (remoteWrite_accepts rt curLen series false true s Hlim Hqn) as (s' & q & Hrw & _ & Hreg).
  specialize (Hreg v h Hv Hnd Hl Hne eq_refl Him).
  destruct (persist_marks c sched (r_idents s') now si Hup Hbs) as (si' & Hp & Hev & Hm); [by eexists|].
  destruct Hev as (w0 & w' & Hw0 & Hw' & Hev). rewrite Hw in Hw0. injection Hw0 as <-.
  exists s', si', w'. split_and!; [done..|].
  destruct (Hm h Hreg) as (w1 & Hw1 & Hmark). rewrite Hw' in Hw1. injection Hw1 as <-.
  intros Hp'. apply target_miss_elem in Hp' as (_ & _ & z & Hz & Hlt); [|by eapply evolves_reports_own|done].
  rewrite (marked_update_time now w' h cache (Henc h) Hmark) in Hz. injection Hz as <-. lia.
Qed.
End alive.

(** ** The slice that an edge posts *)

(** A table without rows, for an edge. *)
#[local] Instance no_table : TargetTable unit :=
  {| tt_pluck := λ _ _, Ok []; tt_insert := λ t _ _, (t, None); tt_update := λ t _ _, (t, None) |}.
#[local] Instance no_redis : RedisPipe unit.
Proof.
  refine {| rp_data := λ _, ∅; rp_exec := λ w _, (w, Some "closed") |}; [done|]. intros. by left.
Defined.

Definition edge_conf : ident_conf := mkIdentConf false 20 3 false 10.
Definition many_hosts : list string := map (λ i, "host-" +:+ itoa (Z.of_nat i)) (seq 0 101).

(** An edge with 101 hosts whose posts run only after the loop: the second batch
    overwrites the array of the first, so the center never hears of the first host
    and hears of the last one twice. *)
Theorem edge_posts_overwritten `{!Json HostUpdateTime} :
  ∃ s, update_loop edge_conf (λ _, 0%nat) 0 many_hosts 0 7 (mkIstate None tt [] [] []) = Ret s ∧
    let posted := concat (i_posted (run_posts (length (i_pending s)) s)) in
    head many_hosts = Some "host-0" ∧ ("host-0" ∉ posted) ∧
    length (filter (λ h, h = "host-100") posted) = 2%nat.
Proof.
  eexists. split; [vm_compute; reflexivity|]. vm_compute. split_and!; [done| |done].
  intros Hin. repeat (apply elem_of_cons in Hin as [Hin|Hin]; [discriminate Hin|]). by apply not_elem_of_nil in Hin.
Qed.

(** ** Keys of redis *)

(** The key for the meta data of a host named [update_time_x] is the key for the
    time of the host [x]. *)
Theorem update_time_key_collision x : WrapIdent ("update_time_" +:+ x) = WrapIdentUpdateTime x.
Proof. reflexivity. Qed.
