(* ===== verification/Sources.v ===== *)
(** * Data sources: [models/datasource.go], [pkg/secu/rsa.go] and [prom]

    The columns of a data source and its decoded settings, the encryption of the
    settings on their way from the center to an edge, and the map of clients of
    prometheus-like data sources that is kept in step with the table, with the
    remote write of [pkg/prom/writer.go] that recording rules use. *)

From S2P Require Import Prelude GoStrings Json Models RuleModels Filter Relabel RuleOps Caches Http Writers.
Open Scope string_scope.
Open Scope Z_scope.
Open Scope list_scope.

(** ** [pkg/secu/rsa.go]

    The pieces of [encoding/pem], [crypto/x509], [crypto/rsa] and base64.
    [rand] is the randomness of an encryption. *)
Class Crypto := {
  pubkey : Type;
  privkey : Type;
  pem_Decode : string → option string;
  x509_DecryptPEMBlock : string → string → result string;
  x509_ParsePKCS1PrivateKey : string → result privkey;
  x509_ParsePKIXPublicKey : string → result (option pubkey);
  rsa_EncryptPKCS1v15 : string → pubkey → string → result string;
  rsa_DecryptPKCS1v15 : privkey → string → result string;
  base64_encode : string → string;
  base64_decode : string → string;
  base64_round : ∀ s, base64_decode (base64_encode s) = s;
  base64_empty : ∀ s, base64_encode s = "" → s = "";
  rsa_nonempty : ∀ rand k m c, rsa_EncryptPKCS1v15 rand k m = Ok c → c ≠ ""
}.

Section secu.
Context `{CY : Crypto}.

(** The private key of a file, which may be encrypted. *)
Definition private_key (privateKeyByte password : string) : result privkey :=
  match pem_Decode privateKeyByte with
  | None => Err "private key block is nil"
  | Some block =>
      match x509_DecryptPEMBlock block password with
      | Ok bytes => x509_ParsePKCS1PrivateKey bytes
      | Err err => if String.eqb password "" then x509_ParsePKCS1PrivateKey block else Err err
      end
  end.

Definition secu_Decrypt (cipherText privateKeyByte password : string) : result string :=
  let cipherText := if (4 <? String.length cipherText)%nat && has_prefix cipherText "enc:"
                    then str_drop 4 cipherText else cipherText in
  k ← private_key privateKeyByte password;
  rsa_DecryptPKCS1v15 k (base64_decode cipherText).

(** A public key that is not in PEM format is a nil block. *)
Definition EncryptValue (rand value publicKeyData : string) : go (result string) :=
  match pem_Decode publicKeyData with
  | None => Panic
  | Some block =>
      Ret (match x509_ParsePKIXPublicKey block with
           | Err err => Err ("failed to parse public key: " +:+ err)
           | Ok None => Err "failed to assert parsed key as RSA public key"
           | Ok (Some k) =>
               match rsa_EncryptPKCS1v15 rand k value with
               | Err err => Err ("failed to encrypt value: " +:+ err)
               | Ok ciphertext => Ok ("enc:" +:+ base64_encode ciphertext)
               end
           end)
  end.
End secu.

(** ** [Datasource] *)

Record RsaConfig := mkRsaConfig {
  rsa_OpenRSA : bool;
  rsa_PassWord : string;
  rsa_PrivateKeyBytes : string
}.


Section datasource.
Context `{SL : StrLib, CY : Crypto, UC : UnicodeCase, GR : GoRange}.
Context `{!Json (option (gmap string iface)), !Json HttpSet.HTTP, !Json AuthSet.Auth}.
Implicit Types ds : Datasource.

Definition Datasource_FE2DB ds : Datasource * option error :=
  match (match Source.SettingsJson ds with
         | Some _ => s ← json_marshal (Source.SettingsJson ds); Ok (ds <| Source.Settings := s |>)
         | None => Ok ds
         end) with
  | Err err => (ds, Some err)
  | Ok ds =>
      match json_marshal (Source.HTTPJson ds) with
      | Err err => (ds, Some err)
      | Ok b =>
          let ds := ds <| Source.HTTP := b |> in
          match json_marshal (Source.AuthJson ds) with
          | Err err => (ds, Some err)
          | Ok b => (ds <| Source.Auth := b |>, None)
          end
      end
  end.

Definition http_defaults ds : Datasource :=
  let or d v := if v =? 0 then d else v in
  let h := Source.HTTPJson ds in
  let h := h <| HttpSet.Timeout := or 10000 (HttpSet.Timeout h) |>
             <| HttpSet.DialTimeout := or 10000 (HttpSet.DialTimeout h) |>
             <| HttpSet.MaxIdleConnsPerHost := or 100 (HttpSet.MaxIdleConnsPerHost h) |> in
  let h := if String.eqb (Source.PluginType ds) ELASTICSEARCH && (length (HttpSet.Urls h) =? 0)%nat
           then h <| HttpSet.Urls := [HttpSet.Url h] |> else h in
  ds <| Source.HTTPJson := h |>.

Definition Datasource_DB2FE ds : Datasource * option error :=
  let '(sj, err) := decode_column (Source.Settings ds) (Source.SettingsJson ds) in
  let ds := ds <| Source.SettingsJson := sj |> in
  match err with
  | Some err => (ds, Some err)
  | None =>
      let '(h, err) := decode_column (Source.HTTP ds) (Source.HTTPJson ds) in
      let ds := ds <| Source.HTTPJson := h |> in
      match err with
      | Some err => (ds, Some err)
      | None =>
          let ds := http_defaults ds in
          let '(a, err) := decode_column (Source.Auth ds) (Source.AuthJson ds) in
          (ds <| Source.AuthJson := a |>, err)
      end
  end.

Definition Datasource_Verify ds : Datasource * option error :=
  if str_dangerous (Source.Name ds) then (ds, Some "Name has invalid characters") else Datasource_FE2DB ds.

(** [Add] and [Update] up to the statement. *)
Definition Datasource_Add (now : Z) ds : Datasource * option error :=
  match Datasource_Verify ds with
  | (ds, Some err) => (ds, Some err)
  | (ds, None) => (ds <| Source.CreatedAt := now |> <| Source.UpdatedAt := now |>, None)
  end.

Definition Datasource_Update (now : Z) ds : Datasource * option error :=
  match Datasource_Verify ds with
  | (ds, Some err) => (ds, Some err)
  | (ds, None) => (if Source.UpdatedAt ds =? 0 then ds <| Source.UpdatedAt := now |> else ds, None)
  end.

Definition ClearPlaintext ds : Datasource :=
  ds <| Source.Settings := "" |> <| Source.SettingsJson := None |> <| Source.Auth := "" |>
     <| Source.AuthJson := (Source.AuthJson ds) <| AuthSet.BasicAuthUser := "" |> <| AuthSet.BasicAuthPassword := "" |> |>.

(** The encryption of a column that is not empty. *)
Definition encrypt_column (rand column pub : string) : go (result (option string)) :=
  if String.eqb column "" then Ret (Ok None)
  else r ← EncryptValue rand column pub; Ret (match r with Ok e => Ok (Some e) | Err err => Err err end).

Definition Encrypt (rand1 rand2 : string) (openRsa : bool) (pub : string) ds : go (Datasource * option error) :=
  if negb openRsa then Ret (ds, None)
  else
    r ← encrypt_column rand1 (Source.Settings ds) pub;
    match r with
    | Err err => Ret (ds, Some err)
    | Ok e =>
        let ds := match e with Some e => ds <| Source.SettingsEncoded := e |> | None => ds end in
        r ← encrypt_column rand2 (Source.Auth ds) pub;
        match r with
        | Err err => Ret (ds, Some err)
        | Ok e =>
            let ds := match e with Some e => ds <| Source.AuthEncoded := e |> | None => ds end in
            Ret (ClearPlaintext ds, None)
        end
    end.

Definition Decrypt (rsaConfig : option RsaConfig) ds : Datasource * option error :=
  match rsaConfig with
  | None => (ds, Some "rsa config is nil")
  | Some rsa =>
      if negb (rsa_OpenRSA rsa) then (ds, None)
      else
        let '(ds, err) :=
          if negb (String.eqb (Source.SettingsEncoded ds) "") then
            match secu_Decrypt (Source.SettingsEncoded ds) (rsa_PrivateKeyBytes rsa) (rsa_PassWord rsa) with
            | Err err => (ds, Some err)
            | Ok settings =>
                let '(sj, err) := json_unmarshal settings (Source.SettingsJson ds) in
                (ds <| Source.Settings := settings |> <| Source.SettingsJson := sj |>, err)
            end
          else (ds, None) in
        match err with
        | Some err => (ds, Some err)
        | None =>
            if negb (String.eqb (Source.AuthEncoded ds) "") then
              match secu_Decrypt (Source.AuthEncoded ds) (rsa_PrivateKeyBytes rsa) (rsa_PassWord rsa) with
              | Err err => (ds, Some err)
              | Ok auth =>
                  let '(aj, err) := json_unmarshal auth (Source.AuthJson ds) in
                  (ds <| Source.Auth := auth |> <| Source.AuthJson := aj |>, err)
              end
            else (ds, None)
        end
  end.

(** [datasourceGetsByService]: what the center answers to an edge; a data source
    that cannot be encrypted is only logged.  The numbers pick the randomness. *)
Fixpoint encrypt_all (rand : nat → string * string) (i : nat) (openRsa : bool) (pub : string) (lst : list Datasource) :
    go (list Datasource) :=
  match lst with
  | [] => Ret []
  | item :: lst =>
      '(item, _) ← Encrypt (fst (rand i)) (snd (rand i)) openRsa pub item;
      rest ← encrypt_all rand (S i) openRsa pub lst;
      Ret (item :: rest)
  end.

(** What JSON carries of a data source: not the columns. *)
Definition json_fields ds : Datasource :=
  ds <| Source.Settings := "" |> <| Source.HTTP := "" |> <| Source.Auth := "" |>.

(** The edge decrypts what it receives, and fills the columns of those it could. *)
Definition decrypt_received (rsaConfig : option RsaConfig) ds : Datasource :=
  match Decrypt rsaConfig ds with
  | (ds, Some _) => ds
  | (ds, None) => fst (Datasource_FE2DB ds)
  end.

(** [DatasourceGetMap] on an edge, with what the center answered, and on the
    center, with the rows of the table. *)
Definition DatasourceGetMap (isCenter : bool) (rsaConfig : option RsaConfig) (read : result (list Datasource)) :
    result (gmap Z Datasource) :=
  match read with
  | Err err => Err err
  | Ok lst =>
      let lst := if isCenter then map (λ ds, fst (Datasource_DB2FE ds)) lst
                 else map (decrypt_received rsaConfig) lst in
      Ok (foldl (λ m ds, <[Source.Id ds := ds]> m) ∅ lst)
  end.

(** *** [HTTP] *)

Definition IsLoki (h : HttpSet.HTTP) : bool :=
  if contains (HttpSet.Url h) "loki" then true
  else existsb (λ kv, contains (to_lower (fst kv)) "loki") (go_range (HttpSet.Headers h)).
End datasource.

(** The addresses in a random order: the shuffle swaps position [i] with one up
    to it, for [i] from the last down to 1. *)
Section urls.
Context {World : Type} `{NW : Network World}.

Definition swap {A} (i j : nat) (l : list A) : list A :=
  match l !! i, l !! j with
  | Some x, Some y => <[i := y]> (<[j := x]> l)
  | _, _ => l
  end.

Fixpoint shuffle {A} (i : nat) (urls : list A) (w : World) : World * list A :=
  match i with
  | O => (w, urls)
  | S i' => let '(w, j) := rand_Intn w (S i) in shuffle i' (swap i j urls) w
  end.

Definition GetUrls (h : HttpSet.HTTP) (w : World) : World * list string :=
  let urls := if (length (HttpSet.Urls h) =? 0)%nat then [HttpSet.Url h] else HttpSet.Urls h in
  shuffle (length urls - 1) urls w.

(** The first address of which a request can be made, or the last error. *)
Fixpoint first_request (urls : list string) (last : result (Request * string)) : result (Request * string) :=
  match urls with
  | [] => last
  | url :: urls => match NewRequest "GET" url "" with
                   | Ok req => Ok (req, url)
                   | Err err => first_request urls (Err err)
                   end
  end.

Definition NewReq (h : HttpSet.HTTP) (w : World) : World * result (Request * string) :=
  let '(w, urls) := GetUrls h w in
  (w, first_request urls (Err "")).

Definition ParseUrl `{UrlLib} (h : HttpSet.HTTP) (w : World) : World * result URL :=
  let '(w, urls) := GetUrls h w in
  (w, match urls with
      | [] => Err "no urls"
      | url :: _ => url_Parse url
      end).
End urls.

(** *** [TLS] *)

(** [tls.X509KeyPair] and [AppendCertsFromPEM]. *)
Class TlsLib := {
  x509_key_pair : string → string → option error;
  certs_from_pem : string → bool
}.

Record tls_config := mkTlsConfig {
  tc_InsecureSkipVerify : bool;
  tc_ServerName : string;
  tc_MinVersion : Z;
  tc_MaxVersion : Z;
  tc_Certificates : option (string * string);
  tc_RootCAs : option string
}.

Definition tlsVersionMap : gmap string Z := {["1.0" := 769; "1.1" := 770; "1.2" := 771; "1.3" := 772]}.

Definition TLSConfig `{TlsLib} (t : TlsSet.TLS) : result tls_config :=
  let version v := if negb (String.eqb v "") then default 0 (tlsVersionMap !! v) else 0 in
  let clientCert := trim_space (TlsSet.ClientCert t) in
  let clientKey := trim_space (TlsSet.ClientKey t) in
  let caCert := trim_space (TlsSet.CACert t) in
  certs ← (if negb (String.eqb clientCert "") && negb (String.eqb clientKey "") then
             match x509_key_pair clientCert clientKey with
             | Some err => Err ("failed to load client certificate: " +:+ err)
             | None => Ok (Some (clientCert, clientKey))
             end
           else Ok None);
  roots ← (if negb (String.eqb caCert "") then
             if certs_from_pem caCert then Ok (Some caCert) else Err "failed to parse CA certificate"
           else Ok None);
  Ok (mkTlsConfig (TlsSet.SkipTlsVerify t) (TlsSet.ServerName t) (version (TlsSet.MinVersion t))
        (version (TlsSet.MaxVersion t)) certs roots).

(** ** The clients: [prom] *)

Record PromOption := mkPromOption {
  po_ClusterName : string;
  po_Url : string;
  po_WriteAddr : string;
  po_BasicAuthUser : string;
  po_BasicAuthPass : string;
  po_Timeout : Z;
  po_DialTimeout : Z;
  po_MaxIdleConnsPerHost : Z;
  po_Headers : list string;
  po_TLS : TlsSet.TLS
}.

(** The loop over the headers compares them in the order of the slices. *)
Fixpoint same_strings (a b : list string) : bool :=
  match a, b with
  | x :: a, y :: b => String.eqb x y && same_strings a b
  | _, _ => true
  end.

Definition Equal (po target : PromOption) : bool :=
  String.eqb (po_Url po) (po_Url target)
  && String.eqb (po_BasicAuthUser po) (po_BasicAuthUser target)
  && String.eqb (po_BasicAuthPass po) (po_BasicAuthPass target)
  && String.eqb (po_WriteAddr po) (po_WriteAddr target)
  && (po_Timeout po =? po_Timeout target)
  && (po_DialTimeout po =? po_DialTimeout target)
  && (po_MaxIdleConnsPerHost po =? po_MaxIdleConnsPerHost target)
  && (length (po_Headers po) =? length (po_Headers target))%nat
  && same_strings (po_Headers po) (po_Headers target)
  && Bool.eqb (TlsSet.SkipTlsVerify (po_TLS po)) (TlsSet.SkipTlsVerify (po_TLS target))
  && String.eqb (TlsSet.CACert (po_TLS po)) (TlsSet.CACert (po_TLS target))
  && String.eqb (TlsSet.ClientCert (po_TLS po)) (TlsSet.ClientCert (po_TLS target))
  && String.eqb (TlsSet.ClientKey (po_TLS po)) (TlsSet.ClientKey (po_TLS target))
  && String.eqb (TlsSet.ServerName (po_TLS po)) (TlsSet.ServerName (po_TLS target))
  && String.eqb (TlsSet.MinVersion (po_TLS po)) (TlsSet.MinVersion (po_TLS target))
  && String.eqb (TlsSet.MaxVersion (po_TLS po)) (TlsSet.MaxVersion (po_TLS target)).

(** A client is the option it was made from.  The map of clients for reading and
    for writing, and [PromOptions]. *)
Record pcstate := mkPcstate {
  pc_ReaderClients : gmap Z PromOption;
  pc_WriterClients : gmap Z PromOption;
  pc_PromOptions : gmap Z PromOption
}.
#[global] Instance pcstate_eta : Settable pcstate := λ r,
  mkPcstate (pc_ReaderClients r) (pc_WriterClients r) (pc_PromOptions r).

(** [api.NewClient] fails on an address that cannot be parsed. *)
Class ApiLib := { api_NewClient : string → option error }.

Section clients.
Context `{GR : GoRange, TL : TlsLib, AL : ApiLib}.
Implicit Types (pc : pcstate) (po : PromOption) (ds : Datasource).

Definition pc_Set (datasourceId : Z) po pc : pcstate :=
  pc <| pc_ReaderClients := <[datasourceId := po]> (pc_ReaderClients pc) |>
     <| pc_WriterClients := <[datasourceId := po]> (pc_WriterClients pc) |>.
Definition pc_IsNil (datasourceId : Z) pc : bool := bool_decide (pc_ReaderClients pc !! datasourceId = None).
Definition pc_Del (datasourceId : Z) pc : pcstate :=
  pc <| pc_ReaderClients := delete datasourceId (pc_ReaderClients pc) |>
     <| pc_WriterClients := delete datasourceId (pc_WriterClients pc) |>.
Definition pc_Reset pc : pcstate := pc <| pc_ReaderClients := ∅ |> <| pc_WriterClients := ∅ |>.
Definition pc_GetDatasourceIds pc : list Z := (go_range (pc_ReaderClients pc)).*1.
Definition options_Set (datasourceId : Z) po pc : pcstate :=
  pc <| pc_PromOptions := <[datasourceId := po]> (pc_PromOptions pc) |>.
Definition options_Del (datasourceId : Z) pc : pcstate :=
  pc <| pc_PromOptions := delete datasourceId (pc_PromOptions pc) |>.

(** A client can be made from the option, or the error. *)
Definition client_error (datasourceId : Z) po : option error :=
  if datasourceId <? 0 then Some "argument clusterName is blank"
  else if String.eqb (po_Url po) "" then Some "prometheus url is blank"
  else match TLSConfig (po_TLS po) with
       | Err err => Some ("failed to newClientFromPromOption: failed to create TLS config: " +:+ err)
       | Ok _ =>
           match api_NewClient (po_Url po) with
           | Some err => Some ("failed to newClientFromPromOption: " +:+ err)
           | None => match api_NewClient (po_WriteAddr po) with
                     | Some err => Some ("failed to newClientFromPromOption: " +:+ err)
                     | None => None
                     end
           end
       end.

Definition setClientFromPromOption (datasourceId : Z) po pc : pcstate * option error :=
  match client_error datasourceId po with
  | Some err => (pc, Some err)
  | None => (pc_Set datasourceId po pc, None)
  end.

(** [v.(string)] panics on another type. *)
Definition as_string (v : iface) : go string := match v with IString s => Ret s | _ => Panic end.

(** The loop over the settings, which keeps the last value of each kind. *)
Fixpoint setting_addrs (settings : list (string * iface)) (writeAddr internalAddr : string) : go (string * string) :=
  match settings with
  | [] => Ret (writeAddr, internalAddr)
  | (k, v) :: settings =>
      if contains k "write_addr" then
        s ← as_string v; setting_addrs settings (trim_space s) internalAddr
      else if contains k "internal_addr" then
        s ← as_string v;
        setting_addrs settings writeAddr (if negb (String.eqb s "") then trim_space s else internalAddr)
      else setting_addrs settings writeAddr internalAddr
  end.

Definition prom_option (isCenter : bool) ds : go PromOption :=
  let h := Source.HTTPJson ds in
  let header := concat (map (λ kv, [fst kv; snd kv]) (go_range (HttpSet.Headers h))) in
  '(writeAddr, internalAddr) ← setting_addrs (go_range (default ∅ (Source.SettingsJson ds))) "" "";
  let url := if negb (String.eqb internalAddr "") && negb isCenter then internalAddr else trim_space (HttpSet.Url h) in
  Ret (mkPromOption (Source.Name ds) url writeAddr (AuthSet.BasicAuthUser (Source.AuthJson ds))
         (AuthSet.BasicAuthPassword (Source.AuthJson ds)) (HttpSet.Timeout h) (HttpSet.DialTimeout h)
         (HttpSet.MaxIdleConnsPerHost h) header (HttpSet.TLS h)).

(** One data source of the loop. *)
Definition load_one (isCenter : bool) ds pc : go pcstate :=
  po ← prom_option isCenter ds;
  let dsId := Source.Id ds in
  let set := match setClientFromPromOption dsId po pc with
             | (pc, Some _) => pc
             | (pc, None) => options_Set dsId po pc
             end in
  if pc_IsNil dsId pc then Ret set
  else match pc_PromOptions pc !! dsId with
       | Some localPo => Ret (if Equal localPo po then pc else set)
       | None => Ret set
       end.

Fixpoint load_all (isCenter : bool) (datasources : list Datasource) pc : go pcstate :=
  match datasources with
  | [] => Ret pc
  | ds :: datasources => pc ← load_one isCenter ds pc; load_all isCenter datasources pc
  end.

(** [loadFromDatabase]: the data sources of the two types, read from the table or
    from the center, whose answer an edge decrypts. *)
Context `{SL : StrLib, CY : Crypto}.
Context `{!Json (option (gmap string iface)), !Json HttpSet.HTTP, !Json AuthSet.Auth}.

Definition read_sources (isCenter : bool) (rsaConfig : option RsaConfig) (lst : list Datasource) : list Datasource :=
  if isCenter then lst else map (decrypt_received rsaConfig) lst.

Definition loadFromDatabase (isCenter : bool) (rsaConfig : option RsaConfig)
    (proms lokis : result (list Datasource)) pc : go pcstate :=
  match proms, lokis with
  | Ok datasources, Ok lokiDatasource =>
      let datasources := read_sources isCenter rsaConfig (datasources ++ lokiDatasource) in
      let newCluster : gset Z := list_to_set (map Source.Id datasources) in
      pc ← load_all isCenter datasources pc;
      Ret (foldl (λ pc oldId, if decide (oldId ∈ newCluster) then pc else options_Del oldId (pc_Del oldId pc))
             pc (pc_GetDatasourceIds pc))
  | _, _ => Ret pc
  end.
End clients.

(** ** [pkg/prom/writer.go] *)

Section prom_writer.
Context {World : Type} `{CO : Codec World, NW : Network World, GR : GoRange}.
Implicit Types w : World.

(** The options of a client as those of the request it makes. *)
Definition client_options (po : PromOption) : WriterOptions :=
  mkWriterOptions (po_WriteAddr po) (po_BasicAuthUser po) (po_BasicAuthPass po) false (po_Headers po) [].

(** A URL, and the error so far, which every URL replaces. *)
Definition prom_post_url (o : WriterOptions) (headers : option (gmap string string)) (req url : string) w :
    World * option error :=
  match NewRequest "POST" url req with
  | Err err => (w, Some err)
  | Ok r =>
      match api_Do w (post_request o headers r) with
      | (w, Err e) => (w, Some e)
      | (w, Ok resp) =>
          if 400 <=? StatusCode resp then
            (w, Some ("push data with remote write:" +:+ url +:+ " request got status code: "
                      +:+ itoa (StatusCode resp) +:+ ", response body: " +:+ rs_body resp))
          else (w, None)
      end
  end.

Fixpoint prom_post_urls (o : WriterOptions) (headers : option (gmap string string)) (req : string)
    (urls : list string) w (err : option error) : World * option error :=
  match urls with
  | [] => (w, err)
  | url :: urls =>
      match prom_post_url o headers req url w with
      | (w, None) => (w, None)
      | (w, Some e) => prom_post_urls o headers req urls w (Some e)
      end
  end.

Definition prom_Post (o : WriterOptions) (headers : option (gmap string string)) (req : string) w :
    World * option error :=
  prom_post_urls o headers req (split (wo_Url o) ",") w None.

(** The error of [Post] is a variable of its own, so that the error returned is
    that of the encoding, which is nil here. *)
Definition prom_Write (o : WriterOptions) (items : list TimeSeries) (headers : option (gmap string string)) w :
    World * option error :=
  if (length items =? 0)%nat then (w, None)
  else match proto_marshal items with
       | Err _ => (w, None)
       | Ok data => (fst (prom_Post o headers (snappy_Encode data) w), None)
       end.
End prom_writer.

(** ** Properties *)

(** *** Addresses *)

Lemma swap_perm {A} i j (l : list A) : swap i j l ≡ₚ l.
Proof.
  unfold swap. destruct (l !! i) as [x|] eqn:Hi; [|done]. destruct (l !! j) as [y|] eqn:Hj; [|done].
  apply Permutation_inj. split; [by rewrite !length_insert|].
  exists (λ k, if decide (k = i) then j else if decide (k = j) then i else k). split.
  - intros a b. repeat case_decide; congruence.
  - intros k. destruct (decide (k = i)) as [->|Hki].
    + rewrite list_lookup_insert_eq; [done|]. rewrite length_insert. by eapply lookup_lt_Some.
    + rewrite list_lookup_insert_ne by done. destruct (decide (k = j)) as [->|Hkj].
      * rewrite list_lookup_insert_eq; [done|]. by eapply lookup_lt_Some.
      * by rewrite list_lookup_insert_ne.
Qed.

Lemma shuffle_perm {World} `{Network World} {A} i (urls : list A) w : snd (shuffle i urls w) ≡ₚ urls.
Proof.
  revert urls w. induction i as [|i IH]; intros urls w; simpl; [done|].
  destruct (rand_Intn w (S (S i))) as [w' j]. rewrite IH. apply swap_perm.
Qed.

(** *** Clients *)

Section clients_spec.
Context `{GR : GoRange, TL : TlsLib, AL : ApiLib, SL : StrLib, CY : Crypto}.
Context `{!Json (option (gmap string iface)), !Json HttpSet.HTTP, !Json AuthSet.Auth}.
Implicit Types (pc : pcstate) (po : PromOption) (ds : Datasource).

(** The three maps agree. *)
Definition pc_ok pc : Prop :=
  pc_ReaderClients pc = pc_PromOptions pc ∧ pc_WriterClients pc = pc_PromOptions pc.

(** The addresses among the settings are strings. *)
Definition addrs_are_strings ds : Prop :=
  ∀ k v, default ∅ (Source.SettingsJson ds) !! k = Some v →
    contains k "write_addr" || contains k "internal_addr" = true → ∃ s, v = IString s.

Lemma same_strings_refl l : same_strings l l = true.
Proof. induction l as [|x l IH]; simpl; [done|]. by rewrite String.eqb_refl, IH. Qed.

Lemma Equal_refl po : Equal po po = true.
Proof.
  unfold Equal. rewrite !String.eqb_refl, !Z.eqb_refl, Nat.eqb_refl, same_strings_refl, Bool.eqb_reflx. done.
Qed.

Lemma setting_addrs_returns settings a b :
  (∀ k v, (k, v) ∈ settings → contains k "write_addr" || contains k "internal_addr" = true → ∃ s, v = IString s) →
  ∃ r, setting_addrs settings a b = Ret r.
Proof.
  revert a b. induction settings as [|[k v] settings IH]; intros a b Hs; simpl; [by eexists|].
  assert (∀ a b, ∃ r, setting_addrs settings a b = Ret r) as IH'.
  { intros. apply IH. intros k' v' Hin. apply Hs. by right. }
  pose proof (Hs k v ltac:(by left)) as Hv.
  destruct (contains k "write_addr"); [destruct Hv as [s ->]; [done|]; apply IH'|].
  destruct (contains k "internal_addr"); [destruct Hv as [s ->]; [done|]; apply IH'|apply IH'].
Qed.

Lemma prom_option_returns isCenter ds : addrs_are_strings ds → ∃ po, prom_option isCenter ds = Ret po.
Proof.
  intros Hs. unfold prom_option.
  edestruct (setting_addrs_returns (go_range (default ∅ (Source.SettingsJson ds))) "" "") as [[wa ia] ->].
  { intros k v Hin%elem_of_go_range. by apply Hs. }
  by eexists.
Qed.

(** What a data source of the loop finds when it is done with. *)
Definition follows isCenter pc pc' ds : Prop :=
  ∃ po, prom_option isCenter ds = Ret po ∧
    match client_error (Source.Id ds) po with
    | None => ∃ po', pc_ReaderClients pc' !! Source.Id ds = Some po' ∧ Equal po' po = true
    | Some _ => pc_ReaderClients pc' !! Source.Id ds = pc_ReaderClients pc !! Source.Id ds
    end.

Lemma pc_ok_set id po pc : pc_ok pc → pc_ok (options_Set id po (pc_Set id po pc)).
Proof. intros [H1 H2]. unfold pc_ok, options_Set, pc_Set. rsimp. by rewrite H1, H2. Qed.

Lemma load_one_spec isCenter ds pc :
  pc_ok pc → addrs_are_strings ds →
  ∃ pc', load_one isCenter ds pc = Ret pc' ∧ pc_ok pc' ∧ follows isCenter pc pc' ds ∧
    (∀ id, id ≠ Source.Id ds → pc_ReaderClients pc' !! id = pc_ReaderClients pc !! id).
Proof.
  intros Hok Hs. destruct (prom_option_returns isCenter ds Hs) as [po Hpo].
  unfold load_one, follows, setClientFromPromOption. rewrite Hpo. cbn [mbind go_bind].
  set (s1 := options_Set (Source.Id ds) po (pc_Set (Source.Id ds) po pc)).
  assert (pc_ReaderClients s1 !! Source.Id ds = Some po) as Hs1 by (subst s1; apply lookup_insert_eq).
  assert (∀ id, id ≠ Source.Id ds → pc_ReaderClients s1 !! id = pc_ReaderClients pc !! id) as Hne1.
  { intros id Hid. subst s1. by apply lookup_insert_ne. }
  pose proof (pc_ok_set (Source.Id ds) po pc Hok) as Hok1. fold s1 in Hok1.
  pose proof (Equal_refl po) as Hrefl.
  unfold pc_IsNil. destruct (pc_ReaderClients pc !! Source.Id ds) as [old|] eqn:Hold.
  - rewrite bool_decide_false by done. destruct Hok as [Hr Hw]. rewrite Hr in Hold. rewrite Hold.
    destruct (Equal old po) eqn:He; destruct (client_error (Source.Id ds) po) eqn:Hce;
      eexists; (split; [reflexivity|]); (split; [done|]); (split; [|done]);
      exists po; rewrite Hce, ?Hr; naive_solver.
  - rewrite bool_decide_true by done. destruct (client_error (Source.Id ds) po) eqn:Hce;
      eexists; (split; [reflexivity|]); (split; [done|]); (split; [|done]);
      exists po; rewrite Hce; naive_solver.
Qed.

Lemma load_all_spec isCenter l pc :
  pc_ok pc → Forall addrs_are_strings l → NoDup (map Source.Id l) →
  ∃ pc', load_all isCenter l pc = Ret pc' ∧ pc_ok pc' ∧ (∀ ds, ds ∈ l → follows isCenter pc pc' ds) ∧
    (∀ id, id ∉ map Source.Id l → pc_ReaderClients pc' !! id = pc_ReaderClients pc !! id).
Proof.
  intros Hok Hs. revert pc Hok. induction Hs as [|ds l Hds Hs IH]; intros pc Hok Hnd; simpl.
  { exists pc. split_and!; [done..|set_solver|done]. }
  apply NoDup_cons in Hnd as [Hnot Hnd].
  destruct (load_one_spec isCenter ds pc Hok Hds) as (pc1 & -> & Hok1 & Hf1 & Hn1). simpl.
  destruct (IH pc1 Hok1 Hnd) as (pc' & -> & Hok' & Hf' & Hn'). exists pc'. split_and!; [done..| |].
  - intros d [->|Hd]%elem_of_cons.
    + destruct Hf1 as (po & Hpo & Hf). exists po. split; [done|]. by rewrite (Hn' _ Hnot).
    + destruct (Hf' d Hd) as (po & Hpo & Hf). exists po. split; [done|].
      assert (Source.Id d ≠ Source.Id ds) as Hne. { intros He. apply Hnot. rewrite <- He. by apply list_elem_of_fmap_2. }
      by rewrite <- (Hn1 _ Hne).
  - intros id [Hne Hid]%not_elem_of_cons. by rewrite Hn', Hn1.
Qed.

(** The deletion of the clients that are no longer wanted. *)
Lemma drop_clients_spec (keep : gset Z) l pc :
  let pc' := foldl (λ pc id, if decide (id ∈ keep) then pc else options_Del id (pc_Del id pc)) pc l in
  (pc_ok pc → pc_ok pc') ∧
  ∀ id, pc_ReaderClients pc' !! id = if decide (id ∈ l ∧ id ∉ keep) then None else pc_ReaderClients pc !! id.
Proof.
  revert pc. induction l as [|x l IH]; intros pc; cbn [foldl].
  { split; [done|]. intros id. rewrite decide_False; [done|]. set_solver. }
  destruct (IH (if decide (x ∈ keep) then pc else options_Del x (pc_Del x pc))) as [IH1 IH2]. split.
  - intros Hok. apply IH1. case_decide; [done|]. destruct Hok as [H1 H2].
    unfold pc_ok, options_Del, pc_Del. rsimp. by rewrite H1, H2.
  - intros id. rewrite IH2. destruct (decide (id ∈ l ∧ id ∉ keep)) as [Hin|Hout].
    + rewrite decide_True; [done|]. set_solver.
    + destruct (decide (x ∈ keep)) as [Hk|Hk].
      * destruct (decide (id ∈ x :: l ∧ id ∉ keep)) as [[Hin ?]|]; [|done]. set_solver.
      * unfold options_Del, pc_Del. rsimp. destruct (decide (id = x)) as [->|Hne].
        -- rewrite lookup_delete_eq, decide_True; [done|]. set_solver.
        -- rewrite lookup_delete_ne by done. destruct (decide (id ∈ x :: l ∧ id ∉ keep)) as [[Hin ?]|]; [|done].
           set_solver.
Qed.

(** After the data sources were read, there are clients only for them; each whose
    settings make a client has one made from equal options, and the others keep
    the client they had.  Readers, writers and options agree in every state.  The
    round returns when all addresses in the settings are strings. *)
Theorem prom_clients_follow isCenter rsa proms lokis pc :
  let lst := read_sources isCenter rsa (proms ++ lokis) in
  pc_ok pc → Forall addrs_are_strings lst → NoDup (map Source.Id lst) →
  ∃ pc', loadFromDatabase isCenter rsa (Ok proms) (Ok lokis) pc = Ret pc' ∧ pc_ok pc' ∧
    (∀ id, is_Some (pc_ReaderClients pc' !! id) → id ∈ map Source.Id lst) ∧
    (∀ ds, ds ∈ lst → follows isCenter pc pc' ds).
Proof.
  intros lst Hok Hs Hnd. destruct (load_all_spec isCenter _ pc Hok Hs Hnd) as (pc1 & Hl & Hok1 & Hf & Hn).
  unfold loadFromDatabase. fold lst. cbv zeta. rewrite Hl. cbn [mbind go_bind].
  destruct (drop_clients_spec (list_to_set (map Source.Id lst)) (pc_GetDatasourceIds pc1) pc1) as [Hk Hd].
  eexists. split; [reflexivity|]. split; [by apply Hk|]. split.
  - intros id [po Hpo]. rewrite Hd in Hpo. case_decide as Hdec; [done|].
    destruct (decide (id ∈ map Source.Id lst)) as [|Hnot]; [done|]. exfalso. apply Hdec.
    rewrite elem_of_list_to_set. split; [|done]. unfold pc_GetDatasourceIds. apply elem_of_fst_go_range. by exists po.
  - intros ds Hin. destruct (Hf ds Hin) as (po & Hpo & Hfo). exists po. split; [done|].
    rewrite Hd, decide_False; [done|]. intros [_ Hnot]. apply Hnot.
    apply elem_of_list_to_set. by apply list_elem_of_fmap_2.
Qed.

(** A write address that is not a string stops the goroutine that keeps the
    clients, and with it the process. *)
Lemma prom_option_panics isCenter ds :
  Source.SettingsJson ds = Some {["prometheus.write_addr" := INil]} → prom_option isCenter ds = Panic.
Proof.
  intros Hs. unfold prom_option. rewrite Hs. cbn [from_option id].
  assert (go_range ({["prometheus.write_addr" := INil]} : gmap string iface) = [("prometheus.write_addr", INil)]) as ->.
  { pose proof (go_range_perm ({["prometheus.write_addr" := INil]} : gmap string iface)) as Hp.
    rewrite map_to_list_singleton in Hp. by apply Permutation_singleton_r in Hp. }
  done.
Qed.
End clients_spec.

(** *** From the center to an edge *)

Section transfer.
Context `{SL : StrLib, CY : Crypto, GR : GoRange}.
Context `{!Json (option (gmap string iface)), !Json HttpSet.HTTP, !Json AuthSet.Auth}.
Implicit Types ds : Datasource.

(** What [encoding/json] does with the settings and the login: decoding what was
    encoded gives it back, into a nil map for the settings, and into any login,
    whose three fields are always written. *)
Class SettingsJsonLib := {
  settings_round : ∀ m s, json_marshal (Some m : option (gmap string iface)) = Ok s →
    s ≠ "" ∧ json_unmarshal s (None : option (gmap string iface)) = (Some m, None);
  auth_round : ∀ (a : AuthSet.Auth) s old, json_marshal a = Ok s → s ≠ "" ∧ json_unmarshal s old = (a, None)
}.

(** The private key of the edge belongs to the public key of the center. *)
Definition key_pair (pub : string) (rsa : RsaConfig) : Prop :=
  ∃ block pk sk, pem_Decode pub = Some block ∧ x509_ParsePKIXPublicKey block = Ok (Some pk) ∧
    private_key (rsa_PrivateKeyBytes rsa) (rsa_PassWord rsa) = Ok sk ∧
    ∀ rand m c, rsa_EncryptPKCS1v15 rand pk m = Ok c → rsa_DecryptPKCS1v15 sk c = Ok m.

Lemma EncryptValue_round rand value pub rsa e :
  key_pair pub rsa → EncryptValue rand value pub = Ret (Ok e) →
  e ≠ "" ∧ secu_Decrypt e (rsa_PrivateKeyBytes rsa) (rsa_PassWord rsa) = Ok value.
Proof.
  intros (block & pk & sk & Hpem & Hpk & Hsk & Hround). unfold EncryptValue. rewrite Hpem, Hpk.
  destruct (rsa_EncryptPKCS1v15 rand pk value) as [c|] eqn:Hc; [|done]. intros [= <-]. split; [done|].
  unfold secu_Decrypt, has_prefix. rewrite prefix_app.
  assert ((4 <? String.length ("enc:" +:+ base64_encode c))%nat = true) as ->.
  { apply Nat.ltb_lt. rewrite slength_app. simpl. destruct (base64_encode c) eqn:Hb; [|simpl; lia].
    apply base64_empty in Hb. by apply rsa_nonempty in Hc. }
  cbn [andb]. rewrite (str_drop_app "enc:"), base64_round, Hsk. by apply Hround with rand.
Qed.

(** What a row written by [FE2DB] has in its columns. *)
Lemma FE2DB_columns ds ds' m :
  Source.SettingsJson ds = Some m → Datasource_FE2DB ds = (ds', None) →
  ∃ s h a, json_marshal (Some m) = Ok s ∧ json_marshal (Source.HTTPJson ds) = Ok h ∧
    json_marshal (Source.AuthJson ds) = Ok a ∧
    ds' = ds <| Source.Settings := s |> <| Source.HTTP := h |> <| Source.Auth := a |>.
Proof.
  intros Hm. unfold Datasource_FE2DB. rewrite Hm.
  destruct (json_marshal (Some m)) as [s|]; [|done]. cbn [mbind result_bind]. rsimp.
  destruct (json_marshal (Source.HTTPJson ds)) as [h|]; [|done]. rsimp.
  destruct (json_marshal (Source.AuthJson ds)) as [a|]; [|done]. intros [= <-]. by exists s, h, a.
Qed.

Context `{!SettingsJsonLib}.

(** The settings and the login of a data source reach an edge: when the center
    could encrypt them, what it sends has neither in the clear, and the edge, with
    the private key, recovers both, decoded and as columns. *)
Theorem edge_gets_settings ds0 ds m pub rsa r1 r2 sent :
  Source.SettingsJson ds0 = Some m → Datasource_FE2DB ds0 = (ds, None) →
  key_pair pub rsa → rsa_OpenRSA rsa = true →
  Encrypt r1 r2 true pub ds = Ret (sent, None) →
  Source.SettingsJson sent = None ∧ Source.Settings sent = "" ∧ Source.Auth sent = "" ∧
  AuthSet.BasicAuthUser (Source.AuthJson sent) = "" ∧ AuthSet.BasicAuthPassword (Source.AuthJson sent) = "" ∧
  let received := decrypt_received (Some rsa) (json_fields sent) in
  Source.SettingsJson received = Source.SettingsJson ds ∧ Source.AuthJson received = Source.AuthJson ds ∧
  Source.HTTPJson received = Source.HTTPJson ds ∧
  Source.Settings received = Source.Settings ds ∧ Source.Auth received = Source.Auth ds ∧
  Source.HTTP received = Source.HTTP ds.
Proof.
  intros Hm Hfe Hkey Hopen Henc. destruct (FE2DB_columns ds0 ds m Hm Hfe) as (s & h & a & Hs & Hh & Ha & ->).
  destruct (settings_round m s Hs) as [Hsne Hsj].
  destruct (auth_round _ a AuthSet.zero Ha) as [Hane _].
  apply String.eqb_neq in Hsne, Hane. unfold Encrypt, encrypt_column in Henc. cbn [negb] in Henc. rsimp.
  rewrite Hsne in Henc. destruct (EncryptValue r1 s pub) as [[e1|]|] eqn:E1; [|discriminate Henc..].
  cbn [mbind go_bind] in Henc. revert Henc. rsimp. rewrite Hane. intros Henc.
  destruct (EncryptValue r2 a pub) as [[e2|]|] eqn:E2; [|discriminate Henc..].
  cbn [mbind go_bind] in Henc. injection Henc as <-.
  destruct (EncryptValue_round _ _ _ _ _ Hkey E1) as [Hne1 Hd1], (EncryptValue_round _ _ _ _ _ Hkey E2) as [Hne2 Hd2].
  apply String.eqb_neq in Hne1, Hne2. unfold ClearPlaintext. rsimp. do 5 (split; [done|]).
  unfold decrypt_received, Decrypt, json_fields. rsimp. rewrite Hopen. cbn [negb]. rewrite Hne1, Hd1. cbn [negb].
  rewrite Hsj. rsimp. rewrite Hne2, Hd2. cbn [negb].
  edestruct (auth_round (Source.AuthJson ds0) a) as [_ ->]; [exact Ha|].
  unfold Datasource_FE2DB. rsimp. rewrite Hs. cbn [mbind result_bind]. rsimp. rewrite Hh. rsimp. rewrite Ha. rsimp.
  by rewrite Hm.
Qed.

(** When it could not, for instance because the settings are longer than an RSA
    block, the data source is sent as it is, with its settings and its login in
    the clear. *)
Theorem encrypt_failure_leaks rand openRsa pub ds err item rest i :
  Encrypt (fst (rand i)) (snd (rand i)) openRsa pub ds = Ret (item, Some err) →
  (∀ l, encrypt_all rand (S i) openRsa pub l = Ret rest →
        encrypt_all rand i openRsa pub (ds :: l) = Ret (item :: rest)) ∧
  Source.SettingsJson item = Source.SettingsJson ds ∧ Source.AuthJson item = Source.AuthJson ds.
Proof.
  intros Henc. split; [intros l Hl; simpl; by rewrite Henc; simpl; rewrite Hl|].
  unfold Encrypt in Henc. destruct openRsa; [|done]. cbn [negb] in Henc.
  destruct (encrypt_column (fst (rand i)) (Source.Settings ds) pub) as [[e1|]|]; [|by injection Henc as <-|done].
  cbn [mbind go_bind] in Henc.
  destruct (encrypt_column (snd (rand i)) (Source.Auth _) pub) as [[e2|]|]; cbn [mbind go_bind] in Henc; [done| |done].
  injection Henc as <- _. by destruct e1.
Qed.
End transfer.
