(* ===== verification/Record.v ===== *)
(** * Recording rules: [models/recording_rule.go] and [alert/record]

    A recording rule runs a query and writes its result back under a new name.
    The engine compares the rules of the cache that its rings give to it with the
    contexts it runs, as the scheduler of alert rules does; a context turns the
    result of the query into time series and hands them to the writer of the data
    source. *)

From Stdlib Require Import Ascii.
From S2P Require Import Prelude GoStrings Json Models RuleModels EventOps Filter Relabel RuleOps EventTable Process Naming Caches.
From S2P Require Import Consume Scheduler Http Writers Push Sources.
Open Scope string_scope.
Open Scope Z_scope.
Open Scope list_scope.

(** ** The rule *)

Module RecQuery.
Record Query := mkQuery {
  DatasourceIds : list Z;
  DatasourceQueries : list DatasourceQuery;
  Cate : string;
  Config : iface
}.
#[global] Instance Query_eta : Settable Query := λ r,
  mkQuery (DatasourceIds r) (DatasourceQueries r) (Cate r) (Config r).
End RecQuery.

Module RecConf.
Record QueryConfig := mkQueryConfig {
  Queries : list RecQuery.Query;
  NewMetric : string;
  Exp : string;
  WriteDatasourceId : Z;
  Delay : Z
}.
#[global] Instance QueryConfig_eta : Settable QueryConfig := λ r,
  mkQueryConfig (Queries r) (NewMetric r) (Exp r) (WriteDatasourceId r) (Delay r).
End RecConf.

Module RecRule.
Record RecordingRule := mkRecordingRule {
  Id : Z;
  GroupId : Z;
  DatasourceIds : string;
  DatasourceIdsJson : list Z;
  DatasourceQueries : list DatasourceQuery;
  Cluster : string;
  Name : string;
  Disabled : Z;
  PromQl : string;
  QueryConfigs : string;
  QueryConfigsJson : list RecConf.QueryConfig;
  PromEvalInterval : Z;
  CronPattern : string;
  AppendTags : string;
  AppendTagsJSON : list string;
  Note : string;
  CreateAt : Z;
  CreateBy : string;
  UpdateAt : Z;
  UpdateBy : string
}.
#[global] Instance RecordingRule_eta : Settable RecordingRule := λ r,
  mkRecordingRule (Id r) (GroupId r) (DatasourceIds r) (DatasourceIdsJson r) (DatasourceQueries r) (Cluster r)
    (Name r) (Disabled r) (PromQl r) (QueryConfigs r) (QueryConfigsJson r) (PromEvalInterval r) (CronPattern r)
    (AppendTags r) (AppendTagsJSON r) (Note r) (CreateAt r) (CreateBy r) (UpdateAt r) (UpdateBy r).
Definition zero : RecordingRule :=
  mkRecordingRule 0 0 "" [] [] "" "" 0 "" "" [] 0 "" "" [] "" 0 "" 0 "".
End RecRule.
Notation RecordingRule := RecRule.RecordingRule.

Section recording_rule.
Context `{!Json (list Z), !Json (list RecConf.QueryConfig), PN : PromNames}.
Implicit Types re : RecordingRule.

(** The text of a value that cannot be encoded is empty. *)
Definition marshal_text {A} `{!Json A} (v : A) : string :=
  match json_marshal v with Ok b => b | Err _ => "" end.

Definition Record_FE2DB re : RecordingRule :=
  re <| RecRule.AppendTags := join (RecRule.AppendTagsJSON re) " " |>
     <| RecRule.DatasourceIds := marshal_text (RecRule.DatasourceIdsJson re) |>
     <| RecRule.QueryConfigs := marshal_text (RecRule.QueryConfigsJson re) |>.

Definition Record_FillDatasourceQueries re : RecordingRule :=
  if (length (RecRule.DatasourceQueries re) =? 0)%nat && negb (String.eqb (RecRule.DatasourceIds re) "") then
    let values := fst (json_unmarshal (RecRule.DatasourceIds re) []) in
    re <| RecRule.DatasourceQueries := [ids_query (DsQuery.mkDatasourceQuery 0 "in" []) values] |>
  else re.

(** A query without data source queries gets one from its identifiers. *)
Definition fill_query (q : RecQuery.Query) : RecQuery.Query :=
  if (length (RecQuery.DatasourceQueries q) =? 0)%nat
  then q <| RecQuery.DatasourceQueries :=
              [DsQuery.mkDatasourceQuery 0 "in" (map IInt (RecQuery.DatasourceIds q))] |>
  else q.

(** An empty pattern becomes one from the interval. *)
Definition record_cron re : RecordingRule :=
  if String.eqb (RecRule.CronPattern re) "" && negb (RecRule.PromEvalInterval re =? 0)
  then re <| RecRule.CronPattern := "@every " +:+ itoa (RecRule.PromEvalInterval re) +:+ "s" |>
  else re.

Definition Record_DB2FE re : RecordingRule :=
  let re := re <| RecRule.AppendTagsJSON := fields (RecRule.AppendTags re) |> in
  let re := re <| RecRule.DatasourceIdsJson :=
                    fst (json_unmarshal (RecRule.DatasourceIds re) (RecRule.DatasourceIdsJson re)) |> in
  let re := Record_FillDatasourceQueries re in
  let configs := fst (json_unmarshal (RecRule.QueryConfigs re) (RecRule.QueryConfigsJson re)) in
  let re := re <| RecRule.QueryConfigsJson :=
                    map (λ c, c <| RecConf.Queries := map fill_query (RecConf.Queries c) |>) configs |> in
  record_cron re.

(** A tag that is not one name and one value. *)
Definition bad_tag (tag : string) : bool :=
  match split tag "=" with
  | [name; _] => negb (label_name_ok name)
  | _ => true
  end.

Definition Record_Verify re : RecordingRule * option error :=
  if RecRule.GroupId re <? 0 then (re, Some ("GroupId(" +:+ itoa (RecRule.GroupId re) +:+ ") invalid"))
  else if negb (String.eqb (RecRule.PromQl re) "") && negb (metric_name_ok (RecRule.Name re))
       then (re, Some "Name has invalid chreacters")
  else if existsb (λ c, negb (metric_name_ok (RecConf.NewMetric c))) (RecRule.QueryConfigsJson re)
       then (re, Some "Metric Name has invalid chreacters")
  else if String.eqb (RecRule.Name re) "" && negb (String.eqb (RecRule.PromQl re) "")
       then (re, Some "name is blank")
  else
    let re := if RecRule.PromEvalInterval re <=? 0 then re <| RecRule.PromEvalInterval := 60 |> else re in
    let re := if String.eqb (RecRule.CronPattern re) "" then re <| RecRule.CronPattern := "@every 60s" |> else re in
    let re := re <| RecRule.AppendTags := trim_space (RecRule.AppendTags re) |> in
    match List.find bad_tag (fields (RecRule.AppendTags re)) with
    | Some tag => (re, Some ("AppendTags(" +:+ tag +:+ ") invalid"))
    | None =>
        if (65535 <? Z.of_nat (String.length (RecRule.QueryConfigs re)))
        then (re, Some ("query_configs length (" +:+ itoa (Z.of_nat (String.length (RecRule.QueryConfigs re)))
                        +:+ " bytes) exceeds TEXT type limit (65535 bytes), please reduce the configuration size"))
        else (re, None)
    end.

(** [Add] and [Update] up to the statement. *)
Definition Record_Add (now : Z) re : result RecordingRule :=
  match Record_Verify re with
  | (_, Some err) => Err err
  | (re, None) => Ok (re <| RecRule.CreateAt := now |> <| RecRule.UpdateAt := now |>)
  end.

Definition Record_Update (now : Z) re ref : result RecordingRule :=
  let ref := Record_FE2DB ref in
  let ref := ref <| RecRule.Id := RecRule.Id re |> <| RecRule.GroupId := RecRule.GroupId re |>
                 <| RecRule.CreateAt := RecRule.CreateAt re |> <| RecRule.CreateBy := RecRule.CreateBy re |>
                 <| RecRule.UpdateAt := now |> in
  match Record_Verify ref with
  | (_, Some err) => Err err
  | (ref, None) => Ok ref
  end.

(** [RecordingRuleGetsByCluster], with the rows that are not disabled, or with
    what the center answered. *)
Definition RecordingRuleGetsByCluster (isCenter : bool) (read : result (list RecordingRule)) :
    result (list RecordingRule) :=
  match read with
  | Err err => Err err
  | Ok lst => Ok (map (if isCenter then Record_DB2FE else Record_FE2DB) lst)
  end.

(** [RecordingRuleUpgradeToV6]: the identifiers of the data sources of the
    clusters a rule names. *)
Definition upgrade_ids (dsm : gmap string Datasource) (cluster : string) : list Z :=
  if String.eqb cluster "$all" then [0]
  else omap (λ c, Source.Id <$> dsm !! c) (fields cluster).
Definition upgrade_rule (dsm : gmap string Datasource) re : option RecordingRule :=
  match json_marshal (upgrade_ids dsm (RecRule.Cluster re)) with
  | Err _ => None
  | Ok b => Some (re <| RecRule.DatasourceIds := b |>)
  end.
End recording_rule.

(** ** Conversion of a result: [alert/record/sample.go] *)

Section convert.
Context `{PN : PromNames, GR : GoRange}.
Implicit Types rule : RecordingRule.

(** [time.Unix(sec, 0).UnixNano() / 1e6] *)
Definition unix_millis (sec : Z) : Z := Z.quot (i64 (sec * 1000000000)) 1000000.

(** An appended tag: [v[:index]] panics when there is no [=]. *)
Definition tag_label (v : string) : go (list Label) :=
  match index_of v "=" with
  | None => Panic
  | Some index =>
      let name := String.substring 0 index v in
      Ret (if label_name_ok name then [Lbl.mkLabel name (str_drop (index + 1) v)] else [])
  end.

Fixpoint tag_list (tags : list string) : go (list Label) :=
  match tags with
  | [] => Ret []
  | v :: tags => l ← tag_label v; rest ← tag_list tags; Ret (l ++ rest)
  end.

Definition labelsToLabelsProto (labels : gmap string string) rule : go (list Label) :=
  let own := omap (λ kv, if String.eqb (fst kv) "__name__" then None
                         else if label_name_ok (fst kv) then Some (Lbl.mkLabel (fst kv) (snd kv)) else None)
               (go_range labels) in
  tags ← tag_list (RecRule.AppendTagsJSON rule);
  Ret (Lbl.mkLabel "__name__" (RecRule.Name rule) :: own ++ tags).

Definition proto_sample (s : Z * float64) : Sample := mkSample (snd s) (unix_millis (fst s)).

Fixpoint vector_series rule (items : list (gmap string string * (Z * float64))) : go (list TimeSeries) :=
  match items with
  | [] => Ret []
  | (metric, s) :: items =>
      if isNaN (snd s) then vector_series rule items
      else l ← labelsToLabelsProto metric rule;
           rest ← vector_series rule items;
           Ret (mkTimeSeries l [proto_sample s] :: rest)
  end.

(** A series without values ends the conversion, with the series before it. *)
Fixpoint matrix_series rule (items : list (gmap string string * list (Z * float64))) : go (list TimeSeries) :=
  match items with
  | [] => Ret []
  | (metric, values) :: items =>
      match last values with
      | None => Ret []
      | Some l =>
          if isNaN (snd l) then matrix_series rule items
          else ls ← labelsToLabelsProto metric rule;
               rest ← matrix_series rule items;
               Ret (mkTimeSeries ls (map proto_sample (List.filter (λ v, negb (isNaN (snd v))) values)) :: rest)
      end
  end.

Definition ConvertToTimeSeries (value : query_value) rule : go (list TimeSeries) :=
  match value with
  | VVector items => vector_series rule items
  | VMatrix items => matrix_series rule items
  | VScalar s => Ret (if isNaN (snd s) then [] else [mkTimeSeries [] [proto_sample s]])
  | VOther => Ret []
  end.
End convert.

(** ** A context: [alert/record/prom_rule.go] *)

(** [rc_cron] is the pattern its evaluation was added with, if it could be. *)
Record RecordRuleContext := mkRecordRuleContext {
  rc_serial : nat;
  rc_datasourceId : Z;
  rc_rule : RecordingRule;
  rc_cron : option string
}.

Section context.
Context {World : Type} `{CO : Codec World, NW : Network World, GR : GoRange, PN : PromNames, PC : PromClients}.
Context `{SL : StrLib, CR : CronLib}.
Implicit Types (w : World) (rrc : RecordRuleContext) (rule : RecordingRule).

(** The pattern is set in the rule object itself, which the cache shares; a
    pattern that does not parse is only logged. *)
Definition NewRecordRuleContext (serial : nat) rule (datasourceId : Z) : RecordRuleContext :=
  let rule := record_cron rule in
  mkRecordRuleContext serial datasourceId rule
    (match cron_error (RecRule.CronPattern rule) with
     | Some _ => None
     | None => Some (RecRule.CronPattern rule)
     end).

Definition RecordRule_Key rrc : string :=
  "record-" +:+ itoa (rc_datasourceId rrc) +:+ "-" +:+ itoa (RecRule.Id (rc_rule rrc)).

Definition record_text rule (datasourceId : Z) : string :=
  itoa (RecRule.Id rule) +:+ "_" +:+ RecRule.CronPattern rule +:+ "_" +:+ RecRule.PromQl rule +:+ "_"
    +:+ itoa datasourceId +:+ "_" +:+ RecRule.AppendTags rule +:+ "_" +:+ RecRule.Name rule.

Definition RecordRule_Hash rrc : string := str_md5 (record_text (rc_rule rrc) (rc_datasourceId rrc)).

(** [writers] are the clients for writing.  A data source without one gives the
    zero client, whose nil [Client] panics once the request is made. *)
Definition record_Eval (writers : gmap Z PromOption) rrc w : go World :=
  let promql := trim_space (RecRule.PromQl (rc_rule rrc)) in
  if String.eqb promql "" then Ret w
  else if prom_IsNil (rc_datasourceId rrc) then Ret w
  else match prom_Query (rc_datasourceId rrc) promql with
       | Err _ | Ok None => Ret w
       | Ok (Some value) =>
           ts ← ConvertToTimeSeries value (rc_rule rrc);
           if (length ts =? 0)%nat then Ret w
           else match writers !! rc_datasourceId rrc with
                | Some po => Ret (fst (prom_Write (client_options po) ts None w))
                | None => match proto_marshal ts, http_url_error "" with
                          | Ok _, None => Panic
                          | _, _ => Ret w
                          end
                end
       end.
End context.

(** ** The scheduler: [alert/record/scheduler.go] *)

Inductive record_op := RStart (serial : nat) | RStop (serial : nat).

Record rec_state := mkRecState {
  rr_serial : nat;
  rr_recordRules : gmap string RecordRuleContext;
  rr_log : list record_op
}.
#[global] Instance rec_state_eta : Settable rec_state := λ r, mkRecState (rr_serial r) (rr_recordRules r) (rr_log r).

Section record_scheduler.
Context `{GR : GoRange, CH : ConsistentLib, SL : StrLib, CR : CronLib, GL : GlobLib}.
Implicit Types (rule : RecordingRule) (s : rec_state).

(** The variables of the first loop: the cache of rules, the rings, the number of
    contexts made so far, and the contexts that are wanted. *)
Record rec_wanted := mkRecWanted {
  rw_rules : gmap Z RecordingRule;
  rw_rings : gmap string ring;
  rw_serial : nat;
  rw_contexts : gmap string RecordRuleContext
}.
#[global] Instance rec_wanted_eta : Settable rec_wanted := λ r,
  mkRecWanted (rw_rules r) (rw_rings r) (rw_serial r) (rw_contexts r).
Implicit Types k : rec_wanted.

Definition want_context (endpoint : string) rule k (dsId : Z) : rec_wanted :=
  let '(rings, hit) := IsHit (rw_rings k) (itoa dsId) (itoa (RecRule.Id rule)) endpoint in
  let k := k <| rw_rings := rings |> in
  if negb hit then k
  else
    let rrc := NewRecordRuleContext (rw_serial k) (default rule (rw_rules k !! RecRule.Id rule)) dsId in
    k <| rw_rules := <[RecRule.Id rule := rc_rule rrc]> (rw_rules k) |>
      <| rw_serial := S (rw_serial k) |>
      <| rw_contexts := <[RecordRule_Hash rrc := rrc]> (rw_contexts k) |>.

Definition want_record (endpoint : string) (d : dsdata) k (id : Z) : rec_wanted :=
  match rw_rules k !! id with
  | None => k
  | Some rule =>
      foldl (want_context endpoint rule) k
        (GetIDsByDsCateAndQueries d "prometheus" (RecRule.DatasourceQueries rule))
  end.

Definition start_records (contexts : gmap string RecordRuleContext) s : rec_state :=
  foldl (λ s hr, match rr_recordRules s !! fst hr with
                 | Some _ => s
                 | None => s <| rr_log := rr_log s ++ [RStart (rc_serial (snd hr))] |>
                             <| rr_recordRules := <[fst hr := snd hr]> (rr_recordRules s) |>
                 end) s (go_range contexts).

Definition stop_records (contexts : gmap string RecordRuleContext) s : rec_state :=
  foldl (λ s hr, match contexts !! fst hr with
                 | Some _ => s
                 | None => s <| rr_log := rr_log s ++ [RStop (rc_serial (snd hr))] |>
                             <| rr_recordRules := delete (fst hr) (rr_recordRules s) |>
                 end) s (go_range (rr_recordRules s)).

(** [syncRecordRules], with the cache of rules and the rings it leaves. *)
Definition syncRecordRules (endpoint : string) (d : dsdata) (rules : gmap Z RecordingRule)
    (rings : gmap string ring) s : gmap Z RecordingRule * gmap string ring * rec_state :=
  let k := foldl (want_record endpoint d) (mkRecWanted rules rings (rr_serial s) ∅) (go_range rules).*1 in
  let s := s <| rr_serial := rw_serial k |> in
  (rw_rules k, rw_rings k, stop_records (rw_contexts k) (start_records (rw_contexts k) s)).
End record_scheduler.

(** ** Properties *)

(** *** Tags *)

(** Splitting at a character is cutting at its first occurrence, again and again. *)
Lemma split_cut c cur s :
  split_from (String c "") 0 cur s =
  match cut (String c "") s with
  | Some (b, a) => (cur +:+ b) :: split a (String c "")
  | None => [cur +:+ s]
  end.
Proof.
  revert cur. induction s as [|d s IH]; intros cur; [by rewrite sapp_nil_r|].
  cbn [split_from cut]. destruct (String.prefix (String c "") (String d s)) eqn:E.
  - by rewrite sapp_nil_r.
  - rewrite IH. destruct (cut (String c "") s) as [[b a]|]; by rewrite sapp_cons_snoc.
Qed.

Lemma substring_app a b : String.substring 0 (String.length a) (a +:+ b) = a.
Proof. induction a as [|c a IH]; simpl; [by destruct b|]. f_equal. apply IH. Qed.

Section convert_spec.
Context `{PN : PromNames, GR : GoRange}.
Context `{!Json (list Z), !Json (list RecConf.QueryConfig)}.
Implicit Types rule : RecordingRule.

(** What verification leaves in the column of tags. *)
Lemma good_tag v : bad_tag v = false → ∃ a b, cut "=" v = Some (a, b) ∧ label_name_ok a = true.
Proof.
  unfold bad_tag, split. rewrite split_cut. destruct (cut "=" v) as [[a b]|]; [|done].
  destruct (split b "=") as [|x [|]]; [done| |done]. intros Hb%negb_false_iff. by exists a, b.
Qed.

(** The labels of a series of the rule, without a panic. *)
Definition record_labels rule (metric : gmap string string) : list Label :=
  Lbl.mkLabel "__name__" (RecRule.Name rule) ::
  omap (λ kv, if String.eqb (fst kv) "__name__" then None
              else if label_name_ok (fst kv) then Some (Lbl.mkLabel (fst kv) (snd kv)) else None) (go_range metric) ++
  omap (λ v, (λ p, Lbl.mkLabel (fst p) (snd p)) <$> cut "=" v) (RecRule.AppendTagsJSON rule).

Lemma tag_label_good v a b :
  cut "=" v = Some (a, b) → label_name_ok a = true → tag_label v = Ret [Lbl.mkLabel a b].
Proof.
  intros Hc Ha. unfold tag_label, index_of. rewrite Hc. pose proof (cut_Some _ _ _ _ Hc) as ->.
  rewrite substring_app, Ha. do 3 f_equal.
  assert (str_drop (String.length (a +:+ "=")) ((a +:+ "=") +:+ b) = b) as Hd by apply str_drop_app.
  rewrite slength_app, sapp_assoc in Hd. exact Hd.
Qed.

Lemma tag_list_good tags :
  Forall (λ v, bad_tag v = false) tags →
  tag_list tags = Ret (omap (λ v, (λ p, Lbl.mkLabel (fst p) (snd p)) <$> cut "=" v) tags).
Proof.
  induction 1 as [|v tags (a & b & Hc & Ha)%good_tag Hs IH]; [done|].
  cbn [tag_list omap list_omap]. rewrite (tag_label_good v a b) by done. rewrite IH, Hc. done.
Qed.

Lemma labelsToLabelsProto_good rule metric :
  Forall (λ v, bad_tag v = false) (RecRule.AppendTagsJSON rule) →
  labelsToLabelsProto metric rule = Ret (record_labels rule metric).
Proof. intros Ht. unfold labelsToLabelsProto, record_labels. by rewrite tag_list_good. Qed.

(** The series before the first one without values. *)
Fixpoint until_empty {A B} (items : list (A * list B)) : list (A * list B) :=
  match items with
  | (m, x :: xs) :: items => (m, x :: xs) :: until_empty items
  | _ => []
  end.

(** What the conversion is meant to do, as a function on lists. *)
Definition recorded_series rule (value : query_value) : list TimeSeries :=
  match value with
  | VVector items =>
      map (λ it, mkTimeSeries (record_labels rule (fst it)) [proto_sample (snd it)])
        (List.filter (λ it, negb (isNaN (snd (snd it)))) items)
  | VMatrix items =>
      map (λ it, mkTimeSeries (record_labels rule (fst it))
                   (map proto_sample (List.filter (λ v, negb (isNaN (snd v))) (snd it))))
        (List.filter (λ it, match last (snd it) with Some l => negb (isNaN (snd l)) | None => false end)
           (until_empty items))
  | VScalar s => if isNaN (snd s) then [] else [mkTimeSeries [] [proto_sample s]]
  | VOther => []
  end.

Lemma ConvertToTimeSeries_good rule value :
  Forall (λ v, bad_tag v = false) (RecRule.AppendTagsJSON rule) →
  ConvertToTimeSeries value rule = Ret (recorded_series rule value).
Proof.
  intros Ht. destruct value as [items|items|s|]; simpl; try done.
  - induction items as [|[m s] items IH]; simpl; [done|]. destruct (isNaN (snd s)); simpl; [done|].
    by rewrite labelsToLabelsProto_good, IH.
  - induction items as [|[m vs] items IH]; simpl; [done|]. destruct vs as [|v vs]; simpl; [done|].
    destruct (last (v :: vs)) as [l|] eqn:El; [|by apply last_None in El].
    destruct (isNaN (snd l)); simpl; [done|].
    by rewrite labelsToLabelsProto_good, IH.
Qed.

Lemma find_None {A} (f : A → bool) l : List.find f l = None → Forall (λ x, f x = false) l.
Proof. induction l as [|x l IH]; simpl; [done|]. destruct (f x) eqn:E; [done|]. intros H. by constructor; auto. Qed.

Lemma Record_Verify_tags re re' :
  Record_Verify re = (re', None) → Forall (λ v, bad_tag v = false) (fields (RecRule.AppendTags re')).
Proof.
  unfold Record_Verify. do 4 (case_match; [done|]). cbv zeta.
  destruct (List.find bad_tag _) as [t|] eqn:Hf; [done|]. destruct (65535 <? _); [done|].
  intros [= <-]. by apply find_None.
Qed.

Lemma record_cron_tags re : RecRule.AppendTagsJSON (record_cron re) = RecRule.AppendTagsJSON re.
Proof. unfold record_cron. by case_match. Qed.

Lemma Record_DB2FE_tags re : RecRule.AppendTagsJSON (Record_DB2FE re) = fields (RecRule.AppendTags re).
Proof.
  unfold Record_DB2FE. rewrite record_cron_tags. rsimp. unfold Record_FillDatasourceQueries.
  case_match; by rsimp.
Qed.

(** A recording rule that passed verification and was read back from the table
    converts every result of its query, without a panic: a vector into one series
    for each value that is not NaN, in order; a matrix into one for each series
    whose last value is not NaN, up to the first series without values; each under
    the name of the rule, with the valid labels of the result and the appended
    tags. *)
Theorem recording_converts re re' value :
  Record_Verify re = (re', None) →
  ConvertToTimeSeries value (Record_DB2FE re') = Ret (recorded_series (Record_DB2FE re') value).
Proof.
  intros Hv. apply ConvertToTimeSeries_good. rewrite Record_DB2FE_tags. by eapply Record_Verify_tags.
Qed.

Lemma unix_millis_small sec : -9223372036 ≤ sec ≤ 9223372036 → unix_millis sec = sec * 1000.
Proof.
  intros Hs. unfold unix_millis. rewrite i64_id by (unfold in_i64; lia).
  replace (sec * 1000000000) with (sec * 1000 * 1000000) by lia. by rewrite Z.quot_mul.
Qed.
End convert_spec.

(** *** A round of the scheduler *)

Section scheduler_spec.
Context `{GR : GoRange, CH : ConsistentLib, SL : StrLib, CR : CronLib, GL : GlobLib}.
Variables (endpoint : string) (d : dsdata) (rules0 : gmap Z RecordingRule) (rings0 : gmap string ring).
Implicit Types (rule r : RecordingRule) (s : rec_state) (k : rec_wanted).

Lemma record_cron_idem rule : record_cron (record_cron rule) = record_cron rule.
Proof.
  unfold record_cron. destruct (String.eqb (RecRule.CronPattern rule) "" && _) eqn:E; [done|]. by rewrite E.
Qed.
Lemma record_cron_Id rule : RecRule.Id (record_cron rule) = RecRule.Id rule.
Proof. unfold record_cron. by case_match. Qed.
Lemma record_cron_queries rule : RecRule.DatasourceQueries (record_cron rule) = RecRule.DatasourceQueries rule.
Proof. unfold record_cron. by case_match. Qed.

(** A rule is evaluated on the data sources it selects that the rings give to
    this engine. *)
Definition record_owned rule : list Z :=
  List.filter (λ ds, snd (IsHit rings0 (itoa ds) (itoa (RecRule.Id rule)) endpoint))
    (GetIDsByDsCateAndQueries d "prometheus" (RecRule.DatasourceQueries rule)).

Definition record_hash rule (ds : Z) : string := str_md5 (record_text (record_cron rule) ds).

(** Projections of the updated variables of the loop, which have a parameter. *)
Ltac wsimp := cbv [set set_with rec_wanted_eta] in *; cbn [rw_rules rw_rings rw_serial rw_contexts] in *.

(** What the first loop has done for the pairs of rules and data sources. *)
Record kinv (pairs : list (RecordingRule * Z)) k : Prop := {
  ki_hit : ∀ key pk e, snd (IsHit (rw_rings k) key pk e) = snd (IsHit rings0 key pk e);
  ki_rules : ∀ id, record_cron <$> (rw_rules k !! id) = record_cron <$> (rules0 !! id);
  ki_dom : ∀ h, is_Some (rw_contexts k !! h) ↔ ∃ r ds, (r, ds) ∈ pairs ∧ h = record_hash r ds;
  ki_ctx : ∀ h c, rw_contexts k !! h = Some c →
    ∃ r ds sn, (r, ds) ∈ pairs ∧ h = record_hash r ds ∧ c = NewRecordRuleContext sn r ds
}.

Lemma NewRecordRuleContext_ext sn rule r ds :
  record_cron rule = record_cron r → NewRecordRuleContext sn rule ds = NewRecordRuleContext sn r ds.
Proof. intros H. unfold NewRecordRuleContext. by rewrite H. Qed.

Lemma want_context_inv pairs k rule r ds :
  kinv pairs k → rules0 !! RecRule.Id r = Some r → record_cron rule = record_cron r →
  kinv (pairs ++ if snd (IsHit rings0 (itoa ds) (itoa (RecRule.Id r)) endpoint) then [(r, ds)] else [])
    (want_context endpoint rule k ds).
Proof.
  intros [Hh Hr Hd Hc] H0 Hrule.
  assert (RecRule.Id rule = RecRule.Id r) as Hid by (by rewrite <- record_cron_Id, Hrule, record_cron_Id).
  unfold want_context. rewrite Hid. pose proof (Hh (itoa ds) (itoa (RecRule.Id r)) endpoint) as Hhit.
  pose proof (λ key pk e, IsHit_stable (rw_rings k) (itoa ds) (itoa (RecRule.Id r)) endpoint key pk e) as Hst.
  destruct (IsHit (rw_rings k) _ _ _) as [rings hit]. simpl in Hhit, Hst. rewrite <- Hhit.
  destruct hit; simpl.
  - set (cur := default rule (rw_rules k !! RecRule.Id r)).
    assert (record_cron cur = record_cron r) as Hcur.
    { subst cur. specialize (Hr (RecRule.Id r)). rewrite H0 in Hr. simpl in Hr.
      destruct (rw_rules k !! RecRule.Id r) as [x|]; simpl in *; congruence. }
    rewrite (NewRecordRuleContext_ext _ cur r ds Hcur). split; wsimp.
    + intros. by rewrite Hst, Hh.
    + intros id. destruct (decide (id = RecRule.Id r)) as [->|Hne].
      * rewrite lookup_insert_eq, H0, Hcur. simpl. by rewrite record_cron_idem.
      * by rewrite lookup_insert_ne.
    + intros h. rewrite lookup_insert_is_Some, Hd. setoid_rewrite elem_of_app. setoid_rewrite list_elem_of_singleton.
      unfold RecordRule_Hash. simpl. fold (record_hash r ds). split.
      * intros [<-|[_ (r' & ds' & ? & ?)]]; eauto 8.
      * intros (r' & ds' & [Hin|[= -> ->]] & ->); [|by left].
        destruct (decide (record_hash r ds = record_hash r' ds')); eauto 8.
    + intros h c [[<- <-]|[_ Hl]]%lookup_insert_Some.
      * exists r, ds, (rw_serial k). split_and!; [apply elem_of_app; right; by left|done|done].
      * destruct (Hc h c Hl) as (r' & ds' & sn & Hin & ? & ?). exists r', ds', sn. split_and!; [apply elem_of_app; by left|done|done].
  - rewrite app_nil_r. split; wsimp; [|done..]. intros. by rewrite Hst, Hh.
Qed.

Lemma want_contexts_inv pairs k rule r ids :
  kinv pairs k → rules0 !! RecRule.Id r = Some r → record_cron rule = record_cron r →
  kinv (pairs ++ map (pair r) (List.filter (λ ds, snd (IsHit rings0 (itoa ds) (itoa (RecRule.Id r)) endpoint)) ids))
    (foldl (want_context endpoint rule) k ids).
Proof.
  revert pairs k. induction ids as [|ds ids IH]; intros pairs k Hk H0 Hr; simpl; [by rewrite app_nil_r|].
  pose proof (want_context_inv pairs k rule r ds Hk H0 Hr) as Hk1. apply IH in Hk1; [|done..].
  destruct (snd (IsHit rings0 _ _ _)); simpl in *; [|by rewrite app_nil_r in Hk1].
  by rewrite <- (assoc_L (++)) in Hk1.
Qed.

Lemma want_record_inv pairs k id :
  (∀ i r, rules0 !! i = Some r → RecRule.Id r = i) → kinv pairs k →
  kinv (pairs ++ match rules0 !! id with Some r => map (pair r) (record_owned r) | None => [] end)
    (want_record endpoint d k id).
Proof.
  intros Hkey Hk. unfold want_record. pose proof (ki_rules _ _ Hk id) as Hr.
  destruct (rw_rules k !! id) as [rule|], (rules0 !! id) as [r|] eqn:E0; simpl in Hr; try done; [|by rewrite app_nil_r].
  injection Hr as Hr. pose proof (Hkey id r E0) as <-.
  replace (RecRule.DatasourceQueries rule) with (RecRule.DatasourceQueries r).
  2: { by rewrite <- record_cron_queries, <- Hr, record_cron_queries. }
  by apply want_contexts_inv.
Qed.

Lemma want_records_inv pairs k ids :
  (∀ i r, rules0 !! i = Some r → RecRule.Id r = i) → kinv pairs k →
  ∃ pairs', kinv pairs' (foldl (want_record endpoint d) k ids) ∧
    ∀ r ds, (r, ds) ∈ pairs' ↔ (r, ds) ∈ pairs ∨ ∃ id, id ∈ ids ∧ rules0 !! id = Some r ∧ ds ∈ record_owned r.
Proof.
  intros Hkey. revert pairs k. induction ids as [|id ids IH]; intros pairs k Hk; simpl.
  { exists pairs. split; [done|]. set_solver. }
  destruct (IH _ _ (want_record_inv pairs k id Hkey Hk)) as (pairs' & Hk' & Hp). exists pairs'. split; [done|].
  intros r ds. rewrite Hp, elem_of_app. setoid_rewrite elem_of_cons.
  destruct (rules0 !! id) as [r0|] eqn:E0; [|set_solver].
  rewrite list_elem_of_fmap. split.
  - intros [[?|(x & [= -> ->] & ?)]|(i & ? & ? & ?)]; eauto 8.
  - intros [?|(i & [->|?] & ? & ?)]; [auto| |eauto 8]. left. right. simplify_eq. eauto.
Qed.

(** Starting keeps what runs, stopping keeps what is wanted. *)
Lemma start_records_rules (contexts : gmap string RecordRuleContext) s :
  rr_recordRules (start_records contexts s) = rr_recordRules s ∪ contexts.
Proof.
  unfold start_records. rewrite <- (list_to_map_to_list contexts) at 2.
  rewrite <- (list_to_map_proper _ _ (NoDup_fst_go_range contexts) (go_range_perm contexts)).
  pose proof (NoDup_fst_go_range contexts) as Hnd. revert s Hnd.
  induction (go_range contexts) as [|[h c] l IH]; intros s Hnd; csimpl in *; [by rewrite (right_id_L ∅ (∪))|].
  apply NoDup_cons in Hnd as [Hh Hnd]. rewrite IH by done. apply map_eq. intros x.
  destruct (rr_recordRules s !! h) as [c0|] eqn:E; rsimp; rewrite !lookup_union.
  - destruct (decide (x = h)) as [->|Hne]; [|by rewrite lookup_insert_ne].
    rewrite E, lookup_insert_eq. by destruct (list_to_map l !! h).
  - destruct (decide (x = h)) as [->|Hne]; [|by rewrite !lookup_insert_ne].
    rewrite E, !lookup_insert_eq. by rewrite (not_elem_of_list_to_map_1 l h).
Qed.

Lemma stop_records_rules (contexts : gmap string RecordRuleContext) s h :
  rr_recordRules (stop_records contexts s) !! h =
  if decide (is_Some (contexts !! h)) then rr_recordRules s !! h else None.
Proof.
  unfold stop_records.
  assert (∀ l s, rr_recordRules (foldl (λ s hr, match contexts !! fst hr with
            | Some _ => s
            | None => s <| rr_log := rr_log s ++ [RStop (rc_serial (snd hr))] |>
                        <| rr_recordRules := delete (fst hr) (rr_recordRules s) |>
            end) s l) !! h =
          if decide (h ∈ l.*1 ∧ contexts !! h = None) then None else rr_recordRules s !! h) as Hl.
  { clear s. induction l as [|[h' c] l IH]; intros s; cbn [foldl fst snd].
    { rewrite decide_False; [done|]. set_solver. }
    rewrite IH. csimpl. destruct (contexts !! h') as [c'|] eqn:E.
    - destruct (decide (h = h')) as [->|Hne]; repeat case_decide; set_solver.
    - rsimp. destruct (decide (h = h')) as [->|Hne].
      + rewrite lookup_delete_eq. repeat case_decide; set_solver.
      + rewrite lookup_delete_ne by done. repeat case_decide; set_solver. }
  rewrite Hl. destruct (contexts !! h) as [c|] eqn:E; rewrite ?decide_True by (by eexists).
  - rewrite decide_False; [done|]. naive_solver.
  - rewrite (decide_False (P := is_Some None)) by (by intros []).
    destruct (rr_recordRules s !! h) as [x|] eqn:Es; [|by case_decide].
    rewrite decide_True; [done|]. split; [|done]. apply elem_of_fst_go_range. by exists x.
Qed.

(** After a round the engine runs exactly the rules of the cache on the data
    sources they select that the rings give to it, each under its hash: a context
    whose hash is unchanged is kept as it is, and the others are made from the
    rules of the cache. *)
Theorem syncRecordRules_spec s rules rings s' :
  (∀ i r, rules0 !! i = Some r → RecRule.Id r = i) →
  syncRecordRules endpoint d rules0 rings0 s = (rules, rings, s') →
  ∀ h,
    (is_Some (rr_recordRules s' !! h) ↔
     ∃ id r ds, rules0 !! id = Some r ∧ ds ∈ record_owned r ∧ h = record_hash r ds) ∧
    (∀ c, rr_recordRules s !! h = Some c → is_Some (rr_recordRules s' !! h) → rr_recordRules s' !! h = Some c) ∧
    (∀ c, rr_recordRules s !! h = None → rr_recordRules s' !! h = Some c →
       ∃ id r ds sn, rules0 !! id = Some r ∧ ds ∈ record_owned r ∧ h = record_hash r ds ∧
         c = NewRecordRuleContext sn r ds).
Proof.
  intros Hkey. unfold syncRecordRules.
  destruct (want_records_inv [] (mkRecWanted rules0 rings0 (rr_serial s) ∅) (go_range rules0).*1 Hkey)
    as (pairs & Hk & Hp).
  { split; [done..| |]; simpl; intros h; rewrite lookup_empty; [|done]. split; [by intros []|set_solver]. }
  set (k := foldl _ _ _) in *. intros [= _ _ <-] h.
  assert (∀ r ds, (r, ds) ∈ pairs ↔ ∃ id, rules0 !! id = Some r ∧ ds ∈ record_owned r) as Hp'.
  { intros r ds. rewrite Hp. split; [intros [[]%not_elem_of_nil|(id & _ & ?)]; eauto|].
    intros (id & Hr & ?). right. exists id. split_and!; [|done..]. apply elem_of_fst_go_range. by exists r. }
  rewrite stop_records_rules, start_records_rules, lookup_union. rsimp.
  pose proof (ki_dom _ _ Hk h) as Hd. setoid_rewrite Hp' in Hd.
  destruct (rw_contexts k !! h) as [c0|] eqn:E.
  - rewrite decide_True by (by eexists). split_and!.
    + split; [intros _|].
      * destruct Hd as [Hd _]. destruct Hd as (r & ds & (id & ? & ?) & ?); [by eexists|]. eauto 8.
      * intros _. destruct (rr_recordRules s !! h); by eexists.
    + intros c -> _. done.
    + intros c -> Hc. simpl in Hc. injection Hc as <-.
      destruct (ki_ctx _ _ Hk h c0 E) as (r & ds & sn & Hin & ? & ?). apply Hp' in Hin as (id & ? & ?). eauto 10.
  - rewrite decide_False by (by intros []). split_and!; [|by intros ? ? []|done].
    split; [by intros []|]. intros (id & r & ds & ? & ? & ?). exfalso.
    apply (is_Some_None (A := RecordRuleContext)). apply Hd. eauto 8.
Qed.
End scheduler_spec.
