(* ===== verification/External.v ===== *)
(** * Events from outside: [alert/router/router_event.go]

    The three handlers by which other programs and other engines hand events to
    an engine: an event for the queue, an event to be stored, and anomalies for a
    rule that is evaluated elsewhere, which go to the engine that owns the rule. *)

From Stdlib Require Import Ascii.
From S2P Require Import Prelude GoStrings GoTime Json Models RuleModels EventOps Filter Mute Relabel Workflow Engine.
From S2P Require Import Processors RuleOps EventTable Process Naming Caches Scheduler Consume Http.
Open Scope string_scope.
Open Scope Z_scope.
Open Scope list_scope.

(** What a handler answers: [ginx.NewRender(c).Message(nil)], the data and error
    of [Data], or the early end of [ginx.Bomb]. *)
Inductive answer :=
| AMessage
| AData (id : Z) (err : option error)
| ABomb (code : Z) (msg : string).

(** ** [pushEventToQueue] and [eventPersist] *)

Section push_event.
Context {Q : Type} (q_push : Q → AlertCurEvent → Q * bool).
Context `{RG : Regexp, GF : GoFmt, TZ : Location, !Json (gmap string iface), TT : TextTemplate, EF : EventFieldJson}.
Context `{!Json (gmap string string), !Json iface}.
(** [%+v] of an event, in the message about a full queue. *)
Context (show_event : AlertCurEvent → string).

(** A field that cannot be rendered gets the error; that of the annotations goes
    to the note. *)
Definition parse_pushed (event : AlertCurEvent) : AlertCurEvent :=
  let event := match ParseRule event "rule_name" with
               | (e, Some err) => e <| Event.RuleName := "failed to parse rule name: " +:+ err |>
               | (e, None) => e
               end in
  let event := match ParseRule event "rule_note" with
               | (e, Some err) => e <| Event.RuleNote := "failed to parse rule note: " +:+ err |>
               | (e, None) => e
               end in
  match ParseRule event "annotations" with
  | (e, Some err) => e <| Event.RuleNote := "failed to parse rule note: " +:+ err |>
  | (e, None) => e
  end.

(** A note that starts with a semicolon replaces the tags. *)
Definition note_tags (event : AlertCurEvent) : AlertCurEvent :=
  if has_prefix (Event.RuleNote event) ";" then
    let note := str_drop 1 (Event.RuleNote event) in
    let tags := replace_all note " " ",," in
    event <| Event.RuleNote := note |> <| Event.Tags := tags |> <| Event.TagsJSON := split tags ",," |>
  else event <| Event.Tags := join (Event.TagsJSON event) ",," |>.

Definition join_columns (event : AlertCurEvent) : AlertCurEvent :=
  event <| Event.Callbacks := join (Event.CallbacksJSON event) " " |>
        <| Event.NotifyChannels := join (Event.NotifyChannelsJSON event) " " |>
        <| Event.NotifyGroups := join (Event.NotifyGroupsJSON event) " " |>.

(** [body] is what the request decodes to; [null] is a nil pointer. *)
Definition pushEventToQueue (mutes : gmap Z (list AlertMute)) (body : result (option AlertCurEvent)) (q : Q) :
    go (Q * answer) :=
  match body with
  | Err err => Ret (q, ABomb 400 err)
  | Ok None => Panic
  | Ok (Some event) =>
      if Event.RuleId event =? 0 then Ret (q, ABomb 200 "event is illegal")
      else
        let event := FE2DB event in
        let event := event <| Event.TagsMap := tags_map (Event.TagsJSON event) |> in
        '(hit, _) ← EventMuteStrategy event mutes;
        if (hit : bool) then Ret (q, AMessage)
        else
          let event := join_columns (note_tags (parse_pushed event)) in
          let '(q, ok) := q_push q event in
          if negb ok then Ret (q, ABomb 200 ("event:" +:+ show_event event +:+ " push_queue err: queue is full"))
          else Ret (q, AMessage)
  end.

Definition eventPersist {DB} `{EventDB DB} (body : result (option AlertCurEvent)) (d : DB) : go (DB * answer) :=
  match body with
  | Err err => Ret (d, ABomb 400 err)
  | Ok None => Panic
  | Ok (Some event) =>
      let '(d, event, err) := EventPersist d (FE2DB event) in
      Ret (d, AData (Event.Id event) err)
  end.
End push_event.

(** ** [makeEvent] *)

Record eventForm := mkEventForm {
  ef_Alert : bool;
  ef_AnomalyPoints : list AnomalyPoint;
  ef_RuleId : Z;
  ef_DatasourceId : Z;
  ef_Inhibit : bool
}.

(** A goroutine that the handler starts, on the processor of a key. *)
Inductive spawned :=
| SHandle (key : string) (points : list AnomalyPoint) (inhibit : bool)
| SRecover (key hash : string) (now : Z) (value : string).

Section make_event.
Context {World : Type} `{NW : Network World, CH : ConsistentLib, !Json (list eventForm)}.
Context `{GR : GoRange, SF : SampleFmt, SL : StrLib, QL : EventQueueLib}.

(** The rings, the external processors, the network, and the goroutines started. *)
Record xstate := mkXstate {
  x_rings : gmap string ring;
  x_external : gmap string eproc;
  x_world : World;
  x_spawned : list spawned
}.
Implicit Types (s : xstate) (f : eventForm).

Definition GetExternalAlertRule s (datasourceId id : Z) : option eproc :=
  x_external s !! RuleKey datasourceId id.

Definition forwardEvent f (instance : string) (w : World) : go (World * option error) :=
  '(w, (_, _, err)) ← PostJSON ("http://" +:+ instance +:+ "/v1/n9e/make-event") 5000 [f] (Some 3) w;
  Ret (w, err).

(** What is started for an event that is handled here. *)
Definition local_actions f : list spawned :=
  let key := RuleKey (ef_DatasourceId f) (ef_RuleId f) in
  if ef_Alert f then [SHandle key (ef_AnomalyPoints f) (ef_Inhibit f)]
  else map (λ v, SRecover key (Hash (ef_RuleId f) (ef_DatasourceId f) v) (Point.Timestamp v) (ReadableValue v))
         (ef_AnomalyPoints f).

Fixpoint make_events (endpoint : string) (events : list eventForm) s : go (xstate * answer) :=
  match events with
  | [] => Ret (s, AMessage)
  | f :: events =>
      let '(rings, node) := GetNode (x_rings s) (itoa (ef_DatasourceId f)) (itoa (ef_RuleId f)) in
      let s := mkXstate rings (x_external s) (x_world s) (x_spawned s) in
      match node with
      | Err _ => Ret (s, ABomb 200 "event node not exists")
      | Ok node =>
          if negb (String.eqb node endpoint) then
            '(w, err) ← forwardEvent f node (x_world s);
            let s := mkXstate (x_rings s) (x_external s) w (x_spawned s) in
            match err with
            | Some _ => Ret (s, ABomb 200 "event forward error")
            | None => make_events endpoint events s
            end
          else
            match GetExternalAlertRule s (ef_DatasourceId f) (ef_RuleId f) with
            | None => Ret (s, ABomb 200 "rule not exists")
            | Some _ => make_events endpoint events
                          (mkXstate (x_rings s) (x_external s) (x_world s) (x_spawned s ++ local_actions f))
            end
      end
  end.

(** [body] is what the request decodes to; its elements are not null. *)
Definition makeEvent (endpoint : string) (body : result (list eventForm)) s : go (xstate * answer) :=
  match body with
  | Err err => Ret (s, ABomb 400 err)
  | Ok events => make_events endpoint events s
  end.

(** ** Properties *)

(** Where an event belongs, by the rings. *)
Definition owner s f : result string :=
  snd (GetNode (x_rings s) (itoa (ef_DatasourceId f)) (itoa (ef_RuleId f))).

Lemma GetNode_stable (rs : gmap string ring) k p key pk :
  snd (GetNode (fst (GetNode rs k p)) key pk) = snd (GetNode rs key pk).
Proof.
  destruct (GetNode_rings rs k p) as [->|[Hnone ->]]; [done|].
  unfold GetNode. destruct (decide (key = k)) as [->|Hne].
  - by rewrite lookup_insert_eq, Hnone.
  - rewrite lookup_insert_ne by done. by destruct (rs !! key).
Qed.

Lemma forwardEvent_returns f node w : ∃ r, forwardEvent f node w = Ret r.
Proof.
  unfold forwardEvent. destruct (PostJSON_returns ("http://" +:+ node +:+ "/v1/n9e/make-event") 5000 [f] 3 w)
    as [[w' [[res code] err]] ->]; [lia|]. by eexists.
Qed.

(** The actions of an event on this engine: none when another engine owns it. *)
Definition placed (endpoint : string) s f : list spawned :=
  match owner s f with
  | Ok node => if String.eqb node endpoint then local_actions f else []
  | Err _ => []
  end.

(** Why the handler stops at an event. *)
Definition refused (endpoint : string) s f (msg : string) : Prop :=
  (msg = "event node not exists" ∧ ∃ e, owner s f = Err e) ∨
  (msg = "event forward error" ∧ ∃ node, owner s f = Ok node ∧ node ≠ endpoint) ∨
  (msg = "rule not exists" ∧ owner s f = Ok endpoint ∧ GetExternalAlertRule s (ef_DatasourceId f) (ef_RuleId f) = None).

(** A batch of external events is processed in order up to the first one that has
    no owner, cannot be forwarded, or has no processor; each event before it was
    started here, if this engine owns its rule, and only then.  The caller gets an
    error exactly when there is such an event, although the events before it were
    taken. *)
Theorem makeEvent_spec endpoint events s :
  ∃ s' done rest ans, makeEvent endpoint (Ok events) s = Ret (s', ans) ∧ events = done ++ rest ∧
    x_spawned s' = x_spawned s ++ concat (map (placed endpoint s) done) ∧
    x_external s' = x_external s ∧
    match rest with
    | [] => ans = AMessage
    | f :: _ => ∃ msg, ans = ABomb 200 msg ∧ refused endpoint s f msg
    end.
Proof.
  unfold makeEvent.
  assert (∀ rs ext w sp, (∀ key pk, snd (GetNode rs key pk) = snd (GetNode (x_rings s) key pk)) → ext = x_external s →
    ∃ s' done rest ans, make_events endpoint events (mkXstate rs ext w sp) = Ret (s', ans) ∧ events = done ++ rest ∧
      x_spawned s' = sp ++ concat (map (placed endpoint s) done) ∧ x_external s' = ext ∧
      match rest with [] => ans = AMessage | f :: _ => ∃ msg, ans = ABomb 200 msg ∧ refused endpoint s f msg end) as H.
  { induction events as [|f events IH]; intros rs ext w sp Hst Hext; cbn [make_events].
    { eexists _, [], [], _. split_and!; [done..|by rewrite app_nil_r|done|done]. }
    pose proof (Hst (itoa (ef_DatasourceId f)) (itoa (ef_RuleId f))) as Hown. fold (owner s f) in Hown.
    pose proof (λ key pk, GetNode_stable rs (itoa (ef_DatasourceId f)) (itoa (ef_RuleId f)) key pk) as Hst'.
    cbn [x_rings x_external x_world x_spawned].
    destruct (GetNode rs _ _) as [rs' node]. cbn [fst snd] in Hown, Hst'. subst node.
    setoid_rewrite <- Hst' in Hst.
    destruct (owner s f) as [node|e] eqn:Ho.
    2: { eexists _, [], (f :: events), _. split_and!; [done..|by rewrite app_nil_r|done|].
         exists "event node not exists". split; [done|]. left. eauto. }
    destruct (String.eqb_spec node endpoint) as [->|Hne]; cbn [negb].
    - unfold GetExternalAlertRule at 1. cbn [x_external].
      destruct (ext !! RuleKey (ef_DatasourceId f) (ef_RuleId f)) as [p|] eqn:Ep.
      + destruct (IH rs' ext w (sp ++ local_actions f) Hst Hext) as (s' & done & rest & ans & Hm & -> & Hs & He & Ha).
        exists s', (f :: done), rest, ans. split_and!; [done..| |done|done].
        cbn [map concat]. unfold placed at 1. rewrite Ho, String.eqb_refl. by rewrite Hs, <- (assoc_L (++)).
      + eexists _, [], (f :: events), _. split_and!; [done..|by rewrite app_nil_r|done|].
        exists "rule not exists". split; [done|]. right. right. split_and!; [done..|].
        unfold GetExternalAlertRule. by rewrite <- Hext.
    - destruct (forwardEvent_returns f node w) as [[w' err] Hf]. rewrite Hf. cbn [mbind go_bind].
      destruct err as [err|].
      + eexists _, [], (f :: events), _. split_and!; [done..|by rewrite app_nil_r|done|].
        exists "event forward error". split; [done|]. right. left. eauto.
      + destruct (IH rs' ext w' sp Hst Hext) as (s' & done & rest & ans & Hm & -> & Hs & He & Ha).
        exists s', (f :: done), rest, ans. split_and!; [done..| |done|done].
        cbn [map concat]. unfold placed at 1. rewrite Ho. apply String.eqb_neq in Hne. by rewrite Hne. }
  destruct s as [rs ext w sp]. by apply H.
Qed.

(** An event that one engine forwards is not forwarded again: with the same ring
    for the data source, the engine it is sent to finds itself the owner. *)
Lemma forwarded_stays s s' f node endpoint :
  x_rings s !! itoa (ef_DatasourceId f) = x_rings s' !! itoa (ef_DatasourceId f) →
  owner s f = Ok node → node ≠ endpoint →
  placed endpoint s f = [] ∧ placed node s' f = local_actions f.
Proof.
  intros Hr Ho Hne. unfold placed. rewrite Ho. apply String.eqb_neq in Hne. rewrite Hne. split; [done|].
  assert (owner s' f = Ok node) as ->; [|by rewrite String.eqb_refl].
  unfold owner, GetNode in *. rewrite <- Hr. destruct (x_rings s !! itoa (ef_DatasourceId f)); done.
Qed.
End make_event.

(** ** The goroutines *)

Section run.
Context {World : Type} `{RT : Runtime World, GR : GoRange, QL : EventQueueLib}.
Context `{HT : HtmlTemplate, SF : SampleFmt, SL : StrLib}.
Context `{RG : Regexp, !RegexpSub, M5 : Md5, LN : LabelNames, UC : UnicodeCase}.
Context `{GF : GoFmt, EF : EventFieldJson, TZ : Location}.
Context `{!Json (gmap string string), !Json RuleQuery, !Json (gmap string iface)}.
Context `{!Json (list NodeExecutionResult), !Json iface}.
Context `{CH : ConsistentLib, CR : CronLib, CS : CronSchedule, GL : GlobLib, DBR : CurEventRows}.
Variable cf : sconf.
Implicit Types (ext : gmap string eproc) (c : caches).

(** A goroutine on the processor of its key, as one step. *)
Definition run_spawned c (now : Z) (a : spawned) ext (w : World) : go (gmap string eproc * World) :=
  match a with
  | SHandle key points inhibit =>
      match ext !! key with
      | None => Ret (ext, w)
      | Some e =>
          '(p, w, _) ← Handle (proc_conf cf (e_DatasourceId e)) c points "http" inhibit now (e_Processor e) w;
          Ret (<[key := mkEproc (e_DatasourceId e) p]> ext, w)
      end
  | SRecover key hash ts value =>
      match ext !! key with
      | None => Ret (ext, w)
      | Some e => Ret (<[key := mkEproc (e_DatasourceId e)
                                  (RecoverSingle (e_Processor e) false hash ts (Some value) None)]> ext, w)
      end
  end.

(** The life of the external processors: rounds of the scheduler and goroutines,
    in any order. *)
Inductive ext_step : sstate → sstate → Prop :=
| ext_round now d c rings rules' rings' s s' :
    sync_workers cf now d c rings s = Ret (rules', rings', s') → ext_step s s'
| ext_run c now a w ext' w' s :
    run_spawned c now a (s_external s) w = Ret (ext', w') →
    ext_step s (s <| s_external := ext' |>).

Definition ext_ok ext : Prop := ∀ key e, ext !! key = Some e → wf (e_Processor e).

Lemma ext_ok_insert ext key e : ext_ok ext → wf (e_Processor e) → ext_ok (<[key := e]> ext).
Proof. intros Hok He k x [[_ <-]|[_ ?]]%lookup_insert_Some; [done|by eapply Hok]. Qed.

Lemma NewProcessor_wf rule : queue_items (s_queue cf) = [] → wf (NewProcessor cf rule).
Proof.
  intros Hq. split; cbn; try (intros k0 l Hk0; by destruct (lookup_empty_Some k0 l Hk0)).
  intros l Hl. change (l ∈ queue_items (s_queue cf)) in Hl. rewrite Hq in Hl. by apply not_elem_of_nil in Hl.
Qed.

Lemma external_loop_ok d rule dsIds k :
  queue_items (s_queue cf) = [] → ext_ok (k_external k) → ext_ok (k_external (external_loop cf d rule dsIds k)).
Proof.
  intros Hq. unfold external_loop. revert k. induction dsIds as [|ds dsIds IH]; intros k Hok; [done|]. cbn [foldl].
  apply IH. destruct (GetById d ds) as [x|]; [|done]. case_match; [done|]. ksimp.
  apply ext_ok_insert; [done|]. by apply NewProcessor_wf.
Qed.

Lemma add_worker_external now k rule ds k' :
  add_worker cf now k rule ds = Ret k' → k_external k' = k_external k.
Proof. unfold add_worker. intros (w & _ & Hr)%go_bind_Ret. apply Ret_inj in Hr as ->. done. Qed.

Lemma inner_loop_external now d rule dsIds k k' :
  inner_loop cf now d rule dsIds k = Ret k' → k_external k' = k_external k.
Proof.
  revert k. induction dsIds as [|ds dsIds IH]; intros k; cbn [inner_loop]; [by intros ->%Ret_inj|].
  destruct (IsHit (k_rings k) _ _ _) as [rings hit].
  destruct hit; cbn [negb]; [|by intros ->%IH].
  destruct (GetById d ds) as [x|]; [|by intros ->%IH]. do 2 (case_match; [by intros ->%IH|]).
  intros (k1 & Hk1 & ->%IH)%go_bind_Ret. by apply add_worker_external in Hk1.
Qed.

Lemma want_rule_ok now d rule k k' :
  queue_items (s_queue cf) = [] → want_rule cf now d rule k = Ret k' → ext_ok (k_external k) → ext_ok (k_external k').
Proof.
  intros Hq. unfold want_rule. destruct (IsPrometheusRule rule || IsInnerRule rule).
  { by intros ->%inner_loop_external. }
  destruct (IsHostRule rule).
  - destruct (IsHit (k_rings k) _ _ _) as [rings hit]. destruct hit; cbn [negb].
    + by intros ->%add_worker_external.
    + by intros ->%Ret_inj.
  - intros ->%Ret_inj. by apply external_loop_ok.
Qed.

Lemma want_rules_ok now d ids k k' :
  queue_items (s_queue cf) = [] → want_rules cf now d ids k = Ret k' → ext_ok (k_external k) → ext_ok (k_external k').
Proof.
  intros Hq. revert k. induction ids as [|id ids IH]; intros k; cbn [want_rules]; [by intros ->%Ret_inj|].
  destruct (k_rules k !! id) as [rule|]; [|apply IH].
  intros (k1 & H1 & H2)%go_bind_Ret Hok. eapply IH; [exact H2|]. by eapply want_rule_ok.
Qed.

Lemma sync_external_ok c ext s : ext_ok ext → ext_ok (s_external s) → ext_ok (s_external (sync_external cf c ext s)).
Proof.
  intros Hext Hs. unfold sync_external.
  set (step2 := λ (s : sstate) (ke : string * eproc), _). set (step1 := λ (s : sstate) (ke : string * eproc), _).
  assert (∀ l s, ext_ok (s_external s) → ext_ok (s_external (foldl step2 s l))) as H2.
  { intros l. induction l as [|[k e] l IH]; intros s0 Hs0; [done|]. cbn [foldl]. apply IH. subst step2. cbn [fst].
    destruct (ext !! k); [done|]. ksimp. intros k' x [_ Hx]%lookup_delete_Some. by eapply Hs0. }
  apply H2.
  assert (∀ l s, (∀ k e, (k, e) ∈ l → wf (e_Processor e)) → ext_ok (s_external s) → ext_ok (s_external (foldl step1 s l))) as H1.
  { intros l. induction l as [|[k e] l IH]; intros s0 Hl Hs0; [done|]. cbn [foldl]. apply IH.
    { intros k' e' Hin. apply (Hl k'). by right. }
    assert (wf (e_Processor e)) as He by (apply (Hl k); by left).
    subst step1. cbn beta iota.
    assert (ext_ok (<[k := mkEproc (e_DatasourceId e) (RecoverAlertCurEventFromDb (proc_conf cf (e_DatasourceId e)) c
       (cur_event_rows (Rule.Id (p_rule (e_Processor e))) (e_DatasourceId e)) (e_Processor e))]> (s_external s0))) as Hins.
    { apply ext_ok_insert; [done|]. by apply RecoverAlertCurEventFromDb_wf. }
    destruct (s_external s0 !! k); [case_match; [done|]|]; ksimp; exact Hins. }
  apply H1; [|done]. intros k e Hin%elem_of_go_range. by eapply Hext.
Qed.

Lemma start_stop_external c workers s :
  s_external (stop_old workers (start_new cf c workers s)) = s_external s.
Proof.
  unfold stop_old, start_new.
  assert (∀ l (s : sstate), s_external (foldl (λ s '(hash, w), match workers !! hash with
     | Some _ => s
     | None => s <| s_log := s_log s ++ [OStop (w_serial w)] |> <| s_alertRules := delete hash (s_alertRules s) |>
     end) s l) = s_external s) as Hstop.
  { clear s. induction l as [|[h w] l IH]; intros s; [done|]. cbn [foldl]. rewrite IH. destruct (workers !! h); by ksimp. }
  rewrite Hstop. generalize (go_range workers) as l. intros l. revert s.
  induction l as [|[h w] l IH]; intros s; [done|]. cbn [foldl]. rewrite IH. destruct (s_alertRules s !! h); by ksimp.
Qed.

(** Whatever the order of rounds of the scheduler and of anomalies and recoveries
    pushed from outside, the tables of every external processor are well formed. *)
Theorem external_invariant s0 s :
  queue_items (s_queue cf) = [] → ext_ok (s_external s0) → rtc ext_step s0 s → ext_ok (s_external s).
Proof.
  intros Hq H0 Hsteps. revert H0. induction Hsteps as [|s1 s2 s3 Hstep _ IH]; [done|]. intros Hok. apply IH. clear IH.
  destruct Hstep as [now d c rings rules' rings' s1 s2 Hs|c now a w ext' w' s1 Hr].
  - unfold sync_workers in Hs. apply go_bind_Ret in Hs as (k & Hk & Hs). cbv zeta in Hs.
    apply Ret_inj in Hs. injection Hs as _ _ ->. apply sync_external_ok.
    + eapply want_rules_ok; [done|exact Hk|]. cbn. intros key e He. by destruct (lookup_empty_Some key e He).
    + by rewrite start_stop_external.
  - ksimp. destruct a as [key points inhibit|key hash ts value]; cbn [run_spawned] in Hr;
      destruct (s_external s1 !! key) as [e|] eqn:He; try (apply Ret_inj in Hr; by injection Hr as -> _).
    + apply go_bind_Ret in Hr as ([[p w1] out] & Hh & Hr). apply Ret_inj in Hr. injection Hr as -> _.
      apply ext_ok_insert; [done|]. cbn. eapply Handle_effect in Hh as [Hw _]; [exact Hw|]. by eapply Hok.
    + apply Ret_inj in Hr. injection Hr as -> _. apply ext_ok_insert; [done|]. cbn.
      apply RecoverSingle_wf. by eapply Hok.
Qed.
End run.
