(* ===== verification/Channels.v ===== *)
(** * Notification channels: [models/notify_channel.go]

    The configuration of a channel and its validation, the HTTP client made for
    it, and how a message is sent: by a request that is rendered from templates
    and signed for some providers, to FlashDuty and PagerDuty, by a script, or by
    mail.  Templates, hashes, the network, files and processes are parameters. *)

From Stdlib Require Import Ascii.
From S2P Require Import Prelude GoStrings Json Models Http Queues Senders Callbacks.
Open Scope string_scope.
Open Scope Z_scope.
Open Scope list_scope.

(** ** Data *)

Module TlsConf.
Record TLSConfig := mkTLSConfig {
  Enable : bool; CertFile : string; KeyFile : string; CAFile : string; SkipVerify : bool
}.
End TlsConf.

Module ReqDetail.
Record RequestDetail := mkRequestDetail {
  Parameters : gmap string string; Form : string; Body : string
}.
End ReqDetail.

Module HttpReq.
Record HTTPRequestConfig := mkHTTPRequestConfig {
  URL : string;
  Method : string;
  Headers : gmap string string;
  Proxy : string;
  Timeout : Z;
  Concurrency : Z;
  RetryTimes : Z;
  RetryInterval : Z;
  TLS : option TlsConf.TLSConfig;
  Request : ReqDetail.RequestDetail
}.
#[global] Instance HTTPRequestConfig_eta : Settable HTTPRequestConfig := λ r,
  mkHTTPRequestConfig (URL r) (Method r) (Headers r) (Proxy r) (Timeout r) (Concurrency r) (RetryTimes r)
    (RetryInterval r) (TLS r) (Request r).
End HttpReq.
Notation HTTPRequestConfig := HttpReq.HTTPRequestConfig.

Module FlashReq.
Record FlashDutyRequestConfig := mkFlashDutyRequestConfig {
  Proxy : string; IntegrationUrl : string; Timeout : Z; RetryTimes : Z; RetrySleep : Z
}.
End FlashReq.

Module PagerReq.
Record PagerDutyRequestConfig := mkPagerDutyRequestConfig {
  Proxy : string; ApiKey : string; Timeout : Z; RetryTimes : Z; RetrySleep : Z
}.
End PagerReq.

Module SmtpReq.
Record SMTPRequestConfig := mkSMTPRequestConfig {
  Host : string; Port : Z; Username : string; Password : string; From : string;
  InsecureSkipVerify : bool; Batch : Z
}.
End SmtpReq.

Module ScriptReq.
Record ScriptRequestConfig := mkScriptRequestConfig {
  ScriptType : string; Timeout : Z; Script : string; Path : string
}.
End ScriptReq.

Module ReqConf.
Record RequestConfig := mkRequestConfig {
  HTTPRequestConfig : option HttpReq.HTTPRequestConfig;
  SMTPRequestConfig : option SmtpReq.SMTPRequestConfig;
  ScriptRequestConfig : option ScriptReq.ScriptRequestConfig;
  FlashDutyRequestConfig : option FlashReq.FlashDutyRequestConfig;
  PagerDutyRequestConfig : option PagerReq.PagerDutyRequestConfig
}.
#[global] Instance RequestConfig_eta : Settable RequestConfig := λ r,
  mkRequestConfig (HTTPRequestConfig r) (SMTPRequestConfig r) (ScriptRequestConfig r)
    (FlashDutyRequestConfig r) (PagerDutyRequestConfig r).
End ReqConf.

Module ParamItm.
Record ParamItem := mkParamItem { Key : string; CName : string; Type_ : string }.
End ParamItm.

(** [UserInfo] is a pointer to a struct with one field. *)
Module ParamConf.
Record NotifyParamConfig := mkNotifyParamConfig {
  ContactKey : option string; Params : list ParamItm.ParamItem
}.
End ParamConf.

Module NChan.
Record NotifyChannelConfig := mkNotifyChannelConfig {
  ID : Z;
  Name : string;
  Ident : string;
  Description : string;
  Enable : bool;
  ParamConfig : option ParamConf.NotifyParamConfig;
  RequestType : string;
  RequestConfig : option ReqConf.RequestConfig;
  Weight : Z;
  CreateAt : Z;
  CreateBy : string;
  UpdateAt : Z;
  UpdateBy : string
}.
#[global] Instance NotifyChannelConfig_eta : Settable NotifyChannelConfig := λ r,
  mkNotifyChannelConfig (ID r) (Name r) (Ident r) (Description r) (Enable r) (ParamConfig r) (RequestType r)
    (RequestConfig r) (Weight r) (CreateAt r) (CreateBy r) (UpdateAt r) (UpdateBy r).
End NChan.
Notation NotifyChannelConfig := NChan.NotifyChannelConfig.

(** ** Validation *)

(** [^[a-zA-Z0-9_-]+$] *)
Definition ident_char (c : ascii) : bool :=
  let n := nat_of_ascii c in
  ((97 <=? n) && (n <=? 122) || (65 <=? n) && (n <=? 90) || (48 <=? n) && (n <=? 57) || (n =? 95) || (n =? 45))%nat.
Definition ident_ok (s : string) : bool := negb (String.eqb s "") && str_forall ident_char s.

Definition HTTPRequest_Verify (c : HTTPRequestConfig) : option error :=
  if String.eqb (HttpReq.URL c) "" then Some "http request URL cannot be empty"
  else if String.eqb (HttpReq.Method c) "" then Some "http request method cannot be empty"
  else if negb (String.eqb (HttpReq.Method c) "GET" || String.eqb (HttpReq.Method c) "POST"
                || String.eqb (HttpReq.Method c) "PUT")
  then Some "http request method must be GET, POST or PUT"
  else None.

Definition SMTPRequest_Verify (c : SmtpReq.SMTPRequestConfig) : option error :=
  if String.eqb (SmtpReq.Host c) "" then Some "smtp host cannot be empty"
  else if SmtpReq.Port c <=? 0 then Some "smtp port must be greater than 0"
  else if String.eqb (SmtpReq.Username c) "" then Some "smtp username cannot be empty"
  else if String.eqb (SmtpReq.Password c) "" then Some "smtp password cannot be empty"
  else if String.eqb (SmtpReq.From c) "" then Some "smtp from address cannot be empty"
  else None.

Definition ScriptRequest_Verify (c : ScriptReq.ScriptRequestConfig) : option error :=
  if negb (String.eqb (ScriptReq.ScriptType c) "script" || String.eqb (ScriptReq.ScriptType c) "path")
  then Some "script type must be 'script' or 'path'"
  else if String.eqb (ScriptReq.Script c) "" && String.eqb (ScriptReq.Path c) ""
  then Some "either script content or script path must be provided"
  else None.

(** What writing a built-in row does: insert it, leave a row that a user edited,
    or overwrite the row of an earlier version. *)
Inductive upsert (A : Type) := UInsert (row : A) | UKeep | UUpdate (row : A) | UError (err : error).
Arguments UInsert {A} row.
Arguments UKeep {A}.
Arguments UUpdate {A} row.
Arguments UError {A} err.

Section channels.
Context `{GR : GoRange, UC : UnicodeCase}.
Implicit Types (ncc : NotifyChannelConfig).

(** [ncc.RequestConfig.X]: a nil [RequestConfig] is dereferenced. *)
Definition request_config {A} ncc (f : ReqConf.RequestConfig → A) : go A :=
  match NChan.RequestConfig ncc with Some rc => Ret (f rc) | None => Panic end.

Definition validate {A} ncc (f : ReqConf.RequestConfig → option A) (missing : error) (verify : A → option error) :
    go (option error) :=
  c ← request_config ncc f;
  Ret (match c with None => Some missing | Some c => verify c end).

Definition Validate ncc : go (option error) :=
  match NChan.RequestType ncc with
  | "http" => validate ncc ReqConf.HTTPRequestConfig "http request config cannot be nil" HTTPRequest_Verify
  | "smtp" => validate ncc ReqConf.SMTPRequestConfig "smtp request config cannot be nil" SMTPRequest_Verify
  | "script" => validate ncc ReqConf.ScriptRequestConfig "script request config cannot be nil" ScriptRequest_Verify
  | "flashduty" => validate ncc ReqConf.FlashDutyRequestConfig "flashduty request config cannot be nil" (λ _, None)
  | "pagerduty" => validate ncc ReqConf.PagerDutyRequestConfig "pagerduty request config cannot be nil" (λ _, None)
  | _ => Ret None
  end.

Definition Channel_Verify ncc : go (option error) :=
  if String.eqb (NChan.Name ncc) "" then Ret (Some "channel name cannot be empty")
  else if String.eqb (NChan.Ident ncc) "" then Ret (Some "channel identifier cannot be empty")
  else if negb (ident_ok (NChan.Ident ncc))
  then Ret (Some ("channel identifier must be ^[a-zA-Z0-9_-]+$, current: " +:+ NChan.Ident ncc))
  else if negb (bool_decide (NChan.RequestType ncc ∈ ["http"; "smtp"; "script"; "flashduty"; "pagerduty"]))
  then Ret (Some "invalid request type, must be 'http', 'smtp' or 'script'")
  else if match NChan.ParamConfig ncc with
          | Some pc => existsb (λ p, negb (String.eqb (ParamItm.Key p) "") && String.eqb (ParamItm.CName p) "")
                         (ParamConf.Params pc)
          | None => false
          end
  then Ret (Some "param items must have valid cname")
  else Validate ncc.

(** The row that [Update] writes over [ncc], or the error. *)
Definition Channel_Update (now : Z) ncc ref : go (result NotifyChannelConfig) :=
  let ref := ref <| NChan.ID := NChan.ID ncc |> <| NChan.CreateAt := NChan.CreateAt ncc |>
                 <| NChan.CreateBy := NChan.CreateBy ncc |> <| NChan.UpdateAt := now |> in
  err ← Channel_Verify ref;
  Ret (match err with Some e => Err e | None => Ok ref end).

Definition Channel_Upsert (now : Z) (found : result (option NotifyChannelConfig)) ncc : go (upsert NotifyChannelConfig) :=
  match found with
  | Err err => Ret (UError ("notify channel init failed to get message tpl: " +:+ err))
  | Ok None => Ret (UInsert ncc)
  | Ok (Some ch) =>
      if negb (String.eqb (NChan.UpdateBy ch) "") && negb (String.eqb (NChan.UpdateBy ch) "system") then Ret UKeep
      else r ← Channel_Update now ch ncc;
           Ret (match r with Ok row => UUpdate row | Err err => UError err end)
  end.

(** One built-in channel of [InitNotifyChannel]. *)
Definition Channel_Init (now : Z) (found : result (option NotifyChannelConfig)) ncc : go (upsert NotifyChannelConfig) :=
  Channel_Upsert now found
    (ncc <| NChan.CreateBy := "system" |> <| NChan.CreateAt := now |>
         <| NChan.UpdateBy := "system" |> <| NChan.UpdateAt := now |>).

(** ** [GetHTTPClient] *)

Definition or_default (d v : Z) : Z := if v =? 0 then d else v.

(** The defaults that are written into the configuration. *)
Definition http_request_defaults (c : HTTPRequestConfig) : HTTPRequestConfig :=
  c <| HttpReq.Concurrency := or_default 5 (HttpReq.Concurrency c) |>
    <| HttpReq.RetryTimes := or_default 3 (HttpReq.RetryTimes c) |>
    <| HttpReq.RetryInterval := or_default 100 (HttpReq.RetryInterval c) |>.

Definition client_timeout ncc (rc : ReqConf.RequestConfig) (c : HTTPRequestConfig) : Z :=
  let timeout := match String.eqb (NChan.RequestType ncc) "flashduty", ReqConf.FlashDutyRequestConfig rc with
                 | true, Some f => if 0 <? FlashReq.Timeout f then FlashReq.Timeout f else HttpReq.Timeout c
                 | _, _ => HttpReq.Timeout c
                 end in
  or_default 10000 timeout.

Definition client_proxy ncc (rc : ReqConf.RequestConfig) (c : HTTPRequestConfig) : string :=
  let proxy := match String.eqb (NChan.RequestType ncc) "flashduty", ReqConf.FlashDutyRequestConfig rc with
               | true, Some f => if negb (String.eqb (FlashReq.Proxy f) "") then FlashReq.Proxy f else HttpReq.Proxy c
               | _, _ => HttpReq.Proxy c
               end in
  match String.eqb (NChan.RequestType ncc) "pagerduty", ReqConf.PagerDutyRequestConfig rc with
  | true, Some p => if negb (String.eqb (PagerReq.Proxy p) "") then PagerReq.Proxy p else proxy
  | _, _ => proxy
  end.

(** The channel, whose configuration the call completes in place, and the client.
    The text of the first error also shows the channel. *)
Definition GetHTTPClient `{UrlLib} ncc : NotifyChannelConfig * result HttpClient :=
  match NChan.RequestConfig ncc with
  | Some rc =>
      match ReqConf.HTTPRequestConfig rc with
      | Some c =>
          let ncc := ncc <| NChan.RequestConfig :=
                       Some (rc <| ReqConf.HTTPRequestConfig := Some (http_request_defaults c) |>) |> in
          let timeout := client_timeout ncc rc c in
          let proxy := client_proxy ncc rc c in
          let skip := match HttpReq.TLS c with Some t => TlsConf.SkipVerify t | None => false end in
          (ncc, if negb (String.eqb proxy "") then
                  match url_Parse proxy with
                  | Err err => Err ("invalid proxy URL: " +:+ err)
                  | Ok _ => Ok (mkHttpClient timeout false skip proxy)
                  end
                else Ok (mkHttpClient timeout false skip ""))
      | None => (ncc, Err "http request config not found")
      end
  | None => (ncc, Err "http request config not found")
  end.
End channels.

(** ** Signatures *)

(** [url.QueryEscape]. *)
Definition unreserved (c : ascii) : bool :=
  ident_char c || Ascii.eqb c "." || Ascii.eqb c "~".
Definition hex_digit (n : nat) : ascii := ascii_of_nat (if (n <? 10)%nat then 48 + n else 55 + n).
Definition hex_escape (c : ascii) : string :=
  let n := nat_of_ascii c in String "%" (String (hex_digit (n / 16)) (String (hex_digit (n mod 16)) "")).
Definition query_escape_char (c : ascii) : string :=
  if unreserved c then String c "" else if Ascii.eqb c " " then "+" else hex_escape c.
Fixpoint QueryEscape (s : string) : string :=
  match s with "" => "" | String c s => query_escape_char c +:+ QueryEscape s end.

Definition percentEncode (str : string) : string :=
  let encoded := QueryEscape str in
  let encoded := replace_all encoded "+" "%20" in
  let encoded := replace_all encoded "*" "%2A" in
  replace_all encoded "%7E" "~".

(** SHA-256, HMAC with it, and hexadecimal text. *)
Class HashLib := {
  sha256 : string → string;
  hmac_sha256 : string → string → string;
  hex_EncodeToString : string → string
}.

Definition nl : string := String (ascii_of_nat 10) "".

(** [m[k]] of a map of strings. *)
Definition get (m : gmap string string) (k : string) : string := default "" (m !! k).

Section signatures.
Context `{GR : GoRange, UC : UnicodeCase, HL : HashLib}.

Definition canonical_query (queryParams : gmap string string) : string :=
  join (sort_strings (map (λ kv, percentEncode (fst kv) +:+ "=" +:+ percentEncode (snd kv)) (go_range queryParams))) "&".

(** The headers that are signed, with their names in lower case. *)
Definition signed_headers (headers : gmap string string) : list (string * string) :=
  List.filter (λ kv, String.eqb (fst kv) "host" || String.eqb (fst kv) "content-type" || has_prefix (fst kv) "x-acs-")
    (map (λ kv, (to_lower (fst kv), snd kv)) (go_range headers)).

(** The signature, and the names of the signed headers. *)
Definition getSignature (accessKeySecret httpMethod canonicalURI : string) (headers queryParams : gmap string string)
    (body : string) : string * string :=
  let signed := signed_headers headers in
  let canonicalHeaders := sort_strings (map (λ kv, fst kv +:+ ":" +:+ trim_space (snd kv)) signed) in
  let signedHeaders := sort_strings (map fst signed) in
  let canonicalHeadersStr := join canonicalHeaders nl +:+ nl in
  let signedHeadersStr := join signedHeaders ";" in
  let bodyHash := hex_EncodeToString (sha256 body) in
  let canonicalRequest := join [httpMethod; canonicalURI; canonical_query queryParams; canonicalHeadersStr;
                                signedHeadersStr; bodyHash] nl in
  let stringToSign := "ACS3-HMAC-SHA256" +:+ nl +:+ hex_EncodeToString (sha256 canonicalRequest) in
  (hex_EncodeToString (hmac_sha256 accessKeySecret stringToSign), signedHeadersStr).

Definition ali_params (ident : string) (params : gmap string string) : gmap string string :=
  let pick ks := list_to_map (map (λ k, (k, get params k)) ks) in
  if String.eqb ident "ali-sms" then pick ["PhoneNumbers"; "SignName"; "TemplateCode"; "TemplateParam"]
  else if String.eqb ident "ali-voice" then pick ["CalledNumber"; "TtsCode"; "TtsParam"; "CalledShowNumber"]
  else ∅.

(** [date] is the time in UTC, [nonce] a new UUID. *)
Definition ali_headers (ident : string) (c : HTTPRequestConfig) (date nonce : string) : gmap string string :=
  let headers : gmap string string :=
    {["host" := get (HttpReq.Headers c) "Host"; "x-acs-version" := "2017-05-25"; "x-acs-date" := date;
      "x-acs-signature-nonce" := nonce; "x-acs-content-sha256" := hex_EncodeToString (sha256 "")]} in
  if String.eqb ident "ali-sms" then <["x-acs-action" := "SendSms"]> headers
  else if String.eqb ident "ali-voice" then <["x-acs-action" := "SingleCallByTts"]> headers
  else headers.

(** [Values.Add] and [Values.Del]. *)
Definition query_Add (k v : string) (q : gmap string (list string)) : gmap string (list string) :=
  <[k := default [] (q !! k) ++ [v]]> q.

Definition getAliQuery (ident : string) (c : HTTPRequestConfig) (query : gmap string (list string)) (ak sk : string)
    (params : gmap string string) (date nonce : string) : gmap string (list string) * gmap string string :=
  let queryParams := ali_params ident params in
  let headers := ali_headers ident c date nonce in
  let '(signature, signedHeaders) := getSignature sk "POST" "/" headers queryParams "" in
  let headers := <["Authorization" := "ACS3-HMAC-SHA256 Credential=" +:+ ak +:+ ",SignedHeaders=" +:+ signedHeaders
                                      +:+ ",Signature=" +:+ signature]> headers in
  let query := foldl (λ q kv, query_Add (fst kv) (snd kv) q) query (go_range queryParams) in
  (delete "AccessKeySecret" (delete "AccessKeyId" query), headers).

(** [date] is the day of [timestamp] in UTC. *)
Definition getTxSignature (c : HTTPRequestConfig) (payloadStr : string) (timestamp : Z) (date : string) : string :=
  let h := get (HttpReq.Headers c) in
  let canonicalHeaders := "content-type:application/json" +:+ nl +:+ "host:" +:+ h "Host" +:+ nl +:+ "x-tc-action:"
                          +:+ to_lower (h "X-TC-Action") +:+ nl in
  let canonicalRequest := join [HttpReq.Method c; "/"; ""; canonicalHeaders; "content-type;host;x-tc-action";
                                hex_EncodeToString (sha256 payloadStr)] nl in
  let credentialScope := date +:+ "/" +:+ h "Service" +:+ "/tc3_request" in
  let stringToSign := "TC3-HMAC-SHA256" +:+ nl +:+ itoa timestamp +:+ nl +:+ credentialScope +:+ nl
                      +:+ hex_EncodeToString (sha256 canonicalRequest) in
  let secretDate := hmac_sha256 ("TC3" +:+ h "Secret_Key") date in
  let secretService := hmac_sha256 secretDate (h "Service") in
  let secretSigning := hmac_sha256 secretService "tc3_request" in
  let signature := hex_EncodeToString (hmac_sha256 secretSigning stringToSign) in
  "TC3-HMAC-SHA256 Credential=" +:+ h "Secret_ID" +:+ "/" +:+ credentialScope
  +:+ ", SignedHeaders=content-type;host;x-tc-action, Signature=" +:+ signature.

Definition setTxHeader (c : HTTPRequestConfig) (headers : gmap string string) (payload : string) (timestamp : Z)
    (date : string) : gmap string string :=
  <["Authorization" := getTxSignature c payload timestamp date]>
    (<["X-TC-Timestamp" := itoa timestamp]> headers).
End signatures.

(** ** Templates *)

(** A rendered text, plain or marked as safe for HTML ([template.HTML]), which are
    different types behind an interface. *)
Inductive tpl_value := TString (s : string) | THTML (s : string).

(** What a request is rendered with; [.event] is the first event. *)
Record request_data := mkRequestData {
  rd_sendtos : list string;
  rd_params : gmap string string;
  rd_tpl : gmap string tpl_value;
  rd_events : list AlertCurEvent;
  rd_sendto : option string
}.

Inductive tpl_data :=
| DRequest (d : request_data)
| DEvents (events : list AlertCurEvent) (domain : string).

(** [html/template] and [text/template] with the functions of [tplx]: parsing under
    a name, and executing, which can fail after it wrote something.  [show_data] is
    [%v]. *)
Class TemplateLib := {
  tmpl : Type;
  html_Parse : string → string → result tmpl;
  text_Parse : string → string → result tmpl;
  tmpl_Execute : tmpl → tpl_data → string * option error;
  show_data : tpl_data → string
}.

(** ** Requests *)

(** The query of the URL of a request, and the URL with another query. *)
Class QueryLib := {
  req_Query : string → gmap string (list string);
  req_SetQuery : string → gmap string (list string) → string
}.

(** The clock in seconds, UUIDs, and times as text: the day and the time in UTC, and
    RFC 3339 in the local zone. *)
Class ClockLib (World : Type) := {
  clock_now : World → Z;
  uuid_New : World → World * string;
  utc_day : Z → string;
  utc_time : Z → string;
  rfc3339 : Z → string
}.

Definition request_defs : string :=
  "{{$tpl := .tpl}}{{$sendto := .sendto}}{{$sendtos := .sendtos}}{{$params := .params}}{{$events := .events}}{{$event := .event}}".

Definition needsTemplateRendering (s : string) : bool := contains s "{{" && contains s "}}".

(** The body that is posted to PagerDuty; the custom details are fields of the event
    as they are, besides the time of the first trigger. *)
Record pager_body := mkPagerBody {
  pd_routing_key : string;
  pd_event_action : string;
  pd_dedup_key : string;
  pd_summary : string;
  pd_source : string;
  pd_severity : string;
  pd_group : string;
  pd_component : option Target;
  pd_timestamp : string;
  pd_first_trigger_time : string;
  pd_details : AlertCurEvent;
  pd_links : list (string * string)
}.

(** What a script reads; the text also names the first event. *)
Record script_stdin := mkScriptStdin {
  si_events : list AlertCurEvent;
  si_tpl : gmap string tpl_value;
  si_params : gmap string string;
  si_sendtos : list string
}.

Section sending.
Context {World : Type} `{NW : Network World, CK : ClockLib World, OSI : Os World}.
Context `{GR : GoRange, UC : UnicodeCase, HL : HashLib, TL : TemplateLib, QL : QueryLib}.
Context `{!Json (list AlertCurEvent), !Json pager_body, !Json script_stdin}.
Implicit Types (w : World) (ncc : NotifyChannelConfig) (c : HTTPRequestConfig).

Definition parseRequestBody c (data : request_data) : string * option error :=
  match html_Parse "requestBody" (request_defs +:+ ReqDetail.Body (HttpReq.Request c)) with
  | Err err => ("", Some err)
  | Ok tpl => tmpl_Execute tpl (DRequest data)
  end.

Definition getParsedString (name tplStr : string) (data : request_data) : string :=
  match html_Parse name (request_defs +:+ tplStr) with
  | Err _ => ""
  | Ok tpl =>
      match tmpl_Execute tpl (DRequest data) with
      | (_, Some err) => "failed to parse template: " +:+ err +:+ " data: " +:+ show_data (DRequest data)
      | (body, None) => body
      end
  end.

Definition rendered (name value : string) (data : request_data) : string :=
  if needsTemplateRendering value then getParsedString name value data else value.

Definition replaceVariables c (data : request_data) : string * gmap string string * gmap string string :=
  let render m := map_imap (λ k v, Some (rendered k v data)) m in
  (rendered "url" (HttpReq.URL c) data, render (HttpReq.Headers c), render (ReqDetail.Parameters (HttpReq.Request c))).

Definition is_ali (ident : string) : bool := String.eqb ident "ali-sms" || String.eqb ident "ali-voice".
Definition is_tx (ident : string) : bool := String.eqb ident "tx-sms" || String.eqb ident "tx-voice".

Definition put_headers (headers : gmap string string) (r : Request) : Request :=
  foldl (λ r kv, set_header (fst kv) (snd kv) r) r (go_range headers).

Definition makeHTTPRequest ncc c (url : string) (headers parameters : gmap string string) (body : string) w :
    World * result Request :=
  match NewRequest (HttpReq.Method c) url body with
  | Err err => (w, Err err)
  | Ok req =>
      let query := req_Query url in
      let ident := NChan.Ident ncc in
      let '(w, req, query) :=
        if is_tx ident then
          let now := clock_now w in
          (w, put_headers (setTxHeader c headers body now (utc_day now)) req, query)
        else if is_ali ident then
          let '(w', nonce) := uuid_New w in
          let ps := ReqDetail.Parameters (HttpReq.Request c) in
          let '(query, headers) := getAliQuery ident c query (get ps "AccessKeyId") (get ps "AccessKeySecret")
                                     parameters (utc_time (clock_now w)) nonce in
          (w', put_headers headers (req <| rq_body := "" |>), query)
        else (w, put_headers headers req, query) in
      let query := if is_ali ident then query
                   else foldl (λ q kv, query_Add (fst kv) (snd kv) q) query (go_range parameters) in
      (w, Ok (req <| rq_url := req_SetQuery url query |>))
  end.

(** ** [SendHTTP] *)

Definition response_text (resp : Response) : string :=
  "status_code:" +:+ itoa (StatusCode resp) +:+ ", response:" +:+ rs_body resp.

(** The retry loop; only a call without a response is tried again. *)
Fixpoint http_attempts (n : nat) (client : HttpClient) ncc c (url : string) (headers parameters : gmap string string)
    (body lastErrorMessage : string) w : World * (string * option error) :=
  match n with
  | O => (w, (lastErrorMessage, Some ("all retries failed, last error: " +:+ lastErrorMessage)))
  | S n =>
      match makeHTTPRequest ncc c url headers parameters body w with
      | (w, Err err) => (w, ("failed to create request. error: " +:+ err, Some err))
      | (w, Ok req) =>
          match http_do client w req with
          | (w, _, Err err) => http_attempts n client ncc c url headers parameters body err w
          | (w, _, Ok resp) =>
              (w, (response_text resp,
                   if StatusCode resp =? 200 then None
                   else Some ("failed to send request, status code: " +:+ itoa (StatusCode resp) +:+ ", body: " +:+ rs_body resp)))
          end
      end
  end.

Definition request_data_of (events : list AlertCurEvent) (tpl : gmap string tpl_value) (params : gmap string string)
    (sendtos : list string) : request_data :=
  mkRequestData sendtos params tpl events (head sendtos).

Definition SendHTTP ncc (events : list AlertCurEvent) (tpl : gmap string tpl_value) (params : gmap string string)
    (sendtos : list string) (client : option HttpClient) w : go (World * (string * option error)) :=
  match client with
  | None => Ret (w, ("", Some "http client not found"))
  | Some client =>
      if (length events =? 0)%nat then Ret (w, ("", Some "events is empty"))
      else
        c ← request_config ncc ReqConf.HTTPRequestConfig;
        match c with
        | None => Panic
        | Some c =>
            let data := request_data_of events tpl params sendtos in
            match parseRequestBody c data with
            | (_, Some err) => Ret (w, ("", Some err))
            | (body, None) =>
                let '(url, headers, parameters) := replaceVariables c data in
                Ret (http_attempts (Z.to_nat (HttpReq.RetryTimes c)) client ncc c url headers parameters body "" w)
            end
        end
  end.

(** ** [SendFlashDuty] *)

Definition makeFlashDutyRequest (url body : string) (channelID : Z) : result Request :=
  match NewRequest "POST" url body with
  | Err err => Err err
  | Ok req =>
      let query := req_Query url in
      let query := if negb (channelID =? 0) then query_Add "channel_id" (itoa channelID) query else query in
      Ok (set_header "Content-Type" "application/json" (req <| rq_url := req_SetQuery url query |>))
  end.

(** The body of a response, or the text of the error of reading it. *)
Definition body_or_error (resp : Response) : string :=
  match rs_error resp with Some err => "failed to read response. error: " +:+ err | None => rs_body resp end.

Fixpoint flashduty_attempts (n : nat) (client : HttpClient) (url body : string) (channelID : Z) (last : string) w :
    World * (string * option error) :=
  match n with
  | O => (w, (last, Some "failed to send request"))
  | S n =>
      match makeFlashDutyRequest url body channelID with
      | Err err => (w, ("failed to create request. error: " +:+ err, Some err))
      | Ok req =>
          match http_do client w req with
          | (w, _, Err err) => flashduty_attempts n client url body channelID err w
          | (w, _, Ok resp) => (w, ("status_code:" +:+ itoa (StatusCode resp) +:+ ", response:" +:+ body_or_error resp, None))
          end
      end
  end.

Definition retry_times (configured : Z) : Z := if 0 <? configured then configured else 3.

Definition SendFlashDuty ncc (events : list AlertCurEvent) (channelID : Z) (client : option HttpClient) w :
    go (World * (string * option error)) :=
  match client with
  | None => Ret (w, ("", Some "http client not found"))
  | Some client =>
      match json_marshal events with
      | Err err => Ret (w, ("", Some err))
      | Ok body =>
          f ← request_config ncc ReqConf.FlashDutyRequestConfig;
          match f with
          | None => Panic
          | Some f =>
              Ret (flashduty_attempts (S (Z.to_nat (retry_times (FlashReq.RetryTimes f)))) client
                     (FlashReq.IntegrationUrl f) body channelID "" w)
          end
      end
  end.

(** ** [SendPagerDuty] *)

Definition pager_severity (severity : Z) : string :=
  if severity =? 2 then "error" else if severity =? 3 then "warning" else "critical".

Definition pager_body_of (routingKey siteUrl : string) (event : AlertCurEvent) : pager_body :=
  mkPagerBody routingKey (if Event.IsRecovered event then "resolve" else "trigger") (Event.Hash event)
    (Event.RuleName event) (Event.Cluster event) (pager_severity (Event.Severity event)) (Event.GroupName event)
    (Event.Target event) (rfc3339 (Event.TriggerTime event)) (rfc3339 (Event.FirstTriggerTime event)) event
    [(siteUrl +:+ "/alert-his-events/" +:+ itoa (Event.Id event), "Event Detail");
     (siteUrl +:+ "/alert-mutes/add?__event_id=" +:+ itoa (Event.Id event), "Mute this alert")].

Definition pagerduty_endpoint : string := "https://events.pagerduty.com/v2/enqueue".

(** The attempts for one event: the last error, empty after a success, and the
    summary of the last response. *)
Fixpoint pagerduty_attempts (n : nat) (client : HttpClient) (body lastError lastResp : string) w :
    World * (string * string) :=
  match n with
  | O => (w, (lastError, lastResp))
  | S n =>
      match NewRequest "POST" pagerduty_endpoint body with
      | Err err => pagerduty_attempts n client body err lastResp w
      | Ok req =>
          match http_do client w (set_header "Content-Type" "application/json" req) with
          | (w, _, Err err) => pagerduty_attempts n client body err lastResp w
          | (w, _, Ok resp) =>
              let summary := "status_code:" +:+ itoa (StatusCode resp) +:+ ", response:" +:+ body_or_error resp in
              if (StatusCode resp =? 200) || (StatusCode resp =? 202) then (w, ("", summary))
              else pagerduty_attempts n client body summary summary w
          end
      end
  end.

(** The answer and the failure, if any, for one event. *)
Definition pagerduty_event (attempts : nat) (client : HttpClient) (routingKey siteUrl : string) (event : AlertCurEvent) w :
    World * (string * option string) :=
  let id := "event " +:+ itoa (Event.Id event) in
  match json_marshal (pager_body_of routingKey siteUrl event) with
  | Err err => (w, (id +:+ ": marshal error: " +:+ err, Some (id +:+ " marshal error: " +:+ err)))
  | Ok body =>
      let '(w, (lastError, lastResp)) := pagerduty_attempts attempts client body "" "" w in
      let lastResp := if String.eqb lastResp "" && negb (String.eqb lastError "") then lastError else lastResp in
      (w, (id +:+ ": " +:+ lastResp, if negb (String.eqb lastError "") then Some (id +:+ ": " +:+ lastError) else None))
  end.

Fixpoint pagerduty_events (attempts : nat) (client : HttpClient) (routingKey siteUrl : string)
    (events : list AlertCurEvent) (responses failedMsgs : list string) w : World * (list string * list string) :=
  match events with
  | [] => (w, (responses, failedMsgs))
  | event :: events =>
      let '(w, (resp, failed)) := pagerduty_event attempts client routingKey siteUrl event w in
      pagerduty_events attempts client routingKey siteUrl events (responses ++ [resp])
        (failedMsgs ++ option_list failed) w
  end.

Definition SendPagerDuty ncc (events : list AlertCurEvent) (routingKey siteUrl : string) (client : option HttpClient) w :
    World * (string * option error) :=
  match client with
  | None => (w, ("", Some "http client not found"))
  | Some client =>
      match NChan.RequestConfig ncc ≫= ReqConf.PagerDutyRequestConfig with
      | None => (w, ("", Some "pagerduty request config not found"))
      | Some p =>
          let attempts := Z.to_nat (retry_times (PagerReq.RetryTimes p) + 1) in
          let '(w, (responses, failedMsgs)) := pagerduty_events attempts client routingKey siteUrl events [] [] w in
          (w, (join responses " | ",
               if (0 <? length failedMsgs)%nat then Some (join failedMsgs " | ") else None))
      end
  end.

(** ** [SendScript] *)

Definition getStdinBytes (events : list AlertCurEvent) (tpl : gmap string tpl_value) (params : gmap string string)
    (sendtos : list string) : string :=
  if (length events =? 0)%nat then ""
  else match json_marshal (mkScriptStdin events tpl params sendtos) with Ok bs => bs | Err _ => "" end.

(** The path of the script, written to a file of the channel unless the file has it
    already.  [cwd] joins the working directory. *)
Definition channel_script (cwd : string → string) (id : Z) (config : ScriptReq.ScriptRequestConfig) w :
    World * result string :=
  if negb (String.eqb (ScriptReq.Path config) "") then (w, Ok (ScriptReq.Path config))
  else
    let fpath := ".notify_script_" +:+ itoa id in
    let rewrite := if file_IsExist w fpath then
                     match file_ToString w fpath with
                     | Err err => Err ("failed to read script file: " +:+ err)
                     | Ok old => Ok (negb (String.eqb old (ScriptReq.Script config)))
                     end
                   else Ok true in
    match rewrite with
    | Err err => (w, Err err)
    | Ok false => (w, Ok (cwd fpath))
    | Ok true =>
        match file_WriteString w fpath (ScriptReq.Script config) with
        | (w, Some err) => (w, Err ("failed to write script file: " +:+ err))
        | (w, None) =>
            match os_Chmod w fpath with
            | (w, Some err) => (w, Err ("failed to chmod script file: " +:+ err))
            | (w, None) => (w, Ok (cwd fpath))
            end
        end
    end.

(** [cmdx.RunTimeout]: the output, the error and whether the time ran out. *)
Definition RunTimeout (fpath stdin : string) (timeout : Z) w : World * (string * option error * bool) :=
  match os_Start w fpath stdin with
  | (w, Some err) => (w, ("", Some err, false))
  | (w, None) => os_Wait w timeout
  end.

(** The command line, the output and the error; [cmd_String] is the text of a command. *)
Definition SendScript (cwd cmd_String : string → string) ncc (events : list AlertCurEvent)
    (tpl : gmap string tpl_value) (params : gmap string string) (sendtos : list string) w :
    go (World * (string * string * option error)) :=
  config ← request_config ncc ReqConf.ScriptRequestConfig;
  match config with
  | None => Panic
  | Some config =>
      if String.eqb (ScriptReq.Script config) "" && String.eqb (ScriptReq.Path config) ""
      then Ret (w, ("", "", Some "script or path is empty"))
      else
        match channel_script cwd (NChan.ID ncc) config w with
        | (w, Err err) => Ret (w, ("", "", Some err))
        | (w, Ok fpath) =>
            let '(w, (out, err, isTimeout)) :=
              RunTimeout fpath (getStdinBytes events tpl params sendtos) (ScriptReq.Timeout config) w in
            Ret (w, (cmd_String fpath, truncate_output out,
                     if isTimeout then Some (default "timeout and killed process" err)
                     else option_map (λ e, "failed to execute script: " +:+ e) err))
        end
  end.

(** ** Mail *)

(** [tpl[k].(string)] panics on a missing text and on one of type [template.HTML]. *)
Definition tpl_string (tpl : gmap string tpl_value) (k : string) : go string :=
  match tpl !! k with Some (TString s) => Ret s | _ => Panic end.

Record EmailContext := mkEmailContext {
  ec_NotifyRuleId : Z; ec_Events : list AlertCurEvent; ec_Mail : email_message
}.

Definition mail_of ncc (tpl : gmap string tpl_value) (sendtos : list string) : go email_message :=
  smtp ← request_config ncc ReqConf.SMTPRequestConfig;
  match smtp with
  | None => Panic
  | Some smtp =>
      subject ← tpl_string tpl "subject";
      content ← tpl_string tpl "content";
      Ret (mkEmailMessage (SmtpReq.From smtp) sendtos subject content)
  end.

(** What [SendEmail] sends on the channel of the mail goroutine. *)
Definition SendEmail ncc (notifyRuleId : Z) (events : list AlertCurEvent) (tpl : gmap string tpl_value)
    (sendtos : list string) : go EmailContext :=
  mail ← mail_of ncc tpl sendtos; Ret (mkEmailContext notifyRuleId events mail).
End sending.

(** ** Message templates: [models/message_tpl.go] *)

Module MsgTpl.
Record MessageTemplate := mkMessageTemplate {
  ID : Z;
  Name : string;
  Ident : string;
  Content : gmap string string;
  UserGroupIds : list Z;
  NotifyChannelIdent : string;
  Private : Z;
  Weight : Z;
  CreateAt : Z;
  CreateBy : string;
  UpdateAt : Z;
  UpdateBy : string
}.
#[global] Instance MessageTemplate_eta : Settable MessageTemplate := λ r,
  mkMessageTemplate (ID r) (Name r) (Ident r) (Content r) (UserGroupIds r) (NotifyChannelIdent r) (Private r)
    (Weight r) (CreateAt r) (CreateBy r) (UpdateAt r) (UpdateBy r).
End MsgTpl.
Notation MessageTemplate := MsgTpl.MessageTemplate.

Definition Template_Verify (t : MessageTemplate) : option error :=
  if String.eqb (MsgTpl.Name t) "" then Some "template name cannot be empty"
  else if String.eqb (MsgTpl.Ident t) "" then Some "template identifier cannot be empty"
  else if negb (ident_ok (MsgTpl.Ident t))
  then Some ("template identifier must be ^[a-zA-Z0-9_-]+$, current: " +:+ MsgTpl.Ident t)
  else if bool_decide (is_Some (MsgTpl.Content t !! "")) then Some "template content cannot have empty keys"
  else if (MsgTpl.Private t =? 1) && (length (MsgTpl.UserGroupIds t) =? 0)%nat
  then Some "user group IDs of private msg tpl cannot be empty"
  else if negb (MsgTpl.Private t =? 0) && negb (MsgTpl.Private t =? 1) then Some "private flag must be 0 or 1"
  else None.

Definition Template_Update (now : Z) (t ref : MessageTemplate) : result MessageTemplate :=
  if negb (String.eqb (MsgTpl.Ident t) (MsgTpl.Ident ref)) then Err "cannot update ident"
  else
    let ref := ref <| MsgTpl.ID := MsgTpl.ID t |> <| MsgTpl.CreateAt := MsgTpl.CreateAt t |>
                   <| MsgTpl.CreateBy := MsgTpl.CreateBy t |> <| MsgTpl.UpdateAt := now |> in
    match Template_Verify ref with Some e => Err e | None => Ok ref end.

Definition Template_Upsert (now : Z) (found : result (option MessageTemplate)) (t : MessageTemplate) :
    upsert MessageTemplate :=
  match found with
  | Err err => UError ("failed to get message tpl: " +:+ err)
  | Ok None => UInsert t
  | Ok (Some tpl) =>
      if negb (String.eqb (MsgTpl.UpdateBy tpl) "") && negb (String.eqb (MsgTpl.UpdateBy tpl) "system") then UKeep
      else match Template_Update now tpl t with Ok row => UUpdate row | Err err => UError err end
  end.

Definition event_defs : string :=
  "{{ $events := .events }}{{ $event := index $events 0 }}{{ $labels := $event.TagsMap }}{{ $value := $event.TriggerValue }}".

Definition quote_char : string := String (ascii_of_nat 34) "".
Definition backslash : string := String (ascii_of_nat 92) "".
Definition cr : string := String (ascii_of_nat 13) "".

(** Quotes and line ends are escaped for the JSON body the text is put into. *)
Definition escape_message (body : string) : string :=
  let escaped := replace_all body quote_char (backslash +:+ quote_char) in
  let escaped := replace_all escaped nl (backslash +:+ "n") in
  replace_all escaped cr (backslash +:+ "r").

Section templates.
Context `{TL : TemplateLib}.

(** One text of a template; [None] leaves the key out. *)
Definition render_text (ident key msgTpl : string) (data : tpl_data) : option tpl_value :=
  let text := event_defs +:+ msgTpl in
  if String.eqb ident "email" then
    match text_Parse key text with
    | Err err => Some (TString ("failed to parse template: " +:+ err))
    | Ok tpl =>
        match tmpl_Execute tpl data with
        | (_, Some err) => Some (TString ("failed to execute template: " +:+ err))
        | (body, None) => Some (TString body)
        end
    end
  else if String.eqb ident "slackwebhook" || String.eqb ident "slackbot" then
    match html_Parse key text with
    | Err _ => None
    | Ok tpl =>
        match tmpl_Execute tpl data with
        | (_, Some _) => None
        | (body, None) => Some (THTML (replace_all (escape_message body) "&lt;" "<"))
        end
    end
  else
    match html_Parse key text with
    | Err err => Some (TString ("failed to parse template: " +:+ err))
    | Ok tpl =>
        match tmpl_Execute tpl data with
        | (_, Some err) => Some (TString ("failed to execute template: " +:+ err))
        | (body, None) => Some (THTML (escape_message body))
        end
    end.

(** A nil template renders to a nil map. *)
Definition RenderEvent (t : option MessageTemplate) (events : list AlertCurEvent) (siteUrl : string) :
    gmap string tpl_value :=
  match t with
  | None => ∅
  | Some t => map_imap (λ key msgTpl, render_text (MsgTpl.NotifyChannelIdent t) key msgTpl (DEvents events siteUrl))
                (MsgTpl.Content t)
  end.
End templates.

(** ** Signatures do what the providers ask for *)

(** The percent encoding of RFC 3986, and its inverse. *)
Definition rfc3986_char (c : ascii) : string := if unreserved c then String c "" else hex_escape c.
Fixpoint rfc3986 (s : string) : string :=
  match s with "" => "" | String c s => rfc3986_char c +:+ rfc3986 s end.

Definition hex_value (c : ascii) : nat :=
  let n := nat_of_ascii c in if (n <=? 57)%nat then n - 48 else n - 55.
Fixpoint percent_decode (s : string) : string :=
  match s with
  | String c s =>
      match Ascii.eqb c "%", s with
      | true, String a (String b s) => String (ascii_of_nat (16 * hex_value a + hex_value b)) (percent_decode s)
      | _, _ => String c (percent_decode s)
      end
  | "" => ""
  end.

(** A fact about every byte, by cases. *)
Ltac every_byte c := destruct c as [[] [] [] [] [] [] [] []]; vm_compute; reflexivity.

Lemma query_escape_char_cases c :
  (query_escape_char c = "+" ∧ rfc3986_char c = "%20") ∨
  (query_escape_char c = rfc3986_char c ∧ str_forall (char_neb "+") (rfc3986_char c) = true).
Proof.
  unfold query_escape_char, rfc3986_char. destruct (unreserved c) eqn:Hu.
  - right. split; [done|]. revert Hu. destruct c as [[] [] [] [] [] [] [] []]; vm_compute; congruence.
  - destruct (Ascii.eqb_spec c " ") as [->|]; [by left|]. right. split; [done|]. every_byte c.
Qed.

Lemma rfc3986_char_star c : str_forall (char_neb "*") (rfc3986_char c) = true.
Proof. every_byte c. Qed.

(** A tilde is never escaped. *)
Lemma rfc3986_char_tilde c s :
  replace_all (rfc3986_char c +:+ s) "%7E" "~" = rfc3986_char c +:+ replace_all s "%7E" "~".
Proof.
  unfold rfc3986_char. destruct (unreserved c) eqn:Hu.
  - apply replace_all_word. revert Hu. destruct c as [[] [] [] [] [] [] [] []]; vm_compute; congruence.
  - set (digits := String (hex_digit (nat_of_ascii c / 16)) (String (hex_digit (nat_of_ascii c mod 16)) "")).
    change (hex_escape c +:+ s) with (String "%" (digits +:+ s)).
    change (hex_escape c +:+ replace_all s "%7E" "~") with (String "%" (digits +:+ replace_all s "%7E" "~")).
    rewrite replace_all_skip.
    + f_equal. apply replace_all_word. unfold digits. every_byte c.
    + revert Hu. destruct c as [[] [] [] [] [] [] [] []]; vm_compute; congruence.
Qed.

Lemma percentEncode_eq str : percentEncode str = rfc3986 str.
Proof.
  unfold percentEncode.
  assert (replace_all (QueryEscape str) "+" "%20" = rfc3986 str) as ->.
  { induction str as [|c str IH]; [done|]. cbn [QueryEscape rfc3986].
    destruct (query_escape_char_cases c) as [[-> ->]|[-> Hw]].
    - change "+" with (String "+" "") at 1. rewrite replace_all_sep. by rewrite IH.
    - rewrite replace_all_word by done. by rewrite IH. }
  assert (replace_all (rfc3986 str) "*" "%2A" = rfc3986 str) as ->.
  { induction str as [|c str IH]; [done|]. cbn [rfc3986]. rewrite replace_all_word by apply rfc3986_char_star. by rewrite IH. }
  induction str as [|c str IH]; [done|]. cbn [rfc3986]. by rewrite rfc3986_char_tilde, IH.
Qed.

Lemma percent_decode_char c s : percent_decode (rfc3986_char c +:+ s) = String c (percent_decode s).
Proof.
  unfold rfc3986_char. destruct (unreserved c) eqn:Hu.
  - change (percent_decode (String c "" +:+ s)) with (percent_decode (String c s)).
    assert (Ascii.eqb c "%" = false) as Hc
      by (revert Hu; destruct c as [[] [] [] [] [] [] [] []]; vm_compute; congruence).
    cbn [percent_decode]. by rewrite Hc.
  - change (percent_decode (hex_escape c +:+ s)) with
      (String (ascii_of_nat (16 * hex_value (hex_digit (nat_of_ascii c / 16)) + hex_value (hex_digit (nat_of_ascii c mod 16))))
         (percent_decode s)). f_equal. every_byte c.
Qed.

(** [percentEncode] is the percent encoding of RFC 3986, which the API of the SMS and
    voice provider asks for, and can be decoded again: distinct parameters never get
    the same text. *)
Theorem percentEncode_rfc3986 str : percentEncode str = rfc3986 str ∧ percent_decode (percentEncode str) = str.
Proof.
  rewrite percentEncode_eq. split; [done|]. induction str as [|c str IH]; [done|].
  cbn [rfc3986]. by rewrite percent_decode_char, IH.
Qed.

(** The signature does not depend on the order in which the maps of headers and
    parameters are ranged over. *)
Theorem getSignature_order `{UC : UnicodeCase, HL : HashLib} (G1 G2 : GoRange) secret method uri headers query body :
  getSignature (GR := G1) secret method uri headers query body = getSignature (GR := G2) secret method uri headers query body.
Proof.
  assert (∀ m : gmap string string, @go_range G1 _ _ _ _ m ≡ₚ @go_range G2 _ _ _ _ m) as Hp
    by (intros m; by rewrite !go_range_perm).
  assert (signed_headers (GR := G1) headers ≡ₚ signed_headers (GR := G2) headers) as Hs.
  { unfold signed_headers. apply List_filter_perm, Permutation_map, Hp. }
  unfold getSignature, canonical_query.
  rewrite (sort_strings_canonical _ _ (Permutation_map _ (Hp query))).
  rewrite (sort_strings_canonical _ _ (Permutation_map (λ kv, fst kv +:+ ":" +:+ trim_space (snd kv)) Hs)).
  by rewrite (sort_strings_canonical _ _ (Permutation_map fst Hs)).
Qed.
