(* ===== verification/ChannelCache.v ===== *)
(** * The cache of notification channels: [memsto/notify_channel_cache.go]

    Beside the copies of the channels, the cache keeps what they need to send: a
    client for HTTP channels, a queue of tasks with goroutines that consume it, and
    for mail a Go channel with the goroutine that reads it.  [Set] stops and starts
    them when channels change.  Go channels, queues and goroutines are addresses
    taken from a counter; a goroutine is stopped by closing its quit channel, which
    panics when it is closed already. *)

From S2P Require Import Prelude GoStrings Json Models Http Queues Senders Callbacks Channels.
Open Scope string_scope.
Open Scope Z_scope.
Open Scope list_scope.

Record NotifyTask := mkNotifyTask {
  nt_Events : list AlertCurEvent;
  nt_NotifyRuleId : Z;
  nt_NotifyChannel : NotifyChannelConfig;
  nt_TplContent : gmap string tpl_value;
  nt_CustomParams : gmap string string;
  nt_Sendtos : list string
}.

(** The limited list of toolkits. *)
Class TaskQueueLib := {
  tqueue : Type;
  tq_new : nat → tqueue;
  tq_items : tqueue → list NotifyTask;
  tq_PushFront : tqueue → NotifyTask → tqueue * bool;
  tq_PopBack : tqueue → tqueue * option NotifyTask;
  tq_new_spec : ∀ n, tq_items (tq_new n) = [];
  tq_PushFront_spec : ∀ q t, tq_items (fst (tq_PushFront q t)) =
    if snd (tq_PushFront q t) then t :: tq_items q else tq_items q;
  tq_PopBack_spec : ∀ q, tq_items q = tq_items (fst (tq_PopBack q)) ++ option_list (snd (tq_PopBack q));
  tq_PopBack_None : ∀ q, snd (tq_PopBack q) = None → tq_items q = []
}.

(** ** Goroutines with a channel and a quit channel each *)

(** By channel id: what the goroutines read, and their quit channel; and all the
    goroutines that were started. *)
Record slots := mkSlots {
  sl_chan : gmap Z nat;
  sl_quit : gmap Z nat;
  sl_workers : list (Z * nat * nat)
}.
#[global] Instance slots_eta : Settable slots := λ r, mkSlots (sl_chan r) (sl_quit r) (sl_workers r).

(** Stopping: the quit channel is closed, and both are forgotten. *)
Definition slot_stop (id : Z) (closed : gset nat) (sl : slots) : go (gset nat * slots) :=
  match sl_quit sl !! id with
  | Some quit =>
      if decide (quit ∈ closed) then Panic
      else Ret ({[quit]} ∪ closed,
                sl <| sl_quit := delete id (sl_quit sl) |> <| sl_chan := delete id (sl_chan sl) |>)
  | None => Ret (closed, sl)
  end.

(** Starting [n] goroutines on the new channel [ch] with the quit channel [quit]. *)
Definition slot_start (id : Z) (n : nat) (ch quit : nat) (sl : slots) : slots :=
  mkSlots (<[id := ch]> (sl_chan sl)) (<[id := quit]> (sl_quit sl))
    (sl_workers sl ++ replicate n (id, ch, quit)).

(** ** The cache *)

Record ncache `{TaskQueueLib} := mkNcache {
  nc_channels : gmap Z NotifyChannelConfig;
  nc_http : slots;
  nc_smtp : slots;
  nc_clients : gmap Z HttpClient;
  nc_store : gmap nat tqueue;
  nc_closed : gset nat;
  nc_next : nat;
  nc_statTotal : Z;
  nc_statLastUpdated : Z
}.

Definition http_conf (ch : NotifyChannelConfig) : option HTTPRequestConfig :=
  NChan.RequestConfig ch ≫= ReqConf.HTTPRequestConfig.
Definition smtp_conf (ch : NotifyChannelConfig) : option SmtpReq.SMTPRequestConfig :=
  NChan.RequestConfig ch ≫= ReqConf.SMTPRequestConfig.

Section cache.
Context `{TQ : TaskQueueLib, GR : GoRange, UL : UrlLib}.
#[global] Instance ncache_eta : Settable ncache := λ r,
  mkNcache _ (nc_channels r) (nc_http r) (nc_smtp r) (nc_clients r) (nc_store r) (nc_closed r) (nc_next r)
    (nc_statTotal r) (nc_statLastUpdated r).
Implicit Types s : ncache.

Definition NewNotifyChannelCache : ncache :=
  mkNcache _ ∅ (mkSlots ∅ ∅ []) (mkSlots ∅ ∅ []) ∅ ∅ ∅ 0 (-1) (-1).

(** [stopChannelResources]: the consumers, then the mail goroutine. *)
Definition stopChannelResources (id : Z) s : go ncache :=
  '(closed, http) ← slot_stop id (nc_closed s) (nc_http s);
  '(closed, smtp) ← slot_stop id closed (nc_smtp s);
  Ret (s <| nc_closed := closed |> <| nc_http := http |> <| nc_smtp := smtp |>).

(** One channel of [removeDeletedChannels]; the queue and the client are deleted in
    any case. *)
Definition remove_channel (id : Z) s : go ncache :=
  s ← stopChannelResources id s;
  Ret (s <| nc_http := (nc_http s) <| sl_chan := delete id (sl_chan (nc_http s)) |> |>
         <| nc_clients := delete id (nc_clients s) |>
         <| nc_channels := delete id (nc_channels s) |>).

Fixpoint remove_channels (ids : list Z) s : go ncache :=
  match ids with
  | [] => Ret s
  | id :: ids => s ← remove_channel id s; remove_channels ids s
  end.

Definition removeDeletedChannels (newChannels : gmap Z NotifyChannelConfig) s : go ncache :=
  remove_channels (List.filter (λ id, negb (bool_decide (is_Some (newChannels !! id))))
                     (go_range (nc_channels s)).*1) s.

(** [startHttpChannel]: a queue, a quit channel, and as many consumers as the
    channel is configured for. *)
Definition startHttpChannel (id : Z) (ch : NotifyChannelConfig) s : ncache :=
  match http_conf ch with
  | None => s
  | Some c =>
      let q := nc_next s in
      s <| nc_store := <[q := tq_new 100000]> (nc_store s) |>
        <| nc_http := slot_start id (Z.to_nat (HttpReq.Concurrency c)) q (S q) (nc_http s) |>
        <| nc_next := S (S q) |>
  end.

Definition start_smtp (id : Z) (ch : NotifyChannelConfig) s : ncache :=
  match smtp_conf ch with
  | None => s
  | Some _ =>
      let c := nc_next s in
      s <| nc_smtp := slot_start id 1 c (S c) (nc_smtp s) |> <| nc_next := S (S c) |>
  end.

(** The client of a channel; without one, or when it cannot be made, the entry
    stays as it is.  Making it completes the configuration of the channel. *)
Definition put_client (id : Z) (ch : NotifyChannelConfig) s : NotifyChannelConfig * ncache :=
  match http_conf ch with
  | None => (ch, s)
  | Some _ =>
      match GetHTTPClient ch with
      | (ch, Ok cli) => (ch, s <| nc_clients := <[id := cli]> (nc_clients s) |>)
      | (ch, Err _) => (ch, s)
      end
  end.

Definition channelConfigChanged (old new : NotifyChannelConfig) : bool :=
  negb (NChan.UpdateAt old =? NChan.UpdateAt new).

Definition start_channel (id : Z) (ch : NotifyChannelConfig) s : ncache :=
  let t := NChan.RequestType ch in
  if String.eqb t "http" || String.eqb t "flashduty" || String.eqb t "pagerduty" then
    let '(ch, s) := put_client id ch s in
    let s := s <| nc_channels := <[id := ch]> (nc_channels s) |> in
    if String.eqb t "http" then startHttpChannel id ch s else s
  else
    let s := s <| nc_channels := <[id := ch]> (nc_channels s) |> in
    if String.eqb t "smtp" then start_smtp id ch s else s.

Definition put_channel (id : Z) (ch : NotifyChannelConfig) s : go ncache :=
  match nc_channels s !! id with
  | Some old =>
      if channelConfigChanged old ch then s ← stopChannelResources id s; Ret (start_channel id ch s)
      else Ret s
  | None => Ret (start_channel id ch s)
  end.

Fixpoint put_channels (new : list (Z * NotifyChannelConfig)) s : go ncache :=
  match new with
  | [] => Ret s
  | (id, ch) :: new => s ← put_channel id ch s; put_channels new s
  end.

Definition addOrUpdateChannels (newChannels : gmap Z NotifyChannelConfig) s : go ncache :=
  put_channels (go_range newChannels) s.

Definition NC_Set (m : gmap Z NotifyChannelConfig) (total lastUpdated : Z) s : go ncache :=
  s ← removeDeletedChannels m s;
  s ← addOrUpdateChannels m s;
  Ret (s <| nc_statTotal := total |> <| nc_statLastUpdated := lastUpdated |>).

Definition NC_StatChanged (total lastUpdated : Z) s : bool :=
  negb ((nc_statTotal s =? total) && (nc_statLastUpdated s =? lastUpdated)).

(** The queue is looked up under the lock of the cache, the push is not. *)
Definition EnqueueNotifyTask (task : NotifyTask) (nc : ncache) : ncache * bool :=
  match sl_chan (nc_http nc) !! NChan.ID (nt_NotifyChannel task) with
  | None => (nc, false)
  | Some q =>
      match nc_store nc !! q with
      | None => (nc, false)
      | Some queue =>
          let '(queue, success) := tq_PushFront queue task in
          (nc <| nc_store := <[q := queue]> (nc_store nc) |>, success)
      end
  end.

(** A polling round, with what the two queries return. *)
Definition syncNotifyChannels (stat : result (Z * Z)) (rows : result (list NotifyChannelConfig)) s :
    go (ncache * option error) :=
  match stat with
  | Err err => Ret (s, Some ("failed to exec NotifyChannelStatistics: " +:+ err))
  | Ok (total, lastUpdated) =>
      if negb (NC_StatChanged total lastUpdated s) then Ret (s, None)
      else match rows with
           | Err err => Ret (s, Some ("failed to exec NotifyChannelGetsAll: " +:+ err))
           | Ok lst =>
               s ← NC_Set (foldl (λ m ch, <[NChan.ID ch := ch]> m) ∅ lst) total lastUpdated s;
               Ret (s, None)
           end
  end.
End cache.

(** ** What is running *)

(** How many goroutines of each kind a channel asks for. *)
Definition want_http (ch : NotifyChannelConfig) : option nat :=
  if String.eqb (NChan.RequestType ch) "http"
  then (λ c, Z.to_nat (HttpReq.Concurrency c)) <$> http_conf ch else None.
Definition want_smtp (ch : NotifyChannelConfig) : option nat :=
  if String.eqb (NChan.RequestType ch) "smtp" then (λ _, 1%nat) <$> smtp_conf ch else None.

(** The goroutines that were not told to quit. *)
Definition running (closed : gset nat) (sl : slots) (id : Z) : list (Z * nat * nat) :=
  List.filter (λ k, bool_decide (k.1.1 = id) && negb (bool_decide (k.2 ∈ closed))) (sl_workers sl).

(** The goroutines of a kind fit what is wanted: the two maps agree, quit channels
    in the map are open, and neither they nor the channels are shared, a goroutine that was not told to quit reads
    the channel in the map, and there are as many as wanted. *)
Record slots_ok (closed : gset nat) (next : nat) (want : Z → option nat) (sl : slots) : Prop := {
  so_open id quit : sl_quit sl !! id = Some quit → quit ∉ closed ∧ (quit < next)%nat;
  so_inj id id' quit : sl_quit sl !! id = Some quit → sl_quit sl !! id' = Some quit → id = id';
  so_dom id : is_Some (sl_chan sl !! id) ↔ is_Some (sl_quit sl !! id);
  so_chan id ch : sl_chan sl !! id = Some ch → (ch < next)%nat;
  so_chinj id id' ch : sl_chan sl !! id = Some ch → sl_chan sl !! id' = Some ch → id = id';
  so_old id ch quit : (id, ch, quit) ∈ sl_workers sl → (quit < next)%nat;
  so_run id ch quit : (id, ch, quit) ∈ sl_workers sl → quit ∉ closed →
    sl_chan sl !! id = Some ch ∧ sl_quit sl !! id = Some quit;
  so_want id : is_Some (sl_quit sl !! id) ↔ is_Some (want id);
  so_count id : length (running closed sl id) = default 0%nat (want id)
}.

Lemma elem_of_option_list {A} (o : option A) x : x ∈ option_list o ↔ o = Some x.
Proof. destruct o; simpl; [rewrite list_elem_of_singleton; naive_solver|rewrite elem_of_nil; naive_solver]. Qed.

Section slots.
Implicit Types (closed : gset nat) (sl : slots).

Lemma elem_of_running closed sl id i c q :
  (i, c, q) ∈ running closed sl id ↔ (i, c, q) ∈ sl_workers sl ∧ i = id ∧ q ∉ closed.
Proof.
  unfold running. rewrite list_elem_of_In, filter_In, andb_true_iff, negb_true_iff, <- list_elem_of_In. simpl.
  rewrite bool_decide_eq_true, bool_decide_eq_false. done.
Qed.

Lemma running_ext closed closed' sl id :
  (∀ c q, (id, c, q) ∈ sl_workers sl → q ∈ closed ↔ q ∈ closed') → running closed sl id = running closed' sl id.
Proof.
  intros He. unfold running. apply filter_ext_in. intros [[i c] q] Hin%list_elem_of_In. simpl.
  case_bool_decide as Hi; [|done]. subst i. simpl. f_equal. apply bool_decide_ext. eauto.
Qed.

(** Closing a quit channel that is not in the map of these goroutines. *)
Lemma slots_ok_close closed next want sl quit :
  slots_ok closed next want sl → (∀ id, sl_quit sl !! id ≠ Some quit) →
  slots_ok ({[quit]} ∪ closed) next want sl.
Proof.
  intros Hok Hno. pose proof Hok as [H1 H2 H3 Hc Hci H4 H5 H6 H7]. split; auto.
  - intros id q Hq. destruct (H1 id q Hq). split; [|done].
    intros [->%elem_of_singleton|?]%elem_of_union; [by eapply Hno|done].
  - intros id c q Hin Hnc. apply H5; set_solver.
  - intros id. rewrite <- H7. f_equal. apply running_ext. intros c q Hin. rewrite elem_of_union, elem_of_singleton.
    split; [|by right]. intros [->|?]; [|done]. destruct (decide (quit ∈ closed)) as [|Hn]; [done|].
    destruct (H5 id c quit Hin Hn) as [_ Hq]. by apply Hno in Hq.
Qed.

Lemma slots_ok_weaken closed next next' want want' sl :
  slots_ok closed next want sl → (next ≤ next')%nat → (∀ id, want id = want' id) → slots_ok closed next' want' sl.
Proof.
  intros [H1 H2 H3 Hc Hci H4 H5 H6 H7] Hle Hw. split; auto.
  - intros id q Hq. destruct (H1 id q Hq). split; [done|lia].
  - intros id ch Hch. apply Hc in Hch. lia.
  - intros id c q Hin. apply H4 in Hin. lia.
  - intros id. by rewrite H6, Hw.
  - intros id. by rewrite H7, Hw.
Qed.

Definition unwant (want : Z → option nat) (id : Z) : Z → option nat := λ i, if decide (i = id) then None else want i.

Lemma slot_stop_ok id closed next want sl :
  slots_ok closed next want sl →
  ∃ closed' sl', slot_stop id closed sl = Ret (closed', sl') ∧ slots_ok closed' next (unwant want id) sl' ∧
    closed' = list_to_set (option_list (sl_quit sl !! id)) ∪ closed ∧
    sl_quit sl' = delete id (sl_quit sl) ∧ sl_chan sl' = delete id (sl_chan sl) ∧ sl_workers sl' = sl_workers sl.
Proof.
  intros Hok. pose proof Hok as [H1 H2 H3 Hc Hci H4 H5 H6 H7]. unfold slot_stop, unwant.
  destruct (sl_quit sl !! id) as [quit|] eqn:Hq; cycle 1.
  { exists closed, sl. assert (want id = None) as Hw by (apply eq_None_not_Some; rewrite <- H6, Hq; by intros []).
    split_and!; simpl; try done; [|set_solver|by rewrite delete_id|].
    - split; try done; intros i; [rewrite H6|rewrite H7]; case_decide; subst; by rewrite ?Hw.
    - rewrite delete_id; [done|]. apply eq_None_not_Some. rewrite H3, Hq. by intros []. }
  destruct (H1 id quit Hq) as [Hnc Hlt]. rewrite decide_False by done.
  eexists _, _. split; [reflexivity|]. split_and!; simpl; rsimp; [|set_solver|done..].
  assert (∀ i c q, (i, c, q) ∈ sl_workers sl → i ≠ id → q ∈ {[quit]} ∪ closed ↔ q ∈ closed) as Hother.
  { intros i c q Hin Hi. rewrite elem_of_union, elem_of_singleton. split; [|by right]. intros [->|?]; [|done].
    destruct (decide (quit ∈ closed)) as [|Hn]; [done|]. destruct (H5 i c quit Hin Hn) as [_ Hq']. destruct Hi. by eapply H2. }
  split; simpl; rsimp.
  - intros i q [Hne Hi]%lookup_delete_Some. destruct (H1 i q Hi). split; [|done].
    intros [->%elem_of_singleton|?]%elem_of_union; [|done]. apply Hne. by eapply H2.
  - intros i i' q [_ Hi]%lookup_delete_Some [_ Hi']%lookup_delete_Some. by eapply H2.
  - intros i. rewrite !lookup_delete_is_Some, H3. done.
  - intros i ch [_ Hi]%lookup_delete_Some. by eapply Hc.
  - intros i i' q [_ Hi]%lookup_delete_Some [_ Hi']%lookup_delete_Some. by eapply Hci.
  - done.
  - intros i ch q Hin Hcl. destruct (H5 i ch q Hin) as [Ha Hb]; [set_solver|].
    assert (id ≠ i) by (intros ->; apply Hcl, elem_of_union_l, elem_of_singleton; congruence).
    by rewrite !lookup_delete_ne.
  - intros i. rewrite lookup_delete_is_Some, H6. case_decide; [split; [by intros []|by intros []]|naive_solver].
  - intros i. case_decide as Hi; [subst i|].
    + apply length_zero_iff_nil, elem_of_nil_inv. intros [[i c] q] (Hin & -> & Hn)%elem_of_running.
      destruct (H5 id c q Hin) as [_ Hq']; [set_solver|]. apply Hn, elem_of_union_l, elem_of_singleton. congruence.
    + rewrite <- H7. f_equal. unfold running. simpl. apply (running_ext _ _ sl). intros c q Hin. by eapply Hother.
Qed.

Lemma slot_start_ok id n ch quit closed next next' want sl :
  slots_ok closed next want sl → want id = None → (∀ q, q ∈ closed → (q < next)%nat) →
  (next ≤ quit < next')%nat → (next ≤ ch < next')%nat →
  slots_ok closed next' (λ i, if decide (i = id) then Some n else want i) (slot_start id n ch quit sl).
Proof.
  intros Hok Hw Hcl Hq Hch. pose proof Hok as [H1 H2 H3 Hc Hci H4 H5 H6 H7].
  assert (sl_quit sl !! id = None) as Hno by (apply eq_None_not_Some; rewrite H6, Hw; by intros []).
  assert (quit ∉ closed) as Hopen by (intros ?%Hcl; lia).
  assert (∀ i, sl_quit sl !! i ≠ Some quit) as Hnew by (intros i Hi; destruct (H1 i quit Hi); lia).
  split; unfold slot_start; simpl.
  - intros i q [[<- <-]|[_ Hi]]%lookup_insert_Some; [split; [done|lia]|].
    destruct (H1 i q Hi). split; [done|lia].
  - intros i i' q [[<- <-]|[N1 Hi]]%lookup_insert_Some [[<- E]|[N2 Hi']]%lookup_insert_Some; try done.
    + by apply Hnew in Hi'.
    + subst q. by apply Hnew in Hi.
    + by eapply H2.
  - intros i. rewrite !lookup_insert_is_Some, H3. done.
  - intros i c [[<- <-]|[_ Hi]]%lookup_insert_Some; [lia|]. apply Hc in Hi. lia.
  - intros i i' c [[<- <-]|[N1 Hi]]%lookup_insert_Some [[<- E]|[N2 Hi']]%lookup_insert_Some; try done.
    + apply Hc in Hi'. lia.
    + apply Hc in Hi. lia.
    + by eapply Hci.
  - intros i c q [Hin|[= -> -> ->]%elem_of_replicate_inv]%elem_of_app; [apply H4 in Hin; lia|lia].
  - intros i c q [Hin|[= -> -> ->]%elem_of_replicate_inv]%elem_of_app Hn; [|by rewrite !lookup_insert_eq].
    destruct (H5 i c q Hin Hn) as [Ha Hb]. rewrite !lookup_insert_ne; [done|congruence..].
  - intros i. rewrite lookup_insert_is_Some, H6. case_decide; [subst; naive_solver|naive_solver].
  - intros i. unfold running. cbn [sl_workers]. rewrite List.filter_app, length_app.
    change (List.filter _ (sl_workers sl)) with (running closed sl i). rewrite H7.
    change (List.filter _ (replicate _ _)) with (running closed (mkSlots ∅ ∅ (replicate n (id, ch, quit))) i).
    destruct (decide (i = id)) as [->|Hi].
    + rewrite Hw. simpl. unfold running. simpl.
      rewrite List.forallb_filter_id, length_replicate; [done|]. apply forallb_forall.
      intros k ->%list_elem_of_In%elem_of_replicate_inv. simpl.
      rewrite bool_decide_true, bool_decide_false by done. done.
    + destruct (running _ _ i) as [|[[j c] q] l] eqn:E; [simpl; lia|]. exfalso.
      assert ((j, c, q) ∈ running closed (mkSlots ∅ ∅ (replicate n (id, ch, quit))) i) as Hin by (rewrite E; left).
      apply elem_of_running in Hin as ([= -> _ _]%elem_of_replicate_inv & ? & _). done.
Qed.
End slots.

Section cache_spec.
Context `{TQ : TaskQueueLib, GR : GoRange, UL : UrlLib}.
Implicit Types (s : ncache) (ch : NotifyChannelConfig).

(** The goroutines of both kinds fit, and share no quit channel; every queue of the
    map exists. *)
Record res_ok (wh ws : Z → option nat) s : Prop := {
  ro_http : slots_ok (nc_closed s) (nc_next s) wh (nc_http s);
  ro_smtp : slots_ok (nc_closed s) (nc_next s) ws (nc_smtp s);
  ro_disj id id' q : sl_quit (nc_http s) !! id = Some q → sl_quit (nc_smtp s) !! id' ≠ Some q;
  ro_closed q : q ∈ nc_closed s → (q < nc_next s)%nat;
  ro_queue id q : sl_chan (nc_http s) !! id = Some q → is_Some (nc_store s !! q);
  ro_fresh q : is_Some (nc_store s !! q) → (q < nc_next s)%nat
}.

Definition chan_wanted s (want : NotifyChannelConfig → option nat) (id : Z) : option nat :=
  nc_channels s !! id ≫= want.

Definition cache_ok s : Prop := res_ok (chan_wanted s want_http) (chan_wanted s want_smtp) s.

Lemma res_ok_ext wh wh' ws ws' s :
  res_ok wh ws s → (∀ id, wh id = wh' id) → (∀ id, ws id = ws' id) → res_ok wh' ws' s.
Proof. intros [] ? ?. split; try done; by eapply slots_ok_weaken. Qed.

(** The parts of the cache that are not goroutines. *)
Lemma res_ok_data wh ws s channels clients :
  res_ok wh ws s → res_ok wh ws (s <| nc_channels := channels |> <| nc_clients := clients |>).
Proof. by intros []; split. Qed.

Lemma stopChannelResources_ok id wh ws s :
  res_ok wh ws s →
  ∃ s', stopChannelResources id s = Ret s' ∧ res_ok (unwant wh id) (unwant ws id) s' ∧
    nc_channels s' = nc_channels s ∧ nc_clients s' = nc_clients s ∧ nc_store s' = nc_store s ∧
    nc_closed s ⊆ nc_closed s' ∧ nc_next s' = nc_next s ∧ sl_chan (nc_http s') = delete id (sl_chan (nc_http s)) ∧
    sl_workers (nc_http s') = sl_workers (nc_http s).
Proof.
  intros [Hh Hs Hd Hc Hq Hf]. unfold stopChannelResources.
  destruct (slot_stop_ok id _ _ _ _ Hh) as (c1 & h1 & E1 & Hh1 & Hc1 & Hq1 & Hch1 & Hw1). rewrite E1. cbn [mbind go_bind].
  assert (slots_ok c1 (nc_next s) ws (nc_smtp s)) as Hs1.
  { subst c1. destruct (sl_quit (nc_http s) !! id) as [q|] eqn:Eq; simpl.
    - rewrite union_empty_r_L. apply slots_ok_close; [done|]. intros id' Hid. by eapply Hd.
    - by rewrite union_empty_l_L. }
  destruct (slot_stop_ok id _ _ _ _ Hs1) as (c2 & m2 & E2 & Hs2 & Hc2 & Hq2 & Hch2 & Hw2). rewrite E2. cbn [mbind go_bind].
  eexists. split; [reflexivity|]. simpl; rsimp. split_and!; try done; [|set_solver].
  assert (slots_ok c2 (nc_next s) (unwant wh id) h1) as Hh2.
  { subst c2. destruct (sl_quit (nc_smtp s) !! id) as [q|] eqn:Eq; simpl.
    - rewrite union_empty_r_L. apply slots_ok_close; [done|]. intros id' Hid. rewrite Hq1 in Hid.
      apply lookup_delete_Some in Hid as [_ Hid]. by eapply Hd.
    - by rewrite union_empty_l_L. }
  split; simpl; rsimp; try done.
  - intros i i' q. rewrite Hq1, Hq2. intros [_ H1]%lookup_delete_Some [_ H2]%lookup_delete_Some. by eapply Hd.
  - intros q. subst c2 c1. rewrite !elem_of_union, !elem_of_list_to_set, !elem_of_option_list.
    intros [H1|[H1|H1]]; [by eapply (so_open _ _ _ _ Hs)|by eapply (so_open _ _ _ _ Hh)|by apply Hc].
  - intros i q. rewrite Hch1. intros [_ Hi]%lookup_delete_Some. by eapply Hq.
Qed.

Lemma startHttpChannel_ok id ch c wh ws s :
  http_conf ch = Some c → res_ok wh ws s → wh id = None →
  res_ok (λ i, if decide (i = id) then Some (Z.to_nat (HttpReq.Concurrency c)) else wh i) ws (startHttpChannel id ch s).
Proof.
  intros Hconf [Hh Hs Hd Hc Hq Hf] Hw. unfold startHttpChannel. rewrite Hconf. split; simpl; rsimp.
  - eapply slot_start_ok; [done..|lia|lia].
  - eapply slots_ok_weaken; [exact Hs|lia|done].
  - intros i i' q [[<- <-]|[_ Hi]]%lookup_insert_Some Hi'; [|by eapply Hd].
    destruct (so_open _ _ _ _ Hs i' _ Hi'). lia.
  - intros q Hin%Hc. lia.
  - intros i q [[<- <-]|[_ Hi]]%lookup_insert_Some; [by rewrite lookup_insert_eq|].
    apply Hq in Hi. rewrite lookup_insert_is_Some'. by right.
  - intros q. rewrite lookup_insert_is_Some'. intros [<-|Hin%Hf]; lia.
Qed.

Lemma start_smtp_ok id ch c wh ws s :
  smtp_conf ch = Some c → res_ok wh ws s → ws id = None →
  res_ok wh (λ i, if decide (i = id) then Some 1%nat else ws i) (start_smtp id ch s).
Proof.
  intros Hconf [Hh Hs Hd Hc Hq Hf] Hw. unfold start_smtp. rewrite Hconf. split; simpl; rsimp.
  - eapply slots_ok_weaken; [exact Hh|lia|done].
  - eapply slot_start_ok; [done..|lia|lia].
  - intros i i' q Hi [[<- <-]|[_ Hi']]%lookup_insert_Some; [|by eapply Hd].
    destruct (so_open _ _ _ _ Hh i _ Hi). lia.
  - intros q Hin%Hc. lia.
  - done.
  - intros q Hin%Hf. lia.
Qed.

Lemma put_client_spec id ch s :
  ∃ clients, snd (put_client id ch s) = s <| nc_clients := clients |> ∧
    let ch' := fst (put_client id ch s) in
    NChan.RequestType ch' = NChan.RequestType ch ∧ NChan.UpdateAt ch' = NChan.UpdateAt ch ∧
    http_conf ch' = http_request_defaults <$> http_conf ch.
Proof.
  unfold put_client, GetHTTPClient, http_conf.
  destruct (NChan.RequestConfig ch) as [rc|] eqn:Erc; simpl; cycle 1.
  { exists (nc_clients s). rewrite Erc. by destruct s. }
  destruct (ReqConf.HTTPRequestConfig rc) as [c|] eqn:Ec; simpl; cycle 1.
  { exists (nc_clients s). rewrite Erc. simpl. rewrite Ec. by destruct s. }
  case_match; [case_match|]; simpl; rsimp; simpl; eexists; (split; [|done]); try reflexivity.
  instantiate (1 := nc_clients s). by destruct s.
Qed.

Lemma res_cache_ok s0 s id ch wh ws :
  res_ok wh ws s → nc_channels s = <[id := ch]> (nc_channels s0) → wh id = want_http ch → ws id = want_smtp ch →
  (∀ i, i ≠ id → wh i = chan_wanted s0 want_http i ∧ ws i = chan_wanted s0 want_smtp i) → cache_ok s.
Proof.
  intros Hres Hch Hh Hs Hother. eapply res_ok_ext; [exact Hres|..]; intros i; unfold chan_wanted; rewrite Hch;
    (destruct (decide (i = id)) as [->|Hi]; [by rewrite lookup_insert_eq|rewrite lookup_insert_ne by done; by apply Hother]).
Qed.

Lemma unwant_eq want id : unwant want id id = None.
Proof. unfold unwant. by rewrite decide_True. Qed.
Lemma unwant_ne want id i : i ≠ id → unwant want id i = want i.
Proof. intros. unfold unwant. by rewrite decide_False. Qed.

Lemma res_cache_idle s0 s id ch :
  res_ok (unwant (chan_wanted s0 want_http) id) (unwant (chan_wanted s0 want_smtp) id) s →
  nc_channels s = <[id := ch]> (nc_channels s0) → want_http ch = None → want_smtp ch = None → cache_ok s.
Proof.
  intros Hres Hch Hh Hs. eapply (res_cache_ok s0 s id ch); [done|done|by rewrite unwant_eq..|].
  intros i Hi. by rewrite !unwant_ne.
Qed.

Lemma start_http_ok id ch s0 s :
  res_ok (unwant (chan_wanted s0 want_http) id) (unwant (chan_wanted s0 want_smtp) id) s →
  nc_channels s = <[id := ch]> (nc_channels s0) → NChan.RequestType ch = "http" →
  cache_ok (startHttpChannel id ch s) ∧ nc_channels (startHttpChannel id ch s) = <[id := ch]> (nc_channels s0).
Proof.
  intros Hres Hch Et. assert (want_smtp ch = None) as Hws by (unfold want_smtp; by rewrite Et).
  destruct (http_conf ch) as [c|] eqn:Ec; cycle 1.
  { unfold startHttpChannel. rewrite Ec. split; [|done]. eapply res_cache_idle; [done|done| |done].
    unfold want_http. by rewrite Et, Ec. }
  assert (nc_channels (startHttpChannel id ch s) = nc_channels s) as Hsame by (unfold startHttpChannel; by rewrite Ec).
  rewrite Hsame. split; [|done].
  eapply (res_cache_ok s0 _ id ch); [eapply startHttpChannel_ok; [exact Ec|exact Hres|apply unwant_eq]|by rewrite Hsame|..].
  - simpl. rewrite decide_True by done. unfold want_http. by rewrite Et, Ec.
  - by rewrite unwant_eq.
  - intros i Hi. simpl. by rewrite decide_False, !unwant_ne.
Qed.

Lemma start_mail_ok id ch s0 s :
  res_ok (unwant (chan_wanted s0 want_http) id) (unwant (chan_wanted s0 want_smtp) id) s →
  nc_channels s = <[id := ch]> (nc_channels s0) → NChan.RequestType ch = "smtp" →
  cache_ok (start_smtp id ch s) ∧ nc_channels (start_smtp id ch s) = <[id := ch]> (nc_channels s0).
Proof.
  intros Hres Hch Et. assert (want_http ch = None) as Hwh by (unfold want_http; by rewrite Et).
  destruct (smtp_conf ch) as [c|] eqn:Ec; cycle 1.
  { unfold start_smtp. rewrite Ec. split; [|done]. eapply res_cache_idle; [done|done|done|].
    unfold want_smtp. by rewrite Et, Ec. }
  assert (nc_channels (start_smtp id ch s) = nc_channels s) as Hsame by (unfold start_smtp; by rewrite Ec).
  rewrite Hsame. split; [|done].
  eapply (res_cache_ok s0 _ id ch); [eapply start_smtp_ok; [exact Ec|exact Hres|apply unwant_eq]|by rewrite Hsame|..].
  - by rewrite unwant_eq.
  - simpl. rewrite decide_True by done. unfold want_smtp. by rewrite Et, Ec.
  - intros i Hi. simpl. by rewrite decide_False, !unwant_ne.
Qed.

Lemma start_channel_ok id ch s :
  res_ok (unwant (chan_wanted s want_http) id) (unwant (chan_wanted s want_smtp) id) s →
  cache_ok (start_channel id ch s) ∧
  ∃ ch', nc_channels (start_channel id ch s) = <[id := ch']> (nc_channels s) ∧ NChan.UpdateAt ch' = NChan.UpdateAt ch.
Proof.
  intros Hres. unfold start_channel.
  pose proof (λ clients ch', res_ok_data _ _ s (<[id := ch']> (nc_channels s)) clients Hres) as Hdata.
  destruct (_ || _ || _) eqn:Ht.
  - destruct (put_client_spec id ch s) as (clients & Hs & Hrt & Hup & _).
    destruct (put_client id ch s) as [ch' s']. simpl in Hs, Hrt, Hup. subst s'. specialize (Hdata clients ch').
    destruct (String.eqb_spec (NChan.RequestType ch) "http") as [Et|Hnh].
    + destruct (start_http_ok id ch' s _ Hdata) as [Hok Hch]; [done|congruence|]. split; [exact Hok|by exists ch'].
    + split; [|by exists ch']. eapply res_cache_idle; [exact Hdata|done|..].
      * unfold want_http. by rewrite Hrt, (proj2 (String.eqb_neq _ _) Hnh).
      * unfold want_smtp. rewrite Hrt. destruct (String.eqb_spec (NChan.RequestType ch) "smtp") as [E|]; [|done].
        by rewrite E in Ht.
  - specialize (Hdata (nc_clients s) ch). set (s1 := s <| nc_channels := _ |>).
    assert (res_ok (unwant (chan_wanted s want_http) id) (unwant (chan_wanted s want_smtp) id) s1) as H1 by by destruct s.
    destruct (String.eqb_spec (NChan.RequestType ch) "smtp") as [Es|Hns].
    + destruct (start_mail_ok id ch s s1 H1) as [Hok Hch]; [done..|]. split; [exact Hok|by exists ch].
    + split; [|by exists ch]. eapply res_cache_idle; [exact H1|done|..].
      * unfold want_http. by destruct (String.eqb _ "http").
      * unfold want_smtp. by rewrite (proj2 (String.eqb_neq _ _) Hns).
Qed.

(** A channel of the new map takes its place: it is the channel that was there, when
    its time of update is the same. *)
Lemma put_channel_ok id ch s :
  cache_ok s →
  ∃ s', put_channel id ch s = Ret s' ∧ cache_ok s' ∧
    ∃ ch', nc_channels s' = <[id := ch']> (nc_channels s) ∧ NChan.UpdateAt ch' = NChan.UpdateAt ch.
Proof.
  intros Hok. unfold put_channel. destruct (nc_channels s !! id) as [old|] eqn:Hold.
  - unfold channelConfigChanged. destruct (Z.eqb_spec (NChan.UpdateAt old) (NChan.UpdateAt ch)) as [He|]; simpl.
    { exists s. split_and!; [done..|]. exists old. by rewrite insert_id. }
    destruct (stopChannelResources_ok id _ _ s Hok) as (s1 & Hst & Hres & Hch & _). rewrite Hst. cbn [mbind go_bind].
    eexists. split; [reflexivity|]. destruct (start_channel_ok id ch s1) as [Hok1 (ch' & Hch' & Hup)].
    { eapply res_ok_ext; [exact Hres|..]; intros i; unfold unwant, chan_wanted; by rewrite Hch. }
    split; [done|]. exists ch'. by rewrite Hch', Hch.
  - eexists. split; [reflexivity|]. destruct (start_channel_ok id ch s) as [Hok1 Hch']; [|eauto].
    eapply res_ok_ext; [exact Hok|..]; intros i; unfold unwant; case_decide; try done; subst; unfold chan_wanted; by rewrite Hold.
Qed.

Lemma remove_channel_ok id s :
  cache_ok s → ∃ s', remove_channel id s = Ret s' ∧ cache_ok s' ∧ nc_channels s' = delete id (nc_channels s).
Proof.
  intros Hok. unfold remove_channel.
  destruct (stopChannelResources_ok id _ _ s Hok) as (s1 & Hst & Hres & Hch & _ & _ & _ & _ & Hsl & _). rewrite Hst. cbn [mbind go_bind].
  eexists. split; [reflexivity|]. simpl; rsimp. rewrite Hch. split; [|done].
  assert (sl_chan (nc_http s1) = delete id (sl_chan (nc_http s1))) as Hdel by by rewrite Hsl, delete_delete_eq.
  rewrite <- Hdel. unfold cache_ok.
  assert (∀ want i, chan_wanted (s1 <| nc_channels := delete id (nc_channels s) |>) want i = unwant (chan_wanted s want) id i) as Hw.
  { intros want i. unfold chan_wanted, unwant. simpl; rsimp. case_decide as Hi; [subst; by rewrite lookup_delete_eq|].
    by rewrite lookup_delete_ne. }
  destruct s1 as [? [] ? ? ? ? ? ? ?]. eapply res_ok_ext; [|intros i; symmetry; apply (Hw want_http)|intros i; symmetry; apply (Hw want_smtp)].
  by destruct Hres; split.
Qed.

Lemma remove_channels_ok ids s :
  cache_ok s →
  ∃ s', remove_channels ids s = Ret s' ∧ cache_ok s' ∧
    ∀ id, nc_channels s' !! id = if decide (id ∈ ids) then None else nc_channels s !! id.
Proof.
  revert s. induction ids as [|x ids IH]; intros s Hok; simpl; [by exists s|].
  destruct (remove_channel_ok x s Hok) as (s1 & -> & Hok1 & Hch1). simpl.
  destruct (IH s1 Hok1) as (s2 & -> & Hok2 & Hch2). exists s2. split_and!; [done..|]. intros id. rewrite Hch2, Hch1.
  destruct (decide (id ∈ ids)); [by rewrite decide_True by (by right)|].
  destruct (decide (id = x)) as [->|]; [by rewrite lookup_delete_eq, decide_True by left|].
  rewrite lookup_delete_ne by done. rewrite decide_False; [done|]. by intros [?|?]%elem_of_cons.
Qed.

Lemma put_channels_ok new s :
  cache_ok s → NoDup new.*1 →
  ∃ s', put_channels new s = Ret s' ∧ cache_ok s' ∧
    (∀ id, id ∉ new.*1 → nc_channels s' !! id = nc_channels s !! id) ∧
    (∀ id ch, (id, ch) ∈ new → ∃ ch', nc_channels s' !! id = Some ch' ∧ NChan.UpdateAt ch' = NChan.UpdateAt ch).
Proof.
  revert s. induction new as [|[x ch] new IH]; intros s Hok Hnd; simpl.
  { exists s. split_and!; [done..|]. by intros ? ? ?%elem_of_nil. }
  csimpl in Hnd. apply NoDup_cons in Hnd as [Hx Hnd].
  destruct (put_channel_ok x ch s Hok) as (s1 & -> & Hok1 & ch' & Hch1 & Hup). simpl.
  destruct (IH s1 Hok1 Hnd) as (s2 & -> & Hok2 & Hout & Hin). exists s2. split_and!; [done..| |].
  - intros id [Hne Hni]%not_elem_of_cons. rewrite Hout by done. by rewrite Hch1, lookup_insert_ne.
  - intros id c [[= -> ->]|Hc]%elem_of_cons; [|by apply Hin].
    exists ch'. by rewrite Hout, Hch1, lookup_insert_eq.
Qed.

Lemma NC_Set_ok m total lastUpdated s :
  cache_ok s →
  ∃ s', NC_Set m total lastUpdated s = Ret s' ∧ cache_ok s' ∧
    ∀ id, option_map NChan.UpdateAt (nc_channels s' !! id) = option_map NChan.UpdateAt (m !! id).
Proof.
  intros Hok. unfold NC_Set, removeDeletedChannels, addOrUpdateChannels.
  destruct (remove_channels_ok (List.filter (λ id, negb (bool_decide (is_Some (m !! id)))) (go_range (nc_channels s)).*1) s Hok)
    as (s1 & -> & Hok1 & Hch1). simpl.
  destruct (put_channels_ok (go_range m) s1 Hok1 (NoDup_fst_go_range m)) as (s2 & -> & Hok2 & Hout & Hin). simpl.
  eexists. split; [reflexivity|]. split; [by destruct Hok2; split|]. intros id. simpl; rsimp.
  destruct (m !! id) as [ch|] eqn:Hm; simpl.
  - destruct (Hin id ch) as (ch' & -> & ?); [by apply elem_of_go_range|]. simpl. congruence.
  - rewrite Hout; cycle 1. { rewrite elem_of_fst_go_range, Hm. by intros []. }
    rewrite Hch1. case_decide as Hd; [done|]. destruct (nc_channels s !! id) as [c|] eqn:Hc; [|done]. exfalso.
    apply Hd, list_elem_of_In, filter_In. rewrite <- list_elem_of_In, elem_of_fst_go_range. split; [by rewrite Hc|].
    rewrite Hm, bool_decide_false; [done|by intros []].
Qed.

Lemma NewNotifyChannelCache_ok : cache_ok NewNotifyChannelCache.
Proof.
  split; [split|split|..]; unfold chan_wanted; simpl; intros;
    repeat match goal with H : _ ∈ [] |- _ => by apply elem_of_nil in H end; try set_solver.
  all: rewrite ?lookup_empty in *; try done; try by destruct H.
Qed.

(** ** The cache at work *)

(** Beside the cache: the pushes of [EnqueueNotifyTask] that found their queue and
    are not done, and the consumers that saw their quit channel open and did not take
    a task yet. *)
Record qsys := mkQsys {
  qs_cache : ncache;
  qs_pushes : list (nat * NotifyTask);
  qs_armed : list (Z * nat * nat)
}.
Implicit Types st : qsys.

Definition with_queue (q : nat) (queue : tqueue) s : ncache := s <| nc_store := <[q := queue]> (nc_store s) |>.

Inductive qs_step : qsys → qsys → Prop :=
| qs_set m total lastUpdated s s' ps ks :
    NC_Set m total lastUpdated s = Ret s' → qs_step (mkQsys s ps ks) (mkQsys s' ps ks)
| qs_find task q s ps ks :
    sl_chan (nc_http s) !! NChan.ID (nt_NotifyChannel task) = Some q →
    qs_step (mkQsys s ps ks) (mkQsys s ((q, task) :: ps) ks)
| qs_push task q queue s ps1 ps2 ks :
    nc_store s !! q = Some queue →
    qs_step (mkQsys s (ps1 ++ (q, task) :: ps2) ks) (mkQsys (with_queue q (fst (tq_PushFront queue task)) s) (ps1 ++ ps2) ks)
| qs_look id q quit s ps ks :
    (id, q, quit) ∈ running (nc_closed s) (nc_http s) id → qs_step (mkQsys s ps ks) (mkQsys s ps ((id, q, quit) :: ks))
| qs_take id q quit queue s ps ks1 ks2 :
    nc_store s !! q = Some queue →
    qs_step (mkQsys s ps (ks1 ++ (id, q, quit) :: ks2)) (mkQsys (with_queue q (fst (tq_PopBack queue)) s) ps (ks1 ++ ks2)).

Definition qs_reach st : Prop := rtc qs_step (mkQsys NewNotifyChannelCache [] []) st.

(** Enqueueing at once is finding the queue and pushing. *)
Lemma EnqueueNotifyTask_steps task s ps ks :
  rtc qs_step (mkQsys s ps ks) (mkQsys (fst (EnqueueNotifyTask task s)) ps ks).
Proof.
  unfold EnqueueNotifyTask. destruct (sl_chan _ !! _) as [q|] eqn:Hq; [|apply rtc_refl].
  destruct (nc_store s !! q) as [queue|] eqn:Hs; [|apply rtc_refl].
  eapply rtc_l; [by apply (qs_find task q)|]. apply rtc_once.
  pose proof (qs_push task q queue s [] ps ks Hs) as Hp. by destruct (tq_PushFront queue task).
Qed.

Lemma with_queue_ok q queue s : cache_ok s → is_Some (nc_store s !! q) → cache_ok (with_queue q queue s).
Proof.
  intros [Hh Hs Hd Hc Hq Hf] Hin. split; simpl; rsimp; try done.
  - intros id q' Hid%Hq. apply lookup_insert_is_Some'. by right.
  - intros q' [<-|H']%lookup_insert_is_Some'; auto.
Qed.

Lemma qs_step_ok st st' : qs_step st st' → cache_ok (qs_cache st) → cache_ok (qs_cache st').
Proof.
  destruct 1; simpl; intros Hok; try done; try by apply with_queue_ok.
  destruct (NC_Set_ok m total lastUpdated s Hok) as (s'' & Hset & ? & _). congruence.
Qed.

Lemma qs_steps_ok st st' : rtc qs_step st st' → cache_ok (qs_cache st) → cache_ok (qs_cache st').
Proof. induction 1; eauto using qs_step_ok. Qed.

Lemma qs_reach_ok st : qs_reach st → cache_ok (qs_cache st).
Proof. intros Hr. eapply qs_steps_ok; [exact Hr|]. apply NewNotifyChannelCache_ok. Qed.

(** C17. Whatever channels came and went before, and whatever the consumers and the
    senders did, setting the channels of the table does
    not panic, and then exactly those channels are in the cache.  A channel has a
    queue exactly when it is an HTTP channel with a configuration; the consumers of
    its queue that were not stopped are as many as configured, and no other consumer
    of the channel runs.  The same holds for the one mail goroutine of a mail
    channel. *)
Theorem channel_resources m total lastUpdated st :
  qs_reach st →
  ∃ s', NC_Set m total lastUpdated (qs_cache st) = Ret s' ∧
    (∀ id, option_map NChan.UpdateAt (nc_channels s' !! id) = option_map NChan.UpdateAt (m !! id)) ∧
    ∀ id sl want, (sl, want) = (nc_http s', want_http) ∨ (sl, want) = (nc_smtp s', want_smtp) →
      (is_Some (sl_chan sl !! id) ↔ is_Some (nc_channels s' !! id ≫= want)) ∧
      length (running (nc_closed s') sl id) = default 0%nat (nc_channels s' !! id ≫= want) ∧
      ∀ q quit, (id, q, quit) ∈ running (nc_closed s') sl id → sl_chan sl !! id = Some q.
Proof.
  intros Hr%qs_reach_ok. destruct (NC_Set_ok m total lastUpdated _ Hr) as (s' & Hset & Hok & Hm).
  exists s'. split_and!; [done..|].
  assert (∀ id sl want, slots_ok (nc_closed s') (nc_next s') (chan_wanted s' want) sl →
    (is_Some (sl_chan sl !! id) ↔ is_Some (nc_channels s' !! id ≫= want)) ∧
    length (running (nc_closed s') sl id) = default 0%nat (nc_channels s' !! id ≫= want) ∧
    ∀ q quit, (id, q, quit) ∈ running (nc_closed s') sl id → sl_chan sl !! id = Some q) as Hgen.
  { intros id sl want Hs. split_and!.
    - by rewrite (so_dom _ _ _ _ Hs), (so_want _ _ _ _ Hs).
    - apply (so_count _ _ _ _ Hs).
    - intros q quit (Hin & _ & Hn)%elem_of_running. by apply (so_run _ _ _ _ Hs) in Hin as [? _]. }
  destruct Hok. intros id sl want [[= -> ->]|[= -> ->]]; by apply Hgen.
Qed.

(** ** Tasks that wait in the queue of a channel that changes *)

(** Queues are only made with new addresses; other queues keep their tasks. *)
Record newer s s' : Prop := {
  nw_next : (nc_next s ≤ nc_next s')%nat;
  nw_chan id q : sl_chan (nc_http s') !! id = Some q → sl_chan (nc_http s) !! id = Some q ∨ (nc_next s ≤ q)%nat;
  nw_store q : (q < nc_next s)%nat → nc_store s' !! q = nc_store s !! q
}.

#[global] Instance newer_preorder : PreOrder newer.
Proof.
  split; [by split; auto|]. intros s1 s2 s3 [N1 C1 S1] [N2 C2 S2]. split; [lia|..].
  - intros id q [H|H]%C2; [auto|right; lia].
  - intros q Hq. rewrite S2 by lia. auto.
Qed.

Lemma newer_same s s' :
  nc_next s' = nc_next s → nc_store s' = nc_store s → sl_chan (nc_http s') ⊆ sl_chan (nc_http s) → newer s s'.
Proof.
  intros Hn Hs Hc. split; [lia| |by rewrite Hs]. intros id q Hq. left. by eapply lookup_weaken.
Qed.

Lemma stop_newer id s : cache_ok s → ∃ s', stopChannelResources id s = Ret s' ∧ newer s s' ∧
  nc_next s' = nc_next s ∧ sl_chan (nc_http s') !! id = None.
Proof.
  intros Hok. destruct (stopChannelResources_ok id _ _ s Hok) as (s1 & Hst & _ & _ & _ & Hstore & _ & Hnext & Hsl & _).
  exists s1. split_and!; [done| |done|by rewrite Hsl, lookup_delete_eq].
  apply newer_same; [done..|]. rewrite Hsl. apply delete_subseteq.
Qed.

(** The queue of the channel, if it has one, is the old one or new. *)
Lemma startHttpChannel_newer id ch s : newer s (startHttpChannel id ch s).
Proof.
  unfold startHttpChannel. destruct (http_conf ch); [|reflexivity]. split; simpl; rsimp; [lia|..].
  - intros i q [[_ <-]|[_ Hi]]%lookup_insert_Some; auto with lia.
  - intros q Hq. rewrite lookup_insert_ne by lia. done.
Qed.

Lemma start_smtp_newer id ch s : newer s (start_smtp id ch s).
Proof.
  unfold start_smtp. destruct (smtp_conf ch); [|reflexivity]. split; simpl; rsimp; [lia|auto|done].
Qed.

Lemma newer_data s channels clients : newer s (s <| nc_channels := channels |> <| nc_clients := clients |>).
Proof. by apply newer_same. Qed.

Lemma start_channel_newer id ch s : newer s (start_channel id ch s).
Proof.
  unfold start_channel. case_match.
  - destruct (put_client_spec id ch s) as (clients & Hs & _). destruct (put_client id ch s) as [ch' s']. simpl in Hs. subst s'.
    trans (s <| nc_channels := <[id := ch']> (nc_channels s) |> <| nc_clients := clients |>); [apply newer_data|].
    case_match; [|reflexivity]. apply startHttpChannel_newer.
  - trans (s <| nc_channels := <[id := ch]> (nc_channels s) |> <| nc_clients := nc_clients s |>); [apply newer_data|].
    replace (s <| nc_channels := _ |> <| nc_clients := _ |>) with (s <| nc_channels := <[id := ch]> (nc_channels s) |>)
      by by destruct s.
    case_match; [apply start_smtp_newer|reflexivity].
Qed.

Lemma put_channel_newer id ch s s' : cache_ok s → put_channel id ch s = Ret s' → newer s s'.
Proof.
  intros Hok. unfold put_channel. destruct (nc_channels s !! id) as [old|].
  - case_match; [|by intros [= <-]]. destruct (stop_newer id s Hok) as (s1 & -> & Hn & _). intros [= <-].
    etrans; [exact Hn|apply start_channel_newer].
  - intros [= <-]. apply start_channel_newer.
Qed.

(** A channel that changed has no queue, or a new one. *)
Lemma put_channel_replaces id ch old s s' :
  cache_ok s → nc_channels s !! id = Some old → NChan.UpdateAt old ≠ NChan.UpdateAt ch → put_channel id ch s = Ret s' →
  ∀ q, sl_chan (nc_http s') !! id = Some q → (nc_next s ≤ q)%nat.
Proof.
  intros Hok Hold Hne. unfold put_channel, channelConfigChanged. rewrite Hold, (proj2 (Z.eqb_neq _ _) Hne). simpl.
  destruct (stop_newer id s Hok) as (s1 & -> & _ & Hn1 & Hc1). intros [= <-] q Hq.
  apply (nw_chan _ _ (start_channel_newer id ch s1)) in Hq as [Hq|Hq]; [congruence|lia].
Qed.

Lemma remove_channels_newer ids s s' : cache_ok s → remove_channels ids s = Ret s' → newer s s'.
Proof.
  revert s. induction ids as [|x ids IH]; intros s Hok; simpl; [by intros [= <-]|].
  destruct (remove_channel_ok x s Hok) as (s1 & Hr & Hok1 & _). rewrite Hr. simpl. intros Hs'.
  trans s1; [|by apply IH]. revert Hr. unfold remove_channel.
  destruct (stop_newer x s Hok) as (s2 & -> & Hn & _). intros [= <-]. etrans; [exact Hn|].
  apply newer_same; [done..|]. simpl; rsimp. apply delete_subseteq.
Qed.

Lemma put_channels_newer new s s' : cache_ok s → put_channels new s = Ret s' → newer s s'.
Proof.
  revert s. induction new as [|[x ch] new IH]; intros s Hok; simpl; [by intros [= <-]|].
  destruct (put_channel_ok x ch s Hok) as (s1 & Hp & Hok1 & _). rewrite Hp. simpl. intros Hs'.
  trans s1; [by eapply put_channel_newer|by apply IH].
Qed.

Lemma put_channels_replaces new id ch old s s' :
  cache_ok s → NoDup new.*1 → (id, ch) ∈ new → nc_channels s !! id = Some old →
  NChan.UpdateAt old ≠ NChan.UpdateAt ch → put_channels new s = Ret s' →
  ∀ q, sl_chan (nc_http s') !! id = Some q → (nc_next s ≤ q)%nat.
Proof.
  revert s. induction new as [|[x c] new IH]; intros s Hok Hnd Hin Hold Hne; simpl; [by apply elem_of_nil in Hin|].
  csimpl in Hnd. apply NoDup_cons in Hnd as [Hx Hnd].
  destruct (put_channel_ok x c s Hok) as (s1 & Hp & Hok1 & c' & Hch1 & _). rewrite Hp. simpl. intros Hs' q Hq.
  pose proof (nw_next _ _ (put_channel_newer _ _ _ _ Hok Hp)) as Hle.
  apply elem_of_cons in Hin as [[= <- <-]|Hin].
  - apply (nw_chan _ _ (put_channels_newer _ _ _ Hok1 Hs')) in Hq as [Hq|Hq]; [|lia].
    eapply put_channel_replaces; [exact Hok|exact Hold|exact Hne|exact Hp|exact Hq].
  - assert (x ≠ id) by (intros ->; apply Hx; by eapply (list_elem_of_fmap_2 fst) in Hin).
    assert (nc_next s1 ≤ q)%nat; [|lia]. eapply IH; [exact Hok1|done|exact Hin| |exact Hne|exact Hs'|exact Hq].
    by rewrite Hch1, lookup_insert_ne.
Qed.

Lemma NC_Set_newer m total lastUpdated s s' : cache_ok s → NC_Set m total lastUpdated s = Ret s' → newer s s'.
Proof.
  intros Hok. unfold NC_Set, removeDeletedChannels, addOrUpdateChannels.
  destruct (remove_channels_ok (List.filter (λ id, negb (bool_decide (is_Some (m !! id)))) (go_range (nc_channels s)).*1) s Hok)
    as (s1 & Hr & Hok1 & _). rewrite Hr. simpl.
  destruct (put_channels_ok (go_range m) s1 Hok1 (NoDup_fst_go_range m)) as (s2 & Hp & _). rewrite Hp. simpl. intros [= <-].
  trans s1; [by eapply remove_channels_newer|]. trans s2; [by eapply put_channels_newer|]. by apply newer_same.
Qed.

Lemma NC_Set_replaces m total lastUpdated id old s s' :
  cache_ok s → nc_channels s !! id = Some old → (∀ ch, m !! id = Some ch → NChan.UpdateAt old ≠ NChan.UpdateAt ch) →
  NC_Set m total lastUpdated s = Ret s' → ∀ q, sl_chan (nc_http s') !! id = Some q → (nc_next s ≤ q)%nat.
Proof.
  intros Hok Hold Hne Hset q Hq. destruct (m !! id) as [ch|] eqn:Hm; cycle 1.
  { destruct (NC_Set_ok m total lastUpdated s Hok) as (s'' & Hset' & [Hh _ _ _ _ _] & Hch). exfalso.
    rewrite Hset in Hset'. injection Hset' as <-. specialize (Hch id). rewrite Hm in Hch.
    assert (is_Some (chan_wanted s' want_http id)) as [? Hw]
      by (apply (so_want _ _ _ _ Hh), (so_dom _ _ _ _ Hh); by exists q).
    unfold chan_wanted in Hw. by destruct (nc_channels s' !! id). }
  revert Hset. unfold NC_Set, removeDeletedChannels, addOrUpdateChannels. set (gone := List.filter _ _).
  destruct (remove_channels_ok gone s Hok) as (s1 & Hr & Hok1 & Hch1). rewrite Hr. simpl.
  destruct (put_channels_ok (go_range m) s1 Hok1 (NoDup_fst_go_range m)) as (s2 & Hp & _). rewrite Hp. simpl. intros [= <-].
  pose proof (nw_next _ _ (remove_channels_newer _ _ _ Hok Hr)).
  assert (nc_next s1 ≤ q)%nat; [|lia].
  eapply (put_channels_replaces (go_range m) id ch old); [exact Hok1|apply NoDup_fst_go_range| | |by apply Hne|exact Hp|exact Hq].
  - by apply elem_of_go_range.
  - rewrite Hch1, decide_False; [done|]. intros Hin%list_elem_of_In. apply filter_In in Hin as [_ Hb].
    rewrite Hm in Hb. by rewrite bool_decide_true in Hb.
Qed.

(** A queue that no channel has and that no consumer is about to take a task from. *)
Record abandoned (q : nat) (tasks : list NotifyTask) st : Prop := {
  ab_old : (q < nc_next (qs_cache st))%nat;
  ab_chan id : sl_chan (nc_http (qs_cache st)) !! id ≠ Some q;
  ab_armed id quit : (id, q, quit) ∉ qs_armed st;
  ab_tasks : ∃ queue new, nc_store (qs_cache st) !! q = Some queue ∧ tq_items queue = new ++ tasks
}.

Lemma abandoned_step q tasks st st' :
  cache_ok (qs_cache st) → qs_step st st' → abandoned q tasks st → abandoned q tasks st'.
Proof.
  intros Hok Hstep [Hlt Hno Har (queue & new & Hs & Hi)]. destruct Hstep; simpl in *.
  - pose proof (NC_Set_newer _ _ _ _ _ Hok H) as [Hn Hc Hst]. split; simpl; [lia| |done|].
    + intros id [E|E]%Hc; [by eapply Hno|lia].
    + rewrite Hst by lia. eauto.
  - split; simpl; eauto.
  - split; simpl; rsimp; [done..|]. destruct (decide (q0 = q)) as [->|Hq].
    + rewrite lookup_insert_eq. assert (queue0 = queue) as -> by congruence. pose proof (tq_PushFront_spec queue task) as Hp.
      destruct (tq_PushFront queue task) as [queue' []]; simpl in Hp |- *; eexists _, _; (split; [reflexivity|]); rewrite Hp, Hi.
      * by rewrite app_comm_cons.
      * reflexivity.
    + rewrite lookup_insert_ne by done. eauto.
  - split; simpl; [done..| |eauto]. intros i qt [[= -> <- ->]|Hin]%elem_of_cons; [|by eapply Har].
    apply elem_of_running in H as (Hw & _ & Hopen).
    destruct (so_run _ _ _ _ (ro_http _ _ _ Hok) _ _ _ Hw Hopen) as [E _]. by eapply Hno.
  - assert (q0 ≠ q) as Hq by (intros ->; eapply Har, elem_of_app; right; left).
    split; simpl; rsimp; [done|done| |rewrite lookup_insert_ne by done; eauto].
    intros i qt Hin. apply (Har i qt). apply elem_of_app in Hin as [?|?]; apply elem_of_app; [by left|by right; right].
Qed.

Lemma abandoned_steps q tasks st st' :
  rtc qs_step st st' → cache_ok (qs_cache st) → abandoned q tasks st → abandoned q tasks st'.
Proof. induction 1; eauto using qs_step_ok, abandoned_step. Qed.

(** C18. When a channel is edited or deleted, the tasks that wait in its queue are never
    sent: whatever happens afterwards, no consumer takes them, unless it had already
    looked at its quit channel when the channel was replaced. *)
Theorem update_abandons m total lastUpdated st s' st' id old q queue :
  qs_reach st → nc_channels (qs_cache st) !! id = Some old →
  (∀ ch, m !! id = Some ch → NChan.UpdateAt old ≠ NChan.UpdateAt ch) →
  sl_chan (nc_http (qs_cache st)) !! id = Some q → nc_store (qs_cache st) !! q = Some queue →
  (∀ i quit, (i, q, quit) ∉ qs_armed st) →
  NC_Set m total lastUpdated (qs_cache st) = Ret s' →
  rtc qs_step (mkQsys s' (qs_pushes st) (qs_armed st)) st' →
  abandoned q (tq_items queue) st'.
Proof.
  intros Hr%qs_reach_ok Hold Hne Hq Hs Har Hset Hsteps.
  pose proof (NC_Set_newer _ _ _ _ _ Hr Hset) as [Hn Hc Hst].
  pose proof (so_chan _ _ _ _ (ro_http _ _ _ Hr) id q Hq) as Hlt.
  eapply abandoned_steps; [exact Hsteps|..]; simpl.
  { destruct (NC_Set_ok m total lastUpdated _ Hr) as (s'' & ? & ? & _). congruence. }
  split; simpl; [lia| |done|].
  - intros i Hi. destruct (decide (i = id)) as [->|Hii].
    + pose proof (NC_Set_replaces m total lastUpdated id old _ _ Hr Hold Hne Hset q Hi). lia.
    + apply Hc in Hi as [Hi|Hi]; [|lia]. apply Hii. by eapply (so_chinj _ _ _ _ (ro_http _ _ _ Hr)).
  - rewrite Hst by lia. exists queue, []. done.
Qed.
End cache_spec.
