(* ===== verification/Notify.v ===== *)
(** * Sending the messages of notification rules

    [SendNotifyRuleMessage] ([alert/dispatch/dispatch.go]) renders the template of a
    message and hands it to its channel; HTTP messages go to the queue of the channel
    and are sent by its consumers, mails to its mail goroutine
    ([memsto/notify_channel_cache.go]). *)

From Stdlib Require Import Ascii.
From S2P Require Import Prelude GoStrings Json Models RuleModels EventOps Http Queues Dispatch.
From S2P Require Import Senders Callbacks Channels ChannelCache.
Open Scope string_scope.
Open Scope Z_scope.
Open Scope list_scope.

Section targets.
Context `{GR : GoRange}.

(** The last four runes of a parameter are masked. *)
Definition mask_value (value : string) : string :=
  let rs := runes value in
  if (length rs <=? 4)%nat then value else join (take (length rs - 4) rs) "" +:+ "****".

Definition getSendTarget (customParams : gmap string string) (sendtos : list string) : string :=
  if (size customParams =? 0)%nat then join sendtos ","
  else join (map (λ kv, mask_value (snd kv)) (go_range customParams)) ",".
End targets.

(** ** The state of sending *)

(** The network and the records, the cache of channels, and the mails whose senders
    wait on the channel of a mail goroutine, with its address. *)
Record nrstate {World : Type} `{RecordQueueLib, TaskQueueLib} := mkNrstate {
  nr_s : sstate (World := World);
  nr_cache : ncache;
  nr_mails : list (nat * EmailContext)
}.

Section notify.
Context {World : Type} `{NW : Network World, CK : ClockLib World, OSI : Os World, RQ : RecordQueueLib, TQ : TaskQueueLib}.
Context `{GR : GoRange, UC : UnicodeCase, HL : HashLib, TL : TemplateLib, QL : QueryLib, CL : ContactsLib}.
Context `{!Json (list AlertCurEvent), !Json pager_body, !Json script_stdin, !Json HTTPRequestConfig}.
Context `{!Json iface, !Json (list Z), !Json (list string)}.
Context `{!Json (list NotificationRecord), !Json (DataResponse iface)}.
Context (show_records : list NotificationRecord → string) (cx : center_ctx) (send_stamp : World → string).
Context (cwd cmd_String : string → string).
Notation sstate := (@sstate World RQ).
Notation nrstate := (@nrstate World RQ TQ).
#[global] Instance nrstate_eta : Settable nrstate := λ r, mkNrstate _ _ _ (nr_s r) (nr_cache r) (nr_mails r).
Implicit Types (s : sstate) (st : nrstate) (w : World).
Notation NotifyRecord := (NotifyRecord show_records cx).

(** Recording the outcome of a call, with how long it took. *)
Definition record_call (events : list AlertCurEvent) (notifyRuleId : Z) (channel target : string)
    (out : World * (string * option error)) s : sstate :=
  let '(w, (resp, err)) := out in
  NotifyRecord events notifyRuleId channel target (send_stamp w +:+ resp) err (s <| ss_world := w |>).

(** ** HTTP tasks *)

Definition needBatchContacts (c : option HTTPRequestConfig) : bool :=
  match c with
  | None => false
  | Some c => match json_marshal c with Ok b => contains b "$sendtos" | Err _ => false end
  end.

Definition send_task (client : option HttpClient) (task : NotifyTask) (sendtos : list string) s : go sstate :=
  let ch := nt_NotifyChannel task in
  out ← SendHTTP ch (nt_Events task) (nt_TplContent task) (nt_CustomParams task) sendtos client (ss_world s);
  Ret (record_call (nt_Events task) (nt_NotifyRuleId task) (NChan.Name ch)
         (getSendTarget (nt_CustomParams task) sendtos) out s).

Fixpoint send_tasks (client : option HttpClient) (task : NotifyTask) (each : list (list string)) s : go sstate :=
  match each with
  | [] => Ret s
  | sendtos :: each => s ← send_task client task sendtos s; send_tasks client task each s
  end.

(** [processNotifyTask]: one request for all receivers, when there are none or the
    request names them together, and otherwise one for each. *)
Definition processNotifyTask (clients : gmap Z HttpClient) (task : NotifyTask) s : go sstate :=
  let ch := nt_NotifyChannel task in
  let client := clients !! NChan.ID ch in
  if String.eqb (NChan.RequestType ch) "http" then
    if (length (nt_Sendtos task) =? 0)%nat then send_tasks client task [nt_Sendtos task] s
    else
      c ← request_config ch ReqConf.HTTPRequestConfig;
      send_tasks client task
        (if needBatchContacts c then [nt_Sendtos task] else map (λ t, [t]) (nt_Sendtos task)) s
  else Ret s.

(** ** [SendNotifyRuleMessage]

    Sending a mail on the channel of the goroutine blocks until it is taken; when the
    cache has no such channel, sending on the nil channel blocks for ever. *)

(** The log line after a call names the URL of the configuration. *)
Definition logged_url (ch : NotifyChannelConfig) : go string :=
  f ← request_config ch ReqConf.FlashDutyRequestConfig;
  match f with Some f => Ret (FlashReq.IntegrationUrl f) | None => Panic end.

Fixpoint send_flashduty (ch : NotifyChannelConfig) (events : list AlertCurEvent) (notifyRuleId : Z)
    (client : option HttpClient) (ids : list Z) s : go sstate :=
  match ids with
  | [] => Ret s
  | id :: ids =>
      out ← SendFlashDuty ch events id client (ss_world s);
      _ ← logged_url ch;
      send_flashduty ch events notifyRuleId client ids
        (record_call events notifyRuleId (NChan.Name ch) (itoa id) out s)
  end.

Definition send_pagerduty (ch : NotifyChannelConfig) (events : list AlertCurEvent) (notifyRuleId : Z)
    (siteUrl : string) (client : option HttpClient) (keys : list string) s : sstate :=
  foldl (λ s key, record_call events notifyRuleId (NChan.Name ch) ""
                    (SendPagerDuty ch events key siteUrl client (ss_world s)) s) s keys.

Definition channel_contact_key (ch : NotifyChannelConfig) : string :=
  default "" (NChan.ParamConfig ch ≫= ParamConf.ContactKey).

Definition SendNotifyRuleMessage (users : gmap Z User) (groups : gmap Z UserGroup) (siteUrl : string)
    (events : list AlertCurEvent) (notifyRuleId : Z) (cfg : NotifyConfig) (ch : NotifyChannelConfig)
    (tpl : option MessageTemplate) st : go nrstate :=
  if (length events =? 0)%nat then Ret st
  else
    let t := NChan.RequestType ch in
    let tplContent := if negb (String.eqb t "flashduty") then RenderEvent tpl events siteUrl else ∅ in
    '(sendtos, ids, keys, customParams) ← GetNotifyConfigParams cfg (channel_contact_key ch) users groups;
    let client := nc_clients (nr_cache st) !! NChan.ID ch in
    let s := nr_s st in
    if String.eqb t "flashduty" then
      s ← send_flashduty ch events notifyRuleId client (if (length ids =? 0)%nat then [0] else ids) s;
      Ret (st <| nr_s := s |>)
    else if String.eqb t "pagerduty" then
      Ret (st <| nr_s := send_pagerduty ch events notifyRuleId siteUrl client keys s |>)
    else if String.eqb t "http" then
      let '(nc, success) :=
        EnqueueNotifyTask (mkNotifyTask events notifyRuleId ch tplContent customParams sendtos) (nr_cache st) in
      let st := st <| nr_cache := nc |> in
      Ret (if success then st
           else st <| nr_s := NotifyRecord events notifyRuleId (NChan.Name ch) (getSendTarget customParams sendtos) ""
                                (Some "failed to enqueue notify task, queue is full") s |>)
    else if String.eqb t "smtp" then
      m ← SendEmail ch notifyRuleId events tplContent sendtos;
      Ret (match sl_chan (nc_smtp (nr_cache st)) !! NChan.ID ch with
           | Some c => st <| nr_mails := nr_mails st ++ [(c, m)] |>
           | None => st
           end)
    else if String.eqb t "script" then
      '(w, (target, res, err)) ← SendScript cwd cmd_String ch events tplContent customParams sendtos (ss_world s);
      Ret (st <| nr_s := record_call events notifyRuleId (NChan.Name ch) target (w, (res, err)) s |>)
    else Ret st.

(** ** The mail goroutine of a channel

    The goroutine runs, has returned, or blocks while it puts a mail back: the Go
    channel has no buffer and no other reader. *)

Inductive cmail_status := CRunning | CStopped | CBlocked (m : EmailContext).

Record cmail_state := mkCmailState { cm_open : bool; cm_size : Z; cm_status_ : cmail_status; cm_s : sstate }.
#[global] Instance cmail_state_eta : Settable cmail_state := λ r,
  mkCmailState (cm_open r) (cm_size r) (cm_status_ r) (cm_s r).

(** [dialSmtp] ends with a connection, or without one when it is told to quit. *)
Context (smtp_dial : World → World * bool) (smtp_send : World → email_message → World * option error).
Context (smtp_close : World → World).
Implicit Types cm : cmail_state.

Definition cm_act cm (f : World → World) : cmail_state :=
  cm <| cm_s := (cm_s cm) <| ss_world := f (ss_world (cm_s cm)) |> |>.

Definition cmail_start (conf : SmtpReq.SMTPRequestConfig) s : cmail_state :=
  mkCmailState false 0 (if String.eqb (SmtpReq.Host conf) "" || (SmtpReq.Port conf =? 0) then CStopped else CRunning) s.

Definition cmail_sent (batch : Z) (m : EmailContext) (err : option error) cm : cmail_state :=
  let target := join (em_To (ec_Mail m)) "," in
  let cm := cm <| cm_s := NotifyRecord (ec_Events m) (ec_NotifyRuleId m) "Email" target "success" err (cm_s cm) |>
               <| cm_size := cm_size cm + 1 |> in
  if batch <=? cm_size cm then (cm_act cm smtp_close) <| cm_open := false |> <| cm_size := 0 |> else cm.

(** Sending on the open connection, with one retry on a new one. *)
Definition cmail_try (batch : Z) (m : EmailContext) cm : cmail_state :=
  match smtp_send (ss_world (cm_s cm)) (ec_Mail m) with
  | (w, None) => cmail_sent batch m None (cm_act cm (λ _, w))
  | (w, Some _) =>
      let '(w, ok) := smtp_dial (smtp_close w) in
      let cm := cm_act cm (λ _, w) in
      if negb ok then cm <| cm_status_ := CBlocked m |>
      else
        let cm := cm <| cm_open := true |> in
        let '(w, err) := smtp_send (ss_world (cm_s cm)) (ec_Mail m) in
        cmail_sent batch m err (cm_act cm (λ _, w))
  end.

Definition cmail_send (batch : Z) (m : EmailContext) cm : cmail_state :=
  if negb (cm_open cm) then
    let '(w, ok) := smtp_dial (ss_world (cm_s cm)) in
    let cm := cm_act cm (λ _, w) in
    if negb ok then cm <| cm_status_ := CBlocked m |> else cmail_try batch m (cm <| cm_open := true |>)
  else cmail_try batch m cm.

Inductive cmail_input := CQuit | CMail (m : EmailContext) | CTimeout.

(** One turn of the loop; a goroutine that does not run takes nothing. *)
Definition cmail_turn (batch : Z) (i : cmail_input) cm : cmail_state :=
  match cm_status_ cm with
  | CRunning =>
      match i with
      | CQuit => cm <| cm_status_ := CStopped |>
      | CMail m => cmail_send batch m cm
      | CTimeout => if cm_open cm then (cm_act cm smtp_close) <| cm_open := false |> else cm
      end
  | _ => cm
  end.

(** ** Every message leaves a record *)

Lemma record_call_recorded events id channel target out s :
  cx_IsCenter cx = true → room s (length events) →
  recorded s (record_call events id channel target out s) (event_keys channel target events).
Proof.
  intros Hc Hroom. destruct out as [w [resp err]]. unfold record_call.
  change (event_keys channel target events) with ([] ++ event_keys channel target events).
  eapply recorded_trans; [exact (recorded_world s (λ _, w))|]. by apply NotifyRecord_recorded.
Qed.

Lemma recorded_keys_room s s' channel target events n :
  recorded s s' (event_keys channel target events) → room s (length events + n) → room s' n.
Proof. intros Hr Hroom. eapply recorded_room; [exact Hr|]. unfold event_keys. by rewrite length_map. Qed.

Lemma send_task_recorded client task sendtos s c :
  cx_IsCenter cx = true → http_conf (nt_NotifyChannel task) = Some c → room s (length (nt_Events task)) →
  ∃ s', send_task client task sendtos s = Ret s' ∧
    recorded s s' (event_keys (NChan.Name (nt_NotifyChannel task)) (getSendTarget (nt_CustomParams task) sendtos)
                     (nt_Events task)).
Proof.
  intros Hcx Hc Hroom. unfold send_task.
  assert (∃ out, SendHTTP (nt_NotifyChannel task) (nt_Events task) (nt_TplContent task) (nt_CustomParams task) sendtos
                   client (ss_world s) = Ret out) as [out ->].
  { unfold http_conf in Hc. unfold SendHTTP, request_config. destruct client; [|by eexists]. case_match; [by eexists|].
    destruct (NChan.RequestConfig (nt_NotifyChannel task)) as [rc|]; [|done]. simpl in *. rewrite Hc.
    destruct (parseRequestBody c _) as [body [err|]]; by eexists. }
  simpl. eexists. split; [reflexivity|]. by apply record_call_recorded.
Qed.

Lemma send_tasks_recorded client task each s c :
  cx_IsCenter cx = true → http_conf (nt_NotifyChannel task) = Some c →
  room s (length each * length (nt_Events task)) →
  ∃ s', send_tasks client task each s = Ret s' ∧
    recorded s s' (concat (map (λ tos, event_keys (NChan.Name (nt_NotifyChannel task))
                                        (getSendTarget (nt_CustomParams task) tos) (nt_Events task)) each)).
Proof.
  intros Hcx Hc. revert s. induction each as [|tos each IH]; intros s Hroom; simpl in *.
  { exists s. split; [done|]. apply recorded_refl. }
  destruct (send_task_recorded client task tos s c) as (s1 & -> & H1); [done..|unfold room in *; lia|]. simpl.
  destruct (IH s1) as (s' & -> & H2); [by eapply recorded_keys_room|].
  exists s'. split; [done|]. by eapply recorded_trans.
Qed.

Definition task_groups (task : NotifyTask) : list (list string) :=
  if (length (nt_Sendtos task) =? 0)%nat || needBatchContacts (http_conf (nt_NotifyChannel task))
  then [nt_Sendtos task] else map (λ t, [t]) (nt_Sendtos task).

(** A task that a consumer takes is recorded for every event and every request it
    stands for, whether the requests succeed or not. *)
Lemma processNotifyTask_recorded clients task s c :
  cx_IsCenter cx = true → NChan.RequestType (nt_NotifyChannel task) = "http" →
  http_conf (nt_NotifyChannel task) = Some c → room s (length (task_groups task) * length (nt_Events task)) →
  ∃ s', processNotifyTask clients task s = Ret s' ∧
    recorded s s' (concat (map (λ tos, event_keys (NChan.Name (nt_NotifyChannel task))
                                        (getSendTarget (nt_CustomParams task) tos) (nt_Events task)) (task_groups task))).
Proof.
  intros Hcx Ht Hc Hroom. unfold processNotifyTask, task_groups in *. rewrite Ht. cbn [String.eqb Ascii.eqb Bool.eqb].
  destruct (length (nt_Sendtos task) =? 0)%nat; [by eapply send_tasks_recorded|].
  rewrite Hc in *. unfold http_conf in Hc. unfold request_config.
  destruct (NChan.RequestConfig (nt_NotifyChannel task)) as [rc|] eqn:Erc; [|done]. simpl in Hc. simpl. rewrite Hc.
  eapply send_tasks_recorded; [done| |done]. unfold http_conf. rewrite Erc. exact Hc.
Qed.

Lemma send_flashduty_recorded ch events nid client ids s f :
  cx_IsCenter cx = true → NChan.RequestConfig ch ≫= ReqConf.FlashDutyRequestConfig = Some f →
  room s (length ids * length events) →
  ∃ s', send_flashduty ch events nid client ids s = Ret s' ∧
    recorded s s' (concat (map (λ i, event_keys (NChan.Name ch) (itoa i) events) ids)).
Proof.
  intros Hcx Hf. revert s. induction ids as [|i ids IH]; intros s Hroom; simpl in *.
  { exists s. split; [done|]. apply recorded_refl. }
  assert (∃ out, SendFlashDuty ch events i client (ss_world s) = Ret out) as [out ->].
  { unfold SendFlashDuty, request_config. destruct client; [|by eexists]. case_match; [|by eexists].
    destruct (NChan.RequestConfig ch); [|done]. simpl in *. rewrite Hf. by eexists. }
  assert (logged_url ch = Ret (FlashReq.IntegrationUrl f)) as Hlog.
  { unfold logged_url, request_config. destruct (NChan.RequestConfig ch); [|done]. simpl in *. by rewrite Hf. }
  simpl. rewrite Hlog. simpl. pose proof (record_call_recorded events nid (NChan.Name ch) (itoa i) out s Hcx) as H1.
  destruct (IH (record_call events nid (NChan.Name ch) (itoa i) out s)) as (s' & -> & H2).
  { eapply recorded_keys_room; [apply H1|exact Hroom]. unfold room in *; lia. }
  exists s'. split; [done|]. eapply recorded_trans; [apply H1; unfold room in *; lia|done].
Qed.

Lemma send_pagerduty_recorded ch events nid siteUrl client keys s :
  cx_IsCenter cx = true → room s (length keys * length events) →
  recorded s (send_pagerduty ch events nid siteUrl client keys s)
    (concat (map (λ _, event_keys (NChan.Name ch) "" events) keys)).
Proof.
  intros Hcx. revert s. induction keys as [|k keys IH]; intros s Hroom; simpl in *; [apply recorded_refl|].
  set (s1 := record_call _ _ _ _ _ _).
  assert (recorded s s1 (event_keys (NChan.Name ch) "" events)) as H1
    by (apply record_call_recorded; [done|unfold room in *; lia]).
  eapply recorded_trans; [exact H1|]. apply IH. by eapply recorded_keys_room.
Qed.

(** What a goroutine did with a mail it took when its records were [s]: it recorded
    it for every event and goes on, or it blocks, and the mail is lost. *)
Definition cmail_outcome (batch : Z) (m : EmailContext) s cm : Prop :=
  (cm_status_ cm = CBlocked m ∧ (∀ inputs, foldl (λ c i, cmail_turn batch i c) cm inputs = cm) ∧ recorded s (cm_s cm) []) ∨
  (cm_status_ cm = CRunning ∧
   recorded s (cm_s cm) (event_keys "Email" (join (em_To (ec_Mail m)) ",") (ec_Events m))).

Lemma cmail_blocked_outcome batch m s cm w :
  recorded s (cm_s cm) [] → cmail_outcome batch m s ((cm_act cm (λ _, w)) <| cm_status_ := CBlocked m |>).
Proof.
  intros Hr. left. split_and!; [done| |exact (recorded_trans _ _ _ _ _ Hr (recorded_world (cm_s cm) (λ _, w)))].
  intros inputs. induction inputs as [|i inputs IH]; [done|exact IH].
Qed.

Lemma cmail_sent_outcome batch m err s cm w :
  cx_IsCenter cx = true → cm_status_ cm = CRunning → room s (length (ec_Events m)) → recorded s (cm_s cm) [] →
  cmail_outcome batch m s (cmail_sent batch m err (cm_act cm (λ _, w))).
Proof.
  intros Hcx Hrun Hroom Hr0. pose proof (recorded_trans _ _ _ _ _ Hr0 (recorded_world (cm_s cm) (λ _, w))) as Hr.
  assert (room (cm_s (cm_act cm (λ _, w))) (length (ec_Events m))) as Hroom1 by by eapply recorded_room.
  pose proof (NotifyRecord_recorded show_records cx (ec_Events m) (ec_NotifyRuleId m) "Email" (join (em_To (ec_Mail m)) ",")
    "success" err _ Hcx Hroom1) as Hn. pose proof (recorded_trans _ _ _ _ _ Hr Hn) as Hrn.
  right. unfold cmail_sent. case_match; [|done]. split; [done|].
  rewrite <- (app_nil_r (event_keys _ _ _)). exact (recorded_trans _ _ _ _ _ Hrn (recorded_world _ smtp_close)).
Qed.

Lemma cmail_try_outcome batch m s cm :
  cx_IsCenter cx = true → cm_status_ cm = CRunning → room s (length (ec_Events m)) → recorded s (cm_s cm) [] →
  cmail_outcome batch m s (cmail_try batch m cm).
Proof.
  intros Hcx Hrun Hroom Hr. unfold cmail_try.
  destruct (smtp_send _ _) as [w [err|]]; [|by apply cmail_sent_outcome].
  destruct (smtp_dial _) as [w2 []]; simpl; [|by apply cmail_blocked_outcome].
  destruct (smtp_send _ _) as [w3 err3]. apply cmail_sent_outcome; [done..|].
  exact (recorded_trans _ _ _ _ _ Hr (recorded_world (cm_s cm) (λ _, w2))).
Qed.

(** A mail that the goroutine takes is recorded for every event, whether it could be
    sent or not, and the goroutine goes on; or, when it was told to quit while it
    dialed, the goroutine blocks for ever and the mail is lost. *)
Theorem cmail_turn_accounted batch m cm :
  cx_IsCenter cx = true → cm_status_ cm = CRunning → room (cm_s cm) (length (ec_Events m)) →
  cmail_outcome batch m (cm_s cm) (cmail_turn batch (CMail m) cm).
Proof.
  intros Hcx Hrun Hroom. unfold cmail_turn. rewrite Hrun. unfold cmail_send.
  destruct (negb (cm_open cm)); [|apply cmail_try_outcome; [done..|apply recorded_refl]].
  destruct (smtp_dial _) as [w []]; simpl; [|apply cmail_blocked_outcome, recorded_refl].
  apply cmail_try_outcome; [done..|]. exact (recorded_world (cm_s cm) (λ _, w)).
Qed.

(** ** What becomes of a message *)

(** A verified channel has the configuration of its type. *)
Lemma Channel_Verify_config ch :
  Channel_Verify ch = Ret None →
  ∃ rc, NChan.RequestConfig ch = Some rc ∧
    ((NChan.RequestType ch = "http" ∧ is_Some (ReqConf.HTTPRequestConfig rc)) ∨
     (NChan.RequestType ch = "smtp" ∧ is_Some (ReqConf.SMTPRequestConfig rc)) ∨
     (NChan.RequestType ch = "script" ∧ is_Some (ReqConf.ScriptRequestConfig rc)) ∨
     (NChan.RequestType ch = "flashduty" ∧ is_Some (ReqConf.FlashDutyRequestConfig rc)) ∨
     (NChan.RequestType ch = "pagerduty" ∧ is_Some (ReqConf.PagerDutyRequestConfig rc))).
Proof.
  unfold Channel_Verify. do 3 (case_match; [done|]). case_bool_decide as Ht; [simpl|done]. case_match; [done|].
  unfold Validate, validate, request_config.
  rewrite !elem_of_cons, elem_of_nil in Ht.
  destruct (NChan.RequestConfig ch) as [rc|]; [|by destruct Ht as [->|[->|[->|[->|[->|[]]]]]]].
  intros Hv. exists rc. split; [done|].
  destruct Ht as [Ht|[Ht|[Ht|[Ht|[Ht|[]]]]]]; rewrite Ht in *; simpl in Hv; injection Hv as Hv; case_match; naive_solver.
Qed.

(** The targets of the records of a message that is not queued; [target] is that of
    the one record of an HTTP message or a script. *)
Definition record_targets (ch : NotifyChannelConfig) (ids : list Z) (keys : list string) (target : string) : list string :=
  if String.eqb (NChan.RequestType ch) "flashduty" then map itoa (if (length ids =? 0)%nat then [0] else ids)
  else if String.eqb (NChan.RequestType ch) "pagerduty" then map (λ _, "") keys
  else [target].

(** The task waits at the front of the queue of its channel. *)
Definition queued (task : NotifyTask) (nc nc' : ncache) : Prop :=
  ∃ q queue queue', sl_chan (nc_http nc) !! NChan.ID (nt_NotifyChannel task) = Some q ∧
    nc_store nc !! q = Some queue ∧ nc' = nc <| nc_store := <[q := queue']> (nc_store nc) |> ∧
    tq_items queue' = task :: tq_items queue.

Lemma EnqueueNotifyTask_spec task nc :
  EnqueueNotifyTask task nc = (fst (EnqueueNotifyTask task nc), true) ∧ queued task nc (fst (EnqueueNotifyTask task nc)) ∨
  snd (EnqueueNotifyTask task nc) = false.
Proof.
  unfold EnqueueNotifyTask, queued.
  destruct (sl_chan (nc_http nc) !! _) as [q|] eqn:Hq; [|by right].
  destruct (nc_store nc !! q) as [queue|] eqn:Hs; [|by right].
  pose proof (tq_PushFront_spec queue task) as Hp. destruct (tq_PushFront queue task) as [queue' []]; [left|by right].
  split; [done|]. by exists q, queue, queue'.
Qed.

Lemma map_concat_keys (channel : string) (events : list AlertCurEvent) {A} (f : A → string) (l : list A) :
  concat (map (λ x, event_keys channel (f x) events) l) = concat (map (λ t, event_keys channel t events) (map f l)).
Proof. by rewrite map_map. Qed.

(** C16. On a center node, what becomes of a message of a verified channel that is not a mail
    channel.  Sending panics exactly as reading the parameters of the notification does, which
    happens for a custom parameter that is not a text.  Otherwise, as long as the queue of
    records has room: an HTTP message that the queue of its channel accepts waits in it; and an
    HTTP message that was not accepted, because the channel has no queue or a full one, and a
    message of any other kind leave a record for every event and target, whether the calls
    succeed or not.  There is one target for each FlashDuty channel (the default one when there
    are none) and for each PagerDuty key, and one for a script or an HTTP message. *)
Theorem rule_message_accounted users groups siteUrl events nid cfg ch tpl st :
  cx_IsCenter cx = true → Channel_Verify ch = Ret None → NChan.RequestType ch ≠ "smtp" → events ≠ [] →
  match GetNotifyConfigParams cfg (channel_contact_key ch) users groups with
  | Panic => SendNotifyRuleMessage users groups siteUrl events nid cfg ch tpl st = Panic
  | Ret (sendtos, ids, keys, params) =>
      let task := mkNotifyTask events nid ch (RenderEvent tpl events siteUrl) params sendtos in
      (∀ target, room (nr_s st) (length (record_targets ch ids keys target) * length events)) →
      ∃ st', SendNotifyRuleMessage users groups siteUrl events nid cfg ch tpl st = Ret st' ∧ nr_mails st' = nr_mails st ∧
        if String.eqb (NChan.RequestType ch) "http" && snd (EnqueueNotifyTask task (nr_cache st))
        then nr_s st' = nr_s st ∧ queued task (nr_cache st) (nr_cache st')
        else ∃ target, recorded (nr_s st) (nr_s st')
               (concat (map (λ t, event_keys (NChan.Name ch) t events) (record_targets ch ids keys target)))
  end.
Proof.
  intros Hcx (rc & Hrc & Hty)%Channel_Verify_config Hsmtp Hev.
  destruct (GetNotifyConfigParams _ _ _ _) as [[[[sendtos ids] keys] params]|] eqn:Hpar; unfold SendNotifyRuleMessage;
    rewrite (proj2 (Nat.eqb_neq (length events) 0)) by (by destruct events); rewrite Hpar; [|done].
  intros Hroom. set (task := mkNotifyTask _ _ _ _ _ _). unfold record_targets in *. simpl.
  destruct Hty as [[Ht Hc]|[[Ht _]|[[Ht Hc]|[[Ht Hc]|[Ht Hc]]]]]; [|done|..]; rewrite Ht in *; cbn -[concat map] in *;
    destruct Hc as [c Hc].
  - fold task. destruct (EnqueueNotifyTask_spec task (nr_cache st)) as [[E Hq]|Hf].
    + rewrite E. eexists. split; [reflexivity|]. by split.
    + destruct (EnqueueNotifyTask task _) as [nc []]; [done|]. eexists. split; [reflexivity|]. split; [done|].
      exists (getSendTarget params sendtos). cbn [map concat]. rewrite app_nil_r. apply NotifyRecord_recorded; [done|]. specialize (Hroom ""). by rewrite Nat.add_0_r in Hroom.
  - destruct (SendScript _ _ _ _ _ _ _ _) as [[w [[target res] err]]|] eqn:Es.
    + simpl. eexists. split; [reflexivity|]. split; [done|]. exists target. cbn [map concat]. rewrite app_nil_r.
      apply (record_call_recorded events nid (NChan.Name ch) target (w, (res, err))); [done|]. specialize (Hroom "").
      by rewrite Nat.add_0_r in Hroom.
    + exfalso. unfold SendScript, request_config in Es. rewrite Hrc in Es. simpl in Es. rewrite Hc in Es.
      by repeat case_match.
  - destruct (send_flashduty_recorded ch events nid (nc_clients (nr_cache st) !! NChan.ID ch)
                (if (length ids =? 0)%nat then [0] else ids) (nr_s st) c) as (s' & -> & Hr).
    { done. } { by rewrite Hrc. } { specialize (Hroom ""). by rewrite length_map in Hroom. }
    simpl. eexists. split; [reflexivity|]. split; [done|]. exists "". by rewrite <- map_concat_keys.
  - eexists. split; [reflexivity|]. split; [done|]. exists "". rewrite <- map_concat_keys.
    apply send_pagerduty_recorded; [done|]. specialize (Hroom ""). by rewrite length_map in Hroom.
Qed.
End notify.
