(* ===== verification/WebProcessors.v ===== *)
(** * Processors that call a service

    callback ([alert/pipeline/processor/callback]) posts the event, event_update
    ([.../eventupdate]) posts it and decodes the answer into it, and ai_summary
    ([.../aisummary]) asks a chat model for a summary that becomes an annotation.
    The client a processor keeps between calls depends only on its configuration. *)

From Stdlib Require Import Ascii.
From S2P Require Import Prelude GoStrings Json Models RuleModels EventOps Workflow Engine Processors Http Push Channels.
Open Scope string_scope.
Open Scope Z_scope.
Open Scope list_scope.

Module WebConf.
Record HTTPConfig := mkHTTPConfig {
  URL : string;
  Method : string;
  Body : string;
  Headers : gmap string string;
  AuthUsername : string;
  AuthPassword : string;
  Timeout : Z;
  SkipSSLVerify : bool;
  Proxy : string
}.
End WebConf.
Notation HTTPConfig := WebConf.HTTPConfig.

Record CallbackConfig := mkCallbackConfig { cc_HTTPConfig : HTTPConfig }.
Record EventUpdateConfig := mkEventUpdateConfig { eu_HTTPConfig : HTTPConfig }.

Record AISummaryConfig := mkAISummaryConfig {
  ai_HTTPConfig : HTTPConfig;
  ai_ModelName : string;
  ai_APIKey : string;
  ai_PromptTemplate : string;
  ai_CustomParams : gmap string iface
}.

Record Message := mkMessage { msg_Role : string; msg_Content : string }.

(** The contents of the choices. *)
Record ChatCompletionResponse := mkChatCompletionResponse { Choices : list string }.

(** A value of the parameters of a chat request. *)
Inductive chat_param := CMessages (ms : list Message) | CValue (v : iface).

Definition HTTP_STATUS_SUCCESS_MAX : Z := 299.

Section web.
Context {World : Type} `{NW : Network World, GR : GoRange, UL : UrlLib, FL : FloatLib, TL : CtxTemplate}.
Context `{!Json AlertCurEvent, !Json (option AlertCurEvent), !Json (gmap string string), !Json (gmap string chat_param)}.
Context `{!Json ChatCompletionResponse, !Json (list iface), !Json (list (string * iface))}.
Implicit Types (w : World) (c : HTTPConfig) (ctx : WorkflowContext).

(** ** The client and the request *)

Definition web_client c : result HttpClient :=
  if negb (String.eqb (WebConf.Proxy c) "") then
    match url_Parse (WebConf.Proxy c) with
    | Err err => Err ("failed to parse proxy url: " +:+ err)
    | Ok _ => Ok (mkHttpClient (WebConf.Timeout c) false (WebConf.SkipSSLVerify c) (WebConf.Proxy c))
    end
  else Ok (mkHttpClient (WebConf.Timeout c) false (WebConf.SkipSSLVerify c) "").

(** The headers of the configuration override the content type. *)
Definition web_headers c : gmap string string :=
  foldl (λ m kv, <[fst kv := snd kv]> m) {["Content-Type" := "application/json"]} (go_range (WebConf.Headers c)).

Definition web_auth c (r : Request) : Request :=
  if negb (String.eqb (WebConf.AuthUsername c) "") && negb (String.eqb (WebConf.AuthPassword c) "")
  then r <| rq_auth := Some (WebConf.AuthUsername c, WebConf.AuthPassword c) |> else r.

(** Posting the event, which may be nil: the body of the answer, and whether an
    error came from reading it.  The texts of errors end with the configuration,
    which is left out here and below. *)
Definition post_event_to c (event : option AlertCurEvent) w : World * (result string * bool) :=
  match web_client c with
  | Err err => (w, (Err err, false))
  | Ok client =>
      match json_marshal event with
      | Err err => (w, (Err ("failed to marshal event: " +:+ err), false))
      | Ok body =>
          match NewRequest "POST" (WebConf.URL c) body with
          | Err err => (w, (Err ("failed to create request: " +:+ err), false))
          | Ok req =>
              let req := web_auth c (put_headers (web_headers c) req) in
              match http_do client w req with
              | (w, _, Err err) => (w, (Err ("failed to send request: " +:+ err), false))
              | (w, _, Ok resp) =>
                  match rs_error resp with
                  | Some err => (w, (Err ("failed to read response body: " +:+ err), true))
                  | None => (w, (Ok (rs_body resp), false))
                  end
              end
          end
      end
  end.

(** ** callback *)

Definition CallbackConfig_Process (c : option CallbackConfig) w ctx :
    go (World * WorkflowContext * result (returned_ctx * string)) :=
  match c with
  | None => Panic
  | Some c =>
      let '(w, (r, _)) := post_event_to (cc_HTTPConfig c) (WfCtx.Event ctx) w in
      Ret (w, ctx, match r with Err err => Err err | Ok _ => Ok (SameCtx, "callback success") end)
  end.

Definition CallbackConfig_Init `{!Json iface, !Json (option CallbackConfig)} (settings : iface) :
    go (result (Processor World)) :=
  Ret match InitProcessor settings with
      | Err err => Err err
      | Ok c => Ok (PlainProcessor (CallbackConfig_Process c))
      end.

(** ** event_update *)

(** [json.Unmarshal(b, &event)]: into the event the pointer points to.  Null sets
    the local pointer to nil and leaves the event of the workflow; a nil event
    of the workflow stays nil. *)
Definition decode_event (b : string) (event : option AlertCurEvent) : option AlertCurEvent * option error :=
  match event with
  | None => (None, snd (json_unmarshal b (None : option AlertCurEvent)))
  | Some e =>
      if String.eqb (trim_space b) "null" then (Some e, None)
      else let '(e, err) := json_unmarshal b e in (Some e, err)
  end.

Definition EventUpdateConfig_Process (c : option EventUpdateConfig) w ctx :
    go (World * WorkflowContext * result (returned_ctx * string)) :=
  match c with
  | None => Panic
  | Some c =>
      let '(w, (r, _)) := post_event_to (eu_HTTPConfig c) (WfCtx.Event ctx) w in
      match r with
      | Err err => Ret (w, ctx, Err err)
      | Ok b =>
          let '(event, err) := decode_event b (WfCtx.Event ctx) in
          Ret (w, ctx <| WfCtx.Event := event |>,
               match err with
               | Some err => Err ("failed to unmarshal response body: " +:+ err)
               | None => Ok (SameCtx, "")
               end)
      end
  end.

Definition EventUpdateConfig_Init `{!Json iface, !Json (option EventUpdateConfig)} (settings : iface) :
    go (result (Processor World)) :=
  Ret match InitProcessor settings with
      | Err err => Err err
      | Ok c => Ok (PlainProcessor (EventUpdateConfig_Process c))
      end.

(** ** ai_summary *)

(** [strconv.ParseBool]. *)
Definition parse_bool (s : string) : option bool :=
  if bool_decide (s ∈ ["1"; "t"; "T"; "TRUE"; "true"; "True"]) then Some true
  else if bool_decide (s ∈ ["0"; "f"; "F"; "FALSE"; "false"; "False"]) then Some false
  else None.

Definition decode_as {A} `{!Json A} (open str : string) (zero : A) (inj : A → iface) : option iface :=
  if has_prefix (trim_space str) open then
    match json_unmarshal str zero with (v, None) => Some (inj v) | (_, Some _) => None end
  else None.

(** The value a parameter of the form is sent as; it never fails. *)
Definition convertCustomParam (value : iface) : iface :=
  match value with
  | IString str =>
      match parse_float str with
      | Some f =>
          let i := float64_to_int f in
          if float64_eqb f (float_of_int i) then IInt i else IFloat f
      | None =>
          match parse_bool str with
          | Some b => IBool b
          | None =>
              match decode_as "[" str ([] : list iface) IList with
              | Some v => v
              | None => match decode_as "{" str ([] : list (string * iface)) IMap with Some v => v | None => value end
              end
          end
      end
  | _ => value
  end.

Definition chat_params (c : AISummaryConfig) (eventInfo : string) : gmap string chat_param :=
  foldl (λ m kv, <[fst kv := CValue (convertCustomParam (snd kv))]> m)
    {["model" := CValue (IString (ai_ModelName c)); "messages" := CMessages [mkMessage "user" eventInfo]]}
    (go_range (ai_CustomParams c)).

Definition prompt_defs : list string := ["{{$event := .Event}}"; "{{$env := .Env}}"].

Definition prepareEventInfo (c : AISummaryConfig) ctx : result string :=
  let text := join (prompt_defs ++ [ai_PromptTemplate c]) "" in
  match ctx_tpl_parse "prompt" text with
  | Some err => Err ("failed to parse prompt template: " +:+ err)
  | None =>
      match ctx_tpl_execute "prompt" text ctx with
      | Err err => Err ("failed to execute prompt template: " +:+ err)
      | Ok body => Ok body
      end
  end.

Definition chat_answer (resp : Response) : result string :=
  if HTTP_STATUS_SUCCESS_MAX <? StatusCode resp
  then Err ("unexpected status code: " +:+ itoa (StatusCode resp) +:+ ", body: " +:+ rs_body resp)
  else match rs_error resp with
       | Some err => Err ("failed to read response body: " +:+ err)
       | None =>
           match json_unmarshal (rs_body resp) (mkChatCompletionResponse []) with
           | (_, Some err) => Err ("failed to unmarshal response: " +:+ err)
           | (chatResp, None) =>
               match Choices chatResp with
               | [] => Err "no response from AI model"
               | content :: _ => Ok content
               end
           end
       end.

Definition generateAISummary (c : AISummaryConfig) (client : HttpClient) (eventInfo : string) w : World * result string :=
  match json_marshal (chat_params c eventInfo) with
  | Err err => (w, Err ("failed to marshal request body: " +:+ err))
  | Ok jsonData =>
      match NewRequest "POST" (WebConf.URL (ai_HTTPConfig c)) jsonData with
      | Err err => (w, Err ("failed to create request: " +:+ err))
      | Ok req =>
          let req := set_header "Authorization" ("Bearer " +:+ ai_APIKey c) req in
          let req := set_header "Content-Type" "application/json" req in
          match http_do client w (put_headers (WebConf.Headers (ai_HTTPConfig c)) req) with
          | (w, _, Err err) => (w, Err ("failed to send request: " +:+ err))
          | (w, _, Ok resp) => (w, chat_answer resp)
          end
      end
  end.

Definition AISummaryConfig_Process (c : option AISummaryConfig) w ctx :
    go (World * WorkflowContext * result (returned_ctx * string)) :=
  match c with
  | None => Panic
  | Some c =>
      match web_client (ai_HTTPConfig c) with
      | Err err => Ret (w, ctx, Err ("failed to initialize HTTP client: " +:+ err))
      | Ok client =>
          match prepareEventInfo c ctx with
          | Err err => Ret (w, ctx, Err ("failed to prepare event info: " +:+ err))
          | Ok eventInfo =>
              match generateAISummary c client eventInfo w with
              | (w, Err err) => Ret (w, ctx, Err ("failed to generate AI summary: " +:+ err))
              | (w, Ok summary) =>
                  match WfCtx.Event ctx with
                  | None => Panic
                  | Some event =>
                      let event := event <| Event.AnnotationsJSON := <["ai_summary" := summary]> (Event.AnnotationsJSON event) |> in
                      match json_marshal (Event.AnnotationsJSON event) with
                      | Err err => Ret (w, ctx <| WfCtx.Event := Some event |>, Err ("failed to marshal annotations: " +:+ err))
                      | Ok b => Ret (w, ctx <| WfCtx.Event := Some (event <| Event.Annotations := b |>) |>, Ok (SameCtx, ""))
                      end
                  end
              end
          end
      end
  end.

Definition AISummaryConfig_Init `{!Json iface, !Json (option AISummaryConfig)} (settings : iface) :
    go (result (Processor World)) :=
  Ret match InitProcessor settings with
      | Err err => Err err
      | Ok c => Ok (PlainProcessor (AISummaryConfig_Process c))
      end.

(** ** What a service can do to an event *)

(** The event with other annotations. *)
Definition same_but_annotations (e e' : AlertCurEvent) : Prop :=
  ∃ m text, e' = e <| Event.AnnotationsJSON := m |> <| Event.Annotations := text |> ∧
    ∀ k, k ≠ "ai_summary" → m !! k = Event.AnnotationsJSON e !! k.

(** Whatever the service answers, none of the three processors panics on an event or
    drops it.  A callback leaves it as it is, a summary changes at most its
    annotations, and of these only [ai_summary]. *)
Theorem web_processors_keep cb eu ai w ctx e :
  WfCtx.Event ctx = Some e →
  (∃ w' r, CallbackConfig_Process (Some cb) w ctx = Ret (w', ctx, r)) ∧
  (∃ w' e' r, EventUpdateConfig_Process (Some eu) w ctx = Ret (w', ctx <| WfCtx.Event := Some e' |>, r)) ∧
  (∃ w' e' r, AISummaryConfig_Process (Some ai) w ctx = Ret (w', ctx <| WfCtx.Event := Some e' |>, r) ∧
     same_but_annotations e e').
Proof.
  intros He. assert (ctx = ctx <| WfCtx.Event := Some e |>) as Hctx by (destruct ctx; simpl in He; by subst).
  assert (same_but_annotations e e) as Hsame by (exists (Event.AnnotationsJSON e), (Event.Annotations e); by destruct e).
  split_and!.
  - unfold CallbackConfig_Process. destruct (post_event_to _ _ _) as [w' [r b]]. by eexists _, _.
  - unfold EventUpdateConfig_Process, decode_event. destruct (post_event_to _ _ _) as [w' [[b|err] rd]]; rewrite ?He; cycle 1.
    { eexists w', e, _. by rewrite <- Hctx. }
    repeat case_match; simplify_eq; by eexists _, _, _.
  - unfold AISummaryConfig_Process. rewrite He.
    destruct (web_client _) as [client|err]; [|eexists w, e, _; by rewrite <- Hctx].
    destruct (prepareEventInfo ai ctx) as [info|err]; [|eexists w, e, _; by rewrite <- Hctx].
    destruct (generateAISummary ai client info w) as [w' [summary|err]]; [|eexists w', e, _; by rewrite <- Hctx].
    destruct (json_marshal _) as [b|err]; eexists _, _, _; (split; [reflexivity|]).
    + eexists _, b. split; [reflexivity|]. intros k Hk. by rewrite lookup_insert_ne.
    + exists (<["ai_summary" := summary]> (Event.AnnotationsJSON e)), (Event.Annotations e). split; [by destruct e|]. intros k Hk. by rewrite lookup_insert_ne.
Qed.
End web.
