(* ===== verification/Users.v ===== *)
(** * Users, teams, business groups and permissions

    [models/user.go], [models/user_group.go], [models/user_group_member.go],
    [models/busi_group.go], [models/busi_group_member.go], [models/role_operation.go]
    and [models/user_token.go], with the middleware that checks permissions
    ([center/router/router_mw.go]) and the handlers of teams and business groups
    ([center/router/router_busi_group.go], [center/router/router_user_group.go]).
    The tables are lists of rows; any statement can fail, and a transaction is
    undone as a whole. *)

From Stdlib Require Import Ascii.
From S2P Require Import Prelude GoStrings Json Models RuleModels RuleOps Callbacks Sources.
Open Scope string_scope.
Open Scope Z_scope.
Open Scope list_scope.

(** ** Tables *)

Record UserGroupMember := mkUserGroupMember { um_GroupId : Z; um_UserId : Z }.
Record BusiGroupMember := mkBusiGroupMember { bm_BusiGroupId : Z; bm_UserGroupId : Z; bm_PermFlag : string }.
#[global] Instance BusiGroupMember_eta : Settable BusiGroupMember := λ r,
  mkBusiGroupMember (bm_BusiGroupId r) (bm_UserGroupId r) (bm_PermFlag r).
Record RoleOperation := mkRoleOperation { ro_RoleName : string; ro_Operation : string }.
Record UserToken := mkUserToken {
  ut_Id : Z; ut_Username : string; ut_TokenName : string; ut_Token : string; ut_CreateAt : Z; ut_LastUsed : Z
}.
#[global] Instance UserToken_eta : Settable UserToken := λ r,
  mkUserToken (ut_Id r) (ut_Username r) (ut_TokenName r) (ut_Token r) (ut_CreateAt r) (ut_LastUsed r).

(** [db_hosts] are the hosts, [db_tbg] the business groups they are bound to.  New
    rows take their id from a counter.  [db_faults] has, for each statement to
    come, the error it fails with, if it fails; when it is empty all succeed. *)
Record pdb := mkPdb {
  db_users : list User;
  db_teams : list UserGroup;
  db_ugm : list UserGroupMember;
  db_bgs : list BusiGroup;
  db_bgm : list BusiGroupMember;
  db_ops : list RoleOperation;
  db_tokens : list UserToken;
  db_hosts : list string;
  db_tbg : list (string * Z);
  db_configs : gmap string string;
  db_nextid : Z;
  db_faults : list (option error)
}.
#[global] Instance pdb_eta : Settable pdb := λ r,
  mkPdb (db_users r) (db_teams r) (db_ugm r) (db_bgs r) (db_bgm r) (db_ops r) (db_tokens r) (db_hosts r) (db_tbg r)
    (db_configs r) (db_nextid r) (db_faults r).

(** ** Statements *)

Definition sql (A : Type) : Type := pdb → pdb * result A.
#[export] Instance sql_ret : MRet sql := λ A a d, (d, Ok a).
#[export] Instance sql_bind : MBind sql := λ A B k m d,
  match m d with (d, Ok a) => k a d | (d, Err e) => (d, Err e) end.

Definition fail {A} (e : error) : sql A := λ d, (d, Err e).
Definition tick (d : pdb) : pdb := d <| db_faults := tail (db_faults d) |>.
Definition stmt {A} (f : pdb → pdb * A) : sql A := λ d,
  match head (db_faults d) with
  | Some (Some e) => (tick d, Err e)
  | _ => let '(d, a) := f (tick d) in (d, Ok a)
  end.
Definition query {A} (f : pdb → A) : sql A := stmt (λ d, (d, f d)).
Definition exec (f : pdb → pdb) : sql unit := stmt (λ d, (f d, tt)).

(** [errors.WithMessage]. *)
Definition with_message {A} (msg : string) (m : sql A) : sql A := λ d,
  match m d with (d, Err e) => (d, Err (msg +:+ ": " +:+ e)) | r => r end.

(** A transaction that fails, in a statement or in the commit, leaves the tables. *)
Definition transaction {A} (m : sql A) : sql A := λ d,
  match (a ← m; exec id;; mret a) d with
  | (d', Err e) => (d <| db_faults := db_faults d' |>, Err e)
  | r => r
  end.

Fixpoint for_each {A} (f : A → sql unit) (l : list A) : sql unit :=
  match l with [] => mret tt | x :: l => f x;; for_each f l end.

Definition keep {A} (p : A → bool) (l : list A) : list A := List.filter p l.
Definition drop_rows {A} (p : A → bool) (l : list A) : list A := List.filter (λ x, negb (p x)) l.
Definition mem (x : Z) (l : list Z) : bool := bool_decide (x ∈ l).
Definition smem (x : string) (l : list string) : bool := bool_decide (x ∈ l).

(** *** Teams *)

Definition MyGroupIds (userId : Z) : sql (list Z) :=
  query (λ d, map um_GroupId (keep (λ m, um_UserId m =? userId) (db_ugm d))).

Definition MyGroupIdsMap (userId : Z) : sql (gset Z) := ids ← MyGroupIds userId; mret (list_to_set ids).

Definition MemberIds (groupId : Z) : sql (list Z) :=
  query (λ d, map um_UserId (keep (λ m, um_GroupId m =? groupId) (db_ugm d))).

(** The members that a condition selects. *)
Definition UserGroupMemberCount (p : UserGroupMember → bool) : sql Z :=
  query (λ d, Z.of_nat (length (keep p (db_ugm d)))).

Definition UserGroupMemberAdd (groupId userId : Z) : sql unit :=
  num ← UserGroupMemberCount (λ m, (um_UserId m =? userId) && (um_GroupId m =? groupId));
  if 0 <? num then mret tt
  else exec (λ d, d <| db_ugm := db_ugm d ++ [mkUserGroupMember groupId userId] |>).

Definition UserGroupMemberDel (groupId : Z) (userIds : list Z) : sql unit :=
  if (length userIds =? 0)%nat then mret tt
  else exec (λ d, d <| db_ugm := drop_rows (λ m, (um_GroupId m =? groupId) && mem (um_UserId m) userIds) (db_ugm d) |>).

(** The groups to insert: those that are not in the set, each once. *)
Fixpoint sync_inserts (set : gset Z) (gids : list Z) : list Z :=
  match gids with
  | [] => []
  | g :: gids => if decide (g ∈ set) then sync_inserts set gids else g :: sync_inserts ({[g]} ∪ set) gids
  end.

(** A failed insertion is only logged.  The bulk insertion, in batches of ten, is one
    statement here. *)
Definition UserGroupMemberSync (ldapGids : list Z) (userId : Z) (coverTeams : bool) : sql unit :=
  if (length ldapGids =? 0)%nat then
    if coverTeams then exec (λ d, d <| db_ugm := drop_rows (λ m, um_UserId m =? userId) (db_ugm d) |>) else mret tt
  else
    curGids ← MyGroupIds userId;
    let toInsert := sync_inserts (list_to_set curGids) ldapGids in
    (if (0 <? length toInsert)%nat
     then λ d, (fst (exec (λ d, d <| db_ugm := db_ugm d ++ map (λ g, mkUserGroupMember g userId) toInsert |>) d), Ok tt)
     else mret tt);;
    if negb coverTeams || (length curGids =? 0)%nat then mret tt
    else
      let toDeleteIds := sync_inserts (list_to_set ldapGids) curGids in
      if (length toDeleteIds =? 0)%nat then mret tt
      else exec (λ d, d <| db_ugm := drop_rows (λ m, (um_UserId m =? userId) && mem (um_GroupId m) toDeleteIds) (db_ugm d) |>).

(** *** Business groups *)

Definition has_flag (permFlag : option string) (m : BusiGroupMember) : bool :=
  match permFlag with None => true | Some f => String.eqb (bm_PermFlag m) f end.

Definition BusiGroupIds (userGroupIds : list Z) (permFlag : option string) : sql (list Z) :=
  if (length userGroupIds =? 0)%nat then mret []
  else query (λ d, map bm_BusiGroupId
                     (keep (λ m, mem (bm_UserGroupId m) userGroupIds && has_flag permFlag m) (db_bgm d))).

Definition UserGroupIdsOfBusiGroup (busiGroupId : Z) (permFlag : option string) : sql (list Z) :=
  query (λ d, map bm_UserGroupId (keep (λ m, (bm_BusiGroupId m =? busiGroupId) && has_flag permFlag m) (db_bgm d))).

Definition is_member (bgid ugid : Z) (m : BusiGroupMember) : bool :=
  (bm_BusiGroupId m =? bgid) && (bm_UserGroupId m =? ugid).

Definition BusiGroupMemberAdd (member : BusiGroupMember) : sql unit :=
  let p := is_member (bm_BusiGroupId member) (bm_UserGroupId member) in
  obj ← query (λ d, head (keep p (db_bgm d)));
  match obj with
  | None => exec (λ d, d <| db_bgm := db_bgm d ++ [member] |>)
  | Some obj =>
      if String.eqb (bm_PermFlag obj) (bm_PermFlag member) then mret tt
      else exec (λ d, d <| db_bgm := map (λ m, if p m then m <| bm_PermFlag := bm_PermFlag member |> else m) (db_bgm d) |>)
  end.

(** Updating columns of a business group. *)
Definition update_bg (id : Z) (f : BusiGroup → BusiGroup) : sql unit :=
  exec (λ d, d <| db_bgs := map (λ b, if BusiGrp.Id b =? id then f b else b) (db_bgs d) |>).
Definition touch_bg (bg : BusiGroup) (now : Z) (username : string) : sql unit :=
  update_bg (BusiGrp.Id bg) (λ b, b <| BusiGrp.UpdateAt := now |> <| BusiGrp.UpdateBy := username |>).

Definition BusiGroup_AddMembers (bg : BusiGroup) (members : list BusiGroupMember) (now : Z) (username : string) : sql unit :=
  for_each BusiGroupMemberAdd members;; touch_bg bg now username.

Definition del_member (m : BusiGroupMember) : sql unit :=
  num ← query (λ d, Z.of_nat (length (keep (λ r, (bm_BusiGroupId r =? bm_BusiGroupId m)
                                                   && negb (bm_UserGroupId r =? bm_UserGroupId m)) (db_bgm d))));
  if num =? 0 then fail "the business group must retain at least one team"
  else exec (λ d, d <| db_bgm := drop_rows (is_member (bm_BusiGroupId m) (bm_UserGroupId m)) (db_bgm d) |>).

Definition BusiGroup_DelMembers (bg : BusiGroup) (members : list BusiGroupMember) (now : Z) (username : string) : sql unit :=
  for_each del_member members;; touch_bg bg now username.

Definition BusiGroupExists (p : BusiGroup → bool) : sql bool := query (λ d, existsb p (db_bgs d)).
Definition count_bg (p : BusiGroup → bool) : sql bool := with_message "failed to count BusiGroup" (BusiGroupExists p).

Definition same_label (labelValue : string) (b : BusiGroup) : bool :=
  (BusiGrp.LabelEnable b =? 1) && String.eqb (BusiGrp.LabelValue b) labelValue.

(** [bg] is the row as it was read. *)
Definition BusiGroup_Update (bg : BusiGroup) (name : string) (labelEnable : Z) (labelValue : string) (now : Z)
    (updateBy : string) : sql unit :=
  if String.eqb (BusiGrp.Name bg) name && (BusiGrp.LabelEnable bg =? labelEnable)
     && String.eqb (BusiGrp.LabelValue bg) labelValue
  then mret tt
  else
    let other b := negb (BusiGrp.Id b =? BusiGrp.Id bg) in
    exists_ ← count_bg (λ b, String.eqb (BusiGrp.Name b) name && other b);
    if (exists_ : bool) then fail "BusiGroup already exists"
    else
      taken ← (if labelEnable =? 1 then count_bg (λ b, same_label labelValue b && other b) else mret false);
      if (taken : bool) then fail "BusiGroup already exists"
      else
        let labelValue := if labelEnable =? 1 then labelValue else "" in
        update_bg (BusiGrp.Id bg) (λ b, b <| BusiGrp.Name := name |> <| BusiGrp.LabelEnable := labelEnable |>
          <| BusiGrp.LabelValue := labelValue |> <| BusiGrp.UpdateAt := now |> <| BusiGrp.UpdateBy := updateBy |>).

Definition check_team (m : BusiGroupMember) : sql unit :=
  ug ← with_message "failed to get UserGroup"
         (query (λ d, head (keep (λ g, UserGrp.Id g =? bm_UserGroupId m) (db_teams d))));
  match ug with None => fail "Some UserGroup id not exists" | Some _ => mret tt end.

(** The id of the new row. *)
Definition insert_bg (obj : BusiGroup) : sql Z :=
  stmt (λ d, (d <| db_bgs := db_bgs d ++ [obj <| BusiGrp.Id := db_nextid d |>] |> <| db_nextid := db_nextid d + 1 |>,
              db_nextid d)).

Definition BusiGroupAdd (name : string) (labelEnable : Z) (labelValue : string) (members : list BusiGroupMember)
    (now : Z) (creator : string) : sql unit :=
  exists_ ← count_bg (λ b, String.eqb (BusiGrp.Name b) name);
  if (exists_ : bool) then fail "BusiGroup already exists"
  else
    taken ← (if labelEnable =? 1 then count_bg (same_label labelValue) else mret false);
    if (taken : bool) then fail "BusiGroup already exists"
    else
      let labelValue := if labelEnable =? 1 then labelValue else "" in
      for_each check_team members;;
      transaction (
        id ← insert_bg (BusiGrp.mkBusiGroup 0 name labelEnable labelValue now creator now creator);
        for_each (λ m, exec (λ d, d <| db_bgm := db_bgm d ++ [m <| bm_BusiGroupId := id |>] |>)) members).

(** [in_use] are the tables that can still refer to the group: for each, whether it
    does, and the message; [del_events] deletes the current events of the group. *)
Definition BusiGroup_Del (in_use : list (sql bool * error)) (bg : BusiGroup) : sql unit :=
  for_each (λ '(has, msg), b ← has; if (b : bool) then fail msg else mret tt) in_use;;
  transaction (
    exec (λ d, d <| db_bgm := drop_rows (λ m, bm_BusiGroupId m =? BusiGrp.Id bg) (db_bgm d) |>);;
    exec (λ d, d <| db_bgs := drop_rows (λ b, BusiGrp.Id b =? BusiGrp.Id bg) (db_bgs d) |>);;
    exec id).

(** *** Teams as rows *)

Definition UserGroup_Verify `{StrLib} (ug : UserGroup) : option error :=
  if str_dangerous (UserGrp.Name ug) then Some "Name has invalid characters"
  else if str_dangerous (UserGrp.Note ug) then Some "Note has invalid characters"
  else None.

Definition UserGroup_Add `{StrLib} (ug : UserGroup) (now : Z) : sql Z :=
  match UserGroup_Verify ug with
  | Some e => fail e
  | None =>
      num ← with_message "failed to count user-groups"
              (query (λ d, length (keep (λ g, String.eqb (UserGrp.Name g) (UserGrp.Name ug)) (db_teams d))));
      if (0 <? num)%nat then fail "UserGroup already exists"
      else stmt (λ d, (d <| db_teams := db_teams d ++ [ug <| UserGrp.Id := db_nextid d |> <| UserGrp.CreateAt := now |>
                                                          <| UserGrp.UpdateAt := now |>] |>
                         <| db_nextid := db_nextid d + 1 |>, db_nextid d))
  end.

Definition UserGroup_Del (ug : UserGroup) : sql unit :=
  transaction (
    exec (λ d, d <| db_ugm := drop_rows (λ m, um_GroupId m =? UserGrp.Id ug) (db_ugm d) |>);;
    exec (λ d, d <| db_teams := drop_rows (λ g, UserGrp.Id g =? UserGrp.Id ug) (db_teams d) |>)).

Definition UserGroup_DelMembers (ug : UserGroup) (userIds : list Z) : sql unit := UserGroupMemberDel (UserGrp.Id ug) userIds.

(** *** Roles and tokens *)

Definition RoleHasOperation (roles : list string) (operation : string) : sql bool :=
  if (length roles =? 0)%nat then mret false
  else query (λ d, existsb (λ r, String.eqb (ro_Operation r) operation && smem (ro_RoleName r) roles) (db_ops d)).

Definition RoleOperationBind (roleName : string) (operation : list string) : sql unit :=
  transaction (
    exec (λ d, d <| db_ops := drop_rows (λ r, String.eqb (ro_RoleName r) roleName) (db_ops d) |>);;
    if (length operation =? 0)%nat then mret tt
    else exec (λ d, d <| db_ops := db_ops d ++ map (mkRoleOperation roleName) operation |>)).

Definition AddToken (username token tokenName : string) (now : Z) : sql unit :=
  exec (λ d, d <| db_tokens := db_tokens d ++ [mkUserToken (db_nextid d) username tokenName token now 0] |>
               <| db_nextid := db_nextid d + 1 |>).
Definition DeleteToken (id : Z) : sql unit :=
  exec (λ d, d <| db_tokens := drop_rows (λ t, ut_Id t =? id) (db_tokens d) |>).

(** ** Handlers *)

(** A handler answers, or it is aborted with a status and a message ([ginx.Bomb]);
    [ginx.Dangerous] aborts on an error, with status 200. *)
Inductive reply (A : Type) := Done (a : A) | Bomb (code : Z) (msg : string).
Arguments Done {A} a.
Arguments Bomb {A} code msg.

Definition handler (A : Type) : Type := pdb → pdb * reply A.
#[export] Instance handler_ret : MRet handler := λ A a d, (d, Done a).
#[export] Instance handler_bind : MBind handler := λ A B k m d,
  match m d with (d, Done a) => k a d | (d, Bomb c e) => (d, Bomb c e) end.

Definition bomb {A} (code : Z) (msg : string) : handler A := λ d, (d, Bomb code msg).
Definition dangerous {A} (m : sql A) : handler A := λ d,
  match m d with (d, Ok a) => (d, Done a) | (d, Err e) => (d, Bomb 200 e) end.
(** [Message(err)]: the error is part of the answer. *)
Definition render_error (m : sql unit) : handler (option error) := λ d,
  match m d with (d, Ok _) => (d, Done None) | (d, Err e) => (d, Done (Some e)) end.

(** ** Users *)

(** [str.IsPhone] and [str.IsMail] of toolkits, [unicode.IsPrint] of a rune, and
    [slice.SubString]: the elements of the first list that are not in the second. *)
Class UserLib := {
  str_IsPhone : string → bool;
  str_IsMail : string → bool;
  unicode_IsPrint : string → bool;
  slice_SubString : list string → list string → list string;
  slice_SubString_spec : ∀ a b x, x ∈ slice_SubString a b ↔ x ∈ a ∧ x ∉ b
}.

(** The cached configuration of the encryption of phone numbers. *)
Record phone_config := mkPhoneConfig {
  pc_enabled : bool; pc_publicKey : string; pc_privateKey : string; pc_password : string; pc_loaded : bool
}.

Section users.
Context `{SL : StrLib, UL : UserLib, CR : Crypto, UC : UnicodeCase, GR : GoRange, !Json (gmap string string)}.
Context (pc : phone_config).
Implicit Types (u me : User).

Definition is_encrypted (phone : string) : bool := (4 <? String.length phone)%nat && has_prefix phone "enc:".

(** A failed encryption leaves the number in the clear; [rand] is the randomness of
    the encryption. *)
Definition EncryptPhone (rand : string) u : go User :=
  if negb (pc_loaded pc) then Ret u
  else if pc_enabled pc && negb (String.eqb (Usr.Phone u) "") then
    if is_encrypted (Usr.Phone u) then Ret u
    else r ← EncryptValue rand (Usr.Phone u) (pc_publicKey pc);
         Ret (match r with Ok v => u <| Usr.Phone := v |> | Err _ => u end)
  else Ret u.

Definition DecryptPhone u : User :=
  if String.eqb (Usr.Phone u) "" || negb (is_encrypted (Usr.Phone u)) then u
  else if negb (pc_loaded pc) || negb (pc_enabled pc) then u
  else match secu_Decrypt (Usr.Phone u) (pc_privateKey pc) (pc_password pc) with
       | Err _ => u
       | Ok v => u <| Usr.Phone := v |>
       end.

Definition keep_rune (r : string) : bool :=
  unicode_IsPrint r || smem r [" "; String (ascii_of_nat 9) ""; String (ascii_of_nat 10) ""; String (ascii_of_nat 13) ""].
Definition stripInvisibleChars (s : string) : string := join (List.filter keep_rune (runes s)) "".

Definition stripInvisibleCharsFromContacts (contacts : string) : string :=
  if String.eqb contacts "" then contacts
  else match json_unmarshal contacts (∅ : gmap string string) with
       | (_, Some _) => contacts
       | (contactsMap, None) =>
           match json_marshal (stripInvisibleChars <$> contactsMap) with Err _ => contacts | Ok r => r end
       end.

(** The user with the changes that verifying makes in place. *)
Definition User_Verify (rand : string) u : go (User * option error) :=
  let u := u <| Usr.Username := trim_space (Usr.Username u) |> in
  if String.eqb (Usr.Username u) "" then Ret (u, Some "Username is blank")
  else if str_dangerous (Usr.Username u) then Ret (u, Some "Username has invalid characters")
  else if str_dangerous (Usr.Nickname u) then Ret (u, Some "Nickname has invalid characters")
  else if negb (String.eqb (Usr.Phone u) "") && negb (str_IsPhone (Usr.Phone u)) then Ret (u, Some "Phone invalid")
  else if negb (String.eqb (Usr.Email u) "") && negb (str_IsMail (Usr.Email u)) then Ret (u, Some "Email invalid")
  else
    let u := u <| Usr.Contacts := stripInvisibleCharsFromContacts (Usr.Contacts u) |> in
    if negb (String.eqb (Usr.Phone u) "") then u ← EncryptPhone rand u; Ret (u, None) else Ret (u, None).

(** The user, and the columns to write. *)
Definition UpdateSsoFields (sso nickname phone email : string) (now : Z) u : User * list string :=
  let u := u <| Usr.UpdateAt := now |> in
  let u := if negb (String.eqb nickname "") then u <| Usr.Nickname := nickname |> else u in
  let u := if negb (String.eqb phone "") then u <| Usr.Phone := phone |> else u in
  let u := if negb (String.eqb email "") then u <| Usr.Email := email |> else u in
  (u <| Usr.UpdateBy := sso |> <| Usr.Belong := sso |>, ["nickname"; "phone"; "email"; "update_by"; "belong"]).

Definition UpdateSsoFieldsWithRoles (sso nickname phone email : string) (roles : list string) (now : Z) u :
    User * list string :=
  let '(u, fields) := UpdateSsoFields sso nickname phone email now u in
  if (length roles =? 0)%nat then (u, fields)
  else (u <| Usr.Roles := join roles " " |> <| Usr.RolesLst := roles |>, fields ++ ["roles"]).

Definition FullSsoFields (sso username nickname phone email : string) (defaultRoles : list string) (now : Z) u : User :=
  u <| Usr.Username := username |> <| Usr.Password := "******" |> <| Usr.Nickname := nickname |>
    <| Usr.Phone := phone |> <| Usr.Email := email |> <| Usr.Portrait := "" |>
    <| Usr.Roles := join defaultRoles " " |> <| Usr.RolesLst := defaultRoles |> <| Usr.Contacts := "{}" |>
    <| Usr.CreateAt := now |> <| Usr.UpdateAt := now |> <| Usr.CreateBy := sso |> <| Usr.UpdateBy := sso |>
    <| Usr.Belong := sso |>.

Definition FullSsoFieldsWithTeams (sso username nickname phone email : string) (defaultRoles : list string)
    (teams : list Z) (now : Z) u : User :=
  (FullSsoFields sso username nickname phone email defaultRoles now u) <| Usr.TeamsLst := teams |>.

(** *** Reading and writing users *)

Definition UserGet (p : User → bool) : sql (option User) :=
  u ← query (λ d, head (keep p (db_users d)));
  mret (match u with
        | None => None
        | Some u =>
            let u := u <| Usr.RolesLst := fields (Usr.Roles u) |> in
            Some (DecryptPhone (u <| Usr.Admin := IsAdmin u |>))
        end).
Definition UserGetByUsername (username : string) : sql (option User) := UserGet (λ u, String.eqb (Usr.Username u) username).
Definition UserGetById (id : Z) : sql (option User) := UserGet (λ u, Usr.Id u =? id).

Definition User_Add u (now : Z) : sql Z :=
  user ← with_message "failed to query user" (UserGetByUsername (Usr.Username u));
  match user with
  | Some _ => fail "Username already exists"
  | None => stmt (λ d, (d <| db_users := db_users d ++ [u <| Usr.Id := db_nextid d |> <| Usr.CreateAt := now |>
                                                            <| Usr.UpdateAt := now |>] |>
                          <| db_nextid := db_nextid d + 1 |>, db_nextid d))
  end.

Definition UserGroupMemberSyncByUser u (coverTeams : bool) : sql unit :=
  UserGroupMemberSync (Usr.TeamsLst u) (Usr.Id u) coverTeams.

Definition AddUserAndGroups u (now : Z) (coverTeams : bool) : sql unit :=
  id ← with_message "failed to add user" (User_Add u now);
  with_message "failed to add user to groups" (UserGroupMemberSyncByUser (u <| Usr.Id := id |>) coverTeams).

Definition update_user (id : Z) (f : User → User) : sql unit :=
  exec (λ d, d <| db_users := map (λ u, if Usr.Id u =? id then f u else u) (db_users d) |>).

Definition UpdatePassword u (password updateBy : string) (now : Z) : sql unit :=
  update_user (Usr.Id u) (λ r, r <| Usr.Password := password |> <| Usr.UpdateAt := now |> <| Usr.UpdateBy := updateBy |>).

Definition User_Del u : sql unit :=
  transaction (
    exec (λ d, d <| db_ugm := drop_rows (λ m, um_UserId m =? Usr.Id u) (db_ugm d) |>);;
    exec (λ d, d <| db_users := drop_rows (λ r, Usr.Id r =? Usr.Id u) (db_users d) |>);;
    exec (λ d, d <| db_tokens := drop_rows (λ t, String.eqb (ut_Username t) (Usr.Username u)) (db_tokens d) |>)).

Definition UserDelByIds (userIds : list Z) : sql unit :=
  transaction (
    exec (λ d, d <| db_ugm := drop_rows (λ m, mem (um_UserId m) userIds) (db_ugm d) |>);;
    exec (λ d, d <| db_users := drop_rows (λ r, mem (Usr.Id r) userIds) (db_users d) |>)).

Definition ConfigsGet (ckey : string) : sql string :=
  with_message "failed to query configs" (query (λ d, default "" (db_configs d !! ckey))).

Definition CryptoPass (raw : string) : sql string :=
  salt ← ConfigsGet "salt";
  mret (str_md5 (salt +:+ "<-*Uk30^96eY*->" +:+ raw)).

Definition ChangePassword u (oldpass newpass : string) (now : Z) : sql unit :=
  if negb (String.eqb (Usr.Belong u) "") && String.eqb (Usr.Password u) "******"
  then fail ("SSO user(" +:+ Usr.Username u +:+ ") cannot change password locally, please change password in " +:+ Usr.Belong u)
  else
    _oldpass ← CryptoPass oldpass;
    _newpass ← CryptoPass newpass;
    if negb (String.eqb (Usr.Password u) _oldpass) then fail "Incorrect old password"
    else UpdatePassword u _newpass (Usr.Username u) now.

Definition UserGroup_AddMembers (ug : UserGroup) (userIds : list Z) : sql unit :=
  for_each (λ id, user ← UserGetById id;
                  match user with
                  | None => mret tt
                  | Some user => UserGroupMemberAdd (UserGrp.Id ug) (Usr.Id user)
                  end) userIds.

Definition FindSameContact u (email phone : string) : string :=
  if negb (String.eqb (Usr.Email u) "") && String.eqb (Usr.Email u) email then "email"
  else if negb (String.eqb (Usr.Phone u) "") && String.eqb (Usr.Phone u) phone then "phone"
  else "".

(** ** Permissions *)

Definition CheckGroupPermission u (groupIds : list Z) : sql unit :=
  if IsAdmin u then mret tt
  else ids ← MyGroupIdsMap (Usr.Id u);
       if existsb (λ id, bool_decide (id ∈ ids)) groupIds then mret tt else fail "forbidden".

Definition CanModifyUserGroup u (ug : UserGroup) : sql bool :=
  if IsAdmin u then mret true
  else if String.eqb (UserGrp.CreateBy ug) (Usr.Username u) then mret true
  else num ← UserGroupMemberCount (λ m, (um_UserId m =? Usr.Id u) && (um_GroupId m =? UserGrp.Id ug));
       mret (0 <? num).

Definition CanDoBusiGroup u (bg : BusiGroup) (permFlag : option string) : sql bool :=
  if IsAdmin u then mret true
  else
    ugids ← UserGroupIdsOfBusiGroup (BusiGrp.Id bg) permFlag;
    if (length ugids =? 0)%nat then mret false
    else num ← UserGroupMemberCount (λ m, (um_UserId m =? Usr.Id u) && mem (um_GroupId m) ugids);
         mret (0 <? num).

Definition CheckPerm u (operation : string) : sql bool :=
  if IsAdmin u then mret true else RoleHasOperation (Usr.RolesLst u) operation.

Definition NopriIdents u (idents : list string) : sql (list string) :=
  if IsAdmin u then mret []
  else
    ugids ← MyGroupIds (Usr.Id u);
    if (length ugids =? 0)%nat then mret idents
    else
      bgids ← BusiGroupIds ugids (Some "rw");
      if (length bgids =? 0)%nat then mret idents
      else
        allowedIdents ← query (λ d, keep (λ h, existsb (λ '(t, g), String.eqb t h && mem g bgids) (db_tbg d)) (db_hosts d));
        mret (slice_SubString idents allowedIdents).

(** *** Middleware *)

Definition BusiGroup_of (id : Z) : handler BusiGroup :=
  obj ← dangerous (query (λ d, head (keep (λ b, BusiGrp.Id b =? id) (db_bgs d))));
  match obj with None => bomb 404 "No such BusiGroup" | Some bg => mret bg end.

(** The business groups of the team are read for the answer and left out. *)
Definition UserGroup_of (id : Z) : handler UserGroup :=
  obj ← dangerous (query (λ d, head (keep (λ g, UserGrp.Id g =? id) (db_teams d))));
  match obj with
  | None => bomb 404 "No such UserGroup"
  | Some ug => bgids ← dangerous (BusiGroupIds [id] None);
               dangerous (query (λ d, keep (λ b, mem (BusiGrp.Id b) bgids) (db_bgs d)));; mret ug
  end.

(** The user of a request, by the name that the authentication found. *)
Definition user_mw (username : string) : handler User := λ d,
  match UserGetByUsername username d with
  | (d, Ok (Some u)) => (d, Done u)
  | (d, _) => (d, Bomb 401 "unauthorized")
  end.

Definition admin_mw (userid : Z) : handler User := λ d,
  match UserGetById userid d with
  | (d, Ok (Some u)) => if smem AdminRole (fields (Usr.Roles u)) then (d, Done u) else (d, Bomb 403 "forbidden")
  | (d, _) => (d, Bomb 401 "unauthorized")
  end.

Definition bg_check me (id : Z) (permFlag : option string) : handler BusiGroup :=
  bg ← BusiGroup_of id;
  can ← dangerous (CanDoBusiGroup me bg permFlag);
  if (can : bool) then mret bg else bomb 403 "forbidden".
Definition bgro me (id : Z) : handler BusiGroup := bg_check me id None.
Definition bgrw me (id : Z) : handler BusiGroup := bg_check me id (Some "rw").

Fixpoint bgrwChecks_from me (set : gset Z) (bgids : list Z) : handler unit :=
  match bgids with
  | [] => mret tt
  | id :: bgids => if decide (id ∈ set) then bgrwChecks_from me set bgids
                   else bgrw me id;; bgrwChecks_from me ({[id]} ∪ set) bgids
  end.
Definition bgrwChecks me (bgids : list Z) : handler unit := bgrwChecks_from me ∅ bgids.

Definition userGroupWrite me (id : Z) : handler UserGroup :=
  ug ← UserGroup_of id;
  can ← dangerous (CanModifyUserGroup me ug);
  if (can : bool) then mret ug else bomb 403 "forbidden".

Definition perm me (operation : string) : handler unit :=
  can ← dangerous (CheckPerm me operation);
  if (can : bool) then mret tt else bomb 403 "forbidden".

(** *** Business groups *)

(** The id of the new group. *)
Definition busiGroupAdd me (name : string) (labelEnable : Z) (labelValue : string) (members : list BusiGroupMember)
    (now : Z) : handler (option Z) :=
  perm me "/busi-groups/add";;
  if (length members =? 0)%nat then bomb 400 "members empty"
  else if negb (existsb (λ m, String.eqb (bm_PermFlag m) "rw") members)
  then bomb 400 "At least one team have rw permission"
  else
    dangerous (BusiGroupAdd name labelEnable labelValue members now (Usr.Username me));;
    newbg ← dangerous (query (λ d, head (keep (λ b, String.eqb (BusiGrp.Name b) name) (db_bgs d))));
    mret (BusiGrp.Id <$> newbg).

Definition busiGroupPut me (id : Z) (name : string) (labelEnable : Z) (labelValue : string) (now : Z) :
    handler (option error) :=
  perm me "/busi-groups/put";; bg ← bgrw me id;
  render_error (BusiGroup_Update bg name labelEnable labelValue now (Usr.Username me)).

Definition check_members (bg : BusiGroup) (members : list BusiGroupMember) : handler unit :=
  if forallb (λ m, bm_BusiGroupId m =? BusiGrp.Id bg) members then mret tt
  else bomb 400 "business group id invalid".

Definition busiGroupMemberAdd me (id : Z) (members : list BusiGroupMember) (now : Z) : handler (option error) :=
  perm me "/busi-groups/put";; bg ← bgrw me id; check_members bg members;;
  render_error (BusiGroup_AddMembers bg members now (Usr.Username me)).

Definition busiGroupMemberDel me (id : Z) (members : list BusiGroupMember) (now : Z) : handler (option error) :=
  perm me "/busi-groups/put";; bg ← bgrw me id; check_members bg members;;
  render_error (BusiGroup_DelMembers bg members now (Usr.Username me)).

Definition busiGroupDel (in_use : list (sql bool * error)) me (id : Z) : handler (option error) :=
  perm me "/busi-groups/del";; bg ← bgrw me id; render_error (BusiGroup_Del in_use bg).

(** *** Teams

    The synchronisation with FlashDuty is left out. *)

Definition userGroupAdd me (name note : string) (now : Z) : handler Z :=
  perm me "/user-groups/add";;
  id ← dangerous (UserGroup_Add (UserGrp.zero <| UserGrp.Name := name |> <| UserGrp.Note := note |>
                                  <| UserGrp.CreateBy := Usr.Username me |> <| UserGrp.UpdateBy := Usr.Username me |>) now);
  render_error (UserGroupMemberAdd id (Usr.Id me));; mret id.

Definition update_team (ug : UserGroup) (f : UserGroup → UserGroup) : sql unit :=
  match UserGroup_Verify (f ug) with
  | Some e => fail e
  | None => exec (λ d, d <| db_teams := map (λ g, if UserGrp.Id g =? UserGrp.Id ug then f g else g) (db_teams d) |>)
  end.

Definition userGroupPut me (id : Z) (name note : string) (now : Z) : handler (option error) :=
  perm me "/user-groups/put";; ug ← userGroupWrite me id;
  num ← (if negb (String.eqb (UserGrp.Name ug) name)
         then dangerous (query (λ d, length (keep (λ g, String.eqb (UserGrp.Name g) name
                                                        && negb (UserGrp.Id g =? UserGrp.Id ug)) (db_teams d))))
         else mret 0%nat);
  if (0 <? num)%nat then bomb 200 "UserGroup already exists"
  else render_error (update_team ug (λ g, g <| UserGrp.Name := name |> <| UserGrp.Note := note |>
                 <| UserGrp.UpdateBy := Usr.Username me |> <| UserGrp.UpdateAt := now |>)).

Definition userGroupDel me (id : Z) : handler (option error) :=
  perm me "/user-groups/del";; ug ← userGroupWrite me id; render_error (UserGroup_Del ug).

Definition touch_team me (ug : UserGroup) (now : Z) : sql unit :=
  update_team ug (λ g, g <| UserGrp.UpdateAt := now |> <| UserGrp.UpdateBy := Usr.Username me |>).

Definition userGroupMemberAdd me (id : Z) (ids : list Z) (now : Z) : handler (option error) :=
  perm me "/user-groups/put";; ug ← userGroupWrite me id;
  if (length ids =? 0)%nat then bomb 400 "ids empty"
  else dangerous (UserGroup_AddMembers ug ids);; render_error (touch_team me ug now);; mret None.

Definition userGroupMemberDel me (id : Z) (ids : list Z) (now : Z) : handler (option error) :=
  perm me "/user-groups/put";; ug ← userGroupWrite me id;
  if (length ids =? 0)%nat then bomb 400 "ids empty"
  else err ← render_error (UserGroup_DelMembers ug ids);
       (match err with Some _ => mret None | None => render_error (touch_team me ug now) end);; mret err.
End users.
