(* ===== verification/Permissions.v ===== *)
(** * Permissions: what users can do to teams and business groups

    A small program logic for statements and handlers, the invariant of the tables
    of teams and business groups, and that a handler changes only the members of the
    group its caller may change. *)

From S2P Require Import Prelude GoStrings Json Models RuleModels RuleOps Callbacks Sources Users.
Open Scope string_scope.
Open Scope Z_scope.
Open Scope list_scope.

(** ** Rules *)

(** A predicate on the tables, whatever statements will fail. *)
Class Tables (P : pdb → Prop) := tables_faults : ∀ d f, P d → P (d <| db_faults := f |>).

Definition hoare {A} (P : pdb → Prop) (m : sql A) (Q : A → pdb → Prop) (E : pdb → Prop) : Prop :=
  ∀ d, P d → match m d with (d', Ok a) => Q a d' | (d', Err _) => E d' end.

Section rules.
Context {A B : Type} (P E : pdb → Prop) `{TP : !Tables P}.

Lemma hoare_ret (a : A) : hoare P (mret a) (λ _, P) E.
Proof. by intros d. Qed.
Lemma hoare_fail (e : error) (Q : A → pdb → Prop) : hoare E (fail e) Q E.
Proof. by intros d. Qed.

Lemma hoare_bind (R : A → pdb → Prop) (Q : B → pdb → Prop) (m : sql A) (k : A → sql B) :
  hoare P m R E → (∀ a, hoare (R a) (k a) Q E) → hoare P (m ≫= k) Q E.
Proof.
  intros Hm Hk d Hd. specialize (Hm d Hd). unfold mbind, sql_bind. destruct (m d) as [d' [a|e]]; [|done]. by apply Hk.
Qed.

Lemma hoare_stmt (f : pdb → pdb * A) (Q : A → pdb → Prop) :
  (∀ d, P d → Q (snd (f d)) (fst (f d))) → hoare P (stmt f) Q P.
Proof.
  intros Hf d Hd. unfold stmt. pose proof (tables_faults d (tail (db_faults d)) Hd : P (tick d)) as Ht.
  specialize (Hf (tick d) Ht). destruct (head (db_faults d)) as [[e|]|]; [done|..]; by destruct (f (tick d)).
Qed.

Lemma hoare_query (f : pdb → A) : hoare P (query f) (λ a d, P d ∧ a = f d) P.
Proof. by apply hoare_stmt. Qed.

Lemma hoare_weaken (P' E' : pdb → Prop) (Q Q' : A → pdb → Prop) (m : sql A) :
  hoare P' m Q' E' → (∀ d, P d → P' d) → (∀ a d, Q' a d → Q a d) → (∀ d, E' d → E d) → hoare P m Q E.
Proof.
  intros Hm HP HQ HE d Hd. specialize (Hm d (HP d Hd)). destruct (m d) as [d' [a|e]]; auto.
Qed.

Lemma hoare_message (msg : string) (Q : A → pdb → Prop) (m : sql A) :
  hoare P m Q E → hoare P (with_message msg m) Q E.
Proof. intros Hm d Hd. specialize (Hm d Hd). unfold with_message. by destruct (m d) as [d' [a|e]]. Qed.

(** A transaction that fails leaves what held before. *)
Lemma hoare_transaction (Q : A → pdb → Prop) (m : sql A) `{∀ a, Tables (Q a)} :
  hoare P m Q (λ _, True) → hoare P (transaction m) Q P.
Proof.
  intros Hm d Hd. specialize (Hm d Hd). unfold transaction, mbind, sql_bind. destruct (m d) as [d' [a|e]]; [|by apply TP].
  unfold exec, stmt. destruct (head (db_faults d')) as [[e|]|]; [by apply TP|..]; by apply H.
Qed.
End rules.

(** [m] keeps [P]. *)
Definition keeps {A} (P : pdb → Prop) (m : sql A) : Prop := hoare P m (λ _, P) P.
Definition hkeeps {A} (P : pdb → Prop) (h : handler A) : Prop := ∀ d, P d → P (fst (h d)).

Section keeps.
Context (P : pdb → Prop) `{TP : !Tables P}.
Context {A B : Type}.

Lemma keeps_ret (a : A) : keeps P (mret a).
Proof. by apply hoare_ret. Qed.
Lemma keeps_fail (e : error) : keeps (A := A) P (fail e).
Proof. apply hoare_fail. Qed.
Lemma keeps_bind (m : sql A) (k : A → sql B) : keeps P m → (∀ a, keeps P (k a)) → keeps P (m ≫= k).
Proof. intros Hm Hk. by eapply hoare_bind. Qed.
Lemma keeps_query (f : pdb → A) : keeps P (query f).
Proof. by apply hoare_stmt. Qed.
Lemma keeps_exec (f : pdb → pdb) : (∀ d, P d → P (f d)) → keeps P (exec f).
Proof. intros Hf. by apply hoare_stmt. Qed.
Lemma keeps_message (msg : string) (m : sql A) : keeps P m → keeps P (with_message msg m).
Proof. apply hoare_message. Qed.
Lemma keeps_transaction (m : sql A) : keeps P m → keeps P (transaction m).
Proof. intros Hm. apply hoare_transaction; [done..|]. by eapply hoare_weaken. Qed.

Lemma hkeeps_ret (a : A) : hkeeps P (mret a).
Proof. by intros d. Qed.
Lemma hkeeps_bomb code msg : hkeeps (A := A) P (bomb code msg).
Proof. by intros d. Qed.
Lemma hkeeps_bind (h : handler A) (k : A → handler B) : hkeeps P h → (∀ a, hkeeps P (k a)) → hkeeps P (h ≫= k).
Proof.
  intros Hh Hk d Hd. specialize (Hh d Hd). unfold mbind, handler_bind. destruct (h d) as [d' [a|c e]]; [|done]. by apply Hk.
Qed.
Lemma hkeeps_dangerous (m : sql A) : keeps P m → hkeeps P (dangerous m).
Proof. intros Hm d Hd. specialize (Hm d Hd). unfold dangerous. by destruct (m d) as [d' [a|e]]. Qed.
Lemma hkeeps_render_error (m : sql unit) : keeps P m → hkeeps P (render_error m).
Proof. intros Hm d Hd. specialize (Hm d Hd). unfold render_error. by destruct (m d) as [d' [a|e]]. Qed.
End keeps.

Lemma keeps_for_each {A} (P : pdb → Prop) `{!Tables P} (f : A → sql unit) l :
  (∀ x, keeps P (f x)) → keeps P (for_each f l).
Proof. intros Hf. induction l as [|x l IH]; simpl; [by apply keeps_ret|]. apply keeps_bind; [done..|]. by intros _. Qed.

Create HintDb sql discriminated.
#[export] Hint Resolve keeps_ret keeps_fail keeps_query keeps_message keeps_transaction hkeeps_ret hkeeps_bomb
  hkeeps_dangerous hkeeps_render_error keeps_for_each : sql.
#[export] Hint Extern 1 (Tables _) => typeclasses eauto : sql.
Ltac as_keeps := match goal with |- hoare ?P ?m _ _ => change (keeps P m) end.
(** Through a program of statements down to those that write. *)
Ltac keeping :=
  repeat first
    [ match goal with |- ∀ _, _ => intro end
    | match goal with |- keeps _ (_ ≫= _) => eapply keeps_bind end
    | match goal with |- hkeeps _ (_ ≫= _) => eapply hkeeps_bind end
    | match goal with |- context [if ?b then _ else _] => destruct b end
    | match goal with |- context [match ?o with Some _ => _ | None => _ end] => destruct o end
    | solve [eauto 3 with sql]
    | match goal with |- keeps _ (with_message _ _) => apply keeps_message end
    | match goal with |- keeps _ (transaction _) => apply keeps_transaction end
    | match goal with |- keeps _ (for_each _ _) => apply keeps_for_each end
    | match goal with |- hkeeps _ (dangerous _) => apply hkeeps_dangerous end
    | match goal with |- hkeeps _ (render_error _) => apply hkeeps_render_error end ].

(** ** The tables of teams and business groups *)

Definition enabled_labels (bgs : list BusiGroup) : list string :=
  map BusiGrp.LabelValue (keep (λ b, BusiGrp.LabelEnable b =? 1) bgs).

(** A user is in a team once; business groups have their own ids, names and, when
    they are used as a label, label values; and every one has a row that makes a team a
    member, whether the team still exists or not. *)
Record groups_ok (d : pdb) : Prop := {
  go_teams : NoDup (db_ugm d);
  go_ids : NoDup (map BusiGrp.Id (db_bgs d));
  go_next b : b ∈ db_bgs d → BusiGrp.Id b < db_nextid d;
  go_names : NoDup (map BusiGrp.Name (db_bgs d));
  go_labels : NoDup (enabled_labels (db_bgs d));
  go_member b : b ∈ db_bgs d → ∃ m, m ∈ db_bgm d ∧ bm_BusiGroupId m = BusiGrp.Id b
}.
#[export] Instance groups_ok_tables : Tables groups_ok.
Proof. by intros d f []; split. Qed.

Lemma elem_of_keep {A} (p : A → bool) l x : x ∈ keep p l ↔ x ∈ l ∧ p x = true.
Proof. unfold keep. by rewrite list_elem_of_In, filter_In, <- list_elem_of_In. Qed.
Lemma elem_of_drop_rows {A} (p : A → bool) l x : x ∈ drop_rows p l ↔ x ∈ l ∧ p x = false.
Proof. unfold drop_rows. by rewrite list_elem_of_In, filter_In, <- list_elem_of_In, negb_true_iff. Qed.
Lemma keep_sublist {A} (p : A → bool) l : keep p l `sublist_of` l.
Proof. induction l as [|x l IH]; simpl; [constructor|]. case_match; by constructor. Qed.
Lemma drop_rows_sublist {A} (p : A → bool) l : drop_rows p l `sublist_of` l.
Proof. apply keep_sublist. Qed.
Lemma length_keep_0 {A} (p : A → bool) l : length (keep p l) = 0%nat → ∀ x, x ∈ l → p x = false.
Proof.
  intros Hl%length_zero_iff_nil x Hx. destruct (p x) eqn:Hp; [|done].
  assert (x ∈ keep p l) as H by by apply elem_of_keep. rewrite Hl in H. by apply elem_of_nil in H.
Qed.

(** Writes to the members of teams. *)
Lemma groups_ok_ugm d l : groups_ok d → NoDup l → groups_ok (d <| db_ugm := l |>).
Proof. intros [] ?. by split. Qed.
Lemma groups_ok_teams d l : groups_ok d → groups_ok (d <| db_teams := l |>).
Proof. by intros []; split. Qed.
Lemma groups_ok_users d l : groups_ok d → groups_ok (d <| db_users := l |>).
Proof. by intros []; split. Qed.
Lemma groups_ok_tokens d l : groups_ok d → groups_ok (d <| db_tokens := l |>).
Proof. by intros []; split. Qed.
Lemma groups_ok_next d n : groups_ok d → db_nextid d ≤ n → groups_ok (d <| db_nextid := n |>).
Proof. intros [] ?. split; try done. simpl; rsimp. intros b Hb. specialize (go_next0 b Hb). lia. Qed.
Lemma groups_ok_drop_ugm d p : groups_ok d → groups_ok (d <| db_ugm := drop_rows p (db_ugm d) |>).
Proof. intros Hd. apply groups_ok_ugm; [done|]. eapply sublist_NoDup; [apply Hd|apply drop_rows_sublist]. Qed.

Lemma UserGroupMemberAdd_keeps groupId userId : keeps groups_ok (UserGroupMemberAdd groupId userId).
Proof.
  unfold UserGroupMemberAdd, UserGroupMemberCount. eapply hoare_bind; [apply (hoare_query groups_ok)|]. intros num.
  destruct (Z.ltb_spec 0 num); [by intros d [Hd _]|].
  set (P := λ d, groups_ok d ∧ mkUserGroupMember groupId userId ∉ db_ugm d).
  apply (hoare_weaken _ _ P P _ (λ _, groups_ok)); [|  |done|by intros d []].
  - assert (Tables P) by (intros d f [Hd Hn]; split; [by apply groups_ok_tables|done]).
    apply hoare_stmt; [done|]. intros d [Hd Hn]. simpl. apply groups_ok_ugm; [done|]. apply NoDup_app. split_and!; [apply Hd| |apply NoDup_singleton].
    intros x Hx ->%list_elem_of_singleton. done.
  - intros d [Hd ->]. split; [done|]. intros Hin.
    assert (length (keep (λ m, (um_UserId m =? userId) && (um_GroupId m =? groupId)) (db_ugm d)) = 0%nat) as H0 by lia.
    apply (length_keep_0 _ _ H0) in Hin. simpl in Hin. by rewrite !Z.eqb_refl in Hin.
Qed.

Lemma UserGroupMemberDel_keeps groupId userIds : keeps groups_ok (UserGroupMemberDel groupId userIds).
Proof. unfold UserGroupMemberDel. keeping. apply keeps_exec; [apply _|]. intros. by apply groups_ok_drop_ugm. Qed.

Lemma sync_inserts_spec gids (set : gset Z) :
  NoDup (sync_inserts set gids) ∧ ∀ g, g ∈ sync_inserts set gids ↔ g ∈ gids ∧ g ∉ set.
Proof.
  revert set. induction gids as [|x gids IH]; intros set; simpl.
  { split; [constructor|]. intros g. rewrite !elem_of_nil. naive_solver. }
  destruct (decide (x ∈ set)) as [Hx|Hx].
  - destruct (IH set) as [Hnd Hin]. split; [done|]. intros g. rewrite Hin, elem_of_cons. naive_solver.
  - destruct (IH ({[x]} ∪ set)) as [Hnd Hin]. split.
    + constructor; [|done]. rewrite Hin. set_solver.
    + intros g. rewrite !elem_of_cons, Hin. destruct (decide (g = x)) as [->|]; set_solver.
Qed.

(** An insertion whose failure is ignored. *)
Lemma keeps_ignore (P : pdb → Prop) (m : sql unit) : keeps P m → keeps P (λ d, (fst (m d), Ok tt)).
Proof. intros Hm d Hd. specialize (Hm d Hd). by destruct (m d) as [d' [|]]. Qed.

Lemma UserGroupMemberSync_keeps gids userId cover : keeps groups_ok (UserGroupMemberSync gids userId cover).
Proof.
  unfold UserGroupMemberSync. case_match.
  { case_match; [|apply keeps_ret]. apply keeps_exec; [apply _|]. intros. by apply groups_ok_drop_ugm. }
  eapply hoare_bind; [apply (hoare_query groups_ok)|]. intros curGids. set (ins := sync_inserts (list_to_set curGids) gids).
  apply (hoare_bind _ _ (λ _, groups_ok)).
  - intros d [Hd ->]. destruct (0 <? length ins)%nat; [|done].
    assert (groups_ok (fst (exec (λ d, d <| db_ugm := db_ugm d ++ map (λ g, mkUserGroupMember g userId) ins |>) d))); [|done].
    unfold exec, stmt. destruct (head (db_faults d)) as [[e|]|]; simpl; [by apply groups_ok_tables|..];
      (apply groups_ok_ugm; [by apply groups_ok_tables|]; unfold tick; rsimp; apply NoDup_app;
       split_and!; [apply Hd| |by apply NoDup_fmap_2; [by intros ?? [=]|apply sync_inserts_spec]]);
      intros m Hm (g & -> & Hg)%list_elem_of_fmap; apply sync_inserts_spec in Hg as [_ Hg]; apply Hg, elem_of_list_to_set;
      apply list_elem_of_fmap; (exists (mkUserGroupMember g userId)); (split; [done|]); apply elem_of_keep;
      simpl; by rewrite Z.eqb_refl.
  - intros _. as_keeps. keeping. apply keeps_exec; [apply _|]. intros. by apply groups_ok_drop_ugm.
Qed.

(** Writes to the members of business groups. *)
Lemma groups_ok_bgm d l :
  groups_ok d → (∀ m, m ∈ db_bgm d → ∃ m', m' ∈ l ∧ bm_BusiGroupId m' = bm_BusiGroupId m) → groups_ok (d <| db_bgm := l |>).
Proof.
  intros [] Hl. split; try done. intros b Hb. destruct (go_member0 b Hb) as (m & Hm & <-). by apply Hl.
Qed.

Lemma BusiGroupMemberAdd_keeps m : keeps groups_ok (BusiGroupMemberAdd m).
Proof.
  unfold BusiGroupMemberAdd. keeping.
  - apply keeps_exec; [apply _|]. intros d Hd. apply groups_ok_bgm; [done|]. intros r Hr.
    set (f := λ m0, if is_member _ _ m0 then _ else m0). exists (f r). split; [by apply list_elem_of_fmap_2|].
    unfold f. by destruct (is_member _ _ r).
  - apply keeps_exec; [apply _|]. intros d Hd. apply groups_ok_bgm; [done|]. intros r Hr. exists r.
    split; [|done]. apply elem_of_app. by left.
Qed.

Lemma groups_ok_bgs_map d (f : BusiGroup → BusiGroup) :
  (∀ b, BusiGrp.Id (f b) = BusiGrp.Id b ∧ BusiGrp.Name (f b) = BusiGrp.Name b ∧
        BusiGrp.LabelEnable (f b) = BusiGrp.LabelEnable b ∧ BusiGrp.LabelValue (f b) = BusiGrp.LabelValue b) →
  groups_ok d → groups_ok (d <| db_bgs := map f (db_bgs d) |>).
Proof.
  intros Hf [].
  assert (∀ {C} (g : BusiGroup → C), (∀ b, g (f b) = g b) → map g (map f (db_bgs d)) = map g (db_bgs d)) as Hmap
    by (intros C g Hg; rewrite map_map; by apply map_ext).
  split; simpl; rsimp; try done.
  - rewrite Hmap; [done|]. apply Hf.
  - intros b (b' & -> & Hb')%list_elem_of_fmap. rewrite (proj1 (Hf b')). auto.
  - rewrite Hmap; [done|]. apply Hf.
  - replace (enabled_labels (map f (db_bgs d))) with (enabled_labels (db_bgs d)); [done|]. unfold enabled_labels, keep.
    clear -Hf. induction (db_bgs d) as [|b l IH]; [done|]. destruct (Hf b) as (_ & _ & He & Hl). simpl. rewrite He.
    case_match; simpl; [by rewrite Hl, IH|done].
  - intros b (b' & -> & Hb')%list_elem_of_fmap. rewrite (proj1 (Hf b')). auto.
Qed.

Lemma touch_bg_keeps bg now username : keeps groups_ok (touch_bg bg now username).
Proof.
  apply keeps_exec; [apply _|]. intros d Hd. apply groups_ok_bgs_map; [|done]. intros b. by case_match.
Qed.

(** Another team of the group remains. *)
Lemma del_member_keeps m : keeps groups_ok (del_member m).
Proof.
  unfold del_member. eapply hoare_bind; [apply (hoare_query groups_ok)|]. intros num.
  destruct (Z.eqb_spec num 0); [by intros d [Hd _]|].
  set (P := λ d, groups_ok d ∧ ∃ r, r ∈ db_bgm d ∧ bm_BusiGroupId r = bm_BusiGroupId m ∧ bm_UserGroupId r ≠ bm_UserGroupId m).
  apply (hoare_weaken _ _ P P _ (λ _, groups_ok)); [|  |done|by intros d []].
  - assert (Tables P) by (intros d f [Hd Hn]; split; [by apply groups_ok_tables|done]).
    apply hoare_stmt; [done|]. intros d [Hd (r & Hr & Hbg & Hug)]. simpl. apply groups_ok_bgm; [done|]. intros x Hx.
    destruct (is_member (bm_BusiGroupId m) (bm_UserGroupId m) x) eqn:Hm.
    + exists r. split; [|].
      * apply elem_of_drop_rows. split; [done|]. unfold is_member. by rewrite (proj2 (Z.eqb_neq _ _) Hug), andb_false_r.
      * unfold is_member in Hm. bool_prop. lia.
    + exists x. split; [|done]. by apply elem_of_drop_rows.
  - intros d [Hd ->]. split; [done|]. destruct (keep _ (db_bgm d)) as [|r l] eqn:E; [done|].
    assert (r ∈ r :: l) as Hr by left. rewrite <- E in Hr. apply elem_of_keep in Hr as [Hr Hp]. bool_prop.
    by exists r.
Qed.

Lemma NoDup_map_update {C} (g : BusiGroup → C) (p : BusiGroup → bool) (l : list BusiGroup) (id : Z) (f : BusiGroup → BusiGroup) v :
  (∀ b, BusiGrp.Id b = id → g (f b) = v) → (∀ y b, BusiGrp.Id y = id → p (f y) = true → b ∈ l → BusiGrp.Id b ≠ id → p b = true → g b ≠ v) →
  NoDup (map BusiGrp.Id l) → NoDup (map g (keep p l)) →
  NoDup (map g (keep p (map (λ b, if BusiGrp.Id b =? id then f b else b) l))).
Proof.
  intros Hf. induction l as [|b l IH]; [done|]. intros Hv Hid Hg. simpl in Hid. apply NoDup_cons in Hid as [Hb Hid].
  simpl. destruct (Z.eqb_spec (BusiGrp.Id b) id) as [E|E].
  - assert (map (λ b, if BusiGrp.Id b =? id then f b else b) l = l) as Hl.
    { rewrite <- (map_id l) at 2. apply map_ext_in. intros x Hx%list_elem_of_In. destruct (Z.eqb_spec (BusiGrp.Id x) id) as [Ex|]; [|done].
      destruct Hb. rewrite E, <- Ex. by apply (list_elem_of_fmap_2 BusiGrp.Id). }
    rewrite Hl. simpl in Hg. fold (keep p l) in Hg |- *.
    assert (NoDup (map g (keep p l))) as Hg' by (destruct (p b); [by apply NoDup_cons in Hg as [_ ?]|done]).
    destruct (p (f b)) eqn:Hpf; [|done]. simpl. constructor; [|done]. rewrite Hf by done.
    intros (x & Hx & [Hin Hp]%elem_of_keep)%list_elem_of_fmap. eapply (Hv b x); [done|done|by right| |done|done].
    intros Ex. apply Hb. rewrite E, <- Ex. by apply (list_elem_of_fmap_2 BusiGrp.Id).
  - simpl in Hg. fold (keep p l) in Hg |- *.
    assert (NoDup (map g (keep p (map (λ b, if BusiGrp.Id b =? id then f b else b) l)))) as IH'.
    { apply IH; [|done|destruct (p b); [by apply NoDup_cons in Hg as [_ ?]|done]]. intros y x Hy Hpy Hx. apply (Hv y x Hy Hpy). by right. }
    fold (keep p (map (λ b, if BusiGrp.Id b =? id then f b else b) l)). destruct (p b) eqn:Hp; [|done]. simpl in Hg |- *.
    apply NoDup_cons in Hg as [Hgb Hg]. constructor; [|done].
    intros (x & Hx & [(y & -> & Hy)%list_elem_of_fmap Hpx]%elem_of_keep)%list_elem_of_fmap.
    destruct (Z.eqb_spec (BusiGrp.Id y) id) as [Ey|Ey].
    + rewrite Hf in Hx by done. by apply (Hv y b); [done|done|left|done|done|].
    + apply Hgb. rewrite Hx. apply list_elem_of_fmap_2, elem_of_keep. done.
Qed.

Lemma existsb_false_elem {A} (p : A → bool) l x : existsb p l = false → x ∈ l → p x = false.
Proof.
  intros He Hx. destruct (p x) eqn:Hp; [|done]. assert (existsb p l = true) as H; [|congruence].
  apply existsb_exists. exists x. split; [by apply list_elem_of_In|done].
Qed.
Lemma keep_true {A} (l : list A) : keep (λ _, true) l = l.
Proof. induction l as [|x l IH]; simpl; [done|]. by f_equal. Qed.

Lemma count_bg_spec (P : pdb → Prop) `{!Tables P} p : hoare P (count_bg p) (λ b d, P d ∧ b = existsb p (db_bgs d)) P.
Proof. apply hoare_message. by apply hoare_query. Qed.

(** Counting groups where it is asked for. *)
Lemma count_label_spec (P : pdb → Prop) `{!Tables P} (le : Z) p :
  hoare P (if le =? 1 then count_bg p else mret false) (λ b d, P d ∧ (b = false → le = 1 → existsb p (db_bgs d) = false)) P.
Proof.
  destruct (Z.eqb_spec le 1).
  - eapply hoare_weaken; [by apply (count_bg_spec P)|done| |done]. by intros b d [? ->].
  - by intros d Hd.
Qed.

(** [db_bgs] has no group like this. *)
Definition no_bg (p : BusiGroup → bool) (d : pdb) : Prop := existsb p (db_bgs d) = false.
Lemma groups_no_bg_tables p (Q : pdb → Prop) `{!Tables Q} : Tables (λ d, Q d ∧ no_bg p d).
Proof. intros d f [Hd Hn]. split; [by apply tables_faults|done]. Qed.
#[local] Hint Resolve groups_no_bg_tables : typeclass_instances.

(** No group has the name, nor the label when it is used. *)
Definition fresh_bg (p1 p2 : BusiGroup → bool) (le : Z) (d : pdb) : Prop :=
  groups_ok d ∧ no_bg p1 d ∧ (le = 1 → no_bg p2 d).
#[export] Instance fresh_bg_tables p1 p2 le : Tables (fresh_bg p1 p2 le).
Proof. intros d f (Hd & H1 & H2). split_and!; [by apply groups_ok_tables|done|done]. Qed.

Lemma fresh_names p1 p2 le (k : sql unit) :
  hoare (fresh_bg p1 p2 le) k (λ _, groups_ok) groups_ok →
  keeps groups_ok (exists_ ← count_bg p1;
                   if (exists_ : bool) then fail "BusiGroup already exists"
                   else taken ← (if le =? 1 then count_bg p2 else mret false);
                        if (taken : bool) then fail "BusiGroup already exists" else k).
Proof.
  intros Hk. eapply hoare_bind; [by apply (count_bg_spec groups_ok)|]. intros b1.
  destruct b1; [by intros d [Hd _]|].
  set (P := λ d, groups_ok d ∧ no_bg p1 d).
  assert (Tables P) by apply _.
  apply (hoare_bind _ _ (λ b d, P d ∧ (b = false → le = 1 → existsb p2 (db_bgs d) = false))).
  { eapply hoare_weaken; [by apply (count_label_spec P)|by intros d [Hd He]|done|by intros d []]. }
  intros b2. destruct b2; [by intros d [[Hd _] _]|]. intros d [[Hd H1] Hl]. apply Hk. split_and!; [done|done|]. by apply Hl.
Qed.

Lemma BusiGroup_Update_keeps bg name le lv now by_ : keeps groups_ok (BusiGroup_Update bg name le lv now by_).
Proof.
  unfold BusiGroup_Update. case_match; [apply keeps_ret|].
  apply fresh_names. set (lv' := if le =? 1 then lv else ""). set (P := fresh_bg _ _ _).
  apply (hoare_weaken _ _ P P _ (λ _, groups_ok)); [|done|done|by intros d (? & _)].
  apply hoare_stmt; [apply _|]. intros d ([] & Hn & Hl). simpl.
  assert (∀ f : BusiGroup → BusiGroup, (∀ b, BusiGrp.Id (f b) = BusiGrp.Id b) →
    map BusiGrp.Id (map (λ b, if BusiGrp.Id b =? BusiGrp.Id bg then f b else b) (db_bgs d)) = map BusiGrp.Id (db_bgs d)) as Hids.
  { intros f Hf. rewrite map_map. apply map_ext. intros b. by case_match. }
  split; simpl; rsimp; try done.
  - by rewrite Hids.
  - intros b (b' & -> & Hb')%list_elem_of_fmap. specialize (go_next0 b' Hb'). by case_match.
  - rewrite <- (keep_true (map _ (db_bgs d))). apply (NoDup_map_update _ _ _ _ _ name); [done| |done|by rewrite keep_true].
    intros _ b _ _ Hb Hid _ Heq. apply (existsb_false_elem _ _ b Hn) in Hb as Hp.
    by rewrite Heq, String.eqb_refl, (proj2 (Z.eqb_neq _ _) Hid) in Hp.
  - apply (NoDup_map_update _ _ _ _ _ lv'); [done| |done|done].
    intros y b _ Hpy Hb Hid Hpb Heq. simpl in Hpy; rsimp. simpl in Hpy. apply Z.eqb_eq in Hpy.
    apply (existsb_false_elem _ _ b (Hl Hpy)) in Hb as Hp. unfold same_label in Hp.
    rewrite Hpb, Heq, (proj2 (Z.eqb_neq _ _) Hid) in Hp. unfold lv' in Hp. rewrite Hpy in Hp. by rewrite String.eqb_refl in Hp.
  - intros b (b' & -> & Hb')%list_elem_of_fmap. destruct (go_member0 b' Hb') as (m & Hm & Hid). exists m.
    split; [done|]. by case_match.
Qed.

(** The new group has no team yet. *)
Record groups_new (id : Z) (d : pdb) : Prop := {
  gn_teams : NoDup (db_ugm d);
  gn_ids : NoDup (map BusiGrp.Id (db_bgs d));
  gn_next b : b ∈ db_bgs d → BusiGrp.Id b < db_nextid d;
  gn_names : NoDup (map BusiGrp.Name (db_bgs d));
  gn_labels : NoDup (enabled_labels (db_bgs d));
  gn_member b : b ∈ db_bgs d → BusiGrp.Id b ≠ id → ∃ m, m ∈ db_bgm d ∧ bm_BusiGroupId m = BusiGrp.Id b
}.
#[export] Instance groups_new_tables id : Tables (groups_new id).
Proof. by intros d f []; split. Qed.

Lemma NoDup_snoc {A} (l : list A) x : NoDup l → x ∉ l → NoDup (l ++ [x]).
Proof.
  intros Hl Hx. apply NoDup_app. split_and!; [done| |apply NoDup_singleton]. by intros y Hy ->%list_elem_of_singleton.
Qed.

Lemma insert_bg_spec name le lv lv' now creator :
  lv' = (if le =? 1 then lv else "") →
  hoare (fresh_bg (λ b, String.eqb (BusiGrp.Name b) name) (same_label lv) le)
    (insert_bg (BusiGrp.mkBusiGroup 0 name le lv' now creator now creator)) groups_new (λ _, True).
Proof.
  intros Hlv. set (P := fresh_bg _ _ _). apply (hoare_weaken _ _ P P _ groups_new); [|done..].
  apply hoare_stmt; [apply _|]. intros d ([] & Hn & Hl). simpl.
  split; simpl; rsimp; rewrite ?map_app; try done.
  - apply NoDup_snoc; [done|]. intros (b & Hb & Hin)%list_elem_of_fmap. specialize (go_next0 b Hin). simpl in Hb. lia.
  - intros b [Hb| ->%list_elem_of_singleton]%elem_of_app; simpl; [specialize (go_next0 b Hb)|]; lia.
  - apply NoDup_snoc; [done|]. intros (b & Hb & Hin)%list_elem_of_fmap. apply (existsb_false_elem _ _ b Hn) in Hin.
    simpl in Hb. by rewrite <- Hb, String.eqb_refl in Hin.
  - unfold enabled_labels, keep. rewrite List.filter_app, map_app. simpl. destruct (Z.eqb_spec le 1) as [Hle|]; [|by rewrite app_nil_r].
    simpl. apply NoDup_snoc; [done|]. intros (b & Hb & [Hin Hen]%elem_of_keep)%list_elem_of_fmap.
    apply (existsb_false_elem _ _ b (Hl Hle)) in Hin. unfold same_label in Hin.
    simpl in Hb. by rewrite Hen, <- Hb, Hlv, String.eqb_refl in Hin.
  - intros b [Hb| ->%list_elem_of_singleton]%elem_of_app Hid; [by apply go_member0|done].
Qed.

Lemma add_bgm_keeps m : keeps groups_ok (exec (λ d, d <| db_bgm := db_bgm d ++ [m] |>)).
Proof.
  apply keeps_exec; [apply _|]. intros d Hd. apply groups_ok_bgm; [done|]. intros r Hr. exists r.
  split; [|done]. apply elem_of_app. by left.
Qed.

Lemma first_member_spec id m :
  bm_BusiGroupId m = id → hoare (groups_new id) (exec (λ d, d <| db_bgm := db_bgm d ++ [m] |>)) (λ _, groups_ok) (λ _, True).
Proof.
  intros Hm. apply (hoare_weaken _ _ (groups_new id) (groups_new id) _ (λ _, groups_ok)); [|done..].
  apply hoare_stmt; [apply _|]. intros d []. simpl. split; simpl; rsimp; try done. intros b Hb.
  destruct (decide (BusiGrp.Id b = id)) as [E|E].
  - exists m. split; [|congruence]. apply elem_of_app. right. by left.
  - destruct (gn_member0 b Hb E) as (r & Hr & ?). exists r. split; [|done]. apply elem_of_app. by left.
Qed.

Lemma BusiGroupAdd_keeps name le lv members now creator :
  members ≠ [] → keeps groups_ok (BusiGroupAdd name le lv members now creator).
Proof.
  intros Hne. unfold BusiGroupAdd. apply fresh_names. set (P := fresh_bg _ _ _).
  apply (hoare_bind _ _ (λ _, P)).
  { eapply hoare_weaken; [apply (keeps_for_each P)|done|done|by intros d (? & _)].
    intros m. unfold check_team. keeping. }
  intros _. apply (hoare_weaken _ _ P P _ (λ _, groups_ok)); [|done|done|by intros d (? & _)].
  apply hoare_transaction; [apply _..|]. eapply hoare_bind; [by eapply insert_bg_spec|]. intros id.
  destruct members as [|m members]; [done|]. simpl.
  apply (hoare_bind _ _ (λ _, groups_ok)); [by apply first_member_spec|]. intros _.
  eapply hoare_weaken; [apply (keeps_for_each groups_ok)|done..]. intros m'. apply add_bgm_keeps.
Qed.

Lemma map_sublist {A C} (f : A → C) (l l' : list A) : l `sublist_of` l' → map f l `sublist_of` map f l'.
Proof. induction 1; simpl; by constructor. Qed.
Lemma keep_drop_sublist {A} (p q : A → bool) (l : list A) : keep p (drop_rows q l) `sublist_of` keep p l.
Proof. induction l as [|x l IH]; simpl; [constructor|]. repeat (case_match; simpl); try done; by constructor. Qed.

Lemma groups_ok_drop_bg d id :
  groups_ok d → groups_ok (d <| db_bgm := drop_rows (λ m, bm_BusiGroupId m =? id) (db_bgm d) |>
                             <| db_bgs := drop_rows (λ b, BusiGrp.Id b =? id) (db_bgs d) |>).
Proof.
  intros []. pose proof (drop_rows_sublist (λ b, BusiGrp.Id b =? id) (db_bgs d)) as Hsub.
  split; simpl; rsimp; try done.
  - eapply sublist_NoDup; [exact go_ids0|]. by apply map_sublist.
  - intros b [Hb _]%elem_of_drop_rows. auto.
  - eapply sublist_NoDup; [exact go_names0|]. by apply map_sublist.
  - eapply sublist_NoDup; [exact go_labels0|]. apply map_sublist, keep_drop_sublist.
  - intros b [Hb Hid]%elem_of_drop_rows. destruct (go_member0 b Hb) as (m & Hm & Hmb). exists m. split; [|done].
    apply elem_of_drop_rows. split; [done|]. by rewrite Hmb.
Qed.

(** The deletion of the group, between its two statements. *)
Lemma BusiGroup_Del_keeps in_use bg :
  (∀ q msg, (q, msg) ∈ in_use → keeps groups_ok q) → keeps groups_ok (BusiGroup_Del in_use bg).
Proof.
  intros Huse. unfold BusiGroup_Del. apply keeps_bind.
  { induction in_use as [|[q msg] in_use IH]; simpl; [apply keeps_ret|]. apply keeps_bind.
    - apply keeps_bind; [apply (Huse q msg); by left|]. intros b. keeping.
    - intros _. apply IH. intros q' msg' Hin. apply (Huse q' msg'). by right. }
  intros _. set (id := BusiGrp.Id bg).
  apply hoare_transaction; [apply _..|].
  set (P := λ d, ∃ d0, groups_ok d0 ∧ d = d0 <| db_bgm := drop_rows (λ m, bm_BusiGroupId m =? id) (db_bgm d0) |>).
  assert (Tables P) by (intros d f (d0 & Hd0 & ->); exists (d0 <| db_faults := f |>); split; [by apply groups_ok_tables|done]).
  apply (hoare_bind _ _ (λ _, P)).
  { eapply hoare_weaken; [apply (hoare_stmt groups_ok) with (Q := λ _, P)|done..]. intros d Hd. simpl. by exists d. }
  intros _. apply (hoare_bind _ _ (λ _, groups_ok)).
  { eapply hoare_weaken; [apply (hoare_stmt P) with (Q := λ _, groups_ok)|done..]. intros d (d0 & Hd0 & ->). simpl.
    by apply groups_ok_drop_bg. }
  intros _. eapply hoare_weaken; [apply (keeps_exec groups_ok)|done..]. done.
Qed.

(** ** Teams and users *)

Section ops.
Context `{SL : StrLib, UL : UserLib, CR : Crypto, UC : UnicodeCase, GR : GoRange, !Json (gmap string string)}.
Context (pc : phone_config).
Implicit Types (u me : User).

Lemma UserGroup_Add_keeps ug now : keeps groups_ok (UserGroup_Add ug now).
Proof.
  unfold UserGroup_Add. case_match; [apply keeps_fail|]. keeping. apply hoare_stmt; [apply _|]. intros d Hd.
  apply (groups_ok_next (d <| db_teams := _ |>)); [by apply groups_ok_teams|simpl; rsimp; lia].
Qed.

Lemma UserGroup_Del_keeps ug : keeps groups_ok (UserGroup_Del ug).
Proof.
  unfold UserGroup_Del. keeping; apply keeps_exec; try apply _; intros; [by apply groups_ok_drop_ugm|by apply groups_ok_teams].
Qed.

Lemma update_team_keeps ug f : keeps groups_ok (update_team ug f).
Proof. unfold update_team. case_match; [apply keeps_fail|]. apply keeps_exec; [apply _|]. intros. by apply groups_ok_teams. Qed.

Lemma UserGet_keeps p : keeps groups_ok (UserGet pc p).
Proof. unfold UserGet. keeping. Qed.

Lemma User_Add_keeps u now : keeps groups_ok (User_Add pc u now).
Proof.
  unfold User_Add. apply keeps_bind; [apply keeps_message, UserGet_keeps|]. intros [r|]; [apply keeps_fail|].
  apply hoare_stmt; [apply _|]. intros d Hd.
  apply (groups_ok_next (d <| db_users := _ |>)); [by apply groups_ok_users|simpl; rsimp; lia].
Qed.

Lemma AddUserAndGroups_keeps u now cover : keeps groups_ok (AddUserAndGroups pc u now cover).
Proof.
  unfold AddUserAndGroups. apply keeps_bind; [apply keeps_message, User_Add_keeps|]. intros id.
  apply keeps_message, UserGroupMemberSync_keeps.
Qed.

Lemma User_Del_keeps u : keeps groups_ok (User_Del u).
Proof.
  unfold User_Del. keeping; apply keeps_exec; try apply _; intros;
    [by apply groups_ok_drop_ugm|by apply groups_ok_users|by apply groups_ok_tokens].
Qed.

Lemma UserDelByIds_keeps ids : keeps groups_ok (UserDelByIds ids).
Proof. unfold UserDelByIds. keeping; apply keeps_exec; try apply _; intros; [by apply groups_ok_drop_ugm|by apply groups_ok_users]. Qed.

Lemma AddMembers_keeps ug ids : keeps groups_ok (UserGroup_AddMembers pc ug ids).
Proof.
  unfold UserGroup_AddMembers. keeping; [apply UserGet_keeps|]. apply UserGroupMemberAdd_keeps.
Qed.
End ops.

(** ** Handlers *)

(** The tables are those of [d0]. *)
Definition same (d0 d : pdb) : Prop := ∃ f, d = d0 <| db_faults := f |>.
#[export] Instance same_tables d0 : Tables (same d0).
Proof. intros d f [f' ->]. by exists f. Qed.
Lemma same_refl d : same d d.
Proof. exists (db_faults d). by destruct d. Qed.

Definition hhoare {A} (P : pdb → Prop) (h : handler A) (Q : A → pdb → Prop) (E : pdb → Prop) : Prop :=
  ∀ d, P d → match h d with (d', Done a) => Q a d' | (d', Bomb _ _) => E d' end.

Section hrules.
Context {A B : Type} (P E : pdb → Prop).

Lemma hhoare_bind (R : A → pdb → Prop) (Q : B → pdb → Prop) (h : handler A) (k : A → handler B) :
  hhoare P h R E → (∀ a, hhoare (R a) (k a) Q E) → hhoare P (h ≫= k) Q E.
Proof.
  intros Hh Hk d Hd. specialize (Hh d Hd). unfold mbind, handler_bind. destruct (h d) as [d' [a|c e]]; [|done]. by apply Hk.
Qed.
Lemma hhoare_dangerous (Q : A → pdb → Prop) (m : sql A) : hoare P m Q E → hhoare P (dangerous m) Q E.
Proof. intros Hm d Hd. specialize (Hm d Hd). unfold dangerous. by destruct (m d) as [d' [a|e]]. Qed.
Lemma hhoare_if (Q : A → pdb → Prop) (b : bool) (h : handler A) code msg :
  (b = true → hhoare P h Q E) → (∀ d, P d → E d) → hhoare P (if b then h else bomb code msg) Q E.
Proof. intros Hh HE. destruct b; [by apply Hh|]. by intros d Hd%HE. Qed.
End hrules.

Section authorised.
Context `{SL : StrLib, UL : UserLib, CR : Crypto, UC : UnicodeCase, GR : GoRange, !Json (gmap string string)}.
Context (pc : phone_config).
Implicit Types (u me : User).

(** Who may use an operation, and who may use a business group. *)
Definition may_op (d : pdb) u (operation : string) : Prop :=
  AdminRole ∈ Usr.RolesLst u ∨ ∃ r, r ∈ db_ops d ∧ ro_Operation r = operation ∧ ro_RoleName r ∈ Usr.RolesLst u.
Definition may_bg (d : pdb) u (id : Z) (permFlag : option string) : Prop :=
  AdminRole ∈ Usr.RolesLst u ∨
  ∃ m, m ∈ db_bgm d ∧ bm_BusiGroupId m = id ∧ has_flag permFlag m = true ∧
       mkUserGroupMember (bm_UserGroupId m) (Usr.Id u) ∈ db_ugm d.

(** A check reads the tables and answers this, unless a statement fails. *)
Definition checks {A} (d0 : pdb) (m : sql A) (Q : A → Prop) : Prop := hoare (same d0) m (λ a d, same d0 d ∧ Q a) (same d0).

Lemma checks_ret {A} d0 (a : A) (Q : A → Prop) : Q a → checks d0 (mret a) Q.
Proof. by intros HQ d Hd. Qed.
Lemma checks_query {A} d0 (f : pdb → A) (Q : A → Prop) :
  (∀ d fs, f (d <| db_faults := fs |>) = f d) → Q (f d0) → checks d0 (query f) Q.
Proof. intros Hf HQ. apply hoare_stmt; [apply _|]. intros d [fs ->]. simpl. rewrite Hf. split; [by exists fs|done]. Qed.
Lemma checks_query_eq {A} d0 (f : pdb → A) :
  (∀ d fs, f (d <| db_faults := fs |>) = f d) → checks d0 (query f) (λ a, a = f d0).
Proof. intros Hf. by apply checks_query. Qed.
Lemma checks_bind {A B} d0 (m : sql A) (k : A → sql B) (R : A → Prop) (Q : B → Prop) :
  checks d0 m R → (∀ a, R a → checks d0 (k a) Q) → checks d0 (m ≫= k) Q.
Proof. intros Hm Hk. eapply hoare_bind; [exact Hm|]. intros a d [Hd HR]. by apply Hk. Qed.

Lemma smem_elem x l : smem x l = true ↔ x ∈ l.
Proof. apply bool_decide_eq_true. Qed.
Lemma mem_elem x l : mem x l = true ↔ x ∈ l.
Proof. apply bool_decide_eq_true. Qed.
Lemma length_keep_pos {A} (p : A → bool) l : (0 < length (keep p l))%nat ↔ ∃ x, x ∈ l ∧ p x = true.
Proof.
  setoid_rewrite <- elem_of_keep. destruct (keep p l) as [|x k]; simpl; split; try lia.
  - by intros (x & []%elem_of_nil).
  - intros _. exists x. by left.
Qed.

Lemma CheckPerm_spec d0 u operation : checks d0 (CheckPerm u operation) (λ b, b = true ↔ may_op d0 u operation).
Proof.
  unfold CheckPerm, may_op. destruct (IsAdmin u) eqn:Ha.
  { apply checks_ret. apply IsAdmin_elem in Ha. naive_solver. }
  assert (AdminRole ∉ Usr.RolesLst u) as Hna by (rewrite <- IsAdmin_elem; congruence).
  unfold RoleHasOperation. destruct (Nat.eqb_spec (length (Usr.RolesLst u)) 0) as [->%length_zero_iff_nil|_].
  { apply checks_ret. split; [done|]. by intros [[]%elem_of_nil|(r & _ & _ & []%elem_of_nil)]. }
  apply checks_query; [done|]. rewrite existsb_elem_of. split.
  - intros (r & Hr & Hb). bool_prop. right. exists r. split_and!; [done|done|by apply smem_elem].
  - intros [?|(r & Hr & <- & Hn)]; [done|]. exists r. split; [done|]. rewrite String.eqb_refl. by apply smem_elem.
Qed.

Lemma CanDoBusiGroup_spec d0 u bg flag :
  checks d0 (CanDoBusiGroup u bg flag) (λ b, b = true ↔ may_bg d0 u (BusiGrp.Id bg) flag).
Proof.
  unfold CanDoBusiGroup, may_bg. destruct (IsAdmin u) eqn:Ha.
  { apply checks_ret. apply IsAdmin_elem in Ha. naive_solver. }
  assert (AdminRole ∉ Usr.RolesLst u) as Hna by (rewrite <- IsAdmin_elem; congruence).
  set (p := λ m, (bm_BusiGroupId m =? BusiGrp.Id bg) && has_flag flag m).
  eapply checks_bind; [by apply checks_query_eq|]. fold p.
  intros ugids ->. destruct (keep p (db_bgm d0)) as [|r l] eqn:E.
  { apply checks_ret. split; [done|]. intros [?|(m & Hm & Hid & Hfl & _)]; [done|].
    assert (m ∈ keep p (db_bgm d0)) as Hk by (apply elem_of_keep; unfold p; by rewrite Hid, Z.eqb_refl).
    rewrite E in Hk. by apply elem_of_nil in Hk. }
  rewrite <- E. replace (length (map bm_UserGroupId (keep p (db_bgm d0))) =? 0)%nat with false by by rewrite E.
  eapply checks_bind; [by apply checks_query_eq|]. intros num ->. apply checks_ret.
  rewrite Z.ltb_lt, <- (Nat2Z.inj_lt 0), length_keep_pos. unfold p. split.
  - intros ([g v] & Hx & Hp). bool_prop. simpl in *. subst.
    match goal with H : mem g _ = true |- _ => apply mem_elem, list_elem_of_fmap in H as (m & -> & [Hm Hq]%elem_of_keep) end.
    bool_prop. right. by exists m.
  - intros [?|(m & Hm & Hid & Hfl & Hu)]; [done|]. eexists. split; [exact Hu|]. simpl. rewrite Z.eqb_refl. apply mem_elem.
    apply list_elem_of_fmap_2, elem_of_keep. by rewrite Hid, Z.eqb_refl.
Qed.

Definition may_team (d : pdb) u (ug : UserGroup) : Prop :=
  AdminRole ∈ Usr.RolesLst u ∨ UserGrp.CreateBy ug = Usr.Username u ∨ mkUserGroupMember (UserGrp.Id ug) (Usr.Id u) ∈ db_ugm d.

Lemma CanModifyUserGroup_spec d0 u ug : checks d0 (CanModifyUserGroup u ug) (λ b, b = true ↔ may_team d0 u ug).
Proof.
  unfold CanModifyUserGroup, may_team. destruct (IsAdmin u) eqn:Ha.
  { apply checks_ret. apply IsAdmin_elem in Ha. naive_solver. }
  assert (AdminRole ∉ Usr.RolesLst u) as Hna by (rewrite <- IsAdmin_elem; congruence).
  destruct (String.eqb_spec (UserGrp.CreateBy ug) (Usr.Username u)); [apply checks_ret; naive_solver|].
  eapply checks_bind; [by apply checks_query_eq|]. intros num ->. apply checks_ret.
  rewrite Z.ltb_lt, <- (Nat2Z.inj_lt 0), length_keep_pos. split.
  - intros ([g v] & Hx & Hp). bool_prop. simpl in *. subst. naive_solver.
  - intros [?|[?|Hm]]; [done..|]. eexists. split; [exact Hm|]. simpl. by rewrite !Z.eqb_refl.
Qed.
End authorised.

(** ** Requests on a business group or a team *)

Inductive request :=
  | BgPut (name : string) (labelEnable : Z) (labelValue : string)
  | BgMembersAdd (members : list BusiGroupMember)
  | BgMembersDel (members : list BusiGroupMember)
  | BgDel
  | TeamPut (name note : string)
  | TeamMembersAdd (ids : list Z)
  | TeamMembersDel (ids : list Z)
  | TeamDel.

(** The operation that the routes ask of the user's roles. *)
Definition operation_of (r : request) : string :=
  match r with
  | BgPut _ _ _ | BgMembersAdd _ | BgMembersDel _ => "/busi-groups/put"
  | BgDel => "/busi-groups/del"
  | TeamPut _ _ | TeamMembersAdd _ | TeamMembersDel _ => "/user-groups/put"
  | TeamDel => "/user-groups/del"
  end.
Definition on_team (r : request) : bool :=
  match r with TeamPut _ _ | TeamMembersAdd _ | TeamMembersDel _ | TeamDel => true | _ => false end.

(** Rows of other business groups are as in [d0], and so are all other tables. *)
Record bg_frame (id : Z) (d0 d : pdb) : Prop := {
  bf_members : drop_rows (λ m, bm_BusiGroupId m =? id) (db_bgm d) = drop_rows (λ m, bm_BusiGroupId m =? id) (db_bgm d0);
  bf_groups : drop_rows (λ b, BusiGrp.Id b =? id) (db_bgs d) = drop_rows (λ b, BusiGrp.Id b =? id) (db_bgs d0);
  bf_others : same d0 (d <| db_bgm := db_bgm d0 |> <| db_bgs := db_bgs d0 |>)
}.
(** Rows of other teams are as in [d0], and so are all other tables. *)
Record team_frame (id : Z) (d0 d : pdb) : Prop := {
  tf_members : drop_rows (λ m, um_GroupId m =? id) (db_ugm d) = drop_rows (λ m, um_GroupId m =? id) (db_ugm d0);
  tf_teams : drop_rows (λ g, UserGrp.Id g =? id) (db_teams d) = drop_rows (λ g, UserGrp.Id g =? id) (db_teams d0);
  tf_others : same d0 (d <| db_ugm := db_ugm d0 |> <| db_teams := db_teams d0 |>)
}.
#[export] Instance bg_frame_tables id d0 : Tables (bg_frame id d0).
Proof. intros d f [? ? [f' Ho]]. split; [done|done|]. exists f. exact (f_equal (λ d, d <| db_faults := f |>) Ho). Qed.
#[export] Instance team_frame_tables id d0 : Tables (team_frame id d0).
Proof. intros d f [? ? [f' Ho]]. split; [done|done|]. exists f. exact (f_equal (λ d, d <| db_faults := f |>) Ho). Qed.
Lemma same_bg_frame id d0 d : same d0 d → bg_frame id d0 d.
Proof. intros [f ->]. split; [done|done|]. exists f. by destruct d0. Qed.
Lemma same_team_frame id d0 d : same d0 d → team_frame id d0 d.
Proof. intros [f ->]. split; [done|done|]. exists f. by destruct d0. Qed.

Lemma drop_rows_app {A} (p : A → bool) l k : drop_rows p (l ++ k) = drop_rows p l ++ drop_rows p k.
Proof. apply List.filter_app. Qed.
Lemma drop_rows_none {A} (p : A → bool) l : forallb p l = true → drop_rows p l = [].
Proof. induction l as [|x l IH]; simpl; [done|]. intros [-> Hl]%andb_prop. simpl. auto. Qed.
(** Deleting rows that the frame leaves out. *)
Lemma drop_rows_within {A} (p q : A → bool) l : (∀ x, q x = true → p x = true) → drop_rows p (drop_rows q l) = drop_rows p l.
Proof.
  intros Hq. induction l as [|x l IH]; simpl; [done|]. destruct (q x) eqn:E; simpl; [by rewrite (Hq x E)|].
  destruct (p x); simpl; [done|by f_equal].
Qed.
(** Updating them. *)
Lemma drop_rows_map {A} (p q : A → bool) (f : A → A) l :
  (∀ x, q x = true → p x = true ∧ p (f x) = true) → drop_rows p (map (λ x, if q x then f x else x) l) = drop_rows p l.
Proof.
  intros Hq. induction l as [|x l IH]; simpl; [done|]. destruct (q x) eqn:E; simpl.
  - destruct (Hq x E) as [-> ->]. done.
  - destruct (p x); simpl; [done|by f_equal].
Qed.

Section frames.
Context (id : Z) (d0 : pdb).

Lemma bg_frame_bgm d l :
  bg_frame id d0 d → drop_rows (λ m, bm_BusiGroupId m =? id) l = drop_rows (λ m, bm_BusiGroupId m =? id) (db_bgm d) →
  bg_frame id d0 (d <| db_bgm := l |>).
Proof. intros [Hm Hg Ho] Hl. split; [|done|done]. simpl; rsimp. by rewrite Hl. Qed.
Lemma bg_frame_bgs d l :
  bg_frame id d0 d → drop_rows (λ b, BusiGrp.Id b =? id) l = drop_rows (λ b, BusiGrp.Id b =? id) (db_bgs d) →
  bg_frame id d0 (d <| db_bgs := l |>).
Proof. intros [Hm Hg Ho] Hl. split; [done| |done]. simpl; rsimp. by rewrite Hl. Qed.
Lemma team_frame_ugm d l :
  team_frame id d0 d → drop_rows (λ m, um_GroupId m =? id) l = drop_rows (λ m, um_GroupId m =? id) (db_ugm d) →
  team_frame id d0 (d <| db_ugm := l |>).
Proof. intros [Hm Hg Ho] Hl. split; [|done|done]. simpl; rsimp. by rewrite Hl. Qed.
Lemma team_frame_teams d l :
  team_frame id d0 d → drop_rows (λ g, UserGrp.Id g =? id) l = drop_rows (λ g, UserGrp.Id g =? id) (db_teams d) →
  team_frame id d0 (d <| db_teams := l |>).
Proof. intros [Hm Hg Ho] Hl. split; [done| |done]. simpl; rsimp. by rewrite Hl. Qed.

Lemma update_bg_frame (f : BusiGroup → BusiGroup) :
  (∀ b, BusiGrp.Id (f b) = BusiGrp.Id b) → keeps (bg_frame id d0) (update_bg id f).
Proof.
  intros Hf. apply keeps_exec; [apply _|]. intros d Hd. apply bg_frame_bgs; [done|].
  apply (drop_rows_map _ (λ b, BusiGrp.Id b =? id) f). intros b Hb. by rewrite Hf.
Qed.

Lemma BusiGroupMemberAdd_frame m : bm_BusiGroupId m = id → keeps (bg_frame id d0) (BusiGroupMemberAdd m).
Proof.
  intros Hm. unfold BusiGroupMemberAdd. keeping; (apply keeps_exec; [apply _|]; intros d Hd; apply bg_frame_bgm; [done|]).
  - apply (drop_rows_map _ (is_member (bm_BusiGroupId m) (bm_UserGroupId m)) (λ r, r <| bm_PermFlag := bm_PermFlag m |>)).
    intros r Hr. unfold is_member in Hr. bool_prop. simpl. split; lia.
  - rewrite drop_rows_app, (drop_rows_none _ [m]); [by rewrite app_nil_r|]. simpl. by rewrite Hm, Z.eqb_refl.
Qed.

Lemma del_member_frame m : bm_BusiGroupId m = id → keeps (bg_frame id d0) (del_member m).
Proof.
  intros Hm. unfold del_member. keeping. apply keeps_exec; [apply _|]. intros d Hd. apply bg_frame_bgm; [done|].
  apply drop_rows_within. intros r Hr. unfold is_member in Hr. bool_prop. lia.
Qed.

Lemma UserGroupMemberAdd_frame userId : keeps (team_frame id d0) (UserGroupMemberAdd id userId).
Proof.
  unfold UserGroupMemberAdd, UserGroupMemberCount. keeping. apply keeps_exec; [apply _|]. intros d Hd.
  apply team_frame_ugm; [done|]. rewrite drop_rows_app, (drop_rows_none _ [_]); [by rewrite app_nil_r|].
  simpl. by rewrite Z.eqb_refl.
Qed.

Lemma UserGroupMemberDel_frame ids : keeps (team_frame id d0) (UserGroupMemberDel id ids).
Proof.
  unfold UserGroupMemberDel. keeping. apply keeps_exec; [apply _|]. intros d Hd. apply team_frame_ugm; [done|].
  apply drop_rows_within. by intros r [Hr _]%andb_prop.
Qed.
End frames.

Section requests.
Context `{SL : StrLib, UL : UserLib, CR : Crypto, UC : UnicodeCase, GR : GoRange, !Json (gmap string string)}.
Context (pc : phone_config) (in_use : list (sql bool * error)).
Implicit Types (u me : User).

(** Looking whether a table refers to the group only reads. *)
Definition only_reads {A} (m : sql A) : Prop := ∀ d, same d (fst (m d)).
Context (in_use_reads : ∀ q msg, (q, msg) ∈ in_use → only_reads q).

Definition serve me (id now : Z) (r : request) : handler (option error) :=
  match r with
  | BgPut name le lv => busiGroupPut me id name le lv now
  | BgMembersAdd members => busiGroupMemberAdd me id members now
  | BgMembersDel members => busiGroupMemberDel me id members now
  | BgDel => busiGroupDel in_use me id
  | TeamPut name note => userGroupPut me id name note now
  | TeamMembersAdd ids => userGroupMemberAdd pc me id ids now
  | TeamMembersDel ids => userGroupMemberDel me id ids now
  | TeamDel => userGroupDel me id
  end.

Definition authorised (d : pdb) me (id : Z) (r : request) : Prop :=
  may_op d me (operation_of r) ∧
  if on_team r then ∃ ug, ug ∈ db_teams d ∧ UserGrp.Id ug = id ∧ may_team d me ug else may_bg d me id (Some "rw").
Definition frame (id : Z) (r : request) (d0 d : pdb) : Prop :=
  if on_team r then team_frame id d0 d else bg_frame id d0 d.

Lemma only_reads_keeps {A} (P : pdb → Prop) `{!Tables P} (m : sql A) : only_reads m → keeps P m.
Proof.
  intros Hm d Hd. destruct (Hm d) as [f Hf]. destruct (m d) as [d' [a|e]]; simpl in Hf; subst; by apply tables_faults.
Qed.

Lemma head_keep {A} (p : A → bool) l x : head (keep p l) = Some x → x ∈ l ∧ p x = true.
Proof. intros Hx. apply elem_of_keep. destruct (keep p l); simplify_eq/=. by left. Qed.

Lemma perm_spec d0 me op : hhoare (same d0) (perm me op) (λ _ d, same d0 d ∧ may_op d0 me op) (same d0).
Proof.
  unfold perm. eapply hhoare_bind; [apply hhoare_dangerous, CheckPerm_spec|]. intros b. apply hhoare_if.
  - intros -> d [Hd Hb]. split; [done|]. by apply Hb.
  - by intros d [].
Qed.

Lemma bgrw_spec d0 me id :
  hhoare (same d0) (bgrw me id) (λ bg d, same d0 d ∧ BusiGrp.Id bg = id ∧ may_bg d0 me id (Some "rw")) (same d0).
Proof.
  unfold bgrw, bg_check, BusiGroup_of. eapply hhoare_bind.
  - eapply hhoare_bind; [apply hhoare_dangerous; by apply checks_query_eq|]. intros o.
    instantiate (1 := λ bg d, same d0 d ∧ BusiGrp.Id bg = id). destruct o as [bg|]; intros d [Hd Ho]; [|done].
    split; [done|]. symmetry in Ho. apply head_keep in Ho as [_ Ho]. by apply Z.eqb_eq.
  - intros bg d [Hd <-]. revert d Hd. eapply hhoare_bind; [apply hhoare_dangerous, CanDoBusiGroup_spec|]. intros b.
    apply hhoare_if; [|by intros d []]. intros -> d [Hd Hb]. split_and!; [done|done|]. by apply Hb.
Qed.

Lemma userGroupWrite_spec d0 me id :
  hhoare (same d0) (userGroupWrite me id)
    (λ ug d, same d0 d ∧ UserGrp.Id ug = id ∧ ug ∈ db_teams d0 ∧ may_team d0 me ug) (same d0).
Proof.
  unfold userGroupWrite, UserGroup_of. eapply hhoare_bind.
  - eapply hhoare_bind; [apply hhoare_dangerous; by apply checks_query_eq|]. intros o.
    instantiate (1 := λ ug d, same d0 d ∧ UserGrp.Id ug = id ∧ ug ∈ db_teams d0).
    destruct o as [ug|]; intros d [Hd Ho]; [|done]. symmetry in Ho. apply head_keep in Ho as [Hin Ho%Z.eqb_eq].
    revert d Hd. apply (hhoare_bind _ _ (λ _, same d0)); [apply hhoare_dangerous; as_keeps; unfold BusiGroupIds; keeping|].
    intros bgids. apply (hhoare_bind _ _ (λ _, same d0)); [apply hhoare_dangerous; as_keeps; keeping|]. by intros _ d Hd.
  - intros ug d (Hd & <- & Hin). revert d Hd. eapply hhoare_bind; [apply hhoare_dangerous, CanModifyUserGroup_spec|]. intros b.
    apply hhoare_if; [|by intros d []]. intros -> d [Hd Hb]. split_and!; [done..|]. by apply Hb.
Qed.
(** Past its checks, a request only writes within the frame. *)
Lemma hhoare_fst {A} (P E : pdb → Prop) (h : handler A) : hhoare P h (λ _, E) E → ∀ d, P d → E (fst (h d)).
Proof. intros Hh d Hd. specialize (Hh d Hd). by destruct (h d) as [d' [a|c e]]. Qed.

Lemma bg_request_spec d0 me id op (k : BusiGroup → handler (option error)) :
  (∀ bg, BusiGrp.Id bg = id → hkeeps (bg_frame id d0) (k bg)) →
  let d' := fst ((perm me op;; bg ← bgrw me id; k bg) d0) in
  same d0 d' ∨ ((may_op d0 me op ∧ may_bg d0 me id (Some "rw")) ∧ bg_frame id d0 d').
Proof.
  intros Hk d'. set (E := λ d, same d0 d ∨ ((may_op d0 me op ∧ may_bg d0 me id (Some "rw")) ∧ bg_frame id d0 d)).
  apply (hhoare_fst (same d0) E); [|apply same_refl].
  assert (∀ {A} (h : handler A) Q, hhoare (same d0) h Q (same d0) → hhoare (same d0) h Q E) as Hw.
  { intros A h Q Hh d Hd. specialize (Hh d Hd). destruct (h d) as [? [|]]; [done|by left]. }
  eapply hhoare_bind; [apply Hw, perm_spec|]. intros _ d [Hd Hop]. revert d Hd.
  eapply hhoare_bind; [apply Hw, bgrw_spec|]. intros bg d (Hd & Hid & Hbg).
  specialize (Hk bg Hid d (same_bg_frame _ _ _ Hd)). destruct (k bg d) as [d'' [|]]; by right.
Qed.

Lemma team_request_spec d0 me id op (k : UserGroup → handler (option error)) :
  (∀ ug, UserGrp.Id ug = id → hkeeps (team_frame id d0) (k ug)) →
  let d' := fst ((perm me op;; ug ← userGroupWrite me id; k ug) d0) in
  same d0 d' ∨ ((may_op d0 me op ∧ ∃ ug, ug ∈ db_teams d0 ∧ UserGrp.Id ug = id ∧ may_team d0 me ug) ∧ team_frame id d0 d').
Proof.
  intros Hk d'. set (E := λ d, same d0 d ∨ ((may_op d0 me op ∧
    ∃ ug, ug ∈ db_teams d0 ∧ UserGrp.Id ug = id ∧ may_team d0 me ug) ∧ team_frame id d0 d)).
  apply (hhoare_fst (same d0) E); [|apply same_refl].
  assert (∀ {A} (h : handler A) Q, hhoare (same d0) h Q (same d0) → hhoare (same d0) h Q E) as Hw.
  { intros A h Q Hh d Hd. specialize (Hh d Hd). destruct (h d) as [? [|]]; [done|by left]. }
  eapply hhoare_bind; [apply Hw, perm_spec|]. intros _ d [Hd Hop]. revert d Hd.
  eapply hhoare_bind; [apply Hw, userGroupWrite_spec|]. intros ug d (Hd & Hid & Hin & Hug).
  specialize (Hk ug Hid d (same_team_frame _ _ _ Hd)). destruct (k ug d) as [d'' [|]]; right; (split; [split; [done|by exists ug]|done]).
Qed.

Lemma hkeeps_if_bomb {A} P (b : bool) code msg (h : handler A) :
  (b = false → hkeeps P h) → hkeeps P (if b then bomb code msg else h).
Proof. intros Hh. destruct b; [apply hkeeps_bomb|auto]. Qed.

Lemma check_members_frame P id bg members (k : handler (option error)) :
  BusiGrp.Id bg = id → (Forall (λ m, bm_BusiGroupId m = id) members → hkeeps P k) → hkeeps P (check_members bg members;; k).
Proof.
  intros <- Hk. unfold check_members. destruct (forallb _ members) eqn:Hm.
  - apply hkeeps_bind; [by apply hkeeps_ret|]. intros _. apply Hk, Forall_forall. intros m Hin.
    rewrite forallb_forall in Hm. apply Z.eqb_eq, Hm. by apply list_elem_of_In.
  - by intros d Hd.
Qed.

Lemma keeps_for_each_Forall {A} (P : pdb → Prop) `{!Tables P} (f : A → sql unit) l :
  Forall (λ x, keeps P (f x)) l → keeps P (for_each f l).
Proof. induction 1; simpl; [apply keeps_ret|]. apply keeps_bind; [done|]. by intros _. Qed.

Lemma update_team_frame id d0 ug f :
  (∀ g, UserGrp.Id (f g) = UserGrp.Id g) → UserGrp.Id ug = id → keeps (team_frame id d0) (update_team ug f).
Proof.
  intros Hf <-. unfold update_team. case_match; [apply keeps_fail|]. apply keeps_exec; [apply _|]. intros d Hd.
  apply team_frame_teams; [done|]. apply (drop_rows_map _ (λ g, UserGrp.Id g =? UserGrp.Id ug) f). intros g Hg. by rewrite Hf.
Qed.

Lemma BusiGroup_Update_frame id d0 bg name le lv now by_ :
  BusiGrp.Id bg = id → keeps (bg_frame id d0) (BusiGroup_Update bg name le lv now by_).
Proof. intros <-. unfold BusiGroup_Update, count_bg, BusiGroupExists. keeping; by apply update_bg_frame. Qed.

Lemma BusiGroup_Del_frame id d0 bg : BusiGrp.Id bg = id → keeps (bg_frame id d0) (BusiGroup_Del in_use bg).
Proof.
  intros <-. unfold BusiGroup_Del. apply keeps_bind.
  { apply keeps_for_each_Forall; [apply _|]. apply Forall_forall. intros [q msg] Hin. apply keeps_bind; [|intros b; keeping].
    by apply only_reads_keeps, (in_use_reads q msg); [apply _|]. }
  intros _. keeping; (apply keeps_exec; [apply _|]; intros d Hd).
  - apply bg_frame_bgm; [done|]. by apply drop_rows_within.
  - apply bg_frame_bgs; [done|]. by apply drop_rows_within.
Qed.
Lemma AddMembers_frame id d0 ug ids : UserGrp.Id ug = id → keeps (team_frame id d0) (UserGroup_AddMembers pc ug ids).
Proof. intros <-. unfold UserGroup_AddMembers, UserGetById, UserGet. keeping. apply UserGroupMemberAdd_frame. Qed.

(** C31. A request on a business group or a team either leaves the tables as they
    were, or its user has a role with the route's operation and may write the group
    (through a team with flag rw) or change the team (its creator or a member), or
    is an administrator; and then it changes only rows of that group or team. *)
Theorem request_authorised me id now r d :
  let d' := fst (serve me id now r d) in same d d' ∨ (authorised d me id r ∧ frame id r d d').
Proof.
  unfold authorised, frame. destruct r as [name le lv|members|members| |name note|ids|ids|]; simpl.
  - apply bg_request_spec. intros bg Hid. by apply hkeeps_render_error, BusiGroup_Update_frame.
  - apply bg_request_spec. intros bg Hid. apply (check_members_frame _ id); [done|]. intros Hm. apply hkeeps_render_error, keeps_bind.
    + apply keeps_for_each_Forall; [apply _|]. eapply Forall_impl; [exact Hm|]. by intros; apply BusiGroupMemberAdd_frame.
    + intros _. unfold touch_bg. rewrite Hid. by apply update_bg_frame.
  - apply bg_request_spec. intros bg Hid. apply (check_members_frame _ id); [done|]. intros Hm. apply hkeeps_render_error, keeps_bind.
    + apply keeps_for_each_Forall; [apply _|]. eapply Forall_impl; [exact Hm|]. by intros; apply del_member_frame.
    + intros _. unfold touch_bg. rewrite Hid. by apply update_bg_frame.
  - apply bg_request_spec. intros bg Hid. by apply hkeeps_render_error, BusiGroup_Del_frame.
  - apply team_request_spec. intros ug Hid. keeping. by apply update_team_frame.
  - apply team_request_spec. intros ug Hid. keeping; [by apply AddMembers_frame|by apply update_team_frame].
  - apply team_request_spec. intros ug Hid. keeping; [|by apply update_team_frame].
    unfold UserGroup_DelMembers. rewrite Hid. apply UserGroupMemberDel_frame.
  - apply team_request_spec. intros ug Hid. unfold UserGroup_Del. keeping; (apply keeps_exec; [apply _|]; intros d0 Hd).
    + apply team_frame_ugm; [done|]. rewrite Hid. by apply drop_rows_within.
    + apply team_frame_teams; [done|]. rewrite Hid. by apply drop_rows_within.
Qed.

(** *** The invariant *)

(** What changes the tables: requests, new groups and teams, single sign-on, the
    deletion of users; and which statements will fail. *)
Inductive gh_step : pdb → pdb → Prop :=
  | gh_request me id now r d : gh_step d (fst (serve me id now r d))
  | gh_busiGroupAdd me name le lv members now d : gh_step d (fst (busiGroupAdd me name le lv members now d))
  | gh_userGroupAdd me name note now d : gh_step d (fst (userGroupAdd me name note now d))
  | gh_AddUserAndGroups u now cover d : gh_step d (fst (AddUserAndGroups pc u now cover d))
  | gh_sync u cover d : gh_step d (fst (UserGroupMemberSyncByUser u cover d))
  | gh_User_Del u d : gh_step d (fst (User_Del u d))
  | gh_UserDelByIds ids d : gh_step d (fst (UserDelByIds ids d))
  | gh_faults f d : gh_step d (d <| db_faults := f |>).

Lemma keeps_fst {A} P (m : sql A) d : keeps P m → P d → P (fst (m d)).
Proof. intros Hm Hd. specialize (Hm d Hd). by destruct (m d) as [d' [a|e]]. Qed.

Lemma perm_keeps me op : hkeeps groups_ok (perm me op).
Proof. unfold perm, CheckPerm, RoleHasOperation. keeping. Qed.
Lemma bgrw_keeps me id : hkeeps groups_ok (bgrw me id).
Proof. unfold bgrw, bg_check, BusiGroup_of, CanDoBusiGroup, UserGroupIdsOfBusiGroup, UserGroupMemberCount. keeping. Qed.
Lemma userGroupWrite_keeps me id : hkeeps groups_ok (userGroupWrite me id).
Proof. unfold userGroupWrite, UserGroup_of, CanModifyUserGroup, UserGroupMemberCount, BusiGroupIds. keeping. Qed.
#[local] Hint Resolve perm_keeps bgrw_keeps userGroupWrite_keeps BusiGroup_Update_keeps BusiGroupMemberAdd_keeps touch_bg_keeps
  del_member_keeps UserGroup_Del_keeps update_team_keeps AddMembers_keeps UserGroupMemberDel_keeps UserGroup_Add_keeps
  UserGroupMemberAdd_keeps : sql.

Lemma serve_keeps me id now r : hkeeps groups_ok (serve me id now r).
Proof.
  destruct r; simpl; unfold busiGroupPut, busiGroupMemberAdd, busiGroupMemberDel, busiGroupDel, userGroupPut, userGroupMemberAdd,
    userGroupMemberDel, userGroupDel, check_members, BusiGroup_AddMembers, BusiGroup_DelMembers, touch_team, UserGroup_DelMembers;
    keeping.
  apply BusiGroup_Del_keeps. intros q msg Hq. apply only_reads_keeps; [apply _|]. by apply (in_use_reads q msg).
Qed.

Lemma busiGroupAdd_keeps me name le lv members now : hkeeps groups_ok (busiGroupAdd me name le lv members now).
Proof.
  unfold busiGroupAdd. apply hkeeps_bind; [apply perm_keeps|]. intros _.
  apply hkeeps_if_bomb. intros Hne. apply hkeeps_if_bomb. intros _. apply hkeeps_bind; [|intros _; keeping].
  apply hkeeps_dangerous, BusiGroupAdd_keeps. by intros ->.
Qed.

(** Deleting a team leaves its rows in business groups: the group can be left with no team
    that exists. *)
Theorem deleted_team_stays_member ug d :
  db_faults d = [] →
  let d' := fst (UserGroup_Del ug d) in
  db_bgm d' = db_bgm d ∧ db_bgs d' = db_bgs d ∧ ∀ g, g ∈ db_teams d' → UserGrp.Id g ≠ UserGrp.Id ug.
Proof.
  intros Hf. cbv zeta. unfold UserGroup_Del, transaction, exec, stmt, mbind, sql_bind, tick. rsimp. rewrite Hf. simpl.
  split; [done|]. split; [done|]. intros g Hg. apply list_elem_of_In, filter_In in Hg as [_ Hg].
  destruct (Z.eqb_spec (UserGrp.Id g) (UserGrp.Id ug)); done.
Qed.

(** C30. Whatever requests are served, in whatever order and whichever statements
    fail: a user is in a team at most once, business groups have distinct ids,
    names and label values, and every one keeps at least one row that makes a team
    a member.  The team of that row may have been deleted since
    ([deleted_team_stays_member]). *)
Theorem groups_invariant d d' : groups_ok d → rtc gh_step d d' → groups_ok d'.
Proof.
  intros Hd Hs. induction Hs as [d|d d1 d' Hs _ IH]; [done|]. apply IH. clear IH. destruct Hs.
  - by apply serve_keeps.
  - by apply busiGroupAdd_keeps.
  - revert d Hd. change (hkeeps groups_ok (userGroupAdd me name note now)). unfold userGroupAdd. keeping.
  - apply keeps_fst; [apply AddUserAndGroups_keeps|done].
  - apply keeps_fst; [apply UserGroupMemberSync_keeps|done].
  - apply keeps_fst; [apply User_Del_keeps|done].
  - apply keeps_fst; [apply UserDelByIds_keeps|done].
  - by apply groups_ok_tables.
Qed.
End requests.
