(* ===== verification/Ldap.v ===== *)
(** * Users of an LDAP directory

    [pkg/ldapx/ldapx.go] and [pkg/ldapx/user_sync.go]: logging in with a directory,
    and copying its users to the tables.  The directory is reached through the
    interface [LdapServer].  Locks and logging are left out. *)

From Stdlib Require Import Ascii.
From S2P Require Import Prelude GoStrings Json Models RuleModels RuleOps Callbacks Sources Users Permissions.
Open Scope string_scope.
Open Scope Z_scope.
Open Scope list_scope.

(** ** The directory *)

Record ldap_entry := mkLdapEntry { en_DN : string; en_Attributes : list (string * list string) }.

(** [go-ldap]: dialing (with TLS or without), [StartTLS], [Bind] and [Search].  A
    connection after a successful [Bind] is the connection as that user. *)
Class LdapServer := {
  ldap_conn : Type;
  ldap_Dial : bool → string → result ldap_conn;
  ldap_StartTLS : ldap_conn → result ldap_conn;
  ldap_Bind : ldap_conn → string → string → result ldap_conn;
  ldap_Search : ldap_conn → string → string → list string → result (list ldap_entry)
}.

Definition GetAttributeValues (e : ldap_entry) (attribute : string) : list string :=
  default [] (snd <$> find (λ a, String.eqb (fst a) attribute) (en_Attributes e)).
Definition GetAttributeValue (e : ldap_entry) (attribute : string) : string :=
  default "" (head (GetAttributeValues e attribute)).

(** ** Configuration *)

Record LdapAttributes := mkLdapAttributes {
  la_Username : string; la_Nickname : string; la_Phone : string; la_Email : string; la_Group : string
}.
#[global] Instance LdapAttributes_eta : Settable LdapAttributes := λ r,
  mkLdapAttributes (la_Username r) (la_Nickname r) (la_Phone r) (la_Email r) (la_Group r).
Record RoleTeamMapping := mkRoleTeamMapping { rtm_DN : string; rtm_Roles : list string; rtm_Teams : list Z }.

(** [Config]; the interval is in seconds. *)
Record LdapConfig := mkLdapConfig {
  lcf_Enable : bool; lcf_Host : string; lcf_Port : Z; lcf_BaseDn : string; lcf_BindUser : string; lcf_BindPass : string;
  lcf_SyncAddUsers : bool; lcf_SyncDelUsers : bool; lcf_SyncInterval : Z; lcf_UserFilter : string; lcf_AuthFilter : string;
  lcf_Attributes : LdapAttributes; lcf_CoverAttributes : bool; lcf_CoverTeams : bool; lcf_TLS : bool; lcf_StartTLS : bool;
  lcf_DefaultRoles : list string; lcf_DefaultTeams : list Z; lcf_RoleTeamMapping : list RoleTeamMapping
}.

(** [SsoClient]; [lc_Ticker] is the period of its ticker, in seconds. *)
Record SsoClient := mkSsoClient {
  lc_Enable : bool; lc_Host : string; lc_Port : Z; lc_BaseDn : string; lc_BaseDns : list string; lc_BindUser : string;
  lc_BindPass : string; lc_SyncAdd : bool; lc_SyncDel : bool; lc_SyncInterval : Z; lc_UserFilter : string;
  lc_AuthFilter : string; lc_Attributes : LdapAttributes; lc_CoverAttributes : bool; lc_CoverTeams : bool; lc_TLS : bool;
  lc_StartTLS : bool; lc_DefaultRoles : list string; lc_DefaultTeams : list Z;
  lc_RoleTeamMapping : gmap string RoleTeamMapping; lc_Ticker : Z
}.
#[global] Instance SsoClient_eta : Settable SsoClient := λ r,
  mkSsoClient (lc_Enable r) (lc_Host r) (lc_Port r) (lc_BaseDn r) (lc_BaseDns r) (lc_BindUser r) (lc_BindPass r)
    (lc_SyncAdd r) (lc_SyncDel r) (lc_SyncInterval r) (lc_UserFilter r) (lc_AuthFilter r) (lc_Attributes r)
    (lc_CoverAttributes r) (lc_CoverTeams r) (lc_TLS r) (lc_StartTLS r) (lc_DefaultRoles r) (lc_DefaultTeams r)
    (lc_RoleTeamMapping r) (lc_Ticker r).

Definition LdapReload (cf : LdapConfig) (s : SsoClient) : SsoClient :=
  if negb (lcf_Enable cf) then s <| lc_Enable := lcf_Enable cf |>
  else mkSsoClient (lcf_Enable cf) (lcf_Host cf) (lcf_Port cf) (lcf_BaseDn cf) (split (lcf_BaseDn cf) "|")
         (lcf_BindUser cf) (lcf_BindPass cf) (lcf_SyncAddUsers cf) (lcf_SyncDelUsers cf) (lcf_SyncInterval cf)
         (lcf_UserFilter cf) (lcf_AuthFilter cf) ((lcf_Attributes cf) <| la_Group := "memberOf" |>)
         (lcf_CoverAttributes cf) (lcf_CoverTeams cf) (lcf_TLS cf) (lcf_StartTLS cf) (lcf_DefaultRoles cf)
         (lcf_DefaultTeams cf) (fold_left (λ m r, <[rtm_DN r := r]> m) (lcf_RoleTeamMapping cf) ∅)
         (if 0 <? lcf_SyncInterval cf then lcf_SyncInterval cf else lc_Ticker s).

Definition ldap_zero : SsoClient :=
  mkSsoClient false "" 0 "" [] "" "" false false 0 "" "" (mkLdapAttributes "" "" "" "" "") false false false false [] [] ∅ (24 * 3600).
Definition LdapNew (cf : LdapConfig) : SsoClient := if negb (lcf_Enable cf) then ldap_zero else LdapReload cf ldap_zero.

(** ** Searching *)

(** [fmt.Sprintf] of a format whose verbs are [%s], [%v] and [%%], with strings. *)
Fixpoint sprintf_from (fmt : string) (args : list string) : string * list string :=
  match fmt with
  | EmptyString => ("", args)
  | String "%"%char (String "%"%char r) => let '(s, args) := sprintf_from r args in (String "%"%char s, args)
  | String "%"%char (String v r) =>
      match args with
      | [] => let '(s, args) := sprintf_from r [] in ("%!" +:+ String v ("(MISSING)" +:+ s), args)
      | a :: args =>
          let '(s, args) := sprintf_from r args in
          ((if Ascii.eqb v "s"%char || Ascii.eqb v "v"%char then a else "%!" +:+ String v ("(string=" +:+ a +:+ ")")) +:+ s, args)
      end
  | String "%"%char EmptyString => ("%!(NOVERB)", args)
  | String c r => let '(s, args) := sprintf_from r args in (String c s, args)
  end.
Definition sprintf (fmt : string) (args : list string) : string :=
  match sprintf_from fmt args with
  | (s, []) => s
  | (s, extra) => s +:+ "%!(EXTRA " +:+ join (map (λ a, "string=" +:+ a) extra) ", " +:+ ")"
  end.

Section ldap.
Context `{SL : StrLib, UL : UserLib, CR : Crypto, UC : UnicodeCase, GR : GoRange, !Json (gmap string string)}.
Context `{LS : LdapServer}.
Context (pc : phone_config) (lc : SsoClient).
Implicit Types (u : User).

Definition genLdapAttributeSearchList : list string :=
  let attrs := lc_Attributes lc in
  let opt a := if String.eqb a "" then [] else [a] in
  (if String.eqb (la_Username attrs) "" then ["uid"] else [la_Username attrs])
    ++ opt (la_Nickname attrs) ++ opt (la_Email attrs) ++ opt (la_Phone attrs) ++ opt (la_Group attrs).

(** The texts of the errors are shortened. *)
Definition newLdapConn : result ldap_conn :=
  match ldap_Dial (lc_TLS lc) (lc_Host lc +:+ ":" +:+ itoa (lc_Port lc)) with
  | Err e => Err ("ldap.error: cannot dial ldap: " +:+ e)
  | Ok conn =>
      match (if negb (lc_TLS lc) && lc_StartTLS lc then ldap_StartTLS conn else Ok conn) with
      | Err e => Err ("ldap.error: conn startTLS fail: " +:+ e)
      | Ok conn =>
          if String.eqb (lc_BindUser lc) "" then Ok conn
          else match ldap_Bind conn (lc_BindUser lc) (lc_BindPass lc) with
               | Err e => Err ("ldap.error: bind ldap fail: " +:+ e)
               | Ok conn => Ok conn
               end
      end
  end.

(** A search that fails is logged, and its base is skipped. *)
Definition ldapReq (conn : ldap_conn) (filter : string) (values : list string) : list (list ldap_entry) :=
  omap (λ base, match ldap_Search conn (trim_space base) (sprintf filter values) genLdapAttributeSearchList with
                | Ok sr => Some sr
                | Err _ => None
                end) (lc_BaseDns lc).

(** The entry that the user is, when the password is right. *)
Fixpoint first_entry (conn : ldap_conn) (pass : string) (srs : list (list ldap_entry)) : result ldap_entry :=
  match srs with
  | [] => Err "username or password invalid"
  | [] :: srs => first_entry conn pass srs
  | [e] :: _ => match ldap_Bind conn (en_DN e) pass with Ok _ => Ok e | Err _ => Err "username or password invalid" end
  | _ :: _ => Err "ldap.error: search user, multi entries found"
  end.
Definition LoginCheck (user pass : string) : result ldap_entry :=
  match newLdapConn with
  | Err e => Err e
  | Ok conn => first_entry conn pass (ldapReq conn (lc_AuthFilter lc) [user])
  end.

(** [rolesSet] and [teamsSet], as lists in the order of the sets. *)
Definition set_slice {A} `{Countable A} (l : list A) : list A := map fst (go_range (list_to_map (map (λ x, (x, tt)) l) : gmap A unit)).
Definition GetUserRolesAndTeams (entry : ldap_entry) : RoleTeamMapping :=
  let dns := GetAttributeValues entry (la_Group (lc_Attributes lc)) ++ [en_DN entry] in
  let found := omap (λ dn, lc_RoleTeamMapping lc !! dn) dns in
  mkRoleTeamMapping (en_DN entry) (set_slice (concat (map rtm_Roles found))) (set_slice (concat (map rtm_Teams found))).

(** ** Logging in *)

(** The columns of a user that a form of [Update] writes. *)
Definition set_column (u : User) (r : User) (col : string) : User :=
  match col with
  | "nickname" => r <| Usr.Nickname := Usr.Nickname u |>
  | "phone" => r <| Usr.Phone := Usr.Phone u |>
  | "email" => r <| Usr.Email := Usr.Email u |>
  | "portrait" => r <| Usr.Portrait := Usr.Portrait u |>
  | "contacts" => r <| Usr.Contacts := Usr.Contacts u |>
  | "roles" => r <| Usr.Roles := Usr.Roles u |>
  | "belong" => r <| Usr.Belong := Usr.Belong u |>
  | "update_at" => r <| Usr.UpdateAt := Usr.UpdateAt u |>
  | "update_by" => r <| Usr.UpdateBy := Usr.UpdateBy u |>
  | _ => r
  end.
(** A user of single sign-on is not verified; a panic of the encryption aborts the
    request. *)
Definition User_Update (rand : string) u (fields : list string) : sql unit :=
  let write u := update_user (Usr.Id u) (λ r, fold_left (set_column u) fields r) in
  if String.eqb (Usr.Belong u) "" then
    match User_Verify pc rand u with
    | Ret (u, None) => write u
    | Ret (_, Some e) => fail e
    | Panic => fail "panic"
    end
  else write u.

(** An error that is only logged. *)
Definition logged (m : sql unit) : sql unit := λ d, (fst (m d), Ok tt).

Definition create_user u : sql Z :=
  stmt (λ d, (d <| db_users := db_users d ++ [u <| Usr.Id := db_nextid d |>] |> <| db_nextid := db_nextid d + 1 |>, db_nextid d)).

Definition LdapLogin (rand username pass : string) (defaultRoles : list string) (defaultTeams : list Z) (now : Z) : sql User :=
  match LoginCheck username pass with
  | Err e => fail e
  | Ok entry =>
      let attrs := lc_Attributes lc in
      let attr a := if String.eqb a "" then "" else GetAttributeValue entry a in
      let nickname := attr (la_Nickname attrs) in
      let email := attr (la_Email attrs) in
      let phone := replace_all (attr (la_Phone attrs)) " " "" in
      let m := GetUserRolesAndTeams entry in
      user ← UserGetByUsername pc username;
      match (u ← user; if 0 <? Usr.Id u then Some u else None) with
      | Some user =>
          user ← (if lc_CoverAttributes lc
                  then let '(user, fields) := UpdateSsoFieldsWithRoles "ldap" nickname phone email (rtm_Roles m) now user in
                       with_message "failed to update user" (User_Update rand user ("update_at" :: fields));; mret user
                  else mret user);
          let teams := if (length (rtm_Teams m) =? 0)%nat then defaultTeams else rtm_Teams m in
          logged (UserGroupMemberSync teams (Usr.Id user) (lc_CoverTeams lc));; mret user
      | None =>
          let roles := if (length (rtm_Roles m) =? 0)%nat then defaultRoles else rtm_Roles m in
          let user := FullSsoFields "ldap" username nickname phone email roles now Usr.zero in
          id ← with_message "failed to add user" (create_user user);
          let user := user <| Usr.Id := id |> in
          (if (length (rtm_Teams m) =? 0)%nat
           then for_each (λ gid, logged (UserGroupMemberAdd gid (Usr.Id user))) defaultTeams
           else mret tt);;
          logged (UserGroupMemberSync (rtm_Teams m) (Usr.Id user) false);; mret user
      end
  end.

(** ** Synchronising users *)

Definition sso_user (now : Z) (entry : ldap_entry) : User :=
  let attrs := lc_Attributes lc in
  let m := GetUserRolesAndTeams entry in
  let roles := if (length (rtm_Roles m) =? 0)%nat then lc_DefaultRoles lc else rtm_Roles m in
  FullSsoFieldsWithTeams "ldap" (GetAttributeValue entry (la_Username attrs)) (GetAttributeValue entry (la_Nickname attrs))
    (GetAttributeValue entry (la_Phone attrs)) (GetAttributeValue entry (la_Email attrs)) roles (rtm_Teams m) now Usr.zero.

Definition LdapUserGetAll (now : Z) : result (gmap string User) :=
  match newLdapConn with
  | Err e => Err e
  | Ok conn =>
      Ok (fold_left (λ res entry, <[GetAttributeValue entry (la_Username (lc_Attributes lc)) := sso_user now entry]> res)
            (concat (ldapReq conn (lc_UserFilter lc) [])) ∅)
  end.

Definition UserGetsBySso (sso : string) : sql (gmap string User) :=
  with_message "failed to query user"
    (query (λ d, fold_left (λ m u, <[Usr.Username u := u]> m) (keep (λ u, String.eqb (Usr.Belong u) sso) (db_users d)) ∅)).

(** The users of [newUsers] that are not in [base], and those of [base] that are in
    [newUsers], with their teams. *)
Definition with_teams (baseUser u : User) : User :=
  if (length (Usr.TeamsLst baseUser) =? 0)%nat then baseUser <| Usr.TeamsLst := Usr.TeamsLst u |> else baseUser.
Definition diffUsers (base newUsers : gmap string User) : list User * list User :=
  (omap (λ '(name, u), match base !! name with None => Some u | Some _ => None end) (go_range newUsers),
   omap (λ '(name, u), match base !! name with None => None | Some b => Some (with_teams b u) end) (go_range newUsers)).

Definition getUsersFromSsoAndDb (now : Z) : sql (gmap string User * gmap string User) :=
  match LdapUserGetAll now with
  | Err e => fail e
  | Ok fromSso => fromDb ← UserGetsBySso "ldap"; mret (fromSso, fromDb)
  end.

Definition SyncAddAndDelUsers (now : Z) : sql unit :=
  if negb (lc_Enable lc) || negb (lc_SyncAdd lc) then mret tt
  else
    '(fromSso, fromDb) ← getUsersFromSsoAndDb now;
    let '(toBeAdd, exists_) := diffUsers fromDb fromSso in
    for_each (λ u, logged (AddUserAndGroups pc u now (lc_CoverTeams lc))) toBeAdd;;
    for_each (λ u, logged (UserGroupMemberSyncByUser u (lc_CoverTeams lc))) exists_;;
    if lc_SyncDel lc then
      let toBeDel := fst (diffUsers fromSso fromDb) in
      if (0 <? length toBeDel)%nat then logged (UserDelByIds (map Usr.Id toBeDel)) else mret tt
    else mret tt.

Definition UserExist (username : string) : result bool :=
  match newLdapConn with
  | Err e => Err e
  | Ok conn => Ok (existsb (λ sr, negb (length sr =? 0)%nat)
                     (ldapReq conn "(&(%s=%s))" [la_Username (lc_Attributes lc); username]))
  end.

Definition SyncDelUsers : sql unit :=
  if negb (lc_Enable lc) || lc_SyncAdd lc || negb (lc_SyncDel lc) then mret tt
  else
    fromDb ← UserGetsBySso "ldap";
    let delIds := omap (λ '(_, u), match UserExist (Usr.Username u) with Ok false => Some (Usr.Id u) | _ => None end)
                    (go_range fromDb) in
    if (0 <? length delIds)%nat then UserDelByIds delIds else mret tt.

(** ** When no statement fails *)

Definition clean (d : pdb) : Prop := db_faults d = [].
Lemma tick_clean d : clean d → tick d = d.
Proof. unfold clean, tick. destruct d. simpl. by intros ->. Qed.
Lemma stmt_clean {A} (f : pdb → pdb * A) d : clean d → stmt f d = (fst (f d), Ok (snd (f d))).
Proof. intros Hd. unfold stmt. rewrite Hd, (tick_clean d Hd). simpl. by destruct (f d). Qed.

(** [m] writes neither to the users nor to the counter. *)
Definition same_users (d0 d : pdb) : Prop := clean d ∧ db_users d = db_users d0 ∧ db_nextid d = db_nextid d0.
Lemma sync_same_users gids userId cover d :
  clean d → same_users d (fst (UserGroupMemberSync gids userId cover d)).
Proof.
  intros Hd. unfold UserGroupMemberSync, MyGroupIds, mbind, sql_bind, mret, sql_ret, query, exec.
  repeat (case_match; simplify_eq/=; rewrite ?stmt_clean in * by done; simplify_eq/=); done.
Qed.

Lemma head_keep_None {A} (p : A → bool) l : head (keep p l) = None ↔ ∀ x, x ∈ l → p x = false.
Proof.
  split.
  - intros Hh. apply length_keep_0. by destruct (keep p l).
  - intros Hp. destruct (keep p l) as [|x k] eqn:E; [done|]. assert (x ∈ keep p l) as [Hx Hpx]%elem_of_keep by (rewrite E; by left).
    by rewrite (Hp x Hx) in Hpx.
Qed.

Lemma UserGet_clean p d : clean d → ∃ o, UserGet pc p d = (d, Ok o) ∧ (o = None ↔ ∀ u, u ∈ db_users d → p u = false).
Proof.
  intros Hd. unfold UserGet, mbind, sql_bind, query. rewrite stmt_clean by done. simpl. eexists. split; [done|].
  rewrite <- head_keep_None. by case_match.
Qed.

Definition names (l : list User) : list string := map Usr.Username l.

(** A user is added unless the name is taken. *)
Lemma AddUserAndGroups_clean u now cover d :
  clean d → let d' := fst (AddUserAndGroups pc u now cover d) in
  clean d' ∧
  if decide (Usr.Username u ∈ names (db_users d)) then db_users d' = db_users d ∧ db_nextid d' = db_nextid d
  else db_users d' = db_users d ++ [u <| Usr.Id := db_nextid d |> <| Usr.CreateAt := now |> <| Usr.UpdateAt := now |>]
       ∧ db_nextid d' = db_nextid d + 1.
Proof.
  intros Hd d'. unfold d', AddUserAndGroups, User_Add, UserGroupMemberSyncByUser, with_message, mbind, sql_bind, UserGetByUsername.
  destruct (UserGet_clean (λ r, String.eqb (Usr.Username r) (Usr.Username u)) d Hd) as (o & -> & Ho).
  assert (o = None ↔ Usr.Username u ∉ names (db_users d)) as Hn.
  { rewrite Ho. unfold names. rewrite list_elem_of_fmap. split.
    - intros Hp (r & Hr & Hin). specialize (Hp r Hin). by rewrite <- Hr, String.eqb_refl in Hp.
    - intros Hn r Hin. apply String.eqb_neq. intros Hr. apply Hn. by exists r. }
  destruct o as [r|]; case_decide; try naive_solver. rewrite stmt_clean by done. simpl.
  match goal with |- context [UserGroupMemberSync ?g ?i ?c ?d1] =>
    pose proof (sync_same_users g i c d1 Hd) as (Hc & Hus & Hnx); destruct (UserGroupMemberSync g i c d1) as [d2 [|]] end; done.
Qed.

(** What adding the users of [done_] makes of the users [l0]. *)
Record added (l0 : list User) (n0 : Z) (done_ : list User) (d : pdb) : Prop := {
  ad_clean : clean d;
  ad_next : n0 ≤ db_nextid d;
  ad_old u : u ∈ l0 → u ∈ db_users d;
  ad_new v : v ∈ db_users d → v ∈ l0 ∨ (Usr.Belong v = "ldap" ∧ Usr.Username v ∈ names done_ ∧ Usr.Username v ∉ names l0 ∧ n0 ≤ Usr.Id v);
  ad_done u : u ∈ done_ → Usr.Username u ∈ names (db_users d)
}.

Lemma added_step l0 n0 done_ u now cover d :
  Usr.Belong u = "ldap" → added l0 n0 done_ d → added l0 n0 (done_ ++ [u]) (fst (AddUserAndGroups pc u now cover d)).
Proof.
  intros Hb []. pose proof (AddUserAndGroups_clean u now cover d ad_clean0) as [Hc Hd].
  set (d' := fst _) in *. clearbody d'.
  assert (∀ x, x ∈ names done_ → x ∈ names (done_ ++ [u])) as Hmono.
  { intros x. unfold names. rewrite map_app, elem_of_app. by left. }
  case_decide as Hin; destruct Hd as [Hus Hnx].
  - split; [done|lia|by rewrite Hus|rewrite Hus|rewrite Hus].
    + intros v [?|(? & ? & ? & ?)]%ad_new0; [by left|]. right. auto.
    + intros v [Hv| ->%list_elem_of_singleton]%elem_of_app; auto.
  - split; [done|lia|rewrite Hus|rewrite Hus|rewrite Hus].
    + intros v Hv. apply elem_of_app. auto.
    + intros v [[?|(? & ? & ? & ?)]%ad_new0| ->%list_elem_of_singleton]%elem_of_app; [by left|right; auto|right]. simpl.
      split_and!; [done|unfold names; rewrite map_app; apply elem_of_app; right; by left| |lia].
      intros (w & Hw & Hwin)%list_elem_of_fmap. apply Hin. rewrite Hw. apply list_elem_of_fmap_2. auto.
    + unfold names. rewrite map_app. intros v [Hv| ->%list_elem_of_singleton]%elem_of_app; apply elem_of_app;
        [left; by apply ad_done0|right; by left].
Qed.

Lemma added_all l0 n0 now cover (l : list User) d done_ :
  Forall (λ u, Usr.Belong u = "ldap") l → added l0 n0 done_ d →
  ∃ d', for_each (λ u, logged (AddUserAndGroups pc u now cover)) l d = (d', Ok tt) ∧ added l0 n0 (done_ ++ l) d'.
Proof.
  intros Hl. revert d done_. induction Hl as [|u l Hu Hl IH]; intros d done_ Hd; simpl.
  { exists d. by rewrite app_nil_r. }
  destruct (IH _ (done_ ++ [u]) (added_step l0 n0 done_ u now cover d Hu Hd)) as (d' & Hf & Ha).
  exists d'. split; [|by rewrite <- app_assoc in Ha]. unfold mbind, sql_bind, logged at 1. exact Hf.
Qed.

Lemma sync_all_same (l : list User) cover d :
  clean d → ∃ d', for_each (λ u, logged (UserGroupMemberSyncByUser u cover)) l d = (d', Ok tt) ∧ same_users d d'.
Proof.
  revert d. induction l as [|u l IH]; intros d Hd; simpl; [by exists d|].
  destruct (sync_same_users (Usr.TeamsLst u) (Usr.Id u) cover d Hd) as (Hc & Hu & Hn).
  destruct (IH _ Hc) as (d' & Hf & Hc' & Hu' & Hn'). exists d'. split; [exact Hf|]. split_and!; [done|congruence..].
Qed.

Lemma fold_insert_Some {A} (f : A → string) (g : A → User) l (m0 : gmap string User) k u :
  fold_left (λ m x, <[f x := g x]> m) l m0 !! k = Some u → m0 !! k = Some u ∨ ∃ x, x ∈ l ∧ f x = k ∧ g x = u.
Proof.
  revert m0. induction l as [|x l IH]; intros m0; simpl; [by left|].
  intros [Hm|(y & Hy & ?)]%IH; [|right; exists y; split; [by right|done]].
  destruct (decide (f x = k)) as [<-|Hne].
  - rewrite lookup_insert_eq in Hm. simplify_eq. right. exists x. split; [by left|done].
  - rewrite lookup_insert_ne in Hm by done. by left.
Qed.
Lemma fold_insert_is_Some {A} (f : A → string) (g : A → User) l (m0 : gmap string User) k :
  is_Some (m0 !! k) ∨ k ∈ map f l → is_Some (fold_left (λ m x, <[f x := g x]> m) l m0 !! k).
Proof.
  revert m0. induction l as [|x l IH]; intros m0; simpl; [intros [?|[]%elem_of_nil]; done|].
  intros Hk. apply IH. destruct (decide (f x = k)) as [<-|Hne]; [left; rewrite lookup_insert_eq; by eexists|].
  rewrite lookup_insert_ne by done. destruct Hk as [|[?|]%elem_of_cons]; [by left|done|by right].
Qed.

(** The users of the directory. *)
Lemma LdapUserGetAll_names now fromSso name u :
  LdapUserGetAll now = Ok fromSso → fromSso !! name = Some u → Usr.Username u = name ∧ Usr.Belong u = "ldap".
Proof.
  unfold LdapUserGetAll. destruct newLdapConn; [|done]. intros [= <-] [H|(x & _ & <- & <-)]%fold_insert_Some; [|done].
  by rewrite lookup_empty in H.
Qed.

Definition by_sso (sso : string) (l : list User) : gmap string User :=
  fold_left (λ m u, <[Usr.Username u := u]> m) (keep (λ u, String.eqb (Usr.Belong u) sso) l) ∅.
Lemma NoDup_map_inj {A C} (f : A → C) l x y : NoDup (map f l) → x ∈ l → y ∈ l → f x = f y → x = y.
Proof.
  induction l as [|z l IH]; simpl; [by intros _ []%elem_of_nil|]. intros [Hz Hl]%NoDup_cons [->|Hx]%elem_of_cons [->|Hy]%elem_of_cons Heq.
  - done.
  - destruct Hz. rewrite Heq. by apply (list_elem_of_fmap_2 f).
  - destruct Hz. rewrite <- Heq. by apply (list_elem_of_fmap_2 f).
  - auto.
Qed.
Lemma by_sso_lookup sso l name u :
  NoDup (names l) → by_sso sso l !! name = Some u ↔ u ∈ l ∧ Usr.Belong u = sso ∧ Usr.Username u = name.
Proof.
  intros Hnd. split.
  - intros [H|(x & [Hx Hb]%elem_of_keep & <- & ->)]%fold_insert_Some; [by rewrite lookup_empty in H|]. by apply String.eqb_eq in Hb.
  - intros (Hu & Hb & Hn). assert (u ∈ keep (λ u, String.eqb (Usr.Belong u) sso) l) as Hk
      by (apply elem_of_keep; by rewrite Hb, String.eqb_refl).
    destruct (fold_insert_is_Some Usr.Username id (keep (λ u, String.eqb (Usr.Belong u) sso) l) ∅ name) as [v Hv].
    { right. rewrite <- Hn. by apply (list_elem_of_fmap_2 Usr.Username). }
    change (by_sso sso l !! name = Some v) in Hv. rewrite Hv. f_equal.
    apply fold_insert_Some in Hv as [H|(x & [Hx _]%elem_of_keep & Hxn & ->)]; [by rewrite lookup_empty in H|].
    apply (NoDup_map_inj Usr.Username l); [done..|]. congruence.
Qed.

(** Names and ids are unique, and the counter is beyond the ids. *)
Record users_ok (d : pdb) : Prop := {
  uo_names : NoDup (names (db_users d));
  uo_ids : NoDup (map Usr.Id (db_users d));
  uo_next u : u ∈ db_users d → Usr.Id u < db_nextid d
}.

Definition local_user (d : pdb) (name : string) : Prop :=
  ∃ u, u ∈ db_users d ∧ Usr.Username u = name ∧ Usr.Belong u ≠ "ldap".
Definition ldap_user (d : pdb) (name : string) : Prop :=
  ∃ u, u ∈ db_users d ∧ Usr.Username u = name ∧ Usr.Belong u = "ldap".

Lemma elem_of_diffUsers base newUsers u :
  u ∈ fst (diffUsers base newUsers) ↔ ∃ name, newUsers !! name = Some u ∧ base !! name = None.
Proof.
  unfold diffUsers. simpl. rewrite list_elem_of_omap. split.
  - intros ([name v] & Hin & Hv). apply elem_of_go_range in Hin. case_match; simplify_eq. by exists name.
  - intros (name & Hn & Hb). exists (name, u). split; [by apply elem_of_go_range|]. by rewrite Hb.
Qed.

(** Once users were added, those that are not in the directory are deleted. *)
Lemma delete_others d0 fromSso (d : pdb) :
  users_ok d0 → (∀ name u, fromSso !! name = Some u → Usr.Username u = name ∧ Usr.Belong u = "ldap") →
  let fromDb := by_sso "ldap" (db_users d0) in
  added (db_users d0) (db_nextid d0) (fst (diffUsers fromDb fromSso)) d →
  let l := drop_rows (λ r, mem (Usr.Id r) (map Usr.Id (fst (diffUsers fromSso fromDb)))) (db_users d) in
  (∀ u, Usr.Belong u ≠ "ldap" → u ∈ l ↔ u ∈ db_users d0) ∧
  (∀ name, (∃ u, u ∈ l ∧ Usr.Username u = name ∧ Usr.Belong u = "ldap") ↔ is_Some (fromSso !! name) ∧ ¬ local_user d0 name).
Proof.
  intros [] Hsso fromDb [] l.
  assert (∀ u, u ∈ l ↔ u ∈ db_users d ∧ ∀ w, w ∈ db_users d0 → Usr.Belong w = "ldap" → fromSso !! Usr.Username w = None → Usr.Id w ≠ Usr.Id u) as Hl.
  { intros u. unfold l. rewrite elem_of_drop_rows. apply and_iff_compat_l. unfold mem. rewrite bool_decide_eq_false. split.
    - intros Hm w Hw Hb Hn Hid. apply Hm. rewrite <- Hid. apply (list_elem_of_fmap_2 Usr.Id). apply elem_of_diffUsers.
      exists (Usr.Username w). split; [|done]. by apply by_sso_lookup.
    - intros Hw (w & Hid & (name & Hn & Hs)%elem_of_diffUsers)%list_elem_of_fmap.
      apply by_sso_lookup in Hn as (Hin & Hb & <-); [|done]. by apply (Hw w). }
  assert (∀ u w, u ∈ db_users d0 → w ∈ db_users d0 → Usr.Id w = Usr.Id u → w = u) as Hinj
    by (intros; by apply (NoDup_map_inj Usr.Id (db_users d0))).
  split.
  - intros u Hb. rewrite Hl. split.
    + intros [[?|[]]%ad_new0 _]; done.
    + intros Hu. split; [auto|]. intros w Hw Hwb _ Hid. by rewrite (Hinj u w Hu Hw Hid) in Hwb.
  - intros name. split.
    + intros (u & [Hu Hnot]%Hl & <- & Hb). destruct (ad_new0 u Hu) as [Hu0|(_ & Hn & Hfresh & _)].
      * split.
        -- destruct (fromSso !! Usr.Username u) eqn:E; [by eexists|]. by destruct (Hnot u Hu0 Hb E).
        -- intros (w & Hw & Hwn & Hwb). by rewrite (NoDup_map_inj Usr.Username _ w u uo_names0 Hw Hu0 Hwn) in Hwb.
      * apply list_elem_of_fmap in Hn as (v & Hv & (nm & Hnm & _)%elem_of_diffUsers).
        destruct (Hsso nm v Hnm) as [<- _]. rewrite Hv. split; [by eexists|]. intros (w & Hw & Hwn & _). apply Hfresh.
        rewrite Hv, <- Hwn. by apply (list_elem_of_fmap_2 Usr.Username).
    + intros [[v Hv] Hloc]. destruct (fromDb !! name) as [u|] eqn:E.
      * apply by_sso_lookup in E as (Hu & Hb & Hn); [|done]. exists u. split; [|done]. apply Hl. split; [auto|].
        intros w Hw Hwb Hnone Hid. rewrite (Hinj u w Hu Hw Hid), Hn in Hnone. congruence.
      * assert (Usr.Username v ∈ names (db_users d)) as Hin by (apply ad_done0, elem_of_diffUsers; by exists name).
        apply list_elem_of_fmap in Hin as (u & Hun & Hu). destruct (Hsso name v Hv) as [Hvn Hvb].
        destruct (ad_new0 u Hu) as [Hu0|(Hub & _ & _ & Hid)].
        -- exfalso. destruct (decide (Usr.Belong u = "ldap")) as [Hb|Hb].
           ++ assert (fromDb !! name = Some u) by (apply by_sso_lookup; [done|]; split_and!; [done|done|congruence]). congruence.
           ++ apply Hloc. exists u. split_and!; [done|congruence|done].
        -- exists u. split; [|split; [congruence|done]]. apply Hl. split; [done|]. intros w Hw _ _ Hwid.
           specialize (uo_next0 w Hw). lia.
Qed.

Lemma UserDelByIds_clean ids d :
  clean d → db_users (fst (UserDelByIds ids d)) = drop_rows (λ r, mem (Usr.Id r) ids) (db_users d).
Proof.
  intros Hd. unfold UserDelByIds, transaction, exec, mbind, sql_bind.
  repeat (rewrite stmt_clean by done; simpl). done.
Qed.

Lemma sync_users_spec now fromSso d :
  lc_Enable lc = true → lc_SyncAdd lc = true → lc_SyncDel lc = true → clean d → users_ok d → LdapUserGetAll now = Ok fromSso →
  ∃ d', SyncAddAndDelUsers now d = (d', Ok tt) ∧ (∀ u, Usr.Belong u ≠ "ldap" → u ∈ db_users d' ↔ u ∈ db_users d) ∧
    (∀ name, ldap_user d' name ↔ is_Some (fromSso !! name) ∧ ¬ local_user d name).
Proof.
  intros He Ha Hdel Hd Hok Hsso. unfold SyncAddAndDelUsers. rewrite He, Ha. simpl.
  unfold getUsersFromSsoAndDb. rewrite Hsso. unfold UserGetsBySso, with_message, query, mbind, sql_bind.
  rewrite stmt_clean by done. simpl. fold (by_sso "ldap" (db_users d)). set (fromDb := by_sso "ldap" (db_users d)).
  pose proof (LdapUserGetAll_names now fromSso) as Hnames.
  assert (added (db_users d) (db_nextid d) [] d) as H0.
  { split; [done|lia|done|by left|by intros u []%elem_of_nil]. }
  destruct (added_all _ _ now (lc_CoverTeams lc) (fst (diffUsers fromDb fromSso)) _ _ ltac:(
    apply Forall_forall; intros u (nm & Hn & _)%elem_of_diffUsers; by destruct (Hnames nm u Hsso Hn)) H0) as (d1 & Hf1 & H1).
  simpl in H1. simpl in Hf1. rewrite Hf1.
  destruct (sync_all_same (snd (diffUsers fromDb fromSso)) (lc_CoverTeams lc) d1 (ad_clean _ _ _ _ H1)) as (d2 & Hf2 & Hc2 & Hu2 & Hn2).
  simpl in Hf2. rewrite Hf2, Hdel.
  assert (added (db_users d) (db_nextid d) (fst (diffUsers fromDb fromSso)) d2) as H2.
  { destruct H1. split; [done|by rewrite Hn2|by rewrite Hu2|by rewrite Hu2|by rewrite Hu2]. }
  pose proof (delete_others d fromSso d2 Hok (λ nm u, Hnames nm u Hsso) H2) as Hdels. simpl in Hdels. fold fromDb in Hdels.
  set (del := omap _ (go_range fromDb)) in *. destruct (Nat.ltb_spec 0 (length del)).
  - eexists. split; [reflexivity|]. simpl. unfold ldap_user. rewrite UserDelByIds_clean by done. exact Hdels.
  - assert (del = []) as Hnil by (destruct del; simpl in *; [done|lia]). rewrite Hnil in Hdels.
    eexists. split; [reflexivity|]. simpl. unfold ldap_user.
    assert (drop_rows (λ r, mem (Usr.Id r) (map Usr.Id [])) (db_users d2) = db_users d2) as Hdr; [|by rewrite Hdr in Hdels].
    unfold drop_rows. apply keep_true.
Qed.

(** C36. With the directory enabled and both adding and deleting switched on, after synchronising,
    when no statement fails, the users that belong to the directory are exactly those that the
    search of the directory returned ([fromSso]) and that do not bear the name of a user of
    another origin; the others are left as they were.  What was returned is not always all of
    the directory: a base whose search fails is skipped, and its users are deleted
    ([ldap_search_failure]). *)
Theorem ldap_sync_users now fromSso d :
  lc_Enable lc = true → lc_SyncAdd lc = true → lc_SyncDel lc = true → clean d → users_ok d → LdapUserGetAll now = Ok fromSso →
  ∃ d', SyncAddAndDelUsers now d = (d', Ok tt) ∧ (∀ u, Usr.Belong u ≠ "ldap" → u ∈ db_users d' ↔ u ∈ db_users d) ∧
    (∀ name, ldap_user d' name ↔ is_Some (fromSso !! name) ∧ ¬ local_user d name).
Proof. apply sync_users_spec. Qed.

(** A search that fails is skipped, so when the directory accepts connections
    but fails every search, synchronising deletes all users that belong to it. *)
Theorem ldap_search_failure now conn d :
  lc_Enable lc = true → lc_SyncAdd lc = true → lc_SyncDel lc = true → clean d → users_ok d → newLdapConn = Ok conn →
  (∀ base filter attrs, ∃ e, ldap_Search conn base filter attrs = Err e) →
  ∃ d', SyncAddAndDelUsers now d = (d', Ok tt) ∧ ∀ u, u ∈ db_users d' → Usr.Belong u ≠ "ldap".
Proof.
  intros He Ha Hdel Hd Hok Hconn Hs.
  assert (LdapUserGetAll now = Ok ∅) as Hall.
  { unfold LdapUserGetAll. rewrite Hconn. f_equal. unfold ldapReq. induction (lc_BaseDns lc) as [|b l IH]; simpl; [done|].
    destruct (Hs (trim_space b) (sprintf (lc_UserFilter lc) []) genLdapAttributeSearchList) as [e ->]. exact IH. }
  destruct (sync_users_spec now ∅ d He Ha Hdel Hd Hok Hall) as (d' & Hs' & _ & Hn). exists d'. split; [done|].
  intros u Hu Hb. destruct (proj1 (Hn (Usr.Username u))) as [[v Hv] _]; [by exists u|]. by rewrite lookup_empty in Hv.
Qed.
End ldap.
