(* ===== verification/Sessions.v ===== *)
(** * Logging in, sessions and tokens

    [center/router/router_login.go], the authentication of
    [center/router/router_mw.go], [center/router/router_captcha.go], the password
    check of [models/user.go] and [memsto/user_token_cache.go].  Sessions are keys of
    a Redis that expire; a token is a signed set of claims.  Time is in nanoseconds,
    and does not pass within a request. *)

From Stdlib Require Import Ascii.
From S2P Require Import Prelude GoStrings Json Models RuleModels RuleOps Callbacks Sources Users Permissions Ldap.
Open Scope string_scope.
Open Scope Z_scope.
Open Scope list_scope.

(** ** Redis *)

Inductive redis_value := RStr (s : string) | RSet (l : gset string).

(** A value, and when it expires. *)
Notation redis := (gmap string (redis_value * option Z)).

Record world := mkWorld { w_db : pdb; w_redis : redis; w_faults : list (option error) }.
#[global] Instance world_eta : Settable world := λ r, mkWorld (w_db r) (w_redis r) (w_faults r).

(** What a function of a handler comes to: a value, an error that is returned, an
    answer that ends the request ([ginx.Bomb], [ginx.Dangerous], or a message after
    which the handler returns), or a panic. *)
Inductive outcome (A : Type) := Val (a : A) | Failed (e : error) | Answered (code : Z) (msg : string) | Crashed.
Arguments Val {A} a.
Arguments Failed {A} e.
Arguments Answered {A} code msg.
Arguments Crashed {A}.

Definition web (A : Type) : Type := world → world * outcome A.
#[export] Instance web_ret : MRet web := λ A a w, (w, Val a).
#[export] Instance web_bind : MBind web := λ A B k m w,
  match m w with
  | (w, Val a) => k a w
  | (w, Failed e) => (w, Failed e)
  | (w, Answered c s) => (w, Answered c s)
  | (w, Crashed) => (w, Crashed)
  end.

Definition wfail {A} (e : error) : web A := λ w, (w, Failed e).
Definition answer {A} (code : Z) (msg : string) : web A := λ w, (w, Answered code msg).
(** [if err != nil]: the error as a value. *)
Definition attempt {A} (m : web A) : web (result A) := λ w,
  match m w with
  | (w, Val a) => (w, Val (Ok a))
  | (w, Failed e) => (w, Val (Err e))
  | (w, Answered c s) => (w, Answered c s)
  | (w, Crashed) => (w, Crashed)
  end.
Definition or_answer {A} (code : Z) (msg : error → string) (m : web A) : web A :=
  r ← attempt m; match r with Ok a => mret a | Err e => answer code (msg e) end.
Definition wdangerous {A} (m : web A) : web A := or_answer 200 id m.
(** A result or an error that is ignored. *)
Definition ignored {A} (m : web A) : web unit := attempt m;; mret tt.
Definition in_db {A} (m : sql A) : web A := λ w,
  let '(d, r) := m (w_db w) in (w <| w_db := d |>, match r with Ok a => Val a | Err e => Failed e end).
Definition returned {A} (r : result A) : web A := match r with Ok a => mret a | Err e => wfail e end.

(** A command can fail; [w_faults] has the errors to come. *)
Definition command {A} (f : redis → result (redis * A)) : web A := λ w,
  let w' := w <| w_faults := tail (w_faults w) |> in
  match head (w_faults w) with
  | Some (Some e) => (w', Failed e)
  | _ => match f (w_redis w) with Ok (r, a) => (w' <| w_redis := r |>, Val a) | Err e => (w', Failed e) end
  end.

Definition is_live (now : Z) (e : option Z) : bool := match e with None => true | Some e => now <? e end.
Definition live (now : Z) (r : redis) (key : string) : option redis_value :=
  match r !! key with Some (v, e) => if is_live now e then Some v else None | None => None end.
Definition WRONGTYPE : error := "WRONGTYPE Operation against a key holding the wrong kind of value".

(** [None] is [redis.Nil]. *)
Definition redis_Get (now : Z) (key : string) : web (option string) :=
  command (λ r, match live now r key with
                | None => Ok (r, None)
                | Some (RStr s) => Ok (r, Some s)
                | Some (RSet _) => Err WRONGTYPE
                end).
(** Expirations are in milliseconds, and at least one; zero and less mean none, and
    -1 to keep what there is. *)
Definition expiry (now dur : Z) (old : option Z) : option Z :=
  if 0 <? dur then Some (now + Z.max 1 (dur / 10 ^ 6) * 10 ^ 6) else if dur =? -1 then old else None.
Definition redis_Set (now : Z) (key value : string) (dur : Z) : web unit :=
  command (λ r, let old := match live now r key with Some _ => r !! key ≫= snd | None => None end in
                Ok (<[key := (RStr value, expiry now dur old)]> r, tt)).
Definition redis_Del (keys : list string) : web unit := command (λ r, Ok (foldr delete r keys, tt)).
Definition redis_SMembers (now : Z) (key : string) : web (list string) :=
  command (λ r, match live now r key with
                | None => Ok (r, [])
                | Some (RSet l) => Ok (r, elements l)
                | Some (RStr _) => Err WRONGTYPE
                end).
Definition redis_SAdd (now : Z) (key : string) (members : list string) : web unit :=
  command (λ r, match live now r key with
                | None => Ok (<[key := (RSet (list_to_set members), None)]> r, tt)
                | Some (RSet l) => Ok (<[key := (RSet (list_to_set members ∪ l), r !! key ≫= snd)]> r, tt)
                | Some (RStr _) => Err WRONGTYPE
                end).
(** [Get(...).Result()]: a missing key is an error. *)
Definition redis_get (now : Z) (key : string) : web string :=
  v ← redis_Get now key; match v with Some s => mret s | None => wfail "redis: nil" end.

(** ** Claims *)

(** The claims that are strings, and the time of expiry in seconds. *)
Record claims := mkClaims { cl_strings : gmap string string; cl_exp : Z }.

(** [golang-jwt] with HMAC: signing, and parsing and validating at a time.  What was
    signed with a key is valid under it until it expires. *)
Class JwtLib := {
  jwt_SignedString : string → claims → result string;
  jwt_Parse : string → Z → string → result claims;
  jwt_round : ∀ key c t, jwt_SignedString key c = Ok t →
    ∀ now, jwt_Parse key now t = if now <=? cl_exp c then Ok c else Err "Token is expired";
  jwt_nonempty : ∀ key c t, jwt_SignedString key c = Ok t → t ≠ ""
}.

Record JWTAuth := mkJWTAuth {
  ja_SigningKey : string; ja_AccessExpired : Z; ja_RefreshExpired : Z; ja_RedisKeyPrefix : string; ja_SingleLogin : bool
}.
Record TokenDetails := mkTokenDetails {
  td_AccessToken : string; td_RefreshToken : string; td_AccessUuid : string; td_RefreshUuid : string;
  td_AtExpires : Z; td_RtExpires : Z
}.
Record AccessDetails := mkAccessDetails { ad_AccessUuid : string; ad_UserIdentity : string }.

Definition minute : Z := 60 * 10 ^ 9.
Definition second : Z := 10 ^ 9.
Definition unix (t : Z) : Z := t / second.

Section sessions.
Context `{SL : StrLib, UL : UserLib, CR : Crypto, UC : UnicodeCase, GR : GoRange, !Json (gmap string string)}.
Context `{LS : LdapServer, JL : JwtLib}.
Context (pc : phone_config) (ja : JWTAuth).
Implicit Types (u : User).

Definition wrapJwtKey (key : string) : string := ja_RedisKeyPrefix ja +:+ key.
Definition wrapIdTokenKey (userId : Z) : string := "n9e_id_token_" +:+ itoa userId.

(** [uuid] is the new identifier. *)
Definition createTokens (signingKey userIdentity uuid : string) (now : Z) : result TokenDetails :=
  let at_ := unix (now + i64 (minute * ja_AccessExpired ja)) in
  let rt := unix (now + i64 (minute * ja_RefreshExpired ja)) in
  let ruuid := uuid +:+ "++" +:+ userIdentity in
  match jwt_SignedString signingKey
          (mkClaims {[ "access_uuid" := uuid; "user_identity" := userIdentity ]} at_) with
  | Err e => Err e
  | Ok access =>
      match jwt_SignedString signingKey
              (mkClaims {[ "refresh_uuid" := ruuid; "user_identity" := userIdentity ]} rt) with
      | Err e => Err e
      | Ok refresh => Ok (mkTokenDetails access refresh uuid ruuid at_ rt)
      end
  end.

Definition createAuth (now : Z) (userIdentity : string) (td : TokenDetails) : web unit :=
  match split userIdentity "-" !! 1%nat with
  | None => λ w, (w, Crashed)
  | Some username =>
      (if ja_SingleLogin ja then
         delKeys ← redis_SMembers now (wrapJwtKey username);
         (if (0 <? length delKeys)%nat then redis_Del delKeys else mret tt);;
         redis_Del [wrapJwtKey username]
       else mret tt);;
      redis_Set now (wrapJwtKey (td_AccessUuid td)) userIdentity (td_AtExpires td * second - now);;
      redis_Set now (wrapJwtKey (td_RefreshUuid td)) userIdentity (td_RtExpires td * second - now);;
      if ja_SingleLogin ja
      then redis_SAdd now (wrapJwtKey username) [wrapJwtKey (td_AccessUuid td); wrapJwtKey (td_RefreshUuid td)]
      else mret tt
  end.

Definition fetchAuth (now : Z) (givenUuid : string) : web string := redis_get now (wrapJwtKey givenUuid).
Definition deleteAuth (givenUuid : string) : web unit := redis_Del [wrapJwtKey givenUuid].
Definition deleteTokens (authD : AccessDetails) : web unit :=
  redis_Del [wrapJwtKey (ad_AccessUuid authD)];;
  redis_Del [wrapJwtKey (ad_AccessUuid authD +:+ "++" +:+ ad_UserIdentity authD)].

Definition saveIdToken (now userId : Z) (idToken : string) : web unit :=
  if String.eqb idToken "" then mret tt
  else redis_Set now (wrapIdTokenKey userId) idToken (i64 (minute * ja_RefreshExpired ja)).
Definition fetchIdToken (now userId : Z) : web string := redis_get now (wrapIdTokenKey userId).
Definition deleteIdToken (userId : Z) : web unit := redis_Del [wrapIdTokenKey userId].

(** The token of the [Authorization] header. *)
Definition extractToken (tok : string) : string :=
  if (6 <? String.length tok)%nat && String.eqb (to_upper (String.substring 0 7 tok)) "BEARER " then str_drop 7 tok else "".

Definition verifyToken (signingKey : string) (now : Z) (tokenString : string) : result claims :=
  if String.eqb tokenString "" then Err "bearer token not found" else jwt_Parse signingKey (unix now) tokenString.

Definition extractTokenMetadata (now : Z) (header : string) : web AccessDetails :=
  cl ← returned (verifyToken (ja_SigningKey ja) now (extractToken header));
  match cl_strings cl !! "access_uuid" with
  | None => wfail "failed to parse access_uuid from jwt"
  | Some accessUuid =>
      val ← attempt (fetchAuth now accessUuid);
      match val with
      | Err _ | Ok "" => wfail "unauthorized"
      | Ok _ =>
          match cl_strings cl !! "user_identity" with
          | None => λ w, (w, Crashed)
          | Some identity => mret (mkAccessDetails accessUuid identity)
          end
      end
  end.

(** *** Fixed tokens *)

Record UserTokenCache := mkUserTokenCache {
  uc_statTotal : Z; uc_tokens : gmap string User; uc_tokensLastUsed : gmap string Z
}.
#[local] Instance UserTokenCache_eta : Settable UserTokenCache := λ r,
  mkUserTokenCache (uc_statTotal r) (uc_tokens r) (uc_tokensLastUsed r).
Definition NewUserTokenCache : UserTokenCache := mkUserTokenCache (-1) ∅ ∅.

Definition UTC_StatChanged (utc : UserTokenCache) (total : Z) : bool := negb (uc_statTotal utc =? total).
Definition GetByToken (now : Z) (token : string) (utc : UserTokenCache) : UserTokenCache * option User :=
  (utc <| uc_tokensLastUsed := <[token := unix now]> (uc_tokensLastUsed utc) |>, uc_tokens utc !! token).

Definition token_users (users : list User) (lst : list UserToken) : gmap string User :=
  let userMap : gmap string User := fold_left (λ m u, <[Usr.Username u := u]> m) users ∅ in
  fold_left (λ m t, match userMap !! ut_Username t with None => m | Some u => <[ut_Token t := u]> m end) lst ∅.

(** [UserGetAll] of the center. *)
Definition UserGetAll : sql (list User) :=
  query (λ d, map (λ u, let u := u <| Usr.RolesLst := fields (Usr.Roles u) |> in
                        DecryptPhone pc (u <| Usr.Admin := IsAdmin u |>)) (db_users d)).

Definition syncUserTokens (utc : UserTokenCache) : sql UserTokenCache :=
  total ← with_message "failed to exec UserTokenStatistics" (query (λ d, Z.of_nat (length (db_tokens d))));
  if negb (UTC_StatChanged utc total) then mret utc
  else
    lst ← with_message "failed to exec UserTokenGetAll" (query db_tokens);
    users ← with_message "failed to exec UserGetAll" UserGetAll;
    mret (utc <| uc_tokens := token_users users lst |> <| uc_statTotal := total |>).

Definition UserTokenUpdateLastUsedTime (token : string) (lastUsedTime : Z) : sql unit :=
  exec (λ d, d <| db_tokens := map (λ t, if String.eqb (ut_Token t) token then t <| ut_LastUsed := lastUsedTime |> else t)
                                 (db_tokens d) |>).

Definition updateUserTokenLastUsedTime (now : Z) (utc : UserTokenCache) : sql UserTokenCache :=
  let stale l := negb (l =? 0) && (1800 <? unix now - l) in
  let toUpdate := List.filter (λ '(_, l), negb (l =? 0) && negb (stale l)) (go_range (uc_tokensLastUsed utc)) in
  for_each (λ '(token, l), logged (UserTokenUpdateLastUsedTime token l)) toUpdate;;
  mret (utc <| uc_tokensLastUsed := filter (λ kv, stale (snd kv) = false) (uc_tokensLastUsed utc) |>).

(** *** Authentication *)

Record TokenAuth := mkTokenAuth { ta_Enable : bool; ta_HeaderUserTokenKey : string }.

(** The user's id and name; [header] gives the headers of the request. *)
Definition tokenAuth (ta : TokenAuth) (utc : UserTokenCache) (now : Z) (header : string → string) :
    UserTokenCache * web (Z * string) :=
  let jwt :=
    metadata ← or_answer 401 (λ _, "unauthorized") (extractTokenMetadata now (header "Authorization"));
    userIdentity ← or_answer 401 (λ _, "unauthorized") (fetchAuth now (ad_AccessUuid metadata));
    match splitn2 userIdentity "-" with
    | [i; name] => match parse_int i with None => answer 401 "unauthorized" | Some userid => mret (userid, name) end
    | _ => answer 401 "unauthorized"
    end in
  if ta_Enable ta then
    let tokenKey := if String.eqb (ta_HeaderUserTokenKey ta) "" then "X-User-Token" else ta_HeaderUserTokenKey ta in
    let token := header tokenKey in
    if String.eqb token "" then (utc, jwt)
    else
      match GetByToken now token utc with
      | (utc, Some u) => if String.eqb (Usr.Username u) "" then (utc, jwt) else (utc, mret (Usr.Id u, Usr.Username u))
      | (utc, None) => (utc, jwt)
      end
  else (utc, jwt).

(** A proxy names the user, who is added when there is none. *)
Definition handleProxyUser (now : Z) (username : string) (defaultRoles : list string) : web User :=
  if String.eqb username "" then answer 401 "unauthorized"
  else
    user ← or_answer 500 id (in_db (UserGetByUsername pc username));
    match user with
    | Some u => mret u
    | None =>
        let u := Usr.zero <| Usr.Username := username |> <| Usr.Nickname := username |>
                   <| Usr.Roles := join defaultRoles " " |> <| Usr.CreateAt := unix now |> <| Usr.UpdateAt := unix now |>
                   <| Usr.CreateBy := "system" |> <| Usr.UpdateBy := "system" |> in
        id ← or_answer 500 id (in_db (User_Add pc u (unix now)));
        mret (u <| Usr.Id := id |>)
    end.
Definition proxyAuth (now : Z) (username : string) (defaultRoles : list string) : web (Z * string) :=
  u ← handleProxyUser now username defaultRoles; mret (Usr.Id u, Usr.Username u).

(** *** Captchas *)

Definition CaptchaSet (now : Z) (id value : string) : web unit := redis_Set now id value (300 * second).
(** A captcha that cannot be read is the empty string. *)
Definition CaptchaGet (now : Z) (id : string) (clear : bool) : web string :=
  val ← attempt (redis_get now id);
  match val with
  | Err _ => mret ""
  | Ok v => (if clear then ignored (redis_Del [id]) else mret tt);; mret v
  end.
Definition CaptchaVerify (now : Z) (id answer : string) : web bool :=
  old ← CaptchaGet now id true; mret (String.eqb old answer).
(** [made]: the store was made, by the first captcha that was asked for. *)
Definition captchaVerify (made : bool) (now : Z) (id value : string) : web string :=
  if negb made then λ w, (w, Crashed)
  else ok ← CaptchaVerify now id value; mret (if (ok : bool) then "" else "incorrect verification code").

(** *** Passwords *)

Definition fail_key (username : string) : string := "/userlogin/errorcount/" +:+ username.

Definition reachLoginFailCount (now : Z) (username : string) (count : Z) : web bool :=
  val ← redis_Get now (fail_key username);
  match val with
  | None => mret false
  | Some v => match parse_int v with None => wfail "invalid syntax" | Some c => mret (count <=? c) end
  end.

Definition incrLoginFailCount (now : Z) (username : string) (seconds : Z) : web unit :=
  let set v := ignored (redis_Set now (fail_key username) v (i64 (seconds * second))) in
  val ← attempt (redis_Get now (fail_key username));
  match val with
  | Ok None | Err _ => set "1"
  | Ok (Some v) => match parse_int v with None => set "1" | Some count => set (itoa (i64 (count + 1))) end
  end.

(** The seconds and the count of [login_fail_count], when it is set and well formed. *)
Definition fail_limit (val : string) : option (Z * Z) :=
  match fields val with
  | [s; c] => seconds ← parse_int s; count ← parse_int c; Some (seconds, count)
  | _ => None
  end.

Definition PassLogin (now : Z) (username pass : string) : web User :=
  val ← in_db (ConfigsGet "login_fail_count");
  let limit := fail_limit val in
  (match limit with
   | None => mret tt
   | Some (_, count) => reach ← reachLoginFailCount now username count;
                        if (reach : bool) then wfail "reach login fail count" else mret tt
   end);;
  let invalid : web User :=
    (match limit with None => mret tt | Some (seconds, _) => incrLoginFailCount now username seconds end);;
    wfail "Username or password invalid" in
  user ← in_db (UserGetByUsername pc username);
  match user with
  | None => invalid
  | Some u =>
      loginPass ← in_db (CryptoPass pass);
      if String.eqb loginPass (Usr.Password u) then mret u else invalid
  end.

(** *** Logging in, out and refreshing *)

Record login_config := mkLoginConfig {
  lg_ShowCaptcha : bool; lg_OpenRSA : bool; lg_RSAPrivateKey : string; lg_RSAPassWord : string
}.

Definition user_identity u : string := itoa (Usr.Id u) +:+ "-" +:+ Usr.Username u.

(** The tokens of a user that was authenticated. *)
Definition start_session (now : Z) (uuid userIdentity : string) : web TokenDetails :=
  ts ← wdangerous (returned (createTokens (ja_SigningKey ja) userIdentity uuid now));
  wdangerous (createAuth now userIdentity ts);; mret ts.

Definition loginPost (cf : login_config) (lc : SsoClient) (captcha_made : bool) (now : Z) (rand uuid : string)
    (username password captchaid verifyvalue : string) : web (User * TokenDetails) :=
  (if lg_ShowCaptcha cf then
     if negb captcha_made then λ w, (w, Crashed)
     else ok ← CaptchaVerify now captchaid verifyvalue;
          if (ok : bool) then mret tt else answer 200 "incorrect verification code"
   else mret tt);;
  authPassWord ← (if lg_OpenRSA cf
                  then or_answer 200 id (returned (secu_Decrypt password (lg_RSAPrivateKey cf) (lg_RSAPassWord cf)))
                  else mret password);
  user ← (if lc_Enable lc then
            r ← attempt (in_db (LdapLogin pc lc rand username authPassWord (lc_DefaultRoles lc) (lc_DefaultTeams lc) (unix now)));
            match r with
            | Ok u => mret (u <| Usr.RolesLst := fields (Usr.Roles u) |>)
            | Err e => or_answer 200 (λ e', "ldap login failed: " +:+ e +:+ "; n9e login failed: " +:+ e')
                         (PassLogin now username authPassWord)
            end
          else wdangerous (PassLogin now username authPassWord));
  ts ← start_session now uuid (user_identity user);
  mret (user, ts).

(** [logout_addr] is the address of the user's origin, given the id token. *)
Definition logoutPost (logout_addr : string → string → string) (now : Z) (header : string) (user : User) : web string :=
  metadata ← or_answer 400 (λ _, "failed to parse jwt token") (extractTokenMetadata now header);
  or_answer 200 (λ _, "Internal Server Error") (deleteTokens metadata);;
  idToken ← attempt (fetchIdToken now (Usr.Id user));
  ignored (deleteIdToken (Usr.Id user));;
  mret (logout_addr (Usr.Belong user) (match idToken with Ok t => t | Err _ => "" end)).

Definition refreshPost (now : Z) (uuid refreshToken : string) : web TokenDetails :=
  match jwt_Parse (ja_SigningKey ja) (unix now) refreshToken with
  | Err _ => answer 401 "refresh token expired"
  | Ok cl =>
      match cl_strings cl !! "refresh_uuid" with
      | None => answer 401 "failed to parse refresh_uuid from jwt"
      | Some refreshUuid =>
          val ← attempt (fetchAuth now refreshUuid);
          match val with
          | Err _ | Ok "" => answer 401 "refresh token expired"
          | Ok _ =>
              match cl_strings cl !! "user_identity" with
              | None => answer 401 "failed to parse user_identity from jwt"
              | Some userIdentity =>
                  match parse_int (default "" (head (split userIdentity "-"))) with
                  | None => answer 401 "failed to parse user_identity from jwt"
                  | Some userid =>
                      u ← or_answer 500 (λ _, "failed to query user by id") (in_db (UserGetById pc userid));
                      match u with
                      | None => answer 401 "user already deleted"
                      | Some _ =>
                          or_answer 401 (λ _, "Internal Server Error") (deleteAuth refreshUuid);;
                          ignored (deleteAuth (default "" (head (split refreshUuid "++"))));;
                          ts ← start_session now uuid userIdentity;
                          idToken ← attempt (fetchIdToken now userid);
                          (match idToken with
                           | Ok t => if String.eqb t "" then mret tt else ignored (saveIdToken now userid t)
                           | Err _ => mret tt
                           end);;
                          mret ts
                      end
                  end
              end
          end
      end
  end.
End sessions.

(** ** Keys over commands *)

(** What the commands of [m] make of a key; it stays, or it can go: then it holds no text. *)
Notation entry := (option (redis_value * option Z)).
Definition key_rel {A} (R : relation entry) (k : string) (m : web A) : Prop :=
  ∀ w, R (w_redis w !! k) (w_redis (fst (m w)) !! k).
Definition dead (e : entry) : Prop := match e with Some (RStr _, _) => False | _ => True end.
Definition gone (a b : entry) : Prop := b = a ∨ dead b.
#[export] Instance gone_preorder : PreOrder gone.
Proof. split; [by left|]. intros a b c [-> | Hb] [-> | Hc]; unfold gone; auto. Qed.

Section key_rel.
Context (R : relation entry) `{!PreOrder R} (k : string) {A B : Type}.
Lemma kr_ret (a : A) : key_rel R k (mret a).
Proof. by intros w. Qed.
Lemma kr_fail (e : error) : key_rel (A := A) R k (wfail e).
Proof. by intros w. Qed.
Lemma kr_answer code msg : key_rel (A := A) R k (answer code msg).
Proof. by intros w. Qed.
Lemma kr_crash : key_rel (A := A) R k (λ w, (w, Crashed)).
Proof. by intros w. Qed.
Lemma kr_returned (r : result A) : key_rel R k (returned r).
Proof. by destruct r; intros w. Qed.
Lemma kr_bind (m : web A) (f : A → web B) : key_rel R k m → (∀ a, key_rel R k (f a)) → key_rel R k (m ≫= f).
Proof.
  intros Hm Hf w. specialize (Hm w). unfold mbind, web_bind. destruct (m w) as [w' []]; simpl in *; try done.
  etrans; [done|apply Hf].
Qed.
Lemma kr_attempt (m : web A) : key_rel R k m → key_rel R k (attempt m).
Proof. intros Hm w. specialize (Hm w). unfold attempt. by destruct (m w) as [w' []]. Qed.
Lemma kr_in_db (m : sql A) : key_rel R k (in_db m).
Proof. intros w. unfold in_db. by destruct (m (w_db w)). Qed.
Lemma kr_command (f : redis → result (redis * A)) :
  (∀ r r' a, f r = Ok (r', a) → R (r !! k) (r' !! k)) → key_rel R k (command f).
Proof.
  intros Hf w. unfold command. destruct (head (w_faults w)) as [[e|]|]; [done|..];
    destruct (f (w_redis w)) as [[r a]|] eqn:E; try done; by apply Hf in E.
Qed.
End key_rel.

Section commands.
Context (R : relation entry) `{!PreOrder R} (k : string).
Lemma kr_Get now key : key_rel R k (redis_Get now key).
Proof. apply kr_command; [apply _|]. intros r r' a. by repeat case_match; intros; simplify_eq. Qed.
Lemma kr_Set now key v dur : key ≠ k → key_rel R k (redis_Set now key v dur).
Proof. intros Hk. apply kr_command; [apply _|]. intros r r' a [= <- <-]. by rewrite lookup_insert_ne. Qed.
Lemma kr_Del1 key : key ≠ k → key_rel R k (redis_Del [key]).
Proof. intros Hk. apply kr_command; [apply _|]. intros r r' a [= <- <-]. simpl. by rewrite lookup_delete_ne. Qed.
End commands.
Lemma kr_Del_gone k keys : key_rel gone k (redis_Del keys).
Proof.
  apply kr_command; [apply _|]. intros r r' a [= <- <-]. induction keys as [|x keys IH]; simpl; [by left|].
  destruct (decide (x = k)) as [->|]; [right; by rewrite lookup_delete_eq|]. by rewrite lookup_delete_ne.
Qed.
Lemma kr_SMembers R `{!PreOrder R} k now key : key_rel R k (redis_SMembers now key).
Proof. apply kr_command; [apply _|]. intros r r' a. by repeat case_match; intros; simplify_eq. Qed.
(** A set is no session. *)
Lemma kr_SAdd_gone k now key members : key_rel gone k (redis_SAdd now key members).
Proof.
  apply kr_command; [apply _|]. intros r r' []. destruct (decide (key = k)) as [->|Hne]; repeat case_match; intros; simplify_eq;
    first [right; by rewrite lookup_insert_eq|left; by rewrite lookup_insert_ne].
Qed.

Create HintDb web discriminated.
#[export] Hint Resolve kr_ret kr_fail kr_answer kr_crash kr_returned kr_attempt kr_in_db kr_Get kr_Set kr_Del1 kr_Del_gone kr_SMembers kr_SAdd_gone : web.
#[export] Hint Extern 1 (PreOrder _) => typeclasses eauto : web.

(** Through a program down to the commands that write. *)
Ltac kkeep :=
  repeat first
    [ match goal with |- ∀ _, _ => intro end
    | match goal with |- key_rel _ _ (_ ≫= _) => apply kr_bind; [typeclasses eauto|..] end
    | match goal with |- key_rel _ _ (if ?b then _ else _) => destruct b eqn:? end
    | match goal with |- key_rel _ _ (match ?o with _ => _ end) => destruct o eqn:? end
    | solve [eauto 4 with web]
    | match goal with |- key_rel _ _ (attempt _) => apply kr_attempt end ].

(** A value came through every part of a program. *)
Lemma bind_Val {A B} (m : web A) (f : A → web B) w w' b :
  (m ≫= f) w = (w', Val b) → ∃ a w1, m w = (w1, Val a) ∧ f a w1 = (w', Val b).
Proof. unfold mbind, web_bind. destruct (m w) as [w1 []] eqn:E; try done. intros H. by eexists _, _. Qed.
Lemma or_answer_Val {A} code msg (m : web A) w w' a : or_answer code msg m w = (w', Val a) → m w = (w', Val a).
Proof.
  unfold or_answer. intros ([x|e] & w1 & H1 & H2)%bind_Val; simpl in H2; [|done].
  unfold attempt in H1. destruct (m w) as [w2 []]; unfold mret, web_ret in H2; congruence.
Qed.
Lemma command_Val {A} (f : redis → result (redis * A)) w w' a :
  command f w = (w', Val a) → ∃ r, f (w_redis w) = Ok (r, a) ∧ w_redis w' = r.
Proof.
  unfold command. destruct (head (w_faults w)) as [[e|]|]; [done|..];
    destruct (f (w_redis w)) as [[r b]|] eqn:E; intros [= <- <-]; by exists r.
Qed.

(** ** The life of a session *)

Inductive server_event :=
  | WLogin (captcha_made : bool) (rand uuid username password captchaid verifyvalue : string)
  | WLogout (header : string) (user : User)
  | WRefresh (uuid refreshToken : string)
  | WCaptcha (id value : string)
  | WVerify (captcha_made : bool) (id value : string)
  | WFaults (fs : list (option error)) (ds : list (option error)).

Section lifecycle.
Context `{SL : StrLib, UL : UserLib, CR : Crypto, UC : UnicodeCase, GR : GoRange, !Json (gmap string string)}.
Context `{LS : LdapServer, JL : JwtLib}.
Context (pc : phone_config) (ja : JWTAuth) (cf : login_config) (lc : SsoClient) (logout_addr : string → string → string).
Implicit Types (u : User) (e : server_event).

(** The prefix of the keys of sessions keeps them apart from those of id tokens and of failed
    logins. *)
Context (id_keys : ∀ x n, wrapJwtKey ja x ≠ wrapIdTokenKey n) (fail_keys : ∀ x n, wrapJwtKey ja x ≠ fail_key n).

Definition handle (now : Z) e (w : world) : world :=
  match e with
  | WLogin made rand uuid username password cid vv => fst (loginPost pc ja cf lc made now rand uuid username password cid vv w)
  | WLogout header user => fst (logoutPost ja logout_addr now header user w)
  | WRefresh uuid token => fst (refreshPost pc ja now uuid token w)
  | WCaptcha id value => fst (CaptchaSet now id value w)
  | WVerify made id value => fst (captchaVerify made now id value w)
  | WFaults fs ds => w <| w_faults := fs |> <| w_db := (w_db w) <| db_faults := ds |> |>
  end.
Definition run (l : list (Z * server_event)) (w : world) : world := fold_left (λ w '(now, e), handle now e w) l w.

(** The event makes a session [x]. *)
Definition makes (x : string) e : Prop :=
  match e with
  | WLogin _ _ uuid _ _ _ _ | WRefresh uuid _ => uuid = x
  | WCaptcha id _ => id = wrapJwtKey ja x
  | _ => False
  end.
(** The event is about a session [x]. *)
Definition touches (x : string) (now : Z) e : Prop :=
  match e with
  | WLogin _ _ uuid _ _ cid _ => uuid = x ∨ cid = wrapJwtKey ja x
  | WLogout header _ => ∃ cl, verifyToken (ja_SigningKey ja) now (extractToken header) = Ok cl ∧
                              cl_strings cl !! "access_uuid" = Some x
  | WRefresh uuid token => uuid = x ∨ ∃ cl r, jwt_Parse (ja_SigningKey ja) (unix now) token = Ok cl ∧
                              cl_strings cl !! "refresh_uuid" = Some r ∧ (r = x ∨ head (split r "++") = Some x)
  | WCaptcha id _ | WVerify _ id _ => id = wrapJwtKey ja x
  | WFaults _ _ => False
  end.

Lemma wrap_inj x y : wrapJwtKey ja x = wrapJwtKey ja y → x = y.
Proof. apply (inj (String.append (ja_RedisKeyPrefix ja))). Qed.
Lemma id_keys' x n : wrapIdTokenKey n ≠ wrapJwtKey ja x.
Proof. intros H. by apply (id_keys x n). Qed.
Lemma fail_keys' x n : fail_key n ≠ wrapJwtKey ja x.
Proof. intros H. by apply (fail_keys x n). Qed.
Lemma wrap_ne x y : x ≠ y → wrapJwtKey ja x ≠ wrapJwtKey ja y.
Proof. by intros Hn ?%wrap_inj. Qed.

(** An identifier of an access token has no plus; those of refresh tokens do. *)
Definition is_uuid (x : string) : Prop := str_forall (char_neb "+"%char) x = true.
Lemma uuid_ne x a b : is_uuid x → a +:+ "++" +:+ b ≠ x.
Proof.
  unfold is_uuid. intros Hx <-. rewrite str_forall_app in Hx. by bool_prop.
Qed.

Lemma createTokens_Ok key i uuid now td :
  createTokens ja key i uuid now = Ok td →
  td_AccessUuid td = uuid ∧ td_RefreshUuid td = uuid +:+ "++" +:+ i ∧
  td_AtExpires td = unix (now + i64 (minute * ja_AccessExpired ja)) ∧
  jwt_SignedString key (mkClaims {[ "access_uuid" := uuid; "user_identity" := i ]} (td_AtExpires td)) = Ok (td_AccessToken td).
Proof. unfold createTokens. intros H. repeat case_match; simplify_eq/=. done. Qed.

(** New sessions, with the relation of the keys of others. *)
Definition others_stand (R : relation entry) (x : string) : Prop := ∀ now i td,
  td_AccessUuid td ≠ x → td_RefreshUuid td ≠ x → key_rel R (wrapJwtKey ja x) (createAuth ja now i td).
#[local] Hint Resolve id_keys' fail_keys' wrap_ne uuid_ne : web.

(** Without the limit to one login they stay; with it they may be ended. *)
Lemma others_stay x : ja_SingleLogin ja = false → others_stand eq x.
Proof. intros single now i td H1 H2. unfold createAuth. rewrite single. kkeep. Qed.
Lemma others_gone x : others_stand gone x.
Proof. intros now i td H1 H2. unfold createAuth. kkeep. Qed.

Section kept.
Context (R : relation entry) `{!PreOrder R} (x : string) (Hx : is_uuid x) (Hauth : others_stand R x).

Lemma start_session_rel now uuid i : uuid ≠ x → key_rel R (wrapJwtKey ja x) (start_session ja now uuid i).
Proof.
  intros Hu. unfold start_session. destruct (createTokens _ _ _ _ _) as [td|] eqn:E.
  - apply createTokens_Ok in E as (Ha & Hr & _).
    change (key_rel R (wrapJwtKey ja x) (wdangerous (createAuth ja now i td);; mret td)). unfold wdangerous, or_answer. kkeep.
    apply Hauth; [by rewrite Ha|]. rewrite Hr. by apply uuid_ne.
  - by intros w.
Qed.

Lemma fetchAuth_rel now k y : key_rel R k (fetchAuth ja now y).
Proof. unfold fetchAuth, redis_get. kkeep. Qed.
Lemma fetchIdToken_rel now k n : key_rel R k (fetchIdToken now n).
Proof. unfold fetchIdToken, redis_get. kkeep. Qed.
#[local] Hint Resolve fetchAuth_rel fetchIdToken_rel start_session_rel : web.

Lemma PassLogin_rel now username pass : key_rel R (wrapJwtKey ja x) (PassLogin pc now username pass).
Proof.
  unfold PassLogin, reachLoginFailCount, incrLoginFailCount, ignored. kkeep.
Qed.
#[local] Hint Resolve PassLogin_rel : web.

Lemma CaptchaVerify_rel now k id value : key_rel R k (redis_Del [id]) → key_rel R k (CaptchaVerify now id value).
Proof. intros Hd. unfold CaptchaVerify, CaptchaGet, redis_get, ignored. kkeep. Qed.

Lemma loginPost_rel made now rand uuid username password cid vv :
  uuid ≠ x → key_rel R (wrapJwtKey ja x) (redis_Del [cid]) →
  key_rel R (wrapJwtKey ja x) (loginPost pc ja cf lc made now rand uuid username password cid vv).
Proof.
  intros Hu Hd. pose proof (CaptchaVerify_rel now _ cid vv Hd). unfold loginPost, wdangerous, or_answer. kkeep.
Qed.

Lemma extractTokenMetadata_rel now k header : key_rel R k (extractTokenMetadata ja now header).
Proof. unfold extractTokenMetadata. kkeep. Qed.
End kept.
#[local] Hint Resolve id_keys' fail_keys' wrap_ne uuid_ne fetchAuth_rel fetchIdToken_rel start_session_rel : web.

(** What the metadata of a request tell. *)
Lemma extractTokenMetadata_Val now header w w' m :
  extractTokenMetadata ja now header w = (w', Val m) →
  ∃ cl, verifyToken (ja_SigningKey ja) now (extractToken header) = Ok cl ∧ cl_strings cl !! "access_uuid" = Some (ad_AccessUuid m).
Proof.
  unfold extractTokenMetadata. intros (cl & w1 & H1 & H2)%bind_Val. exists cl.
  destruct (verifyToken _ _ _) as [c|] eqn:E; simpl in H1; [|done]. unfold mret, web_ret in H1. simplify_eq. split; [done|].
  destruct (cl_strings cl !! "access_uuid"); [|done]. apply bind_Val in H2 as (v & w2 & _ & H2).
  destruct v as [v|]; [|done]. destruct v; [done|]. destruct (cl_strings cl !! "user_identity"); [|done].
  unfold mret, web_ret in H2. by simplify_eq/=.
Qed.

Section kept2.
Context (R : relation entry) `{!PreOrder R} (x : string) (Hx : is_uuid x) (Hauth : others_stand R x).

Lemma logoutPost_rel now header user w :
  (∀ cl, verifyToken (ja_SigningKey ja) now (extractToken header) = Ok cl → cl_strings cl !! "access_uuid" = Some x →
         key_rel R (wrapJwtKey ja x) (redis_Del [wrapJwtKey ja x])) →
  R (w_redis w !! wrapJwtKey ja x) (w_redis (fst (logoutPost ja logout_addr now header user w)) !! wrapJwtKey ja x).
Proof.
  intros Hd. unfold logoutPost. set (K := λ metadata, _ : web string).
  pose proof (extractTokenMetadata_rel R now (wrapJwtKey ja x) header w) as H1.
  unfold mbind at 1, web_bind at 1. unfold or_answer at 1, mbind at 1, web_bind at 1, attempt at 1.
  destruct (extractTokenMetadata ja now header w) as [w1 [m| | |]] eqn:E; simpl in H1 |- *; try done.
  etrans; [exact H1|]. apply extractTokenMetadata_Val in E as (cl & Hv & Hu). subst K. cbn beta.
  assert (key_rel R (wrapJwtKey ja x) (redis_Del [wrapJwtKey ja (ad_AccessUuid m)])) as Hdel.
  { destruct (decide (ad_AccessUuid m = x)) as [Heq|Hne]; [rewrite Heq in *; by apply (Hd cl)|].
    apply kr_Del1; [done|]. by apply wrap_ne. }
  refine ((_ : key_rel R (wrapJwtKey ja x) _) w1). unfold or_answer, deleteTokens, deleteIdToken, ignored. kkeep.
Qed.

Lemma split_head r sep : head (split r sep) = Some (default "" (head (split r sep))).
Proof. pose proof (split_nonempty r sep). by destruct (split r sep). Qed.

Lemma refreshPost_rel now uuid token :
  uuid ≠ x →
  (∀ cl r, jwt_Parse (ja_SigningKey ja) (unix now) token = Ok cl → cl_strings cl !! "refresh_uuid" = Some r →
           r = x ∨ head (split r "++") = Some x → key_rel R (wrapJwtKey ja x) (redis_Del [wrapJwtKey ja x])) →
  key_rel R (wrapJwtKey ja x) (refreshPost pc ja now uuid token).
Proof.
  intros Hu Hd. unfold refreshPost. destruct (jwt_Parse _ _ token) as [cl|] eqn:Ep; [|by kkeep].
  destruct (cl_strings cl !! "refresh_uuid") as [r|] eqn:Er; [|by kkeep].
  assert (∀ y, r = y ∨ head (split r "++") = Some y → key_rel R (wrapJwtKey ja x) (deleteAuth ja y)) as Hdel.
  { intros y Hy. destruct (decide (y = x)) as [Heq|Hne]; [rewrite Heq in *; by apply (Hd cl r)|].
    apply kr_Del1; [done|]. by apply wrap_ne. }
  pose proof (Hdel _ (or_introl eq_refl)) as H1. pose proof (Hdel _ (or_intror (split_head r "++"))) as H2.
  unfold or_answer, ignored, saveIdToken. kkeep.
Qed.
End kept2.

(** An event that is not about a session leaves it as it is. *)
Lemma handle_kept x now e w :
  ja_SingleLogin ja = false → is_uuid x → ¬ touches x now e → w_redis (handle now e w) !! wrapJwtKey ja x = w_redis w !! wrapJwtKey ja x.
Proof.
  intros single Hx Ht. pose proof (others_stay x single) as Hauth. symmetry.
  destruct e as [made rand uuid name pass cid vv|header user|uuid token|id value|made id value|fs ds]; simpl in *.
  - apply loginPost_rel; [apply _|done|done|naive_solver|]. apply kr_Del1; [apply _|naive_solver].
  - apply logoutPost_rel; [apply _|done|]. intros cl Hv Hu. destruct Ht. by exists cl.
  - apply refreshPost_rel; [apply _|done|done|naive_solver|]. intros cl r Hp Hr Hor. destruct Ht. right. by exists cl, r.
  - by apply (kr_Set eq).
  - refine ((_ : key_rel eq (wrapJwtKey ja x) _) w). unfold captchaVerify. kkeep. apply CaptchaVerify_rel; [apply _|].
    by apply kr_Del1; [apply _|].
  - done.
Qed.

(** A session that is not made is not there. *)
Lemma handle_gone x now e w :
  is_uuid x → ¬ makes x e → dead (w_redis w !! wrapJwtKey ja x) → dead (w_redis (handle now e w) !! wrapJwtKey ja x).
Proof.
  intros Hx Hm Hnone. pose proof (others_gone x) as Hauth.
  cut (gone (w_redis w !! wrapJwtKey ja x) (w_redis (handle now e w) !! wrapJwtKey ja x)).
  { by intros [->|?]. }
  destruct e as [made rand uuid name pass cid vv|header user|uuid token|id value|made id value|fs ds]; simpl in *.
  - apply loginPost_rel; [apply _|done|done|done|]. apply kr_Del_gone.
  - apply logoutPost_rel; [apply _|done|]. intros. apply kr_Del_gone.
  - apply refreshPost_rel; [apply _|done|done|done|]. intros. apply kr_Del_gone.
  - by apply (kr_Set gone).
  - refine ((_ : key_rel gone (wrapJwtKey ja x) _) w). unfold captchaVerify. kkeep. apply CaptchaVerify_rel; [apply _|].
    apply kr_Del_gone.
  - by left.
Qed.

Lemma run_kept x l w :
  ja_SingleLogin ja = false → is_uuid x → Forall (λ '(now, e), ¬ touches x now e) l → w_redis (run l w) !! wrapJwtKey ja x = w_redis w !! wrapJwtKey ja x.
Proof.
  intros single Hx Hl. revert w. induction Hl as [|[now e] l He Hl IH]; intros w; simpl; [done|].
  etrans; [apply IH|]. by apply handle_kept.
Qed.
Lemma run_gone x l w :
  is_uuid x → Forall (λ '(_, e), ¬ makes x e) l → dead (w_redis w !! wrapJwtKey ja x) → dead (w_redis (run l w) !! wrapJwtKey ja x).
Proof.
  intros Hx Hl. revert w. induction Hl as [|[now e] l He Hl IH]; intros w Hw; simpl; [done|]. by apply IH, handle_gone.
Qed.

(** *** A session is made *)

Lemma itoa_no_minus z : 0 ≤ z → str_forall (char_neb "-"%char) (itoa z) = true.
Proof.
  intros Hz. unfold itoa. assert (∃ d, Z.to_int z = Decimal.Pos d) as [d ->] by (destruct z; [..|done]; eexists; reflexivity).
  simpl. destruct d; try done; simpl; induction d; simpl; done.
Qed.

Lemma start_session_Val now uuid i w w' td :
  ja_SingleLogin ja = false → is_uuid uuid → start_session ja now uuid i w = (w', Val td) →
  createTokens ja (ja_SigningKey ja) i uuid now = Ok td ∧
  ∃ old, w_redis w' !! wrapJwtKey ja uuid = Some (RStr i, expiry now (td_AtExpires td * second - now) old).
Proof.
  intros single Hx. unfold start_session. intros (td' & w1 & H1%or_answer_Val & (z2 & w2 & H2%or_answer_Val & E)%bind_Val)%bind_Val.
  unfold mret, web_ret in E. injection E as -> ->.
  destruct (createTokens _ _ _ _ _) as [td''|] eqn:Et; [|done]. simpl in H1. unfold mret, web_ret in H1. injection H1 as -> ->.
  split; [done|]. apply createTokens_Ok in Et as (Ha & Hr & _). unfold createAuth in H2. rewrite single in H2.
  destruct (split i "-" !! 1%nat); [|done].
  apply bind_Val in H2 as (z3 & w3 & _ & H2). apply bind_Val in H2 as (z4 & w4 & H4 & H2).
  apply bind_Val in H2 as (z5 & w5 & H5 & [= E5]); subst w5. apply command_Val in H4 as (r & [= <-] & Hr4). rewrite Ha in *.
  pose proof (kr_Set eq (wrapJwtKey ja uuid) now (wrapJwtKey ja (td_RefreshUuid td)) i (td_RtExpires td * second - now)) as Hk.
  assert (wrapJwtKey ja (td_RefreshUuid td) ≠ wrapJwtKey ja uuid) as Hne by (apply wrap_ne; rewrite Hr; by apply uuid_ne).
  specialize (Hk Hne w4). rewrite H5 in Hk. simpl in Hk. rewrite <- Hk, Hr4, lookup_insert_eq. by eexists.
Qed.

Lemma loginPost_Val made now rand uuid username password cid vv w w' u td :
  loginPost pc ja cf lc made now rand uuid username password cid vv w = (w', Val (u, td)) →
  ∃ w1, start_session ja now uuid (user_identity u) w1 = (w', Val td).
Proof.
  unfold loginPost.
  intros (z1 & w1 & _ & (p & w2 & _ & (u' & w3 & _ & (td' & w4 & H4 & E)%bind_Val)%bind_Val)%bind_Val)%bind_Val.
  unfold mret, web_ret in E. injection E as -> -> ->. by exists w3.
Qed.

(** *** A session is used *)

(** The headers of a request with a token. *)
Definition bearer (token key : string) : string := if String.eqb key "Authorization" then "Bearer " +:+ token else "".

Lemma extractToken_bearer token : extractToken ("Bearer " +:+ token) = token.
Proof. unfold extractToken. simpl. by destruct token. Qed.

Lemma command_clean {A} (f : redis → result (redis * A)) w :
  w_faults w = [] → command f w = match f (w_redis w) with
                                  | Ok (r, a) => (w <| w_redis := r |>, Val a)
                                  | Err e => (w, Failed e)
                                  end.
Proof. intros Hf. unfold command. rewrite Hf. destruct w as [d r fs]; simpl in *. subst. by destruct (f r) as [[]|]. Qed.

Lemma fetchAuth_clean now x w :
  w_faults w = [] → fetchAuth ja now x w = match live now (w_redis w) (wrapJwtKey ja x) with
                                           | Some (RStr s) => (w, Val s)
                                           | Some (RSet _) => (w, Failed WRONGTYPE)
                                           | None => (w, Failed "redis: nil")
                                           end.
Proof.
  intros Hf. unfold fetchAuth, redis_get, redis_Get, mbind, web_bind. rewrite command_clean by done.
  destruct w as [d r fs]. simpl. destruct (live now r _) as [[]|]; done.
Qed.

Definition token_path (ta : TokenAuth) : Prop := ta_HeaderUserTokenKey ta ≠ "Authorization".

Lemma extractTokenMetadata_clean now header w :
  w_faults w = [] →
  extractTokenMetadata ja now header w =
    (w, match verifyToken (ja_SigningKey ja) now (extractToken header) with
        | Err e => Failed e
        | Ok cl =>
            match cl_strings cl !! "access_uuid" with
            | None => Failed "failed to parse access_uuid from jwt"
            | Some x =>
                match live now (w_redis w) (wrapJwtKey ja x) with
                | Some (RStr s) => if String.eqb s "" then Failed "unauthorized"
                                   else match cl_strings cl !! "user_identity" with
                                        | None => Crashed
                                        | Some i => Val (mkAccessDetails x i)
                                        end
                | _ => Failed "unauthorized"
                end
            end
        end).
Proof.
  intros Hf. unfold extractTokenMetadata. destruct (verifyToken _ _ _) as [cl|e]; [|done].
  change (returned (Ok cl)) with (mret cl : web claims). unfold mbind at 1, web_bind at 1. simpl.
  destruct (cl_strings cl !! "access_uuid") as [x|]; [|done].
  unfold mbind, web_bind, attempt. rewrite fetchAuth_clean by done.
  destruct (live _ _ _) as [[s|]|]; [|done..]. destruct s; [done|]. simpl. by destruct (cl_strings cl !! "user_identity").
Qed.

(** The answer to a request with a token. *)
Lemma tokenAuth_bearer ta utc now token w :
  token_path ta → w_faults w = [] →
  snd (tokenAuth ja ta utc now (bearer token)) w =
    match extractTokenMetadata ja now ("Bearer " +:+ token) w with
    | (w, Val m) =>
        match live now (w_redis w) (wrapJwtKey ja (ad_AccessUuid m)) with
        | Some (RStr identity) =>
            match splitn2 identity "-" with
            | [i; name] => match parse_int i with Some userid => (w, Val (userid, name)) | None => (w, Answered 401 "unauthorized") end
            | _ => (w, Answered 401 "unauthorized")
            end
        | _ => (w, Answered 401 "unauthorized")
        end
    | (w, Failed _) => (w, Answered 401 "unauthorized")
    | (w, Answered c s) => (w, Answered c s)
    | (w, Crashed) => (w, Crashed)
    end.
Proof.
  intros Hta Hf. unfold tokenAuth, bearer.
  assert (String.eqb (if String.eqb (ta_HeaderUserTokenKey ta) "" then "X-User-Token" else ta_HeaderUserTokenKey ta) "Authorization" = false) as ->.
  { destruct (String.eqb (ta_HeaderUserTokenKey ta) ""); [done|]. by apply String.eqb_neq. }
  change (String.eqb "" "") with true. change (String.eqb "Authorization" "Authorization") with true. cbv iota.
  replace (snd (if ta_Enable ta then _ else _)) with (snd (utc, metadata ← or_answer 401 (λ _, "unauthorized") (extractTokenMetadata ja now ("Bearer " +:+ token));
    userIdentity ← or_answer 401 (λ _, "unauthorized") (fetchAuth ja now (ad_AccessUuid metadata));
    match splitn2 userIdentity "-" with
    | [i; name] => match parse_int i with None => answer 401 "unauthorized" | Some userid => mret (userid, name) end
    | _ => answer 401 "unauthorized"
    end)) by by destruct (ta_Enable ta).
  simpl. rewrite extractTokenMetadata_clean by done. unfold or_answer, mbind, web_bind, attempt.
  rewrite extractTokenMetadata_clean by done. set (o := match verifyToken _ _ _ with Ok _ => _ | Err _ => _ end).
  destruct o as [m| | |]; try done. simpl. rewrite fetchAuth_clean by done.
  destruct (live _ _ _) as [[s|]|]; try done. simpl. destruct (splitn2 s "-") as [|i [|name [|]]]; try done. by destruct (parse_int i).
Qed.

Lemma unix_lt now t : now < t * second → unix now < t.
Proof. intros H. apply Z.div_lt_upper_bound; unfold second in *; lia. Qed.

(** C33. Where users may log in more than once (no [SingleLogin]), a session lives as long as
    configured, to within a second: whatever other logins, logouts, refreshes and captchas
    were served since, and whichever of their commands failed, its token authenticates its
    user until it expires and is refused from then on, while commands work again.  The other
    requests are those that are not about the session ([touches]): not a logout or refresh
    with its own tokens, no new session with its identifier, and no captcha whose id is the
    key of the session.  Fixed tokens come in another header ([token_path]). *)
Theorem session_lifecycle made t0 rand uuid username password cid vv w0 w1 u td l :
  ja_SingleLogin ja = false → is_uuid uuid → loginPost pc ja cf lc made t0 rand uuid username password cid vv w0 = (w1, Val (u, td)) →
  in_i64 (Usr.Id u) → 0 ≤ Usr.Id u → 1 ≤ ja_AccessExpired ja ≤ 10 ^ 6 →
  Forall (λ '(now, e), ¬ touches uuid now e) l → w_faults (run l w1) = [] →
  ∃ ex, t0 + minute * ja_AccessExpired ja - second - 10 ^ 6 < ex ≤ t0 + minute * ja_AccessExpired ja ∧
    ∀ ta utc now, token_path ta →
      snd (tokenAuth ja ta utc now (bearer (td_AccessToken td))) (run l w1) =
        (run l w1, if now <? ex then Val (Usr.Id u, Usr.Username u) else Answered 401 "unauthorized").
Proof.
  intros single Hx (w2 & Hs)%loginPost_Val Hid Hpos Hexp Hl Hf.
  apply start_session_Val in Hs as (Ht & old & Hlook); [|done|done]. apply createTokens_Ok in Ht as (_ & _ & Hat & Hsign).
  rewrite <- (run_kept uuid l) in Hlook by done. set (w := run l w1) in *. clearbody w.
  assert (i64 (minute * ja_AccessExpired ja) = minute * ja_AccessExpired ja) as Hi.
  { apply i64_id. unfold in_i64, minute. lia. }
  rewrite Hi in Hat. set (T := t0 + minute * ja_AccessExpired ja) in *.
  assert (td_AtExpires td * second ≤ T < td_AtExpires td * second + second) as Hb.
  { rewrite Hat. unfold unix. pose proof (Z.mul_div_le T second). pose proof (Z.mod_pos_bound T second).
    pose proof (Z.div_mod T second). unfold second in *. lia. }
  set (dur := td_AtExpires td * second - t0) in *. set (ex := t0 + Z.max 1 (dur / 10 ^ 6) * 10 ^ 6).
  assert (10 ^ 6 <= dur) as Hdur by (unfold dur, T, minute, second in *; lia).
  assert (dur - 10 ^ 6 < Z.max 1 (dur / 10 ^ 6) * 10 ^ 6 ≤ dur) as He.
  { pose proof (Z.div_mod dur (10 ^ 6)). pose proof (Z.mod_pos_bound dur (10 ^ 6)).
    pose proof (Z.div_le_lower_bound dur (10 ^ 6) 1). lia. }
  exists ex. split; [unfold ex, dur in *; unfold second in *; lia|]. intros ta utc now Hta.
  assert (expiry t0 dur old = Some ex) as Hex by (unfold expiry; by rewrite (proj2 (Z.ltb_lt 0 dur)) by lia).
  rewrite Hex in Hlook. assert (live now (w_redis w) (wrapJwtKey ja uuid) = if now <? ex then Some (RStr (user_identity u)) else None) as Hlive.
  { unfold live. rewrite Hlook. done. }
  rewrite tokenAuth_bearer, extractTokenMetadata_clean, extractToken_bearer by done. unfold verifyToken.
  rewrite (proj2 (String.eqb_neq _ _) (jwt_nonempty _ _ _ Hsign)), (jwt_round _ _ _ Hsign). simpl.
  destruct (Z.ltb_spec now ex) as [Hnow|Hnow].
  - rewrite (proj2 (Z.leb_le _ _)) by (apply Z.lt_le_incl, unix_lt; unfold ex, dur in *; lia).
    simpl. rewrite lookup_insert_eq, Hlive. unfold user_identity.
    destruct (itoa (Usr.Id u) +:+ "-" +:+ Usr.Username u) as [|c s] eqn:Es; [by destruct (itoa (Usr.Id u))|].
    simpl. rewrite lookup_insert_ne, lookup_singleton_eq by done. simpl. rewrite Hlive. unfold user_identity.
    change "-" with (String "-" ""). rewrite splitn2_app by by apply itoa_no_minus. by rewrite parse_int_itoa.
  - destruct (unix now <=? td_AtExpires td); [|done]. simpl. by rewrite lookup_insert_eq, Hlive.
Qed.

(** *** A session is ended *)

(** A logout with a token of the session [x], or a refresh with its refresh token
    while commands work. *)
Definition revokes (x : string) (now : Z) e (w : world) : Prop :=
  match e with
  | WLogout header user =>
      (∃ cl, verifyToken (ja_SigningKey ja) now (extractToken header) = Ok cl ∧ cl_strings cl !! "access_uuid" = Some x) ∧
      ∃ addr, snd (logoutPost ja logout_addr now header user w) = Val addr
  | WRefresh uuid token =>
      (∃ cl i, jwt_Parse (ja_SigningKey ja) (unix now) token = Ok cl ∧ cl_strings cl !! "refresh_uuid" = Some (x +:+ "++" +:+ i)) ∧
      w_faults w = [] ∧ ∃ td, snd (refreshPost pc ja now uuid token w) = Val td
  | _ => False
  end.

(** What is deleted stays deleted. *)
Lemma stays_gone {A} (m : web A) k w : key_rel gone k m → dead (w_redis w !! k) → dead (w_redis (fst (m w)) !! k).
Proof. intros Hm Hw. destruct (Hm w) as [H|H]; [by rewrite H|done]. Qed.
Lemma Del_Val k w w' a : redis_Del [k] w = (w', Val a) → dead (w_redis w' !! k).
Proof. intros (r & [= <- <-] & ->)%command_Val. simpl. by rewrite lookup_delete_eq. Qed.

Lemma logout_revokes x now header user w :
  is_uuid x → revokes x now (WLogout header user) w → dead (w_redis (handle now (WLogout header user) w) !! wrapJwtKey ja x).
Proof.
  intros Hx [(cl & Hv & Hu) [addr Ha]]. simpl. destruct (logoutPost ja logout_addr now header user w) as [w' o] eqn:E. simpl in *. subst o.
  unfold logoutPost in E. apply bind_Val in E as (m & w1 & H1%or_answer_Val & E).
  apply extractTokenMetadata_Val in H1 as (cl' & Hv' & Hu'). assert (ad_AccessUuid m = x) as Hm by congruence.
  apply bind_Val in E as (z2 & w2 & H2%or_answer_Val & E). unfold deleteTokens in H2. rewrite Hm in H2.
  apply bind_Val in H2 as (z3 & w3 & H3%Del_Val & H2).
  assert (dead (w_redis w2 !! wrapJwtKey ja x)) as Hn.
  { pose proof (stays_gone _ _ _ (kr_Del_gone (wrapJwtKey ja x) [wrapJwtKey ja (x +:+ "++" +:+ ad_UserIdentity m)]) H3) as H. by rewrite H2 in H. }
  match type of E with ?m w2 = _ => assert (key_rel gone (wrapJwtKey ja x) m) as Hk by (unfold ignored, deleteIdToken; kkeep) end.
  apply (stays_gone _ _ _ Hk) in Hn. by rewrite E in Hn.
Qed.

Lemma split_uuid x i : is_uuid x → head (split (x +:+ "++" +:+ i) "++") = Some x.
Proof.
  intros Hx. unfold split. change "++" with (String "+" "+"). rewrite split_from_word by done. by rewrite split_from_sep.
Qed.

Lemma refresh_revokes x now uuid token w :
  is_uuid x → uuid ≠ x → revokes x now (WRefresh uuid token) w → dead (w_redis (handle now (WRefresh uuid token) w) !! wrapJwtKey ja x).
Proof.
  intros Hx Hne [(cl & i & Hp & Hr) [Hf [td Ht]]]. simpl. destruct (refreshPost pc ja now uuid token w) as [w' o] eqn:E. simpl in *. subst o.
  unfold refreshPost in E. rewrite Hp, Hr, split_uuid in E by done. simpl in E.
  apply bind_Val in E as (v & w1 & H1 & E). unfold attempt in H1. rewrite fetchAuth_clean in H1 by done.
  assert (w1 = w) as -> by (destruct (live _ _ _) as [[]|]; by simplify_eq).
  destruct v as [v|]; [|done]. destruct v as [|c v]; [done|]. destruct (cl_strings cl !! "user_identity") as [ui|]; [|done].
  destruct (parse_int _) as [userid|]; [|done]. apply bind_Val in E as (o & w2 & H2%or_answer_Val & E).
  assert (w_faults w2 = []) as Hf2 by (unfold in_db in H2; destruct (UserGetById pc userid (w_db w)); simplify_eq; done).
  destruct o; [|done]. apply bind_Val in E as (z3 & w3 & H3%or_answer_Val & E).
  unfold deleteAuth, redis_Del in H3. rewrite command_clean in H3 by done. simplify_eq.
  apply bind_Val in E as (z4 & w4 & H4 & E).
  unfold ignored, deleteAuth in H4. unfold mbind at 1, web_bind at 1, attempt at 1 in H4.
  unfold redis_Del in H4. rewrite command_clean in H4 by done. simpl in H4. unfold mret, web_ret in H4.
  assert (dead (w_redis w4 !! wrapJwtKey ja x)) as Hn by (simplify_eq; simpl; by rewrite lookup_delete_eq).
  match type of E with ?m w4 = _ => assert (key_rel gone (wrapJwtKey ja x) m) as Hk end.
  { pose proof (others_gone x). unfold ignored, saveIdToken. kkeep. }
  apply (stays_gone _ _ _ Hk) in Hn. by rewrite E in Hn.
Qed.

(** C34. Once a session was logged out, or was refreshed while commands worked, its access tokens
    are refused, whatever is served afterwards and whichever commands of it fail, with
    [SingleLogin] or without, as long as no new session gets the same identifier and no
    captcha is made whose id is the key of the session ([makes]), and commands work when the
    token is used. *)
Theorem session_revoked x t0 e w0 l ta utc now token :
  is_uuid x → revokes x t0 e w0 → Forall (λ '(_, e), ¬ makes x e) ((t0, e) :: l) →
  let w := run ((t0, e) :: l) w0 in
  w_faults w = [] → token_path ta →
  (∀ cl, verifyToken (ja_SigningKey ja) now token = Ok cl → cl_strings cl !! "access_uuid" = Some x) →
  snd (tokenAuth ja ta utc now (bearer token)) w = (w, Answered 401 "unauthorized").
Proof.
  intros Hx Hrev [Hmk Hl]%Forall_cons w Hf Hta Hcl.
  assert (dead (w_redis w !! wrapJwtKey ja x)) as Hn.
  { apply (run_gone x l (handle t0 e w0)); [done|done|].
    destruct e as [| |uuid tok| | |]; try done; [by apply logout_revokes|by apply refresh_revokes]. }
  rewrite tokenAuth_bearer, extractTokenMetadata_clean, extractToken_bearer by done.
  destruct (verifyToken _ _ token) as [cl|]; [|done]. rewrite (Hcl cl eq_refl). unfold live.
  destruct (w_redis w !! wrapJwtKey ja x) as [[[s0|l0] ex]|]; [done| |done]. by destruct (is_live now ex).
Qed.
End lifecycle.

(** ** Failed logins *)

Lemma bind_eq {A B} (m : web A) (f : A → web B) w w' a : m w = (w', Val a) → (m ≫= f) w = f a w'.
Proof. unfold mbind, web_bind. by intros ->. Qed.

Section lockout.
Context `{SL : StrLib, UL : UserLib, CR : Crypto, UC : UnicodeCase, GR : GoRange, !Json (gmap string string)}.
Context (pc : phone_config) (name : string) (seconds count : Z).
Implicit Types (u : User) (w : world).

(** The configured limit holds, and nothing fails. *)
Record limited (w : world) : Prop := {
  li_db : clean (w_db w);
  li_redis : w_faults w = [];
  li_config : ∃ val, db_configs (w_db w) !! "login_fail_count" = Some val ∧ fail_limit val = Some (seconds, count)
}.
Context (Hseconds : 0 < seconds ≤ 10 ^ 9) (Hcount : 1 ≤ count < 2 ^ 63).

(** The user's password. *)
Definition right (d : pdb) (pass : string) : Prop :=
  ∃ u, UserGetByUsername pc name d = (d, Ok (Some u)) ∧ CryptoPass pass d = (d, Ok (Usr.Password u)).

(** [c] attempts failed so far, the last one at [prev]. *)
Definition counted (prev : option Z) (c : Z) (w : world) : Prop :=
  match prev with
  | None => c = 0 ∧ w_redis w !! fail_key name = None
  | Some p => 0 < c ∧ w_redis w !! fail_key name = Some (RStr (itoa c), Some (p + seconds * second))
  end.
Definition within (prev : option Z) (t : Z) : Prop :=
  match prev with None => True | Some p => p ≤ t < p + seconds * second end.

Lemma CryptoPass_clean pass d : clean d → ∃ s, CryptoPass pass d = (d, Ok s).
Proof.
  intros Hd. unfold CryptoPass, ConfigsGet, with_message, query, mbind, sql_bind. rewrite stmt_clean by done. by eexists.
Qed.

Lemma live_counted prev c t w :
  counted prev c w → within prev t →
  live t (w_redis w) (fail_key name) = if c =? 0 then None else Some (RStr (itoa c)).
Proof.
  unfold counted, within, live. destruct prev as [p|].
  - intros [Hc ->] Ht. simpl. rewrite (proj2 (Z.ltb_lt t (p + seconds * second))) by lia. by rewrite (proj2 (Z.eqb_neq c 0)) by lia.
  - by intros [-> ->] _.
Qed.

Lemma reach_counted prev c t w :
  limited w → counted prev c w → within prev t → 0 ≤ c ≤ count →
  reachLoginFailCount t name count w = (w, Val (count <=? c)).
Proof.
  intros [] Hc Ht Hr. unfold reachLoginFailCount, redis_Get, mbind, web_bind. rewrite command_clean by done.
  rewrite (live_counted prev c t w) by done. destruct (Z.eqb_spec c 0) as [->|].
  - rewrite (proj2 (Z.leb_gt count 0)) by lia. by destruct w.
  - simpl. rewrite parse_int_itoa by (unfold in_i64; lia). by destruct w.
Qed.

Lemma incr_counted prev c t w :
  limited w → counted prev c w → within prev t → 0 ≤ c < count →
  ∃ w', incrLoginFailCount t name seconds w = (w', Val tt) ∧ limited w' ∧ w_db w' = w_db w ∧ counted (Some t) (c + 1) w'.
Proof.
  intros [] Hc Ht Hr. assert (i64 (seconds * second) = seconds * second) as Hi by (apply i64_id; unfold in_i64, second; lia).
  assert (∀ old, expiry t (seconds * second) old = Some (t + seconds * second)) as Hex.
  { intros old. unfold expiry. rewrite (proj2 (Z.ltb_lt 0 (seconds * second))) by (unfold second; lia). do 2 f_equal.
    replace (seconds * second) with (seconds * 1000 * 10 ^ 6) by (unfold second; lia). rewrite Z.div_mul by lia. lia. }
  assert (∀ v, v = itoa (c + 1) → ∃ w', ignored (redis_Set t (fail_key name) v (i64 (seconds * second))) w = (w', Val tt) ∧
            limited w' ∧ w_db w' = w_db w ∧ counted (Some t) (c + 1) w') as Hset.
  { intros v ->. unfold ignored, redis_Set, mbind, web_bind, attempt. rewrite command_clean by done. simpl. rewrite Hi.
    eexists. split; [reflexivity|]. split; [by split|]. split; [done|]. simpl. split; [lia|].
    rewrite lookup_insert_eq. by rewrite Hex. }
  unfold incrLoginFailCount, redis_Get. unfold mbind at 1, web_bind at 1. unfold attempt at 1. rewrite command_clean by done.
  rewrite (live_counted prev c t w) by done. destruct w as [d r fs]. destruct (Z.eqb_spec c 0) as [->|]; simpl; [by apply Hset|].
  rewrite parse_int_itoa by (unfold in_i64; lia). apply Hset. by rewrite i64_id by (unfold in_i64; lia).
Qed.

(** One attempt. *)
Lemma PassLogin_spec prev c t pass w :
  limited w → counted prev c w → within prev t → 0 ≤ c ≤ count →
  (count ≤ c → PassLogin pc t name pass w = (w, Failed "reach login fail count")) ∧
  (c < count → right (w_db w) pass → ∃ u, PassLogin pc t name pass w = (w, Val u)) ∧
  (c < count → ¬ right (w_db w) pass → ∃ w', PassLogin pc t name pass w = (w', Failed "Username or password invalid") ∧
     limited w' ∧ w_db w' = w_db w ∧ counted (Some t) (c + 1) w').
Proof.
  intros Hlim Hc Ht Hr. pose proof Hlim as [Hd Hf (val & Hval & Hfl)].
  assert (w <| w_db := w_db w |> = w) as Hw by by destruct w.
  assert (∀ A (m : sql A) a, m (w_db w) = (w_db w, Ok a) → in_db m w = (w, Val a)) as Hin by (intros A m a Hm; unfold in_db; by rewrite Hm, Hw).
  unfold PassLogin. rewrite (bind_eq _ _ w w val); [|apply Hin; unfold ConfigsGet, with_message, query; rewrite stmt_clean by done; simpl; by rewrite Hval].
  rewrite Hfl. destruct (Z.leb_spec count c) as [Hge|Hlt].
  { split; [intros _|split; lia]. unfold mbind at 1, web_bind at 1. rewrite (bind_eq _ _ w w true); [done|].
    rewrite (reach_counted prev c t w) by done. by rewrite (proj2 (Z.leb_le _ _)). }
  split; [lia|].
  rewrite (bind_eq _ _ w w tt).
  2:{ rewrite (bind_eq _ _ w w false); [done|]. rewrite (reach_counted prev c t w) by done. by rewrite (proj2 (Z.leb_gt _ _)). }
  destruct (UserGet_clean pc (λ u, String.eqb (Usr.Username u) name) (w_db w) Hd) as (o & Ho & _).
  change (UserGetByUsername pc name (w_db w) = (w_db w, Ok o)) in Ho.
  destruct (CryptoPass_clean pass (w_db w) Hd) as (s & Hs).
  rewrite (bind_eq _ _ w w o) by by apply Hin. unfold right. setoid_rewrite Ho. setoid_rewrite Hs.
  assert (∃ w', (incrLoginFailCount t name seconds;; (wfail "Username or password invalid" : web User)) w
                 = (w', Failed "Username or password invalid") ∧ limited w' ∧ w_db w' = w_db w ∧ counted (Some t) (c + 1) w') as Hinv.
  { destruct (incr_counted prev c t w Hlim Hc Ht ltac:(lia)) as (w' & Hi & Hw'). exists w'. split; [|done].
    by rewrite (bind_eq _ _ _ _ _ Hi). }
  destruct o as [u|]; [|split; [by intros _ (u & [=] & _)|by intros _ _]].
  rewrite (bind_eq _ _ w w s) by by apply Hin. destruct (String.eqb_spec s (Usr.Password u)) as [->|Hne].
  - split; [intros _ _; by exists u|]. intros _ Hnot. destruct Hnot. by exists u.
  - split; [by intros _ (u' & [= <-] & [= ?])|by intros _ _].
Qed.

(** Attempts at their times, each within the window of the one before. *)
Definition logins (l : list (Z * string)) (w : world) : world := fold_left (λ w '(t, pass), fst (PassLogin pc t name pass w)) l w.
Fixpoint spaced (prev : option Z) (l : list (Z * string)) (t : Z) : Prop :=
  match l with [] => within prev t | (t1, _) :: l => within prev t1 ∧ spaced (Some t1) l t end.

Lemma logins_counted l prev c t w :
  limited w → counted prev c w → 0 ≤ c → c + Z.of_nat (length l) ≤ count → spaced prev l t →
  Forall (λ '(_, pass), ¬ right (w_db w) pass) l →
  ∃ prev', limited (logins l w) ∧ w_db (logins l w) = w_db w ∧ counted prev' (c + Z.of_nat (length l)) (logins l w) ∧ within prev' t.
Proof.
  revert prev c w. induction l as [|[t1 p] l IH]; intros prev c w Hlim Hc Hpos Hle Hs Hl; simpl in *.
  { exists prev. by rewrite Z.add_0_r. }
  destruct Hs as [Ht Hs]. apply Forall_cons in Hl as [Hp Hl].
  destruct (PassLogin_spec prev c t1 p w Hlim Hc Ht ltac:(lia)) as (_ & _ & Hfail).
  destruct (Hfail ltac:(lia) Hp) as (w' & -> & Hlim' & Hdb & Hc'). simpl.
  destruct (IH (Some t1) (c + 1) w' Hlim' Hc' ltac:(lia) ltac:(lia) Hs ltac:(by rewrite Hdb)) as (prev' & H1 & H2 & H3 & H4).
  exists prev'. split_and!; [done|congruence| |done]. by replace (c + Z.of_nat (S (length l))) with (c + 1 + Z.of_nat (length l)) by lia.
Qed.

(** C35. With a limit of [count] failures within a window of [seconds], and attempts one after the
    other during which no statement or command fails and nobody deletes the counter, a user
    whose attempts failed [count] times, each within the window of the one before, is
    locked out, right password or not, until the window of the last failure ends;
    with fewer failures the right password is accepted. *)
Theorem login_lockout l t pass w :
  limited w → w_redis w !! fail_key name = None → Forall (λ '(_, p), ¬ right (w_db w) p) l → spaced None l t →
  let w' := logins l w in
  (Z.of_nat (length l) = count → PassLogin pc t name pass w' = (w', Failed "reach login fail count")) ∧
  (Z.of_nat (length l) < count → right (w_db w) pass → ∃ u, PassLogin pc t name pass w' = (w', Val u)).
Proof.
  intros Hlim Hnone Hl Hs w'. destruct (decide (Z.of_nat (length l) ≤ count)) as [Hle|]; [|split; lia].
  destruct (logins_counted l None 0 t w Hlim) as (prev' & H1 & H2 & H3 & H4); [done|lia|done|done|done|].
  fold w' in H1, H2, H3. destruct (PassLogin_spec prev' _ t pass w' H1 H3 H4 ltac:(lia)) as (Hlock & Hok & _).
  rewrite H2 in Hok. split; [intros; apply Hlock; lia|intros; apply Hok; [lia|done]].
Qed.
End lockout.

(** ** What captchas and fixed tokens let through *)

Section gaps.
Context `{SL : StrLib, UL : UserLib, CR : Crypto, UC : UnicodeCase, GR : GoRange, !Json (gmap string string)}.
Context (pc : phone_config).

(** The empty answer to a captcha that was never made is right. *)
Lemma captcha_empty_accepted now id w :
  w_faults w = [] → live now (w_redis w) id = None → snd (CaptchaVerify now id "" w) = Val true.
Proof.
  intros Hf Hl. unfold CaptchaVerify, CaptchaGet, redis_get, redis_Get, mbind, web_bind, attempt.
  rewrite command_clean by done. by rewrite Hl.
Qed.

(** Answering a "captcha" whose id is the key of a counter, without logging in, ends
    the lock of its user. *)
Lemma captcha_unlocks now name v c w :
  w_faults w = [] → live now (w_redis w) (fail_key name) = Some (RStr c) →
  w_redis (fst (captchaVerify true now (fail_key name) v w)) !! fail_key name = None.
Proof.
  intros Hf Hl. unfold captchaVerify, CaptchaVerify, CaptchaGet, redis_get, redis_Get, ignored, redis_Del, mbind, web_bind, attempt.
  simpl. rewrite command_clean by done. rewrite Hl. simpl. rewrite command_clean by done. simpl. apply lookup_delete_eq.
Qed.

(** The cache of tokens only looks at their number. *)
Lemma token_cache_stale utc d :
  clean d → uc_statTotal utc = Z.of_nat (length (db_tokens d)) → syncUserTokens pc utc d = (d, Ok utc).
Proof.
  intros Hd Ht. unfold syncUserTokens, with_message, query, mbind, sql_bind. rewrite stmt_clean by done. simpl.
  unfold UTC_StatChanged. by rewrite Ht, Z.eqb_refl.
Qed.
End gaps.
