(* ===== verification/AlertRuleApi.v ===== *)
(** * The table of alert rules and its API

    The statements of [models/alert_rule.go], the conversion of Prometheus rules
    ([models/prom_alert_rule.go]), and the handlers of rules
    ([center/router/router_alert_rule.go]).  The rows are kept by id, with the fields
    that are not columns cleared; users, teams and business groups are the tables of
    [Users], and the statements of both fail as its list of faults says.  Reading a row
    ends in [DB2FE], which can panic; a panic of a handler is answered with status 500.
    Writing columns by their names is a parameter ([RuleColumns]). *)

From Stdlib Require Import Ascii.
From S2P Require Import Prelude GoStrings GoTime Json Models RuleModels RuleOps EventOps Filter Mute Relabel Dispatch Caches Senders Callbacks Users.
Open Scope string_scope.
Open Scope Z_scope.
Open Scope list_scope.

(** [UPDATE alert_rule SET column = value, ... WHERE id = ?] on a row: the new row, or the
    error of the database, as for a column that does not exist. *)
Class RuleColumns := { set_columns : list (string * iface) → AlertRule → result AlertRule }.

(** What the columns named leave alone, and what a text is stored as. *)
Class RuleColumnsLaws `{RuleColumns} := {
  columns_id cols r r' : set_columns cols r = Ok r' → "id" ∉ cols.*1 → Rule.Id r' = Rule.Id r;
  columns_callbacks cols r r' : set_columns cols r = Ok r' → "callbacks" ∉ cols.*1 → Rule.Callbacks r' = Rule.Callbacks r;
  columns_text s r r' : set_columns [("callbacks", IString s)] r = Ok r' → Rule.Callbacks r' = s
}.

(** ** The table *)

Record rdb := mkRdb {
  rd_perm : pdb;
  rd_rules : gmap Z AlertRule;
  rd_events : list AlertCurEvent;      (* alert_cur_event *)
  rd_nextid : Z
}.
#[global] Instance rdb_eta : Settable rdb := λ r, mkRdb (rd_perm r) (rd_rules r) (rd_events r) (rd_nextid r).

(** A row: the fields that are not columns ([gorm:"-"]) are lost. *)
Definition row_of (ar : AlertRule) : AlertRule :=
  ar <| Rule.DatasourceIdsJson := [] |> <| Rule.AlgoParamsJson := INil |> <| Rule.Severities := [] |>
     <| Rule.RuleConfigJson := INil |> <| Rule.EventRelabelConfig := [] |>
     <| Rule.EnableStimeJSON := "" |> <| Rule.EnableStimesJSON := [] |>
     <| Rule.EnableEtimeJSON := "" |> <| Rule.EnableEtimesJSON := [] |>
     <| Rule.EnableDaysOfWeekJSON := [] |> <| Rule.EnableDaysOfWeeksJSON := [] |>
     <| Rule.NotifyChannelsJSON := [] |> <| Rule.NotifyGroupsObj := [] |> <| Rule.NotifyGroupsJSON := [] |>
     <| Rule.CallbacksJSON := [] |> <| Rule.AppendTagsJSON := [] |> <| Rule.AnnotationsJSON := None |>
     <| Rule.ExtraConfigJSON := INil |> <| Rule.UUID := 0 |> <| Rule.CurEventCount := 0 |>
     <| Rule.UpdateByNickname := "" |>.

Definition rsql (A : Type) : Type := rdb → rdb * go (result A).
#[export] Instance rsql_ret : MRet rsql := λ A a d, (d, Ret (Ok a)).
#[export] Instance rsql_bind : MBind rsql := λ A B k m d,
  match m d with
  | (d, Ret (Ok a)) => k a d
  | (d, Ret (Err e)) => (d, Ret (Err e))
  | (d, Panic) => (d, Panic)
  end.
Definition rfail {A} (e : error) : rsql A := λ d, (d, Ret (Err e)).
Definition rpanic {A} : rsql A := λ d, (d, Panic).
Definition lift_go {A} (g : go A) : rsql A := λ d, (d, match g with Ret a => Ret (Ok a) | Panic => Panic end).
Definition lift_result {A} (r : result A) : rsql A := λ d, (d, Ret r).

(** A statement on the tables of users, and one on those of rules. *)
Definition on_perm {A} (m : sql A) : rsql A := λ d,
  let '(p, r) := m (rd_perm d) in (d <| rd_perm := p |>, Ret r).
Definition rstmt {A} (f : rdb → rdb * result A) : rsql A := λ d,
  let d' := d <| rd_perm := tick (rd_perm d) |> in
  match head (db_faults (rd_perm d)) with
  | Some (Some e) => (d', Ret (Err e))
  | _ => let '(d', r) := f d' in (d', Ret r)
  end.
Definition rquery {A} (f : rdb → A) : rsql A := rstmt (λ d, (d, Ok (f d))).
(** A statement whose error is not looked at. *)
Definition ignore_error {A} (m : rsql A) : rsql unit := λ d,
  match m d with (d, Panic) => (d, Panic) | (d, Ret _) => (d, Ret (Ok tt)) end.

(** All values, one after the other. *)
Fixpoint each {A B} (f : A → rsql B) (l : list A) : rsql (list B) :=
  match l with [] => mret [] | x :: l => y ← f x; ys ← each f l; mret (y :: ys) end.

(** A row with id 0 gets the next id, which is also written into the struct. *)
Definition insert_row (ar : AlertRule) (d : rdb) : rdb * result AlertRule :=
  let ar := if Rule.Id ar =? 0 then ar <| Rule.Id := rd_nextid d |> else ar in
  match rd_rules d !! Rule.Id ar with
  | Some _ => (d, Err "Duplicate entry")
  | None => (d <| rd_rules := <[Rule.Id ar := row_of ar]> (rd_rules d) |>
               <| rd_nextid := Z.max (rd_nextid d) (Rule.Id ar + 1) |>, Ok ar)
  end.

(** One statement for several rows inserts all of them or none. *)
Fixpoint insert_rows (ars : list AlertRule) (d : rdb) : rdb * result unit :=
  match ars with
  | [] => (d, Ok tt)
  | ar :: ars =>
      match insert_row ar d with
      | (_, Err e) => (d, Err e)
      | (d1, Ok _) => match insert_rows ars d1 with (_, Err e) => (d, Err e) | r => r end
      end
  end.
Definition InsertAlertRule (ars : list AlertRule) : rsql unit :=
  match ars with [] => mret tt | _ => rstmt (insert_rows ars) end.

(** Replacing the row of an id; a new id must be free. *)
Definition replace_row (id : Z) (row : AlertRule) (d : rdb) : rdb * result unit :=
  if Rule.Id row =? id then (d <| rd_rules := <[id := row]> (rd_rules d) |>, Ok tt)
  else match rd_rules d !! Rule.Id row with
       | Some _ => (d, Err "Duplicate entry")
       | None => (d <| rd_rules := <[Rule.Id row := row]> (delete id (rd_rules d)) |>, Ok tt)
       end.

Definition AlertRuleExists (id groupId : Z) (name : string) : rsql bool :=
  rquery (λ d, existsb (λ kr, negb (fst kr =? id) && (Rule.GroupId (snd kr) =? groupId) && String.eqb (Rule.Name (snd kr)) name)
                 (map_to_list (rd_rules d))).

(** The alerts of a rule that was deleted go too. *)
Definition delete_rule (bgid : option Z) (id : Z) : rsql unit :=
  gone ← rstmt (λ d,
    match rd_rules d !! id with
    | Some r => if match bgid with Some g => Rule.GroupId r =? g | None => true end
                then (d <| rd_rules := delete id (rd_rules d) |>, Ok true) else (d, Ok false)
    | None => (d, Ok false)
    end);
  if gone : bool
  then ignore_error (rstmt (λ d, (d <| rd_events := List.filter (λ e, negb (Event.RuleId e =? id)) (rd_events d) |>, Ok tt)))
  else mret tt.
Definition AlertRuleDels (ids : list Z) (bgid : option Z) : rsql unit := each (delete_rule bgid) ids;; mret tt.

Definition id_le (a b : Z * AlertRule) : Prop := fst a <= fst b.
#[export] Instance id_le_dec : RelDecision id_le := λ a b, Z_le_dec (fst a) (fst b).
Definition name_le (a b : AlertRule) : Prop := string_le (Rule.Name a) (Rule.Name b).
#[export] Instance name_le_dec : RelDecision name_le := λ a b, decide (string_le (Rule.Name a) (Rule.Name b)).

Section rules.
Context `{GR : GoRange, StrLib, CronLib, PromIface, RuleColumns}.
Context `{!Json iface, !Json (option (gmap string string)), !Json (list Z), !Json string}.
Context `{!Json RuleQuery, !Json PromRuleConfig, !Json HostRuleConfig, !Json relabel_part}.
(** Whether the ORM writes the new values into the struct an update is called on. *)
Context (updates_write_back : bool).
Implicit Types ar : AlertRule.

(** *** Reading *)

(** The rows that a condition selects, in the order of their ids, or by name. *)
Definition select_rows (p : AlertRule → bool) (d : rdb) : list AlertRule :=
  List.filter p (map snd (merge_sort id_le (map_to_list (rd_rules d)))).
Definition by_name (l : list AlertRule) : list AlertRule := merge_sort name_le l.

Definition DB2FE_all (rows : list AlertRule) : rsql (list AlertRule) := each (λ r, lift_go (AlertRule_DB2FE r)) rows.

Definition AlertRuleGets (groupId : Z) : rsql (list AlertRule) :=
  lst ← rquery (λ d, by_name (select_rows (λ r, Rule.GroupId r =? groupId) d)); DB2FE_all lst.

(** Without groups all rules, in the order of the table. *)
Definition AlertRuleGetsByBGIds (bgids : list Z) : rsql (list AlertRule) :=
  lst ← rquery (λ d, if (0 <? length bgids)%nat then by_name (select_rows (λ r, mem (Rule.GroupId r) bgids) d)
                     else select_rows (λ _, true) d);
  DB2FE_all lst.

Definition AlertRulesGetsBy (prods : list string) (query algorithm cluster : string) (cates : list string) (disabled : Z) :
    rsql (list AlertRule) :=
  lst ← rquery (select_rows (λ r,
    ((length prods =? 0)%nat || smem (Rule.Prod r) prods) &&
    forallb (contains (Rule.AppendTags r)) (fields query) &&
    (String.eqb algorithm "" || String.eqb (Rule.Algorithm r) algorithm) &&
    (String.eqb cluster "" || contains (Rule.Cluster r) cluster) &&
    ((length cates =? 0)%nat || smem (Rule.Cate r) cates) &&
    ((disabled =? -1) || (Rule.Disabled r =? disabled))));
  DB2FE_all lst.

Definition AlertRuleGetById (id : Z) : rsql (option AlertRule) :=
  row ← rquery (λ d, rd_rules d !! id);
  match row with
  | None => mret None
  | Some r => r ← lift_go (AlertRule_DB2FE r); mret (Some r)
  end.

Definition AlertRuleGetsByIds (ids : list Z) : rsql (list AlertRule) :=
  lst ← rquery (select_rows (λ r, mem (Rule.Id r) ids)); DB2FE_all lst.

(** *** Writing *)

(** The struct after the insertion. *)
Definition Add ar (now : Z) : rsql AlertRule :=
  match AlertRule_Verify ar with
  | (_, Some err) => rfail err
  | (ar, None) =>
      exists_ ← AlertRuleExists 0 (Rule.GroupId ar) (Rule.Name ar);
      if exists_ : bool then rfail "AlertRule already exists"
      else rstmt (insert_row (ar <| Rule.CreateAt := now |> <| Rule.UpdateAt := now |>))
  end.

Definition Update ar (arf : AlertRule) (now : Z) : rsql unit :=
  taken ← (if String.eqb (Rule.Name ar) (Rule.Name arf) then mret false
           else AlertRuleExists (Rule.Id ar) (Rule.GroupId ar) (Rule.Name arf));
  if taken : bool then rfail "AlertRule already exists"
  else match AlertRule_FE2DB arf with
  | (_, Some err) => rfail err
  | (arf, None) =>
      let arf := arf <| Rule.Id := Rule.Id ar |> <| Rule.GroupId := Rule.GroupId ar |>
                     <| Rule.CreateAt := Rule.CreateAt ar |> <| Rule.CreateBy := Rule.CreateBy ar |>
                     <| Rule.UpdateAt := now |> in
      match AlertRule_Verify arf with
      | (_, Some err) => rfail err
      | (arf, None) =>
          rstmt (λ d, match rd_rules d !! Rule.Id ar with
                      | Some _ => replace_row (Rule.Id ar) (row_of arf) d
                      | None => (d, Ok tt)
                      end)
      end
  end.

(** [DB.Model(ar).Updates]: the struct afterwards.  A statement that finds no row succeeds. *)
Definition UpdateFieldsMap ar (cols : list (string * iface)) : rsql AlertRule :=
  rstmt (λ d,
    match rd_rules d !! Rule.Id ar with
    | None => (d, Ok tt)
    | Some row => match set_columns cols row with Err e => (d, Err e) | Ok row => replace_row (Rule.Id ar) row d end
    end);;
  mret (if updates_write_back then match set_columns cols ar with Ok ar => ar | Err _ => ar end else ar).

(** Decode the configuration, and write it back after a change; [None] is no change. *)
Definition edit_config {A} `{!Json A} (zero : A) (edit : A → option A) ar : rsql AlertRule :=
  match json_unmarshal (Rule.RuleConfig ar) zero with
  | (_, Some err) => rfail err
  | (c, None) =>
      match edit c with
      | None => mret ar
      | Some c => b ← lift_result (json_marshal c); UpdateFieldsMap ar [("rule_config", IString b)]
      end
  end.

Definition set_severity ar (severity : Z) : rsql AlertRule :=
  if String.eqb (Rule.Cate ar) PROMETHEUS then
    edit_config PromRuleConf.zero (λ c,
      match PromRuleConf.Queries c with
      | [] => Some (c <| PromRuleConf.Severity := severity |>)
      | [q] => Some (c <| PromRuleConf.Queries := [q <| PromQ.Severity := severity |>] |>)
      | _ => None
      end) ar
  else if String.eqb (Rule.Cate ar) HOST then
    edit_config HostRuleConf.zero (λ c,
      match HostRuleConf.Triggers c with
      | [t] => Some (HostRuleConf.mkHostRuleConfig (HostRuleConf.Queries c)
                       [HostTrig.mkHostTrigger (HostTrig.Type_ t) (HostTrig.Duration t) (HostTrig.Percent t) severity]
                       (HostRuleConf.Inhibit c))
      | _ => None
      end) ar
  else
    edit_config RuleQ.zero (λ c,
      match RuleQ.Triggers c with
      | [t] => Some (c <| RuleQ.Triggers := [t <| Trig.Severity := severity |>] |>)
      | _ => None
      end) ar.

Definition write_annotations ar : rsql AlertRule :=
  b ← lift_result (json_marshal (Rule.AnnotationsJSON ar)); UpdateFieldsMap ar [("annotations", IString b)].

(** [v.(string)], for the entries of a map. *)
Definition text_entry (kv : string * iface) : go (string * string) :=
  match snd kv with IString s => Ret (fst kv, s) | _ => Panic end.
Fixpoint text_entries (l : list (string * iface)) : go (list (string * string)) :=
  match l with [] => Ret [] | kv :: l => x ← text_entry kv; xs ← text_entries l; Ret (x :: xs) end.

Definition UpdateColumn ar (column : string) (value : iface) : rsql AlertRule :=
  match value with INil => mret ar | _ =>
  if String.eqb column "datasource_ids" then
    b ← lift_result (json_marshal value); UpdateFieldsMap ar [(column, IString b)]
  else if String.eqb column "severity" then
    match value with IFloat f => set_severity ar (float64_to_int f) | _ => rpanic end
  else if String.eqb column "runbook_url" then
    match value with
    | IString url =>
        match json_unmarshal (Rule.Annotations ar) (Rule.AnnotationsJSON ar) with
        | (_, Some err) => rfail err
        | (m, None) => write_annotations (ar <| Rule.AnnotationsJSON := Some (<["runbook_url" := url]> (default ∅ m)) |>)
        end
    | _ => rpanic
    end
  else if String.eqb column "annotations" then
    match value with
    | IMap l => m ← lift_go (text_entries l); write_annotations (ar <| Rule.AnnotationsJSON := Some (list_to_map m) |>)
    | _ => rpanic
    end
  else if String.eqb column "notify_rule_ids" then
    UpdateFieldsMap ar [("notify_version", IInt 1); ("notify_channels", IString ""); ("notify_groups", IString "");
                        ("notify_rule_ids", value)]
  else if String.eqb column "notify_groups" || String.eqb column "notify_channels" then
    UpdateFieldsMap ar [(column, value); ("notify_version", IInt 0); ("notify_rule_ids", IInts [])]
  else UpdateFieldsMap ar [(column, value)]
  end.

(** *** The teams of a rule *)

Definition UserGroupGetById (id : Z) : sql (option UserGroup) :=
  query (λ d, head (keep (λ g, UserGrp.Id g =? id) (db_teams d))).

(** The teams that exist, as they are named and as they are; whether one is missing; the
    cache; and the error that ended the loop, if one did. *)
Definition teams_read : Type := list string * list UserGroup * bool * gmap Z UserGroup * option error.
Fixpoint existing_teams (names : list string) (cache : gmap Z UserGroup) : rsql teams_read :=
  match names with
  | [] => mret ([], [], false, cache, None)
  | name :: names =>
      let id := default 0 (parse_int name) in
      found ← (match cache !! id with
               | Some ug => mret (Ok (Some ug))
               | None => λ d, let '(p, r) := UserGroupGetById id (rd_perm d) in (d <| rd_perm := p |>, Ret (Ok r))
               end);
      match found with
      | Err err => mret ([], [], false, cache, Some err)
      | Ok None => '(ns, gs, _, cache, err) ← existing_teams names cache; mret (ns, gs, true, cache, err)
      | Ok (Some ug) =>
          '(ns, gs, del, cache, err) ← existing_teams names (<[id := ug]> cache); mret (name :: ns, ug :: gs, del, cache, err)
      end
  end.

Definition FillNotifyGroups ar (cache : gmap Z UserGroup) : rsql (AlertRule * gmap Z UserGroup * option error) :=
  if (length (Rule.NotifyGroupsJSON ar) =? 0)%nat then mret (ar <| Rule.NotifyGroupsObj := [] |>, cache, None)
  else
    '(names, objs, del, cache, err) ← existing_teams (Rule.NotifyGroupsJSON ar) cache;
    let ar := ar <| Rule.NotifyGroupsObj := Rule.NotifyGroupsObj ar ++ objs |> in
    match err with
    | Some err => mret (ar, cache, Some err)
    | None =>
        if del : bool then
          let ar := ar <| Rule.NotifyGroupsJSON := names |> <| Rule.NotifyGroups := join names " " |> in
          ignore_error (UpdateFieldsMap ar [("notify_groups", IString (Rule.NotifyGroups ar))]);; mret (ar, cache, None)
        else mret (ar, cache, None)
    end.

(** The errors are not looked at. *)
Fixpoint fill_all (ars : list AlertRule) (cache : gmap Z UserGroup) : rsql (list AlertRule) :=
  match ars with
  | [] => mret []
  | ar :: ars => '(ar, cache, _) ← FillNotifyGroups ar cache; rest ← fill_all ars cache; mret (ar :: rest)
  end.
End rules.

(** ** Rules of Prometheus: prom_alert_rule.go *)

Record PromRule := mkPromRule {
  pr_Alert : string; pr_Record : string; pr_Expr : string; pr_For : string;
  pr_Annotations : option (gmap string string); pr_Labels : gmap string string
}.
Record PromRuleGroup := mkPromRuleGroup { pg_GroupName : string; pg_Rules : list PromRule; pg_Interval : string }.

(** [time.ParseDuration], in nanoseconds. *)
Class DurationLib := { ParseDuration : string → option Z }.

Definition convertInterval `{DurationLib} (interval : string) : Z :=
  match ParseDuration interval with
  | None => 60
  | Some duration => if duration =? 0 then 60 else Z.quot duration 1000000000
  end.

Definition prom_severity (v : string) (severity : Z) : Z :=
  if smem v ["critical"; "Critical"; "CRITICAL"; "error"; "Error"; "ERROR"; "fatal"; "Fatal"; "FATAL"; "page"; "Page"; "PAGE";
             "sev1"; "SEV1"; "Severity1"; "severity1"; "SEVERITY1"] then 1
  else if smem v ["warning"; "Warning"; "WARNING"; "warn"; "Warn"; "WARN"; "sev2"; "SEV2"; "Severity2"; "severity2"; "SEVERITY2"] then 2
  else if smem v ["info"; "Info"; "INFO"; "notice"; "Notice"; "NOTICE"; "sev3"; "SEV3"; "Severity3"; "severity3"; "SEVERITY3"] then 3
  else severity.

(** The tags to append and the severity that the labels ask for. *)
Definition prom_label (acc : list string * Z) (kv : string * string) : list string * Z :=
  let '(tags, severity) := acc in
  if negb (String.eqb (fst kv) "severity")
  then (tags ++ [replace_all (fst kv) " " "" +:+ "=" +:+ replace_all (snd kv) " " ""], severity)
  else (tags, prom_severity (snd kv) severity).

Definition ConvertAlert `{GoRange, DurationLib} (rule : PromRule) (interval : string) (queries : list DatasourceQuery)
    (disabled : Z) : AlertRule :=
  let '(appendTags, severity) := foldl prom_label ([], 2) (go_range (pr_Labels rule)) in
  Rule.zero <| Rule.Name := pr_Alert rule |> <| Rule.Severity := severity |> <| Rule.Disabled := disabled |>
            <| Rule.PromForDuration := convertInterval (pr_For rule) |> <| Rule.PromQl := pr_Expr rule |>
            <| Rule.CronPattern := "@every " +:+ itoa (convertInterval interval) +:+ "s" |>
            <| Rule.EnableInBG := 0 |> <| Rule.NotifyRecovered := 1 |> <| Rule.NotifyRepeatStep := 60 |>
            <| Rule.RecoverDuration := 0 |> <| Rule.AnnotationsJSON := pr_Annotations rule |>
            <| Rule.AppendTagsJSON := appendTags |> <| Rule.DatasourceQueries := queries |>
            <| Rule.NotifyVersion := 1 |> <| Rule.NotifyRuleIds := [] |>.

Definition DealPromGroup `{GoRange, DurationLib} (groups : list PromRuleGroup) (queries : list DatasourceQuery) (disabled : Z) :
    list AlertRule :=
  flat_map (λ group,
    let interval := if String.eqb (pg_Interval group) "" then "60s" else pg_Interval group in
    map (λ rule, ConvertAlert rule interval queries disabled)
      (List.filter (λ rule, negb (String.eqb (pr_Alert rule) "")) (pg_Rules group))) groups.

(** ** Handlers *)

Definition rhandler (A : Type) : Type := rdb → rdb * reply A.
#[export] Instance rhandler_ret : MRet rhandler := λ A a d, (d, Users.Done a).
#[export] Instance rhandler_bind : MBind rhandler := λ A B k m d,
  match m d with (d, Users.Done a) => k a d | (d, Bomb c e) => (d, Bomb c e) end.
Definition rbomb {A} (code : Z) (msg : string) : rhandler A := λ d, (d, Bomb code msg).

(** The result of a statement as a value. *)
Definition attempt {A} (m : rsql A) : rhandler (result A) := λ d,
  match m d with (d, Ret r) => (d, Users.Done r) | (d, Panic) => (d, Bomb 500 "panic") end.
Definition danger {A} (m : rsql A) : rhandler A :=
  r ← attempt m; match r with Ok a => mret a | Err e => rbomb 200 e end.
Definition message {A} (m : rsql A) : rhandler (option error) :=
  r ← attempt m; mret (match r with Ok _ => None | Err e => Some e end).
(** The middleware and the checks of [Users]. *)
Definition guard {A} (h : handler A) : rhandler A := λ d, let '(p, r) := h (rd_perm d) in (d <| rd_perm := p |>, r).

(** What the handlers get from libraries: translation, and YAML. *)
Class ApiText := {
  i18n_Sprintf : string → string → string;
  yaml_groups : string → result (list PromRuleGroup);
  yaml_rules : string → result (list PromRule);
  yaml_rule : string → result PromRule
}.

Section handlers.
Context `{GR : GoRange, StrLib, CronLib, PromIface, RuleColumns, ApiText, DurationLib, GlobLib}.
Context `{!Json iface, !Json (option (gmap string string)), !Json (list Z), !Json string}.
Context `{!Json RuleQuery, !Json PromRuleConfig, !Json HostRuleConfig, !Json relabel_part}.
Context (updates_write_back : bool).
Implicit Types (me : User) (ar : AlertRule).

(** *** New rules *)

(** The errors by the names of the rules; [Verify] has trimmed the name. *)
Fixpoint add_rules (translate : string → string) (now : Z) (lst : list AlertRule) (reterr : gmap string string) :
    rhandler (gmap string string) :=
  match lst with
  | [] => mret reterr
  | ar :: lst =>
      match AlertRule_FE2DB ar with
      | (ar, Some err) => add_rules translate now lst (<[Rule.Name ar := translate err]> reterr)
      | (ar, None) =>
          r ← attempt (Add ar now);
          let name := Rule.Name (fst (AlertRule_Verify ar)) in
          add_rules translate now lst (<[name := match r with Ok _ => "" | Err err => translate err end]> reterr)
      end
  end.

Definition stamp (username : string) ar : AlertRule :=
  if negb (String.eqb username "") then ar <| Rule.CreateBy := username |> <| Rule.UpdateBy := username |> else ar.

Definition alertRuleAddForService (lst : list AlertRule) (username : string) (now : Z) : rhandler (gmap string string) :=
  add_rules id now (map (λ ar, stamp username (ar <| Rule.Id := 0 |>)) lst) ∅.

Definition alertRuleAdd (lst : list AlertRule) (username : string) (bgid : Z) (lang : string) (now : Z) :
    rhandler (gmap string string) :=
  add_rules (i18n_Sprintf lang) now (map (λ ar, stamp username (ar <| Rule.Id := 0 |> <| Rule.GroupId := bgid |>)) lst) ∅.

Definition alertRuleAddByFE me (bgid : Z) (lst : list AlertRule) (lang : string) (now : Z) : rhandler (gmap string string) :=
  guard (perm me "/alert-rules/add");; guard (bgrw me bgid);;
  if (length lst =? 0)%nat then rbomb 400 "input json is empty"
  else alertRuleAdd lst (Usr.Username me) bgid lang now.

Definition DataSourceQueryAll : DatasourceQuery := DsQuery.mkDatasourceQuery 2 "in" [IInt DatasourceIdAll].

Definition imported ar : AlertRule :=
  let ar := if (length (Rule.DatasourceQueries ar) =? 0)%nat then ar <| Rule.DatasourceQueries := [DataSourceQueryAll] |> else ar in
  ar <| Rule.NotifyVersion := 1 |> <| Rule.NotifyChannelsJSON := [] |> <| Rule.NotifyGroupsJSON := [] |>
     <| Rule.NotifyChannels := "" |> <| Rule.NotifyGroups := "" |> <| Rule.Callbacks := "" |> <| Rule.CallbacksJSON := [] |>.

Definition alertRuleAddByImport me (bgid : Z) (lst : list AlertRule) (lang : string) (now : Z) : rhandler (gmap string string) :=
  guard (perm me "/alert-rules/add");; guard (bgrw me bgid);;
  if (length lst =? 0)%nat then rbomb 400 "input json is empty"
  else alertRuleAdd (map imported lst) (Usr.Username me) bgid lang now.

(** The payload is a file with groups, a list of rules, or one rule. *)
Definition prom_groups (payload : string) : rhandler (list PromRuleGroup) :=
  let wrap rules := match rules with
                    | [] => rbomb 400 "input yaml contains no rules"
                    | _ => mret [mkPromRuleGroup "imported_rules" rules ""]
                    end in
  match yaml_groups payload with
  | Ok (g :: gs) => mret (g :: gs)
  | _ =>
      match yaml_rules payload with
      | Ok rules => wrap rules
      | Err _ =>
          match yaml_rule payload with
          | Err err => rbomb 400 ("invalid yaml format. err: " +:+ err)
          | Ok rule => if String.eqb (pr_Alert rule) "" && String.eqb (pr_Record rule) ""
                       then rbomb 400 "input yaml is empty or invalid" else wrap [rule]
          end
      end
  end.

Definition alertRuleAddByImportPromRule me (bgid : Z) (payload : string) (queries : list DatasourceQuery) (disabled : Z)
    (lang : string) (now : Z) : rhandler (gmap string string) :=
  guard (perm me "/alert-rules/add");; guard (bgrw me bgid);;
  groups ← prom_groups payload;
  alertRuleAdd (DealPromGroup groups queries disabled) (Usr.Username me) bgid lang now.

Definition alertRuleAddByService (lst : list AlertRule) (now : Z) : rhandler (gmap string string) :=
  if (length lst =? 0)%nat then rbomb 400 "input json is empty" else alertRuleAddForService lst "" now.

(** The id of the new rule. *)
Definition alertRuleAddOneByService (f : AlertRule) (now : Z) : rhandler Z :=
  match AlertRule_FE2DB f with
  | (_, Some err) => rbomb 200 err
  | (f, None) => ar ← danger (Add f now); mret (Rule.Id ar)
  end.

(** *** Deleting and changing rules *)

Definition alertRuleDel me (bgid : Z) (ids : list Z) : rhandler (option error) :=
  guard (perm me "/alert-rules/del");; guard (bgrw me bgid);;
  if (length ids =? 0)%nat then rbomb 400 "ids empty" else message (AlertRuleDels ids (Some bgid)).

Definition alertRuleDelByService (ids : list Z) : rhandler (option error) :=
  if (length ids =? 0)%nat then rbomb 400 "ids empty" else message (AlertRuleDels ids None).

Definition rule_of (arid : Z) : rhandler AlertRule :=
  ar ← danger (AlertRuleGetById arid);
  match ar with None => rbomb 404 "No such AlertRule" | Some ar => mret ar end.

(** The group that is checked is that of the rule. *)
Definition alertRulePutByFE me (arid : Z) (f : AlertRule) (now : Z) : rhandler (option error) :=
  guard (perm me "/alert-rules/put");;
  ar ← rule_of arid;
  guard (bgrw me (Rule.GroupId ar));;
  message (Update ar (f <| Rule.UpdateBy := Usr.Username me |>) now).

Definition alertRulePutByService (arid : Z) (f : AlertRule) (now : Z) : rhandler (option error) :=
  ar ← rule_of arid; message (Update ar f now).

(** *** Changing some fields of several rules *)

(** Assigning to a decoded object, whose entries are kept in the order of their keys. *)
Fixpoint object_set (k : string) (v : iface) (l : list (string * iface)) : list (string * iface) :=
  match l with
  | [] => [(k, v)]
  | (k', v') :: l' =>
      if String.eqb k k' then (k, v) :: l'
      else if decide (string_le k k') then (k, v) :: l else (k', v') :: object_set k v l'
  end.

Definition update_triggers (triggers : iface) ar : rsql AlertRule :=
  match Rule.RuleConfigJson ar with
  | IMap originRule =>
      b ← lift_result (json_marshal (IMap (object_set "triggers" triggers originRule)));
      UpdateFieldsMap updates_write_back ar [("rule_config", IString b)]
  | _ => rpanic
  end.

(** Assigning to a nil map panics. *)
Definition annotations_add (annotations : iface) ar : rsql AlertRule :=
  match annotations with
  | IMap l =>
      new ← lift_go (text_entries l);
      m ← (match Rule.AnnotationsJSON ar, new with
           | Some m, _ => mret (Some (list_to_map new ∪ m))
           | None, [] => mret None
           | None, _ => rpanic
           end);
      write_annotations updates_write_back (ar <| Rule.AnnotationsJSON := m |>)
  | _ => rpanic
  end.

Definition annotations_del (annotations : iface) ar : rsql AlertRule :=
  match annotations with
  | IMap l =>
      write_annotations updates_write_back
        (ar <| Rule.AnnotationsJSON := (λ m, foldr (λ kv m, delete (fst kv) m) m l) <$> Rule.AnnotationsJSON ar |>)
  | _ => rpanic
  end.

Definition callback_add (callbacks : iface) ar : rsql AlertRule :=
  match callbacks with
  | IString callback =>
      if negb (contains (Rule.Callbacks ar) callback)
      then UpdateFieldsMap updates_write_back ar [("callbacks", IString (Rule.Callbacks ar +:+ " " +:+ callback))]
      else mret ar
  | _ => rpanic
  end.

Definition callback_del (callbacks : iface) ar : rsql AlertRule :=
  match callbacks with
  | IString callback =>
      UpdateFieldsMap updates_write_back ar [("callbacks", IString (replace_all (Rule.Callbacks ar) callback ""))]
  | _ => rpanic
  end.

Definition datasource_change (queries : iface) ar : rsql AlertRule :=
  b ← lift_result (json_marshal queries);
  UpdateFieldsMap updates_write_back ar [("datasource_queries", IString b)].

(** What an action does with its field, when that is given. *)
Definition field_action (fields : gmap string iface) (action : string) ar : rsql AlertRule :=
  let with_field name (k : iface → AlertRule → rsql AlertRule) :=
    match fields !! name with Some v => k v ar | None => mret ar end in
  if String.eqb action "update_triggers" then with_field "triggers" update_triggers
  else if String.eqb action "annotations_add" then with_field "annotations" annotations_add
  else if String.eqb action "annotations_del" then with_field "annotations" annotations_del
  else if String.eqb action "callback_add" then with_field "callbacks" callback_add
  else if String.eqb action "callback_del" then with_field "callbacks" callback_del
  else if String.eqb action "datasource_change" then with_field "datasource_queries" datasource_change
  else mret ar.

Definition put_field (kv : string * iface) ar : rsql AlertRule :=
  match snd kv with
  | IList _ | IInts _ | IStrings _ =>
      b ← lift_result (json_marshal (snd kv)); UpdateColumn updates_write_back ar (fst kv) (IString b)
  | v => UpdateColumn updates_write_back ar (fst kv) v
  end.
Fixpoint put_each (fields : list (string * iface)) ar : rsql AlertRule :=
  match fields with [] => mret ar | kv :: fields => ar ← put_field kv ar; put_each fields ar end.

Definition put_fields (fields : gmap string iface) (action updateBy : string) (now : Z) ar : rsql AlertRule :=
  ar ← field_action fields action ar;
  ar ← put_each (go_range fields) ar;
  UpdateFieldsMap updates_write_back ar [("update_by", IString updateBy); ("update_at", IInt now)].

Fixpoint put_rules (fields : gmap string iface) (action updateBy : string) (now : Z) (ids : list Z) : rhandler unit :=
  match ids with
  | [] => mret tt
  | id :: ids =>
      ar ← danger (AlertRuleGetById id);
      match ar with
      | None => put_rules fields action updateBy now ids
      | Some ar => danger (put_fields fields action updateBy now ar);; put_rules fields action updateBy now ids
      end
  end.

(** The group that is checked is that of the URL. *)
Definition alertRulePutFields me (bgid : Z) (ids : list Z) (fields : gmap string iface) (action : string) (now : Z) :
    rhandler unit :=
  guard (perm me "/alert-rules/put");; guard (bgrw me bgid);;
  if (size fields =? 0)%nat then rbomb 400 "fields empty" else put_rules fields action (Usr.Username me) now ids.

(** *** Copies *)

(** [i18n.Sprintf] of an error, by rule and group. *)
Definition clone_key (arid bgid : Z) : string := itoa arid +:+ "-" +:+ itoa bgid.

(** [ar] is the rule that was read, or the error; [Clone] and [Add] change the rule in
    place, and the error of [Add] is kept in the variable of the reading. *)
Fixpoint clone_to me (arid : Z) (lang : string) (now : Z) (ar : result (option AlertRule)) (bgids : list Z)
    (reterr : gmap string string) : rhandler (gmap string string) :=
  match bgids with
  | [] => mret reterr
  | bgid :: bgids =>
      match ar with
      | Err err => clone_to me arid lang now ar bgids (<[clone_key arid bgid := i18n_Sprintf lang err]> reterr)
      | Ok None => clone_to me arid lang now ar bgids (<[clone_key arid bgid := i18n_Sprintf lang "alert rule not found"]> reterr)
      | Ok (Some r) =>
          let '(newAr, _) := AlertRule_Clone (Usr.Username me) bgid now r in
          added ← attempt (Add newAr now);
          match added with
          | Err err => clone_to me arid lang now (Err err) bgids (<[clone_key arid bgid := i18n_Sprintf lang err]> reterr)
          | Ok r => clone_to me arid lang now (Ok (Some r)) bgids reterr
          end
      end
  end.

Fixpoint clone_rules me (lang : string) (now : Z) (bgids ruleIds : list Z) (reterr : gmap string string) :
    rhandler (gmap string string) :=
  match ruleIds with
  | [] => mret reterr
  | arid :: ruleIds =>
      ar ← attempt (AlertRuleGetById arid);
      reterr ← clone_to me arid lang now ar bgids reterr;
      clone_rules me lang now bgids ruleIds reterr
  end.

Fixpoint check_groups me (bgids : list Z) : rhandler unit :=
  match bgids with [] => mret tt | bgid :: bgids => guard (bgrw me bgid);; check_groups me bgids end.

Definition batchAlertRuleClone me (ruleIds bgids : list Z) (lang : string) (now : Z) : rhandler (gmap string string) :=
  guard (perm me "/alert-rules/add");; check_groups me bgids;; clone_rules me lang now bgids ruleIds ∅.
End handlers.

(** *** Copies for hosts *)

Definition dquote : string := String (Ascii.ascii_of_nat 34) "".
Definition ident_operator : regexp := "ident\s*(!=|!~|=~)".
Definition ident_matcher : regexp := "ident\s*=\s*\\" +:+ dquote +:+ ".*?\\" +:+ dquote.

Definition containsIdentOperator `{Regexp} (s : string) : bool := re_match ident_operator s.

Section clone_hosts.
Context `{GR : GoRange, StrLib, CronLib, PromIface, RuleColumns, RegexpSub}.
Context `{!Json iface, !Json (option (gmap string string)), !Json (list Z), !Json string}.
Context `{!Json RuleQuery, !Json PromRuleConfig, !Json HostRuleConfig, !Json relabel_part}.
Implicit Types (me : User) (ar : AlertRule).

(** The rule for a host, made from the rule for the host before it. *)
Definition for_host (user : string) (now : Z) (ident : string) ar : AlertRule * AlertRule :=
  let ar := ar <| Rule.RuleConfig := re_replace_all ident_matcher (Rule.RuleConfig ar)
                                       ("ident=\" +:+ dquote +:+ ident +:+ "\" +:+ dquote) |> in
  (ar, ar <| Rule.Id := 0 |> <| Rule.Name := Rule.Name ar +:+ "_" +:+ ident |>
          <| Rule.CreateBy := user |> <| Rule.UpdateBy := user |> <| Rule.UpdateAt := now |> <| Rule.CreateAt := now |>).

(** The new rules, and the errors by host. *)
Fixpoint for_hosts (user : string) (now : Z) (idents : list string) ar (errMsg : gmap string string) :
    rhandler (list AlertRule * gmap string string) :=
  match idents with
  | [] => mret ([], errMsg)
  | ident :: idents =>
      let '(ar, newRule) := for_host user now ident ar in
      exist ← attempt (AlertRuleExists 0 (Rule.GroupId newRule) (Rule.Name newRule));
      match exist with
      | Err err => for_hosts user now idents ar (<[ident := err]> errMsg)
      | Ok true => for_hosts user now idents ar (<[ident := "rule already exists, ruleName: " +:+ Rule.Name newRule]> errMsg)
      | Ok false => '(rules, errMsg) ← for_hosts user now idents ar errMsg; mret (newRule :: rules, errMsg)
      end
  end.

Fixpoint clone_hosts (user : string) (now : Z) (idents : list string) (ars : list AlertRule)
    (reterr : gmap string (gmap string string)) : rhandler (list AlertRule * gmap string (gmap string string)) :=
  match ars with
  | [] => mret ([], reterr)
  | ar :: ars =>
      if negb (String.eqb (Rule.Cate ar) "prometheus") then
        clone_hosts user now idents ars (<[Rule.Name ar := {["all" := "Only Prometheus rule can be cloned to machines"]}]> reterr)
      else if containsIdentOperator (Rule.RuleConfig ar) then
        clone_hosts user now idents ars (<[Rule.Name ar := {["all" := "promql is missing ident"]}]> reterr)
      else
        '(rules, errMsg) ← for_hosts user now idents ar ∅;
        let reterr := if (0 <? size errMsg)%nat then <[Rule.Name ar := errMsg]> reterr else reterr in
        '(more, reterr) ← clone_hosts user now idents ars reterr;
        mret (rules ++ more, reterr)
  end.

(** The group that is checked is that of the URL. *)
Definition cloneToMachine me (bgid : Z) (ids : list Z) (idents : list string) (now : Z) :
    rhandler (gmap string (gmap string string) * option error) :=
  guard (perm me "/alert-rules/add");; guard (bgrw me bgid);;
  if (length idents =? 0)%nat then rbomb 400 "ident_list is empty"
  else
    ars ← danger (AlertRuleGetsByIds ids);
    '(rules, reterr) ← clone_hosts (Usr.Username me) now idents ars ∅;
    err ← message (InsertAlertRule rules);
    mret (reterr, err).
End clone_hosts.

(** *** Reading and trying rules *)

Section reads.
Context `{GR : GoRange, StrLib, CronLib, PromIface, RuleColumns, GlobLib}.
Context `{!Json iface, !Json (option (gmap string string)), !Json (list Z), !Json string}.
Context `{!Json RuleQuery, !Json PromRuleConfig, !Json HostRuleConfig, !Json relabel_part}.
Context (updates_write_back : bool).
Implicit Types (me : User) (ar : AlertRule).

(** The ids of the data sources, for the front end. *)
Definition fill_datasources (ds : dsdata) ar : AlertRule :=
  if negb (length (Rule.DatasourceQueries ar) =? 0)%nat
  then ar <| Rule.DatasourceIdsJson := GetIDsByDsCateAndQueries ds (Rule.Cate ar) (Rule.DatasourceQueries ar) |> else ar.

(** A list with its error, if it could not be read. *)
Definition list_rules (m : rsql (list AlertRule)) (k : list AlertRule → rhandler (list AlertRule)) : rhandler (result (list AlertRule)) :=
  r ← attempt m; match r with Err e => mret (Err e) | Ok ars => ars ← k ars; mret (Ok ars) end.

Definition alertRuleGets me (bgid : Z) : rhandler (result (list AlertRule)) :=
  guard (perm me "/alert-rules");;
  list_rules (AlertRuleGets bgid) (λ ars, danger (fill_all updates_write_back ars ∅)).

Definition GetAlertCueEventTimeRange (stime etime now : Z) : Z * Z :=
  let etime := if etime =? 0 then now else etime in
  (if (stime =? 0) || (etime <=? stime) then i64 (etime - 2592000) else stime, etime).

(** The alerts of every rule that has some; a failure is only logged. *)
Definition AlertCurEventCountByRuleId (stime etime : Z) : rsql (option (gmap Z Z)) := λ d,
  match rquery (λ d, foldr (λ e m, if (stime <=? Event.TriggerTime e) && (Event.TriggerTime e <=? etime)
                                   then <[Event.RuleId e := default 0 (m !! Event.RuleId e) + 1]> m else m)
                       ∅ (rd_events d)) d with
  | (d, Ret (Ok m)) => (d, Ret (Ok (Some m)))
  | (d, _) => (d, Ret (Ok None))
  end.

Fixpoint check_read me (gids : list Z) : rhandler unit :=
  match gids with [] => mret tt | gid :: gids => guard (bgro me gid);; check_read me gids end.

Definition MyBusiGroupIds (userId : Z) : sql (list Z) := ids ← MyGroupIds userId; BusiGroupIds ids None.

(** The name of the last editor; [users] is what [UserMapGet] found. *)
Definition fill_editor (users : gmap string User) ar : AlertRule :=
  match users !! Rule.UpdateBy ar with Some u => ar <| Rule.UpdateByNickname := Usr.Nickname u |> | None => ar end.
Definition UserMapGet (names : list string) : rsql (gmap string User) := λ d,
  match query (λ p, keep (λ u, smem (Usr.Username u) names) (db_users p)) (rd_perm d) with
  | (p, Ok us) => (d <| rd_perm := p |>, Ret (Ok (foldl (λ m u, <[Usr.Username u := u]> m) ∅ us)))
  | (p, Err _) => (d <| rd_perm := p |>, Ret (Ok ∅))
  end.

Definition alertRuleGetsByGids me (ds : dsdata) (gids : list Z) (stime etime now : Z) : rhandler (result (list AlertRule)) :=
  guard (perm me "/alert-rules");;
  gids ← (if (0 <? length gids)%nat then check_read me gids;; mret (Some gids)
          else if IsAdmin me then mret (Some [])
          else ids ← guard (dangerous (MyBusiGroupIds (Usr.Id me)));
               mret (if (length ids =? 0)%nat then None else Some ids));
  match gids with
  | None => mret (Ok [])
  | Some gids =>
      list_rules (AlertRuleGetsByBGIds gids) (λ ars,
        ars ← danger (fill_all updates_write_back ars ∅);
        let ars := map (fill_datasources ds) ars in
        let '(stime, etime) := GetAlertCueEventTimeRange stime etime now in
        cnt ← danger (AlertCurEventCountByRuleId stime etime);
        let ars := match cnt with
                   | Some cnt => map (λ ar, ar <| Rule.CurEventCount := default 0 (cnt !! Rule.Id ar) |>) ars
                   | None => ars
                   end in
        users ← danger (UserMapGet (map Rule.UpdateBy ars));
        mret (map (fill_editor users) ars))
  end.

Definition alertRulesGetByService (ds : dsdata) (prods query algorithm cluster cate : string) (disabled : Z) :
    rhandler (result (list AlertRule)) :=
  let prods := if String.eqb prods "" then [] else split prods "," in
  let cates := if String.eqb cate "$all" then [] else split cate "," in
  list_rules (AlertRulesGetsBy prods query algorithm cluster cates disabled) (λ ars,
    ars ← danger (fill_all updates_write_back ars ∅); mret (map (fill_datasources ds) ars)).

Definition alertRuleGet (ds : dsdata) (arid : Z) : rhandler AlertRule :=
  ar ← rule_of arid;
  '(ar, _, err) ← danger (FillNotifyGroups updates_write_back (fill_datasources ds ar) ∅);
  match err with Some err => rbomb 200 err | None => mret ar end.

Definition alertRulePureGet (arid : Z) : rhandler AlertRule := rule_of arid.

(** Each callback once, in the order of the rules. *)
Fixpoint distinct (seen : gset string) (l : list string) : list string :=
  match l with
  | [] => []
  | x :: l => if decide (x ∈ seen) then distinct seen l else x :: distinct ({[x]} ∪ seen) l
  end.
Definition alertRuleCallbacks me : rhandler (list string) :=
  ids ← guard (dangerous (MyBusiGroupIds (Usr.Id me)));
  ars ← danger (AlertRuleGetsByBGIds ids);
  mret (distinct ∅ (flat_map Rule.CallbacksJSON ars)).
End reads.

(** The channels of the old scheme that nobody in the teams has a token for. *)
Definition default_channels : list string := ["dingtalk"; "wecom"; "feishu"; "mm"; "telegram"; "email"; "feishucard"].
Definition absent_channels `{ContactsLib, ContactsExist} (users : list User) (channels : list string) : list string :=
  List.filter (λ ch, smem ch default_channels && negb (existsb (λ u, snd (ExtractToken_has u ch)) users)) channels.

(** The channels that are reported; none when all is well. *)
Definition alertRuleValidation `{ContactsLib, ContactsExist} (users : gmap Z User) (teams : gmap Z UserGroup) (f : AlertRule) :
    list string :=
  if (0 <? length (Rule.NotifyChannelsJSON f))%nat && (0 <? length (Rule.NotifyGroupsJSON f))%nat then
    let ngids := map (λ g, default 0 (parse_int g)) (Rule.NotifyGroupsJSON f) in
    let uids := flat_map UserGrp.UserIds (GetByUserGroupIds teams ngids) in
    absent_channels (GetByUserIds users uids) (Rule.NotifyChannelsJSON f)
  else [].

(** [his] is the event that was read. *)
Definition alertRuleEnableTryRun `{Regexp, GoFmt, Location} (targets : gmap string Target) (his : result (option AlertHisEvent))
    (f : AlertRule) : go (reply string) :=
  match his with
  | Err e => Ret (Bomb 200 e)
  | Ok None => Ret (Bomb 404 "event not found")
  | Ok (Some his) =>
      let cur := SetTagsMap (ToCur his) in
      if Rule.Disabled f =? 1 then Ret (Bomb 200 "rule is disabled")
      else
        muted ← TimeSpanMuteStrategy f cur;
        if muted : bool then Ret (Bomb 200 "event is not match for period of time")
        else if BgNotMatchMuteStrategy f cur targets then Ret (Bomb 200 "event target busi group not match rule busi group")
        else Ret (Users.Done "event is effective")
  end.

(** Labels from tags; a tag without a value is refused. *)
Fixpoint test_labels (tags : list string) : reply (list Label) :=
  match tags with
  | [] => Users.Done []
  | tag :: tags =>
      match splitn2 tag "=" with
      | [k; v] => match test_labels tags with Users.Done ls => Users.Done (Lbl.mkLabel k v :: ls) | Bomb c e => Bomb c e end
      | _ => Bomb 400 ("tag:" +:+ tag +:+ " format error")
      end
  end.

Definition relabelTest `{GoRange, RegexpSub, Md5, LabelNames, UnicodeCase} (tags : list string) (configs : list RelabelConfig) :
    go (reply (list string)) :=
  if (length tags =? 0)%nat || (length configs =? 0)%nat then Ret (Bomb 400 "relabel config is empty")
  else match test_labels tags with
       | Bomb c e => Ret (Bomb c e)
       | Users.Done ls =>
           r ← relabel_all (Some ls) (map default_config configs);
           Ret (Users.Done (map tag_of (default [] r)))
       end.
