(* ===== verification/RuleRequests.v ===== *)
(** * What the API of alert rules keeps, and what it does not

    [rules_invariant]: the rows are verified rules, with distinct names in a group, for the
    routes that go through [Add], [Update] and [AlertRuleDels].
    [rule_request_authorised]: on those routes a request changes only rules of groups that
    its user may write; on the two others, which change fields and copy rules for hosts, it
    is the group of the URL that its user must be able to write, whatever rules are changed.
    [fields_of_any_group] and [callback_add_replaces] are about changed fields, and
    [clone_gives_up] about copies. *)

From S2P Require Import Prelude GoStrings GoTime Json Models RuleModels RuleOps EventOps Filter Mute Relabel Dispatch Caches Senders Callbacks Users Permissions AlertRuleApi.
Open Scope string_scope.
Open Scope Z_scope.
Open Scope list_scope.

(** ** A logic for the statements *)

Definition rhoare {A} (P : rdb → Prop) (m : rsql A) (Q : A → rdb → Prop) (E : rdb → Prop) : Prop :=
  ∀ d, P d → match m d with (d', Ret (Ok a)) => Q a d' | (d', _) => E d' end.
Definition rhh {A} (P : rdb → Prop) (h : rhandler A) (Q : A → rdb → Prop) (E : rdb → Prop) : Prop :=
  ∀ d, P d → match h d with (d', Users.Done a) => Q a d' | (d', Bomb _ _) => E d' end.

(** Predicates that do not see which statements will fail. *)
Class Rows (P : rdb → Prop) := rows_perm : ∀ d p, same (rd_perm d) p → P d → P (d <| rd_perm := p |>).

Section logic.
Context {A B : Type} (P E : rdb → Prop) `{RP : !Rows P}.

Lemma rhoare_bind (R : A → rdb → Prop) (Q : B → rdb → Prop) (m : rsql A) (k : A → rsql B) :
  rhoare P m R E → (∀ a, rhoare (R a) (k a) Q E) → rhoare P (m ≫= k) Q E.
Proof.
  intros Hm Hk d Hd. specialize (Hm d Hd). unfold mbind, rsql_bind. destruct (m d) as [d' [[a|e]|]]; [|done..]. by apply Hk.
Qed.
Lemma rhoare_ret (a : A) : rhoare P (mret a) (λ _, P) E.
Proof. by intros d Hd. Qed.
Lemma rhoare_weaken (P' E' : rdb → Prop) (Q Q' : A → rdb → Prop) (m : rsql A) :
  rhoare P' m Q' E' → (∀ d, P d → P' d) → (∀ a d, Q' a d → Q a d) → (∀ d, E' d → E d) → rhoare P m Q E.
Proof. intros Hm HP HQ HE d Hd. specialize (Hm d (HP d Hd)). destruct (m d) as [d' [[a|e]|]]; auto. Qed.
Lemma rows_tick d : P d → P (d <| rd_perm := tick (rd_perm d) |>).
Proof. apply RP. by exists (tail (db_faults (rd_perm d))). Qed.
Lemma rhoare_stmt (f : rdb → rdb * result A) (Q : A → rdb → Prop) :
  (∀ d, P d → match f d with (d', Ok a) => Q a d' | (d', Err _) => P d' end) → rhoare P (rstmt f) Q P.
Proof.
  intros Hf d Hd%rows_tick. unfold rstmt. specialize (Hf _ Hd).
  destruct (head (db_faults (rd_perm d))) as [[e|]|]; [done|..]; by destruct (f _) as [d' [a|e']].
Qed.
Lemma rhoare_query (f : rdb → A) : rhoare P (rquery f) (λ a d, P d ∧ a = f d) P.
Proof. by apply rhoare_stmt. Qed.
Lemma rhoare_go (g : go A) : rhoare P (lift_go g) (λ a d, P d ∧ g = Ret a) P.
Proof. intros d Hd. unfold lift_go. by destruct g. Qed.

Lemma rhh_bind (R : A → rdb → Prop) (Q : B → rdb → Prop) (h : rhandler A) (k : A → rhandler B) :
  rhh P h R E → (∀ a, rhh (R a) (k a) Q E) → rhh P (h ≫= k) Q E.
Proof.
  intros Hh Hk d Hd. specialize (Hh d Hd). unfold mbind, rhandler_bind. destruct (h d) as [d' [a|c e]]; [|done]. by apply Hk.
Qed.
Lemma rhh_attempt (m : rsql A) (Q : A → rdb → Prop) :
  rhoare P m Q E → rhh P (attempt m) (λ r d, match r with Ok a => Q a d | Err _ => E d end) E.
Proof. intros Hm d Hd. specialize (Hm d Hd). unfold attempt. by destruct (m d) as [d' [[a|e]|]]. Qed.
Lemma rhh_danger (m : rsql A) (Q : A → rdb → Prop) : rhoare P m Q E → rhh P (danger m) Q E.
Proof. intros Hm d Hd. specialize (Hm d Hd). unfold danger, attempt, mbind, rhandler_bind. by destruct (m d) as [d' [[a|e]|]]. Qed.
Lemma rhh_message (m : rsql A) : rhoare P m (λ _, E) E → rhh P (message m) (λ _, E) E.
Proof. intros Hm d Hd. specialize (Hm d Hd). unfold message, attempt, mbind, rhandler_bind. by destruct (m d) as [d' [[a|e]|]]. Qed.
Lemma rhh_fst (h : rhandler A) d : rhh P h (λ _, E) E → P d → E (fst (h d)).
Proof. intros Hh Hd. specialize (Hh d Hd). by destruct (h d) as [d' [a|c e]]. Qed.
Lemma rhh_weaken (P' E' : rdb → Prop) (Q Q' : A → rdb → Prop) (h : rhandler A) :
  rhh P' h Q' E' → (∀ d, P d → P' d) → (∀ a d, Q' a d → Q a d) → (∀ d, E' d → E d) → rhh P h Q E.
Proof. intros Hm HP HQ HE d Hd. specialize (Hm d (HP d Hd)). destruct (h d) as [d' [a|c e]]; auto. Qed.
End logic.

(** A check of [Users] reads; what it finds of the tables of users holds of [d0] too. *)
Definition reads_perm {A} (h : handler A) (C : pdb → A → Prop) : Prop :=
  ∀ p0, hhoare (same p0) h (λ a p, same p0 p ∧ C p0 a) (same p0).

Lemma rhh_guard {A} (P : rdb → Prop) `{!Rows P} (h : handler A) (C : pdb → A → Prop) p0 :
  reads_perm h C → (∀ d, P d → same p0 (rd_perm d)) → rhh P (guard h) (λ a d, P d ∧ C p0 a) P.
Proof.
  intros Hh Hp d Hd. unfold guard. pose proof (Hh p0 (rd_perm d) (Hp d Hd)) as H0.
  pose proof (Hh (rd_perm d) (rd_perm d) (same_refl _)) as H1.
  destruct (h (rd_perm d)) as [p [a|c e]]; [destruct H0 as [_ H0], H1 as [H1 _]; split; [|done]|]; by apply rows_perm.
Qed.

Lemma perm_reads me op : reads_perm (perm me op) (λ p _, may_op p me op).
Proof. intros p0. apply perm_spec. Qed.
Lemma bgrw_reads me id : reads_perm (bgrw me id) (λ p _, may_bg p me id (Some "rw")).
Proof.
  intros p0 p Hp. pose proof (bgrw_spec p0 me id p Hp) as Hb. destruct (bgrw me id p) as [p' [a|c e]]; [|done]. naive_solver.
Qed.

(** ** What conversion and validation leave alone *)

Section core.
Context `{GR : GoRange, StrLib, CronLib, PromIface}.
Context `{!Json iface, !Json (option (gmap string string)), !Json (list Z), !Json string}.
Context `{!Json RuleQuery, !Json PromRuleConfig, !Json relabel_part}.
Implicit Types ar : AlertRule.

(** What tells rules apart. *)
Definition who (r : AlertRule) : Z * Z * string := (Rule.Id r, Rule.GroupId r, Rule.Name r).

Lemma who_columns ar : who (FE2DB_columns ar) = who ar.
Proof. unfold FE2DB_columns, who. destruct (0 <? _)%nat, (0 <? _)%nat, (0 <? _)%nat; reflexivity. Qed.

Lemma who_FE2DB ar : who (fst (AlertRule_FE2DB ar)) = who ar.
Proof.
  assert (∀ x k, (∀ r, who (fst (k r)) = who r) → who (fst (then_ x k)) = who (fst x)) as Hthen.
  { intros [r [e|]] k Hk; [done|apply Hk]. }
  unfold AlertRule_FE2DB. rewrite <- (who_columns ar). rewrite Hthen; [unfold FE2DB_algo; by case_match|].
  intros r. rewrite Hthen.
  - unfold FE2DB_config, upgrade_config. by repeat case_match.
  - intros r'. rewrite Hthen; [|intros r'']; unfold FE2DB_annotations, FE2DB_extra; by repeat case_match.
Qed.

Lemma who_DB2FE r r' : AlertRule_DB2FE r = Ret r' → who r' = who r.
Proof.
  unfold AlertRule_DB2FE. intros (r1 & Hr1 & ->%Ret_inj)%go_bind_Ret.
  assert (who r1 = who r) as <-.
  { revert Hr1. unfold DB2FE_times. cbv zeta. destruct (0 <? _)%nat.
    - by intros (s & _ & (e & _ & ->%Ret_inj)%go_bind_Ret)%go_bind_Ret.
    - by intros ->%Ret_inj. }
  assert (∀ x, who (FillSeverities x).1 = who x) as -> by (intros x; unfold FillSeverities; by repeat case_match).
  assert (∀ x, who (FillDatasourceQueries x) = who x) as -> by (intros x; unfold FillDatasourceQueries; by case_match).
  assert (∀ x, who (default_cron x) = who x) as -> by (intros x; unfold default_cron; by case_match).
  unfold DB2FE_columns, DB2FE_days. cbv zeta. by case_match.
Qed.

Lemma Verify_who ar ar' : AlertRule_Verify ar = (ar', None) →
  who ar' = (Rule.Id ar, Rule.GroupId ar, trim_space (Rule.Name ar)).
Proof.
  intros Hv. pose proof (Verify_identity ar) as Hi. rewrite Hv in Hi. injection Hi as E1 E2 _ _ _. unfold who. rewrite E1, E2. f_equal.
  revert Hv. unfold AlertRule_Verify. case_match; [done|]. set (r1 := ar <| Rule.Name := _ |>).
  assert (Rule.Name r1 = trim_space (Rule.Name ar)) as <- by (by unfold r1; rsimp). clearbody r1.
  case_match; [done|]. case_match; [done|]. destruct (verify_defaults_frame r1) as [_ <-].
  generalize (verify_defaults r1). intros r2. case_match; [done|].
  set (r3 := if _ <=? 0 then _ else _). assert (Rule.Name r3 = Rule.Name r2) as <- by (unfold r3; case_match; by rsimp). clearbody r3.
  set (r4 := r3 <| Rule.AppendTags := _ |>). assert (Rule.Name r4 = Rule.Name r3) as <- by (by unfold r4; rsimp). clearbody r4.
  destruct (list_find _ _) as [[]|]; [done|]. destruct (list_find _ _) as [[]|]; [done|].
  destruct (validateCronPattern r4); [done|]. intros [= <-]. unfold clear_notify. cbv zeta.
  destruct (Rule.NotifyVersion r4 =? 0); rsimp; destruct (0 <? Rule.NotifyVersion r4); by rsimp.
Qed.

Lemma rule_ok_ext r r' : rule_ok r →
  Rule.GroupId r' = Rule.GroupId r → Rule.Name r' = Rule.Name r → Rule.Prod r' = Rule.Prod r → Rule.Cate r' = Rule.Cate r →
  Rule.RuleConfig r' = Rule.RuleConfig r → Rule.PromEvalInterval r' = Rule.PromEvalInterval r →
  Rule.AppendTags r' = Rule.AppendTags r → Rule.NotifyGroups r' = Rule.NotifyGroups r →
  Rule.CronPattern r' = Rule.CronPattern r → Rule.NotifyVersion r' = Rule.NotifyVersion r →
  Rule.NotifyRuleIds r' = Rule.NotifyRuleIds r → Rule.NotifyChannels r' = Rule.NotifyChannels r →
  Rule.Callbacks r' = Rule.Callbacks r → rule_ok r'.
Proof.
  intros [? ? ? ? ? ? ? ? ? ?] E1 E2 E3 E4 E5 E6 E7 E8 E9 E10 E11 E12 E13.
  split; rewrite ?E1, ?E2, ?E3, ?E4, ?E5, ?E6, ?E7, ?E8, ?E9, ?E10, ?E11, ?E12, ?E13; done.
Qed.

Lemma rule_ok_row r : rule_ok r → rule_ok (row_of r).
Proof. intros Hr. by apply (rule_ok_ext r). Qed.
Lemma rule_ok_stamped r t i : rule_ok r →
  rule_ok (r <| Rule.CreateAt := t |> <| Rule.UpdateAt := t |>) ∧ rule_ok (r <| Rule.CreateAt := t |> <| Rule.UpdateAt := t |> <| Rule.Id := i |>).
Proof. intros Hr. split; by apply (rule_ok_ext r). Qed.
Lemma who_row r : who (row_of r) = who r.
Proof. done. Qed.
Lemma stored_id r : Rule.Id (row_of r) = Rule.Id r.
Proof. done. Qed.
(** The fields that [Update] does not take from the request. *)
Lemma who_kept ar arf now :
  who (arf <| Rule.Id := Rule.Id ar |> <| Rule.GroupId := Rule.GroupId ar |> <| Rule.CreateAt := Rule.CreateAt ar |>
           <| Rule.CreateBy := Rule.CreateBy ar |> <| Rule.UpdateAt := now |>) = (Rule.Id ar, Rule.GroupId ar, Rule.Name arf).
Proof. done. Qed.
End core.

(** ** What a predicate must stand *)

(** No other row of the group has the name. *)
Definition name_free (d : rdb) (id g : Z) (name : string) : Prop :=
  ∀ i row, rd_rules d !! i = Some row → i ≠ id → Rule.GroupId row = g → Rule.Name row ≠ name.

Section stands.
Context `{GR : GoRange, StrLib, CronLib, PromIface}.
Context (P : rdb → Prop).

(** New rows in group [g]. *)
Definition stands_insert (g : Z) : Prop := ∀ d r,
  P d → rule_ok r → Rule.GroupId r = g → name_free d 0 g (Rule.Name r) → rd_rules d !! Rule.Id r = None →
  Rule.Id r ≠ 0 ∨ Rule.Id r = rd_nextid d →
  P (d <| rd_rules := <[Rule.Id r := row_of r]> (rd_rules d) |> <| rd_nextid := Z.max (rd_nextid d) (Rule.Id r + 1) |>).

(** A new form of a row; when [named], its name is that of the row or is free. *)
Definition stands_replace (named : Prop) (g : Z) : Prop := ∀ d id row r,
  P d → rd_rules d !! id = Some row → rule_ok r → Rule.Id r = id → Rule.GroupId row = g → Rule.GroupId r = g →
  (named → Rule.Name r = Rule.Name row ∨ name_free d id g (Rule.Name r)) →
  P (d <| rd_rules := <[id := row_of r]> (rd_rules d) |>).

Definition stands_delete (g : option Z) : Prop := ∀ d id row,
  P d → rd_rules d !! id = Some row → (∀ g', g = Some g' → Rule.GroupId row = g') →
  P (d <| rd_rules := delete id (rd_rules d) |>).
Definition stands_events : Prop := ∀ d evs, P d → P (d <| rd_events := evs |>).
End stands.

Section statements.
Context `{GR : GoRange, StrLib, CronLib, PromIface, RuleColumns}.
Context `{!Json iface, !Json (option (gmap string string)), !Json (list Z), !Json string}.
Context `{!Json RuleQuery, !Json PromRuleConfig, !Json HostRuleConfig, !Json relabel_part}.
Context (P : rdb → Prop) `{RP : !Rows P}.
Implicit Types ar : AlertRule.

Lemma exists_false d id g name :
  existsb (λ kr : Z * AlertRule, negb (fst kr =? id) && (Rule.GroupId (snd kr) =? g) && String.eqb (Rule.Name (snd kr)) name)
    (map_to_list (rd_rules d)) = false → name_free d id g name.
Proof.
  intros Hex i row Hi Hne Hg Hn.
  apply (existsb_false_elem _ _ (i, row)) in Hex; [|by apply elem_of_map_to_list]. simpl in Hex.
  rewrite Hg, Z.eqb_refl, Hn, String.eqb_refl in Hex. destruct (Z.eqb_spec i id); done.
Qed.

Lemma rows_name_free (b : bool) id g name : Rows (λ d, P d ∧ (b = false → name_free d id g name)).
Proof. intros d p Hp [Hd Hf]. split; [by apply RP|done]. Qed.

Lemma Exists_spec id g name :
  rhoare P (AlertRuleExists id g name) (λ b d, P d ∧ (b = false → name_free d id g name)) P.
Proof. eapply rhoare_weaken; [by apply rhoare_query|done| |done]. simpl. intros b d [Hd ->]. split; [done|]. apply exists_false. Qed.

Lemma Add_spec g ar now : stands_insert P g → Rule.GroupId ar = g →
  rhoare P (Add ar now) (λ r d, P d ∧ Rule.GroupId r = g) P.
Proof.
  intros Hins Hg. unfold Add. destruct (AlertRule_Verify ar) as [ar1 [e|]] eqn:Ev; [by intros d Hd|].
  pose proof (Verify_who _ _ Ev) as Hw. injection Hw as Ei Eg En. pose proof (AlertRule_Verify_ok _ _ Ev) as Hok.
  eapply rhoare_bind; [apply Exists_spec|]. intros b.
  set (R := λ d, P d ∧ (b = false → name_free d 0 (Rule.GroupId ar1) (Rule.Name ar1))).
  assert (Rows R) by apply rows_name_free. fold R.
  destruct b; [by intros d [Hd _]|]. eapply (rhoare_weaken _ _ R R); [apply rhoare_stmt; [done|]|done|by intros a d Hq; exact Hq|by intros d []].
  intros d HR. pose proof HR as [Hd Hfree]. specialize (Hfree eq_refl). unfold insert_row. rewrite Eg, Hg in Hfree.
  set (ar2 := ar1 <| Rule.CreateAt := now |> <| Rule.UpdateAt := now |>).
  set (ar3 := if Rule.Id ar2 =? 0 then ar2 <| Rule.Id := rd_nextid d |> else ar2).
  assert (rule_ok ar3 ∧ Rule.GroupId ar3 = g ∧ Rule.Name ar3 = Rule.Name ar1 ∧ (Rule.Id ar3 ≠ 0 ∨ Rule.Id ar3 = rd_nextid d)) as (Hok3 & Hg3 & Hn3 & Hi3).
  { destruct (rule_ok_stamped ar1 now (rd_nextid d) Hok). unfold ar3. destruct (Z.eqb_spec (Rule.Id ar2) 0); split_and!; try done;
      unfold ar2; rewrite ?Eg; auto; simpl; congruence. }
  clearbody ar3. destruct (rd_rules d !! Rule.Id ar3) eqn:El; [exact HR|]. split; [|done]. apply Hins; try done. by rewrite Hn3.
Qed.

Lemma delete_spec g id : stands_delete P g → stands_events P → rhoare P (delete_rule g id) (λ _, P) P.
Proof.
  intros Hdel Hev. unfold delete_rule. eapply (rhoare_bind _ _ (λ _, P)).
  - apply rhoare_stmt; [done|]. intros d Hd. destruct (rd_rules d !! id) as [r|] eqn:El; [|done].
    destruct g as [g|]; [destruct (Z.eqb_spec (Rule.GroupId r) g) as [E|]; [|done]|]; eapply Hdel; try done; congruence.
  - intros []; [|apply rhoare_ret]. intros d Hd. unfold ignore_error.
    assert (rhoare P (rstmt (λ d, (d <| rd_events := List.filter (λ e, negb (Event.RuleId e =? id)) (rd_events d) |>, Ok tt))) (λ _, P) P)
      as Hs by (apply rhoare_stmt; [done|]; intros d' Hd'; by apply Hev).
    specialize (Hs d Hd). by destruct (rstmt _ d) as [d' [[a|e]|]].
Qed.

Lemma each_spec {A B} (f : A → rsql B) l : (∀ x, rhoare P (f x) (λ _, P) P) → rhoare P (each f l) (λ _, P) P.
Proof.
  intros Hf. induction l as [|x l IH]; simpl; [apply rhoare_ret|].
  eapply rhoare_bind; [apply Hf|]. intros y. eapply rhoare_bind; [exact IH|]. intros ys. apply rhoare_ret.
Qed.

Lemma Dels_spec g ids : stands_delete P g → stands_events P → rhoare P (AlertRuleDels ids g) (λ _, P) P.
Proof.
  intros Hdel Hev. unfold AlertRuleDels. apply (rhoare_bind _ _ (λ _, P)); [apply each_spec; intros id; by apply delete_spec|]. intros _. apply rhoare_ret.
Qed.

(** The rule that was read is the row. *)
Definition read_as (id : Z) ar (d : rdb) : Prop :=
  ∃ row, rd_rules d !! id = Some row ∧ who ar = who row.

Lemma GetById_spec id :
  rhoare P (AlertRuleGetById id) (λ o d, P d ∧ ∀ ar, o = Some ar → read_as id ar d) P.
Proof.
  unfold AlertRuleGetById. eapply rhoare_bind; [by apply rhoare_query|]. intros [r|]; simpl; [|by intros d [Hd _]].
  eapply rhoare_bind.
  - eapply rhoare_weaken; [apply rhoare_go| by intros d Hd; exact Hd|by intros a d Hq; exact Hq|by intros d []].
  - intros r' d [[Hd Hr] Hfe]. split; [done|]. intros ar [= <-]. exists r. split; [done|]. by apply who_DB2FE.
Qed.

Lemma rows_read id ar : Rows (λ d, P d ∧ read_as id ar d).
Proof. intros d p Hp [Hd (row & Hr & Hw)]. split; [by apply RP|]. by exists row. Qed.

(** [Update] of the rule [ar] that was read as the row [id]. *)
Lemma Update_spec id g ar arf now : (∀ d, P d → ∀ i r, rd_rules d !! i = Some r → Rule.Id r = i) →
  stands_replace P (trim_space (Rule.Name arf) = Rule.Name arf) g → Rule.GroupId ar = g →
  rhoare (λ d, P d ∧ read_as id ar d) (Update ar arf now) (λ _, P) P.
Proof.
  intros Hkey Hrep Hg. unfold Update.
  assert (∀ d, P d ∧ read_as id ar d → Rule.Id ar = id) as Hid.
  { intros d [Hd (row & Hr & Hw)]. injection Hw as -> _ _. by apply (Hkey d). }
  set (cond := λ (b : bool) d, P d ∧ read_as id ar d ∧
    (b = false → Rule.Name ar = Rule.Name arf ∨ name_free d id g (Rule.Name arf))).
  assert (∀ b, Rows (cond b)) as Hrows.
  { intros b d p Hp (Hd & Hr & Hf). split_and!; [by apply RP|exact Hr|exact Hf]. }
  eapply (rhoare_bind _ _ cond).
  - destruct (String.eqb_spec (Rule.Name ar) (Rule.Name arf)) as [En|En].
    + intros d [Hd Hr]. split_and!; [done|done|]. by left.
    + intros d Hd. rewrite (Hid d Hd). revert d Hd. assert (Rows (λ d, P d ∧ read_as id ar d)) by apply rows_read.
      unfold AlertRuleExists. eapply rhoare_weaken; [by apply rhoare_query|done| |by intros d []].
      simpl. intros b d [[Hd Hr] ->]. split_and!; [done|done|]. rewrite Hg. intros Hf%exists_false. by right.
  - intros []; [by intros d []|].
    destruct (AlertRule_FE2DB arf) as [arf1 [e|]] eqn:Ef; [by intros d []|].
    pose proof (who_FE2DB arf) as Hwf. rewrite Ef in Hwf. injection Hwf as _ _ Enf.
    pose proof (who_kept ar arf1 now) as Hw2. rewrite Enf in Hw2.
    set (arf2 := set Rule.UpdateAt _ _) in *. clearbody arf2. destruct (AlertRule_Verify arf2) as [arf3 [e|]] eqn:Ev; [by intros d []|].
    pose proof (Verify_who _ _ Ev) as Hw. injection Hw2 as E1 E2 E3. injection Hw as E4 E5 E6. pose proof (AlertRule_Verify_ok _ _ Ev) as Hok.
    assert (Rows (cond false)) by apply Hrows.
    eapply rhoare_weaken; [apply (rhoare_stmt (cond false))|done|intros a d Hq; exact Hq|by intros d []].
    intros d (Hd & Hr & Hf). pose proof (Hid d (conj Hd Hr)) as Ei. rewrite Ei. destruct Hr as (row & Hrow & Hwho). rewrite Hrow.
    injection Hwho as Ei' Eg' En'.
    unfold replace_row. rewrite stored_id, E4, E1, Ei, Z.eqb_refl. apply (Hrep d id row arf3); try congruence; try done.
    intros Htrim. rewrite E6, E3, Htrim. destruct (Hf eq_refl) as [Hn|Hn]; [left; congruence|by right].
Qed.
End statements.

(** ** Requests *)

Inductive rule_request :=
  | RuleAdd (bgid : Z) (lst : list AlertRule) (lang : string)
  | RuleImport (bgid : Z) (lst : list AlertRule) (lang : string)
  | RuleImportProm (bgid : Z) (payload : string) (queries : list DatasourceQuery) (disabled : Z) (lang : string)
  | RuleDel (bgid : Z) (ids : list Z)
  | RulePut (arid : Z) (f : AlertRule)
  | RuleClones (ruleIds bgids : list Z) (lang : string)
  | RuleFields (bgid : Z) (ids : list Z) (fields : gmap string iface) (action : string)
  | RuleCloneHosts (bgid : Z) (ids : list Z) (idents : list string).

Definition rule_operation (r : rule_request) : string :=
  match r with
  | RuleDel _ _ => "/alert-rules/del"
  | RulePut _ _ | RuleFields _ _ _ _ => "/alert-rules/put"
  | _ => "/alert-rules/add"
  end.

(** The two routes that check the group of the URL and not those of the rules, and that do not
    validate what they write. *)
Definition url_group (r : rule_request) : option Z :=
  match r with RuleFields bgid _ _ _ | RuleCloneHosts bgid _ _ => Some bgid | _ => None end.

(** A name without space around it; only the name of a changed rule matters. *)
Definition trimmed (r : rule_request) : Prop :=
  match r with RulePut _ f => trim_space (Rule.Name f) = Rule.Name f | _ => True end.

Section requests.
Context `{GR : GoRange, StrLib, CronLib, PromIface, RuleColumns, RegexpSub, ApiText, DurationLib}.
Context `{!Json iface, !Json (option (gmap string string)), !Json (list Z), !Json string}.
Context `{!Json RuleQuery, !Json PromRuleConfig, !Json HostRuleConfig, !Json relabel_part}.
Context (write_back : bool).
Implicit Types (me : User) (ar : AlertRule).

Definition serve_rule me (now : Z) (r : rule_request) : rhandler unit :=
  match r with
  | RuleAdd bgid lst lang => alertRuleAddByFE me bgid lst lang now;; mret tt
  | RuleImport bgid lst lang => alertRuleAddByImport me bgid lst lang now;; mret tt
  | RuleImportProm bgid payload queries disabled lang => alertRuleAddByImportPromRule me bgid payload queries disabled lang now;; mret tt
  | RuleDel bgid ids => alertRuleDel me bgid ids;; mret tt
  | RulePut arid f => alertRulePutByFE me arid f now;; mret tt
  | RuleClones ruleIds bgids lang => batchAlertRuleClone me ruleIds bgids lang now;; mret tt
  | RuleFields bgid ids fields action => alertRulePutFields write_back me bgid ids fields action now
  | RuleCloneHosts bgid ids idents => cloneToMachine me bgid ids idents now;; mret tt
  end.

Section kept.
Context (P : rdb → Prop) `{RP : !Rows P}.

Lemma rhh_ret {A} (a : A) : rhh P (mret a) (λ _, P) P.
Proof. by intros d Hd. Qed.
Lemma rhh_bomb {A} code msg : rhh P (rbomb (A := A) code msg) (λ _, P) P.
Proof. by intros d Hd. Qed.
Lemma rhh_if_bomb {A} (b : bool) code msg (h : rhandler A) : rhh P h (λ _, P) P → rhh P (if b then rbomb code msg else h) (λ _, P) P.
Proof. intros Hh. destruct b; [apply rhh_bomb|done]. Qed.
Lemma rhh_seq {A B} (h : rhandler A) (k : A → rhandler B) :
  rhh P h (λ _, P) P → (∀ a, rhh P (k a) (λ _, P) P) → rhh P (h ≫= k) (λ _, P) P.
Proof. intros Hh Hk. by eapply rhh_bind. Qed.

Lemma add_rules_spec translate now lst reterr :
  Forall (λ ar, stands_insert P (Rule.GroupId ar)) lst → rhh P (add_rules translate now lst reterr) (λ _, P) P.
Proof.
  intros Hl. revert reterr. induction Hl as [|ar lst Har Hl IH]; intros reterr; simpl; [apply rhh_ret|].
  destruct (AlertRule_FE2DB ar) as [ar1 [e|]] eqn:Ef; [apply IH|].
  pose proof (who_FE2DB ar) as Hw. rewrite Ef in Hw. injection Hw as _ Hg _.
  apply rhh_seq; [|intros r; apply IH].
  eapply rhh_weaken; [apply rhh_attempt; apply (Add_spec P (Rule.GroupId ar)); [done|exact Hg]|done| |done].
  intros [a|e] d Hd; [by destruct Hd|done].
Qed.

Lemma alertRuleAdd_spec lst username bgid lang now :
  stands_insert P bgid → rhh P (alertRuleAdd lst username bgid lang now) (λ _, P) P.
Proof.
  intros Hins. apply add_rules_spec, Forall_forall. intros ar (ar0 & -> & _)%list_elem_of_fmap.
  assert (Rule.GroupId (stamp username (ar0 <| Rule.Id := 0 |> <| Rule.GroupId := bgid |>)) = bgid) as ->; [|done].
  unfold stamp. by case_match.
Qed.

Lemma clone_to_spec me arid lang now bgids :
  Forall (stands_insert P) bgids → ∀ cur reterr, rhh P (clone_to me arid lang now cur bgids reterr) (λ _, P) P.
Proof.
  induction 1 as [|bgid bgids Hg Hgs IH]; intros cur reterr; simpl; [apply rhh_ret|].
  destruct cur as [[r|]|e]; [|apply IH..]. eapply rhh_bind.
  - apply rhh_attempt. by apply (Add_spec P bgid).
  - intros [a|e]; [|apply IH]. intros d [Hd _]. by apply IH.
Qed.

Lemma GetById_keeps id : rhoare P (AlertRuleGetById id) (λ _, P) P.
Proof.
  intros d Hd. pose proof (GetById_spec P id d Hd) as Hq. destruct (AlertRuleGetById id d) as [d' [[o|e]|]]; [by destruct Hq|done..].
Qed.

Lemma clone_rules_spec me lang now bgids ruleIds :
  Forall (stands_insert P) bgids → ∀ reterr, rhh P (clone_rules me lang now bgids ruleIds reterr) (λ _, P) P.
Proof.
  intros Hg. induction ruleIds as [|arid ruleIds IH]; intros reterr; simpl; [apply rhh_ret|]. apply rhh_seq.
  - eapply rhh_weaken; [apply rhh_attempt, GetById_keeps|done|by intros [] d Hd|done].
  - intros ar. apply rhh_seq; [by apply clone_to_spec|]. intros reterr'. apply IH.
Qed.

Lemma check_groups_spec p0 me bgids : (∀ d, P d → same p0 (rd_perm d)) →
  rhh P (check_groups me bgids) (λ _ d, P d ∧ Forall (λ g, may_bg p0 me g (Some "rw")) bgids) P.
Proof.
  intros Hp. induction bgids as [|g bgids IH]; simpl; [by intros d Hd|].
  eapply rhh_bind; [apply (rhh_guard P _ _ p0 (bgrw_reads me g) Hp)|]. intros _ d [Hd Hg]. revert d Hd.
  eapply rhh_weaken; [exact IH|done| |done]. intros _ d [Hd Hgs]. split; [done|by constructor].
Qed.

Lemma rule_of_spec arid : rhh P (rule_of arid) (λ ar d, P d ∧ read_as arid ar d) P.
Proof.
  unfold rule_of. eapply rhh_bind; [apply rhh_danger, (GetById_spec P)|]. intros [ar|] d [Hd Hr]; [|done]. split; [done|]. by apply Hr.
Qed.

Lemma put_spec arid f now (named : Prop) : (∀ d, P d → ∀ i r, rd_rules d !! i = Some r → Rule.Id r = i) →
  (named → trim_space (Rule.Name f) = Rule.Name f) → ∀ ar, stands_replace P named (Rule.GroupId ar) →
  rhh (λ d, P d ∧ read_as arid ar d) (message (Update ar f now)) (λ _, P) P.
Proof.
  intros Hkey Hn ar Hrep. apply rhh_message. apply (Update_spec P arid (Rule.GroupId ar)); [done| |done].
  intros d id row r Hd Hrow Hok Hid Hg Hg' Hname. eapply Hrep; eauto.
Qed.
End kept.

(** A request that is validated keeps what stands the statements that its checks allow. *)
Lemma serve_rule_spec (P : rdb → Prop) `{!Rows P} p0 me now r (named : Prop) :
  (∀ d, P d → same p0 (rd_perm d)) → (∀ d, P d → ∀ i row, rd_rules d !! i = Some row → Rule.Id row = i) → stands_events P →
  (named → trimmed r) → url_group r = None →
  (∀ g, may_op p0 me (rule_operation r) → may_bg p0 me g (Some "rw") →
     stands_insert P g ∧ stands_delete P (Some g) ∧ stands_replace P named g) →
  rhh P (serve_rule me now r) (λ _, P) P.
Proof.
  intros Hp Hkey Hev Hn Hurl Hmay.
  assert (∀ {B} op (k : rhandler B), op = rule_operation r → (may_op p0 me op → rhh P k (λ _, P) P) →
    rhh P (guard (perm me op);; k) (λ _, P) P) as Hperm.
  { intros B op k -> Hk. eapply rhh_bind; [apply (rhh_guard P _ _ p0 (perm_reads me _) Hp)|]. intros _ d [Hd Hop]. by apply Hk. }
  assert (∀ {B} g (k : rhandler B), (may_bg p0 me g (Some "rw") → rhh P k (λ _, P) P) →
    rhh P (guard (bgrw me g);; k) (λ _, P) P) as Hbg.
  { intros B g k Hk. eapply rhh_bind; [apply (rhh_guard P _ _ p0 (bgrw_reads me g) Hp)|]. intros _ d [Hd Hg]. by apply Hk. }
  destruct r as [bgid lst lang|bgid lst lang|bgid payload qs dis lang|bgid ids|arid f|ids bgids lang|bgid ids fields action|bgid ids idents];
    [..|done|done]; simpl;
    (apply rhh_seq; [|intros _; apply rhh_ret]); (apply Hperm; [done|]; intros Hop).
  - apply Hbg. intros Hg. apply rhh_if_bomb, alertRuleAdd_spec; [done|]. by apply Hmay.
  - apply Hbg. intros Hg. apply rhh_if_bomb, alertRuleAdd_spec; [done|]. by apply Hmay.
  - apply Hbg. intros Hg. apply rhh_seq; [|intros gs; apply alertRuleAdd_spec; [done|]; by apply Hmay].
    unfold prom_groups. repeat case_match; apply rhh_ret || apply rhh_bomb.
  - apply Hbg. intros Hg. apply rhh_if_bomb, rhh_message. apply Dels_spec; [done| |done]. by apply Hmay.
  - eapply rhh_bind; [by apply rule_of_spec|]. intros ar.
    assert (Rows (λ d, P d ∧ read_as arid ar d)) by by apply rows_read.
    eapply rhh_bind.
    + eapply rhh_weaken; [apply (rhh_guard (λ d, P d ∧ read_as arid ar d) _ _ p0 (bgrw_reads me _))|done|by intros a d Hq; exact Hq|by intros d []].
      intros d [Hd _]. by apply Hp.
    + intros _ d [Hd Hg]. revert d Hd. apply (put_spec P arid _ now named); [done|done|]. by apply Hmay.
  - eapply rhh_bind; [by apply (check_groups_spec P p0)|]. intros _ d [Hd Hgs]. revert d Hd. apply clone_rules_spec; [done|].
    eapply Forall_impl; [exact Hgs|]. intros g Hg. by apply Hmay.
Qed.

(** *** Who may change rules *)

Record rules_frame (G : Z → Prop) (d0 d : rdb) : Prop := {
  rf_perm : same (rd_perm d0) (rd_perm d);
  rf_keyed : ∀ i row, rd_rules d !! i = Some row → Rule.Id row = i;
  rf_rules : ∀ i, rd_rules d !! i = rd_rules d0 !! i ∨
               ∀ row, rd_rules d0 !! i = Some row ∨ rd_rules d !! i = Some row → G (Rule.GroupId row)
}.
#[export] Instance rules_frame_rows G d0 : Rows (rules_frame G d0).
Proof. intros d p [f ->] [[f0 Hp] Hk Hr]. split; [|done..]. exists f. simpl. by rewrite Hp. Qed.

Section frame.
Context (G : Z → Prop) (d0 : rdb).

(** Where a row of an allowed group is, or none, there was one, or none. *)
Lemma frame_before d i : rules_frame G d0 d → (∀ row, rd_rules d !! i = Some row → G (Rule.GroupId row)) →
  ∀ row, rd_rules d0 !! i = Some row → G (Rule.GroupId row).
Proof. intros Hf Hg row Hrow. destruct (rf_rules _ _ _ Hf i) as [E|Hr]; [apply Hg; congruence|apply Hr; by left]. Qed.

Lemma frame_write d i (new : option AlertRule) n rows : rules_frame G d0 d →
  (∀ row, rd_rules d !! i = Some row → G (Rule.GroupId row)) → (∀ row, new = Some row → G (Rule.GroupId row) ∧ Rule.Id row = i) →
  rows = partial_alter (λ _, new) i (rd_rules d) →
  rules_frame G d0 (d <| rd_rules := rows |> <| rd_nextid := n |>).
Proof.
  intros Hf Hold Hnew ->. pose proof (frame_before d i Hf Hold) as Hb. destruct Hf as [Hp Hk Hr]. split; [done|..]; simpl.
  - intros j row. destruct (decide (j = i)) as [->|]; [rewrite lookup_partial_alter_eq; naive_solver|].
    rewrite lookup_partial_alter_ne by done. apply Hk.
  - intros j. destruct (decide (j = i)) as [->|]; [right; rewrite lookup_partial_alter_eq; naive_solver|].
    rewrite lookup_partial_alter_ne by done. apply Hr.
Qed.

Lemma frame_insert g : G g → stands_insert (rules_frame G d0) g.
Proof.
  intros Hg d r Hd _ <- _ Hnone _. eapply (frame_write d (Rule.Id r) (Some (row_of r))); [done|congruence| |done].
  intros row [= <-]. done.
Qed.
Lemma frame_replace named g : G g → stands_replace (rules_frame G d0) named g.
Proof.
  intros Hg d id row r Hd Hrow _ Hid <- Hg' _.
  eapply (frame_write d id (Some (row_of r)) (rd_nextid d)); [done|by intros ? [= <-]%(eq_trans (eq_sym Hrow))| |done].
  intros ? [= <-]. split; [|done]. change (G (Rule.GroupId r)). by rewrite Hg'.
Qed.
Lemma frame_delete g : G g → stands_delete (rules_frame G d0) (Some g).
Proof.
  intros Hg d id row Hd Hrow Hgr. eapply (frame_write d id None (rd_nextid d)); [done| |done|done].
  intros ? [= <-]%(eq_trans (eq_sym Hrow)). by rewrite (Hgr g eq_refl).
Qed.
End frame.

Lemma validated_authorised me now r d :
  (∀ i row, rd_rules d !! i = Some row → Rule.Id row = i) → url_group r = None →
  rules_frame (λ g, may_op (rd_perm d) me (rule_operation r) ∧ may_bg (rd_perm d) me g (Some "rw")) d (fst (serve_rule me now r d)).
Proof.
  intros Hk Hurl. set (G := λ g, may_op (rd_perm d) me (rule_operation r) ∧ may_bg (rd_perm d) me g (Some "rw")).
  apply (rhh_fst (rules_frame G d)); [|split; [apply same_refl|done|by left]].
  apply (serve_rule_spec _ (rd_perm d) _ _ _ False); [apply rf_perm|apply rf_keyed| |done|done|].
  - by intros d1 evs [Hp Hk1 Hr].
  - intros g Hop Hg. split_and!; [by apply frame_insert|by apply frame_delete|by apply frame_replace].
Qed.

(** *** The two other routes *)

Section url.
Context (p0 : pdb).
Let P (d : rdb) : Prop := same p0 (rd_perm d).

#[local] Instance stays_rows : Rows P.
Proof. intros d p [f ->] [f0 E]. exists f. simpl. by rewrite E. Qed.

(** Statements that leave the tables of users. *)
Definition stays {A} (m : rsql A) : Prop := rhoare P m (λ _, P) P.

Lemma stays_bind {A B} (m : rsql A) (k : A → rsql B) : stays m → (∀ a, stays (k a)) → stays (m ≫= k).
Proof. intros Hm Hk. by eapply rhoare_bind. Qed.
Lemma stays_ret {A} (a : A) : stays (mret a).
Proof. by intros d Hd. Qed.
Lemma stays_fail {A} e : stays (rfail (A := A) e).
Proof. by intros d Hd. Qed.
Lemma stays_panic {A} : stays (rpanic (A := A)).
Proof. by intros d Hd. Qed.
Lemma stays_result {A} (r : result A) : stays (lift_result r).
Proof. intros d Hd. unfold lift_result. by destruct r. Qed.
Lemma stays_go {A} (g : go A) : stays (lift_go g).
Proof. intros d Hd. unfold lift_go. by destruct g. Qed.
Lemma stays_stmt {A} (f : rdb → rdb * result A) : (∀ d, rd_perm (f d).1 = rd_perm d) → stays (rstmt f).
Proof.
  intros Hf. apply rhoare_stmt; [apply _|]. intros d Hd. specialize (Hf d). unfold P in *.
  destruct (f d) as [d' [a|e]]; simpl in Hf; by rewrite Hf.
Qed.
Lemma stays_query {A} (f : rdb → A) : stays (rquery f).
Proof. by apply stays_stmt. Qed.

Lemma stays_UpdateFieldsMap ar cols : stays (UpdateFieldsMap write_back ar cols).
Proof.
  apply stays_bind; [|intros _; apply stays_ret]. apply stays_stmt. intros d. unfold replace_row. by repeat case_match.
Qed.
Hint Resolve stays_ret stays_fail stays_panic stays_result stays_go stays_query stays_UpdateFieldsMap : core.
Local Ltac stay := repeat first [done|by auto|apply stays_bind; [|intros ?]|case_match].

Lemma stays_set_severity ar severity : stays (set_severity write_back ar severity).
Proof. unfold set_severity, edit_config. stay. Qed.
Lemma stays_write_annotations ar : stays (write_annotations write_back ar).
Proof. unfold write_annotations. stay. Qed.
Hint Resolve stays_set_severity stays_write_annotations : core.
Lemma stays_UpdateColumn ar column value : stays (UpdateColumn write_back ar column value).
Proof. unfold UpdateColumn. stay. Qed.
Hint Resolve stays_UpdateColumn : core.
Lemma stays_field_action fields action ar : stays (field_action write_back fields action ar).
Proof.
  unfold field_action, update_triggers, annotations_add, annotations_del, callback_add, callback_del, datasource_change. cbv zeta. stay.
Qed.
Lemma stays_put_each l ar : stays (put_each write_back l ar).
Proof. revert ar. induction l as [|kv l IH]; intros ar; simpl; [done|]. unfold put_field. stay. Qed.
Hint Resolve stays_field_action stays_put_each : core.
Lemma stays_put_fields fields action by_ now ar : stays (put_fields write_back fields action by_ now ar).
Proof. unfold put_fields. stay. Qed.

Lemma stays_GetById id : stays (AlertRuleGetById id).
Proof. unfold AlertRuleGetById. stay. Qed.
Lemma stays_DB2FE_all rows : stays (DB2FE_all rows).
Proof. unfold DB2FE_all. induction rows as [|r rows IH]; simpl; [done|]. stay. Qed.
Hint Resolve stays_put_fields stays_GetById stays_DB2FE_all : core.
Lemma stays_GetsByIds ids : stays (AlertRuleGetsByIds ids).
Proof. unfold AlertRuleGetsByIds. stay. Qed.
Lemma insert_rows_perm ars d : rd_perm (insert_rows ars d).1 = rd_perm d.
Proof.
  revert d. induction ars as [|ar ars IH]; intros d; simpl; [done|].
  assert (rd_perm (insert_row ar d).1 = rd_perm d) as Hrow by (unfold insert_row; by case_match).
  destruct (insert_row ar d) as [d1 [a|e]]; [|done]. specialize (IH d1). destruct (insert_rows ars d1) as [d2 []]; [|done].
  simpl in *. congruence.
Qed.
Lemma stays_InsertAlertRule ars : stays (InsertAlertRule ars).
Proof. destruct ars as [|ar ars]; [apply stays_ret|]. apply stays_stmt. intros d. apply insert_rows_perm. Qed.
Hint Resolve stays_GetsByIds stays_InsertAlertRule : core.

(** Handlers that leave them. *)
Lemma stays_attempt {A} (m : rsql A) : stays m → rhh P (attempt m) (λ _, P) P.
Proof. intros Hm. eapply rhh_weaken; [by apply rhh_attempt|done|by intros [] d Hd|done]. Qed.

Lemma stays_put_rules fields action by_ now ids : rhh P (put_rules write_back fields action by_ now ids) (λ _, P) P.
Proof.
  induction ids as [|id ids IH]; simpl; [apply rhh_ret|]. apply rhh_seq; [apply rhh_danger, stays_GetById|]. intros [ar|]; [|done].
  apply rhh_seq; [apply rhh_danger, stays_put_fields|done].
Qed.

Lemma stays_for_hosts user now idents : ∀ ar errMsg, rhh P (for_hosts user now idents ar errMsg) (λ _, P) P.
Proof.
  induction idents as [|ident idents IH]; intros ar errMsg; cbn [for_hosts]; [apply rhh_ret|].
  destruct (for_host user now ident ar) as [ar' newRule].
  apply rhh_seq; [apply stays_attempt; unfold AlertRuleExists; by auto|]. intros [[]|err]; [apply IH| |apply IH].
  apply rhh_seq; [apply IH|]. intros [rules errs]. apply rhh_ret.
Qed.

Lemma stays_clone_hosts user now idents ars : ∀ reterr, rhh P (clone_hosts user now idents ars reterr) (λ _, P) P.
Proof.
  induction ars as [|ar ars IH]; intros reterr; cbn [clone_hosts]; [apply rhh_ret|]. case_match; [apply IH|]. case_match; [apply IH|].
  apply rhh_seq; [apply stays_for_hosts|]. intros [rules errMsg]. apply rhh_seq; [apply IH|]. intros [more errs]. apply rhh_ret.
Qed.

(** Behind both checks, whatever rows are written. *)
Lemma url_checked {A} me op bgid (k : rhandler A) d0 : p0 = rd_perm d0 → rhh P k (λ _, P) P →
  rhh (λ d, P d ∧ rd_rules d = rd_rules d0) (guard (perm me op);; guard (bgrw me bgid);; k)
    (λ _ d, P d ∧ (rd_rules d = rd_rules d0 ∨ may_op p0 me op ∧ may_bg p0 me bgid (Some "rw")))
    (λ d, P d ∧ (rd_rules d = rd_rules d0 ∨ may_op p0 me op ∧ may_bg p0 me bgid (Some "rw"))).
Proof.
  intros Hp0 Hk. set (R := λ d, P d ∧ rd_rules d = rd_rules d0).
  assert (Rows R) by (intros d p Hp [Hd Hr]; split; [by apply stays_rows|done]).
  eapply rhh_bind; [eapply rhh_weaken; [apply (rhh_guard R _ _ p0 (perm_reads me op))|done|by intros a d Hq; exact Hq|]|].
  { by intros d []. }
  { intros d [Hd Hr]. split; [done|by left]. }
  intros _ d [Hd Hop]. revert d Hd.
  eapply rhh_bind; [eapply rhh_weaken; [apply (rhh_guard R _ _ p0 (bgrw_reads me bgid))|done|by intros a d Hq; exact Hq|]|].
  { by intros d []. }
  { intros d [Hd Hr]. split; [done|by left]. }
  intros _ d [[Hd _] Hg]. revert d Hd. eapply rhh_weaken; [exact Hk|done| |]; by auto.
Qed.
End url.

Lemma url_authorised me now r bgid d : url_group r = Some bgid →
  let d' := fst (serve_rule me now r d) in
  same (rd_perm d) (rd_perm d') ∧
  (rd_rules d' = rd_rules d ∨ may_op (rd_perm d) me (rule_operation r) ∧ may_bg (rd_perm d) me bgid (Some "rw")).
Proof.
  intros Hurl d'. set (K := λ d1, same (rd_perm d) (rd_perm d1) ∧
    (rd_rules d1 = rd_rules d ∨ may_op (rd_perm d) me (rule_operation r) ∧ may_bg (rd_perm d) me bgid (Some "rw"))).
  apply (rhh_fst (λ d1, same (rd_perm d) (rd_perm d1) ∧ rd_rules d1 = rd_rules d) K); [|split; [apply same_refl|done]].
  destruct r as [| | | | | |g ids fields action|g ids idents]; try done; injection Hurl as ->; simpl.
  - apply url_checked; [done|]. case_match; [apply rhh_bomb|apply stays_put_rules].
  - eapply (rhh_bind _ _ (λ _, K)); [|by intros a d1 Hd1]. apply url_checked; [done|]. case_match; [apply rhh_bomb|].
    apply rhh_seq; [apply rhh_danger, stays_GetsByIds|]. intros ars. apply rhh_seq; [apply stays_clone_hosts|]. intros [rules reterr].
    apply rhh_seq; [apply rhh_message, stays_InsertAlertRule|]. intros err. apply rhh_ret.
Qed.

(** C32. Any request to add, import, change, copy or delete alert rules leaves the tables of users
    as they were, and changes rules only when its user has the operation of the route.  On the
    routes that are validated, the rules that are changed, added or deleted are of business
    groups that the user may write.  On the routes that change fields and that copy rules for
    hosts, the user may write the group of the URL, and the rules can be of any group. *)
Theorem rule_request_authorised me now r d :
  (∀ i row, rd_rules d !! i = Some row → Rule.Id row = i) →
  let d' := fst (serve_rule me now r d) in
  same (rd_perm d) (rd_perm d') ∧
  ∀ i, rd_rules d' !! i = rd_rules d !! i ∨
    (may_op (rd_perm d) me (rule_operation r) ∧
     match url_group r with
     | Some bgid => may_bg (rd_perm d) me bgid (Some "rw")
     | None => ∀ row, rd_rules d !! i = Some row ∨ rd_rules d' !! i = Some row → may_bg (rd_perm d) me (Rule.GroupId row) (Some "rw")
     end).
Proof.
  intros Hk d'. destruct (url_group r) as [bgid|] eqn:Hurl.
  - destruct (url_authorised me now r bgid d Hurl) as [Hp Hr]. split; [done|]. intros i.
    destruct Hr as [E|Hr]; [left; unfold d'; by rewrite E|by right].
  - pose proof (validated_authorised me now r d Hk Hurl) as [Hp _ Hr]. fold d' in Hp, Hr. split; [done|]. intros i.
    destruct (Hr i) as [E|HG]; [by left|].
    destruct (rd_rules d !! i) as [row|] eqn:E, (rd_rules d' !! i) as [row'|] eqn:E'; [..|by left]; right;
      (split; [|by intros x Hx; apply HG; rewrite ?E, ?E'; destruct Hx; auto]).
    + by apply (HG row); left.
    + by apply (HG row); left.
    + by apply (HG row'); right.
Qed.

(** *** What the table keeps *)

Record table_ok (d : rdb) : Prop := {
  tb_keyed : ∀ i row, rd_rules d !! i = Some row → Rule.Id row = i;
  tb_ids : 0 < rd_nextid d ∧ ∀ i row, rd_rules d !! i = Some row → i ≠ 0;
  tb_verified : ∀ i row, rd_rules d !! i = Some row → rule_ok row;
  tb_unique : ∀ i j r r', rd_rules d !! i = Some r → rd_rules d !! j = Some r' →
    Rule.GroupId r = Rule.GroupId r' → Rule.Name r = Rule.Name r' → i = j
}.
#[export] Instance table_ok_rows : Rows table_ok.
Proof. by intros d p _ []. Qed.
Lemma rows_and P p0 : Rows P → Rows (λ d, P d ∧ same p0 (rd_perm d)).
Proof. intros RP d p Hp [Hd [f0 E0]]. split; [by apply RP|]. destruct Hp as [f ->]. exists f. simpl. by rewrite E0. Qed.

Lemma table_write d id r n : table_ok d → rule_ok r → Rule.Id r = id → id ≠ 0 → 0 < n →
  (∀ i row, rd_rules d !! i = Some row → i ≠ id → Rule.GroupId row = Rule.GroupId r → Rule.Name row ≠ Rule.Name r) →
  table_ok (d <| rd_rules := <[id := row_of r]> (rd_rules d) |> <| rd_nextid := n |>).
Proof.
  intros [Hk [Hn Hz] Hv Hu] Hok Hid Hnz Hn' Hfree. split; [| | |]; simpl.
  - intros i row [[<- <-]|[_ Hi]]%lookup_insert_Some; [done|by apply Hk].
  - split; [done|]. intros i row [[<- _]|[_ Hi]]%lookup_insert_Some; [done|by eapply Hz].
  - intros i row [[_ <-]|[_ Hi]]%lookup_insert_Some; [by apply rule_ok_row|by eapply Hv].
  - intros i j r1 r2 [[<- <-]|[Hne Hi]]%lookup_insert_Some [[<- <-]|[Hne' Hj]]%lookup_insert_Some Hg Hnm; [done|..].
    + destruct (Hfree j r2 Hj ltac:(done)); done.
    + destruct (Hfree i r1 Hi ltac:(done)); done.
    + by eapply Hu.
Qed.

Lemma table_insert g : stands_insert table_ok g.
Proof.
  intros d r Hd Hok Hg Hfree Hnone Hid. pose proof (tb_ids _ Hd) as [Hn Hz]. apply table_write; try done; [lia|lia|].
  intros i row Hi Hne Hgr. rewrite Hg in Hgr. eapply Hfree; [done|by eapply Hz|done].
Qed.
Lemma table_replace g : stands_replace table_ok True g.
Proof.
  intros d id row r Hd Hrow Hok Hid Hg Hg' Hname. pose proof (tb_ids _ Hd) as [Hn Hz].
  assert (table_ok (d <| rd_rules := <[id := row_of r]> (rd_rules d) |> <| rd_nextid := rd_nextid d |>)) as Ht; [|by destruct d].
  apply table_write; try done; [by eapply Hz|]. intros i row' Hi Hne Hgr. destruct (Hname I) as [->|Hfree].
  - intros En. apply Hne. eapply (tb_unique _ Hd); [done..|congruence|done].
  - eapply Hfree; [done|done|congruence].
Qed.
Lemma table_delete g : stands_delete table_ok g.
Proof.
  intros d id row [Hk [Hn Hz] Hv Hu] Hrow _. split; [|split; [done|]| |]; simpl.
  all: intros i; intros; repeat match goal with H : delete _ _ !! _ = Some _ |- _ => apply lookup_delete_Some in H as [_ H] end; eauto.
Qed.
Lemma table_events : stands_events table_ok.
Proof. by intros d evs []. Qed.

(** Requests on the routes that are validated, those of services, which are not checked for a
    user, and what else happens to the other tables. *)
Inductive rule_step : rdb → rdb → Prop :=
  | rs_request me now r d : trimmed r → url_group r = None → rule_step d (fst (serve_rule me now r d))
  | rs_add lst now d : rule_step d (fst (alertRuleAddByService lst now d))
  | rs_add_one f now d : rule_step d (fst (alertRuleAddOneByService f now d))
  | rs_del ids d : rule_step d (fst (alertRuleDelByService ids d))
  | rs_put arid f now d : trim_space (Rule.Name f) = Rule.Name f → rule_step d (fst (alertRulePutByService arid f now d))
  | rs_perm p d : rule_step d (d <| rd_perm := p |>)
  | rs_events evs d : rule_step d (d <| rd_events := evs |>).

Lemma serve_rule_table me now r d : trimmed r → url_group r = None → table_ok d → table_ok (fst (serve_rule me now r d)).
Proof.
  intros Ht Hurl Hd. set (P := λ d', table_ok d' ∧ same (rd_perm d) (rd_perm d')).
  assert (Rows P) by (apply rows_and, _).
  enough (P (fst (serve_rule me now r d))) as [? _] by done. apply (rhh_fst P); [|split; [done|apply same_refl]].
  apply (serve_rule_spec _ (rd_perm d) _ _ _ True); [by intros d' []|intros d' []; by apply tb_keyed| |done|done|].
  - intros d' evs [Hd' Hp]. split; [by apply table_events|done].
  - intros g _ _. split_and!.
    + intros d' r' [Hd' Hp] Hok Hg Hfree Hnone Hid. split; [|done]. by apply (table_insert g).
    + intros d' id row [Hd' Hp] Hrow Hg. split; [|done]. by eapply (table_delete (Some g)).
    + intros d' id row r' [Hd' Hp] Hrow Hok Hid Hg Hg' Hname. split; [|done]. by eapply (table_replace g).
Qed.

(** C39. Whatever requests to add, import, change as a whole, copy to groups and delete rules are
    served, those of services too, in whatever order and whichever statements fail, as long as
    the names given for changed rules have no space around them: the rows are verified rules
    under their own ids, and no two rules of a business group have the same name.  The routes
    that change fields and that copy rules for hosts are left out: they write rows that were
    not validated. *)
Theorem rules_invariant d d' : table_ok d → rtc rule_step d d' → table_ok d'.
Proof.
  intros Hd Hs. induction Hs as [d|d d1 d' Hs _ IH]; [done|]. apply IH. clear IH. destruct Hs as [me now r d Ht Hurl|lst now d|f now d|ids d|arid f now d Ht|p d|evs d].
  - by apply serve_rule_table.
  - apply (rhh_fst table_ok); [|done]. apply rhh_if_bomb, add_rules_spec; [apply _|]. apply Forall_forall. intros ar _. apply table_insert.
  - apply (rhh_fst table_ok); [|done]. unfold alertRuleAddOneByService. destruct (AlertRule_FE2DB f) as [f1 [e|]]; [apply rhh_bomb|].
    eapply rhh_bind; [apply rhh_danger, (Add_spec table_ok (Rule.GroupId f1)); [apply table_insert|done]|]. by intros a d1 [Hd1 _].
  - apply (rhh_fst table_ok); [|done]. apply rhh_if_bomb, rhh_message, Dels_spec; [apply _|apply table_delete|apply table_events].
  - apply (rhh_fst table_ok); [|done]. eapply rhh_bind; [apply rule_of_spec, _|]. intros ar.
    apply (put_spec table_ok arid _ now True); [intros d1 Hd1; by apply tb_keyed|done|apply table_replace].
  - by destruct Hd.
  - by apply table_events.
Qed.

(** *** Copies *)

Lemma clone_to_err me arid lang now err bgids reterr d :
  clone_to me arid lang now (Err err) bgids reterr d =
  (d, Users.Done (foldl (λ m bgid, <[clone_key arid bgid := i18n_Sprintf lang err]> m) reterr bgids)).
Proof. revert reterr. induction bgids as [|g bgids IH]; intros reterr; [done|]. simpl. by rewrite IH. Qed.

(** A rule that cannot be copied to one business group is copied to none of those after it:
    the error, of a name that is taken for instance, is reported for all of them. *)
Theorem clone_gives_up me arid lang now ar bgid bgids reterr d d1 err :
  Add (fst (AlertRule_Clone (Usr.Username me) bgid now ar)) now d = (d1, Ret (Err err)) →
  clone_to me arid lang now (Ok (Some ar)) (bgid :: bgids) reterr d =
  (d1, Users.Done (foldl (λ m g, <[clone_key arid g := i18n_Sprintf lang err]> m) reterr (bgid :: bgids))).
Proof.
  intros Hadd. cbn [clone_to]. cbn [AlertRule_Clone fst] in *. unfold mbind at 1, rhandler_bind, attempt. rewrite Hadd.
  by rewrite clone_to_err.
Qed.

(** *** Fields *)

Section fields.
Context `{!RuleColumnsLaws}.

(** A statement that works changes the row of the rule, and nothing else; the struct keeps
    its id. *)
Lemma UpdateFieldsMap_ok ar cols d d' ar' : "id" ∉ cols.*1 → UpdateFieldsMap write_back ar cols d = (d', Ret (Ok ar')) →
  (∀ row, rd_rules d !! Rule.Id ar = Some row → Rule.Id row = Rule.Id ar) →
  Rule.Id ar' = Rule.Id ar ∧
  match rd_rules d !! Rule.Id ar with
  | Some row => ∃ row', set_columns cols row = Ok row' ∧ rd_rules d' = <[Rule.Id ar := row']> (rd_rules d) ∧ Rule.Id row' = Rule.Id ar
  | None => rd_rules d' = rd_rules d
  end.
Proof.
  intros Hcols Hrun Hkey. unfold UpdateFieldsMap, mbind, rsql_bind, rstmt in Hrun. cbn in Hrun.
  change (rd_rules (d <| rd_perm := _ |>)) with (rd_rules d) in Hrun.
  set (wb := if write_back then _ else _) in Hrun.
  assert (Rule.Id wb = Rule.Id ar) as Hwb.
  { unfold wb. destruct write_back; [|done]. destruct (set_columns cols ar) as [r|] eqn:Es; [|done]. by apply (columns_id cols). }
  clearbody wb. destruct (rd_rules d !! Rule.Id ar) as [row|] eqn:Er.
  - destruct (set_columns cols row) as [row'|e] eqn:Es; [|by destruct (head (db_faults (rd_perm d))) as [[e'|]|]].
    assert (Rule.Id row' = Rule.Id ar) as Hid by (rewrite (columns_id _ _ _ Es Hcols); by apply Hkey).
    unfold replace_row in Hrun. rewrite Hid, Z.eqb_refl in Hrun.
    destruct (head (db_faults (rd_perm d))) as [[e|]|]; [done|..]; injection Hrun as <- <-; (split; [done|]; by exists row').
  - destruct (head (db_faults (rd_perm d))) as [[e|]|]; [done|..]; by injection Hrun as <- <-.
Qed.

(** [P] holds of the row of [i], and the struct is still of that row. *)
Definition row_has (i : Z) (Q : AlertRule → Prop) ar (d : rdb) : Prop :=
  Rule.Id ar = i ∧ ∃ row, rd_rules d !! i = Some row ∧ Rule.Id row = i ∧ Q row.

Lemma update_has i cols (Q Q' : AlertRule → Prop) ar : "id" ∉ cols.*1 →
  (∀ row row', set_columns cols row = Ok row' → Q row → Q' row') →
  rhoare (row_has i Q ar) (UpdateFieldsMap write_back ar cols) (λ ar' d, row_has i Q' ar' d) (λ _, True).
Proof.
  intros Hcols HQ d (Hid & row & Hrow & Hidr & Hq). destruct (UpdateFieldsMap write_back ar cols d) as [d' [[ar'|e]|]] eqn:Eu; [|done..].
  apply UpdateFieldsMap_ok in Eu as [Hid' Hm]; [|done|rewrite Hid; congruence]. rewrite Hid, Hrow in Hm.
  destruct Hm as (row' & Hs & Hr & Hir). split; [congruence|]. exists row'. rewrite Hr, lookup_insert_eq. split_and!; [done|done|by eapply HQ].
Qed.

Lemma GetById_has i (Q : AlertRule → Prop) :
  rhoare (λ d, ∃ row, rd_rules d !! i = Some row ∧ Rule.Id row = i ∧ Q row) (AlertRuleGetById i)
    (λ o d, ∃ ar, o = Some ar ∧ row_has i Q ar d) (λ _, True).
Proof.
  intros d (row & Hrow & Hid & Hq). unfold AlertRuleGetById, rquery, rstmt, mbind, rsql_bind. simpl. rewrite Hrow.
  assert (match lift_go (AlertRule_DB2FE row) (d <| rd_perm := tick (rd_perm d) |>) with
          | (d', Ret (Ok ar)) => row_has i Q ar d' | _ => True end) as Hfe.
  { unfold lift_go. destruct (AlertRule_DB2FE row) as [ar|] eqn:Efe; [|done]. apply who_DB2FE in Efe. injection Efe as Ei _ _.
    split; [congruence|]. by exists row. }
  destruct (head (db_faults (rd_perm d))) as [[e|]|]; [done|..]; revert Hfe; unfold lift_go;
    (destruct (AlertRule_DB2FE row) as [ar|]; [|done]); intros Hfe; by exists ar.
Qed.

(** The action and the field write the callbacks only. *)
Lemma callback_action_has i callback action ar :
  rhoare (row_has i (λ _, True) ar) (field_action write_back {["callbacks" := IString callback]} action ar)
    (λ ar' d, row_has i (λ _, True) ar' d) (λ _, True).
Proof.
  assert (∀ k, k ≠ "callbacks" → ({["callbacks" := IString callback]} : gmap string iface) !! k = None) as Hnone
    by (intros k Hk; by apply lookup_singleton_ne).
  assert (∀ s, rhoare (row_has i (λ _, True) ar) (UpdateFieldsMap write_back ar [("callbacks", IString s)])
                 (λ ar' d, row_has i (λ _, True) ar' d) (λ _, True)) as Hup.
  { intros s. apply update_has; [|done]. cbn. set_solver. }
  unfold field_action. cbv zeta.
  rewrite (Hnone "triggers"), (Hnone "annotations"), (Hnone "datasource_queries") by done. rewrite lookup_singleton_eq.
  repeat match goal with |- context [String.eqb action ?s] => destruct (String.eqb action s) end; try by intros d Hd.
  - unfold callback_add. destruct (negb (contains (Rule.Callbacks ar) callback)); [apply Hup|by intros d Hd].
  - apply Hup.
Qed.

(** Whatever the action, adding or removing included: when changing the callbacks of a rule
    is answered without an error, its callbacks are the text that was sent and no other. *)
Theorem callback_add_replaces me bgid i callback action now d d' row :
  rd_rules d !! i = Some row → Rule.Id row = i →
  alertRulePutFields write_back me bgid [i] {["callbacks" := IString callback]} action now d = (d', Users.Done tt) →
  ∃ row', rd_rules d' !! i = Some row' ∧ Rule.Callbacks row' = callback.
Proof.
  intros Hrow Hid Hrun. set (P := λ d : rdb, ∃ row, rd_rules d !! i = Some row ∧ Rule.Id row = i ∧ True).
  assert (∀ {A} (h : handler A), rhh P (guard h) (λ _, P) (λ _, True)) as Hguard.
  { intros A h d1 Hd1. unfold guard. by destruct (h (rd_perm d1)) as [p [a|c e]]. }
  enough (rhh P (alertRulePutFields write_back me bgid [i] {["callbacks" := IString callback]} action now)
    (λ _ d, ∃ row', rd_rules d !! i = Some row' ∧ Rule.Callbacks row' = callback) (λ _, True)) as Hs.
  { specialize (Hs d ltac:(by exists row)). by rewrite Hrun in Hs. }
  apply (rhh_bind _ _ (λ _, P)); [apply Hguard|]. intros _. apply (rhh_bind _ _ (λ _, P)); [apply Hguard|]. intros _. rewrite map_size_singleton. cbn [Nat.eqb put_rules].
  eapply rhh_bind; [apply rhh_danger, GetById_has|]. intros o d1 (ar & -> & Har). revert d1 Har.
  eapply (rhh_bind _ _ (λ ar' d, row_has i (λ row, Rule.Callbacks row = callback) ar' d)).
  - apply rhh_danger. unfold put_fields. eapply rhoare_bind; [apply callback_action_has|]. intros ar1.
    rewrite go_range_singleton. cbn [put_each put_field snd].
    eapply (rhoare_bind _ _ (λ ar' d, row_has i (λ row, Rule.Callbacks row = callback) ar' d)).
    + eapply (rhoare_bind _ _ (λ ar' d, row_has i (λ row, Rule.Callbacks row = callback) ar' d)); [|by intros ar2 d1 Hd1].
      apply update_has; [cbn; set_solver|]. intros r r' Hs _. by apply columns_text in Hs.
    + intros ar2. apply update_has; [cbn; set_solver|]. intros r r' Hs <-. apply (columns_callbacks _ _ _ Hs). cbn. set_solver.
  - intros ar1 d1 (_ & row1 & Hr1 & _ & Hc). by exists row1.
Qed.

(** While nothing fails. *)
Lemma no_fault_tick d : db_faults (rd_perm d) = [] → d <| rd_perm := tick (rd_perm d) |> = d.
Proof. intros Hf. destruct d as [p rs es n]. destruct p. simpl in Hf. by subst. Qed.
Lemma guard_run {A} (h : handler A) (a : A) d : h (rd_perm d) = (rd_perm d, Users.Done a) → guard h d = (d, Users.Done a).
Proof. intros Hh. unfold guard. rewrite Hh. by destruct d. Qed.

Lemma UpdateFieldsMap_run ar cols d row row' : db_faults (rd_perm d) = [] → "id" ∉ cols.*1 →
  rd_rules d !! Rule.Id ar = Some row → Rule.Id row = Rule.Id ar → set_columns cols row = Ok row' →
  ∃ ar', UpdateFieldsMap write_back ar cols d = (d <| rd_rules := <[Rule.Id ar := row']> (rd_rules d) |>, Ret (Ok ar')) ∧
    Rule.Id ar' = Rule.Id ar ∧ Rule.Id row' = Rule.Id ar.
Proof.
  intros Hf Hcols Hrow Hid Hs. assert (Rule.Id row' = Rule.Id ar) as Hid' by by rewrite (columns_id _ _ _ Hs Hcols).
  assert (UpdateFieldsMap write_back ar cols d = (d <| rd_rules := <[Rule.Id ar := row']> (rd_rules d) |>,
    Ret (Ok (if write_back then match set_columns cols ar with Ok r => r | Err _ => ar end else ar)))) as Hrun.
  { unfold UpdateFieldsMap, mbind, rsql_bind, rstmt. rewrite Hf. cbn [head]. rewrite no_fault_tick by done.
    rewrite Hrow, Hs. unfold replace_row. by rewrite Hid', Z.eqb_refl. }
  eexists. split; [exact Hrun|]. split; [|done]. destruct write_back; [|done].
  destruct (set_columns cols ar) as [r|] eqn:Es; [|done]. by apply (columns_id cols).
Qed.

(** The group that is checked is the one in the URL: whoever may write some business group
    can switch off any rule of any other. *)
Theorem fields_of_any_group me bgid bg i value now d row ar r1 r2 :
  db_faults (rd_perm d) = [] →
  perm me "/alert-rules/put" (rd_perm d) = (rd_perm d, Users.Done tt) → bgrw me bgid (rd_perm d) = (rd_perm d, Users.Done bg) →
  rd_rules d !! i = Some row → Rule.Id row = i → AlertRule_DB2FE row = Ret ar →
  set_columns [("disabled", IFloat value)] row = Ok r1 →
  set_columns [("update_by", IString (Usr.Username me)); ("update_at", IInt now)] r1 = Ok r2 →
  rd_rules (fst (alertRulePutFields write_back me bgid [i] {["disabled" := IFloat value]} "" now d)) !! i = Some r2.
Proof.
  intros Hf Hperm Hbg Hrow Hid Hfe Hs1 Hs2. pose proof (who_DB2FE _ _ Hfe) as Hw. injection Hw as Hia _ _. rewrite Hid in Hia.
  destruct (UpdateFieldsMap_run ar [("disabled", IFloat value)] d row r1) as (ar1 & Hu1 & Hi1 & Hr1);
    [done|cbn; set_solver|by rewrite Hia|congruence|done|].
  set (d1 := d <| rd_rules := _ |>) in Hu1.
  destruct (UpdateFieldsMap_run ar1 [("update_by", IString (Usr.Username me)); ("update_at", IInt now)] d1 r1 r2) as (ar2 & Hu2 & Hi2 & Hr2);
    [done|cbn; set_solver|unfold d1; simpl; by rewrite Hi1, lookup_insert_eq|congruence|done|].
  assert (AlertRuleGetById i d = (d, Ret (Ok (Some ar)))) as Hget.
  { unfold AlertRuleGetById, rquery, rstmt, mbind, rsql_bind. rewrite Hf. cbn [head]. rewrite no_fault_tick by done. rewrite Hrow.
    unfold lift_go. by rewrite Hfe. }
  assert (put_fields write_back {["disabled" := IFloat value]} "" (Usr.Username me) now ar d =
    (d1 <| rd_rules := <[Rule.Id ar1 := r2]> (rd_rules d1) |>, Ret (Ok ar2))) as Hput.
  { unfold put_fields. rewrite go_range_singleton. change (field_action write_back _ "" ar) with (mret (M := rsql) ar).
    cbn [put_each put_field snd fst]. unfold mbind, rsql_bind, mret, rsql_ret.
    assert (UpdateColumn write_back ar "disabled" (IFloat value) = UpdateFieldsMap write_back ar [("disabled", IFloat value)]) as -> by done.
    rewrite Hu1. exact Hu2. }
  unfold alertRulePutFields. unfold mbind, rhandler_bind. rewrite (guard_run _ _ _ Hperm), (guard_run _ _ _ Hbg).
  rewrite map_size_singleton. cbn [Nat.eqb put_rules]. unfold danger, attempt, mbind, rhandler_bind. rewrite Hget.
  unfold mret, rhandler_ret. cbv beta iota. rewrite Hput. cbv beta iota. cbn [fst]. simpl. by rewrite Hi1, Hia, lookup_insert_eq.
Qed.
End fields.
End requests.
