(* ===== verification/Interleave.v ===== *)
(** * Goroutines over a shared state

    A program is a sequence of atomic steps on a state that other programs share: a
    statement of the database, a section under a mutex, a reading of the clock.
    [run] executes one alone.  [steps] executes a pool of them in any order, with
    steps of an environment in between.

    [wp I m p Q] is the proof rule for programs in a pool.  [m] is the multiset of
    tokens the program owns: facts and obligations that [I] ties to the state.  A
    step may exchange its own tokens as long as [I] holds of the state and of all
    tokens, whatever the others own; when it ends with [a] it owns tokens that
    satisfy [Q a].  [wp_sound] lifts the rule to every interleaving. *)

From stdpp Require Import gmultiset.
From S2P Require Import Prelude.

Section prog.
Context {S : Type}.

Inductive prog (A : Type) : Type :=
| Done (a : A)
| Atom (f : S → S * prog A).
#[global] Arguments Done {A} a.
#[global] Arguments Atom {A} f.

Fixpoint prog_steps_ind {A} (P : prog A → Prop) (HD : ∀ a, P (Done a))
    (HA : ∀ f, (∀ s, P (f s).2) → P (Atom f)) (p : prog A) : P p :=
  match p with
  | Done a => HD a
  | Atom f => HA f (λ s, match f s as r return P r.2 with (s', p') => prog_steps_ind P HD HA p' end)
  end.

Fixpoint prog_then {A B} (p : prog A) (k : A → prog B) : prog B :=
  match p with
  | Done a => k a
  | Atom f => Atom (λ s, match f s with (s', p') => (s', prog_then p' k) end)
  end.

(** A step that returns a value. *)
Definition atomically {A} (f : S → S * A) : prog A := Atom (λ s, match f s with (s', a) => (s', Done a) end).

Fixpoint run {A} (p : prog A) (s : S) : S * A :=
  match p with
  | Done a => (s, a)
  | Atom f => match f s with (s', p') => run p' s' end
  end.

Lemma run_then {A B} (p : prog A) (k : A → prog B) s :
  run (prog_then p k) s = let '(s', a) := run p s in run (k a) s'.
Proof.
  revert s. induction p as [a|f IH] using prog_steps_ind; intros s; simpl; [done|].
  destruct (f s) as [s' p'] eqn:E. specialize (IH s). rewrite E in IH. apply IH.
Qed.

Lemma run_atomically {A} (f : S → S * A) s : run (atomically f) s = f s.
Proof. unfold atomically. simpl. by destruct (f s). Qed.

(** ** Pools *)

(** [env] are the steps of everyone else; [new] the programs that may be started. *)
Inductive pstep {A} (env : S → S → Prop) (new : prog A → Prop) : S * list (prog A) → S * list (prog A) → Prop :=
| step_worker s ps i f s' p' :
    ps !! i = Some (Atom f) → f s = (s', p') → pstep env new (s, ps) (s', <[i := p']> ps)
| step_start s ps p : new p → pstep env new (s, ps) (s, ps ++ [p])
| step_env s s' ps : env s s' → pstep env new (s, ps) (s', ps).

Definition steps {A} (env : S → S → Prop) (new : prog A → Prop) : relation (S * list (prog A)) := rtc (pstep env new).

(** A program that runs alone is one of the executions of a pool. *)
Lemma run_steps {A} env (new : prog A → Prop) ps1 p ps2 s s' a :
  run p s = (s', a) → steps env new (s, ps1 ++ p :: ps2) (s', ps1 ++ Done a :: ps2).
Proof.
  revert s. induction p as [b|f IH] using prog_steps_ind; intros s Hr; simpl in Hr; [simplify_eq; reflexivity|].
  destruct (f s) as [s1 p1] eqn:E. eapply rtc_l.
  - apply (step_worker _ _ _ _ (length ps1) f s1 p1); [|done]. by rewrite list_lookup_middle.
  - rewrite insert_app_r_alt, Nat.sub_diag by lia. simpl. specialize (IH s). rewrite E in IH. by apply IH.
Qed.

(** ** Tokens *)

Context {T : Type} `{Countable T}.
Implicit Types (I : S → gmultiset T → Prop) (m : gmultiset T).

Fixpoint wp {A} I m (p : prog A) (Q : A → gmultiset T → Prop) : Prop :=
  match p with
  | Done a => Q a m
  | Atom f => ∀ s fr, I s (m ⊎ fr) →
      match f s with (s', p') => ∃ m', I s' (m' ⊎ fr) ∧ wp I m' p' Q end
  end.

Lemma wp_ret {A} I m (a : A) (Q : A → gmultiset T → Prop) : Q a m → wp I m (Done a) Q.
Proof. done. Qed.

Lemma wp_mono {A} I m (p : prog A) (Q Q' : A → gmultiset T → Prop) :
  wp I m p Q → (∀ a m', Q a m' → Q' a m') → wp I m p Q'.
Proof.
  intros Hp HQ. revert m Hp. induction p as [a|f IH] using prog_steps_ind; intros m Hp; simpl in *; [by apply HQ|].
  intros s fr Hs. specialize (Hp s fr Hs). specialize (IH s). destruct (f s) as [s' p'].
  destruct Hp as (m' & ? & ?). exists m'. split; [done|]. by apply IH.
Qed.

Lemma wp_then {A B} I m (p : prog A) (k : A → prog B) (Q : B → gmultiset T → Prop) :
  wp I m p (λ a m', wp I m' (k a) Q) → wp I m (prog_then p k) Q.
Proof.
  revert m. induction p as [a|f IH] using prog_steps_ind; intros m Hp; simpl in *; [done|].
  intros s fr Hs. specialize (Hp s fr Hs). specialize (IH s). destruct (f s) as [s' p'].
  destruct Hp as (m' & ? & ?). exists m'. split; [done|]. by apply IH.
Qed.

Lemma wp_atomically {A} I m (f : S → S * A) (Q : A → gmultiset T → Prop) :
  (∀ s fr, I s (m ⊎ fr) → ∃ m', I (f s).1 (m' ⊎ fr) ∧ Q (f s).2 m') → wp I m (atomically f) Q.
Proof.
  intros Hf s fr Hs. specialize (Hf s fr Hs). by destruct (f s).
Qed.

(** A program that runs alone. *)
Lemma wp_run {A} I m fr (p : prog A) (Q : A → gmultiset T → Prop) s :
  wp I m p Q → I s (m ⊎ fr) → ∃ m', I (run p s).1 (m' ⊎ fr) ∧ Q (run p s).2 m'.
Proof.
  revert m s. induction p as [a|f IH] using prog_steps_ind; intros m s Hp Hs; simpl in *; [by exists m|].
  specialize (Hp s fr Hs). specialize (IH s). destruct (f s) as [s' p']. destruct Hp as (m' & Hs' & Hp'). by apply (IH m').
Qed.

(** The tokens of a pool. *)
Definition all_tokens (ms : list (gmultiset T)) : gmultiset T := ⋃+ ms.

Lemma all_tokens_insert ms i m m' :
  ms !! i = Some m → ∃ fr, all_tokens ms = m ⊎ fr ∧ all_tokens (<[i := m']> ms) = m' ⊎ fr.
Proof.
  intros Hi. rewrite <- (take_drop_middle _ _ _ Hi). exists (all_tokens (take i ms) ⊎ all_tokens (drop (Datatypes.S i) ms)).
  pose proof (lookup_lt_Some _ _ _ Hi) as Hlt.
  rewrite insert_app_r_alt; rewrite length_take_le by lia; [|lia]. rewrite Nat.sub_diag. simpl.
  unfold all_tokens. rewrite !gmultiset_disj_union_list_app. simpl. split; multiset_solver.
Qed.

Lemma all_tokens_two ms i j m m' :
  i ≠ j → ms !! i = Some m → ms !! j = Some m' → ∃ fr, all_tokens ms = m ⊎ (m' ⊎ fr).
Proof.
  intros Hne Hi Hj. destruct (all_tokens_insert ms i m ∅ Hi) as (fr & Hfr & Hrest).
  destruct (all_tokens_insert (<[i := ∅]> ms) j m' ∅) as (fr' & Hfr' & _); [by rewrite list_lookup_insert_ne by done|].
  exists fr'. rewrite Hfr. rewrite Hrest, (left_id_L ∅ _) in Hfr'. by rewrite Hfr'.
Qed.

(** What every pool keeps: its programs are proved for the tokens they own. *)
Definition pool_ok {A} I (Q : A → gmultiset T → Prop) (c : S * list (prog A)) : Prop :=
  ∃ ms, Forall2 (λ m p, wp I m p Q) ms c.2 ∧ I c.1 (all_tokens ms).

Theorem wp_sound {A} I (Q : A → gmultiset T → Prop) env (new : prog A → Prop) c c' :
  (∀ s s' m, I s m → env s s' → I s' m) →
  (∀ p, new p → wp I ∅ p Q) →
  steps env new c c' → pool_ok I Q c → pool_ok I Q c'.
Proof.
  intros Henv Hnew Hsteps. induction Hsteps as [|c1 c2 c3 Hst _ IH]; [done|]. intros (ms & Hall & HI). apply IH.
  destruct Hst as [s ps i f s' p' Hi Hf|s ps p Hp|s s' ps He]; simpl in *.
  - apply Forall2_flip in Hall. destruct (Forall2_lookup_l _ _ _ _ _ Hall Hi) as (m & Hm & Hwp).
    destruct (all_tokens_insert ms i m ∅ Hm) as (fr & Hfr & _). rewrite Hfr in HI.
    specialize (Hwp s fr HI). rewrite Hf in Hwp. destruct Hwp as (m' & HI' & Hwp').
    exists (<[i := m']> ms). simpl. split.
    + apply Forall2_flip in Hall. by apply Forall2_insert.
    + destruct (all_tokens_insert ms i m m' Hm) as (fr' & Hfr' & ->).
      replace fr' with fr; [done|]. rewrite Hfr in Hfr'. multiset_solver.
  - exists (ms ++ [∅]). simpl. split; [apply Forall2_app; auto|].
    unfold all_tokens in *. rewrite gmultiset_disj_union_list_app. simpl.
    by rewrite (right_id_L ∅ _), (right_id_L ∅ _).
  - exists ms. split; [done|]. by eapply Henv.
Qed.
End prog.
#[global] Arguments prog S A : clear implicits.

#[export] Instance prog_ret S : MRet (prog S) := λ A a, Done a.
#[export] Instance prog_bind S : MBind (prog S) := λ A B k p, prog_then p k.
