(* ===== verification/Denoise.v ===== *)
(** * Aggregation of alerts into incidents: [internal/custom/denoise]

    A node of a pipeline hands each event to the aggregator, which looks for the best
    aggregate rule, builds the key of the incident from the labels the rule names and
    merges the event into the incident with that key, or opens one.  The incident is
    found in a cache or in the table; an event that is merged is dropped, the first
    one passes on.  A flood of events on one incident is marked as a storm.

    The handler runs in the goroutines of all rules at once: it is a program of atomic
    steps (a statement of the database, a section under a mutex) on a shared state, to
    be run alone or in a pool ([Interleave]). *)

From Stdlib Require Import Ascii.
From S2P Require Import Prelude GoStrings Json Models RuleModels Filter Workflow Engine Processors Interleave.
Open Scope string_scope.
Open Scope Z_scope.
Open Scope list_scope.

(** ** Data: [internal/custom/models] *)

Record CustomAggregateRule := mkAggregateRule {
  ar_Id : Z; ar_GroupId : Z; ar_Name : string; ar_Note : string;
  ar_Dimensions : string; ar_WindowSec : Z; ar_Filters : string;
  ar_DatasourceIds : string; ar_DatasourceIdsJson : list Z;
  ar_StormThreshold : Z; ar_StormWindowSec : Z;
  ar_Severities : string; ar_SeveritiesJson : list Z;
  ar_Disabled : Z; ar_Priority : Z;
  ar_CreateBy : string; ar_UpdateBy : string; ar_CreateAt : Z; ar_UpdateAt : Z
}.
#[global] Instance CustomAggregateRule_eta : Settable CustomAggregateRule := λ r,
  mkAggregateRule (ar_Id r) (ar_GroupId r) (ar_Name r) (ar_Note r) (ar_Dimensions r) (ar_WindowSec r) (ar_Filters r)
    (ar_DatasourceIds r) (ar_DatasourceIdsJson r) (ar_StormThreshold r) (ar_StormWindowSec r) (ar_Severities r)
    (ar_SeveritiesJson r) (ar_Disabled r) (ar_Priority r) (ar_CreateBy r) (ar_UpdateBy r) (ar_CreateAt r) (ar_UpdateAt r).

Definition IncidentStatusOpen : Z := 0.
Definition IncidentStatusResolved : Z := 1.
Definition IncidentStatusClosed : Z := 2.

Record CustomIncident := mkIncident {
  ci_Id : Z; ci_RuleId : Z; ci_IncidentKey : string; ci_GroupId : Z; ci_DatasourceId : Z; ci_GroupName : string;
  ci_Severity : Z; ci_Title : string; ci_Summary : string; ci_DimensionValues : string; ci_Status : Z;
  ci_EventCount : Z; ci_FirstEventAt : Z; ci_LastEventAt : Z; ci_ResolvedAt : Z; ci_ClosedAt : Z; ci_StormFired : Z
}.
#[global] Instance CustomIncident_eta : Settable CustomIncident := λ r,
  mkIncident (ci_Id r) (ci_RuleId r) (ci_IncidentKey r) (ci_GroupId r) (ci_DatasourceId r) (ci_GroupName r)
    (ci_Severity r) (ci_Title r) (ci_Summary r) (ci_DimensionValues r) (ci_Status r) (ci_EventCount r)
    (ci_FirstEventAt r) (ci_LastEventAt r) (ci_ResolvedAt r) (ci_ClosedAt r) (ci_StormFired r).

Record CustomIncidentEvent := mkIncidentEvent {
  ie_Id : Z; ie_IncidentId : Z; ie_EventHash : string; ie_EventId : Z; ie_IsRecovered : Z; ie_MergedAt : Z
}.
#[global] Instance CustomIncidentEvent_eta : Settable CustomIncidentEvent := λ r,
  mkIncidentEvent (ie_Id r) (ie_IncidentId r) (ie_EventHash r) (ie_EventId r) (ie_IsRecovered r) (ie_MergedAt r).

(** ** Keys: key.go *)

Definition keyPairSep : string := "|".
Definition keyKVSep : string := "=".
Definition keyMissingValue : string := "<absent>".

(** The value of a dimension in the key. *)
Definition key_value (event : AlertCurEvent) (dim : string) : string :=
  match Event.TagsMap event !! dim with
  | Some v => if negb (String.eqb v "") then v else keyMissingValue
  | None => keyMissingValue
  end.

Definition key_pair (event : AlertCurEvent) (dim : string) : string :=
  dim +:+ keyKVSep +:+ key_value event dim.

(** The separator is written before every pair but the first. *)
Definition BuildIncidentKey (event : option AlertCurEvent) (dimensions : list string) : string :=
  match event with
  | None => ""
  | Some event =>
      if (length dimensions =? 0)%nat then ""
      else join (map (key_pair event) (sort_strings dimensions)) keyPairSep
  end.

Definition DimensionValuesMap (event : option AlertCurEvent) (dimensions : list string) : gmap string string :=
  match event with
  | None => ∅
  | Some event =>
      foldl (λ out dim, <[dim := default keyMissingValue (Event.TagsMap event !! dim)]> out) ∅ dimensions
  end.

(** ** Filters and rules: tagfilter.go, match.go *)

Section matching.
Context `{Regexp, GoFmt, !Json (list TagFilter)}.

Definition parseTagFilters (raw : string) : result (list TagFilter) :=
  if (String.length raw =? 0)%nat then Ok []
  else match json_unmarshal raw ([] : list TagFilter) with
       | (_, Some err) => Err err
       | (filters, None) => ParseTagFilter filters
       end.

Definition matchSingleTagFilter (tags : gmap string string) (f : TagFilter) : bool :=
  let present := tags !! TagFlt.Key f in
  let func := TagFlt.Func f in
  if String.eqb func "==" then
    match present, TagFlt.Value f with Some val, IString s => String.eqb val s | _, _ => false end
  else if String.eqb func "!=" then
    match present, TagFlt.Value f with Some val, IString s => negb (String.eqb val s) | _, _ => true end
  else if String.eqb func "=~" then
    match present, TagFlt.Regexp f with Some val, Some r => re_match r val | _, _ => false end
  else if String.eqb func "!~" then
    match present, TagFlt.Regexp f with Some val, Some r => negb (re_match r val) | _, _ => true end
  else if String.eqb func "in" then
    match present with Some val => in_vset (TagFlt.Vset f) val | None => false end
  else if String.eqb func "not in" then
    match present with Some val => negb (in_vset (TagFlt.Vset f) val) | None => true end
  else false.

Definition matchAllTagFilters (tags : gmap string string) (filters : list TagFilter) : bool :=
  forallb (matchSingleTagFilter tags) filters.

Definition zmem (x : Z) (l : list Z) : bool := bool_decide (x ∈ l).

Definition MatchRule (event : option AlertCurEvent) (rule : option CustomAggregateRule) : bool :=
  match rule, event with
  | Some rule, Some event =>
      if ar_Disabled rule =? 1 then false
      else if negb (ar_GroupId rule =? 0) && negb (ar_GroupId rule =? Event.GroupId event) then false
      else if match ar_DatasourceIdsJson rule with
              | [] => false
              | d :: _ => negb (d =? 0) && negb (Event.DatasourceId event =? 0) &&
                          negb (zmem (Event.DatasourceId event) (ar_DatasourceIdsJson rule))
              end then false
      else if (0 <? length (ar_SeveritiesJson rule))%nat && negb (zmem (Event.Severity event) (ar_SeveritiesJson rule)) then false
      else if (0 <? String.length (ar_Filters rule))%nat then
        match parseTagFilters (ar_Filters rule) with
        | Err _ => false
        | Ok filters =>
            negb ((0 <? length filters)%nat && negb (matchAllTagFilters (Event.TagsMap event) filters))
        end
      else true
  | _, _ => false
  end.

(** Is [r] to be preferred to [best]? *)
Definition better (r best : CustomAggregateRule) : bool :=
  (ar_Priority best <? ar_Priority r) || ((ar_Priority r =? ar_Priority best) && (ar_Id r <? ar_Id best)).

Fixpoint select_from (event : option AlertCurEvent) (best : option CustomAggregateRule)
    (rules : list (option CustomAggregateRule)) : option CustomAggregateRule :=
  match rules with
  | [] => best
  | r :: rules =>
      if negb (MatchRule event r) then select_from event best rules
      else match best, r with
           | Some b, Some r' => select_from event (if better r' b then r else best) rules
           | _, _ => select_from event r rules
           end
  end.

Definition SelectBestRule (event : option AlertCurEvent) (rules : list (option CustomAggregateRule))
  : option CustomAggregateRule := select_from event None rules.
End matching.

(** ** The shared state *)

Record activeIncidentEntry := mkEntry { ae_incidentId : Z; ae_lastEventAt : Z }.

(** The parts an aggregator points to are in the shared state below; its own field
    says whether a more severe event raises the severity of its incident. *)
Record Aggregator := mkAggregator { ag_upgradeOn : bool }.

(** The options of [NewAggregator]. *)
Definition WithSeverityUpgrade (on : bool) (a : Aggregator) : Aggregator := mkAggregator on.
Definition NewAggregator (opts : list (Aggregator → Aggregator)) : Aggregator :=
  foldl (λ a opt, opt a) (mkAggregator true) opts.

(** The two tables with the counters their ids come from, the cache of active
    incidents, the event times of the storm detector, the rules of the provider, the
    aggregator that is wired, if any, and the clock in seconds.  [dn_faults] has, for each statement to come, the error it
    fails with, if it fails. *)
Record denoise := mkDenoise {
  dn_incidents : gmap Z CustomIncident;
  dn_links : list CustomIncidentEvent;
  dn_nextid : Z;
  dn_nextlink : Z;
  dn_index : gmap (Z * string) activeIncidentEntry;
  dn_storm : gmap Z (list Z);
  dn_rules : list (option CustomAggregateRule);
  dn_agg : option Aggregator;
  dn_now : Z;
  dn_faults : list (option error)
}.
#[global] Instance denoise_eta : Settable denoise := λ r,
  mkDenoise (dn_incidents r) (dn_links r) (dn_nextid r) (dn_nextlink r) (dn_index r) (dn_storm r) (dn_rules r) (dn_agg r)
    (dn_now r) (dn_faults r).

Notation step A := (prog denoise A).

(** A statement, or a transaction as a whole: when it fails it changes nothing. *)
Definition db_apply {A} (f : denoise → denoise * A) (s : denoise) : denoise * result A :=
  let s' := s <| dn_faults := tail (dn_faults s) |> in
  match head (dn_faults s) with
  | Some (Some err) => (s', Err err)
  | _ => let '(s'', a) := f s' in (s'', Ok a)
  end.
Definition db {A} (f : denoise → denoise * A) : step (result A) := atomically (db_apply f).

Definition now : step Z := atomically (λ s, (s, dn_now s)).
Definition GetActiveRules : step (list (option CustomAggregateRule)) := atomically (λ s, (s, dn_rules s)).

(** ** The cache of active incidents: index.go *)

Definition index_get (ruleId : Z) (key : string) (windowSec : Z) (s : denoise) : option Z :=
  match dn_index s !! (ruleId, key) with
  | None => None
  | Some e => if windowSec <? i64 (dn_now s - ae_lastEventAt e) then None else Some (ae_incidentId e)
  end.
Definition Index_Get (ruleId : Z) (key : string) (windowSec : Z) : step (option Z) :=
  atomically (λ s, (s, index_get ruleId key windowSec s)).

Definition index_put (ruleId : Z) (key : string) (incidentId : Z) (s : denoise) : denoise :=
  s <| dn_index := <[(ruleId, key) := mkEntry incidentId (dn_now s)]> (dn_index s) |>.
Definition Index_Put (ruleId : Z) (key : string) (incidentId : Z) : step unit :=
  atomically (λ s, (index_put ruleId key incidentId s, tt)).

Definition Index_Forget (ruleId : Z) (key : string) : step unit :=
  atomically (λ s, (s <| dn_index := delete (ruleId, key) (dn_index s) |>, tt)).

(** The cutoff is computed before the mutex is taken. *)
Definition Index_Sweep (maxAgeSec : Z) : step Z :=
  t ← now;
  let cutoff := i64 (t - maxAgeSec) in
  atomically (λ s,
    let kept := filter (λ ke, cutoff <= ae_lastEventAt ke.2) (dn_index s) in
    (s <| dn_index := kept |>, Z.of_nat (size (dn_index s) - size kept))).

Definition Index_Len : step Z := atomically (λ s, (s, Z.of_nat (size (dn_index s)))).

(** ** Storms: storm.go *)

Fixpoint trim_before (cutoff : Z) (timestamps : list Z) : list Z :=
  match timestamps with
  | t :: rest => if t <? cutoff then trim_before cutoff rest else timestamps
  | [] => []
  end.

Definition observe (incidentId threshold windowSec : Z) (s : denoise) : denoise * bool :=
  if threshold <=? 0 then (s, false)
  else
    let timestamps := default [] (dn_storm s !! incidentId) in
    let timestamps := trim_before (i64 (dn_now s - windowSec)) timestamps ++ [dn_now s] in
    if Z.of_nat (length timestamps) =? threshold
    then (s <| dn_storm := <[incidentId := []]> (dn_storm s) |>, true)
    else (s <| dn_storm := <[incidentId := timestamps]> (dn_storm s) |>, false).
Definition Storm_Observe (incidentId threshold windowSec : Z) : step bool :=
  atomically (observe incidentId threshold windowSec).

Definition Storm_Forget (incidentId : Z) : step unit :=
  atomically (λ s, (s <| dn_storm := delete incidentId (dn_storm s) |>, tt)).

(** ** The tables: repo.go *)

Definition is_active (ruleId : Z) (incidentKey : string) (cutoff : Z) (inc : CustomIncident) : bool :=
  (ci_RuleId inc =? ruleId) && String.eqb (ci_IncidentKey inc) incidentKey &&
  (ci_Status inc =? IncidentStatusOpen) && (cutoff <=? ci_LastEventAt inc).

(** The matching row with the largest id; ids are positive, and id 0 is no row. *)
Definition active_id (ruleId : Z) (incidentKey : string) (cutoff : Z) (s : denoise) : Z :=
  map_fold (λ id inc m, if is_active ruleId incidentKey cutoff inc then Z.max id m else m) 0 (dn_incidents s).

Definition FindActiveIncident (ruleId : Z) (incidentKey : string) (windowSec now : Z) : step (result (option CustomIncident)) :=
  let cutoff := i64 (now - windowSec) in
  db (λ s, (s, dn_incidents s !! active_id ruleId incidentKey cutoff s)).

Definition insert_incident (inc : CustomIncident) (s : denoise) : denoise * CustomIncident :=
  let inc := inc <| ci_Id := dn_nextid s |> in
  (s <| dn_incidents := <[dn_nextid s := inc]> (dn_incidents s) |> <| dn_nextid := dn_nextid s + 1 |>, inc).

(** The row as it was written, with its id. *)
Definition CreateIncident (inc : CustomIncident) : step (result CustomIncident) :=
  inc ← (if ci_FirstEventAt inc =? 0 then t ← now; mret (inc <| ci_FirstEventAt := t |>) else mret inc);
  let inc := if ci_LastEventAt inc =? 0 then inc <| ci_LastEventAt := ci_FirstEventAt inc |> else inc in
  let inc := if ci_EventCount inc =? 0 then inc <| ci_EventCount := 1 |> else inc in
  let inc := inc <| ci_Status := IncidentStatusOpen |> in
  db (insert_incident inc).

Definition insert_link (incidentId : Z) (event : AlertCurEvent) (now : Z) (s : denoise) : denoise :=
  s <| dn_links := dn_links s ++ [mkIncidentEvent (dn_nextlink s) incidentId (Event.Hash event) (Event.Id event) 0 now] |>
    <| dn_nextlink := dn_nextlink s + 1 |>.

Definition bump_incident (event : AlertCurEvent) (upgradeSeverity : bool) (now : Z) (inc : CustomIncident) : CustomIncident :=
  let inc := inc <| ci_LastEventAt := now |> <| ci_EventCount := ci_EventCount inc + 1 |> in
  if upgradeSeverity
  then inc <| ci_Severity := if Event.Severity event <? ci_Severity inc then Event.Severity event else ci_Severity inc |>
  else inc.

Definition AppendEvent (incidentId : Z) (event : AlertCurEvent) (upgradeSeverity : bool) : step (result unit) :=
  t ← now;
  db (λ s, (insert_link incidentId event t
              (s <| dn_incidents := alter (bump_incident event upgradeSeverity t) incidentId (dn_incidents s) |>), tt)).

(** A link that is still firing. *)
Definition firing_link (incidentId : Z) (l : CustomIncidentEvent) : bool :=
  (ie_IncidentId l =? incidentId) && (ie_IsRecovered l =? 0).

Definition recover_links (incidentId : Z) (eventHash : string) (links : list CustomIncidentEvent) : list CustomIncidentEvent :=
  map (λ l, if (ie_IncidentId l =? incidentId) && String.eqb (ie_EventHash l) eventHash
            then l <| ie_IsRecovered := 1 |> else l) links.

Definition resolve (now : Z) (inc : CustomIncident) : CustomIncident :=
  if ci_Status inc =? IncidentStatusOpen
  then inc <| ci_Status := IncidentStatusResolved |> <| ci_ResolvedAt := now |> else inc.

(** The statements of the transaction. *)
Definition recover_event (incidentId : Z) (eventHash : string) (now : Z) (s : denoise) : denoise :=
  let s := s <| dn_links := recover_links incidentId eventHash (dn_links s) |> in
  let unrecovered := length (List.filter (firing_link incidentId) (dn_links s)) in
  if (0 <? unrecovered)%nat then s
  else s <| dn_incidents := alter (resolve now) incidentId (dn_incidents s) |>.

Definition MarkEventRecovered (incidentId : Z) (eventHash : string) : step (result unit) :=
  t ← now;
  db (λ s, (recover_event incidentId eventHash t s, tt)).

Definition mark_storm (incidentId : Z) (s : denoise) : denoise * bool :=
  match dn_incidents s !! incidentId with
  | Some inc =>
      if ci_StormFired inc =? 0
      then (s <| dn_incidents := <[incidentId := inc <| ci_StormFired := 1 |>]> (dn_incidents s) |>, true)
      else (s, false)
  | None => (s, false)
  end.
Definition MarkStormFired (incidentId : Z) : step (result bool) := db (mark_storm incidentId).

(** ** The aggregator: aggregator.go *)

Inductive Decision := DecisionPassThrough | DecisionFireFirst | DecisionMerged | DecisionStorm.
#[export] Instance Decision_eq_dec : EqDecision Decision.
Proof. solve_decision. Defined.

Record Result := mkResult { r_Decision : Decision; r_IncidentId : Z; r_RuleId : Z; r_Reason : string }.

Section aggregator.
Context `{Regexp, GoFmt, !Json (list TagFilter), !Json (list string), !Json (gmap string string)}.

Definition decodeStringSlice (raw : string) : result (list string) :=
  if (String.length raw =? 0)%nat then Ok []
  else match json_unmarshal raw ([] : list string) with
       | (_, Some err) => Err err
       | (out, None) => Ok out
       end.

Definition EncodeDimensionValues (values : gmap string string) : result string := json_marshal values.

Definition buildTitle (event : AlertCurEvent) (dimVals : gmap string string) : string :=
  let keys := sort_strings (map_to_list dimVals).*1 in
  let pairs := join (map (λ k, k +:+ "=" +:+ default "" (dimVals !! k)) keys) ", " in
  if negb (String.eqb (Event.RuleName event) "") then "[" +:+ Event.RuleName event +:+ "] " +:+ pairs else pairs.

Definition merge (a : Aggregator) (event : AlertCurEvent) (rule : CustomAggregateRule) (incidentId : Z) : step (result Result) :=
  r ← AppendEvent incidentId event (ag_upgradeOn a);
  match r with
  | Err err => mret (Err ("append event to incident " +:+ itoa incidentId +:+ ": " +:+ err))
  | Ok _ =>
      Index_Put (ar_Id rule) "" incidentId;;
      let merged := mkResult DecisionMerged incidentId (ar_Id rule) ("merged into incident " +:+ itoa incidentId) in
      crossed ← Storm_Observe incidentId (ar_StormThreshold rule) (ar_StormWindowSec rule);
      if crossed : bool then
        fired ← MarkStormFired incidentId;
        match fired with
        | Ok true =>
            mret (Ok (mkResult DecisionStorm incidentId (ar_Id rule) ("storm threshold crossed on incident " +:+ itoa incidentId)))
        | _ => mret (Ok merged)
        end
      else mret (Ok merged)
  end.

(** The incident of a first event. *)
Definition new_incident (event : AlertCurEvent) (rule : CustomAggregateRule) (dimVals : gmap string string)
    (dimJSON key : string) (now : Z) : CustomIncident :=
  mkIncident 0 (ar_Id rule) key (Event.GroupId event) (Event.DatasourceId event) (Event.GroupName event)
    (Event.Severity event) (buildTitle event dimVals) (Event.RuleNote event) dimJSON 0 1 now now 0 0 0.

Definition createNew (event : AlertCurEvent) (rule : CustomAggregateRule) (dims : list string) (key : string)
  : step (result Result) :=
  let dimVals := DimensionValuesMap (Some event) dims in
  match EncodeDimensionValues dimVals with
  | Err err => mret (Err ("encode dimension values: " +:+ err))
  | Ok dimJSON =>
      t ← now;
      created ← CreateIncident (new_incident event rule dimVals dimJSON key t);
      match created with
      | Err err => mret (Err ("create incident: " +:+ err))
      | Ok inc =>
          linked ← db (λ s, (insert_link (ci_Id inc) event t s, tt));
          match linked with
          | Err err =>
              mret (Ok (mkResult DecisionFireFirst (ci_Id inc) (ar_Id rule)
                ("created incident " +:+ itoa (ci_Id inc) +:+ " (seed link failed: " +:+ err +:+ ")")))
          | Ok _ =>
              Index_Put (ar_Id rule) key (ci_Id inc);;
              mret (Ok (mkResult DecisionFireFirst (ci_Id inc) (ar_Id rule) ("created incident " +:+ itoa (ci_Id inc))))
          end
      end
  end.

(** Merge or create, for an event whose rule and key are known. *)
Definition place (a : Aggregator) (event : AlertCurEvent) (rule : CustomAggregateRule) (dims : list string) (key : string)
  : step (result Result) :=
  hit ← Index_Get (ar_Id rule) key (ar_WindowSec rule);
  match hit with
  | Some incidentId => merge a event rule incidentId
  | None =>
      t ← now;
      existing ← FindActiveIncident (ar_Id rule) key (ar_WindowSec rule) t;
      match existing with
      | Err err => mret (Err ("find active incident: " +:+ err))
      | Ok (Some inc) => Index_Put (ar_Id rule) key (ci_Id inc);; merge a event rule (ci_Id inc)
      | Ok None => createNew event rule dims key
      end
  end.

Definition pass (ruleId : Z) (reason : string) : result Result := Ok (mkResult DecisionPassThrough 0 ruleId reason).

Definition Handle (a : Aggregator) (event : option AlertCurEvent) : step (result Result) :=
  match event with
  | None => mret (pass 0 "nil event")
  | Some e =>
      rules ← GetActiveRules;
      match SelectBestRule event rules with
      | None => mret (pass 0 "no aggregate rule matched")
      | Some rule =>
          let invalid err := pass (ar_Id rule) ("rule " +:+ itoa (ar_Id rule) +:+ " has invalid dimensions: " +:+ err) in
          match decodeStringSlice (ar_Dimensions rule) with
          | Err err => mret (invalid err)
          | Ok [] => mret (invalid "<nil>")
          | Ok dims =>
              let key := BuildIncidentKey event dims in
              if String.eqb key "" then mret (pass (ar_Id rule) "empty incident key")
              else place a e rule dims key
          end
      end
  end.

(** ** The processor: processor/aggregate.go *)

Record AggregateConfig := mkAggregateConfig { ac_Mode : string }.

Definition is_drop (d : Decision) : bool :=
  match d with DecisionMerged | DecisionStorm => true | _ => false end.

(** The accessor gives nil until an accessor of an aggregator is wired; a nil accessor
    is not taken. *)
Definition getAggregator : step (option Aggregator) := atomically (λ s, (s, dn_agg s)).
Definition Wire (get : option Aggregator) : step unit :=
  atomically (λ s, (match get with Some _ => s <| dn_agg := get |> | None => s end, tt)).

(** A nil configuration only matters for an event to drop. *)
Definition AggregateConfig_Process (c : option AggregateConfig) (wfCtx : WorkflowContext)
  : step (go (WorkflowContext * result (returned_ctx * string))) :=
  agg ← getAggregator;
  match agg, WfCtx.Event wfCtx with
  | None, _ => mret (Ret (wfCtx, Ok (SameCtx, "aggregator not initialized; pass-through")))
  | _, None => mret (Ret (wfCtx, Ok (SameCtx, "no event to aggregate")))
  | Some agg, Some event =>
      r ← Handle agg (Some event);
      mret match r with
      | Err err => Ret (wfCtx, Ok (SameCtx, "aggregation error: " +:+ err +:+ " (passed through)"))
      | Ok res =>
          if is_drop (r_Decision res) then
            match c with
            | None => Panic
            | Some c =>
                if String.eqb (ac_Mode c) "annotate" then
                  let tags := <["incident_id" := itoa (r_IncidentId res)]> (Event.TagsMap event) in
                  Ret (wfCtx <| WfCtx.Event := Some (event <| Event.TagsMap := tags |>) |>, Ok (SameCtx, r_Reason res))
                else Ret (wfCtx <| WfCtx.Event := None |>, Ok (SameCtx, r_Reason res))
            end
          else Ret (wfCtx, Ok (SameCtx, r_Reason res))
      end
  end.

Definition AggregateConfig_Init `{!Json iface, !Json (option AggregateConfig)} (settings : iface) : go (result (Processor denoise)) :=
  Ret match InitProcessor settings with
      | Err err => Err err
      | Ok c => Ok (PlainProcessor (λ w ctx,
          let '(w, r) := run (AggregateConfig_Process c ctx) w in
          '(ctx, out) ← r; Ret (w, ctx, out)))
      end.
End aggregator.
