(* ===== verification/Incidents.v ===== *)
(** * Correctness of the aggregation

    The key of an incident stands for the values of its dimensions
    ([incident_key_identifies]), the best rule is the one of highest priority
    ([best_rule_is_best]), the handler merges an event when there is an incident to
    merge it into and opens one otherwise ([handle_places]), and in every interleaving
    of handlers, closings and failures the tables account for every event that was
    dropped ([incidents_accounted]). *)

From Stdlib Require Import Ascii.
From stdpp Require Import gmultiset.
From S2P Require Import Prelude GoStrings Json Models RuleModels Filter Workflow Engine Processors Interleave Denoise.
Open Scope string_scope.
Open Scope Z_scope.
Open Scope list_scope.

(** ** Keys *)

Definition bar_free (s : string) : Prop := str_forall (char_neb "|"%char) s = true.

(** A label without the separator. *)
Definition bar_free_label (v : option string) : Prop := match v with Some v => bar_free v | None => True end.
(** The labels that the key does not tell apart: absent, empty, or the marker of absence. *)
Definition blank (v : option string) : Prop := v = None ∨ v = Some "" ∨ v = Some keyMissingValue.
Definition alike (v1 v2 : option string) : Prop := v1 = v2 ∨ (blank v1 ∧ blank v2).

Lemma sapp_inj_l a b c : a +:+ b = a +:+ c → b = c.
Proof. induction a; simpl; intros; simplify_eq; auto. Qed.

Lemma key_value_bar_free e d : bar_free_label (Event.TagsMap e !! d) → bar_free (key_value e d).
Proof. unfold key_value, bar_free_label. destruct (_ !! d) as [v|]; [|done]. by destruct (String.eqb v ""). Qed.

Lemma key_value_same e1 e2 d :
  key_value e1 d = key_value e2 d ↔ alike (Event.TagsMap e1 !! d) (Event.TagsMap e2 !! d).
Proof.
  unfold key_value, alike, blank.
  destruct (Event.TagsMap e1 !! d) as [v1|], (Event.TagsMap e2 !! d) as [v2|]; simpl; [..|by split; auto];
    repeat match goal with |- context [String.eqb ?v ""] => destruct (String.eqb_spec v "") as [->|] end; simpl;
    split; naive_solver.
Qed.

Lemma key_pair_bar_free e d : bar_free d → bar_free_label (Event.TagsMap e !! d) → bar_free (key_pair e d).
Proof.
  intros Hd Hv. unfold bar_free, key_pair. rewrite !str_forall_app.
  apply key_value_bar_free in Hv. by rewrite Hd, Hv.
Qed.

Lemma join_bar_inj ws ws' :
  ws ≠ [] → ws' ≠ [] → Forall bar_free ws → Forall bar_free ws' →
  join ws keyPairSep = join ws' keyPairSep → ws = ws'.
Proof.
  intros Hn Hn' Hws Hws' Heq.
  rewrite <- (split_join "|"%char "" ws), <- (split_join "|"%char "" ws'); try done.
  - unfold keyPairSep in Heq. by rewrite Heq.
  - apply forallb_elem_of. intros w Hw. rewrite Forall_forall in Hws'. by apply Hws'.
  - apply forallb_elem_of. intros w Hw. rewrite Forall_forall in Hws. by apply Hws.
Qed.

(** C27. The key does not depend on the order of the dimensions, and two events have the same key
    exactly when they have the same labels on all dimensions, where an absent label, an empty
    one and the marker of absence count as the same.  There is a dimension, and neither the
    dimensions nor the labels contain the separator. *)
Theorem incident_key_identifies e1 e2 dims :
  dims ≠ [] → Forall bar_free dims →
  (∀ d, d ∈ dims → bar_free_label (Event.TagsMap e1 !! d) ∧ bar_free_label (Event.TagsMap e2 !! d)) →
  (∀ dims', dims' ≡ₚ dims → BuildIncidentKey (Some e1) dims' = BuildIncidentKey (Some e1) dims) ∧
  (BuildIncidentKey (Some e1) dims = BuildIncidentKey (Some e2) dims ↔
     ∀ d, d ∈ dims → alike (Event.TagsMap e1 !! d) (Event.TagsMap e2 !! d)).
Proof.
  intros Hn Hd Hp. unfold BuildIncidentKey. split.
  - intros dims' Hperm. rewrite (sort_strings_canonical _ _ Hperm). by rewrite Hperm.
  - replace (length dims =? 0)%nat with false by (by destruct dims).
    assert (∀ e, (∀ d, d ∈ dims → bar_free_label (Event.TagsMap e !! d)) →
      Forall bar_free (map (key_pair e) (sort_strings dims))) as Hfree.
    { intros e He. apply Forall_forall. intros w (d & -> & Hin)%list_elem_of_fmap. rewrite sort_strings_perm in Hin.
      rewrite Forall_forall in Hd. apply key_pair_bar_free; auto. }
    assert (∀ e, map (key_pair e) (sort_strings dims) ≠ []) as Hne.
    { intros e Hnil%map_eq_nil. pose proof (sort_strings_perm dims) as Hs. rewrite Hnil in Hs.
      by apply Permutation_nil_l in Hs. }
    split.
    + intros Heq d Hin. apply join_bar_inj in Heq; [|apply Hne..|apply Hfree; apply Hp|apply Hfree; apply Hp].
      apply key_value_same.
      assert (d ∈ sort_strings dims) as (i & Hi)%list_elem_of_lookup by by rewrite sort_strings_perm.
      apply (f_equal (lookup i)) in Heq. rewrite !list_lookup_fmap, Hi in Heq. simpl in Heq. simplify_eq.
      unfold key_pair in Heq. by do 2 apply sapp_inj_l in Heq.
    + intros Heq. f_equal. apply map_ext_in. intros d Hin%list_elem_of_In. rewrite sort_strings_perm in Hin.
      unfold key_pair. do 2 f_equal. by apply key_value_same, Heq.
Qed.

(** ** The best rule *)

(** [r] is at least as good as [r']. *)
Definition as_good (r r' : CustomAggregateRule) : Prop :=
  ar_Priority r' < ar_Priority r ∨ (ar_Priority r' = ar_Priority r ∧ ar_Id r <= ar_Id r').

Section best_rule.
Context `{Regexp, GoFmt, !Json (list TagFilter)}.

Definition best_among (event : option AlertCurEvent) (best : option CustomAggregateRule) (seen : list (option CustomAggregateRule)) : Prop :=
  match best with
  | None => ∀ r, r ∈ seen → MatchRule event r = false
  | Some b => Some b ∈ seen ∧ MatchRule event (Some b) = true ∧
      ∀ r, Some r ∈ seen → MatchRule event (Some r) = true → as_good b r
  end.

Lemma select_from_best event best seen rules :
  best_among event best seen → best_among event (select_from event best rules) (seen ++ rules).
Proof.
  revert best seen. induction rules as [|r rules IH]; intros best seen Hb; simpl; [by rewrite app_nil_r|].
  rewrite cons_middle, (app_assoc seen). destruct (MatchRule event r) eqn:Em; simpl.
  - destruct r as [r|]; [|by destruct event].
    destruct best as [b|]; apply IH.
    + destruct Hb as (Hin & Hm & Hmax). unfold better.
      destruct ((_ <? _) || _) eqn:E; (split; [set_solver|split; [done|]]);
        intros r' [Hr'|Hr'%list_elem_of_singleton]%elem_of_app Hm'; simplify_eq;
        try (specialize (Hmax r' Hr' Hm')); unfold as_good in *; lia.
    + split; [set_solver|]. split; [done|].
      intros r' [Hr'|Hr'%list_elem_of_singleton]%elem_of_app Hm'; simplify_eq; [|right; lia].
      rewrite (Hb _ Hr') in Hm'. done.
  - apply IH. destruct best as [b|].
    + destruct Hb as (Hin & Hm & Hmax). split; [set_solver|]. split; [done|].
      intros r' [Hr'|Hr']%elem_of_app Hm'; [by apply Hmax|]. apply list_elem_of_singleton in Hr'. subst. congruence.
    + intros r' [Hr'|Hr'%list_elem_of_singleton]%elem_of_app; [auto|congruence].
Qed.

(** The rule that is chosen for an event is one of the rules, matches the event, and
    no other matching rule has a higher priority or the same priority and a smaller
    id; none is chosen exactly when none matches. *)
Theorem best_rule_is_best event rules :
  match SelectBestRule event rules with
  | None => ∀ r, r ∈ rules → MatchRule event r = false
  | Some b => Some b ∈ rules ∧ MatchRule event (Some b) = true ∧
      ∀ r, Some r ∈ rules → MatchRule event (Some r) = true → as_good b r
  end.
Proof.
  pose proof (select_from_best event None [] rules) as Hs. unfold SelectBestRule.
  destruct (select_from event None rules) eqn:E; apply Hs; intros r Hr; set_solver.
Qed.
End best_rule.

(** ** One event *)

Lemma run_bind {S A B} (p : prog S A) (k : A → prog S B) s :
  run (p ≫= k) s = let '(s', a) := run p s in run (k a) s'.
Proof. apply run_then. Qed.

Lemma db_apply_ok {A} (f : denoise → denoise * A) s :
  dn_faults s = [] → db_apply f s = let '(s', a) := f s in (s', Ok a).
Proof. unfold db_apply. destruct s; simpl. by intros ->. Qed.

(** The row an event adds. *)
Definition link_of (s : denoise) (incidentId : Z) (e : AlertCurEvent) : CustomIncidentEvent :=
  mkIncidentEvent (dn_nextlink s) incidentId (Event.Hash e) (Event.Id e) 0 (dn_now s).

(** What a merge does to its incident: the update, and perhaps the mark of a storm. *)
Definition merged_row (a : Aggregator) (e : AlertCurEvent) (t : Z) (storm : bool) (inc : CustomIncident) : CustomIncident :=
  let inc := bump_incident e (ag_upgradeOn a) t inc in
  if storm then inc <| ci_StormFired := 1 |> else inc.

(** The parts of the state that handling one event leaves as they are. *)
Definition same_frame (s s' : denoise) : Prop :=
  dn_rules s' = dn_rules s ∧ dn_now s' = dn_now s ∧ dn_faults s' = dn_faults s ∧ dn_agg s' = dn_agg s.

(** A state after [res] merged [e] into an incident. *)
Definition merged_into (a : Aggregator) (e : AlertCurEvent) (ruleId incidentId : Z) (s s' : denoise) (res : Result) : Prop :=
  ∃ storm, is_drop (r_Decision res) = true ∧ r_IncidentId res = incidentId ∧ r_RuleId res = ruleId ∧
    (storm = true ↔ r_Decision res = DecisionStorm) ∧
    dn_links s' = dn_links s ++ [link_of s incidentId e] ∧
    dn_incidents s' = alter (merged_row a e (dn_now s) storm) incidentId (dn_incidents s) ∧
    dn_index s' = <[(ruleId, "") := mkEntry incidentId (dn_now s)]> (dn_index s) ∧
    dn_nextid s' = dn_nextid s ∧ same_frame s s'.

Lemma observe_frame i th w s :
  ∃ st, (observe i th w s).1 = s <| dn_storm := st |>.
Proof.
  unfold observe. case_branches; eauto. exists (dn_storm s). by destruct s.
Qed.

(** Ids are positive, below the counter, and stand in their rows. *)
Definition ids_ok (s : denoise) : Prop :=
  ∀ i inc, dn_incidents s !! i = Some inc → 0 < i < dn_nextid s ∧ ci_Id inc = i.

Lemma active_id_spec ruleId key cutoff s :
  ids_ok s →
  match dn_incidents s !! active_id ruleId key cutoff s with
  | Some inc => is_active ruleId key cutoff inc = true ∧ ci_Id inc = active_id ruleId key cutoff s
  | None => active_id ruleId key cutoff s = 0
  end ∧
  ∀ j inc, dn_incidents s !! j = Some inc → is_active ruleId key cutoff inc = true → j <= active_id ruleId key cutoff s.
Proof.
  intros Hids. unfold active_id.
  assert (let m := map_fold (λ id inc m, if is_active ruleId key cutoff inc then Z.max id m else m) 0 (dn_incidents s) in
    0 <= m ∧ (m ≠ 0 → ∃ inc, dn_incidents s !! m = Some inc ∧ is_active ruleId key cutoff inc = true) ∧
    ∀ j inc, dn_incidents s !! j = Some inc → is_active ruleId key cutoff inc = true → j <= m) as (Hm0 & Hm & Hmax).
  { revert Hids. unfold ids_ok. generalize (dn_nextid s) (dn_incidents s). intros n.
    refine (map_fold_weak_ind (λ m (t : gmap Z CustomIncident), (∀ i inc, t !! i = Some inc → 0 < i < n ∧ ci_Id inc = i) →
      0 <= m ∧ (m ≠ 0 → ∃ inc, t !! m = Some inc ∧ is_active ruleId key cutoff inc = true) ∧
      ∀ j inc, t !! j = Some inc → is_active ruleId key cutoff inc = true → j <= m) _ _ _ _).
    - intros _. split; [done|]. split; [done|]. intros j inc Hj. by rewrite lookup_empty in Hj.
    - intros i inc t m Hi IH Hids. destruct IH as (H0 & H1 & H2).
      { intros j inc' Hj. apply Hids. rewrite lookup_insert_ne; [done|congruence]. }
      pose proof (Hids i inc (lookup_insert_eq _ _ _)) as [Hpos _].
      destruct (is_active ruleId key cutoff inc) eqn:Ea; (split; [lia|]); split.
      + intros Hne. destruct (Z.max_spec i m) as [[? ->]|[? ->]]; [|by exists inc; rewrite lookup_insert_eq].
        destruct H1 as (inc' & ? & ?); [lia|]. exists inc'. by rewrite lookup_insert_ne by lia.
      + intros j inc' [[<- <-]|[? Hj]]%lookup_insert_Some Hact; [lia|]. specialize (H2 _ _ Hj Hact). lia.
      + intros Hne. destruct H1 as (inc' & ? & ?); [done|]. exists inc'. rewrite lookup_insert_ne; [done|congruence].
      + intros j inc' [[<- <-]|[? Hj]]%lookup_insert_Some Hact; [congruence|]. eauto. }
  set (m := map_fold _ _ _) in *. split; [|done]. destruct (decide (m = 0)) as [Hz|Hz].
  - rewrite Hz. destruct (dn_incidents s !! 0) eqn:E0; [|done]. destruct (Hids _ _ E0). lia.
  - destruct (Hm Hz) as (inc & Hi & Hact). rewrite Hi. split; [done|]. by apply Hids in Hi as [_ ?].
Qed.

Section handle.
Context `{Regexp, GoFmt, !Json (list TagFilter), !Json (list string), !Json (gmap string string)}.

Lemma run_merge a e rule i s :
  dn_faults s = [] →
  ∃ s' res, run (merge a e rule i) s = (s', Ok res) ∧ merged_into a e (ar_Id rule) i s s' res.
Proof.
  intros Hf. unfold merge, AppendEvent, Index_Put, Storm_Observe, MarkStormFired, now, db.
  rewrite !run_bind, run_atomically. cbn -[db_apply].
  rewrite db_apply_ok by done. cbn -[db_apply observe].
  set (s1 := index_put _ _ _ _). destruct (observe_frame i (ar_StormThreshold rule) (ar_StormWindowSec rule) s1) as (st & Hst).
  destruct (observe _ _ _ s1) as [s2 b]; simpl in Hst; subst s2.
  destruct b; cbn -[db_apply].
  - rewrite db_apply_ok by done. unfold mark_storm. destruct (dn_incidents _ !! i) as [inc|] eqn:Ei; [destruct (_ =? 0) eqn:E0|]; cbn.
    + eexists _, _. split; [done|]. exists true. repeat split; try done.
      change (alter (bump_incident e (ag_upgradeOn a) (dn_now s)) i (dn_incidents s) !! i = Some inc) in Ei.
      change (<[i := inc <| ci_StormFired := 1 |>]> (alter (bump_incident e (ag_upgradeOn a) (dn_now s)) i (dn_incidents s))
              = alter (merged_row a e (dn_now s) true) i (dn_incidents s)).
      rewrite lookup_alter, decide_True in Ei by done. destruct (dn_incidents s !! i) as [inc0|] eqn:Hi0; simplify_eq/=.
      apply map_eq. intros j. destruct (decide (j = i)) as [->|Hne].
      * rewrite lookup_insert, decide_True, lookup_alter, decide_True, Hi0 by done. done.
      * by rewrite lookup_insert_ne, !lookup_alter_ne by done.
    + eexists _, _. split; [done|]. exists false. by repeat split.
    + eexists _, _. split; [done|]. exists false. by repeat split.
  - eexists _, _. split; [done|]. exists false. by repeat split.
Qed.

(** A state after [res] opened an incident for [e]. *)
Definition opened (e : AlertCurEvent) (rule : CustomAggregateRule) (dims : list string) (dimJSON key : string)
    (s s' : denoise) (res : Result) : Prop :=
  let row := new_incident e rule (DimensionValuesMap (Some e) dims) dimJSON key (dn_now s) in
  r_Decision res = DecisionFireFirst ∧ r_IncidentId res = dn_nextid s ∧ r_RuleId res = ar_Id rule ∧
  dn_incidents s' = <[dn_nextid s := row <| ci_Id := dn_nextid s |>]> (dn_incidents s) ∧
  dn_links s' = dn_links s ++ [link_of s (dn_nextid s) e] ∧
  dn_index s' = <[(ar_Id rule, key) := mkEntry (dn_nextid s) (dn_now s)]> (dn_index s) ∧
  dn_nextid s' = dn_nextid s + 1 ∧ same_frame s s'.

Lemma run_createNew e rule dims dimJSON key s :
  dn_faults s = [] → dn_now s ≠ 0 →
  json_marshal (DimensionValuesMap (Some e) dims) = Ok dimJSON →
  ∃ s' res, run (createNew e rule dims key) s = (s', Ok res) ∧ opened e rule dims dimJSON key s s' res.
Proof.
  intros Hf Hn Hj. unfold createNew, CreateIncident, EncodeDimensionValues, Index_Put, now, db. rewrite Hj.
  apply Z.eqb_neq in Hn. rewrite !run_bind, run_atomically. cbn -[db_apply]. rewrite Hn. cbn -[db_apply]. rewrite Hn.
  cbn -[db_apply]. rewrite db_apply_ok by done. cbn -[db_apply]. rewrite db_apply_ok by done. cbn -[db_apply].
  eexists _, _. split; [done|]. by repeat split.
Qed.

Lemma key_nonempty e dims : dims ≠ [] → BuildIncidentKey (Some e) dims ≠ "".
Proof.
  intros Hn. unfold BuildIncidentKey. replace (length dims =? 0)%nat with false by (by destruct dims).
  destruct (sort_strings dims) as [|d ds] eqn:Es.
  - pose proof (sort_strings_perm dims) as Hp. rewrite Es in Hp. by apply Permutation_nil_l in Hp.
  - cbn [map]. destruct (map (key_pair e) ds); unfold key_pair; cbn [join]; intros Heq;
      repeat (apply sapp_eq_nil in Heq as [Heq ?]); by destruct d.
Qed.

(** What placing an event comes to. *)
Definition placed (a : Aggregator) (e : AlertCurEvent) (rule : CustomAggregateRule) (dims : list string)
    (dimJSON key : string) (s s' : denoise) (res : Result) : Prop :=
  match index_get (ar_Id rule) key (ar_WindowSec rule) s with
  | Some i => merged_into a e (ar_Id rule) i s s' res
  | None =>
      let i := active_id (ar_Id rule) key (i64 (dn_now s - ar_WindowSec rule)) s in
      if i =? 0 then opened e rule dims dimJSON key s s' res
      else merged_into a e (ar_Id rule) i (index_put (ar_Id rule) key i s) s' res
  end.

Lemma run_place a e rule dims dimJSON key s :
  dn_faults s = [] → dn_now s ≠ 0 → ids_ok s →
  json_marshal (DimensionValuesMap (Some e) dims) = Ok dimJSON →
  ∃ s' res, run (place a e rule dims key) s = (s', Ok res) ∧ placed a e rule dims dimJSON key s s' res.
Proof.
  intros Hf Hn Hids Hj.
  unfold place, Index_Get, placed. rewrite run_bind, run_atomically. cbn -[merge createNew index_get].
  destruct (index_get _ key _ s) as [i|] eqn:Eg; [by apply run_merge|].
  unfold FindActiveIncident, db, now. cbn -[db_apply merge createNew i64 active_id index_put].
  rewrite db_apply_ok by done. cbn -[merge createNew i64 active_id index_put].
  pose proof (active_id_spec (ar_Id rule) key (i64 (dn_now s - ar_WindowSec rule)) s Hids) as [Hact _].
  destruct (dn_incidents s !! _) as [inc|] eqn:Ei.
  - destruct Hact as [_ Hid]. replace (_ =? 0) with false by (symmetry; apply Z.eqb_neq; apply Hids in Ei; lia).
    rewrite <- Hid. by apply run_merge.
  - rewrite Hact. simpl. by apply run_createNew.
Qed.

Lemma run_Handle a e s rule dims :
  SelectBestRule (Some e) (dn_rules s) = Some rule →
  decodeStringSlice (ar_Dimensions rule) = Ok dims → dims ≠ [] →
  run (Handle a (Some e)) s = run (place a e rule dims (BuildIncidentKey (Some e) dims)) s.
Proof.
  intros Hr Hd Hne. pose proof (key_nonempty e dims Hne) as Hk. unfold Handle, GetActiveRules.
  rewrite run_bind, run_atomically. cbn -[BuildIncidentKey place]. rewrite Hr, Hd. destruct dims as [|d ds]; [done|].
  by apply String.eqb_neq in Hk as ->.
Qed.

(** An event that a rule takes is dropped and counted in the incident that is cached
    for its key, or else in the newest open one within the window; when there is none,
    it passes and opens an incident, with a row that links it. *)
Theorem handle_places a e s rule dims dimJSON :
  dn_faults s = [] → dn_now s ≠ 0 → ids_ok s →
  SelectBestRule (Some e) (dn_rules s) = Some rule →
  decodeStringSlice (ar_Dimensions rule) = Ok dims → dims ≠ [] →
  json_marshal (DimensionValuesMap (Some e) dims) = Ok dimJSON →
  ∃ s' res, run (Handle a (Some e)) s = (s', Ok res) ∧
    placed a e rule dims dimJSON (BuildIncidentKey (Some e) dims) s s' res.
Proof.
  intros Hf Hn Hids Hr Hd Hne Hj. rewrite (run_Handle _ _ _ _ _ Hr Hd Hne). by apply run_place.
Qed.

(** ** A burst of events *)

Definition at_time (t : Z) (s : denoise) : denoise := s <| dn_now := t |>.

(** Events that arrive one after the other, each at its time. *)
Fixpoint arrivals (a : Aggregator) (evs : list (Z * AlertCurEvent)) (s : denoise) : denoise * list (result Result) :=
  match evs with
  | [] => (s, [])
  | (t, e) :: evs =>
      let '(s, r) := run (Handle a (Some e)) (at_time t s) in
      let '(s, rs) := arrivals a evs s in (s, r :: rs)
  end.

(** No pause after [t] is longer than the window. *)
Fixpoint in_window (window t : Z) (evs : list (Z * AlertCurEvent)) : Prop :=
  match evs with
  | [] => True
  | (t', _) :: evs => t <= t' <= t + window ∧ t' < 2 ^ 62 ∧ in_window window t' evs
  end.

(** An event of the rule with the key. *)
Definition of_incident (rules : list (option CustomAggregateRule)) (rule : CustomAggregateRule) (dims : list string)
    (key : string) (e : AlertCurEvent) : Prop :=
  SelectBestRule (Some e) rules = Some rule ∧ BuildIncidentKey (Some e) dims = key ∧
  ∃ dimJSON, json_marshal (DimensionValuesMap (Some e) dims) = Ok dimJSON.

Definition worst (upgrade : bool) (severity : Z) (evs : list (Z * AlertCurEvent)) : Z :=
  foldl (λ m te, if upgrade then Z.min m (Event.Severity te.2) else m) severity evs.

Section burst.
Context (rule : CustomAggregateRule) (dims : list string) (key : string).
Hypothesis Hdims : decodeStringSlice (ar_Dimensions rule) = Ok dims.
Hypothesis Hdims_ne : dims ≠ [].
Hypothesis Hkey : key ≠ "".
Hypothesis Hwindow : 0 <= ar_WindowSec rule < 2 ^ 62.

(** The incident [i] takes the events of the key: it is the newest one, and open. *)
Definition absorbing (rules : list (option CustomAggregateRule)) (i t count severity : Z) (s : denoise) : Prop :=
  dn_faults s = [] ∧ dn_rules s = rules ∧ ids_ok s ∧ dn_nextid s = i + 1 ∧
  (∀ e, dn_index s !! (ar_Id rule, key) = Some e → ae_incidentId e = i) ∧
  ∃ inc, dn_incidents s !! i = Some inc ∧ ci_RuleId inc = ar_Id rule ∧ ci_IncidentKey inc = key ∧
    ci_Status inc = IncidentStatusOpen ∧ ci_LastEventAt inc = t ∧ ci_EventCount inc = count ∧ ci_Severity inc = severity.

Lemma ids_ok_alter f i s s' :
  ids_ok s → (∀ inc, ci_Id (f inc) = ci_Id inc) →
  dn_incidents s' = alter f i (dn_incidents s) → dn_nextid s' = dn_nextid s → ids_ok s'.
Proof.
  intros Hids Hf Hi Hn j inc. rewrite Hi, Hn. destruct (decide (i = j)) as [->|Hne].
  - rewrite lookup_alter, decide_True by done. intros (inc0 & Hj & ->)%fmap_Some. rewrite Hf. by apply Hids.
  - rewrite lookup_alter_ne by done. apply Hids.
Qed.

Lemma merged_absorbing a e rules i t t' count severity s s' res :
  absorbing rules i t count severity s → dn_now s = t' →
  merged_into a e (ar_Id rule) i s s' res →
  absorbing rules i t' (count + 1) (if ag_upgradeOn a then Z.min severity (Event.Severity e) else severity) s'.
Proof.
  intros (Hf & Hr & Hids & Hn & Hix & inc & Hi & Hrule & Hk & Hst & Hl & Hc & Hs) <-
    (storm & _ & _ & _ & _ & _ & Hincs & Hindex & Hnext & Hrules & Hnow & Hfaults & _).
  split; [congruence|]. split; [congruence|]. split; [|split; [congruence|split]].
  - eapply ids_ok_alter; [done| |done|done]. intros inc0. unfold merged_row, bump_incident. by case_branches.
  - rewrite Hindex. intros en. rewrite lookup_insert_ne; [apply Hix|congruence].
  - exists (merged_row a e (dn_now s) storm inc). rewrite Hincs, lookup_alter, decide_True, Hi by done.
    split; [done|]. unfold merged_row, bump_incident. destruct storm, (ag_upgradeOn a); simpl; repeat split; try congruence; case_branches; lia.
Qed.

Lemma absorbing_step a e rules i t t' count severity s :
  absorbing rules i t count severity s → of_incident rules rule dims key e →
  0 < t <= t' → t' <= t + ar_WindowSec rule → t' < 2 ^ 62 →
  ∃ s' res, run (Handle a (Some e)) (at_time t' s) = (s', Ok res) ∧
    is_drop (r_Decision res) = true ∧ r_IncidentId res = i ∧
    absorbing rules i t' (count + 1) (if ag_upgradeOn a then Z.min severity (Event.Severity e) else severity) s'.
Proof.
  intros Habs (Hsel & Hkeq & dimJSON & Hj) Ht Htw Ht'. pose proof Habs as (Hf & Hr & Hids & Hn & Hix & inc & Hi & Hrule & Hk & Hst & Hl & Hc & Hs).
  assert (absorbing rules i t count severity (at_time t' s)) as Habs' by exact Habs.
  destruct (handle_places a e (at_time t' s) rule dims dimJSON) as (s' & res & Hrun & Hp); try done;
    [simpl; lia|by rewrite <- Hr in Hsel|].
  exists s', res. split; [done|]. rewrite Hkeq in Hp. unfold placed in Hp.
  destruct (index_get _ key _ _) as [j|] eqn:Eg.
  - unfold index_get in Eg. simpl in Eg. destruct (dn_index s !! (ar_Id rule, key)) as [en|] eqn:Ee; [|done]. destruct (_ <? _); [done|]. injection Eg as <-.
    rewrite (Hix en eq_refl) in Hp. pose proof Hp as (? & ? & ? & _). repeat (split; [done|]).
    by eapply merged_absorbing.
  - assert (active_id (ar_Id rule) key (i64 (t' - ar_WindowSec rule)) (at_time t' s) = i) as Hact.
    { rewrite i64_id by (unfold in_i64; lia). pose proof (Hids _ _ Hi) as [? _].
      destruct (active_id_spec (ar_Id rule) key (t' - ar_WindowSec rule) (at_time t' s)) as [Hin Hmax]; [done|].
      assert (i <= active_id (ar_Id rule) key (t' - ar_WindowSec rule) (at_time t' s)) as Hge.
      { apply (Hmax i inc Hi). unfold is_active. rewrite Hrule, Hk, Hst, Hl, Z.eqb_refl, String.eqb_refl. simpl. lia. }
      clear Hp Eg. revert Hin. case_match eqn:Ei'; [intros _; apply Hids in Ei'; lia|lia]. }
    simpl in Hp. rewrite Hact in Hp. apply Hids in Hi as Hpos. rewrite (proj2 (Z.eqb_neq i 0)) in Hp by lia.
    pose proof Hp as (? & ? & ? & _). repeat (split; [done|]).
    eapply (merged_absorbing _ _ _ _ t); [| |exact Hp]; [|reflexivity]. do 4 (split; [done|]). split.
    + intros en. simpl. rewrite lookup_insert_eq. by intros [= <-].
    + by exists inc.
Qed.

Lemma absorbing_arrivals a rules i evs t count severity s :
  absorbing rules i t count severity s → 0 < t → in_window (ar_WindowSec rule) t evs →
  Forall (λ te, of_incident rules rule dims key te.2) evs →
  ∃ s' rest, arrivals a evs s = (s', map Ok rest) ∧ length rest = length evs ∧
    Forall (λ r, is_drop (r_Decision r) = true ∧ r_IncidentId r = i) rest ∧
    absorbing rules i (default t (last evs.*1)) (count + Z.of_nat (length evs)) (worst (ag_upgradeOn a) severity evs) s'.
Proof.
  revert t count severity s. induction evs as [|[t' e] evs IH]; intros t count severity s Habs Ht Hw Hof.
  - exists s, []. rewrite Z.add_0_r. split; [done|]. split; [done|]. split; [constructor|exact Habs].
  - destruct Hw as ([Hle Hlt] & Hb & Hw). apply Forall_cons in Hof as [He Hof].
    destruct (absorbing_step a e rules i t t' count severity s) as (s1 & res & Hrun & Hdrop & Hid & Habs1); [done..|lia|lia|lia|].
    destruct (IH t' (count + 1) (if ag_upgradeOn a then Z.min severity (Event.Severity e) else severity) s1)
      as (s2 & rest & Harr & Hlen & Hall & Habs2); [done|lia|done..|].
    exists s2, (res :: rest). cbn [arrivals]. rewrite Hrun, Harr. split; [done|]. split; [simpl; by rewrite Hlen|]. split; [by constructor|].
    rewrite fmap_cons, last_cons. replace (default t _) with (default t' (last evs.*1)) by by destruct (last evs.*1).
    replace (count + _) with (count + 1 + Z.of_nat (length evs)) by (simpl; lia). exact Habs2.
Qed.
End burst.

(** C20. When nothing fails, of a burst of events with the same rule and key only the first
    passes, whatever its length, as long as no pause is longer than the window: it opens
    the only incident, into which all others are dropped, and which then counts them all
    with the time of the last and, if severities are raised, the worst severity. *)
Theorem burst_is_one_incident a rule dims key s t e evs :
  dn_faults s = [] → ids_ok s →
  decodeStringSlice (ar_Dimensions rule) = Ok dims → dims ≠ [] → 0 <= ar_WindowSec rule < 2 ^ 62 →
  Forall (λ te, of_incident (dn_rules s) rule dims key te.2) ((t, e) :: evs) →
  0 < t → 0 < dn_nextid s → in_window (ar_WindowSec rule) t evs →
  index_get (ar_Id rule) key (ar_WindowSec rule) (at_time t s) = None →
  active_id (ar_Id rule) key (i64 (t - ar_WindowSec rule)) s = 0 →
  ∃ s' first rest inc, arrivals a ((t, e) :: evs) s = (s', Ok first :: map Ok rest) ∧
    r_Decision first = DecisionFireFirst ∧ length rest = length evs ∧
    Forall (λ r, is_drop (r_Decision r) = true ∧ r_IncidentId r = r_IncidentId first) rest ∧
    dn_nextid s' = dn_nextid s + 1 ∧ dn_incidents s' !! r_IncidentId first = Some inc ∧
    ci_IncidentKey inc = key ∧ ci_Status inc = IncidentStatusOpen ∧
    ci_EventCount inc = 1 + Z.of_nat (length evs) ∧ ci_LastEventAt inc = default t (last evs.*1) ∧
    ci_Severity inc = worst (ag_upgradeOn a) (Event.Severity e) evs.
Proof.
  intros Hf Hids Hd Hne Hwin Hof Ht Hpos Hw Hix Hact. apply Forall_cons in Hof as [He Hof].
  pose proof He as (Hsel & Hkey & dimJSON & Hj). cbn [snd] in Hsel, Hkey, Hj.
  assert (key ≠ "") as Hkne by (rewrite <- Hkey; by apply key_nonempty).
  destruct (handle_places a e (at_time t s) rule dims dimJSON) as (s1 & first & Hrun & Hp); try done; [simpl; lia|].
  unfold placed in Hp. rewrite Hkey, Hix in Hp.
  change (active_id _ _ _ _) with (active_id (ar_Id rule) key (i64 (t - ar_WindowSec rule)) s) in Hp.
  rewrite Hact in Hp. destruct Hp as (Hfirst & Hid & _ & Hincs & _ & Hindex & Hnext & Hrules & Hnow & Hfaults & _).
  simpl in Hid, Hincs, Hindex, Hnext, Hrules, Hnow, Hfaults.
  destruct (absorbing_arrivals rule dims key Hd Hne Hkne Hwin a (dn_rules s) (dn_nextid s) evs t 1 (Event.Severity e) s1)
    as (s2 & rest & Harr & Hlen & Hall & Habs); [|done..|].
  - split; [congruence|]. split; [congruence|]. split; [|split; [done|split]].
    + intros j inc. rewrite Hincs, Hnext. intros [[<- <-]|[? Hj']]%lookup_insert_Some; [simpl; lia|].
      apply Hids in Hj'. lia.
    + rewrite Hindex, lookup_insert_eq. by intros en [= <-].
    + eexists. rewrite Hincs, lookup_insert_eq. by repeat split.
  - destruct Habs as (_ & _ & _ & Hn2 & _ & inc & Hinc & _ & Hk2 & Hst2 & Hl2 & Hc2 & Hs2).
    exists s2, first, rest, inc. cbn [arrivals]. rewrite Hrun, Harr, Hid. by repeat split.
Qed.
End handle.

(** ** Many handlers at once *)

(** What a handler knows or owes: [Seed i], it opened incident [i] and has not linked its
    event; [Storm i], it is the one that reports the storm of [i]; [Known i], the incident
    exists; [Linked i h], an event with hash [h] is linked to [i]. *)
Inductive token := Seed (i : Z) | Storm (i : Z) | Known (i : Z) | Linked (i : Z) (h : string).
#[export] Instance token_eq_dec : EqDecision token.
Proof. solve_decision. Defined.
#[export] Instance token_countable : Countable token.
Proof.
  refine (inj_countable' (λ t, match t with
    | Seed i => inl (inl i) | Storm i => inl (inr i) | Known i => inr (inl i) | Linked i h => inr (inr (i, h)) end)
    (λ c, match c with
    | inl (inl i) => Seed i | inl (inr i) => Storm i | inr (inl i) => Known i | inr (inr (i, h)) => Linked i h end) _).
  by intros [].
Defined.

Definition count_links (i : Z) (s : denoise) : nat :=
  length (filter (λ l, ie_IncidentId l = i) (dn_links s)).

(** The tables and the tokens agree. *)
Record accounted (s : denoise) (m : gmultiset token) : Prop := {
  acc_ids : ids_ok s;
  acc_next : 0 < dn_nextid s;
  acc_count i inc : dn_incidents s !! i = Some inc →
    ci_EventCount inc = Z.of_nat (count_links i s + multiplicity (Seed i) m);
  acc_seed i : (multiplicity (Seed i) m <= 1)%nat;
  acc_dom t : t ∈ m → match t with
    | Seed i | Storm i | Known i => is_Some (dn_incidents s !! i)
    | Linked i h => ∃ l, l ∈ dn_links s ∧ ie_IncidentId l = i ∧ ie_EventHash l = h
    end;
  acc_links l : l ∈ dn_links s → is_Some (dn_incidents s !! ie_IncidentId l);
  acc_index k e : dn_index s !! k = Some e → is_Some (dn_incidents s !! ae_incidentId e);
  acc_storm i inc : dn_incidents s !! i = Some inc →
    (multiplicity (Storm i) m <= if (ci_StormFired inc =? 0)%Z then 0 else 1)%nat
}.

(** Two states with the same tables, as far as they are accounted for. *)
Definition same_tables (s s' : denoise) : Prop :=
  dn_incidents s' = dn_incidents s ∧ dn_links s' = dn_links s ∧ dn_nextid s' = dn_nextid s.

Lemma accounted_tables s s' m :
  same_tables s s' → (∀ k e, dn_index s' !! k = Some e → is_Some (dn_incidents s !! ae_incidentId e)) →
  accounted s m → accounted s' m.
Proof.
  intros (Hi & Hl & Hn) Hix [? ? Hc ? ? ? ? ?]. unfold count_links in Hc.
  split; unfold ids_ok, count_links in *; rewrite ?Hi, ?Hl, ?Hn; auto.
Qed.

Lemma accounted_same s s' m : same_tables s s' → dn_index s' = dn_index s → accounted s m → accounted s' m.
Proof. intros Ht Hix Hacc. eapply accounted_tables; [done| |done]. rewrite Hix. apply Hacc. Qed.

(** Rows may change in other columns, links may be marked, and cached entries may go. *)
Lemma accounted_weaken f g s s' m :
  (∀ inc, ci_Id (f inc) = ci_Id inc ∧ ci_EventCount (f inc) = ci_EventCount inc ∧ ci_StormFired (f inc) = ci_StormFired inc) →
  (∀ l, ie_IncidentId (g l) = ie_IncidentId l ∧ ie_EventHash (g l) = ie_EventHash l) →
  ∀ i, dn_incidents s' = alter f i (dn_incidents s) → dn_links s' = map g (dn_links s) →
  dn_nextid s' = dn_nextid s → dn_index s' ⊆ dn_index s →
  accounted s m → accounted s' m.
Proof.
  intros Hf Hg i Hi Hl Hn Hix Hacc.
  assert (∀ j inc', dn_incidents s' !! j = Some inc' → ∃ inc, dn_incidents s !! j = Some inc ∧
    ci_Id inc' = ci_Id inc ∧ ci_EventCount inc' = ci_EventCount inc ∧ ci_StormFired inc' = ci_StormFired inc) as Hrow.
  { intros j inc'. rewrite Hi. destruct (decide (i = j)) as [->|Hne].
    - rewrite lookup_alter, decide_True by done. intros (inc & Hj & ->)%fmap_Some. exists inc. split; [done|]. apply Hf.
    - rewrite lookup_alter_ne by done. eauto. }
  assert (∀ j, is_Some (dn_incidents s !! j) → is_Some (dn_incidents s' !! j)) as Hdom.
  { intros j [inc Hj]. rewrite Hi. destruct (decide (i = j)) as [->|Hne];
      [rewrite lookup_alter, decide_True, Hj by done|rewrite lookup_alter_ne, Hj by done]; by eexists. }
  assert (∀ j, count_links j s' = count_links j s) as Hcnt.
  { intros j. unfold count_links. rewrite Hl. clear -Hg. induction (dn_links s) as [|l ls IH]; [done|]. simpl.
    rewrite !filter_cons. destruct (Hg l) as [-> _]. case_decide; simpl; congruence. }
  destruct Hacc as [Hids Hnx Hc Hs Hd Hls Hx Hst]. split; rewrite ?Hn; auto.
  - intros j inc' Hj. rewrite Hn. destruct (Hrow _ _ Hj) as (inc & Hj' & -> & _). by apply Hids.
  - intros j inc' Hj. destruct (Hrow _ _ Hj) as (inc & Hj' & _ & -> & _). rewrite Hcnt. by apply Hc.
  - intros t Ht. specialize (Hd t Ht). destruct t; auto. destruct Hd as (l & Hin & <- & <-). exists (g l).
    rewrite Hl. split; [by apply list_elem_of_fmap_2|apply Hg].
  - intros l Hin. rewrite Hl in Hin. apply list_elem_of_fmap in Hin as (l0 & -> & Hin). destruct (Hg l0) as [-> _]. auto.
  - intros k e Hk. apply Hdom, (Hx k). by eapply lookup_weaken.
  - intros j inc' Hj. destruct (Hrow _ _ Hj) as (inc & Hj' & _ & _ & ->). by apply Hst.
Qed.

Lemma accounted_insert_incident s inc m :
  ci_EventCount inc = 1 → ci_StormFired inc = 0 → accounted s m →
  accounted (insert_incident inc s).1 ({[+ Seed (dn_nextid s); Known (dn_nextid s) +]} ⊎ m) ∧
  ci_Id (insert_incident inc s).2 = dn_nextid s.
Proof.
  intros Hc Hs [Hids Hn Hcnt Hseed Hdom Hl Hix Hst]. split; [|done].
  assert (dn_incidents s !! dn_nextid s = None) as Hfresh.
  { destruct (dn_incidents s !! dn_nextid s) eqn:E; [|done]. apply Hids in E. lia. }
  assert (∀ t, t ∈ m → match t with Seed i | Storm i | Known i => i ≠ dn_nextid s | _ => True end) as Hold.
  { intros t Ht. apply Hdom in Ht. destruct t; [| | |done]; intros ->; rewrite Hfresh in Ht; by destruct Ht. }
  assert (multiplicity (Seed (dn_nextid s)) m = 0%nat) as Hm0.
  { destruct (multiplicity _ m) eqn:E; [done|]. assert (Seed (dn_nextid s) ∈ m) as Hin by (apply elem_of_multiplicity; lia). by apply Hold in Hin. }
  assert (count_links (dn_nextid s) s = 0%nat) as Hl0.
  { unfold count_links. destruct (filter _ _) as [|l ls] eqn:E; [done|].
    assert (l ∈ l :: ls) as Hin by set_solver. rewrite <- E in Hin. apply list_elem_of_filter in Hin as [Hi Hin].
    apply Hl in Hin. rewrite Hi, Hfresh in Hin. by destruct Hin. }
  split; simpl.
  - intros i inc'. simpl. intros [[<- <-]|[? Hi]]%lookup_insert_Some; [simpl; lia|]. apply Hids in Hi. lia.
  - lia.
  - intros i inc'. unfold count_links in *. simpl. intros [[<- <-]|[? Hi]]%lookup_insert_Some.
    + simpl. rewrite Hc, Hl0, !multiplicity_disj_union, multiplicity_singleton_eq, multiplicity_singleton_ne, Hm0 by done. lia.
    + rewrite !multiplicity_disj_union, !multiplicity_singleton_ne by congruence. by apply Hcnt.
  - intros i. rewrite !multiplicity_disj_union. rewrite (multiplicity_singleton_ne _ (Known _)) by done.
    destruct (decide (i = dn_nextid s)) as [->|]; [rewrite multiplicity_singleton_eq, Hm0; lia|].
    rewrite multiplicity_singleton_ne by congruence. simpl. apply Hseed.
  - intros t Ht. assert (∀ i, is_Some (dn_incidents s !! i) ∨ i = dn_nextid s →
      is_Some (<[dn_nextid s := inc <| ci_Id := dn_nextid s |>]> (dn_incidents s) !! i)) as Hsome.
    { intros i. rewrite lookup_insert_is_Some. intros [?| ->]; [destruct (decide (dn_nextid s = i)); auto|by left]. }
    apply gmultiset_elem_of_disj_union in Ht as [Ht|Ht].
    + apply gmultiset_elem_of_disj_union in Ht as [Ht|Ht]; apply gmultiset_elem_of_singleton in Ht as ->; auto.
    + specialize (Hdom t Ht). destruct t; auto.
  - intros l Hin. rewrite lookup_insert_is_Some. apply Hl in Hin. destruct (decide (dn_nextid s = ie_IncidentId l)); auto.
  - intros k e Hk. rewrite lookup_insert_is_Some. apply Hix in Hk. destruct (decide (dn_nextid s = ae_incidentId e)); auto.
  - intros i inc'. intros [[<- <-]|[? Hi]]%lookup_insert_Some;
      rewrite !multiplicity_disj_union, !multiplicity_singleton_ne by congruence; simpl; [|by apply Hst].
    rewrite Hs. simpl. destruct (multiplicity (Storm _) m) eqn:E; [lia|].
    assert (Storm (dn_nextid s) ∈ m) as Hin by (apply elem_of_multiplicity; lia). by apply Hold in Hin.
Qed.

(** A new link of [i]: its seed, or one more event. *)
Lemma count_links_insert j i e t s :
  count_links j (insert_link i e t s) = (count_links j s + if decide (i = j) then 1 else 0)%nat.
Proof.
  unfold count_links, insert_link. simpl. rewrite filter_app, length_app, filter_cons. simpl. by case_decide.
Qed.

Lemma accounted_seed_link i e t s m :
  accounted s ({[+ Seed i +]} ⊎ m) → accounted (insert_link i e t s) m.
Proof.
  intros [Hids Hn Hcnt Hseed Hdom Hl Hix Hst].
  assert (∀ j, multiplicity (Seed j) ({[+ Seed i +]} ⊎ m) = ((if decide (i = j) then 1 else 0) + multiplicity (Seed j) m)%nat) as Hmu.
  { intros j. rewrite multiplicity_disj_union. f_equal. case_decide as Hd; [subst; apply multiplicity_singleton_eq|].
    apply multiplicity_singleton_ne. congruence. }
  split; try done.
  - intros j inc Hj. rewrite count_links_insert. specialize (Hcnt j inc Hj). rewrite Hmu in Hcnt. lia.
  - intros j. specialize (Hseed j). rewrite Hmu in Hseed. lia.
  - intros tk Ht. assert (tk ∈ {[+ Seed i +]} ⊎ m) as Ht' by multiset_solver. specialize (Hdom tk Ht').
    destruct tk; try done. destruct Hdom as (l & Hin & ? & ?). exists l. split; [|done]. simpl. set_solver.
  - intros l. simpl. intros [Hin|Hin]%elem_of_app; [by apply Hl|].
    apply list_elem_of_singleton in Hin as ->. apply (Hdom (Seed i)). multiset_solver.
  - intros j inc Hj. specialize (Hst j inc Hj). rewrite multiplicity_disj_union in Hst. lia.
Qed.

Lemma accounted_append i e up t s m :
  Known i ∈ m → accounted s m →
  accounted (insert_link i e t (s <| dn_incidents := alter (bump_incident e up t) i (dn_incidents s) |>)) ({[+ Linked i (Event.Hash e) +]} ⊎ m).
Proof.
  intros Hk [Hids Hn Hcnt Hseed Hdom Hl Hix Hst]. set (s' := insert_link _ _ _ _).
  assert (∀ j, is_Some (dn_incidents s !! j) → is_Some (dn_incidents s' !! j)) as Hsome.
  { intros j [inc Hj]. simpl. rewrite lookup_alter. case_decide; subst; rewrite Hj; by eexists. }
  assert (∀ j inc', dn_incidents s' !! j = Some inc' → ∃ inc, dn_incidents s !! j = Some inc ∧ ci_Id inc' = ci_Id inc ∧
    ci_StormFired inc' = ci_StormFired inc ∧ ci_EventCount inc' = ci_EventCount inc + if decide (i = j) then 1 else 0) as Hrow.
  { intros j inc'. simpl. rewrite lookup_alter. case_decide as Hd; [subst j|].
    - intros (inc & Hj & ->)%fmap_Some. exists inc. split; [done|]. unfold bump_incident. by destruct up.
    - intros Hj. exists inc'. repeat split; try done. lia. }
  assert (∀ x, match x with Linked _ _ => False | _ => True end →
    multiplicity x ({[+ Linked i (Event.Hash e) +]} ⊎ m) = multiplicity x m) as Hmu.
  { intros x Hx. rewrite multiplicity_disj_union, multiplicity_singleton_ne; [done|]. by intros ->. }
  split; try done.
  - intros j inc' Hj. destruct (Hrow _ _ Hj) as (inc & Hj' & -> & _). by apply Hids.
  - intros j inc' Hj. destruct (Hrow _ _ Hj) as (inc & Hj' & _ & _ & ->). rewrite Hmu, (Hcnt _ _ Hj') by done.
    unfold s'. rewrite count_links_insert. unfold count_links. simpl. case_decide; lia.
  - intros j. rewrite Hmu by done. apply Hseed.
  - intros x [Hx|Hx]%gmultiset_elem_of_disj_union.
    + apply gmultiset_elem_of_singleton in Hx as ->. eexists. split; [apply elem_of_app; right; apply list_elem_of_singleton; reflexivity|done].
    + specialize (Hdom x Hx). destruct x; auto. destruct Hdom as (l & Hin & ? & ?). exists l. simpl. set_solver.
  - intros l. intros [Hin|Hin]%elem_of_app; [auto|]. apply list_elem_of_singleton in Hin as ->. apply Hsome, (Hdom _ Hk).
  - intros k en Hk'. eauto.
  - intros j inc' Hj. destruct (Hrow _ _ Hj) as (inc & Hj' & _ & -> & _). rewrite Hmu by done. by apply Hst.
Qed.

Lemma accounted_mark_storm i s m :
  accounted s m →
  if (mark_storm i s).2 then accounted (mark_storm i s).1 ({[+ Storm i +]} ⊎ m) else accounted (mark_storm i s).1 m.
Proof.
  intros Hacc. unfold mark_storm. destruct (dn_incidents s !! i) as [inc0|] eqn:E0; [|done].
  destruct (_ =? 0) eqn:Ez; [|done]. simpl. destruct Hacc as [Hids Hn Hcnt Hseed Hdom Hl Hix Hst].
  set (t' := <[i := _]> (dn_incidents s)).
  assert (∀ j, is_Some (dn_incidents s !! j) → is_Some (t' !! j)) as Hsome.
  { intros j. unfold t'. rewrite lookup_insert_is_Some'. auto. }
  assert (∀ j inc', t' !! j = Some inc' → ∃ inc, dn_incidents s !! j = Some inc ∧ ci_Id inc' = ci_Id inc ∧
    ci_EventCount inc' = ci_EventCount inc ∧ if decide (j = i) then ci_StormFired inc = 0 ∧ ci_StormFired inc' = 1 else inc' = inc) as Hrow.
  { intros j inc'. unfold t'. intros [[<- <-]|[Hne Hj]]%lookup_insert_Some.
    - exists inc0. rewrite decide_True by done. split; [done|]. split; [done|]. split; [done|]. split; [lia|done].
    - exists inc'. by rewrite decide_False by congruence. }
  split; try done.
  - intros j inc' Hj. destruct (Hrow _ _ Hj) as (inc & Hj' & -> & _). by apply Hids.
  - intros j inc' Hj. destruct (Hrow _ _ Hj) as (inc & Hj' & _ & -> & _).
    rewrite multiplicity_disj_union, multiplicity_singleton_ne by done. by apply Hcnt.
  - intros j. rewrite multiplicity_disj_union, multiplicity_singleton_ne by done. apply Hseed.
  - intros x [Hx|Hx]%gmultiset_elem_of_disj_union.
    + apply gmultiset_elem_of_singleton in Hx as ->. apply Hsome. by eexists.
    + specialize (Hdom x Hx). destruct x; auto.
  - intros l Hin. by apply Hsome, Hl.
  - intros k en Hk. by eapply Hsome, Hix.
  - intros j inc' Hj. destruct (Hrow _ _ Hj) as (inc & Hj' & _ & _ & Hcase). specialize (Hst _ _ Hj').
    rewrite multiplicity_disj_union. destruct (decide (j = i)) as [->|Hne].
    + destruct Hcase as [Hz Ho]. rewrite Hz in Hst. rewrite Ho, multiplicity_singleton_eq. simpl in *. lia.
    + subst inc'. rewrite multiplicity_singleton_ne by congruence. lia.
Qed.

Lemma accounted_known i s m : is_Some (dn_incidents s !! i) → accounted s m → accounted s ({[+ Known i +]} ⊎ m).
Proof.
  intros Hi [Hids Hn Hcnt Hseed Hdom Hl Hix Hst].
  assert (∀ x, x ≠ Known i → multiplicity x ({[+ Known i +]} ⊎ m) = multiplicity x m) as Hmu.
  { intros x Hx. by rewrite multiplicity_disj_union, multiplicity_singleton_ne by done. }
  split; try done.
  - intros j inc Hj. rewrite Hmu by done. by apply Hcnt.
  - intros j. rewrite Hmu by done. apply Hseed.
  - intros x [Hx|Hx]%gmultiset_elem_of_disj_union; [|by apply Hdom]. by apply gmultiset_elem_of_singleton in Hx as ->.
  - intros j inc Hj. rewrite Hmu by done. by apply Hst.
Qed.

Section pool.
Context `{Regexp, GoFmt, !Json (list TagFilter), !Json (list string), !Json (gmap string string)}.

Lemma wp_bind {A B} m (p : step A) (k : A → step B) Q :
  wp accounted m p (λ a m', wp accounted m' (k a) Q) → wp accounted m (p ≫= k) Q.
Proof. apply wp_then. Qed.

Lemma wp_read {A} m (g : denoise → A) Q :
  (∀ s fr, accounted s (m ⊎ fr) → Q (g s) m) → wp accounted m (atomically (λ s, (s, g s))) Q.
Proof. intros Hg. apply wp_atomically. intros s fr Hs. exists m. split; [done|]. by eapply Hg. Qed.

Lemma wp_db {A} m (f : denoise → denoise * A) Q :
  (∀ s fr, accounted s (m ⊎ fr) → ∃ m', accounted (f s).1 (m' ⊎ fr) ∧ Q (Ok (f s).2) m') →
  (∀ err, Q (Err err) m) → wp accounted m (db f) Q.
Proof.
  intros Hok Herr. apply wp_atomically. intros s fr Hs. unfold db_apply.
  assert (accounted (s <| dn_faults := tail (dn_faults s) |>) (m ⊎ fr)) as Hs' by (by eapply accounted_same; [| |exact Hs]).
  destruct (head _) as [[err|]|]; [by eauto|..]; destruct (Hok _ _ Hs') as (m' & ? & ?); exists m'; by destruct (f _).
Qed.

Lemma wp_put m ruleId key i Q : Known i ∈ m → Q tt m → wp accounted m (Index_Put ruleId key i) Q.
Proof.
  intros Hk HQ. apply wp_atomically. intros s fr Hs. exists m. split; [|done]. eapply accounted_tables; [| |exact Hs]; [done|].
  intros k e. simpl. intros [[_ <-]|[_ He]]%lookup_insert_Some; [|by eapply acc_index].
  apply (acc_dom _ _ Hs (Known i)). multiset_solver.
Qed.

(** What a handler owns when it ends. *)
Definition handled (e : AlertCurEvent) (r : result Result) (m : gmultiset token) : Prop :=
  match r with
  | Ok res => (is_drop (r_Decision res) = true → Linked (r_IncidentId res) (Event.Hash e) ∈ m) ∧
      (r_Decision res = DecisionStorm → Storm (r_IncidentId res) ∈ m)
  | Err _ => True
  end.

Lemma wp_merge m a e rule i : Known i ∈ m → wp accounted m (merge a e rule i) (handled e).
Proof.
  intros Hk. unfold merge, AppendEvent. apply wp_bind, wp_bind, wp_read. intros s0 fr0 _.
  apply wp_db; [|done]. intros s fr Hs. exists ({[+ Linked i (Event.Hash e) +]} ⊎ m). split.
  { rewrite <- (assoc_L _). apply accounted_append; [multiset_solver|done]. }
  cbv beta iota. apply wp_bind, wp_put; [multiset_solver|]. apply wp_bind, wp_atomically. intros s1 fr1 Hs1.
  exists ({[+ Linked i (Event.Hash e) +]} ⊎ m).
  destruct (observe_frame i (ar_StormThreshold rule) (ar_StormWindowSec rule) s1) as (st & Hst). rewrite Hst.
  split; [by eapply accounted_same; [| |exact Hs1]|]. destruct (observe _ _ _ s1).2.
  - apply wp_bind, wp_db; [|split; [set_solver|done]]. intros s2 fr2 Hs2.
    pose proof (accounted_mark_storm i s2 _ Hs2) as Hm. destruct (mark_storm i s2).2.
    + eexists. split; [rewrite (assoc_L _) in Hm; exact Hm|]. split; simpl; intros; multiset_solver.
    + eexists. split; [exact Hm|]. split; [|done]. simpl. intros. multiset_solver.
  - split; [|done]. simpl. intros. multiset_solver.
Qed.

Lemma wp_CreateIncident m inc :
  ci_EventCount inc = 1 → ci_StormFired inc = 0 →
  wp accounted m (CreateIncident inc) (λ created m', match created with
    | Ok inc => m' = {[+ Seed (ci_Id inc); Known (ci_Id inc) +]} ⊎ m | Err _ => True end).
Proof.
  intros Hc Hz.
  assert (∀ inc, ci_EventCount inc = 1 → ci_StormFired inc = 0 →
    wp accounted m (db (insert_incident inc)) (λ created m', match created with
      | Ok inc => m' = {[+ Seed (ci_Id inc); Known (ci_Id inc) +]} ⊎ m | Err _ => True end)) as Hins.
  { clear. intros inc Hc Hz. apply wp_db; [|done]. intros s fr Hs.
    destruct (accounted_insert_incident s inc _ Hc Hz Hs) as [Hacc Hid].
    eexists. split; [|by rewrite Hid]. by rewrite <- (assoc_L _). }
  unfold CreateIncident. apply wp_bind. destruct (ci_FirstEventAt inc =? 0).
  - apply wp_bind, wp_read. intros s _ _. apply Hins; by case_branches.
  - apply Hins; by case_branches.
Qed.

Lemma wp_createNew m e rule dims key : wp accounted m (createNew e rule dims key) (handled e).
Proof.
  unfold createNew. destruct (EncodeDimensionValues _) as [dimJSON|]; [|done].
  apply wp_bind, wp_read. intros s0 _ _. apply wp_bind. eapply wp_mono; [by apply wp_CreateIncident|].
  intros [inc|err] m' Hm'; [|done]. apply wp_bind, wp_db; [|done].
  intros s fr Hs. subst m'. exists ({[+ Known (ci_Id inc) +]} ⊎ m). split.
  - apply accounted_seed_link. by rewrite !(assoc_L _).
  - apply wp_bind, wp_put; [multiset_solver|done].
Qed.

Lemma wp_Handle a e : wp accounted ∅ (Handle a (Some e)) (handled e).
Proof.
  unfold Handle. apply wp_bind, wp_read. intros s0 _ _. destruct (SelectBestRule _ _) as [rule|]; [|done].
  destruct (decodeStringSlice _) as [[|d ds]|]; [done| |done]. set (key := BuildIncidentKey _ _).
  destruct (String.eqb key ""); [done|]. unfold place. apply wp_bind, wp_atomically. intros s fr Hs.
  destruct (index_get (ar_Id rule) key (ar_WindowSec rule) s) as [i|] eqn:Eg; cbn [fst snd].
  - exists {[+ Known i +]}. split; [|apply wp_merge; multiset_solver].
    unfold index_get in Eg. destruct (dn_index s !! _) as [en|] eqn:Ee; [|done]. case_match; simplify_eq.
    apply accounted_known; [|by rewrite (left_id_L ∅ _) in Hs]. by eapply acc_index.
  - exists ∅. split; [done|]. apply wp_bind, wp_read. intros s1 _ _. apply wp_bind, wp_db; [|done].
    intros s2 fr2 Hs2. cbn [fst snd]. destruct (dn_incidents s2 !! _) as [inc|] eqn:Ei.
    + exists {[+ Known (ci_Id inc) +]}. split.
      * apply accounted_known; [|by rewrite (left_id_L ∅ _) in Hs2]. apply (acc_ids _ _ Hs2) in Ei as Hid.
        destruct Hid as [_ ->]. by eexists.
      * apply wp_bind, wp_put; [multiset_solver|]. apply wp_merge. multiset_solver.
    + exists ∅. split; [done|]. apply wp_createNew.
Qed.

(** The row of an incident that an operator closes. *)
Definition closed_row (t : Z) (inc : CustomIncident) : CustomIncident :=
  inc <| ci_Status := IncidentStatusClosed |> <| ci_ClosedAt := t |>.

(** Everything else that happens: time passes, statements come to fail or not, rules are
    reloaded, operators close incidents, the process restarts with empty caches, and the
    operations that no code calls yet. *)
Inductive meanwhile : denoise → denoise → Prop :=
| m_clock t s : meanwhile s (at_time t s)
| m_faults fs s : meanwhile s (s <| dn_faults := fs |>)
| m_rules rs s : meanwhile s (s <| dn_rules := rs |>)
| m_close i t s : meanwhile s (s <| dn_incidents := alter (closed_row t) i (dn_incidents s) |>)
| m_restart s : meanwhile s (s <| dn_index := ∅ |> <| dn_storm := ∅ |>)
| m_forget ruleId key s : meanwhile s (run (Index_Forget ruleId key) s).1
| m_sweep age s : meanwhile s (run (Index_Sweep age) s).1
| m_storm_forget i s : meanwhile s (run (Storm_Forget i) s).1
| m_recovered i h s : meanwhile s (run (MarkEventRecovered i h) s).1.

Lemma alter_id_map (t : gmap Z CustomIncident) i : alter id i t = t.
Proof. apply map_eq. intros j. rewrite lookup_alter. case_decide; subst; [|done]. by destruct (t !! j). Qed.

Lemma accounted_recover i h t s m : accounted s m → accounted (recover_event i h t s) m.
Proof.
  intros Hs. unfold recover_event, recover_links.
  set (g := λ l, if (ie_IncidentId l =? i) && String.eqb (ie_EventHash l) h then l <| ie_IsRecovered := 1 |> else l).
  assert (∀ l, ie_IncidentId (g l) = ie_IncidentId l ∧ ie_EventHash (g l) = ie_EventHash l) as Hg by (intros l; unfold g; by case_match).
  case_match.
  - eapply (accounted_weaken id g s); [done|done| |done..]. instantiate (1 := 0). by rewrite alter_id_map.
  - eapply (accounted_weaken (resolve t) g s); [|done..]. intros inc. unfold resolve. by case_match.
Qed.

Lemma accounted_meanwhile s s' m : accounted s m → meanwhile s s' → accounted s' m.
Proof.
  intros Hs Hm.
  assert (∀ s', same_tables s s' → dn_index s' ⊆ dn_index s → accounted s' m) as Hshrink.
  { intros s1 Ht Hix. eapply accounted_tables; [done| |done]. intros k e Hk. eapply acc_index; [done|]. by eapply lookup_weaken. }
  destruct Hm as [| | |i t s| | | | |i h s].
  1-3, 5: by apply Hshrink; [|first [done|apply map_empty_subseteq]].
  - eapply (accounted_weaken (closed_row t) id _ _ _) with (i := i); [done..|by rewrite map_id|done|done|done].
  - apply Hshrink; [done|]. apply delete_subseteq.
  - apply Hshrink; [done|]. apply map_filter_subseteq.
  - by apply Hshrink.
  - unfold MarkEventRecovered, now, db. rewrite run_bind, !run_atomically.
    unfold db_apply. destruct (head _) as [[err|]|]; [by apply Hshrink|..]; simpl;
      by apply accounted_recover; apply Hshrink.
Qed.

(** A handler of an event, which keeps the event beside its result. *)
Definition handler (p : step (AlertCurEvent * result Result)) : Prop :=
  ∃ a e, p = (r ← Handle a (Some e); mret (e, r)).

(** Nothing yet: no rows, nothing cached. *)
Definition no_incidents (s : denoise) : Prop :=
  dn_incidents s = ∅ ∧ dn_links s = [] ∧ dn_index s = ∅ ∧ 0 < dn_nextid s.

Lemma accounted_initial s : no_incidents s → accounted s ∅.
Proof.
  intros (Hi & Hl & Hix & Hn). split; try done; unfold ids_ok; rewrite ?Hi, ?Hl, ?Hix; intros; try done.
  all: rewrite ?multiplicity_empty in *; try lia; multiset_solver.
Qed.

(** C19. In every interleaving of any number of handlers with each other and with everything
    else, failures included: an incident counts the events linked to it, or one more
    while (or because) its first event is not linked; every link has its incident; an
    event that a handler dropped is linked to the incident it was dropped for; and no
    two handlers report a storm of the same incident. *)
Theorem incidents_accounted s0 s ps :
  no_incidents s0 → steps meanwhile handler (s0, []) (s, ps) →
  (∀ i inc, dn_incidents s !! i = Some inc →
     Z.of_nat (count_links i s) <= ci_EventCount inc <= Z.of_nat (count_links i s) + 1) ∧
  (∀ l, l ∈ dn_links s → is_Some (dn_incidents s !! ie_IncidentId l)) ∧
  (∀ e res, Done (e, Ok res) ∈ ps → is_drop (r_Decision res) = true →
     ∃ l, l ∈ dn_links s ∧ ie_IncidentId l = r_IncidentId res ∧ ie_EventHash l = Event.Hash e) ∧
  (∀ k k' e e' res res', ps !! k = Some (Done (e, Ok res)) → ps !! k' = Some (Done (e', Ok res')) →
     r_Decision res = DecisionStorm → r_Decision res' = DecisionStorm → r_IncidentId res = r_IncidentId res' → k = k').
Proof.
  intros Hinit Hsteps.
  destruct (wp_sound accounted (λ er, handled er.1 er.2) meanwhile handler (s0, []) (s, ps)) as (ms & Hall & Hacc); simpl in *.
  - intros. by eapply accounted_meanwhile.
  - intros p (a & e & ->). apply wp_bind. eapply wp_mono; [apply wp_Handle|]. done.
  - done.
  - exists []. split; [constructor|]. by apply accounted_initial.
  - apply Forall2_flip in Hall. split; [|split; [|split]].
    + intros i inc Hi. rewrite (acc_count _ _ Hacc i inc Hi). pose proof (acc_seed _ _ Hacc i). lia.
    + apply Hacc.
    + intros e res (k & Hk)%list_elem_of_lookup Hd. destruct (Forall2_lookup_l _ _ _ _ _ Hall Hk) as (m & Hm & Hwp).
      destruct (all_tokens_insert ms k m ∅ Hm) as (fr & Hfr & _). apply Hwp in Hd.
      apply (acc_dom _ _ Hacc (Linked (r_IncidentId res) (Event.Hash e))). rewrite Hfr. multiset_solver.
    + intros k k' e e' res res' Hk Hk' Hd Hd' Heq. destruct (decide (k = k')) as [|Hne]; [done|exfalso].
      destruct (Forall2_lookup_l _ _ _ _ _ Hall Hk) as (m & Hm & Hwp), (Forall2_lookup_l _ _ _ _ _ Hall Hk') as (m' & Hm' & Hwp').
      destruct (all_tokens_two ms k k' m m' Hne Hm Hm') as (fr & Hfr). apply Hwp in Hd. apply Hwp' in Hd'. rewrite <- Heq in Hd'.
      assert (Storm (r_IncidentId res) ∈ all_tokens ms) as [inc Hi]%(acc_dom _ _ Hacc) by (rewrite Hfr; multiset_solver).
      pose proof (acc_storm _ _ Hacc _ _ Hi) as Hst. rewrite Hfr, !multiplicity_disj_union in Hst.
      rewrite elem_of_multiplicity in Hd, Hd'. destruct (ci_StormFired inc =? 0); lia.
Qed.

(** ** What the processor does with an event *)

(** A statement that fails at once. *)
Definition fails_next (s : denoise) : Prop := ∃ err, head (dn_faults s) = Some (Some err).

#[local] Instance fails_next_dec s : base.Decision (fails_next s).
Proof. unfold fails_next. destruct (head (dn_faults s)) as [[err|]|]; [left; eauto|right; naive_solver..]. Defined.

(** A merge that succeeds has linked the event, with its first statement; otherwise it
    gives an error. *)
Lemma merge_links a e rule i s :
  let '(s', r) := run (merge a e rule i) s in
  match r with
  | Ok res => is_drop (r_Decision res) = true ∧ r_IncidentId res = i ∧ dn_links s' = dn_links s ++ [link_of s i e] ∧ ¬ fails_next s
  | Err _ => True
  end.
Proof.
  unfold merge, AppendEvent, Index_Put, Storm_Observe, MarkStormFired, now, db.
  rewrite !run_bind, run_atomically. cbn -[db_apply]. unfold db_apply at 1.
  assert (∀ s1 : denoise, let '(s2, _) := observe i (ar_StormThreshold rule) (ar_StormWindowSec rule) s1 in dn_links s2 = dn_links s1) as Hob.
  { intros s1. destruct (observe_frame i (ar_StormThreshold rule) (ar_StormWindowSec rule) s1) as (st & Hst).
    destruct (observe _ _ _ s1) as [s2 b]. simpl in Hst. by subst s2. }
  assert (∀ s1 : denoise, let '(s2, _) := db_apply (mark_storm i) s1 in dn_links s2 = dn_links s1) as Hmk.
  { intros s1. unfold db_apply, mark_storm. by destruct (head _) as [[]|]; simpl; repeat case_match; simplify_eq. }
  destruct (head (dn_faults s)) as [[err|]|] eqn:Eh; [done|..]; cbn -[observe db_apply];
    (assert (¬ fails_next s) as Hnf by (intros [err' Herr]; congruence));
    match goal with |- context [observe _ _ _ ?x] => specialize (Hob x); destruct (observe _ _ _ x) as [s2 []] end; cbn -[db_apply];
    try (split; [done|split; [done|split; [exact Hob|done]]]);
    specialize (Hmk s2); destruct (db_apply (mark_storm i) s2) as [s3 [[]|]]; cbn;
    (split; [done|split; [done|split; [rewrite Hmk; exact Hob|done]]]).
Qed.

Lemma createNew_passes e rule dims key s :
  let '(_, r) := run (createNew e rule dims key) s in
  match r with Ok res => is_drop (r_Decision res) = false | Err _ => True end.
Proof.
  unfold createNew. destruct (EncodeDimensionValues _) as [dimJSON|]; [|done].
  rewrite run_bind. destruct (run now s) as [s1 t]. rewrite run_bind.
  destruct (run (CreateIncident _) s1) as [s2 [inc|]]; [|done]. rewrite run_bind.
  destruct (run (db _) s2) as [s3 [[]|]]; [|done]. rewrite run_bind. by destruct (run (Index_Put _ _ _) s3).
Qed.

Lemma place_links a e rule dims key s :
  let '(s', r) := run (place a e rule dims key) s in
  match r with
  | Ok res => is_drop (r_Decision res) = true →
      dn_links s' = dn_links s ++ [link_of s (r_IncidentId res) e] ∧ ¬ fails_next s
  | Err _ => True
  end.
Proof.
  unfold place, Index_Get, FindActiveIncident, now, db. rewrite run_bind, run_atomically. cbv beta iota.
  destruct (index_get _ key _ s) as [i|].
  - pose proof (merge_links a e rule i s) as Hm. destruct (run (merge a e rule i) s) as [s' [res|]]; [|done].
    destruct Hm as (_ & <- & ? & ?). done.
  - rewrite run_bind, run_atomically. cbv beta iota. rewrite run_bind, run_atomically.
    destruct (decide (fails_next s)) as [[err Herr]|Hnf].
    { unfold db_apply. by rewrite Herr. }
    assert (∀ f : denoise → denoise * option CustomIncident, (∀ x, (f x).1 = x) → ∃ o, db_apply f s = (s <| dn_faults := tail (dn_faults s) |>, Ok o)) as Hdb.
    { intros f Hf. unfold db_apply. pose proof (Hf (s <| dn_faults := tail (dn_faults s) |>)) as Hx.
      destruct (f _) as [s1 o]. simpl in Hx. subst s1.
      destruct (head (dn_faults s)) as [[err|]|] eqn:Eh; [by destruct Hnf; exists err|by exists o..]. }
    match goal with |- context [db_apply ?f s] => destruct (Hdb f (λ _, eq_refl)) as (o & ->) end.
    destruct o as [inc|].
    + unfold Index_Put. rewrite run_bind, run_atomically. cbv beta iota.
      match goal with |- context [run (merge a e rule _) ?x] => pose proof (merge_links a e rule (ci_Id inc) x) as Hm;
        destruct (run (merge a e rule (ci_Id inc)) x) as [s' [res|]] end; [|done].
      destruct Hm as (_ & <- & Hl & _). done.
    + match goal with |- context [run (createNew _ _ _ _) ?x] => pose proof (createNew_passes e rule dims key x) as Hc;
        destruct (run (createNew e rule dims key) x) as [s' [res|]] end; [|done]. congruence.
Qed.

(** An event that a rule can take. *)
Definition takes (e : AlertCurEvent) (s : denoise) : Prop :=
  ∃ rule dims, SelectBestRule (Some e) (dn_rules s) = Some rule ∧ decodeStringSlice (ar_Dimensions rule) = Ok dims ∧ dims ≠ [].

Lemma Handle_links a e s :
  let '(s', r) := run (Handle a (Some e)) s in
  match r with
  | Ok res => is_drop (r_Decision res) = true →
      dn_links s' = dn_links s ++ [link_of s (r_IncidentId res) e] ∧ ¬ fails_next s ∧ takes e s
  | Err _ => True
  end.
Proof.
  unfold Handle, GetActiveRules. rewrite run_bind, run_atomically. cbv beta iota.
  destruct (SelectBestRule _ _) as [rule|] eqn:Er; [|done]. destruct (decodeStringSlice _) as [[|d dims]|] eqn:Ed; [done| |done].
  destruct (String.eqb _ ""); [done|].
  pose proof (place_links a e rule (d :: dims) (BuildIncidentKey (Some e) (d :: dims)) s) as Hp.
  destruct (run (place _ _ _ _ _) s) as [s' [res|]]; [|done]. intros [? ?]%Hp. split; [done|]. split; [done|].
  exists rule, (d :: dims). done.
Qed.

(** C28. The node of a pipeline either passes the context on as it is, without an error, or it has
    linked the event to an incident, with a new row.  Only then is the event dropped, or given
    the id of the incident in the mode that annotates, or, when the node has no configuration,
    does the node panic.  So it passes unchanged whatever fails before the event is linked:
    there is no aggregator, no rule takes the event, the dimensions of the rule cannot be
    read, or the first statement fails. *)
Theorem aggregate_fails_open c ctx s :
  let '(s', r) := run (AggregateConfig_Process c ctx) s in
  ((∃ msg, r = Ret (ctx, Ok (SameCtx, msg))) ∨
   ∃ e i, WfCtx.Event ctx = Some e ∧ dn_links s' = dn_links s ++ [link_of s i e] ∧
     match c with
     | Some c => ∃ msg, r = Ret (ctx <| WfCtx.Event := if String.eqb (ac_Mode c) "annotate"
                                   then Some (e <| Event.TagsMap := <["incident_id" := itoa i]> (Event.TagsMap e) |>) else None |>,
                                 Ok (SameCtx, msg))
     | None => r = Panic
     end) ∧
  (dn_agg s = None ∨ fails_next s ∨ (∀ e, WfCtx.Event ctx = Some e → ¬ takes e s) → ∃ msg, r = Ret (ctx, Ok (SameCtx, msg))).
Proof.
  unfold AggregateConfig_Process, getAggregator. rewrite run_bind, run_atomically. cbv beta iota.
  destruct (dn_agg s) as [agg|]; [|split; [left|]; by eexists].
  destruct (WfCtx.Event ctx) as [e|] eqn:Ee; [|split; [left|]; by eexists].
  rewrite run_bind. pose proof (Handle_links agg e s) as Hl.
  destruct (run (Handle agg (Some e)) s) as [s1 [res|err]]; [|split; [left|]; by eexists]. cbn [run].
  destruct (is_drop (r_Decision res)) eqn:Ed; [|split; [left|]; by eexists].
  destruct (Hl eq_refl) as (Hlink & Hnf & Htake). split.
  - right. exists e, (r_IncidentId res). split; [done|].
    destruct c as [c|]; [|done]. destruct (String.eqb (ac_Mode c) "annotate"); (split; [done|]); by eexists.
  - intros [?|[?|Hno]]; [done|done|]. by destruct (Hno e eq_refl).
Qed.
End pool.
