(* ===== verification/Suppress.v ===== *)
(** * Suppression of alerts by their root cause: [internal/custom/suppress], [suppressrec]

    An inhibit rule says which alerts are causes and which are their consequences.  For
    every event the inhibitor registers it as a cause under the rules whose source
    filters match, and suppresses it if another cause is registered under a rule whose
    target filters match, with the same values of the equal labels.  Suppressed events
    are recorded through a channel, a buffer and a batch insertion in a goroutine. *)

From S2P Require Import Prelude GoStrings Json Models RuleModels Filter Denoise.
Open Scope string_scope.
Open Scope Z_scope.
Open Scope list_scope.

(** ** Data *)

Record CustomInhibitRule := mkInhibitRule {
  ir_Id : Z; ir_GroupId : Z; ir_Name : string; ir_Note : string;
  ir_SourceMatch : string; ir_TargetMatch : string;
  ir_EqualLabels : string; ir_EqualLabelsJson : list string;
  ir_DatasourceIds : string; ir_DatasourceIdsJson : list Z;
  ir_Disabled : Z; ir_CreateBy : string; ir_UpdateBy : string; ir_CreateAt : Z; ir_UpdateAt : Z
}.
#[global] Instance CustomInhibitRule_eta : Settable CustomInhibitRule := λ r,
  mkInhibitRule (ir_Id r) (ir_GroupId r) (ir_Name r) (ir_Note r) (ir_SourceMatch r) (ir_TargetMatch r) (ir_EqualLabels r)
    (ir_EqualLabelsJson r) (ir_DatasourceIds r) (ir_DatasourceIdsJson r) (ir_Disabled r) (ir_CreateBy r) (ir_UpdateBy r)
    (ir_CreateAt r) (ir_UpdateAt r).

Record CompiledRule := mkCompiledRule {
  cr_Rule : CustomInhibitRule;
  cr_SourceMatch : list TagFilter;
  cr_TargetMatch : list TagFilter;
  cr_EqualLabels : list string
}.

Record rootCauseEntry := mkRootCause {
  rc_equalLabelValues : gmap string string; rc_expireAt : Z;
  rc_ruleName : string; rc_tagsCSV : string; rc_severity : Z; rc_groupId : Z; rc_datasourceId : Z
}.

Record SourceSnapshot := mkSnapshot {
  ss_EventHash : string; ss_RuleName : string; ss_TagsCSV : string; ss_Severity : Z; ss_GroupId : Z; ss_DatasourceId : Z
}.

Record Registration := mkRegistration { rg_RuleId : Z; rg_EventHash : string }.

Record Verdict := mkVerdict {
  v_Suppressed : bool; v_BySourceHash : string; v_ByRuleId : Z; v_ByRuleName : string;
  v_BySource : SourceSnapshot; v_NewRegistrations : list Registration
}.
#[global] Instance Verdict_eta : Settable Verdict := λ r,
  mkVerdict (v_Suppressed r) (v_BySourceHash r) (v_ByRuleId r) (v_ByRuleName r) (v_BySource r) (v_NewRegistrations r).
Definition no_source : SourceSnapshot := mkSnapshot "" "" "" 0 0 0.
Definition no_verdict : Verdict := mkVerdict false "" 0 "" no_source [].

(** ** Compiled rules: rule.go *)

Section compile.
Context `{Regexp, GoFmt, !Json (list TagFilter), !Json (list string)}.

Definition decodeTagFilters (raw : string) : result (list TagFilter) :=
  if (String.length raw =? 0)%nat then Ok []
  else match json_unmarshal raw ([] : list TagFilter) with
       | (_, Some err) => Err err
       | (filters, None) => ParseTagFilter filters
       end.

Definition CompileRule (raw : option CustomInhibitRule) : result CompiledRule :=
  match raw with
  | None => Err "nil rule"
  | Some raw =>
      match decodeTagFilters (ir_SourceMatch raw) with
      | Err err => Err ("source_match: " +:+ err)
      | Ok [] => Err "source_match must contain at least one filter"
      | Ok src =>
          match decodeTagFilters (ir_TargetMatch raw) with
          | Err err => Err ("target_match: " +:+ err)
          | Ok [] => Err "target_match must contain at least one filter"
          | Ok tgt =>
              if (0 <? String.length (ir_EqualLabels raw))%nat then
                match json_unmarshal (ir_EqualLabels raw) ([] : list string) with
                | (_, Some err) => Err ("equal_labels: " +:+ err)
                | (equalLabels, None) => Ok (mkCompiledRule raw src tgt equalLabels)
                end
              else Ok (mkCompiledRule raw src tgt [])
          end
      end
  end.
End compile.

(** ** The index of root causes: index.go *)

(** [rx_now] is the clock of the index, in seconds. *)
Record RootCauseIndex := mkRootCauseIndex {
  rx_entries : gmap (Z * string) rootCauseEntry; rx_defaultTTL : Z; rx_now : Z
}.
#[global] Instance RootCauseIndex_eta : Settable RootCauseIndex := λ r,
  mkRootCauseIndex (rx_entries r) (rx_defaultTTL r) (rx_now r).

Definition NewRootCauseIndex (defaultTTLSec now : Z) : RootCauseIndex :=
  mkRootCauseIndex ∅ (if defaultTTLSec <=? 0 then 600 else defaultTTLSec) now.

Definition RegisterFull (ruleId : Z) (eventHash : string) (equalValues : gmap string string)
    (ruleName tagsCSV : string) (severity groupId datasourceId : Z) (idx : RootCauseIndex) : RootCauseIndex :=
  idx <| rx_entries := <[(ruleId, eventHash) :=
    mkRootCause equalValues (i64 (rx_now idx + rx_defaultTTL idx)) ruleName tagsCSV severity groupId datasourceId]> (rx_entries idx) |>.

Definition Register (ruleId : Z) (eventHash : string) (equalValues : gmap string string) (idx : RootCauseIndex) : RootCauseIndex :=
  RegisterFull ruleId eventHash equalValues "" "" 0 0 0 idx.

Definition RootCause_Forget (ruleId : Z) (eventHash : string) (idx : RootCauseIndex) : RootCauseIndex :=
  idx <| rx_entries := delete (ruleId, eventHash) (rx_entries idx) |>.

Definition ForgetEvent (eventHash : string) (idx : RootCauseIndex) : RootCauseIndex :=
  idx <| rx_entries := filter (λ ke, ke.1.2 ≠ eventHash) (rx_entries idx) |>.

Definition expired (now : Z) (e : rootCauseEntry) : bool := (0 <? rc_expireAt e) && (rc_expireAt e <? now).

Definition RootCause_Sweep (idx : RootCauseIndex) : RootCauseIndex * Z :=
  let kept := filter (λ ke, expired (rx_now idx) ke.2 = false) (rx_entries idx) in
  (idx <| rx_entries := kept |>, Z.of_nat (size (rx_entries idx) - size kept)).

Definition RootCause_Len (idx : RootCauseIndex) : Z := Z.of_nat (size (rx_entries idx)).

(** All labels of the source are in the target; a source without labels matches. *)
Definition equalValuesMatch (source target : gmap string string) : bool :=
  bool_decide (map_Forall (λ k sv, target !! k = Some sv) source).

Definition keysOf (m : gmap string string) : list string := sort_strings (map_to_list m).*1.

Definition snapshot_of (eventHash : string) (e : rootCauseEntry) : SourceSnapshot :=
  mkSnapshot eventHash (rc_ruleName e) (rc_tagsCSV e) (rc_severity e) (rc_groupId e) (rc_datasourceId e).

Section matching.
Context `{GoRange}.

(** The first hit in the order the map is iterated in. *)
Fixpoint match_any (ruleId : Z) (targetValues : gmap string string) (now : Z)
    (entries : list ((Z * string) * rootCauseEntry)) : option SourceSnapshot :=
  match entries with
  | [] => None
  | ((r, eventHash), e) :: entries =>
      if negb (r =? ruleId) then match_any ruleId targetValues now entries
      else if expired now e then match_any ruleId targetValues now entries
      else if equalValuesMatch (rc_equalLabelValues e) targetValues then Some (snapshot_of eventHash e)
      else match_any ruleId targetValues now entries
  end.

Definition MatchAnyFull (ruleId : Z) (targetValues : gmap string string) (idx : RootCauseIndex) : option SourceSnapshot :=
  match_any ruleId targetValues (rx_now idx) (go_range (rx_entries idx)).

Definition MatchAny (ruleId : Z) (targetValues : gmap string string) (idx : RootCauseIndex) : option string :=
  ss_EventHash <$> MatchAnyFull ruleId targetValues idx.

(** ** The inhibitor: inhibitor.go, tagfilter.go *)

(** The package has its own copy of the matcher of [denoise], the same line by line. *)
Definition Suppress_matchAllTagFilters `{Regexp} (tags : gmap string string) (filters : list TagFilter) : bool :=
  matchAllTagFilters tags filters.

Fixpoint contains (haystack : list Z) (needle : Z) : bool :=
  match haystack with [] => false | v :: haystack => if v =? needle then true else contains haystack needle end.

Definition extractEqualValues (tags : gmap string string) (keys : list string) : gmap string string :=
  foldl (λ out k, match tags !! k with Some v => <[k := v]> out | None => out end) ∅ keys.

(** The rule applies to the data source and the group of the event. *)
Definition rule_in_scope (r : CompiledRule) (event : AlertCurEvent) : bool :=
  negb (match ir_DatasourceIdsJson (cr_Rule r) with
        | [] => false
        | d :: _ => negb (d =? 0) && negb (Event.DatasourceId event =? 0) &&
                    negb (contains (ir_DatasourceIdsJson (cr_Rule r)) (Event.DatasourceId event))
        end) &&
  negb (negb (ir_GroupId (cr_Rule r) =? 0) && negb (ir_GroupId (cr_Rule r) =? Event.GroupId event)).

Section decide.
Context `{Regexp}.

Definition register_source (event : AlertCurEvent) (r : CompiledRule) (idx : RootCauseIndex) : RootCauseIndex :=
  RegisterFull (ir_Id (cr_Rule r)) (Event.Hash event) (extractEqualValues (Event.TagsMap event) (cr_EqualLabels r))
    (Event.RuleName event) (Event.Tags event) (Event.Severity event) (Event.GroupId event) (Event.DatasourceId event) idx.

(** One rule of the loop of [Decide]. *)
Definition decide_rule (event : AlertCurEvent) (r : CompiledRule) (idx : RootCauseIndex) (out : Verdict)
  : RootCauseIndex * Verdict :=
  if negb (rule_in_scope r event) then (idx, out)
  else
    let '(idx, out) :=
      if Suppress_matchAllTagFilters (Event.TagsMap event) (cr_SourceMatch r)
      then (register_source event r idx,
            out <| v_NewRegistrations := v_NewRegistrations out ++ [mkRegistration (ir_Id (cr_Rule r)) (Event.Hash event)] |>)
      else (idx, out) in
    if v_Suppressed out then (idx, out)
    else if negb (Suppress_matchAllTagFilters (Event.TagsMap event) (cr_TargetMatch r)) then (idx, out)
    else
      match MatchAnyFull (ir_Id (cr_Rule r)) (extractEqualValues (Event.TagsMap event) (cr_EqualLabels r)) idx with
      | None => (idx, out)
      | Some snap =>
          if String.eqb (ss_EventHash snap) (Event.Hash event) then (idx, out)
          else (idx, out <| v_Suppressed := true |> <| v_BySourceHash := ss_EventHash snap |>
                         <| v_ByRuleId := ir_Id (cr_Rule r) |> <| v_ByRuleName := ir_Name (cr_Rule r) |> <| v_BySource := snap |>)
      end.

Fixpoint decide_rules (event : AlertCurEvent) (rules : list CompiledRule) (idx : RootCauseIndex) (out : Verdict)
  : RootCauseIndex * Verdict :=
  match rules with
  | [] => (idx, out)
  | r :: rules => let '(idx, out) := decide_rule event r idx out in decide_rules event rules idx out
  end.

Definition Decide (event : option AlertCurEvent) (rules : list CompiledRule) (idx : RootCauseIndex) : RootCauseIndex * Verdict :=
  match event with
  | None => (idx, no_verdict)
  | Some event => decide_rules event rules idx no_verdict
  end.
End decide.
End matching.

(** ** The record of suppressed events: suppressrec/sink.go *)

Record SuppressionRecord := mkSuppressionRecord {
  sr_RuleId : Z; sr_RuleName : string; sr_SourceEventHash : string; sr_TargetEventHash : string;
  sr_SourceRuleName : string; sr_TargetRuleName : string; sr_SourceTags : string; sr_TargetTags : string;
  sr_SourceSeverity : Z; sr_TargetSeverity : Z; sr_GroupId : Z; sr_DatasourceId : Z; sr_SuppressedAt : Z
}.
Record CustomSuppressedEvent := mkSuppressedEvent {
  se_Id : Z; se_RuleId : Z; se_RuleName : string; se_SourceEventHash : string; se_TargetEventHash : string;
  se_SourceRuleName : string; se_TargetRuleName : string; se_SourceTags : string; se_TargetTags : string;
  se_SourceSeverity : Z; se_TargetSeverity : Z; se_GroupId : Z; se_DatasourceId : Z; se_SuppressedAt : Z
}.
#[global] Instance CustomSuppressedEvent_eta : Settable CustomSuppressedEvent := λ r,
  mkSuppressedEvent (se_Id r) (se_RuleId r) (se_RuleName r) (se_SourceEventHash r) (se_TargetEventHash r)
    (se_SourceRuleName r) (se_TargetRuleName r) (se_SourceTags r) (se_TargetTags r) (se_SourceSeverity r)
    (se_TargetSeverity r) (se_GroupId r) (se_DatasourceId r) (se_SuppressedAt r).

Definition toRow (rec : SuppressionRecord) : CustomSuppressedEvent :=
  mkSuppressedEvent 0 (sr_RuleId rec) (sr_RuleName rec) (sr_SourceEventHash rec) (sr_TargetEventHash rec)
    (sr_SourceRuleName rec) (sr_TargetRuleName rec) (sr_SourceTags rec) (sr_TargetTags rec) (sr_SourceSeverity rec)
    (sr_TargetSeverity rec) (sr_GroupId rec) (sr_DatasourceId rec) (sr_SuppressedAt rec).

(** The channel with its capacity, the buffer of the goroutine, the counters, and the
    batches the goroutine inserted or failed to insert, in order.  [sk_faults] has, for each
    insertion to come, the error it fails with, if it fails. *)
Record asyncSink := mkSink {
  sk_bufferSize : nat; sk_batchSize : nat; sk_flushPeriod : Z;
  sk_ch : list CustomSuppressedEvent; sk_buf : list CustomSuppressedEvent;
  sk_dropped : Z; sk_flushed : Z;
  sk_batches : list (list CustomSuppressedEvent * option error);
  sk_faults : list (option error)
}.
#[global] Instance asyncSink_eta : Settable asyncSink := λ r,
  mkSink (sk_bufferSize r) (sk_batchSize r) (sk_flushPeriod r) (sk_ch r) (sk_buf r) (sk_dropped r) (sk_flushed r)
    (sk_batches r) (sk_faults r).

Definition time_Second : Z := 1000000000.
Definition NewAsyncSink (bufferSize batchSize flushPeriod : Z) (faults : list (option error)) : asyncSink :=
  let bufferSize := if bufferSize <=? 0 then 4096 else bufferSize in
  let batchSize := if batchSize <=? 0 then 100 else batchSize in
  let flushPeriod := if flushPeriod <=? 0 then time_Second else flushPeriod in
  mkSink (Z.to_nat bufferSize) (Z.to_nat batchSize) flushPeriod [] [] 0 0 [] faults.

Definition offer (row : CustomSuppressedEvent) (s : asyncSink) : asyncSink :=
  if (length (sk_ch s) <? sk_bufferSize s)%nat then s <| sk_ch := sk_ch s ++ [row] |>
  else s <| sk_dropped := sk_dropped s + 1 |>.

Definition sink_row (now : Z) (rec : SuppressionRecord) : CustomSuppressedEvent :=
  let row := toRow rec in
  if se_SuppressedAt row =? 0 then row <| se_SuppressedAt := now |> else row.

Definition RecordSuppression (now : Z) (rec : option SuppressionRecord) (s : asyncSink) : asyncSink :=
  match rec with None => s | Some rec => offer (sink_row now rec) s end.

Definition insertBatch (batch : list CustomSuppressedEvent) (s : asyncSink) : asyncSink :=
  if (length batch =? 0)%nat then s
  else
    let err := default None (head (sk_faults s)) in
    let s := s <| sk_faults := tail (sk_faults s) |> <| sk_batches := sk_batches s ++ [(batch, err)] |> in
    match err with
    | Some _ => s
    | None => s <| sk_flushed := sk_flushed s + Z.of_nat (length batch) |>
    end.

Definition flush (s : asyncSink) : asyncSink :=
  if (length (sk_buf s) =? 0)%nat then s
  else insertBatch (sk_buf s) (s <| sk_buf := [] |>).

(** A record that came out of the channel. *)
Definition take_record (rec : CustomSuppressedEvent) (s : asyncSink) : asyncSink :=
  let s := s <| sk_buf := sk_buf s ++ [rec] |> in
  if (sk_batchSize s <=? length (sk_buf s))%nat then flush s else s.

(** The loop that empties the channel when the context is done. *)
Fixpoint drain (ch : list CustomSuppressedEvent) (s : asyncSink) : asyncSink :=
  match ch with
  | [] => s
  | rec :: ch => drain ch (take_record rec (s <| sk_ch := ch |>))
  end.

(** What happens to a sink: a record is offered, or one of the cases of the [select] of
    the goroutine is taken; a receive needs a record in the channel. *)
Inductive sink_event := Offer (row : CustomSuppressedEvent) | Receive | Tick | Cancelled.

Definition sink_step (ev : sink_event) (s : asyncSink) : asyncSink :=
  match ev with
  | Offer row => offer row s
  | Receive => match sk_ch s with [] => s | rec :: ch => take_record rec (s <| sk_ch := ch |>) end
  | Tick => flush s
  | Cancelled => flush (drain (sk_ch s) s)
  end.

Definition sink_run (evs : list sink_event) (s : asyncSink) : asyncSink := foldl (λ s ev, sink_step ev s) s evs.

Definition Stats (s : asyncSink) : Z * Z := (sk_dropped s, sk_flushed s).

(** ** The hook: hook.go *)

Record hooks := mkHooks { hk_index : RootCauseIndex; hk_sink : asyncSink }.

Section hook.
Context `{GoRange, Regexp}.

Definition suppression_record (event : AlertCurEvent) (d : Verdict) : SuppressionRecord :=
  mkSuppressionRecord (v_ByRuleId d) (v_ByRuleName d) (v_BySourceHash d) (Event.Hash event) (ss_RuleName (v_BySource d))
    (Event.RuleName event) (ss_TagsCSV (v_BySource d)) (Event.Tags event) (ss_Severity (v_BySource d)) (Event.Severity event)
    (Event.GroupId event) (Event.DatasourceId event) 0.

(** [previous] is the hook installed before; nil is a hook that mutes nothing. *)
Definition Suppress_Hook (previous : option (AlertCurEvent → bool)) (event : option AlertCurEvent)
    (rules : list CompiledRule) (h : hooks) : hooks * bool :=
  match event with
  | None => (h, false)
  | Some e =>
      let '(idx, decision) := Decide event rules (hk_index h) in
      if v_Suppressed decision
      then (mkHooks idx (RecordSuppression (rx_now idx) (Some (suppression_record e decision)) (hk_sink h)), true)
      else (mkHooks idx (hk_sink h), match previous with Some f => f e | None => false end)
  end.
End hook.

(** ** Why an event is suppressed *)

Lemma lookup_extract tags keys k :
  extractEqualValues tags keys !! k = if decide (k ∈ keys) then tags !! k else None.
Proof.
  unfold extractEqualValues. assert (∀ (m : gmap string string), (∀ j, j ∈ keys → m !! j = None ∨ m !! j = tags !! j) →
    foldl (λ out k, match tags !! k with Some v => <[k := v]> out | None => out end) m keys !! k
    = if decide (k ∈ keys) then tags !! k else m !! k) as Hgen; [|rewrite Hgen; [by rewrite lookup_empty|by left; apply lookup_empty]].
  induction keys as [|k0 keys IH]; intros m Hm; simpl; [done|].
  rewrite IH.
  - destruct (decide (k ∈ keys)) as [Hin|Hin].
    + rewrite decide_True by set_solver. done.
    + destruct (decide (k ∈ k0 :: keys)) as [Hin'|Hin'].
      * assert (k = k0) as -> by set_solver. destruct (tags !! k0) eqn:E; [by rewrite lookup_insert_eq|].
        destruct (Hm k0) as [->| ->]; [set_solver|done|done].
      * destruct (tags !! k0); [|done]. rewrite lookup_insert_ne; [done|set_solver].
  - intros j Hj. destruct (tags !! k0) eqn:E; [|apply Hm; set_solver].
    destruct (decide (k0 = j)) as [->|Hne]; [right; by rewrite lookup_insert_eq|].
    rewrite lookup_insert_ne by done. apply Hm. set_solver.
Qed.

Section why.
Context `{GoRange, Regexp}.

Lemma match_any_Some ruleId target t l snap :
  match_any ruleId target t l = Some snap →
  ∃ h e, ((ruleId, h), e) ∈ l ∧ expired t e = false ∧ equalValuesMatch (rc_equalLabelValues e) target = true ∧ snap = snapshot_of h e.
Proof.
  induction l as [|[[r h] e] l IH]; simpl; [done|]. intros Hm.
  assert (match_any ruleId target t l = Some snap →
    ∃ h' e', ((ruleId, h'), e') ∈ ((r, h), e) :: l ∧ expired t e' = false ∧ equalValuesMatch (rc_equalLabelValues e') target = true ∧
      snap = snapshot_of h' e') as Htail.
  { intros (h' & e' & Hin & ?)%IH. exists h', e'. split; [set_solver|done]. }
  destruct (Z.eqb_spec r ruleId) as [->|]; simpl in Hm; [|auto]. destruct (expired t e) eqn:Ex; [auto|].
  destruct (equalValuesMatch _ _) eqn:Em; [|auto]. simplify_eq. exists h, e. split; [set_solver|done].
Qed.

Lemma match_any_complete ruleId target t l h e :
  ((ruleId, h), e) ∈ l → expired t e = false → equalValuesMatch (rc_equalLabelValues e) target = true →
  is_Some (match_any ruleId target t l).
Proof.
  intros Hin Hx Hm. induction l as [|[[r h'] e'] l IH]; [set_solver|]. simpl.
  apply elem_of_cons in Hin as [Heq|Hin].
  - simplify_eq. rewrite Z.eqb_refl, Hx, Hm. by eexists.
  - specialize (IH Hin). destruct (r =? ruleId); simpl; [|done]. destruct (expired t e'); [done|].
    destruct (equalValuesMatch (rc_equalLabelValues e') target); [by eexists|done].
Qed.

(** The entry an event registers under a rule. *)
Definition registered (event : AlertCurEvent) (r : CompiledRule) (t ttl : Z) : rootCauseEntry :=
  mkRootCause (extractEqualValues (Event.TagsMap event) (cr_EqualLabels r)) (i64 (t + ttl)) (Event.RuleName event)
    (Event.Tags event) (Event.Severity event) (Event.GroupId event) (Event.DatasourceId event).

Definition is_source (event : AlertCurEvent) (r : CompiledRule) : bool :=
  rule_in_scope r event && Suppress_matchAllTagFilters (Event.TagsMap event) (cr_SourceMatch r).
Definition is_target (event : AlertCurEvent) (r : CompiledRule) : bool :=
  rule_in_scope r event && Suppress_matchAllTagFilters (Event.TagsMap event) (cr_TargetMatch r).

(** A live cause of another event, with the equal labels of [event]. *)
Definition caused_by (event : AlertCurEvent) (r : CompiledRule) (idx : RootCauseIndex) (h : string) (e : rootCauseEntry) : Prop :=
  rx_entries idx !! (ir_Id (cr_Rule r), h) = Some e ∧ h ≠ Event.Hash event ∧ expired (rx_now idx) e = false ∧
  equalValuesMatch (rc_equalLabelValues e) (extractEqualValues (Event.TagsMap event) (cr_EqualLabels r)) = true.

(** The index after the rules: each rule whose source filters match has the event. *)
Definition registrations (event : AlertCurEvent) (rules : list CompiledRule) (idx : RootCauseIndex) : RootCauseIndex :=
  foldl (λ idx r, if is_source event r then register_source event r idx else idx) idx rules.

Lemma decide_rule_index event r idx out :
  (decide_rule event r idx out).1 = registrations event [r] idx.
Proof.
  unfold decide_rule, registrations, is_source. simpl. destruct (rule_in_scope r event); simpl; [|done].
  destruct (Suppress_matchAllTagFilters _ (cr_SourceMatch r)); simpl; by case_branches.
Qed.

Lemma decide_rules_index event rules idx out :
  (decide_rules event rules idx out).1 = registrations event rules idx.
Proof.
  revert idx out. induction rules as [|r rules IH]; intros idx out; simpl; [done|].
  pose proof (decide_rule_index event r idx out) as Hr. destruct (decide_rule event r idx out) as [idx1 out1]. simpl in Hr.
  rewrite IH, Hr. done.
Qed.

Lemma registrations_frame event rules idx :
  rx_now (registrations event rules idx) = rx_now idx ∧ rx_defaultTTL (registrations event rules idx) = rx_defaultTTL idx ∧
  ∀ rid h, h ≠ Event.Hash event → rx_entries (registrations event rules idx) !! (rid, h) = rx_entries idx !! (rid, h).
Proof.
  revert idx. induction rules as [|r rules IH]; intros idx; simpl; [done|].
  destruct (IH (if is_source event r then register_source event r idx else idx)) as (Hn & Ht & Ho).
  destruct (is_source event r); [|done]. repeat split; try done. intros rid h Hh. rewrite Ho by done. simpl.
  rewrite lookup_insert_ne; [done|congruence].
Qed.

Lemma registrations_own event rules idx rid e :
  rx_entries (registrations event rules idx) !! (rid, Event.Hash event) = Some e →
  rx_entries idx !! (rid, Event.Hash event) = Some e ∨
  ∃ r, r ∈ rules ∧ is_source event r = true ∧ ir_Id (cr_Rule r) = rid ∧ e = registered event r (rx_now idx) (rx_defaultTTL idx).
Proof.
  revert idx. induction rules as [|r rules IH]; intros idx; simpl; [by left|].
  intros [Hold|(r' & Hr' & Hsrc & Hid & He)]%IH.
  - destruct (is_source event r) eqn:Es; [|by left]. simpl in Hold.
    apply lookup_insert_Some in Hold as [[Hk <-]|[_ ?]]; [|by left]. right. exists r. injection Hk as Hk. split; [set_solver|done].
  - right. exists r'. split; [set_solver|]. split; [done|]. split; [done|]. by destruct (is_source event r).
Qed.

Lemma registrations_snoc event rules r idx :
  registrations event (rules ++ [r]) idx = registrations event [r] (registrations event rules idx).
Proof. unfold registrations. by rewrite foldl_app. Qed.

(** What registering leaves: the event is a cause under every rule whose source filters it
    matches, and all other entries are as they were. *)
Definition registers (event : AlertCurEvent) (rules : list CompiledRule) (idx idx' : RootCauseIndex) : Prop :=
  (∀ r, r ∈ rules → is_source event r = true →
     ∃ r', r' ∈ rules ∧ is_source event r' = true ∧ ir_Id (cr_Rule r') = ir_Id (cr_Rule r) ∧
       rx_entries idx' !! (ir_Id (cr_Rule r), Event.Hash event) = Some (registered event r' (rx_now idx) (rx_defaultTTL idx))) ∧
  (∀ rid h, (h = Event.Hash event → ∀ r, r ∈ rules → is_source event r = true → ir_Id (cr_Rule r) ≠ rid) →
     rx_entries idx' !! (rid, h) = rx_entries idx !! (rid, h)).

Lemma registrations_registers event rules idx : registers event rules idx (registrations event rules idx).
Proof.
  induction rules as [|r rules [IH1 IH2]] using rev_ind; [split; [intros r Hr; set_solver|done]|].
  destruct (registrations_frame event rules idx) as (Hn & Ht & _). rewrite registrations_snoc.
  unfold registers, registrations at 1 3. cbn [foldl]. set (idx1 := registrations event rules idx) in *.
  destruct (is_source event r) eqn:Es; simpl.
  - split.
    + intros r0 Hr0 Hs0. destruct (decide (ir_Id (cr_Rule r0) = ir_Id (cr_Rule r))) as [E|E].
      * exists r. rewrite E, lookup_insert_eq, Hn, Ht. split; [set_solver|done].
      * rewrite lookup_insert_ne by congruence. apply elem_of_app in Hr0 as [Hr0|Hr0%list_elem_of_singleton]; [|by subst].
        destruct (IH1 r0 Hr0 Hs0) as (r' & ? & ?). exists r'. split; [set_solver|done].
    + intros rid h Hno. rewrite lookup_insert_ne; [|intros [= E1 E2]; eapply (Hno (eq_sym E2) r); [set_solver|done|done]].
      apply IH2. intros Hh r0 Hr0. apply Hno; [done|set_solver].
  - split.
    + intros r0 [Hr0|Hr0%list_elem_of_singleton]%elem_of_app Hs0; [|by subst; congruence].
      destruct (IH1 r0 Hr0 Hs0) as (r' & ? & ?). exists r'. split; [set_solver|done].
    + intros rid h Hno. apply IH2. intros Hh r0 Hr0. apply Hno; [done|set_solver].
Qed.

(** A rule suppresses the event in the index as the rules before have left it. *)
Lemma decide_rule_verdict event r seen idx out :
  let d := decide_rule event r (registrations event seen idx) out in
  (v_Suppressed out = true → d.2.(v_Suppressed) = true ∧ v_ByRuleId d.2 = v_ByRuleId out ∧ v_BySourceHash d.2 = v_BySourceHash out) ∧
  (v_Suppressed out = false → v_Suppressed d.2 = true →
     is_target event r = true ∧ v_ByRuleId d.2 = ir_Id (cr_Rule r) ∧ ∃ e, caused_by event r idx (v_BySourceHash d.2) e) ∧
  (is_target event r = true → (∃ h e, caused_by event r idx h e) →
     rx_entries (registrations event (seen ++ [r]) idx) !! (ir_Id (cr_Rule r), Event.Hash event) = None → v_Suppressed d.2 = true).
Proof.
  rewrite registrations_snoc. set (idx1 := registrations event seen idx). unfold decide_rule, is_target.
  assert (registrations event [r] idx1 = if is_source event r then register_source event r idx1 else idx1) as Hreg by done.
  rewrite Hreg. unfold is_source in *. destruct (rule_in_scope r event); simpl; [|by intuition congruence]. cbn [andb] in Hreg.
  destruct (registrations_frame event seen idx) as (Hn1 & Ht1 & Ho1). fold idx1 in Hn1, Ht1, Ho1.
  set (src := Suppress_matchAllTagFilters _ (cr_SourceMatch r)) in *.
  set (idx2 := if src then register_source event r idx1 else idx1) in *.
  set (out2 := if src then out <| v_NewRegistrations := v_NewRegistrations out ++ [mkRegistration (ir_Id (cr_Rule r)) (Event.Hash event)] |> else out).
  assert ((if src then (register_source event r idx1, out <| v_NewRegistrations := v_NewRegistrations out ++
     [mkRegistration (ir_Id (cr_Rule r)) (Event.Hash event)] |>) else (idx1, out)) = (idx2, out2)) as -> by (unfold idx2, out2; by destruct src).
  assert (v_Suppressed out2 = v_Suppressed out ∧ v_ByRuleId out2 = v_ByRuleId out ∧ v_BySourceHash out2 = v_BySourceHash out)
    as (Hs2 & Hr2 & Hh2) by (unfold out2; by destruct src).
  assert (rx_now idx2 = rx_now idx ∧ ∀ rid h, h ≠ Event.Hash event → rx_entries idx2 !! (rid, h) = rx_entries idx !! (rid, h)) as (Hn2 & Ho2).
  { destruct (registrations_frame event [r] idx1) as (Hn & _ & Ho). rewrite Hreg in Hn, Ho. split; [congruence|].
    intros rid h Hh. rewrite Ho, Ho1 by done. done. }
  rewrite Hs2. destruct (v_Suppressed out) eqn:Eo; [simpl; split; [done|split; [done|congruence]]|].
  split; [done|]. destruct (Suppress_matchAllTagFilters _ (cr_TargetMatch r)); simpl; [|split; [congruence|done]].
  unfold MatchAnyFull. rewrite Hn2.
  destruct (match_any _ _ _ _) as [snap|] eqn:Em.
  - apply match_any_Some in Em as (h & e & Hin & Hx & Heq & ->). apply elem_of_go_range in Hin. simpl.
    destruct (String.eqb_spec h (Event.Hash event)) as [->|Hne]; simpl.
    + split; [congruence|]. intros _ _ Hnone. congruence.
    + split; [|done]. intros _ _. split; [done|]. split; [done|]. exists e. rewrite Ho2 in Hin by done. done.
  - simpl. split; [congruence|]. intros _ (h & e & He & Hne & Hx & Heq) _. exfalso.
    apply eq_None_not_Some in Em. apply Em. eapply (match_any_complete _ _ _ _ h e); [|done..].
    apply elem_of_go_range. by rewrite Ho2.
Qed.

Lemma registrations_mono event rules idx k :
  is_Some (rx_entries idx !! k) → is_Some (rx_entries (registrations event rules idx) !! k).
Proof.
  revert idx. induction rules as [|r rules IH]; intros idx Hk; simpl; [done|]. apply IH.
  destruct (is_source event r); [|done]. simpl. rewrite lookup_insert_is_Some'. by right.
Qed.

Lemma registrations_app event rs1 rs2 idx :
  registrations event (rs1 ++ rs2) idx = registrations event rs2 (registrations event rs1 idx).
Proof. unfold registrations. apply foldl_app. Qed.

Lemma decide_rules_verdict event rules seen idx out :
  let d := decide_rules event rules (registrations event seen idx) out in
  (v_Suppressed out = true → d.2.(v_Suppressed) = true ∧ v_ByRuleId d.2 = v_ByRuleId out ∧ v_BySourceHash d.2 = v_BySourceHash out) ∧
  (v_Suppressed out = false → v_Suppressed d.2 = true →
     ∃ r, r ∈ rules ∧ is_target event r = true ∧ v_ByRuleId d.2 = ir_Id (cr_Rule r) ∧ ∃ e, caused_by event r idx (v_BySourceHash d.2) e) ∧
  (∀ r, r ∈ rules → is_target event r = true → (∃ h e, caused_by event r idx h e) →
     rx_entries (registrations event (seen ++ rules) idx) !! (ir_Id (cr_Rule r), Event.Hash event) = None → v_Suppressed d.2 = true).
Proof.
  revert seen out. induction rules as [|r rules IH]; intros seen out; cbn [decide_rules].
  { split; [done|]. split; [simpl; congruence|]. intros r Hr. set_solver. }
  pose proof (decide_rule_verdict event r seen idx out) as Hd. pose proof (decide_rule_index event r (registrations event seen idx) out) as Hi.
  destruct (decide_rule event r (registrations event seen idx) out) as [idx1 out1]. cbn [fst snd] in Hd, Hi. cbv zeta in Hd. destruct Hd as (Hd1 & Hd2 & Hd3).
  rewrite Hi, <- registrations_snoc. destruct (IH (seen ++ [r]) out1) as (H1 & H2 & H3). clear IH.
  split; [|split].
  - intros Ho. destruct (Hd1 Ho) as (Ho1 & ? & ?). destruct (H1 Ho1) as (? & ? & ?). split; [done|split; congruence].
  - intros Ho Hs. destruct (v_Suppressed out1) eqn:E1.
    + destruct (Hd2 Ho eq_refl) as (Ht & Hid & e & Hc). destruct (H1 eq_refl) as (_ & -> & ->). exists r. split; [set_solver|]. eauto.
    + destruct (H2 eq_refl Hs) as (r' & Hr' & ?). exists r'. split; [set_solver|done].
  - intros r' Hin Ht Hc Hnone. rewrite cons_middle, app_assoc in Hnone. apply elem_of_cons in Hin as [->|Hin]; [|by eapply H3].
    apply H1, Hd3; [done|done|]. rewrite registrations_app in Hnone. apply eq_None_not_Some. intros Hsome.
    apply (registrations_mono event rules) in Hsome. rewrite Hnone in Hsome. by destruct Hsome.
Qed.

Lemma Decide_index e rules idx : (Decide (Some e) rules idx).1 = registrations e rules idx.
Proof. apply decide_rules_index. Qed.

(** The events that were evaluated, each with its time and the rules of that time. *)
Definition visit : Type := Z * list CompiledRule * AlertCurEvent.

Definition at_second (t : Z) (idx : RootCauseIndex) : RootCauseIndex := idx <| rx_now := t |>.

Definition evaluated (ttl : Z) (visits : list visit) : RootCauseIndex :=
  foldl (λ idx v, (Decide (Some v.2) v.1.2 (at_second v.1.1 idx)).1) (NewRootCauseIndex ttl 0) visits.

Lemma evaluated_entries ttl visits :
  rx_defaultTTL (evaluated ttl visits) = rx_defaultTTL (NewRootCauseIndex ttl 0) ∧
  ∀ rid h en, rx_entries (evaluated ttl visits) !! (rid, h) = Some en →
    ∃ t rules e r, (t, rules, e) ∈ visits ∧ r ∈ rules ∧ is_source e r = true ∧ ir_Id (cr_Rule r) = rid ∧
      Event.Hash e = h ∧ en = registered e r t (rx_defaultTTL (NewRootCauseIndex ttl 0)).
Proof.
  unfold evaluated. induction visits as [|[[t rules] e] visits [IHt IH]] using rev_ind;
    [split; [done|intros rid h en; simpl; by rewrite lookup_empty]|].
  rewrite foldl_app. cbn [foldl fst snd]. rewrite Decide_index.
  set (idx := foldl (λ idx v, (Decide (Some v.2) v.1.2 (at_second v.1.1 idx)).1) _ visits) in *. destruct (registrations_frame e rules (at_second t idx)) as (_ & Ht & Ho).
  split; [rewrite Ht; exact IHt|]. intros rid h en Hen.
  assert (rx_entries idx !! (rid, h) = Some en → ∃ t' rules' e' r, (t', rules', e') ∈ visits ++ [(t, rules, e)] ∧ r ∈ rules' ∧
    is_source e' r = true ∧ ir_Id (cr_Rule r) = rid ∧ Event.Hash e' = h ∧ en = registered e' r t' (rx_defaultTTL (NewRootCauseIndex ttl 0))) as Hold.
  { intros (t' & rules' & e' & r & Hin & ?)%IH. exists t', rules', e', r. split; [set_solver|done]. }
  destruct (decide (h = Event.Hash e)) as [->|Hne]; [|rewrite Ho in Hen by done; auto].
  apply registrations_own in Hen as [Hen|(r & Hr & Hsrc & Hid & ->)]; [auto|].
  exists t, rules, e, r. repeat split; try done; [set_solver|]. simpl. by rewrite IHt.
Qed.

(** C21. An event that is suppressed was preceded, at most the time to live before, by another
    event that matched the source filters of the rule that suppresses it, and that has the
    same values of the equal labels, as far as it has those labels. *)
Theorem suppressed_has_cause ttl visits t rules e d :
  0 <= ttl < 2 ^ 62 → 0 <= t < 2 ^ 62 → Forall (λ v : visit, 0 <= v.1.1 < 2 ^ 62) visits →
  (Decide (Some e) rules (at_second t (evaluated ttl visits))).2 = d → v_Suppressed d = true →
  ∃ t0 rules0 e0 r0 r, (t0, rules0, e0) ∈ visits ∧ r0 ∈ rules0 ∧ r ∈ rules ∧
    ir_Id (cr_Rule r0) = v_ByRuleId d ∧ ir_Id (cr_Rule r) = v_ByRuleId d ∧
    is_source e0 r0 = true ∧ is_target e r = true ∧
    Event.Hash e0 = v_BySourceHash d ∧ Event.Hash e0 ≠ Event.Hash e ∧
    t <= t0 + (if ttl =? 0 then 600 else ttl) ∧
    ∀ k v, k ∈ cr_EqualLabels r0 → Event.TagsMap e0 !! k = Some v → Event.TagsMap e !! k = Some v.
Proof.
  intros Httl Ht Hvs Hdec Hsup. cbn [Decide] in Hdec.
  destruct (decide_rules_verdict e rules [] (at_second t (evaluated ttl visits)) no_verdict) as (_ & Hwhy & _).
  cbn [registrations foldl] in Hwhy. rewrite Hdec in Hwhy. destruct (Hwhy eq_refl Hsup) as (r & Hr & Htgt & Hid & en & Hen & Hne & Hx & Heq).
  destruct (evaluated_entries ttl visits) as [_ Hent].
  destruct (Hent _ _ _ Hen) as (t0 & rules0 & e0 & r0 & Hin & Hr0 & Hsrc & Hid0 & Hh & ->).
  exists t0, rules0, e0, r0, r. repeat split; try congruence; try done.
  - rewrite Forall_forall in Hvs. apply Hvs in Hin. simpl in Hin. unfold expired, registered in Hx. simpl in Hx.
    revert Hx. destruct (Z.leb_spec ttl 0), (Z.eqb_spec ttl 0); try lia; rewrite i64_id by (unfold in_i64; lia); lia.
  - intros k v Hk Hv. unfold equalValuesMatch in Heq. apply bool_decide_eq_true in Heq.
    assert (extractEqualValues (Event.TagsMap e0) (cr_EqualLabels r0) !! k = Some v) as Hkv by by rewrite lookup_extract, decide_True.
    apply Heq in Hkv. rewrite lookup_extract in Hkv. by case_decide.
Qed.

(** Conversely, an event is suppressed when a rule takes it for a target, another event is
    registered under the rule and has not expired, and the equal labels agree, as long as
    the event is not registered under that rule itself; and whether suppressed or not, it is
    registered as a cause under every rule whose source filters it matches. *)
Theorem suppressed_when_caused e rules idx idx' d :
  Decide (Some e) rules idx = (idx', d) →
  (∀ r h en, r ∈ rules → is_target e r = true → caused_by e r idx h en →
     rx_entries idx' !! (ir_Id (cr_Rule r), Event.Hash e) = None → v_Suppressed d = true) ∧
  (∀ r, r ∈ rules → is_source e r = true → is_Some (rx_entries idx' !! (ir_Id (cr_Rule r), Event.Hash e))).
Proof.
  cbn [Decide]. intros Hdec. pose proof (decide_rules_index e rules idx no_verdict) as Hi. rewrite Hdec in Hi. simpl in Hi. subst idx'.
  split.
  - intros r h en Hr Htgt Hc Hnone. destruct (decide_rules_verdict e rules [] idx no_verdict) as (_ & _ & Hall).
    cbn [registrations foldl] in Hall. rewrite Hdec in Hall. eapply Hall; eauto.
  - intros r Hr Hsrc. apply list_elem_of_split in Hr as (rs1 & rs2 & ->). rewrite registrations_app. cbn [registrations foldl].
    rewrite Hsrc. apply (registrations_mono e rs2). simpl. rewrite lookup_insert_eq. by eexists.
Qed.
End why.

(** ** The sink loses nothing silently *)

Definition offered (evs : list sink_event) : list CustomSuppressedEvent :=
  omap (λ ev, match ev with Offer row => Some row | _ => None end) evs.

Definition inserted (batches : list (list CustomSuppressedEvent * option error)) : list CustomSuppressedEvent :=
  concat (map (λ b : list CustomSuppressedEvent * option error, match b.2 with None => b.1 | Some _ => [] end) batches).

(** The records a sink holds or has tried to insert, in order. *)
Definition carried (s : asyncSink) : list CustomSuppressedEvent :=
  concat (sk_batches s).*1 ++ sk_buf s ++ sk_ch s.

(** The same records, in the same order; sizes within their limits. *)
Record sink_ok (s : asyncSink) : Prop := {
  so_batch : (0 < sk_batchSize s)%nat;
  so_ch : (length (sk_ch s) <= sk_bufferSize s)%nat;
  so_buf : (length (sk_buf s) < sk_batchSize s)%nat;
  so_sizes : Forall (λ b, 0 < length b.1 <= sk_batchSize s)%nat (sk_batches s);
  so_flushed : sk_flushed s = Z.of_nat (length (inserted (sk_batches s)))
}.

Lemma inserted_snoc bs batch err :
  inserted (bs ++ [(batch, err)]) = inserted bs ++ match err with None => batch | Some _ => [] end.
Proof. unfold inserted. rewrite map_app, concat_app. simpl. by rewrite app_nil_r. Qed.

(** Flushing a buffer that may just have been filled. *)
Lemma flush_ok s :
  (0 < sk_batchSize s)%nat → (length (sk_ch s) <= sk_bufferSize s)%nat → (length (sk_buf s) <= sk_batchSize s)%nat →
  Forall (λ b, 0 < length b.1 <= sk_batchSize s)%nat (sk_batches s) →
  sk_flushed s = Z.of_nat (length (inserted (sk_batches s))) →
  sink_ok (flush s) ∧ carried (flush s) = carried s ∧ sk_buf (flush s) = [] ∧ sk_ch (flush s) = sk_ch s ∧
  sk_dropped (flush s) = sk_dropped s ∧ sk_batchSize (flush s) = sk_batchSize s ∧ sk_bufferSize (flush s) = sk_bufferSize s.
Proof.
  intros Hb Hc Hf Hs Hfl. unfold flush, insertBatch. destruct (Nat.eqb_spec (length (sk_buf s)) 0) as [E|E].
  { apply nil_length_inv in E. split; [split; try done; rewrite E; simpl; lia|]. by rewrite E. }
  destruct (default None (head (sk_faults s))) eqn:Ef; simpl in Ef |- *; rewrite Ef; simpl; (split; [|repeat split; try done]).
  1, 3: split; simpl; try done; try lia; [apply Forall_app; split; [done|constructor; [simpl; lia|done]]|].
  1, 2: rewrite inserted_snoc, length_app; simpl; lia.
  all: unfold carried; simpl; rewrite fmap_app, concat_app; simpl; by rewrite app_nil_r, <- !app_assoc.
Qed.

Lemma take_ok rec s :
  sink_ok s →
  sink_ok (take_record rec s) ∧ carried (take_record rec s) = concat (sk_batches s).*1 ++ sk_buf s ++ rec :: sk_ch s ∧
  sk_ch (take_record rec s) = sk_ch s ∧ sk_dropped (take_record rec s) = sk_dropped s ∧
  sk_bufferSize (take_record rec s) = sk_bufferSize s.
Proof.
  intros [Hb Hc Hf Hs Hfl]. unfold take_record. simpl. rewrite length_app. simpl.
  destruct (Nat.leb_spec (sk_batchSize s) (length (sk_buf s) + 1)).
  - destruct (flush_ok (s <| sk_buf := sk_buf s ++ [rec] |>)) as (Hok & Hcar & _ & Hch & Hd & _ & Hbs); simpl; try done.
    { rewrite length_app. simpl. lia. }
    split; [done|]. rewrite Hcar, Hch, Hd, Hbs. split; [|done]. unfold carried. simpl. by rewrite <- app_assoc.
  - split; [split; simpl; try done; rewrite length_app; simpl; lia|]. split; [|done]. unfold carried. simpl. by rewrite <- app_assoc.
Qed.

Lemma drain_ok ch s :
  sink_ok s → sk_ch s = ch →
  sink_ok (drain ch s) ∧ carried (drain ch s) = carried s ∧ sk_ch (drain ch s) = [] ∧ sk_dropped (drain ch s) = sk_dropped s ∧
  sk_bufferSize (drain ch s) = sk_bufferSize s.
Proof.
  revert s. induction ch as [|rec ch IH]; intros s Hok Hch; simpl; [done|].
  assert (sink_ok (s <| sk_ch := ch |>)) as Hok1.
  { destruct Hok as [? Hc ? ? ?]. split; simpl; try done. rewrite Hch in Hc. simpl in Hc. lia. }
  destruct (take_ok rec _ Hok1) as (Hok2 & Hcar & Hch2 & Hd & Hbs). destruct (IH _ Hok2 Hch2) as (Hok3 & -> & -> & -> & ->).
  split; [done|]. rewrite Hcar. unfold carried. simpl. by rewrite Hch.
Qed.

Lemma sink_step_ok ev s :
  sink_ok s →
  sink_ok (sink_step ev s) ∧ sk_bufferSize (sink_step ev s) = sk_bufferSize s ∧
  match ev with
  | Offer row => carried (sink_step ev s) = carried s ++ [row] ∧ sk_dropped (sink_step ev s) = sk_dropped s ∨
      (carried (sink_step ev s) = carried s ∧ sk_dropped (sink_step ev s) = sk_dropped s + 1 ∧ length (sk_ch s) = sk_bufferSize s)
  | Cancelled => carried (sink_step ev s) = carried s ∧ sk_dropped (sink_step ev s) = sk_dropped s ∧
      sk_buf (sink_step ev s) = [] ∧ sk_ch (sink_step ev s) = []
  | _ => carried (sink_step ev s) = carried s ∧ sk_dropped (sink_step ev s) = sk_dropped s
  end.
Proof.
  intros Hok. pose proof Hok as [Hb Hc Hf Hs Hfl]. destruct ev as [row| | |]; simpl.
  - unfold offer. destruct (Nat.ltb_spec (length (sk_ch s)) (sk_bufferSize s)).
    + split; [split; simpl; try done; rewrite length_app; simpl; lia|]. split; [done|]. left. split; [|done].
      unfold carried. simpl. by rewrite !app_assoc.
    + split; [by split|]. split; [done|]. right. split; [done|]. split; [done|]. lia.
  - destruct (sk_ch s) as [|rec ch] eqn:Ech; [done|].
    assert (sink_ok (s <| sk_ch := ch |>)) as Hok1 by (split; simpl; try done; simpl in Hc; lia).
    destruct (take_ok rec _ Hok1) as (Hok2 & Hcar & _ & Hd & Hbs). split; [done|]. split; [done|]. split; [|done].
    rewrite Hcar. unfold carried. simpl. by rewrite Ech.
  - destruct (flush_ok s) as (? & ? & _ & _ & ? & _ & ?); [done|done|lia|done|done|]. done.
  - destruct (drain_ok (sk_ch s) s Hok eq_refl) as (Hok1 & Hcar & Hch & Hd & Hbs). pose proof Hok1 as [? ? ? ? ?].
    destruct (flush_ok (drain (sk_ch s) s)) as (? & Hcar2 & ? & Hch2 & Hd2 & _ & Hbs2); try done; [lia|].
    split; [done|]. rewrite Hbs2, Hcar2, Hd2, Hch2. done.
Qed.

(** Whatever the order of events of a sink and whatever insertions fail: the records it was
    offered are those it dropped, and counted, because the channel was full, and those it
    carries on in order, each in exactly one batch, in the buffer or in the channel; the
    counter of flushed records is the number of records in the batches that were inserted;
    and when the goroutine ends every record has been in a batch. *)
Theorem sink_conserves bufferSize batchSize flushPeriod faults evs s :
  sink_run evs (NewAsyncSink bufferSize batchSize flushPeriod faults) = s →
  (∃ kept, sublist kept (offered evs) ∧ Z.of_nat (length (offered evs)) = Z.of_nat (length kept) + sk_dropped s ∧
     kept = concat (sk_batches s).*1 ++ sk_buf s ++ sk_ch s) ∧
  sk_flushed s = Z.of_nat (length (inserted (sk_batches s))) ∧
  Forall (λ b, 0 < length b.1 <= sk_batchSize s)%nat (sk_batches s) ∧
  (last evs = Some Cancelled → sk_buf s = [] ∧ sk_ch s = []).
Proof.
  intros <-. unfold sink_run. set (s0 := NewAsyncSink _ _ _ _).
  assert (sink_ok s0) as Hok0.
  { unfold s0, NewAsyncSink. split; simpl; try done; [|lia|]; destruct (Z.leb_spec batchSize 0); lia. }
  enough (let s := foldl (λ s ev, sink_step ev s) s0 evs in sink_ok s ∧ sublist (carried s) (offered evs) ∧
    Z.of_nat (length (offered evs)) = Z.of_nat (length (carried s)) + sk_dropped s ∧
    (last evs = Some Cancelled → sk_buf s = [] ∧ sk_ch s = [])) as ([? ? ? ? ?] & Hsub & Hlen & Hlast) by eauto 10.
  induction evs as [|ev evs (Hok & Hsub & Hlen & _)] using rev_ind; [split; [done|]; split; [constructor|done]|].
  rewrite foldl_app, last_snoc. cbn [foldl]. set (s := foldl _ s0 evs) in *.
  assert (offered (evs ++ [ev]) = offered evs ++ match ev with Offer row => [row] | _ => [] end) as ->.
  { unfold offered. rewrite omap_app. by destruct ev. }
  destruct (sink_step_ok ev s Hok) as (Hok' & _ & Hev). split; [done|].
  destruct ev as [row| | |]; rewrite ?app_nil_r.
  - rewrite length_app. destruct Hev as [[Hc Hd]|(Hc & Hd & _)]; rewrite Hc, Hd.
    + rewrite length_app. cbn [length]. split; [by apply sublist_app|]. split; [lia|done].
    + split; [by apply sublist_inserts_r|]. cbn [length]. split; [lia|done].
  - destruct Hev as [Hc Hd]. by rewrite Hc, Hd.
  - destruct Hev as [Hc Hd]. by rewrite Hc, Hd.
  - destruct Hev as (Hc & Hd & Hb & Hch). rewrite Hc, Hd. auto.
Qed.
