(* ===== verification/CustomMute.v ===== *)
(** * Mutes by schedule and the emergency switch: [internal/custom/mute]

    A rule mutes events for some time after each firing of a cron schedule; a switch for
    emergencies mutes everything in its scope.  The hook of the dispatcher asks the
    switch and the rules first and then the suppression of [Suppress].

    The parser of schedules and their next firing are a parameter ([RobfigCron], the library
    robfig/cron), with what its documentation promises ([RobfigLaws]).  Instants are
    nanoseconds since 1970. *)

From S2P Require Import Prelude GoStrings Json Models RuleModels Filter Denoise Suppress.
Open Scope string_scope.
Open Scope Z_scope.
Open Scope list_scope.

(** ** Schedules: cron.go *)

(** [cron_Next] is [None] for the zero time; a time zone is kept by its name, which is
    empty for the local one. *)
Class RobfigCron := {
  schedule : Type;
  cron_Parse : string → result schedule;
  cron_Next : schedule → string → Z → option Z;
  LoadLocation : string → option error
}.

Definition nanoseconds (sec : Z) : Z := sec * time_Second.
Definition five_years : Z := nanoseconds (5 * 365 * 86400).

(** The next firing is the first one after the given time; the search gives up after five
    years. *)
Class RobfigLaws `{RobfigCron} := {
  fires : schedule → string → Z → Prop;
  next_Some s l t f : cron_Next s l t = Some f → t < f ∧ fires s l f ∧ ∀ g, fires s l g → t < g → f <= g;
  next_None s l t : cron_Next s l t = None → ∀ g, fires s l g → t < g → t + five_years < g
}.

(** [%q], for text without characters to escape. *)
Definition quoted (s : string) : string :=
  let q := String (Ascii.ascii_of_nat 34) "" in q +:+ s +:+ q.

Section cron.
Context `{RobfigCron}.

Record CompiledCron := mkCompiledCron { cc_Schedule : option schedule; cc_Location : string; cc_DurationSec : Z }.

Definition CompileCron (expr timezone : string) (durationSec : Z) : result CompiledCron :=
  if String.eqb expr "" then Err "cron expression is empty"
  else if durationSec <=? 0 then Err "duration_sec must be > 0"
  else
    match (if negb (String.eqb timezone "") then LoadLocation timezone else None) with
    | Some err => Err ("invalid timezone " +:+ quoted timezone +:+ ": " +:+ err)
    | None =>
        match cron_Parse expr with
        | Err err => Err ("invalid cron " +:+ quoted expr +:+ ": " +:+ err)
        | Ok sched => Ok (mkCompiledCron (Some sched) timezone durationSec)
        end
    end.

(** The product is one of 64-bit numbers. *)
Definition IsActive (c : option CompiledCron) (now : Z) : bool :=
  match c with
  | None => false
  | Some c =>
      match cc_Schedule c with
      | None => false
      | Some sched =>
          let windowStart := now + i64 (i64 (- cc_DurationSec c) * time_Second) in
          match cron_Next sched (cc_Location c) windowStart with
          | None => false
          | Some fire => negb (now <? fire)
          end
      end
  end.

(** ** Rules: cron_rule.go *)

Record CustomMuteCron := mkMuteCron {
  mc_Id : Z; mc_GroupId : Z; mc_Note : string; mc_CronExpr : string; mc_DurationSec : Z; mc_Timezone : string;
  mc_DatasourceIds : string; mc_DatasourceIdsJson : list Z; mc_Severities : string; mc_SeveritiesJson : list Z;
  mc_Tags : string; mc_Disabled : Z; mc_CreateBy : string; mc_UpdateBy : string; mc_CreateAt : Z; mc_UpdateAt : Z
}.

#[global] Instance CustomMuteCron_eta : Settable CustomMuteCron := λ r,
  mkMuteCron (mc_Id r) (mc_GroupId r) (mc_Note r) (mc_CronExpr r) (mc_DurationSec r) (mc_Timezone r) (mc_DatasourceIds r)
    (mc_DatasourceIdsJson r) (mc_Severities r) (mc_SeveritiesJson r) (mc_Tags r) (mc_Disabled r)
    (mc_CreateBy r) (mc_UpdateBy r) (mc_CreateAt r) (mc_UpdateAt r).

Record CompiledCronRule := mkCompiledCronRule {
  cm_Rule : CustomMuteCron; cm_Cron : CompiledCron; cm_TagFilters : list TagFilter;
  cm_DatasourceIds : list Z; cm_Severities : list Z
}.

Section rules.
Context `{Regexp, GoFmt, !Json (list TagFilter)}.

Definition Mute_decodeTagFilters (raw : string) : result (list TagFilter) :=
  if (String.length raw =? 0)%nat then Ok []
  else match json_unmarshal raw ([] : list TagFilter) with
       | (_, Some err) => Err err
       | (filters, None) => ParseTagFilter filters
       end.

Definition CompileCronRule (raw : option CustomMuteCron) : result CompiledCronRule :=
  match raw with
  | None => Err "nil rule"
  | Some raw =>
      match CompileCron (mc_CronExpr raw) (mc_Timezone raw) (mc_DurationSec raw) with
      | Err err => Err ("rule " +:+ itoa (mc_Id raw) +:+ ": " +:+ err)
      | Ok cc =>
          match Mute_decodeTagFilters (mc_Tags raw) with
          | Err err => Err ("rule " +:+ itoa (mc_Id raw) +:+ " tags: " +:+ err)
          | Ok tagFilters => Ok (mkCompiledCronRule raw cc tagFilters (mc_DatasourceIdsJson raw) (mc_SeveritiesJson raw))
          end
      end
  end.

(** The package's own copy of the matcher of [denoise], the same line by line. *)
Definition Mute_matchAllTagFilters (tags : gmap string string) (filters : list TagFilter) : bool :=
  matchAllTagFilters tags filters.

(** A list of ids that is not empty, does not start with 0, and lacks an id that is not 0. *)
Definition out_of_scope (ids : list Z) (x : Z) : bool :=
  match ids with
  | [] => false
  | d :: _ => negb (d =? 0) && negb (x =? 0) && negb (zmem x ids)
  end.

Definition CronRule_Match (c : option CompiledCronRule) (event : option AlertCurEvent) (now : Z) : bool :=
  match c, event with
  | Some c, Some event =>
      if mc_Disabled (cm_Rule c) =? 1 then false
      else if negb (mc_GroupId (cm_Rule c) =? 0) && negb (mc_GroupId (cm_Rule c) =? Event.GroupId event) then false
      else if out_of_scope (cm_DatasourceIds c) (Event.DatasourceId event) then false
      else if (0 <? length (cm_Severities c))%nat && negb (zmem (Event.Severity event) (cm_Severities c)) then false
      else if (0 <? length (cm_TagFilters c))%nat && negb (Mute_matchAllTagFilters (Event.TagsMap event) (cm_TagFilters c)) then false
      else IsActive (Some (cm_Cron c)) now
  | _, _ => false
  end.
End rules.
End cron.
#[global] Arguments CompiledCron {_}.
#[global] Arguments CompiledCronRule {_}.

(** ** The emergency switch: emergency.go *)

Record CustomEmergencyMute := mkEmergencyMute {
  em_Id : Z; em_Enabled : Z; em_Reason : string; em_ExpireAt : Z; em_DatasourceIds : string; em_DatasourceIdsJson : list Z;
  em_GroupIds : string; em_GroupIdsJson : list Z; em_CreateBy : string; em_UpdateBy : string; em_CreateAt : Z; em_UpdateAt : Z
}.
#[global] Instance CustomEmergencyMute_eta : Settable CustomEmergencyMute := λ r,
  mkEmergencyMute (em_Id r) (em_Enabled r) (em_Reason r) (em_ExpireAt r) (em_DatasourceIds r) (em_DatasourceIdsJson r)
    (em_GroupIds r) (em_GroupIdsJson r) (em_CreateBy r) (em_UpdateBy r) (em_CreateAt r) (em_UpdateAt r).

Record EmergencyState := mkEmergencyState {
  es_Enabled : bool; es_Reason : string; es_ExpireAt : Z; es_DatasourceIds : list Z; es_GroupIds : list Z
}.
Definition emergency_off : EmergencyState := mkEmergencyState false "" 0 [] [].

(** The holder is the state it points to, which is never nil. *)
Definition NewEmergencyHolder : EmergencyState := emergency_off.
Definition Emergency_Set (s : option EmergencyState) : EmergencyState := default emergency_off s.

Definition FromModel (row : option CustomEmergencyMute) : EmergencyState :=
  match row with
  | None => emergency_off
  | Some row => mkEmergencyState (em_Enabled row =? 1) (em_Reason row) (em_ExpireAt row) (em_DatasourceIdsJson row) (em_GroupIdsJson row)
  end.

(** [now.Unix()]. *)
Definition unix (now : Z) : Z := now / time_Second.

(** The reason, if the event is muted. *)
Definition Emergency_Match (s : EmergencyState) (event : option AlertCurEvent) (now : Z) : option string :=
  match event with
  | None => None
  | Some event =>
      if negb (es_Enabled s) then None
      else if (0 <? es_ExpireAt s) && (es_ExpireAt s <? unix now) then None
      else if out_of_scope (es_DatasourceIds s) (Event.DatasourceId event) then None
      else if out_of_scope (es_GroupIds s) (Event.GroupId event) then None
      else Some (es_Reason s)
  end.

(** ** Evaluation and the hook: evaluator.go, hook.go *)

Record MuteVerdict := mkMuteVerdict { mv_Muted : bool; mv_Reason : string; mv_RuleId : Z }.
Definition not_muted : MuteVerdict := mkMuteVerdict false "" 0.

Section evaluate.
Context `{RobfigCron, Regexp}.

(** The providers can be nil. *)
Record Evaluator := mkEvaluator { ev_cron : option (list CompiledCronRule); ev_emergency : option EmergencyState }.

Fixpoint first_cron (event : AlertCurEvent) (now : Z) (rules : list CompiledCronRule) : MuteVerdict :=
  match rules with
  | [] => not_muted
  | rule :: rules =>
      if CronRule_Match (Some rule) (Some event) now
      then mkMuteVerdict true ("cron mute rule " +:+ mc_Note (cm_Rule rule)) (mc_Id (cm_Rule rule))
      else first_cron event now rules
  end.

Definition Evaluate (e : Evaluator) (event : option AlertCurEvent) (now : Z) : MuteVerdict :=
  match event with
  | None => not_muted
  | Some event =>
      match (match ev_emergency e with Some s => Emergency_Match s (Some event) now | None => None end) with
      | Some reason => mkMuteVerdict true ("emergency mute: " +:+ reason) 0
      | None => match ev_cron e with Some rules => first_cron event now rules | None => not_muted end
      end
  end.

(** [previous] is the hook behind this one, with its own state. *)
Definition Mute_Hook {S : Type} (e : Evaluator) (previous : option AlertCurEvent → S → S * bool)
    (event : option AlertCurEvent) (now : Z) (s : S) : S * bool :=
  match event with
  | None => (s, false)
  | Some _ => if mv_Muted (Evaluate e event now) then (s, true) else previous event s
  end.
End evaluate.
#[global] Arguments Evaluator {_}.

(** ** What is muted, and what the chain of hooks does *)

Section spec.
Context `{RobfigLaws, Regexp, GoRange}.

(** C25. A schedule mutes at [now] exactly when it has fired within the duration: after
    [now - duration], up to and including [now]. *)
Theorem schedule_active_iff_fired c sched now :
  cc_Schedule c = Some sched → 0 < cc_DurationSec c → nanoseconds (cc_DurationSec c) <= five_years →
  IsActive (Some c) now = true ↔
  ∃ f, fires sched (cc_Location c) f ∧ now - nanoseconds (cc_DurationSec c) < f <= now.
Proof.
  intros Hs Hd Hm. unfold IsActive. rewrite Hs. unfold five_years, nanoseconds, time_Second in *.
  rewrite (i64_id (- cc_DurationSec c)) by (unfold in_i64; lia). rewrite i64_id by (unfold in_i64; lia).
  set (start := now + - cc_DurationSec c * 1000000000). replace (now - cc_DurationSec c * 1000000000) with start by (unfold start; lia).
  destruct (cron_Next sched (cc_Location c) start) as [f|] eqn:En.
  - apply next_Some in En as (Hlt & Hf & Hmin). split.
    + intros Hn. exists f. split; [done|]. destruct (Z.ltb_spec now f); [done|lia].
    + intros (g & Hg & Hlo & Hhi). specialize (Hmin g Hg Hlo). destruct (Z.ltb_spec now f); [lia|done].
  - split; [done|]. intros (g & Hg & Hlo & Hhi). pose proof (next_None _ _ _ En g Hg Hlo) as Hbad.
    unfold five_years, nanoseconds, time_Second in Hbad. unfold start in *. lia.
Qed.

Lemma first_cron_muted event now rules :
  mv_Muted (first_cron event now rules) = existsb (λ r, CronRule_Match (Some r) (Some event) now) rules.
Proof.
  induction rules as [|r rules IH]; [done|]. cbn [first_cron existsb]. by destruct (CronRule_Match _ _ _).
Qed.

(** The rules that mute an event now. *)
Definition muted_by_schedule (e : Evaluator) (event : AlertCurEvent) (now : Z) : Prop :=
  ∃ rules r, ev_cron e = Some rules ∧ r ∈ rules ∧ CronRule_Match (Some r) (Some event) now = true.
Definition muted_by_switch (e : Evaluator) (event : AlertCurEvent) (now : Z) : Prop :=
  ∃ s reason, ev_emergency e = Some s ∧ Emergency_Match s (Some event) now = Some reason.

Lemma Evaluate_muted e event now :
  mv_Muted (Evaluate e (Some event) now) = true ↔ muted_by_switch e event now ∨ muted_by_schedule e event now.
Proof.
  unfold Evaluate, muted_by_switch, muted_by_schedule. destruct (ev_emergency e) as [s|].
  - destruct (Emergency_Match s (Some event) now) as [reason|] eqn:Em; [split; [eauto 6|done]|].
    destruct (ev_cron e) as [rules|].
    + rewrite first_cron_muted, existsb_elem_of. naive_solver.
    + split; [done|naive_solver].
  - destruct (ev_cron e) as [rules|].
    + rewrite first_cron_muted, existsb_elem_of. naive_solver.
    + split; [done|naive_solver].
Qed.

(** The hook that is installed: mutes first, then suppression, then nothing. *)
Definition InstalledHook (e : Evaluator) (rules : list CompiledRule) (event : option AlertCurEvent) (now : Z) (h : hooks)
  : hooks * bool :=
  Mute_Hook e (λ event, Suppress_Hook None event rules) event now h.

(** C22. An event is withheld exactly when the switch or a schedule mutes it or the inhibitor
    suppresses it.  A muted event leaves no trace.  An event that is not muted is registered
    as a cause under every rule whose source filters it matches, suppressed or not, and
    nothing else of the index changes; one that is suppressed is handed to the record, which
    keeps it or counts it as dropped, and one that passes is not. *)
Theorem hook_withholds e rules event now h :
  let muted := muted_by_switch e event now ∨ muted_by_schedule e event now in
  let d := (Decide (Some event) rules (hk_index h)).2 in
  let '(h', withheld) := InstalledHook e rules (Some event) now h in
  (withheld = true ↔ muted ∨ v_Suppressed d = true) ∧
  (muted → h' = h) ∧
  (¬ muted → registers event rules (hk_index h) (hk_index h') ∧
     hk_sink h' = if v_Suppressed d
                  then offer (sink_row (rx_now (hk_index h)) (suppression_record event d)) (hk_sink h)
                  else hk_sink h).
Proof.
  cbv zeta. pose proof (Evaluate_muted e event now) as Hm. unfold InstalledHook, Mute_Hook, Suppress_Hook.
  pose proof (Decide_index event rules (hk_index h)) as Hidx.
  destruct (registrations_frame event rules (hk_index h)) as (Hnow & _).
  pose proof (registrations_registers event rules (hk_index h)) as Hreg.
  destruct (Decide (Some event) rules (hk_index h)) as [idx' d]. cbn [fst snd] in *. subst idx'.
  destruct (mv_Muted (Evaluate e (Some event) now)) eqn:Em; cbv beta iota zeta.
  - assert (muted_by_switch e event now ∨ muted_by_schedule e event now) by by apply Hm.
    split; [by split; [auto|]|]. split; [done|]. intros Hn. by destruct Hn.
  - assert (¬ (muted_by_switch e event now ∨ muted_by_schedule e event now)) as Hn by (intros Hx; by apply Hm in Hx).
    destruct (v_Suppressed d) eqn:Es; cbv beta iota zeta; (split; [split; [by auto|by intros [?|?]]|]);
      (split; [by intros ?|]); intros _; (split; [exact Hreg|]); [|done]. rewrite <- Hnow. done.
Qed.
End spec.
