(* ===== verification/Bootstrap.v ===== *)
(** * Start-up and reloading of the custom rules: [internal/custom/bootstrap], [refresher]

    The columns with JSON, which are decoded when a row is read, and a row that cannot be
    decoded fails the whole query; the columns with lists of numbers, in both notations they
    are stored in; the loaders that read the tables and compile the rules; the refresher that reloads a list on
    every tick of a clock and keeps the last one that could be read. *)

From Stdlib Require Import Ascii.
From S2P Require Import Prelude GoStrings Json Models RuleModels Filter Denoise Suppress CustomMute.
Open Scope string_scope.
Open Scope Z_scope.
Open Scope list_scope.
#[local] Arguments String.append : simpl nomatch.

(** ** Columns with JSON: [ormx.JSONArr], pkg/ormx/types.go *)

(** Decoding into a [json.RawMessage], which keeps the text of the value, and the error of
    decoding into a [[]json.RawMessage]. *)
Class RawJson := {
  raw_value : string → result string;
  raw_array : string → option error
}.

Section columns.
Context `{RawJson}.

(** An empty column is written as NULL, and NULL is not scanned. *)
Definition JSONArr_Scan (value : string) : result string := if String.eqb value "" then Ok "" else raw_value value.

Definition scan_aggregate (r : CustomAggregateRule) : result CustomAggregateRule :=
  match JSONArr_Scan (ar_Dimensions r), JSONArr_Scan (ar_Filters r) with
  | Ok dims, Ok filters => Ok (r <| ar_Dimensions := dims |> <| ar_Filters := filters |>)
  | Err err, _ | _, Err err => Err err
  end.
Definition scan_inhibit (r : CustomInhibitRule) : result CustomInhibitRule :=
  match JSONArr_Scan (ir_SourceMatch r), JSONArr_Scan (ir_TargetMatch r) with
  | Ok source, Ok target => Ok (r <| ir_SourceMatch := source |> <| ir_TargetMatch := target |>)
  | Err err, _ | _, Err err => Err err
  end.
Definition scan_cron (r : CustomMuteCron) : result CustomMuteCron :=
  match JSONArr_Scan (mc_Tags r) with Ok tags => Ok (r <| mc_Tags := tags |>) | Err err => Err err end.
End columns.

(** [Find]: one row that cannot be scanned is the error of the query; the text of the error
    is that of the first one. *)
Fixpoint Find {A} (scan : A → result A) (rows : list A) : result (list A) :=
  match rows with
  | [] => Ok []
  | r :: rows =>
      match scan r, Find scan rows with
      | Ok r, Ok rows => Ok (r :: rows)
      | Err err, _ | _, Err err => Err err
      end
  end.

(** ** Lists of numbers: csv.go *)

Definition in_seps (seps : string) (c : ascii) : bool := negb (str_forall (char_neb c) seps).

(** [cur] is the part since the last separator. *)
Fixpoint split_any_from (seps cur s : string) : list string :=
  match s with
  | "" => [cur]
  | String c s => if in_seps seps c then cur :: split_any_from seps "" s else split_any_from seps (cur +:+ String c "") s
  end.
Definition splitOnAny (s seps : string) : list string := split_any_from seps "" s.

(** The parts that are numbers; the others are logged and left out. *)
Definition parse_parts (parts : list string) : list Z :=
  omap (λ p, if String.eqb p "" then None else parse_int p) parts.

Section csv.
Context `{!Json (list Z)}.

Definition parseInt64CSV (s : string) : list Z :=
  let s := trim_space s in
  match s with
  | "" => []
  | String c _ =>
      if String.eqb s "null" then []
      else if Ascii.eqb c "["%char then
        match json_unmarshal s ([] : list Z) with
        | (_, Some _) => []
        | (out, None) => out
        end
      else parse_parts (splitOnAny s ", ")
  end.

(** [int] has 64 bits; [strconv.Atoi] reads the same numbers. *)
Definition parseIntCSV (s : string) : list Z :=
  let s := trim_space s in
  match s with
  | "" => []
  | String c _ =>
      if String.eqb s "null" then []
      else if Ascii.eqb c "["%char then
        match json_unmarshal s ([] : list Z) with
        | (_, Some _) => []
        | (out, None) => out
        end
      else parse_parts (splitOnAny s ", ")
  end.

(** ** Loaders: aggregate.go, hooks.go, refreshing_providers.go *)

Definition decodeRuleJSON (r : CustomAggregateRule) : CustomAggregateRule :=
  r <| ar_DatasourceIdsJson := parseInt64CSV (ar_DatasourceIds r) |> <| ar_SeveritiesJson := parseIntCSV (ar_Severities r) |>.

(** The rows with [disabled = 0], or the error of the query. *)
Definition enabled_rows {A} (disabled : A → Z) (scan : A → result A) (rows : result (list A)) : result (list A) :=
  match rows with Ok rows => Find scan (List.filter (λ r, disabled r =? 0) rows) | Err err => Err err end.

Definition loadAggregateRules `{RawJson} (rows : result (list CustomAggregateRule)) : list CustomAggregateRule :=
  match enabled_rows ar_Disabled scan_aggregate rows with Err _ => [] | Ok rules => map decodeRuleJSON rules end.

(** The rules that compile; the others are logged and skipped. *)
Definition compile_all {A B} (compile : A → result B) (rows : list A) : list B :=
  omap (λ r, match compile r with Ok c => Some c | Err _ => None end) rows.

Section loaders.
Context `{RawJson, Regexp, GoFmt, !Json (list TagFilter), !Json (list string), RobfigCron}.

Definition hydrate_inhibit (r : CustomInhibitRule) : CustomInhibitRule :=
  r <| ir_DatasourceIdsJson := parseInt64CSV (ir_DatasourceIds r) |>.

Definition loadInhibitRules (rows : result (list CustomInhibitRule)) : list CompiledRule :=
  match enabled_rows ir_Disabled scan_inhibit rows with
  | Err _ => []
  | Ok raw => compile_all (λ r, CompileRule (Some (hydrate_inhibit r))) raw
  end.

Definition hydrate_cron (r : CustomMuteCron) : CustomMuteCron :=
  r <| mc_DatasourceIdsJson := parseInt64CSV (mc_DatasourceIds r) |> <| mc_SeveritiesJson := parseIntCSV (mc_Severities r) |>.

Definition loadMuteCronRules (rows : result (list CustomMuteCron)) : list CompiledCronRule :=
  match enabled_rows mc_Disabled scan_cron rows with
  | Err _ => []
  | Ok raw => compile_all (λ r, CompileCronRule (Some (hydrate_cron r))) raw
  end.

(** The row with id 1; any error of the query, also that there is no such row, gives nil. *)
Definition loadEmergencyMute (row : result CustomEmergencyMute) : option EmergencyState :=
  match row with
  | Err _ => None
  | Ok row =>
      Some (FromModel (Some (row <| em_DatasourceIdsJson := parseInt64CSV (em_DatasourceIds row) |>
                                 <| em_GroupIdsJson := parseInt64CSV (em_GroupIds row) |>)))
  end.

(** The loaders of the three refreshing providers. *)
Definition aggregate_loader (rows : result (list CustomAggregateRule)) : result (list CustomAggregateRule) :=
  match enabled_rows ar_Disabled scan_aggregate rows with
  | Err err => Err err
  | Ok rows => Ok (map decodeRuleJSON rows)
  end.
Definition inhibit_loader (rows : result (list CustomInhibitRule)) : result (list CompiledRule) :=
  match enabled_rows ir_Disabled scan_inhibit rows with
  | Err err => Err err
  | Ok rows => Ok (compile_all (λ r, CompileRule (Some (hydrate_inhibit r))) rows)
  end.
Definition cron_loader (rows : result (list CustomMuteCron)) : result (list CompiledCronRule) :=
  match enabled_rows mc_Disabled scan_cron rows with
  | Err err => Err err
  | Ok rows => Ok (compile_all (λ r, CompileCronRule (Some (hydrate_cron r))) rows)
  end.
End loaders.
End csv.

(** ** The refresher: refresher.go *)

Record Refresher (T : Type) := mkRefresher { rf_name : string; rf_interval : Z; rf_current : list T }.
Arguments mkRefresher {T}.
Arguments rf_name {T}.
Arguments rf_interval {T}.
Arguments rf_current {T}.

Definition Refresher_New {T} (name : string) (interval : Z) : Refresher T :=
  mkRefresher name (if interval <? time_Second then time_Second else interval) [].

(** One reload, with what the loader returned. *)
Definition Refresher_tick {T} (loaded : result (list T)) (r : Refresher T) : Refresher T :=
  match loaded with
  | Err _ => r
  | Ok rows => mkRefresher (rf_name r) (rf_interval r) rows
  end.

(** The first reload happens before [Start] returns, the others on the ticks. *)
Definition Refresher_Start {T} (loads : list (result (list T))) (r : Refresher T) : Refresher T :=
  foldl (λ r loaded, Refresher_tick loaded r) r loads.

Definition Refresher_Get {T} (r : Refresher T) : list T := rf_current r.

Definition aggregateRefreshInterval : Z := 5 * time_Second.
Definition suppressRefreshInterval : Z := 5 * time_Second.
Definition cronRefreshInterval : Z := 5 * time_Second.
Definition emergencyRefreshInterval : Z := time_Second.

(** One tick of the goroutine of the emergency switch. *)
Definition emergency_tick `{!Json (list Z)} (row : result CustomEmergencyMute) (s : EmergencyState) : EmergencyState :=
  Emergency_Set (loadEmergencyMute row).

(** ** Properties *)

(** *** Lists of numbers come back from both notations *)

Lemma split_any_word seps cur w s :
  str_forall (λ c, negb (in_seps seps c)) w = true →
  split_any_from seps cur (w +:+ s) = split_any_from seps (cur +:+ w) s.
Proof.
  revert cur. induction w as [|c w IH]; intros cur; simpl; [by rewrite sapp_nil_r|].
  intros Hw. bool_prop. rewrite H. rewrite IH by done. by rewrite sapp_cons_snoc.
Qed.

Lemma split_any_join seps c ws :
  ws ≠ [] → in_seps seps c = true → Forall (λ w, str_forall (λ d, negb (in_seps seps d)) w = true) ws →
  splitOnAny (join ws (String c "")) seps = ws.
Proof.
  intros Hne Hc Hws. unfold splitOnAny. induction Hws as [|w ws Hw Hws IH]; [done|]. destruct ws as [|w' ws].
  - simpl. rewrite <- (sapp_nil_r w) at 1. by rewrite split_any_word.
  - change (join (w :: w' :: ws) (String c "")) with (w +:+ String c "" +:+ join (w' :: ws) (String c "")).
    rewrite split_any_word by done. simpl. rewrite Hc. f_equal. by apply IH.
Qed.

Lemma parse_parts_itoa l : Forall in_i64 l → parse_parts (map itoa l) = l.
Proof.
  induction 1 as [|z l Hz _ IH]; [done|]. unfold parse_parts in *. cbn [map omap list_omap].
  pose proof (itoa_nonempty z) as Hne. apply String.eqb_neq in Hne. rewrite Hne, parse_int_itoa by done. by f_equal.
Qed.

Lemma trim_right_word p w : w ≠ "" → str_forall (λ c, negb (is_space c)) w = true → trim_right (p +:+ w) = p +:+ w.
Proof.
  intros Hne Hw. assert (trim_right w = w) as Htw.
  { clear Hne. induction w as [|c w IH]; [done|]. simpl in *. bool_prop. rewrite IH by done. by rewrite H. }
  induction p as [|c p IH]; simpl; [done|]. rewrite IH.
  assert (String.eqb (p +:+ w) "" = false) as ->; [|by rewrite andb_false_r].
  apply String.eqb_neq. intros [_ ?]%sapp_eq_nil. done.
Qed.

Lemma num_not_space c : num_char c = true → negb (is_space c) = true.
Proof. by destruct c as [[] [] [] [] [] [] [] []]. Qed.

Lemma num_not_sep c : num_char c = true → negb (in_seps ", " c) = true.
Proof. by destruct c as [[] [] [] [] [] [] [] []]. Qed.

Lemma join_last ws sep : ws ≠ [] → ∃ p w, w ∈ ws ∧ join ws sep = p +:+ w.
Proof.
  induction ws as [|w ws IH]; [done|]. intros _. destruct ws as [|w' ws]; [exists "", w; split; [set_solver|done]|].
  destruct IH as (p & x & Hx & Heq); [done|]. exists (w +:+ sep +:+ p), x. split; [set_solver|].
  change (w +:+ sep +:+ join (w' :: ws) sep = (w +:+ sep +:+ p) +:+ x). by rewrite Heq, !sapp_assoc.
Qed.

(** The numbers of a list, joined, are text that trimming leaves as it is. *)
Lemma joined_numbers l sep :
  l ≠ [] → ∃ c r, num_char c = true ∧ join (map itoa l) sep = String c r ∧ trim_space (String c r) = String c r.
Proof.
  intros Hl. destruct l as [|z l]; [done|].
  assert (∃ c r, itoa z = String c r) as (c & r0 & Hz) by (pose proof (itoa_nonempty z); destruct (itoa z); [done|eauto]).
  pose proof (itoa_num_chars z) as Hnum. rewrite Hz in Hnum. simpl in Hnum. apply andb_prop in Hnum as [Hc _].
  assert (∃ r, join (map itoa (z :: l)) sep = String c r) as (r & Hr).
  { destruct l; cbn [map join]; rewrite Hz; eauto. }
  exists c, r. split; [done|]. split; [done|]. unfold trim_space. simpl.
  pose proof (num_not_space c Hc) as Hs. apply negb_true_iff in Hs. rewrite Hs.
  destruct (join_last (map itoa (z :: l)) sep) as (p & w & Hw & Heq); [done|]. rewrite <- Hr, Heq.
  apply list_elem_of_fmap in Hw as (y & -> & _). apply trim_right_word; [apply itoa_nonempty|].
  eapply str_forall_impl; [apply num_not_space|apply itoa_num_chars].
Qed.

Lemma parse_marshalled l : Forall in_i64 l → parseInt64CSV (ints_marshal l) = l.
Proof.
  intros Hl. unfold parseInt64CSV. assert (trim_space (ints_marshal l) = ints_marshal l) as ->.
  { unfold trim_space, ints_marshal. cbn [trim_left String.append].
    change (is_space "["%char) with false. cbv iota.
    change (String "[" (join (map itoa l) "," +:+ "]")) with (String "[" (join (map itoa l) ",") +:+ "]").
    by apply trim_right_word. }
  unfold ints_marshal at 1. cbn [String.append]. change (json_unmarshal (ints_marshal l) []) with (ints_unmarshal (ints_marshal l) []).
  rewrite ints_round by done. by destruct (String.eqb _ _) eqn:E.
Qed.

Lemma parse_joined l sep : Forall in_i64 l → l ≠ [] → in_seps ", " sep = true → parseInt64CSV (join (map itoa l) (String sep "")) = l.
Proof.
  intros Hl Hne Hsep. destruct (joined_numbers l (String sep "") Hne) as (c & r & Hc & Heq & Htrim).
  unfold parseInt64CSV. rewrite Heq, Htrim. cbv beta iota zeta.
  assert (Ascii.eqb c "[" = false) as -> by (by destruct c as [[] [] [] [] [] [] [] []]).
  assert (String.eqb (String c r) "null" = false) as -> by (apply String.eqb_neq; intros [= -> ->]; done).
  rewrite <- Heq, split_any_join; [by apply parse_parts_itoa|by destruct l|done|].
  apply Forall_forall. intros w (z & -> & _)%list_elem_of_fmap.
  eapply str_forall_impl; [apply num_not_sep|apply itoa_num_chars].
Qed.

(** A list of numbers is read back from the JSON array that the API stores, and from the
    numbers separated by commas or by spaces, by both readers. *)
Theorem number_lists_roundtrip l :
  Forall in_i64 l →
  parseInt64CSV (ints_marshal l) = l ∧
  (l ≠ [] → parseInt64CSV (join (map itoa l) ",") = l ∧ parseInt64CSV (join (map itoa l) " ") = l) ∧
  ∀ s, parseIntCSV s = parseInt64CSV s.
Proof.
  intros Hl. split; [by apply parse_marshalled|]. split; [|done]. intros Hne. split; by apply parse_joined.
Qed.

(** *** Rows that cannot be scanned *)

Lemma Find_Ok {A} (scan : A → result A) rows out :
  Find scan rows = Ok out ↔ Forall2 (λ r r', scan r = Ok r') rows out.
Proof.
  revert out. induction rows as [|r rows IH]; intros out; simpl.
  - split; [intros [= <-]; constructor|]. inversion 1; by subst.
  - split.
    + destruct (scan r) as [r'|] eqn:Er; [|done]. destruct (Find scan rows) as [rs|]; [|done]. intros [= <-].
      constructor; [done|]. by apply IH.
    + inversion 1 as [|? r' ? rs Hr Hrs]; subst. rewrite Hr. apply IH in Hrs. by rewrite Hrs.
Qed.

(** A query works exactly when every row of it can be scanned. *)
Lemma Find_works {A} (scan : A → result A) rows :
  (∃ out, Find scan rows = Ok out) ↔ ∀ r, r ∈ rows → ∃ r', scan r = Ok r'.
Proof.
  split.
  - intros (out & Hout) r Hr. apply Find_Ok in Hout. apply list_elem_of_lookup in Hr as (i & Hi).
    destruct (Forall2_lookup_l _ _ _ _ _ Hout Hi) as (r' & _ & Hs). by exists r'.
  - induction rows as [|r rows IH]; intros Hall; [by eexists|]. destruct (Hall r) as (r' & Hr); [set_solver|].
    destruct IH as (out & Hout); [intros; apply Hall; set_solver|]. exists (r' :: out). simpl. by rewrite Hr, Hout.
Qed.

(** *** Reloading *)

(** The last list that was loaded. *)
Fixpoint last_loaded {T} (loads : list (result (list T))) (before : list T) : list T :=
  match loads with
  | [] => before
  | Ok rows :: loads => last_loaded loads rows
  | Err _ :: loads => last_loaded loads before
  end.

(** Whatever reloads fail, a refresher serves the last list that could be loaded, and so
    rules stay in force while the database cannot be read; the emergency switch is not kept
    so: one failed reading turns it off until the next one succeeds. *)
Theorem reload_keeps_last {T} name interval (loads : list (result (list T))) row err s :
  Refresher_Get (Refresher_Start loads (Refresher_New name interval)) = last_loaded loads [] ∧
  (∀ rows fails, Forall (λ l, ∃ e, l = Err e) fails →
     Refresher_Get (Refresher_Start (loads ++ Ok rows :: fails) (Refresher_New name interval)) = rows) ∧
  time_Second <= rf_interval (Refresher_Start loads (Refresher_New name interval)) ∧
  emergency_tick (Err err) s = emergency_off ∧
  (em_Enabled row = 1 → es_Enabled (emergency_tick (Ok row) s) = true).
Proof.
  assert (∀ (ls : list (result (list T))) r, rf_current (Refresher_Start ls r) = last_loaded ls (rf_current r)) as Hlast.
  { induction ls as [|[rows|e] ls IH]; intros r; simpl; [done|apply IH|apply IH]. }
  split; [apply Hlast|]. split; [|split; [|split; [done|]]].
  - intros rows fails Hf. unfold Refresher_Get. rewrite Hlast.
    assert (∀ b : list T, last_loaded (loads ++ Ok rows :: fails) b = rows) as Hr; [|apply Hr].
    assert (∀ b : list T, last_loaded fails b = b) as Hfails.
    { induction Hf as [|l fails (e & ->) _ IH]; [done|]. simpl. apply IH. }
    induction loads as [|[rows'|e] loads IH]; intros b; simpl; auto.
  - assert (∀ (ls : list (result (list T))) r, rf_interval (Refresher_Start ls r) = rf_interval r) as Hint.
    { induction ls as [|[rows|e] ls IH]; intros r; simpl; [done|by rewrite IH|apply IH]. }
    rewrite Hint. unfold Refresher_New. simpl. destruct (Z.ltb_spec interval time_Second); lia.
  - intros He. simpl. rewrite He. done.
Qed.
