(* ===== verification/CustomApi.v ===== *)
(** * The API of the custom rules: [internal/custom/router]

    The handlers that list, read, create, change and delete aggregate rules, inhibit rules
    and schedules of mutes, set the emergency switch, list and close incidents, and list
    the audit log and the suppressed events; the trial run of an event, which goes through
    the hook of the dispatcher; the middleware that lets only administrators write; and the
    audit row that follows every write of a table.  Bodies of requests come decoded.

    [encoding/json] is a parameter for the snapshots of the audit log and for the columns
    with JSON ([RawJson]). *)

From Stdlib Require Import Ascii.
From S2P Require Import Prelude GoStrings Json Models RuleModels Filter Denoise Incidents Suppress CustomMute Bootstrap.
Open Scope string_scope.
Open Scope Z_scope.
Open Scope list_scope.
#[local] Arguments String.append : simpl nomatch.

(** ** Tables *)

Record CustomAuditLog := mkAuditLog {
  al_Id : Z; al_Username : string; al_Action : string; al_Target : string; al_TargetId : Z;
  al_Before : string; al_After : string; al_ClientIp : string; al_CreatedAt : Z
}.

(** Rows by id; the emergency mute is the row with id 1.  [ap_faults] has, for each statement
    to come, the error it fails with, if it fails.  [ap_hook] is not a table: it is the state
    of the hook of the dispatcher, in memory, that a trial run goes through. *)
Record api_db := mkApi {
  ap_aggregate : gmap Z CustomAggregateRule;
  ap_inhibit : gmap Z CustomInhibitRule;
  ap_cron : gmap Z CustomMuteCron;
  ap_emergency : option CustomEmergencyMute;
  ap_incidents : gmap Z CustomIncident;
  ap_links : list CustomIncidentEvent;
  ap_suppressed : list CustomSuppressedEvent;
  ap_audit : list CustomAuditLog;
  ap_nextid : Z;
  ap_faults : list (option error);
  ap_hook : hooks
}.
#[global] Instance api_db_eta : Settable api_db := λ r,
  mkApi (ap_aggregate r) (ap_inhibit r) (ap_cron r) (ap_emergency r) (ap_incidents r) (ap_links r) (ap_suppressed r)
    (ap_audit r) (ap_nextid r) (ap_faults r) (ap_hook r).

(** A request after authentication: what the middleware put into the context, the path
    parameter, the query, the address of the client, and the time. *)
Record request := mkRequest {
  rq_isadmin : option bool; rq_username : option string; rq_id : string; rq_query : gmap string string;
  rq_ip : string; rq_now : Z
}.

(** A handler answers with data, with an error in the envelope, or is left with a status. *)
Inductive reply (A : Type) := Data (a : A) | Failed (err : error) | Bomb (code : Z) (msg : string).
Arguments Data {A} a.
Arguments Failed {A} err.
Arguments Bomb {A} code msg.

Definition api (A : Type) : Type := api_db → api_db * reply A.
#[export] Instance api_ret : MRet api := λ A a s, (s, Data a).
#[export] Instance api_bind : MBind api := λ A B k m s,
  match m s with (s, Data a) => k a s | (s, Failed e) => (s, Failed e) | (s, Bomb c e) => (s, Bomb c e) end.
Definition refuse {A} (err : error) : api A := λ s, (s, Failed err).
Definition bomb {A} (code : Z) (msg : string) : api A := λ s, (s, Bomb code msg).

Definition api_stmt {A} (f : api_db → api_db * reply A) : api A := λ s,
  let s' := s <| ap_faults := tail (ap_faults s) |> in
  match head (ap_faults s) with
  | Some (Some err) => (s', Failed err)
  | _ => f s'
  end.
Definition api_query {A} (f : api_db → reply A) : api A := api_stmt (λ s, (s, f s)).

Definition record_not_found : error := "record not found".
Definition first_row {A} (row : option A) : reply A := match row with Some a => Data a | None => Failed record_not_found end.
Definition found {A} (r : result A) : reply A := match r with Ok a => Data a | Err err => Failed err end.

(** Rows sorted by a test. *)
Definition ordered {A} (leb : A → A → bool) (a b : A) : Prop := leb a b = true.
#[export] Instance ordered_dec {A} (leb : A → A → bool) : RelDecision (ordered leb) := λ a b, decide (leb a b = true).
Definition order_by {A} (leb : A → A → bool) (l : list A) : list A := merge_sort (ordered leb) l.
Definition rows {A} (t : gmap Z A) : list A := (map_to_list t).*2.

(** ** Helpers: helpers.go, incident.go *)

Section helpers.
Context `{!Json (list Z), !Json (list string), RawJson}.

Definition decodeJSONInt64List (s : string) : list Z :=
  if String.eqb s "" then []
  else match json_unmarshal s ([] : list Z) with (_, Some _) => [] | (out, None) => out end.

Definition decodeJSONIntList (s : string) : list Z :=
  if String.eqb s "" then []
  else match json_unmarshal s ([] : list Z) with (_, Some _) => [] | (out, None) => out end.

Definition decodeJSONStringList (s : string) : list string :=
  if String.eqb s "" then []
  else match json_unmarshal s ([] : list string) with (_, Some _) => [] | (out, None) => out end.

(** A nil slice, like an empty one, is written as an empty array. *)
Definition encodeJSONList {T} `{!Json (list T)} (v : list T) : string :=
  match v with
  | [] => "[]"
  | _ =>
      match json_marshal v with
      | Err _ => "[]"
      | Ok b => if String.eqb b "null" then "[]" else b
      end
  end.

Definition urlParamID (rq : request) : api Z :=
  if String.eqb (rq_id rq) "" then bomb 400 "missing id in URL"
  else match parse_int (rq_id rq) with
       | None => bomb 400 ("invalid id " +:+ quoted (rq_id rq))
       | Some id => mret id
       end.

(** [c.Query]: a missing parameter is empty. *)
Definition Query (rq : request) (key : string) : string := default "" (rq_query rq !! key).

Definition parseQueryIntDefault (rq : request) (key : string) (def max : Z) : Z :=
  let s := Query rq key in
  if String.eqb s "" then def
  else match parse_int s with
       | None => def
       | Some v => if v <? 0 then def else if max <? v then max else v
       end.

Definition currentUsername (rq : request) : string :=
  match rq_username rq with
  | Some s => if negb (String.eqb s "") then s else "unknown"
  | None => "unknown"
  end.

Definition requireAdmin (rq : request) : api unit :=
  match rq_isadmin rq with
  | None => bomb 401 "unauthorized"
  | Some b => if negb b then bomb 403 "admin required" else mret tt
  end.

(** ** The audit log: audit.go *)

Inductive auditable :=
| AuditAggregate (r : CustomAggregateRule) | AuditInhibit (r : CustomInhibitRule) | AuditCron (r : CustomMuteCron)
| AuditEmergency (r : CustomEmergencyMute) | AuditIncident (r : CustomIncident).

Definition auditable_id (a : auditable) : Z :=
  match a with
  | AuditAggregate r => ar_Id r | AuditInhibit r => ir_Id r | AuditCron r => mc_Id r
  | AuditEmergency r => em_Id r | AuditIncident r => ci_Id r
  end.

(** An [interface{}]: nil, a nil pointer of some type, or a pointer to a row. *)
Inductive snapshot := NoValue | NilPointer | RowOf (a : auditable).

Context `{!Json auditable}.

(** The id that a row is written with is read back; a nil pointer is written as null. *)
Definition idFrom (v : snapshot) : Z :=
  match v with
  | NoValue | NilPointer => 0
  | RowOf a => match json_marshal a with Ok _ => auditable_id a | Err _ => 0 end
  end.

Definition extractTargetID (primary fallback : snapshot) : Z :=
  let id := idFrom primary in if negb (id =? 0) then id else idFrom fallback.

Definition encodeSnapshot (v : snapshot) : string :=
  match v with
  | NoValue => ""
  | NilPointer => "null"
  | RowOf a =>
      match json_marshal a with
      | Ok b => b
      | Err err => "{" +:+ quoted "_marshal_error" +:+ ":" +:+ quoted err +:+ "}"
      end
  end.

Definition audit_row (rq : request) (id : Z) (action target : string) (before after : snapshot) : CustomAuditLog :=
  mkAuditLog id (currentUsername rq) action target (extractTargetID after before) (encodeSnapshot before)
    (encodeSnapshot after) (rq_ip rq) (rq_now rq).

(** A failure to write the row is only logged. *)
Definition Audit_Write (rq : request) (action target : string) (before after : snapshot) : api unit := λ s,
  match api_stmt (λ s, (s <| ap_audit := ap_audit s ++ [audit_row rq (ap_nextid s) action target before after] |>
                          <| ap_nextid := ap_nextid s + 1 |>, Data tt)) s with
  | (s, _) => (s, Data tt)
  end.

(** ** Rules of the three kinds *)

(** What the handlers of one kind of rule use: its table, the checks of a request (which may
    fill in defaults), the row it asks for, the row as it is stored, without the fields that
    have no column, as it is read, if its columns can be scanned, and as it is shown, with the
    fields without a column decoded. *)
Record resource (A Req : Type) := mkResource {
  rs_table : api_db → gmap Z A;
  rs_with_table : gmap Z A → api_db → api_db;
  rs_validate : Req → result Req;
  rs_toModel : Req → Z → string → A;
  rs_with_id : Z → A → A;
  rs_created_as : A → A → A;
  rs_stored : A → A;
  rs_scan : A → result A;
  rs_hydrate : A → A;
  rs_target : string;
  rs_audit : A → auditable
}.

Section crud.
Context {A Req : Type} (rs : resource A Req).

Definition get_by_id (id : Z) : api A := api_query (λ s,
  match rs_table _ _ rs s !! id with
  | None => Failed record_not_found
  | Some row => found (rs_scan _ _ rs row)
  end).

Definition resource_get (rq : request) : api A :=
  id ← urlParamID rq; rule ← get_by_id id; mret (rs_hydrate _ _ rs rule).

Definition resource_create (rq : request) (req : Req) : api A :=
  match rs_validate _ _ rs req with
  | Err err => refuse err
  | Ok req =>
      let rule := rs_toModel _ _ rs req (rq_now rq) (currentUsername rq) in
      rule ← api_stmt (λ s,
        let rule := rs_with_id _ _ rs (ap_nextid s) rule in
        (rs_with_table _ _ rs (<[ap_nextid s := rs_stored _ _ rs rule]> (rs_table _ _ rs s))
           (s <| ap_nextid := ap_nextid s + 1 |>), Data rule));
      Audit_Write rq "create" (rs_target _ _ rs) NoValue (RowOf (rs_audit _ _ rs rule));;
      mret rule
  end.

Definition resource_update (rq : request) (req : Req) : api A :=
  id ← urlParamID rq;
  existing ← get_by_id id;
  match rs_validate _ _ rs req with
  | Err err => refuse err
  | Ok req =>
      let updated := rs_created_as _ _ rs existing (rs_with_id _ _ rs id (rs_toModel _ _ rs req (rq_now rq) (currentUsername rq))) in
      api_stmt (λ s, (rs_with_table _ _ rs (<[id := rs_stored _ _ rs updated]> (rs_table _ _ rs s)) s, Data tt));;
      Audit_Write rq "update" (rs_target _ _ rs) (RowOf (rs_audit _ _ rs existing)) (RowOf (rs_audit _ _ rs updated));;
      mret (rs_hydrate _ _ rs updated)
  end.

Definition resource_delete (rq : request) : api Z :=
  id ← urlParamID rq;
  existing ← get_by_id id;
  api_stmt (λ s, (rs_with_table _ _ rs (delete id (rs_table _ _ rs s)) s, Data tt));;
  Audit_Write rq "delete" (rs_target _ _ rs) (RowOf (rs_audit _ _ rs existing)) NoValue;;
  mret id.

End crud.

(** A list with its length; a page of a list. *)
Definition list_resp {A} (l : list A) : list A * Z := (l, Z.of_nat (length l)).
Record page (A : Type) := mkPage { pg_List : list A; pg_Total : Z; pg_Limit : Z; pg_Offset : Z }.

(** The rows of a query, counted and paged by two statements. *)
Definition paged {A} (limit offset : Z) (id : A → Z) (sel : api_db → list A) : api (page A) :=
  total ← api_query (λ s, Data (Z.of_nat (length (sel s))));
  l ← api_query (λ s, Data (take (Z.to_nat limit) (drop (Z.to_nat offset) (order_by (λ a b, id b <=? id a) (sel s)))));
  mret (mkPage _ l total limit offset).

(** *** Aggregate rules: aggregate_rule.go *)

Record aggregateRuleWriteReq := mkAggregateReq {
  aq_GroupId : Z; aq_Name : string; aq_Note : string; aq_Dimensions : list string; aq_WindowSec : Z; aq_Filters : string;
  aq_DatasourceIds : list Z; aq_Severities : list Z; aq_StormThreshold : Z; aq_StormWindowSec : Z; aq_Disabled : Z; aq_Priority : Z
}.
#[global] Instance aggregateRuleWriteReq_eta : Settable aggregateRuleWriteReq := λ r,
  mkAggregateReq (aq_GroupId r) (aq_Name r) (aq_Note r) (aq_Dimensions r) (aq_WindowSec r) (aq_Filters r)
    (aq_DatasourceIds r) (aq_Severities r) (aq_StormThreshold r) (aq_StormWindowSec r) (aq_Disabled r) (aq_Priority r).

Definition aggregateRule_validate (req : aggregateRuleWriteReq) : result aggregateRuleWriteReq :=
  if String.eqb (aq_Name req) "" then Err "name is required"
  else if (length (aq_Dimensions req) =? 0)%nat then Err "dimensions must contain at least one label key"
  else
    let req := if aq_WindowSec req <=? 0 then req <| aq_WindowSec := 300 |> else req in
    let req := if aq_StormWindowSec req <=? 0 then req <| aq_StormWindowSec := 60 |> else req in
    Ok req.

Definition aggregateRule_toModel (req : aggregateRuleWriteReq) (now : Z) (username : string) : CustomAggregateRule :=
  let filters := if String.eqb (aq_Filters req) "" then "[]" else aq_Filters req in
  mkAggregateRule 0 (aq_GroupId req) (aq_Name req) (aq_Note req) (encodeJSONList (aq_Dimensions req)) (aq_WindowSec req) filters
    (encodeJSONList (aq_DatasourceIds req)) (aq_DatasourceIds req) (aq_StormThreshold req) (aq_StormWindowSec req)
    (encodeJSONList (aq_Severities req)) (aq_Severities req) (aq_Disabled req) (aq_Priority req) username username now now.

Definition hydrateAggregateRule (rule : CustomAggregateRule) : CustomAggregateRule :=
  rule <| ar_DatasourceIdsJson := decodeJSONInt64List (ar_DatasourceIds rule) |>
       <| ar_SeveritiesJson := decodeJSONIntList (ar_Severities rule) |>.

Definition aggregate_resource : resource CustomAggregateRule aggregateRuleWriteReq := {|
  rs_table := ap_aggregate;
  rs_with_table t s := s <| ap_aggregate := t |>;
  rs_validate := aggregateRule_validate;
  rs_toModel := aggregateRule_toModel;
  rs_with_id id r := r <| ar_Id := id |>;
  rs_created_as old r := r <| ar_CreateBy := ar_CreateBy old |> <| ar_CreateAt := ar_CreateAt old |>;
  rs_stored r := r <| ar_DatasourceIdsJson := [] |> <| ar_SeveritiesJson := [] |>;
  rs_scan := scan_aggregate;
  rs_hydrate := hydrateAggregateRule;
  rs_target := "aggregate_rule";
  rs_audit := AuditAggregate
|}.

Definition aggregateRuleList : api (list CustomAggregateRule * Z) :=
  rules ← api_query (λ s, found (Find scan_aggregate (order_by (λ a b, (ar_Priority b <? ar_Priority a) ||
                                      ((ar_Priority a =? ar_Priority b) && (ar_Id a <=? ar_Id b))) (rows (ap_aggregate s)))));
  mret (list_resp (map hydrateAggregateRule rules)).
Definition aggregateRuleGet := resource_get aggregate_resource.
Definition aggregateRuleCreate := resource_create aggregate_resource.
Definition aggregateRuleUpdate := resource_update aggregate_resource.
Definition aggregateRuleDelete := resource_delete aggregate_resource.

(** *** Inhibit rules: inhibit_rule.go *)

Record inhibitRuleWriteReq := mkInhibitReq {
  iq_GroupId : Z; iq_Name : string; iq_Note : string; iq_SourceMatch : string; iq_TargetMatch : string;
  iq_EqualLabels : list string; iq_DatasourceIds : list Z; iq_Disabled : Z
}.

Definition isValidJSONArray (s : string) : bool :=
  if String.eqb s "" then false else match raw_array s with None => true | Some _ => false end.

Definition inhibitRule_validate (req : inhibitRuleWriteReq) : result inhibitRuleWriteReq :=
  if String.eqb (iq_Name req) "" then Err "name is required"
  else if negb (isValidJSONArray (iq_SourceMatch req))
  then Err ("source_match must be a JSON array, got " +:+ quoted (iq_SourceMatch req))
  else if negb (isValidJSONArray (iq_TargetMatch req))
  then Err ("target_match must be a JSON array, got " +:+ quoted (iq_TargetMatch req))
  else Ok req.

Definition inhibitRule_toModel (req : inhibitRuleWriteReq) (now : Z) (username : string) : CustomInhibitRule :=
  mkInhibitRule 0 (iq_GroupId req) (iq_Name req) (iq_Note req) (iq_SourceMatch req) (iq_TargetMatch req)
    (encodeJSONList (iq_EqualLabels req)) (iq_EqualLabels req) (encodeJSONList (iq_DatasourceIds req)) (iq_DatasourceIds req)
    (iq_Disabled req) username username now now.

Definition hydrateInhibitRule (rule : CustomInhibitRule) : CustomInhibitRule :=
  rule <| ir_EqualLabelsJson := decodeJSONStringList (ir_EqualLabels rule) |>
       <| ir_DatasourceIdsJson := decodeJSONInt64List (ir_DatasourceIds rule) |>.

Definition inhibit_resource : resource CustomInhibitRule inhibitRuleWriteReq := {|
  rs_table := ap_inhibit;
  rs_with_table t s := s <| ap_inhibit := t |>;
  rs_validate := inhibitRule_validate;
  rs_toModel := inhibitRule_toModel;
  rs_with_id id r := r <| ir_Id := id |>;
  rs_created_as old r := r <| ir_CreateBy := ir_CreateBy old |> <| ir_CreateAt := ir_CreateAt old |>;
  rs_stored r := r <| ir_EqualLabelsJson := [] |> <| ir_DatasourceIdsJson := [] |>;
  rs_scan := scan_inhibit;
  rs_hydrate := hydrateInhibitRule;
  rs_target := "inhibit_rule";
  rs_audit := AuditInhibit
|}.

Definition inhibitRuleList : api (list CustomInhibitRule * Z) :=
  rules ← api_query (λ s, found (Find scan_inhibit (order_by (λ a b, ir_Id a <=? ir_Id b) (rows (ap_inhibit s)))));
  mret (list_resp (map hydrateInhibitRule rules)).
Definition inhibitRuleGet := resource_get inhibit_resource.
Definition inhibitRuleCreate := resource_create inhibit_resource.
Definition inhibitRuleUpdate := resource_update inhibit_resource.
Definition inhibitRuleDelete := resource_delete inhibit_resource.

(** *** Schedules of mutes: mute_cron.go *)

Context `{RobfigCron}.

Record muteCronWriteReq := mkMuteCronReq {
  mq_GroupId : Z; mq_Note : string; mq_CronExpr : string; mq_DurationSec : Z; mq_Timezone : string;
  mq_DatasourceIds : list Z; mq_Severities : list Z; mq_Tags : string; mq_Disabled : Z
}.

Definition muteCron_validate (req : muteCronWriteReq) : result muteCronWriteReq :=
  if String.eqb (mq_CronExpr req) "" then Err "cron_expr is required"
  else if mq_DurationSec req <=? 0 then Err "duration_sec must be > 0"
  else match CompileCron (mq_CronExpr req) (mq_Timezone req) (mq_DurationSec req) with
       | Err err => Err ("invalid cron config: " +:+ err)
       | Ok _ =>
           if negb (String.eqb (mq_Tags req) "") && negb (isValidJSONArray (mq_Tags req))
           then Err ("tags must be a JSON array, got " +:+ quoted (mq_Tags req))
           else Ok req
       end.

Definition muteCron_toModel (req : muteCronWriteReq) (now : Z) (username : string) : CustomMuteCron :=
  let tags := if String.eqb (mq_Tags req) "" then "[]" else mq_Tags req in
  mkMuteCron 0 (mq_GroupId req) (mq_Note req) (mq_CronExpr req) (mq_DurationSec req) (mq_Timezone req)
    (encodeJSONList (mq_DatasourceIds req)) (mq_DatasourceIds req) (encodeJSONList (mq_Severities req)) (mq_Severities req)
    tags (mq_Disabled req) username username now now.

Definition hydrateMuteCron (rule : CustomMuteCron) : CustomMuteCron :=
  rule <| mc_DatasourceIdsJson := decodeJSONInt64List (mc_DatasourceIds rule) |>
       <| mc_SeveritiesJson := decodeJSONIntList (mc_Severities rule) |>.

Definition cron_resource : resource CustomMuteCron muteCronWriteReq := {|
  rs_table := ap_cron;
  rs_with_table t s := s <| ap_cron := t |>;
  rs_validate := muteCron_validate;
  rs_toModel := muteCron_toModel;
  rs_with_id id r := r <| mc_Id := id |>;
  rs_created_as old r := r <| mc_CreateBy := mc_CreateBy old |> <| mc_CreateAt := mc_CreateAt old |>;
  rs_stored r := r <| mc_DatasourceIdsJson := [] |> <| mc_SeveritiesJson := [] |>;
  rs_scan := scan_cron;
  rs_hydrate := hydrateMuteCron;
  rs_target := "mute_cron";
  rs_audit := AuditCron
|}.

Definition muteCronList : api (list CustomMuteCron * Z) :=
  rules ← api_query (λ s, found (Find scan_cron (order_by (λ a b, mc_Id a <=? mc_Id b) (rows (ap_cron s)))));
  mret (list_resp (map hydrateMuteCron rules)).
Definition muteCronGet := resource_get cron_resource.
Definition muteCronCreate := resource_create cron_resource.
Definition muteCronUpdate := resource_update cron_resource.
Definition muteCronDelete := resource_delete cron_resource.

(** *** The emergency switch: emergency_mute.go *)

Definition EmergencyMuteSingletonID : Z := 1.

(** No row is nil, without an error. *)
Definition getEmergencyMute : api (option CustomEmergencyMute) := api_query (λ s, Data (ap_emergency s)).

Definition hydrateEmergencyMute (row : CustomEmergencyMute) : CustomEmergencyMute :=
  row <| em_DatasourceIdsJson := decodeJSONInt64List (em_DatasourceIds row) |>
      <| em_GroupIdsJson := decodeJSONInt64List (em_GroupIds row) |>.

Definition emergencyMuteGet : api CustomEmergencyMute :=
  row ← getEmergencyMute;
  mret match row with
       | None => mkEmergencyMute EmergencyMuteSingletonID 0 "" 0 "" [] "" [] "" "" 0 0
       | Some row => hydrateEmergencyMute row
       end.

Record emergencyMutePutReq := mkEmergencyReq {
  eq_Enabled : Z; eq_Reason : string; eq_ExpireAt : Z; eq_DatasourceIds : list Z; eq_GroupIds : list Z
}.

Definition emergencyMute_validate (req : emergencyMutePutReq) (now : Z) : result unit :=
  if eq_Enabled req =? 0 then Ok tt
  else if String.eqb (eq_Reason req) "" then Err "reason is required when enabling emergency mute"
  else if negb (eq_ExpireAt req =? 0) && (eq_ExpireAt req <=? now)
  then Err ("expire_at must be 0 (no expiry) or a future timestamp (got " +:+ itoa (eq_ExpireAt req) +:+ ", now=" +:+ itoa now +:+ ")")
  else Ok tt.

Definition emergency_row (rq : request) (req : emergencyMutePutReq) (existing : option CustomEmergencyMute) : CustomEmergencyMute :=
  let user := currentUsername rq in
  mkEmergencyMute EmergencyMuteSingletonID (eq_Enabled req) (eq_Reason req) (eq_ExpireAt req)
    (encodeJSONList (eq_DatasourceIds req)) (eq_DatasourceIds req) (encodeJSONList (eq_GroupIds req)) (eq_GroupIds req)
    (match existing with Some e => em_CreateBy e | None => user end) user
    (match existing with Some e => em_CreateAt e | None => rq_now rq end) (rq_now rq).

Definition stored_emergency (row : CustomEmergencyMute) : CustomEmergencyMute :=
  row <| em_DatasourceIdsJson := [] |> <| em_GroupIdsJson := [] |>.

(** [existing] is a nil pointer when there was no row. *)
Definition emergencyMutePut (rq : request) (req : emergencyMutePutReq) : api CustomEmergencyMute :=
  match emergencyMute_validate req (rq_now rq) with
  | Err err => refuse err
  | Ok _ =>
      existing ← getEmergencyMute;
      let row := emergency_row rq req existing in
      api_stmt (λ s, (s <| ap_emergency := Some (stored_emergency row) |>, Data tt));;
      Audit_Write rq "put" "emergency_mute"
        (match existing with Some e => RowOf (AuditEmergency e) | None => NilPointer end) (RowOf (AuditEmergency row));;
      mret (hydrateEmergencyMute row)
  end.

(** *** Incidents: incident.go *)

Definition incidentList (rq : request) : api (page CustomIncident) :=
  let limit := parseQueryIntDefault rq "limit" 50 500 in
  let offset := parseQueryIntDefault rq "offset" 0 (2 ^ 31) in
  let statusStr := Query rq "status" in
  let ruleIDStr := Query rq "rule_id" in
  let by_rule inc := match parse_int ruleIDStr with Some rid => if 0 <? rid then ci_RuleId inc =? rid else true | None => true end in
  let list_with by_status := paged limit offset ci_Id (λ s, List.filter (λ inc, by_status inc && by_rule inc) (rows (ap_incidents s))) in
  if String.eqb statusStr "" then list_with (λ _, true)
  else match parse_int statusStr with
       | Some st => if (0 <=? st) && (st <=? 2) then list_with (λ inc, ci_Status inc =? st)
                    else refuse ("invalid status " +:+ quoted statusStr)
       | None => refuse ("invalid status " +:+ quoted statusStr)
       end.

Definition incidentGet (rq : request) : api (CustomIncident * list CustomIncidentEvent) :=
  id ← urlParamID rq;
  incident ← api_query (λ s, first_row (ap_incidents s !! id));
  events ← api_query (λ s, Data (take 100 (order_by (λ a b, (ie_MergedAt b <? ie_MergedAt a) ||
             ((ie_MergedAt a =? ie_MergedAt b) && (ie_Id b <=? ie_Id a))) (List.filter (λ l, ie_IncidentId l =? id) (ap_links s)))));
  mret (incident, events).

Definition blank_incident : CustomIncident := mkIncident 0 0 "" 0 0 "" 0 "" "" "" 0 0 0 0 0 0 0.

(** Whether the ORM writes the new values into the struct that [Updates] is called on as
    well; the struct is the snapshot before the change. *)
Context (updates_write_back : bool).

Definition incidentClose (rq : request) : api CustomIncident :=
  id ← urlParamID rq;
  existing ← api_query (λ s, first_row (ap_incidents s !! id));
  if ci_Status existing =? IncidentStatusClosed then mret existing
  else
    api_stmt (λ s, (s <| ap_incidents := alter (closed_row (rq_now rq)) id (ap_incidents s) |>, Data tt));;
    let before := if updates_write_back then closed_row (rq_now rq) existing else existing in
    Audit_Write rq "close" "incident" (RowOf (AuditIncident before))
      (RowOf (AuditIncident (blank_incident <| ci_Id := ci_Id existing |> <| ci_Status := IncidentStatusClosed |> <| ci_ClosedAt := rq_now rq |>)));;
    mret (closed_row (rq_now rq) existing).

(** *** Lists of the audit log and of suppressed events: audit_query.go, suppressed_event.go *)

(** A text parameter selects rows when it is given; a number, when it can be read and [ok]. *)
Definition sel_text (v value : string) : bool := String.eqb v "" || String.eqb value v.
Definition sel_num (v : string) (ok : Z → bool) (test : Z → bool) : bool :=
  if String.eqb v "" then true
  else match parse_int v with Some n => if ok n then test n else true | None => true end.

Definition auditLogList (rq : request) : api (page CustomAuditLog) :=
  let limit := parseQueryIntDefault rq "limit" 50 500 in
  let offset := parseQueryIntDefault rq "offset" 0 (2 ^ 31) in
  paged limit offset al_Id (λ s, List.filter (λ r,
    sel_text (Query rq "target") (al_Target r) && sel_text (Query rq "action") (al_Action r) &&
    sel_text (Query rq "username") (al_Username r) &&
    sel_num (Query rq "target_id") (λ _, true) (λ id, al_TargetId r =? id) &&
    sel_num (Query rq "since") (λ ts, 0 <? ts) (λ ts, ts <=? al_CreatedAt r)) (ap_audit s)).

Definition suppressedEventList (rq : request) : api (page CustomSuppressedEvent) :=
  let limit := parseQueryIntDefault rq "limit" 50 500 in
  let offset := parseQueryIntDefault rq "offset" 0 (2 ^ 31) in
  paged limit offset se_Id (λ s, List.filter (λ r,
    sel_num (Query rq "rule_id") (λ id, 0 <? id) (λ id, se_RuleId r =? id) &&
    sel_text (Query rq "source_hash") (se_SourceEventHash r) && sel_text (Query rq "target_hash") (se_TargetEventHash r) &&
    sel_num (Query rq "since") (λ ts, 0 <? ts) (λ ts, ts <=? se_SuppressedAt r)) (ap_suppressed s)).

(** *** The trial run of an event: inhibit_tryrun.go *)

Record inhibitTryRunReq := mkTryRunReq {
  tq_Hash : string; tq_RuleName : string; tq_Severity : Z; tq_Tags : string; tq_TagsMap : gmap string string;
  tq_GroupId : Z; tq_Datasrc : Z
}.

Definition tryrun_event (req : inhibitTryRunReq) : AlertCurEvent :=
  Event.zero <| Event.Hash := tq_Hash req |> <| Event.RuleName := tq_RuleName req |> <| Event.Severity := tq_Severity req |>
    <| Event.Tags := tq_Tags req |> <| Event.TagsMap := tq_TagsMap req |> <| Event.GroupId := tq_GroupId req |>
    <| Event.DatasourceId := tq_Datasrc req |>.

(** What the hook that is installed reads besides its own state: the mutes and the inhibit
    rules that the refreshers hold, and the clock, in nanoseconds. *)
Record hook_inputs := mkHookInputs { hi_mutes : Evaluator; hi_rules : list CompiledRule; hi_now : Z }.

Context `{Regexp, GoRange}.

(** The event goes through the hook that is installed, the one of the alerts, with its state:
    it is registered as a cause, and handed to the record if it is suppressed. *)
Definition inhibitTryRun (hi : hook_inputs) (req : inhibitTryRunReq) : api bool := λ s,
  let '(h, muted) := InstalledHook (hi_mutes hi) (hi_rules hi) (Some (tryrun_event req)) (hi_now hi) (ap_hook s) in
  (s <| ap_hook := h |>, Data muted).

(** ** Routes: router.go *)

Inductive call :=
| AggregateRules | AggregateRule | AggregateCreate (req : aggregateRuleWriteReq) | AggregateUpdate (req : aggregateRuleWriteReq) | AggregateDelete
| InhibitRules | InhibitRule | InhibitCreate (req : inhibitRuleWriteReq) | InhibitUpdate (req : inhibitRuleWriteReq) | InhibitDelete
| MuteCrons | MuteCron | MuteCronCreate (req : muteCronWriteReq) | MuteCronUpdate (req : muteCronWriteReq) | MuteCronDelete
| EmergencyGet | EmergencyPut (req : emergencyMutePutReq)
| Incidents | Incident | IncidentClose | AuditLogs | SuppressedEvents
| InhibitTryRun (req : inhibitTryRunReq).

(** The handler of a route; the data it answers with is left out. *)
Definition Config (hi : hook_inputs) (c : call) (rq : request) : api unit :=
  let read {A} (m : api A) : api unit := m;; mret tt in
  let write {A} (m : api A) : api unit := requireAdmin rq;; m;; mret tt in
  match c with
  | AggregateRules => read aggregateRuleList
  | AggregateRule => read (aggregateRuleGet rq)
  | AggregateCreate req => write (aggregateRuleCreate rq req)
  | AggregateUpdate req => write (aggregateRuleUpdate rq req)
  | AggregateDelete => write (aggregateRuleDelete rq)
  | InhibitRules => read inhibitRuleList
  | InhibitRule => read (inhibitRuleGet rq)
  | InhibitCreate req => write (inhibitRuleCreate rq req)
  | InhibitUpdate req => write (inhibitRuleUpdate rq req)
  | InhibitDelete => write (inhibitRuleDelete rq)
  | MuteCrons => read muteCronList
  | MuteCron => read (muteCronGet rq)
  | MuteCronCreate req => write (muteCronCreate rq req)
  | MuteCronUpdate req => write (muteCronUpdate rq req)
  | MuteCronDelete => write (muteCronDelete rq)
  | EmergencyGet => read emergencyMuteGet
  | EmergencyPut req => write (emergencyMutePut rq req)
  | Incidents => read (incidentList rq)
  | Incident => read (incidentGet rq)
  | IncidentClose => write (incidentClose rq)
  | AuditLogs => read (auditLogList rq)
  | SuppressedEvents => read (suppressedEventList rq)
  | InhibitTryRun req => write (inhibitTryRun hi req)
  end.
End helpers.
