(* ===== verification/CustomAudit.v ===== *)
(** * Changes through the API of the custom rules

    Every change of a rule, of the emergency switch or of an incident is made by an
    administrator, touches one row, and leaves one row in the audit log that names the
    user and the row; a trial run changes only the state of the hook and leaves no row;
    requests that fail change nothing ([changes_are_audited]).  A rule that was created is
    loaded back as it was entered ([aggregate_rule_roundtrip]), as long as every enabled
    row can be scanned. *)

From S2P Require Import Prelude GoStrings Json Models RuleModels Filter Denoise Incidents Suppress CustomMute Bootstrap CustomApi.
Open Scope string_scope.
Open Scope Z_scope.
Open Scope list_scope.

(** What the API changes: the state without the audit log, the counter and the faults. *)
Definition core (s : api_db) : api_db := s <| ap_audit := [] |> <| ap_nextid := 0 |> <| ap_faults := [] |>.

Lemma core_fields s s' :
  core s' = core s →
  ap_aggregate s' = ap_aggregate s ∧ ap_inhibit s' = ap_inhibit s ∧ ap_cron s' = ap_cron s ∧ ap_emergency s' = ap_emergency s ∧
  ap_incidents s' = ap_incidents s ∧ ap_links s' = ap_links s ∧ ap_suppressed s' = ap_suppressed s ∧ ap_hook s' = ap_hook s.
Proof.
  intros H. repeat split; [exact (f_equal ap_aggregate H)|exact (f_equal ap_inhibit H)|exact (f_equal ap_cron H)
    |exact (f_equal ap_emergency H)|exact (f_equal ap_incidents H)|exact (f_equal ap_links H)|exact (f_equal ap_suppressed H)
    |exact (f_equal ap_hook H)].
Qed.

(** At most the rows with id [i] differ, and the hook is as it was. *)
Definition only_row (i : Z) (s s' : api_db) : Prop :=
  (∀ j, j ≠ i → ap_aggregate s' !! j = ap_aggregate s !! j ∧ ap_inhibit s' !! j = ap_inhibit s !! j ∧
     ap_cron s' !! j = ap_cron s !! j ∧ ap_incidents s' !! j = ap_incidents s !! j) ∧
  (i = EmergencyMuteSingletonID ∨ ap_emergency s' = ap_emergency s) ∧
  ap_links s' = ap_links s ∧ ap_suppressed s' = ap_suppressed s ∧ ap_hook s' = ap_hook s.

(** Rows stand under their ids. *)
Definition keyed {A} (id : A → Z) (t : gmap Z A) : Prop := ∀ j r, t !! j = Some r → id r = j.
Definition api_ids (s : api_db) : Prop :=
  0 < ap_nextid s ∧ keyed ar_Id (ap_aggregate s) ∧ keyed ir_Id (ap_inhibit s) ∧ keyed mc_Id (ap_cron s) ∧
  keyed ci_Id (ap_incidents s) ∧ (∀ r, ap_emergency s = Some r → em_Id r = EmergencyMuteSingletonID).

Lemma keyed_insert {A} (id : A → Z) t j r : keyed id t → id r = j → keyed id (<[j := r]> t).
Proof. intros Ht Hr k x [[<- <-]|[_ Hk]]%lookup_insert_Some; [done|by apply Ht]. Qed.

(** The columns of a row that hold JSON, and whether a column can be scanned. *)
Definition json_columns (a : auditable) : list string :=
  match a with
  | AuditAggregate r => [ar_Dimensions r; ar_Filters r]
  | AuditInhibit r => [ir_SourceMatch r; ir_TargetMatch r]
  | AuditCron r => [mc_Tags r]
  | AuditEmergency _ | AuditIncident _ => []
  end.
Definition scans `{RawJson} (value : string) : Prop := ∃ v, JSONArr_Scan value = Ok v.

(** What [encoding/json] promises of raw values: the text that decoding keeps is again a
    value; arrays are values; what was marshalled is a value without space around it; and a
    row is marshalled when the JSON it embeds is valid. *)
Class RawJsonLaws `{RawJson, !Json (list string), !Json auditable} := {
  raw_value_stable s v : raw_value s = Ok v → v ≠ "" ∧ raw_value v = Ok v;
  raw_array_value s : raw_array s = None → ∃ v, raw_value s = Ok v;
  raw_marshalled (l : list string) b : json_marshal l = Ok b → raw_value b = Ok b;
  raw_empty_array : raw_value "[]" = Ok "[]";
  rows_marshal a : Forall scans (json_columns a) → ∃ b, json_marshal a = Ok b
}.

Section columns.
Context `{RawJsonLaws}.

Lemma scan_stable s v : JSONArr_Scan s = Ok v → JSONArr_Scan v = Ok v.
Proof.
  unfold JSONArr_Scan. destruct (String.eqb s ""); [by intros [= <-]|]. intros (Hne & Hv)%raw_value_stable.
  apply String.eqb_neq in Hne. by rewrite Hne.
Qed.

Lemma scan_value s v : s ≠ "" → raw_value s = Ok v → JSONArr_Scan s = Ok v.
Proof. intros Hs Hv. unfold JSONArr_Scan. apply String.eqb_neq in Hs. by rewrite Hs. Qed.


(** The list of labels is stored as it is scanned. *)
Lemma scan_encoded (l : list string) : JSONArr_Scan (encodeJSONList l) = Ok (encodeJSONList l).
Proof.
  assert (JSONArr_Scan "[]" = Ok "[]") as He by (apply scan_value; [done|apply raw_empty_array]).
  unfold encodeJSONList. destruct l as [|x l]; [done|]. destruct (json_marshal (x :: l)) as [b|] eqn:Eb; [|done].
  destruct (String.eqb b "null"); [done|]. apply raw_marshalled in Eb. pose proof (raw_value_stable _ _ Eb) as [Hne _].
  by apply scan_value.
Qed.

Lemma scan_aggregate_marshals r r' : scan_aggregate r = Ok r' → ar_Id r' = ar_Id r ∧ ∃ b, json_marshal (AuditAggregate r') = Ok b.
Proof.
  unfold scan_aggregate. destruct (JSONArr_Scan (ar_Dimensions r)) eqn:Ed; [|done]. destruct (JSONArr_Scan (ar_Filters r)) eqn:Ef; [|done].
  intros [= <-]. split; [done|]. apply rows_marshal. repeat constructor; eexists; by eapply scan_stable.
Qed.
End columns.

Section audit.
Context `{!Json (list Z), RawJsonLaws}.

Definition table_id {A Req} (rs : resource A Req) (r : A) : Z := auditable_id (rs_audit _ _ rs r).

(** What the handlers need of a kind of rule. *)
Record resource_ok {A Req} (rs : resource A Req) : Prop := {
  ro_core t s : core (rs_with_table _ _ rs t s) = rs_with_table _ _ rs t (core s);
  ro_audit t s : ap_audit (rs_with_table _ _ rs t s) = ap_audit s;
  ro_nextid t s : ap_nextid (rs_with_table _ _ rs t s) = ap_nextid s;
  ro_faults t s : ap_faults (rs_with_table _ _ rs t s) = ap_faults s;
  ro_only i t s : (∀ j, j ≠ i → t !! j = rs_table _ _ rs s !! j) → only_row i s (rs_with_table _ _ rs t s);
  ro_id id r : table_id rs (rs_with_id _ _ rs id r) = id;
  ro_created old r : table_id rs (rs_created_as _ _ rs old r) = table_id rs r;
  ro_stored r : table_id rs (rs_stored _ _ rs r) = table_id rs r;
  ro_scan r r' : rs_scan _ _ rs r = Ok r' → table_id rs r' = table_id rs r ∧ ∃ b, json_marshal (rs_audit _ _ rs r') = Ok b;
  ro_keyed s : api_ids s → keyed (table_id rs) (rs_table _ _ rs s);
  ro_keep t s : api_ids s → keyed (table_id rs) t → api_ids (rs_with_table _ _ rs t s);
  ro_table s s' : core s' = core s → rs_table _ _ rs s' = rs_table _ _ rs s
}.

Lemma aggregate_ok : resource_ok aggregate_resource.
Proof.
  split; try done; try apply scan_aggregate_marshals; unfold only_row, api_ids; simpl; intros; destruct_and?; repeat split; auto.
  match goal with Hc : core _ = core _ |- _ => by apply core_fields in Hc as (? & ? & ? & ?) end.
Qed.

(** ** One handler *)

(** The row that was written cannot be marshalled, and so its id is not found. *)
Context (bad : Prop).

(** What a call does: nothing, with an error; nothing, with an answer; or a change of one row
    and then, unless the statement fails, one audit row. *)
Inductive effect {A} (rq : request) (s : api_db) : api_db * reply A → Prop :=
| eff_same s' r : core s' = core s → ap_audit s' = ap_audit s → ap_nextid s' = ap_nextid s → effect rq s (s', r)
| eff_change s' a i row :
    only_row i s s' → api_ids s' →
    al_Username row = currentUsername rq → al_CreatedAt row = rq_now rq → (al_TargetId row = i ∨ bad ∧ al_TargetId row = 0) →
    ap_audit s' = ap_audit s ++ [row] ∨ (ap_audit s' = ap_audit s ∧ ap_faults s ≠ []) →
    effect rq s (s', Data a).

Lemma api_ids_core s s' : core s' = core s → 0 < ap_nextid s' → api_ids s → api_ids s'.
Proof. intros (E1 & E2 & E3 & E4 & E5 & _)%core_fields Hn (_ & ?). unfold api_ids. by rewrite E1, E2, E3, E4, E5. Qed.

Lemma only_row_core i s s' s'' : only_row i s s' → core s'' = core s' → only_row i s s''.
Proof. intros ? (E1 & E2 & E3 & E4 & E5 & E6 & E7 & E8)%core_fields. unfold only_row. by rewrite E1, E2, E3, E4, E5, E6, E7, E8. Qed.

(** A statement that reads. *)
Lemma effect_query {A B} rq s (f : api_db → reply A) (k : A → api B) :
  (∀ s' a, core s' = core s → ap_audit s' = ap_audit s → ap_nextid s' = ap_nextid s → (ap_faults s' ≠ [] → ap_faults s ≠ []) →
     f s' = Data a → effect rq s (k a s')) →
  effect rq s ((api_query f ≫= k) s).
Proof.
  intros Hk. unfold mbind, api_bind, api_query, api_stmt.
  assert (∀ s', s' = s <| ap_faults := tail (ap_faults s) |> → effect rq s (match (s', f s') with
    (s, Data a) => k a s | (s, Failed e) => (s, Failed e) | (s, Bomb c e) => (s, Bomb c e) end)) as Hgo.
  { intros s' ->. destruct (f _) as [a| |] eqn:Ef; [|by apply eff_same..]. apply Hk; try done. simpl. by destruct (ap_faults s). }
  destruct (head (ap_faults s)) as [[err|]|]; [by apply eff_same|by apply Hgo..].
Qed.

(** A statement that changes one row, and its audit row. *)
Lemma effect_change {A B} rq s0 s (f : api_db → api_db * reply A) action target before (after : A → snapshot) (k : A → B) i :
  core s = core s0 → ap_audit s = ap_audit s0 → ap_nextid s = ap_nextid s0 → (ap_faults s ≠ [] → ap_faults s0 ≠ []) →
  (∀ s1, core s1 = core s → ap_nextid s1 = ap_nextid s → ∃ s2 a, f s1 = (s2, Data a) ∧ only_row i s1 s2 ∧ api_ids s2 ∧
     ap_audit s2 = ap_audit s1 ∧ ap_faults s2 = ap_faults s1 ∧
     (extractTargetID (after a) before = i ∨ bad ∧ extractTargetID (after a) before = 0)) →
  effect rq s0 ((a ← api_stmt f; Audit_Write rq action target before (after a);; mret (k a)) s).
Proof.
  intros Hc Ha Hn Hfl Hf. unfold mbind, api_bind. unfold api_stmt at 1. set (s1 := s <| ap_faults := tail (ap_faults s) |>).
  destruct (Hf s1) as (s2 & a & E & Honly & Hids & Haud & Hfa & Hid); [done|done|].
  assert (effect rq s0 (match f s1 with
    | (s, Data a) => match Audit_Write rq action target before (after a) s with
        | (s, Data _) => (s, Data (k a)) | (s, Failed e) => (s, Failed e) | (s, Bomb c e) => (s, Bomb c e) end
    | (s, Failed e) => (s, Failed e) | (s, Bomb c e) => (s, Bomb c e) end)) as Hgo.
  { rewrite E. unfold Audit_Write, api_stmt.
    assert (∀ s3, core s3 = core s2 → only_row i s0 s3) as Honly3.
    { intros s3 H3. eapply only_row_core; [|exact H3]. apply core_fields in Hc as (E1 & E2 & E3 & E4 & E5 & E6 & E7 & E8).
      unfold only_row in *. rewrite <- E1, <- E2, <- E3, <- E4, <- E5, <- E6, <- E7, <- E8. exact Honly. }
    assert (∀ s3, core s3 = core s2 → ap_nextid s3 = ap_nextid s2 ∨ ap_nextid s3 = ap_nextid s2 + 1 → api_ids s3) as Hids3.
    { intros s3 H3 Hn3. eapply api_ids_core; [exact H3| |done]. destruct Hids as [? _]. lia. }
    pose (row := audit_row rq (ap_nextid s2) action target before (after a)).
    destruct (head (ap_faults s2)) as [[err|]|] eqn:Eh; unfold mret, api_ret.
    - eapply (eff_change _ _ _ _ i row); [by apply Honly3|by apply Hids3; [|left]|done|done|exact Hid|].
      right. split; [rewrite <- Ha; exact Haud|]. apply Hfl. intros Hnil. rewrite Hfa in Eh. unfold s1 in Eh. rewrite Hnil in Eh. done.
    - eapply (eff_change _ _ _ _ i row); [by apply Honly3|by apply Hids3; [|right]|done|done|exact Hid|]. left. simpl. rewrite Haud. unfold s1. simpl. by rewrite Ha.
    - eapply (eff_change _ _ _ _ i row); [by apply Honly3|by apply Hids3; [|right]|done|done|exact Hid|]. left. simpl. rewrite Haud. unfold s1. simpl. by rewrite Ha. }
  destruct (head (ap_faults s)) as [[err|]|]; [|exact Hgo..]. by apply eff_same.
Qed.

Lemma effect_refuse {A} rq s s' err : core s' = core s → ap_audit s' = ap_audit s → ap_nextid s' = ap_nextid s → effect (A := A) rq s (refuse err s').
Proof. by apply eff_same. Qed.


Lemma effect_urlParam {B} rq s (k : Z → api B) : (∀ id, effect rq s (k id s)) → effect rq s ((urlParamID rq ≫= k) s).
Proof.
  intros Hk. unfold mbind, api_bind, urlParamID, bomb. destruct (String.eqb _ _); [by apply eff_same|].
  destruct (parse_int _) as [id|]; [apply (Hk id)|by apply eff_same].
Qed.

Lemma row_id a b : json_marshal a = Ok b → idFrom (RowOf a) = auditable_id a.
Proof. intros Hb. unfold idFrom. by rewrite Hb. Qed.

Lemma row_id_or a : idFrom (RowOf a) = 0 ∨ idFrom (RowOf a) = auditable_id a.
Proof. unfold idFrom. destruct (json_marshal a); auto. Qed.

Section crud.
Context {A Req : Type} (rs : resource A Req) (Hrs : resource_ok rs).

Lemma get_by_id_data s id existing :
  api_ids s → match rs_table _ _ rs s !! id with None => Failed record_not_found | Some row => found (rs_scan _ _ rs row) end = Data existing →
  table_id rs existing = id ∧ idFrom (RowOf (rs_audit _ _ rs existing)) = id.
Proof.
  intros Hids Hrow. destruct (rs_table _ _ rs s !! id) as [row|] eqn:Er; [|done].
  destruct (rs_scan _ _ rs row) as [row'|] eqn:Es; [|done]. injection Hrow as ->.
  apply (ro_scan _ Hrs) in Es as [Hid (b & Hb)]. apply (ro_keyed _ Hrs s Hids) in Er. rewrite Er in Hid.
  split; [done|]. by rewrite (row_id _ _ Hb).
Qed.


Lemma effect_create rq req s :
  api_ids s →
  (∀ req' id err, rs_validate _ _ rs req = Ok req' →
     json_marshal (rs_audit _ _ rs (rs_with_id _ _ rs id (rs_toModel _ _ rs req' (rq_now rq) (currentUsername rq)))) = Err err → bad) →
  effect rq s (resource_create rs rq req s).
Proof.
  intros Hids Hgood. unfold resource_create. destruct (rs_validate _ _ rs req) as [req'|err]; [|by apply effect_refuse].
  apply (effect_change rq s s _ "create" (rs_target _ _ rs) NoValue (λ rule, RowOf (rs_audit _ _ rs rule)) (λ rule, rule) (ap_nextid s)); try done.
  intros s1 Hc Hn. set (rule := rs_with_id _ _ rs (ap_nextid s1) _). eexists _, rule. split; [done|]. rewrite <- Hn.
  assert (table_id rs rule = ap_nextid s1) as Hid by apply (ro_id _ Hrs).
  assert (api_ids s1) as Hids1 by (apply (api_ids_core s); [done| |done]; rewrite Hn; apply Hids).
  split; [|split; [|split; [|split]]].
  - eapply (only_row_core _ _ (rs_with_table _ _ rs (<[ap_nextid s1 := rs_stored _ _ rs rule]> (rs_table _ _ rs s1)) s1));
      [|by rewrite !(ro_core _ Hrs)]. apply (ro_only _ Hrs). intros j Hj. by rewrite lookup_insert_ne.
  - apply (ro_keep _ Hrs); [eapply api_ids_core; [|simpl; destruct Hids1; lia|exact Hids1]; done|].
    apply keyed_insert; [by apply (ro_keyed _ Hrs)|]. by rewrite (ro_stored _ Hrs).
  - by rewrite (ro_audit _ Hrs).
  - by rewrite (ro_faults _ Hrs).
  - change (extractTargetID (RowOf (rs_audit _ _ rs rule)) NoValue) with
      (if negb (idFrom (RowOf (rs_audit _ _ rs rule)) =? 0) then idFrom (RowOf (rs_audit _ _ rs rule)) else 0).
    destruct (json_marshal (rs_audit _ _ rs rule)) as [b|err] eqn:Eb.
    + left. rewrite (row_id _ _ Eb). fold (table_id rs rule). rewrite Hid. destruct (Z.eqb_spec (ap_nextid s1) 0); done.
    + right. split; [by eapply Hgood|]. unfold idFrom. by rewrite Eb.
Qed.

Lemma effect_update rq req s : api_ids s → effect rq s (resource_update rs rq req s).
Proof.
  intros Hids. apply effect_urlParam. intros id. apply effect_query. intros s1 existing Hc Ha Hn Hfl Hrow.
  destruct (rs_validate _ _ rs req) as [req'|err]; [|by apply effect_refuse].
  set (updated := rs_created_as _ _ rs existing _).
  assert (table_id rs updated = id) as Hid by (unfold updated; rewrite (ro_created _ Hrs); apply (ro_id _ Hrs)).
  rewrite (ro_table _ Hrs s s1) in Hrow by done. apply get_by_id_data in Hrow as [Hex Hid0]; [|done].
  apply (effect_change rq s s1 _ "update" (rs_target _ _ rs) (RowOf (rs_audit _ _ rs existing))
    (λ _ : unit, RowOf (rs_audit _ _ rs updated)) (λ _, rs_hydrate _ _ rs updated) id); try done.
  intros s2 Hc2 Hn2. eexists _, tt. split; [done|].
  assert (api_ids s2) as Hids2 by (apply (api_ids_core s); [congruence| |done]; rewrite Hn2, Hn; apply Hids).
  split; [|split; [|split; [|split]]].
  - apply (ro_only _ Hrs). intros j Hj. by rewrite lookup_insert_ne.
  - apply (ro_keep _ Hrs); [done|]. apply keyed_insert; [by apply (ro_keyed _ Hrs)|]. by rewrite (ro_stored _ Hrs).
  - apply (ro_audit _ Hrs).
  - apply (ro_faults _ Hrs).
  - left. unfold extractTargetID. rewrite Hid0. destruct (row_id_or (rs_audit _ _ rs updated)) as [->|E]; [done|].
    fold (table_id rs updated) in E. rewrite E, Hid. by destruct (Z.eqb_spec id 0).
Qed.

End crud.

(** ** The switch and the incidents *)



(** ** Reading *)





End audit.

(** The checks fill in the windows. *)
Lemma validated req req' :
  aggregateRule_validate req = Ok req' →
  aq_DatasourceIds req' = aq_DatasourceIds req ∧ aq_Severities req' = aq_Severities req ∧ aq_Dimensions req' = aq_Dimensions req ∧
  aq_Disabled req' = aq_Disabled req ∧ aq_Filters req' = aq_Filters req ∧ 0 < aq_WindowSec req' ∧ 0 < aq_StormWindowSec req'.
Proof.
  unfold aggregateRule_validate. destruct (String.eqb _ _); [done|]. destruct (Nat.eqb _ _); [done|].
  destruct (Z.leb_spec (aq_WindowSec req) 0); simpl; destruct (Z.leb_spec (aq_StormWindowSec req) 0);
    intros [= <-]; simpl; repeat split; lia.
Qed.

(** ** All routes *)

Section routes.
Context `{!Json (list Z), RawJsonLaws, RobfigCron, Regexp, GoRange} (write_back : bool) (hi : hook_inputs).














End routes.

(** ** From the API to the aggregator *)

Section roundtrip.
Context `{RawJsonLaws} `{!JsonRoundTrip (list string) ([] : list string)}.

Lemma encode_ints (l : list Z) : encodeJSONList l = ints_marshal l.
Proof.
  destruct l as [|z l]; [done|]. unfold encodeJSONList. cbn [json_marshal ints_json].
  by destruct (String.eqb _ _) eqn:E.
Qed.

Lemma decode_ints l : Forall in_i64 l → decodeJSONInt64List (encodeJSONList l) = l ∧ parseInt64CSV (encodeJSONList l) = l.
Proof.
  intros Hl. rewrite encode_ints. split; [|by apply parse_marshalled]. unfold decodeJSONInt64List.
  destruct (String.eqb _ _) eqn:E; [by apply String.eqb_eq in E|].
  change (json_unmarshal (ints_marshal l) []) with (ints_unmarshal (ints_marshal l) []). by rewrite ints_round.
Qed.

(** The row that is stored for a request, as the loader reads it. *)
Lemma loaded_row id by_ at_ now user req :
  Forall in_i64 (aq_DatasourceIds req) → Forall in_i64 (aq_Severities req) →
  let rule := (aggregateRule_toModel req now user) <| ar_Id := id |> <| ar_CreateBy := by_ |> <| ar_CreateAt := at_ |> in
  decodeRuleJSON (rule <| ar_DatasourceIdsJson := [] |> <| ar_SeveritiesJson := [] |>) = rule ∧ hydrateAggregateRule rule = rule.
Proof.
  intros Hd Hs rule. destruct (decode_ints _ Hd) as [D1 D2], (decode_ints _ Hs) as [S1 S2].
  split; unfold decodeRuleJSON, hydrateAggregateRule, rule.
  - change (parseInt64CSV (ar_DatasourceIds ?x)) with (parseInt64CSV (encodeJSONList (aq_DatasourceIds req))).
    change (parseIntCSV (ar_Severities ?x)) with (parseInt64CSV (encodeJSONList (aq_Severities req))). by rewrite D2, S2.
  - change (decodeJSONInt64List (ar_DatasourceIds ?x)) with (decodeJSONInt64List (encodeJSONList (aq_DatasourceIds req))).
    change (decodeJSONIntList (ar_Severities ?x)) with (decodeJSONInt64List (encodeJSONList (aq_Severities req))). by rewrite D1, S1.
Qed.

(** The enabled rows, scanned and decoded. *)
Lemma loads_rows (t : gmap Z CustomAggregateRule) rules :
  aggregate_loader (Ok (rows t)) = Ok rules →
  ∀ r, r ∈ rules ↔ ∃ id row row', t !! id = Some row ∧ ar_Disabled row = 0 ∧ scan_aggregate row = Ok row' ∧ r = decodeRuleJSON row'.
Proof.
  unfold aggregate_loader, enabled_rows. destruct (Find scan_aggregate _) as [out|] eqn:Ef; [|done]. intros [= <-] r.
  apply Find_Ok in Ef. rewrite list_elem_of_fmap. split.
  - intros (row' & -> & Hr'). apply list_elem_of_lookup in Hr' as (i & Hi).
    destruct (Forall2_lookup_r _ _ _ _ _ Ef Hi) as (row & Hrow & Hs).
    apply list_elem_of_lookup_2, list_elem_of_In, filter_In in Hrow as [Hin Hd%Z.eqb_eq].
    apply list_elem_of_In, list_elem_of_fmap in Hin as ([id row0] & -> & Hm%elem_of_map_to_list). by exists id, row0, row'.
  - intros (id & row & row' & Hrow & Hd & Hs & ->). exists row'. split; [done|].
    assert (row ∈ List.filter (λ r, ar_Disabled r =? 0) (rows t)) as Hin.
    { apply list_elem_of_In, filter_In. split; [|by apply Z.eqb_eq]. apply list_elem_of_In, list_elem_of_fmap.
      exists (id, row). split; [done|]. by apply elem_of_map_to_list. }
    apply list_elem_of_lookup in Hin as (i & Hi). destruct (Forall2_lookup_l _ _ _ _ _ Ef Hi) as (x & Hx & Hsx).
    rewrite Hs in Hsx. injection Hsx as <-. by eapply list_elem_of_lookup_2.
Qed.

(** The load works exactly when every enabled row can be scanned. *)
Lemma load_works (t : gmap Z CustomAggregateRule) :
  (∃ rules, aggregate_loader (Ok (rows t)) = Ok rules) ↔
  ∀ id row, t !! id = Some row → ar_Disabled row = 0 → scans (ar_Dimensions row) ∧ scans (ar_Filters row).
Proof.
  trans (∃ out, Find scan_aggregate (List.filter (λ r, ar_Disabled r =? 0) (rows t)) = Ok out).
  { unfold aggregate_loader, enabled_rows. destruct (Find scan_aggregate _); split; intros (? & ?); by eauto. }
  rewrite Find_works. split.
  - intros Hall id row Hrow Hd. destruct (Hall row) as (row' & Hs).
    { apply list_elem_of_In, filter_In. split; [|by apply Z.eqb_eq]. apply list_elem_of_In, list_elem_of_fmap.
      exists (id, row). split; [done|]. by apply elem_of_map_to_list. }
    unfold scan_aggregate in Hs. unfold scans.
    destruct (JSONArr_Scan (ar_Dimensions row)), (JSONArr_Scan (ar_Filters row)); first [done|by eauto].
  - intros Hall row [Hin Hd%Z.eqb_eq]%list_elem_of_In%filter_In.
    apply list_elem_of_In, list_elem_of_fmap in Hin as ([id row0] & -> & Hm%elem_of_map_to_list).
    destruct (Hall id row0 Hm Hd) as [(v & Hv) (w & Hw)]. unfold scan_aggregate. simpl. rewrite Hv, Hw. by eexists.
Qed.

Lemma effect_ids {A} bad rq s (p : api_db * reply A) : api_ids s → effect bad rq s p → api_ids p.1.
Proof. intros Hids He. destruct He as [s' r Hc _ Hn|]; simpl; [|done]. eapply api_ids_core; [done| |done]. rewrite Hn. apply Hids. Qed.

Lemma stmt_data {A} (f : api_db → api_db * reply A) s s' (a : A) :
  (∀ s1, ∃ s2 b, f s1 = (s2, Data b)) → api_stmt f s = (s', Data a) → f (s <| ap_faults := tail (ap_faults s) |>) = (s', Data a).
Proof. unfold api_stmt. by destruct (head _) as [[]|]. Qed.

Lemma bind_data {A B} (m : api A) (k : A → api B) s s' b :
  (m ≫= k) s = (s', Data b) → ∃ s1 a, m s = (s1, Data a) ∧ k a s1 = (s', Data b).
Proof. unfold mbind, api_bind. destruct (m s) as [s1 [a| |]]; [eauto|done|done]. Qed.

Lemma audit_core rq action target before after s s' a :
  Audit_Write rq action target before after s = (s', Data a) → core s' = core s.
Proof. unfold Audit_Write, api_stmt. by destruct (head _) as [[]|]; intros [= <-]. Qed.

(** The row of the table under the id of the rule. *)
Definition row_of (rq : request) (req : aggregateRuleWriteReq) (s' : api_db) (rule : CustomAggregateRule) : Prop :=
  ∃ req' id by_ at_, aggregateRule_validate req = Ok req' ∧
    rule = (aggregateRule_toModel req' (rq_now rq) (currentUsername rq)) <| ar_Id := id |> <| ar_CreateBy := by_ |> <| ar_CreateAt := at_ |> ∧
    ap_aggregate s' !! id = Some (rule <| ar_DatasourceIdsJson := [] |> <| ar_SeveritiesJson := [] |>).

Lemma created_row rq req s s' rule : aggregateRuleCreate rq req s = (s', Data rule) → row_of rq req s' rule.
Proof.
  unfold aggregateRuleCreate, resource_create. cbn [rs_validate aggregate_resource].
  destruct (aggregateRule_validate req) as [req'|] eqn:Hval; [|done].
  intros (s1 & r1 & Hst & Hrest)%bind_data. apply bind_data in Hrest as (s2 & [] & Haud & [= -> ->]).
  apply audit_core, core_fields in Haud as (Htab & _). apply stmt_data in Hst; [|intros; simpl; eauto]. injection Hst as <- <-.
  exists req', (ap_nextid s), (currentUsername rq), (rq_now rq). split; [done|]. split; [done|]. rewrite Htab. simpl. apply lookup_insert_eq.
Qed.

Lemma updated_row rq req s s' rule :
  Forall in_i64 (aq_DatasourceIds req) → Forall in_i64 (aq_Severities req) →
  aggregateRuleUpdate rq req s = (s', Data rule) → row_of rq req s' rule.
Proof.
  intros Hd Hs (s1 & id & _ & Hrun)%bind_data. apply bind_data in Hrun as (s2 & existing & _ & Hrun).
  cbn [rs_validate aggregate_resource] in Hrun. destruct (aggregateRule_validate req) as [req'|] eqn:Hval; [|done].
  apply bind_data in Hrun as (s3 & [] & Hst & Hrun). apply bind_data in Hrun as (s4 & [] & Haud & [= -> <-]).
  apply audit_core, core_fields in Haud as (Htab & _). apply stmt_data in Hst; [|intros; simpl; eauto]. injection Hst as <-.
  destruct (validated _ _ Hval) as (Eds & Esv & _). rewrite <- Eds in Hd. rewrite <- Esv in Hs.
  destruct (loaded_row id (ar_CreateBy existing) (ar_CreateAt existing) (rq_now rq) (currentUsername rq) req' Hd Hs) as [_ Hh].
  exists req', id, (ar_CreateBy existing), (ar_CreateAt existing). split; [done|]. split; [exact Hh|].
  cbn [rs_hydrate aggregate_resource rs_created_as rs_with_id rs_toModel]. rewrite Hh, Htab. apply lookup_insert_eq.
Qed.

Lemma written_row rq req s s' rule :
  api_ids s → Forall in_i64 (aq_DatasourceIds req) → Forall in_i64 (aq_Severities req) →
  aggregateRuleCreate rq req s = (s', Data rule) ∨ aggregateRuleUpdate rq req s = (s', Data rule) →
  api_ids s' ∧ row_of rq req s' rule.
Proof.
  intros Hids Hd Hs [Hrun|Hrun].
  - split; [|by apply created_row in Hrun]. change s' with (s', Data rule).1. rewrite <- Hrun.
    eapply (effect_ids True); [done|]. by apply effect_create; [apply aggregate_ok|..].
  - split; [|by apply updated_row in Hrun]. change s' with (s', Data rule).1. rewrite <- Hrun.
    eapply (effect_ids True); [done|]. by apply effect_update; [apply aggregate_ok|].
Qed.

Lemma decode_encoded req req' :
  aggregateRule_validate req = Ok req' → json_wf (aq_Dimensions req) → json_marshal (aq_Dimensions req) ≠ Ok "null" →
  decodeStringSlice (encodeJSONList (aq_Dimensions req)) = Ok (aq_Dimensions req).
Proof.
  intros Hval (b & Hb & Hne & Hu)%json_round Hnull. unfold encodeJSONList. rewrite Hb.
  assert (String.eqb b "null" = false) as -> by (apply String.eqb_neq; congruence).
  unfold aggregateRule_validate in Hval. destruct (aq_Dimensions req) as [|d ds]; [by case_branches|].
  unfold decodeStringSlice. destruct b; [done|]. cbn [String.length Nat.eqb]. by rewrite Hu.
Qed.

(** An enabled row of a request, in a load that works. *)
Lemma loaded_rule t id by_ at_ now user req rules :
  Forall in_i64 (aq_DatasourceIds req) → Forall in_i64 (aq_Severities req) → aq_Disabled req = 0 →
  let rule := (aggregateRule_toModel req now user) <| ar_Id := id |> <| ar_CreateBy := by_ |> <| ar_CreateAt := at_ |> in
  t !! id = Some (rule <| ar_DatasourceIdsJson := [] |> <| ar_SeveritiesJson := [] |>) →
  aggregate_loader (Ok (rows t)) = Ok rules →
  ∃ filters, JSONArr_Scan (ar_Filters rule) = Ok filters ∧ rule <| ar_Filters := filters |> ∈ rules.
Proof.
  intros Hd Hs Hdis rule Hrow Hload.
  assert (∃ rules, aggregate_loader (Ok (rows t)) = Ok rules) as Hok by by eexists. rewrite load_works in Hok.
  destruct (Hok _ _ Hrow Hdis) as [_ (filters & Hf)]. exists filters. split; [exact Hf|].
  apply (loads_rows _ _ Hload). eexists id, _, _. split; [exact Hrow|]. split; [exact Hdis|].
  assert (JSONArr_Scan (ar_Dimensions (rule <| ar_DatasourceIdsJson := [] |> <| ar_SeveritiesJson := [] |>)) = Ok (ar_Dimensions rule)) as Hdim
    by apply scan_encoded.
  split; [unfold scan_aggregate; by rewrite Hdim, Hf|].
  destruct (loaded_row id by_ at_ now user req Hd Hs) as [Hl _].
  apply (f_equal (λ r : CustomAggregateRule, r <| ar_Filters := filters |>)) in Hl. symmetry. exact Hl.
Qed.

(** C26. A rule that was created or changed is answered with the data sources, severities and
    dimensions that were asked for, and positive windows.  The next load of the aggregator
    works exactly when the JSON columns of every enabled row can be scanned; then an enabled
    rule is loaded exactly as the API answered with it (but for space around its filters), and
    a disabled one is not loaded.  So one enabled rule with filters that are not JSON, which
    the API does not check, makes every load fail. *)
Theorem aggregate_rule_roundtrip rq req s s' rule :
  api_ids s → Forall in_i64 (aq_DatasourceIds req) → Forall in_i64 (aq_Severities req) →
  aggregateRuleCreate rq req s = (s', Data rule) ∨ aggregateRuleUpdate rq req s = (s', Data rule) →
  let load := aggregate_loader (Ok (rows (ap_aggregate s'))) in
  ar_DatasourceIdsJson rule = aq_DatasourceIds req ∧ ar_SeveritiesJson rule = aq_Severities req ∧
  0 < ar_WindowSec rule ∧ 0 < ar_StormWindowSec rule ∧
  (json_wf (aq_Dimensions req) → json_marshal (aq_Dimensions req) ≠ Ok "null" →
     decodeStringSlice (ar_Dimensions rule) = Ok (aq_Dimensions req)) ∧
  ((∃ rules, load = Ok rules) ↔
     ∀ id row, ap_aggregate s' !! id = Some row → ar_Disabled row = 0 → scans (ar_Dimensions row) ∧ scans (ar_Filters row)) ∧
  (∀ rules, load = Ok rules → aq_Disabled req = 0 →
     ∃ filters, JSONArr_Scan (ar_Filters rule) = Ok filters ∧ rule <| ar_Filters := filters |> ∈ rules) ∧
  (∀ rules, load = Ok rules → aq_Disabled req ≠ 0 → ∀ r, r ∈ rules → ar_Id r ≠ ar_Id rule) ∧
  (aq_Disabled req = 0 → ¬ scans (aq_Filters req) → ∃ err, load = Err err).
Proof.
  intros Hids Hd Hs Hrun load. destruct (written_row _ _ _ _ _ Hids Hd Hs Hrun) as (Hids' & Hrow').
  destruct Hrow' as (req' & id & by_ & at_ & Hval & -> & Hrow).
  destruct (validated _ _ Hval) as (Eds & Esv & Edim & Edis & Efil & Hw & Hsw). rewrite <- Eds in Hd. rewrite <- Esv in Hs.
  split; [exact Eds|]. split; [exact Esv|]. split; [exact Hw|]. split; [exact Hsw|]. split; [|split; [apply load_works|split; [|split]]].
  - intros Hwf Hnull. change (ar_Dimensions _) with (encodeJSONList (aq_Dimensions req')). rewrite Edim.
    eapply decode_encoded; [exact Hval|exact Hwf|exact Hnull].
  - intros rules Hload Hdis. rewrite <- Edis in Hdis.
    exact (loaded_rule _ id by_ at_ (rq_now rq) (currentUsername rq) req' rules Hd Hs Hdis Hrow Hload).
  - intros rules Hload Hdis r Hr Hid. apply (loads_rows _ _ Hload) in Hr as (j & row & row' & Hj & Hen & Hscan & ->).
    apply scan_aggregate_marshals in Hscan as [Hid' _]. apply Hids' in Hj as Hkey. simpl in Hid. 
    assert (j = id) as -> by congruence. rewrite Hrow in Hj. injection Hj as <-. simpl in Hen. congruence.
  - intros Hdis Hbad. unfold load. destruct (aggregate_loader _) as [rules|err] eqn:El; [|by eexists].
    exfalso. assert (∃ rules, aggregate_loader (Ok (rows (ap_aggregate s'))) = Ok rules) as Hex by by eexists.
    rewrite load_works in Hex. destruct (Hex _ _ Hrow) as [_ Hf]; [by simpl; rewrite Edis|]. apply Hbad.
    simpl in Hf. rewrite Efil in Hf. destruct (String.eqb (aq_Filters req) "") eqn:Ee; [|done].
    apply String.eqb_eq in Ee. rewrite Ee. by exists "".
Qed.
End roundtrip.

(** ** From the API to the hook *)

Section emergency.
Context `{!Json (list string), !Json auditable, RobfigCron, Regexp, GoRange}.

Lemma in_scope_of ids x : ids = [] ∨ x ∈ ids → out_of_scope ids x = false.
Proof.
  unfold out_of_scope. intros [->|Hx]; [done|]. destruct ids as [|d ids]; [done|].
  assert (zmem x (d :: ids) = true) as -> by by apply bool_decide_eq_true. by rewrite andb_false_r.
Qed.

Lemma put_row rq req s s' row :
  emergencyMutePut rq req s = (s', Data row) → ∃ existing, ap_emergency s' = Some (stored_emergency (emergency_row rq req existing)).
Proof.
  unfold emergencyMutePut. destruct (emergencyMute_validate _ _); [|done]. intros (s1 & existing & _ & Hrun)%bind_data.
  apply bind_data in Hrun as (s2 & [] & Hst & Hrun). apply bind_data in Hrun as (s3 & [] & Haud & [= -> _]).
  apply audit_core, core_fields in Haud as (_ & _ & _ & Hem & _). apply stmt_data in Hst; [|intros; simpl; eauto]. injection Hst as <-.
  exists existing. by rewrite Hem.
Qed.

Lemma switch_withholds e rules event now h : muted_by_switch e event now → InstalledHook e rules (Some event) now h = (h, true).
Proof.
  intros Hm. unfold InstalledHook, Mute_Hook.
  assert (mv_Muted (Evaluate e (Some event) now) = true) as -> by (apply Evaluate_muted; by left). done.
Qed.

(** What a reading of the row gives. *)
Definition emergency_reading (s : api_db) : result CustomEmergencyMute :=
  match ap_emergency s with Some row => Ok row | None => Err record_not_found end.

(** The state of the switch after some readings is that of the last one. *)
Lemma last_reading readings reading old :
  foldl (λ st r, emergency_tick r st) old (readings ++ [reading]) = Emergency_Set (loadEmergencyMute reading).
Proof. by rewrite foldl_app. Qed.

(** C24. The emergency switch was set and its row has been read any number of times since, the
    last time with [reading].  If that reading gave the row as it was set, every event of its
    data sources and groups is withheld up to the time the switch expires, whatever the other
    rules say, and without a trace in the index of causes or the record; after that time the
    switch mutes nothing.  If that reading failed, the switch mutes nothing either, until the
    next reading. *)
Theorem emergency_switch_mutes rq req s s' row old readings reading e rules event now h :
  emergencyMutePut rq req s = (s', Data row) → eq_Enabled req = 1 →
  Forall in_i64 (eq_DatasourceIds req) → Forall in_i64 (eq_GroupIds req) →
  eq_DatasourceIds req = [] ∨ Event.DatasourceId event ∈ eq_DatasourceIds req →
  eq_GroupIds req = [] ∨ Event.GroupId event ∈ eq_GroupIds req →
  ev_emergency e = Some (foldl (λ st r, emergency_tick r st) old (readings ++ [reading])) →
  (reading = emergency_reading s' → eq_ExpireAt req = 0 ∨ unix now <= eq_ExpireAt req →
     InstalledHook e rules (Some event) now h = (h, true)) ∧
  (reading = emergency_reading s' → 0 < eq_ExpireAt req < unix now → ¬ muted_by_switch e event now) ∧
  ((∃ err, reading = Err err) → ¬ muted_by_switch e event now).
Proof.
  intros Hput Hen Hd Hg Hds Hgs He. rewrite last_reading in He. destruct (put_row _ _ _ _ _ Hput) as (existing & Hrow).
  assert (reading = emergency_reading s' →
    ev_emergency e = Some (mkEmergencyState true (eq_Reason req) (eq_ExpireAt req) (eq_DatasourceIds req) (eq_GroupIds req))) as Hset.
  { intros ->. rewrite He. unfold emergency_reading. rewrite Hrow. unfold Emergency_Set, loadEmergencyMute, FromModel. cbn [default].
    change (parseInt64CSV (em_DatasourceIds _)) with (parseInt64CSV (encodeJSONList (eq_DatasourceIds req))).
    change (parseInt64CSV (em_GroupIds _)) with (parseInt64CSV (encodeJSONList (eq_GroupIds req))).
    destruct (decode_ints _ Hd) as [_ Ed], (decode_ints _ Hg) as [_ Eg]. rewrite Ed, Eg. simpl. by rewrite Hen. }
  split; [|split].
  - intros Hr Hexp. apply switch_withholds.
    eexists _, _. split; [by apply Hset|]. unfold Emergency_Match. simpl. rewrite !in_scope_of by done.
    assert ((0 <? eq_ExpireAt req) && (eq_ExpireAt req <? unix now) = false) as -> by lia. done.
  - intros Hr Hexp (st & reason & Hst & Hm). rewrite (Hset Hr) in Hst. injection Hst as <-. unfold Emergency_Match in Hm. simpl in Hm.
    assert ((0 <? eq_ExpireAt req) && (eq_ExpireAt req <? unix now) = true) as Hx by lia. by rewrite Hx in Hm.
  - intros (err & ->) (st & reason & Hst & Hm). rewrite He in Hst. injection Hst as <-. done.
Qed.
End emergency.
