(* ===== verification/Witnesses.v ===== *)
(** * Concrete instances

    Instances of the parameters of the model (queue, database, codecs,
    templates, regular expressions, clock), and the theorems of the other files
    applied to concrete rules, events and workflows, with their hypotheses
    evaluated. *)

From Stdlib Require Import Ascii QArith_base.
From S2P Require Import Prelude GoStrings GoTime Json Models RuleModels EventOps Filter Mute.
From S2P Require Import Relabel Workflow Engine Processors RuleOps EventTable Process Subscription.
From S2P Require Import Dispatch Consume.
Open Scope string_scope.
Open Scope Z_scope.

(** Evaluates a decidable hypothesis. *)
Ltac evaluate := apply (bool_decide_eq_true_1 _); vm_compute; reflexivity.

(** ** Instances *)

(** An unbounded queue. *)
#[export] Instance list_queue : EventQueueLib := {|
  equeue := list nat; queue_items := λ q, q; PushFront := λ q l, (l :: q, true);
  PushFront_spec := λ q l, eq_refl
|}.

(** A codec that writes a constant and decodes nothing. *)
#[export] Instance blank_json {A} : Json A | 100 := {|
  json_marshal := λ _, Ok "{}"; json_unmarshal := λ _ old, (old, None)
|}.

(** Regular expressions without operators, matched as a whole. *)
#[export] Instance literal_regexp : Regexp := {|
  re_compile := λ _, None; re_match := λ r s, String.eqb r s
|}.

#[export] Instance literal_regexp_sub : RegexpSub.
Proof.
  refine {| re_find := λ r s, if String.eqb r s then Some [] else None;
            re_expand := λ _ rep _ _, rep; re_replace_all := λ r rep s, if String.eqb r s then rep else s |}.
  intros r s. cbn. destruct (String.eqb r s); split; done.
Defined.

#[export] Instance zero_md5 : Md5.
Proof.
  refine {| md5_sum := λ _, replicate 16 0 |}.
  - intros s. reflexivity.
  - intros s. apply Forall_replicate. lia.
Defined.

#[export] Instance any_label : LabelNames := {| label_valid := λ _, true |}.
#[export] Instance plain_text : TextTemplate := {|
  tpl_parse := λ _ _ _, None; tpl_execute := λ _ _ text _, Ok text
|}.
#[export] Instance plain_html : HtmlTemplate := {|
  html_parse := λ _ _, None; html_execute := λ _ text _, Ok text
|}.
#[export] Instance plain_ctx : CtxTemplate := {|
  ctx_tpl_parse := λ _ _, None; ctx_tpl_execute := λ _ text _, Ok text
|}.
#[export] Instance plain_samples : SampleFmt := {|
  metric_string := λ m, join (map (λ kv, fst kv +:+ "=" +:+ snd kv) (map_to_list m)) ",";
  fmt_fixed5 := λ f, itoa (float64_to_int f) +:+ ".00000"
|}.
#[export] Instance plain_str : StrLib := {| str_md5 := λ s, s; str_dangerous := λ _, false |}.
#[export] Instance any_cron : CronLib := {| cron_error := λ _, None |}.
#[export] Instance literal_glob : GlobLib := {| glob_match := String.eqb |}.
#[export] Instance nil_prom : PromIface := {| prom_iface := λ _, IMap [] |}.
#[export] Instance blank_fields : EventFieldJson := {| field_json := λ _, "{}" |}.

(** A world without state, in which the only processor type does nothing. *)
#[export] Instance noop_runtime : Runtime unit := {|
  processorRegister := {["noop" := λ _, Ret (Ok (PlainProcessor (λ w ctx, Ret (w, ctx, Ok (SameCtx, "")))))]};
  world_now := λ _, 0; world_sleep := λ _ w, w; world_millis := λ _ _, 0; world_uuid := λ _, "uuid"
|}.

(** ** The event tables *)

Definition cpu_event (h : string) (severity t : Z) : AlertCurEvent :=
  Event.zero <| Event.Hash := h |> <| Event.Severity := severity |> <| Event.Tags := "ident=web01" |>
             <| Event.TriggerTime := t |> <| Event.LastEvalTime := t |>.

Definition cpu_rule : AlertRule :=
  Rule.zero <| Rule.Id := 7 |> <| Rule.Name := "cpu high" |> <| Rule.NotifyRepeatStep := 1 |>
            <| Rule.NotifyMaxNumber := 3 |>.

(** Two alerts of different severity fire, a third event is built. *)
Definition cpu_state : pstate :=
  mkPstate cpu_rule false 15 {["hi" := 0%nat; "lo" := 1%nat]} {["lo" := 1%nat]} ∅
    {[0%nat := cpu_event "hi" 1 100; 1%nat := cpu_event "lo" 2 100; 2%nat := cpu_event "hi" 1 200]} [] [].

Lemma cpu_state_wf : wf cpu_state.
Proof. evaluate. Qed.

(** An alert fires again, and then both recover. *)
Lemma tables_invariant_witness :
  wf (HandleRecover (handleEvent cpu_state [2%nat]) ∅ 300 false).
Proof.
  apply (tables_invariant cpu_state); [|evaluate].
  eapply rtc_l; [apply (step_handle _ [2%nat]); intros l Hl; apply list_elem_of_singleton in Hl as ->; evaluate|].
  apply rtc_once, step_recover.
Defined.

Lemma fireEvent_spec_witness :
  p_fires (fireEvent cpu_state 2%nat) !! "hi" = Some 2%nat ∧
  Event.NotifyCurNumber (ev (fireEvent cpu_state 2%nat) 2%nat) = 1.
Proof.
  rewrite (fireEvent_spec cpu_state 2%nat (cpu_event "hi" 1 200)); [|evaluate|reflexivity..|by vm_compute].
  split; vm_compute; reflexivity.
Defined.

(** Five evaluations of one alert, a minute apart, and at most three
    notifications. *)
Definition burst_state : pstate :=
  mkPstate cpu_rule false 15 ∅ ∅ ∅
    (list_to_map (imap (λ i t, (i, cpu_event "hi" 1 t)) [60; 120; 180; 240; 300])) [] [].

Lemma burst_fresh l t : p_heap burst_state !! l = Some (cpu_event "hi" 1 t) → fresh_event burst_state "hi" l.
Proof. intros H. exists (cpu_event "hi" 1 t). split; [exact H|]. by vm_compute. Qed.

Lemma notify_limit_witness :
  length (queue_items (p_queue (foldl fireEvent burst_state [0; 1; 2; 3; 4]%nat))) = 3%nat ∧
  Z.of_nat (length (queue_items (p_queue (foldl fireEvent burst_state [0; 1; 2; 3; 4]%nat))))
    ≤ Z.of_nat (length (queue_items (p_queue burst_state))) + Rule.NotifyMaxNumber (p_rule burst_state).
Proof.
  split; [vm_compute; reflexivity|].
  refine (notify_limit burst_state [0; 1; 2; 3; 4]%nat "hi" _ _ _ _ _).
  - evaluate.
  - vm_compute. reflexivity.
  - evaluate.
  - intros l Hl. repeat (apply elem_of_cons in Hl as [-> | Hl]; [by eapply burst_fresh|]).
    by apply not_elem_of_nil in Hl.
  - evaluate.
Defined.

(** Both events are ready; only the critical one fires. *)
Definition batch_state : pstate :=
  mkPstate cpu_rule true 15 ∅ ∅ ∅ {[0%nat := cpu_event "hi" 1 100; 1%nat := cpu_event "lo" 2 100]} [] [].

Definition batch_observed : pstate := fst (fst (observeEvents batch_state [0; 1]%nat [] SeverityLowest)).

Lemma handleEvent_inhibits_witness :
  handleEvent batch_state [0; 1]%nat = foldl fireEvent batch_observed [0%nat] ∧
  p_queue (handleEvent batch_state [0; 1]%nat) = [0%nat].
Proof.
  destruct (handleEvent_inhibits batch_state [0; 1]%nat batch_observed [0; 1]%nat 1) as (Hfire & _).
  - reflexivity.
  - vm_compute. reflexivity.
  - assert (filter (λ l, Event.Severity (ev batch_state l) ≤ 1) [0; 1]%nat = [0%nat]) as Hready
      by (vm_compute; reflexivity).
    rewrite Hready in Hfire. split; [exact Hfire | vm_compute; reflexivity].
Defined.

(** A rule that waits for a minute, evaluated every 15 seconds: 30 seconds are
    not enough. *)
Definition waiting_state : pstate :=
  mkPstate (cpu_rule <| Rule.PromForDuration := 60 |>) false 15 ∅ {["hi" := 0%nat]} ∅
    {[0%nat := (cpu_event "hi" 1 100) <| Event.FirstEvalTime := 100 |>; 1%nat := cpu_event "hi" 1 130]} [] [].

Lemma handleEvent_for_duration_witness :
  p_fires (handleEvent waiting_state [1%nat]) = p_fires waiting_state ∧
  p_queue (handleEvent waiting_state [1%nat]) = p_queue waiting_state.
Proof.
  apply (handleEvent_for_duration waiting_state 1%nat (cpu_event "hi" 1 130)).
  - reflexivity.
  - vm_compute. congruence.
  - vm_compute. reflexivity.
Defined.

(** The critical alert still alerts, the warning does not. *)
Lemma HandleRecover_alerting_witness :
  p_fires (HandleRecover cpu_state {["hi"]} 300 false) !! "hi" = Some 0%nat ∧
  p_pendings (HandleRecover cpu_state {["hi"]} 300 false) !! "lo" = None.
Proof.
  destruct (HandleRecover_alerting cpu_state {["hi"]} 300 false) as (Hkeys & _ & Hothers).
  - evaluate.
  - split.
    + destruct (Hkeys "hi") as [-> _]; [evaluate | reflexivity].
    + apply Hothers. evaluate.
Defined.

Lemma HandleRecover_recovers_witness :
  p_fires (HandleRecover cpu_state {["hi"]} 300 false) !! "lo" = None ∧
  settled cpu_state "lo" 1%nat (cpu_event "lo" 2 100) 300 (HandleRecover cpu_state {["hi"]} 300 false).
Proof.
  split; [vm_compute; reflexivity|].
  apply (HandleRecover_recovers cpu_state {["hi"]} 300 "lo" 1%nat (cpu_event "lo" 2 100));
    [evaluate | evaluate | reflexivity | reflexivity].
Defined.

(** Both stop alerting under inhibition. *)
Lemma HandleRecover_inhibits_witness :
  ∃ k' l' e', k' ∉ (∅ : gset string) ∧ p_fires cpu_state !! k' = Some l' ∧ p_heap cpu_state !! l' = Some e' ∧
    Event.Tags e' = Event.Tags (cpu_event "lo" 2 100) ∧ Event.Severity e' ≤ Event.Severity (cpu_event "lo" 2 100) ∧
    settled cpu_state k' l' e' 300 (HandleRecover cpu_state ∅ 300 true).
Proof.
  apply (HandleRecover_inhibits cpu_state ∅ 300 "lo" 1%nat (cpu_event "lo" 2 100));
    [evaluate | evaluate | reflexivity | reflexivity].
Defined.

Lemma HandleRecoverEvent_order_witness :
  p_fires (HandleRecoverEvent cpu_state ["hi"; "lo"] 300 true) !! "lo" = Some 1%nat ∧
  p_fires (HandleRecoverEvent cpu_state ["lo"; "hi"] 300 true) !! "lo" = None.
Proof.
  apply (HandleRecoverEvent_order cpu_state 300 "hi" "lo" 0%nat 1%nat (cpu_event "hi" 1 100) (cpu_event "lo" 2 100));
    [evaluate | evaluate | reflexivity.. | evaluate].
Defined.

Lemma queued_event_recovers_witness :
  let p' := RecoverSingle (fireEvent burst_state 0%nat) false (Event.Hash (cpu_event "hi" 1 60)) 90 None None in
  queue_items (p_queue p') = 0%nat :: 0%nat :: queue_items (p_queue burst_state) ∧
  Event.IsRecovered (ev p' 0%nat) = true.
Proof.
  refine (queued_event_recovers burst_state 0%nat (cpu_event "hi" 1 60) 90 _ _ _ _ _ _ _);
    [evaluate | reflexivity.. | intros q l; reflexivity].
Defined.

(** ** Handling points *)

Definition cpu_point : AnomalyPoint :=
  Point.zero <| Point.Labels := {["__name__" := "cpu"; "ident" := "web01"]} |> <| Point.Timestamp := 300 |>
             <| Point.Severity := 1 |> <| Point.Value := F64 (inject_Z 95) |>.

Definition web01 : Target := Tgt.zero <| Tgt.Ident := "web01" |> <| Tgt.EngineName := "default" |>.

(** Every event is muted by the hook. *)
Definition muting_conf : pconf := mkPconf 3 "default" true (λ _, true).
Definition cpu_caches : caches := mkCaches {[7 := cpu_rule]} {["web01" := web01]} ∅ ∅ ∅ ∅.
Definition cpu_hash : string := Hash 7 3 cpu_point.

Definition firing_state : pstate :=
  mkPstate cpu_rule false 15 {[cpu_hash := 0%nat]} ∅ ∅ {[0%nat := cpu_event cpu_hash 1 100]} [] [].

(** The muted point does not fire again and does not recover. *)
Lemma Handle_keeps_firing_witness :
  match Handle muting_conf cpu_caches [cpu_point] "inner" false 300 firing_state tt with
  | Ret (p', _, _) => is_Some (p_fires p' !! cpu_hash) ∧ wf p'
  | Panic => False
  end.
Proof.
  destruct (Handle muting_conf cpu_caches [cpu_point] "inner" false 300 firing_state tt)
    as [[[p' w'] out]|] eqn:Hrun; [|vm_compute in Hrun; discriminate Hrun].
  apply (Handle_keeps_firing _ _ _ _ _ _ _ _ _ _ _ cpu_rule cpu_point Hrun);
    [evaluate | reflexivity | left | evaluate].
Defined.

(** Two rows come back, one of a rule that is gone. *)
Definition stored_rows : list AlertCurEvent :=
  [(cpu_event "hi" 1 100) <| Event.RuleId := 7 |>; (cpu_event "lo" 2 100) <| Event.RuleId := 8 |>].

Lemma RecoverAlertCurEventFromDb_spec_witness :
  let p' := RecoverAlertCurEventFromDb muting_conf cpu_caches (Ok stored_rows) cpu_state in
  wf p' ∧ is_Some (p_fires p' !! "hi") ∧ p_fires p' !! "lo" = None.
Proof.
  intros p'. destruct (RecoverAlertCurEventFromDb_spec muting_conf cpu_caches stored_rows cpu_state)
    as (Hwf & _ & _ & _ & _ & Hrows & _); [evaluate|].
  split; [exact Hwf|]. split; [|vm_compute; reflexivity].
  assert (∃ e, restored_event muting_conf cpu_caches ((cpu_event "hi" 1 100) <| Event.RuleId := 7 |>) = Some e ∧
               Event.Hash e = "hi") as (e & Hrow & Hhash) by (eexists; split; vm_compute; reflexivity).
  destruct (Hrows _ e (list_elem_of_here _ _) Hrow) as [Hf _].
  apply (eq_ind _ (λ h, is_Some (p_fires p' !! h)) Hf _ Hhash).
Defined.

Lemma BuildEvent_spec_witness :
  match BuildEvent muting_conf cpu_caches cpu_rule cpu_point "inner" 300 "rulehash" with
  | Ret (_, e) => Event.Hash e = cpu_hash ∧ tags_agree e ∧
                   Event.TargetIdent e = default "" (Event.TagsMap e !! "ident")
  | Panic => False
  end.
Proof.
  destruct (BuildEvent muting_conf cpu_caches cpu_rule cpu_point "inner" 300 "rulehash")
    as [[rule' e]|] eqn:Hrun; [|vm_compute in Hrun; discriminate Hrun].
  destruct (BuildEvent_spec _ _ _ _ _ _ _ _ _ Hrun) as (Hhash & _ & _ & _ & _ & Htags & Hident).
  - intros i t Ht. change (c_target cpu_caches) with ({["web01" := web01]} : gmap string Target) in Ht.
    apply lookup_singleton_Some in Ht as [<- <-]. reflexivity.
  - split; [exact Hhash|]. split; [exact Htags | exact Hident].
Defined.

(** A rule with an appended tag, verified and loaded. *)
Definition tagged_rule : AlertRule :=
  cpu_rule <| Rule.Prod := "metric" |> <| Rule.RuleConfig := "{}" |> <| Rule.AppendTags := "team=infra" |>
           <| Rule.EnableStime := "00:00" |> <| Rule.EnableEtime := "00:00" |>.

Lemma fillTags_total_witness :
  match AlertRule_DB2FE (fst (AlertRule_Verify tagged_rule)) with
  | Ret loaded => ∃ m arr, fillTags loaded cpu_point = Ret (m, arr)
  | Panic => False
  end.
Proof.
  destruct (AlertRule_DB2FE (fst (AlertRule_Verify tagged_rule))) as [loaded|] eqn:Hload;
    [|vm_compute in Hload; discriminate Hload].
  refine (fillTags_total tagged_rule (fst (AlertRule_Verify tagged_rule)) loaded cpu_point _ Hload).
  vm_compute. reflexivity.
Defined.

(** ** The database *)

(** Two tables in memory, whose statements always succeed. *)
Definition memory_db : Type := list AlertCurEvent * list AlertHisEvent.

Definition next_id (d : memory_db) : Z := Z.of_nat (length (snd d)) + 1.

#[export] Instance memory_tables : EventDB memory_db.
Proof.
  refine {|
    cur_rows := fst; his_rows := snd;
    AlertCurEventExists := λ d h, Ok (existsb (λ r, String.eqb (Event.Hash r) h) (fst d));
    his_Add := λ d r, Ok ((fst d, (snd d ++ [r <| HisEvent.Id := next_id d |>])%list), next_id d);
    AlertCurEventDelByHash := λ d h, Ok (filter (λ r, Event.Hash r ≠ h) (fst d), snd d);
    cur_Add := λ d r, Ok ((fst d ++ [r])%list, snd d)
  |}.
  - intros d h b Hb. apply Ok_inj in Hb. exact Hb.
  - intros d r d' id Hadd. apply Ok_inj in Hadd.
    pose proof (f_equal fst Hadd : d' = _) as ->. pose proof (f_equal snd Hadd : id = _) as ->.
    unfold next_id. cbn [fst snd]. split; [lia | done].
  - intros d h d' Hdel. apply Ok_inj in Hdel as ->. done.
  - intros d r d' Hadd. apply Ok_inj in Hadd as ->. done.
Defined.

#[export] Instance no_prom : PromClients := {| prom_IsNil := λ _, true; prom_Query := λ _ _, Err "no client" |}.
#[export] Instance no_center : Poster := {| post_event := λ _, Err "no center" |}.

Definition stored_db : memory_db := ([cpu_event "hi" 1 100; cpu_event "lo" 2 100], []).

(** The critical alert is stored again. *)
Lemma EventPersist_unique_witness :
  one_per_hash (fst (fst (EventPersist stored_db (cpu_event "hi" 1 200)))) ∧
  snd (EventPersist stored_db (cpu_event "hi" 1 200)) = None.
Proof.
  split; [|vm_compute; reflexivity].
  apply (EventPersist_unique stored_db (cpu_event "hi" 1 200)
           (fst (fst (EventPersist stored_db (cpu_event "hi" 1 200))))
           (snd (fst (EventPersist stored_db (cpu_event "hi" 1 200))))
           (snd (EventPersist stored_db (cpu_event "hi" 1 200)))).
  - destruct (EventPersist stored_db (cpu_event "hi" 1 200)) as [[d e] err]. reflexivity.
  - unfold one_per_hash. evaluate.
Defined.

(** ** Dispatching *)

(** Group 4 has the users 10 and 11, and a subscription to all rules forwards
    critical alerts to it. *)
Definition ops : UserGroup := UserGrp.zero <| UserGrp.Id := 4 |> <| UserGrp.UserIds := [10; 11] |>.

Definition critical_sub : AlertSubscribe :=
  Subscribe.zero <| Subscribe.Id := 2 |> <| Subscribe.SeveritiesJson := [1] |>
                 <| Subscribe.UserGroupIds := "4" |> <| Subscribe.NewChannels := "email" |>
                 <| Subscribe.RedefineChannels := 1 |>.

Definition warning_sub : AlertSubscribe := critical_sub <| Subscribe.Id := 3 |> <| Subscribe.SeveritiesJson := [2] |>.

Definition cpu_dcaches : dcaches :=
  mkDcaches {[7 := cpu_rule]} ∅ {[4 := ops]} {[0 := [critical_sub; warning_sub]]} ∅ ∅ ∅ [] ∅.

Definition fired_event : AlertCurEvent := (cpu_event "hi" 1 200) <| Event.RuleId := 7 |>.

Lemma consumeOne_persisted_witness :
  match consumeOne true cpu_dcaches stored_db fired_event tt with
  | Ret (_, d', e', _) => filter (λ r, Event.Hash r = "hi") (cur_rows d') = [e'] ∧ Event.Hash e' = "hi"
  | Panic => False
  end.
Proof.
  destruct (consumeOne true cpu_dcaches stored_db fired_event tt) as [[[[w' d'] e'] out]|] eqn:Hrun;
    [|vm_compute in Hrun; discriminate Hrun].
  destruct (consumeOne_persisted _ _ _ _ _ _ _ _ Hrun) as (Hrows & Hhash & _);
    [reflexivity | vm_compute; reflexivity | split; [exact Hrows | exact Hhash]].
Defined.

Lemma HandleEventNotify_sends_witness :
  match HandleEventNotify cpu_dcaches fired_event false tt with
  | Ret (_, out) =>
      sends out = [(fillUsers cpu_dcaches fired_event, false);
                   (fillUsers cpu_dcaches (sub_event critical_sub (fillUsers cpu_dcaches fired_event)), true)]
  | Panic => False
  end.
Proof.
  destruct (HandleEventNotify cpu_dcaches fired_event false tt) as [[w' out]|] eqn:Hrun;
    [|vm_compute in Hrun; discriminate Hrun].
  rewrite (HandleEventNotify_sends _ _ _ _ _ Hrun). vm_compute. reflexivity.
Defined.

Lemma HandleEventNotify_silent_witness :
  HandleEventNotify cpu_dcaches (fired_event <| Event.IsRecovered := true |>) false tt = Ret (tt, []).
Proof.
  apply (HandleEventNotify_silent cpu_dcaches (fired_event <| Event.IsRecovered := true |>) false tt);
    [reflexivity | reflexivity|].
  intros id r Hr. discriminate Hr.
Defined.

(** Critical alerts of the web servers, during working hours. *)
Definition work_config : NotifyConfig :=
  NotifyConf.zero <| NotifyConf.Severities := [1] |>
    <| NotifyConf.TimeRanges := [TimeRng.mkTimeRanges (hhmm 540) (hhmm 1080) [1; 2; 3; 4; 5]] |>
    <| NotifyConf.LabelKeys := [TagFlt.zero <| TagFlt.Key := "ident" |> <| TagFlt.Op := "==" |>
                                             <| TagFlt.Value := IString "web01" |>] |>.

Lemma NotifyRuleMatchCheck_spec_witness :
  ∃ err, NotifyRuleMatchCheck work_config fired_event = Ret err ∧ err ≠ None.
Proof.
  destruct (NotifyRuleMatchCheck_spec work_config fired_event (map default_func (NotifyConf.LabelKeys work_config)) [])
    as (err & Hcheck & Hspec).
  - constructor; [|constructor]. exists 540, 1080. repeat split; vm_compute; congruence.
  - vm_compute. reflexivity.
  - reflexivity.
  - constructor; [|constructor]. vm_compute. congruence.
  - constructor.
  - exists err. split; [exact Hcheck|]. intros Hnone.
    apply Hspec in Hnone as (_ & _ & Hlabels & _).
    specialize (Hlabels _ (list_elem_of_here _ _)). vm_compute in Hlabels. discriminate Hlabels.
Defined.

#[export] Instance no_contacts : ContactsLib := {| contact_get := λ _ _, "" |}.

Lemma GetNotifyConfigParams_panics_witness :
  GetNotifyConfigParams (NotifyConf.zero <| NotifyConf.Params := {["retries" := IInt 3]} |>) "email" ∅ ∅ = Panic.
Proof.
  apply (GetNotifyConfigParams_panics _ "email" ∅ ∅ "retries" (IInt 3));
    [reflexivity | evaluate | intros s; discriminate].
Defined.

(** ** Workflows *)

Definition noop_node (id : string) : WorkflowNode :=
  Node.zero <| Node.ID := id |> <| Node.Name := id |> <| Node.Type_ := "noop" |>.

Definition to_nodes (ids : list string) : NodeConnections :=
  NodeConn.mkNodeConn [map (λ id, ConnTarget.zero <| ConnTarget.Node := id |>) ids].

(** A diamond: [a] to [b] and [c], both to [d]. *)
Definition diamond : gmap string NodeConnections :=
  {["a" := to_nodes ["b"; "c"]; "b" := to_nodes ["d"]; "c" := to_nodes ["d"]]}.

Definition diamond_nodes : list WorkflowNode := map noop_node ["d"; "c"; "b"; "a"].

Definition event_ctx : WorkflowContext := WfCtx.zero <| WfCtx.Event := Some fired_event |>.

Lemma executeDAG_order_witness :
  match executeDAG (node_map diamond_nodes) diamond tt event_ctx with
  | Ret (Some d) => length (node_ids d) = 4%nat ∧ topological diamond (node_ids d)
  | _ => False
  end.
Proof.
  destruct (executeDAG (node_map diamond_nodes) diamond tt event_ctx) as [[d|]|] eqn:Hrun;
    [|vm_compute in Hrun; discriminate Hrun..].
  destruct (executeDAG_order diamond_nodes diamond tt event_ctx d Hrun) as (_ & Htop & _).
  split; [|exact Htop].
  apply (f_equal (λ o, match o with Ret (Some x) => length (node_ids x) | _ => O end)) in Hrun.
  rewrite <- Hrun. vm_compute. reflexivity.
Defined.

(** An if node whose two outputs meet in [m]. *)
Definition branch_runtime : Runtime unit := {|
  processorRegister := list_to_map
    [("logic.if", λ _, Ret (Ok (BranchProcessor (If_ProcessWithBranch (mkIfConfig "" "" [] [] [] [])))));
     ("noop", λ _, Ret (Ok (PlainProcessor (λ w ctx, Ret (w, ctx, Ok (SameCtx, ""))))))];
  world_now := λ _, 0; world_sleep := λ _ w, w; world_millis := λ _ _, 0; world_uuid := λ _, ""
|}.

Definition two_outputs : NodeConnections :=
  NodeConn.mkNodeConn (map (λ id, [ConnTarget.zero <| ConnTarget.Node := id |>]) ["a"; "b"]).

Definition meeting : gmap string NodeConnections :=
  {["if" := two_outputs; "a" := to_nodes ["m"]; "b" := to_nodes ["m"]]}.

Definition meeting_nodes : list WorkflowNode :=
  (noop_node "if") <| Node.Type_ := "logic.if" |> :: map noop_node ["a"; "b"; "m"].

(** The execution is a success, and [m] did not run. *)
Lemma merge_node_never_runs_witness :
  match executeDAG (RT := branch_runtime) (node_map meeting_nodes) meeting tt event_ctx with
  | Ret (Some d) => WfResult.Status (d_result d) = ExecutionStatusSuccess ∧ "m" ∉ node_ids d
  | _ => False
  end.
Proof.
  destruct (executeDAG (RT := branch_runtime) (node_map meeting_nodes) meeting tt event_ctx) as [[d|]|] eqn:Hrun;
    [|vm_compute in Hrun; discriminate Hrun..].
  split.
  - apply (f_equal (λ o, match o with Ret (Some x) => WfResult.Status (d_result x) | _ => "" end)) in Hrun.
    rewrite <- Hrun. vm_compute. reflexivity.
  - apply (merge_node_never_runs (RT := branch_runtime) meeting_nodes meeting tt event_ctx d "if" two_outputs
             0%nat 1%nat "a" "b" "m" (to_nodes ["m"]) (to_nodes ["m"]));
      [exact Hrun | reflexivity | lia | | | reflexivity | evaluate | reflexivity | evaluate].
    + eexists. split; [reflexivity | evaluate].
    + eexists. split; [reflexivity | evaluate].
Defined.

(** A pipeline of two nodes and a secret variable. *)
Definition two_steps : EventPipeline :=
  Pipe.zero <| Pipe.ID := 5 |> <| Pipe.Nodes := map noop_node ["a"; "b"] |>
    <| Pipe.EnvVariables := [EnvVar.zero <| EnvVar.Key := "TOKEN" |> <| EnvVar.Secret := true |>] |>.

Lemma executeDAG_linear_witness :
  fmap dag_outcome <$>
    executeDAG (node_map (GetWorkflowNodes two_steps)) (GetWorkflowConnections two_steps) tt event_ctx
  = Some <$> run_linear (map default_retries (GetWorkflowNodes two_steps)) tt event_ctx
      (WfResult.zero <| WfResult.Status := ExecutionStatusSuccess |>
                     <| WfResult.Stream := WfCtx.Stream event_ctx |>).
Proof.
  apply (executeDAG_linear two_steps tt event_ctx); [reflexivity | vm_compute; congruence | evaluate].
Defined.

Definition token_ctx : WorkflowContext :=
  WfCtx.zero <| WfCtx.Env := {["TOKEN" := "t0p"; "REGION" := "eu"]} |>.

Lemma saveExecutionRecord_masks_witness :
  SanitizedEnv token_ctx (GetSecretKeys two_steps) !! "TOKEN" = Some "******".
Proof.
  destruct (saveExecutionRecord_masks two_steps token_ctx WfResult.zero TriggerCtx.zero 0 1 1 "uuid" "{}")
    as (_ & Hsecret & _); [reflexivity|].
  destruct (SanitizedEnv token_ctx (GetSecretKeys two_steps) !! "TOKEN") as [x|] eqn:Hx;
    [|vm_compute in Hx; discriminate Hx].
  f_equal. exact (Hsecret _ x (list_elem_of_here _ _) eq_refl Hx).
Defined.

Definition two_steps_config : PipelineConfig := PipelineConf.mkPipelineConfig 5 true.

Lemma HandleEventPipeline_consistent_witness :
  match HandleEventPipeline [two_steps_config] fired_event fired_event {[5 := two_steps]} 7 "alert_rule" tt with
  | Ret (_, Some e', _) => Event.Tags e' = join (Event.TagsJSON e') ",,"
  | _ => False
  end.
Proof.
  destruct (HandleEventPipeline [two_steps_config] fired_event fired_event {[5 := two_steps]} 7 "alert_rule" tt)
    as [[[w' [e'|]] out]|] eqn:Hrun; [|vm_compute in Hrun; discriminate Hrun..].
  apply (HandleEventPipeline_consistent _ _ _ _ _ _ _ _ _ _ Hrun).
Defined.

(** ** Muting, filters and relabelling *)

(** Office hours, and the whole of Saturday. *)
Definition office : list span := [mkSpan 540 1080 "1 2 3 4 5"; mkSpan 0 1439 "6"].

Definition office_rule : AlertRule :=
  cpu_rule <| Rule.EnableStime := "09:00 00:00" |> <| Rule.EnableEtime := "18:00 23:59" |>
           <| Rule.EnableDaysOfWeek := "1 2 3 4 5;6" |>.

(** The first of January 1970 was a Thursday: muted at midnight, not at ten. *)
Lemma TimeSpanMuteStrategy_spec_witness :
  TimeSpanMuteStrategy office_rule (cpu_event "hi" 1 0) = Ret true ∧
  TimeSpanMuteStrategy office_rule (cpu_event "hi" 1 36000) = Ret false.
Proof.
  assert (has_spans office_rule office) as Hspans by (repeat split; vm_compute; congruence).
  assert (Forall span_wf office) as Hwf by (unfold span_wf; evaluate).
  rewrite (TimeSpanMuteStrategy_spec office_rule (cpu_event "hi" 1 0) office Hspans Hwf).
  rewrite (TimeSpanMuteStrategy_spec office_rule (cpu_event "hi" 1 36000) office Hspans Hwf).
  split; vm_compute; reflexivity.
Defined.

(** Two day groups and a single time: an event on a day of the second group. *)
Definition short_rule : AlertRule :=
  cpu_rule <| Rule.EnableStime := "08:00" |> <| Rule.EnableEtime := "18:00" |>
           <| Rule.EnableDaysOfWeek := "1 2 3;4" |>.

Lemma TimeSpanMuteStrategy_panics_witness : TimeSpanMuteStrategy short_rule (cpu_event "hi" 1 0) = Panic.
Proof.
  apply (TimeSpanMuteStrategy_panics short_rule (cpu_event "hi" 1 0) ["1 2 3"] "4" []);
    [vm_compute; reflexivity | vm_compute; congruence | evaluate | vm_compute; reflexivity | evaluate].
Defined.

Definition ident_filter : TagFilter :=
  TagFlt.zero <| TagFlt.Key := "ident" |> <| TagFlt.Func := "in" |> <| TagFlt.Value := IString "web01 web02" |>.

Definition parsed_ident : TagFilter := ident_filter <| TagFlt.Vset := Some {["web01"; "web02"]} |>.

Definition web_event : AlertCurEvent := (cpu_event "hi" 1 100) <| Event.TagsMap := {["ident" := "web01"]} |>.

Definition web_mute : AlertMute :=
  Mute.zero <| Mute.ITags := [parsed_ident] |> <| Mute.Btime := 0 |> <| Mute.Etime := 1000 |>.

Lemma MatchTags_ParseTagFilter_witness :
  MatchTags {["ident" := "web01"]} [parsed_ident] = Ret true ∧ MatchTags {["ident" := "db01"]} [parsed_ident] = Ret false.
Proof.
  assert (ParseTagFilter [ident_filter] = Ok [parsed_ident]) as Hparse by (vm_compute; reflexivity).
  assert (Forall plain_key [ident_filter]) as Hkeys by (constructor; [vm_compute; congruence | constructor]).
  rewrite (MatchTags_ParseTagFilter {["ident" := "web01"]} _ _ Hparse Hkeys).
  rewrite (MatchTags_ParseTagFilter {["ident" := "db01"]} _ _ Hparse Hkeys).
  split; vm_compute; reflexivity.
Defined.

Lemma MatchMute_spec_witness :
  ∃ b err, MatchMute web_event web_mute None = Ret (b, err) ∧
    (b = true ↔ mute_applies web_event web_mute None [ident_filter]) ∧ (b = true ↔ err = None).
Proof.
  apply (MatchMute_spec web_event web_mute None [ident_filter]);
    [vm_compute; reflexivity | constructor; [vm_compute; congruence | constructor]].
Defined.

Definition office_mute : AlertMute :=
  Mute.zero <| Mute.PeriodicMutesJson := [PeriodicMt.mkPeriodicMute "09:00" "18:00" "1 2 3 4 5";
                                          PeriodicMt.mkPeriodicMute "00:00" "23:59" "6"] |>.

Lemma IsWithinPeriodicMute_spec_witness :
  IsWithinPeriodicMute office_mute 36000 = true ∧ IsWithinPeriodicMute office_mute 0 = false.
Proof.
  assert (Forall span_wf office) as Hwf by (unfold span_wf; evaluate).
  rewrite (IsWithinPeriodicMute_spec office_mute 36000 office eq_refl Hwf).
  rewrite (IsWithinPeriodicMute_spec office_mute 0 office eq_refl Hwf).
  split; vm_compute; reflexivity.
Defined.

(** Drop the label set of the test hosts. *)
Definition drop_test : RelabelConfig :=
  RelabelConf.zero <| RelabelConf.SourceLabels := ["env"] |> <| RelabelConf.Regex := "test" |>
                   <| RelabelConf.Separator := ";" |> <| RelabelConf.Action := Drop |>.

Definition test_regexp : regexp := "test".

Lemma relabel_drops_witness :
  relabel (Some [Lbl.mkLabel "env" "prod"]) drop_test ≠ Ret None.
Proof.
  intros Hnone.
  apply (relabel_drops [Lbl.mkLabel "env" "prod"] drop_test test_regexp) in Hnone; [|vm_compute; reflexivity].
  destruct Hnone as [(_ & Hm) | [(Ha & _) | (Ha & _)]].
  - vm_compute in Hm. discriminate Hm.
  - discriminate Ha.
  - discriminate Ha.
Defined.

Definition tagged_event : AlertCurEvent :=
  fired_event <| Event.Tags := "env=prod,,ident=web01" |> <| Event.TagsJSON := ["env=prod"; "ident=web01"] |>.

Lemma EventRelabel_stable_witness :
  match EventRelabel tagged_event [drop_test] with
  | Ret (e', cfgs') => EventRelabel tagged_event cfgs' = Ret (e', cfgs')
  | Panic => False
  end.
Proof.
  destruct (EventRelabel tagged_event [drop_test]) as [[e' cfgs']|] eqn:Hrun;
    [|vm_compute in Hrun; discriminate Hrun].
  apply (EventRelabel_stable _ _ _ _ Hrun).
Defined.

(** ** Rules, subscriptions and rows *)

Lemma AlertRule_Verify_sound_witness : rule_ok (fst (AlertRule_Verify tagged_rule)).
Proof.
  apply (AlertRule_Verify_sound tagged_rule). vm_compute. reflexivity.
Defined.

Lemma AlertSubscribe_Verify_sound_witness : subscribe_ok (fst (AlertSubscribe_Verify critical_sub)).
Proof.
  apply (AlertSubscribe_Verify_sound critical_sub). vm_compute. reflexivity.
Defined.

(** Two spans on different days, stored and loaded. *)
Definition two_spans : AlertRule :=
  cpu_rule <| Rule.EnableStimesJSON := ["09:00"; "00:00"] |> <| Rule.EnableEtimesJSON := ["18:00"; "23:59"] |>
           <| Rule.EnableDaysOfWeeksJSON := [["1"; "2"; "3"]; ["6"; "0"]] |>.

Definition two_spans_row : AlertRule :=
  (fst (AlertRule_FE2DB two_spans)) <| Rule.EnableDaysOfWeeksJSON := [] |>.

Lemma rule_times_roundtrip_witness :
  match AlertRule_DB2FE two_spans_row with
  | Ret r' => Rule.EnableStimesJSON r' = ["09:00"; "00:00"] ∧ Rule.EnableEtimesJSON r' = ["18:00"; "23:59"] ∧
              Rule.EnableDaysOfWeeksJSON r' = [["1"; "2"; "3"]; ["6"; "0"]]
  | Panic => False
  end.
Proof.
  destruct (AlertRule_DB2FE two_spans_row) as [r'|] eqn:Hload; [|vm_compute in Hload; discriminate Hload].
  destruct (rule_times_roundtrip two_spans (fst (AlertRule_FE2DB two_spans)) two_spans_row r') as (Hs & He & Hd).
  - vm_compute. reflexivity.
  - exact Hload.
  - vm_compute. congruence.
  - vm_compute. congruence.
  - vm_compute. reflexivity.
  - vm_compute. reflexivity.
  - vm_compute. reflexivity.
  - change (Forall day_group [["1"; "2"; "3"]; ["6"; "0"]]). unfold day_group, words. evaluate.
  - vm_compute. reflexivity.
  - vm_compute. reflexivity.
  - vm_compute. reflexivity.
  - vm_compute. reflexivity.
  - rewrite Hs, He, Hd. vm_compute. auto.
Defined.

(** A codec for maps of strings, through their number in binary. *)
Fixpoint bits (p : BinNums.positive) : string :=
  match p with
  | xH => "b"
  | xO p => String "0"%char (bits p)
  | xI p => String "1"%char (bits p)
  end.

Fixpoint of_bits (s : string) : option BinNums.positive :=
  match s with
  | String "0"%char s => xO <$> of_bits s
  | String "1"%char s => xI <$> of_bits s
  | String "b"%char _ => Some xH
  | _ => None
  end.

Lemma of_bits_bits p : of_bits (bits p) = Some p.
Proof. induction p as [p IH|p IH|]; cbn; [by rewrite IH..|done]. Qed.

#[export] Instance map_json : Json (gmap string string) := {|
  json_marshal := λ m, Ok (bits (encode m));
  json_unmarshal := λ s old, match of_bits s ≫= decode with
                             | Some m => (m, None)
                             | None => (old, Some "invalid character")
                             end
|}.

#[export] Instance map_round_trip : JsonRoundTrip (gmap string string) ∅.
Proof.
  refine {| json_wf := λ _, True |}. intros m _. exists (bits (encode m)). split; [done|]. split.
  - by destruct (encode m).
  - cbn [json_unmarshal map_json]. rewrite of_bits_bits. cbn [mbind option_bind]. by rewrite decode_encode.
Defined.

#[export] Instance iface_round_trip : JsonRoundTrip iface INil.
Proof. refine {| json_wf := λ v, v = INil |}. intros v ->. by exists "{}". Defined.

Definition annotated_event : AlertCurEvent :=
  fired_event <| Event.TagsJSON := ["env=prod"; "ident=web01"] |> <| Event.OriginalTagsJSON := ["ident=web01"] |>
              <| Event.NotifyChannelsJSON := ["email"; "sms"] |> <| Event.AnnotationsJSON := {["summary" := "cpu"]} |>.

Definition annotated_row : AlertCurEvent :=
  (FE2DB annotated_event) <| Event.AnnotationsJSON := ∅ |> <| Event.RuleConfigJson := INil |>.

Lemma event_db_roundtrip_witness :
  ∃ r', DB2FE annotated_row = (r', None) ∧ Event.TagsJSON r' = ["env=prod"; "ident=web01"] ∧
    Event.AnnotationsJSON r' = {["summary" := "cpu"]}.
Proof.
  destruct (event_db_roundtrip annotated_event annotated_row) as (r' & Hrow & _ & _ & _ & Htags & _ & Hann & _).
  - split; vm_compute; reflexivity.
  - vm_compute. reflexivity.
  - vm_compute. reflexivity.
  - vm_compute. reflexivity.
  - split; [vm_compute; congruence | vm_compute; reflexivity].
  - split; [vm_compute; congruence | vm_compute; reflexivity].
  - exact I.
  - reflexivity.
  - exists r'. split; [exact Hrow|]. split; [exact Htags | exact Hann].
Defined.
