(* ===== verification/EngineWitnesses.v ===== *)
(** * Concrete engines

    Instances of what an engine reads (the ring, the table of engines, redis,
    the scheduler, the expressions and the data sources), and the theorems on
    naming, caches, scheduling and evaluation applied to a small cluster, with
    their hypotheses evaluated. *)

From Stdlib Require Import Ascii QArith_base.
From S2P Require Import Prelude GoStrings GoTime Json Models RuleModels EventOps Filter Mute.
From S2P Require Import Relabel Workflow Engine Processors RuleOps EventTable Process Subscription.
From S2P Require Import Dispatch Consume Naming Caches Joins Scheduler Vars Eval Liveness Witnesses.
Open Scope string_scope.
Open Scope Z_scope.

(** ** Instances *)

(** A ring that chooses by the length of the key. *)
#[export] Instance length_ring : ConsistentLib.
Proof.
  refine {| ring := list string; ring_New := λ _, []; ring_Add := λ r x, (r ++ [x])%list; ring_Members := λ r, r;
            ring_Get := λ r pk, match r !! (String.length pk mod length r)%nat with
                                | Some x => Ok x | None => Err ErrEmptyCircle end |}.
  - done.
  - intros r x y. set_solver.
  - by intros r pk ->.
  - intros r pk Hr. destruct (lookup_lt_is_Some_2 r (String.length pk mod length r)) as [x Hx].
    + apply Nat.mod_upper_bound. by destruct r.
    + exists x. rewrite Hx. split; [done|]. by eapply list_elem_of_lookup_2.
Defined.

(** A table in memory whose statements work, and two data sources. *)
#[export] Instance memory_engines : EngineTable (list AlertingEngines).
Proof.
  refine {| et_rows := λ t, t; et_Count := λ t p, Ok (length (List.filter p t));
            et_Create := λ t e, Ok (t ++ [e <| Engines.Id := Z.of_nat (length t) + 1 |>])%list;
            et_Updates := λ t p c, Ok (map (λ e, if p e then e <| Engines.Clock := c |> else e) t);
            et_Delete := λ t p, Ok (List.filter (negb ∘ p) t);
            et_Pluck := λ t p, Ok (map Engines.Instance_ (List.filter p t)); et_datasources := λ _ _, Ok [1; 2] |}.
  - by intros t p n [= <-].
  - intros t e t' [= <-]. by eexists.
  - by intros t p c t' [= <-].
  - by intros t p t' [= <-].
  - by intros t p l [= <-].
Defined.

#[export] Instance center_only : CenterApi (list AlertingEngines) := {|
  post_heartbeat := λ t _ _ _, (t, None); get_datasource_ids := λ _ _, Ok [];
  get_servers_by_datasource := λ _ _, Ok []; get_servers_by_engine := λ _ _, Ok []
|}.

#[export] Instance minutely : CronSchedule := {| cron_interval := λ _ _, 15 |}.
#[export] Instance one_row : CurEventRows := {| cur_event_rows := λ _ _, Ok stored_rows |}.
#[export] Instance plain_value : ValueFormat := {| ValueFormatter := λ _ _, FormattedVal.zero |}.
#[export] Instance plain_float : FormatFloat := {| format_float_f := λ f, itoa (float64_to_int f) |}.
#[export] Instance no_selectors : PromParser := {| parse_selectors := λ _, Ok [] |}.
#[export] Instance no_idents : IdentQueries := {| host_idents := λ _, Ok []; device_idents := λ _, Ok [] |}.
#[export] Instance always_true : ExprLib := {| expr_eval := λ _ _, Ok (IBool true) |}.
#[export] Instance no_datasources : Datasources := {| ds_exists := λ _ _, false; ds_QueryData := λ _ _ _ _, Err "gone" |}.
#[export] Instance plain_sql : SqlTemplate := {| sql_template := λ s, Ok s |}.
#[export] Instance plain_eval_fmt : EvalFmt := {|
  fmt_fixed3 := λ f, itoa (float64_to_int f); fmt_datetime := itoa; fmt_query := λ _ _, ""
|}.

(** Hashes of short texts do not collide. *)
#[export] Instance text_hash : Murmur3 := {|
  murmur3_Sum64 := λ s, fold_left (λ h c, h * 257 + Z.of_nat (nat_of_ascii c) + 1) (String.list_ascii_of_string s) 0
|}.

(** ** Naming *)

Definition row (i : string) (ds clock : Z) : AlertingEngines := Engines.mkAlertingEngines 1 i "default" ds clock.
Definition engine_a : nconf := mkNconf true "10.0.0.1:17000" "default".
Definition engine_b : nconf := mkNconf true "10.0.0.2:17000" "default".

(** Engine b sent a heartbeat, engine c was last seen a minute ago. *)
Definition live_table : list AlertingEngines :=
  [row "10.0.0.2:17000" 1 995; row "10.0.0.2:17000" 2 995; row "10.0.0.3:17000" 1 940].

Lemma default_not_id ds : itoa ds ≠ "default".
Proof.
  intros H. assert (str_forall (char_neb "d"%char) (itoa ds) = true) as E by (by apply itoa_free).
  rewrite H in E. discriminate E.
Qed.

Lemma heartbeat_rings_witness :
  ∃ t' s', heartbeat engine_a 1000 live_table (mkNstate ∅ ∅ ∅) = (t', s', None) ∧
    n_rings s' !! "1" = Some (NewConsistentHashRing NodeReplicas ["10.0.0.1:17000"; "10.0.0.2:17000"]).
Proof.
  destruct (heartbeat_rings engine_a 1000 live_table (mkNstate ∅ ∅ ∅) [1; 2]) as (t' & s' & Hrun & _ & Hrings).
  - reflexivity.
  - vm_compute. reflexivity.
  - apply default_not_id.
  - intros e He. repeat (apply elem_of_cons in He as [-> | He]; [vm_compute; reflexivity|]).
    by apply not_elem_of_nil in He.
  - apply rings_ok_init.
  - reflexivity.
  - exists t', s'. split; [exact Hrun|].
    apply (Hrings 1 ["10.0.0.2:17000"; "10.0.0.1:17000"]); [left|vm_compute; reflexivity].
Defined.

(** Engine b beats and the center expires engines while engine a is silent for
    25 seconds: both are still alive. *)
Definition later_table : list AlertingEngines :=
  DeleteInactiveInstances (beat engine_b 1010 (fst (fst (heartbeat engine_a 1000 live_table (mkNstate ∅ ∅ ∅)))) 1) 1025.

Lemma heartbeat_alive_witness :
  "10.0.0.1:17000" ∈ ["10.0.0.2:17000"; "10.0.0.1:17000"].
Proof.
  apply (heartbeat_alive engine_a 1000 live_table (mkNstate ∅ ∅ ∅) [1; 2] 1 1025 later_table).
  - reflexivity.
  - reflexivity.
  - right. left.
  - intros t. destruct (length (List.filter (same_engine "10.0.0.1:17000" "default" 1) t)) as [|n] eqn:Hn.
    + eexists 0%nat, _. split_and!; [cbn; by rewrite Hn|reflexivity|intros H; by destruct H].
    + eexists (S n), _. split_and!; [cbn; by rewrite Hn|intros H; discriminate H|reflexivity].
  - lia.
  - eapply rtc_l; [apply (tstep_beat _ _ engine_b 1010 1); [reflexivity|lia]|].
    apply rtc_once, tstep_delete. lia.
  - vm_compute. reflexivity.
Defined.

(** ** Caches *)

(** A table that grows by a rule a second. *)
Definition growing (n : nat) : Statistics * list AlertRule :=
  (mkStatistics (Z.of_nat n) (100 + Z.of_nat n), map (λ i, Rule.zero <| Rule.Id := Z.of_nat i |>) (seq 0 n)).

(** A round that races with a write, a failed one, and one that works. *)
Lemma poll_fresh_witness :
  let c := fst (sync rules_by_id (Cache_Reset ∅) (Ok (fst (growing 1))) (Ok (snd (growing 2)))) in
  let c' := fst (sync rules_by_id c (Ok (fst (growing 2))) (Ok (snd (growing 2)))) in
  c_data c' = rules_by_id (snd (growing 2)).
Proof.
  intros c c'.
  refine (proj2 (poll_fresh rules_by_id ∅ growing 2 c c' None _ _ _)).
  - split; [intros i; cbn; lia|]. intros i j k Hk [= E]. assert (k = i) as -> by lia. reflexivity.
  - eapply rtc_l; [apply poll_write|]. apply rtc_once.
    apply (poll_sync rules_by_id growing 1 2); [lia|by left..].
  - reflexivity.
Defined.

(** ** Joins *)

Definition series (ref : string) (host : string) (v : Z) : DataResp :=
  Series.mkDataResp ref {["__name__" := ref; "host" := host]} "" [[F64 (inject_Z 100); F64 (inject_Z v)]] "".

Definition cpu_web : DataResp := series "cpu" "web01" 90.
Definition cpu_db : DataResp := series "cpu" "db01" 20.
Definition mem_web : DataResp := series "mem" "web01" 70.

Definition series_store : store := {[1 := cpu_web; 2 := cpu_db; 3 := mem_web]}.
Definition series_indexes : gmap string index :=
  {["A" := {[1 := [1]; 2 := [2]]}; "B" := {[3 := [3]]}]}.

Definition host_join : Trigger :=
  Trig.zero <| Trig.JoinRef := "A" |> <| Trig.Joins := [JoinConf.mkJoin "inner_join" "B" ["host"]] |>.

Lemma series_store_cases h s : series_store !! h = Some s → s = cpu_web ∨ s = cpu_db ∨ s = mem_web.
Proof. unfold series_store. rewrite !lookup_insert_Some, lookup_singleton_Some. naive_solver. Qed.

Lemma ProcessJoins_relational_witness :
  groups (ProcessJoins host_join series_indexes series_store) ≡ₚ [[1; 3]].
Proof.
  etrans; [apply (ProcessJoins_relational host_join series_indexes series_store ["host"]
    (JoinConf.mkJoin "inner_join" "B" ["host"]) [])|].
  - reflexivity.
  - reflexivity.
  - by repeat constructor.
  - vm_compute. reflexivity.
  - intros h1 h2 s1 s2 [->|[->| ->]]%series_store_cases [->|[->| ->]]%series_store_cases; vm_compute; done.
  - vm_compute. reflexivity.
Defined.

(** ** Alerts of a rule with a duration *)

Definition slow_rule : AlertRule := cpu_rule <| Rule.PromForDuration := 60 |>.
Definition slow_state : pstate := mkPstate slow_rule true 15 ∅ ∅ ∅ ∅ [] [].

(** Evaluations at 100, 130 and 160 with a less severe alert in the group, which is held
    back; another group and recoveries are handled in between. *)
Definition slow_group (l : loc) (t : Z) : list (loc * AlertCurEvent) := [(l, cpu_event "lo" 3 t); (S l, cpu_event "hi" 1 t)].
Definition slow_after : pstate :=
  evaluate (HandleRecover (evaluate (evaluate (evaluate slow_state (slow_group 0 100)) (slow_group 2 130)) [(4%nat, cpu_event "other" 2 130)])
              {["hi"]} 130 false) (slow_group 5 160).

Lemma slow_group_fresh p l t : p_heap p !! l = None → p_heap p !! S l = None → fresh p (slow_group l t).
Proof.
  intros H1 H2. split; cbn.
  - apply NoDup_cons. split; [intros ?%list_elem_of_singleton; lia|apply NoDup_singleton].
  - intros x [->| ->%list_elem_of_singleton]%elem_of_cons; done.
Qed.
Lemma slow_group_holds p l t : holds_in p (slow_group l t) "hi" (S l) (cpu_event "hi" 1 t).
Proof.
  split; [set_solver|done| |done|].
  - intros l' e'. unfold slow_group. intros [[= -> ->]|[[= -> ->]|[]%not_elem_of_nil]%elem_of_cons]%elem_of_cons; done.
  - intros _. split; [by vm_compute|]. intros l' e'. unfold slow_group.
    intros [[= -> ->]|[[= -> ->]|[]%not_elem_of_nil]%elem_of_cons]%elem_of_cons; by vm_compute.
Qed.

Lemma for_duration_fires_witness : is_Some (p_fires slow_after !! "hi").
Proof.
  apply (for_duration_fires "hi" slow_state 100 [130; 160] slow_after 160).
  - evaluate.
  - reflexivity.
  - by vm_compute.
  - apply (evaluations_cons "hi" slow_state (slow_group 0 100) 1%nat (cpu_event "hi" 1 100));
      [apply slow_group_fresh; by vm_compute|apply slow_group_holds|].
    refine (evaluations_cons "hi" _ (slow_group 2 130) 3%nat (cpu_event "hi" 1 130) _ _ _ _ _);
      [apply slow_group_fresh; by vm_compute|apply slow_group_holds|].
    refine (evaluations_other "hi" _ [(4%nat, cpu_event "other" 2 130)] _ _ _ _ _).
    { split; [apply NoDup_singleton|]. intros x ->%list_elem_of_singleton. by vm_compute. }
    { by intros l e [= -> ->]%list_elem_of_singleton. }
    apply (evaluations_recover "hi" _ {["hi"]} 130 false); [set_solver|].
    refine (evaluations_cons "hi" _ (slow_group 5 160) 6%nat (cpu_event "hi" 1 160) _ _ _ _ _);
      [apply slow_group_fresh; by vm_compute|apply slow_group_holds|].
    apply evaluations_nil.
  - right. right. left.
  - by vm_compute.
Defined.

(** ** Scheduling *)

Definition prom_source : Datasource :=
  Source.zero <| Source.Id := 1 |> <| Source.Name := "prom" |> <| Source.PluginType := "prometheus" |>
              <| Source.Status := "enabled" |>.
Definition sources : dsdata := datasource_maps {[1 := prom_source]}.

(** The rule runs on all data sources of its kind. *)
Definition prom_rule : AlertRule :=
  cpu_rule <| Rule.Prod := "metric" |> <| Rule.Cate := "prometheus" |>
           <| Rule.DatasourceQueries := [DsQuery.zero <| DsQuery.MatchType := 2 |>] |>.
Definition prom_caches : caches := mkCaches {[7 := prom_rule]} {["web01" := web01]} ∅ ∅ ∅ ∅.

Definition sched_conf (cf : nconf) : sconf := mkSconf (n_EngineName cf) (n_Endpoint cf) true (λ _, false) [].
Definition both : list string := ["10.0.0.1:17000"; "10.0.0.2:17000"].
Definition ring_state : nstate := mkNstate ∅ ∅ {["1" := NewConsistentHashRing NodeReplicas both]}.
Definition no_workers : sstate := mkSstate 0 ∅ ∅ [].

Definition round (cf : nconf) (s : sstate) : go (gmap Z AlertRule * gmap string ring * sstate) :=
  sync_workers (sched_conf cf) 1000 sources prom_caches (n_rings ring_state) s.
Definition after_round (cf : nconf) (s : sstate) : sstate :=
  match round cf s with Ret (_, _, s') => s' | Panic => s end.

Lemma prom_keyed : keyed_rules (c_alertRule prom_caches).
Proof. intros id rule Hrule. cbn in Hrule. apply lookup_singleton_Some in Hrule as [<- <-]. reflexivity. Qed.

(** Engine b owns the rule; a second round keeps its worker. *)
Definition cpu_hash_b : string := worker_hash prom_rule 1.

Lemma sync_workers_spec_witness :
  is_Some (s_alertRules (after_round engine_b no_workers) !! cpu_hash_b).
Proof.
  destruct (round engine_b no_workers) as [[[rules' rings'] s']|] eqn:Hrun; [|vm_compute in Hrun; discriminate Hrun].
  unfold after_round. rewrite Hrun.
  apply (sync_workers_spec (sched_conf engine_b) 1000 sources prom_caches (n_rings ring_state) no_workers
    rules' rings' s' prom_keyed Hrun).
  exists 7, prom_rule, 1. split_and!; [reflexivity| |reflexivity]. evaluate.
Defined.

Lemma sched_invariant_witness :
  ∃ m, alive m (after_round engine_b (after_round engine_b no_workers)).
Proof.
  apply (sched_invariant (sched_conf engine_b)).
  destruct (round engine_b no_workers) as [[[r1 g1] s1]|] eqn:H1; [|vm_compute in H1; discriminate H1].
  assert (after_round engine_b no_workers = s1) as -> by (unfold after_round; by rewrite H1).
  destruct (round engine_b s1) as [[[r2 g2] s2]|] eqn:H2; cycle 1.
  { exfalso. assert (s1 = after_round engine_b no_workers) as Hs by (unfold after_round; by rewrite H1).
    rewrite Hs in H2. vm_compute in H2. discriminate H2. }
  assert (after_round engine_b s1 = s2) as -> by (unfold after_round; by rewrite H2).
  eapply rtc_l; [exact (sched_round _ _ _ _ _ _ _ _ _ prom_keyed H1)|].
  apply rtc_once. exact (sched_round _ _ _ _ _ _ _ _ _ prom_keyed H2).
Defined.

(** Both engines do a round: exactly one runs the rule. *)
Definition cluster : list engine :=
  map (λ cf, mkEngine (cf, ring_state) (sched_conf cf) no_workers (after_round cf no_workers)) [engine_a; engine_b].

Lemma round_works cf : cf = engine_a ∨ cf = engine_b →
  ∃ now rules' rings', sync_workers (sched_conf cf) now sources prom_caches (n_rings ring_state) no_workers
    = Ret (rules', rings', after_round cf no_workers).
Proof.
  intros Hcf. exists 1000. change (sync_workers (sched_conf cf) 1000 sources prom_caches (n_rings ring_state) no_workers)
    with (round cf no_workers).
  destruct (round cf no_workers) as [[[r g] s]|] eqn:Hrun.
  - exists r, g. unfold after_round. by rewrite Hrun.
  - destruct Hcf as [-> | ->]; vm_compute in Hrun; discriminate Hrun.
Qed.

Lemma cluster_runs_once_witness :
  ∃ i g, cluster !! i = Some g ∧ has_worker cpu_hash_b g ∧
    ∀ j g', cluster !! j = Some g' → has_worker cpu_hash_b g' → j = i.
Proof.
  apply (cluster_runs_once sources prom_caches both cluster 7 prom_rule 1 prom_source).
  - exact prom_keyed.
  - reflexivity.
  - vm_compute. reflexivity.
  - evaluate.
  - vm_compute. reflexivity.
  - vm_compute. reflexivity.
  - reflexivity.
  - intros id' rule' ds' _ H. exact H.
  - discriminate.
  - evaluate.
  - intros e He. exact He.
  - intros g Hg. apply list_elem_of_fmap in Hg as (cf & -> & Hcf). split; [reflexivity|]. split.
    + exists both. split; [reflexivity|]. vm_compute. reflexivity.
    + apply round_works. apply elem_of_cons in Hcf as [-> | ->%list_elem_of_singleton]; [by left|by right].
Defined.

(** ** Evaluation *)

(** The rule configuration of the MySQL rule does not name a data source that
    exists: the evaluation fails and keeps the firing alert. *)
Definition mysql_rule : AlertRule := cpu_rule <| Rule.Prod := "metric" |> <| Rule.Cate := "mysql" |>.
Definition mysql_worker : worker := mkWorker 0 1 mysql_rule false {[1 := cpu_web]} cpu_state.
Definition no_hosts : hosts := mkHosts ∅ None.

Lemma Eval_error_keeps_witness :
  match Eval (sched_conf engine_a) no_hosts prom_caches 1000 mysql_worker tt with
  | Ret (w', _, out, Some _) => out = [] ∧ w_LastSeriesStore w' = {[1 := cpu_web]} ∧ p_fires (w_Processor w') = p_fires cpu_state
  | _ => False
  end.
Proof.
  destruct (Eval (sched_conf engine_a) no_hosts prom_caches 1000 mysql_worker tt)
    as [[[[w' wd'] out] [e|]]|] eqn:Hrun; [|vm_compute in Hrun; discriminate Hrun..].
  destruct (Eval_error_keeps _ _ _ _ _ _ _ _ _ _ Hrun) as (_ & Hout & Hst & n & Hp).
  rewrite Hp. split; [exact Hout|]. split; [exact Hst|reflexivity].
Defined.

(** A series seen at 100 is missing in the rounds at 130 and 160. *)
Definition nodata_trigger : NodataTrigger := NodataTrig.mkNodataTrigger true 2 true 600.

Lemma nodata_until_expired_witness :
  length (fst (nodata_run nodata_trigger [(130, {[2 := cpu_db]}); (160, ∅)] {[1 := cpu_web]})) = 2%nat ∧
  snd (nodata_run nodata_trigger [(130, {[2 := cpu_db]}); (160, ∅)] {[1 := cpu_web]}) !! 1 = Some cpu_web.
Proof.
  destruct (nodata_until_expired nodata_trigger 1 cpu_web [(130, {[2 := cpu_db]}); (160, ∅)] {[1 := cpu_web]})
    as [Hpoints Hlast].
  - reflexivity.
  - vm_compute. by eexists.
  - intros now st Hin. apply elem_of_cons in Hin as [[= -> ->] | [= -> ->]%list_elem_of_singleton];
      split; vm_compute; reflexivity.
  - split; [|exact Hlast]. by rewrite <- (Forall2_length _ _ _ Hpoints).
Defined.

(** Redis knows no report, so that the table decides: the host was seen at 100. *)
Definition empty_redis : Redis := {| redis_Get := λ _, None |}.
Definition miss_trigger : HostTrigger := HostTrig.mkHostTrigger "target_miss" 60 0 1.
Definition web_targets : gmap string Target := {["web01" := web01 <| Tgt.UpdateAt := 100 |>]}.

Lemma target_miss_spec_witness :
  ∃ p, p ∈ target_miss (sched_conf engine_a) (mkHosts {["default" := {[7 := ["web01"]]}]} (Some empty_redis))
             web_targets 7 200 miss_trigger ∧
    Point.Labels p !! "ident" = Some "web01".
Proof.
  apply (target_miss_spec (sched_conf engine_a) empty_redis {["default" := {[7 := ["web01"]]}]} web_targets 7 200
    miss_trigger "web01").
  - intros ident value h Hget. discriminate Hget.
  - intros i t Ht. unfold web_targets in Ht. apply lookup_singleton_Some in Ht as [<- <-]. reflexivity.
  - split; [vm_compute; left|]. split; [vm_compute; by eexists|]. exists 100. split; [vm_compute; reflexivity|]. cbn. lia.
Defined.

(** A round starts the worker, and an evaluation without a client follows. *)
Lemma engine_invariant_witness :
  match s_alertRules (after_round engine_b no_workers) !! cpu_hash_b with
  | Some w =>
      match Eval (sched_conf engine_b) no_hosts prom_caches 1000 w tt with
      | Ret (w', _, _, _) => wf (w_Processor w')
      | Panic => False
      end
  | None => False
  end.
Proof.
  destruct (round engine_b no_workers) as [[[r g] s]|] eqn:Hrun; [|vm_compute in Hrun; discriminate Hrun].
  assert (after_round engine_b no_workers = s) as Hs by (unfold after_round; by rewrite Hrun). rewrite Hs.
  destruct (s_alertRules s !! cpu_hash_b) as [w|] eqn:Hw; [|rewrite <- Hs in Hw; vm_compute in Hw; discriminate Hw].
  destruct (Eval (sched_conf engine_b) no_hosts prom_caches 1000 w tt) as [[[[w' wd'] out] m]|] eqn:He.
  - apply (engine_invariant (sched_conf engine_b) no_workers (s <| s_alertRules := <[cpu_hash_b := w']> (s_alertRules s) |>)
      eq_refl) with (hash := cpu_hash_b).
    + intros h x Hx. unfold no_workers in Hx. cbn in Hx. by rewrite lookup_empty in Hx.
    + eapply rtc_l; [exact (en_round _ _ _ _ _ _ _ _ _ prom_keyed Hrun)|].
      apply rtc_once. exact (en_eval _ _ _ _ _ _ _ _ _ _ _ _ Hw He).
    + apply lookup_insert_eq.
  - assert (Some w = s_alertRules (after_round engine_b no_workers) !! cpu_hash_b) as Hw' by (by rewrite Hs).
    vm_compute in Hw'. injection Hw' as ->. vm_compute in He. discriminate He.
Defined.
