(* ===== verification/PushWitnesses.v ===== *)
(** * Concrete instances for the senders and the push gateway

    A network that answers every request, a queue of records, a redis server and
    a table in memory, and the theorems about queues, senders, webhooks, writers,
    samples and hosts applied to concrete values. *)

From Stdlib Require Import Ascii QArith_base.
From S2P Require Import Prelude GoStrings GoTime Json Models RuleModels EventOps Filter Mute Relabel Workflow Engine.
From S2P Require Import Processors RuleOps EventTable Process Subscription Dispatch Consume Naming Caches Joins Scheduler Vars Eval.
From S2P Require Import Queues Http Senders Webhooks Callbacks Writers Push Idents Hosts Sources Record External.
From S2P Require Import Witnesses EngineWitnesses.
Open Scope string_scope.
Open Scope Z_scope.
Open Scope list_scope.

(** ** Instances *)

(** The world of the network: the URLs that were called. *)
#[export] Instance one_center_up : Network (list string).
Proof.
  refine {| http_url_error := λ _, None;
            http_do := λ _ w r, (w ++ [rq_url r], r,
              if has_prefix (rq_url r) "http://down" then Err "connection refused" else Ok (mkResponse 200 "{}" None));
            rand_Intn := λ w n, (w, (length w mod n)%nat);
            N9E_PROXY_URL := "" |}.
  intros w n Hn. simpl. apply Nat.mod_upper_bound. lia.
Defined.

#[export] Instance ten_records : RecordQueueLib.
Proof.
  refine {| rqueue := list NotificationRecord; rq_items := λ q, q; rq_capacity := λ _, 10%nat;
            rq_PushFront := λ q r, if decide (length q < 10)%nat then (r :: q, true) else (q, false);
            rq_PopBackBy := λ q n, (take (length q - n) q, reverse (drop (length q - n) q)) |}.
  - intros q r. case_decide; simpl; [by rewrite bool_decide_true|by rewrite bool_decide_false].
  - intros q n. simpl. rewrite reverse_involutive, take_drop, length_reverse, length_drop.
    split_and!; [done..|lia].
Defined.

#[export] Instance no_html : HtmlTpl := {| htpl := unit; htpl_execute := λ _ e, Ok (Event.RuleName e) |}.
#[export] Instance some_contacts : ContactsExist := {| contact_exists := λ c _, negb (String.eqb c "") |}.
#[export] Instance no_urls : UrlLib := {| url_Parse := λ _, Err "no"; url_String_no_query := u_Path |}.

#[export] Instance HostUpdateTime_json : Json HostUpdateTime := {|
  json_marshal := λ h, Ok (bits (encode (hu_Ident h, hu_UpdateTime h)));
  json_unmarshal := λ s old, match of_bits s ≫= decode with
                             | Some (i, t) => (mkHostUpdateTime i t, None)
                             | None => (old, Some "invalid character")
                             end
|}.

#[export] Instance HostUpdateTime_round_trip : JsonRoundTrip HostUpdateTime (mkHostUpdateTime "" 0).
Proof.
  refine {| json_wf := λ _, True |}. intros [i t] _. exists (bits (encode (i, t))). split; [done|]. split.
  - by destruct (encode (i, t)).
  - cbn [json_unmarshal HostUpdateTime_json]. rewrite of_bits_bits. cbn [mbind option_bind]. by rewrite decode_encode.
Defined.

(** A redis server that never fails. *)
#[export] Instance memory_redis : RedisPipe (gmap string string).
Proof.
  refine {| rp_data := λ d, d; rp_exec := λ d kvs, (foldl (λ m kv, <[fst kv := snd kv]> m) d kvs, None) |}.
  - by intros w kvs w' [= <-].
  - intros w kvs. simpl. induction kvs as [|[k v] kvs IH] using rev_ind; intros k0; [by left|].
    rewrite foldl_app. simpl. destruct (decide (k = k0)) as [->|Hne].
    + right. exists v. rewrite lookup_insert_eq. split; [|done]. apply elem_of_app. right. by left.
    + rewrite lookup_insert_ne by done. destruct (IH k0) as [?|(v0 & ? & ?)]; [by left|right].
      exists v0. split; [|done]. apply elem_of_app. by left.
Defined.

#[export] Instance memory_targets : TargetTable (gmap string Z) := {|
  tt_pluck := λ t l, Ok (List.filter (λ h, bool_decide (is_Some (t !! h))) l);
  tt_insert := λ t h z, (<[h := z]> t, None);
  tt_update := λ t h z, (<[h := z]> t, None)
|}.

(** ** Queues *)

(** A queue for two events takes three, gives out the critical ones first, and
    refuses an event of unknown severity. *)
Definition queue_calls : list qop :=
  [QPush (cpu_event "low" 3 1); QPush (cpu_event "high" 1 2); QPush (cpu_event "odd" 7 3);
   QPush (cpu_event "mid" 2 4); QPush (cpu_event "late" 1 5); QPopN 2; QPush (cpu_event "high2" 1 6)].

Lemma event_queue_refines_witness :
  ∃ spq, spq_run (NewSafeEventQueue 2) queue_calls = Ret (spq, snd (spec_run 2 [] queue_calls)) ∧
    snd (spec_run 2 [] queue_calls) =
      [APushed true; APushed true; APushed false; APushed true; APushed false;
       APopped [cpu_event "high" 1 2; cpu_event "mid" 2 4]; APushed true] ∧
    spq_items spq = [cpu_event "high2" 1 6; cpu_event "low" 3 1] ∧ spq_len spq ≤ 3.
Proof.
  destruct (event_queue_refines 2 queue_calls) as (spq & Hrun & Hi & _ & Hl).
  - lia.
  - repeat constructor; simpl; lia.
  - exists spq. split; [exact Hrun|]. split; [vm_compute; reflexivity|]. rewrite Hi. split; [vm_compute; reflexivity|].
    exact Hl.
Defined.

(** Two goroutines find room for one element each in a list that has room for
    one, and both push. *)
Definition overfull : list (llabel Z) := [LCheck 0 [10]; LCheck 1 [20]; LPush 1 [20]; LPush 0 [10]].

Lemma overfull_runs : lruns Some 1 (mkLstate [] ∅) overfull (mkLstate [10; 20] ∅).
Proof.
  eapply lruns_cons; [by apply lstep_check|]. eapply lruns_cons; [by apply lstep_check|].
  eapply lruns_cons; [by apply lstep_push|]. eapply lruns_cons; [by apply lstep_push|]. apply lruns_nil.
Qed.

Lemma limited_list_spec_witness :
  SL_Len [10; 20] ≤ 1 - 1 + 1 * 2 ∧ [20; 10] = [] ++ reverse [10; 20].
Proof.
  destruct (limited_list_spec Some 1 2 1 overfull (mkLstate [10; 20] ∅)) as [Hlen Hfifo]; [lia..| | |].
  - apply overfull_runs.
  - intros g vs Hin. unfold overfull in Hin.
    repeat (apply elem_of_cons in Hin as [[= -> ->]|Hin]; [simpl; lia|]).
    repeat (apply elem_of_cons in Hin as [Hin|Hin]; [discriminate Hin|]). by apply not_elem_of_nil in Hin.
  - split; [exact Hlen|]. apply Hfifo. intros Hin. unfold overfull in Hin.
    repeat (apply elem_of_cons in Hin as [Hin|Hin]; [discriminate Hin|]). by apply not_elem_of_nil in Hin.
Defined.

(** ** The center *)

Definition two_centers : CenterConf := mkCenterConf ["http://down"; "http://up"] "" "" 0.

(** The first address is tried first and does not answer. *)
Lemma center_failover_witness :
  PostByUrls (λ _ : iface, "") two_centers "/v1/n9e/x" INil [] = (["http://down/v1/n9e/x"; "http://up/v1/n9e/x"], None) ∧
  snd (PostByUrls (λ _ : iface, "") two_centers "/v1/n9e/x" INil []) = None.
Proof.
  split; [vm_compute; reflexivity|].
  apply (center_failover INil (λ _ : iface, "") two_centers "/v1/n9e/x" INil "{}" "http://up" []).
  - vm_compute. right. left.
  - reflexivity.
  - split; [reflexivity|]. intros client w req Hreq. simpl. rewrite Hreq. vm_compute has_prefix.
    exists (w ++ ["http://up/v1/n9e/x"]), req, "{}", INil. split; reflexivity.
  - split; [reflexivity|]. intros client w req Hreq. simpl. rewrite Hreq. vm_compute has_prefix.
    exists (w ++ ["http://up/v1/n9e/x"]), req, "{}", INil. split; reflexivity.
Defined.

(** ** Senders *)

Definition no_show {A} (_ : A) : string := "".
Definition center_cx : center_ctx := mkCenterCtx true two_centers.
Definition ann : User := Usr.zero <| Usr.Username := "ann" |> <| Usr.Contacts := "robot" |>.
Definition bob : User := Usr.zero <| Usr.Username := "bob" |>.
Definition pair_events : list AlertCurEvent :=
  [(cpu_event "hi" 1 100) <| Event.Id := 11 |>; (cpu_event "lo" 2 100) <| Event.Id := 12 |>].

Definition quiet : @sstate (list string) ten_records := mkSstate [] ([] : list NotificationRecord).

(** Ann has a token, Bob has none. *)
Lemma robot_records_witness :
  ∃ s', Sender_Send no_show center_cx no_show (DingtalkSender None) (mkMessageContext [ann; bob] pair_events)
          quiet [] = Ret (s', []) ∧
    map NotiRec.EventId (rq_items (ss_records s')) = [12; 11].
Proof.
  destruct (robot_records no_show center_cx no_show (DingtalkSender None) (mkMessageContext [ann; bob] pair_events)
    quiet [] "dingtalk" "dingtalk") as (s' & Hs & rs & Hk & Hi & _).
  - reflexivity.
  - reflexivity.
  - discriminate.
  - vm_compute. lia.
  - exists s'. split; [exact Hs|]. rewrite Hi.
    destruct rs as [|r1 [|r2 [|]]]; try discriminate Hk. vm_compute in Hk. injection Hk as H1 H2 H3 H4 H5 H6.
    vm_compute. by rewrite H3, H6.
Defined.

(** The first attempt at sending fails, and the second one too. *)
Definition alert_mail : list AlertCurEvent * email_message :=
  (pair_events, mkEmailMessage "n9e" ["ann@x"; "bob@x"] "cpu" "high").
Definition mail_start : mail_state := mkMailState [alert_mail] false 0 true quiet.

Lemma email_not_lost_witness :
  let m' := startEmailSender_turn no_show center_cx (λ w, (w ++ ["dial"], true))
              (λ w _, (w ++ ["send"], Some "broken pipe")) (λ w, w ++ ["close"]) 5 MMail mail_start in
  ss_world (ml_s m') = ["dial"; "send"; "close"; "dial"; "send"] ∧ length (rq_items (ss_records (ml_s m'))) = 4%nat ∧
  mail_done (mail_start <| ml_ch := [] |>) m' alert_mail.
Proof.
  intros m'. split; [vm_compute; reflexivity|]. split; [vm_compute; reflexivity|].
  apply (email_not_lost no_show center_cx (λ w, (w ++ ["dial"], true))
    (λ w _, (w ++ ["send"], Some "broken pipe")) (λ w, w ++ ["close"]) 5 alert_mail [] mail_start).
  - reflexivity.
  - reflexivity.
  - vm_compute. lia.
Defined.

(** ** Webhooks *)

Definition hook : Webhook := Hook.zero <| Hook.Url := "http://hook" |> <| Hook.Enable := true |> <| Hook.Batch := 10 |>.
Definition hook_state : wstate := mkWstate quiet ∅ [].
Notation action := (@action (list string) ten_records).
Notation thread := (@thread (list string) ten_records).
Notation gstate := (@gstate (list string) ten_records).
Definition hook_thread (h : string) (pc : tpc) (todo : list action) : thread := mkThread (cpu_event h 1 100) pc todo.
Definition one_push : list action := [ABatch WebhookQ hook].

(** Two events arrive; the goroutine of the first creates the queue. *)
Definition hooks_start : gstate :=
  mkGstate ∅ ∅ {[0%nat := hook_thread "a" TReady one_push; 1%nat := hook_thread "b" TReady one_push]} hook_state [].
Definition hooks_missed : gstate :=
  mkGstate ∅ ∅ {[0%nat := hook_thread "a" (TMissed WebhookQ hook) []; 1%nat := hook_thread "b" TReady one_push]}
    hook_state [].
Definition hooks_made : gstate :=
  mkGstate {[(WebhookQ, "http://hook") := 5%nat]} {[5%nat := ((WebhookQ, "http://hook"), NewSafeEventQueue QueueMaxSize)]}
    {[0%nat := hook_thread "a" (TConsuming WebhookQ hook 5) []; 1%nat := hook_thread "b" TReady one_push]} hook_state [].
Definition hooks_found : gstate :=
  mkGstate {[(WebhookQ, "http://hook") := 5%nat]} {[5%nat := ((WebhookQ, "http://hook"), NewSafeEventQueue QueueMaxSize)]}
    {[0%nat := hook_thread "a" (TConsuming WebhookQ hook 5) []; 1%nat := hook_thread "b" (TFound WebhookQ hook 5) []]}
    hook_state [].

Notation hook_step := (gstep no_show center_cx Hook.Url no_show).

Lemma hooks_step1 : hook_step hooks_start hooks_missed.
Proof.
  refine (eq_rect _ (hook_step hooks_start) (gstep_missed _ _ _ _ hooks_start 0 (hook_thread "a" TReady one_push) WebhookQ hook [] _ _ _ _) _ _);
    reflexivity.
Qed.
Lemma hooks_step2 : hook_step hooks_missed hooks_made.
Proof.
  refine (eq_rect _ (hook_step hooks_missed)
    (gstep_install _ _ _ _ hooks_missed 0 (hook_thread "a" (TMissed WebhookQ hook) []) WebhookQ hook 5 _ _ _) _ _);
    reflexivity.
Qed.
Lemma hooks_step3 : hook_step hooks_made hooks_found.
Proof.
  refine (eq_rect _ (hook_step hooks_made)
    (gstep_found _ _ _ _ hooks_made 1 (hook_thread "b" TReady one_push) WebhookQ hook [] 5 _ _ _ _) _ _);
    reflexivity.
Qed.

Lemma hooks_ginit : ginit hooks_start.
Proof.
  assert (∀ t th, g_threads hooks_start !! t = Some th →
    (t = 0%nat ∧ th = hook_thread "a" TReady one_push) ∨ (t = 1%nat ∧ th = hook_thread "b" TReady one_push)) as Hth.
  { intros t th Ht. cbn [g_threads hooks_start] in Ht. apply lookup_insert_Some in Ht as [[<- <-]|[_ Ht]]; [by left|].
    apply lookup_singleton_Some in Ht as [<- <-]. by right. }
  split; [done|]. split; [done|]. split; [done|]. split.
  - intros t th [[-> ->]|[-> ->]]%Hth; split; try done; apply NoDup_singleton.
  - intros t1 t2 th1 th2 [[-> ->]|[-> ->]]%Hth [[-> ->]|[-> ->]]%Hth He; done.
Qed.

(** The event of the goroutine that created the queue is not in it, nor is it
    ever, although another event is about to be pushed. *)
Lemma batch_swallows_event_witness :
  ∃ th, g_threads hooks_found !! 0%nat = Some th ∧ th_event th = cpu_event "a" 1 100 ∧
    ¬ queued_for hooks_found (WebhookQ, "http://hook") (th_event th).
Proof.
  destruct (batch_swallows_event no_show center_cx Hook.Url no_show hooks_start hooks_made hooks_found
    (WebhookQ, "http://hook") 5) as (t & th & k & wh & Ht & _ & Hpc & _ & Hlost).
  - apply hooks_ginit.
  - eapply greach_step; [eapply greach_step; [apply greach_refl|apply hooks_step1]|apply hooks_step2].
  - vm_compute. reflexivity.
  - eapply greach_step; [apply greach_refl|apply hooks_step3].
  - exists th. assert (t = 0%nat) as ->.
    { cbn [g_threads hooks_found] in Ht. apply lookup_insert_Some in Ht as [[<- <-]|[_ Ht]]; [done|].
      apply lookup_singleton_Some in Ht as [<- <-]. discriminate Hpc. }
    split; [exact Ht|]. split; [by injection Ht as <-|]. apply Hlost. by left.
Defined.

(** ** Self-healing *)

#[export] Instance counted_ibex : IbexLib (list string) := {|
  ibex_db := λ _, true; ibex_redis := λ _, true; ibex_CleanFields := λ m, Ok m; ibex_HandleFH := λ m _, m;
  ibex_Create := λ w _, (w ++ ["create"], Ok 1); ibex_IdGet := λ w, (w ++ ["id"], Ok 1);
  ibex_HostCreate := λ w _ _, (w ++ ["host"], None); ibex_Cache := λ w _ _, (w ++ ["cache"], None);
  ibex_Save := λ w _ _ _, (w ++ ["save"], Ok 1); ibex_Insert := λ w _, (w ++ ["insert"], None)
|}.

Definition restart_tpl : TaskTpl :=
  TskTpl.mkTaskTpl 4 2 "restart" 1 0 30 "" "systemctl restart x" "" "" [] "root" 0 "ann" 0 "ann".
Definition task_data (groups : list Z) : task_caches :=
  mkTaskCaches {[4 := restart_tpl]} {["web01" := web01 <| Tgt.GroupIds := groups |>]} {["ann" := ann]}.
Definition restart : list Tpl := [TaskTpl.mkTpl 4 "restart" ["web01"]].

(** Ann is no administrator, and the host is in another group; with the group of
    the template the task is created. *)
Lemma HandleIbex_authorised_witness :
  HandleIbex no_show center_cx restart (task_data [3]) (cpu_event "a" 1 100) 100 [] = [] ∧
  HandleIbex no_show center_cx restart (task_data [2]) (cpu_event "a" 1 100) 100 [] = ["save"; "insert"].
Proof.
  split; [|vm_compute; reflexivity].
  apply (HandleIbex_authorised no_show center_cx restart (task_data [3]) (cpu_event "a" 1 100) 100 []).
  right. intros t host Ht _ Hh (tpl & Htpl & Hp). apply list_elem_of_singleton in Ht as ->.
  apply list_elem_of_singleton in Hh as ->. unfold task_data in *. cbn [tc_tpls tc_targets tc_users] in *.
  apply lookup_singleton_Some in Htpl as [_ <-].
  destruct Hp as [(u & Hu & Hr)|(t & Ht & Hg)].
  - apply lookup_singleton_Some in Hu as [_ <-]. by apply not_elem_of_nil in Hr.
  - apply lookup_singleton_Some in Ht as [_ <-]. by apply list_elem_of_singleton in Hg.
Defined.

(** ** Writers *)

#[export] Instance plain_codec : Codec (list string) := {|
  proto_marshal := λ _, Ok "series"; snappy_Encode := λ s, s; json_series := λ _, Ok "[]";
  api_Do := λ w r, (w ++ [rq_url r], Ok (mkResponse 200 "" None)); kafka_Send := λ w _ _ _, (w ++ ["kafka"], None)
|}.

Definition cpu_series (h : string) (t : Z) : TimeSeries :=
  mkTimeSeries [Lbl.mkLabel "__name__" "cpu"; Lbl.mkLabel "ident" h] [mkSample (F64 1) t; mkSample (F64 2) t].
Definition prom_options (url : string) (async : bool) : WriterOptions := mkWriterOptions url "" "" async [] [].
Definition three_backends : gmap string Writer :=
  {["http://a" := HttpWriter (mkWriterType (prom_options "http://a" false) true 3 1);
    "http://b" := HttpWriter (mkWriterType (prom_options "http://b" true) false 3 1);
    "kafka" := KafkaWriter (mkKafkaWriterType ["k"] "t" [] false 3 1)]}.
Definition backend_keys : list string := ["http://b"; "http://a"; "kafka"].

(** The second backend is written at once and stamps the series; with a limit of
    one, only the first of the others gets a goroutine. *)
Lemma write_backends_isolated_witness :
  match write_backends three_backends 1 7 backend_keys [cpu_series "web01" 5000] (mkCstate [] [] 0) with
  | Ret (c', series') =>
      map fst (c_running c') = ["http://b"] ∧ c_world c' = ["http://a"] ∧
      map ts_Samples series' = [[mkSample (F64 1) 7000; mkSample (F64 2) 5000]] ∧
      concurrency_ok 1 c' ∧ same_data series' [cpu_series "web01" 5000]
  | Panic => False
  end.
Proof.
  destruct (write_backends three_backends 1 7 backend_keys [cpu_series "web01" 5000] (mkCstate [] [] 0))
    as [[c' series']|] eqn:Hrun; [|vm_compute in Hrun; discriminate Hrun].
  destruct (write_backends_isolated three_backends 1 7 backend_keys [cpu_series "web01" 5000] (mkCstate [] [] 0) c' series')
    as (Hok & Hsame & _); [split; simpl; lia|exact Hrun|].
  vm_compute in Hrun. injection Hrun as <- <-. split_and!; [reflexivity..|exact Hok|exact Hsame].
Defined.

(** A queue for one sample: the second sample is refused. *)
Definition sample_queue (iq : IdentQueue) (pc : ppc) : pushstate := mkPushstate {["0" := 9%nat]} {[9%nat := iq]} {[1%nat := pc]}.
Definition one_sample : IdentQueue := iq_push 20 (cpu_series "web01" 2) (iq_push 10 (cpu_series "web01" 1) (NewIdentQueue 1 10)).

Lemma sample_steps : psteps 1 100 (mkPushstate ∅ ∅ {[1%nat := PReady]}) (sample_queue one_sample PReady).
Proof.
  eapply psteps_step; [eapply psteps_step; [eapply psteps_step; [eapply psteps_step; [eapply psteps_step;
    [apply psteps_refl|]|]|]|]|].
  - apply (pstep_read_miss _ _ _ 1 "0" (cpu_series "web01" 1)); reflexivity.
  - apply (pstep_install _ _ _ 1 "0" (cpu_series "web01" 1) 9 10); reflexivity.
  - apply (pstep_push _ _ _ 1 9 (cpu_series "web01" 1) 10); reflexivity.
  - apply (pstep_read_hit _ _ _ 1 "0" (cpu_series "web01" 2) 9); reflexivity.
  - refine (eq_rect _ (pstep 1 100 _) (pstep_push _ _ _ 1 9 (cpu_series "web01" 2) 20 _) _ _); reflexivity.
Qed.

Lemma samples_conserved_witness :
  iq_accepted one_sample = [cpu_series "web01" 1] ∧
  ∃ p' iq', psteps 1 100 (sample_queue one_sample PReady) p' ∧ pw_store p' !! 9%nat = Some iq' ∧
    iq_handed iq' = iq_accepted one_sample.
Proof.
  split; [reflexivity|].
  apply (samples_conserved 1 100 {[1%nat := PReady]} (sample_queue one_sample PReady) 9 one_sample).
  - lia.
  - apply sample_steps.
  - reflexivity.
  - reflexivity.
Defined.

(** ** The push gateway *)

Definition gw_conf : Pushgw :=
  PushConf.mkPushgw 3 500 3000 20 16 false 16 10 "busigroup" [] 1500 5000000 5000 true false
    [] 1000 100 4 (F64 1) 4000 200 3 1 499 [].
Definition tagged_web01 : Target :=
  web01 <| Tgt.TagsMap := {["env" := "prod"; "zone" := "a"]} |> <| Tgt.GroupId := 5 |>.
Definition gw_router : router :=
  mkRouter gw_conf {["web01" := tagged_web01]} {[5 := BusiGrp.mkBusiGroup 5 "ops" 1 "ops" 0 "" 0 ""]}.
Definition env_labels : list Label := [Lbl.mkLabel "__name__" "cpu"; Lbl.mkLabel "env" "test"; Lbl.mkLabel "ident" "web01"].

Lemma AppendLabels_merges_witness :
  lmap (AppendLabels gw_router env_labels tagged_web01) =
    {["__name__" := "cpu"; "env" := "prod"; "ident" := "web01"; "zone" := "a"; "busigroup" := "ops"]} ∧
  NoDup (map Lbl.Name (AppendLabels gw_router env_labels tagged_web01)).
Proof.
  destruct (AppendLabels_merges gw_router env_labels tagged_web01) as [Hnd Hmap].
  - evaluate.
  - left. evaluate.
  - split; [|exact Hnd]. rewrite Hmap. apply (bool_decide_eq_true_1 _). vm_compute. reflexivity.
Defined.

Lemma remoteWrite_spec_witness :
  ∃ s' queueid, remoteWrite Some gw_router 0 (Ok [cpu_series "web01" 1]) false true (mkRstate 0 [] ∅) = Ret (s', RText 200 "") ∧
    length (r_pushed s') = 1%nat ∧ map fst (r_pushed s') = [queueid] ∧ "web01" ∈ r_idents s'.
Proof.
  destruct (remoteWrite_spec gw_router 0 [cpu_series "web01" 1] false true (mkRstate 0 [] ∅))
    as (s' & q & Hrw & (new & Hnew & _ & Hall) & Hreg).
  - simpl. lia.
  - simpl. lia.
  - exists s', q. split; [exact Hrw|]. assert (length new = 1%nat) as Hlen.
    { rewrite <- (length_map ts_Samples new), Hall; [reflexivity|reflexivity|].
      intros v ->%list_elem_of_singleton. evaluate. }
    rewrite Hnew. destruct new as [|a [|]]; [discriminate Hlen| |discriminate Hlen].
    split_and!; [reflexivity|reflexivity|].
    apply (Hreg (cpu_series "web01" 1) "web01"); [by left|evaluate|right; left|discriminate|reflexivity|reflexivity].
Defined.

Lemma memory_redis_up c : 0 < ic_RetryCount c → redis_up (W := gmap string string) c.
Proof.
  intros Hc m w. unfold writeTargetTsInRedis.
  assert (∀ kvs : list (string * HostUpdateTime), ∃ l, encode_all kvs = Ok l) as Henc.
  { intros kvs. induction kvs as [|[k v] kvs [l Hl]]; [by exists []|]. simpl. rewrite Hl. by eexists. }
  destruct (Z.to_nat (ic_RetryCount c)) as [|n] eqn:En; [lia|]. cbn [write_retries].
  unfold storage_MSet. destruct (Henc (go_range m)) as [l ->]. reflexivity.
Qed.

(** The host is registered, persisted at 1000, and not missing at 1050. *)
Lemma pushed_host_alive_witness :
  ∃ s' si' w', remoteWrite Some gw_router 0 (Ok [cpu_series "web01" 1]) false true (mkRstate 0 [] ∅) = Ret (s', RText 200 "") ∧
    persist (mkIdentConf true 20 3 false 10) (λ _, 1%nat) (r_idents s') 1000
      (mkIstate (Some (∅ : gmap string string)) (∅ : gmap string Z) [] [] []) = Ret (∅, si') ∧ i_redis si' = Some w' ∧
    ¬ ∃ p, p ∈ target_miss (sched_conf engine_a) (mkHosts {["default" := {[7 := ["web01"]]}]} (Some (data_redis (rp_data w'))))
             web_targets 7 1050 miss_trigger ∧
           Point.Labels p !! "ident" = Some "web01".
Proof.
  apply (pushed_host_alive gw_router 0 [cpu_series "web01" 1] (cpu_series "web01" 1) "web01" (mkRstate 0 [] ∅)
    (mkIdentConf true 20 3 false 10) (λ _, 1%nat) 1000
    (mkIstate (Some (∅ : gmap string string)) (∅ : gmap string Z) [] [] []) ∅ (sched_conf engine_a)
    {["default" := {[7 := ["web01"]]}]} web_targets 7 1050 miss_trigger).
  - simpl. lia.
  - simpl. lia.
  - reflexivity.
  - by left.
  - evaluate.
  - right. left.
  - discriminate.
  - by apply memory_redis_up.
  - simpl. lia.
  - reflexivity.
  - intros i. exact I.
  - intros ident value h Hget. discriminate Hget.
  - intros i t Ht. unfold web_targets in Ht. apply lookup_singleton_Some in Ht as [<- <-]. reflexivity.
  - simpl. lia.
Defined.

(** ** Data sources *)

#[export] Instance no_tls : TlsLib := {| x509_key_pair := λ _ _, None; certs_from_pem := λ _, true |}.
#[export] Instance any_address : ApiLib := {| api_NewClient := λ _, None |}.

Definition addressed (id : Z) (url : string) : Datasource :=
  prom_source <| Source.Id := id |>
    <| Source.HTTPJson := HttpSet.zero <| HttpSet.Url := url |> |>
    <| Source.SettingsJson := Some {["write_addr" := IString "http://w"]} |>.
Definition old_client : PromOption := mkPromOption "old" "http://old" "" "" "" 0 0 0 [] TlsSet.zero.
Definition old_clients : pcstate :=
  mkPcstate {[2 := old_client; 3 := old_client]} {[2 := old_client; 3 := old_client]} {[2 := old_client; 3 := old_client]}.

Lemma addressed_strings id url : addrs_are_strings (addressed id url).
Proof. 
  intros k v Hv _. change (({["write_addr" := IString "http://w"]} : gmap string iface) !! k = Some v) in Hv.
  apply lookup_singleton_Some in Hv as [_ <-]. by eexists.
Qed.

(** Keys that are blank PEM files, and an encryption that reverses nothing but
    refuses long texts. *)
#[export] Instance plain_crypto : Crypto.
Proof.
  refine {| pubkey := unit; privkey := unit; pem_Decode := λ s, Some s; x509_DecryptPEMBlock := λ b _, Ok b;
            x509_ParsePKCS1PrivateKey := λ _, Ok tt; x509_ParsePKIXPublicKey := λ _, Ok (Some tt);
            rsa_EncryptPKCS1v15 := λ _ _ m, if (String.length m <? 246)%nat then Ok ("c" +:+ m) else Err "message too long";
            rsa_DecryptPKCS1v15 := λ _ c, Ok (str_drop 1 c); base64_encode := λ s, s; base64_decode := λ s, s |}.
  - done.
  - done.
  - intros rand k m c. destruct (_ <? _)%nat; [|done]. by intros [= <-].
Defined.

(** Data source 1 is new, 2 lost its address and keeps its client, 3 is gone. *)
Lemma prom_clients_follow_witness :
  ∃ pc', loadFromDatabase true None (Ok [addressed 1 "http://p"]) (Ok [addressed 2 ""]) old_clients = Ret pc' ∧ pc_ok pc' ∧
    pc_ReaderClients pc' !! 3 = None ∧ pc_ReaderClients pc' !! 2 = Some old_client ∧
    ∃ po, pc_ReaderClients pc' !! 1 = Some po ∧ po_Url po = "http://p".
Proof.
  destruct (prom_clients_follow true None [addressed 1 "http://p"] [addressed 2 ""] old_clients) as (pc' & Hl & Hok & Hids & _).
  - split; reflexivity.
  - repeat constructor; apply addressed_strings.
  - evaluate.
  - exists pc'. split; [exact Hl|]. split; [exact Hok|]. split.
    + apply eq_None_not_Some. intros Hs. apply Hids in Hs. change (3 ∈ [1; 2]) in Hs.
      repeat (apply elem_of_cons in Hs as [Hs|Hs]; [discriminate Hs|]). by apply not_elem_of_nil in Hs.
    + vm_compute in Hl. injection Hl as <-. split; [reflexivity|]. eexists. split; reflexivity.
Defined.

(** Settings with one address. *)
#[export] Instance settings_json : Json (option (gmap string iface)) := {|
  json_marshal := λ m, match map_to_list (default ∅ m) with
                       | [(k, IString u)] => if String.eqb k "addr" then Ok ("S" +:+ u) else Err "unsupported"
                       | _ => Err "unsupported"
                       end;
  json_unmarshal := λ s old, if has_prefix s "S" then (Some {["addr" := IString (str_drop 1 s)]}, None) else (old, Some "no")
|}.

Lemma user_pass_dec : EqDecision AuthSet.Auth.
Proof. solve_decision. Defined.
Definition admin_login : AuthSet.Auth := AuthSet.mkAuth true "admin" "secret".
#[export] Instance auth_json : Json AuthSet.Auth := {|
  json_marshal := λ a, if user_pass_dec a admin_login then Ok "A" else Err "unsupported";
  json_unmarshal := λ s old, if String.eqb s "A" then (admin_login, None) else (old, Some "no")
|}.

#[export] Instance settings_lib : SettingsJsonLib.
Proof.
  split.
  - intros m s. cbn. destruct (map_to_list m) as [|[k v] [|]] eqn:Hm; [done| |by destruct v].
    destruct v as [|u| | | | | | |]; try done. destruct (String.eqb_spec k "addr") as [->|]; [|done].
    intros [= <-]. split; [done|]. unfold has_prefix. rewrite (prefix_app "S").
    change (str_drop 1 ("S" +:+ u)) with u. by rewrite <- (list_to_map_to_list m), Hm.
  - intros a s old. cbn. destruct (user_pass_dec a admin_login) as [->|]; [|done]. by intros [= <-].
Defined.

Definition secret_source : Datasource :=
  prom_source <| Source.SettingsJson := Some {["addr" := IString "http://w"]} |> <| Source.AuthJson := admin_login |>.
Definition edge_rsa : RsaConfig := mkRsaConfig true "" "private".

Lemma edge_gets_settings_witness :
  match Encrypt "r1" "r2" true "public" (fst (Datasource_FE2DB secret_source)) with
  | Ret (sent, None) =>
      Source.SettingsEncoded sent = "enc:cShttp://w" ∧ Source.AuthJson sent = AuthSet.mkAuth true "" "" ∧
      Source.AuthJson (decrypt_received (Some edge_rsa) (json_fields sent)) = admin_login
  | _ => False
  end.
Proof.
  destruct (Encrypt "r1" "r2" true "public" (fst (Datasource_FE2DB secret_source))) as [[sent [e|]]|] eqn:He;
    [vm_compute in He; discriminate He| |vm_compute in He; discriminate He].
  assert (Source.AuthJson (decrypt_received (Some edge_rsa) (json_fields sent)) =
          Source.AuthJson (fst (Datasource_FE2DB secret_source))) as ->.
  { apply (edge_gets_settings secret_source (fst (Datasource_FE2DB secret_source)) {["addr" := IString "http://w"]}
      "public" edge_rsa "r1" "r2" sent).
    - reflexivity.
    - vm_compute. reflexivity.
    - exists "public", tt, tt. split_and!; [reflexivity..|]. intros rand m c. cbn [rsa_EncryptPKCS1v15 plain_crypto].
      case_match; [|done]. by intros [= <-].
    - reflexivity.
    - exact He. }
  vm_compute in He. injection He as <-. split_and!; reflexivity.
Defined.

(** ** Recording rules *)

#[export] Instance any_names : PromNames := {| metric_name_ok := λ s, negb (String.eqb s ""); label_name_ok := λ s, negb (String.eqb s "") |}.

Definition cpu_record : RecordingRule :=
  RecRule.zero <| RecRule.Id := 5 |> <| RecRule.Name := "cpu:sum" |> <| RecRule.PromQl := "sum(cpu)" |>
               <| RecRule.AppendTags := " team=ops  " |>
               <| RecRule.DatasourceQueries := [DsQuery.zero <| DsQuery.MatchType := 2 |>] |>.
Definition stored_record : RecordingRule := fst (Record_Verify cpu_record).

(** The second value is NaN, the third has an invalid label. *)
Definition cpu_vector : query_value :=
  VVector [({["__name__" := "cpu"; "ident" := "web01"]}, (100, F64 3)); (∅, (100, NaN)); ({["" := "x"]}, (101, F64 4))].

Lemma recording_converts_witness :
  ConvertToTimeSeries cpu_vector (Record_DB2FE stored_record) =
    Ret [mkTimeSeries [Lbl.mkLabel "__name__" "cpu:sum"; Lbl.mkLabel "ident" "web01"; Lbl.mkLabel "team" "ops"]
           [mkSample (F64 3) 100000];
         mkTimeSeries [Lbl.mkLabel "__name__" "cpu:sum"; Lbl.mkLabel "team" "ops"] [mkSample (F64 4) 101000]].
Proof.
  rewrite (recording_converts cpu_record stored_record cpu_vector); [vm_compute; reflexivity|].
  vm_compute. reflexivity.
Defined.

(** Engine b owns the rule on the data source. *)
Definition record_round : gmap Z RecordingRule * gmap string ring * rec_state :=
  syncRecordRules "10.0.0.2:17000" sources {[7 := cpu_record <| RecRule.Id := 7 |>]} (n_rings ring_state) (mkRecState 0 ∅ []).

Lemma syncRecordRules_spec_witness :
  is_Some (rr_recordRules (snd record_round) !! record_hash (cpu_record <| RecRule.Id := 7 |>) 1).
Proof.
  destruct record_round as [[rules rings] s'] eqn:Hrun. cbn [snd].
  apply (syncRecordRules_spec "10.0.0.2:17000" sources {[7 := cpu_record <| RecRule.Id := 7 |>]} (n_rings ring_state)
    (mkRecState 0 ∅ []) rules rings s').
  - intros i r Hr. apply lookup_singleton_Some in Hr as [<- <-]. reflexivity.
  - exact Hrun.
  - exists 7, (cpu_record <| RecRule.Id := 7 |>), 1. split_and!; [reflexivity| |reflexivity]. evaluate.
Defined.

(** ** External events *)

(** A round of the scheduler, and then an anomaly pushed from outside for a rule
    that has no processor. *)
Lemma external_invariant_witness :
  ext_ok (s_external ((after_round engine_b no_workers) <| s_external := s_external (after_round engine_b no_workers) |>)).
Proof.
  destruct (round engine_b no_workers) as [[[r1 g1] s1]|] eqn:H1; [|vm_compute in H1; discriminate H1].
  assert (after_round engine_b no_workers = s1) as -> by (unfold after_round; by rewrite H1).
  assert (s_external s1 = ∅) as Hext.
  { assert (s1 = after_round engine_b no_workers) as -> by (unfold after_round; by rewrite H1). vm_compute. reflexivity. }
  apply (external_invariant (sched_conf engine_b) no_workers).
  - reflexivity.
  - intros key e He. by destruct (lookup_empty_Some key e He).
  - eapply rtc_l; [exact (ext_round _ _ _ _ _ _ _ _ _ H1)|].
    apply rtc_once. apply (ext_run _ prom_caches 1000 (SHandle (RuleKey 1 7) [] false) tt _ tt).
    cbn [run_spawned]. rewrite Hext. reflexivity.
Defined.
