(* ===== verification/NotifyWitnesses.v ===== *)
(** * Concrete instances for notification channels

    Queues of tasks, templates, hashes and files in memory, and the theorems about
    channels, their cache and the messages of notification rules applied to concrete
    values. *)

From Stdlib Require Import Ascii.
From S2P Require Import Prelude GoStrings Json Models RuleModels EventOps Http Queues Dispatch Senders Callbacks.
From S2P Require Import Channels ChannelCache Notify Witnesses EngineWitnesses PushWitnesses.
Open Scope string_scope.
Open Scope Z_scope.
Open Scope list_scope.

(** ** Instances *)

#[export] Instance list_tasks : TaskQueueLib.
Proof.
  refine {| tqueue := list NotifyTask; tq_new := λ _, []; tq_items := λ q, q;
            tq_PushFront := λ q t, (t :: q, true); tq_PopBack := λ q, (take (length q - 1) q, last q) |}.
  - done.
  - done.
  - intros q. destruct q as [|x q _] using rev_ind; [done|]. rewrite last_snoc, length_app. simpl.
    replace (length q + 1 - 1)%nat with (length q) by lia. by rewrite take_app_length.
  - intros q. destruct q as [|x q _] using rev_ind; [done|]. simpl. by rewrite last_snoc.
Defined.

#[export] Instance no_hash : HashLib := {| sha256 := λ s, s; hmac_sha256 := λ k s, k +:+ s; hex_EncodeToString := λ s, s |}.
#[export] Instance plain_tmpl : TemplateLib := {|
  tmpl := string; html_Parse := λ _ s, Ok s; text_Parse := λ _ s, Ok s; tmpl_Execute := λ t _, (t, None); show_data := λ _, ""
|}.
#[export] Instance no_query : QueryLib := {| req_Query := λ _, ∅; req_SetQuery := λ u _, u |}.
#[export] Instance call_clock : ClockLib (list string) := {|
  clock_now := λ w, Z.of_nat (length w); uuid_New := λ w, (w, "id"); utc_day := itoa; utc_time := itoa; rfc3339 := itoa
|}.
#[export] Instance no_files : Os (list string) := {|
  file_IsExist := λ _ _, false; file_ToString := λ _ _, Err "no file"; file_WriteString := λ w _ _, (w, None);
  os_Chmod := λ w _, (w, None); os_Start := λ w p _, (w ++ [p], None); os_Wait := λ w _, (w, ("done", None, false))
|}.

(** ** The cache of channels *)

Definition hook_request : HTTPRequestConfig :=
  HttpReq.mkHTTPRequestConfig "http://hook" "POST" ∅ "" 0 2 0 0 None (ReqDetail.mkRequestDetail ∅ "" "{}").
Definition hook_channel (updated : Z) : NotifyChannelConfig :=
  NChan.mkNotifyChannelConfig 4 "hook" "hook" "" true None "http"
    (Some (ReqConf.mkRequestConfig (Some hook_request) None None None None)) 1 0 "root" updated "root".
Definition hook_task : NotifyTask := mkNotifyTask pair_events 1 (hook_channel 100) ∅ ∅ [].

(** The channel is loaded, and a task is enqueued. *)
Definition hook_cache : ncache :=
  match NC_Set {[4 := hook_channel 100]} 1 100 NewNotifyChannelCache with Ret s => s | Panic => NewNotifyChannelCache end.
Definition hook_busy : qsys := mkQsys (fst (EnqueueNotifyTask hook_task hook_cache)) [] [].

Lemma hook_busy_reach : qs_reach hook_busy.
Proof.
  unfold qs_reach. eapply rtc_l; [by apply (qs_set {[4 := hook_channel 100]} 1 100 _ hook_cache)|].
  apply EnqueueNotifyTask_steps.
Qed.

Lemma channel_resources_witness :
  ∃ s', NC_Set {[4 := hook_channel 101]} 1 101 (qs_cache hook_busy) = Ret s' ∧
    length (running (nc_closed s') (nc_http s') 4) = 2%nat ∧ length (sl_workers (nc_http s')) = 4%nat.
Proof.
  destruct (channel_resources {[4 := hook_channel 101]} 1 101 hook_busy hook_busy_reach) as (s' & Hs & _ & Hrun).
  exists s'. split; [exact Hs|]. destruct (Hrun 4 (nc_http s') want_http (or_introl eq_refl)) as (_ & -> & _).
  vm_compute in Hs. injection Hs as <-. split; vm_compute; reflexivity.
Defined.

(** The task that waited when the channel was edited is never taken. *)
Definition hook_edited : ncache :=
  match NC_Set {[4 := hook_channel 101]} 1 101 (qs_cache hook_busy) with Ret s => s | Panic => NewNotifyChannelCache end.

Lemma update_abandons_witness :
  abandoned 0 [hook_task] (mkQsys hook_edited [] []) ∧
  sl_chan (nc_http hook_edited) !! 4 = Some 2%nat.
Proof.
  split; [|vm_compute; reflexivity].
  apply (update_abandons {[4 := hook_channel 101]} 1 101 hook_busy hook_edited (mkQsys hook_edited [] []) 4
    (fst (put_client 4 (hook_channel 100) NewNotifyChannelCache)) 0 [hook_task]).
  - apply hook_busy_reach.
  - vm_compute. reflexivity.
  - intros ch. rewrite lookup_singleton_eq. intros [= <-]. vm_compute. discriminate.
  - vm_compute. reflexivity.
  - vm_compute. reflexivity.
  - intros i quit []%elem_of_nil.
  - vm_compute. reflexivity.
  - apply rtc_refl.
Defined.

(** ** Messages *)

Definition flash_channel : NotifyChannelConfig :=
  NChan.mkNotifyChannelConfig 5 "flash" "flash" "" true None "flashduty"
    (Some (ReqConf.mkRequestConfig (Some hook_request) None None
             (Some (FlashReq.mkFlashDutyRequestConfig "" "http://flash" 0 0 0)) None)) 1 0 "root" 100 "root".
Definition message_start : @nrstate (list string) ten_records list_tasks := mkNrstate _ _ _ quiet NewNotifyChannelCache [].

(** The cache has no client for the channel: the failed call is recorded for both
    events. *)
Lemma rule_message_accounted_witness :
  ∃ st', SendNotifyRuleMessage no_show center_cx no_show id id ∅ ∅ "" pair_events 1 NotifyConf.zero flash_channel None
           message_start = Ret st' ∧
    map record_key (rq_items (ss_records (nr_s st'))) = [("flash", "0", 12); ("flash", "0", 11)].
Proof.
  destruct (rule_message_accounted no_show center_cx no_show id id ∅ ∅ "" pair_events 1 NotifyConf.zero flash_channel None
    message_start) as (st' & Hs & _ & target & rs & Hk & Hi & _).
  - reflexivity.
  - vm_compute. reflexivity.
  - discriminate.
  - discriminate.
  - intros target. vm_compute. lia.
  - exists st'. split; [exact Hs|]. rewrite Hi. rewrite app_nil_r. unfold reverse. rewrite <- rev_alt, map_rev, Hk. vm_compute. reflexivity.
Defined.
