(* ===== verification/UserWitnesses.v ===== *)
(** * Concrete instances for users and sessions

    A directory and signed tokens in memory, small tables, and the theorems about
    permissions, the directory and sessions applied to them. *)

From Stdlib Require Import Ascii.
From S2P Require Import Prelude GoStrings Json Models RuleModels RuleOps Callbacks Sources Users Permissions Ldap Sessions.
From S2P Require Import Witnesses EngineWitnesses PushWitnesses.
Open Scope string_scope.
Open Scope Z_scope.
Open Scope list_scope.

(** ** Instances *)

#[export] Instance plain_users : UserLib.
Proof.
  refine {| str_IsPhone := λ _, true; str_IsMail := λ _, true; unicode_IsPrint := λ _, true;
            slice_SubString := λ a b, List.filter (λ x, negb (smem x b)) a |}.
  intros a b x. rewrite list_elem_of_In, filter_In, <- list_elem_of_In, negb_true_iff. unfold smem. by rewrite bool_decide_eq_false.
Defined.

Definition no_phones : phone_config := mkPhoneConfig false "" "" "" false.

(** ** Permissions *)

Definition ops_user (id : Z) (name : string) : User :=
  Usr.zero <| Usr.Id := id |> <| Usr.Username := name |> <| Usr.Roles := "Standard" |> <| Usr.RolesLst := ["Standard"] |>
    <| Usr.Password := "<-*Uk30^96eY*->secret" |>.
Definition dev_group : BusiGroup := BusiGrp.mkBusiGroup 1 "dev" 0 "" 0 "root" 0 "root".
Definition web_group : BusiGroup := BusiGrp.mkBusiGroup 2 "web" 0 "" 0 "root" 0 "root".
Definition team (id : Z) : UserGroup := UserGrp.zero <| UserGrp.Id := id |> <| UserGrp.Name := itoa id |>.
(** Users 7 and 8; team 3 with user 7 writes group 1; team 4 with user 8 only reads it. *)
Definition small_db : pdb :=
  mkPdb [ops_user 7 "ann"; ops_user 8 "bob"] [team 3; team 4] [mkUserGroupMember 3 7; mkUserGroupMember 4 8]
    [dev_group; web_group] [mkBusiGroupMember 1 3 "rw"; mkBusiGroupMember 1 4 "ro"; mkBusiGroupMember 2 4 "rw"]
    [mkRoleOperation "Standard" "/busi-groups/put"] [] [] [] ∅ 100 [].

Lemma small_db_ok : groups_ok small_db.
Proof.
  split.
  - repeat constructor; set_solver.
  - repeat constructor; set_solver.
  - intros b. simpl. rewrite !elem_of_cons, elem_of_nil. intros [->|[->|[]]]; vm_compute; done.
  - repeat constructor; set_solver.
  - constructor.
  - intros b. simpl. rewrite !elem_of_cons, elem_of_nil. intros [->|[->|[]]].
    + exists (mkBusiGroupMember 1 3 "rw"). split; [by left|done].
    + exists (mkBusiGroupMember 2 4 "rw"). split; [set_solver|done].
Qed.

(** Ann adds team 4 with flag rw to the group; Bob, who can only read it, cannot. *)
Definition add : request := BgMembersAdd [mkBusiGroupMember 1 4 "rw"].
Lemma request_authorised_witness :
  (authorised small_db (ops_user 7 "ann") 1 add ∧ frame 1 add small_db (fst (serve no_phones [] (ops_user 7 "ann") 1 50 add small_db))) ∧
  serve no_phones [] (ops_user 8 "bob") 1 50 add small_db = (small_db, Bomb 403 "forbidden").
Proof.
  split; [|vm_compute; reflexivity].
  destruct (request_authorised no_phones [] (λ q msg H, False_ind _ (proj1 (elem_of_nil (q, msg)) H))
    (ops_user 7 "ann") 1 50 add small_db) as [H|H]; [|exact H].
  exfalso. destruct H as [f H]. apply (f_equal db_bgm) in H. vm_compute in H. discriminate H.
Defined.

(** The group keeps a team: the second deletion is refused.  The first one leaves no
    team that can write. *)
Definition del_ann : request := BgMembersDel [mkBusiGroupMember 1 3 "rw"].
Definition del_bob : request := BgMembersDel [mkBusiGroupMember 1 4 "ro"].
Definition after_ann : pdb := fst (serve no_phones [] (ops_user 7 "ann") 1 50 del_ann small_db).
Definition after_bob : pdb := fst (serve no_phones [] ((ops_user 7 "ann") <| Usr.RolesLst := [AdminRole] |>) 1 51 del_bob after_ann).

Lemma groups_invariant_witness :
  groups_ok after_bob ∧ db_bgm after_bob = [mkBusiGroupMember 1 4 "ro"; mkBusiGroupMember 2 4 "rw"].
Proof.
  split; [|vm_compute; reflexivity].
  apply (groups_invariant no_phones [] (λ q msg H, False_ind _ (proj1 (elem_of_nil (q, msg)) H)) small_db after_bob small_db_ok).
  apply (rtc_l _ small_db after_ann after_bob).
  - exact (gh_request no_phones [] (ops_user 7 "ann") 1 50 del_ann small_db).
  - apply rtc_once. exact (gh_request no_phones [] ((ops_user 7 "ann") <| Usr.RolesLst := [AdminRole] |>) 1 51 del_bob after_ann).
Defined.

(** ** The directory *)

Definition ldap_people : list ldap_entry :=
  [mkLdapEntry "cn=carl" [("uid", ["carl"]); ("memberOf", ["ops"])]; mkLdapEntry "cn=ann" [("uid", ["ann"])]].
(** Searches work as long as [up]. *)
Definition memory_ldap (up : bool) : LdapServer := {|
  ldap_conn := unit; ldap_Dial := λ _ _, Ok tt; ldap_StartTLS := λ _, Ok tt; ldap_Bind := λ _ _ _, Ok tt;
  ldap_Search := λ _ _ _ _, if up then Ok ldap_people else Err "busy"
|}.
Definition small_ldap : SsoClient :=
  LdapNew (mkLdapConfig true "ldap" 389 "dc=example" "" "" true true 60 "(uid=*)" "(uid=%s)"
    (mkLdapAttributes "uid" "" "" "" "") true true false false ["Guest"] [] [mkRoleTeamMapping "ops" ["Standard"] [3]]).

(** Dora left the directory, Ann is a local user, Carl is new. *)
Definition with_dora : pdb :=
  small_db <| db_users := [ops_user 7 "ann"; (ops_user 9 "dora") <| Usr.Belong := "ldap" |>] |>.
Lemma with_dora_ok : users_ok with_dora.
Proof.
  split.
  - repeat constructor; set_solver.
  - repeat constructor; set_solver.
  - intros u. simpl. rewrite !elem_of_cons, elem_of_nil. intros [->|[->|[]]]; vm_compute; done.
Qed.

Definition sso_map : gmap string User :=
  match LdapUserGetAll (LS := memory_ldap true) small_ldap 60 with Ok m => m | Err _ => ∅ end.

Lemma sso_map_ok : LdapUserGetAll (LS := memory_ldap true) small_ldap 60 = Ok sso_map.
Proof.
  unfold sso_map. destruct (LdapUserGetAll _ _) eqn:E; [done|].
  apply (f_equal (λ r, match r with Ok _ => true | Err _ => false end)) in E. vm_compute in E. discriminate E.
Qed.

Lemma ldap_sync_users_witness :
  ∃ d', SyncAddAndDelUsers (LS := memory_ldap true) no_phones small_ldap 60 with_dora = (d', Ok tt) ∧ ldap_user d' "carl" ∧ ¬ ldap_user d' "dora" ∧ ¬ ldap_user d' "ann".
Proof.
  destruct (ldap_sync_users no_phones small_ldap 60 sso_map with_dora eq_refl eq_refl eq_refl eq_refl with_dora_ok sso_map_ok)
    as (d' & Hs & _ & Hn).
  exists d'. split; [exact Hs|]. split_and!.
  - apply Hn. split; [destruct (sso_map !! "carl") eqn:E; [by eexists|vm_compute in E; discriminate E]|].
    intros (u & Hu & Hun & _). simpl in Hu. rewrite !elem_of_cons, elem_of_nil in Hu.
    destruct Hu as [->|[->|[]]]; vm_compute in Hun; discriminate Hun.
  - intros [[v Hv] _]%Hn. assert (sso_map !! "dora" = None) as Hd by (vm_compute; reflexivity). congruence.
  - intros [_ Hl]%Hn. apply Hl. exists (ops_user 7 "ann"). split_and!; [by left|done|vm_compute; discriminate].
Defined.

(** Searches fail: Dora is deleted, and would be if she were in the directory. *)
Lemma ldap_search_failure_witness :
  ∃ d', SyncAddAndDelUsers (LS := memory_ldap false) no_phones small_ldap 60 with_dora = (d', Ok tt) ∧ ∀ u, u ∈ db_users d' → Usr.Belong u ≠ "ldap".
Proof.
  apply (ldap_search_failure (LS := memory_ldap false) no_phones small_ldap 60 tt with_dora); try reflexivity.
  - exact with_dora_ok.
  - intros. by eexists.
Defined.

(** ** Sessions *)

Fixpoint bits (p : positive) : string :=
  match p with xH => "" | xO p => String "0" (bits p) | xI p => String "1" (bits p) end.
Fixpoint unbits (s : string) : positive :=
  match s with "" => xH | String "0" s => xO (unbits s) | String _ s => xI (unbits s) end.
Lemma unbits_bits p : unbits (bits p) = p.
Proof. induction p; simpl; by f_equal. Qed.

(** Tokens are the key and the claims, written out. *)
Definition jwt_text (key : string) (c : claims) : string := String "t" (bits (encode (key, cl_strings c, cl_exp c))).
#[export] Instance plain_jwt : JwtLib.
Proof.
  refine {|
    jwt_SignedString := λ key c, Ok (jwt_text key c);
    jwt_Parse := λ key now t,
      match t with
      | "" => Err "no token"
      | String _ b =>
          match (decode (unbits b) : option (string * gmap string string * Z)) with
          | Some (k, m, e) => if String.eqb k key then if now <=? e then Ok (mkClaims m e) else Err "Token is expired" else Err "key"
          | None => Err "no token"
          end
      end
  |}.
  - intros key [m e] t [= <-] now. unfold jwt_text. rewrite unbits_bits, decode_encode. simpl. by rewrite String.eqb_refl.
  - by intros key c t [= <-].
Defined.

#[local] Existing Instance plain_jwt.
Definition auth : JWTAuth := mkJWTAuth "key" 5 10 "/jwt/" false.
Definition plain_login : login_config := mkLoginConfig false false "" "".
Definition no_ldap : SsoClient := ldap_zero.
#[local] Instance ldap_down : LdapServer := memory_ldap false.
Definition logout_nowhere (belong idToken : string) : string := "".
Definition login_db : pdb := small_db <| db_configs := {[ "login_fail_count" := "300 2" ]} |>.
Definition calm : world := mkWorld login_db ∅ [].

Lemma auth_id_keys x n : wrapJwtKey auth x ≠ wrapIdTokenKey n.
Proof. done. Qed.
Lemma auth_fail_keys x n : wrapJwtKey auth x ≠ fail_key n.
Proof. done. Qed.

Definition ann_login := loginPost no_phones auth plain_login no_ldap true (1000 * second) "" "u1" "ann" "secret" "" "" calm.
Definition ann_world : world := fst ann_login.
Definition ann_tokens : TokenDetails :=
  match snd ann_login with Val (_, td) => td | _ => mkTokenDetails "" "" "" "" 0 0 end.
Lemma ann_login_ok : ∃ u, ann_login = (ann_world, Val (u, ann_tokens)) ∧ Usr.Id u = 7 ∧ Usr.Username u = "ann".
Proof. eexists. split; [vm_compute; reflexivity|]. split; reflexivity. Qed.

(** Bob logs in while Ann is logged in. *)
Definition bob_login : list (Z * server_event) := [(1010 * second, WLogin true "" "u2" "bob" "secret" "" "")].

Definition serve_all : list (Z * server_event) → world → world := run no_phones auth plain_login no_ldap logout_nowhere.

Lemma session_lifecycle_witness :
  ∃ ex, 1298 * second < ex ≤ 1300 * second ∧ ∀ now utc,
    snd (tokenAuth auth (mkTokenAuth true "") utc now (bearer (td_AccessToken ann_tokens))) (serve_all bob_login ann_world)
    = (serve_all bob_login ann_world, if now <? ex then Val (7, "ann") else Answered 401 "unauthorized").
Proof.
  destruct ann_login_ok as (u & Hl & Hid & Hn).
  destruct (session_lifecycle no_phones auth plain_login no_ldap logout_nowhere auth_id_keys auth_fail_keys true
    (1000 * second) "" "u1" "ann" "secret" "" "" calm ann_world u ann_tokens bob_login) as (ex & He & Hex).
  - reflexivity.
  - reflexivity.
  - exact Hl.
  - rewrite Hid. split; done.
  - rewrite Hid. done.
  - simpl. lia.
  - repeat constructor. intros [H|H]; vm_compute in H; discriminate H.
  - vm_compute. reflexivity.
  - rewrite Hid, Hn in Hex. exists ex. split; [unfold second, minute in *; simpl in *; lia|]. intros now utc. apply Hex. discriminate.
Defined.

(** Ann logs out. *)
Definition ann_logout : server_event := WLogout (bearer (td_AccessToken ann_tokens) "Authorization") (ops_user 7 "ann").
Definition logged_out : world := serve_all ((1020 * second, ann_logout) :: bob_login) ann_world.
Lemma session_revoked_witness :
  snd (tokenAuth auth (mkTokenAuth false "") NewUserTokenCache (1030 * second) (bearer (td_AccessToken ann_tokens))) logged_out
    = (logged_out, Answered 401 "unauthorized").
Proof.
  apply (session_revoked no_phones auth plain_login no_ldap logout_nowhere auth_id_keys auth_fail_keys "u1" (1020 * second)
    ann_logout ann_world bob_login).
  - reflexivity.
  - split; [eexists; split; vm_compute; reflexivity|]. eexists. vm_compute. reflexivity.
  - repeat constructor; intros H; [exact H|vm_compute in H; discriminate H].
  - vm_compute. reflexivity.
  - discriminate.
  - intros cl Hcl. vm_compute in Hcl. injection Hcl as <-. vm_compute. reflexivity.
Defined.

(** Two failures within five minutes lock Ann out. *)
Definition two_failures : list (Z * string) := [(1000 * second, "a"); (1010 * second, "b")].
Lemma not_secret p : p ≠ "secret" → ¬ right no_phones "ann" login_db p.
Proof.
  intros Hp (u & Hu & Hc). vm_compute in Hu. injection Hu as <-. unfold CryptoPass in Hc. vm_compute in Hc.
  injection Hc as Hc. by simplify_eq.
Qed.
Definition locked : world := logins no_phones "ann" two_failures calm.
Lemma login_lockout_witness :
  PassLogin no_phones (1300 * second) "ann" "secret" locked = (locked, Failed "reach login fail count") ∧
  ∃ u, PassLogin no_phones (1290 * second) "ann" "secret" (logins no_phones "ann" (take 1 two_failures) calm)
       = (logins no_phones "ann" (take 1 two_failures) calm, Val u).
Proof.
  assert (limited 300 2 calm) as Hl by (split; [done|done|]; exists "300 2"; split; vm_compute; reflexivity).
  assert (Forall (λ '(_, p), ¬ right no_phones "ann" login_db p) two_failures) as Hf
    by (repeat constructor; by apply not_secret).
  split.
  - apply (login_lockout no_phones "ann" 300 2 ltac:(lia) ltac:(lia) two_failures (1300 * second) "secret" calm Hl); done.
  - apply (login_lockout no_phones "ann" 300 2 ltac:(lia) ltac:(lia) (take 1 two_failures) (1290 * second) "secret" calm Hl); try done.
    + exact (Forall_take _ 1 _ Hf).
    + exists ((ops_user 7 "ann") <| Usr.Admin := false |>). split; vm_compute; reflexivity.
Defined.
