(* ===== verification/RuleWitnesses.v ===== *)
(** * Concrete instances for the API of alert rules

    A table with two rules in two business groups, columns that are written as they are,
    and the theorems about requests applied to them; and a change that gives two rules of
    a group the same name. *)

From Stdlib Require Import QArith_base.
From S2P Require Import Prelude GoStrings GoTime Json Models RuleModels RuleOps Callbacks Users Permissions AlertRuleApi RuleRequests.
From S2P Require Import Witnesses EngineWitnesses PushWitnesses UserWitnesses.
Open Scope string_scope.
Open Scope Z_scope.
Open Scope list_scope.

(** ** Instances *)

(** The columns that are used here; another one does not exist. *)
Definition set_column (kv : string * iface) (r : AlertRule) : result AlertRule :=
  if String.eqb (fst kv) "callbacks" then match snd kv with IString s => Ok (r <| Rule.Callbacks := s |>) | _ => Err "type" end
  else if String.eqb (fst kv) "update_by" then match snd kv with IString s => Ok (r <| Rule.UpdateBy := s |>) | _ => Err "type" end
  else if String.eqb (fst kv) "update_at" then match snd kv with IInt t => Ok (r <| Rule.UpdateAt := t |>) | _ => Err "type" end
  else if String.eqb (fst kv) "disabled" then match snd kv with IFloat f => Ok (r <| Rule.Disabled := float64_to_int f |>) | _ => Err "type" end
  else Err "Unknown column".
#[export] Instance small_columns : RuleColumns :=
  {| set_columns := λ cols r, foldr (λ kv x, match x with Ok x => set_column kv x | Err e => Err e end) (Ok r) cols |}.

Lemma set_columns_keeps {B} (f : AlertRule → B) (c : string) cols r r' :
  (∀ kv x x', set_column kv x = Ok x' → fst kv ≠ c → f x' = f x) →
  set_columns cols r = Ok r' → c ∉ cols.*1 → f r' = f r.
Proof.
  intros Hf. revert r'. induction cols as [|kv cols IH]; simpl; [by intros r' [= <-]|]. intros r' Hs Hc.
  destruct (foldr _ (Ok r) cols) as [r1|e] eqn:E; [|done]. rewrite (Hf kv r1 r' Hs) by set_solver. apply IH; [done|set_solver].
Qed.

#[export] Instance small_columns_laws : RuleColumnsLaws.
Proof.
  split.
  - intros cols r r'. apply (set_columns_keeps Rule.Id). intros [k v] x x'. unfold set_column.
    repeat case_match; intros; simplify_eq; done.
  - intros cols r r'. apply (set_columns_keeps Rule.Callbacks). intros [k v] x x'. unfold set_column. cbn [fst snd].
    destruct (String.eqb_spec k "callbacks"); [done|]. repeat case_match; intros; simplify_eq; done.
  - intros s r r'. simpl. by intros [= <-].
Defined.

#[export] Instance plain_api : ApiText := {|
  i18n_Sprintf := λ _ s, s; yaml_groups := λ _, Err "yaml"; yaml_rules := λ _, Err "yaml"; yaml_rule := λ _, Err "yaml"
|}.
#[export] Instance no_durations : DurationLib := {| ParseDuration := λ _, None |}.

(** ** Rules *)

Definition small_rule (id group : Z) (name : string) : AlertRule :=
  Rule.zero <| Rule.Id := id |> <| Rule.GroupId := group |> <| Rule.Name := name |> <| Rule.Prod := "metric" |>
    <| Rule.Cate := "prometheus" |> <| Rule.RuleConfig := "{}" |> <| Rule.PromEvalInterval := 15 |>.
(** Ann writes group 1 and may do what there is to do with rules. *)
Definition small_rules : rdb :=
  mkRdb (small_db <| db_ops := [mkRoleOperation "Standard" "/alert-rules/add"; mkRoleOperation "Standard" "/alert-rules/put";
                                mkRoleOperation "Standard" "/alert-rules/del"] |>)
    {[1 := small_rule 1 1 "cpu"; 2 := small_rule 2 2 "cpu"; 3 := small_rule 3 1 "disk"]} [] 4.

Lemma small_lookup i row : rd_rules small_rules !! i = Some row →
  (i = 1 ∧ row = small_rule 1 1 "cpu") ∨ (i = 2 ∧ row = small_rule 2 2 "cpu") ∨ (i = 3 ∧ row = small_rule 3 1 "disk").
Proof.
  unfold small_rules. cbn [rd_rules]. intros Hi. apply lookup_insert_Some in Hi as [[<- <-]|[_ Hi]]; [auto|].
  apply lookup_insert_Some in Hi as [[<- <-]|[_ Hi]]; [auto|]. apply lookup_singleton_Some in Hi as [<- <-]; auto.
Qed.

Lemma small_rules_ok : table_ok small_rules.
Proof.
  split.
  - intros i row Hi. by apply small_lookup in Hi as [[-> ->]|[[-> ->]|[-> ->]]].
  - split; [done|]. intros i row Hi. by apply small_lookup in Hi as [[-> _]|[[-> _]|[-> _]]].
  - intros i row Hi. assert (rule_ok (fst (AlertRule_Verify row))) as Hok.
    { apply (AlertRule_Verify_ok row). apply small_lookup in Hi as [[_ ->]|[[_ ->]|[_ ->]]]; vm_compute; reflexivity. }
    assert (fst (AlertRule_Verify row) = row) as E by (apply small_lookup in Hi as [[_ ->]|[[_ ->]|[_ ->]]]; vm_compute; reflexivity).
    by rewrite E in Hok.
  - intros i j r r' Hi Hj. apply small_lookup in Hi as [[-> ->]|[[-> ->]|[-> ->]]], Hj as [[-> ->]|[[-> ->]|[-> ->]]]; done.
Qed.

Definition ann : User := ops_user 7 "ann".

(** Ann asks to delete rules of both groups through her own; the rule of the other stays.  She
    switches it off through the route that changes fields, where her own group is checked. *)
Definition del_two : rule_request := RuleDel 1 [1; 2].
Definition off_two : rule_request := RuleFields 1 [2] {["disabled" := IFloat (F64 1)]} "".
Lemma rule_request_authorised_witness :
  may_bg (rd_perm small_rules) ann 1 (Some "rw") ∧
  rd_rules (fst (serve_rule true ann 60 del_two small_rules)) !! 1 = None ∧
  rd_rules (fst (serve_rule true ann 60 del_two small_rules)) !! 2 = Some (small_rule 2 2 "cpu") ∧
  may_op (rd_perm small_rules) ann "/alert-rules/put" ∧
  Rule.Disabled <$> rd_rules (fst (serve_rule true ann 60 off_two small_rules)) !! 2 = Some 1.
Proof.
  split; [|split; [vm_compute; reflexivity|split; [vm_compute; reflexivity|split; [|vm_compute; reflexivity]]]].
  2:{ destruct (rule_request_authorised true ann 60 off_two small_rules (tb_keyed _ small_rules_ok)) as [_ H].
      destruct (H 2) as [E|[Hop _]]; [exfalso; vm_compute in E; discriminate E|exact Hop]. }
  destruct (rule_request_authorised true ann 60 del_two small_rules (tb_keyed _ small_rules_ok)) as [_ H].
  destruct (H 1) as [E|[_ Hm]].
  - exfalso. vm_compute in E. discriminate E.
  - apply (Hm (small_rule 1 1 "cpu")). left. vm_compute. reflexivity.
Defined.

(** Ann adds a rule and renames another. *)
Definition add_mem : rule_request := RuleAdd 1 [(small_rule 0 0 "mem") <| Rule.RuleConfigJson := IMap [] |>] "".
Definition put_disk : rule_request := RulePut 3 ((small_rule 0 0 "disk full") <| Rule.RuleConfigJson := IMap [] |>).
Definition after_add : rdb := fst (serve_rule true ann 60 add_mem small_rules).
Definition after_put : rdb := fst (serve_rule true ann 61 put_disk after_add).

Lemma rules_invariant_witness :
  table_ok after_put ∧ map (λ kr, Rule.Name (snd kr)) (map_to_list (rd_rules after_put)) ≡ₚ ["cpu"; "cpu"; "disk full"; "mem"].
Proof.
  split.
  - apply (rules_invariant true small_rules after_put small_rules_ok). apply (rtc_l _ small_rules after_add after_put).
    + exact (rs_request true ann 60 add_mem small_rules I eq_refl).
    + apply rtc_once. refine (rs_request true ann 61 put_disk after_add _ eq_refl). vm_compute. reflexivity.
  - vm_compute. solve_Permutation.
Defined.

(** The name is compared before the space around it is dropped, and rule 3 takes the name of
    rule 1 of the same group. *)
Definition put_spaced : rule_request := RulePut 3 ((small_rule 0 0 " cpu") <| Rule.RuleConfigJson := IMap [] |>).
Theorem put_duplicates_name :
  (λ r, (Rule.GroupId r, Rule.Name r)) <$> rd_rules (fst (serve_rule true ann 60 put_spaced small_rules)) !! 3 =
  (λ r, (Rule.GroupId r, Rule.Name r)) <$> rd_rules small_rules !! 1.
Proof. vm_compute. reflexivity. Qed.

(** Ann, who may write group 1 only, switches off the rule of group 2. *)
Lemma fields_of_any_group_witness :
  Rule.Disabled <$> rd_rules (fst (alertRulePutFields true ann 1 [2] {["disabled" := IFloat (F64 1)]} "" 60 small_rules)) !! 2 = Some 1.
Proof.
  destruct (AlertRule_DB2FE (small_rule 2 2 "cpu")) as [ar|] eqn:Efe; [|vm_compute in Efe; discriminate Efe].
  rewrite (fields_of_any_group true ann 1 dev_group 2 (F64 1) 60 small_rules (small_rule 2 2 "cpu") ar
    ((small_rule 2 2 "cpu") <| Rule.Disabled := 1 |>)
    ((small_rule 2 2 "cpu") <| Rule.Disabled := 1 |> <| Rule.UpdateAt := 60 |> <| Rule.UpdateBy := "ann" |>)); try done.
Defined.

(** Adding a callback to a rule that has one leaves only the new one. *)
Definition called_rules : rdb := small_rules <| rd_rules := {[1 := (small_rule 1 1 "cpu") <| Rule.Callbacks := "http://a" |>]} |>.
Lemma callback_add_replaces_witness :
  ∃ row, rd_rules (fst (alertRulePutFields true ann 1 [1] {["callbacks" := IString "http://b"]} "callback_add" 60 called_rules)) !! 1
         = Some row ∧ Rule.Callbacks row = "http://b".
Proof.
  apply (callback_add_replaces true ann 1 1 "http://b" "callback_add" 60 called_rules _ ((small_rule 1 1 "cpu") <| Rule.Callbacks := "http://a" |>));
    vm_compute; reflexivity.
Defined.

(** The name is taken in group 1; the copy to group 2 is not tried. *)
Lemma clone_gives_up_witness :
  clone_to ann 3 "" 60 (Ok (Some (small_rule 3 1 "disk"))) [1; 2] ∅ small_rules =
  (small_rules, Users.Done {["3-1" := "AlertRule already exists"; "3-2" := "AlertRule already exists"]}).
Proof.
  rewrite (clone_gives_up ann 3 "" 60 (small_rule 3 1 "disk") 1 [2] ∅ small_rules small_rules "AlertRule already exists").
  - vm_compute. reflexivity.
  - vm_compute. reflexivity.
Defined.
