(* ===== verification/CustomWitnesses.v ===== *)
(** * Concrete instances for aggregation, suppression and mutes

    Codecs and a schedule in memory, small tables, and the theorems about the custom
    rules applied to them. *)

From Stdlib Require Import Ascii.
From stdpp Require Import gmultiset.
From S2P Require Import Prelude GoStrings Json Models RuleModels Filter Workflow Engine Processors Interleave Denoise Incidents.
From S2P Require Import Suppress CustomMute Bootstrap CustomApi CustomAudit.
Open Scope string_scope.
Open Scope Z_scope.
Open Scope list_scope.

(** ** Instances *)

#[local] Instance equal_text : Regexp := {| re_compile := λ _, None; re_match := String.eqb |}.

#[local] Instance strings_json : Json (list string) := {|
  json_marshal := λ l, Ok (String "["%char (join l ","));
  json_unmarshal := λ s _, (match s with String _ r => split r "," | "" => [] end, None)
|}.
#[local] Instance strings_round_trip : JsonRoundTrip (list string) [].
Proof.
  refine {| json_wf := λ l, l ≠ [] ∧ forallb (str_forall (char_neb ","%char)) l = true |}.
  intros l [Hne Hl]. eexists. split; [done|]. split; [done|]. simpl. by rewrite (split_join ","%char "").
Defined.
#[local] Instance no_filters_json : Json (list TagFilter) := {|
  json_marshal := λ _, Ok "[]"; json_unmarshal := λ _ _, ([], None) |}.
#[local] Instance labels_json : Json (gmap string string) := {|
  json_marshal := λ _, Ok "{}"; json_unmarshal := λ _ old, (old, None) |}.

(** Text that starts with a bracket is taken for JSON. *)
Definition bracketed (s : string) : bool := match s with String c _ => Ascii.eqb c "["%char | "" => false end.
#[local] Instance bracket_json : RawJson := {|
  raw_value := λ s, if bracketed s then Ok s else Err "invalid character";
  raw_array := λ s, if bracketed s then None else Some "invalid character"
|}.
#[local] Instance rows_json : Json auditable := {|
  json_marshal := λ a, if forallb (λ s, String.eqb s "" || bracketed s) (json_columns a) then Ok "{}" else Err "invalid character";
  json_unmarshal := λ _ old, (old, None) |}.
#[local] Instance bracket_laws : RawJsonLaws.
Proof.
  split; simpl.
  - intros s v. destruct (bracketed s) eqn:E; [|done]. intros [= <-]. rewrite E. by destruct s.
  - intros s. destruct (bracketed s); [by eexists|done].
  - by intros l b [= <-].
  - done.
  - intros a Ha. assert (forallb (λ s, String.eqb s "" || bracketed s) (json_columns a) = true) as ->; [|by eexists].
    induction Ha as [|s l (v & Hs) _ IH]; [done|]. simpl. rewrite IH, andb_true_r. unfold JSONArr_Scan in Hs.
    destruct (String.eqb s ""); [done|]. simpl in *. by destruct (bracketed s).
Defined.

(** A schedule that fires at every whole hour. *)
Definition hour : Z := nanoseconds 3600.
#[local] Instance hourly : RobfigCron := {|
  schedule := unit;
  cron_Parse := λ _, Ok tt;
  cron_Next := λ _ _ t, Some ((t / hour + 1) * hour);
  LoadLocation := λ _, None
|}.
#[local] Instance hourly_laws : RobfigLaws.
Proof.
  refine {| fires := λ _ _ t, t mod hour = 0 |}; [|done].
  intros [] l t f [= <-]. unfold hour, nanoseconds, time_Second.
  pose proof (Z.div_mod t (3600 * 1000000000)). pose proof (Z.mod_pos_bound t (3600 * 1000000000)).
  split; [lia|]. split; [by rewrite Z_mod_mult|]. intros g Hg Hlt.
  apply Z_div_exact_full_2 in Hg; [|lia]. rewrite Hg in *.
  assert (t / (3600 * 1000000000) < g / (3600 * 1000000000)) by (apply Z.div_lt_upper_bound; lia). nia.
Defined.

(** ** Aggregation *)

Definition disk_full (host : string) : AlertCurEvent :=
  Event.zero <| Event.Hash := host |> <| Event.RuleName := "DiskFull" |> <| Event.Severity := 2 |>
    <| Event.TagsMap := {["host" := host; "svc" := "db"]} |>.

Definition by_host : CustomAggregateRule :=
  mkAggregateRule 7 0 "by host" "" "[host,svc" 300 "" "" [] 0 60 "" [] 0 0 "root" "root" 0 0.

Definition no_rows : denoise := mkDenoise ∅ [] 1 1 ∅ ∅ [Some by_host] (Some (NewAggregator [])) 1000 [].

Lemma incident_key_identifies_witness :
  BuildIncidentKey (Some (disk_full "a")) ["svc"; "host"] = BuildIncidentKey (Some (disk_full "a")) ["host"; "svc"] ∧
  (BuildIncidentKey (Some (disk_full "a")) ["host"; "svc"] = BuildIncidentKey (Some (disk_full "b")) ["host"; "svc"] ↔
   ∀ d, d ∈ ["host"; "svc"] → alike (Event.TagsMap (disk_full "a") !! d) (Event.TagsMap (disk_full "b") !! d)).
Proof.
  destruct (incident_key_identifies (disk_full "a") (disk_full "b") ["host"; "svc"]) as [Hperm Hiff]; [done|..].
  - repeat constructor.
  - intros d Hd. apply elem_of_cons in Hd as [->|Hd]; [by repeat split|]. apply list_elem_of_singleton in Hd as ->. by repeat split.
  - split; [|exact Hiff]. apply Hperm. constructor.
Defined.

Lemma disk_full_of_incident host :
  host = "a" → of_incident [Some by_host] by_host ["host"; "svc"] "host=a|svc=db" (disk_full host).
Proof. intros ->. split; [by vm_compute|]. split; [by vm_compute|]. by exists "{}". Qed.

Lemma burst_is_one_incident_witness :
  ∃ s' first rest inc,
    arrivals (NewAggregator []) [(1000, disk_full "a"); (1200, disk_full "a"); (1400, disk_full "a")] no_rows = (s', Ok first :: map Ok rest) ∧
    r_Decision first = DecisionFireFirst ∧ length rest = 2%nat ∧ dn_incidents s' !! r_IncidentId first = Some inc ∧ ci_EventCount inc = 3.
Proof.
  destruct (burst_is_one_incident (NewAggregator []) by_host ["host"; "svc"] "host=a|svc=db" no_rows 1000 (disk_full "a")
    [(1200, disk_full "a"); (1400, disk_full "a")]) as (s' & first & rest & inc & Hrun & Hfirst & Hlen & _ & _ & Hinc & _ & _ & Hcnt & _);
    [done|done|done|done|done| |done|done| |done|done|].
  - repeat constructor; by apply disk_full_of_incident.
  - simpl. lia.
  - by exists s', first, rest, inc.
Defined.

Definition one_handler : step (AlertCurEvent * result Result) :=
  r ← Handle (NewAggregator []) (Some (disk_full "a")); mret (disk_full "a", r).

Lemma incidents_accounted_witness :
  ∃ s p, steps meanwhile handler (no_rows, []) (s, [p]) ∧
    ∀ i inc, dn_incidents s !! i = Some inc →
      Z.of_nat (count_links i s) <= ci_EventCount inc <= Z.of_nat (count_links i s) + 1.
Proof.
  assert (steps meanwhile handler (no_rows, []) ((run one_handler no_rows).1, [Done (run one_handler no_rows).2])) as Hs.
  { eapply rtc_l; [apply (step_start _ _ no_rows [] one_handler); by exists (NewAggregator []), (disk_full "a")|].
    apply (run_steps meanwhile handler [] one_handler []). apply surjective_pairing. }
  exists (run one_handler no_rows).1, (Done (run one_handler no_rows).2). split; [exact Hs|].
  exact (proj1 (incidents_accounted no_rows _ _ (conj eq_refl (conj eq_refl (conj eq_refl eq_refl))) Hs)).
Defined.

Definition one_event : WorkflowContext := WfCtx.zero <| WfCtx.Event := Some (disk_full "a") |>.

(** The second event of an incident is dropped; when the statement fails it passes. *)
Definition one_open : denoise := (run (Handle (NewAggregator []) (Some (disk_full "a"))) no_rows).1.
Definition failing_db : denoise := one_open <| dn_faults := [Some "gone away"] |>.

Lemma aggregate_fails_open_witness :
  (∃ s' msg, run (AggregateConfig_Process (Some (mkAggregateConfig "")) one_event) one_open =
     (s', Ret (one_event <| WfCtx.Event := None |>, Ok (SameCtx, msg))) ∧ length (dn_links s') = 2%nat) ∧
  (∃ s' msg, run (AggregateConfig_Process (Some (mkAggregateConfig "")) one_event) failing_db = (s', Ret (one_event, Ok (SameCtx, msg)))).
Proof.
  split.
  - pose proof (aggregate_fails_open (Some (mkAggregateConfig "")) one_event one_open) as Hopen.
    destruct (run (AggregateConfig_Process (Some (mkAggregateConfig "")) one_event) one_open) as [s' r] eqn:Hrun.
    destruct Hopen as [[(msg & Hr)|(e & i & _ & Hl & msg & Hr)] _].
    + exfalso. apply (f_equal snd) in Hrun. rewrite Hr in Hrun. vm_compute in Hrun. discriminate Hrun.
    + exists s', msg. rewrite Hr, Hl. split; [reflexivity|vm_compute; reflexivity].
  - pose proof (aggregate_fails_open (Some (mkAggregateConfig "")) one_event failing_db) as Hopen.
    destruct (run (AggregateConfig_Process (Some (mkAggregateConfig "")) one_event) failing_db) as [s' r].
    destruct Hopen as [_ Hpass]. destruct Hpass as (msg & ->); [right; left; by eexists|]. by exists s', msg.
Defined.

(** ** Suppression *)

Definition label_is (key value : string) : TagFilter := TagFlt.zero <| TagFlt.Key := key |> <| TagFlt.Func := "==" |> <| TagFlt.Value := IString value |>.

Definition host_down : CompiledRule :=
  mkCompiledRule (mkInhibitRule 3 0 "host down" "" "" "" "" [] "" [] 0 "root" "root" 0 0)
    [label_is "alertname" "HostDown"] [label_is "layer" "service"] ["host"].

Definition down (host : string) : AlertCurEvent :=
  Event.zero <| Event.Hash := "down-" +:+ host |> <| Event.TagsMap := {["host" := host; "alertname" := "HostDown"]} |>.
Definition service_fails (host : string) : AlertCurEvent :=
  Event.zero <| Event.Hash := "svc-" +:+ host |> <| Event.TagsMap := {["host" := host; "layer" := "service"]} |>.

Lemma suppressed_has_cause_witness :
  ∃ t0 rules0 e0 r0 r, (t0, rules0, e0) ∈ [(1000, [host_down], down "a")] ∧ r0 ∈ rules0 ∧ r ∈ [host_down] ∧
    is_source e0 r0 = true ∧ is_target (service_fails "a") r = true ∧ 1500 <= t0 + 600.
Proof.
  destruct (suppressed_has_cause 600 [(1000, [host_down], down "a")] 1500 [host_down] (service_fails "a")
    (Decide (Some (service_fails "a")) [host_down] (at_second 1500 (evaluated 600 [(1000, [host_down], down "a")]))).2)
    as (t0 & rules0 & e0 & r0 & r & Hin & Hr0 & Hr & _ & _ & Hsrc & Htgt & _ & _ & Ht & _);
    [lia|lia|repeat constructor; simpl; lia|done|by vm_compute|].
  by exists t0, rules0, e0, r0, r.
Defined.

Lemma sink_conserves_witness :
  (last [Offer (toRow (suppression_record (service_fails "a") no_verdict)); Cancelled] = Some Cancelled →
   sk_buf (sink_run [Offer (toRow (suppression_record (service_fails "a") no_verdict)); Cancelled] (NewAsyncSink 0 0 0 [])) = []) ∧
  sk_flushed (sink_run [Offer (toRow (suppression_record (service_fails "a") no_verdict)); Cancelled] (NewAsyncSink 0 0 0 [])) = 1.
Proof.
  destruct (sink_conserves 0 0 0 [] [Offer (toRow (suppression_record (service_fails "a") no_verdict)); Cancelled]
    (sink_run [Offer (toRow (suppression_record (service_fails "a") no_verdict)); Cancelled] (NewAsyncSink 0 0 0 [])) eq_refl)
    as (_ & Hfl & _ & Hlast).
  split; [intros Hc; apply Hlast; exact Hc|]. rewrite Hfl. reflexivity.
Defined.

(** ** Schedules *)

Definition every_hour : CompiledCron := mkCompiledCron (Some tt) "" 600.

Lemma schedule_active_iff_fired_witness :
  IsActive (Some every_hour) (hour + nanoseconds 60) = true ↔
  ∃ f, fires tt "" f ∧ hour + nanoseconds 60 - nanoseconds 600 < f <= hour + nanoseconds 60.
Proof. apply (schedule_active_iff_fired every_hour tt (hour + nanoseconds 60)); [done|done|by vm_compute]. Defined.

(** ** The API *)

Definition as_admin : request := mkRequest (Some true) (Some "root") "" ∅ "10.0.0.1" 1000.
Definition switch_on : emergencyMutePutReq := mkEmergencyReq 1 "storm" 2000 [] [].
Definition idle_hook : hooks := mkHooks (NewRootCauseIndex 600 1500) (NewAsyncSink 0 0 0 []).
Definition no_config : api_db := mkApi ∅ ∅ ∅ None ∅ [] [] [] 1 [] idle_hook.

Lemma no_config_ids : api_ids no_config.
Proof. repeat split; try done; by intros ? ?; rewrite lookup_empty. Qed.



Definition by_host_req : aggregateRuleWriteReq := mkAggregateReq 0 "by host" "" ["host"; "svc"] 0 "" [1; 2] [1] 0 0 0 5.

Definition bad_filters_req : aggregateRuleWriteReq := by_host_req <| aq_Filters := "host" |>.

Lemma aggregate_rule_roundtrip_witness :
  (∃ s' rule rules, aggregateRuleCreate as_admin by_host_req no_config = (s', Data rule) ∧
     aggregate_loader (Ok (rows (ap_aggregate s'))) = Ok rules ∧ rule ∈ rules ∧ ar_DatasourceIdsJson rule = [1; 2]) ∧
  (∃ s' rule err, aggregateRuleCreate as_admin bad_filters_req no_config = (s', Data rule) ∧
     aggregate_loader (Ok (rows (ap_aggregate s'))) = Err err).
Proof.
  split.
  - destruct (aggregateRuleCreate as_admin by_host_req no_config) as [s' r] eqn:E.
    destruct r as [rule|err|code msg]; [|exfalso; revert E; by vm_compute..].
    destruct (aggregate_rule_roundtrip as_admin by_host_req no_config s' rule) as (Hds & _ & _ & _ & _ & _ & Hload & _);
      [apply no_config_ids|repeat constructor; by vm_compute|repeat constructor; by vm_compute|by left|].
    vm_compute in E. injection E as <- <-. destruct (Hload _ eq_refl eq_refl) as (filters & [= <-] & Hin).
    eexists _, _, _. split; [done|]. split; [done|]. split; [exact Hin|done].
  - destruct (aggregateRuleCreate as_admin bad_filters_req no_config) as [s' r] eqn:E.
    destruct r as [rule|err|code msg]; [|exfalso; revert E; by vm_compute..].
    destruct (aggregate_rule_roundtrip as_admin bad_filters_req no_config s' rule) as (_ & _ & _ & _ & _ & _ & _ & _ & Hbad);
      [apply no_config_ids|repeat constructor; by vm_compute|repeat constructor; by vm_compute|by left|].
    destruct Hbad as (err & Herr); [done|by intros (v & Hv)|]. by exists s', rule, err.
Defined.

(** The state after the switch was set. *)
Definition switched : api_db := (emergencyMutePut as_admin switch_on no_config).1.
Definition after_ticks (readings : list (result CustomEmergencyMute)) : Evaluator :=
  mkEvaluator None (Some (foldl (λ st r, emergency_tick r st) emergency_off readings)).

Lemma emergency_switch_mutes_witness :
  InstalledHook (after_ticks [Err "gone away"; emergency_reading switched]) [host_down] (Some (down "a")) (nanoseconds 1500) idle_hook
  = (idle_hook, true) ∧
  ¬ muted_by_switch (after_ticks [emergency_reading switched; Err "gone away"]) (down "a") (nanoseconds 1500).
Proof.
  destruct (emergencyMutePut as_admin switch_on no_config) as [s' [row|err|code msg]] eqn:E; [|exfalso; revert E; by vm_compute..].
  assert (switched = s') as Hs by (unfold switched; by rewrite E). split.
  - destruct (emergency_switch_mutes as_admin switch_on no_config s' row emergency_off [Err "gone away"] (emergency_reading switched)
      (after_ticks [Err "gone away"; emergency_reading switched]) [host_down] (down "a") (nanoseconds 1500) idle_hook) as (Hon & _);
      [done|done|constructor|constructor|by left|by left|done|]. apply Hon; [by rewrite Hs|right; by vm_compute].
  - destruct (emergency_switch_mutes as_admin switch_on no_config s' row emergency_off [emergency_reading switched] (Err "gone away")
      (after_ticks [emergency_reading switched; Err "gone away"]) [host_down] (down "a") (nanoseconds 1500) idle_hook) as (_ & _ & Hoff);
      [done|done|constructor|constructor|by left|by left|done|]. apply Hoff. by eexists.
Defined.
